(* ===== verification/_CoqProject ===== *)
-Q . S2P
Prelude.v
DpsLsn.v
Mem.v
DpsRecord.v
DpsRecordFacts.v
DpsOp2Record.v
DpsOp2Thms.v
DpsOp2Trip.v
DpsThms.v
DpsBuffer.v
DpsRing.v
DpsAlloc.v
DpsRun.v
DpsPlace.v
DpsRunInv.v
DpsRunThms.v
DpsBufThms.v
DpsLogFile.v
DpsLogFileFacts.v
DpsFilesRun.v
DpsFilesThms.v
DpsRestore.v
DpsReopen.v
DpsRestoreThms.v
DpsTrans.v
DpsTransFacts.v
DpsTransView.v
RtnTrans.v
RtnTransRun.v
RtnTransInv.v
RtnTransAll.v
RtnTransThms.v
DpsTransSpace.v
DpsTransSync.v
LzwDict.v
LzwCreate.v
Lzw.v
LzwBits.v
LzwRound.v
LzwTrie.v
LzwRank.v
LzwItems.v
LzwCst.v
LzwDst.v
LzwFinal.v
LzwThms.v
TransLockDef.v
TransLockBucket.v
TransLock.v
TransLockSafety.v
TransLockState.v
TransLockQueue.v
TransLockSession.v
TransLockBag.v
TransLockNoWait.v
DpsTransLock.v
Sme.v
SmeFacts.v
SmeMgr.v
Vote.v
VoteFacts.v
SyncHeap.v
SyncHeapFacts.v
Sync.v
SyncFacts.v
SyncRun.v
SyncMembers.v
ReplSet.v
ReplSetFacts.v
ReplSetInv.v
ReplSetRun.v
ReplSetGroup.v
ReplSetThms.v
ReplFlow.v
CatLock.v
CatLockInv.v
CatLockOps.v
CatLockObj.v
CatLockThms.v
