(* ===== verification/Prelude.v ===== *)
(** * SequoiaDB engine: a verification library

    SequoiaDB is a distributed document database.  Its engine
    ([src/SequoiaDB/engine]) runs as a data, catalog or coordinator node.  A
    data node executes operations in sessions (EDUs, [pmd/]); a session takes
    transaction locks on spaces, collections and records ([dps/]), changes
    records and indexes in memory-mapped storage units ([dms/], [ixm/]),
    whose records may be compressed with a dictionary trained on the
    collection ([util/]), appends the change to the replication log, and when the caller asked for
    several copies waits until enough replicas of its group have the log
    ([cls/]).  The replicas of a group elect the primary among themselves
    ([cls/]).  The catalog node guards the objects it changes with level
    locks ([cat/]).  This library models twelve of these parts as executable
    definitions translated from the sources and proves what they promise.

    ** The parts and their files

    - Return codes, machine integers and the ordered map that stands for
      [std::map] with integer keys: this file.

    - Record compression.  [Mem]: checked reads and writes of arrays, [None]
      when an index leaves the array.  [LzwDict]: the stored dictionary, its
      packed table items and lookups ([include/utilLZWDictionary.hpp]).
      [LzwCreate]: training, ranking and the formatting of the tables
      ([util/utilLZWDictionary.cpp]).  [Lzw]: the bit stream, the three
      compression levels and the decoders ([util/utilCompressorLZW.cpp]).
      [std::sort] is the class [StdSort] with its documented contract
      [StdSortSpec].

    - Log records.  [DpsLsn]: log sequence numbers ([include/dpsLogDef.hpp]).
      [DpsRecord]: records with their elements, loading and searching
      ([dps/dpsLogRecord.cpp]) and the bytes [_mergeLogs] writes for one.
      [DpsOp2Record]: an encoder and a decoder for every replicated operation
      ([dps/dpsOp2Record.cpp]).  Pointers are the memory they show, so a read
      outside of a record is seen.

    - The log buffer.  [DpsBuffer]: the ring of pages in which sessions
      reserve room, which they fill later and in any order, the queue of full
      pages and the search by LSN ([dps/dpsReplicaLogMgr.cpp],
      [include/dpsLogPage.hpp], [dps/dpsMergeBlock.cpp]).  [DpsRun]: the
      manager with the sessions around it, their page locks, a session that
      waits in the middle of [preparePages], and an endless file, as a system
      of steps.

    - The log files.  [DpsLogFile]: files with their headers that are written
      one after the other and reused in turn ([dps/dpsLogFile.cpp],
      [dps/dpsLogFileMgr.cpp]), and what the manager does with them: search,
      flushing, commit and shutdown ([dps/dpsReplicaLogMgr.cpp]).  The files
      of the operating system are the class [PosixFile] with the contract
      [PosixFileSpec]; transfers may be short.  [DpsFilesRun]: the steps of
      [DpsRun] with these files in the place of the endless one.
      [DpsRestore]: the start from files that exist, and moving the end of
      the log ([_restore], [_analysis], [move]).

    - Transactions.  [DpsTrans]: the transaction control block with the table
      of unfinished transactions that every node keeps from the log
      ([dps/dpsTransCB.cpp]).  [RtnTrans]: what a session does to begin, to
      commit and to roll back, and the rollback of all unfinished
      transactions by a new primary ([rtn/rtnTransaction.cpp],
      [dps/dpsLogWrapper.cpp]).  The log is the list of its records there,
      and a replay that undoes a change answers with an error or with the
      change it logged.  The locks are the class [TransLocks]; [DpsTransLock]
      has the lock functions of the control block and the instance for the
      lock manager below.  [RtnTransRun]: sessions as a system of steps, the
      rounds of their rollbacks interleaved.

    - Transaction locks.  [TransLockDef]: lock ids, lock infos, the part of
      the session control block the lock manager uses
      ([dps/dpsTransLockDef.cpp], [pmd/pmdEDU.cpp]), the shared state [world]
      and the monad [lockM] that threads it.  [TransLockBucket]: the buckets
      with run lists and wait queues ([dps/dpsTransLockBucket.cpp]).
      [TransLock]: the manager ([dps/dpsTransLock.cpp]); the acquire and the
      try family are the same code over different bucket entries, so they
      are one definition over the class [BucketOps] with two instances.
      Lock infos live in the shared store and the wait queue is the chain of
      their [_pNextWaitCB] pointers, as in the code.  A wait runs the next
      function of an [environment], which is what the other threads did
      meanwhile; a null or dangling pointer is the outcome [Crash], a wait
      that never ends is [Blocked].

    - Space management.  [Sme]: the bitmap of a storage unit
      ([include/dmsStorageBase.hpp]), the segments with their lists of packed
      free runs and the manager ([dms/dmsSMEMgr.cpp]).  The parameters of the
      section are the pages per segment and their logarithm, which the
      storage unit supplies.

    - Election.  [Vote]: the vote machine with its five statuses
      ([cls/clsVoteMachine.cpp], [cls/clsVoteStatus.cpp], [cls/clsVS*.cpp])
      and the group information they share ([include/clsDef.hpp]).  A handler
      maps the machine to the new machine, the messages and notifications it
      sends, and the next status.

    - Replication waits.  [SyncHeap]: the heap of waiting sessions
      ([include/clsSyncMinHeap.hpp]).  [Sync]: the sync manager
      ([cls/clsSyncManager.cpp]), the event a session waits on
      ([oss/ossEvent.cpp]) and the call of the replica set.  It reads the
      group information of [Vote].

    - Replicate set.  [ReplSet]: the set that owns group information, vote
      machine and sync manager ([cls/clsReplicateSet.cpp]), with the requests
      it repeats to the catalog ([cls/clsCatalogCaller.cpp]) and the table of
      routes.  A handler is a computation on the set that lists what it sends.
      [ReplFlow]: the flow control of the log and the reelection of a primary
      ([cls/clsReelection.cpp]); what each round of a wait sees is an element
      of a list.

    - Catalog level locks.  [CatLock]: the tree of lock nodes, the level
      locks and the lock objects of collection spaces, collections, groups,
      nodes and domains ([cat/catLevelLock.cpp]).  Nodes and latches are
      finite maps from addresses that are never reused, so a dangling pointer
      is seen as a crash.  The [boost] shared mutex is the class
      [SharedMutex] with the contract [SharedMutexSpec].

    ** What is proved

    - [LzwBits], [LzwRound]: the bit stream is a queue of bits, and over the
      class [DictOk], which says what the coder needs of a dictionary,
      decompression inverts compression within the promised bound and ratio.
      [LzwTrie], [LzwRank]: the node array is a trie with sorted brothers
      and reference counts that fall along every path, kept by training.
      [LzwRank], [LzwItems], [LzwCst], [LzwDst], [LzwFinal]: the nodes that
      get codes are closed under prefixes, the compression table is their
      breadth-first layout, the decompression table stores each string, and
      the finished dictionary satisfies [DictOk].  [LzwThms]: the theorems on
      whole runs, and inputs that the coder loses.

    - [DpsRecordFacts]: the arrays of a record represent a list of elements,
      and loading inverts writing.  [DpsOp2Thms], [DpsOp2Trip]: what each encoder puts into a record and each decoder
      takes out of it.  [DpsThms]: the theorems on records and operations,
      and the limit that encoding does not check.

    - [DpsRing], [DpsAlloc]: positions of the log and their place
      in the ring; room is reserved, filled and read at consecutive
      positions, and the begin LSNs of the pages are those of the first
      records that start in them.  [DpsPlace]: what [preparePages] does with
      a block that fits.  [DpsRunInv], [DpsRunThms]: an invariant of every
      run, and what it says about readers and files and about
      sessions that wait with their padding placed.  [DpsBufThms]: the
      theorems on the buffer, and the operation that one session logs and
      another reads.

    - [DpsLogFileFacts]: transfers are complete, and flushing a page keeps the
      files in step with the end of the log.  [DpsFilesRun]: the rotating
      files simulate the endless one, and what a reader finds in them,
      and what [tearDown] leaves.  [DpsFilesThms]: the theorems on
      the files.  [DpsReopen]: the scan of a file ends at
      the end of its records, and the files are put in the order they had.
      [DpsRestoreThms]: a restart finds the log that was shut down.

    - [DpsTransFacts]: a log is a history of transactions, what a node has in
      its table after reading a part of it, and taking records back.
      [DpsTransView]: what a record of each operation shows to the table, in
      memory or loaded.  [RtnTransInv]: every run of sessions logs a history,
      in which each session stands at the end of its transaction.
      [RtnTransAll]: the rollback of all transactions undoes each from its
      last change to its first.  [RtnTransThms]: the theorems on primaries
      and replicas.  [DpsTransSpace]: the limit of the log space,
      with the single steps of a request interleaved with those of others.
      [DpsTransSync]: the table is read back from the log buffer and the log
      files.  [DpsTransLock]: sessions hold their locks to the end of their
      transactions.

    - [TransLockSafety]: an invariant of every lock unit, kept by every
      critical section, hence in every interleaving two threads never hold
      one lock in incompatible modes; the early exit of the compatibility
      test is correct.

    - [TransLockState], [TransLockSession]: reasoning principles for the
      session's view, with the class [BucketSpec] as the contract between
      buckets and manager: the manager's theorems are proved against it and
      both bucket entries discharge it.

    - [TransLockBag]: the specification of the lock manager as seen by a
      session is a bag of requests; every operation implements it
      (refinement), operations of one session do not change the bag of
      another, and in every run of complete non-blocking calls the bags of
      two sessions never conflict.  All this is for runs in which no
      allocation fails: [addLockInfo] ignores a failed one and the request
      still returns [SDB_OK] ([pmd/pmdEDU.cpp]).  Intention modes are asked
      for on collections and spaces only.
      [TransLockNoWait]: where the try operation succeeds the blocking one
      returns the same way without waiting.  The theorem on the blocking
      family alone speaks of calls that return: a lock may never become
      free, and the crash described in [TransLockQueue] is real.

    - [TransLockQueue]: the pointer chain is a queue that the three list
      operations change as they should while no link is left over, and two
      runs in which the code goes wrong.

    - [SmeFacts], [SmeMgr]: the free lists are the normal form of the set of
      free bits; initialisation, reservation, release and growth are correct
      on every branch, reserving and releasing is the identity, and under
      all interleavings of the segment operations, the delayed updates of the
      free position and the growth of the file no page is handed out twice.

    - [VoteFacts]: every event is handled in finitely many status changes,
      the primary flag follows the status, becoming primary needs a majority
      of acceptances, accepting means silence for the agreed time, two
      members never accept each other, a round is started exactly when the
      code's conditions hold, a lone member elects itself; and two runs that
      show the limits of the protocol as coded.

    - [SyncHeapFacts]: heap order and contents under push and pop.
      [SyncFacts]: a confirmation wakes satisfied sessions only, and all of
      them where the heap is in order, which the withdrawal of a session can
      break.
      [SyncRun]: in every interleaving of sessions, confirmations, timers,
      full syncs and cuts, a call that returns [SDB_OK] had the copies it
      asked for.  [SyncMembers]: the length of a wait, changes of members,
      and three runs in which the code goes wrong.

    - [ReplSetFacts], [ReplSetInv], [ReplSetRun], [ReplSetGroup]: an invariant
      that ties the sync manager and the role of the member to the group
      information, kept by failure detection, votes, heartbeats and changes
      of the group.  [ReplSetThms]: the failure detector is exact, no write
      waits for more replicas than are alive, of two primaries at most one
      stays; and two runs in which the code goes wrong.  [ReplFlow]: flow
      control and reelection end in time, and a refused request ends the
      reelection that runs.

    - [CatLockInv]: every node of the tree is counted by the locks that refer
      to it and its latch is held by those that took it.  [CatLockOps],
      [CatLockObj]: the operations keep this.  [CatLockThms]: every run of
      lock objects implements a bag of granted requests (refinement), no two
      granted requests conflict, and when all are released no node is left.

    ** Fuel and bounds

    Loops over lists are structural.  [release_loop] climbs at most the three
    levels record, collection, space and gets fuel 3; the walks along a wait
    queue get one more than the number of sessions, enough for any chain
    without a cycle; the activation loop of the vote machine gets fuel that
    [vote_events_return] proves sufficient; the sift loops of the heap get
    its length and the pop loops its size; a chain of brothers in the trie
    has at most 256 nodes and gets fuel 257, a path at most 255, a binary
    search over 32-bit indices 33; loading a record stores at most 20
    elements and gets fuel 21; reserving room passes each page of the ring at
    most once, and copying to or from the ring moves at least one byte in a
    round, and so does a transfer of a file; the scan of a file passes at
    least a header in a round and gets the size of the file; reading the
    table back passes a record in a round and gets the end of the log.  A
    rollback takes the answers of its replays from a list, and a list that is
    long enough never ends it early.  Runs of the log buffer have fewer than 2^30 steps and rings less
    than 2^31 bytes, so that neither LSNs nor versions wrap.  In each case exhaustion is an
    outcome of its own or proved impossible.  Integers are [Z] at the width
    of the code ([u16], [u32]) where it matters: the packed runs, counters,
    times, capacities.  Indices of lists that cannot grow to 2^31 entries are
    natural numbers.  The dictionary theorems assume at most 209,715 nodes:
    an item may take five bytes of string area and positions have 20 bits.
    Segments of a storage unit have at most 2^15 pages, since a free run packs
    its start and length into 16 bits each.  Lock ids are well formed: a
    record lies in a collection, and the fields have the widths of the code.
    Sources are shorter than 2^24 bytes, the width of the length in the
    header, and at most 2,147,483 bytes at the best level, above which its
    32-bit products can wrap.

    ** What is not modelled

    Logging, tracing and assertions (which do nothing in a release build);
    the latches themselves, whose critical sections are atomic steps here;
    network delivery, which is an arbitrary sequence of events.  A
    confirmation of a replica ([_complete]) is one such step although the
    code holds the latch of the group shared, so that confirmations that
    overlap in time are not covered.  Of the
    engine: the sessions of replication that the replicate set starts and
    notifies, storage beyond the SME, indexes,
    matching, the runtime, the coordinator, the catalog and the management
    services; the replay of a log record on the storage, which answers the
    rollback of a transaction; the locking of collections and spaces by name.
    Records of 2^40 transactions are not reached: the counter of the ids of a
    node does not wrap in a run. *)

From stdpp Require Import base gmap list sorting strings.
From Stdlib Require Import ZArith Lia.

Open Scope Z_scope.

(** ** Return codes ([include/ossErr.h]) *)

Definition SDB_OK : Z := 0.
Definition SDB_OOM : Z := -2.
Definition SDB_PERM : Z := -3.
Definition SDB_INVALIDARG : Z := -6.
Definition SDB_INTERRUPT : Z := -8.
Definition SDB_SYS : Z := -10.
Definition SDB_TIMEOUT : Z := -13.
Definition SDB_DMS_NOSPC : Z := -21.
Definition SDB_DPS_LOG_NOT_IN_BUF : Z := -57.
Definition SDB_DPS_LOG_NOT_IN_FILE : Z := -58.
Definition SDB_CLS_VOTE_FAILED : Z := -97.
Definition SDB_DPS_CORRUPTED_LOG : Z := -98.
Definition SDB_DPS_LSN_OUTOFRANGE : Z := -99.
Definition SDB_CLS_EMPTY_HEAP : Z := -103.
Definition SDB_APP_INTERRUPT : Z := -116.
Definition SDB_DPS_TRANS_LOCK_INCOMPATIBLE : Z := -190.
Definition SDB_DPS_TRANS_APPEND_TO_WAIT : Z := -197.
Definition SDB_CLS_WAIT_SYNC_FAILED : Z := -252.

(** ** Machine integers *)

Definition u8 (x : Z) : Z := x mod 2 ^ 8.
Definition u16 (x : Z) : Z := x mod 2 ^ 16.
Definition u32 (x : Z) : Z := x mod 2 ^ 32.
Definition u64 (x : Z) : Z := x mod 2 ^ 64.

(** Signed integers of 8, 32 and 64 bits. *)
Definition s8 (x : Z) : Z := (x + 2 ^ 7) mod 2 ^ 8 - 2 ^ 7.
Definition s32 (x : Z) : Z := (x + 2 ^ 31) mod 2 ^ 32 - 2 ^ 31.
Definition s64 (x : Z) : Z := (x + 2 ^ 63) mod 2 ^ 64 - 2 ^ 63.

Lemma u16_small x : 0 <= x < 65536 -> u16 x = x.
Proof. intros; unfold u16; apply Z.mod_small; lia. Qed.

Lemma u32_small x : 0 <= x < 2 ^ 32 -> u32 x = x.
Proof. intros; unfold u32; apply Z.mod_small; lia. Qed.

Lemma u16_bound x : 0 <= u16 x < 65536.
Proof. unfold u16; apply Z.mod_pos_bound; lia. Qed.

Lemma u32_bound x : 0 <= u32 x < 2 ^ 32.
Proof. unfold u32; apply Z.mod_pos_bound; lia. Qed.

(** ** [std::map] with integer keys as a key-ordered association list

    Iteration order matters wherever the engine walks a [std::map] with an
    early exit, so such maps are kept as ordered association lists. *)

Section ordered_map.
Context {V : Type}.
Implicit Types (k : Z) (v : V) (m : list (Z * V)).

Fixpoint om_find k m : option V :=
  match m with
  | [] => None
  | (k', v) :: m' => if k =? k' then Some v else om_find k m'
  end.

(** [operator[] =]: replace in place, or insert before the first larger key. *)
Fixpoint om_insert k v m : list (Z * V) :=
  match m with
  | [] => [(k, v)]
  | (k', v') :: m' =>
      if k =? k' then (k, v) :: m'
      else if k <? k' then (k, v) :: (k', v') :: m'
      else (k', v') :: om_insert k v m'
  end.

Fixpoint om_erase k m : list (Z * V) :=
  match m with
  | [] => []
  | (k', v') :: m' => if k =? k' then om_erase k m' else (k', v') :: om_erase k m'
  end.

Lemma om_find_insert_eq k v m : om_find k (om_insert k v m) = Some v.
Proof.
  induction m as [|[k' v'] m IH]; simpl; [by rewrite Z.eqb_refl|].
  destruct (Z.eqb_spec k k'); simpl; [by rewrite Z.eqb_refl|].
  destruct (Z.ltb_spec k k'); simpl; [by rewrite Z.eqb_refl|].
  destruct (Z.eqb_spec k k'); done.
Qed.

Lemma om_find_insert_ne k k' v m :
  k <> k' -> om_find k' (om_insert k v m) = om_find k' m.
Proof.
  intros Hne. induction m as [|[k1 v1] m IH]; simpl.
  - destruct (Z.eqb_spec k' k); [congruence|done].
  - destruct (Z.eqb_spec k k1); simpl; [subst|].
    + destruct (Z.eqb_spec k' k1); [congruence|done].
    + destruct (Z.ltb_spec k k1); simpl.
      * destruct (Z.eqb_spec k' k); [congruence|done].
      * by rewrite IH.
Qed.

Lemma om_find_insert k k' v m :
  om_find k' (om_insert k v m) = if k =? k' then Some v else om_find k' m.
Proof.
  destruct (Z.eqb_spec k k') as [->|].
  - apply om_find_insert_eq.
  - by apply om_find_insert_ne.
Qed.

Lemma om_find_erase k k' m :
  om_find k' (om_erase k m) = if k =? k' then None else om_find k' m.
Proof.
  induction m as [|[k1 v1] m IH]; simpl; [by destruct (k =? k')|].
  destruct (Z.eqb_spec k k1) as [->|]; simpl; rewrite IH.
  - destruct (Z.eqb_spec k1 k') as [->|]; [done|].
    destruct (Z.eqb_spec k' k1); [congruence|done].
  - destruct (Z.eqb_spec k k') as [->|]; [|done].
    destruct (Z.eqb_spec k' k1); [congruence|done].
Qed.

Lemma om_find_None_notin k v m : om_find k m = None -> ~ In (k, v) m.
Proof.
  induction m as [|[k1 v1] m IH]; simpl; [auto|].
  destruct (Z.eqb_spec k k1); [done|].
  intros H [[= ]|Hin]; [congruence|by apply IH].
Qed.

Lemma om_erase_In k kv m : In kv (om_erase k m) -> In kv m /\ kv.1 <> k.
Proof.
  induction m as [|[k1 v1] m IH]; simpl; [done|].
  destruct (Z.eqb_spec k k1) as [->|]; simpl.
  - intros H; destruct (IH H); auto.
  - intros [<-|H]; [simpl; auto|]. destruct (IH H); auto.
Qed.

Lemma om_insert_In k v kv m : In kv (om_insert k v m) -> kv = (k, v) \/ In kv m.
Proof.
  induction m as [|[k1 v1] m IH]; simpl; [intros [<-|[]]; auto|].
  destruct (k =? k1); simpl; [intros [<-|?]; auto|].
  destruct (k <? k1); simpl; [intros [<-|[<-|?]]; auto|].
  intros [<-|H]; [auto|]. destruct (IH H); auto.
Qed.

(** Well-formed maps have strictly increasing keys. *)
Definition om_sorted m : Prop := StronglySorted Z.lt m.*1.

Lemma om_find_In k v m : om_find k m = Some v -> In (k, v) m.
Proof.
  induction m as [|[k1 v1] m IH]; simpl; [done|].
  destruct (Z.eqb_spec k k1); [intros [= <-]; subst; auto|auto].
Qed.

Lemma om_In_find k v m : om_sorted m -> In (k, v) m -> om_find k m = Some v.
Proof.
  unfold om_sorted. induction m as [|[k1 v1] m IH]; simpl; [done|].
  intros Hs. inversion Hs as [|? ? Hs' Hall]; subst.
  intros [[= -> ->]|Hin]; [by rewrite Z.eqb_refl|].
  destruct (Z.eqb_spec k k1) as [->|]; [|by apply IH].
  rewrite Forall_forall in Hall. specialize (Hall k1).
  exfalso. assert (k1 < k1); [|lia]. apply Hall.
  apply list_elem_of_fmap. exists (k1, v). split; [done|]. by apply list_elem_of_In.
Qed.

Lemma om_insert_sorted k v m : om_sorted m -> om_sorted (om_insert k v m).
Proof.
  unfold om_sorted. induction m as [|[k1 v1] m IH]; simpl; intros Hs.
  - repeat constructor.
  - inversion Hs as [|? ? Hs' Hall]; subst.
    destruct (Z.eqb_spec k k1) as [->|]; simpl; [by constructor|].
    destruct (Z.ltb_spec k k1); simpl.
    + constructor; [done|]. constructor; [done|].
      eapply Forall_impl; [exact Hall|]. simpl; intros; lia.
    + constructor; [by apply IH|].
      rewrite Forall_forall in Hall |- *. intros x Hx.
      apply list_elem_of_fmap in Hx as ([k2 v2] & -> & Hin).
      apply list_elem_of_In, om_insert_In in Hin as [[= -> ->]|Hin]; simpl; [lia|].
      apply Hall, list_elem_of_fmap. exists (k2, v2). split; [done|].
      by apply list_elem_of_In.
Qed.

Lemma om_erase_sorted k m : om_sorted m -> om_sorted (om_erase k m).
Proof.
  unfold om_sorted. induction m as [|[k1 v1] m IH]; simpl; intros Hs; [done|].
  inversion Hs as [|? ? Hs' Hall]; subst.
  destruct (k =? k1); simpl; [by apply IH|].
  constructor; [by apply IH|].
  rewrite Forall_forall in Hall |- *. intros x Hx.
  apply list_elem_of_fmap in Hx as ([k2 v2] & -> & Hin).
  apply list_elem_of_In, om_erase_In in Hin as [Hin _].
  apply Hall, list_elem_of_fmap. exists (k2, v2). split; [done|].
  by apply list_elem_of_In.
Qed.
End ordered_map.

Create HintDb sdb.
Create Rewrite HintDb sdb.
#[export] Hint Resolve om_insert_sorted om_erase_sorted u16_bound u32_bound : sdb.
#[export] Hint Rewrite @om_find_insert_eq @om_find_insert @om_find_erase : sdb.

(** ** Tactics *)

(** Case split on the integer comparison a conditional of the goal or of a
    hypothesis branches on. *)
Ltac case_Zb :=
  match goal with
  | |- context [?a =? ?b] => destruct (Z.eqb_spec a b)
  | |- context [?a <? ?b] => destruct (Z.ltb_spec a b)
  | |- context [?a <=? ?b] => destruct (Z.leb_spec a b)
  | H : context [?a =? ?b] |- _ => destruct (Z.eqb_spec a b)
  | H : context [?a <? ?b] |- _ => destruct (Z.ltb_spec a b)
  | H : context [?a <=? ?b] |- _ => destruct (Z.leb_spec a b)
  end.
