(* ===== verification/DpsLsn.v ===== *)
(** * Log sequence numbers

    Models [include/dpsLogDef.hpp]: the position of a record in the log and
    the version of the primary that wrote it, with their order. *)

From Stdlib Require Import ZArith Lia.
From stdpp Require Import base decidable.
From S2P Require Import Prelude.

Open Scope Z_scope.

Definition DPS_INVALID_LSN_OFFSET : Z := 2 ^ 64 - 1.
Definition DPS_INVALID_LSN_VERSION : Z := 0.

Record DPS_LSN : Set := mkLSN { lsn_offset : Z; lsn_version : Z }.

Definition compareVersion (a b : Z) : Z :=
  if (DPS_INVALID_LSN_VERSION =? a) && (DPS_INVALID_LSN_VERSION =? b) then 0
  else if negb (DPS_INVALID_LSN_VERSION =? a) && (DPS_INVALID_LSN_VERSION =? b) then 1
  else if (DPS_INVALID_LSN_VERSION =? a) && negb (DPS_INVALID_LSN_VERSION =? b) then -1
  else if a <? b then -1
  else if b <? a then 1
  else 0.

Definition compareOffset (a b : Z) : Z :=
  if (DPS_INVALID_LSN_OFFSET =? a) && (DPS_INVALID_LSN_OFFSET =? b) then 0
  else if negb (DPS_INVALID_LSN_OFFSET =? a) && (DPS_INVALID_LSN_OFFSET =? b) then 1
  else if (DPS_INVALID_LSN_OFFSET =? a) && negb (DPS_INVALID_LSN_OFFSET =? b) then -1
  else if a <? b then -1
  else if b <? a then 1
  else 0.

Definition lsn_compare (l r : DPS_LSN) : Z :=
  let rc := compareVersion (lsn_version l) (lsn_version r) in
  if negb (0 =? rc) then rc else compareOffset (lsn_offset l) (lsn_offset r).

Definition lsn_invalid (l : DPS_LSN) : bool :=
  (DPS_INVALID_LSN_OFFSET =? lsn_offset l) || (DPS_INVALID_LSN_VERSION =? lsn_version l).

#[export] Instance lsn_eq_dec : EqDecision DPS_LSN.
Proof. solve_decision. Defined.

(** The default constructor. *)
Definition LSN_INVALID : DPS_LSN := mkLSN DPS_INVALID_LSN_OFFSET DPS_INVALID_LSN_VERSION.
