(* ===== verification/Mem.v ===== *)
(** * Checked memory

    C arrays and buffers as lists: an access outside the array is [None], so
    that a definition returning [Some] on an input has not touched memory it
    does not own.  Indices are the machine integers of the code, as [Z]. *)

From stdpp Require Import base list option.
From Stdlib Require Import ZArith Lia.
From S2P Require Import Prelude.

Open Scope Z_scope.

Section mem.
Context {A : Type}.
Implicit Types (m bs : list A) (i n : Z) (v : A).

(** [m[i]] *)
Definition rd m i : option A := if 0 <=? i then m !! Z.to_nat i else None.

(** [m[i] = v] *)
Definition wr m i v : option (list A) :=
  if (0 <=? i) && (i <? Z.of_nat (length m)) then Some (<[Z.to_nat i := v]> m) else None.

(** [n] elements from [m + i] *)
Definition rd_range m i n : option (list A) :=
  if (0 <=? i) && (0 <=? n) && (i + n <=? Z.of_nat (length m))
  then Some (take (Z.to_nat n) (drop (Z.to_nat i) m)) else None.

(** [memcpy( m + i, bs, |bs| )] *)
Definition wr_range m i bs : option (list A) :=
  if (0 <=? i) && (i + Z.of_nat (length bs) <=? Z.of_nat (length m))
  then Some (take (Z.to_nat i) m ++ bs ++ drop (Z.to_nat i + length bs) m) else None.

Lemma rd_nat m (k : nat) : rd m (Z.of_nat k) = m !! k.
Proof. unfold rd. case_Zb; [|lia]. by rewrite Nat2Z.id. Qed.

Lemma rd_Some m i v : rd m i = Some v -> 0 <= i < Z.of_nat (length m).
Proof. unfold rd. case_Zb; [|done]. intros ?%lookup_lt_Some. lia. Qed.

Lemma rd_is_Some m i : 0 <= i < Z.of_nat (length m) -> exists v, rd m i = Some v.
Proof.
  intros. unfold rd. case_Zb; [|lia]. apply lookup_lt_is_Some. lia.
Qed.

Lemma wr_Some m i v : 0 <= i < Z.of_nat (length m) -> wr m i v = Some (<[Z.to_nat i := v]> m).
Proof. intros. unfold wr. do 2 case_Zb; try lia. done. Qed.

Lemma wr_inv m i v m' :
  wr m i v = Some m' -> 0 <= i < Z.of_nat (length m) /\ m' = <[Z.to_nat i := v]> m.
Proof.
  unfold wr. destruct (Z.leb_spec 0 i), (Z.ltb_spec i (Z.of_nat (length m))); simpl; try done.
  intros [= <-]. auto.
Qed.

Lemma wr_length m i v m' : wr m i v = Some m' -> length m' = length m.
Proof. intros [_ ->]%wr_inv. apply length_insert. Qed.

Lemma rd_wr m i v m' j : wr m i v = Some m' -> rd m' j = if j =? i then Some v else rd m j.
Proof.
  intros [Hi ->]%wr_inv. unfold rd. destruct (Z.eqb_spec j i) as [->|].
  - case_Zb; [|lia]. apply list_lookup_insert_eq. lia.
  - case_Zb; [|done]. apply list_lookup_insert_ne. lia.
Qed.

Lemma wr_take m i v m' :
  wr m i v = Some m' -> take (Z.to_nat (i + 1)) m' = take (Z.to_nat i) m ++ [v].
Proof.
  intros [Hi ->]%wr_inv. replace (Z.to_nat (i + 1)) with (S (Z.to_nat i)) by lia.
  rewrite (take_S_r _ _ v) by (apply list_lookup_insert_eq; lia).
  by rewrite take_insert_ge by lia.
Qed.

Lemma rd_range_length m i n bs : rd_range m i n = Some bs -> Z.of_nat (length bs) = n.
Proof.
  unfold rd_range.
  destruct (Z.leb_spec 0 i), (Z.leb_spec 0 n),
    (Z.leb_spec (i + n) (Z.of_nat (length m))); simpl; try done.
  intros [= <-]. rewrite length_take, length_drop. lia.
Qed.

Lemma rd_range_Some m i n bs :
  rd_range m i n = Some bs <->
  0 <= i /\ 0 <= n /\ i + n <= Z.of_nat (length m) /\
  bs = take (Z.to_nat n) (drop (Z.to_nat i) m).
Proof.
  unfold rd_range.
  destruct (Z.leb_spec 0 i), (Z.leb_spec 0 n),
    (Z.leb_spec (i + n) (Z.of_nat (length m))); simpl;
    (split; [intros [= <-] || intros [=]|intros (? & ? & ? & ->)]; auto; lia).
Qed.

Lemma wr_range_Some m i bs m' :
  wr_range m i bs = Some m' <->
  0 <= i /\ i + Z.of_nat (length bs) <= Z.of_nat (length m) /\
  m' = take (Z.to_nat i) m ++ bs ++ drop (Z.to_nat i + length bs) m.
Proof.
  unfold wr_range.
  destruct (Z.leb_spec 0 i), (Z.leb_spec (i + Z.of_nat (length bs)) (Z.of_nat (length m)));
    simpl; (split; [intros [= <-] || intros [=]|intros (? & ? & ->)]; auto; lia).
Qed.

Lemma wr_range_length m i bs m' : wr_range m i bs = Some m' -> length m' = length m.
Proof.
  intros (? & ? & ->)%wr_range_Some. rewrite !length_app, length_take, length_drop. lia.
Qed.

(** What was just copied is read back. *)
Lemma rd_wr_range m i bs m' :
  wr_range m i bs = Some m' -> rd_range m' i (Z.of_nat (length bs)) = Some bs.
Proof.
  intros Hw. pose proof (wr_range_length _ _ _ _ Hw) as Hl.
  apply wr_range_Some in Hw as (? & ? & ->). apply rd_range_Some.
  split_and!; [lia|lia|lia|].
  rewrite drop_app_length' by (rewrite length_take; lia).
  by rewrite take_app_length' by lia.
Qed.

(** A range below the copied one is untouched. *)
Lemma rd_range_wr_below m i bs m' j n :
  wr_range m i bs = Some m' -> j + n <= i -> rd_range m' j n = rd_range m j n.
Proof.
  intros Hw Hle. pose proof (wr_range_length _ _ _ _ Hw) as Hl.
  apply wr_range_Some in Hw as (? & ? & ->). unfold rd_range. rewrite Hl.
  destruct ((0 <=? j) && (0 <=? n) && (j + n <=? Z.of_nat (length m))) eqn:E; [|done].
  apply andb_true_iff in E as [[?%Z.leb_le ?%Z.leb_le]%andb_true_iff ?%Z.leb_le].
  f_equal. apply list_eq. intros k.
  destruct (decide (k < Z.to_nat n)%nat); [|by rewrite !lookup_take_ge by lia].
  rewrite !lookup_take_lt, !lookup_drop by lia.
  rewrite lookup_app_l by (rewrite length_take; lia). by rewrite lookup_take_lt by lia.
Qed.

Lemma wr_range_take m i bs m' :
  wr_range m i bs = Some m' ->
  take (Z.to_nat (i + Z.of_nat (length bs))) m' = take (Z.to_nat i) m ++ bs.
Proof.
  intros (? & ? & ->)%wr_range_Some. rewrite (assoc_L app).
  apply take_app_length'. rewrite length_app, length_take. lia.
Qed.

(** A prefix of a range starts where the range starts. *)
Lemma rd_range_prefix m i bs1 bs2 :
  rd_range m i (Z.of_nat (length (bs1 ++ bs2))) = Some (bs1 ++ bs2) ->
  rd_range m i (Z.of_nat (length bs1)) = Some bs1.
Proof.
  rewrite length_app. intros (? & ? & ? & E)%rd_range_Some. apply rd_range_Some.
  split_and!; [lia|lia|lia|].
  rewrite Nat2Z.id in *. apply (f_equal (take (length bs1))) in E.
  rewrite take_app_length, take_take, Nat.min_l in E by lia. done.
Qed.
End mem.

(** ** Words in memory, low byte first *)

Definition is_byte (b : Z) : Prop := 0 <= b < 256.

Fixpoint le_bytes (k : nat) (v : Z) : list Z :=
  match k with O => [] | S k' => Z.land v 255 :: le_bytes k' (Z.shiftr v 8) end.

Fixpoint le_word (l : list Z) : Z :=
  match l with [] => 0 | b :: l' => Z.lor b (Z.shiftl (le_word l') 8) end.

Lemma testbit_mod_pow2 v s i :
  0 <= s -> Z.testbit (v mod 2 ^ s) i = (i <? s) && Z.testbit v i.
Proof.
  intros. destruct (Z.ltb_spec i s); simpl.
  - destruct (Z_le_gt_dec 0 i); [by apply Z.mod_pow2_bits_low|].
    rewrite !Z.testbit_neg_r by lia. done.
  - by apply Z.mod_pow2_bits_high.
Qed.

Lemma le_bytes_length k v : length (le_bytes k v) = k.
Proof. revert v. induction k; intros; simpl; auto. Qed.

Lemma le_bytes_is_byte k v : Forall is_byte (le_bytes k v).
Proof.
  revert v. induction k as [|k IH]; intros v; simpl; constructor; [|apply IH].
  unfold is_byte. change 255 with (Z.ones 8). rewrite Z.land_ones by lia. apply Z.mod_pos_bound. lia.
Qed.

(** A word is read back from the bytes it was stored in. *)
Lemma le_word_bytes k v : 0 <= v < 2 ^ (8 * Z.of_nat k) -> le_word (le_bytes k v) = v.
Proof.
  revert v. induction k as [|k IH]; intros v Hv; cbn [le_bytes le_word].
  - simpl in Hv. lia.
  - rewrite IH.
    + apply Z.bits_inj'. intros i Hi. change 255 with (Z.ones 8).
      rewrite Z.lor_spec, Z.land_ones, testbit_mod_pow2, Z.shiftl_spec by lia.
      destruct (Z.ltb_spec i 8); simpl; [rewrite (Z.testbit_neg_r _ (i - 8)), orb_false_r by lia; done|].
      rewrite Z.shiftr_spec by lia. f_equal. lia.
    + rewrite Z.shiftr_div_pow2 by lia. split; [apply Z.div_pos; lia|].
      apply Z.div_lt_upper_bound; [lia|]. rewrite <- Z.pow_add_r by lia.
      replace (8 + 8 * Z.of_nat k) with (8 * Z.of_nat (S k)) by lia. lia.
Qed.

(** Of any integer the low bytes are stored. *)
Lemma le_word_bytes_mod k v : le_word (le_bytes k v) = v mod 2 ^ (8 * Z.of_nat k).
Proof.
  revert v. induction k as [|k IH]; intros v; cbn [le_bytes le_word].
  - simpl. by rewrite Z.mod_1_r.
  - rewrite IH. apply Z.bits_inj'. intros i Hi. change 255 with (Z.ones 8).
    rewrite Z.lor_spec, Z.land_ones, testbit_mod_pow2, Z.shiftl_spec, !testbit_mod_pow2 by lia.
    destruct (Z.ltb_spec i 8); simpl.
    + rewrite (Z.testbit_neg_r _ (i - 8)), andb_false_r, orb_false_r by lia. by case_Zb; [|lia].
    + rewrite Z.shiftr_spec by lia. replace (i - 8 + 8) with i by lia.
      f_equal. do 2 case_Zb; lia.
Qed.

(** Reading a range that lies at a known position of a concatenation. *)
Lemma rd_range_app_r {A} (a m : list A) i n :
  Z.of_nat (length a) <= i -> rd_range (a ++ m) i n = rd_range m (i - Z.of_nat (length a)) n.
Proof.
  intros Hi. unfold rd_range. rewrite length_app, drop_app_ge by lia.
  replace (Z.to_nat i - length a)%nat with (Z.to_nat (i - Z.of_nat (length a))) by lia.
  destruct (Z.leb_spec 0 i), (Z.leb_spec 0 (i - Z.of_nat (length a))); try lia.
  replace (i + n <=? Z.of_nat (length a + length m))
    with (i - Z.of_nat (length a) + n <=? Z.of_nat (length m)); [done|].
  do 2 case_Zb; lia.
Qed.

Lemma rd_range_app_l {A} (bs m : list A) n :
  n = Z.of_nat (length bs) -> rd_range (bs ++ m) 0 n = Some bs.
Proof.
  intros ->. apply rd_range_Some. rewrite length_app, Nat2Z.id. simpl.
  split_and!; [lia|lia|lia|]. rewrite drop_0. by rewrite take_app_length.
Qed.
