(* ===== verification/DpsRecord.v ===== *)
(** * Log records

    Models [include/dpsLogRecord.hpp], [dps/dpsLogRecord.cpp] and the layout
    of a record in the log that [_mergeLogs] of [dps/dpsReplicaLogMgr.cpp]
    writes.  A record is a header of 32 bytes and up to 20 tagged elements.
    In memory the elements are two arrays, of headers and of pointers to the
    values.  A pointer is [None] when it is null, otherwise the memory from
    its address on; every access is checked and [None] as a result is an
    access outside of what is mapped. *)

From stdpp Require Import base list option.
From Stdlib Require Import ZArith Lia.
From S2P Require Import Prelude DpsLsn Mem.

Open Scope Z_scope.

(** ** Constants ([include/dpsDef.hpp], [include/dms.hpp], [include/dmsRecord.hpp]) *)

Definition DPS_INVALID_TRANS_ID : Z := 0.
Definition DPS_INVALID_TAG : Z := 0.
Definition DPS_MERGE_BLOCK_MAX_DATA : Z := 20.
Definition DPS_RECORD_ELE_HEADER_LEN : Z := 5.

(** [sizeof( dpsLogRecordHeader )] *)
Definition sizeof_head : Z := 32.

Definition DMS_RECORD_USER_MAX_SZ : Z := 0x01000000 - 4096.
Definition DPS_RECORD_MAX_LEN : Z := 127 + 127 + 2 + sizeof_head + DMS_RECORD_USER_MAX_SZ * 2.

Definition LOG_TYPE_DUMMY : Z := 0.
Definition LOG_TYPE_DATA_INSERT : Z := 1.
Definition LOG_TYPE_DATA_UPDATE : Z := 2.
Definition LOG_TYPE_DATA_DELETE : Z := 3.
Definition LOG_TYPE_CS_CRT : Z := 4.
Definition LOG_TYPE_CS_DELETE : Z := 5.
Definition LOG_TYPE_CL_CRT : Z := 6.
Definition LOG_TYPE_CL_DELETE : Z := 7.
Definition LOG_TYPE_IX_CRT : Z := 8.
Definition LOG_TYPE_IX_DELETE : Z := 9.
Definition LOG_TYPE_CL_RENAME : Z := 10.
Definition LOG_TYPE_CL_TRUNC : Z := 11.
Definition LOG_TYPE_TS_COMMIT : Z := 12.
Definition LOG_TYPE_INVALIDATE_CATA : Z := 14.
Definition LOG_TYPE_LOB_WRITE : Z := 15.
Definition LOG_TYPE_LOB_REMOVE : Z := 16.
Definition LOG_TYPE_LOB_UPDATE : Z := 17.
Definition LOG_TYPE_LOB_TRUNCATE : Z := 18.
Definition LOG_TYPE_CS_RENAME : Z := 19.
Definition LOG_TYPE_DATA_POP : Z := 20.

(** ** The header *)

Record dpsLogRecordHeader : Set := mkHead {
  _lsn : Z;
  _preLsn : Z;
  _length : Z;
  _version : Z;
  _type : Z;
  _reserved1 : Z;
  _reserved2 : Z
}.

#[export] Instance head_eq_dec : EqDecision dpsLogRecordHeader.
Proof. solve_decision. Defined.

(** The constructor and [clear]. *)
Definition head_clear : dpsLogRecordHeader :=
  mkHead DPS_INVALID_LSN_OFFSET DPS_INVALID_LSN_OFFSET 0 DPS_INVALID_LSN_VERSION
         LOG_TYPE_DUMMY 0 0.

(** The bytes of a header in memory: two 64-bit, two 32-bit, two 16-bit and
    one 32-bit field, without padding. *)
Definition head_bytes (h : dpsLogRecordHeader) : list Z :=
  le_bytes 8 (_lsn h) ++ le_bytes 8 (_preLsn h) ++ le_bytes 4 (_length h) ++
  le_bytes 4 (_version h) ++ le_bytes 2 (_type h) ++ le_bytes 2 (_reserved1 h) ++
  le_bytes 4 (_reserved2 h).

(** [*(( dpsLogRecordHeader * )pData)] *)
Definition read_head (m : list Z) : option dpsLogRecordHeader :=
  lsn ← rd_range m 0 8; pre ← rd_range m 8 8; len ← rd_range m 16 4;
  ver ← rd_range m 20 4; typ ← rd_range m 24 2; r1 ← rd_range m 26 2;
  r2 ← rd_range m 28 4;
  Some (mkHead (le_word lsn) (le_word pre) (le_word len) (le_word ver) (le_word typ)
               (le_word r1) (le_word r2)).

Definition with_type (h : dpsLogRecordHeader) (t : Z) : dpsLogRecordHeader :=
  mkHead (_lsn h) (_preLsn h) (_length h) (_version h) t (_reserved1 h) (_reserved2 h).

Definition with_length (h : dpsLogRecordHeader) (l : Z) : dpsLogRecordHeader :=
  mkHead (_lsn h) (_preLsn h) l (_version h) (_type h) (_reserved1 h) (_reserved2 h).

(** ** The record *)

(** A [const CHAR *]. *)
Abbreviation ptr := (option (list Z)).

Record dpsRecordEle : Set := mkEle { tag : Z; len : Z }.

#[export] Instance ele_eq_dec : EqDecision dpsRecordEle.
Proof. solve_decision. Defined.

(** The five packed bytes of an element header. *)
Definition ele_bytes (e : dpsRecordEle) : list Z := tag e :: le_bytes 4 (len e).

Record dpsLogRecord : Set := mkRecord {
  _head : dpsLogRecordHeader;
  _data : list ptr;
  _dataHeader : list dpsRecordEle;
  _write : Z;
  _result : Z
}.

Definition with_head (r : dpsLogRecord) (h : dpsLogRecordHeader) : dpsLogRecord :=
  mkRecord h (_data r) (_dataHeader r) (_write r) (_result r).

Definition with_result (r : dpsLogRecord) (rc : Z) : dpsLogRecord :=
  mkRecord (_head r) (_data r) (_dataHeader r) (_write r) rc.

Definition no_ele : dpsRecordEle := mkEle DPS_INVALID_TAG 0.

(** [_dpsLogRecord::_dpsLogRecord] *)
Definition record_init : dpsLogRecord :=
  mkRecord head_clear (replicate (Z.to_nat DPS_MERGE_BLOCK_MAX_DATA) None)
           (replicate (Z.to_nat DPS_MERGE_BLOCK_MAX_DATA) no_ele) 0 SDB_OK.

(** The first [n] entries of an array overwritten with [v]. *)
Fixpoint reset {A} (n : nat) (v : A) (l : list A) : list A :=
  match n, l with
  | S n', _ :: l' => v :: reset n' v l'
  | _, _ => l
  end.

(** [_dpsLogRecord::clear] *)
Definition clear (r : dpsLogRecord) : dpsLogRecord :=
  let n := Z.to_nat (_write r) in
  let head := if DPS_INVALID_LSN_OFFSET =? _lsn (_head r) then _head r else head_clear in
  if 0 =? _write r then mkRecord head (_data r) (_dataHeader r) (_write r) SDB_OK
  else mkRecord head (reset n None (_data r)) (reset n no_ele (_dataHeader r)) 0 SDB_OK.

(** [_dataHeader[_write].tag = ..; _dataHeader[_write].len = ..;
    _data[_write++] = ..] *)
Definition set_element (r : dpsLogRecord) (t l : Z) (value : ptr) : option dpsLogRecord :=
  hs ← wr (_dataHeader r) (_write r) (mkEle t l);
  ds ← wr (_data r) (_write r) value;
  Some (mkRecord (_head r) ds hs (u32 (_write r + 1)) (_result r)).

(** [_dpsLogRecord::push] *)
Definition record_push (r : dpsLogRecord) (t l : Z) (value : ptr) : option (Z * dpsLogRecord) :=
  if DPS_MERGE_BLOCK_MAX_DATA =? _write r then Some (SDB_DPS_CORRUPTED_LOG, r)
  else r' ← set_element r t l value; Some (SDB_OK, r').

Definition ossRoundUpToMultipleX (x y : Z) : Z := (x + (y - 1)) - (x + (y - 1)) mod y.

(** The loop of [alignedLen]. *)
Fixpoint elements_len (hs : list dpsRecordEle) (total : Z) : Z :=
  match hs with
  | [] => total
  | e :: hs' =>
      if DPS_INVALID_TAG =? tag e then total
      else elements_len hs' (u32 (u32 (total + len e) + DPS_RECORD_ELE_HEADER_LEN))
  end.

(** [_dpsLogRecord::alignedLen] *)
Definition alignedLen (r : dpsLogRecord) : Z :=
  u32 (ossRoundUpToMultipleX (elements_len (_dataHeader r) 0 + sizeof_head) 4).

(** ** Iterators

    An iterator is its index [_current], -1 when it points nowhere. *)

Definition valid (current : Z) : bool :=
  (0 <=? current) && (current <? DPS_MERGE_BLOCK_MAX_DATA).

Definition value (r : dpsLogRecord) (current : Z) : option ptr := rd (_data r) current.

Definition itr_len (r : dpsLogRecord) (current : Z) : option Z :=
  e ← rd (_dataHeader r) current; Some (len e).

Fixpoint find_loop (hs : list dpsRecordEle) (t i : Z) : Z :=
  match hs with
  | [] => -1
  | e :: hs' =>
      if DPS_INVALID_TAG =? tag e then -1
      else if tag e =? t then i
      else find_loop hs' t (i + 1)
  end.

(** [_dpsLogRecord::find] *)
Definition find (r : dpsLogRecord) (t : Z) : Z := find_loop (_dataHeader r) t 0.

(** ** Loading *)

(** [_dpsLogRecord::loadBody].  Every round but the last stores an element,
    so 21 rounds are enough. *)
Fixpoint loadBody_loop (fuel : nat) (r : dpsLogRecord) (location : list Z)
    (loadSize totalSize : Z) : option (Z * dpsLogRecord) :=
  match fuel with
  | O => None
  | S fuel' =>
      if loadSize <? totalSize then
        t ← rd location 0;
        sz ← rd_range location 1 4;
        let valueSize := le_word sz in
        if DPS_MERGE_BLOCK_MAX_DATA =? _write r then Some (SDB_DPS_CORRUPTED_LOG, r)
        else if DPS_INVALID_TAG =? t then Some (SDB_OK, r)
        else if u32 (totalSize - loadSize) <? valueSize then Some (SDB_DPS_CORRUPTED_LOG, r)
        else
          r' ← set_element r t valueSize (Some (drop (Z.to_nat DPS_RECORD_ELE_HEADER_LEN) location));
          let step := u32 (valueSize + DPS_RECORD_ELE_HEADER_LEN) in
          loadBody_loop fuel' r' (drop (Z.to_nat step) location) (loadSize + step) totalSize
      else Some (SDB_OK, r)
  end.

Definition loadBody (r : dpsLogRecord) (pData : list Z) (totalSize : Z)
    : option (Z * dpsLogRecord) :=
  loadBody_loop 21 r pData 0 totalSize.

(** [_dpsLogRecord::load] *)
Definition load (r : dpsLogRecord) (pData : list Z) : option (Z * dpsLogRecord) :=
  h ← read_head pData;
  let r := with_head r h in
  if (_length h <? sizeof_head) || (DPS_RECORD_MAX_LEN <? _length h)
  then Some (SDB_DPS_CORRUPTED_LOG, with_result r SDB_DPS_CORRUPTED_LOG)
  else if LOG_TYPE_DUMMY =? _type h then Some (SDB_OK, r)
  else
    let totalSize := _length h - sizeof_head - DPS_RECORD_ELE_HEADER_LEN in
    '(rc, r') ← loadBody r (drop (Z.to_nat sizeof_head) pData) totalSize;
    Some (rc, if rc =? SDB_OK then r' else with_result r' rc).

Definition DPS_LOG_ROW_ROWDATA : Z := 1.

(** [_dpsLogRecord::loadRowBody]: the elements of a row record, whose only
    element holds the body of a record as it was received. *)
Definition loadRowBody (r : dpsLogRecord) : option (Z * dpsLogRecord) :=
  let h := _head r in
  if (_length h <? sizeof_head) || (DPS_RECORD_MAX_LEN <? _length h)
  then Some (SDB_DPS_CORRUPTED_LOG, r)
  else if LOG_TYPE_DUMMY =? _type h then Some (SDB_OK, r)
  else
    let iter := find r DPS_LOG_ROW_ROWDATA in
    if valid iter then
      v ← value r iter; pData ← v; l ← itr_len r iter;
      loadBody r pData (s32 (u32 (l - DPS_RECORD_ELE_HEADER_LEN)))
    else Some (SDB_OK, r).

(** ** The chunks of a record in the log *)

(** [memcpy] of [n] bytes from a pointer; nothing is read when [n] is 0. *)
Definition chunk (p : ptr) (n : Z) : option (list Z) :=
  if n =? 0 then Some [] else m ← p; rd_range m 0 n.

(** The loop over [itr.next()] in [_mergeLogs], which ends at the first null
    pointer or after the last entry of the array: the chunks handed to
    [_mergePage] and [mergeSize]. *)
Fixpoint merge_elements (ds : list ptr) (hs : list dpsRecordEle) (mergeSize : Z)
    : option (list (list Z) * Z) :=
  match ds, hs with
  | Some d :: ds', e :: hs' =>
      v ← chunk (Some d) (len e);
      let mergeSize := u32 (u32 (mergeSize + DPS_RECORD_ELE_HEADER_LEN) + len e) in
      '(cs, mergeSize) ← merge_elements ds' hs' mergeSize;
      Some (ele_bytes e :: v :: cs, mergeSize)
  | _, _ => Some ([], mergeSize)
  end.

(** The chunks [_mergeLogs] writes for a block, in order. *)
Definition merge_chunks (isRow : bool) (r : dpsLogRecord) : option (list (list Z)) :=
  let h := _head r in
  if isRow then
    e ← rd (_dataHeader r) 0; d ← rd (_data r) 0;
    v ← chunk d (len e);
    Some [head_bytes h; v]
  else if LOG_TYPE_DUMMY =? _type h then Some [head_bytes h]
  else
    '(cs, mergeSize) ← merge_elements (_data r) (_dataHeader r) 0;
    let stop :=
      if mergeSize <=? u64 (_length h - DPS_RECORD_ELE_HEADER_LEN - sizeof_head)
      then [replicate (Z.to_nat DPS_RECORD_ELE_HEADER_LEN) 0] else [] in
    Some (head_bytes h :: cs ++ stop).
