(* ===== verification/DpsRecordFacts.v ===== *)
(** * Log records: the array representation and the round trip

    [rep r es] says that a record holds the elements [es]; pushing appends to
    [es], searching finds the first element with the tag, and loading what
    [merge_chunks] wrote gives a record with the same elements, whatever
    bytes the unused end of the record holds. *)

From stdpp Require Import base list option.
From Stdlib Require Import ZArith Lia.
From S2P Require Import Prelude DpsLsn Mem DpsRecord.

Open Scope Z_scope.

(** ** Headers *)

Record head_ok (h : dpsLogRecordHeader) : Prop := {
  ho_lsn : 0 <= _lsn h < 2 ^ 64;
  ho_pre : 0 <= _preLsn h < 2 ^ 64;
  ho_len : 0 <= _length h < 2 ^ 32;
  ho_ver : 0 <= _version h < 2 ^ 32;
  ho_typ : 0 <= _type h < 2 ^ 16;
  ho_r1 : 0 <= _reserved1 h < 2 ^ 16;
  ho_r2 : 0 <= _reserved2 h < 2 ^ 32
}.

Lemma head_bytes_length h : length (head_bytes h) = 32%nat.
Proof. unfold head_bytes. by rewrite !length_app, !le_bytes_length. Qed.

(** Reads one of several consecutive fields. *)
Ltac rd_field :=
  repeat (rewrite rd_range_app_r by (rewrite le_bytes_length; lia); rewrite le_bytes_length);
  apply rd_range_app_l; by rewrite le_bytes_length.

Lemma bind_Some_eq {A B} (o : option A) (a : A) (f : A -> option B) :
  o = Some a -> (o ≫= f) = f a.
Proof. by intros ->. Qed.

Lemma read_head_bytes h m : head_ok h -> read_head (head_bytes h ++ m) = Some h.
Proof.
  intros [H1 H2 H3 H4 H5 H6 H7]. unfold read_head, head_bytes. rewrite <- !app_assoc.
  do 7 (erewrite bind_Some_eq by rd_field).
  rewrite !le_word_bytes by (cbn; lia). by destruct h.
Qed.

(** ** Words read from bytes *)

Lemma lor_byte b w : is_byte b -> Z.lor b (Z.shiftl w 8) = b + 256 * w.
Proof.
  unfold is_byte. intros Hb. assert (E : Z.land b (Z.shiftl w 8) = 0).
  { apply Z.bits_inj'. intros i Hi. rewrite Z.land_spec, Z.bits_0.
    destruct (Z.ltb_spec i 8); [rewrite Z.shiftl_spec_low by lia; apply andb_false_r|].
    rewrite <- (Z.mod_small b (2 ^ 8)), Z.mod_pow2_bits_high by (simpl; lia). done. }
  rewrite <- Z.lxor_lor, <- Z.add_nocarry_lxor, Z.shiftl_mul_pow2 by (done || lia). lia.
Qed.

Lemma le_word_bound l : Forall is_byte l -> 0 <= le_word l < 2 ^ (8 * Z.of_nat (length l)).
Proof.
  induction l as [|b l IH]; intros Hb; [simpl; lia|]. apply list.Forall_cons in Hb as [Hb Hl].
  specialize (IH Hl). cbn [le_word length]. rewrite lor_byte by done. unfold is_byte in Hb.
  replace (8 * Z.of_nat (S (length l))) with (8 + 8 * Z.of_nat (length l)) by lia.
  rewrite Z.pow_add_r by lia. change (2 ^ 8) with 256. lia.
Qed.

(** ** Records and their elements *)

(** An element: tag, length and the memory its pointer shows. *)
Record elem : Set := mkElem { e_tag : Z; e_len : Z; e_mem : list Z }.

Definition e_ptr (e : elem) : ptr := Some (e_mem e).
Definition e_head (e : elem) : dpsRecordEle := mkEle (e_tag e) (e_len e).

Record rep (r : dpsLogRecord) (es : list elem) : Prop := {
  rep_size : (length es <= 20)%nat;
  rep_write : _write r = Z.of_nat (length es);
  rep_data : _data r = map e_ptr es ++ replicate (20 - length es) None;
  rep_head : _dataHeader r = map e_head es ++ replicate (20 - length es) no_ele;
  rep_tags : Forall (fun e => e_tag e <> DPS_INVALID_TAG) es
}.

Lemma rep_init : rep record_init [].
Proof. constructor; simpl; try done; try lia. Qed.

Lemma rep_with_head r h es : rep r es -> rep (with_head r h) es.
Proof. intros []. by constructor. Qed.

Lemma rep_with_result r rc es : rep r es -> rep (with_result r rc) es.
Proof. intros []. by constructor. Qed.

Lemma wr_end {A} (a b : list A) (x v : A) i :
  i = Z.of_nat (length a) -> wr (a ++ x :: b) i v = Some (a ++ v :: b).
Proof.
  intros ->. rewrite wr_Some by (rewrite length_app; simpl; lia).
  by rewrite Nat2Z.id, insert_app_r_alt, Nat.sub_diag by lia.
Qed.

(** Storing appends; it is in range while there is room. *)
Lemma set_element_rep r es t l m :
  rep r es -> (length es < 20)%nat -> t <> DPS_INVALID_TAG ->
  exists r', set_element r t l (Some m) = Some r' /\ rep r' (es ++ [mkElem t l m]) /\
    _head r' = _head r /\ _result r' = _result r.
Proof.
  intros [Hn Hw Hd Hh Ht] Hlt Htag. unfold set_element.
  destruct (20 - length es)%nat as [|k] eqn:E; [lia|]. cbn [replicate] in Hd, Hh.
  rewrite Hd, Hh, !wr_end by (rewrite length_map; done). cbn [mbind option_bind].
  eexists. split; [done|]. split; [|done].
  assert (Ek : (20 - length (es ++ [mkElem t l m]))%nat = k) by (rewrite length_app; simpl; lia).
  constructor; cbn [_write _data _dataHeader]; rewrite ?Ek, ?map_app, ?length_app, <- ?app_assoc; cbn.
  - lia.
  - rewrite Hw, u32_small by lia. lia.
  - done.
  - done.
  - apply list.Forall_app. split; [done|]. by constructor.
Qed.

(** [push] appends, or fails and changes nothing when the record is full. *)
Lemma push_rep r es t l m :
  rep r es -> t <> DPS_INVALID_TAG ->
  (length es < 20)%nat ->
  exists r', record_push r t l (Some m) = Some (SDB_OK, r') /\ rep r' (es ++ [mkElem t l m]) /\
    _head r' = _head r /\ _result r' = _result r.
Proof.
  intros Hr Ht Hlt. destruct (set_element_rep r es t l m Hr Hlt Ht) as (r' & E & Hr').
  exists r'. unfold record_push. rewrite (rep_write _ _ Hr), E.
  unfold DPS_MERGE_BLOCK_MAX_DATA. case_Zb; [lia|]. done.
Qed.

Lemma push_full r es t l p :
  rep r es -> length es = 20%nat -> record_push r t l p = Some (SDB_DPS_CORRUPTED_LOG, r).
Proof. intros Hr E. unfold record_push. by rewrite (rep_write _ _ Hr), E. Qed.

(** ** Searching *)

Fixpoint first_mem (es : list elem) (t : Z) : option (list Z) :=
  match es with
  | [] => None
  | e :: es' => if e_tag e =? t then Some (e_mem e) else first_mem es' t
  end.

Lemma find_loop_rep es k t i :
  Forall (fun e => e_tag e <> DPS_INVALID_TAG) es -> 0 <= i ->
  let j := find_loop (map e_head es ++ replicate k no_ele) t i in
  match first_mem es t with
  | Some m => i <= j < i + Z.of_nat (length es) /\
      exists e, es !! Z.to_nat (j - i) = Some e /\ e_mem e = m
  | None => j = -1
  end.
Proof.
  intros Ht Hi. revert i Hi. induction Ht as [|e es He Hes IH]; intros i Hi;
    cbn [find_loop first_mem map app e_head tag length].
  - by destruct k.
  - destruct (Z.eqb_spec DPS_INVALID_TAG (e_tag e)); [congruence|].
    destruct (Z.eqb_spec (e_tag e) t).
    + split; [lia|]. exists e. by rewrite Z.sub_diag.
    + specialize (IH (i + 1) ltac:(lia)). cbv zeta in IH. destruct (first_mem es t); [|done].
      destruct IH as (Hj & e' & He' & Em). split; [lia|]. exists e'. split; [|done].
      set (j := find_loop _ _ _) in *.
      replace (Z.to_nat (j - i)) with (S (Z.to_nat (j - (i + 1)))) by lia. done.
Qed.

(** [find] gives the first element with the tag, or an iterator that is not valid. *)
Lemma find_rep r es t :
  rep r es ->
  match first_mem es t with
  | Some m => valid (find r t) = true /\ value r (find r t) = Some (Some m)
  | None => valid (find r t) = false
  end.
Proof.
  intros [Hn Hw Hd Hh Ht]. unfold find, value. rewrite Hh, Hd.
  pose proof (find_loop_rep es (20 - length es) t 0 Ht ltac:(lia)) as H. cbv zeta in H.
  destruct (first_mem es t) as [m|]; [|by rewrite H].
  destruct H as (Hj & e & He & Em). set (j := find_loop _ _ _) in *. rewrite Z.sub_0_r in He.
  unfold valid, DPS_MERGE_BLOCK_MAX_DATA. split; [do 2 case_Zb; simpl; lia|].
  unfold rd. case_Zb; [|lia]. rewrite lookup_app_l by (rewrite length_map; lia).
  change (map e_ptr es) with (e_ptr <$> es). rewrite list_lookup_fmap, He. cbn. unfold e_ptr. by rewrite Em.
Qed.

Lemma first_mem_app es1 es2 t :
  first_mem (es1 ++ es2) t =
  match first_mem es1 t with Some m => Some m | None => first_mem es2 t end.
Proof. induction es1 as [|e es1 IH]; cbn; [done|]. by destruct (e_tag e =? t). Qed.

(** ** The bytes of the elements *)

Definition e_val (e : elem) : list Z := take (Z.to_nat (e_len e)) (e_mem e).

Record elem_ok (e : elem) : Prop := {
  eo_tag : 0 < e_tag e < 256;
  eo_len : 0 <= e_len e < 2 ^ 32;
  eo_mem : e_len e <= Z.of_nat (length (e_mem e))
}.

Fixpoint body (es : list elem) : list Z :=
  match es with [] => [] | e :: es' => ele_bytes (e_head e) ++ e_val e ++ body es' end.

Lemma ele_bytes_length e : length (ele_bytes e) = 5%nat.
Proof. unfold ele_bytes. cbn [length]. by rewrite le_bytes_length. Qed.

Lemma e_val_length e : elem_ok e -> Z.of_nat (length (e_val e)) = e_len e.
Proof. intros []. unfold e_val. rewrite length_take. lia. Qed.

Lemma body_cons_length e es :
  elem_ok e -> Z.of_nat (length (body (e :: es))) = 5 + e_len e + Z.of_nat (length (body es)).
Proof.
  intros He. cbn [body]. rewrite !length_app, ele_bytes_length.
  pose proof (e_val_length e He). lia.
Qed.

Lemma body_app es1 es2 : body (es1 ++ es2) = body es1 ++ body es2.
Proof. induction es1 as [|e es1 IH]; [done|]. cbn [app body]. by rewrite IH, <- !app_assoc. Qed.

Lemma chunk_e_val e : elem_ok e -> chunk (e_ptr e) (e_len e) = Some (e_val e).
Proof.
  intros [_ ? ?]. unfold chunk, e_ptr, e_val. destruct (Z.eqb_spec (e_len e) 0) as [->|]; [done|].
  cbn. apply rd_range_Some. split_and!; [lia|lia|lia|]. by rewrite drop_0.
Qed.

(** What the merge loop writes for the elements of a record. *)
Lemma merge_elements_rep es k acc :
  Forall elem_ok es -> 0 <= acc -> acc + Z.of_nat (length (body es)) < 2 ^ 32 ->
  exists cs, merge_elements (map e_ptr es ++ replicate k None) (map e_head es ++ replicate k no_ele) acc
      = Some (cs, acc + Z.of_nat (length (body es))) /\ concat cs = body es.
Proof.
  intros Hes. revert acc. induction Hes as [|e es He Hes IH]; intros acc H0 H1.
  - exists []. destruct k; cbn; by rewrite Z.add_0_r.
  - rewrite body_cons_length in * by done. pose proof (eo_len _ He).
    cbn [map app merge_elements e_ptr e_head len]. change (Some (e_mem e)) with (e_ptr e).
    rewrite chunk_e_val by done. cbn [mbind option_bind].
    unfold DPS_RECORD_ELE_HEADER_LEN. rewrite !u32_small by (rewrite ?u32_small by lia; lia).
    destruct (IH (acc + 5 + e_len e)) as (cs & -> & Ecs); [lia|lia|]. cbn [mbind option_bind].
    eexists. split; [f_equal; f_equal; lia|]. cbn [concat body]. by rewrite Ecs.
Qed.

Lemma elements_len_rep es k acc :
  Forall elem_ok es -> 0 <= acc -> acc + Z.of_nat (length (body es)) < 2 ^ 32 ->
  elements_len (map e_head es ++ replicate k no_ele) acc = acc + Z.of_nat (length (body es)).
Proof.
  intros Hes. revert acc. induction Hes as [|e es He Hes IH]; intros acc H0 H1.
  - destruct k; cbn; lia.
  - rewrite body_cons_length in * by done. destruct He as [? ? ?].
    cbn [map app elements_len e_head tag len]. unfold DPS_INVALID_TAG, DPS_RECORD_ELE_HEADER_LEN.
    case_Zb; [lia|]. rewrite !u32_small by (rewrite ?u32_small by lia; lia).
    rewrite IH; lia.
Qed.

(** The length of a record is the next multiple of four. *)
Lemma alignedLen_rep r es :
  rep r es -> Forall elem_ok es -> 32 + Z.of_nat (length (body es)) < 2 ^ 32 - 4 ->
  let l := 32 + Z.of_nat (length (body es)) in
  l <= alignedLen r < l + 4 /\ (4 | alignedLen r).
Proof.
  intros [Hn Hw Hd Hh Ht] Hes Hlt. cbv zeta. unfold alignedLen.
  rewrite Hh, elements_len_rep by (done || lia). unfold ossRoundUpToMultipleX, sizeof_head.
  set (x := 0 + _ + 32 + (4 - 1)). pose proof (Z.div_mod x 4 ltac:(lia)) as E.
  pose proof (Z.mod_pos_bound x 4 ltac:(lia)).
  rewrite u32_small by lia. split; [lia|]. exists (x / 4). lia.
Qed.

(** ** Loading what was written *)

(** A loaded element shows the value that was stored, followed by whatever
    follows it in memory. *)
Definition loaded (e e' : elem) : Prop :=
  e_tag e' = e_tag e /\ e_len e' = e_len e /\ exists m, e_mem e' = e_val e ++ m.

(** The end of a record after its elements: short, or started by a stop. *)
Definition tail_ok (n : nat) (tail : list Z) : Prop :=
  (length tail <= 5)%nat \/
  (n < 20)%nat /\ exists t, tail = replicate 5 0 ++ t.

(** The last element is seen only when something follows its header. *)
Definition last_seen (es : list elem) (tail : list Z) : Prop :=
  tail <> [] \/ match list.last es with Some e => 0 < e_len e | None => True end.

Lemma last_seen_cons e es tail : es <> [] -> last_seen (e :: es) tail -> last_seen es tail.
Proof. intros Hne [?|H]; [by left|right]. by destruct es. Qed.

Lemma loadBody_step fuel r es e rest loadSize totalSize :
  rep r es -> elem_ok e -> (length es < 20)%nat ->
  0 <= loadSize < totalSize -> e_len e <= totalSize - loadSize < 2 ^ 31 ->
  exists r', loadBody_loop (S fuel) r (ele_bytes (e_head e) ++ e_val e ++ rest) loadSize totalSize
      = loadBody_loop fuel r' rest (loadSize + (5 + e_len e)) totalSize /\
    rep r' (es ++ [mkElem (e_tag e) (e_len e) (e_val e ++ rest)]) /\
    _head r' = _head r /\ _result r' = _result r.
Proof.
  intros Hr He Hn Hs Hv. pose proof (e_val_length e He) as Hl. destruct He as [Ht Hb Hm].
  destruct (set_element_rep r es (e_tag e) (e_len e) (e_val e ++ rest)) as (r' & E & Hr' & Hh');
    [done|done|unfold DPS_INVALID_TAG; lia|].
  exists r'. split; [|done]. cbn [loadBody_loop].
  destruct (Z.ltb_spec loadSize totalSize); [|lia].
  rewrite (bind_Some_eq _ (e_tag e)) by done.
  rewrite (bind_Some_eq _ (le_bytes 4 (e_len e))).
  2: { unfold ele_bytes, e_head. cbn [tag len]. change (e_tag e :: le_bytes 4 (e_len e))
         with ([e_tag e] ++ le_bytes 4 (e_len e)). rewrite <- app_assoc, rd_range_app_r by (simpl; lia).
       apply rd_range_app_l. by rewrite le_bytes_length. }
  rewrite le_word_bytes by (simpl; lia). rewrite (rep_write _ _ Hr).
  unfold DPS_MERGE_BLOCK_MAX_DATA, DPS_INVALID_TAG. rewrite u32_small by lia.
  do 3 (case_Zb; [lia|]). unfold DPS_RECORD_ELE_HEADER_LEN.
  rewrite (drop_app_length' _ _ (Z.to_nat 5)) by (by rewrite ele_bytes_length).
  rewrite (bind_Some_eq _ r') by done.
  rewrite u32_small by lia. f_equal; [|lia].
  rewrite app_assoc, drop_app_length'; [done|]. rewrite length_app, ele_bytes_length. lia.
Qed.

Lemma loadBody_end fuel r n tail rest loadSize totalSize :
  _write r = Z.of_nat n -> tail_ok n tail ->
  totalSize = loadSize + Z.of_nat (length tail) - 5 ->
  loadBody_loop (S fuel) r (tail ++ rest) loadSize totalSize = Some (SDB_OK, r).
Proof.
  intros Hw Ht ->. cbn [loadBody_loop]. set (n' := loadSize + _ - 5).
  destruct (Z.ltb_spec loadSize n'); [|done]. destruct Ht as [Hl|(Hn & t & ->)]; [lia|]. rewrite <- app_assoc. cbn [replicate app].
  rewrite (bind_Some_eq _ 0) by done. rewrite (bind_Some_eq _ [0; 0; 0; 0]).
  2: { change (0 :: 0 :: 0 :: 0 :: 0 :: t ++ rest) with ([0] ++ [0; 0; 0; 0] ++ t ++ rest).
       rewrite rd_range_app_r by (simpl; lia). by apply rd_range_app_l. }
  rewrite Hw. unfold DPS_MERGE_BLOCK_MAX_DATA. case_Zb; [lia|]. done.
Qed.

Lemma loadBody_elements es : Forall elem_ok es -> forall fuel r es0 tail rest loadSize totalSize,
  rep r es0 -> (length es < fuel)%nat -> (length es0 + length es <= 20)%nat ->
  tail_ok (length es0 + length es) tail -> last_seen es tail ->
  0 <= loadSize -> totalSize < 2 ^ 31 ->
  totalSize = loadSize + Z.of_nat (length (body es)) + Z.of_nat (length tail) - 5 ->
  exists r' es', loadBody_loop fuel r (body es ++ tail ++ rest) loadSize totalSize = Some (SDB_OK, r') /\
    rep r' (es0 ++ es') /\ Forall2 loaded es es' /\ _head r' = _head r /\ _result r' = _result r.
Proof.
  induction 1 as [|e es He Hes IH]; intros fuel r es0 tail rest loadSize totalSize Hr Hf Hn Ht Hl H0 H1 E.
  - destruct fuel as [|fuel]; [cbn in Hf; lia|]. cbn [body app length] in *. rewrite Nat.add_0_r in Ht.
    exists r, []. rewrite app_nil_r. split_and!; try done.
    eapply loadBody_end; [apply (rep_write _ _ Hr)|done|lia].
  - destruct fuel as [|fuel]; [cbn in Hf; lia|]. pose proof (eo_len _ He).
    rewrite body_cons_length in E by done. cbn [length] in *.
    assert (Hpos : 0 < e_len e + Z.of_nat (length (body es)) + Z.of_nat (length tail)).
    { destruct es as [|e1 es]; [|apply Forall_inv in Hes;
        pose proof (body_cons_length e1 es Hes); pose proof (eo_len _ Hes); lia].
      destruct Hl as [?|Hl]; [destruct tail; [done|cbn [length]; lia]|cbn in Hl; lia]. }
    cbn [body]. rewrite <- !app_assoc.
    destruct (loadBody_step fuel r es0 e (body es ++ tail ++ rest) loadSize totalSize)
      as (r1 & -> & Hr1 & Hh1 & Hres1); [done|done|lia|lia|lia|].
    destruct (IH fuel r1 (es0 ++ [mkElem (e_tag e) (e_len e) (e_val e ++ body es ++ tail ++ rest)])
      tail rest (loadSize + (5 + e_len e)) totalSize) as (r' & es' & -> & Hr' & Hf2 & Hh & Hres);
      rewrite ?length_app; cbn [length]; try done; try lia.
    { by replace (length es0 + 1 + length es)%nat with (length es0 + S (length es))%nat by lia. }
    { destruct es; [by right|]. by eapply last_seen_cons. }
    eexists r', (_ :: es'). split; [done|]. rewrite <- app_assoc in Hr'. split; [exact Hr'|].
    split; [constructor; [|done]|by rewrite Hh, Hres, Hh1, Hres1].
    split_and!; cbn; eauto.
Qed.

(** [mem] holds the record [r] as [_mergeLogs] writes it: its chunks, then
    bytes that are not written up to the length of the record. *)
Definition stored (r : dpsLogRecord) (mem : list Z) : Prop :=
  exists cs pad rest, merge_chunks false r = Some cs /\ mem = concat cs ++ pad ++ rest /\
    Z.of_nat (length (concat cs)) + Z.of_nat (length pad) = _length (_head r).

(** A record that can be written and read back. *)
Record writable (r : dpsLogRecord) (es : list elem) : Prop := {
  wr_rep : rep r es;
  wr_elems : Forall elem_ok es;
  wr_head : head_ok (_head r);
  wr_type : _type (_head r) <> LOG_TYPE_DUMMY;
  wr_len : 32 + Z.of_nat (length (body es)) <= _length (_head r) <= DPS_RECORD_MAX_LEN;
  wr_last : 32 + Z.of_nat (length (body es)) < _length (_head r) \/
            match list.last es with Some e => 0 < e_len e | None => False end;
  wr_room : (length es < 20)%nat \/ _length (_head r) <= 37 + Z.of_nat (length (body es))
}.

Lemma u64_ge x : x < 2 ^ 64 -> x <= u64 x.
Proof.
  intros. unfold u64. destruct (Z_lt_le_dec x 0); [|rewrite Z.mod_small by lia; lia].
  pose proof (Z.mod_pos_bound x (2 ^ 64)). lia.
Qed.

Lemma max_len_bound : DPS_RECORD_MAX_LEN < 2 ^ 26.
Proof. done. Qed.

(** A stored record is its header, its elements and an end that loading accepts. *)
Lemma stored_inv r es mem :
  writable r es -> stored r mem ->
  exists tail rest, mem = head_bytes (_head r) ++ body es ++ tail ++ rest /\
    tail_ok (length es) tail /\ last_seen es tail /\
    _length (_head r) = 32 + Z.of_nat (length (body es)) + Z.of_nat (length tail).
Proof.
  intros [Hr Hes Hh Hty Hlen Hlast Hroom] (cs & pad & rest & Hm & -> & Hl).
  pose proof max_len_bound. destruct Hr as [Hn Hw Hd Hhd Ht]. unfold merge_chunks in Hm.
  destruct (Z.eqb_spec LOG_TYPE_DUMMY (_type (_head r))); [congruence|]. rewrite Hd, Hhd in Hm.
  destruct (merge_elements_rep es (20 - length es) 0) as (cs0 & E & Ecs); [done|lia|lia|].
  rewrite E in Hm. cbn [mbind option_bind] in Hm.
  unfold DPS_RECORD_ELE_HEADER_LEN, sizeof_head in Hm. injection Hm as <-.
  cbn [concat] in *. rewrite concat_app, Ecs in *. rewrite length_app, head_bytes_length, length_app in Hl.
  set (stop := concat _) in *. exists (stop ++ pad), rest.
  split; [by rewrite <- !app_assoc|]. rewrite length_app.
  split; [|split; [|lia]].
  - pose proof (u64_ge (_length (_head r) - 5 - 32) ltac:(lia)) as Hu.
    subst stop. set (n' := u64 _) in *. destruct (Z.leb_spec (0 + Z.of_nat (length (body es))) n').
    + cbn [concat app length] in Hl |- *. destruct Hroom; [right|left; cbn [length]; lia].
      split; [done|]. by exists pad.
    + left. cbn [concat app length] in *. lia.
  - destruct Hlast as [?|Hlast]; [left|right; by destruct (list.last es)].
    intros [E1 E2]%app_nil. rewrite E1, E2 in Hl. cbn in Hl. lia.
Qed.

Lemma load_body_init h m :
  sizeof_head <= _length h <= DPS_RECORD_MAX_LEN -> _type h <> LOG_TYPE_DUMMY -> read_head m = Some h ->
  forall r, load r m = ('(rc, r') ← loadBody (with_head r h) (drop 32 m) (_length h - 37);
    Some (rc, if rc =? SDB_OK then r' else with_result r' rc)).
Proof.
  intros Hl Ht E r. unfold load. rewrite E. cbn [mbind option_bind].
  unfold DPS_RECORD_ELE_HEADER_LEN, sizeof_head in *.
  destruct (Z.ltb_spec (_length h) 32), (Z.ltb_spec DPS_RECORD_MAX_LEN (_length h)); try lia.
  destruct (Z.eqb_spec LOG_TYPE_DUMMY (_type h)); [congruence|].
  cbn [orb]. by replace (_length h - 32 - 5) with (_length h - 37) by lia.
Qed.

Lemma load_stored r es mem :
  writable r es -> stored r mem ->
  exists r' es', load record_init mem = Some (SDB_OK, r') /\ rep r' es' /\
    Forall2 loaded es es' /\ _head r' = _head r.
Proof.
  intros Hwr Hst. destruct (stored_inv r es mem Hwr Hst) as (tail & rest & -> & Ht & Hl & Hlen).
  destruct Hwr as [Hr Hes Hh Hty Hlb _ _]. pose proof max_len_bound.
  rewrite (load_body_init (_head r)); [|unfold sizeof_head; lia|done|by apply read_head_bytes].
  rewrite drop_app_length' by (by rewrite head_bytes_length).
  unfold loadBody.
  destruct (loadBody_elements es Hes 21 (with_head record_init (_head r)) [] tail rest 0
    (_length (_head r) - 37)) as (r' & es' & -> & Hr' & Hf & Hh' & _); cbn [length Nat.add]; try done; try lia.
  - apply rep_with_head, rep_init.
  - pose proof (rep_size _ _ Hr). lia.
  - apply (rep_size _ _ Hr).
  - exists r', es'. cbn. auto.
Qed.

(** ** Loading arbitrary bytes *)

(** The value of [e] lies within the first [L] bytes of [mem]. *)
Definition inside (mem : list Z) (L : Z) (e : elem) : Prop :=
  exists off, e_mem e = drop off mem /\ Z.of_nat off + e_len e <= L.

Lemma rd_range_bytes m i n bs : Forall is_byte m -> rd_range m i n = Some bs -> Forall is_byte bs.
Proof. intros Hm (_ & _ & _ & ->)%rd_range_Some. by apply Forall_take, Forall_drop. Qed.

Lemma loadBody_inside mem L : Forall is_byte mem -> L <= Z.of_nat (length mem) -> L < 2 ^ 31 ->
  forall fuel r es0 loadSize,
  rep r es0 -> (20 - length es0 < fuel)%nat -> 0 <= loadSize ->
  exists rc r' es, loadBody_loop fuel r (drop (Z.to_nat (32 + loadSize)) mem) loadSize (L - 37) = Some (rc, r') /\
    (rc = SDB_OK \/ rc = SDB_DPS_CORRUPTED_LOG) /\ rep r' (es0 ++ es) /\ Forall (inside mem L) es /\
    _head r' = _head r.
Proof.
  intros Hb HL HL2. induction fuel as [|fuel IH]; intros r es0 loadSize Hr Hf H0; [lia|].
  cbn [loadBody_loop].
  assert (Hstop : forall rc, rc = SDB_OK \/ rc = SDB_DPS_CORRUPTED_LOG ->
    exists rc' r' es, Some (rc, r) = Some (rc', r') /\
    (rc' = SDB_OK \/ rc' = SDB_DPS_CORRUPTED_LOG) /\ rep r' (es0 ++ es) /\ Forall (inside mem L) es /\
    _head r' = _head r).
  { intros rc Hrc. exists rc, r, []. rewrite app_nil_r. auto. }
  destruct (Z.ltb_spec loadSize (L - 37)); [|by apply Hstop; left].
  set (loc := drop _ mem). assert (Hloc : Z.of_nat (length loc) = Z.of_nat (length mem) - 32 - loadSize)
    by (subst loc; rewrite length_drop; lia).
  destruct (rd_is_Some loc 0) as (t & Et); [lia|]. rewrite Et. cbn [mbind option_bind].
  destruct (rd_range loc 1 4) as [sz|] eqn:Esz.
  2: { exfalso. unfold rd_range in Esz. cbn [Z.leb] in Esz.
       destruct (Z.leb_spec (1 + 4) (Z.of_nat (length loc))); [done|lia]. }
  cbn [mbind option_bind].
  assert (Hsz : 0 <= le_word sz < 2 ^ 32).
  { pose proof (le_word_bound sz) as Hw. rewrite (rd_range_length _ _ _ _ Esz) in Hw.
    apply Hw. eapply rd_range_bytes; [|exact Esz]. by apply Forall_drop. }
  destruct (Z.eqb_spec DPS_MERGE_BLOCK_MAX_DATA (_write r)) as [|Hne]; [by apply Hstop; right|].
  destruct (Z.eqb_spec DPS_INVALID_TAG t); [by apply Hstop; left|].
  rewrite u32_small by lia.
  destruct (Z.ltb_spec (L - 37 - loadSize) (le_word sz)); [by apply Hstop; right|].
  rewrite (rep_write _ _ Hr) in Hne. unfold DPS_MERGE_BLOCK_MAX_DATA in Hne.
  pose proof (rep_size _ _ Hr).
  change (Z.to_nat DPS_RECORD_ELE_HEADER_LEN) with 5%nat.
  destruct (set_element_rep r es0 t (le_word sz) (drop 5 loc)) as (r1 & -> & Hr1 & Hh1 & _);
    [done|lia|congruence|]. cbn [mbind option_bind].
  unfold DPS_RECORD_ELE_HEADER_LEN. rewrite u32_small by lia. subst loc. rewrite drop_drop.
  replace (Z.to_nat (32 + loadSize) + Z.to_nat (le_word sz + 5))%nat
    with (Z.to_nat (32 + (loadSize + (le_word sz + 5)))) by lia.
  destruct (IH r1 _ (loadSize + (le_word sz + 5)) Hr1) as (rc & r' & es & -> & Hrc & Hr' & Hin & Hh);
    [rewrite length_app; cbn [length]; lia|lia|].
  eexists rc, r', (_ :: es). split; [done|]. split; [done|]. rewrite <- app_assoc in Hr'.
  split; [exact Hr'|]. split; [|congruence]. constructor; [|done].
  exists (Z.to_nat (32 + loadSize) + 5)%nat. cbn [e_mem e_len]. rewrite drop_drop. split; [done|lia].
Qed.

Lemma read_head_range mem h :
  Forall is_byte mem -> read_head mem = Some h -> 0 <= _length h < 2 ^ 32 /\ 32 <= Z.of_nat (length mem).
Proof.
  intros Hb H. unfold read_head in H.
  do 2 (apply bind_Some in H as (? & _ & H)). apply bind_Some in H as (bs & E & H).
  do 3 (apply bind_Some in H as (? & _ & H)). apply bind_Some in H as (bs7 & E7 & H).
  injection H as <-. cbn [_length]. pose proof (le_word_bound bs (rd_range_bytes _ _ _ _ Hb E)) as Hw.
  rewrite (rd_range_length _ _ _ _ E) in Hw. apply rd_range_Some in E7. split; [exact Hw|lia].
Qed.

(** Whatever bytes it is given, [load] returns, reads nothing beyond the
    length in the header, and the values it hands out lie within it. *)
Lemma load_inside_from r es0 mem h :
  rep r es0 -> Forall is_byte mem -> read_head mem = Some h -> _length h <= Z.of_nat (length mem) ->
  exists rc r' es, load r mem = Some (rc, r') /\
    (rc = SDB_OK \/ rc = SDB_DPS_CORRUPTED_LOG) /\ rep r' (es0 ++ es) /\
    Forall (inside mem (_length h)) es /\ _head r' = h.
Proof.
  intros Hr Hb Hh HL. destruct (read_head_range mem h Hb Hh) as [Hl32 Hm]. pose proof max_len_bound.
  pose proof (rep_with_head _ h _ Hr) as Hi.
  assert (Hnil : rep (with_head r h) (es0 ++ [])) by (by rewrite app_nil_r).
  destruct (Z_lt_le_dec (_length h) sizeof_head) as [H1|H1].
  { eexists _, _, []. unfold load. rewrite Hh. cbn [mbind option_bind]. rewrite (proj2 (Z.ltb_lt _ _) H1).
    split; [done|]. split; [by right|]. split; [by apply rep_with_result|]. done. }
  destruct (Z_lt_le_dec DPS_RECORD_MAX_LEN (_length h)) as [H2|H2].
  { eexists _, _, []. unfold load. rewrite Hh. cbn [mbind option_bind].
    rewrite (proj2 (Z.ltb_lt _ _) H2), orb_true_r.
    split; [done|]. split; [by right|]. split; [by apply rep_with_result|]. done. }
  destruct (Z.eq_dec (_type h) LOG_TYPE_DUMMY) as [Ht|Ht].
  { eexists _, _, []. unfold load. rewrite Hh. cbn [mbind option_bind].
    destruct (Z.ltb_spec (_length h) sizeof_head), (Z.ltb_spec DPS_RECORD_MAX_LEN (_length h)); try lia.
    cbn [orb]. rewrite Ht, Z.eqb_refl. auto. }
  rewrite (load_body_init h) by done. unfold loadBody.
  destruct (loadBody_inside mem (_length h) Hb HL ltac:(lia) 21 _ _ 0 Hi) as
    (rc & r' & es & E & Hrc & Hr' & Hin & Hhd); [cbn; lia|lia|].
  change (Z.to_nat (32 + 0)) with 32%nat in E. rewrite E. cbn [mbind option_bind].
  eexists _, _, es. split; [done|]. split; [done|].
  destruct (rc =? SDB_OK); cbn [_head with_result]; eauto using rep_with_result.
Qed.

(** ** Clearing *)

Lemma reset_app {A B} (f : A -> B) (es : list A) v k :
  reset (length es) v (map f es ++ replicate k v) = replicate (length es + k) v.
Proof. induction es as [|e es IH]; cbn; [by destruct k|]. by rewrite IH. Qed.

(** A cleared record is empty. *)
Lemma clear_rep r es : rep r es -> rep (clear r) [].
Proof.
  intros [Hn Hw Hd Hh Ht]. unfold clear. rewrite Hw.
  destruct (Z.eqb_spec 0 (Z.of_nat (length es))).
  - destruct es; [|cbn in *; lia]. by constructor.
  - rewrite Hd, Hh, Nat2Z.id, !reset_app. replace (length es + (20 - length es))%nat with 20%nat by lia.
    constructor; cbn [length]; try done; lia.
Qed.
