(* ===== verification/DpsOp2Record.v ===== *)
(** * Operations as log records

    Models [dps/dpsOp2Record.cpp]: each operation that is replicated has a
    function that pushes its arguments into a log record and one that reads
    them back from the bytes of a record.  Encoders run in the monad [recM]
    of return code and record, decoders return an [outcome].  Strings and
    objects are given by the memory at their address; the elements of the
    record point to them. *)

From stdpp Require Import base list option.
From Stdlib Require Import ZArith Lia.
From S2P Require Import Prelude DpsLsn Mem DpsRecord.

Open Scope Z_scope.

(** ** Tags ([include/dpsLogRecordDef.hpp]) *)

Definition DPS_LOG_PUBLIC_FULLNAME : Z := 201.
Definition DPS_LOG_PUBLIC_TRANSID : Z := 202.
Definition DPS_LOG_PUBLIC_PRETRANS : Z := 203.
Definition DPS_LOG_PUBLIC_RELATED_TRANS : Z := 204.
Definition DPS_LOG_PUBLIC_FIRSTTRANS : Z := 205.
Definition DPS_LOG_INSERT_OBJ : Z := 1.
Definition DPS_LOG_UPDATE_OLDMATCH : Z := 1.
Definition DPS_LOG_UPDATE_OLDOBJ : Z := 2.
Definition DPS_LOG_UPDATE_NEWMATCH : Z := 3.
Definition DPS_LOG_UPDATE_NEWOBJ : Z := 4.
Definition DPS_LOG_UPDATE_OLDSHARDINGKEY : Z := 5.
Definition DPS_LOG_UPDATE_NEWSHARDINGKEY : Z := 6.
Definition DPS_LOG_DELETE_OLDOBJ : Z := 1.
Definition DPS_LOG_POP_LID : Z := 1.
Definition DPS_LOG_POP_DIRECTION : Z := 2.
Definition DPS_LOG_CSCRT_CSNAME : Z := 1.
Definition DPS_LOG_CSCRT_PAGESIZE : Z := 2.
Definition DPS_LOG_CSCRT_LOBPAGESZ : Z := 3.
Definition DPS_LOG_CSCRT_CSTYPE : Z := 4.
Definition DPS_LOG_CSDEL_CSNAME : Z := 1.
Definition DPS_LOG_CSRENAME_CSNAME : Z := 1.
Definition DPS_LOG_CSRENAME_NEWNAME : Z := 2.
Definition DPS_LOG_CLCRT_ATTRIBUTE : Z := 1.
Definition DPS_LOG_CLCRT_COMPRESS_TYPE : Z := 2.
Definition DPS_LOG_CLCRT_EXT_OPTIONS : Z := 3.
Definition DPS_LOG_IXCRT_IX : Z := 1.
Definition DPS_LOG_IXDEL_IX : Z := 1.
Definition DPS_LOG_CLRENAME_CSNAME : Z := 1.
Definition DPS_LOG_CLRENAME_CLOLDNAME : Z := 2.
Definition DPS_LOG_CLRENAME_CLNEWNAME : Z := 3.
Definition DPS_LOG_INVALIDCATA_TYPE : Z := 1.
Definition DPS_LOG_INVALIDCATA_IXNAME : Z := 2.
Definition DPS_LOG_LOB_OID : Z := 1.
Definition DPS_LOG_LOB_SEQUENCE : Z := 2.
Definition DPS_LOG_LOB_OFFSET : Z := 3.
Definition DPS_LOG_LOB_HASH : Z := 4.
Definition DPS_LOG_LOB_LEN : Z := 5.
Definition DPS_LOG_LOB_DATA : Z := 6.
Definition DPS_LOG_LOB_PAGE : Z := 7.
Definition DPS_LOG_LOB_OLD_LEN : Z := 8.
Definition DPS_LOG_LOB_OLD_DATA : Z := 9.
Definition DPS_LOG_LOB_PAGE_SIZE : Z := 10.

Definition DPS_LOG_INVALIDCATA_TYPE_CATA : Z := 1.
Definition DMS_DEFAULT_LOB_PAGE_SZ : Z := 262144.

(** ** Strings and objects in memory *)

(** The string at an address, [None] when no NUL follows in memory. *)
Fixpoint c_string (m : list Z) : option (list Z) :=
  match m with
  | [] => None
  | b :: m' => if b =? 0 then Some [] else s ← c_string m'; Some (b :: s)
  end.

Definition ossStrlen (m : list Z) : option Z := s ← c_string m; Some (Z.of_nat (length s)).

(** [BSONObj::objsize] and the checks on it ([bson/bsonobj.h]). *)
Definition objsize (m : list Z) : option Z := bs ← rd_range m 0 4; Some (s32 (le_word bs)).

Definition BSONObjMaxInternalSize : Z := 16 * 1024 * 1024 + 16 * 1024.

Definition bson_isEmpty (m : list Z) : option bool := n ← objsize m; Some (n <=? 5).

(** ** Encoding *)

Definition recM : Type := dpsLogRecord -> option (Z * dpsLogRecord).

Definition r_done : recM := fun r => Some (SDB_OK, r).
Definition r_fail (rc : Z) : recM := fun r => Some (rc, r).

(** [rc = m1 ; if ( rc ) goto error ; m2] *)
Definition r_seq (m1 m2 : recM) : recM := fun r =>
  '(rc, r') ← m1 r; if rc =? SDB_OK then m2 r' else Some (rc, r').

Definition r_let {A} (o : option A) (k : A -> recM) : recM := fun r => a ← o; k a r.

Declare Scope rec_scope.
Delimit Scope rec_scope with rec.
Notation "m1 ;; m2" := (r_seq m1 m2) (at level 100, right associativity) : rec_scope.
Notation "'let!' x := o 'in' k" := (r_let o (fun x => k))
  (at level 10, x name, o at level 100, k at level 200) : rec_scope.
Open Scope rec_scope.

Definition r_push (t l : Z) (p : ptr) : recM := fun r => record_push r t l p.

Definition push_str (t : Z) (s : list Z) : recM :=
  let! n := ossStrlen s in r_push t (u32 (n + 1)) (Some s).

Definition push_obj (t : Z) (obj : list Z) : recM :=
  let! n := objsize obj in r_push t (u32 n) (Some obj).

(** A variable of [k] bytes. *)
Definition push_int (t : Z) (k : nat) (v : Z) : recM :=
  r_push t (Z.of_nat k) (Some (le_bytes k v)).

Definition set_type (t : Z) : recM := fun r =>
  Some (SDB_OK, with_head r (with_type (_head r) t)).

Definition set_length : recM := fun r =>
  Some (SDB_OK, with_head r (with_length (_head r) (alignedLen r))).

Definition dpsPushTran (transID preTransLsn relatedLSN : Z) : recM :=
  (if DPS_INVALID_TRANS_ID =? transID then r_done
   else push_int DPS_LOG_PUBLIC_TRANSID 8 transID) ;;
  (if DPS_INVALID_LSN_OFFSET =? preTransLsn then r_done
   else push_int DPS_LOG_PUBLIC_PRETRANS 8 preTransLsn) ;;
  (if DPS_INVALID_LSN_OFFSET =? relatedLSN then r_done
   else push_int DPS_LOG_PUBLIC_RELATED_TRANS 8 relatedLSN).

Definition dpsInsert2Record (fullName obj : list Z) (transID preTransLsn relatedLSN : Z) : recM :=
  set_type LOG_TYPE_DATA_INSERT ;;
  push_str DPS_LOG_PUBLIC_FULLNAME fullName ;;
  push_obj DPS_LOG_INSERT_OBJ obj ;;
  dpsPushTran transID preTransLsn relatedLSN ;;
  set_length.

Section encode.

(** [BSONObj::woCompare] and [BSONObj::valid] of [bson/]. *)
Context (woCompare : list Z -> list Z -> Z) (bson_valid : list Z -> bool).

Definition dpsUpdate2Record (fullName oldMatch oldObj newMatch newObj : list Z)
    (oldShardingKey newShardingKey : list Z) (transID preTransLsn relatedLSN : Z) : recM :=
  set_type LOG_TYPE_DATA_UPDATE ;;
  push_str DPS_LOG_PUBLIC_FULLNAME fullName ;;
  push_obj DPS_LOG_UPDATE_OLDMATCH oldMatch ;;
  push_obj DPS_LOG_UPDATE_OLDOBJ oldObj ;;
  push_obj DPS_LOG_UPDATE_NEWMATCH newMatch ;;
  push_obj DPS_LOG_UPDATE_NEWOBJ newObj ;;
  dpsPushTran transID preTransLsn relatedLSN ;;
  (let! oldEmpty := bson_isEmpty oldShardingKey in
   if oldEmpty then r_done else
   let! newEmpty := bson_isEmpty newShardingKey in
   if newEmpty then r_done else
     push_obj DPS_LOG_UPDATE_OLDSHARDINGKEY oldShardingKey ;;
     (if woCompare newShardingKey oldShardingKey =? 0 then r_done
      else push_obj DPS_LOG_UPDATE_NEWSHARDINGKEY newShardingKey)) ;;
  set_length.

Definition dpsDelete2Record (fullName oldObj : list Z) (transID preTransLsn relatedLSN : Z) : recM :=
  set_type LOG_TYPE_DATA_DELETE ;;
  push_str DPS_LOG_PUBLIC_FULLNAME fullName ;;
  push_obj DPS_LOG_DELETE_OLDOBJ oldObj ;;
  dpsPushTran transID preTransLsn relatedLSN ;;
  set_length.

(** The argument [firstRID] is not used. *)
Definition dpsPop2Record (fullName : list Z) (logicalID direction : Z) : recM :=
  set_type LOG_TYPE_DATA_POP ;;
  push_str DPS_LOG_PUBLIC_FULLNAME fullName ;;
  push_int DPS_LOG_POP_LID 8 logicalID ;;
  push_int DPS_LOG_POP_DIRECTION 1 direction ;;
  set_length.

Definition dpsCSCrt2Record (csName : list Z) (pageSize lobPageSize type : Z) : recM :=
  set_type LOG_TYPE_CS_CRT ;;
  push_str DPS_LOG_CSCRT_CSNAME csName ;;
  push_int DPS_LOG_CSCRT_PAGESIZE 4 pageSize ;;
  push_int DPS_LOG_CSCRT_LOBPAGESZ 4 lobPageSize ;;
  push_int DPS_LOG_CSCRT_CSTYPE 4 type ;;
  set_length.

Definition dpsCSDel2Record (csName : list Z) : recM :=
  set_type LOG_TYPE_CS_DELETE ;;
  push_str DPS_LOG_CSDEL_CSNAME csName ;;
  set_length.

Definition dpsCSRename2Record (csName newCSName : list Z) : recM :=
  set_type LOG_TYPE_CS_RENAME ;;
  push_str DPS_LOG_CSRENAME_CSNAME csName ;;
  push_str DPS_LOG_CSRENAME_NEWNAME newCSName ;;
  set_length.

Definition dpsCLCrt2Record (fullName : list Z) (attribute compressorType : Z)
    (extOptions : ptr) : recM :=
  set_type LOG_TYPE_CL_CRT ;;
  push_str DPS_LOG_PUBLIC_FULLNAME fullName ;;
  push_int DPS_LOG_CLCRT_ATTRIBUTE 4 attribute ;;
  push_int DPS_LOG_CLCRT_COMPRESS_TYPE 1 compressorType ;;
  match extOptions with
  | Some obj =>
      if bson_valid obj then push_obj DPS_LOG_CLCRT_EXT_OPTIONS obj else r_fail SDB_SYS
  | None => r_done
  end ;;
  set_length.

Definition dpsCLDel2Record (fullName : list Z) : recM :=
  set_type LOG_TYPE_CL_DELETE ;;
  push_str DPS_LOG_PUBLIC_FULLNAME fullName ;;
  set_length.

Definition dpsIXCrt2Record (fullName index : list Z) : recM :=
  set_type LOG_TYPE_IX_CRT ;;
  push_str DPS_LOG_PUBLIC_FULLNAME fullName ;;
  push_obj DPS_LOG_IXCRT_IX index ;;
  set_length.

Definition dpsIXDel2Record (fullName index : list Z) : recM :=
  set_type LOG_TYPE_IX_DELETE ;;
  push_str DPS_LOG_PUBLIC_FULLNAME fullName ;;
  push_obj DPS_LOG_IXDEL_IX index ;;
  set_length.

Definition dpsCLRename2Record (csName clOldName clNewName : list Z) : recM :=
  set_type LOG_TYPE_CL_RENAME ;;
  push_str DPS_LOG_CLRENAME_CSNAME csName ;;
  push_str DPS_LOG_CLRENAME_CLOLDNAME clOldName ;;
  push_str DPS_LOG_CLRENAME_CLNEWNAME clNewName ;;
  set_length.

Definition dpsCLTrunc2Record (fullName : list Z) : recM :=
  set_type LOG_TYPE_CL_TRUNC ;;
  push_str DPS_LOG_PUBLIC_FULLNAME fullName ;;
  set_length.

Definition dpsTransCommit2Record (transID preTransLsn firstTransLsn : Z) : recM :=
  set_type LOG_TYPE_TS_COMMIT ;;
  push_int DPS_LOG_PUBLIC_TRANSID 8 transID ;;
  push_int DPS_LOG_PUBLIC_PRETRANS 8 preTransLsn ;;
  push_int DPS_LOG_PUBLIC_FIRSTTRANS 8 firstTransLsn ;;
  set_length.

Definition dpsInvalidCata2Record (type : Z) (clFullName ixName : ptr) : recM :=
  set_type LOG_TYPE_INVALIDATE_CATA ;;
  push_int DPS_LOG_INVALIDCATA_TYPE 1 type ;;
  match clFullName with Some s => push_str DPS_LOG_PUBLIC_FULLNAME s | None => r_done end ;;
  match ixName with Some s => push_str DPS_LOG_INVALIDCATA_IXNAME s | None => r_done end ;;
  set_length.

(** The elements that the three operations on pages of large objects share. *)
Definition push_lob_page (fullName oid : list Z) (sequence offset hash len : Z) (data : ptr)
    (pageID : Z) : recM :=
  push_str DPS_LOG_PUBLIC_FULLNAME fullName ;;
  r_push DPS_LOG_LOB_OID 12 (Some oid) ;;
  push_int DPS_LOG_LOB_SEQUENCE 4 sequence ;;
  push_int DPS_LOG_LOB_OFFSET 4 offset ;;
  push_int DPS_LOG_LOB_HASH 4 hash ;;
  push_int DPS_LOG_LOB_LEN 4 len ;;
  r_push DPS_LOG_LOB_DATA len data ;;
  push_int DPS_LOG_LOB_PAGE 4 pageID.

Definition dpsLobW2Record (fullName oid : list Z) (sequence offset hash len : Z) (data : ptr)
    (pageSize pageID transID preTransLsn relatedLSN : Z) : recM :=
  set_type LOG_TYPE_LOB_WRITE ;;
  push_lob_page fullName oid sequence offset hash len data pageID ;;
  push_int DPS_LOG_LOB_PAGE_SIZE 4 pageSize ;;
  dpsPushTran transID preTransLsn relatedLSN ;;
  set_length.

Definition dpsLobU2Record (fullName oid : list Z) (sequence offset hash len : Z) (data : ptr)
    (oldLen : Z) (oldData : ptr) (pageSize pageID transID preTransLsn relatedLSN : Z) : recM :=
  set_type LOG_TYPE_LOB_UPDATE ;;
  push_lob_page fullName oid sequence offset hash len data pageID ;;
  push_int DPS_LOG_LOB_OLD_LEN 4 oldLen ;;
  r_push DPS_LOG_LOB_OLD_DATA oldLen oldData ;;
  push_int DPS_LOG_LOB_PAGE_SIZE 4 pageSize ;;
  dpsPushTran transID preTransLsn relatedLSN ;;
  set_length.

Definition dpsLobRm2Record (fullName oid : list Z) (sequence offset hash len : Z) (data : ptr)
    (pageSize page transID preTransLsn relatedLSN : Z) : recM :=
  set_type LOG_TYPE_LOB_REMOVE ;;
  push_lob_page fullName oid sequence offset hash len data page ;;
  push_int DPS_LOG_LOB_PAGE_SIZE 4 pageSize ;;
  dpsPushTran transID preTransLsn relatedLSN ;;
  set_length.

Definition dpsLobTruncate2Record (fullName : list Z) : recM :=
  set_type LOG_TYPE_LOB_TRUNCATE ;;
  push_str DPS_LOG_PUBLIC_FULLNAME fullName ;;
  set_length.

End encode.

(** ** Decoding

    [Err] is a return code other than [SDB_OK], [Throw] the exception of a
    [BSONObj] whose size is out of range, [Crash] an access outside of the
    memory of the record.  The output parameters count only on success. *)

Inductive outcome (A : Type) : Type :=
  | Ret (a : A)
  | Err (rc : Z)
  | Throw
  | Crash.
Arguments Ret {A} a.
Arguments Err {A} rc.
Arguments Throw {A}.
Arguments Crash {A}.

#[export] Instance outcome_ret : MRet outcome := fun A a => Ret a.
#[export] Instance outcome_bind : MBind outcome := fun A B k m =>
  match m with Ret a => k a | Err rc => Err rc | Throw => Throw | Crash => Crash end.

Definition or_crash {A} (o : option A) : outcome A :=
  match o with Some a => Ret a | None => Crash end.

(** [rc = record.load( logRecord )] on a fresh record. *)
Definition load_record (logRecord : list Z) : outcome dpsLogRecord :=
  '(rc, r) ← or_crash (load record_init logRecord);
  if rc =? SDB_OK then Ret r else Err rc.

(** [itr = record.find( tag )] with the value where the iterator is valid. *)
Definition look (r : dpsLogRecord) (t : Z) : outcome (option ptr) :=
  let itr := find r t in
  if valid itr then p ← or_crash (value r itr); Ret (Some p) else Ret None.

(** The same where an iterator that is not valid is an error. *)
Definition need (r : dpsLogRecord) (t : Z) : outcome ptr :=
  o ← look r t; match o with Some p => Ret p | None => Err SDB_SYS end.

(** An unsigned integer of [k] bytes at the address [p]. *)
Definition as_uint (k : Z) (p : ptr) : outcome Z :=
  bs ← or_crash (m ← p; rd_range m 0 k); Ret (le_word bs).

Definition as_int32 (p : ptr) : outcome Z := v ← as_uint 4 p; Ret (s32 v).

(** [BSONObj( p )] *)
Definition BSONObj (p : ptr) : outcome (list Z) :=
  m ← or_crash p; x ← or_crash (objsize m);
  if (0 <? x) && (x <=? BSONObjMaxInternalSize) then Ret m else Throw.

Definition dpsRecord2Insert (logRecord : list Z) : outcome (ptr * list Z) :=
  record ← load_record logRecord;
  fullName ← need record DPS_LOG_PUBLIC_FULLNAME;
  itrObj ← need record DPS_LOG_INSERT_OBJ;
  obj ← BSONObj itrObj;
  Ret (fullName, obj).

(** The two sharding keys are optional output parameters: [None] is a null
    pointer, otherwise the value before the call. *)
Definition dpsRecord2Update (logRecord : list Z) (oldShardingKey newShardingKey : option (list Z))
    : outcome (ptr * list Z * list Z * list Z * list Z * option (list Z) * option (list Z)) :=
  record ← load_record logRecord;
  fullName ← need record DPS_LOG_PUBLIC_FULLNAME;
  itrOldM ← need record DPS_LOG_UPDATE_OLDMATCH;
  itrOldObj ← need record DPS_LOG_UPDATE_OLDOBJ;
  itrNewM ← need record DPS_LOG_UPDATE_NEWMATCH;
  itrNewObj ← need record DPS_LOG_UPDATE_NEWOBJ;
  oldMatch ← BSONObj itrOldM;
  oldObj ← BSONObj itrOldObj;
  newMatch ← BSONObj itrNewM;
  newObj ← BSONObj itrNewObj;
  oldKey ← match oldShardingKey with
           | None => Ret None
           | Some k =>
               itrOldSK ← look record DPS_LOG_UPDATE_OLDSHARDINGKEY;
               match itrOldSK with Some p => k' ← BSONObj p; Ret (Some k') | None => Ret (Some k) end
           end;
  newKey ← match newShardingKey with
           | None => Ret None
           | Some k =>
               itrNewSK ← look record DPS_LOG_UPDATE_NEWSHARDINGKEY;
               match itrNewSK with
               | Some p => k' ← BSONObj p; Ret (Some k')
               | None =>
                   match oldKey with
                   | Some k' => Ret (Some k')
                   | None =>
                       itrOldSK ← look record DPS_LOG_UPDATE_OLDSHARDINGKEY;
                       match itrOldSK with
                       | Some p => k' ← BSONObj p; Ret (Some k')
                       | None => Ret (Some k)
                       end
                   end
               end
           end;
  Ret (fullName, oldMatch, oldObj, newMatch, newObj, oldKey, newKey).

Definition dpsRecord2Delete (logRecord : list Z) : outcome (ptr * list Z) :=
  record ← load_record logRecord;
  fullName ← need record DPS_LOG_PUBLIC_FULLNAME;
  itrObj ← need record DPS_LOG_DELETE_OLDOBJ;
  oldObj ← BSONObj itrObj;
  Ret (fullName, oldObj).

Definition dpsRecord2Pop (logRecord : list Z) : outcome (ptr * Z * Z) :=
  record ← load_record logRecord;
  fullName ← need record DPS_LOG_PUBLIC_FULLNAME;
  itrLID ← need record DPS_LOG_POP_LID;
  itrDirection ← need record DPS_LOG_POP_DIRECTION;
  lid ← as_uint 8 itrLID;
  direction ← as_uint 1 itrDirection;
  Ret (fullName, s64 lid, s8 direction).

Definition dpsRecord2CSCrt (logRecord : list Z) : outcome (ptr * Z * Z * Z) :=
  record ← load_record logRecord;
  csName ← need record DPS_LOG_CSCRT_CSNAME;
  itrPageSize ← need record DPS_LOG_CSCRT_PAGESIZE;
  pageSize ← as_int32 itrPageSize;
  itrLobPageSz ← look record DPS_LOG_CSCRT_LOBPAGESZ;
  lobPageSize ← match itrLobPageSz with
                | None => Ret DMS_DEFAULT_LOB_PAGE_SZ
                | Some p => as_int32 p
                end;
  itrType ← look record DPS_LOG_CSCRT_CSTYPE;
  type ← match itrType with None => Ret 0 | Some p => as_int32 p end;
  Ret (csName, pageSize, lobPageSize, type).

Definition dpsRecord2CSDel (logRecord : list Z) : outcome ptr :=
  record ← load_record logRecord; need record DPS_LOG_CSDEL_CSNAME.

Definition dpsRecord2CSRename (logRecord : list Z) : outcome (ptr * ptr) :=
  record ← load_record logRecord;
  csName ← need record DPS_LOG_CSRENAME_CSNAME;
  newCSName ← need record DPS_LOG_CSRENAME_NEWNAME;
  Ret (csName, newCSName).

(** [compressorType] and [extOptions] keep their values where the record has
    none; the exception of [BSONObj] is caught. *)
Definition dpsRecord2CLCrt (logRecord : list Z) (compressorType : Z) (extOptions : list Z)
    : outcome (ptr * Z * Z * list Z) :=
  record ← load_record logRecord;
  fullName ← need record DPS_LOG_PUBLIC_FULLNAME;
  itrAttr ← look record DPS_LOG_CLCRT_ATTRIBUTE;
  attribute ← match itrAttr with Some p => as_uint 4 p | None => Ret 0 end;
  itrComp ← look record DPS_LOG_CLCRT_COMPRESS_TYPE;
  compressorType ← match itrComp with Some p => as_uint 1 p | None => Ret compressorType end;
  itrExt ← look record DPS_LOG_CLCRT_EXT_OPTIONS;
  extOptions ← match itrExt with
               | Some p => match BSONObj p with Throw => Err SDB_SYS | o => o end
               | None => Ret extOptions
               end;
  Ret (fullName, attribute, compressorType, extOptions).

Definition dpsRecord2CLDel (logRecord : list Z) : outcome ptr :=
  record ← load_record logRecord; need record DPS_LOG_PUBLIC_FULLNAME.

Definition dpsRecord2IXCrt (logRecord : list Z) : outcome (ptr * list Z) :=
  record ← load_record logRecord;
  fullName ← need record DPS_LOG_PUBLIC_FULLNAME;
  itrIndex ← need record DPS_LOG_IXCRT_IX;
  index ← BSONObj itrIndex;
  Ret (fullName, index).

(** The code looks for [DPS_LOG_IXCRT_IX], which has the value of
    [DPS_LOG_IXDEL_IX]. *)
Definition dpsRecord2IXDel (logRecord : list Z) : outcome (ptr * list Z) :=
  record ← load_record logRecord;
  fullName ← need record DPS_LOG_PUBLIC_FULLNAME;
  itrIndex ← need record DPS_LOG_IXCRT_IX;
  index ← BSONObj itrIndex;
  Ret (fullName, index).

Definition dpsRecord2CLRename (logRecord : list Z) : outcome (ptr * ptr * ptr) :=
  record ← load_record logRecord;
  csName ← need record DPS_LOG_CLRENAME_CSNAME;
  clOldName ← need record DPS_LOG_CLRENAME_CLOLDNAME;
  clNewName ← need record DPS_LOG_CLRENAME_CLNEWNAME;
  Ret (csName, clOldName, clNewName).

Definition dpsRecord2CLTrunc (logRecord : list Z) : outcome ptr :=
  record ← load_record logRecord; need record DPS_LOG_PUBLIC_FULLNAME.

Definition dpsRecord2TransCommit (logRecord : list Z) : outcome Z :=
  record ← load_record logRecord;
  itrID ← need record DPS_LOG_PUBLIC_TRANSID;
  as_uint 8 itrID.

Definition dpsRecord2InvalidCata (logRecord : list Z) : outcome (Z * ptr * ptr) :=
  record ← load_record logRecord;
  itrType ← look record DPS_LOG_INVALIDCATA_TYPE;
  type ← match itrType with
         | Some p => as_uint 1 p
         | None => Ret DPS_LOG_INVALIDCATA_TYPE_CATA
         end;
  clFullName ← need record DPS_LOG_PUBLIC_FULLNAME;
  itrIXName ← look record DPS_LOG_INVALIDCATA_IXNAME;
  Ret (type, clFullName, default None itrIXName).

(** The outputs for a page of a large object. *)
Record lobPage : Set := mkLobPage {
  lp_fullName : ptr;
  lp_oid : ptr;
  lp_sequence : Z;
  lp_offset : Z;
  lp_len : Z;
  lp_hash : Z;
  lp_data : ptr;
  lp_pageID : Z
}.

Definition read_page_size (record : dpsLogRecord) (wanted : bool) : outcome (option Z) :=
  if wanted then itr ← need record DPS_LOG_LOB_PAGE_SIZE; v ← as_uint 4 itr; Ret (Some v)
  else Ret None.

(** [wanted] is [NULL != pageSize]. *)
Definition dpsRecord2LobW (raw : list Z) (wanted : bool) : outcome (lobPage * option Z) :=
  record ← load_record raw;
  fullName ← need record DPS_LOG_PUBLIC_FULLNAME;
  oid ← need record DPS_LOG_LOB_OID;
  itr ← need record DPS_LOG_LOB_SEQUENCE; sequence ← as_uint 4 itr;
  itr ← need record DPS_LOG_LOB_OFFSET; offset ← as_uint 4 itr;
  itr ← need record DPS_LOG_LOB_HASH; hash ← as_uint 4 itr;
  itr ← need record DPS_LOG_LOB_LEN; len ← as_uint 4 itr;
  data ← need record DPS_LOG_LOB_DATA;
  itr ← need record DPS_LOG_LOB_PAGE; pageID ← as_int32 itr;
  pageSize ← read_page_size record wanted;
  Ret (mkLobPage fullName oid sequence offset len hash data pageID, pageSize).

Definition dpsRecord2LobU (raw : list Z) (wanted : bool)
    : outcome (lobPage * Z * ptr * option Z) :=
  record ← load_record raw;
  fullName ← need record DPS_LOG_PUBLIC_FULLNAME;
  oid ← need record DPS_LOG_LOB_OID;
  itr ← need record DPS_LOG_LOB_SEQUENCE; sequence ← as_uint 4 itr;
  itr ← need record DPS_LOG_LOB_OFFSET; offset ← as_uint 4 itr;
  itr ← need record DPS_LOG_LOB_HASH; hash ← as_uint 4 itr;
  itr ← need record DPS_LOG_LOB_LEN; len ← as_uint 4 itr;
  data ← need record DPS_LOG_LOB_DATA;
  oldData ← need record DPS_LOG_LOB_OLD_DATA;
  itr ← need record DPS_LOG_LOB_OLD_LEN; oldLen ← as_uint 4 itr;
  itr ← need record DPS_LOG_LOB_PAGE; pageID ← as_int32 itr;
  pageSize ← read_page_size record wanted;
  Ret (mkLobPage fullName oid sequence offset len hash data pageID, oldLen, oldData, pageSize).

Definition dpsRecord2LobRm (raw : list Z) (wanted : bool) : outcome (lobPage * option Z) :=
  record ← load_record raw;
  fullName ← need record DPS_LOG_PUBLIC_FULLNAME;
  oid ← need record DPS_LOG_LOB_OID;
  itr ← need record DPS_LOG_LOB_SEQUENCE; sequence ← as_uint 4 itr;
  itr ← need record DPS_LOG_LOB_OFFSET; offset ← as_uint 4 itr;
  itr ← need record DPS_LOG_LOB_HASH; hash ← as_uint 4 itr;
  itr ← need record DPS_LOG_LOB_LEN; len ← as_uint 4 itr;
  data ← need record DPS_LOG_LOB_DATA;
  itr ← need record DPS_LOG_LOB_PAGE; pageID ← as_int32 itr;
  pageSize ← read_page_size record wanted;
  Ret (mkLobPage fullName oid sequence offset len hash data pageID, pageSize).

Definition dpsRecord2LobTruncate (raw : list Z) : outcome ptr :=
  record ← load_record raw; need record DPS_LOG_PUBLIC_FULLNAME.
