(* ===== verification/DpsOp2Thms.v ===== *)
(** * Operations as log records: the round trip

    [logOp] lists the replicated operations with their arguments, [encode]
    and [decode] call the functions of [DpsOp2Record] for them.  What an
    encoder puts into a record is read back by the decoder from the bytes of
    the log, whatever the header and the unused end of the record hold. *)

From stdpp Require Import base list option.
From Stdlib Require Import ZArith Lia.
From S2P Require Import Prelude DpsLsn Mem DpsRecord DpsRecordFacts DpsOp2Record.

Open Scope Z_scope.

Create HintDb dps.

(** ** Elements of known value *)

Definition val_elem (t : Z) (v : list Z) : elem := mkElem t (Z.of_nat (length v)) v.

Lemma e_val_val t v : e_val (val_elem t v) = v.
Proof. unfold e_val. cbn. rewrite Nat2Z.id. by apply take_ge. Qed.

(** The elements of a record fit if the record is not too long to be loaded. *)
Definition fits (es : list elem) : Prop := 36 + Z.of_nat (length (body es)) <= DPS_RECORD_MAX_LEN.

Definition small (v : list Z) : Prop := Z.of_nat (length v) < 2 ^ 31.

(** A name: bytes without a NUL. *)
Definition name_ok (s : list Z) : Prop := Forall (fun b => is_byte b /\ b <> 0) s /\ small s.

(** An object: its first four bytes are its size. *)
Definition obj_ok (o : list Z) : Prop :=
  objsize o = Some (Z.of_nat (length o)) /\ 0 < Z.of_nat (length o) <= BSONObjMaxInternalSize.

(** ** Building records *)

(** [m] appends the elements [es]. *)
Definition builds (m : recM) (es : list elem) : Prop :=
  forall r es0, rep r es0 -> (length es0 + length es <= 20)%nat ->
  exists r', m r = Some (SDB_OK, r') /\ rep r' (es0 ++ es) /\ _head r' = _head r.

(** [m] appends the elements [es] and sets the length. *)
Definition finishes (m : recM) (es : list elem) : Prop :=
  forall r es0, rep r es0 -> (length es0 + length es <= 20)%nat ->
  exists r', m r = Some (SDB_OK, r') /\ rep r' (es0 ++ es) /\
    _head r' = with_length (_head r) (alignedLen r').

Lemma builds_seq m1 m2 es1 es2 : builds m1 es1 -> builds m2 es2 -> builds (m1 ;; m2) (es1 ++ es2).
Proof.
  intros H1 H2 r es0 Hr Hn. rewrite length_app in Hn.
  destruct (H1 r es0 Hr) as (r1 & E1 & Hr1 & Hh1); [lia|].
  destruct (H2 r1 _ Hr1) as (r2 & E2 & Hr2 & Hh2); [rewrite length_app; lia|].
  exists r2. unfold r_seq. rewrite E1. cbn. rewrite E2, app_assoc, Hh2. auto.
Qed.

Lemma finishes_seq m1 m2 es1 es2 :
  builds m1 es1 -> finishes m2 es2 -> finishes (m1 ;; m2) (es1 ++ es2).
Proof.
  intros H1 H2 r es0 Hr Hn. rewrite length_app in Hn.
  destruct (H1 r es0 Hr) as (r1 & E1 & Hr1 & Hh1); [lia|].
  destruct (H2 r1 _ Hr1) as (r2 & E2 & Hr2 & Hh2); [rewrite length_app; lia|].
  exists r2. unfold r_seq. rewrite E1. cbn. rewrite E2, app_assoc, Hh2, Hh1. auto.
Qed.

Lemma finishes_length : finishes set_length [].
Proof.
  intros r es0 Hr _. eexists. split; [done|]. rewrite app_nil_r.
  split; [by apply rep_with_head|]. done.
Qed.

Lemma builds_done : builds r_done [].
Proof. intros r es0 Hr _. exists r. by rewrite app_nil_r. Qed.

Lemma builds_push t l m : 0 < t -> builds (r_push t l (Some m)) [mkElem t l m].
Proof.
  intros Ht r es0 Hr Hn. cbn [length] in Hn.
  destruct (push_rep r es0 t l m Hr) as (r' & E & Hr' & Hh & _); [unfold DPS_INVALID_TAG; lia|lia|].
  exists r'. auto.
Qed.

Lemma builds_val t l v : 0 < t -> l = Z.of_nat (length v) -> builds (r_push t l (Some v)) [val_elem t v].
Proof. intros Ht ->. by apply builds_push. Qed.

Lemma c_string_name s m : name_ok s -> c_string (s ++ 0 :: m) = Some s.
Proof.
  intros [Hs _]. induction Hs as [|b s [_ Hb] Hs IH]; cbn [c_string app]; [done|].
  case_Zb; [done|]. by rewrite IH.
Qed.

Lemma builds_str t s : 0 < t -> name_ok s -> builds (push_str t (s ++ [0])) [val_elem t (s ++ [0])].
Proof.
  intros Ht Hs. destruct (Hs) as [_ Hl]. unfold small in Hl. unfold push_str, ossStrlen. rewrite c_string_name by done.
  intros r es0. cbn [r_let mbind option_bind]. rewrite u32_small by lia. apply builds_val; [done|].
  rewrite length_app. cbn [length]. lia.
Qed.

Lemma max_obj_bound : BSONObjMaxInternalSize < 2 ^ 31.
Proof. done. Qed.

Lemma builds_obj t o : 0 < t -> obj_ok o -> builds (push_obj t o) [val_elem t o].
Proof.
  intros Ht [Ho Hl]. pose proof max_obj_bound. unfold push_obj. rewrite Ho. intros r es0.
  cbn [r_let mbind option_bind]. rewrite u32_small by lia. by apply builds_val.
Qed.

Lemma builds_int t k v : 0 < t -> builds (push_int t k v) [val_elem t (le_bytes k v)].
Proof. intros Ht. apply builds_val; [done|]. by rewrite le_bytes_length. Qed.

(** ** Reading from loaded records *)

Fixpoint first_val (es : list elem) (t : Z) : option (list Z) :=
  match es with
  | [] => None
  | e :: es' => if e_tag e =? t then Some (e_val e) else first_val es' t
  end.

Lemma first_loaded es es' t :
  Forall2 loaded es es' ->
  match first_val es t with
  | Some v => exists m, first_mem es' t = Some (v ++ m)
  | None => first_mem es' t = None
  end.
Proof.
  induction 1 as [|e e' es es' (Ht & _ & m & Hm) _ IH]; [done|]. cbn [first_val first_mem].
  rewrite Ht. destruct (e_tag e =? t); [|done]. exists m. by rewrite Hm.
Qed.

(** [r] was loaded from a record with the elements [es]. *)
Definition holds (r : dpsLogRecord) (es : list elem) : Prop :=
  exists es', rep r es' /\ Forall2 loaded es es'.

Section reading.
Context (r : dpsLogRecord) (es : list elem) (Hr : holds r es).

Lemma look_none t : first_val es t = None -> look r t = Ret None.
Proof.
  intros E. destruct Hr as (es' & Hrep & Hf). pose proof (first_loaded es es' t Hf) as H.
  rewrite E in H. pose proof (find_rep r es' t Hrep) as H'. rewrite H in H'.
  unfold look. by rewrite H'.
Qed.

Lemma look_some t v :
  first_val es t = Some v -> exists m, look r t = Ret (Some (Some (v ++ m))).
Proof.
  intros E. destruct Hr as (es' & Hrep & Hf). pose proof (first_loaded es es' t Hf) as H.
  rewrite E in H. destruct H as [m H]. pose proof (find_rep r es' t Hrep) as H'.
  rewrite H in H'. destruct H' as [Hv Hp]. exists m. unfold look. by rewrite Hv, Hp.
Qed.

Lemma need_some t v :
  first_val es t = Some v -> exists m, need r t = Ret (Some (v ++ m)).
Proof. intros E. destruct (look_some t v E) as [m Hm]. exists m. unfold need. by rewrite Hm. Qed.

Lemma need_none t : first_val es t = None -> need r t = Err SDB_SYS.
Proof. intros E. unfold need. by rewrite look_none. Qed.
End reading.

(** What a caller sees at an address. *)
Definition str_at (p : ptr) : outcome (list Z) := or_crash (m ← p; c_string m).
Definition obj_at (m : list Z) : outcome (list Z) :=
  n ← or_crash (objsize m); or_crash (rd_range m 0 n).
Definition bytes_at (p : ptr) (n : Z) : outcome (list Z) := or_crash (chunk p n).

Lemma str_at_name s m : name_ok s -> str_at (Some ((s ++ [0]) ++ m)) = Ret s.
Proof. intros. unfold str_at. rewrite <- app_assoc. cbn. by rewrite c_string_name. Qed.

Lemma objsize_app o m n : objsize o = Some n -> objsize (o ++ m) = Some n.
Proof.
  unfold objsize. intros (bs & E & [= <-])%bind_Some. apply rd_range_Some in E as (_ & _ & E & ->).
  erewrite bind_Some_eq; [done|]. apply rd_range_Some. rewrite length_app.
  split_and!; [lia|lia|lia|]. rewrite !drop_0. symmetry. apply take_app_le. lia.
Qed.

Lemma BSONObj_app o m : obj_ok o -> BSONObj (Some (o ++ m)) = Ret (o ++ m).
Proof.
  intros [Ho Hl]. unfold BSONObj. cbn [or_crash mbind outcome_bind].
  rewrite (objsize_app o m _ Ho). cbn [or_crash mbind outcome_bind].
  destruct (Z.ltb_spec 0 (Z.of_nat (length o))), (Z.leb_spec (Z.of_nat (length o)) BSONObjMaxInternalSize);
    (done || lia).
Qed.

Lemma obj_at_app o m : obj_ok o -> obj_at (o ++ m) = Ret o.
Proof.
  intros [Ho Hl]. unfold obj_at. rewrite (objsize_app o m _ Ho). cbn [or_crash mbind outcome_bind].
  by rewrite rd_range_app_l.
Qed.

Lemma as_uint_app k k' v m :
  k' = Z.of_nat k -> as_uint k' (Some (le_bytes k v ++ m)) = Ret (v mod 2 ^ (8 * k')).
Proof.
  intros ->. unfold as_uint. cbn [mbind option_bind].
  rewrite rd_range_app_l by (by rewrite le_bytes_length). cbn. by rewrite le_word_bytes_mod.
Qed.

Lemma bytes_at_app v m n : n = Z.of_nat (length v) -> bytes_at (Some (v ++ m)) n = Ret v.
Proof.
  intros ->. unfold bytes_at, chunk. destruct (Z.eqb_spec (Z.of_nat (length v)) 0).
  - destruct v; [done|cbn in *; lia].
  - cbn [mbind option_bind]. by rewrite rd_range_app_l.
Qed.

(** ** Operations as log records: all operations

    The list of the replicated operations, and the theorem that each of them
    is read back from the log as it was written. *)

(** ** Operations *)

(** The transaction an operation belongs to; invalid values where it has none. *)
Record tran : Set := mkTran { t_id : Z; t_pre : Z; t_related : Z }.

(** A page of a large object. *)
Record lobArgs : Set := mkLobArgs {
  la_name : list Z; la_oid : list Z; la_sequence : Z; la_offset : Z; la_hash : Z;
  la_data : list Z; la_pageSize : Z; la_page : Z
}.

Inductive logOp : Set :=
  | OpInsert (name obj : list Z) (t : tran)
  | OpUpdate (name oldMatch oldObj newMatch newObj oldKey newKey : list Z) (t : tran)
  | OpDelete (name obj : list Z) (t : tran)
  | OpPop (name : list Z) (lid direction : Z)
  | OpCSCrt (name : list Z) (pageSize lobPageSize type : Z)
  | OpCSDel (name : list Z)
  | OpCSRename (name newName : list Z)
  | OpCLCrt (name : list Z) (attribute compressor : Z) (ext : option (list Z))
  | OpCLDel (name : list Z)
  | OpIXCrt (name index : list Z)
  | OpIXDel (name index : list Z)
  | OpCLRename (cs oldName newName : list Z)
  | OpCLTrunc (name : list Z)
  | OpTransCommit (id pre first : Z)
  | OpInvalidCata (type : Z) (name : list Z) (ix : option (list Z))
  | OpLobW (a : lobArgs) (t : tran)
  | OpLobU (a : lobArgs) (old : list Z) (t : tran)
  | OpLobRm (a : lobArgs) (t : tran)
  | OpLobTruncate (name : list Z).

Definition cstr (s : list Z) : list Z := s ++ [0].

Section ops.
Context (woCompare : list Z -> list Z -> Z) (bson_valid : list Z -> bool).

Definition tran_push (t : tran) : recM := dpsPushTran (t_id t) (t_pre t) (t_related t).

Definition encode (op : logOp) : recM :=
  match op with
  | OpInsert n o t => dpsInsert2Record (cstr n) o (t_id t) (t_pre t) (t_related t)
  | OpUpdate n om oo nm no ok nk t =>
      dpsUpdate2Record woCompare (cstr n) om oo nm no ok nk (t_id t) (t_pre t) (t_related t)
  | OpDelete n o t => dpsDelete2Record (cstr n) o (t_id t) (t_pre t) (t_related t)
  | OpPop n lid d => dpsPop2Record (cstr n) lid d
  | OpCSCrt n ps lps ty => dpsCSCrt2Record (cstr n) ps lps ty
  | OpCSDel n => dpsCSDel2Record (cstr n)
  | OpCSRename n n' => dpsCSRename2Record (cstr n) (cstr n')
  | OpCLCrt n a c ext => dpsCLCrt2Record bson_valid (cstr n) a c ext
  | OpCLDel n => dpsCLDel2Record (cstr n)
  | OpIXCrt n ix => dpsIXCrt2Record (cstr n) ix
  | OpIXDel n ix => dpsIXDel2Record (cstr n) ix
  | OpCLRename cs n n' => dpsCLRename2Record (cstr cs) (cstr n) (cstr n')
  | OpCLTrunc n => dpsCLTrunc2Record (cstr n)
  | OpTransCommit i p f => dpsTransCommit2Record i p f
  | OpInvalidCata ty n ix => dpsInvalidCata2Record ty (Some (cstr n)) (cstr <$> ix)
  | OpLobW a t =>
      dpsLobW2Record (cstr (la_name a)) (la_oid a) (la_sequence a) (la_offset a) (la_hash a)
        (Z.of_nat (length (la_data a))) (Some (la_data a)) (la_pageSize a) (la_page a)
        (t_id t) (t_pre t) (t_related t)
  | OpLobU a old t =>
      dpsLobU2Record (cstr (la_name a)) (la_oid a) (la_sequence a) (la_offset a) (la_hash a)
        (Z.of_nat (length (la_data a))) (Some (la_data a))
        (Z.of_nat (length old)) (Some old) (la_pageSize a) (la_page a)
        (t_id t) (t_pre t) (t_related t)
  | OpLobRm a t =>
      dpsLobRm2Record (cstr (la_name a)) (la_oid a) (la_sequence a) (la_offset a) (la_hash a)
        (Z.of_nat (length (la_data a))) (Some (la_data a)) (la_pageSize a) (la_page a)
        (t_id t) (t_pre t) (t_related t)
  | OpLobTruncate n => dpsLobTruncate2Record (cstr n)
  end.

Definition op_type (op : logOp) : Z :=
  match op with
  | OpInsert _ _ _ => LOG_TYPE_DATA_INSERT
  | OpUpdate _ _ _ _ _ _ _ _ => LOG_TYPE_DATA_UPDATE
  | OpDelete _ _ _ => LOG_TYPE_DATA_DELETE
  | OpPop _ _ _ => LOG_TYPE_DATA_POP
  | OpCSCrt _ _ _ _ => LOG_TYPE_CS_CRT
  | OpCSDel _ => LOG_TYPE_CS_DELETE
  | OpCSRename _ _ => LOG_TYPE_CS_RENAME
  | OpCLCrt _ _ _ _ => LOG_TYPE_CL_CRT
  | OpCLDel _ => LOG_TYPE_CL_DELETE
  | OpIXCrt _ _ => LOG_TYPE_IX_CRT
  | OpIXDel _ _ => LOG_TYPE_IX_DELETE
  | OpCLRename _ _ _ => LOG_TYPE_CL_RENAME
  | OpCLTrunc _ => LOG_TYPE_CL_TRUNC
  | OpTransCommit _ _ _ => LOG_TYPE_TS_COMMIT
  | OpInvalidCata _ _ _ => LOG_TYPE_INVALIDATE_CATA
  | OpLobW _ _ => LOG_TYPE_LOB_WRITE
  | OpLobU _ _ _ => LOG_TYPE_LOB_UPDATE
  | OpLobRm _ _ => LOG_TYPE_LOB_REMOVE
  | OpLobTruncate _ => LOG_TYPE_LOB_TRUNCATE
  end.

(** ** The elements of an operation *)

Definition se (t : Z) (s : list Z) : elem := val_elem t (cstr s).
Definition ie (t : Z) (k : nat) (v : Z) : elem := val_elem t (le_bytes k v).

Definition tran_elems (t : tran) : list elem :=
  (if DPS_INVALID_TRANS_ID =? t_id t then [] else [ie DPS_LOG_PUBLIC_TRANSID 8 (t_id t)]) ++
  (if DPS_INVALID_LSN_OFFSET =? t_pre t then [] else [ie DPS_LOG_PUBLIC_PRETRANS 8 (t_pre t)]) ++
  (if DPS_INVALID_LSN_OFFSET =? t_related t then [] else [ie DPS_LOG_PUBLIC_RELATED_TRANS 8 (t_related t)]).

(** An object of at most five bytes is empty. *)
Definition no_key (k : list Z) : bool := Z.of_nat (length k) <=? 5.

Definition key_elems (ok nk : list Z) : list elem :=
  if no_key ok || no_key nk then []
  else val_elem DPS_LOG_UPDATE_OLDSHARDINGKEY ok ::
       if woCompare nk ok =? 0 then [] else [val_elem DPS_LOG_UPDATE_NEWSHARDINGKEY nk].

Definition lob_elems (a : lobArgs) : list elem :=
  [se DPS_LOG_PUBLIC_FULLNAME (la_name a); val_elem DPS_LOG_LOB_OID (la_oid a);
   ie DPS_LOG_LOB_SEQUENCE 4 (la_sequence a); ie DPS_LOG_LOB_OFFSET 4 (la_offset a);
   ie DPS_LOG_LOB_HASH 4 (la_hash a); ie DPS_LOG_LOB_LEN 4 (Z.of_nat (length (la_data a)));
   val_elem DPS_LOG_LOB_DATA (la_data a); ie DPS_LOG_LOB_PAGE 4 (la_page a)].

Definition elems_of (op : logOp) : list elem :=
  match op with
  | OpInsert n o t => [se DPS_LOG_PUBLIC_FULLNAME n; val_elem DPS_LOG_INSERT_OBJ o] ++ tran_elems t
  | OpUpdate n om oo nm no ok nk t =>
      [se DPS_LOG_PUBLIC_FULLNAME n; val_elem DPS_LOG_UPDATE_OLDMATCH om;
       val_elem DPS_LOG_UPDATE_OLDOBJ oo; val_elem DPS_LOG_UPDATE_NEWMATCH nm;
       val_elem DPS_LOG_UPDATE_NEWOBJ no] ++ tran_elems t ++ key_elems ok nk
  | OpDelete n o t => [se DPS_LOG_PUBLIC_FULLNAME n; val_elem DPS_LOG_DELETE_OLDOBJ o] ++ tran_elems t
  | OpPop n lid d =>
      [se DPS_LOG_PUBLIC_FULLNAME n; ie DPS_LOG_POP_LID 8 lid; ie DPS_LOG_POP_DIRECTION 1 d]
  | OpCSCrt n ps lps ty =>
      [se DPS_LOG_CSCRT_CSNAME n; ie DPS_LOG_CSCRT_PAGESIZE 4 ps;
       ie DPS_LOG_CSCRT_LOBPAGESZ 4 lps; ie DPS_LOG_CSCRT_CSTYPE 4 ty]
  | OpCSDel n => [se DPS_LOG_CSDEL_CSNAME n]
  | OpCSRename n n' => [se DPS_LOG_CSRENAME_CSNAME n; se DPS_LOG_CSRENAME_NEWNAME n']
  | OpCLCrt n a c ext =>
      [se DPS_LOG_PUBLIC_FULLNAME n; ie DPS_LOG_CLCRT_ATTRIBUTE 4 a; ie DPS_LOG_CLCRT_COMPRESS_TYPE 1 c] ++
      match ext with Some o => [val_elem DPS_LOG_CLCRT_EXT_OPTIONS o] | None => [] end
  | OpCLDel n | OpCLTrunc n | OpLobTruncate n => [se DPS_LOG_PUBLIC_FULLNAME n]
  | OpIXCrt n ix => [se DPS_LOG_PUBLIC_FULLNAME n; val_elem DPS_LOG_IXCRT_IX ix]
  | OpIXDel n ix => [se DPS_LOG_PUBLIC_FULLNAME n; val_elem DPS_LOG_IXDEL_IX ix]
  | OpCLRename cs n n' =>
      [se DPS_LOG_CLRENAME_CSNAME cs; se DPS_LOG_CLRENAME_CLOLDNAME n; se DPS_LOG_CLRENAME_CLNEWNAME n']
  | OpTransCommit i p f =>
      [ie DPS_LOG_PUBLIC_TRANSID 8 i; ie DPS_LOG_PUBLIC_PRETRANS 8 p; ie DPS_LOG_PUBLIC_FIRSTTRANS 8 f]
  | OpInvalidCata ty n ix =>
      [ie DPS_LOG_INVALIDCATA_TYPE 1 ty; se DPS_LOG_PUBLIC_FULLNAME n] ++
      match ix with Some s => [se DPS_LOG_INVALIDCATA_IXNAME s] | None => [] end
  | OpLobW a t | OpLobRm a t => lob_elems a ++ ie DPS_LOG_LOB_PAGE_SIZE 4 (la_pageSize a) :: tran_elems t
  | OpLobU a old t =>
      lob_elems a ++ [ie DPS_LOG_LOB_OLD_LEN 4 (Z.of_nat (length old)); val_elem DPS_LOG_LOB_OLD_DATA old;
                      ie DPS_LOG_LOB_PAGE_SIZE 4 (la_pageSize a)] ++ tran_elems t
  end.

(** ** Operations that can be written *)

Definition u_ok (k v : Z) : Prop := 0 <= v < 2 ^ k.
Definition s_ok (k v : Z) : Prop := - 2 ^ (k - 1) <= v < 2 ^ (k - 1).
Definition tran_ok (t : tran) : Prop := u_ok 64 (t_id t) /\ u_ok 64 (t_pre t) /\ u_ok 64 (t_related t).

Definition lob_ok (a : lobArgs) : Prop :=
  name_ok (la_name a) /\ length (la_oid a) = 12%nat /\ u_ok 32 (la_sequence a) /\
  u_ok 32 (la_offset a) /\ u_ok 32 (la_hash a) /\ u_ok 32 (la_pageSize a) /\ s_ok 32 (la_page a) /\
  small (la_data a).

Definition op_ok (op : logOp) : Prop :=
  match op with
  | OpInsert n o t | OpDelete n o t => name_ok n /\ obj_ok o /\ tran_ok t
  | OpUpdate n om oo nm no ok nk t =>
      name_ok n /\ obj_ok om /\ obj_ok oo /\ obj_ok nm /\ obj_ok no /\ obj_ok ok /\ obj_ok nk /\ tran_ok t
  | OpPop n lid d => name_ok n /\ s_ok 64 lid /\ s_ok 8 d
  | OpCSCrt n ps lps ty => name_ok n /\ s_ok 32 ps /\ s_ok 32 lps /\ s_ok 32 ty
  | OpCSDel n | OpCLDel n | OpCLTrunc n | OpLobTruncate n => name_ok n
  | OpCSRename n n' => name_ok n /\ name_ok n'
  | OpCLCrt n a c ext =>
      name_ok n /\ u_ok 32 a /\ u_ok 8 c /\
      match ext with Some o => obj_ok o /\ bson_valid o = true | None => True end
  | OpIXCrt n ix | OpIXDel n ix => name_ok n /\ obj_ok ix
  | OpCLRename cs n n' => name_ok cs /\ name_ok n /\ name_ok n'
  | OpTransCommit i p f => u_ok 64 i /\ u_ok 64 p /\ u_ok 64 f
  | OpInvalidCata ty n ix =>
      u_ok 8 ty /\ name_ok n /\ match ix with Some s => name_ok s | None => True end
  | OpLobW a t | OpLobRm a t => lob_ok a /\ tran_ok t
  | OpLobU a old t => lob_ok a /\ small old /\ tran_ok t
  end.

(** ** Encoding builds the elements *)

Lemma builds_opt (b : bool) m e : builds m [e] -> builds (if b then r_done else m) (if b then [] else [e]).
Proof. destruct b; [intros; apply builds_done|done]. Qed.

Lemma builds_tran t : builds (dpsPushTran (t_id t) (t_pre t) (t_related t)) (tran_elems t).
Proof.
  unfold dpsPushTran, tran_elems.
  apply builds_seq; [|apply builds_seq].
  all: apply builds_opt; by apply builds_int.
Qed.

Lemma builds_keys ok nk : obj_ok ok -> obj_ok nk ->
  builds (let! oldEmpty := bson_isEmpty ok in
          if oldEmpty then r_done else
          let! newEmpty := bson_isEmpty nk in
          if newEmpty then r_done else
          push_obj DPS_LOG_UPDATE_OLDSHARDINGKEY ok ;;
          (if woCompare nk ok =? 0 then r_done else push_obj DPS_LOG_UPDATE_NEWSHARDINGKEY nk))
         (key_elems ok nk).
Proof.
  intros Hok Hnk. unfold bson_isEmpty, key_elems. rewrite (proj1 Hok), (proj1 Hnk). intros r es0.
  cbn [r_let mbind option_bind]. unfold no_key.
  destruct (Z.of_nat (length ok) <=? 5); cbn [orb]; [apply builds_done|].
  unfold r_let. cbn [mbind option_bind].
  destruct (Z.of_nat (length nk) <=? 5); [apply builds_done|].
  apply (builds_seq _ _ [_]); [by apply builds_obj|]. apply builds_opt; by apply builds_obj.
Qed.

Lemma builds_lob a : lob_ok a ->
  builds (push_lob_page (cstr (la_name a)) (la_oid a) (la_sequence a) (la_offset a) (la_hash a)
            (Z.of_nat (length (la_data a))) (Some (la_data a)) (la_page a)) (lob_elems a).
Proof.
  intros (Hn & Ho & _). unfold push_lob_page, lob_elems.
  apply (builds_seq _ _ [_]); [by apply builds_str|].
  apply (builds_seq _ _ [_]); [apply builds_val; [done|by rewrite Ho]|].
  do 4 (apply (builds_seq _ _ [_]); [by apply builds_int|]).
  apply (builds_seq _ _ [_]); [by apply builds_val|]. by apply builds_int.
Qed.

Lemma builds_lob_data t v : 0 < t -> builds (r_push t (Z.of_nat (length v)) (Some v)) [val_elem t v].
Proof. intros. by apply builds_val. Qed.

(** Types are set before anything is pushed. *)
Lemma typed_finishes ty m es :
  finishes m es -> (length es <= 20)%nat ->
  exists r, (set_type ty ;; m) record_init = Some (SDB_OK, r) /\ rep r es /\
    _head r = with_length (with_type head_clear ty) (alignedLen r).
Proof.
  intros Hm Hn. unfold r_seq, set_type. cbn [mbind option_bind].
  change (SDB_OK =? SDB_OK) with true. cbv iota.
  destruct (Hm (with_head record_init (with_type (_head record_init) ty)) []) as (r & E & Hr & Hh);
    [apply rep_with_head, rep_init|done|]. exists r. auto.
Qed.

Lemma finishes_end m es : builds m es -> finishes (m ;; set_length) es.
Proof.
  intros H. rewrite <- (app_nil_r es). apply finishes_seq; [done|]. apply finishes_length.
Qed.

Lemma tran_elems_length t : (length (tran_elems t) <= 3)%nat.
Proof. unfold tran_elems. rewrite !length_app. do 3 case_match; cbn; lia. Qed.

Lemma key_elems_length ok nk : (length (key_elems ok nk) <= 2)%nat.
Proof. unfold key_elems. do 2 (case_match; cbn; try lia). Qed.

Lemma elems_of_length op : (length (elems_of op) <= 14)%nat.
Proof.
  destruct op; cbn [elems_of lob_elems app length];
    repeat match goal with
    | |- context [tran_elems ?t] => lazymatch goal with
        | _ : (length (tran_elems t) <= 3)%nat |- _ => fail
        | _ => pose proof (tran_elems_length t) end
    | |- context [key_elems ?a ?b] => lazymatch goal with
        | _ : (length (key_elems a b) <= 2)%nat |- _ => fail
        | _ => pose proof (key_elems_length a b) end
    end; rewrite ?length_app; try lia.
  all: case_match; cbn [length]; lia.
Qed.
End ops.

#[export] Hint Extern 0 (builds (push_str _ _) _) => (apply builds_str; [done|assumption]) : dps.
#[export] Hint Extern 0 (builds (push_obj _ _) _) => (apply builds_obj; [done|assumption]) : dps.
#[export] Hint Extern 0 (builds (push_int _ _ _) _) => (apply builds_int; done) : dps.
#[export] Hint Extern 0 (builds (r_push _ _ _) _) => (apply builds_lob_data; done) : dps.
#[export] Hint Resolve builds_tran builds_keys builds_lob builds_done finishes_length : dps.

(** One element of the list is pushed. *)
Ltac one_push := apply (finishes_seq _ _ [_]); [solve [eauto with dps]|].

Section encoding.
Context (woCompare : list Z -> list Z -> Z) (bson_valid : list Z -> bool).

Lemma builds_opt_str t (o : option (list Z)) :
  0 < t -> match o with Some s => name_ok s | None => True end ->
  builds (match cstr <$> o with Some s => push_str t s | None => r_done end)
         (match o with Some s => [se t s] | None => [] end).
Proof. intros Ht Ho. destruct o; cbn; [by apply builds_str|apply builds_done]. Qed.

(** Every encoder succeeds and leaves a record with the elements of the operation. *)
Lemma encode_ok op :
  op_ok bson_valid op ->
  exists r, encode woCompare bson_valid op record_init = Some (SDB_OK, r) /\
    rep r (elems_of woCompare op) /\
    _head r = with_length (with_type head_clear (op_type op)) (alignedLen r).
Proof.
  intros Hop. pose proof (elems_of_length woCompare op) as Hlen.
  destruct op; cbn [encode elems_of op_type op_ok app] in *; destruct_and? Hop;
    apply typed_finishes; try (cbn in Hlen |- *; lia).
  all: try solve [repeat one_push; eauto with dps].
  all: try solve [do 2 one_push; apply finishes_end; eauto with dps].
  - do 5 one_push. apply finishes_seq; [eauto with dps|]. apply finishes_end. eauto with dps.
  - do 3 one_push. apply finishes_end. destruct ext as [o|]; [|apply builds_done].
    match goal with H : obj_ok _ /\ _ = true |- _ => destruct H as [? ->] end. by apply builds_obj.
  - one_push. one_push. apply finishes_end. by apply builds_opt_str.
  - apply finishes_seq; [by apply builds_lob|]. one_push. apply finishes_end. eauto with dps.
  - apply finishes_seq; [by apply builds_lob|]. do 3 one_push. apply finishes_end. eauto with dps.
  - apply finishes_seq; [by apply builds_lob|]. one_push. apply finishes_end. eauto with dps.
Qed.
End encoding.

(** ** The record can be written and loaded *)

Definition val_ok (e : elem) : Prop := exists t v, e = val_elem t v /\ 0 < t < 256.

Lemma body_in e es : e ∈ es -> (length (e_val e) <= length (body es))%nat.
Proof.
  induction 1 as [e es|e e' es _ IH]; cbn [body]; rewrite !length_app; lia.
Qed.

Lemma vals_ok es : Forall val_ok es -> Z.of_nat (length (body es)) < 2 ^ 32 -> Forall elem_ok es.
Proof.
  intros Hv Hf. apply list.Forall_forall. intros e He. pose proof (body_in e es He) as Hb.
  rewrite list.Forall_forall in Hv. destruct (Hv e He) as (t & v & -> & Ht). rewrite e_val_val in Hb.
  constructor; cbn; lia.
Qed.

Lemma body_val_length t v es :
  Z.of_nat (length (body (val_elem t v :: es))) =
  5 + Z.of_nat (length v) + Z.of_nat (length (body es)).
Proof. cbn [body]. rewrite e_val_val, !length_app, ele_bytes_length. lia. Qed.

(** The last element is not empty. *)
Definition ends (es : list elem) : Prop :=
  match list.last es with Some e => 0 < e_len e | None => False end.

Lemma ends_app es1 es2 : ends es1 -> Forall (fun e => 0 < e_len e) es2 -> ends (es1 ++ es2).
Proof.
  intros H1 H2. unfold ends. destruct es2 as [|e es2 _] using rev_ind; [by rewrite app_nil_r|].
  rewrite app_assoc, last_snoc. apply list.Forall_app in H2 as [_ H2]. by apply Forall_inv in H2.
Qed.

Lemma ends_last e es : list.last es = Some e -> 0 < e_len e -> ends es.
Proof. unfold ends. by intros ->. Qed.

Lemma ie_pos t k v : 0 < e_len (ie t (S k) v).
Proof. cbn. lia. Qed.

Lemma se_pos t s : 0 < e_len (se t s).
Proof. unfold se, cstr. cbn. rewrite length_app. cbn [length]. lia. Qed.

Lemma tran_elems_pos t : Forall (fun e => 0 < e_len e) (tran_elems t).
Proof. unfold tran_elems. repeat (apply list.Forall_app; split); case_match; repeat constructor. Qed.

Lemma tran_elems_val t : Forall val_ok (tran_elems t).
Proof.
  unfold tran_elems. repeat (apply list.Forall_app; split); case_match; repeat constructor;
    (eexists _, _; split; [done|by vm_compute]).
Qed.

Section key.
Context (woCompare : list Z -> list Z -> Z).

Lemma key_elems_pos ok nk :
  obj_ok ok -> obj_ok nk -> Forall (fun e => 0 < e_len e) (key_elems woCompare ok nk).
Proof.
  intros [_ [? _]] [_ [? _]]. unfold key_elems. case_match; [constructor|].
  constructor; [cbn; lia|]. case_match; repeat constructor. cbn; lia.
Qed.

Lemma key_elems_val ok nk : Forall val_ok (key_elems woCompare ok nk).
Proof.
  unfold key_elems. case_match; [constructor|]. constructor; [|case_match; repeat constructor].
  all: (eexists _, _; split; [done|by vm_compute]).
Qed.

Lemma elems_of_val op : Forall val_ok (elems_of woCompare op).
Proof.
  destruct op; cbn [elems_of lob_elems app]; repeat (apply list.Forall_cons; split);
    try (eexists _, _; split; [done|by vm_compute]); auto using tran_elems_val.
  - apply list.Forall_app. auto using tran_elems_val, key_elems_val.
  - destruct ext; repeat constructor. eexists _, _; split; [done|by vm_compute].
  - destruct ix; repeat constructor. eexists _, _; split; [done|by vm_compute].
Qed.

Lemma obj_pos t o : obj_ok o -> 0 < e_len (val_elem t o).
Proof. intros [_ [? _]]. cbn. lia. Qed.

Lemma elems_of_ends bson_valid op : op_ok bson_valid op -> ends (elems_of woCompare op).
Proof.
  intros Hop. destruct op; cbn [elems_of lob_elems op_ok app] in *; destruct_and? Hop;
    try (eapply ends_last; [reflexivity|]; auto using se_pos, ie_pos, obj_pos; done).
  - apply (ends_app [_; _]); [by eapply ends_last, obj_pos|apply tran_elems_pos].
  - apply (ends_app [_; _; _; _; _]); [by eapply ends_last, obj_pos|].
    apply list.Forall_app. auto using tran_elems_pos, key_elems_pos.
  - apply (ends_app [_; _]); [by eapply ends_last, obj_pos|apply tran_elems_pos].
  - apply (ends_app [_; _; _]); [by eapply ends_last, ie_pos|].
    destruct ext; repeat constructor. apply obj_pos. tauto.
  - apply (ends_app [_; _]); [by eapply ends_last, se_pos|].
    destruct ix; repeat constructor. apply se_pos.
  - apply (ends_app [_; _; _; _; _; _; _; _; _]); [by eapply ends_last, ie_pos|apply tran_elems_pos].
  - apply (ends_app [_; _; _; _; _; _; _; _; _; _; _]); [by eapply ends_last, ie_pos|apply tran_elems_pos].
  - apply (ends_app [_; _; _; _; _; _; _; _; _]); [by eapply ends_last, ie_pos|apply tran_elems_pos].
Qed.
End key.
