(* ===== verification/DpsOp2Trip.v ===== *)
(** * Operations as log records: the round trip of every operation *)

From stdpp Require Import base list option.
From Stdlib Require Import ZArith Lia.
From S2P Require Import Prelude DpsLsn Mem DpsRecord DpsRecordFacts DpsOp2Record DpsOp2Thms.

Open Scope Z_scope.

(** ** Reading an operation

    What the users of the log do: look at the type in the header, call the
    decoder and read the strings and objects it points to. *)

Definition empty_obj : list Z := [5; 0; 0; 0; 0].

(** The transaction of a record, as [saveTransInfoFromLog] looks it up. *)
Definition read_tran (mem : list Z) : outcome tran :=
  r ← load_record mem;
  i ← look r DPS_LOG_PUBLIC_TRANSID;
  id ← match i with Some p => as_uint 8 p | None => Ret DPS_INVALID_TRANS_ID end;
  i ← look r DPS_LOG_PUBLIC_PRETRANS;
  pre ← match i with Some p => as_uint 8 p | None => Ret DPS_INVALID_LSN_OFFSET end;
  i ← look r DPS_LOG_PUBLIC_RELATED_TRANS;
  related ← match i with Some p => as_uint 8 p | None => Ret DPS_INVALID_LSN_OFFSET end;
  Ret (mkTran id pre related).

Definition read_lob (p : lobPage) (pageSize : option Z) : outcome lobArgs :=
  name ← str_at (lp_fullName p);
  oid ← bytes_at (lp_oid p) 12;
  data ← bytes_at (lp_data p) (lp_len p);
  size ← or_crash pageSize;
  Ret (mkLobArgs name oid (lp_sequence p) (lp_offset p) (lp_hash p) data size (lp_pageID p)).

Definition decode_insert (mem : list Z) : outcome logOp :=
  '(n, o) ← dpsRecord2Insert mem; n ← str_at n; o ← obj_at o; t ← read_tran mem; Ret (OpInsert n o t).

Definition decode_update (mem : list Z) : outcome logOp :=
  '(n, om, oo, nm, no, ok, nk) ← dpsRecord2Update mem (Some empty_obj) (Some empty_obj);
  n ← str_at n; om ← obj_at om; oo ← obj_at oo; nm ← obj_at nm; no ← obj_at no;
  ok ← or_crash ok; ok ← obj_at ok; nk ← or_crash nk; nk ← obj_at nk;
  t ← read_tran mem; Ret (OpUpdate n om oo nm no ok nk t).

Definition decode_delete (mem : list Z) : outcome logOp :=
  '(n, o) ← dpsRecord2Delete mem; n ← str_at n; o ← obj_at o; t ← read_tran mem; Ret (OpDelete n o t).

Definition decode_pop (mem : list Z) : outcome logOp :=
  '(n, lid, d) ← dpsRecord2Pop mem; n ← str_at n; Ret (OpPop n lid d).

Definition decode_cscrt (mem : list Z) : outcome logOp :=
  '(n, ps, lps, ty) ← dpsRecord2CSCrt mem; n ← str_at n; Ret (OpCSCrt n ps lps ty).

Definition decode_csrename (mem : list Z) : outcome logOp :=
  '(n, n') ← dpsRecord2CSRename mem; n ← str_at n; n' ← str_at n'; Ret (OpCSRename n n').

(** The caller tells a missing object by the empty one it passed. *)
Definition decode_clcrt (mem : list Z) : outcome logOp :=
  '(n, a, c, ext) ← dpsRecord2CLCrt mem 0 [];
  n ← str_at n;
  match ext with
  | [] => Ret (OpCLCrt n a c None)
  | _ => ext ← obj_at ext; Ret (OpCLCrt n a c (Some ext))
  end.

Definition decode_ixcrt (mem : list Z) : outcome logOp :=
  '(n, ix) ← dpsRecord2IXCrt mem; n ← str_at n; ix ← obj_at ix; Ret (OpIXCrt n ix).

Definition decode_ixdel (mem : list Z) : outcome logOp :=
  '(n, ix) ← dpsRecord2IXDel mem; n ← str_at n; ix ← obj_at ix; Ret (OpIXDel n ix).

Definition decode_clrename (mem : list Z) : outcome logOp :=
  '(cs, n, n') ← dpsRecord2CLRename mem;
  cs ← str_at cs; n ← str_at n; n' ← str_at n'; Ret (OpCLRename cs n n').

(** The decoder gives the transaction only; the other two numbers are looked up. *)
Definition decode_commit (mem : list Z) : outcome logOp :=
  id ← dpsRecord2TransCommit mem;
  r ← load_record mem;
  p ← need r DPS_LOG_PUBLIC_PRETRANS; pre ← as_uint 8 p;
  p ← need r DPS_LOG_PUBLIC_FIRSTTRANS; first ← as_uint 8 p;
  Ret (OpTransCommit id pre first).

Definition decode_invalid (mem : list Z) : outcome logOp :=
  '(ty, n, ix) ← dpsRecord2InvalidCata mem;
  n ← str_at n;
  match ix with
  | None => Ret (OpInvalidCata ty n None)
  | Some _ => ix ← str_at ix; Ret (OpInvalidCata ty n (Some ix))
  end.

Definition decode_lobw (mem : list Z) : outcome logOp :=
  '(p, size) ← dpsRecord2LobW mem true; a ← read_lob p size; t ← read_tran mem; Ret (OpLobW a t).

Definition decode_lobu (mem : list Z) : outcome logOp :=
  '(p, oldLen, oldData, size) ← dpsRecord2LobU mem true;
  a ← read_lob p size; old ← bytes_at oldData oldLen; t ← read_tran mem; Ret (OpLobU a old t).

Definition decode_lobrm (mem : list Z) : outcome logOp :=
  '(p, size) ← dpsRecord2LobRm mem true; a ← read_lob p size; t ← read_tran mem; Ret (OpLobRm a t).

Definition decoders : list (Z * (list Z -> outcome logOp)) :=
  [(LOG_TYPE_DATA_INSERT, decode_insert); (LOG_TYPE_DATA_UPDATE, decode_update);
   (LOG_TYPE_DATA_DELETE, decode_delete); (LOG_TYPE_DATA_POP, decode_pop);
   (LOG_TYPE_CS_CRT, decode_cscrt);
   (LOG_TYPE_CS_DELETE, fun mem => n ← dpsRecord2CSDel mem; n ← str_at n; Ret (OpCSDel n));
   (LOG_TYPE_CS_RENAME, decode_csrename); (LOG_TYPE_CL_CRT, decode_clcrt);
   (LOG_TYPE_CL_DELETE, fun mem => n ← dpsRecord2CLDel mem; n ← str_at n; Ret (OpCLDel n));
   (LOG_TYPE_IX_CRT, decode_ixcrt); (LOG_TYPE_IX_DELETE, decode_ixdel);
   (LOG_TYPE_CL_RENAME, decode_clrename);
   (LOG_TYPE_CL_TRUNC, fun mem => n ← dpsRecord2CLTrunc mem; n ← str_at n; Ret (OpCLTrunc n));
   (LOG_TYPE_TS_COMMIT, decode_commit); (LOG_TYPE_INVALIDATE_CATA, decode_invalid);
   (LOG_TYPE_LOB_WRITE, decode_lobw); (LOG_TYPE_LOB_UPDATE, decode_lobu);
   (LOG_TYPE_LOB_REMOVE, decode_lobrm);
   (LOG_TYPE_LOB_TRUNCATE, fun mem => n ← dpsRecord2LobTruncate mem; n ← str_at n; Ret (OpLobTruncate n))].

Fixpoint decode_with (ds : list (Z * (list Z -> outcome logOp))) (ty : Z) (mem : list Z) : outcome logOp :=
  match ds with
  | [] => Err SDB_SYS
  | (ty', f) :: ds' => if ty =? ty' then f mem else decode_with ds' ty mem
  end.

Definition decode (mem : list Z) : outcome logOp :=
  h ← or_crash (read_head mem); decode_with decoders (_type h) mem.

(** What is read of an operation: of an update the sharding keys only when
    both are there, and the old one twice when the two compare equal. *)
Definition seen (woCompare : list Z -> list Z -> Z) (op : logOp) : logOp :=
  match op with
  | OpUpdate n om oo nm no ok nk t =>
      if no_key ok || no_key nk then OpUpdate n om oo nm no empty_obj empty_obj t
      else OpUpdate n om oo nm no ok (if woCompare nk ok =? 0 then ok else nk) t
  | _ => op
  end.

(** ** Lookups in the elements of operations *)

Lemma first_val_app es1 es2 t :
  first_val (es1 ++ es2) t = match first_val es1 t with Some v => Some v | None => first_val es2 t end.
Proof. induction es1 as [|e es1 IH]; cbn [first_val app]; [done|]. by destruct (e_tag e =? t). Qed.

Lemma first_val_none es t : Forall (fun e => e_tag e <> t) es -> first_val es t = None.
Proof. induction 1 as [|e es He _ IH]; cbn [first_val]; [done|]. by destruct (Z.eqb_spec (e_tag e) t). Qed.

Lemma first_val_tran t tag : tag < 200 -> first_val (tran_elems t) tag = None.
Proof.
  intros Ht. apply first_val_none. unfold tran_elems.
  repeat (apply list.Forall_app; split); case_match; repeat constructor; intros E; cbn in E; subst tag; done.
Qed.

Lemma first_val_public t :
  first_val (tran_elems t) DPS_LOG_PUBLIC_TRANSID =
    (if DPS_INVALID_TRANS_ID =? t_id t then None else Some (le_bytes 8 (t_id t))) /\
  first_val (tran_elems t) DPS_LOG_PUBLIC_PRETRANS =
    (if DPS_INVALID_LSN_OFFSET =? t_pre t then None else Some (le_bytes 8 (t_pre t))) /\
  first_val (tran_elems t) DPS_LOG_PUBLIC_RELATED_TRANS =
    (if DPS_INVALID_LSN_OFFSET =? t_related t then None else Some (le_bytes 8 (t_related t))).
Proof.
  unfold tran_elems. rewrite !first_val_app.
  by destruct (DPS_INVALID_TRANS_ID =? t_id t), (DPS_INVALID_LSN_OFFSET =? t_pre t),
    (DPS_INVALID_LSN_OFFSET =? t_related t).
Qed.

Lemma u_ok_mod k v : u_ok k v -> v mod 2 ^ k = v.
Proof. unfold u_ok. intros. by apply Z.mod_small. Qed.

Lemma s32_mod v : s_ok 32 v -> s32 (v mod 2 ^ 32) = v.
Proof.
  unfold s_ok, s32. intros Hv. rewrite Z.add_mod_idemp_l by lia. rewrite Z.mod_small; lia.
Qed.

Lemma s64_mod v : s_ok 64 v -> s64 (v mod 2 ^ 64) = v.
Proof.
  unfold s_ok, s64. intros Hv. rewrite Z.add_mod_idemp_l by lia. rewrite Z.mod_small; lia.
Qed.

Lemma s8_mod v : s_ok 8 v -> s8 (v mod 2 ^ 8) = v.
Proof.
  unfold s_ok, s8. intros Hv. rewrite Z.add_mod_idemp_l by lia. rewrite Z.mod_small; lia.
Qed.

(** A 64-bit number that is stored unless it is the default [d]. *)
Lemma look_default r es t d v :
  holds r es -> u_ok 64 v -> first_val es t = (if d =? v then None else Some (le_bytes 8 v)) ->
  exists o, look r t = Ret o /\ match o with Some p => as_uint 8 p | None => Ret d end = Ret v.
Proof.
  intros Hr Hv E. destruct (Z.eqb_spec d v) as [->|].
  - exists None. by rewrite (look_none r es).
  - destruct (look_some r es Hr t _ E) as [m Hm]. eexists. split; [exact Hm|].
    cbv beta iota. rewrite (as_uint_app 8) by done. f_equal. by apply u_ok_mod.
Qed.

Section loaded_record.
Context (mem : list Z) (r : dpsLogRecord) (es : list elem).
Context (Hload : load_record mem = Ret r) (Hr : holds r es).

Lemma read_tran_ok es1 es2 t :
  es = es1 ++ tran_elems t ++ es2 -> tran_ok t ->
  (forall tag, tag ∈ [DPS_LOG_PUBLIC_TRANSID; DPS_LOG_PUBLIC_PRETRANS; DPS_LOG_PUBLIC_RELATED_TRANS] ->
     first_val es1 tag = None /\ first_val es2 tag = None) ->
  read_tran mem = Ret t.
Proof.
  intros Ees (H1 & H2 & H3) Hno. unfold read_tran. rewrite Hload. cbn [mbind outcome_bind].
  assert (Hv : forall tag, tag ∈ [DPS_LOG_PUBLIC_TRANSID; DPS_LOG_PUBLIC_PRETRANS; DPS_LOG_PUBLIC_RELATED_TRANS] ->
    first_val es tag = first_val (tran_elems t) tag).
  { intros tag Ht. destruct (Hno tag Ht) as [N1 N2]. rewrite Ees, !first_val_app, N1, N2.
    by destruct (first_val (tran_elems t) tag). }
  destruct (first_val_public t) as (P1 & P2 & P3).
  rewrite <- Hv in P1, P2, P3 by (rewrite list_elem_of_In; cbn; tauto).
  destruct (look_default r es _ _ _ Hr H1 P1) as (o1 & -> & E1). cbn [mbind outcome_bind]. rewrite E1.
  destruct (look_default r es _ _ _ Hr H2 P2) as (o2 & -> & E2). cbn [mbind outcome_bind]. rewrite E2.
  destruct (look_default r es _ _ _ Hr H3 P3) as (o3 & -> & E3). cbn [mbind outcome_bind]. rewrite E3.
  by destruct t.
Qed.

Lemma read_tran_end es1 t :
  es = es1 ++ tran_elems t -> tran_ok t ->
  first_val es1 DPS_LOG_PUBLIC_TRANSID = None -> first_val es1 DPS_LOG_PUBLIC_PRETRANS = None ->
  first_val es1 DPS_LOG_PUBLIC_RELATED_TRANS = None -> read_tran mem = Ret t.
Proof.
  intros E Ht H1 H2 H3. apply (read_tran_ok es1 [] t); [by rewrite app_nil_r|done|].
  intros tag. rewrite !list.elem_of_cons, list.elem_of_nil. by intros [->|[->|[->|[]]]].
Qed.
End loaded_record.

(** Evaluates the next lookup of an element that is there. *)
Ltac next_need Hr :=
  match goal with |- context [need ?r ?t] =>
    let H := fresh "H" in
    edestruct (need_some r _ Hr t) as [? H]; [reflexivity|];
    rewrite H, ?e_val_val; clear H; cbn [mbind outcome_bind]
  end.

Ltac next_look Hr :=
  match goal with |- context [look ?r ?t] =>
    let H := fresh "H" in
    edestruct (look_some r _ Hr t) as [? H]; [reflexivity|];
    rewrite H, ?e_val_val; clear H; cbn [mbind outcome_bind]
  end.

Ltac no_look Hr :=
  match goal with |- context [look ?r ?t] =>
    rewrite (look_none r _ Hr t) by reflexivity; cbn [mbind outcome_bind]
  end.

(** Reads what was found. *)
Ltac read_value :=
  first [rewrite BSONObj_app by done | rewrite str_at_name by done | rewrite obj_at_app by done
        | rewrite (as_uint_app 8) by done | rewrite (as_uint_app 4) by done
        | rewrite (as_uint_app 1) by done];
  cbn [mbind outcome_bind or_crash].

Ltac read_values :=
  unfold se, ie, cstr, as_int32; rewrite ?e_val_val; repeat read_value;
  change (8 * 8) with 64; change (8 * 4) with 32; change (8 * 1) with 8;
  rewrite ?s32_mod, ?s64_mod, ?s8_mod, ?u_ok_mod by done.

Section trip.
Context (woCompare : list Z -> list Z -> Z) (bson_valid : list Z -> bool).
Context (mem : list Z) (r : dpsLogRecord).
Context (Hload : load_record mem = Ret r).

Ltac start := rewrite Hload; cbn [mbind outcome_bind].

(** The lookups of one operation, then the values, then its transaction. *)
Ltac end_tran Hr es1 t :=
  rewrite (read_tran_end mem r _ Hload Hr es1 t) by (done || reflexivity); cbn [mbind outcome_bind]; reflexivity.

Lemma trip_insert n o t :
  op_ok bson_valid (OpInsert n o t) -> holds r (elems_of woCompare (OpInsert n o t)) ->
  decode_insert mem = Ret (OpInsert n o t).
Proof.
  intros (Hn & Ho & Ht) Hr. unfold decode_insert, dpsRecord2Insert. start.
  do 2 next_need Hr. read_values.
  end_tran Hr [se DPS_LOG_PUBLIC_FULLNAME n; val_elem DPS_LOG_INSERT_OBJ o] t.
Qed.

Lemma trip_delete n o t :
  op_ok bson_valid (OpDelete n o t) -> holds r (elems_of woCompare (OpDelete n o t)) ->
  decode_delete mem = Ret (OpDelete n o t).
Proof.
  intros (Hn & Ho & Ht) Hr. unfold decode_delete, dpsRecord2Delete. start.
  do 2 next_need Hr. read_values.
  end_tran Hr [se DPS_LOG_PUBLIC_FULLNAME n; val_elem DPS_LOG_DELETE_OLDOBJ o] t.
Qed.

Lemma trip_pop n lid d :
  op_ok bson_valid (OpPop n lid d) -> holds r (elems_of woCompare (OpPop n lid d)) ->
  decode_pop mem = Ret (OpPop n lid d).
Proof.
  intros (Hn & Hl & Hd) Hr. unfold decode_pop, dpsRecord2Pop. start.
  do 3 next_need Hr. read_values. done.
Qed.

Lemma trip_cscrt n ps lps ty :
  op_ok bson_valid (OpCSCrt n ps lps ty) -> holds r (elems_of woCompare (OpCSCrt n ps lps ty)) ->
  decode_cscrt mem = Ret (OpCSCrt n ps lps ty).
Proof.
  intros (Hn & H1 & H2 & H3) Hr. unfold decode_cscrt, dpsRecord2CSCrt. start.
  do 2 next_need Hr. read_values. do 2 (next_look Hr; read_values). done.
Qed.

Lemma trip_csrename n n' :
  op_ok bson_valid (OpCSRename n n') -> holds r (elems_of woCompare (OpCSRename n n')) ->
  decode_csrename mem = Ret (OpCSRename n n').
Proof.
  intros (Hn & Hn') Hr. unfold decode_csrename, dpsRecord2CSRename. start.
  do 2 next_need Hr. by read_values.
Qed.

Lemma trip_ixcrt n ix :
  op_ok bson_valid (OpIXCrt n ix) -> holds r (elems_of woCompare (OpIXCrt n ix)) ->
  decode_ixcrt mem = Ret (OpIXCrt n ix).
Proof.
  intros (Hn & Hn') Hr. unfold decode_ixcrt, dpsRecord2IXCrt. start.
  do 2 next_need Hr. by read_values.
Qed.

Lemma trip_ixdel n ix :
  op_ok bson_valid (OpIXDel n ix) -> holds r (elems_of woCompare (OpIXDel n ix)) ->
  decode_ixdel mem = Ret (OpIXDel n ix).
Proof.
  intros (Hn & Hn') Hr. unfold decode_ixdel, dpsRecord2IXDel. start.
  do 2 next_need Hr. by read_values.
Qed.

Lemma trip_clrename cs n n' :
  op_ok bson_valid (OpCLRename cs n n') -> holds r (elems_of woCompare (OpCLRename cs n n')) ->
  decode_clrename mem = Ret (OpCLRename cs n n').
Proof.
  intros (Hcs & Hn & Hn') Hr. unfold decode_clrename, dpsRecord2CLRename. start.
  do 3 next_need Hr. by read_values.
Qed.

Lemma trip_commit i p f :
  op_ok bson_valid (OpTransCommit i p f) -> holds r (elems_of woCompare (OpTransCommit i p f)) ->
  decode_commit mem = Ret (OpTransCommit i p f).
Proof.
  intros (Hi & Hp & Hf) Hr. unfold decode_commit, dpsRecord2TransCommit. start.
  do 3 (next_need Hr; read_values). done.
Qed.

Lemma trip_clcrt n a c ext :
  op_ok bson_valid (OpCLCrt n a c ext) -> holds r (elems_of woCompare (OpCLCrt n a c ext)) ->
  decode_clcrt mem = Ret (OpCLCrt n a c ext).
Proof.
  intros (Hn & Ha & Hc & He) Hr. unfold decode_clcrt, dpsRecord2CLCrt. start.
  next_need Hr. do 2 (next_look Hr; read_values). destruct ext as [o|].
  - destruct He as [Ho _]. next_look Hr. read_values.
    destruct (o ++ x2) as [|b m] eqn:E; [|done].
    apply app_nil in E as [-> _]. destruct Ho as [_ Ho]. cbn in Ho. lia.
  - no_look Hr. by read_values.
Qed.

Lemma trip_invalid ty n ix :
  op_ok bson_valid (OpInvalidCata ty n ix) -> holds r (elems_of woCompare (OpInvalidCata ty n ix)) ->
  decode_invalid mem = Ret (OpInvalidCata ty n ix).
Proof.
  intros (Hty & Hn & Hix) Hr. unfold decode_invalid, dpsRecord2InvalidCata. start.
  next_look Hr. read_values. next_need Hr. read_values. destruct ix as [s|].
  - next_look Hr. cbn [from_option id]. by read_values.
  - no_look Hr. cbn [from_option id]. by read_values.
Qed.

Lemma small_u32 v : small v -> u_ok 32 (Z.of_nat (length v)).
Proof. unfold small, u_ok. lia. Qed.

Lemma read_lob_ok a m1 m2 m3 :
  lob_ok a ->
  read_lob (mkLobPage (Some ((la_name a ++ [0]) ++ m1)) (Some (la_oid a ++ m2)) (la_sequence a) (la_offset a)
              (Z.of_nat (length (la_data a))) (la_hash a) (Some (la_data a ++ m3)) (la_page a))
           (Some (la_pageSize a)) = Ret a.
Proof.
  intros (Hn & Ho & _). unfold read_lob. cbn [lp_fullName lp_oid lp_data lp_len].
  rewrite str_at_name by done. cbn [mbind outcome_bind]. rewrite !bytes_at_app by (rewrite ?Ho; done).
  by destruct a.
Qed.

Ltac lob_elem Hr := next_need Hr; read_values.
Ltac lob_tran Hr a t es1 := rewrite read_lob_ok by done; cbn [mbind outcome_bind]; end_tran Hr es1 t.

Lemma trip_lobw a t :
  op_ok bson_valid (OpLobW a t) -> holds r (elems_of woCompare (OpLobW a t)) ->
  decode_lobw mem = Ret (OpLobW a t).
Proof.
  intros (Ha & Ht) Hr. destruct (Ha) as (Hn & Ho & Hs & Hof & Hh & Hp & Hpg & Hd%small_u32).
  unfold decode_lobw, dpsRecord2LobW, read_page_size. start. do 9 lob_elem Hr.
  lob_tran Hr a t (lob_elems a ++ [ie DPS_LOG_LOB_PAGE_SIZE 4 (la_pageSize a)]).
Qed.

Lemma trip_lobrm a t :
  op_ok bson_valid (OpLobRm a t) -> holds r (elems_of woCompare (OpLobRm a t)) ->
  decode_lobrm mem = Ret (OpLobRm a t).
Proof.
  intros (Ha & Ht) Hr. destruct (Ha) as (Hn & Ho & Hs & Hof & Hh & Hp & Hpg & Hd%small_u32).
  unfold decode_lobrm, dpsRecord2LobRm, read_page_size. start. do 9 lob_elem Hr.
  lob_tran Hr a t (lob_elems a ++ [ie DPS_LOG_LOB_PAGE_SIZE 4 (la_pageSize a)]).
Qed.

Lemma trip_lobu a old t :
  op_ok bson_valid (OpLobU a old t) -> holds r (elems_of woCompare (OpLobU a old t)) ->
  decode_lobu mem = Ret (OpLobU a old t).
Proof.
  intros (Ha & Hold%small_u32 & Ht) Hr.
  destruct (Ha) as (Hn & Ho & Hs & Hof & Hh & Hp & Hpg & Hd%small_u32).
  unfold decode_lobu, dpsRecord2LobU, read_page_size. start. do 11 lob_elem Hr.
  rewrite read_lob_ok by done. cbn [mbind outcome_bind]. rewrite bytes_at_app by done.
  cbn [mbind outcome_bind].
  end_tran Hr (lob_elems a ++ [ie DPS_LOG_LOB_OLD_LEN 4 (Z.of_nat (length old));
    val_elem DPS_LOG_LOB_OLD_DATA old; ie DPS_LOG_LOB_PAGE_SIZE 4 (la_pageSize a)]) t.
Qed.

(** The keys of an update are behind its transaction. *)
Lemma first_val_keys n om oo nm no ok nk t tag :
  DPS_LOG_UPDATE_NEWOBJ < tag < 200 ->
  first_val (elems_of woCompare (OpUpdate n om oo nm no ok nk t)) tag =
  first_val (key_elems woCompare ok nk) tag.
Proof.
  intros Ht. unfold DPS_LOG_UPDATE_NEWOBJ in Ht.
  cbn [elems_of]. rewrite !first_val_app, first_val_tran by lia.
  rewrite first_val_none; [done|].
  repeat (apply list.Forall_cons; split); [..|by apply list.Forall_nil];
    intros E; cbn in E; subst tag; vm_compute in Ht; naive_solver.
Qed.

Lemma keys_public ok nk tag : 200 < tag -> first_val (key_elems woCompare ok nk) tag = None.
Proof.
  intros Ht. apply first_val_none. unfold key_elems. case_match; [constructor|].
  constructor; [intros E; cbn in E; subst tag; vm_compute in Ht; naive_solver|].
  case_match; repeat constructor; intros E; cbn in E; subst tag; vm_compute in Ht; naive_solver.
Qed.

Lemma empty_obj_ok : obj_ok empty_obj.
Proof. by vm_compute. Qed.

Lemma trip_update n om oo nm no ok nk t :
  op_ok bson_valid (OpUpdate n om oo nm no ok nk t) ->
  holds r (elems_of woCompare (OpUpdate n om oo nm no ok nk t)) ->
  decode_update mem = Ret (seen woCompare (OpUpdate n om oo nm no ok nk t)).
Proof.
  intros (Hn & Hom & Hoo & Hnm & Hno & Hok & Hnk & Ht) Hr. unfold decode_update, dpsRecord2Update.
  assert (Htr : read_tran mem = Ret t).
  { apply (read_tran_ok mem r _ Hload Hr
      [se DPS_LOG_PUBLIC_FULLNAME n; val_elem DPS_LOG_UPDATE_OLDMATCH om; val_elem DPS_LOG_UPDATE_OLDOBJ oo;
       val_elem DPS_LOG_UPDATE_NEWMATCH nm; val_elem DPS_LOG_UPDATE_NEWOBJ no] (key_elems woCompare ok nk) t);
      [done|done|]. intros tag. rewrite !list.elem_of_cons, list.elem_of_nil.
    intros [->|[->|[->|[]]]]; (split; [done|by apply keys_public]). }
  rewrite Htr. start. do 5 next_need Hr. read_values.
  pose proof (first_val_keys n om oo nm no ok nk t) as Hk.
  pose proof (Hk DPS_LOG_UPDATE_OLDSHARDINGKEY ltac:(done)) as Ho. unfold key_elems in Ho.
  pose proof (Hk DPS_LOG_UPDATE_NEWSHARDINGKEY ltac:(done)) as Hw. unfold key_elems in Hw.
  unfold seen. destruct (no_key ok || no_key nk).
  { rewrite (look_none r _ Hr _ Ho), (look_none r _ Hr _ Hw). cbn [mbind outcome_bind or_crash].
    by read_values. }
  destruct (look_some r _ Hr _ _ Ho) as [m1 ->]. rewrite e_val_val. cbn [mbind outcome_bind].
  read_values. destruct (woCompare nk ok =? 0).
  - rewrite (look_none r _ Hr _ Hw). cbn [mbind outcome_bind or_crash]. by read_values.
  - destruct (look_some r _ Hr _ _ Hw) as [m2 ->]. rewrite e_val_val. cbn [mbind outcome_bind].
    by read_values.
Qed.

Lemma decode_holds h op :
  op_ok bson_valid op -> holds r (elems_of woCompare op) -> read_head mem = Some h ->
  _type h = op_type op -> decode mem = Ret (seen woCompare op).
Proof.
  intros Hop Hr Hh Ht. unfold decode. rewrite Hh. cbn [or_crash mbind outcome_bind]. rewrite Ht.
  destruct op; cbn [op_type decode_with decoders];
    repeat match goal with |- context [if ?a =? ?b then _ else _] =>
      let c := eval vm_compute in (a =? b) in change (a =? b) with c; cbv iota end;
    eauto using trip_insert, trip_update, trip_delete, trip_pop, trip_cscrt, trip_csrename, trip_clcrt,
      trip_ixcrt, trip_ixdel, trip_clrename, trip_commit, trip_invalid, trip_lobw, trip_lobu, trip_lobrm.
  - unfold dpsRecord2CSDel. start. next_need Hr. by read_values.
  - unfold dpsRecord2CLDel. start. next_need Hr. by read_values.
  - unfold dpsRecord2CLTrunc. start. next_need Hr. by read_values.
  - unfold dpsRecord2LobTruncate. start. next_need Hr. by read_values.
Qed.
End trip.
