(* ===== verification/DpsThms.v ===== *)
(** * Log records: theorems

    The type invariant of records, the safety of loading, the round trip of
    every replicated operation, and the limit that encoding does not check. *)

From stdpp Require Import base list option.
From Stdlib Require Import ZArith Lia.
From S2P Require Import Prelude DpsLsn Mem DpsRecord DpsRecordFacts DpsOp2Record DpsOp2Thms DpsOp2Trip.

Open Scope Z_scope.

(** ** Records stay well formed *)

(** What a user of a record can do with it. *)
Inductive recStep : Set :=
  | SPush (t l : Z) (m : list Z)
  | SLoad (mem : list Z)
  | SClear
  | SSetHead (h : dpsLogRecordHeader).

Definition rec_step (r : dpsLogRecord) (s : recStep) : option dpsLogRecord :=
  match s with
  | SPush t l m => '(_, r') ← record_push r t l (Some m); Some r'
  | SLoad mem => '(_, r') ← load r mem; Some r'
  | SClear => Some (clear r)
  | SSetHead h => Some (with_head r h)
  end.

Fixpoint rec_run (r : dpsLogRecord) (ss : list recStep) : option dpsLogRecord :=
  match ss with
  | [] => Some r
  | s :: ss' => r' ← rec_step r s; rec_run r' ss'
  end.

(** The assertions of [record_push] and [load]: a tag, and memory that holds the
    record whose header it starts with. *)
Definition step_ok (s : recStep) : Prop :=
  match s with
  | SPush t _ _ => t <> DPS_INVALID_TAG
  | SLoad mem => Forall is_byte mem /\
      exists h, read_head mem = Some h /\ _length h <= Z.of_nat (length mem)
  | SClear | SSetHead _ => True
  end.

Lemma rec_step_rep r es s :
  rep r es -> step_ok s -> exists r' es', rec_step r s = Some r' /\ rep r' es'.
Proof.
  intros Hr Hs. destruct s as [t l m|mem| |h]; cbn [rec_step step_ok] in *.
  - pose proof (rep_size _ _ Hr). destruct (decide (length es = 20%nat)) as [E|].
    + rewrite (push_full r es) by done. eauto.
    + destruct (push_rep r es t l m) as (r' & -> & Hr' & _); [done|done|lia|]. cbn. eauto.
  - destruct Hs as (Hb & h & Hh & Hl).
    destruct (load_inside_from r es mem h) as (rc & r' & es' & -> & _ & Hr' & _); [done..|]. cbn. eauto.
  - eauto using clear_rep.
  - eauto using rep_with_head.
Qed.

(** The shape every record has: two arrays of 20 entries, in which exactly
    the first [_write] have a tag and a pointer. *)
Definition well_formed (r : dpsLogRecord) : Prop :=
  0 <= _write r <= DPS_MERGE_BLOCK_MAX_DATA /\
  length (_data r) = 20%nat /\ length (_dataHeader r) = 20%nat /\
  forall i, 0 <= i < DPS_MERGE_BLOCK_MAX_DATA ->
    exists d e, rd (_data r) i = Some d /\ rd (_dataHeader r) i = Some e /\
      (i < _write r <-> tag e <> DPS_INVALID_TAG) /\ (i < _write r <-> is_Some d).

Lemma rd_rep {A B} (f : A -> B) (es : list A) v k i :
  0 <= i < Z.of_nat (length es + k) ->
  rd (map f es ++ replicate k v) i =
  match es !! Z.to_nat i with Some e => Some (f e) | None => Some v end.
Proof.
  intros Hi. unfold rd. case_Zb; [|lia]. change (map f es) with (f <$> es).
  destruct (es !! Z.to_nat i) as [e|] eqn:E.
  - apply lookup_app_l_Some. by rewrite list_lookup_fmap, E.
  - apply lookup_ge_None_1 in E. rewrite lookup_app_r by (rewrite length_fmap; lia).
    apply lookup_replicate_2. rewrite length_fmap. lia.
Qed.

Lemma rep_well_formed r es : rep r es -> well_formed r.
Proof.
  intros [Hn Hw Hd Hh Ht]. unfold well_formed, DPS_MERGE_BLOCK_MAX_DATA. rewrite Hw, Hd, Hh.
  rewrite !length_app, !length_map, !length_replicate. split_and!; [lia|lia|lia|lia|].
  intros i Hi. rewrite !rd_rep by lia.
  destruct (es !! Z.to_nat i) as [e|] eqn:E.
  - eexists _, _. split_and!; [done|done|..].
    + apply lookup_lt_Some in E as ?. split; [|lia]. intros _. cbn.
      rewrite Forall_lookup in Ht. by apply (Ht (Z.to_nat i)).
    + apply lookup_lt_Some in E as ?. split; [eauto|lia].
  - apply lookup_ge_None_1 in E. eexists _, _. split_and!; [done|done|..].
    + split; [lia|done].
    + split; [lia|by intros []].
Qed.

(** C15: However pushes, loads of arbitrary bytes, clearing and changes of the
    header follow each other, every step returns and the record stays well
    formed: no index leaves the two arrays, and exactly the first [_write]
    entries have a tag and a pointer. *)
Theorem records_stay_well_formed (ss : list recStep) :
  Forall step_ok ss -> exists r, rec_run record_init ss = Some r /\ well_formed r.
Proof.
  intros Hss. cut (forall r es, rep r es -> exists r' es', rec_run r ss = Some r' /\ rep r' es').
  { intros H. destruct (H _ _ rep_init) as (r' & es' & E & Hr'). eauto using rep_well_formed. }
  induction Hss as [|s ss Hs _ IH]; intros r es Hr; cbn [rec_run]; [eauto|].
  destruct (rec_step_rep r es s Hr Hs) as (r1 & es1 & -> & Hr1). exact (IH r1 es1 Hr1).
Qed.

Lemma records_stay_well_formed_witness :
  exists r, rec_run record_init [SPush 1 2 [7; 8]; SLoad (head_bytes head_clear); SClear; SPush 3 0 []] = Some r /\
    well_formed r.
Proof.
  apply (records_stay_well_formed [SPush 1 2 [7; 8]; SLoad (head_bytes head_clear); SClear; SPush 3 0 []]).
  repeat constructor; try done.
  exists head_clear. by vm_compute.
Defined.

(** ** Loading is safe *)

(** C14: [load] of any bytes that reach to the length in their header returns
    success or [SDB_DPS_CORRUPTED_LOG], never reads past that length, and each
    value it hands out lies within it. *)
Theorem load_stays_inside (mem : list Z) (h : dpsLogRecordHeader) :
  Forall is_byte mem -> read_head mem = Some h -> _length h <= Z.of_nat (length mem) ->
  exists rc r es, load record_init mem = Some (rc, r) /\
    (rc = SDB_OK \/ rc = SDB_DPS_CORRUPTED_LOG) /\ _head r = h /\ rep r es /\
    Forall (inside mem (_length h)) es.
Proof.
  intros Hb Hh HL. destruct (load_inside_from record_init [] mem h rep_init Hb Hh HL)
    as (rc & r & es & E & Hrc & Hr & Hin & Hhd). eexists _, _, es. by rewrite E.
Qed.

(** A header that promises 60 bytes, an element, and an element whose length
    leaves the record. *)
Definition corrupted : list Z :=
  head_bytes (mkHead 0 0 60 1 LOG_TYPE_DATA_INSERT 0 0) ++
  ele_bytes (mkEle 201 2) ++ [97; 0] ++ ele_bytes (mkEle 1 1000) ++ replicate 16 9.

Lemma load_stays_inside_witness :
  exists rc r es, load record_init corrupted = Some (rc, r) /\
    (rc = SDB_OK \/ rc = SDB_DPS_CORRUPTED_LOG) /\
    _head r = mkHead 0 0 60 1 LOG_TYPE_DATA_INSERT 0 0 /\ rep r es /\
    Forall (inside corrupted (_length (mkHead 0 0 60 1 LOG_TYPE_DATA_INSERT 0 0))) es.
Proof.
  apply (load_stays_inside corrupted (mkHead 0 0 60 1 LOG_TYPE_DATA_INSERT 0 0)).
  - unfold corrupted. vm_compute. repeat constructor; done.
  - by vm_compute.
  - by vm_compute.
Defined.

(** Such a record is reported as corrupted. *)
Example corrupted_refused :
  match load record_init corrupted with Some (rc, _) => rc = SDB_DPS_CORRUPTED_LOG | None => False end.
Proof. by vm_compute. Qed.

(** ** Every operation is read back *)

Lemma encoded_writable woCompare bson_valid op r h :
  op_ok bson_valid op -> fits (elems_of woCompare op) -> rep r (elems_of woCompare op) ->
  head_ok h -> _type h = op_type op -> alignedLen r <= _length h <= DPS_RECORD_MAX_LEN ->
  writable (with_head r h) (elems_of woCompare op).
Proof.
  intros Hop Hf Hr Hh Ht Hl. unfold fits in Hf. pose proof max_len_bound.
  pose proof (vals_ok _ (elems_of_val woCompare op) ltac:(lia)) as Hv.
  destruct (alignedLen_rep r _ Hr Hv) as [Ha _]; [lia|]. constructor.
  - by apply rep_with_head.
  - done.
  - done.
  - cbn. rewrite Ht. by destruct op.
  - cbn. lia.
  - right. exact (elems_of_ends woCompare bson_valid op Hop).
  - left. pose proof (elems_of_length woCompare op). lia.
Qed.

(** From the bytes of the log that hold an encoded operation it is read back. *)
Lemma decode_stored woCompare bson_valid op r h mem :
  op_ok bson_valid op -> fits (elems_of woCompare op) ->
  encode woCompare bson_valid op record_init = Some (SDB_OK, r) -> head_ok h -> _type h = _type (_head r) ->
  _length (_head r) <= _length h <= DPS_RECORD_MAX_LEN -> stored (with_head r h) mem ->
  decode mem = Ret (seen woCompare op).
Proof.
  intros Hop Hf E Hho Ht Hl Hst. destruct (encode_ok woCompare bson_valid op Hop) as (r0 & E0 & Hr & Hh).
  rewrite E in E0. injection E0 as <-. rewrite Hh in *. cbn in Ht, Hl.
  pose proof (encoded_writable _ _ _ _ _ Hop Hf Hr Hho Ht Hl) as Hw.
  destruct (load_stored _ _ _ Hw Hst) as (r' & es' & El & Hr' & Hf2 & _).
  destruct (stored_inv _ _ _ Hw Hst) as (tail & rest & Em & _).
  eapply (decode_holds woCompare bson_valid mem r'); [|done|by exists es'|by rewrite Em; apply read_head_bytes|done].
  unfold load_record. by rewrite El.
Qed.

(** C13: Every operation whose elements fit into a record of
    [DPS_RECORD_MAX_LEN] bytes is encoded successfully, and from any bytes
    of the log that hold the record - whatever LSN and version its header
    got, whatever longer length up to that maximum it was given, whatever
    bytes are left behind its elements - the decoder reads back what was
    written. This is the operation itself, except that of an update the
    sharding keys are read only when both are there, and the old key twice
    when the two compare equal. *)
Theorem operations_read_back woCompare bson_valid (op : logOp) :
  op_ok bson_valid op -> fits (elems_of woCompare op) ->
  exists r, encode woCompare bson_valid op record_init = Some (SDB_OK, r) /\
    forall h mem, head_ok h -> _type h = _type (_head r) ->
      _length (_head r) <= _length h <= DPS_RECORD_MAX_LEN ->
      stored (with_head r h) mem -> decode mem = Ret (seen woCompare op).
Proof.
  intros Hop Hf. destruct (encode_ok woCompare bson_valid op Hop) as (r & E & Hr & Hh).
  exists r. split; [done|]. intros h mem. by apply (decode_stored _ bson_valid).
Qed.

(** An insert into the collection [c] in transaction 7, in a record that was
    made longer and whose end holds old bytes. *)
Definition op0 : logOp :=
  OpInsert [99] empty_obj (mkTran 7 DPS_INVALID_LSN_OFFSET DPS_INVALID_LSN_OFFSET).
Definition head0 : dpsLogRecordHeader := mkHead 1000 900 76 1 LOG_TYPE_DATA_INSERT 0 0.
Definition mem0 : list Z :=
  head_bytes head0 ++ body (elems_of (fun _ _ => 0) op0) ++ replicate 5 0 ++ replicate 9 201.

Lemma operations_read_back_witness :
  exists r, encode (fun _ _ => 0) (fun _ => true) op0 record_init = Some (SDB_OK, r) /\
    decode mem0 = Ret op0.
Proof.
  destruct (operations_read_back (fun _ _ => 0) (fun _ => true) op0) as (r & E & H).
  - split; [|by vm_compute]. split; [|by vm_compute]. repeat constructor; done.
  - by vm_compute.
  - exists r. split; [exact E|]. vm_compute in E. injection E as <-.
    apply (H head0 mem0); [by constructor; vm_compute|by vm_compute|by vm_compute|].
    eexists _, (replicate 9 201), []. by vm_compute.
Defined.

(** ** Records that are too long *)

Lemma load_oversized mem h :
  read_head mem = Some h -> DPS_RECORD_MAX_LEN < _length h ->
  load_record mem = Err SDB_DPS_CORRUPTED_LOG.
Proof.
  intros Hh Hl. unfold load_record, load. rewrite Hh. cbn [mbind option_bind].
  by rewrite (proj2 (Z.ltb_lt _ _) Hl), orb_true_r.
Qed.

(** Every decoder gives up when the record cannot be loaded. *)
Lemma decode_load_error mem h rc op :
  read_head mem = Some h -> _type h = op_type op -> load_record mem = Err rc -> decode mem = Err rc.
Proof.
  intros Hh Ht Hl. unfold decode. rewrite Hh. cbn [or_crash mbind outcome_bind]. rewrite Ht.
  destruct op; cbv [op_type decode_with decoders decode_insert decode_update decode_delete decode_pop
    decode_cscrt decode_csrename decode_clcrt decode_ixcrt decode_ixdel decode_clrename decode_commit
    decode_invalid decode_lobw decode_lobu decode_lobrm dpsRecord2Insert dpsRecord2Update dpsRecord2Delete
    dpsRecord2Pop dpsRecord2CSCrt dpsRecord2CSDel dpsRecord2CSRename dpsRecord2CLCrt dpsRecord2CLDel
    dpsRecord2IXCrt dpsRecord2IXDel dpsRecord2CLRename dpsRecord2CLTrunc dpsRecord2TransCommit
    dpsRecord2InvalidCata dpsRecord2LobW dpsRecord2LobU dpsRecord2LobRm dpsRecord2LobTruncate];
    rewrite Hl; reflexivity.
Qed.

(** C39: The encoders do not check the length that loading accepts: every
    operation whose elements exceed [DPS_RECORD_MAX_LEN] (and whose length
    still fits 32 bits) is encoded with [SDB_OK], and whatever LSN, version
    and longer length its header gets, every decoder reports
    [SDB_DPS_CORRUPTED_LOG] for its record. *)
Theorem oversized_record_refused woCompare bson_valid (op : logOp) :
  op_ok bson_valid op ->
  DPS_RECORD_MAX_LEN < 32 + Z.of_nat (length (body (elems_of woCompare op))) < 2 ^ 32 - 4 ->
  exists r, encode woCompare bson_valid op record_init = Some (SDB_OK, r) /\
    forall h mem, read_head mem = Some h -> _type h = _type (_head r) -> _length (_head r) <= _length h ->
      decode mem = Err SDB_DPS_CORRUPTED_LOG.
Proof.
  intros Hop Hbig. destruct (encode_ok woCompare bson_valid op Hop) as (r & E & Hr & Hh).
  pose proof (vals_ok _ (elems_of_val woCompare op) ltac:(lia)) as Hv.
  destruct (alignedLen_rep r _ Hr Hv) as [Ha _]; [lia|].
  exists r. split; [done|]. rewrite Hh. cbn. intros h mem Hm Ht Hl.
  eapply (decode_load_error mem h); [done|done|]. eapply load_oversized; [done|lia].
Qed.

(** An object of [n] bytes. *)
Definition object (n : Z) : list Z := le_bytes 4 n ++ replicate (Z.to_nat (n - 4)) 0.

Lemma object_length n : 4 <= n -> Z.of_nat (length (object n)) = n.
Proof. intros. unfold object. rewrite length_app, le_bytes_length, length_replicate. lia. Qed.

Lemma object_ok n : 4 <= n <= BSONObjMaxInternalSize -> obj_ok (object n).
Proof.
  intros Hn. pose proof max_obj_bound. split; rewrite object_length by lia; [|lia].
  unfold objsize, object. rewrite rd_range_app_l by (by rewrite le_bytes_length). cbn [mbind option_bind].
  rewrite le_word_bytes by (simpl; lia). unfold s32. rewrite Z.mod_small by lia. f_equal. lia.
Qed.

(** An update whose old and new image have the size a user's record may have,
    in a collection with the longest name, with an [_id] as the match. *)
Definition big_update : logOp :=
  OpUpdate (replicate 255 99) (object 22) (object DMS_RECORD_USER_MAX_SZ) (object 22)
    (object DMS_RECORD_USER_MAX_SZ) empty_obj empty_obj
    (mkTran DPS_INVALID_TRANS_ID DPS_INVALID_LSN_OFFSET DPS_INVALID_LSN_OFFSET).

Lemma oversized_record_refused_witness :
  exists r, encode (fun _ _ => 0) (fun _ => true) big_update record_init = Some (SDB_OK, r) /\
    forall h mem, read_head mem = Some h -> _type h = _type (_head r) -> _length (_head r) <= _length h ->
      decode mem = Err SDB_DPS_CORRUPTED_LOG.
Proof.
  apply (oversized_record_refused (fun _ _ => 0) (fun _ => true) big_update).
  - assert (Hn : name_ok (replicate 255 99)) by (split; [apply Forall_replicate|]; by vm_compute).
    assert (H1 : obj_ok (object 22)) by (by apply object_ok).
    assert (H2 : obj_ok (object DMS_RECORD_USER_MAX_SZ)) by (by apply object_ok).
    assert (Ht : tran_ok (mkTran DPS_INVALID_TRANS_ID DPS_INVALID_LSN_OFFSET DPS_INVALID_LSN_OFFSET))
      by (by vm_compute).
    exact (conj Hn (conj H1 (conj H2 (conj H1 (conj H2 (conj empty_obj_ok (conj empty_obj_ok Ht))))))).
  - unfold big_update. cbn [elems_of tran_elems key_elems no_key app t_id t_pre t_related]. unfold se.
    rewrite !body_val_length, !object_length by done. by vm_compute.
Defined.
