(* ===== verification/DpsBuffer.v ===== *)
(** * The buffer of the replication log

    Models the in-memory part of [dps/dpsReplicaLogMgr.cpp] with
    [dps/dpsLogPage.cpp], [include/dpsMessageBlock.hpp],
    [include/dpsPageMeta.hpp] and [dps/dpsMergeBlock.cpp]: a ring of pages in
    which sessions reserve room for their records ([preparePages]), fill it
    later and in any order ([writeData]), which a flusher writes to the log
    files page by page and from which replicas read records by LSN.  The
    page size and the size of a log file are parameters of the section.
    [None] is an access outside of a page or an array. *)

From stdpp Require Import base list option.
From Stdlib Require Import ZArith Lia.
From S2P Require Import Prelude DpsLsn Mem DpsRecord.

Open Scope Z_scope.

(** ** Pages *)

(** A page: its buffer, how much of it is allocated, and the LSN of the first
    record that starts in it. *)
Record dpsLogPage : Set := mkPage {
  _mb : list Z;
  _mbLength : Z;
  _beginLSN : DPS_LSN
}.

Definition with_mb (p : dpsLogPage) (mb : list Z) : dpsLogPage := mkPage mb (_mbLength p) (_beginLSN p).
Definition writePtr (p : dpsLogPage) (offset : Z) : dpsLogPage := mkPage (_mb p) offset (_beginLSN p).
Definition setBeginLSN (p : dpsLogPage) (lsn : DPS_LSN) : dpsLogPage := mkPage (_mb p) (_mbLength p) lsn.

(** [_dpsLogPage::clear]: the begin LSN stays. *)
Definition page_clear (p : dpsLogPage) : dpsLogPage := writePtr p 0.

(** ** Merge blocks *)

Record dpsPageMeta : Set := mkMeta { pm_offset : Z; beginSub : Z; pageNum : Z; totalLen : Z }.

Definition meta_none : dpsPageMeta := mkMeta (-1) (-1) 0 0.

Definition meta_valid (m : dpsPageMeta) : bool :=
  negb (-1 =? pm_offset m) && negb (-1 =? beginSub m) && negb (0 =? pageNum m) && negb (0 =? totalLen m).

(** [_dpsPageMeta::clear] *)
Definition meta_clear (m : dpsPageMeta) : dpsPageMeta := if negb (-1 =? pm_offset m) then meta_none else m.

Record dpsMergeBlock : Set := mkBlock {
  _record : dpsLogRecord;
  _pageMeta : dpsPageMeta;
  _isRow : bool
}.

(** [_dpsMergeBlock::clear] *)
Definition block_clear (b : dpsMergeBlock) : dpsMergeBlock := mkBlock (clear (_record b)) (meta_clear (_pageMeta b)) false.

Definition block_head (b : dpsMergeBlock) : dpsLogRecordHeader := _head (_record b).

Definition block_with_head (b : dpsMergeBlock) (h : dpsLogRecordHeader) : dpsMergeBlock :=
  mkBlock (with_head (_record b) h) (_pageMeta b) (_isRow b).

Definition block_with_meta (b : dpsMergeBlock) (m : dpsPageMeta) : dpsMergeBlock :=
  mkBlock (_record b) m (_isRow b).

Record dpsMergeInfo : Set := mkInfo {
  _mergeBlock : dpsMergeBlock;
  _dummyBlock : dpsMergeBlock;
  _needNty : bool
}.

(** [_dpsMergeInfo::hasDummy] *)
Definition hasDummy (i : dpsMergeInfo) : bool := meta_valid (_pageMeta (_dummyBlock i)).

(** ** The manager *)

Record dpsReplicaLogMgr : Set := mkMgr {
  _pages : list dpsLogPage;
  _idleSize : Z;
  _totalSize : Z;
  _work : Z;
  _pageNum : Z;
  _begin : Z;
  _rollFlag : bool;
  m_lsn : DPS_LSN;
  _currentLsn : DPS_LSN;
  _lastCommitted : DPS_LSN;
  _incVersion : bool;
  _restoreFlag : bool;
  _queue : list Z;
  _queSize : Z
}.

Definition set_pages (m : dpsReplicaLogMgr) (ps : list dpsLogPage) : dpsReplicaLogMgr :=
  mkMgr ps (_idleSize m) (_totalSize m) (_work m) (_pageNum m) (_begin m) (_rollFlag m) (m_lsn m)
        (_currentLsn m) (_lastCommitted m) (_incVersion m) (_restoreFlag m) (_queue m) (_queSize m).
Definition set_idle (m : dpsReplicaLogMgr) (n : Z) : dpsReplicaLogMgr :=
  mkMgr (_pages m) n (_totalSize m) (_work m) (_pageNum m) (_begin m) (_rollFlag m) (m_lsn m)
        (_currentLsn m) (_lastCommitted m) (_incVersion m) (_restoreFlag m) (_queue m) (_queSize m).
Definition set_ring (m : dpsReplicaLogMgr) (work begin : Z) (roll : bool) : dpsReplicaLogMgr :=
  mkMgr (_pages m) (_idleSize m) (_totalSize m) work (_pageNum m) begin roll (m_lsn m)
        (_currentLsn m) (_lastCommitted m) (_incVersion m) (_restoreFlag m) (_queue m) (_queSize m).
Definition set_lsns (m : dpsReplicaLogMgr) (lsn cur : DPS_LSN) : dpsReplicaLogMgr :=
  mkMgr (_pages m) (_idleSize m) (_totalSize m) (_work m) (_pageNum m) (_begin m) (_rollFlag m) lsn
        cur (_lastCommitted m) (_incVersion m) (_restoreFlag m) (_queue m) (_queSize m).
Definition set_committed (m : dpsReplicaLogMgr) (lsn : DPS_LSN) : dpsReplicaLogMgr :=
  mkMgr (_pages m) (_idleSize m) (_totalSize m) (_work m) (_pageNum m) (_begin m) (_rollFlag m) (m_lsn m)
        (_currentLsn m) lsn (_incVersion m) (_restoreFlag m) (_queue m) (_queSize m).
Definition set_incVersion (m : dpsReplicaLogMgr) (b : bool) : dpsReplicaLogMgr :=
  mkMgr (_pages m) (_idleSize m) (_totalSize m) (_work m) (_pageNum m) (_begin m) (_rollFlag m) (m_lsn m)
        (_currentLsn m) (_lastCommitted m) b (_restoreFlag m) (_queue m) (_queSize m).
Definition set_queue (m : dpsReplicaLogMgr) (q : list Z) (n : Z) : dpsReplicaLogMgr :=
  mkMgr (_pages m) (_idleSize m) (_totalSize m) (_work m) (_pageNum m) (_begin m) (_rollFlag m) (m_lsn m)
        (_currentLsn m) (_lastCommitted m) (_incVersion m) (_restoreFlag m) q n.

Definition set_page (m : dpsReplicaLogMgr) (i : Z) (p : dpsLogPage) : option dpsReplicaLogMgr :=
  ps ← wr (_pages m) i p; Some (set_pages m ps).

Section buffer.
(** [DPS_DEFAULT_PAGE_SIZE], and [getLogFileSz] of the log files. *)
Context (PS logFileSz : Z).

(** [getLastSize] *)
Definition lastSize (p : dpsLogPage) : Z := PS - _mbLength p.

(** [ossIsPowerOf2] *)
Definition ossIsPowerOf2 (num : Z) : bool := negb (0 =? num) && (0 =? Z.land num (num - 1)).

(** [DPS_SUB_BIT] as [init] sets it. *)
Definition DPS_SUB_BIT (pageNum : Z) : Z :=
  if ossIsPowerOf2 pageNum then u32 (Z.lnot pageNum) else 0.

(** The index of [PAGE( n )]. *)
Definition PAGE (pageNum n : Z) : Z :=
  if DPS_SUB_BIT pageNum =? 0 then n mod pageNum else Z.land n (DPS_SUB_BIT pageNum).

Definition _incPageID (m : dpsReplicaLogMgr) (id : Z) : Z :=
  let id := u32 (id + 1) in if _pageNum m <=? id then 0 else id.

Definition _decPageID (m : dpsReplicaLogMgr) (id : Z) : Z :=
  if id =? 0 then u32 (_pageNum m - 1) else id - 1.

(** The constructor and [init] without files: an empty ring of [n] pages. *)
Definition mgr_init (n : Z) : dpsReplicaLogMgr :=
  let page := mkPage (replicate (Z.to_nat PS) 0) 0 LSN_INVALID in
  mkMgr (replicate (Z.to_nat n) page) (PS * n) (PS * n) 0 n 0 false (mkLSN 0 0) LSN_INVALID
        LSN_INVALID false false [] 0.

(** [incVersion] and [cancelIncVersion] *)
Definition incVersion (m : dpsReplicaLogMgr) : dpsReplicaLogMgr :=
  let l := m_lsn m in
  if DPS_INVALID_LSN_VERSION =? lsn_version l
  then set_lsns m (mkLSN (lsn_offset l) (u32 (lsn_version l + 1))) (_currentLsn m)
  else if 0 <? lsn_offset l then set_incVersion m true else m.

Definition cancelIncVersion (m : dpsReplicaLogMgr) : dpsReplicaLogMgr := set_incVersion m false.

(** *** Reserving room *)

(** The begin LSN of the working page in the [n]-th round of [_allocate]. *)
Definition allocate_begin (lsn : DPS_LSN) (n : Z) (begin : DPS_LSN) : DPS_LSN :=
  if 1 =? n then
    if lsn_invalid begin || (PS <? u64 (lsn_offset lsn - lsn_offset begin)) then lsn else begin
  else mkLSN DPS_INVALID_LSN_OFFSET (lsn_version lsn).

(** The working page is full: go to the next one. *)
Definition next_page (m : dpsReplicaLogMgr) : dpsReplicaLogMgr :=
  let work := _incPageID m (_work m) in
  if negb (_rollFlag m) && negb (_begin m =? work) then set_ring m work (_begin m) true
  else if (_begin m =? work) && _rollFlag m then set_ring m work (_incPageID m (_begin m)) (_rollFlag m)
  else set_ring m work (_begin m) (_rollFlag m).

(** The loop of [_allocate]; every round but the first and the last fills a
    whole page. *)
Fixpoint allocate_loop (fuel : nat) (m : dpsReplicaLogMgr) (needAlloc n : Z)
    : option (dpsReplicaLogMgr * Z) :=
  match fuel with
  | O => None
  | S fuel' =>
      let n := n + 1 in
      page ← rd (_pages m) (_work m);
      let page := setBeginLSN page (allocate_begin (m_lsn m) n (_beginLSN page)) in
      let pageIdle := lastSize page in
      let allocLen := if pageIdle <? needAlloc then pageIdle else needAlloc in
      let page := writePtr page (allocLen + _mbLength page) in
      m ← set_page m (_work m) page;
      let needAlloc := needAlloc - allocLen in
      let m := if 0 =? lastSize page then next_page m else m in
      if 0 <? needAlloc then allocate_loop fuel' m needAlloc n else Some (m, n)
  end.

(** [_allocate], after its wait for room. *)
Definition _allocate (m : dpsReplicaLogMgr) (len : Z) : option (dpsReplicaLogMgr * dpsPageMeta) :=
  page ← rd (_pages m) (_work m);
  '(m', n) ← allocate_loop (S (S (length (_pages m)))) m len 0;
  Some (set_idle m' (_idleSize m' - len), mkMeta (_mbLength page) (_work m) n len).

(** [_push2SendQueue]: the full pages of the room go to the flusher. *)
Fixpoint push2SendQueue_loop (k : nat) (m : dpsReplicaLogMgr) (sub : Z) : option dpsReplicaLogMgr :=
  match k with
  | O => Some m
  | S k' =>
      let i := PAGE (_pageNum m) sub in
      page ← rd (_pages m) i;
      m ← (if 0 =? lastSize page then
             if negb (_restoreFlag m) then Some (set_queue m (_queue m ++ [i]) (_queSize m + 1))
             else set_page (set_idle m (_idleSize m + _mbLength page)) i (page_clear page)
           else Some m);
      push2SendQueue_loop k' m (sub + 1)
  end.

Definition _push2SendQueue (m : dpsReplicaLogMgr) (meta : dpsPageMeta) : option dpsReplicaLogMgr :=
  push2SendQueue_loop (Z.to_nat (pageNum meta)) m (beginSub meta).

(** Room for [len] bytes, or a wait. *)
Definition reserve (m : dpsReplicaLogMgr) (len : Z) : option (option (dpsReplicaLogMgr * dpsPageMeta)) :=
  if _idleSize m <? len then Some None
  else
    '(m, meta) ← _allocate m len;
    m ← _push2SendQueue m meta;
    Some (Some (m, meta)).

(** What [preparePages] does.  It returns a code, or waits for the flusher:
    before anything is done, in the [_allocate] of the padding, or in that of
    the record, when the room of the padding is already taken.  The LSNs that
    are announced to the event handlers come with the result. *)
Inductive prepared : Set :=
  | Prepared (rc : Z) (m : dpsReplicaLogMgr) (i : dpsMergeInfo) (notified : list Z)
  | Waits
  | WaitsPadding (m : dpsReplicaLogMgr)
  | WaitsRecord (m : dpsReplicaLogMgr) (i : dpsMergeInfo) (notified : list Z).

Definition announced (i : dpsMergeInfo) (b : dpsMergeBlock) : list Z :=
  if _needNty i then [_lsn (block_head b)] else [].

(** Whether a record of [len] bytes would cross the end of a log file. *)
Definition crosses (off len : Z) : bool := negb (off / logFileSz =? (off + len - 1) / logFileSz).

(** The padding up to the end of the log file: the dummy block with its room,
    or a wait. *)
Definition pad_file (m : dpsReplicaLogMgr) (dummy : dpsMergeBlock)
    : option (option (dpsReplicaLogMgr * dpsMergeBlock)) :=
  let lsn := m_lsn m in
  let size := u32 (logFileSz - lsn_offset lsn mod logFileSz) in
  o ← reserve m size;
  match o with
  | None => Some None
  | Some (m, meta) =>
      let h := block_head dummy in
      let h := mkHead (lsn_offset lsn) (lsn_offset (_currentLsn m)) size (lsn_version lsn)
                      LOG_TYPE_DUMMY (_reserved1 h) (_reserved2 h) in
      let m := set_lsns m (mkLSN (u64 (lsn_offset lsn + size)) (lsn_version lsn)) lsn in
      Some (Some (m, block_with_meta (block_with_head dummy h) meta))
  end.

(** The length of a record: it takes the rest of the file when no room for a
    header would be left behind it. *)
Definition extend_length (off len : Z) : Z :=
  if (off + len) / logFileSz =? (off + len + sizeof_head) / logFileSz then len
  else u32 (logFileSz - off mod logFileSz).

(** [++_lsn.version] for the first record and after [incVersion]. *)
Definition next_version (m : dpsReplicaLogMgr) : dpsReplicaLogMgr :=
  let l := m_lsn m in
  if (DPS_INVALID_LSN_VERSION =? lsn_version l) || _incVersion m
  then set_incVersion (set_lsns m (mkLSN (lsn_offset l) (u32 (lsn_version l + 1))) (_currentLsn m)) false
  else m.

(** From the [_allocate] of the record on: its room and its place in the
    chain. *)
Definition place_record (m : dpsReplicaLogMgr) (i : dpsMergeInfo) (notified : list Z) : option prepared :=
  let block := _mergeBlock i in
  let head := block_head block in
  o ← reserve m (_length head);
  match o with
  | None => Some (WaitsRecord m i notified)
  | Some (m, meta) =>
      let lsn := m_lsn m in
      let head :=
        if _isRow block then head
        else mkHead (lsn_offset lsn) (lsn_offset (_currentLsn m)) (_length head) (lsn_version lsn)
                    (_type head) (_reserved1 head) (_reserved2 head) in
      let lsn := if _isRow block then mkLSN (lsn_offset lsn) (_version head) else lsn in
      let m := set_lsns m (mkLSN (u64 (lsn_offset lsn + _length head)) (lsn_version lsn)) lsn in
      let block := block_with_meta (block_with_head block head) meta in
      Some (Prepared SDB_OK m (mkInfo block (_dummyBlock i) (_needNty i)) (notified ++ announced i block))
  end.

(** The record takes the rest of the file if needed, then its room. *)
Definition extend_and_place (m : dpsReplicaLogMgr) (i : dpsMergeInfo) (notified : list Z) : option prepared :=
  let block := _mergeBlock i in
  let head := block_head block in
  let head := with_length head (extend_length (lsn_offset (m_lsn m)) (_length head)) in
  place_record m (mkInfo (block_with_head block head) (_dummyBlock i) (_needNty i)) notified.

(** [preparePages] *)
Definition preparePages (m : dpsReplicaLogMgr) (i : dpsMergeInfo) : option prepared :=
  let i := mkInfo (block_with_meta (_mergeBlock i) (meta_clear (_pageMeta (_mergeBlock i))))
                  (block_clear (_dummyBlock i)) (_needNty i) in
  let block := _mergeBlock i in
  let len := _length (block_head block) in
  if _totalSize m <? len then Some (Prepared SDB_SYS m i [])
  else if negb (_restoreFlag m) && (_idleSize m <? len) then Some Waits
  else if _isRow block && negb (lsn_offset (m_lsn m) =? _lsn (block_head block))
  then Some (Prepared SDB_SYS m i [])
  else
    let m := next_version m in
    if _isRow block then place_record m i []
    else if crosses (lsn_offset (m_lsn m)) len then
      o ← pad_file m (_dummyBlock i);
      match o with
      | None => Some (WaitsPadding m)
      | Some (m, dummy) => extend_and_place m (mkInfo block dummy (_needNty i)) (announced i dummy)
      end
    else extend_and_place m i [].

(** *** Filling the room *)

(** [_mergePage].  A round copies at least one byte. *)
Fixpoint mergePage_loop (fuel : nat) (m : dpsReplicaLogMgr) (src : list Z) (workSub offset : Z)
    : option (dpsReplicaLogMgr * Z * Z) :=
  match src with
  | [] => Some (m, workSub, offset)
  | _ :: _ =>
      match fuel with
      | O => None
      | S fuel' =>
          let i := PAGE (_pageNum m) workSub in
          page ← rd (_pages m) i;
          let pageIdle := PS - offset in
          let needcpy := Z.of_nat (length src) in
          let cpylen := if pageIdle <? needcpy then pageIdle else needcpy in
          mb ← wr_range (_mb page) offset (take (Z.to_nat cpylen) src);
          m ← set_page m i (with_mb page mb);
          let offset := offset + cpylen in
          if offset =? PS then mergePage_loop fuel' m (drop (Z.to_nat cpylen) src) (workSub + 1) 0
          else mergePage_loop fuel' m (drop (Z.to_nat cpylen) src) workSub offset
      end
  end.

Definition _mergePage (m : dpsReplicaLogMgr) (src : list Z) (workSub offset : Z) :=
  mergePage_loop (length src) m src workSub offset.

Fixpoint merge_all (m : dpsReplicaLogMgr) (cs : list (list Z)) (workSub offset : Z)
    : option dpsReplicaLogMgr :=
  match cs with
  | [] => Some m
  | c :: cs' => '(m, workSub, offset) ← _mergePage m c workSub offset; merge_all m cs' workSub offset
  end.

(** [_mergeLogs] *)
Definition _mergeLogs (m : dpsReplicaLogMgr) (b : dpsMergeBlock) : option dpsReplicaLogMgr :=
  cs ← merge_chunks (_isRow b) (_record b);
  merge_all m cs (beginSub (_pageMeta b)) (pm_offset (_pageMeta b)).

(** [writeData].  When transactions are on, the record is handed to
    [saveTransInfoFromLog] of the transaction control block. *)
Definition writeData (transOn : bool) (m : dpsReplicaLogMgr) (i : dpsMergeInfo)
    : option (dpsReplicaLogMgr * option dpsLogRecord) :=
  m ← (if hasDummy i then _mergeLogs m (_dummyBlock i) else Some m);
  m ← _mergeLogs m (_mergeBlock i);
  if transOn && negb (_restoreFlag m) then
    let r := _record (_mergeBlock i) in
    if _isRow (_mergeBlock i) then '(_, r') ← loadRowBody r; Some (m, Some r')
    else Some (m, Some r)
  else Some (m, None).

(** *** Reading *)

(** [_parse].  A round reads at least one byte. *)
Fixpoint parse_loop (fuel : nat) (m : dpsReplicaLogMgr) (sub offset need : Z) : option (list Z) :=
  if 0 <? need then
    match fuel with
    | O => None
    | S fuel' =>
        page ← rd (_pages m) (PAGE (_pageNum m) sub);
        let parseLen := if PS - offset <? need then PS - offset else need in
        bs ← rd_range (_mb page) offset parseLen;
        let offset := offset + parseLen in
        rest ← (if 0 =? PS - offset then parse_loop fuel' m (_incPageID m sub) 0 (need - parseLen)
                else parse_loop fuel' m sub offset (need - parseLen));
        Some (bs ++ rest)
    end
  else Some [].

(** A return code, or the bytes that were read. *)
Definition _parse (m : dpsReplicaLogMgr) (sub offset len : Z) : option (Z + list Z) :=
  if u32 (_pageNum m * PS) <=? u32 (offset + len) then Some (inl SDB_DPS_CORRUPTED_LOG)
  else bs ← parse_loop (Z.to_nat len) m sub offset len; Some (inr bs).

Fixpoint startLsn_loop (k : nat) (m : dpsReplicaLogMgr) (begin : Z) : option DPS_LSN :=
  match k with
  | O => Some LSN_INVALID
  | S k' =>
      page ← rd (_pages m) (PAGE (_pageNum m) begin);
      let lsn := _beginLSN page in
      if negb (lsn_invalid lsn) then Some lsn
      else if begin =? _work m then Some lsn
      else if (k' =? 0)%nat then Some lsn
      else startLsn_loop k' m (_incPageID m begin)
  end.

(** [_getStartLsn] *)
Definition _getStartLsn (m : dpsReplicaLogMgr) : option DPS_LSN :=
  startLsn_loop (Z.to_nat (_pageNum m)) m (_begin m).

(** [_search]: the record at [lsn], or its header only; the length of the
    record comes with the bytes. *)
Definition _search (m : dpsReplicaLogMgr) (lsn : Z) (onlyHeader : bool)
    : option (Z + list Z * Z) :=
  let pageSub := (lsn / PS) mod _pageNum m in
  let offset := lsn mod PS in
  beginLSN ← _getStartLsn m;
  if lsn_invalid beginLSN then Some (inl SDB_DPS_LOG_NOT_IN_BUF)
  else if compareOffset lsn (lsn_offset beginLSN) <? 0 then Some (inl SDB_DPS_LOG_NOT_IN_BUF)
  else if 0 <=? compareOffset lsn (lsn_offset (m_lsn m)) then Some (inl SDB_DPS_LSN_OUTOFRANGE)
  else
    o ← _parse m pageSub offset sizeof_head;
    match o with
    | inl rc => Some (inl rc)
    | inr hb =>
        head ← read_head hb;
        if negb (_lsn head =? lsn) || (_length head <? sizeof_head)
        then Some (inl SDB_DPS_CORRUPTED_LOG)
        else if onlyHeader then Some (inr (hb, _length head))
        else
          o ← _parse m pageSub offset (_length head);
          match o with
          | inl rc => Some (inl rc)
          | inr bs => Some (inr (bs, _length head))
          end
    end.

(** *** Flushing *)

(** The end of [_flushPage], after the page was written to the log files. *)
Definition flushed (m : dpsReplicaLogMgr) (i : Z) : option dpsReplicaLogMgr :=
  page ← rd (_pages m) i;
  m ← set_page m i (page_clear page);
  Some (set_queue (set_idle m (_idleSize m + _mbLength page)) (_queue m) (_queSize m - 1)).

(** [run]: the next page of the queue is written with [flush] of the log
    files, given the page, its allocated length and its begin LSN; a failed
    write leaves the page as it is, out of the queue. *)
Definition run_flush {F : Type} (flush : F -> list Z -> Z -> DPS_LSN -> bool -> Z * F)
    (m : dpsReplicaLogMgr) (files : F) : option (Z * dpsReplicaLogMgr * F) :=
  match _queue m with
  | [] => Some (SDB_OK, m, files)
  | i :: q =>
      let m := set_queue m q (_queSize m) in
      page ← rd (_pages m) i;
      let '(rc, files) := flush files (_mb page) (_mbLength page) (_beginLSN page) false in
      if rc =? SDB_OK then m ← flushed m i; Some (SDB_OK, m, files)
      else Some (rc, m, files)
  end.

End buffer.
