(* ===== verification/DpsRing.v ===== *)
(** * The log buffer: positions, writing and reading

    The byte of the log at position [x] lives in page [x / PS] modulo the
    number of pages.  [_mergePage] writes and [_parse] reads consecutive
    positions, across page ends and the end of the ring. *)

From stdpp Require Import base list option.
From Stdlib Require Import ZArith Lia.
From S2P Require Import Prelude DpsLsn Mem DpsRecord DpsBuffer.

Open Scope Z_scope.

Lemma u64_small x : 0 <= x < 2 ^ 64 -> u64 x = x.
Proof. apply Z.mod_small. Qed.

(** ** The macro [PAGE] *)

Lemma power_of_2_inv n : 0 < n -> ossIsPowerOf2 n = true -> exists k, 0 <= k /\ n = 2 ^ k.
Proof.
  intros Hn H. unfold ossIsPowerOf2 in H. apply andb_true_iff in H as [_ H%Z.eqb_eq].
  exists (Z.log2 n). split; [apply Z.log2_nonneg|].
  destruct (Z.eq_dec n (2 ^ Z.log2 n)) as [|Hne]; [done|]. exfalso.
  destruct (Z.log2_spec n Hn) as [H1 H2]. apply (f_equal (fun z => Z.testbit z (Z.log2 n))) in H.
  rewrite Z.land_spec, Z.bits_0, Z.bit_log2 in H by done. cbn [andb] in H.
  replace (Z.log2 n) with (Z.log2 (n - 1)) in H; [rewrite Z.bit_log2 in H; [done|]|].
  - pose proof (Z.pow_pos_nonneg 2 (Z.log2 n) ltac:(lia) (Z.log2_nonneg n)). lia.
  - apply Z.log2_unique; [apply Z.log2_nonneg|]. lia.
Qed.

(** Clearing one bit is the remainder for the first two rounds of the ring. *)
Theorem PAGE_is_mod N n : 0 < N < 2 ^ 31 -> 0 <= n < 2 * N -> PAGE N n = n mod N.
Proof.
  intros HN Hn. unfold PAGE, DPS_SUB_BIT. destruct (ossIsPowerOf2 N) eqn:E; [|done].
  destruct (power_of_2_inv N ltac:(lia) E) as (k & Hk & ->). case_Zb; [done|].
  apply Z.bits_inj'. intros i Hi. rewrite Z.land_spec, testbit_mod_pow2 by lia.
  unfold u32. rewrite testbit_mod_pow2, Z.lnot_spec, Z.pow2_bits_eqb by lia.
  destruct (Z.ltb_spec i k).
  - destruct (Z.eqb_spec k i); [lia|]. destruct (Z.ltb_spec i 32); [by rewrite andb_true_r|].
    assert (2 ^ 31 < 2 ^ k) by (apply Z.pow_lt_mono_r; lia). lia.
  - destruct (Z.eqb_spec k i) as [<-|]; [by rewrite andb_false_r, andb_false_r|].
    replace (Z.testbit n i) with false; [done|]. symmetry.
    rewrite <- (Z.mod_small n (2 ^ (k + 1))) by (rewrite Z.pow_add_r by lia; lia).
    apply Z.mod_pow2_bits_high. lia.
Qed.

(** ** Positions *)

Section ring.
Context (PS N : Z) (HPS : 0 < PS) (HN : 2 <= N) (HT : N * PS < 2 ^ 31).

Lemma N_bound : 0 < N < 2 ^ 31.
Proof. nia. Qed.

Definition slot (x : Z) : Z := (x / PS) mod N.

Definition byte_at (ps : list dpsLogPage) (x : Z) : option Z :=
  p ← rd ps (slot x); rd (_mb p) (x mod PS).

Lemma slot_range x : 0 <= slot x < N.
Proof. apply Z.mod_pos_bound. lia. Qed.

(** Positions less than a round apart are different bytes. *)
Lemma slot_inj x y :
  slot x = slot y -> x mod PS = y mod PS -> - (N * PS) < x - y < N * PS -> x = y.
Proof.
  unfold slot. intros Hs Hm Hd. pose proof (Z.div_mod x PS ltac:(lia)). pose proof (Z.div_mod y PS ltac:(lia)).
  apply Z.sub_move_0_r, Zminus_eq. set (a := x / PS) in *. set (b := y / PS) in *.
  pose proof (Z.div_mod a N ltac:(lia)). pose proof (Z.div_mod b N ltac:(lia)).
  assert (a - b = N * (a / N - b / N)) by lia. assert (x - y = PS * (a - b)) by lia.
  set (k := a / N - b / N) in *. assert (k = 0) by nia. nia.
Qed.

Lemma slot_next x : x mod PS = 0 -> slot (x + PS) = (slot x + 1) mod N.
Proof.
  intros. unfold slot. replace (x + PS) with (x + 1 * PS) by lia. rewrite Z.div_add by lia.
  by rewrite Z.add_mod_idemp_l by lia.
Qed.

Lemma div_same x i : 0 <= i -> x mod PS + i < PS -> (x + i) / PS = x / PS /\ (x + i) mod PS = x mod PS + i.
Proof.
  intros Hi Hlt. pose proof (Z.mod_pos_bound x PS HPS).
  pose proof (Z.div_mod x PS ltac:(lia)) as E.
  assert (E2 : x + i = PS * (x / PS) + (x mod PS + i)) by lia.
  split; symmetry; [eapply Z.div_unique|eapply Z.mod_unique]; try exact E2; left; lia.
Qed.

Lemma div_step x : (x + (PS - x mod PS)) / PS = x / PS + 1 /\ (x + (PS - x mod PS)) mod PS = 0.
Proof.
  pose proof (Z.div_mod x PS ltac:(lia)) as E.
  assert (E2 : x + (PS - x mod PS) = PS * (x / PS + 1) + 0) by lia.
  split; symmetry; [eapply Z.div_unique|eapply Z.mod_unique]; try exact E2; left; lia.
Qed.

(** ** Pages of the right size *)

Record static (m : dpsReplicaLogMgr) : Prop := {
  st_num : _pageNum m = N;
  st_len : Z.of_nat (length (_pages m)) = N;
  st_mb : Forall (fun p => Z.of_nat (length (_mb p)) = PS) (_pages m)
}.

Lemma static_page m i : static m -> 0 <= i < N ->
  exists p, rd (_pages m) i = Some p /\ Z.of_nat (length (_mb p)) = PS.
Proof.
  intros [H1 H2 H3] Hi. destruct (rd_is_Some (_pages m) i) as [p Hp]; [lia|]. exists p. split; [done|].
  unfold rd in Hp. destruct (0 <=? i); [|done]. rewrite Forall_lookup in H3. eauto.
Qed.

Lemma set_page_ok m i p :
  static m -> 0 <= i < N -> Z.of_nat (length (_mb p)) = PS ->
  exists m', set_page m i p = Some m' /\ m' = set_pages m (_pages m') /\ static m' /\
    forall j, rd (_pages m') j = if j =? i then Some p else rd (_pages m) j.
Proof.
  intros [H1 H2 H3] Hi Hp. unfold set_page. rewrite wr_Some by lia. cbn [mbind option_bind].
  eexists. split; [done|]. split; [done|]. split.
  - constructor; cbn [_pages _pageNum set_pages]; [done|by rewrite length_insert|].
    by apply Forall_insert.
  - intros j. cbn [_pages set_pages]. eapply rd_wr. apply wr_Some. lia.
Qed.

(** ** Writing *)

Lemma rd_wr_range_at (mb bs mb' : list Z) off j :
  wr_range mb off bs = Some mb' ->
  rd mb' j = if (off <=? j) && (j <? off + Z.of_nat (length bs)) then rd bs (j - off) else rd mb j.
Proof.
  intros Hw. pose proof (wr_range_length _ _ _ _ Hw) as Hl.
  apply wr_range_Some in Hw as (H1 & H2 & ->). unfold rd.
  destruct (Z.leb_spec off j), (Z.ltb_spec j (off + Z.of_nat (length bs))); cbn [andb].
  - do 2 (case_Zb; [|lia]). rewrite lookup_app_r by (rewrite length_take; lia).
    rewrite lookup_app_l by (rewrite length_take; lia). f_equal. rewrite length_take. lia.
  - case_Zb; [|done]. rewrite lookup_app_r by (rewrite length_take; lia).
    rewrite lookup_app_r by (rewrite length_take; lia). rewrite lookup_drop. f_equal.
    rewrite length_take. lia.
  - case_Zb; [|done]. rewrite lookup_app_l by (rewrite length_take; lia).
    rewrite lookup_take_lt by lia. done.
  - case_Zb; [|done]. rewrite lookup_app_l by (rewrite length_take; lia).
    rewrite lookup_take_lt by lia. done.
Qed.

(** Allocated lengths and begin LSNs. *)
Definition meta_at (m : dpsReplicaLogMgr) (i : Z) : option (Z * DPS_LSN) :=
  p ← rd (_pages m) i; Some (_mbLength p, _beginLSN p).

(** [m'] is [m] with the bytes [src] written from position [x] on. *)
Record wrote (x : Z) (src : list Z) (m m' : dpsReplicaLogMgr) : Prop := {
  wt_static : static m';
  wt_rest : m' = set_pages m (_pages m');
  wt_meta : forall i, meta_at m' i = meta_at m i;
  wt_bytes : forall y, x + Z.of_nat (length src) - N * PS <= y < x + N * PS ->
    byte_at (_pages m') y =
    if (x <=? y) && (y <? x + Z.of_nat (length src)) then rd src (y - x) else byte_at (_pages m) y
}.

Lemma wrote_nil x m : static m -> wrote x [] m m.
Proof.
  intros. constructor; try done; [by destruct m|]. intros y Hy. cbn [length].
  destruct (Z.leb_spec x y), (Z.ltb_spec y (x + Z.of_nat 0)); cbn [andb]; (done || lia).
Qed.

Lemma rd_app (a b : list Z) i :
  rd (a ++ b) i = if i <? Z.of_nat (length a) then rd a i else rd b (i - Z.of_nat (length a)).
Proof.
  unfold rd. destruct (Z.ltb_spec i (Z.of_nat (length a))).
  - case_Zb; [|done]. apply lookup_app_l. lia.
  - do 2 (case_Zb; [|lia]). rewrite lookup_app_r by lia. f_equal. lia.
Qed.

Lemma wrote_app x s1 s2 m m1 m2 :
  Z.of_nat (length (s1 ++ s2)) <= N * PS ->
  wrote x s1 m m1 -> wrote (x + Z.of_nat (length s1)) s2 m1 m2 -> wrote x (s1 ++ s2) m m2.
Proof.
  intros Hl [A1 A2 A3 A4] [B1 B2 B3 B4]. rewrite length_app in Hl. constructor.
  - done.
  - rewrite B2, A2. done.
  - intros i. by rewrite B3, A3.
  - intros y Hy. rewrite length_app in *. rewrite B4 by lia. rewrite rd_app.
    destruct (Z.leb_spec (x + Z.of_nat (length s1)) y),
      (Z.ltb_spec y (x + Z.of_nat (length s1) + Z.of_nat (length s2))); cbn [andb].
    + destruct (Z.leb_spec x y), (Z.ltb_spec y (x + Z.of_nat (length s1 + length s2))),
        (Z.ltb_spec (y - x) (Z.of_nat (length s1))); try lia. cbn [andb]. f_equal. lia.
    + rewrite A4 by lia.
      destruct (Z.leb_spec x y), (Z.ltb_spec y (x + Z.of_nat (length s1))),
        (Z.ltb_spec y (x + Z.of_nat (length s1 + length s2))); cbn [andb]; (done || lia).
    + rewrite A4 by lia.
      destruct (Z.leb_spec x y), (Z.ltb_spec y (x + Z.of_nat (length s1))),
        (Z.ltb_spec y (x + Z.of_nat (length s1 + length s2))),
        (Z.ltb_spec (y - x) (Z.of_nat (length s1))); cbn [andb]; (done || lia).
    + lia.
Qed.

(** One round of [_mergePage]: bytes that end within the page of [x]. *)
Lemma fill_page m src x :
  static m -> 0 < Z.of_nat (length src) <= PS - x mod PS ->
  exists p mb m', rd (_pages m) (slot x) = Some p /\
    wr_range (_mb p) (x mod PS) src = Some mb /\ set_page m (slot x) (with_mb p mb) = Some m' /\
    wrote x src m m'.
Proof.
  intros Hst Hl. pose proof (Z.mod_pos_bound x PS HPS). pose proof (slot_range x).
  destruct (static_page m (slot x) Hst) as (p & Hp & Hpl); [done|].
  assert (exists mb, wr_range (_mb p) (x mod PS) src = Some mb) as [mb Hmb].
  { eexists. apply wr_range_Some. split_and!; [lia|lia|done]. }
  destruct (set_page_ok m (slot x) (with_mb p mb)) as (m' & Hm' & Hrest & Hst' & Hrd); [done|done| |].
  { cbn. rewrite (wr_range_length _ _ _ _ Hmb). done. }
  exists p, mb, m'. split_and!; [done|done|done|]. constructor; [done|done| |].
  - intros i. unfold meta_at. rewrite Hrd. destruct (Z.eqb_spec i (slot x)) as [->|]; [|done]. by rewrite Hp.
  - intros y Hy. unfold byte_at. rewrite Hrd. destruct (Z.eqb_spec (slot y) (slot x)) as [Es|Hne].
    + rewrite Es, Hp. cbn [mbind option_bind with_mb _mb]. rewrite (rd_wr_range_at _ _ _ _ _ Hmb).
      destruct (Z.leb_spec x y), (Z.ltb_spec y (x + Z.of_nat (length src))); cbn [andb].
      * destruct (div_same x (y - x)) as [_ E]; [lia|lia|]. replace (x + (y - x)) with y in E by lia.
        rewrite E. do 2 (case_Zb; try lia). cbn [andb]. f_equal. lia.
      * destruct (Z.leb_spec (x mod PS) (y mod PS)), (Z.ltb_spec (y mod PS) (x mod PS + Z.of_nat (length src)));
          cbn [andb]; try done. exfalso.
        destruct (div_same x (y mod PS - x mod PS)) as [Ed Em]; [lia|lia|].
        apply (Z.lt_irrefl y). rewrite (slot_inj y (x + (y mod PS - x mod PS))) at 1; [lia|..].
        -- unfold slot in *. by rewrite Ed.
        -- lia.
        -- lia.
      * destruct (Z.leb_spec (x mod PS) (y mod PS)), (Z.ltb_spec (y mod PS) (x mod PS + Z.of_nat (length src)));
          cbn [andb]; try done. exfalso.
        destruct (div_same x (y mod PS - x mod PS)) as [Ed Em]; [lia|lia|].
        apply (Z.lt_irrefl y). rewrite (slot_inj y (x + (y mod PS - x mod PS))) at 2; [lia|..].
        -- unfold slot in *. by rewrite Ed.
        -- lia.
        -- lia.
      * lia.
    + destruct (Z.leb_spec x y), (Z.ltb_spec y (x + Z.of_nat (length src))); cbn [andb]; try done.
      exfalso. apply Hne. destruct (div_same x (y - x)) as [E _]; [lia|lia|].
      replace (x + (y - x)) with y in E by lia. unfold slot. by rewrite E.
Qed.

(** [_mergePage] writes the bytes at consecutive positions. *)
Lemma mergePage_ok fuel : forall m src w x,
  static m -> (length src <= fuel)%nat -> 0 <= w -> w mod N = slot x ->
  w + (x mod PS + Z.of_nat (length src)) / PS < 2 * N -> Z.of_nat (length src) <= N * PS ->
  exists m' w', mergePage_loop PS fuel m src w (x mod PS)
      = Some (m', w', (x + Z.of_nat (length src)) mod PS) /\
    w' mod N = slot (x + Z.of_nat (length src)) /\
    w' = w + (x mod PS + Z.of_nat (length src)) / PS /\ wrote x src m m'.
Proof.
  induction fuel as [|fuel IH]; intros m src w x Hst Hf Hw Hwx Hb Hlen.
  all: pose proof (Z.mod_pos_bound x PS HPS) as Hx.
  { destruct src; [|cbn in Hf; lia]. exists m, w. cbn [length mergePage_loop].
    rewrite !Z.add_0_r, Z.div_small by lia. split_and!; [done|done|lia|by apply wrote_nil]. }
  destruct src as [|b0 src0].
  { exists m, w. cbn [length mergePage_loop].
    rewrite !Z.add_0_r, Z.div_small by lia. split_and!; [done|done|lia|by apply wrote_nil]. }
  assert (Hpos : 0 < Z.of_nat (length (b0 :: src0))) by (cbn [length]; lia).
  cbn [mergePage_loop]. set (src := b0 :: src0) in *. rewrite (st_num _ Hst).
  rewrite PAGE_is_mod; [|apply N_bound|].
  2: { split; [done|]. assert (0 <= (x mod PS + Z.of_nat (length src)) / PS) by (apply Z.div_pos; lia). lia. }
  rewrite Hwx. set (n := Z.of_nat (length src)) in *.
  set (c := if PS - x mod PS <? n then PS - x mod PS else n).
  assert (Hc : 0 < c <= n /\ c <= PS - x mod PS) by (subst c; case_Zb; lia).
  set (s1 := take (Z.to_nat c) src). set (s2 := drop (Z.to_nat c) src).
  assert (Hl1 : Z.of_nat (length s1) = c) by (subst s1; rewrite length_take; lia).
  assert (Hl2 : Z.of_nat (length s2) = n - c) by (subst s2; rewrite length_drop; lia).
  assert (Es : src = s1 ++ s2) by (subst s1 s2; by rewrite take_drop).
  destruct (fill_page m s1 x Hst ltac:(lia)) as (p & mb & m1 & -> & Hmb & Hm1 & Hw1).
  cbn [mbind option_bind]. rewrite Hmb. cbn [mbind option_bind]. rewrite Hm1. cbn [mbind option_bind].
  destruct (Z.eqb_spec (x mod PS + c) PS) as [Efull|Hnf].
  - assert (Ec : c = PS - x mod PS) by lia. destruct (div_step x) as [Ed Em]. rewrite <- Ec in Ed, Em.
    assert (Hq : (x mod PS + n) / PS = 1 + (n - c) / PS).
    { replace (x mod PS + n) with (n - c + 1 * PS) by lia. rewrite Z.div_add by lia. lia. }
    destruct (IH m1 s2 (w + 1) (x + c)) as (m' & w' & E & Hs' & Ew' & Hwr).
    + apply (wt_static _ _ _ _ Hw1).
    + lia.
    + lia.
    + unfold slot in *. rewrite Ed, <- (Z.add_mod_idemp_l (x / PS)), <- Hwx, Z.add_mod_idemp_l by lia. done.
    + rewrite Em, Hl2. rewrite Z.add_0_l. lia.
    + lia.
    + rewrite Em in E, Ew'. exists m', w'. rewrite E. rewrite Hl2 in *.
      replace (x + c + (n - c)) with (x + n) in * by lia.
      split_and!; [done|done|rewrite Hq, Ew', Z.add_0_l; lia|]. rewrite Es.
      apply (wrote_app x s1 s2 m m1 m'); [rewrite <- Es; done|done|]. by rewrite Hl1.
  - destruct (div_same x c) as [Ed Em]; [lia|lia|].
    assert (Ecn : c = n) by (subst c; case_Zb; lia).
    assert (s2 = []) as -> by (destruct s2; [done|cbn [length] in Hl2; lia]).
    rewrite app_nil_r in Es.
    exists m1, w. replace (mergePage_loop PS fuel m1 [] w (x mod PS + c)) with (Some (m1, w, x mod PS + c))
      by (by destruct fuel). rewrite <- Ecn, Em. split_and!; [done| |rewrite Z.div_small; lia|by rewrite Es].
    unfold slot in *. by rewrite Ed.
Qed.

Lemma merge_all_gen cs : forall m w x,
  static m -> 0 <= w -> w mod N = slot x ->
  w + (x mod PS + Z.of_nat (length (concat cs))) / PS < 2 * N -> Z.of_nat (length (concat cs)) <= N * PS ->
  exists m', merge_all PS m cs w (x mod PS) = Some m' /\ wrote x (concat cs) m m'.
Proof.
  induction cs as [|c cs IH]; intros m w x Hst Hw Hwx Hb Hl; cbn [merge_all concat] in *.
  { exists m. split; [done|]. by apply wrote_nil. }
  rewrite length_app in Hb, Hl. pose proof (Z.mod_pos_bound x PS HPS).
  assert ((x mod PS + Z.of_nat (length c)) / PS <= (x mod PS + Z.of_nat (length c + length (concat cs))) / PS)
    by (apply Z.div_le_mono; lia).
  assert (0 <= (x mod PS + Z.of_nat (length c)) / PS) by (apply Z.div_pos; lia).
  destruct (mergePage_ok (length c) m c w x) as (m1 & w1 & E & Hs1 & Ew1 & Hwr1); [done|done|done|done|lia|lia|].
  unfold _mergePage. rewrite E. cbn [mbind option_bind].
  set (n := Z.of_nat (length c)) in *.
  destruct (IH m1 w1 (x + n)) as (m' & -> & Hwr).
  - apply (wt_static _ _ _ _ Hwr1).
  - lia.
  - done.
  - rewrite Ew1.
    replace (x mod PS + Z.of_nat (length c + length (concat cs)))
      with (x mod PS + n + Z.of_nat (length (concat cs))) in Hb by lia.
    assert (E2 : (x + n) mod PS = (x mod PS + n) - PS * ((x mod PS + n) / PS)).
    { rewrite <- Z.add_mod_idemp_l by lia. rewrite Z.mod_eq by lia. done. }
    rewrite E2.
    replace (x mod PS + n - PS * ((x mod PS + n) / PS) + Z.of_nat (length (concat cs)))
      with (x mod PS + n + Z.of_nat (length (concat cs)) + (- ((x mod PS + n) / PS)) * PS) by lia.
    rewrite Z.div_add by lia. lia.
  - lia.
  - exists m'. split; [done|]. eapply wrote_app; [rewrite length_app; lia|done|done].
Qed.

(** [_mergeLogs] writes the bytes of a block into its room. *)
Lemma mergeLogs_ok m b cs x :
  static m -> merge_chunks (_isRow b) (_record b) = Some cs ->
  beginSub (_pageMeta b) = slot x -> pm_offset (_pageMeta b) = x mod PS ->
  Z.of_nat (length (concat cs)) <= N * PS ->
  exists m', _mergeLogs PS m b = Some m' /\ wrote x (concat cs) m m'.
Proof.
  intros Hst Hcs Hw Ho Hl. unfold _mergeLogs. rewrite Hcs, Hw, Ho. cbn [mbind option_bind].
  pose proof (slot_range x). pose proof (Z.mod_pos_bound x PS HPS).
  apply merge_all_gen; [done|lia|by rewrite Z.mod_small| |done].
  assert ((x mod PS + Z.of_nat (length (concat cs))) / PS < N + 1) by (apply Z.div_lt_upper_bound; lia). lia.
Qed.

(** ** Reading *)

Lemma incPageID_slot m s : static m -> 0 <= s < N -> _incPageID m s = (s + 1) mod N.
Proof.
  intros [Hn _ _] Hs. pose proof N_bound. unfold _incPageID. rewrite Hn, u32_small by lia.
  case_Zb; [|by rewrite Z.mod_small by lia]. replace (s + 1) with (0 + 1 * N) by lia.
  by rewrite Z.mod_add, Z.mod_small by lia.
Qed.

Lemma parse_loop_ok fuel : forall m x need,
  static m -> (Z.to_nat need <= fuel)%nat -> 0 <= need ->
  exists bs, parse_loop PS fuel m (slot x) (x mod PS) need = Some bs /\ Z.of_nat (length bs) = need /\
    forall i, 0 <= i < need -> rd bs i = byte_at (_pages m) (x + i).
Proof.
  induction fuel as [|fuel IH]; intros m x need Hst Hf Hn;
    pose proof (Z.mod_pos_bound x PS HPS); cbn [parse_loop].
  { exists []. case_Zb; [lia|]. cbn. split_and!; [done|lia|lia]. }
  destruct (Z.ltb_spec 0 need); [|exists []; cbn; split_and!; [done|lia|lia]].
  pose proof (slot_range x). rewrite (st_num _ Hst), PAGE_is_mod by (pose proof N_bound; lia).
  rewrite (Z.mod_small (slot x)) by lia.
  destruct (static_page m (slot x) Hst) as (p & Hp & Hpl); [done|]. rewrite Hp. cbn [mbind option_bind].
  set (c := if PS - x mod PS <? need then PS - x mod PS else need).
  assert (Hc : 0 < c <= need /\ c <= PS - x mod PS) by (subst c; case_Zb; lia).
  destruct (rd_range (_mb p) (x mod PS) c) as [bs|] eqn:Ebs.
  2: { exfalso. unfold rd_range in Ebs.
       destruct (Z.leb_spec 0 (x mod PS)), (Z.leb_spec 0 c), (Z.leb_spec (x mod PS + c) (Z.of_nat (length (_mb p))));
         cbn [andb] in Ebs; (done || lia). }
  cbn [mbind option_bind]. pose proof (rd_range_length _ _ _ _ Ebs) as Hbl.
  assert (Hbs : forall i, 0 <= i < c -> rd bs i = byte_at (_pages m) (x + i)).
  { intros i Hi. destruct (div_same x i) as [Ed Em]; [lia|lia|]. unfold byte_at. unfold slot at 1.
    rewrite Ed. fold (slot x). rewrite Hp, Em. cbn [mbind option_bind].
    apply rd_range_Some in Ebs as (_ & _ & _ & ->). unfold rd. do 2 (case_Zb; [|lia]).
    rewrite lookup_take_lt, lookup_drop by lia. f_equal. lia. }
  assert (Hrest : exists rest, (if 0 =? PS - (x mod PS + c)
      then parse_loop PS fuel m (_incPageID m (slot x)) 0 (need - c)
      else parse_loop PS fuel m (slot x) (x mod PS + c) (need - c)) = Some rest /\
      Z.of_nat (length rest) = need - c /\
      forall i, 0 <= i < need - c -> rd rest i = byte_at (_pages m) (x + c + i)).
  { destruct (Z.eqb_spec 0 (PS - (x mod PS + c))).
    - assert (Ec : c = PS - x mod PS) by lia. destruct (div_step x) as [Ed Em]. rewrite <- Ec in Ed, Em.
      destruct (IH m (x + c) (need - c)) as (rest & E & Hl & Hr); [done|lia|lia|].
      exists rest. rewrite incPageID_slot by done. rewrite Em in E.
      replace ((slot x + 1) mod N) with (slot (x + c)); [done|]. unfold slot. rewrite Ed.
      by rewrite Z.add_mod_idemp_l by lia.
    - destruct (div_same x c) as [Ed Em]; [lia|lia|].
      destruct (IH m (x + c) (need - c)) as (rest & E & Hl & Hr); [done|lia|lia|].
      exists rest. unfold slot in E. rewrite Ed, Em in E. done. }
  destruct Hrest as (rest & -> & Hrl & Hr). cbn [mbind option_bind]. exists (bs ++ rest).
  split; [done|]. split; [rewrite length_app; lia|]. intros i Hi. rewrite rd_app, Hbl.
  destruct (Z.ltb_spec i c); [by apply Hbs; lia|]. rewrite Hr by lia. f_equal. lia.
Qed.

(** [_parse] gives the bytes from a position on. *)
Lemma parse_ok m x len :
  static m -> 0 <= len -> x mod PS + len < N * PS ->
  exists bs, _parse PS m (slot x) (x mod PS) len = Some (inr bs) /\ Z.of_nat (length bs) = len /\
    forall i, 0 <= i < len -> rd bs i = byte_at (_pages m) (x + i).
Proof.
  intros Hst Hl Hlt. pose proof (Z.mod_pos_bound x PS HPS). unfold _parse.
  rewrite (st_num _ Hst), !u32_small by nia.
  destruct (Z.leb_spec (N * PS) (x mod PS + len)); [lia|].
  destruct (parse_loop_ok (Z.to_nat len) m x len) as (bs & -> & H1 & H2); [done|done|done|].
  exists bs. auto.
Qed.

(** Bytes at consecutive positions as a list. *)
Definition holds_at (ps : list dpsLogPage) (x : Z) (bs : list Z) : Prop :=
  forall i, 0 <= i < Z.of_nat (length bs) -> byte_at ps (x + i) = rd bs i.

Lemma rd_prefix (a b : list Z) :
  (forall i, 0 <= i < Z.of_nat (length a) -> rd b i = rd a i) -> a `prefix_of` b.
Proof.
  intros H. exists (drop (length a) b). rewrite <- (take_drop (length a) b) at 1. f_equal.
  apply list_eq. intros i. destruct (decide (i < length a)%nat) as [Hi|Hi].
  - rewrite lookup_take_lt by done. specialize (H (Z.of_nat i) ltac:(lia)). by rewrite !rd_nat in H.
  - rewrite lookup_take_ge, lookup_ge_None_2 by lia. done.
Qed.

(** What was written stays while only other positions of the round are written. *)
Lemma wrote_keeps x src m m' y bs :
  wrote x src m m' -> holds_at (_pages m) y bs ->
  x + Z.of_nat (length src) - N * PS <= y -> y + Z.of_nat (length bs) <= x + N * PS ->
  (y + Z.of_nat (length bs) <= x \/ x + Z.of_nat (length src) <= y) -> holds_at (_pages m') y bs.
Proof.
  intros [_ _ _ Hb] Hy H1 H2 Hd i Hi. rewrite Hb by lia. rewrite <- Hy by done.
  destruct (Z.leb_spec x (y + i)), (Z.ltb_spec (y + i) (x + Z.of_nat (length src))); cbn [andb]; (done || lia).
Qed.

Lemma wrote_holds x src m m' :
  wrote x src m m' -> Z.of_nat (length src) <= N * PS -> holds_at (_pages m') x src.
Proof.
  intros [_ _ _ Hb] Hl i Hi. rewrite Hb by lia.
  destruct (Z.leb_spec x (x + i)), (Z.ltb_spec (x + i) (x + Z.of_nat (length src))); cbn [andb]; try lia.
  f_equal. lia.
Qed.
End ring.
