(* ===== verification/DpsAlloc.v ===== *)
(** * The log buffer: reserving room, and begin LSNs

    Pages are numbered along the log: page [P] holds the positions from
    [P * PS] on and sits in slot [P mod N] of the ring.  [_allocate] advances
    a cursor, [_push2SendQueue] hands the pages it has filled to the flusher,
    and the begin LSN of a page is that of the first record that starts in
    it, by which [_getStartLsn] finds the oldest record of the buffer. *)

From stdpp Require Import base list option.
From Stdlib Require Import ZArith Lia Sorted.
From S2P Require Import Prelude DpsLsn Mem DpsRecord DpsBuffer DpsRing.

Open Scope Z_scope.

Section alloc.
Context (PS N : Z) (HPS : 0 < PS) (HN : 2 <= N) (HT : N * PS < 2 ^ 31).

Lemma mod_inj_window a b : a mod N = b mod N -> - N < a - b < N -> a = b.
Proof.
  intros H Hd. pose proof (Z.div_mod a N ltac:(lia)). pose proof (Z.div_mod b N ltac:(lia)).
  set (k := a / N - b / N). assert (a - b = N * k) by lia. assert (k = 0) by nia. nia.
Qed.

(** How much of page [P] is allocated when the cursor is at [C]. *)
Definition fill (C P : Z) : Z := Z.max 0 (Z.min PS (C - P * PS)).

Definition len_at (m : dpsReplicaLogMgr) (P : Z) : option Z :=
  p ← rd (_pages m) (P mod N); Some (_mbLength p).

Definition begin_at (m : dpsReplicaLogMgr) (i : Z) : option DPS_LSN :=
  p ← rd (_pages m) i; Some (_beginLSN p).

Definition first_page (C : Z) : Z := Z.max 0 (C / PS - N + 1).

(** The ring with its cursor at [C]; page [F] is the first that is not
    flushed. *)
Record ring_at (m : dpsReplicaLogMgr) (C F : Z) : Prop := {
  ra_static : static PS N m;
  ra_low : 0 <= F <= C / PS;
  ra_high : C <= (F + N) * PS;
  ra_work : _work m = (C / PS) mod N;
  ra_begin : _begin m = first_page C mod N;
  ra_roll : _rollFlag m = (1 <=? C / PS);
  ra_len : forall P, F <= P < F + N -> len_at m P = Some (fill C P)
}.

(** Only the pages and the position in the ring differ. *)
Definition same_but_ring (m m' : dpsReplicaLogMgr) : Prop :=
  m' = set_ring (set_pages m (_pages m')) (_work m') (_begin m') (_rollFlag m').

(** The bytes of the pages are the same. *)
Definition same_bytes (m m' : dpsReplicaLogMgr) : Prop :=
  forall i, (_mb <$> rd (_pages m') i) = (_mb <$> rd (_pages m) i).

Lemma same_bytes_at m m' x : same_bytes m m' -> byte_at PS N (_pages m') x = byte_at PS N (_pages m) x.
Proof.
  intros H. unfold byte_at. specialize (H (slot PS N x)).
  destruct (rd (_pages m') _), (rd (_pages m) _); cbn in *; simplify_eq; [|done].
  congruence.
Qed.

(** The cursor moves to the next page. *)
Lemma next_page_ok m C :
  static PS N m -> 0 <= C -> C mod PS = 0 -> 1 <= C / PS ->
  _work m = (C / PS - 1) mod N -> _begin m = Z.max 0 (C / PS - N) mod N ->
  _rollFlag m = (1 <=? C / PS - 1) ->
  let m' := next_page m in
  m' = set_ring m ((C / PS) mod N) (first_page C mod N) (1 <=? C / PS).
Proof.
  intros Hst HC Hm H1 Hw Hb Hr m'. subst m'. unfold next_page, first_page.
  pose proof (Z.mod_pos_bound (C / PS - 1) N ltac:(lia)).
  rewrite (incPageID_slot PS N HPS HN HT) by (done || lia). rewrite Hw, Hb, Hr.
  rewrite Z.add_mod_idemp_l by lia. replace (C / PS - 1 + 1) with (C / PS) by lia.
  set (W := C / PS) in *.
  destruct (Z.leb_spec 1 W); [|lia].
  destruct (Z.leb_spec 1 (W - 1)); cbn [negb andb].
  - destruct (Z.leb_spec N W).
    + replace (Z.max 0 (W - N)) with (W - N) by lia. replace (Z.max 0 (W - N + 1)) with (W - N + 1) by lia.
      replace ((W - N) mod N) with (W mod N)
        by (replace (W - N) with (W + (-1) * N) by lia; by rewrite Z.mod_add by lia).
      rewrite Z.eqb_refl. cbn [andb].
      pose proof (Z.mod_pos_bound W N ltac:(lia)).
      rewrite (incPageID_slot PS N HPS HN HT) by (done || lia). rewrite Z.add_mod_idemp_l by lia.
      replace (W - N + 1) with (W + 1 + (-1) * N) by lia. rewrite Z.mod_add by lia.
      done.
    + replace (Z.max 0 (W - N)) with 0 by lia. replace (Z.max 0 (W - N + 1)) with 0 by lia.
      rewrite (Z.mod_small W), (Z.mod_small 0) by lia.
      destruct (Z.eqb_spec 0 W); [lia|]. cbn [andb]. done.
  - assert (W = 1) by lia. replace (Z.max 0 (W - N)) with 0 by lia. replace (Z.max 0 (W - N + 1)) with 0 by lia.
    rewrite (Z.mod_small W), (Z.mod_small 0) by lia.
    destruct (Z.eqb_spec 0 W); [lia|]. done.
Qed.

Lemma div_bounds C : PS * (C / PS) <= C < PS * (C / PS) + PS.
Proof. pose proof (Z.div_mod C PS ltac:(lia)). pose proof (Z.mod_pos_bound C PS HPS). lia. Qed.

Lemma fill_work C : fill C (C / PS) = C mod PS.
Proof. unfold fill. pose proof (Z.div_mod C PS ltac:(lia)). pose proof (Z.mod_pos_bound C PS HPS). lia. Qed.

(** One round of [_allocate]. *)
Lemma allocate_round m C F c b :
  ring_at m C F -> 0 < c <= PS - C mod PS -> C < (F + N) * PS ->
  exists p m1, rd (_pages m) (_work m) = Some p /\ _mbLength p = C mod PS /\
    let p1 := writePtr (setBeginLSN p b) (c + _mbLength p) in
    let m2 := if 0 =? lastSize PS p1 then next_page m1 else m1 in
    set_page m (_work m) p1 = Some m1 /\
    ring_at m2 (C + c) F /\ same_but_ring m m2 /\ same_bytes m m2 /\
    (forall i, begin_at m2 i = if i =? (C / PS) mod N then Some b else begin_at m i).
Proof.
  intros [Hst Hlo Hhi Hw Hb Hr Hlen] Hc HC. pose proof (Z.mod_pos_bound C PS HPS) as Hm.
  pose proof (div_bounds C) as HdC. pose proof (Z.mod_pos_bound (C / PS) N ltac:(lia)) as Hs.
  destruct (static_page PS N m ((C / PS) mod N) Hst Hs) as (p & Hp & Hpl).
  assert (HW : F <= C / PS < F + N) by nia. assert (0 <= C) by nia.
  assert (Hpm : _mbLength p = C mod PS).
  { specialize (Hlen _ HW). unfold len_at in Hlen. rewrite Hp, fill_work in Hlen. cbn in Hlen. congruence. }
  set (p1 := writePtr (setBeginLSN p b) (c + _mbLength p)).
  destruct (set_page_ok PS N m (_work m) p1) as (m1 & Hm1 & Hrest & Hst1 & Hrd); [done|rewrite Hw; done|done|].
  exists p, m1. rewrite Hw at 1. split; [done|]. split; [done|]. cbv zeta. split; [done|].
  rewrite Hw in Hrd. set (s := (C / PS) mod N) in *.
  assert (Hbytes : same_bytes m m1).
  { intros i. rewrite Hrd. destruct (Z.eqb_spec i s) as [->|]; [by rewrite Hp|done]. }
  assert (Hbeg : forall i, begin_at m1 i = if i =? s then Some b else begin_at m i).
  { intros i. unfold begin_at. rewrite Hrd. by destruct (Z.eqb_spec i s). }
  assert (Hlen1 : forall P, F <= P < F + N -> len_at m1 P = Some (fill (C + c) P)).
  { intros P HP. unfold len_at. rewrite Hrd. destruct (Z.eqb_spec (P mod N) s) as [E|Hne].
    - apply mod_inj_window in E; [|lia]. subst P. cbn. f_equal. rewrite Hpm. unfold fill.
      pose proof (Z.div_mod C PS ltac:(lia)). lia.
    - change (len_at m P = Some (fill (C + c) P)). rewrite Hlen by done. f_equal. unfold fill.
      pose proof (Z.div_mod C PS ltac:(lia)).
      destruct (Z.lt_trichotomy P (C / PS)) as [?|[->|?]]; [|by destruct Hne|].
      + assert (P * PS + PS <= PS * (C / PS)) by nia. lia.
      + assert (PS * (C / PS) + PS <= P * PS) by nia. lia. }
  unfold lastSize. subst p1. cbn [_mbLength writePtr]. rewrite Hpm.
  destruct (Z.eqb_spec 0 (PS - (c + C mod PS))) as [Efull|Hnf].
  - assert (Ec : c = PS - C mod PS) by lia. destruct (div_step PS HPS C) as [Ed Em].
    rewrite <- Ec in Ed, Em.
    rewrite (next_page_ok m1 (C + c)); [|done|lia|done|lia|..].
    + split; [constructor; cbn [_work _begin _rollFlag set_ring]|split; [|done]].
      * destruct Hst1. by constructor.
      * lia.
      * pose proof (Z.div_mod C PS ltac:(lia)). nia.
      * done.
      * done.
      * done.
      * exact Hlen1.
      * unfold same_but_ring. rewrite Hrest. done.
    + rewrite Hrest. cbn. rewrite Ed, Hw. f_equal. lia.
    + rewrite Hrest. cbn. rewrite Ed, Hb. unfold first_page. f_equal. lia.
    + rewrite Hrest. cbn. rewrite Ed, Hr. f_equal. lia.
  - destruct (div_same PS HPS C c) as [Ed Em]; [lia|lia|].
    split; [constructor|split; [|done]].
    + done.
    + lia.
    + pose proof (Z.div_mod C PS ltac:(lia)). nia.
    + rewrite Hrest. cbn. by rewrite Ed, Hw.
    + rewrite Hrest. cbn. unfold first_page. by rewrite Ed, Hb.
    + rewrite Hrest. cbn. by rewrite Ed, Hr.
    + exact Hlen1.
    + unfold same_but_ring. rewrite Hrest. cbn. by destruct m.
Qed.

Definition skipped (lsn : DPS_LSN) : DPS_LSN := mkLSN DPS_INVALID_LSN_OFFSET (lsn_version lsn).

(** The last page of the room of [n] bytes at [C]. *)
Definition last_page (C n : Z) : Z := (C + n - 1) / PS.

(** What the loop of [_allocate] leaves behind: the pages between the first
    and the last one of the room have no begin LSN. *)
Record allocated (C F need : Z) (b : DPS_LSN -> DPS_LSN) (m m' : dpsReplicaLogMgr) : Prop := {
  al_ring : ring_at m' (C + need) F;
  al_same : same_but_ring m m';
  al_bytes : same_bytes m m';
  al_first : begin_at m' ((C / PS) mod N) = b <$> begin_at m ((C / PS) mod N);
  al_middle : forall P, C / PS < P <= last_page C need -> begin_at m' (P mod N) = Some (skipped (m_lsn m));
  al_other : forall i, (forall P, C / PS <= P <= last_page C need -> P mod N <> i) ->
    begin_at m' i = begin_at m i
}.

Lemma same_but_ring_trans m1 m2 m3 : same_but_ring m1 m2 -> same_but_ring m2 m3 -> same_but_ring m1 m3.
Proof. unfold same_but_ring. intros H1 H2. rewrite H2, H1. done. Qed.

Lemma same_bytes_trans m1 m2 m3 : same_bytes m1 m2 -> same_bytes m2 m3 -> same_bytes m1 m3.
Proof. intros H1 H2 i. by rewrite H2, H1. Qed.

Lemma last_page_in C n : 0 < n <= PS - C mod PS -> last_page C n = C / PS.
Proof.
  intros H. unfold last_page. replace (C + n - 1) with (C + (n - 1)) by lia.
  apply (div_same PS HPS C (n - 1)); lia.
Qed.

Lemma allocate_loop_ok fuel : forall m C F need n,
  ring_at m C F -> 0 < need -> C + need <= (F + N) * PS -> 0 <= n ->
  last_page C need - C / PS < Z.of_nat fuel ->
  exists m', allocate_loop PS fuel m need n = Some (m', n + (last_page C need - C / PS + 1)) /\
    allocated C F need (allocate_begin PS (m_lsn m) (n + 1)) m m'.
Proof.
  induction fuel as [|fuel IH]; intros m C F need n Hr Hneed Hroom Hn Hfuel.
  { exfalso. assert (C / PS <= last_page C need) by (apply Z.div_le_mono; lia). lia. }
  pose proof (Z.mod_pos_bound C PS HPS) as Hm.
  set (c := if PS - C mod PS <? need then PS - C mod PS else need).
  assert (Hc : 0 < c <= need /\ c <= PS - C mod PS) by (subst c; case_Zb; lia).
  destruct (static_page PS N m (_work m) (ra_static _ _ _ Hr)) as (p & Hp & _).
  { rewrite (ra_work _ _ _ Hr). apply Z.mod_pos_bound. lia. }
  set (b := allocate_begin PS (m_lsn m) (n + 1) (_beginLSN p)).
  destruct (allocate_round m C F c b Hr) as (p' & m1 & Hp' & Hlp & H); [lia|lia|].
  rewrite Hp in Hp'. injection Hp' as <-. cbv zeta in H.
  cbn [allocate_loop]. rewrite Hp. cbn [mbind option_bind]. fold b.
  assert (Hls : lastSize PS (setBeginLSN p b) = PS - C mod PS) by (unfold lastSize; cbn; lia).
  rewrite Hls. cbn [setBeginLSN _mbLength]. rewrite Hlp. fold c. rewrite Hlp in H.
  set (p1 := writePtr (setBeginLSN p b) (c + C mod PS)) in *.
  set (m2 := if 0 =? lastSize PS p1 then next_page m1 else m1) in *.
  destruct H as (Hset & Hr2 & Hs2 & Hb2 & Hbeg). rewrite Hset. cbn [mbind option_bind]. fold m2.
  assert (Hbp : begin_at m ((C / PS) mod N) = Some (_beginLSN p)).
  { unfold begin_at. rewrite <- (ra_work _ _ _ Hr), Hp. done. }
  assert (Hlsn : m_lsn m2 = m_lsn m) by (rewrite Hs2; done).
  destruct (Z.ltb_spec 0 (need - c)).
  - assert (Ec : c = PS - C mod PS) by (subst c; case_Zb; lia). destruct (div_step PS HPS C) as [Ed Em].
    rewrite <- Ec in Ed, Em. assert (El : last_page (C + c) (need - c) = last_page C need)
      by (unfold last_page; f_equal; lia).
    destruct (IH m2 (C + c) F (need - c) (n + 1)) as (m' & E & A); [done|lia|lia|lia|lia|].
    destruct A as [A1 A2 A3 A4 A5 A6]. exists m'. rewrite E, El, Ed in *. split; [do 2 f_equal; lia|].
    rewrite Hlsn in *.
    constructor.
    + replace (C + need) with (C + c + (need - c)) by lia. done.
    + eauto using same_but_ring_trans.
    + eauto using same_bytes_trans.
    + rewrite A6, Hbeg, Z.eqb_refl, Hbp; [done|]. intros P HP E'. apply mod_inj_window in E'; [lia|].
      destruct Hr as [_ ? ? _ _ _ _].
      assert (last_page C need <= F + N - 1) by (unfold last_page; apply Zlt_succ_le, Z.div_lt_upper_bound; lia).
      lia.
    + intros P HP. destruct (Z.eq_dec P (C / PS + 1)) as [->|].
      * rewrite A4. unfold allocate_begin. destruct (Z.eqb_spec 1 (n + 1 + 1)); [lia|].
        unfold begin_at. destruct (static_page PS N m2 ((C / PS + 1) mod N)) as (q & -> & _);
          [apply Hr2|apply Z.mod_pos_bound; lia|]. done.
      * rewrite A5 by lia. done.
    + intros i Hi. rewrite A6 by (intros P HP; apply Hi; lia). rewrite Hbeg.
      destruct (Z.eqb_spec i ((C / PS) mod N)) as [->|]; [|done]. exfalso. apply (Hi (C / PS)); [|done].
      assert (C / PS <= last_page C need) by (apply Z.div_le_mono; lia). lia.
  - assert (Ec : c = need) by lia. assert (El : last_page C need = C / PS) by (apply last_page_in; lia).
    rewrite El. exists m2. split; [do 2 f_equal; lia|]. rewrite Ec in *. constructor; try done.
    + rewrite Hbeg, Z.eqb_refl, Hbp. done.
    + intros P HP. lia.
    + intros i Hi. rewrite Hbeg. destruct (Z.eqb_spec i ((C / PS) mod N)) as [->|]; [|done].
      exfalso. apply (Hi (C / PS)); [lia|done].
Qed.

(** [_allocate] reserves consecutive positions. *)
Lemma allocate_ok m C F n :
  ring_at m C F -> 0 < n -> C + n <= (F + N) * PS ->
  exists m1, _allocate PS m n = Some (set_idle m1 (_idleSize m - n),
      mkMeta (C mod PS) (slot PS N C) (last_page C n - C / PS + 1) n) /\
    allocated C F n (allocate_begin PS (m_lsn m) 1) m m1.
Proof.
  intros Hr Hn Hroom. unfold _allocate.
  destruct (static_page PS N m (_work m) (ra_static _ _ _ Hr)) as (p & Hp & _).
  { rewrite (ra_work _ _ _ Hr). apply Z.mod_pos_bound. lia. }
  rewrite Hp. cbn [mbind option_bind]. pose proof (div_bounds C) as HdC.
  assert (HW : F <= C / PS < F + N) by (destruct Hr; nia).
  assert (last_page C n <= F + N - 1) by (unfold last_page; apply Zlt_succ_le, Z.div_lt_upper_bound; lia).
  destruct (allocate_loop_ok (S (S (length (_pages m)))) m C F n 0) as (m1 & E & A); [done|lia|lia|lia| |].
  { pose proof (st_len _ _ _ (ra_static _ _ _ Hr)). lia. }
  rewrite E. cbn [mbind option_bind]. exists m1. split; [|done]. destruct A as [_ A2 _ _ _ _].
  assert (Hi : _idleSize m1 = _idleSize m) by (rewrite A2; done).
  assert (Hpm : _mbLength p = C mod PS).
  { pose proof (ra_len _ _ _ Hr _ HW) as Hlen. unfold len_at in Hlen.
    rewrite <- (ra_work _ _ _ Hr), Hp, fill_work in Hlen. cbn in Hlen. congruence. }
  rewrite Hi, Hpm, (ra_work _ _ _ Hr). done.
Qed.

(** ** The queue of full pages *)

Definition slots (a b : Z) : list Z := (fun P => P mod N) <$> seqZ a (b - a).

Lemma slots_nil a b : b <= a -> slots a b = [].
Proof. intros. unfold slots. by rewrite seqZ_nil by lia. Qed.

Lemma slots_cons a b : a < b -> slots a b = a mod N :: slots (a + 1) b.
Proof.
  intros. unfold slots. rewrite seqZ_cons by lia. cbn. do 3 f_equal; lia.
Qed.

Lemma slots_app a b c : a <= b <= c -> slots a c = slots a b ++ slots b c.
Proof.
  intros. unfold slots. rewrite <- fmap_app. f_equal. replace (c - a) with ((b - a) + (c - b)) by lia.
  rewrite seqZ_app by lia. do 2 f_equal. lia.
Qed.

Lemma ring_at_ext m m' C F :
  ring_at m C F -> _pages m' = _pages m -> _pageNum m' = _pageNum m -> _work m' = _work m ->
  _begin m' = _begin m -> _rollFlag m' = _rollFlag m -> ring_at m' C F.
Proof.
  intros [[H1 H2 H3] ? ? ? ? ? H4] E1 E2 E3 E4 E5. unfold len_at in H4.
  constructor; try congruence; try done.
  - constructor; congruence.
  - intros P HP. unfold len_at. rewrite E1. by apply H4.
Qed.

Lemma push_loop_ok k : forall m C F P sub,
  ring_at m C F -> _restoreFlag m = false -> F <= P -> P + Z.of_nat k <= F + N ->
  sub mod N = P mod N -> 0 <= sub -> sub + Z.of_nat k <= 2 * N ->
  let e := Z.max P (Z.min (P + Z.of_nat k) (C / PS)) in
  push2SendQueue_loop PS k m sub = Some (set_queue m (_queue m ++ slots P e) (_queSize m + (e - P))).
Proof.
  induction k as [|k IH]; intros m C F P sub Hr Hres HFP HP Hsub H0 H2; cbn [push2SendQueue_loop]; cbv zeta.
  { rewrite slots_nil by lia. rewrite app_nil_r. replace (_queSize m + _) with (_queSize m) by lia. by destruct m. }
  rewrite (st_num _ _ _ (ra_static _ _ _ Hr)), PAGE_is_mod by (pose proof (N_bound PS N HPS HN HT); lia).
  rewrite Hsub. pose proof (ra_len _ _ _ Hr P ltac:(lia)) as Hlen. unfold len_at in Hlen.
  destruct (rd (_pages m) (P mod N)) as [p|]; [|done]. injection Hlen as Hlen. cbn [mbind option_bind].
  assert (Hnext : (sub + 1) mod N = (P + 1) mod N).
  { rewrite <- (Z.add_mod_idemp_l sub), <- (Z.add_mod_idemp_l P), Hsub by lia. done. }
  pose proof (div_bounds C) as HdC. unfold lastSize. rewrite Hlen, Hres. cbn [negb].
  destruct (Z.eqb_spec 0 (PS - fill C P)) as [Ef|Hnf]; cbn [mbind option_bind].
  - assert (P < C / PS) by (unfold fill in Ef; nia).
    erewrite (IH _ C F (P + 1)); [|eapply ring_at_ext; done|done|lia|lia|done|lia|lia].
    cbn [set_queue _queue _queSize]. rewrite (slots_cons P) by lia. rewrite <- app_assoc. cbn [app].
    f_equal. unfold set_queue. cbn. f_equal; [do 3 f_equal; lia|lia].
  - assert (C / PS <= P) by (unfold fill in Hnf; nia).
    erewrite (IH _ C F (P + 1)); [|done|done|lia|lia|done|lia|lia].
    rewrite !slots_nil by lia. f_equal. unfold set_queue. f_equal. lia.
Qed.
End alloc.

(** ** The log buffer: begin LSNs and rooms

    The begin LSN of every page of the window is the position of the first
    record that starts in it; reserving room keeps this, the queue of full
    pages and the count of free bytes in step with the cursor. *)

Section start.
Context (PS N : Z) (HPS : 0 < PS) (HN : 2 <= N) (HT : N * PS < 2 ^ 31).

(** The first of the ascending positions [S] that lies in page [P]. *)
Fixpoint first_in (S : list Z) (P : Z) : option Z :=
  match S with
  | [] => None
  | s :: S' => if s / PS =? P then Some s else first_in S' P
  end.

Lemma first_in_snoc S x P :
  first_in (S ++ [x]) P =
  match first_in S P with Some s => Some s | None => if x / PS =? P then Some x else None end.
Proof. induction S as [|s S IH]; cbn; [done|]. by destruct (s / PS =? P). Qed.

Lemma first_in_Some S P s : first_in S P = Some s -> s ∈ S /\ s / PS = P.
Proof.
  induction S as [|a S IH]; cbn; [done|]. destruct (Z.eqb_spec (a / PS) P).
  - intros [= <-]. split; [apply list_elem_of_here|done].
  - intros H. destruct (IH H). split; [by apply list_elem_of_further|done].
Qed.

Lemma first_in_None S P : first_in S P = None -> Forall (fun s => s / PS <> P) S.
Proof.
  induction S as [|a S IH]; cbn; [done|]. destruct (Z.eqb_spec (a / PS) P); [done|].
  intros H. constructor; auto.
Qed.

Lemma first_in_none S P : Forall (fun s => s / PS <> P) S -> first_in S P = None.
Proof.
  induction 1 as [|a S H _ IH]; cbn; [done|]. by destruct (Z.eqb_spec (a / PS) P).
Qed.

Lemma first_in_le S P s x : StronglySorted Z.lt S -> first_in S P = Some s -> x ∈ S -> x / PS = P -> s <= x.
Proof.
  induction 1 as [|a S _ IH Ha]; cbn; [done|]. intros H Hx Ex. destruct (Z.eqb_spec (a / PS) P).
  - injection H as <-. apply list.elem_of_cons in Hx as [->|Hx]; [lia|].
    rewrite list.Forall_forall in Ha. specialize (Ha x Hx). lia.
  - apply list.elem_of_cons in Hx as [->|Hx]; [done|]. by apply IH.
Qed.

(** What the begin LSN of page [P] says when the cursor is in page [W]: the
    page of the cursor may still have the one of a round before. *)
Definition begin_ok (W P : Z) (S : list Z) (l : DPS_LSN) : Prop :=
  match first_in S P with
  | Some s => lsn_offset l = s /\ lsn_version l <> 0
  | None => lsn_invalid l = true \/ (P = W /\ 0 <= lsn_offset l < (P - N + 1) * PS)
  end.

Definition begins (m : dpsReplicaLogMgr) (C : Z) (S : list Z) : Prop :=
  forall P, C / PS - N < P <= C / PS ->
    exists l, begin_at m (P mod N) = Some l /\ begin_ok (C / PS) P S l.

Definition positions (C : Z) (S : list Z) : Prop := Forall (fun s => 0 <= s < C) S.

Lemma lsn_valid_intro l : 0 <= lsn_offset l < 2 ^ 63 -> lsn_version l <> 0 -> lsn_invalid l = false.
Proof.
  intros H1 H2. unfold lsn_invalid, DPS_INVALID_LSN_OFFSET, DPS_INVALID_LSN_VERSION.
  destruct (Z.eqb_spec (2 ^ 64 - 1) (lsn_offset l)); [lia|]. destruct (Z.eqb_spec 0 (lsn_version l)); [lia|]. done.
Qed.

(** The first page of a room: its begin LSN is kept if it is of this round. *)
Lemma begin_first C S l lsn :
  positions C S -> 0 <= C < 2 ^ 63 -> lsn_offset lsn = C -> lsn_version lsn <> 0 ->
  begin_ok (C / PS) (C / PS) S l ->
  forall W', begin_ok W' (C / PS) (S ++ [C]) (allocate_begin PS lsn 1 l).
Proof.
  intros Hpos HC Ho Hv Hl W'. unfold begin_ok in *. rewrite first_in_snoc, Z.eqb_refl.
  unfold allocate_begin. rewrite Z.eqb_refl. pose proof (div_bounds PS HPS C) as Hd.
  destruct (first_in S (C / PS)) as [s|] eqn:E.
  - destruct Hl as [Hs Hlv]. apply first_in_Some in E as [Hin Ep].
    unfold positions in Hpos. rewrite list.Forall_forall in Hpos. specialize (Hpos s Hin). cbn in Hpos.
    rewrite lsn_valid_intro by lia. pose proof (div_bounds PS HPS s) as Hds. rewrite Ep in Hds.
    rewrite u64_small by lia. destruct (Z.ltb_spec PS (lsn_offset lsn - lsn_offset l)); [lia|]. done.
  - assert (lsn_invalid l || (PS <? u64 (lsn_offset lsn - lsn_offset l)) = true) as ->.
    { destruct Hl as [->|[_ Hst]]; [done|]. apply orb_true_iff. right. apply Z.ltb_lt.
      assert ((C / PS - N + 1) * PS <= C / PS * PS - PS) by nia. rewrite u64_small by lia. lia. }
    done.
Qed.

Lemma begins_allocated m m' C F n S :
  begins m C S -> positions C S -> 0 <= C < 2 ^ 63 -> 0 < n <= (N - 1) * PS ->
  lsn_offset (m_lsn m) = C -> lsn_version (m_lsn m) <> 0 ->
  allocated PS N C F n (allocate_begin PS (m_lsn m) 1) m m' ->
  begins m' (C + n) (S ++ [C]).
Proof.
  intros Hb Hpos HC Hn Ho Hv [_ _ _ A4 A5 A6] P HP.
  set (W := C / PS) in *. set (W' := (C + n) / PS) in *. set (l := last_page PS C n) in *.
  pose proof (div_bounds PS HPS C) as Hd1. pose proof (div_bounds PS HPS (C + n)) as Hd2.
  pose proof (div_bounds PS HPS (C + n - 1)) as Hd3. fold W in Hd1. fold W' in Hd2.
  change ((C + n - 1) / PS) with l in Hd3.
  assert (Hl : W <= l <= W' /\ W' <= l + 1) by nia. assert (HW : W' - W < N) by nia.
  assert (Hsmall : forall Q, W < Q -> first_in (S ++ [C]) Q = None).
  { intros Q HQ. apply first_in_none. apply list.Forall_app. split; [|constructor; [fold W; lia|done]].
    eapply list.Forall_impl; [exact Hpos|]. cbn. intros s Hs E. pose proof (div_bounds PS HPS s). nia. }
  assert (Hkeep : forall Q, l - N < Q < W \/ l < Q < W + N -> begin_at m' (Q mod N) = begin_at m (Q mod N)).
  { intros Q HQ. apply A6. intros R HR E. apply mod_inj_window in E; [lia|lia|lia]. }
  destruct (Z.lt_trichotomy P W) as [HPW|[->|HPW]].
  - rewrite Hkeep by lia. destruct (Hb P ltac:(lia)) as (b & Eb & Hok). exists b. split; [done|].
    unfold begin_ok in *. rewrite first_in_snoc. fold W. destruct (Z.eqb_spec W P); [lia|].
    destruct (first_in S P); [done|]. destruct Hok as [?|[? _]]; [by left|lia].
  - rewrite A4. destruct (Hb W ltac:(lia)) as (b & -> & Hok). eexists. split; [done|]. by apply begin_first.
  - unfold begin_ok. rewrite Hsmall by done. destruct (Z.le_gt_cases P l).
    + rewrite A5 by lia. eexists. split; [done|]. by left.
    + rewrite Hkeep by lia. assert (P = W') by lia.
      replace (P mod N) with ((P - N) mod N)
        by (replace (P - N) with (P + (-1) * N) by lia; by rewrite Z.mod_add by lia).
      destruct (Hb (P - N) ltac:(lia)) as (b & Eb & Hok). exists b. split; [done|]. unfold begin_ok in Hok.
      destruct (first_in S (P - N)) as [s|] eqn:Es.
      * destruct Hok as [Hs _]. apply first_in_Some in Es as [Hin Es]. right. split; [done|].
        unfold positions in Hpos. rewrite list.Forall_forall in Hpos. specialize (Hpos s Hin). cbn in Hpos.
        pose proof (div_bounds PS HPS s). rewrite Es in *. nia.
      * destruct Hok as [?|[? _]]; [by left|lia].
Qed.

(** Full pages that are not flushed have the begin LSN of this round. *)
Definition exact (m : dpsReplicaLogMgr) (C F : Z) (S : list Z) : Prop :=
  forall P, F <= P < C / PS -> exists l, begin_at m (P mod N) = Some l /\ begin_ok (P + 1) P S l.

Lemma exact_allocated m m' C F n S :
  begins m C S -> exact m C F S -> positions C S -> 0 <= C < 2 ^ 63 -> 0 < n <= (N - 1) * PS ->
  F <= C / PS -> C + n <= (F + N) * PS ->
  lsn_offset (m_lsn m) = C -> lsn_version (m_lsn m) <> 0 ->
  allocated PS N C F n (allocate_begin PS (m_lsn m) 1) m m' ->
  exact m' (C + n) F (S ++ [C]).
Proof.
  intros Hb Hx Hpos HC Hn HFC Hroom Ho Hv A P HP. set (W := C / PS) in *.
  pose proof (div_bounds PS HPS C) as Hd1. pose proof (div_bounds PS HPS (C + n)) as Hd2. fold W in Hd1.
  destruct (Z_lt_le_dec P W) as [HPW|HPW].
  - destruct (Hx P ltac:(lia)) as (l & E & Hok). exists l. destruct A as [_ _ _ _ _ A6]. rewrite A6.
    + split; [done|]. unfold begin_ok in *. rewrite first_in_snoc. fold W.
      destruct (Z.eqb_spec W P); [lia|]. by destruct (first_in S P).
    + intros Q HQ E'. pose proof (div_bounds PS HPS (C + n - 1)) as Hd3. fold (last_page PS C n) in Hd3.
      apply mod_inj_window in E'; [lia|lia|]. fold W in HQ. nia.
  - destruct (begins_allocated m m' C F n S Hb Hpos HC Hn Ho Hv A P) as (l & E & Hok); [nia|].
    exists l. split; [done|]. unfold begin_ok in *. destruct (first_in (S ++ [C]) P); [done|].
    destruct Hok as [?|[? _]]; [by left|lia].
Qed.

(** ** The oldest record of the buffer *)

Lemma startLsn_loop_ok k : forall m C F S P off,
  ring_at PS N m C F -> begins m C S -> positions C S -> C < 2 ^ 63 -> StronglySorted Z.lt S ->
  off ∈ S -> first_page PS N C <= P <= off / PS -> off / PS - P < Z.of_nat k ->
  exists l, startLsn_loop k m (P mod N) = Some l /\ lsn_invalid l = false /\
    P * PS <= lsn_offset l <= off /\ lsn_offset l ∈ S.
Proof.
  induction k as [|k IH]; intros m C F S P off Hr Hb Hpos HC Hs Hin HP Hk; [lia|].
  pose proof Hpos as Hpos'. unfold positions in Hpos'. rewrite list.Forall_forall in Hpos'.
  assert (Hoff : off / PS <= C / PS) by (apply Z.div_le_mono; [done|]; specialize (Hpos' off Hin); cbn in Hpos'; lia).
  unfold first_page in HP.
  destruct (Hb P ltac:(lia)) as (l & El & Hok). unfold begin_at in El.
  cbn [startLsn_loop]. rewrite (st_num _ _ _ (ra_static _ _ _ _ _ Hr)).
  pose proof (Z.mod_pos_bound P N ltac:(lia)) as Hm.
  rewrite PAGE_is_mod by (pose proof (N_bound PS N HPS HN HT); lia). rewrite (Z.mod_small (P mod N)) by lia.
  destruct (rd (_pages m) (P mod N)) as [p|]; [|done]. cbn [mbind option_bind] in *. injection El as El. rewrite El.
  unfold begin_ok in Hok. destruct (first_in S P) as [s|] eqn:Es.
  - destruct Hok as [Hso Hv]. pose proof (first_in_Some _ _ _ Es) as [Hsin Hsp].
    pose proof (Hpos' s Hsin) as Hsr. cbn in Hsr.
    rewrite lsn_valid_intro by lia. cbn [negb]. exists l. split; [done|]. split; [apply lsn_valid_intro; lia|].
    rewrite Hso. split; [|done]. pose proof (div_bounds PS HPS s). pose proof (div_bounds PS HPS off). rewrite Hsp in *.
    destruct (Z.eq_dec (off / PS) P) as [E|]; [pose proof (first_in_le _ _ _ _ Hs Es Hin E); lia|nia].
  - pose proof (first_in_None _ _ Es) as Hnone. rewrite list.Forall_forall in Hnone. specialize (Hnone off Hin).
    cbn in Hnone. destruct Hok as [->|[? _]]; [|lia]. cbn [negb].
    rewrite (ra_work _ _ _ _ _ Hr). destruct (Z.eqb_spec (P mod N) ((C / PS) mod N)) as [E|_].
    { apply mod_inj_window in E; [lia|lia|lia]. }
    destruct (Nat.eqb_spec k 0); [lia|]. rewrite (incPageID_slot PS N HPS HN HT) by (done || apply Hr).
    rewrite Z.add_mod_idemp_l by lia.
    destruct (IH m C F S (P + 1) off) as (l' & -> & H1 & H2 & H3); try done; [unfold first_page; lia|lia|].
    exists l'. split_and!; try done; nia.
Qed.

Lemma getStartLsn_ok m C F S off :
  ring_at PS N m C F -> begins m C S -> positions C S -> C < 2 ^ 63 -> StronglySorted Z.lt S ->
  off ∈ S -> first_page PS N C * PS <= off ->
  exists l, _getStartLsn m = Some l /\ lsn_invalid l = false /\
    first_page PS N C * PS <= lsn_offset l <= off /\ lsn_offset l ∈ S.
Proof.
  intros Hr Hb Hpos HC Hs Hin Hle. unfold _getStartLsn.
  rewrite (ra_begin _ _ _ _ _ Hr), (st_num _ _ _ (ra_static _ _ _ _ _ Hr)).
  eapply startLsn_loop_ok; try done.
  - split; [lia|]. apply Z.div_le_lower_bound; lia.
  - unfold positions in Hpos. rewrite list.Forall_forall in Hpos. specialize (Hpos off Hin). cbn in Hpos.
    assert (off / PS <= C / PS) by (apply Z.div_le_mono; lia). unfold first_page. lia.
Qed.

(** ** Rooms *)

(** The ring between two operations: free bytes and queue agree with the
    cursor [C] and the first page [F] that is not flushed. *)
Record ready (m : dpsReplicaLogMgr) (C F : Z) (S : list Z) : Prop := {
  rd_ring : ring_at PS N m C F;
  rd_idle : _idleSize m = (F + N) * PS - C;
  rd_queue : _queue m = slots N F (C / PS);
  rd_queSize : _queSize m = C / PS - F;
  rd_restore : _restoreFlag m = false;
  rd_total : _totalSize m = N * PS;
  rd_begins : begins m C S;
  rd_positions : positions C S;
  rd_sorted : StronglySorted Z.lt S;
  rd_exact : exact m C F S
}.

(** The LSNs and flags that room does not touch. *)
Definition same_lsns (m m' : dpsReplicaLogMgr) : Prop :=
  m_lsn m' = m_lsn m /\ _currentLsn m' = _currentLsn m /\ _lastCommitted m' = _lastCommitted m /\
  _incVersion m' = _incVersion m.

Lemma starts_sorted_snoc S x : StronglySorted Z.lt S -> Forall (fun s => s < x) S -> StronglySorted Z.lt (S ++ [x]).
Proof.
  induction 1 as [|a S H1 IH Ha]; intros Hx; cbn; [repeat constructor|].
  inversion_clear Hx. constructor; [auto|]. apply list.Forall_app. auto.
Qed.

Lemma reserve_waits m C F S n : ready m C F S -> (F + N) * PS - C < n -> reserve PS m n = Some None.
Proof. intros H Hn. unfold reserve. rewrite (rd_idle _ _ _ _ H). by case_Zb; [|lia]. Qed.

Lemma reserve_ok m C F S n :
  ready m C F S -> 0 < n <= (N - 1) * PS -> n <= (F + N) * PS - C -> C < 2 ^ 63 ->
  lsn_offset (m_lsn m) = C -> lsn_version (m_lsn m) <> 0 ->
  exists m', reserve PS m n =
      Some (Some (m', mkMeta (C mod PS) (slot PS N C) (last_page PS C n - C / PS + 1) n)) /\
    ready m' (C + n) F (S ++ [C]) /\ same_lsns m m' /\ same_bytes m m'.
Proof.
  intros [Hr Hi Hq Hqs Hre Ht Hb Hp Hs Hx] Hn Hroom HC Ho Hv. unfold reserve. rewrite Hi.
  destruct (Z.ltb_spec ((F + N) * PS - C) n); [lia|].
  destruct (allocate_ok PS N HPS HN HT m C F n Hr) as (m1 & -> & A); [lia|lia|].
  cbn [mbind option_bind]. pose proof A as A'. destruct A' as [A1 A2 A3 _ _ _].
  unfold same_but_ring in A2. set (m2 := set_idle m1 (_idleSize m - n)).
  assert (Hr2 : ring_at PS N m2 (C + n) F) by (eapply ring_at_ext; done).
  assert (0 <= C) by (destruct Hr; pose proof (div_bounds PS HPS C); nia).
  pose proof (div_bounds PS HPS C) as Hd1. pose proof (div_bounds PS HPS (C + n)) as Hd2.
  pose proof (div_bounds PS HPS (C + n - 1)) as Hd3. fold (last_page PS C n) in Hd3.
  set (k := last_page PS C n - C / PS + 1).
  assert (Hk : C / PS <= last_page PS C n <= (C + n) / PS /\ (C + n) / PS <= last_page PS C n + 1) by nia.
  assert (HF : F <= C / PS /\ last_page PS C n < F + N) by (destruct Hr; nia).
  assert (Hpush : _push2SendQueue PS m2 (mkMeta (C mod PS) (slot PS N C) k n)
            = Some (set_queue m2 (slots N F ((C + n) / PS)) ((C + n) / PS - F))).
  { unfold _push2SendQueue. cbn [beginSub pageNum]. pose proof (slot_range PS N HN C) as Hsl.
    erewrite (push_loop_ok PS N HPS HN HT _ _ (C + n) F (C / PS)); [|done|..].
    - rewrite Z2Nat.id by lia. replace (Z.max _ _) with ((C + n) / PS) by lia.
      subst m2. cbn [set_idle _queue _queSize]. rewrite A2. cbn [set_ring set_pages _queue _queSize].
      rewrite Hq, Hqs, <- slots_app by lia. do 2 f_equal. lia.
    - subst m2. cbn. rewrite A2. done.
    - lia.
    - lia.
    - unfold slot. by rewrite Z.mod_mod by lia.
    - lia.
    - lia. }
  rewrite Hpush. cbn [mbind option_bind]. eexists. split; [done|].
  split; [|split; [unfold same_lsns; subst m2; cbn; rewrite A2; done|done]].
  constructor; cbn [set_queue _queue _queSize _idleSize _restoreFlag _totalSize].
  - eapply ring_at_ext; done.
  - subst m2. cbn. lia.
  - done.
  - done.
  - subst m2. cbn. rewrite A2. done.
  - subst m2. cbn. rewrite A2. done.
  - change (begins m1 (C + n) (S ++ [C])). eapply begins_allocated; done.
  - apply list.Forall_app. split; [|repeat constructor; lia]. eapply list.Forall_impl; [exact Hp|]. cbn. lia.
  - apply starts_sorted_snoc; [done|]. eapply list.Forall_impl; [exact Hp|]. cbn. lia.
  - change (exact m1 (C + n) F (S ++ [C])). apply exact_allocated with (m := m); (done || lia).
Qed.
End start.
