(* ===== verification/DpsRun.v ===== *)
(** * The log buffer: sessions, the flusher and the log they build

    Sessions prepare records and write them later and in any order; the
    flusher takes full pages whose writers are done.  A world is the manager
    with what is going on around it: the blocks placed so far, in order, the
    prepared blocks that are not written yet, which hold shared locks on
    their pages, a session that waits in [preparePages] with the mutex taken,
    and the bytes handed to the log files. *)

From stdpp Require Import base list option.
From Stdlib Require Import ZArith Lia.
From S2P Require Import Prelude DpsLsn Mem DpsRecord DpsRecordFacts DpsBuffer DpsRing DpsAlloc.

Open Scope Z_scope.

Record world : Set := mkWorld {
  w_mgr : dpsReplicaLogMgr;
  w_log : list dpsMergeBlock;
  w_open : list dpsMergeInfo;
  w_pending : option dpsMergeInfo;
  w_file : list Z
}.

Definition dummies (i : dpsMergeInfo) : list dpsMergeBlock :=
  if hasDummy i then [_dummyBlock i] else [].

Definition blocks (i : dpsMergeInfo) : list dpsMergeBlock := dummies i ++ [_mergeBlock i].

(** The blocks whose pages are locked by their writers. *)
Definition open_blocks (w : world) : list dpsMergeBlock :=
  concat (map blocks (w_open w)) ++ match w_pending w with Some i => dummies i | None => [] end.

(** [SHARED_LOCK_NODES]: the pages of a room. *)
Definition room_covers (num : Z) (meta : dpsPageMeta) (i : Z) : bool :=
  existsb (fun j => PAGE num (beginSub meta + j) =? i) (seqZ 0 (pageNum meta)).

Definition locked (w : world) (i : Z) : bool :=
  existsb (fun b => room_covers (_pageNum (w_mgr w)) (_pageMeta b) i) (open_blocks w).

(** Log files that take every page. *)
Definition append_file (f mb : list Z) (len : Z) (_ : DPS_LSN) (_ : bool) : Z * list Z :=
  (SDB_OK, f ++ take (Z.to_nat len) mb).

Inductive action : Set :=
  | Prepare (i : dpsMergeInfo)
  | Resume
  | WriteData (k : nat)
  | Flush
  | IncVersion
  | CancelIncVersion.

Section run.
Context (PS FS : Z).

Definition after_prepare (w : world) (placed : dpsMergeInfo -> list dpsMergeBlock) (p : prepared)
    : option world :=
  match p with
  | Prepared rc m i _ =>
      if rc =? SDB_OK then Some (mkWorld m (w_log w ++ placed i) (w_open w ++ [i]) None (w_file w))
      else Some (mkWorld m (w_log w) (w_open w) None (w_file w))
  | Waits => Some w
  | WaitsPadding _ => None
  | WaitsRecord m i _ => Some w
  end.

(** One step.  [Prepare] does nothing while another session has the mutex,
    [Flush] while the page at the head of the queue is locked.  [None] is an
    access outside of a page, or a wait in the middle of the padding. *)
Definition act (w : world) (a : action) : option world :=
  match a with
  | Prepare i =>
      match w_pending w with
      | Some _ => Some w
      | None =>
          p ← preparePages PS FS (w_mgr w) i;
          match p with
          | WaitsRecord m i _ => Some (mkWorld m (w_log w ++ dummies i) (w_open w) (Some i) (w_file w))
          | _ => after_prepare w blocks p
          end
      end
  | Resume =>
      match w_pending w with
      | None => Some w
      | Some i => p ← place_record PS (w_mgr w) i []; after_prepare w (fun i => [_mergeBlock i]) p
      end
  | WriteData k =>
      match w_open w !! k with
      | None => Some w
      | Some i =>
          '(m, _) ← writeData PS false (w_mgr w) i;
          Some (mkWorld m (w_log w) (delete k (w_open w)) (w_pending w) (w_file w))
      end
  | Flush =>
      match _queue (w_mgr w) with
      | [] => Some w
      | i :: _ =>
          if locked w i then Some w
          else
            '(_, m, f) ← run_flush append_file (w_mgr w) (w_file w);
            Some (mkWorld m (w_log w) (w_open w) (w_pending w) f)
      end
  | IncVersion =>
      match w_pending w with
      | Some _ => Some w
      | None => Some (mkWorld (incVersion (w_mgr w)) (w_log w) (w_open w) None (w_file w))
      end
  | CancelIncVersion =>
      match w_pending w with
      | Some _ => Some w
      | None => Some (mkWorld (cancelIncVersion (w_mgr w)) (w_log w) (w_open w) None (w_file w))
      end
  end.

Fixpoint run (w : world) (acts : list action) : option world :=
  match acts with
  | [] => Some w
  | a :: acts' => w' ← act w a; run w' acts'
  end.

Definition init (n : Z) : world := mkWorld (mgr_init PS n) [] [] None [].

End run.
