(* ===== verification/DpsPlace.v ===== *)
(** * The log buffer: placing records

    What [preparePages] does with a block that fits: its place in the chain
    of records, the padding at the end of a log file, and the bytes that
    [_mergeLogs] will write for it. *)

From stdpp Require Import base list option.
From Stdlib Require Import ZArith Lia.
From S2P Require Import Prelude DpsLsn Mem DpsRecord DpsRecordFacts DpsBuffer DpsRing DpsAlloc DpsRun.

Open Scope Z_scope.

(** The bytes [_mergeLogs] writes for a block. *)
Definition block_bytes (b : dpsMergeBlock) : option (list Z) :=
  cs ← merge_chunks (_isRow b) (_record b); Some (concat cs).

Abbreviation off b := (_lsn (block_head b)).
Abbreviation size b := (_length (block_head b)).
Abbreviation pos m := (lsn_offset (m_lsn m)).
Abbreviation cur m := (lsn_offset (_currentLsn m)).

(** ** Contents *)

(** The contents of a block, whatever its place in the log. *)
Definition content_ok (b : dpsMergeBlock) : Prop :=
  if _isRow b then
    exists e d v, rd (_dataHeader (_record b)) 0 = Some e /\ rd (_data (_record b)) 0 = Some d /\
      chunk d (len e) = Some v /\ Z.of_nat (length v) = size b - 32 /\ head_ok (block_head b)
  else
    exists es, rep (_record b) es /\ Forall elem_ok es /\
      32 + Z.of_nat (length (body es)) <= size b < 2 ^ 31 /\
      (_type (block_head b) = LOG_TYPE_DUMMY \/ es <> []) /\
      0 <= _type (block_head b) < 2 ^ 16 /\ 0 <= _reserved1 (block_head b) < 2 ^ 16 /\
      0 <= _reserved2 (block_head b) < 2 ^ 32.

(** A placed block has a sound header and bytes that fit its room. *)
Definition bytes_fit (b : dpsMergeBlock) : Prop :=
  exists bs, block_bytes b = Some bs /\ head_bytes (block_head b) `prefix_of` bs /\
    Z.of_nat (length bs) <= size b /\ head_ok (block_head b).

Lemma dummy_bytes b :
  _isRow b = false -> _type (block_head b) = LOG_TYPE_DUMMY -> 32 <= size b -> head_ok (block_head b) ->
  bytes_fit b.
Proof.
  intros Hrow Hty Hl Hh. unfold bytes_fit, block_bytes, block_head in *. rewrite Hrow.
  unfold merge_chunks. rewrite Hty. cbn [mbind option_bind Z.eqb LOG_TYPE_DUMMY].
  eexists. split; [done|]. cbn [concat]. rewrite app_nil_r, head_bytes_length. split_and!; [done|lia|done].
Qed.

Lemma non_row_bytes b es :
  _isRow b = false -> rep (_record b) es -> Forall elem_ok es ->
  32 + Z.of_nat (length (body es)) <= size b < 2 ^ 31 ->
  _type (block_head b) = LOG_TYPE_DUMMY \/ es <> [] -> head_ok (block_head b) -> bytes_fit b.
Proof.
  intros Hrow Hr Hes Hl Hty Hh.
  destruct (Z.eq_dec (_type (block_head b)) LOG_TYPE_DUMMY) as [E|Hne]; [apply dummy_bytes; (done || lia)|].
  unfold bytes_fit, block_bytes, block_head in *. rewrite Hrow.
  unfold merge_chunks. set (h := _head (_record b)) in *.
  destruct (Z.eqb_spec LOG_TYPE_DUMMY (_type h)) as [E|_].
  - congruence.
  - destruct Hr as [Hn Hw Hd Hhd Ht]. rewrite Hd, Hhd.
    destruct (merge_elements_rep es (20 - length es) 0) as (cs & -> & Ecs); [done|lia|lia|].
    cbn [mbind option_bind]. eexists. split; [done|]. cbn [concat].
    split; [by apply prefix_app_r|]. split; [|done].
    rewrite concat_app, Ecs, !length_app, head_bytes_length. destruct Hty as [|Hne2]; [congruence|].
    assert (5 <= Z.of_nat (length (body es))).
    { destruct Hes as [|e es' He Hes']; [done|]. rewrite body_cons_length by done. destruct He. lia. }
    unfold DPS_RECORD_ELE_HEADER_LEN, sizeof_head.
    rewrite u64_small by lia. case_Zb; cbn [concat]; rewrite ?app_nil_r, ?length_replicate; cbn [length]; lia.
Qed.

Lemma row_bytes b : _isRow b = true -> content_ok b -> bytes_fit b.
Proof.
  unfold content_ok, bytes_fit, block_bytes, merge_chunks. intros ->.
  intros (e & d & v & -> & -> & E & Hl & Hh). cbn [mbind option_bind]. rewrite E. cbn [mbind option_bind].
  eexists. split; [done|]. cbn [concat]. split; [by apply prefix_app_r|]. split; [|done].
  rewrite app_nil_r, length_app, head_bytes_length. unfold block_head in *. lia.
Qed.

Section place.
Context (PS N FS : Z) (HPS : 0 < PS) (HN : 2 <= N) (HT : N * PS < 2 ^ 31).
Context (HFS : 64 < FS < 2 ^ 31) (HF4 : (4 | FS)).

(** ** Places *)

(** No record crosses the end of a log file, and what is left of the file
    after it is nothing or more than a header. *)
Definition file_rule (x n : Z) : Prop :=
  x / FS = (x + n - 1) / FS /\ ((x + n) mod FS = 0 \/ sizeof_head < FS - (x + n) mod FS).

Definition room (x n : Z) : dpsPageMeta :=
  mkMeta (x mod PS) (slot PS N x) (last_page PS x n - x / PS + 1) n.

(** Block [b] at position [x] after a record at [cur]. *)
Record link (x cur : Z) (b : dpsMergeBlock) : Prop := {
  lk_off : off b = x;
  lk_size : 32 <= size b <= (N - 1) * PS;
  lk_align : (4 | size b);
  lk_file : file_rule x (size b);
  lk_pre : _isRow b = false -> _preLsn (block_head b) = cur;
  lk_meta : _pageMeta b = room x (size b);
  lk_bytes : bytes_fit b
}.

(** The log up to position [x], with its last record at [cur]. *)
Inductive chain : list dpsMergeBlock -> Z -> Z -> Prop :=
  | chain_nil : chain [] 0 DPS_INVALID_LSN_OFFSET
  | chain_snoc log x cur b : chain log x cur -> link x cur b -> chain (log ++ [b]) (x + size b) x.

Lemma chain_end log x cur : chain log x cur ->
  0 <= x /\ (4 | x) /\ (x mod FS = 0 \/ sizeof_head < FS - x mod FS) /\ 0 <= cur < 2 ^ 64 \/ 2 ^ 64 <= x.
Proof.
  induction 1 as [|log x cur b Hc IH Hl]; [left; split_and!; [lia|by exists 0|by left|done|done]|].
  destruct Hl as [H1 H2 H3 [_ H4] H5 H6 H7]. destruct IH as [(I1 & I2 & I3 & I4)|?]; [|right; lia].
  destruct (Z_lt_le_dec x (2 ^ 64)); [left|right; lia].
  split_and!; [lia|by apply Z.divide_add_r|done|lia|lia].
Qed.

Lemma chain_in log x cur b : chain log x cur -> b ∈ log ->
  exists y cur', link y cur' b /\ y + size b <= x.
Proof.
  induction 1 as [|log x cur b' Hc IH Hl]; intros Hin; [by apply elem_of_nil in Hin|].
  destruct (lk_size _ _ _ Hl). apply elem_of_app in Hin as [Hin|Hin%list_elem_of_singleton].
  - destruct (IH Hin) as (y & cur' & ? & ?). exists y, cur'. split; [done|lia].
  - subst b'. exists x, cur. split; [done|lia].
Qed.

(** Two blocks do not overlap. *)
Lemma chain_apart log x cur b1 b2 : chain log x cur -> b1 ∈ log -> b2 ∈ log ->
  b1 = b2 \/ off b1 + size b1 <= off b2 \/ off b2 + size b2 <= off b1.
Proof.
  induction 1 as [|log x cur b Hc IH Hl]; intros H1 H2; [by apply elem_of_nil in H1|].
  pose proof (lk_off _ _ _ Hl) as Ho.
  apply elem_of_app in H1 as [H1|H1%list_elem_of_singleton], H2 as [H2|H2%list_elem_of_singleton].
  - auto.
  - subst b2. right; left. destruct (chain_in _ _ _ _ Hc H1) as (y & c & Hk & Hy). rewrite (lk_off _ _ _ Hk), Ho. lia.
  - subst b1. right; right. destruct (chain_in _ _ _ _ Hc H2) as (y & c & Hk & Hy). rewrite (lk_off _ _ _ Hk), Ho. lia.
  - left. congruence.
Qed.

(** ** The end of a log file *)

Lemma div_FS x : FS * (x / FS) + x mod FS = x /\ 0 <= x mod FS < FS.
Proof. pose proof (Z.div_mod x FS ltac:(lia)). pose proof (Z.mod_pos_bound x FS ltac:(lia)). lia. Qed.

Lemma mod_FS_unique x q r : x = FS * q + r -> 0 <= r < FS -> x / FS = q /\ x mod FS = r.
Proof. intros E Hr. split; symmetry; [eapply Z.div_unique|eapply Z.mod_unique]; eauto. Qed.

Lemma crosses_spec x n : 0 < n <= FS -> crosses FS x n = (FS <? x mod FS + n).
Proof.
  intros Hn. unfold crosses. destruct (div_FS x) as [Ex Hx].
  destruct (Z.ltb_spec FS (x mod FS + n)) as [H|H].
  - destruct (mod_FS_unique (x + n - 1) (x / FS + 1) (x mod FS + n - 1 - FS)) as [-> _]; [lia|lia|].
    destruct (Z.eqb_spec (x / FS) (x / FS + 1)); [lia|done].
  - destruct (mod_FS_unique (x + n - 1) (x / FS) (x mod FS + n - 1)) as [-> _]; [lia|lia|].
    by rewrite Z.eqb_refl.
Qed.

(** A record that ends in its file is extended to satisfy the rule. *)
Lemma extend_ok x n :
  0 <= x -> (4 | x) -> (4 | n) -> 32 <= n <= FS -> x mod FS + n <= FS ->
  let n' := extend_length FS x n in n <= n' <= n + 32 /\ n' <= FS /\ (4 | n') /\ file_rule x n'.
Proof.
  intros H0 Hx4 Hn4 Hn Hle n'. destruct (div_FS x) as [Ex Hx]. unfold file_rule, sizeof_head.
  assert (Hd : n' = if x mod FS + n =? FS then n else if x mod FS + n + 32 <? FS then n else FS - x mod FS).
  { subst n'. unfold extend_length, sizeof_head. destruct (Z.eqb_spec (x mod FS + n) FS).
    - destruct (mod_FS_unique (x + n) (x / FS + 1) 0) as [-> _]; [lia|lia|].
      destruct (mod_FS_unique (x + n + 32) (x / FS + 1) 32) as [-> _]; [lia|lia|]. by rewrite Z.eqb_refl.
    - destruct (mod_FS_unique (x + n) (x / FS) (x mod FS + n)) as [-> _]; [lia|lia|].
      destruct (Z.ltb_spec (x mod FS + n + 32) FS).
      + destruct (mod_FS_unique (x + n + 32) (x / FS) (x mod FS + n + 32)) as [-> _]; [lia|lia|]. by rewrite Z.eqb_refl.
      + destruct (mod_FS_unique (x + n + 32) (x / FS + 1) (x mod FS + n + 32 - FS)) as [-> _]; [lia|lia|].
        destruct (Z.eqb_spec (x / FS) (x / FS + 1)); [lia|]. by rewrite u32_small by lia. }
  assert (Hm4 : (4 | x mod FS)).
  { replace (x mod FS) with (x - FS * (x / FS)) by lia. apply Z.divide_sub_r; [done|]. by apply Z.divide_mul_l. }
  assert (Hn' : n <= n' <= n + 32 /\ x mod FS + n' <= FS /\ (4 | n') /\
                (x mod FS + n' = FS \/ x mod FS + n' + 32 < FS)).
  { rewrite Hd. case_Zb; [split_and!; try done; lia|]. case_Zb; [split_and!; try done; lia|].
    split_and!; try lia. by apply Z.divide_sub_r. }
  destruct Hn' as (N1 & N2 & N3 & N4). split_and!; try done; try lia.
  - destruct (mod_FS_unique (x + n' - 1) (x / FS) (x mod FS + n' - 1)) as [-> _]; lia.
  - destruct N4 as [N4|N4].
    + left. apply (mod_FS_unique (x + n') (x / FS + 1) 0); lia.
    + right. destruct (mod_FS_unique (x + n') (x / FS) (x mod FS + n')) as [_ ->]; lia.
Qed.

(** The padding fills the rest of the file. *)
Lemma padding_ok x n :
  0 <= x -> (4 | x) -> x mod FS = 0 \/ sizeof_head < FS - x mod FS -> 32 <= n <= FS -> FS < x mod FS + n ->
  let d := FS - x mod FS in
  u32 d = d /\ 32 < d < n /\ (4 | d) /\ file_rule x d /\ (x + d) mod FS = 0.
Proof.
  intros H0 Hx4 Hr Hn Hc d. destruct (div_FS x) as [Ex Hx]. unfold file_rule, sizeof_head in *.
  assert (Hm4 : (4 | x mod FS)).
  { replace (x mod FS) with (x - FS * (x / FS)) by lia. apply Z.divide_sub_r; [done|]. by apply Z.divide_mul_l. }
  destruct (mod_FS_unique (x + d) (x / FS + 1) 0) as [_ E]; [lia|lia|].
  destruct (mod_FS_unique (x + d - 1) (x / FS) (FS - 1)) as [E2 _]; [lia|lia|].
  rewrite E, E2. split_and!; try done; try lia.
  - apply u32_small. lia.
  - by apply Z.divide_sub_r.
Qed.

(** ** The manager with its log *)

(** The log ends where the next record goes; [V] bounds the version. *)
Record state (m : dpsReplicaLogMgr) (log : list dpsMergeBlock) (F V : Z) : Prop := {
  s_chain : chain log (pos m) (cur m);
  s_ready : ready PS N m (pos m) F (map (fun b => off b) log);
  s_ver : 0 <= lsn_version (m_lsn m) <= V
}.

Lemma ready_ext m m' C F S :
  ready PS N m C F S -> _pages m' = _pages m -> _pageNum m' = _pageNum m -> _work m' = _work m ->
  _begin m' = _begin m -> _rollFlag m' = _rollFlag m -> _idleSize m' = _idleSize m ->
  _queue m' = _queue m -> _queSize m' = _queSize m -> _restoreFlag m' = _restoreFlag m ->
  _totalSize m' = _totalSize m -> ready PS N m' C F S.
Proof.
  intros [H1 H2 H3 H4 H5 H6 H7 H8 H9 H10] E1 E2 E3 E4 E5 E6 E7 E8 E9 E10. constructor; try congruence.
  - by eapply ring_at_ext.
  - intros P HP. unfold begin_at. rewrite E1. exact (H7 P HP).
  - intros P HP. unfold begin_at. rewrite E1. exact (H10 P HP).
Qed.

(** Block [b] as the next one of the log. *)
Definition place_head (m : dpsReplicaLogMgr) (b : dpsMergeBlock) : dpsLogRecordHeader :=
  let h := block_head b in
  if _isRow b then h
  else mkHead (pos m) (cur m) (_length h) (lsn_version (m_lsn m)) (_type h) (_reserved1 h) (_reserved2 h).

Definition place_block (m : dpsReplicaLogMgr) (b : dpsMergeBlock) : dpsMergeBlock :=
  block_with_meta (block_with_head b (place_head m b)) (room (pos m) (size b)).

Record block_fits (m : dpsReplicaLogMgr) (b : dpsMergeBlock) : Prop := {
  ft_size : 32 <= size b <= (N - 1) * PS;
  ft_align : (4 | size b);
  ft_file : file_rule (pos m) (size b);
  ft_content : content_ok b;
  ft_row : _isRow b = true -> off b = pos m /\ 0 <= _version (block_head b) <= 2 ^ 31
}.

Lemma place_size m b : size (place_block m b) = size b.
Proof. unfold place_block, place_head. cbn. by destruct (_isRow b). Qed.

Lemma place_bytes m b :
  content_ok b -> 0 <= pos m < 2 ^ 64 -> 0 <= cur m < 2 ^ 64 -> 0 <= lsn_version (m_lsn m) < 2 ^ 32 ->
  bytes_fit (place_block m b).
Proof.
  intros Hc Hp Hcu Hv. pose proof Hc as Hc'. unfold content_ok in Hc.
  destruct (_isRow b) eqn:Er.
  - apply row_bytes; [done|]. unfold content_ok, place_block, place_head. cbn. by rewrite !Er.
  - destruct Hc as (es & Hr & Hes & Hl & Hty & Ht & Hr1 & Hr2).
    apply (non_row_bytes _ es); unfold place_block, place_head; cbn; rewrite ?Er; cbn; try done.
    + by apply rep_with_head.
    + constructor; cbn; try done; lia.
Qed.

Lemma place_link m b V log F :
  state m log F V -> V < 2 ^ 32 -> pos m < 2 ^ 63 -> block_fits m b -> link (pos m) (cur m) (place_block m b).
Proof.
  intros [Hc Hr Hv] HV HL [F1 F2 F3 F4 F5].
  destruct (chain_end _ _ _ Hc) as [(C1 & C2 & C3 & C4)|?]; [|lia].
  constructor; rewrite ?place_size; try done.
  - unfold place_block, place_head. cbn. destruct (_isRow b) eqn:E; [|done]. by apply F5.
  - unfold place_block, place_head. cbn. by intros ->.
  - apply place_bytes; [done|lia|done|lia].
Qed.

(** What one placed block changes. *)
Record placed (m m' : dpsReplicaLogMgr) (log : list dpsMergeBlock) (F V : Z) (b : dpsMergeBlock) : Prop := {
  pl_state : state m' (log ++ [b]) F V;
  pl_link : link (pos m) (cur m) b;
  pl_pos : pos m' = pos m + size b;
  pl_bytes : same_bytes m m'
}.

Lemma placed_intro m m1 m' log F V b :
  state m log F V -> link (pos m) (cur m) b -> 0 <= pos m -> pos m + size b < 2 ^ 63 ->
  ready PS N m1 (pos m + size b) F (map (fun b => off b) log ++ [pos m]) -> same_bytes m m1 ->
  m' = set_lsns m1 (m_lsn m') (_currentLsn m') -> pos m' = pos m + size b -> cur m' = pos m ->
  0 <= lsn_version (m_lsn m') <= V -> placed m m' log F V b.
Proof.
  intros [Hc Hr Hv] Hl H0 HL Hr1 Hb Em Hp Hcu Hv'. constructor; [|done|done|].
  - constructor; [|  |done].
    + rewrite Hp, Hcu. by eapply chain_snoc.
    + rewrite Hp, map_app. cbn [map]. rewrite (lk_off _ _ _ Hl). rewrite Em. by eapply ready_ext.
  - rewrite Em. done.
Qed.

Lemma place_record_ok m log F V i nt :
  state m log F V -> 2 ^ 31 <= V < 2 ^ 32 -> lsn_version (m_lsn m) <> 0 -> pos m + N * PS < 2 ^ 63 ->
  block_fits m (_mergeBlock i) ->
  let b := place_block m (_mergeBlock i) in
  if size (_mergeBlock i) <=? (F + N) * PS - pos m then
    exists m', place_record PS m i nt =
        Some (Prepared SDB_OK m' (mkInfo b (_dummyBlock i) (_needNty i)) (nt ++ announced i b)) /\
      placed m m' log F V b
  else place_record PS m i nt = Some (WaitsRecord m i nt).
Proof.
  intros Hs HV Hv0 HL Hf b. pose proof Hs as [Hc Hr Hv].
  pose proof (place_link m _ V log F Hs ltac:(lia) ltac:(lia) Hf) as Hlink. fold b in Hlink.
  destruct (chain_end _ _ _ Hc) as [(C1 & C2 & C3 & C4)|?]; [|lia].
  pose proof (ft_size _ _ Hf) as Hsz. pose proof (place_size m (_mergeBlock i)) as Esz. fold b in Esz.
  unfold place_record. destruct (Z.leb_spec (size (_mergeBlock i)) ((F + N) * PS - pos m)) as [Hle|Hgt].
  - destruct (reserve_ok PS N HPS HN HT m (pos m) F _ (size (_mergeBlock i)) Hr)
      as (m1 & -> & Hr1 & (L1 & L2 & L3 & L4) & Hb1); [lia|lia|lia|done|done|].
    cbn [mbind option_bind]. rewrite L1, L2.
    fold (place_head m (_mergeBlock i)). fold (room (pos m) (size (_mergeBlock i))).
    fold (place_block m (_mergeBlock i)). fold b.
    eexists. split; [done|].
    assert (El : _length (place_head m (_mergeBlock i)) = size (_mergeBlock i)).
    { unfold place_head. by destruct (_isRow _). }
    eapply (placed_intro m m1); [done|done|lia|lia|rewrite Esz; done|done|done|..];
      cbn [m_lsn _currentLsn set_lsns lsn_offset lsn_version].
    + rewrite El, Esz, u64_small; destruct (_isRow _); cbn; lia.
    + by destruct (_isRow _).
    + destruct (_isRow _) eqn:E; cbn; [|lia]. unfold place_head. rewrite E. pose proof (ft_row _ _ Hf E). lia.
  - rewrite (reserve_waits PS N m (pos m) F _ _ Hr) by lia. done.
Qed.

(** ** [preparePages] *)

(** A block that a caller may hand to [preparePages]. *)
Record info_ok (i : dpsMergeInfo) : Prop := {
  io_dummy : 0 <= _reserved1 (block_head (_dummyBlock i)) < 2 ^ 16 /\
             0 <= _reserved2 (block_head (_dummyBlock i)) < 2 ^ 32;
  io_size : 32 <= size (_mergeBlock i);
  io_align : (4 | size (_mergeBlock i));
  io_content : content_ok (_mergeBlock i);
  io_fresh : _isRow (_mergeBlock i) = false ->
    size (_mergeBlock i) + 32 <= (N - 1) * PS /\ size (_mergeBlock i) <= FS;
  io_row : _isRow (_mergeBlock i) = true ->
    size (_mergeBlock i) <= (N - 1) * PS /\ file_rule (off (_mergeBlock i)) (size (_mergeBlock i)) /\
    0 <= _version (block_head (_mergeBlock i)) <= 2 ^ 31
}.

(** The blocks [bs] were added to the log. *)
Record added (m m' : dpsReplicaLogMgr) (log : list dpsMergeBlock) (F V : Z) (bs : list dpsMergeBlock)
    : Prop := {
  ad_state : state m' (log ++ bs) F V;
  ad_pos : pos m <= pos m' <= pos m + 2 * FS;
  ad_new : Forall (fun b => pos m <= off b /\ off b + size b <= pos m') bs;
  ad_bytes : same_bytes m m'
}.

Lemma link_size_FS x c b : link x c b -> size b <= FS.
Proof.
  intros Hl. destruct (lk_file _ _ _ Hl) as [E _]. pose proof (lk_size _ _ _ Hl).
  destruct (div_FS x), (div_FS (x + size b - 1)). rewrite <- E in *. lia.
Qed.

Lemma added_nil m log F V : state m log F V -> added m m log F V [].
Proof. intros. constructor; rewrite ?app_nil_r; try done; lia. Qed.

Lemma added_snoc m m1 m2 log F V bs b :
  added m m1 log F V bs -> pos m1 <= pos m + FS -> placed m1 m2 (log ++ bs) F V b ->
  added m m2 log F V (bs ++ [b]).
Proof.
  intros [A1 A2 A3 A4] Hp [P1 P2 P3 P4]. pose proof (link_size_FS _ _ _ P2). pose proof (lk_size _ _ _ P2).
  constructor.
  - by rewrite app_assoc.
  - lia.
  - apply list.Forall_app. split; [|].
    + eapply list.Forall_impl; [exact A3|]. cbn. lia.
    + repeat constructor; rewrite (lk_off _ _ _ P2); lia.
  - by eapply same_bytes_trans.
Qed.

Lemma next_version_ok m log F V :
  state m log F V -> V + 1 < 2 ^ 32 ->
  state (next_version m) log F (V + 1) /\ lsn_version (m_lsn (next_version m)) <> 0 /\
  pos (next_version m) = pos m /\ _pages (next_version m) = _pages m.
Proof.
  intros [Hc Hr Hv] HV. unfold next_version, DPS_INVALID_LSN_VERSION.
  destruct (Z.eqb_spec 0 (lsn_version (m_lsn m))) as [E|Hne]; cbn [orb].
  - split; [|split; [|done]]; [constructor; cbn [m_lsn _currentLsn set_incVersion set_lsns lsn_offset lsn_version]|].
    + done.
    + by eapply ready_ext.
    + rewrite <- E. rewrite u32_small by lia. lia.
    + cbn. rewrite <- E. done.
  - destruct (_incVersion m).
    + split; [|split; [|done]]; [constructor; cbn [m_lsn _currentLsn set_incVersion set_lsns lsn_offset lsn_version]|].
      * done.
      * by eapply ready_ext.
      * rewrite u32_small by lia. lia.
      * cbn. rewrite u32_small by lia. lia.
    + split_and!; try done. constructor; [done|done|lia].
Qed.

Lemma room_valid x n : 0 < n -> 0 <= x -> meta_valid (room x n) = true.
Proof.
  intros Hn Hx. unfold meta_valid, room. cbn [pm_offset beginSub pageNum totalLen]. pose proof (Z.mod_pos_bound x PS HPS).
  pose proof (slot_range PS N HN x).
  assert (x / PS <= last_page PS x n) by (apply Z.div_le_mono; lia).
  destruct (Z.eqb_spec (-1) (x mod PS)); [lia|]. destruct (Z.eqb_spec (-1) (slot PS N x)); [lia|].
  destruct (Z.eqb_spec 0 (last_page PS x n - x / PS + 1)); [lia|].
  destruct (Z.eqb_spec 0 n); [lia|done].
Qed.

Definition padding (b : dpsMergeBlock) : Prop := _type (block_head b) = LOG_TYPE_DUMMY /\ _isRow b = false.

Lemma pad_file_ok m log F V d n :
  state m log F V -> 2 ^ 31 <= V < 2 ^ 32 -> lsn_version (m_lsn m) <> 0 -> pos m + N * PS < 2 ^ 63 ->
  32 <= n <= FS -> n <= (N - 1) * PS -> FS < pos m mod FS + n -> n <= (F + N) * PS - pos m ->
  _isRow d = false -> 0 <= _reserved1 (block_head d) < 2 ^ 16 -> 0 <= _reserved2 (block_head d) < 2 ^ 32 ->
  exists m' d', pad_file PS FS m d = Some (Some (m', d')) /\ placed m m' log F V d' /\
    pos m' mod FS = 0 /\ lsn_version (m_lsn m') = lsn_version (m_lsn m) /\
    meta_valid (_pageMeta d') = true /\ 32 < size d' < n /\ padding d'.
Proof.
  intros Hs HV Hv0 HL Hn HnN Hcr Hroom Hrow H1 H2. pose proof Hs as [Hc Hr Hv].
  destruct (chain_end _ _ _ Hc) as [(C1 & C2 & C3 & C4)|?]; [|lia].
  destruct (padding_ok (pos m) n C1 C2 C3 Hn Hcr) as (E32 & Hd & Hd4 & Hrule & Hend).
  set (z := FS - pos m mod FS) in *. unfold pad_file. fold z. rewrite E32.
  destruct (reserve_ok PS N HPS HN HT m (pos m) F _ z Hr)
    as (m1 & -> & Hr1 & (L1 & L2 & L3 & L4) & Hb1); [lia|lia|lia|done|done|].
  cbn [mbind option_bind]. rewrite L2. fold (room (pos m) z).
  set (h := mkHead (pos m) (cur m) z (lsn_version (m_lsn m)) LOG_TYPE_DUMMY _ _).
  set (d' := block_with_meta (block_with_head d h) (room (pos m) z)).
  set (m' := set_lsns m1 _ _). exists m', d'. split; [done|].
  assert (Hlink : link (pos m) (cur m) d').
  { constructor; try done; [cbn; lia|]. apply dummy_bytes; [done|done|cbn; lia|].
    constructor; cbn; try done; lia. }
  assert (Ep : pos m' = pos m + size d') by (cbn; rewrite u64_small by lia; done).
  split; [|split_and!].
  - eapply (placed_intro m m1); try done; cbn; lia.
  - rewrite Ep. done.
  - done.
  - cbn. apply room_valid; lia.
  - cbn. lia.
  - cbn. lia.
  - by split.
Qed.

(** The record of [b0] with another header, perhaps made longer. *)
Record same_record (b0 b : dpsMergeBlock) : Prop := {
  sr_row : _isRow b = _isRow b0;
  sr_record : with_head (_record b) (block_head b0) = _record b0;
  sr_type : _type (block_head b) = _type (block_head b0);
  sr_size : size b0 <= size b <= size b0 + 32
}.

Lemma with_head_back r h : with_head (with_head r h) (_head r) = r.
Proof. by destruct r. Qed.

Lemma same_record_place b0 b m : same_record b0 b -> same_record b0 (place_block m b).
Proof.
  intros [S1 S2 S3 S4]. constructor; [done|done| |by rewrite place_size].
  unfold place_block, place_head. cbn. by destruct (_isRow b).
Qed.

(** The outcomes of [preparePages]: a refused block changes nothing, a placed
    one is added to the log, and a session can only wait with nothing done or
    with the padding placed and a record that fits. *)
Inductive prepare_ok (m : dpsReplicaLogMgr) (log : list dpsMergeBlock) (F V : Z) (b0 : dpsMergeBlock)
    : prepared -> Prop :=
  | po_refused rc i nt : rc <> SDB_OK -> prepare_ok m log F V b0 (Prepared rc m i nt)
  | po_waits : prepare_ok m log F V b0 Waits
  | po_done m' i nt :
      added m m' log F V (blocks i) -> Forall padding (dummies i) -> same_record b0 (_mergeBlock i) ->
      prepare_ok m log F V b0 (Prepared SDB_OK m' i nt)
  | po_pending m' i nt :
      Forall padding (dummies i) -> same_record b0 (_mergeBlock i) ->
      added m m' log F V (dummies i) -> pos m' <= pos m + FS -> block_fits m' (_mergeBlock i) ->
      lsn_version (m_lsn m') <> 0 -> (F + N) * PS - pos m' < size (_mergeBlock i) ->
      (hasDummy i = true -> pos m' = off (_dummyBlock i) + size (_dummyBlock i)) ->
      prepare_ok m log F V b0 (WaitsRecord m' i nt).

Lemma content_with_length b n :
  _isRow b = false -> content_ok b -> size b <= n < 2 ^ 31 ->
  content_ok (block_with_head b (with_length (block_head b) n)).
Proof.
  unfold content_ok. cbn. intros -> (es & H1 & H2 & H3 & H4 & H5 & H6 & H7) Hn. exists es.
  split; [by apply rep_with_head|]. split; [done|]. cbn. split; [lia|]. done.
Qed.

(** The last stretch, from a state [m1] with the padding [bs] placed. *)
Lemma finish_ok m m1 log F V b0 i nt :
  Forall padding (dummies i) -> same_record b0 (_mergeBlock i) ->
  added m m1 log F V (dummies i) -> pos m1 <= pos m + FS -> 2 ^ 31 <= V < 2 ^ 32 ->
  lsn_version (m_lsn m1) <> 0 -> pos m1 + N * PS < 2 ^ 63 ->
  (hasDummy i = true -> pos m1 = off (_dummyBlock i) + size (_dummyBlock i)) -> block_fits m1 (_mergeBlock i) ->
  exists o, place_record PS m1 i nt = Some o /\ prepare_ok m log F V b0 o.
Proof.
  intros Hpad Hsr Ha Hp HV Hv HL Hd Hf. pose proof (ad_state _ _ _ _ _ _ Ha) as Hs.
  pose proof (place_record_ok m1 _ F V i nt Hs HV Hv HL Hf) as Hpl. cbv zeta in Hpl.
  destruct (Z.leb_spec (size (_mergeBlock i)) ((F + N) * PS - pos m1)).
  - destruct Hpl as (m' & -> & Hpl). eexists. split; [done|]. apply po_done.
    + unfold blocks. cbn [_mergeBlock]. by eapply added_snoc.
    + done.
    + cbn [_mergeBlock]. by apply same_record_place.
  - rewrite Hpl. eexists. split; [done|]. by apply po_pending.
Qed.

Lemma extend_finish_ok m m1 log F V b0 i nt :
  Forall padding (dummies i) -> block_head (_mergeBlock i) = block_head b0 -> _record (_mergeBlock i) = _record b0 ->
  _isRow b0 = false -> added m m1 log F V (dummies i) -> pos m1 <= pos m + FS -> 2 ^ 31 <= V < 2 ^ 32 ->
  lsn_version (m_lsn m1) <> 0 -> pos m1 + N * PS < 2 ^ 63 ->
  (hasDummy i = true -> pos m1 = off (_dummyBlock i) + size (_dummyBlock i)) ->
  _isRow (_mergeBlock i) = false -> 32 <= size (_mergeBlock i) -> (4 | size (_mergeBlock i)) ->
  content_ok (_mergeBlock i) -> size (_mergeBlock i) + 32 <= (N - 1) * PS ->
  size (_mergeBlock i) <= FS -> pos m1 mod FS + size (_mergeBlock i) <= FS ->
  exists o, extend_and_place PS FS m1 i nt = Some o /\ prepare_ok m log F V b0 o.
Proof.
  intros Hpad Hh0 Hr0 Hrow0 Ha Hp HV Hv HL Hd Hrow H1 H2 H3 H4 H5 H6. unfold extend_and_place.
  destruct (chain_end _ _ _ (s_chain _ _ _ _ (ad_state _ _ _ _ _ _ Ha))) as [(C1 & C2 & _)|?]; [|lia].
  destruct (extend_ok (pos m1) (size (_mergeBlock i)) C1 C2 H2 ltac:(lia) H6) as (X1 & X2 & X3 & X4).
  set (n := extend_length FS (pos m1) (size (_mergeBlock i))) in *.
  apply finish_ok with (m := m); try done.
  - constructor; [cbn; congruence| |cbn; congruence|cbn; rewrite <- Hh0; lia].
    cbn. rewrite Hr0. apply with_head_back.
  - constructor; cbn; try done; try lia; [apply content_with_length; (done || nia)|by rewrite Hrow].
Qed.

(** The information [preparePages] works on. *)
Definition info_clear (i : dpsMergeInfo) : dpsMergeInfo :=
  mkInfo (block_with_meta (_mergeBlock i) (meta_clear (_pageMeta (_mergeBlock i))))
         (block_clear (_dummyBlock i)) (_needNty i).

Lemma info_clear_no_dummy i : hasDummy (info_clear i) = false.
Proof.
  unfold hasDummy, info_clear. cbn [_dummyBlock _pageMeta block_clear]. unfold meta_clear.
  destruct (Z.eqb_spec (-1) (pm_offset (_pageMeta (_dummyBlock i)))) as [E|]; [|done].
  cbn [negb]. unfold meta_valid. by rewrite <- E.
Qed.

Lemma clear_reserved d :
  0 <= _reserved1 (block_head d) < 2 ^ 16 /\ 0 <= _reserved2 (block_head d) < 2 ^ 32 ->
  0 <= _reserved1 (block_head (block_clear d)) < 2 ^ 16 /\
  0 <= _reserved2 (block_head (block_clear d)) < 2 ^ 32.
Proof.
  intros H. unfold block_head, block_clear, clear. cbn [_record].
  destruct (0 =? _write (_record d)); cbn [_head];
    destruct (DPS_INVALID_LSN_OFFSET =? _lsn (_head (_record d))); cbn; (done || lia).
Qed.

Lemma preparePages_ok m log F V i :
  state m log F V -> 2 ^ 31 <= V < 2 ^ 32 - 1 -> pos m + FS + N * PS < 2 ^ 63 -> info_ok i ->
  exists o, preparePages PS FS m i = Some o /\ prepare_ok m log F (V + 1) (_mergeBlock i) o.
Proof.
  intros Hs HV HL Hi. unfold preparePages. fold (info_clear i). cbv zeta.
  pose proof (info_clear_no_dummy i) as Hnd.
  assert (Eb : block_head (_mergeBlock (info_clear i)) = block_head (_mergeBlock i)) by done.
  assert (Er : _isRow (_mergeBlock (info_clear i)) = _isRow (_mergeBlock i)) by done. rewrite Eb, Er.
  destruct (Z.ltb_spec (_totalSize m) (size (_mergeBlock i))).
  { eexists. split; [done|]. by apply po_refused. }
  rewrite (rd_restore _ _ _ _ _ _ (s_ready _ _ _ _ Hs)). cbn [negb andb].
  destruct (Z.ltb_spec (_idleSize m) (size (_mergeBlock i))) as [|Hidle].
  { eexists. split; [done|]. apply po_waits. }
  rewrite (rd_idle _ _ _ _ _ _ (s_ready _ _ _ _ Hs)) in Hidle.
  destruct (_isRow (_mergeBlock i) && negb (pos m =? off (_mergeBlock i))) eqn:Erow.
  { eexists. split; [done|]. by apply po_refused. }
  destruct (next_version_ok m log F V Hs ltac:(lia)) as (Hs1 & Hv1 & Hp1 & Epg).
  assert (Ha : added m (next_version m) log F (V + 1) []).
  { constructor; rewrite ?app_nil_r; try done; [lia|]. intros j. by rewrite Epg. }
  set (m1 := next_version m) in *.
  destruct (_isRow (_mergeBlock i)) eqn:E.
  - cbn [andb] in Erow. apply negb_false_iff, Z.eqb_eq in Erow.
    destruct (io_row _ Hi E) as (R1 & R2 & R3).
    apply finish_ok with (m := m); try done; try lia;
      [unfold dummies; by rewrite Hnd| |unfold dummies; by rewrite Hnd|by rewrite Hnd|].
    { constructor; try done; [by cbn; unfold block_head; destruct (_record (_mergeBlock i))|]. change (size (_mergeBlock i) <= size (_mergeBlock i) <= size (_mergeBlock i) + 32). lia. }
    constructor; try done; cbn.
    + split; [apply Hi|done].
    + apply Hi.
    + by rewrite Hp1, Erow.
    + generalize (io_content _ Hi). unfold content_ok. cbn. by rewrite E.
    + intros _. by rewrite Hp1, Erow.
  - destruct (io_fresh _ Hi E) as (R1 & R2). pose proof (io_size _ Hi) as R3.
    assert (Hco : content_ok (_mergeBlock (info_clear i))).
    { generalize (io_content _ Hi). unfold content_ok. cbn. by rewrite E. }
    rewrite crosses_spec by lia. rewrite Hp1.
    destruct (Z.ltb_spec FS (pos m mod FS + size (_mergeBlock i))) as [Hc|Hc].
    + destruct (clear_reserved _ (io_dummy _ Hi)) as [D1 D2].
      destruct (pad_file_ok m1 log F (V + 1) (block_clear (_dummyBlock i)) (size (_mergeBlock i)))
        as (m2 & d & Epad & Hpl & Hend & Hv2 & Hvalid & Hsz & Hpd); try done; rewrite ?Hp1; try lia; try done.
      cbn [info_clear _dummyBlock]. rewrite Epad. cbn [mbind option_bind].
      pose proof (pl_pos _ _ _ _ _ _ Hpl) as Hp2.
      pose proof (link_size_FS _ _ _ (pl_link _ _ _ _ _ _ Hpl)).
      apply extend_finish_ok with (m := m); try done; cbn [_mergeBlock info_clear]; try lia; try done.
      * unfold dummies, hasDummy. cbn [_dummyBlock]. rewrite Hvalid. by constructor.
      * unfold dummies, hasDummy. cbn [_dummyBlock]. rewrite Hvalid.
        apply (added_snoc m m1 m2 log F (V + 1) [] d); [done|lia|by rewrite app_nil_r].
      * intros _. cbn [_dummyBlock]. rewrite (lk_off _ _ _ (pl_link _ _ _ _ _ _ Hpl)). exact Hp2.
      * apply Hi.
      * rewrite Hend. change (0 + size (_mergeBlock i) <= FS). lia.
    + apply extend_finish_ok with (m := m); try done; try lia.
      * unfold dummies. by rewrite Hnd.
      * unfold dummies. by rewrite Hnd.
      * by rewrite Hnd.
      * apply Hi.
      * rewrite Hp1. exact Hc.
Qed.
End place.
