(* ===== verification/DpsRunInv.v ===== *)
(** * The log buffer: the invariant of a run

    Every step of the sessions and of the flusher keeps the buffer, the files
    and the log in agreement: what is written is the bytes of the blocks, at
    their positions, and the files hold the log up to the first page that is
    not flushed. *)

From stdpp Require Import base list option.
From Stdlib Require Import ZArith Lia.
From S2P Require Import Prelude DpsLsn Mem DpsRecord DpsRecordFacts DpsBuffer DpsRing DpsAlloc DpsRun DpsPlace.

Open Scope Z_scope.

Section inv.
Context (PS N FS : Z) (HPS : 0 < PS) (HN : 2 <= N) (HT : N * PS < 2 ^ 31).
Context (HFS : 64 < FS < 2 ^ 31) (HF4 : (4 | FS)).

Abbreviation state := (state PS N FS).

(** The written bytes of block [b] that are still in the ring. *)
Definition held (m : dpsReplicaLogMgr) (b : dpsMergeBlock) : Prop :=
  forall bs i, block_bytes b = Some bs -> 0 <= i < Z.of_nat (length bs) -> pos m - N * PS <= off b + i ->
    byte_at PS N (_pages m) (off b + i) = rd bs i.

(** The bytes of [b] in the first [n] bytes of the files. *)
Definition on_file (f : list Z) (n : Z) (b : dpsMergeBlock) : Prop :=
  forall bs i, block_bytes b = Some bs -> 0 <= i < Z.of_nat (length bs) -> off b + i < n ->
    rd f (off b + i) = rd bs i.

(** A session that waits with the padding placed and the mutex taken. *)
Record waiting (m : dpsReplicaLogMgr) (i : dpsMergeInfo) : Prop := {
  wa_fits : block_fits PS N FS m (_mergeBlock i);
  wa_version : lsn_version (m_lsn m) <> 0;
  wa_dummy : hasDummy i = true -> pos m = off (_dummyBlock i) + size (_dummyBlock i)
}.

Lemma waiting_ext m m' i : m_lsn m' = m_lsn m -> waiting m i -> waiting m' i.
Proof. intros E [[F1 F2 F3 F4 F5] W2 W3]. constructor; rewrite ?E; try done. constructor; rewrite ?E; done. Qed.

Record inv (k : Z) (w : world) (F : Z) : Prop := {
  iv_state : state (w_mgr w) (w_log w) F (2 ^ 31 + k);
  iv_pos : pos (w_mgr w) <= k * (2 * FS);
  iv_open : Forall (fun b => b ∈ w_log w /\ F <= off b / PS) (open_blocks w);
  iv_held : forall b, b ∈ w_log w -> b ∉ open_blocks w -> held (w_mgr w) b;
  iv_flen : Z.of_nat (length (w_file w)) = F * PS;
  iv_file : Forall (on_file (w_file w) (F * PS)) (w_log w);
  iv_pending : match w_pending w with
               | None => True
               | Some i => waiting (w_mgr w) i
               end
}.

(** ** Writing *)

Lemma state_wrote m m' log F V x bs : state m log F V -> wrote PS N x bs m m' -> state m' log F V.
Proof.
  intros [Hc Hr Hv] [W1 W2 W3 W4].
  assert (El : m_lsn m' = m_lsn m) by (by rewrite W2).
  assert (Ec : _currentLsn m' = _currentLsn m) by (by rewrite W2).
  constructor; rewrite ?El, ?Ec; try done.
  destruct Hr as [[H1 H2 H3 H4 H5 H6 H7] R2 R3 R4 R5 R6 R7 R8 R9 R10]. constructor; try done; try (rewrite W2; done).
  - constructor; try done; try (rewrite W2; done). intros P HP. specialize (H7 P HP). specialize (W3 (P mod N)).
    unfold len_at, meta_at in *. destruct (rd (_pages m') _), (rd (_pages m) _); cbn in *; congruence.
  - intros P HP. destruct (R7 P HP) as (l & E & Hl). exists l. split; [|done]. specialize (W3 (P mod N)).
    unfold begin_at, meta_at in *. destruct (rd (_pages m') _), (rd (_pages m) _); cbn in *; congruence.
  - intros P HP. destruct (R10 P HP) as (l & E & Hl). exists l. split; [|done]. specialize (W3 (P mod N)).
    unfold begin_at, meta_at in *. destruct (rd (_pages m') _), (rd (_pages m) _); cbn in *; congruence.
Qed.

(** Writing block [b], whose pages are not flushed, leaves the others. *)
Lemma merge_block_ok m log F V b :
  state m log F V -> b ∈ log -> F <= off b / PS ->
  exists m', _mergeLogs PS m b = Some m' /\ state m' log F V /\ m_lsn m' = m_lsn m /\
    forall c, c ∈ log -> c = b \/ held m c -> held m' c.
Proof.
  intros Hs Hb HF. destruct (chain_in _ _ _ _ _ _ _ (s_chain _ _ _ _ _ _ _ Hs) Hb) as (y & cu & Hl & Hy).
  destruct (lk_bytes _ _ _ _ _ _ Hl) as (bs & Ebs & _ & Hlen & _). pose proof (lk_off _ _ _ _ _ _ Hl) as Eo.
  pose proof (lk_size _ _ _ _ _ _ Hl) as Hsz. pose proof Ebs as Ebs'. unfold block_bytes in Ebs.
  destruct (merge_chunks (_isRow b) (_record b)) as [cs|] eqn:Ecs; [|done]. injection Ebs as <-.
  destruct (mergeLogs_ok PS N HPS HN HT m b cs y) as (m' & -> & Hw).
  - apply Hs.
  - done.
  - by rewrite (lk_meta _ _ _ _ _ _ Hl).
  - by rewrite (lk_meta _ _ _ _ _ _ Hl).
  - lia.
  - exists m'. split; [done|]. pose proof (state_wrote _ _ _ _ _ _ _ Hs Hw) as Hs'. split; [done|].
    assert (Ep : m_lsn m' = m_lsn m) by (rewrite (wt_rest _ _ _ _ _ _ Hw); done). split; [done|].
    intros c Hc Hor cbs i Ec Hi Hwin. rewrite Ep in Hwin.
    destruct (chain_in _ _ _ _ _ _ _ (s_chain _ _ _ _ _ _ _ Hs) Hc) as (z & cu' & Hlc & Hz).
    destruct (lk_bytes _ _ _ _ _ _ Hlc) as (cbs' & Ec' & _ & Hclen & _). rewrite Ec in Ec'. injection Ec' as <-.
    pose proof (lk_off _ _ _ _ _ _ Hlc) as Eoc.
    pose proof (ra_high _ _ _ _ _ (rd_ring _ _ _ _ _ _ (s_ready _ _ _ _ _ _ _ Hs))) as Hhi.
    pose proof (div_bounds PS HPS (off b)).
    rewrite (wt_bytes _ _ _ _ _ _ Hw) by nia.
    destruct (chain_apart _ _ _ _ _ _ _ _ (s_chain _ _ _ _ _ _ _ Hs) Hc Hb) as [->|Hap].
    + rewrite Ebs' in Ec. injection Ec as <-.
      destruct (Z.leb_spec y (off b + i)), (Z.ltb_spec (off b + i) (y + Z.of_nat (length (concat cs)))); try lia.
      cbn [andb]. f_equal. lia.
    + destruct (Z.leb_spec y (off c + i)), (Z.ltb_spec (off c + i) (y + Z.of_nat (length (concat cs)))); try lia;
        cbn [andb]; (destruct Hor as [->|Hh]; [lia|by apply Hh]).
Qed.

(** The blocks of a prepared record. *)
Lemma writeData_ok m log F V i :
  state m log F V -> Forall (fun b => b ∈ log /\ F <= off b / PS) (blocks i) ->
  exists m' r, writeData PS false m i = Some (m', r) /\ state m' log F V /\ m_lsn m' = m_lsn m /\
    forall c, c ∈ log -> c ∈ blocks i \/ held m c -> held m' c.
Proof.
  intros Hs Hbs. unfold writeData, blocks, dummies in *. rewrite list.Forall_app in Hbs.
  destruct Hbs as [Hd [[Hb1 Hb2] _]%list.Forall_cons].
  assert (exists m1, (if hasDummy i then _mergeLogs PS m (_dummyBlock i) else Some m) = Some m1 /\
      state m1 log F V /\ m_lsn m1 = m_lsn m /\
      forall c, c ∈ log -> c ∈ (if hasDummy i then [_dummyBlock i] else []) \/ held m c -> held m1 c)
    as (m1 & -> & Hs1 & Hp1 & Hh1).
  { destruct (hasDummy i).
    - apply list.Forall_cons in Hd as [[Hd1 Hd2] _].
      destruct (merge_block_ok m log F V (_dummyBlock i) Hs Hd1 Hd2) as (m1 & E & H1 & H2 & H3).
      exists m1. split_and!; try done. intros c Hc [Hin|Hh]; apply H3; try done; [left|by right].
      by apply list_elem_of_singleton in Hin.
    - exists m. split_and!; try done. intros c _ [Hin|Hh]; [by apply elem_of_nil in Hin|done]. }
  cbn [mbind option_bind].
  destruct (merge_block_ok m1 log F V (_mergeBlock i) Hs1 Hb1 Hb2) as (m2 & -> & H1 & H2 & H3).
  cbn [mbind option_bind andb]. eexists _, _. split; [done|]. split; [done|]. split; [congruence|].
  intros c Hc Hor. apply H3; [done|].
  destruct Hor as [[Hin|Hin%list_elem_of_singleton]%elem_of_app|Hh]; [right|by left|right]; apply Hh1; auto.
Qed.

Lemma inv_chain_in k w F b : inv k w F -> b ∈ w_log w ->
  exists y cu, link PS N FS y cu b /\ y + size b <= pos (w_mgr w).
Proof. intros H. eapply chain_in, H. Qed.

Lemma open_in w k F b : inv k w F -> b ∈ open_blocks w -> b ∈ w_log w /\ F <= off b / PS.
Proof. intros H Hb. pose proof (iv_open _ _ _ H) as Ho. rewrite list.Forall_forall in Ho. by apply Ho. Qed.

Lemma open_delete (l : list dpsMergeInfo) k i b :
  l !! k = Some i -> b ∈ concat (map blocks l) -> b ∈ blocks i \/ b ∈ concat (map blocks (delete k l)).
Proof.
  revert k. induction l as [|j l IH]; intros [|k] H Hb; cbn in *; try done.
  - injection H as ->. by apply elem_of_app in Hb.
  - apply elem_of_app in Hb as [Hb|Hb]; [right; apply elem_of_app; by left|].
    destruct (IH k H Hb); [by left|right; apply elem_of_app; by right].
Qed.

Lemma open_delete_sub (l : list dpsMergeInfo) k b :
  b ∈ concat (map blocks (delete k l)) -> b ∈ concat (map blocks l).
Proof.
  revert k. induction l as [|j l IH]; intros [|k] Hb; cbn in *; try done; apply elem_of_app; [by right|].
  apply elem_of_app in Hb as [Hb|Hb]; [by left|right; by eapply IH].
Qed.

Lemma open_block_of (l : list dpsMergeInfo) k i b : l !! k = Some i -> b ∈ blocks i -> b ∈ concat (map blocks l).
Proof.
  revert k. induction l as [|j l IH]; intros [|k] H Hb; cbn in *; try done; apply elem_of_app.
  - injection H as ->. by left.
  - right. by eapply IH.
Qed.

Lemma inv_weaken k k' w F : inv k w F -> k <= k' -> inv k' w F.
Proof.
  intros [[H1a H1b H1c] H2 H3 H4 H5 H6 H7] Hk. constructor; try done; [constructor; (done || lia)|nia].
Qed.

Lemma write_step k w F n : inv k w F ->
  exists w', act PS FS w (WriteData n) = Some w' /\ inv k w' F /\ w_log w' = w_log w /\
    w_pending w' = w_pending w.
Proof.
  intros H. cbn [act]. destruct (w_open w !! n) as [i|] eqn:Ei; [|by exists w].
  assert (Hbs : Forall (fun b => b ∈ w_log w /\ F <= off b / PS) (blocks i)).
  { apply list.Forall_forall. intros b Hb. eapply open_in; [done|]. apply elem_of_app. left.
    by eapply open_block_of. }
  destruct (writeData_ok _ _ _ _ i (iv_state _ _ _ H) Hbs) as (m' & r & -> & Hs & Hp & Hh).
  cbn [mbind option_bind]. eexists. split; [done|]. split; [|done]. destruct H as [H1 H2 H3 H4 H5 H6 H7].
  constructor; cbn [w_mgr w_log w_open w_pending w_file open_blocks] in *; try done.
  - by rewrite Hp.
  - apply list.Forall_forall. intros b Hb. rewrite list.Forall_forall in H3. apply H3. unfold open_blocks in *.
    cbn in Hb. rewrite elem_of_app in *. destruct Hb as [Hb|Hb]; [left|by right]. by eapply open_delete_sub.
  - intros b Hb Hno. apply Hh; [done|].
    assert (Hor : b ∈ blocks i \/ forall c, c ∈ blocks i -> b <> c).
    { clear - Hbs H1 Hb. induction (blocks i) as [|c l IH]; [right; intros c Hc; by apply elem_of_nil in Hc|].
      apply list.Forall_cons in Hbs as [[Hc _] Hbs].
      destruct (chain_apart _ _ _ _ _ _ _ _ (s_chain _ _ _ _ _ _ _ H1) Hb Hc) as [->|Hap]; [left; apply list_elem_of_here|].
      destruct (IH Hbs) as [|Hn]; [left; by apply list_elem_of_further|]. right. intros d [->|Hd]%list.elem_of_cons; [|auto].
      intros ->. destruct (chain_in _ _ _ _ _ _ _ (s_chain _ _ _ _ _ _ _ H1) Hc) as (y & cu & Hl & _).
      pose proof (lk_size _ _ _ _ _ _ Hl). lia. }
    destruct Hor as [|Hn]; [by left|]. right. apply H4; [done|]. intros Hin. apply Hno. unfold open_blocks in *. cbn.
    rewrite elem_of_app in *. destruct Hin as [Hin|]; [left|by right].
    destruct (open_delete _ _ _ _ Ei Hin) as [Hi|]; [by destruct (Hn b Hi)|done].
  - destruct (w_pending w); [|done]. by eapply waiting_ext.
Qed.

(** ** Flushing *)

(** The first page of an open block is locked. *)
Lemma open_locked k w F b : inv k w F -> b ∈ open_blocks w -> locked w (slot PS N (off b)) = true.
Proof.
  intros H Hb. unfold locked. apply existsb_exists. exists b. split; [by apply list_elem_of_In|].
  destruct (open_in _ _ _ _ H Hb) as [Hin _]. destruct (inv_chain_in _ _ _ _ H Hin) as (y & cu & Hl & _).
  rewrite (lk_meta _ _ _ _ _ _ Hl), <- (lk_off _ _ _ _ _ _ Hl). unfold room_covers, room. cbn [pageNum beginSub].
  pose proof (lk_size _ _ _ _ _ _ Hl) as Hsz.
  assert (off b / PS <= last_page PS (off b) (size b)) by (apply Z.div_le_mono; lia).
  apply existsb_exists. exists 0. split; [apply list_elem_of_In, elem_of_seqZ; lia|].
  pose proof (slot_range PS N HN (off b)). pose proof (N_bound PS N HPS HN HT).
  rewrite (st_num _ _ _ (ra_static _ _ _ _ _ (rd_ring _ _ _ _ _ _ (s_ready _ _ _ _ _ _ _ (iv_state _ _ _ H))))).
  rewrite Z.add_0_r, PAGE_is_mod by lia. rewrite Z.mod_small by lia. apply Z.eqb_refl.
Qed.

(** The page at the head of the queue is written and free again. *)
Lemma flushed_state m log F V q i f :
  state m log F V -> _queue m = i :: q ->
  exists p m', i = F mod N /\ rd (_pages m) i = Some p /\ Z.of_nat (length (_mb p)) = PS /\
    run_flush append_file m f = Some (SDB_OK, m', f ++ _mb p) /\ state m' log (F + 1) V /\
    F < pos m / PS /\ m_lsn m' = m_lsn m /\ same_bytes m m' /\ _mbLength p = PS.
Proof.
  intros Hs Eq. pose proof Hs as [Hc Hr Hv]. destruct Hr as [Hri R2 R3 R4 R5 R6 R7 R8 R9 R10].
  rewrite Eq in R3. assert (HF : F < pos m / PS).
  { destruct (Z_lt_le_dec F (pos m / PS)); [done|]. rewrite slots_nil in R3 by lia. done. }
  rewrite slots_cons in R3 by done. injection R3 as -> ->.
  pose proof (Z.mod_pos_bound F N ltac:(lia)) as Hm.
  destruct (static_page PS N m (F mod N) (ra_static _ _ _ _ _ Hri) Hm) as (p & Hp & Hpl).
  assert (El : _mbLength p = PS).
  { pose proof (ra_len _ _ _ _ _ Hri F ltac:(lia)) as E. unfold len_at in E. rewrite Hp in E. cbn in E.
    injection E as ->. unfold fill. pose proof (div_bounds PS HPS (pos m)). nia. }
  set (m1 := set_queue m (slots N (F + 1) (pos m / PS)) (_queSize m)).
  destruct (set_page_ok PS N m1 (F mod N) (page_clear p)) as (m2 & E2 & Hrest & Hst & Hrd); [|done|done|].
  { by destruct (ra_static _ _ _ _ _ Hri). }
  exists p, (set_queue (set_idle m2 (_idleSize m2 + _mbLength p)) (_queue m2) (_queSize m2 - 1)).
  split; [done|]. split; [done|]. split; [done|].
  assert (Hlsn : m_lsn m2 = m_lsn m) by (by rewrite Hrest).
  assert (Hcur : _currentLsn m2 = _currentLsn m) by (by rewrite Hrest).
  assert (Hbytes : same_bytes m m2).
  { intros i. rewrite Hrd. destruct (Z.eqb_spec i (F mod N)) as [->|]; [|done].
    change (_pages m1) with (_pages m). by rewrite Hp. }
  split; [|split; [|done]].
  - unfold run_flush. rewrite Eq. fold m1. change (_pages m1) with (_pages m). rewrite Hp.
    cbn [mbind option_bind append_file]. rewrite El, take_ge by lia. cbn [Z.eqb SDB_OK].
    unfold flushed. change (_pages m1) with (_pages m). rewrite Hp. cbn [mbind option_bind].
    rewrite E2. cbn [mbind option_bind]. by rewrite El.
  - constructor; cbn [m_lsn _currentLsn set_queue set_idle]; rewrite ?Hlsn, ?Hcur; try done.
    constructor; cbn [set_queue set_idle _idleSize _queue _queSize _restoreFlag _totalSize]; try done;
      try (rewrite Hrest; cbn; done).
    + destruct Hri as [A1 A2 A3 A4 A5 A6 A7]. constructor; try (rewrite Hrest; cbn; done); try lia; [by destruct Hst|].
      intros P HP. unfold len_at. cbn [_pages set_queue set_idle]. rewrite Hrd.
      destruct (Z.eqb_spec (P mod N) (F mod N)) as [E|Hne].
      * assert (P = F + N) as ->.
        { destruct (Z.eq_dec P (F + N)); [done|]. apply mod_inj_window in E; lia. }
        cbn. f_equal. unfold fill. lia.
      * apply A7. assert (P <> F + N); [|lia]. intros ->. apply Hne.
        replace (F + N) with (F + 1 * N) by lia. by rewrite Z.mod_add by lia.
    + rewrite Hrest. cbn. lia.
    + rewrite Hrest. cbn. lia.
    + intros P HP. destruct (R7 P HP) as (l & E & Hl). exists l. split; [|done].
      unfold begin_at in *. cbn [_pages set_queue set_idle]. rewrite Hrd.
      destruct (Z.eqb_spec (P mod N) (F mod N)) as [E'|]; [|done]. rewrite E', Hp in E. done.
    + intros P HP. destruct (R10 P ltac:(lia)) as (l & E & Hl). exists l. split; [|done].
      unfold begin_at in *. cbn [_pages set_queue set_idle]. rewrite Hrd.
      destruct (Z.eqb_spec (P mod N) (F mod N)) as [E'|]; [|done]. rewrite E', Hp in E. done.
Qed.

Lemma held_same m m' b : m_lsn m' = m_lsn m -> same_bytes m m' -> held m b -> held m' b.
Proof. intros El Hb Hh bs i E Hi Hw. rewrite El in Hw. rewrite (same_bytes_at PS N m m') by done. by apply Hh. Qed.

Lemma flush_step k w F : inv k w F ->
  exists w' F', act PS FS w Flush = Some w' /\ inv k w' F' /\ w_log w' = w_log w /\ w_open w' = w_open w /\
    w_pending w' = w_pending w /\ m_lsn (w_mgr w') = m_lsn (w_mgr w) /\
    (F < pos (w_mgr w) / PS -> locked w (F mod N) = false -> F' = F + 1).
Proof.
  intros H. cbn [act]. pose proof (rd_queue _ _ _ _ _ _ (s_ready _ _ _ _ _ _ _ (iv_state _ _ _ H))) as Esl.
  destruct (_queue (w_mgr w)) as [|i q] eqn:Eq.
  { exists w, F. split_and!; try done. intros HF. by rewrite slots_cons in Esl. }
  destruct (locked w i) eqn:Elock.
  { exists w, F. split_and!; try done. intros HF Hl. rewrite slots_cons in Esl by done. congruence. }
  destruct (flushed_state _ _ _ _ q i (w_file w) (iv_state _ _ _ H) Eq)
    as (p & m' & -> & Hp & Hpl & -> & Hs & HF & Hlsn & Hb & _).
  cbn [mbind option_bind]. eexists _, (F + 1). split; [done|]. split; [|done].
  assert (Hnot : forall b, b ∈ open_blocks w -> off b / PS <> F).
  { intros b Hb' E. pose proof (open_locked _ _ _ _ H Hb') as Hl. unfold slot in Hl. rewrite E in Hl. congruence. }
  pose proof H as [H1 H2 H3 H4 H5 H6 H7].
  pose proof (ra_high _ _ _ _ _ (rd_ring _ _ _ _ _ _ (s_ready _ _ _ _ _ _ _ H1))) as Hhi.
  constructor; cbn [w_mgr w_log w_open w_pending w_file] in *; try done.
  - by rewrite Hlsn.
  - apply list.Forall_forall. intros b Hb'. change (b ∈ open_blocks w) in Hb'.
    destruct (open_in _ _ _ _ H Hb'). pose proof (Hnot b Hb'). split; [done|lia].
  - intros b Hin Hno. eapply held_same; [done|done|]. by apply H4.
  - rewrite length_app. lia.
  - apply list.Forall_forall. intros b Hin bs j E Hj Hlt. rewrite rd_app, H5.
    destruct (Z.ltb_spec (off b + j) (F * PS)).
    + rewrite list.Forall_forall in H6. by apply (H6 b Hin).
    + assert (Hpage : (off b + j) / PS = F /\ (off b + j) mod PS = off b + j - F * PS).
      { split; symmetry; [apply (Z.div_unique _ _ F (off b + j - F * PS))|apply (Z.mod_unique _ _ F)]; (lia || nia). }
      assert (Hno : b ∉ open_blocks w).
      { intros Hop. destruct (open_in _ _ _ _ H Hop) as [_ HFb]. apply (Hnot b Hop).
        assert (off b / PS <= (off b + j) / PS) by (apply Z.div_le_mono; lia). lia. }
      rewrite <- (H4 b Hin Hno bs j E Hj) by lia. unfold byte_at, slot. destruct Hpage as [-> ->].
      rewrite Hp. done.
  - destruct (w_pending w); [|done]. by eapply waiting_ext.
Qed.

(** ** Preparing *)

(** New blocks are open. *)
Lemma added_inv k w F m' bs op pd :
  inv k w F -> 0 <= k -> added PS N FS (w_mgr w) m' (w_log w) F (2 ^ 31 + (k + 1)) bs ->
  let w' := mkWorld m' (w_log w ++ bs) op pd (w_file w) in
  (forall b, b ∈ open_blocks w' <-> b ∈ open_blocks w \/ b ∈ bs) ->
  match pd with None => True | Some i => waiting m' i end -> inv (k + 1) w' F.
Proof.
  intros H Hk [A1 A2 A3 A4] w' Hop Hpd. pose proof H as [H1 H2 H3 H4 H5 H6 H7].
  pose proof (ra_low _ _ _ _ _ (rd_ring _ _ _ _ _ _ (s_ready _ _ _ _ _ _ _ H1))) as Hlo.
  rewrite list.Forall_forall in A3.
  constructor; cbn [w_mgr w_log w_open w_pending w_file w']; try done.
  - lia.
  - apply list.Forall_forall. intros b [Hb|Hb]%Hop.
    + destruct (open_in _ _ _ _ H Hb). split; [apply elem_of_app; by left|done].
    + split; [apply elem_of_app; by right|]. destruct (A3 b Hb).
      assert (pos (w_mgr w) / PS <= off b / PS) by (apply Z.div_le_mono; lia). lia.
  - intros b [Hb|Hb]%elem_of_app Hno; [|destruct Hno; apply Hop; by right].
    intros cs j E Hj Hwin. rewrite (same_bytes_at PS N (w_mgr w)) by done. apply (H4 b Hb); try done; [|lia].
    intros Hin. apply Hno, Hop. by left.
  - apply list.Forall_app. split; [done|]. apply list.Forall_forall. intros b Hb cs j E Hj Hlt.
    destruct (A3 b Hb). pose proof (div_bounds PS HPS (pos (w_mgr w))). nia.
Qed.

(** Where the blocks of the log come from: padding, or blocks in [A]. *)
Definition origin (A : dpsMergeBlock -> Prop) (w : world) : Prop :=
  Forall (fun b => padding b \/ A b) (w_log w) /\
  match w_pending w with Some i => A (_mergeBlock i) | None => True end.

(** Blocks for which [A] is known may be placed. *)
Definition placeable (A : dpsMergeBlock -> Prop) : Prop := forall m b, A b -> A (place_block PS N m b).

Lemma origin_blocks A w bs :
  origin A w -> Forall (fun b => padding b \/ A b) bs ->
  Forall (fun b => padding b \/ A b) (w_log w ++ bs).
Proof. intros [H _] Hb. by apply list.Forall_app. Qed.

Lemma paddings A bs : Forall padding bs -> Forall (fun b => padding b \/ A b) bs.
Proof. intros H. eapply list.Forall_impl; [exact H|]. auto. Qed.

Lemma open_snoc w i pd :
  concat (map blocks (w_open w ++ [i])) ++ pd = (concat (map blocks (w_open w)) ++ blocks i) ++ pd.
Proof. rewrite map_app, concat_app. cbn. by rewrite app_nil_r. Qed.

Lemma prepare_step k w F i :
  inv k w F -> 0 <= k < 2 ^ 30 -> (k + 1) * (2 * FS) + N * PS < 2 ^ 63 -> info_ok PS N FS i ->
  exists w', act PS FS w (Prepare i) = Some w' /\ inv (k + 1) w' F /\
    forall A, (forall b, same_record (_mergeBlock i) b -> A b) -> origin A w -> origin A w'.
Proof.
  intros H Hk HL Hi. cbn [act].
  destruct (w_pending w) as [j|] eqn:Epd;
    [exists w; split; [done|]; split; [eapply inv_weaken; [done|lia]|done]|].
  pose proof (iv_pos _ _ _ H) as Hpos.
  destruct (preparePages_ok PS N FS HPS HN HT HFS HF4 (w_mgr w) (w_log w) F (2 ^ 31 + k) i)
    as (o & -> & Ho); [apply H|lia|lia|done|]. cbn [mbind option_bind].
  replace (2 ^ 31 + k + 1) with (2 ^ 31 + (k + 1)) in Ho by lia.
  destruct Ho as [rc i' nt Hrc| |m' i' nt Ha Hpd Hsr|m' i' nt Hpd Hsr Ha Hp Hf Hv Hroom Hd]; cbn [after_prepare].
  - destruct (Z.eqb_spec rc SDB_OK); [done|]. eexists. split; [done|].
    assert (E : mkWorld (w_mgr w) (w_log w) (w_open w) None (w_file w) = w) by (destruct w; cbn in *; congruence).
    rewrite E. split; [eapply inv_weaken; [done|lia]|done].
  - exists w. split; [done|]. split; [eapply inv_weaken; [done|lia]|done].
  - rewrite Z.eqb_refl. eexists. split; [done|]. split.
    + apply added_inv; try done; [lia|].
      intros b. unfold open_blocks. cbn [w_open w_pending]. rewrite Epd, open_snoc, !app_nil_r. apply elem_of_app.
    + intros A HA Ho. split; [|done]. apply origin_blocks; [done|]. apply list.Forall_app.
      split; [by apply paddings|]. constructor; [right; by apply HA|done].
  - eexists. split; [done|]. split.
    + apply added_inv; try done; [lia|].
      intros b. unfold open_blocks. cbn [w_open w_pending]. rewrite Epd, app_nil_r. apply elem_of_app.
    + intros A HA Ho. split; [|by apply HA]. apply origin_blocks; [done|by apply paddings].
Qed.

Lemma resume_step k w F :
  inv k w F -> 0 <= k < 2 ^ 30 -> (k + 1) * (2 * FS) + N * PS < 2 ^ 63 ->
  exists w', act PS FS w Resume = Some w' /\ inv (k + 1) w' F /\
    forall A, placeable A -> origin A w -> origin A w'.
Proof.
  intros H Hk HL. cbn [act].
  destruct (w_pending w) as [j|] eqn:Epd;
    [|exists w; split; [done|]; split; [eapply inv_weaken; [done|lia]|done]].
  pose proof (iv_pos _ _ _ H) as Hpos. pose proof (iv_pending _ _ _ H) as Hpd. rewrite Epd in Hpd.
  destruct Hpd as [Hf Hv _]. pose proof (iv_state _ _ _ (inv_weaken _ (k + 1) _ _ H ltac:(lia))) as Hs.
  pose proof (place_record_ok PS N FS HPS HN HT (w_mgr w) (w_log w) F (2 ^ 31 + (k + 1)) j [] Hs
    ltac:(lia) Hv ltac:(lia) Hf) as Hpl. cbv zeta in Hpl.
  destruct (_ <=? _).
  - destruct Hpl as (m' & -> & Hpl). cbn [mbind option_bind after_prepare]. rewrite Z.eqb_refl.
    eexists. split; [done|]. cbn [_mergeBlock]. split.
    + apply added_inv; try done; [lia| |].
      * apply (added_snoc PS N FS HFS (w_mgr w) (w_mgr w) m' (w_log w) F _ []);
          [by apply added_nil|lia|by rewrite app_nil_r].
      * intros b. unfold open_blocks. cbn [w_open w_pending]. rewrite Epd, open_snoc, app_nil_r.
        unfold blocks at 2. rewrite app_assoc. rewrite elem_of_app. done.
    + intros A HA Ho. split; [|done]. apply origin_blocks; [done|]. destruct Ho as [_ Ho]. rewrite Epd in Ho.
      constructor; [right; by apply HA|done].
  - rewrite Hpl. cbn. exists w. split; [done|]. split; [eapply inv_weaken; [done|lia]|done].
Qed.

(** [incVersion] and [cancelIncVersion] touch the LSN's version only. *)
Lemma version_inv k w F m' :
  inv k w F -> w_pending w = None -> _pages m' = _pages (w_mgr w) -> pos m' = pos (w_mgr w) ->
  state m' (w_log w) F (2 ^ 31 + k) -> inv k (mkWorld m' (w_log w) (w_open w) None (w_file w)) F.
Proof.
  intros [H1 H2 H3 H4 H5 H6 H7] Epd Hpg Hp Hs.
  constructor; cbn [w_mgr w_log w_open w_pending w_file]; try done.
  - by rewrite Hp.
  - unfold open_blocks in *. by rewrite Epd in H3.
  - intros b Hb Hno bs i E Hi Hw. rewrite Hpg. rewrite Hp in Hw. apply (H4 b Hb); try done.
    unfold open_blocks in *. by rewrite Epd.
Qed.

Definition act_ok (a : action) : Prop := match a with Prepare i => info_ok PS N FS i | _ => True end.

(** Every step is defined and keeps the invariant; the log only grows by
    padding and by blocks that were prepared. *)
Lemma act_inv k w F a :
  inv k w F -> 0 <= k < 2 ^ 30 -> (k + 1) * (2 * FS) + N * PS < 2 ^ 63 -> act_ok a ->
  exists w' F', act PS FS w a = Some w' /\ inv (k + 1) w' F' /\
    forall A, placeable A -> (forall i b, a = Prepare i -> same_record (_mergeBlock i) b -> A b) ->
      origin A w -> origin A w'.
Proof.
  intros H Hk HL Ha. pose proof (inv_weaken _ (k + 1) _ _ H ltac:(lia)) as H'.
  destruct a as [i| |n| | |]; cbn [act_ok] in Ha.
  - destruct (prepare_step k w F i) as (w' & ? & ? & Ho); eauto 10.
  - destruct (resume_step k w F) as (w' & ? & ? & Ho); eauto 10.
  - destruct (write_step (k + 1) w F n) as (w' & ? & ? & El & Ep); [done|]. exists w', F. split_and!; try done.
    intros A _ _. unfold origin. by rewrite El, Ep.
  - destruct (flush_step (k + 1) w F) as (w' & F' & ? & ? & El & _ & Ep & _); [done|]. exists w', F'.
    split_and!; try done. intros A _ _. unfold origin. by rewrite El, Ep.
  - cbn [act]. destruct (w_pending w) as [j|] eqn:E; [by exists w, F|]. eexists _, F. split; [done|].
    split; [|by intros A _ _ [? _]]. destruct (iv_state _ _ _ H) as [Hc Hr Hv].
    unfold incVersion, DPS_INVALID_LSN_VERSION.
    destruct (Z.eqb_spec 0 (lsn_version (m_lsn (w_mgr w)))) as [E0|]; [|destruct (0 <? pos (w_mgr w))];
      apply version_inv; try done; constructor; cbn [m_lsn _currentLsn set_lsns set_incVersion lsn_offset lsn_version];
      try done; try (by eapply ready_ext); try lia.
    rewrite <- E0. change (u32 (0 + 1)) with 1. lia.
  - cbn [act]. destruct (w_pending w) as [j|] eqn:E; [by exists w, F|]. eexists _, F. split; [done|].
    split; [|by intros A _ _ [? _]].
    destruct (iv_state _ _ _ H) as [Hc Hr Hv]. apply version_inv; try done. constructor; cbn; try done; [|lia].
    by eapply ready_ext.
Qed.

Lemma run_inv A acts : placeable A -> forall k w F,
  inv k w F -> origin A w -> 0 <= k -> k + Z.of_nat (length acts) <= 2 ^ 30 ->
  (k + Z.of_nat (length acts)) * (2 * FS) + N * PS < 2 ^ 63 -> Forall act_ok acts ->
  (forall i b, Prepare i ∈ acts -> same_record (_mergeBlock i) b -> A b) ->
  exists w' F', run PS FS w acts = Some w' /\ inv (k + Z.of_nat (length acts)) w' F' /\ origin A w'.
Proof.
  intros HA. induction acts as [|a acts IH]; intros k w F H Ho Hk Hn HL Ha Hfrom; cbn [run length] in *.
  - exists w, F. split; [done|]. split; [|done]. eapply inv_weaken; [done|lia].
  - apply list.Forall_cons in Ha as [Ha Has].
    destruct (act_inv k w F a H) as (w1 & F1 & -> & H1 & Ho1); [lia|nia|done|]. cbn [mbind option_bind].
    destruct (IH (k + 1) w1 F1 H1) as (w' & F' & E & H' & Ho'); [|lia|lia|nia|done|..].
    + apply Ho1; try done. intros i b ->. apply Hfrom. apply list_elem_of_here.
    + intros i b Hin. apply Hfrom. by apply list_elem_of_further.
    + exists w', F'. split; [done|]. split; [|done]. eapply inv_weaken; [done|lia].
Qed.
End inv.
