(* ===== verification/DpsRunThms.v ===== *)
(** * The log buffer: what readers, files and waiting sessions can rely on

    From an empty buffer, after any steps of sessions and of the flusher. *)

From stdpp Require Import base list option.
From Stdlib Require Import ZArith Lia.
From S2P Require Import Prelude DpsLsn Mem DpsRecord DpsRecordFacts DpsBuffer DpsRing DpsAlloc DpsRun.
From S2P Require Import DpsPlace DpsRunInv.

Open Scope Z_scope.

(** A configuration: page size, number of pages and size of a log file, and
    the steps that are taken. *)
Record setting (PS N FS : Z) (acts : list action) : Prop := {
  cf_page : 0 < PS;
  cf_num : 2 <= N;
  cf_total : N * PS < 2 ^ 31;
  cf_file : 64 < FS < 2 ^ 31;
  cf_align : (4 | FS);
  cf_steps : Z.of_nat (length acts) < 2 ^ 30;
  cf_acts : Forall (act_ok PS N FS) acts
}.

Lemma replicate_rd {A} (n : nat) (x : A) i : 0 <= i < Z.of_nat n -> rd (replicate n x) i = Some x.
Proof.
  intros Hi. unfold rd. destruct (Z.leb_spec 0 i); [|lia]. apply lookup_replicate. split; [done|lia].
Qed.

Section thms.
Context (PS N FS : Z) (HPS : 0 < PS) (HN : 2 <= N) (HT : N * PS < 2 ^ 31).
Context (HFS : 64 < FS < 2 ^ 31) (HF4 : (4 | FS)).

Lemma init_inv : inv PS N FS 0 (init PS N) 0.
Proof.
  assert (Hrd : forall i, 0 <= i < N -> rd (_pages (mgr_init PS N)) i =
      Some (mkPage (replicate (Z.to_nat PS) 0) 0 LSN_INVALID)).
  { intros i Hi. cbn. apply replicate_rd. lia. }
  assert (E0 : 0 / PS = 0) by (apply Z.div_0_l; lia).
  constructor; cbn [w_mgr w_log w_open w_pending w_file init]; try done.
  constructor; [apply chain_nil| |cbn; lia].
  constructor; try done.
  - constructor; cbn [pos m_lsn mgr_init lsn_offset]; try done; rewrite ?E0; try done; try lia.
    + constructor; cbn; [done|rewrite length_replicate; lia|].
      apply list.Forall_replicate. cbn. rewrite length_replicate. lia.
    + unfold first_page. rewrite E0, Z.max_l by lia. done.
    + intros P HP. unfold len_at. rewrite Hrd by (apply Z.mod_pos_bound; lia). cbn. f_equal. unfold fill. nia.
  - cbn. lia.
  - cbn. lia.
  - intros P HP. unfold begin_at. rewrite Hrd by (apply Z.mod_pos_bound; lia). eexists. split; [done|].
    unfold begin_ok. cbn. by left.
  - constructor.
  - constructor.
  - intros P HP. cbn in HP. rewrite E0 in HP. lia.
Qed.

(** The blocks that the steps hand over. *)
Definition handed (acts : list action) (b : dpsMergeBlock) : Prop :=
  exists i, Prepare i ∈ acts /\ same_record (_mergeBlock i) b.

Lemma reach acts :
  Z.of_nat (length acts) < 2 ^ 30 -> Forall (act_ok PS N FS) acts ->
  exists w F, run PS FS (init PS N) acts = Some w /\ inv PS N FS (Z.of_nat (length acts)) w F /\
    origin (handed acts) w /\ pos (w_mgr w) + N * PS < 2 ^ 63.
Proof.
  intros Hn Ha.
  destruct (run_inv PS N FS HPS HN HT HFS HF4 (handed acts) acts) with (k := 0) (w := init PS N) (F := 0)
    as (w & F & E & H & Ho); try done; try lia.
  - intros m b (i & Hi & Hsr). exists i. split; [done|]. by apply same_record_place.
  - apply init_inv.
  - nia.
  - intros i b Hi Hsr. by exists i.
  - exists w, F. split_and!; try done. pose proof (iv_pos _ _ _ _ _ _ H). nia.
Qed.

(** ** Reading *)

(** [rd] of all positions gives the list. *)
Lemma held_prefix m b bs mem :
  block_bytes b = Some bs -> held PS N m b -> pos m - N * PS <= off b ->
  Z.of_nat (length bs) <= Z.of_nat (length mem) ->
  (forall i, 0 <= i < Z.of_nat (length mem) -> rd mem i = byte_at PS N (_pages m) (off b + i)) ->
  bs `prefix_of` mem.
Proof.
  intros E Hh Hw Hl Hm. apply rd_prefix. intros i Hi. rewrite Hm by lia. apply Hh; [done|done|lia].
Qed.

Lemma read_head_prefix h mem : head_ok h -> head_bytes h `prefix_of` mem -> read_head mem = Some h.
Proof. intros Hh [k ->]. by apply read_head_bytes. Qed.

Lemma compareOffset_lt x y : 0 <= x < 2 ^ 63 -> 0 <= y < 2 ^ 63 -> (compareOffset x y <? 0) = (x <? y).
Proof.
  intros Hx Hy. unfold compareOffset, DPS_INVALID_LSN_OFFSET.
  destruct (Z.eqb_spec (2 ^ 64 - 1) x); [lia|]. destruct (Z.eqb_spec (2 ^ 64 - 1) y); [lia|]. cbn [andb negb].
  destruct (Z.ltb_spec x y); [done|]. by destruct (Z.ltb_spec y x).
Qed.

Lemma compareOffset_ge x y : 0 <= x < 2 ^ 63 -> 0 <= y < 2 ^ 63 -> (0 <=? compareOffset x y) = (y <=? x).
Proof.
  intros Hx Hy. rewrite Z.leb_antisym, (Z.leb_antisym x y), compareOffset_lt by done. done.
Qed.

(** A record of the window whose first page no writer holds. *)
Lemma search_ok k w F b onlyHeader :
  inv PS N FS k w F -> pos (w_mgr w) < 2 ^ 63 -> b ∈ w_log w ->
  first_page PS N (pos (w_mgr w)) * PS <= off b -> locked w (slot PS N (off b)) = false ->
  exists mem bs, _search PS (w_mgr w) (off b) onlyHeader = Some (inr (mem, size b)) /\
    block_bytes b = Some bs /\
    if onlyHeader then mem = head_bytes (block_head b)
    else bs `prefix_of` mem /\ Z.of_nat (length mem) = size b.
Proof.
  intros H HL Hb Hwin Hlock. destruct (inv_chain_in _ _ _ _ _ _ _ H Hb) as (y & cu & Hl & Hy).
  pose proof (iv_state _ _ _ _ _ _ H) as [Hc Hr Hv]. pose proof Hr as [Hri _ _ _ _ _ Hbg Hps Hst _].
  set (m := w_mgr w) in *. assert (Hno : b ∉ open_blocks w).
  { intros Hop. rewrite (open_locked PS N FS HPS HN HT k w F b) in Hlock by done. done. }
  pose proof (iv_held _ _ _ _ _ _ H b Hb Hno) as Hh. fold m in Hh.
  destruct (lk_bytes _ _ _ _ _ _ Hl) as (bs & Ebs & Hpre & Hlen & Hho).
  pose proof (lk_off _ _ _ _ _ _ Hl) as Eo. pose proof (lk_size _ _ _ _ _ _ Hl) as Hsz.
  assert (Hin : off b ∈ map (fun b => off b) (w_log w)) by (apply list_elem_of_fmap; by exists b).
  destruct (getStartLsn_ok PS N HPS HN HT m (pos m) F _ (off b) Hri Hbg Hps HL Hst Hin Hwin)
    as (l & El & Hinv & Hlb & Hlin).
  pose proof Hps as Hps'. unfold positions in Hps'. rewrite list.Forall_forall in Hps'.
  pose proof (Hps' _ Hin) as Hbp. pose proof (Hps' _ Hlin) as Hlp. cbn in Hbp, Hlp.
  pose proof (div_bounds PS HPS (pos m)) as HdL.
  assert (Hwin2 : pos m - N * PS <= off b) by (unfold first_page in Hwin; nia).
  pose proof (Z.mod_pos_bound (off b) PS HPS) as Hmod.
  unfold _search. rewrite El. cbn [mbind option_bind]. rewrite Hinv.
  rewrite compareOffset_lt by lia. destruct (Z.ltb_spec (off b) (lsn_offset l)); [lia|].
  rewrite compareOffset_ge by lia. destruct (Z.leb_spec (pos m) (off b)); [lia|].
  rewrite (st_num _ _ _ (ra_static _ _ _ _ _ Hri)). fold (slot PS N (off b)).
  destruct (parse_ok PS N HPS HN HT m (off b) sizeof_head) as (hb & -> & Hhl & Hhb);
    [apply Hri|done|unfold sizeof_head; lia|].
  cbn [mbind option_bind]. unfold sizeof_head in Hhl, Hhb.
  assert (Ehb : hb = head_bytes (block_head b)).
  { destruct Hpre as [rest Er]. assert (Hp : head_bytes (block_head b) `prefix_of` hb).
    { apply rd_prefix. rewrite head_bytes_length. intros i Hi. rewrite Hhb by lia.
      rewrite (Hh bs i Ebs); [|rewrite Er, length_app, head_bytes_length; lia|lia].
      rewrite Er, rd_app, head_bytes_length. destruct (Z.ltb_spec i (Z.of_nat 32)); [done|lia]. }
    destruct Hp as [x Ex]. rewrite Ex, length_app, head_bytes_length in Hhl.
    destruct x; [by rewrite app_nil_r in Ex|cbn in Hhl; lia]. }
  rewrite (read_head_prefix (block_head b)); [|done|by rewrite Ehb]. cbn [mbind option_bind].
  rewrite Z.eqb_refl. cbn [negb orb]. destruct (Z.ltb_spec (size b) sizeof_head) as [Hlt|_];
    [unfold sizeof_head in Hlt; lia|].
  destruct onlyHeader; [exists hb, bs; by rewrite Ehb|].
  destruct (parse_ok PS N HPS HN HT m (off b) (size b)) as (mem & -> & Hml & Hmb); [apply Hri|lia|lia|].
  cbn [mbind option_bind]. exists mem, bs. split; [done|]. split; [done|]. split; [|done].
  eapply held_prefix; try done; [lia|]. intros i Hi. apply Hmb. lia.
Qed.

(** A record starts in every stretch of the log that is as long as the
    longest record. *)
Lemma chain_start_between log L cu x :
  chain PS N FS log L cu -> 0 <= x -> x + (N - 1) * PS <= L ->
  exists b, b ∈ log /\ x <= off b < x + (N - 1) * PS.
Proof.
  intros Hc Hx. induction Hc as [|log y cu b Hc IH Hl]; intros HL; [nia|].
  destruct (Z_lt_le_dec y (x + (N - 1) * PS)).
  - exists b. pose proof (lk_off _ _ _ _ _ _ Hl) as Eo. pose proof (lk_size _ _ _ _ _ _ Hl).
    split; [apply elem_of_app; right; by apply list_elem_of_singleton|rewrite Eo; lia].
  - destruct (IH ltac:(lia)) as (b' & Hb' & ?). exists b'. split; [apply elem_of_app; by left|done].
Qed.

(** The oldest record of a buffer that is not empty. *)
Lemma oldest_ok k w F :
  inv PS N FS k w F -> pos (w_mgr w) < 2 ^ 63 -> w_log w <> [] ->
  exists l, _getStartLsn (w_mgr w) = Some l /\ lsn_invalid l = false /\
    first_page PS N (pos (w_mgr w)) * PS <= lsn_offset l < pos (w_mgr w).
Proof.
  intros H HL Hne. pose proof (iv_state _ _ _ _ _ _ H) as [Hc Hr Hv].
  pose proof Hr as [Hri _ _ _ _ _ Hbg Hps Hst _]. set (m := w_mgr w) in *.
  assert (exists b, b ∈ w_log w /\ first_page PS N (pos m) * PS <= off b) as (b & Hb & Hge).
  { pose proof (div_bounds PS HPS (pos m)). unfold first_page. destruct (Z_lt_le_dec (pos m / PS - N + 1) 1).
    - destruct (w_log w) as [|b log] eqn:E; [done|]. exists b. split; [apply list_elem_of_here|].
      unfold positions in Hps. apply list.Forall_cons in Hps as [? _]. nia.
    - destruct (chain_start_between _ _ _ ((pos m / PS - N + 1) * PS) Hc) as (b & Hb & ?); [nia|nia|].
      exists b. split; [done|nia]. }
  assert (Hin : off b ∈ map (fun b => off b) (w_log w)) by (apply list_elem_of_fmap; by exists b).
  destruct (getStartLsn_ok PS N HPS HN HT m (pos m) F _ (off b) Hri Hbg Hps HL Hst Hin Hge)
    as (l & El & Hinv & Hlb & Hlin).
  unfold positions in Hps. rewrite list.Forall_forall in Hps. pose proof (Hps _ Hlin) as Hlp. cbn in Hlp.
  exists l. split_and!; (done || lia).
Qed.

Lemma search_outside k w F x onlyHeader :
  inv PS N FS k w F -> pos (w_mgr w) < 2 ^ 63 -> w_log w <> [] -> 0 <= x < 2 ^ 63 ->
  (x < first_page PS N (pos (w_mgr w)) * PS ->
     _search PS (w_mgr w) x onlyHeader = Some (inl SDB_DPS_LOG_NOT_IN_BUF)) /\
  (pos (w_mgr w) <= x -> _search PS (w_mgr w) x onlyHeader = Some (inl SDB_DPS_LSN_OUTOFRANGE)).
Proof.
  intros H HL Hne Hx. destruct (oldest_ok k w F H HL Hne) as (l & El & Hinv & Hlb). unfold _search. rewrite El.
  cbn [mbind option_bind]. rewrite Hinv.
  assert (0 <= lsn_offset l) by (unfold first_page in Hlb; nia).
  split; intros Hc; rewrite compareOffset_lt, compareOffset_ge by lia.
  - destruct (Z.ltb_spec x (lsn_offset l)); [done|lia].
  - destruct (Z.ltb_spec x (lsn_offset l)); [lia|]. destruct (Z.leb_spec (pos (w_mgr w)) x); [done|lia].
Qed.

(** ** The files *)

Lemma flushed_length k w F :
  inv PS N FS k w F ->
  Z.of_nat (length (w_file w)) + PS * Z.of_nat (length (_queue (w_mgr w))) = pos (w_mgr w) / PS * PS.
Proof.
  intros H. pose proof (s_ready _ _ _ _ _ _ _ (iv_state _ _ _ _ _ _ H)) as Hr.
  rewrite (iv_flen _ _ _ _ _ _ H), (rd_queue _ _ _ _ _ _ Hr). unfold slots.
  rewrite length_fmap, length_seqZ. pose proof (ra_low _ _ _ _ _ (rd_ring _ _ _ _ _ _ Hr)). nia.
Qed.

Lemma file_ok k w F b bs :
  inv PS N FS k w F -> b ∈ w_log w -> block_bytes b = Some bs ->
  off b + Z.of_nat (length bs) <= Z.of_nat (length (w_file w)) ->
  exists pre post, w_file w = pre ++ bs ++ post /\ Z.of_nat (length pre) = off b.
Proof.
  intros H Hb Ebs Hle. destruct (inv_chain_in _ _ _ _ _ _ _ H Hb) as (y & cu & Hl & Hy).
  pose proof (iv_state _ _ _ _ _ _ H) as [Hc Hr Hv]. pose proof (rd_positions _ _ _ _ _ _ Hr) as Hps.
  assert (0 <= off b).
  { unfold positions in Hps. rewrite list.Forall_forall in Hps.
    apply (Hps (off b)). apply list_elem_of_fmap. by exists b. }
  set (f := w_file w) in *. set (n := Z.to_nat (off b)).
  assert (Hpre : bs `prefix_of` drop n f).
  { apply rd_prefix. intros i Hi. pose proof (iv_file _ _ _ _ _ _ H) as Hf. rewrite list.Forall_forall in Hf.
    rewrite <- (Hf b Hb bs i Ebs Hi) by (rewrite <- (iv_flen _ _ _ _ _ _ H); fold f; lia). fold f.
    unfold rd. destruct (Z.leb_spec 0 i), (Z.leb_spec 0 (off b + i)); try lia. rewrite lookup_drop. f_equal. lia. }
  destruct Hpre as [post E]. exists (take n f), post. split; [by rewrite <- E, take_drop|].
  rewrite length_take. lia.
Qed.

(** ** A session that waits in the middle *)

(** While the padding of a waiting record is not written its pages stay. *)
Lemma waiting_room k w F i :
  inv PS N FS k w F -> w_pending w = Some i -> hasDummy i = true ->
  (F + N) * PS - pos (w_mgr w) <= N * PS - off (_dummyBlock i) mod PS - size (_dummyBlock i).
Proof.
  intros H Hp Hd. pose proof (iv_pending _ _ _ _ _ _ H) as Hw. rewrite Hp in Hw. rewrite (wa_dummy _ _ _ _ _ Hw Hd).
  destruct (open_in PS N FS w k F (_dummyBlock i) H) as [_ HF].
  { unfold open_blocks. rewrite Hp. unfold dummies. rewrite Hd. apply elem_of_app. right. by apply list_elem_of_singleton. }
  pose proof (Z.div_mod (off (_dummyBlock i)) PS ltac:(lia)). nia.
Qed.
End thms.

(** ** The log buffer: sessions that wait with the padding placed

    [preparePages] places the padding at the end of a log file, locks its
    pages and only then waits for room for the record itself.  The flusher
    cannot pass the locked pages.  *)

Section wait.
Context (PS N FS : Z) (HPS : 0 < PS) (HN : 2 <= N) (HT : N * PS < 2 ^ 31).
Context (HFS : 64 < FS < 2 ^ 31) (HF4 : (4 | FS)).

Abbreviation inv := (inv PS N FS).

(** The record fits behind its padding. *)
Definition fits_behind (i : dpsMergeInfo) : Prop :=
  hasDummy i = true ->
  off (_dummyBlock i) mod PS + size (_dummyBlock i) + size (_mergeBlock i) <= N * PS.

(** What the others do while a session waits: sessions that have prepared
    write, the flusher flushes, and the waiting session looks again. *)
Definition in_background (a : action) : Prop :=
  match a with WriteData _ | Flush | Resume => True | _ => False end.

(** ** It never resumes *)

Lemma write_keeps k w F n : inv k w F ->
  exists w', act PS FS w (WriteData n) = Some w' /\ inv k w' F /\ w_pending w' = w_pending w /\
    ((n < length (w_open w))%nat -> w_open w' = delete n (w_open w)).
Proof.
  intros H. destruct (write_step PS N FS HPS HN HT k w F n H) as (w' & E & H' & _). exists w'. split; [done|].
  split; [done|]. cbn [act] in E. destruct (w_open w !! n) as [i|] eqn:Ei.
  - destruct (writeData PS false (w_mgr w) i) as [[m r]|]; [|done]. injection E as <-. done.
  - injection E as <-. split; [done|]. intros Hlt. apply lookup_lt_is_Some in Hlt as [j Ej]. congruence.
Qed.

Lemma resume_outcome k w F i :
  inv k w F -> 0 <= k < 2 ^ 30 -> (k + 1) * (2 * FS) + N * PS < 2 ^ 63 -> w_pending w = Some i ->
  if size (_mergeBlock i) <=? (F + N) * PS - pos (w_mgr w)
  then exists w', act PS FS w Resume = Some w' /\ w_pending w' = None
  else act PS FS w Resume = Some w.
Proof.
  intros H Hk HL Hp. pose proof (iv_pos _ _ _ _ _ _ H) as Hpos. pose proof (iv_pending _ _ _ _ _ _ H) as Hw.
  rewrite Hp in Hw. destruct Hw as [Hf Hv _]. cbn [act]. rewrite Hp.
  pose proof (place_record_ok PS N FS HPS HN HT (w_mgr w) (w_log w) F (2 ^ 31 + k) i [] (iv_state _ _ _ _ _ _ H)
    ltac:(lia) Hv ltac:(lia) Hf) as Hpl. cbv zeta in Hpl. destruct (_ <=? _).
  - destruct Hpl as (m' & -> & _). cbn. eauto.
  - by rewrite Hpl.
Qed.

Lemma stuck_step k w F i a :
  inv k w F -> 0 <= k < 2 ^ 30 -> (k + 1) * (2 * FS) + N * PS < 2 ^ 63 -> w_pending w = Some i ->
  ~ fits_behind i ->
  exists w' F', act PS FS w a = Some w' /\ inv k w' F' /\ w_pending w' = Some i /\ w_log w' = w_log w.
Proof.
  intros H Hk HL Hp Hno. destruct a as [j| |n| | |].
  - exists w, F. cbn [act]. by rewrite Hp.
  - pose proof (resume_outcome k w F i H Hk HL Hp) as Hr.
    destruct (Z.leb_spec (size (_mergeBlock i)) ((F + N) * PS - pos (w_mgr w))); [|by exists w, F].
    exfalso. apply Hno. intros Hd. pose proof (waiting_room PS N FS HPS HN k w F i H Hp Hd). lia.
  - destruct (write_step PS N FS HPS HN HT k w F n H) as (w' & ? & ? & ? & ?). exists w', F.
    split_and!; try done. congruence.
  - destruct (flush_step PS N FS HPS HN HT k w F H) as (w' & F' & ? & ? & ? & _ & ? & _). exists w', F'.
    split_and!; try done. congruence.
  - exists w, F. cbn [act]. by rewrite Hp.
  - exists w, F. cbn [act]. by rewrite Hp.
Qed.

Lemma stuck_run acts : forall k w F i,
  inv k w F -> 0 <= k < 2 ^ 30 -> (k + 1) * (2 * FS) + N * PS < 2 ^ 63 -> w_pending w = Some i ->
  ~ fits_behind i ->
  exists w', run PS FS w acts = Some w' /\ w_pending w' = Some i /\ w_log w' = w_log w.
Proof.
  induction acts as [|a acts IH]; intros k w F i H Hk HL Hp Hno; cbn [run]; [by exists w|].
  destruct (stuck_step k w F i a H Hk HL Hp Hno) as (w1 & F1 & -> & H1 & Hp1 & <-). cbn [mbind option_bind]. eauto.
Qed.

(** ** It resumes *)

Lemma run_app acts1 : forall acts2 w,
  run PS FS w (acts1 ++ acts2) = (w' ← run PS FS w acts1; run PS FS w' acts2).
Proof.
  induction acts1 as [|a acts1 IH]; intros acts2 w; cbn [run app]; [done|].
  destruct (act PS FS w a); cbn [mbind option_bind]; [apply IH|done].
Qed.

Lemma drain_writes n : forall k w F,
  inv k w F -> length (w_open w) = n ->
  exists w', run PS FS w (replicate n (WriteData 0)) = Some w' /\ inv k w' F /\
    w_pending w' = w_pending w /\ w_open w' = [].
Proof.
  induction n as [|n IH]; intros k w F H Hn; cbn [replicate run].
  - exists w. split_and!; try done. by apply length_zero_iff_nil.
  - destruct (write_keeps k w F 0 H) as (w1 & -> & H1 & Hp1 & Ho1). cbn [mbind option_bind].
    destruct (IH k w1 F H1) as (w' & E & H' & Hp' & Ho').
    { rewrite Ho1 by lia. destruct (w_open w); [done|]. cbn in *. congruence. }
    exists w'. split_and!; try done. congruence.
Qed.

(** With all prepared records written only the padding is locked. *)
Lemma only_padding_locked k w F i :
  inv k w F -> w_open w = [] -> w_pending w = Some i ->
  (hasDummy i = true -> F < off (_dummyBlock i) / PS) -> locked w (F mod N) = false.
Proof.
  intros H Ho Hp HF. unfold locked, open_blocks. rewrite Ho, Hp. cbn [map concat app]. unfold dummies.
  destruct (hasDummy i) eqn:Ed; [|done]. specialize (HF eq_refl). cbn [existsb]. rewrite orb_false_r.
  set (d := _dummyBlock i) in *.
  assert (Hd : d ∈ open_blocks w).
  { unfold open_blocks. rewrite Hp. unfold dummies. rewrite Ed. apply elem_of_app. right. by apply list_elem_of_singleton. }
  destruct (open_in PS N FS w k F d H Hd) as [Hin _].
  destruct (inv_chain_in _ _ _ _ _ _ _ H Hin) as (y & cu & Hl & Hy).
  rewrite (lk_meta _ _ _ _ _ _ Hl), <- (lk_off _ _ _ _ _ _ Hl).
  pose proof (lk_size _ _ _ _ _ _ Hl) as Hsz. pose proof (lk_off _ _ _ _ _ _ Hl) as Eo.
  pose proof (rd_ring _ _ _ _ _ _ (s_ready _ _ _ _ _ _ _ (iv_state _ _ _ _ _ _ H))) as Hri.
  rewrite (st_num _ _ _ (ra_static _ _ _ _ _ Hri)).
  assert (Hlast : last_page PS (off d) (size d) < F + N).
  { unfold last_page. apply Z.div_lt_upper_bound; [done|]. pose proof (ra_high _ _ _ _ _ Hri). lia. }
  destruct (room_covers N _ (F mod N)) eqn:E; [|done]. exfalso. unfold room_covers, room in E. cbn [pageNum beginSub] in E.
  apply existsb_exists in E as (j & Hj & Ej). apply list_elem_of_In, elem_of_seqZ in Hj. apply Z.eqb_eq in Ej.
  pose proof (slot_range PS N HN (off d)). pose proof (N_bound PS N HPS HN HT).
  rewrite PAGE_is_mod in Ej by lia. unfold slot in Ej. rewrite Z.add_mod_idemp_l in Ej by lia.
  apply mod_inj_window in Ej; lia.
Qed.

Lemma drain_pages n : forall k w F i,
  inv k w F -> w_open w = [] -> w_pending w = Some i ->
  F + Z.of_nat n <= pos (w_mgr w) / PS ->
  (hasDummy i = true -> F + Z.of_nat n <= off (_dummyBlock i) / PS) ->
  exists w', run PS FS w (replicate n Flush) = Some w' /\ inv k w' (F + Z.of_nat n) /\
    w_pending w' = Some i /\ pos (w_mgr w') = pos (w_mgr w).
Proof.
  induction n as [|n IH]; intros k w F i H Ho Hp HL Hd; cbn [replicate run].
  - exists w. rewrite Z.add_0_r. done.
  - destruct (flush_step PS N FS HPS HN HT k w F H) as (w1 & F1 & -> & H1 & _ & Ho1 & Hp1 & Hl1 & Hf).
    cbn [mbind option_bind]. rewrite Hf in H1; [|lia|].
    + destruct (IH k w1 (F + 1) i H1) as (w' & E & H' & Hp' & Hl'); [congruence|congruence|rewrite Hl1; lia|intros Hd'; specialize (Hd Hd'); lia|].
      exists w'. rewrite Hl1 in Hl'. replace (F + Z.of_nat (S n)) with (F + 1 + Z.of_nat n) by lia. done.
    + apply (only_padding_locked k w F i); try done. intros Hd'. specialize (Hd Hd'). lia.
Qed.

Lemma resumes k w F i :
  inv k w F -> 0 <= k < 2 ^ 30 -> (k + 1) * (2 * FS) + N * PS < 2 ^ 63 -> w_pending w = Some i ->
  fits_behind i ->
  exists acts w', Forall in_background acts /\ run PS FS w acts = Some w' /\ w_pending w' = None.
Proof.
  intros H Hk HL Hp Hfit. destruct (drain_writes _ k w F H eq_refl) as (w1 & E1 & H1 & Hp1 & Ho1).
  rewrite Hp in Hp1. pose proof (iv_pending _ _ _ _ _ _ H1) as Hw. rewrite Hp1 in Hw.
  pose proof (rd_ring _ _ _ _ _ _ (s_ready _ _ _ _ _ _ _ (iv_state _ _ _ _ _ _ H1))) as Hri.
  pose proof (ra_low _ _ _ _ _ Hri) as Hlo. pose proof (div_bounds PS HPS (pos (w_mgr w1))) as Hdv.
  set (T := if hasDummy i then off (_dummyBlock i) / PS else pos (w_mgr w1) / PS).
  assert (HT' : F <= T <= pos (w_mgr w1) / PS /\ (hasDummy i = true -> T <= off (_dummyBlock i) / PS) /\
                size (_mergeBlock i) <= (T + N) * PS - pos (w_mgr w1)).
  { subst T. pose proof (ft_size _ _ _ _ _ (wa_fits _ _ _ _ _ Hw)) as Hsz. unfold fits_behind in Hfit.
    destruct (hasDummy i) eqn:Ed; [|split_and!; try lia; try done; nia].
    specialize (Hfit eq_refl). pose proof (wa_dummy _ _ _ _ _ Hw Ed) as Ep.
    assert (Hd : _dummyBlock i ∈ open_blocks w1).
    { unfold open_blocks. rewrite Hp1. unfold dummies. rewrite Ed. apply elem_of_app. right. by apply list_elem_of_singleton. }
    destruct (open_in PS N FS w1 k F _ H1 Hd) as [Hin HF].
    destruct (inv_chain_in _ _ _ _ _ _ _ H1 Hin) as (y & cu & Hl & Hy). pose proof (lk_size _ _ _ _ _ _ Hl).
    pose proof (Z.div_mod (off (_dummyBlock i)) PS ltac:(lia)).
    split_and!; [done|apply Z.div_le_mono; lia|done|nia]. }
  destruct HT' as (HT1 & HT2 & HT3).
  destruct (drain_pages (Z.to_nat (T - F)) k w1 F i) as (w2 & E2 & H2 & Hp2 & Hl2); try done; [lia|intros Hd; specialize (HT2 Hd); lia|].
  rewrite Z2Nat.id in H2 by lia. replace (F + (T - F)) with T in H2 by lia.
  pose proof (resume_outcome k w2 T i H2 Hk HL Hp2) as Hr. rewrite Hl2 in Hr.
  destruct (Z.leb_spec (size (_mergeBlock i)) ((T + N) * PS - pos (w_mgr w1))); [|lia].
  destruct Hr as (w3 & E3 & Hp3).
  exists ((replicate (length (w_open w)) (WriteData 0) ++ replicate (Z.to_nat (T - F)) Flush) ++ [Resume]), w3.
  split; [|split; [|done]].
  { rewrite !list.Forall_app. split_and!; [by apply list.Forall_replicate..|]. by apply list.Forall_singleton. }
  rewrite !run_app, E1. cbn [mbind option_bind]. rewrite E2. cbn [mbind option_bind run].
  by rewrite E3.
Qed.
End wait.
