(* ===== verification/DpsBufThms.v ===== *)
(** * The log buffer: theorems

    For any ring of at least two pages, any size of the log files and any
    interleaving of sessions and flusher from the empty log on. *)

From stdpp Require Import base list option.
From Stdlib Require Import ZArith Lia.
From S2P Require Import Prelude DpsLsn Mem DpsRecord DpsRecordFacts DpsOp2Record DpsOp2Thms DpsOp2Trip DpsThms.
From S2P Require Import DpsBuffer DpsRing DpsAlloc DpsRun DpsPlace DpsRunInv DpsRunThms.

Open Scope Z_scope.

(** ** A small setting: four pages of 64 bytes, log files of 512 bytes *)

(** A record with one element of [n] bytes. *)
Definition sample (n : nat) : dpsLogRecord :=
  mkRecord (mkHead DPS_INVALID_LSN_OFFSET DPS_INVALID_LSN_OFFSET (37 + Z.of_nat n) 0 LOG_TYPE_DATA_INSERT 0 0)
           (Some (replicate n 7) :: replicate 19 None) (mkEle 1 (Z.of_nat n) :: replicate 19 no_ele) 1 SDB_OK.

Definition sample_info (n : nat) : dpsMergeInfo :=
  mkInfo (mkBlock (sample n) meta_none false) (mkBlock record_init meta_none false) false.

Lemma sample_elem n : Z.of_nat n <= 123 -> elem_ok (mkElem 1 (Z.of_nat n) (replicate n 7)).
Proof. intros. constructor; cbn [e_tag e_len e_mem]; rewrite ?length_replicate; lia. Qed.

Lemma sample_ok n : (4 | 37 + Z.of_nat n) -> Z.of_nat n <= 123 -> info_ok 64 4 512 (sample_info n).
Proof.
  intros H4 Hn. constructor; cbn [_mergeBlock _dummyBlock sample_info]; try done.
  - cbn. lia.
  - exists [mkElem 1 (Z.of_nat n) (replicate n 7)]. split; [constructor; [cbn; lia|done|done|done|by repeat constructor]|].
    split; [constructor; [by apply sample_elem|done]|].
    split; [|split; [by right|by cbn]].
    rewrite body_cons_length by (by apply sample_elem). cbn [body length e_len]. cbn. lia.
  - intros _. cbn. lia.
Qed.

Lemma sample_59 : info_ok 64 4 512 (sample_info 59).
Proof. apply sample_ok; [by exists 24|lia]. Qed.
Lemma sample_91 : info_ok 64 4 512 (sample_info 91).
Proof. apply sample_ok; [by exists 32|lia]. Qed.
Lemma sample_123 : info_ok 64 4 512 (sample_info 123).
Proof. apply sample_ok; [by exists 40|lia]. Qed.

Ltac sample_setting :=
  constructor; [lia|lia|lia|lia|by exists 128|cbn; lia|];
  repeat (constructor; [first [exact I|exact sample_59|exact sample_91|exact sample_123]|]); constructor.

(** Prepare, write and flush a record of 96 bytes. *)
Definition round : list action := [Prepare (sample_info 59); WriteData 0; Flush; Flush].

(** ** The log *)

(** C16: However sessions prepare records, write them in any order, and the
    flusher runs, no step leaves a page or an array, and the records form one
    chain: each starts where the one before it ends, links back to it, is
    aligned, lies in one log file, and leaves nothing or more than a header
    of that file behind it.  Every record of the chain is one that was handed
    to [preparePages], with its own contents, or padding at the end of a
    file. *)
Theorem log_is_one_chain PS N FS (acts : list action) :
  setting PS N FS acts ->
  exists w, run PS FS (init PS N) acts = Some w /\
    chain PS N FS (w_log w) (pos (w_mgr w)) (cur (w_mgr w)) /\
    Forall (fun b => padding b \/ handed acts b) (w_log w).
Proof.
  intros [H1 H2 H3 H4 H5 H6 H7].
  destruct (reach PS N FS H1 H2 H3 H4 H5 acts H6 H7) as (w & F & E & H & Ho & _).
  exists w. split; [done|]. split; [apply H|apply Ho].
Qed.

Definition acts1 : list action :=
  [Prepare (sample_info 59); Prepare (sample_info 123); WriteData 1; WriteData 0; Flush; Flush; Flush; Flush;
   Prepare (sample_info 59); IncVersion; WriteData 0; Flush; Prepare (sample_info 59); WriteData 0; Flush; Flush;
   Prepare (sample_info 91); WriteData 0; Flush].

Lemma log_is_one_chain_witness :
  exists w, run 64 512 (init 64 4) acts1 = Some w /\
    map (fun b => (off b, size b, _version (block_head b), _type (block_head b))) (w_log w) =
      [(0, 96, 1, 1); (96, 160, 1, 1); (256, 96, 1, 1); (352, 96, 2, 1); (448, 64, 2, 0); (512, 128, 2, 1)] /\
    chain 64 4 512 (w_log w) (pos (w_mgr w)) (cur (w_mgr w)).
Proof.
  destruct (log_is_one_chain 64 4 512 acts1) as (w & E & Hc & _); [sample_setting|].
  exists w. split; [exact E|]. split; [|exact Hc]. vm_compute in E. injection E as <-. by vm_compute.
Defined.

(** ** Readers *)

(** [_search] finds every record that starts in the last pages of the
    ring, as soon as no writer holds its first page, and returns its length
    and exactly the bytes its writer wrote; for an older position it says
    that the record is not in the buffer, for a later one that it is out of
    range. *)
Theorem search_answers PS N FS (acts : list action) (w : world) (onlyHeader : bool) :
  setting PS N FS acts -> run PS FS (init PS N) acts = Some w -> w_log w <> [] ->
  let m := w_mgr w in
  let begin := first_page PS N (pos m) * PS in
  (forall b, b ∈ w_log w -> begin <= off b -> locked w (slot PS N (off b)) = false ->
     exists mem bs, _search PS m (off b) onlyHeader = Some (inr (mem, size b)) /\ block_bytes b = Some bs /\
       if onlyHeader then mem = head_bytes (block_head b)
       else bs `prefix_of` mem /\ Z.of_nat (length mem) = size b) /\
  (forall x, 0 <= x < begin -> _search PS m x onlyHeader = Some (inl SDB_DPS_LOG_NOT_IN_BUF)) /\
  (forall x, pos m <= x < 2 ^ 63 -> _search PS m x onlyHeader = Some (inl SDB_DPS_LSN_OUTOFRANGE)).
Proof.
  intros [H1 H2 H3 H4 H5 H6 H7] E Hne m begin.
  destruct (reach PS N FS H1 H2 H3 H4 H5 acts H6 H7) as (w' & F & E' & H & _ & HL).
  rewrite E in E'. injection E' as <-. assert (HL' : pos (w_mgr w) < 2 ^ 63) by nia.
  destruct (oldest_ok PS N FS H1 H2 H3 _ w F H HL' Hne) as (l & _ & _ & Hl). fold m begin in Hl.
  pose proof HL' as HL2. fold m in HL2.
  assert (0 <= begin) by (apply Z.mul_nonneg_nonneg; [unfold first_page|]; lia).
  split; [|split].
  - intros b Hb Hwin Hlock. by apply (search_ok PS N FS H1 H2 H3 _ w F b onlyHeader H HL').
  - intros x Hx. apply (search_outside PS N FS H1 H2 H3 _ w F x onlyHeader H HL' Hne); fold m begin; lia.
  - intros x Hx. apply (search_outside PS N FS H1 H2 H3 _ w F x onlyHeader H HL' Hne); fold m; lia.
Qed.

Lemma search_answers_witness :
  exists w, run 64 512 (init 64 4) acts1 = Some w /\
    (exists mem, _search 64 (w_mgr w) 512 false = Some (inr (mem, 128))) /\
    (exists mem, _search 64 (w_mgr w) 448 false = Some (inr (mem, 64))) /\
    _search 64 (w_mgr w) 352 false = Some (inl SDB_DPS_LOG_NOT_IN_BUF) /\
    _search 64 (w_mgr w) 640 false = Some (inl SDB_DPS_LSN_OUTOFRANGE).
Proof.
  destruct (run 64 512 (init 64 4) acts1) as [w|] eqn:E; [|by vm_compute in E]. exists w. split; [reflexivity|].
  destruct (search_answers 64 4 512 acts1 w false) as (S1 & S2 & S3); [sample_setting|done| |].
  - vm_compute in E. injection E as <-. done.
  - assert (Ep : pos (w_mgr w) = 640 /\ locked w 0 = false /\ locked w 3 = false).
    { vm_compute in E. injection E as <-. by vm_compute. }
    destruct Ep as (Ep & L0 & L3). rewrite Ep in *. cbv zeta in *.
    assert (Hb : forall k, (k < 6)%nat -> exists b, w_log w !! k = Some b /\
        (off b, size b) = nth k [(0, 96); (96, 160); (256, 96); (352, 96); (448, 64); (512, 128)] (0, 0)).
    { intros k Hk. vm_compute in E. injection E as <-. do 6 (destruct k; [eexists; by vm_compute|]). lia. }
    clear E. destruct (Hb 5%nat ltac:(lia)) as (b5 & I5%list_elem_of_lookup_2 & [= O5 Z5]).
    destruct (Hb 4%nat ltac:(lia)) as (b4 & I4%list_elem_of_lookup_2 & [= O4 Z4]).
    assert (B : first_page 64 4 640 * 64 = 448) by reflexivity. rewrite B in *.
    destruct (S1 b5 I5) as (m5 & _ & R5 & _); [lia|rewrite O5; exact L0|].
    destruct (S1 b4 I4) as (m4 & _ & R4 & _); [lia|rewrite O4; exact L3|].
    rewrite O5, Z5 in R5. rewrite O4, Z4 in R4.
    split; [by exists m5|]. split; [by exists m4|]. split; [apply S2; lia|apply S3; lia].
Defined.

(** ** The log files *)

(** The files get the log in order: they hold whole pages, every full
    page that they do not hold is in the queue of the flusher, and every
    record whose bytes reach the files stands there at its own LSN as its
    writer wrote it, although pages are handed over before they are filled. *)
Theorem files_hold_the_log PS N FS (acts : list action) (w : world) :
  setting PS N FS acts -> run PS FS (init PS N) acts = Some w ->
  Z.of_nat (length (w_file w)) + PS * Z.of_nat (length (_queue (w_mgr w))) = pos (w_mgr w) / PS * PS /\
  forall b bs, b ∈ w_log w -> block_bytes b = Some bs ->
    off b + Z.of_nat (length bs) <= Z.of_nat (length (w_file w)) ->
    exists pre post, w_file w = pre ++ bs ++ post /\ Z.of_nat (length pre) = off b.
Proof.
  intros [H1 H2 H3 H4 H5 H6 H7] E.
  destruct (reach PS N FS H1 H2 H3 H4 H5 acts H6 H7) as (w' & F & E' & H & _ & HL).
  rewrite E in E'. injection E' as <-. split.
  - by eapply (flushed_length PS N FS).
  - intros b bs Hb Eb Hle. exact (file_ok PS N FS _ w F b bs H Hb Eb Hle).
Qed.

Lemma files_hold_the_log_witness :
  exists w b bs, run 64 512 (init 64 4) acts1 = Some w /\ b ∈ w_log w /\ block_bytes b = Some bs /\
    off b = 352 /\ exists pre post, w_file w = pre ++ bs ++ post /\ Z.of_nat (length pre) = 352.
Proof.
  destruct (run 64 512 (init 64 4) acts1) as [w|] eqn:E; [|by vm_compute in E].
  destruct (files_hold_the_log 64 4 512 acts1 w) as [_ S]; [sample_setting|done|].
  assert (Hb : match w_log w !! 3%nat with
               | Some b => match block_bytes b with
                           | Some bs => (off b =? 352) &&
                               (off b + Z.of_nat (length bs) <=? Z.of_nat (length (w_file w)))
                           | None => false
                           end
               | None => false
               end = true) by (vm_compute in E; injection E as <-; reflexivity).
  destruct (w_log w !! 3%nat) as [b|] eqn:Eb; [|done]. destruct (block_bytes b) as [bs|] eqn:Ebs; [|done].
  apply andb_true_iff in Hb as [Eo%Z.eqb_eq Hle%Z.leb_le]. apply list_elem_of_lookup_2 in Eb as Hb.
  exists w, b, bs.
  destruct (S b bs Hb Ebs Hle) as (pre & post & E1 & E2). rewrite Eo in E2.
  split; [reflexivity|]. split; [exact Hb|]. split; [exact Ebs|]. split; [exact Eo|].
  exists pre, post. split; [exact E1|exact E2].
Defined.

(** ** Sessions that wait *)

(** C26: [preparePages] can wait for room in the middle, with the padding at
    the end of a log file placed and its pages locked.  If padding and record
    together fit into the ring, counted from the first page of the padding,
    then whatever the other sessions and the flusher have done since, the
    session can still go on, by writes of the sessions that have prepared
    and by the flusher alone.  Otherwise the flusher waits for the pages of
    the padding and the session for the flusher: whatever anybody does, it
    waits in every later state and no record is placed again. *)
Theorem waiting_session_resumes_iff PS N FS (acts : list action) (w : world) (i : dpsMergeInfo) :
  setting PS N FS acts -> run PS FS (init PS N) acts = Some w -> w_pending w = Some i ->
  let fits := hasDummy i = true ->
    off (_dummyBlock i) mod PS + size (_dummyBlock i) + size (_mergeBlock i) <= N * PS in
  (fits ->
   forall acts1 w1, setting PS N FS (acts ++ acts1) ->
     run PS FS w acts1 = Some w1 -> w_pending w1 = Some i ->
     exists acts2 w2, Forall in_background acts2 /\ run PS FS w1 acts2 = Some w2 /\ w_pending w2 = None) /\
  (~ fits ->
   forall acts1, exists w1, run PS FS w acts1 = Some w1 /\ w_pending w1 = Some i /\ w_log w1 = w_log w).
Proof.
  intros [H1 H2 H3 H4 H5 H6 H7] E Hp fits. split.
  - intros Hf acts1 w1 [_ _ _ _ _ H6' H7'] E1 Hp1.
    destruct (reach PS N FS H1 H2 H3 H4 H5 (acts ++ acts1) H6' H7') as (w' & F & E' & H & _ & HL).
    rewrite run_app, E in E'. cbn [mbind option_bind] in E'. rewrite E1 in E'. injection E' as <-.
    eapply (resumes PS N FS H1 H2 H3 H4 _ w1 F i H); [lia|nia|done|done].
  - intros Hno acts1. destruct (reach PS N FS H1 H2 H3 H4 H5 acts H6 H7) as (w' & F & E' & H & _ & HL).
    rewrite E in E'. injection E' as <-.
    eapply (stuck_run PS N FS H1 H2 H3 H4 acts1 _ w F i H); [lia|nia|done|done].
Qed.

(** Four records of 96 bytes, then one of 160 bytes: 128 bytes of padding and
    the record are more than the 256 bytes of the ring. *)
Definition acts_stuck : list action := round ++ round ++ round ++ round ++ [Prepare (sample_info 123)].

(** 96 bytes of padding and a record of 128 bytes just fit. *)
Definition acts_waits : list action :=
  [Prepare (sample_info 59); WriteData 0; Flush; Prepare (sample_info 123); WriteData 0; Flush; Flush; Flush;
   Prepare (sample_info 123); WriteData 0; Flush; Prepare (sample_info 91)].

Lemma waiting_session_resumes_iff_witness :
  (exists w, run 64 512 (init 64 4) acts_stuck = Some w /\ w_pending w <> None /\
     forall acts1, exists w1, run 64 512 w acts1 = Some w1 /\ w_pending w1 = w_pending w) /\
  (exists w w1, run 64 512 (init 64 4) acts_waits = Some w /\ w_pending w <> None /\
     run 64 512 w [Resume] = Some w1 /\ w_pending w1 = w_pending w /\
     exists acts2 w2, run 64 512 w1 acts2 = Some w2 /\ w_pending w2 = None).
Proof.
  split.
  - destruct (run 64 512 (init 64 4) acts_stuck) as [w|] eqn:E; [|by vm_compute in E]. exists w. split; [reflexivity|].
    assert (Hs : match w_pending w with
                 | Some i => hasDummy i = true /\
                     off (_dummyBlock i) mod 64 + size (_dummyBlock i) + size (_mergeBlock i) = 288
                 | None => False
                 end) by (vm_compute in E; injection E as <-; split; reflexivity).
    destruct (w_pending w) as [i|] eqn:Hp; [|destruct Hs]. destruct Hs as [Hd Hs]. split; [congruence|].
    destruct (waiting_session_resumes_iff 64 4 512 acts_stuck w i) as [_ Hno]; [sample_setting|exact E|exact Hp|].
    intros acts1. destruct Hno with (acts1 := acts1) as (w1 & E1 & Hp1 & _); [intros Hf; specialize (Hf Hd); lia|].
    exists w1. split; [exact E1|congruence].
  - destruct (run 64 512 (init 64 4) acts_waits) as [w|] eqn:E; [|by vm_compute in E].
    destruct (run 64 512 w [Resume]) as [w1|] eqn:E1; [|by vm_compute in E; injection E as <-; vm_compute in E1].
    exists w, w1. split; [reflexivity|].
    assert (Hs : match w_pending w with
                 | Some i => off (_dummyBlock i) mod 64 + size (_dummyBlock i) + size (_mergeBlock i) = 256
                 | None => False
                 end /\ w_pending w1 = w_pending w).
    { vm_compute in E. injection E as <-. vm_compute in E1. injection E1 as <-. split; reflexivity. }
    destruct Hs as [Hs Hp1].
    destruct (w_pending w) as [i|] eqn:Hp; [|destruct Hs]. split; [congruence|]. split; [exact E1|]. split; [exact Hp1|].
    destruct (waiting_session_resumes_iff 64 4 512 acts_waits w i) as [Hyes _]; [sample_setting|exact E|exact Hp|].
    destruct Hyes with (acts1 := [Resume]) (w1 := w1) as (acts2 & w2 & _ & E2 & Hn);
      [lia|sample_setting|exact E1|exact Hp1|]. exists acts2, w2. split; assumption.
Defined.

(** ** From one session to another *)

(** The bytes of a block of the log hold its record. *)
Lemma bytes_stored b r bs mem :
  _isRow b = false -> with_head (_record b) (_head r) = r -> block_bytes b = Some bs ->
  bs `prefix_of` mem -> Z.of_nat (length mem) = size b -> stored (with_head r (block_head b)) mem.
Proof.
  intros Hrow Er Ebs [pad ->] Hl. unfold block_bytes in Ebs. rewrite Hrow in Ebs.
  assert (E : with_head r (block_head b) = _record b) by (rewrite <- Er; apply with_head_back).
  rewrite E. destruct (merge_chunks false (_record b)) as [cs|] eqn:Ecs; [|done]. injection Ebs as <-.
  exists cs, pad, []. split; [done|]. rewrite app_nil_r. split; [done|].
  rewrite length_app in Hl. unfold block_head in Hl. lia.
Qed.

(** C25: An operation that one session encodes, hands to [preparePages] and
    writes is what another one decodes from the bytes that [_search] returns
    for its LSN, as long as it is among the last pages of the ring and no
    writer holds its first page, whatever other sessions and the flusher do
    in between. Its elements have to fit into a record of
    [DPS_RECORD_MAX_LEN] bytes, and the length the block was given must not
    exceed that either. What is decoded is the operation itself, except that
    of an update the sharding keys are read only when both are there, and
    the old key twice when the two compare equal. *)
Theorem logged_operation_found PS N FS woCompare bson_valid (acts : list action) (w : world)
    (op : logOp) (r : dpsLogRecord) (i : dpsMergeInfo) (b : dpsMergeBlock) :
  setting PS N FS acts -> run PS FS (init PS N) acts = Some w ->
  op_ok bson_valid op -> fits (elems_of woCompare op) ->
  encode woCompare bson_valid op record_init = Some (SDB_OK, r) ->
  Prepare i ∈ acts -> _record (_mergeBlock i) = r -> _isRow (_mergeBlock i) = false ->
  b ∈ w_log w -> same_record (_mergeBlock i) b -> size b <= DPS_RECORD_MAX_LEN ->
  first_page PS N (pos (w_mgr w)) * PS <= off b -> locked w (slot PS N (off b)) = false ->
  exists mem, _search PS (w_mgr w) (off b) false = Some (inr (mem, size b)) /\
    decode mem = Ret (seen woCompare op).
Proof.
  intros [H1 H2 H3 H4 H5 H6 H7] E Hop Hf Henc Hin Er Hrow Hb [S1 S2 S3 S4] Hmax Hwin Hlock.
  destruct (reach PS N FS H1 H2 H3 H4 H5 acts H6 H7) as (w' & F & E' & H & _ & HL).
  rewrite E in E'. injection E' as <-. assert (HL' : pos (w_mgr w) < 2 ^ 63) by nia.
  destruct (search_ok PS N FS H1 H2 H3 _ w F b false H HL' Hb Hwin Hlock) as (mem & bs & Es & Ebs & Hpre & Hl).
  exists mem. split; [done|]. destruct (inv_chain_in _ _ _ _ _ _ _ H Hb) as (y & cu & Hlk & _).
  destruct (lk_bytes _ _ _ _ _ _ Hlk) as (_ & _ & _ & _ & Hho). unfold block_head at 1 in S2. rewrite Er in S2.
  assert (Eh : block_head (_mergeBlock i) = _head r) by (unfold block_head; by rewrite Er). rewrite Eh in *.
  eapply (decode_stored woCompare bson_valid op r (block_head b)); [done|done|done|done|done|lia|].
  eapply bytes_stored; [congruence|exact S2|exact Ebs|done|done].
Qed.

(** The record of an insert, written while another session has prepared a
    record behind it. *)
Definition rec0 : dpsLogRecord :=
  match encode (fun _ _ => 0) (fun _ => true) op0 record_init with Some (_, r) => r | None => record_init end.
Definition info0 : dpsMergeInfo := mkInfo (mkBlock rec0 meta_none false) (mkBlock record_init meta_none false) false.
Definition acts_op : list action := [Prepare info0; Prepare (sample_info 59); WriteData 0; WriteData 0].

Lemma info0_ok : info_ok 64 4 512 info0.
Proof.
  constructor; try (by vm_compute).
  - by exists 16.
  - exists (elems_of (fun _ _ => 0) op0). split; [by constructor; vm_compute; try done; repeat constructor|].
    split; [repeat (constructor; [by constructor; vm_compute|]); constructor|].
    split; [by vm_compute|]. split; [by right|by vm_compute].
Qed.

Lemma op0_ok : op_ok (fun _ => true) op0.
Proof. split; [|by vm_compute]. split; [|by vm_compute]. repeat constructor; done. Qed.

Lemma op0_fits : fits (elems_of (fun _ _ => 0) op0).
Proof. by vm_compute. Qed.

Lemma logged_operation_found_witness :
  exists w mem, run 64 512 (init 64 4) acts_op = Some w /\
    _search 64 (w_mgr w) 0 false = Some (inr (mem, 64)) /\ decode mem = Ret op0.
Proof.
  destruct (run 64 512 (init 64 4) acts_op) as [w|] eqn:E; [|by vm_compute in E]. exists w.
  assert (Hb : match w_log w !! 0%nat with
               | Some b => same_record (_mergeBlock info0) b /\ (off b, size b) = (0, 64) /\
                   pos (w_mgr w) = 160 /\ locked w 0 = false
               | None => False
               end) by (vm_compute in E; injection E as <-; split; [by constructor; vm_compute|by vm_compute]).
  destruct (w_log w !! 0%nat) as [b|] eqn:Eb; [|destruct Hb].
  destruct Hb as (Hs & [= Eo Ez] & Ep & Hl). apply list_elem_of_lookup_2 in Eb.
  destruct (logged_operation_found 64 4 512 (fun _ _ => 0) (fun _ => true) acts_op w op0 rec0 info0 b)
    as (mem & E1 & E2).
  - constructor; [lia|lia|lia|lia|by exists 128|cbn; lia|].
    constructor; [exact info0_ok|]. constructor; [exact sample_59|]. repeat (constructor; [exact I|]). constructor.
  - exact E.
  - exact op0_ok.
  - exact op0_fits.
  - vm_compute. reflexivity.
  - apply list_elem_of_here.
  - reflexivity.
  - reflexivity.
  - exact Eb.
  - exact Hs.
  - rewrite Ez. apply Z.leb_le. reflexivity.
  - rewrite Ep, Eo. apply Z.leb_le. reflexivity.
  - rewrite Eo. exact Hl.
  - exists mem. rewrite Eo, Ez in E1. split; [reflexivity|]. split; [exact E1|]. exact E2.
Defined.
