(* ===== verification/DpsLogFile.v ===== *)
(** * The files of the replication log

    Models [dps/dpsLogFile.cpp] and [dps/dpsLogFileMgr.cpp]: a fixed number
    of files of the same size that are written one after the other and
    reused in turn, each with a header that names the part of the log it
    holds.  The operating system's files are the class [PosixFile]; reads and
    writes may be short.  The header of a file is kept as the record it
    holds, in memory and on disk, apart from the data that follows it.
    [None] is an access outside of an array, or [ossPanic]. *)

From stdpp Require Import base list option.
From Stdlib Require Import ZArith Lia.
From S2P Require Import Prelude DpsLsn Mem DpsRecord DpsBuffer.

Open Scope Z_scope.

(** ** The operating system *)

(** [pwrite] gives a return code, the number of bytes written and the new
    contents, [pread] a return code and the bytes. *)
Class PosixFile := {
  pwrite : list Z -> Z -> list Z -> Z * Z * list Z;
  pread : list Z -> Z -> Z -> Z * list Z
}.

Definition overwrite (f : list Z) (off : Z) (bs : list Z) : list Z :=
  take (Z.to_nat off) f ++ bs ++ drop (Z.to_nat off + length bs) f.

(** A transfer inside of the file makes progress. *)
Class PosixFileSpec `{PosixFile} : Prop := {
  pwrite_ok f off bs : bs <> [] -> 0 <= off -> off + Z.of_nat (length bs) <= Z.of_nat (length f) ->
    exists n, 0 < n <= Z.of_nat (length bs) /\
      pwrite f off bs = (SDB_OK, n, overwrite f off (take (Z.to_nat n) bs));
  pread_ok f off len : 0 < len -> 0 <= off -> off + len <= Z.of_nat (length f) ->
    exists n, 0 < n <= len /\ pread f off len = (SDB_OK, take (Z.to_nat n) (drop (Z.to_nat off) f))
}.

(** ** One file *)

Definition DPS_INVALID_LOG_FILE_ID : Z := 0xFFFFFFFF.

Definition DPS_LOG_HEADER_EYECATCHER : list Z := [83; 68; 66; 76; 79; 71; 72; 68].

Definition DPS_LOG_FILE_VERSION1 : Z := 1.

Record dpsLogHeader : Set := mkLogHeader {
  _eyeCatcher : list Z;
  _firstLSN : DPS_LSN;
  _logID : Z;
  lh_version : Z;
  lh_fileSize : Z;
  lh_fileNum : Z
}.

Definition logHeader_init : dpsLogHeader :=
  mkLogHeader DPS_LOG_HEADER_EYECATCHER LSN_INVALID DPS_INVALID_LOG_FILE_ID DPS_LOG_FILE_VERSION1 0 0.

Definition with_first (h : dpsLogHeader) (first : DPS_LSN) (logID : Z) : dpsLogHeader :=
  mkLogHeader (_eyeCatcher h) first logID (lh_version h) (lh_fileSize h) (lh_fileNum h).

Record dpsLogFile : Set := mkLogFile {
  lf_data : list Z;
  lf_idleSize : Z;
  _logHeader : dpsLogHeader;
  _diskHeader : dpsLogHeader;
  _dirty : bool
}.

Section files.
Context `{PosixFile} (PS FS num : Z).

(** [idleSize( size )] *)
Definition set_idleSize (f : dpsLogFile) (n : Z) : dpsLogFile :=
  mkLogFile (lf_data f) n (_logHeader f) (_diskHeader f) (_dirty f).

Definition set_data (f : dpsLogFile) (d : list Z) : dpsLogFile :=
  mkLogFile d (lf_idleSize f) (_logHeader f) (_diskHeader f) true.

(** [_initHead] *)
Definition _initHead (h : dpsLogHeader) (logID : Z) : dpsLogHeader :=
  mkLogHeader DPS_LOG_HEADER_EYECATCHER (_firstLSN h) logID DPS_LOG_FILE_VERSION1 FS num.

(** [init] of a new file. *)
Definition logFile_new : dpsLogFile :=
  let h := _initHead logHeader_init DPS_INVALID_LOG_FILE_ID in
  mkLogFile (replicate (Z.to_nat FS) 0) FS h h true.

Definition logFile_length (f : dpsLogFile) : Z := u32 (FS - lf_idleSize f).

(** [getFirstLSN] *)
Definition getFirstLSN (f : dpsLogFile) (mustExist : bool) : DPS_LSN :=
  let first := _firstLSN (_logHeader f) in
  if negb (_logID (_logHeader f) =? DPS_INVALID_LOG_FILE_ID) &&
     ((mustExist && (lsn_offset first mod FS <? u32 (FS - lf_idleSize f))) || negb mustExist)
  then first else LSN_INVALID.

(** [getValidLength] *)
Definition getValidLength (f : dpsLogFile) : Z :=
  let first := lsn_offset (_firstLSN (_logHeader f)) in
  if DPS_INVALID_LSN_OFFSET =? first then u32 (FS - lf_idleSize f)
  else u32 (FS - lf_idleSize f - first mod FS).

(** [_flushHeader] *)
Definition _flushHeader (f : dpsLogFile) : dpsLogFile :=
  mkLogFile (lf_data f) (lf_idleSize f) (_logHeader f) (_logHeader f) true.

(** [reset] *)
Definition logFile_reset (f : dpsLogFile) (logID offset version : Z) : dpsLogFile :=
  let first := if negb (DPS_INVALID_LOG_FILE_ID =? logID) then mkLSN offset version else LSN_INVALID in
  _flushHeader (mkLogFile (lf_data f) FS (with_first (_logHeader f) first logID) (_diskHeader f) false).

(** The loop over [ossSeekAndWrite]; a round writes at least one byte. *)
Fixpoint write_loop (fuel : nat) (data : list Z) (off : Z) (content : list Z) : option (Z * list Z) :=
  match content with
  | [] => Some (SDB_OK, data)
  | _ :: _ =>
      match fuel with
      | O => None
      | S fuel' =>
          let '(rc, n, data) := pwrite data off content in
          if rc =? SDB_OK then write_loop fuel' data (off + n) (drop (Z.to_nat n) content)
          else Some (rc, data)
      end
  end.

(** [write]: a failure ends the process. *)
Definition logFile_write (f : dpsLogFile) (content : list Z) : option dpsLogFile :=
  let len := Z.of_nat (length content) in
  if (len <=? lf_idleSize f) && (lf_idleSize f <=? FS) then
    '(rc, data) ← write_loop (length content) (lf_data f) (FS - lf_idleSize f) content;
    if rc =? SDB_OK then Some (set_idleSize (set_data f data) (lf_idleSize f - len)) else None
  else None.

Fixpoint read_loop (fuel : nat) (data : list Z) (off len : Z) : option (Z * list Z) :=
  if 0 <? len then
    match fuel with
    | O => None
    | S fuel' =>
        let '(rc, bs) := pread data off len in
        if rc =? SDB_OK then
          let n := Z.of_nat (length bs) in
          '(rc, rest) ← read_loop fuel' data (off + n) (len - n);
          Some (rc, bs ++ rest)
        else Some (rc, bs)
    end
  else Some (SDB_OK, []).

(** [read], of the file as it is when the wait for its writer ends. *)
Definition logFile_read (f : dpsLogFile) (lOffset len : Z) : option (Z * list Z) :=
  let offset := lOffset mod FS in
  let first := lsn_offset (_firstLSN (_logHeader f)) in
  if (lOffset <? first) || (u64 (first + FS) <? lOffset) then Some (SDB_DPS_LOG_NOT_IN_FILE, [])
  else read_loop (Z.to_nat len) (lf_data f) offset len.

(** [sync] *)
Definition logFile_sync (f : dpsLogFile) : dpsLogFile :=
  mkLogFile (lf_data f) (lf_idleSize f) (_logHeader f) (_diskHeader f) false.

(** ** The files in turn *)

Record dpsLogFileMgr : Set := mkFileMgr {
  _files : list dpsLogFile;
  fm_work : Z;
  _logicalWork : Z;
  fm_begin : Z;
  fm_rollFlag : bool
}.

Definition set_file (fm : dpsLogFileMgr) (i : Z) (f : dpsLogFile) : option dpsLogFileMgr :=
  fs ← wr (_files fm) i f;
  Some (mkFileMgr fs (fm_work fm) (_logicalWork fm) (fm_begin fm) (fm_rollFlag fm)).

(** The constructor and [init] with new files. *)
Definition fileMgr_init : dpsLogFileMgr := mkFileMgr (replicate (Z.to_nat num) logFile_new) 0 0 0 false.

Definition _incFileID (fileID : Z) : Z := let id := u32 (fileID + 1) in if num <=? id then 0 else id.

Definition _decFileID (fileID : Z) : Z := if 0 =? fileID then u32 (num - 1) else fileID - 1.

(** [LOG_FILE( a )] *)
Definition LOG_FILE (fm : dpsLogFileMgr) (a : Z) : option dpsLogFile := rd (_files fm) (a mod num).

(** [getStartLSN] *)
Definition getStartLSN (fm : dpsLogFileMgr) (mustExist : bool) : option DPS_LSN :=
  f ← LOG_FILE fm (u32 (fm_work fm + 1));
  let lsn := getFirstLSN f mustExist in
  if negb (lsn_invalid lsn) then Some lsn
  else f ← LOG_FILE fm (fm_begin fm); Some (getFirstLSN f mustExist).

(** The working file is full: go to the next one. *)
Definition next_file (fm : dpsLogFileMgr) : dpsLogFileMgr :=
  let work := _incFileID (fm_work fm) in
  let logical := u32 (_logicalWork fm + 1) in
  if negb (fm_rollFlag fm) && negb (fm_begin fm =? work)
  then mkFileMgr (_files fm) work logical (fm_begin fm) true
  else if (fm_begin fm =? work) && fm_rollFlag fm
  then mkFileMgr (_files fm) work logical (_incFileID (fm_begin fm)) (fm_rollFlag fm)
  else mkFileMgr (_files fm) work logical (fm_begin fm) (fm_rollFlag fm).

(** [flush]: a page, its allocated length and its begin LSN. *)
Definition flush (fm : dpsLogFileMgr) (mb : list Z) (len : Z) (beginLsn : DPS_LSN)
    : option (Z * dpsLogFileMgr) :=
  f ← rd (_files fm) (fm_work fm);
  let fm := if lf_idleSize f =? 0 then next_file fm else fm in
  f ← rd (_files fm) (fm_work fm);
  let f := if (lf_idleSize f =? 0) || (lf_idleSize f =? FS)
           then logFile_reset f (_logicalWork fm) (lsn_offset beginLsn) (lsn_version beginLsn) else f in
  content ← rd_range mb 0 PS;
  f ← logFile_write f content;
  let f := if negb (PS =? len) then set_idleSize f (u32 (lf_idleSize f + PS)) else f in
  fm ← set_file fm (fm_work fm) f;
  Some (SDB_OK, fm).

(** [load]: the record at [lsn], or its header only, with its length. *)
Definition fileMgr_load (fm : dpsLogFileMgr) (lsn : Z) (onlyHeader : bool) : option (Z + list Z * Z) :=
  let sub := (lsn / FS) mod num in
  f ← LOG_FILE fm sub;
  '(rc, hb) ← logFile_read f lsn sizeof_head;
  if negb (rc =? SDB_OK) then Some (inl rc)
  else
    head ← read_head hb;
    if negb (lsn =? _lsn head) then Some (inl SDB_DPS_LOG_NOT_IN_FILE)
    else if _length head <? sizeof_head then Some (inl SDB_DPS_CORRUPTED_LOG)
    else if onlyHeader then Some (inr (hb, _length head))
    else
      '(rc, bs) ← logFile_read f (u64 (lsn + sizeof_head)) (_length head - sizeof_head);
      if negb (rc =? SDB_OK) then Some (inl rc) else Some (inr (hb ++ bs, _length head)).

(** [sync]: one round more than there are files, beginning behind the working
    one. *)
Fixpoint sync_loop (k : nat) (fm : dpsLogFileMgr) (j : Z) : option dpsLogFileMgr :=
  match k with
  | O => Some fm
  | S k' =>
      f ← LOG_FILE fm j;
      fm ← (if negb (_dirty f) then Some fm else set_file fm (j mod num) (logFile_sync f));
      sync_loop k' fm (u32 (j + 1))
  end.

Definition fileMgr_sync (fm : dpsLogFileMgr) : option dpsLogFileMgr :=
  sync_loop (S (length (_files fm))) fm (u32 (fm_work fm + 1)).

(** ** The manager over its files *)

Definition DPS_SEARCH_FILE : Z := 0x10.

(** [search] *)
Definition search (m : dpsReplicaLogMgr) (fm : dpsLogFileMgr) (lsn type : Z) (onlyHeader : bool)
    : option (Z + list Z * Z) :=
  if DPS_INVALID_LSN_OFFSET =? lsn then Some (inl SDB_DPS_LOG_NOT_IN_FILE)
  else
    o ← _search PS m lsn onlyHeader;
    match o with
    | inl rc =>
        if (SDB_DPS_LOG_NOT_IN_BUF =? rc) && negb (Z.land DPS_SEARCH_FILE type =? 0)
        then fileMgr_load fm lsn onlyHeader else Some (inl rc)
    | inr r => Some (inr r)
    end.

(** [getStartLsn] *)
Definition getStartLsn (m : dpsReplicaLogMgr) (fm : dpsLogFileMgr) (logBufOnly : bool) : option DPS_LSN :=
  memBeginLsn ← _getStartLsn m;
  if logBufOnly then Some memBeginLsn
  else
    lsn ← getStartLSN fm true;
    Some (if lsn_invalid lsn || (lsn_offset memBeginLsn <? lsn_offset lsn) then memBeginLsn else lsn).

(** [getLsnWindow]: the beginnings of files and memory, the last, the
    expected and the committed LSN. *)
Definition getLsnWindow (m : dpsReplicaLogMgr) (fm : dpsLogFileMgr)
    : option (DPS_LSN * DPS_LSN * DPS_LSN * DPS_LSN * DPS_LSN) :=
  memBeginLsn ← _getStartLsn m;
  fileBeginLsn ← getStartLSN fm true;
  let fileBeginLsn :=
    if lsn_invalid fileBeginLsn || (lsn_offset memBeginLsn <? lsn_offset fileBeginLsn)
    then memBeginLsn else fileBeginLsn in
  Some (fileBeginLsn, memBeginLsn, _currentLsn m, m_lsn m, _lastCommitted m).

(** [run] and [_flushPage] over the files; the pages switched to another file
    are announced with the numbers of the files. *)
Definition flushPage (m : dpsReplicaLogMgr) (fm : dpsLogFileMgr) (i : Z)
    : option (Z * dpsReplicaLogMgr * dpsLogFileMgr * option (Z * Z * Z * Z)) :=
  page ← rd (_pages m) i;
  '(rc, fm') ← flush fm (_mb page) (_mbLength page) (_beginLSN page);
  if negb (rc =? SDB_OK) then Some (rc, m, fm', None)
  else
    m ← flushed m i;
    Some (SDB_OK, m, fm',
          if negb (fm_work fm =? fm_work fm')
          then Some (_logicalWork fm, fm_work fm, _logicalWork fm', fm_work fm') else None).

(** [run], and a round of [_flushAll]. *)
Definition run_files (m : dpsReplicaLogMgr) (fm : dpsLogFileMgr)
    : option (Z * dpsReplicaLogMgr * dpsLogFileMgr) :=
  match _queue m with
  | [] => Some (SDB_OK, m, fm)
  | i :: q => '(rc, m, fm, _) ← flushPage (set_queue m q (_queSize m)) fm i; Some (rc, m, fm)
  end.

(** [_flushAll] *)
Fixpoint flushAll_loop (fuel : nat) (m : dpsReplicaLogMgr) (fm : dpsLogFileMgr)
    : option (Z * dpsReplicaLogMgr * dpsLogFileMgr) :=
  match _queue m, fuel with
  | [], _ => Some (SDB_OK, m, fm)
  | _ :: _, O => None
  | _ :: _, S fuel' =>
      '(rc, m, fm) ← run_files m fm;
      if rc =? SDB_OK then flushAll_loop fuel' m fm else Some (rc, m, fm)
  end.

Definition _flushAll (m : dpsReplicaLogMgr) (fm : dpsLogFileMgr) := flushAll_loop (length (_queue m)) m fm.

(** [ossMemset( writePtr(), 0, getLastSize() )] *)
Definition zero_rest (page : dpsLogPage) : option dpsLogPage :=
  mb ← wr_range (_mb page) (_mbLength page) (replicate (Z.to_nat (lastSize PS page)) 0);
  Some (with_mb page mb).

(** [commit], with the queue empty and the writers of the working page done. *)
Definition commit (m : dpsReplicaLogMgr) (fm : dpsLogFileMgr) (deeply : bool)
    : option (Z * dpsReplicaLogMgr * dpsLogFileMgr) :=
  if lsn_compare (_lastCommitted m) (_currentLsn m) =? 0 then Some (SDB_OK, m, fm)
  else
    page ← rd (_pages m) (_work m);
    '(rc, m, fm) ←
      (if negb (0 =? _mbLength page) then
         page ← zero_rest page;
         m ← set_page m (_work m) page;
         '(rc, fm) ← flush fm (_mb page) (_mbLength page) (_beginLSN page);
         Some (rc, m, fm)
       else Some (SDB_OK, m, fm));
    if negb (rc =? SDB_OK) then Some (rc, m, fm)
    else
      fm ← (if deeply then fileMgr_sync fm else Some fm);
      Some (SDB_OK, set_committed m (_currentLsn m), fm).

(** [tearDown] *)
Definition tearDown (m : dpsReplicaLogMgr) (fm : dpsLogFileMgr)
    : option (Z * dpsReplicaLogMgr * dpsLogFileMgr) :=
  '(rc, m, fm) ← _flushAll m fm;
  if negb (rc =? SDB_OK) then Some (rc, m, fm)
  else
    let i := _work m in
    page ← rd (_pages m) i;
    if 0 =? _mbLength page then Some (SDB_OK, m, fm)
    else
      let m := set_ring m (_incPageID m (_work m)) (_begin m) (_rollFlag m) in
      page ← zero_rest page;
      m ← set_page m i page;
      '(rc, m, fm, _) ← flushPage (set_queue m (_queue m) (_queSize m + 1)) fm i;
      Some (rc, m, fm).

(** [merge] *)
Definition merge (transOn : bool) (m : dpsReplicaLogMgr) (block : dpsMergeBlock) : option (prepared + dpsReplicaLogMgr) :=
  p ← preparePages PS FS m (mkInfo block (mkBlock record_init meta_none false) false);
  match p with
  | Prepared rc m i _ =>
      if rc =? SDB_OK then '(m, _) ← writeData PS transOn m i; Some (inr m) else Some (inl p)
  | _ => Some (inl p)
  end.

End files.
