(* ===== verification/DpsLogFileFacts.v ===== *)
(** * The log files: they hold the last files of the log

    Over the contract of the operating system's files, writing and reading
    are complete although single transfers may be short, and the rotating
    files represent the end of the sequence of pages written so far. *)

From stdpp Require Import base list option.
From Stdlib Require Import ZArith Lia.
From S2P Require Import Prelude DpsLsn Mem DpsRecord DpsRecordFacts DpsBuffer DpsRing DpsLogFile.

Open Scope Z_scope.

(** ** Transfers *)

Lemma overwrite_length f off bs :
  0 <= off -> off + Z.of_nat (length bs) <= Z.of_nat (length f) -> length (overwrite f off bs) = length f.
Proof. intros. unfold overwrite. rewrite !length_app, length_take, length_drop. lia. Qed.

Lemma overwrite_app f off a b :
  0 <= off -> off + Z.of_nat (length (a ++ b)) <= Z.of_nat (length f) ->
  overwrite (overwrite f off a) (off + Z.of_nat (length a)) b = overwrite f off (a ++ b).
Proof.
  intros H0 Hl. rewrite length_app in Hl. unfold overwrite.
  replace (Z.to_nat (off + Z.of_nat (length a))) with (length (take (Z.to_nat off) f ++ a))
    by (rewrite length_app, length_take; lia).
  rewrite (app_assoc _ a). rewrite take_app_length.
  rewrite <- !app_assoc. do 3 f_equal.
  rewrite drop_app_ge by (rewrite !length_app, !length_take; lia).
  rewrite drop_app_ge by (rewrite !length_app, !length_take; lia).
  rewrite drop_drop. f_equal. rewrite !length_app, !length_take. lia.
Qed.

Lemma overwrite_nil f off : 0 <= off <= Z.of_nat (length f) -> overwrite f off [] = f.
Proof. intros. unfold overwrite. cbn. by rewrite Nat.add_0_r, take_drop. Qed.

Lemma rd_overwrite f off bs i :
  0 <= off -> off + Z.of_nat (length bs) <= Z.of_nat (length f) ->
  rd (overwrite f off bs) i =
    if (off <=? i) && (i <? off + Z.of_nat (length bs)) then rd bs (i - off) else rd f i.
Proof.
  intros H0 Hl. apply (rd_wr_range_at f bs (overwrite f off bs) off i). apply wr_range_Some.
  split_and!; [lia|lia|done].
Qed.

Section io.
Context {IO : PosixFile} {IOok : PosixFileSpec}.

Lemma write_loop_ok fuel : forall data off bs,
  (length bs <= fuel)%nat -> 0 <= off -> off + Z.of_nat (length bs) <= Z.of_nat (length data) ->
  write_loop fuel data off bs = Some (SDB_OK, overwrite data off bs).
Proof.
  induction fuel as [|fuel IH]; intros data off bs Hf H0 Hl.
  { destruct bs; [|cbn in Hf; lia]. cbn [write_loop]. rewrite overwrite_nil; [done|lia]. }
  destruct bs as [|b bs']; [cbn [write_loop]; rewrite overwrite_nil; [done|lia]|].
  cbn [write_loop]. set (bs := b :: bs') in *.
  destruct (pwrite_ok data off bs) as (n & Hn & ->); [done|done|lia|]. rewrite Z.eqb_refl.
  assert (Ht : Z.of_nat (length (take (Z.to_nat n) bs)) = n) by (rewrite length_take; lia).
  rewrite IH.
  - do 2 f_equal. rewrite <- Ht at 2. rewrite overwrite_app; rewrite ?take_drop; (done || lia).
  - rewrite length_drop. lia.
  - lia.
  - rewrite overwrite_length by (rewrite ?length_take; lia). rewrite length_drop. lia.
Qed.

Lemma read_loop_ok fuel : forall data off len,
  (Z.to_nat len <= fuel)%nat -> 0 <= len -> 0 <= off -> off + len <= Z.of_nat (length data) ->
  read_loop fuel data off len = Some (SDB_OK, take (Z.to_nat len) (drop (Z.to_nat off) data)).
Proof.
  induction fuel as [|fuel IH]; intros data off len Hf Hl H0 Hr.
  { cbn [read_loop]. destruct (Z.ltb_spec 0 len); [lia|]. by replace len with 0 by lia. }
  cbn [read_loop]. destruct (Z.ltb_spec 0 len); [|by replace len with 0 by lia].
  destruct (pread_ok data off len) as (n & Hn & ->); [done|done|done|]. rewrite Z.eqb_refl.
  set (t := take (Z.to_nat n) (drop (Z.to_nat off) data)).
  assert (Ht : Z.of_nat (length t) = n) by (subst t; rewrite length_take, length_drop; lia).
  rewrite Ht, IH by lia. cbn [mbind option_bind]. do 2 f_equal. subst t.
  replace (Z.to_nat (off + n)) with (Z.to_nat off + Z.to_nat n)%nat by lia. rewrite <- drop_drop.
  replace (Z.to_nat len) with (Z.to_nat n + Z.to_nat (len - n))%nat by lia.
  by rewrite <- take_take_drop.
Qed.
End io.

(** ** Representation *)

Section rep.
Context {IO : PosixFile} {IOok : PosixFileSpec} (PS FS num : Z).
Context (HPS : 0 < PS) (HFS : 0 < FS < 2 ^ 31) (HPF : (PS | FS)) (Hnum : 2 <= num < 2 ^ 31).

(** The number of the file that byte [n - 1] of the log is in. *)
Definition last_file (n : Z) : Z := if n =? 0 then 0 else (n - 1) / FS.

(** What the header says of the configuration, in memory and on disk. *)
Definition head_fits (lf : dpsLogFile) : Prop :=
  _diskHeader lf = _logHeader lf /\ _eyeCatcher (_logHeader lf) = DPS_LOG_HEADER_EYECATCHER /\
  lh_version (_logHeader lf) = DPS_LOG_FILE_VERSION1 /\ lh_fileSize (_logHeader lf) = FS /\
  lh_fileNum (_logHeader lf) = num.

(** File number [q] of the log [f]: it holds its part of the log, or nothing
    was ever written to it. *)
Definition file_holds (f : list Z) (q : Z) (lf : dpsLogFile) : Prop :=
  let n := Z.of_nat (length f) in
  (Z.of_nat (length (lf_data lf)) = FS /\ head_fits lf) /\
  if (0 <=? q) && (q * FS <? n) then
    lf_idleSize lf = (q + 1) * FS - Z.min n ((q + 1) * FS) /\
    _logID (_logHeader lf) = q /\ lsn_offset (_firstLSN (_logHeader lf)) = q * FS /\
    lsn_version (_firstLSN (_logHeader lf)) <> 0 /\
    forall x, q * FS <= x < Z.min n ((q + 1) * FS) -> rd (lf_data lf) (x - q * FS) = rd f x
  else lf_idleSize lf = FS /\ _firstLSN (_logHeader lf) = LSN_INVALID /\
    _logID (_logHeader lf) = DPS_INVALID_LOG_FILE_ID.

(** The oldest file when file [J] is written. *)
Definition first_file (J : Z) : Z := Z.max 0 (J - num + 1).

(** The manager when it writes file [J]. *)
Record mgr_at (fm : dpsLogFileMgr) (J : Z) : Prop := {
  ma_num : Z.of_nat (length (_files fm)) = num;
  ma_work : fm_work fm = J mod num;
  ma_logical : _logicalWork fm = J;
  ma_begin : fm_begin fm = first_file J mod num;
  ma_roll : fm_rollFlag fm = (1 <=? J)
}.

(** The last files hold the end of the log [f]. *)
Definition files_hold (fm : dpsLogFileMgr) (f : list Z) : Prop :=
  forall q, last_file (Z.of_nat (length f)) - num < q <= last_file (Z.of_nat (length f)) ->
    exists lf, rd (_files fm) (q mod num) = Some lf /\ file_holds f q lf.

(** The files while the log [f] is written to them in pages. *)
Record files_rep (fm : dpsLogFileMgr) (f : list Z) : Prop := {
  fr_pages : (PS | Z.of_nat (length f));
  fr_mgr : mgr_at fm (last_file (Z.of_nat (length f)));
  fr_file : files_hold fm f
}.

Lemma init_rep : files_rep (fileMgr_init FS num) [].
Proof.
  constructor; cbn [length]; try change (last_file (Z.of_nat 0)) with 0; [by exists 0| |].
  - constructor; cbn [_files fm_work _logicalWork fm_begin fm_rollFlag fileMgr_init]; try done.
    + rewrite length_replicate. lia.
    + unfold first_file. rewrite Z.max_l by lia. by rewrite Z.mod_0_l by lia.
  - intros q Hq. eexists. split.
    + unfold rd. pose proof (Z.mod_pos_bound q num ltac:(lia)). destruct (Z.leb_spec 0 (q mod num)); [|lia].
      apply lookup_replicate. split; [done|lia].
    + unfold file_holds. cbv zeta. cbn [length lf_data lf_idleSize _logHeader logFile_new Z.of_nat].
      rewrite length_replicate. split; [split; [lia|done]|].
      destruct (Z.leb_spec 0 q), (Z.ltb_spec (q * FS) (Z.of_nat 0)); cbn [andb];
        (by split) || (exfalso; nia).
Qed.

Lemma num_inj a b : a mod num = b mod num -> - num < a - b < num -> a = b.
Proof.
  intros E Hd. pose proof (Z.div_mod a num ltac:(lia)). pose proof (Z.div_mod b num ltac:(lia)).
  set (k := a / num - b / num). assert (a - b = num * k) by lia. assert (k = 0) by nia. nia.
Qed.

Lemma last_file_bounds n : 0 < n -> last_file n * FS < n <= (last_file n + 1) * FS.
Proof.
  intros. unfold last_file. destruct (Z.eqb_spec n 0); [lia|].
  pose proof (Z.div_mod (n - 1) FS ltac:(lia)). pose proof (Z.mod_pos_bound (n - 1) FS ltac:(lia)). nia.
Qed.

Lemma last_file_unique n q : 0 < n -> q * FS < n <= (q + 1) * FS -> last_file n = q.
Proof. intros Hn Hq. pose proof (last_file_bounds n Hn). nia. Qed.

Lemma last_file_nonneg n : 0 <= n -> 0 <= last_file n.
Proof. intros. unfold last_file. destruct (Z.eqb_spec n 0); [lia|]. apply Z.div_pos; lia. Qed.

(** ** Writing a page *)

Lemma rd_range_all (mb : list Z) : Z.of_nat (length mb) = PS -> rd_range mb 0 PS = Some mb.
Proof. intros. apply rd_range_Some. split_and!; [lia|lia|lia|]. rewrite drop_0, take_ge; [done|lia]. Qed.

Lemma file_written f mb q lf :
  Z.of_nat (length (lf_data lf)) = FS -> head_fits lf -> Z.of_nat (length mb) = PS -> 0 <= q ->
  let n := Z.of_nat (length f) in
  (forall x, q * FS <= x < n -> rd (lf_data lf) (x - q * FS) = rd f x) ->
  q * FS <= n -> n + PS <= (q + 1) * FS -> lf_idleSize lf = (q + 1) * FS - n ->
  _logID (_logHeader lf) = q -> lsn_offset (_firstLSN (_logHeader lf)) = q * FS ->
  lsn_version (_firstLSN (_logHeader lf)) <> 0 ->
  exists lf', logFile_write FS lf mb = Some lf' /\ file_holds (f ++ mb) q lf'.
Proof.
  intros Hd Hhf Hmb Hq n Hh H1 H2 Hi Hid Hfi Hv. unfold logFile_write. rewrite Hi, Hmb.
  destruct (Z.leb_spec PS ((q + 1) * FS - n)); [|lia]. destruct (Z.leb_spec ((q + 1) * FS - n) FS); [|lia].
  cbn [andb]. rewrite write_loop_ok by lia. cbn [mbind option_bind]. rewrite Z.eqb_refl.
  eexists. split; [done|]. unfold file_holds. cbn [set_idleSize set_data lf_data lf_idleSize _logHeader].
  rewrite length_app, Nat2Z.inj_add, Hmb. fold n. split; [split; [rewrite overwrite_length by lia; done|done]|].
  destruct (Z.leb_spec 0 q); [|lia]. destruct (Z.ltb_spec (q * FS) (n + PS)); [|lia]. cbn [andb].
  split_and!; try done; [lia|]. intros x Hx. rewrite rd_overwrite by lia. rewrite rd_app. fold n. rewrite Hmb.
  destruct (Z.leb_spec (FS - ((q + 1) * FS - n)) (x - q * FS)),
    (Z.ltb_spec (x - q * FS) (FS - ((q + 1) * FS - n) + PS)), (Z.ltb_spec x n); try lia; cbn [andb].
  - f_equal. lia.
  - apply Hh. lia.
Qed.

(** The other files stay. *)
Lemma holds_app f mb q lf :
  file_holds f q lf -> (q + 1) * FS <= Z.of_nat (length f) \/ q < 0 -> file_holds (f ++ mb) q lf.
Proof.
  intros [Hd Hh] Hq. unfold file_holds in *. split; [done|]. rewrite length_app, Nat2Z.inj_add.
  set (n := Z.of_nat (length f)) in *. set (k := Z.of_nat (length mb)).
  destruct (Z.leb_spec 0 q); cbn [andb] in *; [|done].
  destruct (Z.ltb_spec (q * FS) n); [|lia]. destruct (Z.ltb_spec (q * FS) (n + k)); [|lia].
  destruct Hh as (A1 & A2 & A3 & A4 & A5). split_and!; try done; [lia|].
  intros x Hx. rewrite rd_app. fold n. destruct (Z.ltb_spec x n); [|lia]. apply A5. lia.
Qed.

Lemma incFileID_mod i : 0 <= i < num -> _incFileID num i = (i + 1) mod num.
Proof.
  intros Hi. unfold _incFileID. rewrite u32_small by lia.
  destruct (Z.leb_spec num (i + 1)); [|by rewrite Z.mod_small by lia].
  replace (i + 1) with (0 + 1 * num) by lia. by rewrite Z.mod_add, Z.mod_small by lia.
Qed.

Lemma next_file_ok fm J :
  0 <= J < 2 ^ 31 -> mgr_at fm J ->
  next_file num fm = mkFileMgr (_files fm) ((J + 1) mod num) (J + 1) (first_file (J + 1) mod num) true.
Proof.
  intros HJ [_ Hw Hl Hb Hr]. unfold next_file, first_file in *. pose proof (Z.mod_pos_bound J num ltac:(lia)).
  rewrite Hw, incFileID_mod, Hl, Hb, Hr by lia. rewrite Z.add_mod_idemp_l, u32_small by lia.
  destruct (Z.leb_spec 1 J); cbn [negb andb].
  - destruct (Z.leb_spec num (J + 1)).
    + replace (Z.max 0 (J - num + 1)) with (J - num + 1) by lia.
      replace (Z.max 0 (J + 1 - num + 1)) with (J - num + 1 + 1) by lia.
      assert (E : (J - num + 1) mod num = (J + 1) mod num)
        by (replace (J - num + 1) with (J + 1 + (-1) * num) by lia; by rewrite Z.mod_add by lia).
      rewrite E, Z.eqb_refl. cbn [andb]. pose proof (Z.mod_pos_bound (J + 1) num ltac:(lia)).
      rewrite incFileID_mod by lia. rewrite <- E, Z.add_mod_idemp_l by lia. by rewrite E.
    + replace (Z.max 0 (J - num + 1)) with 0 by lia. replace (Z.max 0 (J + 1 - num + 1)) with 0 by lia.
      rewrite (Z.mod_small (J + 1)), (Z.mod_small 0) by lia. by destruct (Z.eqb_spec 0 (J + 1)); [lia|].
  - replace (Z.max 0 (J - num + 1)) with 0 by lia. replace (Z.max 0 (J + 1 - num + 1)) with 0 by lia.
    rewrite (Z.mod_small (J + 1)), (Z.mod_small 0) by lia. by destruct (Z.eqb_spec 0 (J + 1)); [lia|].
Qed.

(** The part of [flush] behind the choice of the file. *)
Definition write_tail (fm : dpsLogFileMgr) (lf : dpsLogFile) (mb : list Z) : option (Z * dpsLogFileMgr) :=
  content ← rd_range mb 0 PS;
  lf ← logFile_write FS lf content;
  let lf := if negb (PS =? PS) then set_idleSize lf (u32 (lf_idleSize lf + PS)) else lf in
  fm ← set_file fm (fm_work fm) lf;
  Some (SDB_OK, fm).

(** The page goes to file [J], whose free part begins where the log ends. *)
Lemma page_written fm f mb J lf :
  mgr_at fm J -> Z.of_nat (length mb) = PS -> (PS | Z.of_nat (length f)) -> 0 <= J ->
  (forall q, J - num < q < J -> exists lf, rd (_files fm) (q mod num) = Some lf /\ file_holds f q lf) ->
  let n := Z.of_nat (length f) in
  J * FS <= n -> n + PS <= (J + 1) * FS ->
  Z.of_nat (length (lf_data lf)) = FS -> head_fits lf -> lf_idleSize lf = (J + 1) * FS - n ->
  _logID (_logHeader lf) = J -> lsn_offset (_firstLSN (_logHeader lf)) = J * FS ->
  lsn_version (_firstLSN (_logHeader lf)) <> 0 ->
  (forall x, J * FS <= x < n -> rd (lf_data lf) (x - J * FS) = rd f x) ->
  exists fm', write_tail fm lf mb = Some (SDB_OK, fm') /\ files_rep fm' (f ++ mb).
Proof.
  intros [M1 M2 M3 M4 M5] Hmb Hdiv HJ Hold n H1 H2 Hd Hhf Hi Hid Hfi Hv Hx.
  destruct (file_written f mb J lf) as (lf' & Ew & Hh); try done; try lia.
  unfold write_tail. rewrite rd_range_all by lia. cbn [mbind option_bind]. rewrite Ew.
  cbn [mbind option_bind]. rewrite Z.eqb_refl. cbn [negb]. pose proof (Z.mod_pos_bound J num ltac:(lia)).
  unfold set_file. destruct (wr (_files fm) (fm_work fm) lf') as [fs'|] eqn:Ewr; [|rewrite wr_Some in Ewr by lia; done].
  cbn [mbind option_bind]. eexists. split; [done|].
  assert (EJ : last_file (Z.of_nat (length (f ++ mb))) = J).
  { rewrite length_app, Nat2Z.inj_add. apply last_file_unique; lia. }
  constructor; rewrite ?EJ.
  - rewrite length_app, Nat2Z.inj_add, Hmb. apply Z.divide_add_r; [done|apply Z.divide_refl].
  - constructor; try done. cbn [_files]. by rewrite (wr_length _ _ _ _ Ewr).
  - intros q Hq. cbn [_files]. rewrite (rd_wr _ _ _ _ _ Ewr). destruct (Z.eqb_spec (q mod num) (fm_work fm)) as [E|Hne].
    + rewrite M2 in E. apply num_inj in E; [|lia]. subst q. eauto.
    + assert (HqJ : q <> J) by (intros ->; by rewrite M2 in Hne).
      destruct (Hold q ltac:(lia)) as (lo & ? & ?). exists lo. split; [done|]. apply holds_app; [done|].
      destruct (Z_lt_le_dec q 0); [by right|left; nia].
Qed.

(** A file is reused only when it is full, or new. *)
Lemma reused_idle f q lf :
  file_holds f q lf -> (q + 1) * FS <= Z.of_nat (length f) ->
  (lf_idleSize lf =? 0) || (lf_idleSize lf =? FS) = true.
Proof.
  intros [_ H] Hq. apply orb_true_iff. rewrite !Z.eqb_eq. cbv zeta in H. destruct ((0 <=? q) && (q * FS <? _)).
  - left. lia.
  - right. apply H.
Qed.

Lemma holds_last f lf : let n := Z.of_nat (length f) in let J := last_file n in
  0 < n -> file_holds f J lf ->
  lf_idleSize lf = (J + 1) * FS - n /\ _logID (_logHeader lf) = J /\
  lsn_offset (_firstLSN (_logHeader lf)) = J * FS /\ lsn_version (_firstLSN (_logHeader lf)) <> 0 /\
  forall x, J * FS <= x < n -> rd (lf_data lf) (x - J * FS) = rd f x.
Proof.
  intros n J Hn [Hd Hh]. fold n in Hh. pose proof (last_file_bounds n Hn) as HJ. fold J in HJ.
  pose proof (last_file_nonneg n ltac:(lia)) as H0. fold J in H0.
  destruct (Z.leb_spec 0 J); [|lia]. destruct (Z.ltb_spec (J * FS) n); [|lia]. cbn [andb] in Hh.
  destruct Hh as (I1 & I2 & I3 & I4 & I5). rewrite Z.min_l in * by lia. done.
Qed.

(** The first page of file [J], which is new or holds an older part. *)
Lemma first_page_written fm f mb J lf b :
  mgr_at fm J -> Z.of_nat (length mb) = PS -> (PS | Z.of_nat (length f)) -> 0 <= J <= 2 ^ 31 ->
  (forall q, J - num < q < J -> exists lf, rd (_files fm) (q mod num) = Some lf /\ file_holds f q lf) ->
  Z.of_nat (length f) = J * FS -> Z.of_nat (length (lf_data lf)) = FS -> head_fits lf ->
  lsn_offset b = J * FS -> lsn_version b <> 0 ->
  exists fm', write_tail fm (logFile_reset FS lf J (lsn_offset b) (lsn_version b)) mb = Some (SDB_OK, fm') /\
    files_rep fm' (f ++ mb).
Proof.
  intros HM Hmb Hdiv HJ Hold Hn Hd (F1 & F2 & F3 & F4 & F5) Bo Bv. pose proof (Z.divide_pos_le PS FS ltac:(lia) HPF). unfold logFile_reset, DPS_INVALID_LOG_FILE_ID.
  destruct (Z.eqb_spec 0xFFFFFFFF J) as [E|_]; [lia|]. cbn [negb].
  apply (page_written fm f mb J); cbn [_flushHeader lf_data lf_idleSize _logHeader _logID _firstLSN lsn_offset lsn_version];
    try done; intros; lia.
Qed.

(** [flush] appends a page to the log. *)
Lemma flush_ok fm f mb b :
  files_rep fm f -> Z.of_nat (length mb) = PS -> Z.of_nat (length f) < 2 ^ 31 * FS ->
  (Z.of_nat (length f) mod FS = 0 -> lsn_offset b = Z.of_nat (length f) /\ lsn_version b <> 0) ->
  exists fm', flush PS FS num fm mb PS b = Some (SDB_OK, fm') /\ files_rep fm' (f ++ mb).
Proof.
  intros [R1 HM R7] Hmb Hsm Hb. unfold files_hold in R7. set (n := Z.of_nat (length f)) in *. set (J := last_file n) in *.
  pose proof (last_file_nonneg n ltac:(lia)) as HJ0. fold J in HJ0.
  destruct (R7 J ltac:(lia)) as (lf & Elf & Hlf). pose proof HM as [M1 M2 M3 M4 M5].
  rewrite <- M2 in Elf. unfold flush. rewrite Elf. cbn [mbind option_bind]. destruct (Z.eq_dec n 0) as [En|Hn0].
  - (* the first page of the log *)
    assert (EJ : J = 0) by (unfold J, last_file; by rewrite En). rewrite EJ in *. destruct Hlf as [Hd Hh].
    fold n in Hh. rewrite En in Hh. change (0 * FS) with 0 in Hh. cbn in Hh. destruct Hh as [Hi _].
    rewrite Hi. destruct (Z.eqb_spec FS 0); [lia|]. rewrite Elf. cbn [mbind option_bind].
    rewrite Hi, (Z.eqb_refl FS), orb_true_r, M3. destruct (Hb ltac:(by rewrite En)) as [Bo Bv].
    apply first_page_written; try done; try lia; [|apply Hd]. intros q Hq. apply R7. lia.
  - pose proof (last_file_bounds n ltac:(lia)) as HJn. fold J in HJn.
    destruct (holds_last f lf ltac:(fold n; lia) Hlf) as (I1 & I2 & I3 & I4 & I5). fold n in I1. fold J in I1.
    rewrite I1. destruct (Z.eqb_spec ((J + 1) * FS - n) 0) as [Efull|Hnf].
    + (* the working file is full *)
      assert (HJ31 : J < 2 ^ 31) by nia. rewrite (next_file_ok fm J) by (done || lia). cbn [_files fm_work].
      destruct (R7 (J + 1 - num) ltac:(lia)) as (lo & Elo & Hlo).
      replace ((J + 1 - num) mod num) with ((J + 1) mod num) in Elo
        by (replace (J + 1 - num) with (J + 1 + (-1) * num) by lia; by rewrite Z.mod_add by lia).
      assert (Hlow : (J + 1 - num + 1) * FS <= n) by (clear - Efull Hnum HFS; nia).
      rewrite Elo. cbn [mbind option_bind _logicalWork]. rewrite (reused_idle f _ lo Hlo Hlow).
      assert (En : n = (J + 1) * FS) by lia. destruct Hb as [Bo Bv]; [rewrite En; apply Z.mod_mul; lia|].
      apply (first_page_written (mkFileMgr (_files fm) _ _ _ true)); try done; try lia; [| |apply Hlo|apply Hlo].
      * constructor; try done. cbn. destruct (Z.leb_spec 1 (J + 1)); [done|lia].
      * intros q Hq. apply R7. lia.
    + (* behind the pages of the working file *)
      rewrite Elf. cbn [mbind option_bind]. rewrite I1.
      destruct (Z.eqb_spec ((J + 1) * FS - n) 0); [lia|]. destruct (Z.eqb_spec ((J + 1) * FS - n) FS); [nia|].
      cbn [orb]. assert (Hroom : n + PS <= (J + 1) * FS).
      { destruct HPF as [c Hc], R1 as [k Hk]. replace ((J + 1) * FS) with ((J + 1) * c * PS) in * by lia.
        assert (k < (J + 1) * c) by nia. nia. }
      apply page_written with (J := J); try done; try (fold n; lia); [|apply Hlf|apply Hlf].
      intros q Hq. apply R7. lia.
Qed.

End rep.
