(* ===== verification/DpsFilesRun.v ===== *)
(** * The log files under the log buffer, and shutting down

    The steps of the sessions and of the flusher with the rotating files in
    the place of an endless one: every run with the endless file is a run
    with the rotating ones, which hold its last files. *)

From stdpp Require Import base list option.
From Stdlib Require Import ZArith Lia.
From S2P Require Import Prelude DpsLsn Mem DpsRecord DpsRecordFacts DpsBuffer DpsRing DpsAlloc DpsRun.
From S2P Require Import DpsPlace DpsRunInv DpsRunThms DpsLogFile DpsLogFileFacts.

Open Scope Z_scope.

(** ** Steps *)

(** The world without the endless file, and the rotating files. *)
Record fworld : Set := mkFworld { fw_world : world; fw_files : dpsLogFileMgr }.

Definition with_file (w : world) (f : list Z) : world :=
  mkWorld (w_mgr w) (w_log w) (w_open w) (w_pending w) f.

Section steps.
Context {IO : PosixFile} (PS FS num : Z).

Definition actf (s : fworld) (a : action) : option fworld :=
  let w := fw_world s in
  match a with
  | Flush =>
      match _queue (w_mgr w) with
      | [] => Some s
      | i :: _ =>
          if locked w i then Some s
          else
            '(_, m, fm) ← run_files PS FS num (w_mgr w) (fw_files s);
            Some (mkFworld (mkWorld m (w_log w) (w_open w) (w_pending w) []) fm)
      end
  | _ => w ← act PS FS w a; Some (mkFworld w (fw_files s))
  end.

Fixpoint runf (s : fworld) (acts : list action) : option fworld :=
  match acts with
  | [] => Some s
  | a :: acts' => s' ← actf s a; runf s' acts'
  end.

Definition initf (n : Z) : fworld := mkFworld (init PS n) (fileMgr_init FS num).
End steps.

(** Only the flusher looks at the files. *)
Lemma act_with_file PS FS w a f :
  a <> Flush -> act PS FS (with_file w f) a = (fun w => with_file w f) <$> act PS FS w a.
Proof.
  intros Ha. destruct a as [i| |n| | |]; cbn [act with_file w_mgr w_log w_open w_pending w_file].
  - destruct (w_pending w); [done|]. destruct (preparePages PS FS (w_mgr w) i) as [[rc m j nt| | |]|]; try done.
    cbn. by destruct (rc =? SDB_OK).
  - destruct (w_pending w) as [i|]; [|done]. destruct (place_record PS (w_mgr w) i []) as [[rc m j nt| | |]|]; try done.
    cbn. by destruct (rc =? SDB_OK).
  - destruct (w_open w !! n); [|done]. by destruct (writeData PS false (w_mgr w) _) as [[m r]|].
  - done.
  - by destruct (w_pending w).
  - by destruct (w_pending w).
Qed.

(** ** Where the log files begin *)

Section sim.
Context {IO : PosixFile} {IOok : PosixFileSpec} (PS N FS num : Z).
Context (HPS : 0 < PS) (HN : 2 <= N) (HT : N * PS < 2 ^ 31) (HFS : 64 < FS < 2 ^ 31) (HF4 : (4 | FS)).
Context (HPF : (PS | FS)) (Hnum : 2 <= num < 2 ^ 31).

(** A record starts at the beginning of every log file. *)
Lemma chain_file_starts log x cu k :
  chain PS N FS log x cu -> 0 <= k * FS < x -> exists b, b ∈ log /\ off b = k * FS.
Proof.
  induction 1 as [|log x cu b Hc IH Hl]; intros Hk; [lia|].
  destruct (Z_lt_le_dec (k * FS) x) as [Hlt|Hge].
  { destruct (IH ltac:(lia)) as (b' & Hb' & E). exists b'. split; [apply elem_of_app; by left|done]. }
  destruct (Z.eq_dec (k * FS) x) as [E|Hne].
  { exists b. split; [apply elem_of_app; right; by apply list_elem_of_singleton|]. by rewrite (lk_off _ _ _ _ _ _ Hl). }
  destruct (lk_file _ _ _ _ _ _ Hl) as [E _].
  assert (x / FS < k) by (apply Z.div_lt_upper_bound; lia).
  assert (k <= (x + size b - 1) / FS) by (apply Z.div_le_lower_bound; lia). lia.
Qed.

(** The begin LSN of the first page of a log file is the beginning of the
    file. *)
Lemma begin_of_file m log W F V l :
  state PS N FS m log W V -> 0 <= F * PS < pos m -> F * PS mod FS = 0 ->
  begin_ok PS N (F + 1) F (map (fun b => off b) log) l \/ begin_ok PS N F F (map (fun b => off b) log) l ->
  lsn_offset l = F * PS /\ lsn_version l <> 0.
Proof.
  intros [Hc Hr Hv] HF Hm Hok. apply Z.div_exact in Hm; [|lia].
  destruct (chain_file_starts _ _ _ (F * PS / FS) Hc) as (b & Hb & Eb); [lia|].
  assert (Hin : F * PS ∈ map (fun b => off b) log) by (apply list_elem_of_fmap; exists b; split; [lia|done]).
  assert (Hpage : F * PS / PS = F) by (apply Z.div_mul; lia). unfold begin_ok in Hok.
  destruct (first_in PS (map (fun b => off b) log) F) as [s|] eqn:Es.
  - assert (Hs : lsn_offset l = s /\ lsn_version l <> 0) by tauto. destruct Hs as [Hs Hlv]. split; [|done].
    pose proof (first_in_Some _ _ _ _ Es) as [_ Esp].
    pose proof (first_in_le _ _ _ _ _ (rd_sorted _ _ _ _ _ _ Hr) Es Hin Hpage). pose proof (div_bounds PS HPS s).
    rewrite Esp in *. lia.
  - apply first_in_None in Es. rewrite list.Forall_forall in Es. by destruct (Es _ Hin).
Qed.

Lemma file_begin_lsn m log F V :
  state PS N FS m log F V -> F < pos m / PS -> F * PS mod FS = 0 ->
  exists l, begin_at m (F mod N) = Some l /\ lsn_offset l = F * PS /\ lsn_version l <> 0.
Proof.
  intros Hs HF Hm. pose proof (s_ready _ _ _ _ _ _ _ Hs) as Hr.
  destruct (rd_exact _ _ _ _ _ _ Hr F ltac:(lia)) as (l & El & Hok). exists l. split; [done|].
  pose proof (ra_low _ _ _ _ _ (rd_ring _ _ _ _ _ _ Hr)). pose proof (div_bounds PS HPS (pos m)).
  eapply (begin_of_file m log F F V); [done|nia|done|by left].
Qed.

(** ** The simulation *)

(** The rotating files while the endless one is [w_file w]. *)
Definition simulates (s : fworld) (w : world) : Prop :=
  fw_world s = with_file w [] /\ files_rep PS FS num (fw_files s) (w_file w).

Lemma run_files_ok k w F fm i q :
  inv PS N FS k w F -> k * (2 * FS) < 2 ^ 31 * FS -> files_rep PS FS num fm (w_file w) -> _queue (w_mgr w) = i :: q ->
  exists m' f' fm', run_flush append_file (w_mgr w) (w_file w) = Some (SDB_OK, m', f') /\
    run_files PS FS num (w_mgr w) fm = Some (SDB_OK, m', fm') /\ files_rep PS FS num fm' f'.
Proof.
  intros H Hk Hrep Eq. pose proof (iv_state _ _ _ _ _ _ H) as Hs.
  destruct (flushed_state PS N FS HPS HN _ _ _ _ q i (w_file w) Hs Eq)
    as (p & m' & Ei & Hp & Hpl & Erun & _ & HF & _ & _ & Hlen).
  exists m', (w_file w ++ _mb p). unfold run_files, flushPage. rewrite Eq.
  pose proof Erun as Erun'. unfold run_flush in Erun'. rewrite Eq in Erun'.
  change (_pages (set_queue ?m _ _)) with (_pages m) in *.
  rewrite Hp in Erun' |- *. cbn [mbind option_bind append_file Z.eqb SDB_OK] in Erun' |- *.
  destruct (flushed _ i) as [m2|] eqn:Efl; [|done]. cbn [mbind option_bind] in Erun'. injection Erun' as -> _.
  pose proof (iv_flen _ _ _ _ _ _ H) as Hfl. pose proof (iv_pos _ _ _ _ _ _ H) as Hpos.
  pose proof (div_bounds PS HPS (pos (w_mgr w))) as Hd.
  destruct (flush_ok PS FS num HPS ltac:(lia) HPF Hnum fm (w_file w) (_mb p) (_beginLSN p) Hrep Hpl)
    as (fm' & Efm & Hrep').
  - nia.
  - rewrite Hfl. intros Hm. destruct (file_begin_lsn _ _ _ _ Hs HF Hm) as (l & El & Hl).
    unfold begin_at in El. rewrite <- Ei, Hp in El. by injection El as ->.
  - exists fm'. split; [done|]. split; [|done]. by rewrite Hlen, Efm.
Qed.

Lemma flush_sim k w F s :
  inv PS N FS k w F -> k * (2 * FS) < 2 ^ 31 * FS -> simulates s w ->
  exists w' s', act PS FS w Flush = Some w' /\ actf PS FS num s Flush = Some s' /\ simulates s' w'.
Proof.
  intros H Hk [Ew Hrep]. unfold actf. rewrite Ew. cbn [act with_file w_mgr].
  destruct (_queue (w_mgr w)) as [|i q] eqn:Eq; [by exists w, s|].
  change (locked (with_file w []) i) with (locked w i). destruct (locked w i); [by exists w, s|].
  destruct (run_files_ok k w F (fw_files s) i q H Hk Hrep Eq) as (m' & f' & fm' & -> & -> & Hrep').
  cbn [mbind option_bind]. eexists _, _. split; [done|]. split; [done|]. by split.
Qed.

Lemma act_sim k w F s a :
  inv PS N FS k w F -> k * (2 * FS) < 2 ^ 31 * FS -> simulates s w ->
  forall w', act PS FS w a = Some w' -> exists s', actf PS FS num s a = Some s' /\ simulates s' w'.
Proof.
  intros H Hk Hsim w' Ea. assert (a = Flush \/ a <> Flush) as [->|Hne] by (destruct a; (by left) || by right).
  { destruct (flush_sim k w F s H Hk Hsim) as (w2 & s' & E & ? & ?). rewrite Ea in E. injection E as <-. eauto. }
  destruct Hsim as [Ew Hrep]. exists (mkFworld (with_file w' []) (fw_files s)).
  assert (Es : actf PS FS num s a = w ← act PS FS (fw_world s) a; Some (mkFworld w (fw_files s))) by (by destruct a).
  rewrite Es, Ew, act_with_file, Ea by done. split; [done|]. split; [done|]. cbn [fw_files].
  assert (Ef : w_file w' = w_file w); [|by rewrite Ef].
  pose proof (act_with_file PS FS w a (w_file w) Hne) as Ef. rewrite Ea in Ef.
  replace (with_file w (w_file w)) with w in Ef by (by destruct w). rewrite Ea in Ef. cbn in Ef.
  injection Ef as Ef. by rewrite Ef.
Qed.

Lemma run_sim acts : forall k w F s,
  inv PS N FS k w F -> simulates s w -> 0 <= k -> k + Z.of_nat (length acts) < 2 ^ 30 ->
  Forall (act_ok PS N FS) acts ->
  exists w' s', run PS FS w acts = Some w' /\ runf PS FS num s acts = Some s' /\ simulates s' w'.
Proof.
  induction acts as [|a acts IH]; intros k w F s H Hs Hk Hn Ha; cbn [run runf length] in *; [by exists w, s|].
  apply list.Forall_cons in Ha as [Ha Has].
  destruct (act_inv PS N FS HPS HN HT HFS HF4 k w F a H) as (w1 & F1 & Ea & H1 & _); [lia|nia|done|].
  destruct (act_sim k w F s a H ltac:(nia) Hs w1 Ea) as (s1 & Es & Hs1). rewrite Ea, Es. cbn [mbind option_bind].
  apply (IH (k + 1) w1 F1); (done || lia).
Qed.

(** ** Reading from the files *)

Lemma rd_ext (a b : list Z) :
  length a = length b -> (forall i, 0 <= i < Z.of_nat (length b) -> rd a i = rd b i) -> a = b.
Proof.
  intros Hl H. destruct (rd_prefix b a H) as [c ->]. rewrite length_app in Hl.
  destruct c; [apply app_nil_r|cbn in Hl; lia].
Qed.

(** The bytes of the log in a file. *)
Lemma file_read f q lf x len :
  file_holds FS num f q lf -> 0 <= q -> q * FS <= x -> 0 <= len -> x + len <= Z.min (Z.of_nat (length f)) ((q + 1) * FS) ->
  q * FS < Z.of_nat (length f) -> q < 2 ^ 32 ->
  exists bs, logFile_read FS lf x len = Some (SDB_OK, bs) /\ Z.of_nat (length bs) = len /\
    forall i, 0 <= i < len -> rd bs i = rd f (x + i).
Proof.
  intros [Hd Hh] Hq Hx Hlen Hle Hw Hq32. cbv zeta in Hh.
  destruct (Z.leb_spec 0 q); [|lia]. destruct (Z.ltb_spec (q * FS) (Z.of_nat (length f))); [|lia]. cbn [andb] in Hh.
  destruct Hh as (_ & _ & I3 & _ & I5). unfold logFile_read. rewrite I3.
  rewrite u64_small by nia. destruct (Z.ltb_spec x (q * FS)); [lia|]. destruct (Z.ltb_spec (q * FS + FS) x); [lia|].
  cbn [orb]. destruct (Z.eq_dec len 0) as [->|Hl0].
  { exists []. split; [done|]. split; [done|]. intros i Hi. lia. }
  assert (Em : x mod FS = x - q * FS) by (symmetry; apply (Z.mod_unique_pos _ _ q); lia).
  rewrite Em, read_loop_ok by lia. eexists. split; [done|]. split; [rewrite length_take, length_drop; lia|].
  intros i Hi. rewrite <- (I5 (x + i)) by lia. unfold rd.
  destruct (Z.leb_spec 0 i); [|lia]. destruct (Z.leb_spec 0 (x + i - q * FS)); [|lia].
  rewrite lookup_take_lt by lia. rewrite lookup_drop. f_equal. lia.
Qed.

(** The file with the number that position [x] has. *)
Lemma LOG_FILE_at fm f x :
  files_hold FS num fm f -> 0 <= x ->
  let J := last_file FS (Z.of_nat (length f)) in
  exists q lf, LOG_FILE num fm ((x / FS) mod num) = Some lf /\ file_holds FS num f q lf /\
    q mod num = (x / FS) mod num /\ J - num < q <= J.
Proof.
  intros R7 Hx J. set (q := J - (J - x / FS) mod num).
  pose proof (Z.mod_pos_bound (J - x / FS) num ltac:(lia)) as Hm.
  assert (Eq : q mod num = (x / FS) mod num).
  { subst q. rewrite Zminus_mod_idemp_r. f_equal. lia. }
  destruct (R7 q) as (lf & Elf & Hlf); [lia|]. exists q, lf. split_and!; try done; try lia.
  unfold LOG_FILE. by rewrite Z.mod_mod, <- Eq by lia.
Qed.

(** A position that the files do not hold any more, or not yet. *)
Lemma load_outside fm f x onlyHeader :
  files_hold FS num fm f -> 0 <= x < 2 ^ 63 -> Z.of_nat (length f) < 2 ^ 62 ->
  let J := last_file FS (Z.of_nat (length f)) in
  x / FS <= J - num \/ J < x / FS ->
  fileMgr_load FS num fm x onlyHeader = Some (inl SDB_DPS_LOG_NOT_IN_FILE).
Proof.
  intros Hrep Hx Hf J Hout. destruct (LOG_FILE_at fm f x Hrep ltac:(lia)) as (q & lf & El & [Hd Hh] & Eq & Hq).
  fold J in Hq. unfold fileMgr_load. rewrite El. cbn [mbind option_bind].
  assert (Hr : logFile_read FS lf x sizeof_head = Some (SDB_DPS_LOG_NOT_IN_FILE, [])); [|by rewrite Hr].
  unfold logFile_read. cbv zeta in Hh. pose proof (Z.div_mod x FS ltac:(lia)) as Ex.
  pose proof (Z.mod_pos_bound x FS ltac:(lia)) as Hxm.
  destruct (Z.leb_spec 0 q) as [H0|H0]; cbn [andb] in Hh.
  2: { destruct Hh as (_ & -> & _). cbn. unfold DPS_INVALID_LSN_OFFSET. by destruct (Z.ltb_spec x (2 ^ 64 - 1)); [|lia]. }
  destruct (Z.ltb_spec (q * FS) (Z.of_nat (length f))).
  2: { destruct Hh as (_ & -> & _). cbn. unfold DPS_INVALID_LSN_OFFSET. by destruct (Z.ltb_spec x (2 ^ 64 - 1)); [|lia]. }
  destruct Hh as (_ & _ & I3 & _). rewrite I3, u64_small by nia.
  assert (Hne : q <> x / FS) by lia.
  pose proof (Z.div_mod q num ltac:(lia)) as D1. pose proof (Z.div_mod (x / FS) num ltac:(lia)) as D2.
  rewrite Eq in D1. set (d := q / num - (x / FS) / num) in *. assert (Ed : q - x / FS = num * d) by lia.
  assert (d <> 0) by nia. destruct (Z.ltb_spec x (q * FS)); [done|]. destruct (Z.ltb_spec (q * FS + FS) x); [done|].
  assert (d < 0) by nia. nia.
Qed.

(** A record that the files hold as a whole. *)
Lemma load_ok fm f b bs onlyHeader :
  files_hold FS num fm f -> Z.of_nat (length f) < 2 ^ 31 * FS ->
  block_bytes b = Some bs -> head_bytes (block_head b) `prefix_of` bs -> head_ok (block_head b) ->
  Z.of_nat (length bs) <= size b -> 32 <= size b -> 0 <= off b -> file_rule FS (off b) (size b) ->
  (forall i, 0 <= i < Z.of_nat (length bs) -> rd f (off b + i) = rd bs i) ->
  off b + size b <= Z.of_nat (length f) -> last_file FS (Z.of_nat (length f)) - num < off b / FS ->
  exists mem, fileMgr_load FS num fm (off b) onlyHeader = Some (inr (mem, size b)) /\
    if onlyHeader then mem = head_bytes (block_head b)
    else bs `prefix_of` mem /\ Z.of_nat (length mem) = size b.
Proof.
  intros Hrep Hf Ebs Hpre Hho Hlen Hsz H0 [Hfr _] Hbytes Hle Hnew.
  destruct (LOG_FILE_at fm f (off b) Hrep H0) as (q & lf & El & Hlf & Eq & Hq).
  set (n := Z.of_nat (length f)) in *. set (J := last_file FS n) in *. set (x := off b) in *.
  pose proof (Z.div_mod x FS ltac:(lia)) as Ex. pose proof (Z.mod_pos_bound x FS ltac:(lia)) as Hxm.
  pose proof (Z.div_mod (x + size b - 1) FS ltac:(lia)) as Ey. pose proof (Z.mod_pos_bound (x + size b - 1) FS ltac:(lia)).
  rewrite <- Hfr in Ey. pose proof (last_file_bounds FS ltac:(lia) n ltac:(lia)) as HJ. fold J in HJ.
  assert (HxJ : x / FS <= J) by nia. assert (E : q = x / FS) by (apply (num_inj num Hnum); [done|lia]).
  assert (Hq0 : 0 <= q) by (rewrite E; apply Z.div_pos; lia). assert (HJ31 : J < 2 ^ 31) by nia.
  assert (Hend : x + size b <= (q + 1) * FS) by nia.
  destruct (file_read f q lf x 32 Hlf) as (hb & Er & Hhl & Hhb); [lia|nia|lia|fold n; lia|fold n; nia|lia|].
  unfold fileMgr_load. rewrite El. cbn [mbind option_bind]. change sizeof_head with 32. rewrite Er.
  cbn [mbind option_bind Z.eqb SDB_OK negb].
  destruct Hpre as [rest Erest]. pose proof (head_bytes_length (block_head b)) as Hh32.
  assert (Ehb : hb = head_bytes (block_head b)).
  { apply rd_ext; [lia|]. intros i Hi. rewrite Hhb by lia. rewrite Hbytes by (rewrite Erest, length_app; lia).
    rewrite Erest, rd_app. by destruct (Z.ltb_spec i (Z.of_nat (length (head_bytes (block_head b))))); [|lia]. }
  rewrite (read_head_prefix (block_head b)) by (done || by rewrite Ehb). cbn [mbind option_bind].
  fold x. rewrite Z.eqb_refl. cbn [negb]. destruct (Z.ltb_spec (size b) 32); [lia|].
  destruct onlyHeader; [by exists hb|]. rewrite u64_small by nia.
  destruct (file_read f q lf (x + 32) (size b - 32) Hlf) as (tb & -> & Htl & Htb);
    [lia|nia|lia|fold n; lia|fold n; nia|lia|].
  cbn [mbind option_bind Z.eqb SDB_OK negb]. exists (hb ++ tb). split; [done|]. split; [|rewrite length_app; lia].
  apply rd_prefix. intros i Hi. rewrite rd_app, Hhl. destruct (Z.ltb_spec i 32).
  - rewrite Hhb by lia. apply Hbytes. lia.
  - rewrite Htb by lia. rewrite <- Hbytes by lia. f_equal. lia.
Qed.
End sim.

(** ** Shutting down the log

    When all sessions have written their records, [tearDown] writes the pages
    of the queue and the page that is not full yet, so that the files hold
    the log up to its last record. *)

(** ** Free bytes do not matter to readers *)

Definition same_but_idle (f g : dpsLogFile) : Prop :=
  lf_data f = lf_data g /\ _logHeader f = _logHeader g /\ _diskHeader f = _diskHeader g.

Definition same_files (fm gm : dpsLogFileMgr) : Prop :=
  length (_files fm) = length (_files gm) /\
  forall i, option_relation same_but_idle (fun _ => False) (fun _ => False) (rd (_files fm) i) (rd (_files gm) i).

Lemma same_files_refl fm : same_files fm fm.
Proof. split; [done|]. intros i. by destruct (rd (_files fm) i). Qed.

Section shutdown.
Context {IO : PosixFile} {IOok : PosixFileSpec} (PS N FS num : Z).
Context (HPS : 0 < PS) (HN : 2 <= N) (HT : N * PS < 2 ^ 31) (HFS : 64 < FS < 2 ^ 31) (HF4 : (4 | FS)).
Context (HPF : (PS | FS)) (Hnum : 2 <= num < 2 ^ 31).

Lemma load_same fm gm x onlyHeader :
  same_files fm gm -> fileMgr_load FS num fm x onlyHeader = fileMgr_load FS num gm x onlyHeader.
Proof.
  intros [_ H]. unfold fileMgr_load, LOG_FILE. specialize (H (((x / FS) mod num) mod num)).
  destruct (rd (_files fm) _) as [f|], (rd (_files gm) _) as [g|]; cbn in H; try done.
  destruct H as (E1 & E2 & _). cbn [mbind option_bind].
  assert (Er : forall y n, logFile_read FS f y n = logFile_read FS g y n)
    by (intros; unfold logFile_read; by rewrite E1, E2).
  rewrite Er. destruct (logFile_read FS g x sizeof_head) as [[rc hb]|]; [|done]. cbn [mbind option_bind].
  destruct (negb (rc =? SDB_OK)); [done|]. destruct (read_head hb) as [h|]; [|done]. cbn [mbind option_bind].
  by rewrite Er.
Qed.

(** A page that is not full is written like a full one. *)
Lemma flush_partial fm fm' mb len b :
  flush PS FS num fm mb PS b = Some (SDB_OK, fm') ->
  exists fm'', flush PS FS num fm mb len b = Some (SDB_OK, fm'') /\ same_files fm' fm''.
Proof.
  unfold flush. intros E.
  destruct (rd (_files fm) (fm_work fm)) as [f|]; [|done]. cbn [mbind option_bind] in *.
  set (fm1 := if lf_idleSize f =? 0 then next_file num fm else fm) in *.
  destruct (rd (_files fm1) (fm_work fm1)) as [f1|]; [|done]. cbn [mbind option_bind] in *.
  destruct (rd_range mb 0 PS) as [content|]; [|done]. cbn [mbind option_bind] in *.
  destruct (logFile_write FS _ content) as [f2|]; [|done]. cbn [mbind option_bind] in *.
  rewrite Z.eqb_refl in E. cbn [negb] in E. unfold set_file in *.
  destruct (wr (_files fm1) (fm_work fm1) f2) as [fs|] eqn:Ew; [|done]. cbn [mbind option_bind] in E. injection E as <-.
  pose proof (wr_inv _ _ _ _ Ew) as [Hi _]. set (f3 := if negb (PS =? len) then _ else _).
  pose proof (wr_Some (_files fm1) (fm_work fm1) f3 Hi) as Eg. rewrite Eg. cbn [mbind option_bind]. eexists. split; [done|].
  split; [cbn [_files]; by rewrite (wr_length _ _ _ _ Ew), (wr_length _ _ _ _ Eg)|]. intros i. cbn [_files].
  rewrite (rd_wr _ _ _ _ i Ew), (rd_wr _ _ _ _ i Eg). destruct (i =? fm_work fm1); [by subst f3; destruct (negb (PS =? len))|].
  by destruct (rd (_files fm1) i).
Qed.

(** ** The queue *)

Lemma run_flush_queue m f m' f' i q :
  run_flush append_file m f = Some (SDB_OK, m', f') -> _queue m = i :: q -> _queue m' = q.
Proof.
  unfold run_flush. intros E Eq. rewrite Eq in E. change (_pages (set_queue ?m _ _)) with (_pages m) in E.
  destruct (rd (_pages m) i) as [p|] eqn:Ep; [|done]. cbn [mbind option_bind append_file Z.eqb SDB_OK] in E.
  unfold flushed in E. change (_pages (set_queue ?m _ _)) with (_pages m) in E. rewrite Ep in E.
  cbn [mbind option_bind] in E. unfold set_page in E. change (_pages (set_queue ?m _ _)) with (_pages m) in E.
  destruct (wr (_pages m) i (page_clear p)); [|done]. cbn in E. by injection E as <- _.
Qed.

Lemma no_writer_unlocked w i : open_blocks w = [] -> locked w i = false.
Proof. intros E. unfold locked. by rewrite E. Qed.

Lemma flushAll_ok fuel : forall k w F fm,
  inv PS N FS k w F -> k * (2 * FS) < 2 ^ 31 * FS -> files_rep PS FS num fm (w_file w) -> open_blocks w = [] ->
  (length (_queue (w_mgr w)) <= fuel)%nat ->
  exists w' F' fm', flushAll_loop PS FS num fuel (w_mgr w) fm = Some (SDB_OK, w_mgr w', fm') /\
    inv PS N FS k w' F' /\ files_rep PS FS num fm' (w_file w') /\ open_blocks w' = [] /\
    _queue (w_mgr w') = [] /\ w_log w' = w_log w /\ m_lsn (w_mgr w') = m_lsn (w_mgr w).
Proof.
  induction fuel as [|fuel IH]; intros k w F fm H Hk Hrep Hop Hf; cbn [flushAll_loop].
  { destruct (_queue (w_mgr w)) eqn:Eq; [|cbn in Hf; lia]. by exists w, F, fm. }
  destruct (_queue (w_mgr w)) as [|i q] eqn:Eq; [by exists w, F, fm|].
  destruct (run_files_ok PS N FS num HPS HN HT HFS HPF Hnum k w F fm i q H Hk Hrep Eq)
    as (m1 & f1 & fm1 & Erun & -> & Hrep1).
  cbn [mbind option_bind Z.eqb SDB_OK].
  destruct (flush_step PS N FS HPS HN HT k w F H) as (w1 & F1 & Ea & H1 & El & Eo & Ep & Elsn & _).
  cbn [act] in Ea. rewrite Eq, (no_writer_unlocked w i Hop), Erun in Ea. cbn [mbind option_bind] in Ea. injection Ea as Ea.
  assert (Eq1 : _queue m1 = q) by (by eapply run_flush_queue).
  subst w1. cbn [w_mgr w_log w_open w_pending] in *.
  destruct (IH k _ F1 fm1 H1 Hk Hrep1) as (w' & F' & fm' & E & H' & R' & O' & Q' & L' & P').
  - unfold open_blocks in *. done.
  - cbn [w_mgr]. rewrite Eq1. cbn in Hf. lia.
  - cbn [w_mgr] in E. exists w', F', fm'. split_and!; try done. by rewrite P'.
Qed.

(** ** The page that is not full *)

Lemma zero_rest_ok p :
  Z.of_nat (length (_mb p)) = PS -> 0 <= _mbLength p <= PS ->
  exists p', zero_rest PS p = Some p' /\ Z.of_nat (length (_mb p')) = PS /\ _mbLength p' = _mbLength p /\
    _beginLSN p' = _beginLSN p /\ (forall j, j < _mbLength p -> rd (_mb p') j = rd (_mb p) j) /\
    forall j, _mbLength p <= j < PS -> rd (_mb p') j = Some 0.
Proof.
  intros Hl Hm. unfold zero_rest, lastSize.
  destruct (wr_range (_mb p) (_mbLength p) (replicate (Z.to_nat (PS - _mbLength p)) 0)) as [mb|] eqn:E.
  - cbn [mbind option_bind]. eexists. split; [done|]. cbn [with_mb _mb _mbLength _beginLSN].
    split; [by rewrite (wr_range_length _ _ _ _ E)|]. split; [done|]. split; [done|].
    split; intros j Hj; rewrite (rd_wr_range_at _ _ _ _ j E), length_replicate.
    + by destruct (Z.leb_spec (_mbLength p) j); [lia|].
    + destruct (Z.leb_spec (_mbLength p) j), (Z.ltb_spec j (_mbLength p + Z.of_nat (Z.to_nat (PS - _mbLength p)))); try lia.
      apply replicate_rd. lia.
  - exfalso. assert (exists mb, wr_range (_mb p) (_mbLength p) (replicate (Z.to_nat (PS - _mbLength p)) 0) = Some mb) as [mb E'];
      [|congruence]. eexists. apply wr_range_Some. rewrite length_replicate. split_and!; [lia|lia|done].
Qed.

(** The working page when the queue is empty. *)
Lemma last_page_at k w F :
  inv PS N FS k w F -> _queue (w_mgr w) = [] ->
  exists p, rd (_pages (w_mgr w)) (_work (w_mgr w)) = Some p /\ Z.of_nat (length (_mb p)) = PS /\
    F = pos (w_mgr w) / PS /\ _mbLength p = pos (w_mgr w) mod PS /\ _work (w_mgr w) = F mod N /\
    (0 < pos (w_mgr w) mod PS -> F * PS mod FS = 0 -> lsn_offset (_beginLSN p) = F * PS /\ lsn_version (_beginLSN p) <> 0).
Proof.
  intros H Eq. pose proof (iv_state _ _ _ _ _ _ H) as Hs. pose proof Hs as [Hc Hr Hv]. set (m := w_mgr w) in *.
  pose proof (rd_ring _ _ _ _ _ _ Hr) as Hri. pose proof (ra_low _ _ _ _ _ Hri) as Hlow.
  assert (EF : F = pos m / PS).
  { pose proof (rd_queue _ _ _ _ _ _ Hr) as E. rewrite Eq in E. destruct (Z_lt_le_dec F (pos m / PS)); [|lia].
    by rewrite slots_cons in E. }
  pose proof (ra_work _ _ _ _ _ Hri) as Ew. rewrite <- EF in Ew. pose proof (Z.mod_pos_bound F N ltac:(lia)) as HmF.
  destruct (static_page PS N m (F mod N) (ra_static _ _ _ _ _ Hri) HmF) as (p & Hp & Hpl).
  exists p. rewrite Ew. split; [done|]. split; [done|]. split; [done|].
  pose proof (ra_len _ _ _ _ _ Hri F ltac:(lia)) as El. unfold len_at in El. rewrite Hp in El. cbn in El.
  injection El as El. rewrite EF, (fill_work PS N) in El by done. split; [done|]. split; [done|].
  intros Hpos Hm. destruct (rd_begins _ _ _ _ _ _ Hr F ltac:(lia)) as (l & Eb & Hok).
  unfold begin_at in Eb. rewrite Hp in Eb. cbn in Eb. injection Eb as ->.
  pose proof (Z.div_mod (pos m) PS ltac:(lia)) as Hd. rewrite <- EF in Hd.
  eapply (begin_of_file PS N FS num) with (m := m) (W := F); try done; [nia|right]. by rewrite <- EF in Hok.
Qed.

Lemma last_file_page n F :
  F * PS < n <= (F + 1) * PS -> 0 <= F -> last_file FS ((F + 1) * PS) = last_file FS n.
Proof.
  intros Hn HF. pose proof (last_file_bounds FS ltac:(lia) n ltac:(nia)) as Hb.
  apply last_file_unique; [lia|nia|]. split; [lia|]. destruct HPF as [c Hc].
  replace ((last_file FS n + 1) * FS) with ((last_file FS n + 1) * c * PS) in * by lia.
  assert (F < (last_file FS n + 1) * c) by nia. nia.
Qed.

(** The page goes to the files and is free again. *)
Lemma flushPage_ok m fm fm' i p :
  0 <= i < Z.of_nat (length (_pages m)) ->
  flush PS FS num fm (_mb p) (_mbLength p) (_beginLSN p) = Some (SDB_OK, fm') ->
  exists m', (m ← set_page m i p;
      '(rc, m, fm, _) ← flushPage PS FS num (set_queue m (_queue m) (_queSize m + 1)) fm i;
      Some (rc, m, fm)) = Some (SDB_OK, m', fm').
Proof.
  intros Hi Ef. unfold set_page at 1. rewrite wr_Some by done. cbn [mbind option_bind]. unfold flushPage.
  change (_pages (set_queue ?m _ _)) with (_pages m). cbn [_pages set_pages].
  assert (Hrd : rd (<[Z.to_nat i:=p]> (_pages m)) i = Some p).
  { rewrite (rd_wr _ i p _ i (wr_Some _ _ _ Hi)). by rewrite Z.eqb_refl. }
  rewrite Hrd. cbn [mbind option_bind]. rewrite Ef. cbn [mbind option_bind Z.eqb SDB_OK negb].
  unfold flushed. change (_pages (set_queue ?m _ _)) with (_pages m). cbn [_pages set_pages]. rewrite Hrd.
  cbn [mbind option_bind]. unfold set_page. change (_pages (set_queue ?m _ _)) with (_pages m). cbn [_pages set_pages].
  rewrite wr_Some by (by rewrite length_insert). cbn [mbind option_bind]. eauto.
Qed.

(** Behind the pages of the files the working page has the last bytes. *)
Lemma last_bytes k w F p mb :
  inv PS N FS k w F -> open_blocks w = [] -> rd (_pages (w_mgr w)) (F mod N) = Some p ->
  F = pos (w_mgr w) / PS ->
  (forall j, j < pos (w_mgr w) mod PS -> rd mb j = rd (_mb p) j) ->
  Forall (on_file (w_file w ++ mb) (pos (w_mgr w))) (w_log w).
Proof.
  intros H Hop Hp EF Hmb. pose proof H as [H1 H2 H3 H4 H5 H6 H7]. set (m := w_mgr w) in *.
  pose proof (Z.div_mod (pos m) PS ltac:(lia)) as Hd. rewrite <- EF in Hd. pose proof (Z.mod_pos_bound (pos m) PS HPS).
  apply list.Forall_forall. intros b Hb bs i Ebs Hi Hlt. rewrite rd_app, H5.
  destruct (Z.ltb_spec (off b + i) (F * PS)).
  - rewrite list.Forall_forall in H6. by apply (H6 b Hb).
  - assert (Hno : b ∉ open_blocks w) by (rewrite Hop; apply not_elem_of_nil).
    rewrite <- (H4 b Hb Hno bs i Ebs Hi) by nia. fold m. unfold byte_at, slot.
    assert (Hpage : (off b + i) / PS = F /\ (off b + i) mod PS = off b + i - F * PS).
    { split; symmetry; [apply (Z.div_unique _ _ F (off b + i - F * PS))|apply (Z.mod_unique _ _ F)]; lia. }
    destruct Hpage as [-> ->]. rewrite Hp. cbn. apply Hmb. lia.
Qed.

(** The log [g] that the files hold in the end. *)
Record complete (w : world) (g : list Z) : Prop := {
  cp_len : pos (w_mgr w) <= Z.of_nat (length g) < 2 ^ 31 * FS;
  cp_last : last_file FS (Z.of_nat (length g)) = last_file FS (pos (w_mgr w));
  cp_bytes : Forall (on_file g (pos (w_mgr w))) (w_log w);
  cp_page : Z.of_nat (length g) < pos (w_mgr w) + PS;
  cp_zero : forall x, pos (w_mgr w) <= x < Z.of_nat (length g) -> rd g x = Some 0
}.

Lemma tearDown_ok k w F fm :
  inv PS N FS k w F -> k < 2 ^ 30 -> files_rep PS FS num fm (w_file w) -> open_blocks w = [] ->
  exists m' fm' gm g, tearDown PS FS num (w_mgr w) fm = Some (SDB_OK, m', fm') /\
    files_rep PS FS num gm g /\ same_files gm fm' /\ complete w g.
Proof.
  intros H0 Hk Hrep0 Hop0. unfold tearDown, _flushAll.
  destruct (flushAll_ok _ k w F fm H0 ltac:(nia) Hrep0 Hop0 (le_n _))
    as (w1 & F1 & fm1 & -> & H & Hrep & Hop & Eq & El & Elsn).
  cbn [mbind option_bind]. change (negb (SDB_OK =? SDB_OK)) with false. cbv iota. set (m := w_mgr w1) in *.
  destruct (last_page_at k w1 F1 H Eq) as (p & Ep & Hpl & EF & Hml & Ew & Hbegin). fold m in Ep, EF, Hml, Ew, Hbegin.
  rewrite Ep. cbn [mbind option_bind]. pose proof (Z.mod_pos_bound (pos m) PS HPS) as Hmod.
  pose proof (Z.div_mod (pos m) PS ltac:(lia)) as Hd. rewrite <- EF in Hd.
  pose proof (iv_flen _ _ _ _ _ _ H) as Hfl. pose proof (iv_pos _ _ _ _ _ _ H) as Hpk. fold m in Hpk.
  pose proof (rd_ring _ _ _ _ _ _ (s_ready _ _ _ _ _ _ _ (iv_state _ _ _ _ _ _ H))) as Hri. fold m in Hri.
  pose proof (Z.divide_pos_le PS FS ltac:(lia) HPF) as HPSF.
  destruct (Z.eqb_spec 0 (_mbLength p)) as [E0|Hne].
  { exists m, fm1, fm1, (w_file w1). split; [done|]. split; [done|]. split; [apply same_files_refl|].
    assert (En : Z.of_nat (length (w_file w1)) = pos m) by lia.
    constructor; rewrite <- Elsn; fold m; rewrite ?En; [nia|done| |lia|lia]. rewrite <- El, <- En, Hfl. apply H. }
  destruct (zero_rest_ok p Hpl ltac:(lia)) as (p' & Ez & Hpl' & Hml' & Hb' & Hkeep & Hzero).
  rewrite Ez. cbn [mbind option_bind].
  destruct (flush_ok PS FS num HPS ltac:(lia) HPF Hnum fm1 (w_file w1) (_mb p') (_beginLSN p') Hrep Hpl')
    as (gm & Egm & Hgm); [nia|intros Hm0; rewrite Hfl in *; rewrite Hb'; apply Hbegin; [lia|done]|].
  destruct (flush_partial fm1 gm (_mb p') (_mbLength p') (_beginLSN p') Egm) as (fm2 & Efm2 & Hsame).
  set (m2 := set_ring m _ _ _). assert (Hwr : 0 <= _work m < Z.of_nat (length (_pages m))).
  { rewrite Ew, (st_len _ _ _ (ra_static _ _ _ _ _ Hri)). apply Z.mod_pos_bound. lia. }
  destruct (flushPage_ok m2 fm1 fm2 (_work m) p' Hwr Efm2) as (m3 & Em3).
  cbn [mbind option_bind]. rewrite Em3. exists m3, fm2, gm, (w_file w1 ++ _mb p').
  split; [done|]. split; [done|]. split; [done|].
  assert (En : Z.of_nat (length (w_file w1 ++ _mb p')) = (F1 + 1) * PS) by (rewrite length_app; lia).
  constructor; rewrite <- Elsn; fold m; rewrite ?En.
  - nia.
  - pose proof (ra_low _ _ _ _ _ Hri). apply last_file_page; [nia|lia].
  - rewrite <- El. eapply last_bytes; [done|done|fold m; rewrite <- Ew; exact Ep|done|].
    intros j Hj. apply Hkeep. rewrite Hml. done.
  - lia.
  - intros x Hx. rewrite rd_app, Hfl. destruct (Z.ltb_spec x (F1 * PS)); [lia|]. apply Hzero. lia.
Qed.
End shutdown.
