(* ===== verification/DpsFilesThms.v ===== *)
(** * The log files: theorems

    For any files whose size is a multiple of the page size, any number of
    them and any operating system whose transfers make progress. *)

From stdpp Require Import base list option.
From Stdlib Require Import ZArith Lia.
From S2P Require Import Prelude DpsLsn Mem DpsRecord DpsRecordFacts DpsBuffer DpsRing DpsAlloc DpsRun DpsPlace.
From S2P Require Import DpsRunInv DpsRunThms DpsBufThms DpsLogFile DpsLogFileFacts DpsFilesRun.

Open Scope Z_scope.

(** ** Configurations *)

Record file_setting (PS N FS num : Z) (acts : list action) : Prop := {
  fc_buffer : setting PS N FS acts;
  fc_pages : (PS | FS);
  fc_num : 2 <= num < 2 ^ 31
}.

(** An operating system that writes at most 100 and reads at most 50 bytes at
    a time. *)
Instance slow_io : PosixFile := {|
  pwrite f off bs :=
    let n := Z.min 100 (Z.of_nat (length bs)) in (SDB_OK, n, overwrite f off (take (Z.to_nat n) bs));
  pread f off len := (SDB_OK, take (Z.to_nat (Z.min 50 len)) (drop (Z.to_nat off) f))
|}.

Instance slow_io_ok : PosixFileSpec.
Proof.
  constructor.
  - intros f off bs Hne H0 Hl. exists (Z.min 100 (Z.of_nat (length bs))). split; [|done].
    destruct bs; [done|cbn [length]; lia].
  - intros f off len Hl H0 Hle. exists (Z.min 50 len). split; [lia|done].
Qed.

(** Files of 512 bytes under the ring of four pages of 64 bytes. *)
Definition acts_files : list action := concat (replicate 18 round).

Lemma files_sample num : 2 <= num < 2 ^ 31 -> file_setting 64 4 512 num acts_files.
Proof.
  intros Hn. constructor; [|by exists 8|done]. constructor; [lia|lia|lia|lia|by exists 128|cbn; lia|].
  unfold acts_files. generalize 18%nat. induction n as [|n IH]; cbn [replicate concat]; [constructor|].
  apply list.Forall_app. split; [|done]. constructor; [exact sample_59|]. by repeat constructor.
Qed.

Section thms.
Context {IO : PosixFile} {IOok : PosixFileSpec} (PS N FS num : Z) (acts : list action).
Context (HS : file_setting PS N FS num acts).

Lemma reach_files :
  exists w F s, run PS FS (init PS N) acts = Some w /\ runf PS FS num (initf PS FS num N) acts = Some s /\
    inv PS N FS (Z.of_nat (length acts)) w F /\ simulates PS FS num s w /\ Z.of_nat (length acts) < 2 ^ 30 /\
    pos (w_mgr w) < 2 ^ 63.
Proof.
  destruct HS as [[H1 H2 H3 H4 H5 H6 H7] H8 H9].
  destruct (reach PS N FS H1 H2 H3 H4 H5 acts H6 H7) as (w & F & E & H & _ & HL).
  destruct (run_sim PS N FS num H1 H2 H3 H4 H5 H8 H9 acts 0 (init PS N) 0 (initf PS FS num N)) as (w' & s & E' & Es & Hs).
  - by apply init_inv.
  - split; [done|]. apply init_rep; (done || lia).
  - done.
  - lia.
  - done.
  - rewrite E in E'. injection E' as <-. exists w, F, s. split_and!; try done. nia.
Qed.

Lemma block_range k w F b : inv PS N FS k w F -> b ∈ w_log w -> 0 <= off b < pos (w_mgr w).
Proof.
  intros H Hb. pose proof (rd_positions _ _ _ _ _ _ (s_ready _ _ _ _ _ _ _ (iv_state _ _ _ _ _ _ H))) as Hps.
  unfold positions in Hps. rewrite list.Forall_forall in Hps. apply (Hps (off b)). apply list_elem_of_fmap. by exists b.
Qed.

(** Where [search] looks. *)
Lemma search_in_file k w F fm x type onlyHeader :
  inv PS N FS k w F -> pos (w_mgr w) < 2 ^ 63 -> w_log w <> [] -> Z.land DPS_SEARCH_FILE type <> 0 ->
  0 <= x < first_page PS N (pos (w_mgr w)) * PS ->
  search PS FS num (w_mgr w) fm x type onlyHeader = fileMgr_load FS num fm x onlyHeader.
Proof.
  intros H HL Hne Hty Hx. destruct HS as [[H1 H2 H3 H4 H5 H6 H7] H8 H9].
  destruct (oldest_ok PS N FS H1 H2 H3 _ w F H HL Hne) as (l & _ & _ & Hl). unfold search, DPS_INVALID_LSN_OFFSET.
  destruct (search_outside PS N FS H1 H2 H3 _ w F x onlyHeader H HL Hne) as [E _]; [lia|]. rewrite E by lia.
  destruct (Z.eqb_spec (2 ^ 64 - 1) x); [lia|]. cbn [mbind option_bind]. rewrite Z.eqb_refl.
  by destruct (Z.eqb_spec (Z.land DPS_SEARCH_FILE type) 0).
Qed.

Lemma search_in_buffer m fm x type onlyHeader o :
  _search PS m x onlyHeader = Some o -> o <> inl SDB_DPS_LOG_NOT_IN_BUF -> 0 <= x < 2 ^ 63 ->
  search PS FS num m fm x type onlyHeader = Some o.
Proof.
  intros E Hne Hx. unfold search, DPS_INVALID_LSN_OFFSET. destruct (Z.eqb_spec (2 ^ 64 - 1) x); [lia|].
  rewrite E. cbn [mbind option_bind]. destruct o as [rc|r]; [|done].
  destruct (Z.eqb_spec SDB_DPS_LOG_NOT_IN_BUF rc) as [<-|]; [done|]. done.
Qed.

(** What [load] gives for a block of the log. *)
Definition loaded (o : option (Z + list Z * Z)) (b : dpsMergeBlock) (onlyHeader : bool) : Prop :=
  exists mem bs, o = Some (inr (mem, size b)) /\ block_bytes b = Some bs /\
    if onlyHeader then mem = head_bytes (block_head b)
    else bs `prefix_of` mem /\ Z.of_nat (length mem) = size b.

Lemma block_loaded k w F fm f b onlyHeader :
  inv PS N FS k w F -> files_hold FS num fm f -> Z.of_nat (length f) < 2 ^ 31 * FS -> b ∈ w_log w ->
  on_file f (off b + size b) b -> off b + size b <= Z.of_nat (length f) ->
  last_file FS (Z.of_nat (length f)) - num < off b / FS ->
  loaded (fileMgr_load FS num fm (off b) onlyHeader) b onlyHeader.
Proof.
  intros H Hrep Hlen Hb Hon Hle Hnew. destruct HS as [[H1 H2 H3 H4 H5 H6 H7] H8 H9].
  destruct (inv_chain_in _ _ _ _ _ _ _ H Hb) as (y & cu & Hl & Hy).
  destruct (lk_bytes _ _ _ _ _ _ Hl) as (bs & Ebs & Hpre & Hbl & Hho). pose proof (lk_size _ _ _ _ _ _ Hl).
  pose proof (lk_off _ _ _ _ _ _ Hl) as Eo. pose proof (lk_file _ _ _ _ _ _ Hl) as Hfr. rewrite <- Eo in Hfr.
  pose proof (block_range _ _ _ _ H Hb).
  assert (Hbs : forall i, 0 <= i < Z.of_nat (length bs) -> rd f (off b + i) = rd bs i)
    by (intros i Hi; apply Hon; [done|done|lia]).
  eassert (Hload : exists mem, fileMgr_load FS num fm (off b) onlyHeader = Some (inr (mem, size b)) /\ _)
    by (eapply load_ok; (done || lia)).
  destruct Hload as (mem & E & Hm). by exists mem, bs.
Qed.
End thms.

(** ** The rotating files *)

(** C17: The rotating files implement the log that grows without end: for any
    steps of sessions and flusher they take every page that is flushed, short
    writes of the operating system or not, the buffer behaves in the same
    way, and file number [q] of the log, as long as it is among the last
    [num], is in slot [q mod num] with its number, its first LSN, its free
    bytes and exactly the bytes of its part of the log. *)
Theorem files_refine_append {IO : PosixFile} {IOok : PosixFileSpec} PS N FS num (acts : list action) :
  file_setting PS N FS num acts ->
  exists w fm, run PS FS (init PS N) acts = Some w /\
    runf PS FS num (initf PS FS num N) acts = Some (mkFworld (with_file w []) fm) /\
    files_rep PS FS num fm (w_file w).
Proof.
  intros HS. destruct (reach_files PS N FS num acts HS) as (w & F & [w' fm] & E & Es & _ & [Ew Hrep] & _).
  cbn [fw_world fw_files] in *. subst w'. by exists w, fm.
Qed.

Lemma files_refine_append_witness :
  exists w fm, run 64 512 (init 64 4) acts_files = Some w /\
    runf 64 512 3 (initf 64 512 3 4) acts_files = Some (mkFworld (with_file w []) fm) /\
    files_rep 64 512 3 fm (w_file w) /\ Z.of_nat (length (w_file w)) = 1792 /\
    map (fun f => (_logID (_logHeader f), lsn_offset (_firstLSN (_logHeader f)), lf_idleSize f)) (_files fm) =
      [(3, 1536, 256); (1, 512, 0); (2, 1024, 0)].
Proof.
  destruct (files_refine_append 64 4 512 3 acts_files (files_sample 3 ltac:(lia))) as (w & fm & E & Es & Hrep).
  exists w, fm. split; [exact E|]. split; [exact Es|]. split; [exact Hrep|]. clear Hrep. split.
  - clear Es. vm_compute in E. injection E as <-. vm_compute. reflexivity.
  - assert (Hm : match runf 64 512 3 (initf 64 512 3 4) acts_files with
                 | Some s => map (fun f => (_logID (_logHeader f), lsn_offset (_firstLSN (_logHeader f)), lf_idleSize f))
                                 (_files (fw_files s))
                 | None => []
                 end = [(3, 1536, 256); (1, 512, 0); (2, 1024, 0)]) by (vm_compute; reflexivity).
    rewrite Es in Hm. exact Hm.
Defined.

(** C18: [search] over buffer and files: a record among the last pages of the
    ring is found there, an older one that was flushed is found in the files
    as long as its file is among the last [num]; both ways it has its length
    and the bytes its writer wrote.  A position in a file that was reused is
    not in the files, and one behind the log is out of range. *)
Theorem search_finds_everywhere {IO : PosixFile} {IOok : PosixFileSpec} PS N FS num (acts : list action)
    (s : fworld) (type : Z) (onlyHeader : bool) :
  file_setting PS N FS num acts -> runf PS FS num (initf PS FS num N) acts = Some s ->
  w_log (fw_world s) <> [] -> Z.land DPS_SEARCH_FILE type <> 0 ->
  let m := w_mgr (fw_world s) in
  let find x := search PS FS num m (fw_files s) x type onlyHeader in
  let begin := first_page PS N (pos m) * PS in
  let n := pos m / PS * PS - PS * Z.of_nat (length (_queue m)) in
  (forall b, b ∈ w_log (fw_world s) -> begin <= off b -> locked (fw_world s) (slot PS N (off b)) = false ->
     loaded (find (off b)) b onlyHeader) /\
  (forall b, b ∈ w_log (fw_world s) -> off b < begin -> off b + size b <= n -> last_file FS n - num < off b / FS ->
     loaded (find (off b)) b onlyHeader) /\
  (forall x, 0 <= x < begin -> x / FS <= last_file FS n - num -> find x = Some (inl SDB_DPS_LOG_NOT_IN_FILE)) /\
  (forall x, pos m <= x < 2 ^ 63 -> find x = Some (inl SDB_DPS_LSN_OUTOFRANGE)).
Proof.
  intros HS E Hne Hty m find begin n.
  destruct (reach_files PS N FS num acts HS) as (w & F & s' & _ & Es & H & [Ew Hrep] & Hk & HL).
  rewrite E in Es. injection Es as <-. pose proof HS as [[H1 H2 H3 H4 H5 H6 H7] H8 H9].
  destruct s as [w' fm]. cbn [fw_world fw_files] in *. subst w'.
  change (w_log (with_file w [])) with (w_log w) in *. change (w_mgr (with_file w [])) with (w_mgr w) in *.
  subst find. fold m in HL. pose proof (iv_pos _ _ _ _ _ _ H) as Hpk. fold m in Hpk.
  assert (En : Z.of_nat (length (w_file w)) = n).
  { eassert (Z.of_nat (length (w_file w)) + _ = _) by (by eapply (flushed_length PS N FS)). unfold n, m. lia. }
  assert (Hn : n < 2 ^ 31 * FS) by (pose proof (div_bounds PS H1 (pos m)); nia).
  destruct (oldest_ok PS N FS H1 H2 H3 _ w F H HL Hne) as (l & _ & _ & Hl). fold m begin in Hl.
  assert (0 <= begin) by (apply Z.mul_nonneg_nonneg; [unfold first_page|]; lia).
  split_and!.
  - intros b Hb Hwin Hlock.
    destruct (search_ok PS N FS H1 H2 H3 _ w F b onlyHeader H HL Hb Hwin Hlock) as (mem & bs & Es & Ebs & Hm).
    exists mem, bs. split; [|done]. apply search_in_buffer; [done|done|].
    pose proof (block_range PS N FS _ w F b H Hb) as Hr. fold m in Hr. lia.
  - intros b Hb Hold Hle Hnew. pose proof (block_range PS N FS _ w F b H Hb) as Hr.
    rewrite (search_in_file PS N FS num acts HS _ w F) by (done || fold m begin; lia).
    eapply block_loaded; rewrite ?En; try done; [apply Hrep|]. pose proof (iv_file _ _ _ _ _ _ H) as Hf.
    rewrite list.Forall_forall in Hf. intros bs i Ebs Hi Hlt. apply (Hf b Hb bs i Ebs Hi).
    rewrite <- (iv_flen _ _ _ _ _ _ H). lia.
  - intros x Hx Hold. rewrite (search_in_file PS N FS num acts HS _ w F) by done.
    eapply load_outside; rewrite ?En; try apply Hrep; try done; [lia| |by left]. apply Z.lt_trans with (2 ^ 31 * FS); [done|lia].
  - intros x Hx. apply search_in_buffer; [|done|lia].
    apply (search_outside PS N FS H1 H2 H3 _ w F x onlyHeader H HL Hne); fold m; lia.
Qed.

(** Block number [k] of the sample, and the state around it. *)
Lemma sample_log s : runf 64 512 3 (initf 64 512 3 4) acts_files = Some s ->
  let w := fw_world s in
  pos (w_mgr w) = 1824 /\ _queue (w_mgr w) = [] /\ w_open w = [] /\ w_pending w = None /\
  (exists b, b ∈ w_log w /\ off b = 512 /\ size b = 96) /\
  (exists b, b ∈ w_log w /\ off b = 1632 /\ size b = 96) /\
  (exists b, b ∈ w_log w /\ off b = 1728 /\ size b = 96) /\ locked w 1 = false.
Proof.
  intros E w.
  assert (Hc : match runf 64 512 3 (initf 64 512 3 4) acts_files with
               | Some s =>
                   let w := fw_world s in
                   (pos (w_mgr w), _queue (w_mgr w), length (w_open w), w_pending w, locked w 1,
                    (fun b => (off b, size b)) <$> w_log w !! 5%nat, (fun b => (off b, size b)) <$> w_log w !! 16%nat,
                    (fun b => (off b, size b)) <$> w_log w !! 17%nat)
               | None => (0, [], 1%nat, None, true, None, None, None)
               end = (1824, [], 0%nat, None, false, Some (512, 96), Some (1632, 96), Some (1728, 96)))
    by (vm_compute; reflexivity).
  rewrite E in Hc. clear E. fold w in Hc. cbv zeta in Hc. injection Hc as P1 P2 P3 P4 P5 P6 P7 P8.
  assert (Hin : forall k o z, (fun b => (off b, size b)) <$> w_log w !! k = Some (o, z) ->
    exists b, b ∈ w_log w /\ off b = o /\ size b = z).
  { intros k o z Hk. destruct (w_log w !! k) as [b|] eqn:Eb; [|done]. cbn in Hk. injection Hk as <- <-.
    exists b. split; [by apply list_elem_of_lookup_2 in Eb|done]. }
  split_and!; try done; [by destruct (w_open w)|..]; by eapply Hin.
Qed.

Lemma search_finds_everywhere_witness :
  exists s, runf 64 512 3 (initf 64 512 3 4) acts_files = Some s /\
    (exists mem, search 64 512 3 (w_mgr (fw_world s)) (fw_files s) 512 0x11 false = Some (inr (mem, 96))) /\
    (exists mem, search 64 512 3 (w_mgr (fw_world s)) (fw_files s) 1632 0x11 false = Some (inr (mem, 96))) /\
    search 64 512 3 (w_mgr (fw_world s)) (fw_files s) 96 0x11 false = Some (inl SDB_DPS_LOG_NOT_IN_FILE).
Proof.
  destruct (runf 64 512 3 (initf 64 512 3 4) acts_files) as [s|] eqn:E; [|by vm_compute in E]. exists s.
  split; [reflexivity|].
  destruct (sample_log s E) as (Ep & Eq & _ & _ & (b1 & B1 & O1 & Z1) & (b2 & B2 & O2 & Z2) & _ & Hl).
  assert (Hne : w_log (fw_world s) <> []) by (intros E0; rewrite E0 in B1; by apply elem_of_nil in B1).
  destruct (search_finds_everywhere 64 4 512 3 acts_files s 0x11 false (files_sample 3 ltac:(lia)) E Hne)
    as (S1 & S2 & S3 & _); [intros D; vm_compute in D; discriminate|].
  clear E. rewrite Ep, Eq in *. cbn [length] in *.
  change (first_page 64 4 1824 * 64) with 1600 in *. change (1824 / 64 * 64 - 64 * Z.of_nat 0) with 1792 in *.
  change (last_file 512 1792 - 3) with 0 in *.
  destruct (S1 b2 B2) as (m2 & _ & R2 & _); [lia|rewrite O2; exact Hl|].
  destruct (S2 b1 B1) as (m1 & _ & R1 & _); [lia|lia|rewrite O1; reflexivity|].
  rewrite O1, Z1 in R1. rewrite O2, Z2 in R2.
  split; [by exists m1|]. split; [by exists m2|]. apply S3; [lia|apply Z.leb_le; reflexivity].
Defined.

(** ** Shutting down *)

(** C19: When no session has a record to write any more, [tearDown] succeeds
    and leaves nothing behind in the buffer: every record of the log up to
    the last one, the ones in the page that is not full included, can be
    loaded from the files with its length and the bytes its writer wrote,
    unless its file was reused. *)
Theorem shutdown_keeps_the_log {IO : PosixFile} {IOok : PosixFileSpec} PS N FS num (acts : list action)
    (s : fworld) :
  file_setting PS N FS num acts -> runf PS FS num (initf PS FS num N) acts = Some s ->
  w_open (fw_world s) = [] -> w_pending (fw_world s) = None ->
  exists m' fm', tearDown PS FS num (w_mgr (fw_world s)) (fw_files s) = Some (SDB_OK, m', fm') /\
    forall b onlyHeader, b ∈ w_log (fw_world s) ->
      last_file FS (pos (w_mgr (fw_world s))) - num < off b / FS ->
      loaded (fileMgr_load FS num fm' (off b) onlyHeader) b onlyHeader.
Proof.
  intros HS E Hop Hpd. destruct (reach_files PS N FS num acts HS) as (w & F & s' & _ & Es & H & [Ew Hrep] & Hk & HL).
  rewrite E in Es. injection Es as <-. pose proof HS as [[H1 H2 H3 H4 H5 H6 H7] H8 H9].
  destruct s as [w' fm]. cbn [fw_world fw_files] in *. subst w'.
  change (w_log (with_file w [])) with (w_log w) in *. change (w_mgr (with_file w [])) with (w_mgr w) in *.
  assert (Ho : open_blocks w = []).
  { unfold open_blocks. change (w_open w) with (w_open (with_file w [])). rewrite Hop.
    change (w_pending w) with (w_pending (with_file w [])). by rewrite Hpd. }
  edestruct (tearDown_ok PS N FS num) as (m' & fm' & gm & g & Et & Hg & Hsame & [C1 C2 C3]); try exact H; try done.
  exists m', fm'. split; [done|]. intros b oh Hb Hnew. rewrite <- (load_same FS num gm fm') by done.
  destruct (inv_chain_in _ _ _ _ _ _ _ H Hb) as (y & cu & Hlk & Hy). rewrite <- (lk_off _ _ _ _ _ _ Hlk) in Hy.
  eapply block_loaded; try apply Hg; try done; rewrite ?C2; try lia.
  rewrite list.Forall_forall in C3. intros bs i Ebs Hi Hlt. apply (C3 b Hb bs i Ebs Hi). lia.
Qed.

(** The last record of the sample ends in a page that is not full. *)
Lemma shutdown_keeps_the_log_witness :
  exists s m' fm' mem, runf 64 512 3 (initf 64 512 3 4) acts_files = Some s /\
    tearDown 64 512 3 (w_mgr (fw_world s)) (fw_files s) = Some (SDB_OK, m', fm') /\
    fileMgr_load 512 3 fm' 1728 false = Some (inr (mem, 96)).
Proof.
  destruct (runf 64 512 3 (initf 64 512 3 4) acts_files) as [s|] eqn:E; [|by vm_compute in E].
  destruct (sample_log s E) as (Ep & _ & Eo & Epd & _ & _ & (b & B & O & Z1) & _).
  destruct (shutdown_keeps_the_log 64 4 512 3 acts_files s (files_sample 3 ltac:(lia)) E Eo Epd)
    as (m' & fm' & Et & Hall).
  destruct (Hall b false B) as (mem & bs & R & _); [rewrite O, Ep; reflexivity|]. rewrite O, Z1 in R.
  exists s, m', fm', mem. split; [reflexivity|]. split; [exact Et|exact R].
Defined.
