(* ===== verification/DpsRestore.v ===== *)
(** * Starting from the log files

    Models what happens when the log files exist already: a file is scanned
    record by record ([_dpsLogFile::_restore]), the files are put in order
    ([_dpsLogFileMgr::_analysis]), and the records of the working file are
    merged into the buffer again ([_dpsReplicaLogMgr::_restore]); and moving
    the end of the log ([move]), which uses the same operations.  [None] is
    an access outside of an array, or a scan that does not end. *)

From stdpp Require Import base list option.
From Stdlib Require Import ZArith Lia.
From S2P Require Import Prelude DpsLsn Mem DpsRecord DpsBuffer DpsLogFile.

Open Scope Z_scope.

Definition SDB_DPS_MOVE_FAILED : Z := -114.
Definition SDB_DPS_FILE_SIZE_NOT_SAME : Z := -123.
Definition SDB_DPS_FILE_NOT_RECOGNISE : Z := -124.
Definition SDB_DPS_INVALID_LSN : Z := -126.

(** [DPS_LSN_2_FILEID] and [DPS_FILEID_COMPARE] *)
Definition DPS_LSN_2_FILEID (offset fileSize : Z) : Z := u32 (offset / fileSize).

Definition DPS_FILEID_COMPARE (lID rID : Z) : Z :=
  if lID =? rID then 0
  else if DPS_INVALID_LOG_FILE_ID =? lID then -1
  else if DPS_INVALID_LOG_FILE_ID =? rID then 1
  else if lID <? rID then -1 else 1.

Definition set_header (f : dpsLogFile) (h : dpsLogHeader) : dpsLogFile :=
  mkLogFile (lf_data f) (lf_idleSize f) h (_diskHeader f) (_dirty f).

Section restore.
(** [pmdGetStartup().isOK()] says whether the last run ended regularly. *)
Context `{PosixFile} (PS FS num : Z) (startupOK : bool).

(** ** One file *)

(** The loop over the records: the return code, the end of the last sound
    record and its length.  A round passes at least a header. *)
Fixpoint scan_loop (fuel : nat) (f : dpsLogFile) (baseOffset offSet lastLen : Z) : option (Z * Z * Z) :=
  if offSet <? FS then
    match fuel with
    | O => None
    | S fuel' =>
        '(rc, hb) ← logFile_read FS f (u64 (offSet + baseOffset)) sizeof_head;
        if negb (rc =? SDB_OK) then Some (rc, offSet, lastLen)
        else
          h ← read_head hb;
          if negb (_lsn h =? u64 (offSet + baseOffset)) then Some (SDB_OK, offSet, lastLen)
          else if FS <? offSet + _length h then Some (SDB_OK, offSet, lastLen)
          else if _length h <? sizeof_head then Some (SDB_OK, offSet, lastLen)
          else if DPS_RECORD_MAX_LEN <? _length h then Some (SDB_OK, offSet, lastLen)
          else if negb (_length h mod 4 =? 0) then Some (SDB_OK, offSet, lastLen)
          else scan_loop fuel' f baseOffset (offSet + _length h) (_length h)
    end
  else Some (SDB_OK, offSet, lastLen).

(** The last record is dropped when it does not load. *)
Definition check_last (f : dpsLogFile) (baseOffset offSet lastLen : Z) : option (Z * dpsLogFile * Z) :=
  if (0 <? lastLen) && (0 <? offSet) then
    '(rc, bs) ← logFile_read FS f (u64 (offSet + baseOffset - lastLen)) lastLen;
    if negb (rc =? SDB_OK) then Some (rc, f, offSet)
    else
      '(rc, _) ← load record_init bs;
      if SDB_DPS_CORRUPTED_LOG =? rc then
        let offSet := offSet - lastLen in
        let f := if 0 =? offSet then set_header f (with_first (_logHeader f) LSN_INVALID (_logID (_logHeader f))) else f in
        Some (SDB_OK, f, offSet)
      else Some (rc, f, offSet)
  else Some (SDB_OK, f, offSet).

(** The part of [_restore] behind the checks of the header. *)
Definition restore_records (f : dpsLogFile) : option (Z * dpsLogFile) :=
  let h := _logHeader f in
  if (_logID h =? DPS_INVALID_LOG_FILE_ID) || lsn_invalid (_firstLSN h) ||
     negb (DPS_LSN_2_FILEID (lsn_offset (_firstLSN h)) FS =? _logID h)
  then Some (SDB_OK, set_header f (with_first h LSN_INVALID DPS_INVALID_LOG_FILE_ID))
  else
    let offSet := lsn_offset (_firstLSN h) mod FS in
    let baseOffset := lsn_offset (_firstLSN h) - offSet in
    '(rc, offSet, lastLen) ← scan_loop (Z.to_nat FS) f baseOffset offSet 0;
    if negb (rc =? SDB_OK) then Some (rc, f)
    else
      '(rc, f, offSet) ← check_last f baseOffset offSet lastLen;
      if negb (rc =? SDB_OK) then Some (rc, f)
      else Some (SDB_OK, set_idleSize f (u32 (FS - offSet))).

(** [_restore] *)
Definition logFile_restore (f : dpsLogFile) : option (Z * dpsLogFile) :=
  let fileSize := Z.of_nat (length (lf_data f)) in
  if fileSize <? FS then Some (SDB_DPS_FILE_SIZE_NOT_SAME, f)
  else
    let f := set_header f (_diskHeader f) in
    let h := _logHeader f in
    if negb (bool_decide (_eyeCatcher h = DPS_LOG_HEADER_EYECATCHER)) then Some (SDB_DPS_FILE_NOT_RECOGNISE, f)
    else if negb (lh_fileSize h =? 0) && negb (lh_fileSize h =? FS) then Some (SDB_DPS_FILE_SIZE_NOT_SAME, f)
    else if negb (lh_fileNum h =? 0) && negb (lh_fileNum h =? num) then Some (SDB_INVALIDARG, f)
    else if (FS <? fileSize) && startupOK then Some (SDB_OK, f)
    else
      let f := if FS <? fileSize then mkLogFile (take (Z.to_nat FS) (lf_data f)) (lf_idleSize f) h (_diskHeader f) (_dirty f) else f in
      let f := if negb (lh_version h =? DPS_LOG_FILE_VERSION1)
               then _flushHeader (set_header f (mkLogHeader (_eyeCatcher h) (_firstLSN h) (_logID h) DPS_LOG_FILE_VERSION1 FS num))
               else f in
      restore_records f.

(** [init] of a file that exists: what is on disk is kept. *)
Definition logFile_open (f : dpsLogFile) : option (Z * dpsLogFile) :=
  logFile_restore (mkLogFile (lf_data f) FS logHeader_init (_diskHeader f) false).

(** [invalidateData] *)
Definition logFile_invalidateData (f : dpsLogFile) : option (Z * dpsLogFile) :=
  let idleSize := lf_idleSize f in
  if 0 =? idleSize then Some (SDB_OK, f)
  else if (sizeof_head <=? idleSize) && (idleSize <=? FS) then
    '(rc, data) ← write_loop 32 (lf_data f) (FS - idleSize) (head_bytes head_clear);
    Some (rc, set_data f data)
  else Some (SDB_SYS, f).

(** ** The files in order *)

Fixpoint open_files (fs : list dpsLogFile) : option (Z * list dpsLogFile) :=
  match fs with
  | [] => Some (SDB_OK, [])
  | f :: fs' =>
      '(rc, f) ← logFile_open f;
      if negb (rc =? SDB_OK) then Some (rc, [])
      else
        '(rc, fs') ← open_files fs';
        if negb (rc =? SDB_OK) then Some (rc, []) else Some (SDB_OK, f :: fs')
  end.

(** The file with the smallest number. *)
Fixpoint oldest_file (fs : list dpsLogFile) (i beginLogID begin : Z) : Z :=
  match fs with
  | [] => begin
  | f :: fs' =>
      let id := _logID (_logHeader f) in
      if id =? DPS_INVALID_LOG_FILE_ID then oldest_file fs' (i + 1) beginLogID begin
      else if (beginLogID =? DPS_INVALID_LOG_FILE_ID) || (DPS_FILEID_COMPARE id beginLogID <? 0)
      then oldest_file fs' (i + 1) id i
      else oldest_file fs' (i + 1) beginLogID begin
  end.

(** The full files: the working file, the next file and the number of files
    passed. *)
Fixpoint full_files (fuel : nat) (fs : list dpsLogFile) (work tmpWork i : Z) : option (Z * Z * Z) :=
  f ← rd fs tmpWork;
  if (lf_idleSize f =? 0) && (i <? Z.of_nat (length fs)) then
    match fuel with
    | O => None
    | S fuel' => full_files fuel' fs tmpWork (_incFileID num tmpWork) (i + 1)
    end
  else Some (work, tmpWork, i).

(** The files behind the working one are reset. *)
Fixpoint drop_files (k : nat) (fs : list dpsLogFile) (tmpWork : Z) : option (list dpsLogFile) :=
  match k with
  | O => Some fs
  | S k' =>
      f ← rd fs tmpWork;
      fs ← (if negb (_logID (_logHeader f) =? DPS_INVALID_LOG_FILE_ID)
            then wr fs tmpWork (logFile_reset FS f DPS_INVALID_LOG_FILE_ID DPS_INVALID_LSN_OFFSET DPS_INVALID_LSN_VERSION)
            else Some fs);
      drop_files k' fs (_incFileID num tmpWork)
  end.

(** [_analysis] *)
Definition _analysis (fm : dpsLogFileMgr) : option dpsLogFileMgr :=
  let fs := _files fm in
  let size := Z.of_nat (length fs) in
  let begin := oldest_file fs 0 DPS_INVALID_LOG_FILE_ID (fm_begin fm) in
  '(work, tmpWork, i) ← full_files (length fs) fs (fm_work fm) begin 0;
  f ← rd fs tmpWork;
  let '(work, tmpWork, i) :=
    if (i <? size) && negb (_logID (_logHeader f) =? DPS_INVALID_LOG_FILE_ID)
    then (tmpWork, _incFileID num tmpWork, i + 1) else (work, tmpWork, i) in
  fs ← drop_files (Z.to_nat (size - i)) fs tmpWork;
  f ← rd fs work;
  let id := _logID (_logHeader f) in
  Some (mkFileMgr fs work (if negb (id =? DPS_INVALID_LOG_FILE_ID) then id else _logicalWork fm) begin
                  (negb (begin =? work))).

(** [init] with files that exist. *)
Definition fileMgr_open (fs : list dpsLogFile) : option (Z * dpsLogFileMgr) :=
  '(rc, fs) ← open_files fs;
  if negb (rc =? SDB_OK) then Some (rc, mkFileMgr [] 0 0 0 false)
  else fm ← _analysis (mkFileMgr fs 0 0 0 false); Some (SDB_OK, fm).

(** ** Moving the end of the log *)

(** The position lies in the working file, or at its end. *)
Definition in_file (f : dpsLogFile) (offset : Z) : bool :=
  let first := lsn_offset (getFirstLSN FS f true) in
  negb (_logID (_logHeader f) =? DPS_INVALID_LOG_FILE_ID) &&
  ((first <=? offset) && (offset <=? u64 (first + getValidLength FS f))).

Definition set_work (fm : dpsLogFileMgr) (work : Z) : dpsLogFileMgr :=
  mkFileMgr (_files fm) work (_logicalWork fm) (fm_begin fm) (fm_rollFlag fm).

(** The loop of [move]; [false] when no file has the position. *)
Fixpoint move_loop (k : nat) (fm : dpsLogFileMgr) (offset : Z) (back : bool) : option (bool * dpsLogFileMgr) :=
  match k with
  | O => Some (false, fm)
  | S k' =>
      f ← rd (_files fm) (fm_work fm);
      if in_file f offset then
        fm ← (if negb ((offset / FS) mod num =? fm_work fm) then Some fm
              else
                '(_, f) ← logFile_invalidateData (set_idleSize f (u32 (FS - offset mod FS)));
                set_file fm (fm_work fm) f);
        Some (true, mkFileMgr (_files fm) (fm_work fm) (_logID (_logHeader f)) (fm_begin fm) (fm_rollFlag fm))
      else
        fm ← (if negb (_logID (_logHeader f) =? DPS_INVALID_LOG_FILE_ID)
              then set_file fm (fm_work fm)
                     (logFile_reset FS f DPS_INVALID_LOG_FILE_ID DPS_INVALID_LSN_OFFSET DPS_INVALID_LSN_VERSION)
              else Some fm);
        move_loop k' (set_work fm (if back then _decFileID num (fm_work fm) else _incFileID num (fm_work fm))) offset back
  end.

(** [_dpsLogFileMgr::move] *)
Definition fileMgr_move (fm : dpsLogFileMgr) (offset version : Z) : option dpsLogFileMgr :=
  let file := (offset / FS) mod num in
  f ← rd (_files fm) (fm_work fm);
  let forth := negb (_logID (_logHeader f) =? DPS_INVALID_LOG_FILE_ID) &&
               (u64 (lsn_offset (getFirstLSN FS f true) + getValidLength FS f) <? offset) in
  '(found, fm) ← move_loop (Z.to_nat num) fm offset (negb forth);
  if (found : bool) then Some fm
  else
    let logical := DPS_LSN_2_FILEID offset FS in
    f ← rd (_files fm) file;
    let f := set_idleSize (logFile_reset FS f logical offset version) (u32 (FS - offset mod FS)) in
    set_file (mkFileMgr (_files fm) file logical file false) file f.

(** ** The buffer *)

Definition set_restoreFlag (m : dpsReplicaLogMgr) (b : bool) : dpsReplicaLogMgr :=
  mkMgr (_pages m) (_idleSize m) (_totalSize m) (_work m) (_pageNum m) (_begin m) (_rollFlag m) (m_lsn m)
        (_currentLsn m) (_lastCommitted m) (_incVersion m) b (_queue m) (_queSize m).

(** Back to page [page]; the pages passed have no begin LSN any more. *)
Fixpoint move_back (fuel : nat) (m : dpsReplicaLogMgr) (page : Z) : option dpsReplicaLogMgr :=
  if _work m =? page then Some m
  else
    match fuel with
    | O => None
    | S fuel' =>
        p ← rd (_pages m) (_work m);
        m ← set_page m (_work m) (setBeginLSN p LSN_INVALID);
        move_back fuel' (set_ring m (_decPageID m (_work m)) (_begin m) (_rollFlag m)) page
    end.

(** The end of [_movePages], in the page of the position. *)
Definition moved (m : dpsReplicaLogMgr) (offset version : Z) : option (Z * dpsReplicaLogMgr) :=
  p ← rd (_pages m) (_work m);
  p ← zero_rest PS (writePtr p (offset mod PS));
  m ← set_page m (_work m) p;
  let m := set_idle m (_totalSize m - offset mod PS) in
  Some (SDB_OK, set_committed (set_lsns m (mkLSN offset version) (_currentLsn m)) LSN_INVALID).

(** [_movePages] *)
Definition _movePages (m : dpsReplicaLogMgr) (offset version : Z) : option (Z * dpsReplicaLogMgr) :=
  let page := (offset / PS) mod _pageNum m in
  start ← _getStartLsn m;
  if lsn_invalid (_currentLsn m) || (offset <? lsn_offset start) || (lsn_offset (m_lsn m) <? offset) then
    let m := set_pages m (map (fun p => writePtr (setBeginLSN p LSN_INVALID) 0) (_pages m)) in
    let m := set_ring m page page false in
    p ← rd (_pages m) page;
    m ← set_page m page (setBeginLSN p (mkLSN offset version));
    moved (set_lsns m (m_lsn m) LSN_INVALID) offset version
  else if offset <? lsn_offset (m_lsn m) then
    m ← move_back (length (_pages m)) m page;
    o ← _parse PS m (_work m) (offset mod PS) sizeof_head;
    match o with
    | inl rc => Some (rc, m)
    | inr hb =>
        h ← read_head hb;
        if negb (offset =? _lsn h) then Some (SDB_DPS_CORRUPTED_LOG, m)
        else moved (set_lsns m (m_lsn m) (mkLSN (_preLsn h) version)) offset version
    end
  else moved m offset version.

(** The free bytes of the working file are counted from the beginning of the
    page that is not full. *)
Definition reopen_page (m : dpsReplicaLogMgr) (fm : dpsLogFileMgr) : option (Z * dpsLogFileMgr) :=
  f ← rd (_files fm) (fm_work fm);
  p ← rd (_pages m) (_work m);
  let fileIdleSize := u32 (lf_idleSize f + _mbLength p) in
  if negb (fileIdleSize mod PS =? 0) then Some (SDB_SYS, fm)
  else fm ← set_file fm (fm_work fm) (set_idleSize f fileIdleSize); Some (SDB_OK, fm).

(** The records of the working file are merged again, as rows. *)
Fixpoint merge_file (fuel : nat) (m : dpsReplicaLogMgr) (fm : dpsLogFileMgr) (begin length : Z)
    : option (Z * dpsReplicaLogMgr) :=
  if (begin mod FS <? length) && ((begin / FS) mod num =? fm_work fm) then
    match fuel with
    | O => None
    | S fuel' =>
        o ← fileMgr_load FS num fm begin false;
        match o with
        | inl rc => Some (rc, m)
        | inr (bs, len) =>
            h ← read_head bs;
            '(_, r) ← record_push (with_head record_init h) DPS_LOG_ROW_ROWDATA (len - sizeof_head)
                        (Some (drop (Z.to_nat sizeof_head) bs));
            o ← merge PS FS false m (mkBlock r meta_none true);
            match o with
            | inl (Prepared rc m _ _) => Some (rc, m)
            | inl _ => None
            | inr m => merge_file fuel' m fm (u64 (begin + _length h)) length
            end
        end
    end
  else Some (SDB_OK, m).

(** [_dpsReplicaLogMgr::_restore] *)
Definition mgr_restore (m : dpsReplicaLogMgr) (fm : dpsLogFileMgr) : option (Z * dpsReplicaLogMgr * dpsLogFileMgr) :=
  f ← rd (_files fm) (fm_work fm);
  let first := getFirstLSN FS f false in
  if lsn_invalid first then Some (SDB_DPS_INVALID_LSN, set_restoreFlag m false, fm)
  else
    '(_, m) ← _movePages (set_restoreFlag m true) (lsn_offset first) (lsn_version first);
    '(rc, m) ← merge_file (Z.to_nat FS) m fm (lsn_offset first) (logFile_length FS f);
    if negb (rc =? SDB_OK) then Some (rc, set_restoreFlag m false, fm)
    else
      '(rc, fm) ← reopen_page m fm;
      Some (rc, set_restoreFlag m false, fm).

(** [_dpsReplicaLogMgr::init] over files that exist. *)
Definition mgr_open (n : Z) (fs : list dpsLogFile) : option (Z * dpsReplicaLogMgr * dpsLogFileMgr) :=
  let m := mgr_init PS n in
  '(rc, fm) ← fileMgr_open fs;
  if negb (rc =? SDB_OK) then Some (rc, m, fm)
  else
    start ← getStartLSN FS num fm false;
    if lsn_invalid start then Some (SDB_OK, m, fm)
    else
      '(rc, m, fm) ← mgr_restore m fm;
      Some (rc, if rc =? SDB_OK then set_committed m (_currentLsn m) else m, fm).

(** [_dpsReplicaLogMgr::move], with the queue empty. *)
Definition mgr_move (m : dpsReplicaLogMgr) (fm : dpsLogFileMgr) (offset version : Z)
    : option (Z * dpsReplicaLogMgr * dpsLogFileMgr) :=
  if DPS_INVALID_LSN_OFFSET =? offset then Some (SDB_DPS_MOVE_FAILED, m, fm)
  else
    let work := _work m in
    let cur := _currentLsn m in
    let last := lsn_offset (m_lsn m) in
    start ← _getStartLsn m;
    p ← rd (_pages m) work;
    m ← set_page (set_idle m (_idleSize m + _mbLength p)) work (page_clear p);
    '(rc, m) ← _movePages m offset version;
    if negb (rc =? SDB_OK) then Some (rc, m, fm)
    else if (lsn_offset start <=? offset) && (offset <=? last) && (work =? _work m) && negb (lsn_invalid cur)
    then Some (SDB_OK, m, fm)
    else
      fm ← fileMgr_move fm offset version;
      first ← getStartLSN FS num fm true;
      if negb (lsn_invalid first) && (offset <? lsn_offset start) then mgr_restore m fm
      else '(rc, fm) ← reopen_page m fm; Some (rc, m, fm).
End restore.
