(* ===== verification/DpsReopen.v ===== *)
(** * Starting from the log files: scanning and order

    The scan of a file passes exactly the records that the file holds, and
    the files are put into the order in which they were written. *)

From stdpp Require Import base list option.
From Stdlib Require Import ZArith Lia.
From S2P Require Import Prelude DpsLsn Mem DpsRecord DpsRecordFacts DpsBuffer DpsRing DpsAlloc DpsRun.
From S2P Require Import DpsPlace DpsRunInv DpsRunThms DpsLogFile DpsLogFileFacts DpsFilesRun DpsRestore.

Open Scope Z_scope.

(** A block that loads from any room its bytes are written to. *)
Definition readable (b : dpsMergeBlock) : Prop :=
  forall bs mem, block_bytes b = Some bs -> bs `prefix_of` mem -> Z.of_nat (length mem) = size b ->
    exists r, load record_init mem = Some (SDB_OK, r).

Section scan.
Context {IO : PosixFile} {IOok : PosixFileSpec} (PS N FS num : Z) (startupOK : bool).
Context (HPS : 0 < PS) (HN : 2 <= N) (HT : N * PS < 2 ^ 31) (HFS : 64 < FS < 2 ^ 31) (HF4 : (4 | FS)).
Context (HPF : (PS | FS)) (Hnum : 2 <= num < 2 ^ 31).

(** ** Boundaries of records *)

Definition boundary (log : list dpsMergeBlock) (X x : Z) : Prop := x = X \/ exists b, b ∈ log /\ off b = x.

Lemma chain_next log X cu b : chain PS N FS log X cu -> b ∈ log -> boundary log X (off b + size b).
Proof.
  induction 1 as [|log x cu b' Hc IH Hl]; intros Hb; [by apply elem_of_nil in Hb|].
  apply elem_of_app in Hb as [Hb|Hb%list_elem_of_singleton].
  - destruct (IH Hb) as [->|(c & Hc' & E)]; right.
    + exists b'. split; [apply elem_of_app; right; by apply list_elem_of_singleton|]. apply Hl.
    + exists c. split; [apply elem_of_app; by left|done].
  - subst b'. left. by rewrite (lk_off _ _ _ _ _ _ Hl).
Qed.

Lemma chain_nonneg log X cu : chain PS N FS log X cu -> 0 <= X.
Proof. induction 1 as [|log x cu b Hc IH Hl]; [lia|]. pose proof (lk_size _ _ _ _ _ _ Hl). lia. Qed.

Lemma chain_off log X cu b : chain PS N FS log X cu -> b ∈ log -> 0 <= off b.
Proof.
  induction 1 as [|log x cu b' Hc IH Hl]; intros Hb; [by apply elem_of_nil in Hb|].
  apply elem_of_app in Hb as [Hb|Hb%list_elem_of_singleton]; [auto|]. subst b'.
  rewrite (lk_off _ _ _ _ _ _ Hl). by eapply chain_nonneg.
Qed.

(** The part of the log [g] with end [X] that file [q] has. *)
Definition file_end (X q : Z) : Z := Z.min X ((q + 1) * FS).

(** ** What the scan sees *)

Section file.
Context (log : list dpsMergeBlock) (X cu : Z) (g : list Z) (q : Z) (lf : dpsLogFile).
Context (Hc : chain PS N FS log X cu) (Hlen : X <= Z.of_nat (length g)) (Hsmall : Z.of_nat (length g) < 2 ^ 31 * FS).
Context (Hon : Forall (on_file g X) log) (Hread : Forall readable log).
Context (Hq : 0 <= q) (HqX : q * FS < X).
Context (Hdata : forall x n, q * FS <= x -> 0 <= n -> x + n <= Z.min (Z.of_nat (length g)) ((q + 1) * FS) ->
  exists bs, logFile_read FS lf x n = Some (SDB_OK, bs) /\ Z.of_nat (length bs) = n /\
    forall i, 0 <= i < n -> rd bs i = rd g (x + i)).

Lemma block_pos b : b ∈ log -> 0 <= off b /\ off b + size b <= X.
Proof.
  intros Hb. destruct (chain_in _ _ _ _ _ _ _ Hc Hb) as (y & c & Hl & Hy). rewrite (lk_off _ _ _ _ _ _ Hl).
  pose proof (chain_off _ _ _ _ Hc Hb) as H0. rewrite (lk_off _ _ _ _ _ _ Hl) in H0. lia.
Qed.

Lemma block_in_file b : b ∈ log -> q * FS <= off b < (q + 1) * FS -> off b + size b <= (q + 1) * FS.
Proof.
  intros Hb Hx. destruct (chain_in _ _ _ _ _ _ _ Hc Hb) as (y & c & Hl & Hy). rewrite <- (lk_off _ _ _ _ _ _ Hl) in Hl.
  destruct (lk_file _ _ _ _ _ _ Hl) as [E _]. pose proof (lk_size _ _ _ _ _ _ Hl).
  assert (off b / FS = q) by (symmetry; apply (Z.div_unique_pos _ _ q (off b - q * FS)); lia).
  pose proof (Z.div_mod (off b + size b - 1) FS ltac:(lia)). pose proof (Z.mod_pos_bound (off b + size b - 1) FS ltac:(lia)).
  nia.
Qed.

(** The header that is read at the beginning of a record. *)
Lemma head_at b : b ∈ log -> q * FS <= off b < (q + 1) * FS ->
  exists hb, logFile_read FS lf (off b) sizeof_head = Some (SDB_OK, hb) /\ read_head hb = Some (block_head b).
Proof.
  intros Hb Hx. destruct (chain_in _ _ _ _ _ _ _ Hc Hb) as (y & c & Hl & Hy).
  destruct (lk_bytes _ _ _ _ _ _ Hl) as (bs & Ebs & [rest Er] & Hbl & Hho). pose proof (lk_size _ _ _ _ _ _ Hl) as Hsz.
  destruct (block_pos b Hb) as [_ HX]. pose proof (block_in_file b Hb Hx) as Hin.
  destruct (Hdata (off b) 32) as (hb & Erd & Hhl & Hhb); [lia|lia|lia|].
  exists hb. split; [done|]. pose proof (head_bytes_length (block_head b)) as H32.
  assert (hb = head_bytes (block_head b)) as ->; [|apply read_head_prefix; [done|by exists []; rewrite app_nil_r]].
  apply rd_ext; [lia|]. intros i Hi. rewrite Hhb by lia. rewrite list.Forall_forall in Hon.
  rewrite (Hon b Hb bs i Ebs) by (rewrite ?Er, ?length_app; lia).
  rewrite Er, rd_app. by destruct (Z.ltb_spec i (Z.of_nat (length (head_bytes (block_head b))))); [|lia].
Qed.

(** Behind the last record there is no header of a record. *)
Context (Hghost : X < (q + 1) * FS -> exists hb h, logFile_read FS lf X sizeof_head = Some (SDB_OK, hb) /\
  read_head hb = Some h /\ _lsn h <> X).
Context (Hmax : Forall (fun b => size b <= DPS_RECORD_MAX_LEN) log).

Lemma scan_ok fuel : forall x lastLen,
  boundary log X x -> q * FS <= x <= file_end X q -> (q + 1) * FS - x <= Z.of_nat fuel ->
  (x = q * FS /\ lastLen = 0 \/ exists b, b ∈ log /\ q * FS <= off b /\ off b + size b = x /\ size b = lastLen) ->
  exists b, scan_loop FS fuel lf (q * FS) (x - q * FS) lastLen = Some (SDB_OK, file_end X q - q * FS, size b) /\
    b ∈ log /\ q * FS <= off b /\ off b + size b = file_end X q.
Proof.
  induction fuel as [|fuel IH]; intros x lastLen Hb Hx Hf Hlast; unfold file_end in *; cbn [scan_loop].
  - destruct (Z.ltb_spec (x - q * FS) FS); [lia|]. destruct Hlast as [?|(b & B1 & B2 & B3 & <-)]; [lia|].
    exists b. split; [do 3 f_equal; lia|]. split_and!; (done || lia).
  - destruct (Z.ltb_spec (x - q * FS) FS) as [Hlt|Hge].
    2: { destruct Hlast as [?|(b & B1 & B2 & B3 & <-)]; [lia|].
         exists b. split; [do 3 f_equal; lia|]. split_and!; (done || lia). }
    rewrite u64_small by nia. replace (x - q * FS + q * FS) with x by lia.
    assert (Hor : x = X \/ exists b, b ∈ log /\ off b = x) by done. destruct Hor as [->|(b & Hb' & <-)].
    + destruct Hghost as (hb & h & -> & Eh & Hne); [lia|]. cbn [mbind option_bind]. rewrite Z.eqb_refl. cbn [negb].
      rewrite Eh. cbn [mbind option_bind]. destruct (Z.eqb_spec (_lsn h) X); [done|]. cbn [negb].
      destruct Hlast as [?|(b & B1 & B2 & B3 & <-)]; [lia|].
      exists b. split; [do 3 f_equal; lia|]. split_and!; (done || lia).
    + destruct (head_at b Hb') as (hb & -> & Eh); [lia|]. cbn [mbind option_bind]. rewrite Z.eqb_refl. cbn [negb].
      rewrite Eh. cbn [mbind option_bind]. rewrite Z.eqb_refl. cbn [negb].
      destruct (chain_in _ _ _ _ _ _ _ Hc Hb') as (y & c & Hl & Hy). pose proof (lk_size _ _ _ _ _ _ Hl) as Hsz.
      pose proof (block_in_file b Hb' ltac:(lia)) as Hin. destruct (block_pos b Hb') as [_ HX].
      destruct (Z.ltb_spec FS (off b - q * FS + size b)); [lia|].
      destruct (Z.ltb_spec (size b) sizeof_head) as [Hs|]; [unfold sizeof_head in Hs; lia|].
      rewrite list.Forall_forall in Hmax. pose proof (Hmax b Hb') as Hm. cbn in Hm.
      destruct (Z.ltb_spec DPS_RECORD_MAX_LEN (size b)); [lia|].
      pose proof (proj2 (Z.mod_divide (size b) 4 ltac:(lia)) (lk_align _ _ _ _ _ _ Hl)) as Ha. rewrite Ha.
      change (negb (0 =? 0)) with false. cbv iota.
      replace (off b - q * FS + size b) with (off b + size b - q * FS) by lia.
      apply IH; [by eapply chain_next|lia|lia|]. right. exists b. split_and!; (done || lia).
Qed.

(** The last record of the file loads. *)
Lemma check_last_ok b :
  b ∈ log -> q * FS <= off b -> off b + size b = file_end X q ->
  check_last FS lf (q * FS) (file_end X q - q * FS) (size b) = Some (SDB_OK, lf, file_end X q - q * FS).
Proof.
  intros Hb Hx He. unfold check_last, file_end in *.
  destruct (chain_in _ _ _ _ _ _ _ Hc Hb) as (y & c & Hl & Hy). pose proof (lk_size _ _ _ _ _ _ Hl) as Hsz.
  destruct (Z.ltb_spec 0 (size b)); [|lia]. destruct (Z.ltb_spec 0 (Z.min X ((q + 1) * FS) - q * FS)); [|lia].
  cbn [andb]. replace (Z.min X ((q + 1) * FS) - q * FS + q * FS - size b) with (off b) by lia.
  destruct (lk_bytes _ _ _ _ _ _ Hl) as (bs & Ebs & _ & Hbl & _).
  destruct (Hdata (off b) (size b)) as (mem & Erd & Hml & Hmb); [lia|lia|lia|].
  rewrite u64_small by (destruct (block_pos b Hb); nia). rewrite Erd. cbn [mbind option_bind]. rewrite Z.eqb_refl. cbn [negb].
  rewrite list.Forall_forall in Hread, Hon.
  destruct (Hread b Hb bs mem Ebs) as (r & Eld); [|done|].
  - apply rd_prefix. intros i Hi. rewrite Hmb by lia. apply (Hon b Hb bs i Ebs Hi). lia.
  - rewrite Eld. done.
Qed.
End file.

(** The length of the working file. *)
Lemma file_holds_length f lf :
  let n := Z.of_nat (length f) in
  n < 2 ^ 31 * FS -> file_holds FS num f (last_file FS n) lf -> last_file FS n * FS + logFile_length FS lf = n.
Proof.
  intros n Hn [_ Hh]. cbv zeta in Hh. fold n in Hh. unfold logFile_length. destruct (Z.eq_dec n 0) as [E|].
  - rewrite E in *. change (last_file FS 0) with 0 in *. destruct (Z.ltb_spec (0 * FS) 0); [lia|].
    rewrite andb_false_r in Hh. destruct Hh as [-> _]. by rewrite Z.sub_diag.
  - pose proof (last_file_bounds FS ltac:(lia) n ltac:(lia)). pose proof (last_file_nonneg FS ltac:(lia) n ltac:(lia)).
    destruct (Z.leb_spec 0 (last_file FS n)); [|lia]. destruct (Z.ltb_spec (last_file FS n * FS) n); [|lia].
    destruct Hh as [-> _]. rewrite Z.min_l, u32_small by lia. lia.
Qed.

(** ** Opening the files *)

(** The file in memory when its header was read. *)
Definition header_read (lf : dpsLogFile) : dpsLogFile :=
  mkLogFile (lf_data lf) FS (_diskHeader lf) (_diskHeader lf) false.

(** The checks of the header pass. *)
Lemma open_checks lf :
  Z.of_nat (length (lf_data lf)) = FS -> head_fits FS num lf ->
  logFile_open FS num startupOK lf = restore_records FS (header_read lf).
Proof.
  intros Hd (F1 & F2 & F3 & F4 & F5). unfold logFile_open, logFile_restore.
  cbn [lf_data set_header _diskHeader _logHeader lf_idleSize _dirty]. rewrite F1, F2, F3, F4, F5, Hd.
  rewrite Z.ltb_irrefl, bool_decide_true, !Z.eqb_refl by done. cbn [negb andb]. rewrite !andb_false_r.
  by rewrite <- F1.
Qed.

(** What an opened file is, when the log ends at [X]. *)
Record opened (X q : Z) (lf lf' : dpsLogFile) : Prop := {
  op_data : lf_data lf' = lf_data lf;
  op_disk : _diskHeader lf' = _diskHeader lf;
  op_rest : if (0 <=? q) && (q * FS <? X) then
              _logHeader lf' = _diskHeader lf /\ lf_idleSize lf' = (q + 1) * FS - file_end X q
            else
              _logHeader lf' = with_first (_diskHeader lf) LSN_INVALID DPS_INVALID_LOG_FILE_ID /\ lf_idleSize lf' = FS
}.

Lemma open_written log X cu g q lf :
  chain PS N FS log X cu -> X <= Z.of_nat (length g) < 2 ^ 31 * FS -> Forall (on_file g X) log -> Forall readable log ->
  Forall (fun b => size b <= DPS_RECORD_MAX_LEN) log ->
  0 <= q -> q * FS < X -> file_holds FS num g q lf ->
  (X < (q + 1) * FS -> exists hb h, logFile_read FS lf X sizeof_head = Some (SDB_OK, hb) /\
     read_head hb = Some h /\ _lsn h <> X) ->
  exists lf', logFile_open FS num startupOK lf = Some (SDB_OK, lf') /\ opened X q lf lf'.
Proof.
  intros Hc Hlen Hon Hread Hmax Hq HqX Hh Hghost. pose proof Hh as [[Hd Hf] Hr]. cbv zeta in Hr.
  destruct (Z.leb_spec 0 q); [|lia]. destruct (Z.ltb_spec (q * FS) (Z.of_nat (length g))); [|lia].
  cbn [andb] in Hr. destruct Hr as (_ & I2 & I3 & I4 & _). pose proof Hf as (F1 & _).
  assert (Hrd : forall x n, logFile_read FS (header_read lf) x n = logFile_read FS lf x n)
    by (intros; unfold logFile_read, header_read; cbn [_logHeader lf_data]; by rewrite F1).
  assert (Hq31 : q < 2 ^ 31) by nia. rewrite open_checks by done. unfold restore_records.
  change (_logHeader (header_read lf)) with (_diskHeader lf). rewrite F1, I2, I3.
  unfold DPS_INVALID_LOG_FILE_ID, DPS_LSN_2_FILEID. destruct (Z.eqb_spec q 0xFFFFFFFF) as [|_]; [lia|].
  rewrite lsn_valid_intro by (done || (rewrite I3; nia)). rewrite Z.div_mul, u32_small, Z.eqb_refl by lia. cbn [orb negb].
  rewrite Z.mod_mul, Z.sub_0_r by lia.
  destruct (scan_ok log X cu g q (header_read lf) Hc) with (fuel := Z.to_nat FS) (x := q * FS) (lastLen := 0)
    as (b & Es & Hb & Hbx & He); try done; try lia.
  - intros x n Hx Hn Hle. rewrite Hrd. eapply file_read; try done; lia.
  - intros HX. setoid_rewrite Hrd. by apply Hghost.
  - right. eapply chain_file_starts; (done || lia).
  - unfold file_end. lia.
  - rewrite Z.sub_diag in Es. rewrite Es. cbn [mbind option_bind]. rewrite Z.eqb_refl. cbn [negb].
    rewrite (check_last_ok log X cu g q (header_read lf) Hc) with (b := b); try done; try lia.
    2: { intros x n Hx Hn Hle. rewrite Hrd. eapply file_read; try done; lia. }
    cbn [mbind option_bind]. rewrite Z.eqb_refl. cbn [negb]. eexists. split; [done|].
    constructor; try done. destruct (Z.leb_spec 0 q); [|lia]. destruct (Z.ltb_spec (q * FS) X); [|lia]. cbn [andb].
    split; [done|]. cbn [lf_idleSize set_idleSize]. unfold file_end. rewrite u32_small by lia. lia.
Qed.

Lemma open_unused X q g lf :
  file_holds FS num g q lf -> q < 0 \/ Z.of_nat (length g) <= q * FS -> X <= Z.of_nat (length g) ->
  exists lf', logFile_open FS num startupOK lf = Some (SDB_OK, lf') /\ opened X q lf lf'.
Proof.
  intros [[Hd Hf] Hr] Hq HX. rewrite open_checks by done. pose proof Hf as (F1 & _). cbv zeta in Hr.
  assert (E : (0 <=? q) && (q * FS <? Z.of_nat (length g)) = false).
  { destruct (Z.leb_spec 0 q), (Z.ltb_spec (q * FS) (Z.of_nat (length g))); (done || lia). }
  rewrite E in Hr. destruct Hr as (_ & _ & I). unfold restore_records.
  change (_logHeader (header_read lf)) with (_diskHeader lf). rewrite F1, I, Z.eqb_refl. cbn [orb].
  eexists. split; [done|]. constructor; try done.
  assert (E2 : (0 <=? q) && (q * FS <? X) = false).
  { destruct (Z.leb_spec 0 q), (Z.ltb_spec (q * FS) X); (done || lia). }
  rewrite E2. cbn [set_header _logHeader lf_idleSize header_read]. by rewrite F1.
Qed.
End scan.

(** ** Starting from the log files: the order of the files

    After all files are opened, [_analysis] finds the oldest one, the one to
    go on with and its number. *)

Abbreviation id f := (_logID (_logHeader f)).

(** ** The oldest file *)

(** No number, or a larger one. *)
Definition above (v : Z) (f : dpsLogFile) : Prop := id f = DPS_INVALID_LOG_FILE_ID \/ v < id f.

Lemma oldest_kept v fs : forall i b,
  v <> DPS_INVALID_LOG_FILE_ID -> Forall (above v) fs -> oldest_file fs i v b = b.
Proof.
  induction fs as [|f fs IH]; intros i b Hv Hf; [done|]. apply list.Forall_cons in Hf as [[E|Hlt] Hf]; cbn [oldest_file].
  - rewrite E, Z.eqb_refl. by apply IH.
  - destruct (Z.eqb_spec (id f) DPS_INVALID_LOG_FILE_ID); [by apply IH|].
    destruct (Z.eqb_spec v DPS_INVALID_LOG_FILE_ID); [done|]. unfold DPS_FILEID_COMPARE.
    destruct (Z.eqb_spec (id f) v); [lia|]. destruct (Z.eqb_spec DPS_INVALID_LOG_FILE_ID (id f)); [done|].
    destruct (Z.eqb_spec DPS_INVALID_LOG_FILE_ID v); [done|]. destruct (Z.ltb_spec (id f) v); [lia|]. cbn. by apply IH.
Qed.

Lemma oldest_found f pre post : forall i bid b,
  id f <> DPS_INVALID_LOG_FILE_ID -> Forall (above (id f)) pre -> Forall (above (id f)) post ->
  bid = DPS_INVALID_LOG_FILE_ID \/ id f < bid ->
  oldest_file (pre ++ f :: post) i bid b = i + Z.of_nat (length pre).
Proof.
  induction pre as [|p pre IH]; intros i bid b Hv Hpre Hpost Hb; cbn [app oldest_file length].
  - destruct (Z.eqb_spec (id f) DPS_INVALID_LOG_FILE_ID); [done|].
    assert ((bid =? DPS_INVALID_LOG_FILE_ID) || (DPS_FILEID_COMPARE (id f) bid <? 0) = true) as ->.
    { destruct (Z.eqb_spec bid DPS_INVALID_LOG_FILE_ID); [done|]. destruct Hb as [?|Hb]; [done|]. unfold DPS_FILEID_COMPARE.
      destruct (Z.eqb_spec (id f) bid); [lia|]. destruct (Z.eqb_spec DPS_INVALID_LOG_FILE_ID (id f)); [done|].
      destruct (Z.eqb_spec DPS_INVALID_LOG_FILE_ID bid); [done|]. by destruct (Z.ltb_spec (id f) bid); [|lia]. }
    rewrite oldest_kept by done. lia.
  - apply list.Forall_cons in Hpre as [Hp Hpre].
    assert (Hnext : forall bid b, bid = DPS_INVALID_LOG_FILE_ID \/ id f < bid ->
      oldest_file (pre ++ f :: post) (i + 1) bid b = i + Z.of_nat (S (length pre))) by (intros; rewrite IH by done; lia).
    destruct (Z.eqb_spec (id p) DPS_INVALID_LOG_FILE_ID); [by apply Hnext|].
    destruct Hp as [?|Hp]; [done|]. destruct (_ || _); apply Hnext; [by right|done].
Qed.

Lemma oldest_none fs : forall i bid b,
  Forall (fun f => id f = DPS_INVALID_LOG_FILE_ID) fs -> oldest_file fs i bid b = b.
Proof.
  induction fs as [|f fs IH]; intros i bid b Hf; [done|]. apply list.Forall_cons in Hf as [E Hf]. cbn [oldest_file].
  rewrite E, Z.eqb_refl. by apply IH.
Qed.

(** ** All files *)

Lemma open_files_ok `{PosixFile} FS num startupOK fs :
  (forall i f, rd fs i = Some f -> exists f', logFile_open FS num startupOK f = Some (SDB_OK, f')) ->
  exists fs', open_files FS num startupOK fs = Some (SDB_OK, fs') /\ length fs' = length fs /\
    forall i f, rd fs i = Some f -> exists f', logFile_open FS num startupOK f = Some (SDB_OK, f') /\ rd fs' i = Some f'.
Proof.
  intros Hall.
  assert (H2 : exists fs', open_files FS num startupOK fs = Some (SDB_OK, fs') /\
    Forall2 (fun f f' => logFile_open FS num startupOK f = Some (SDB_OK, f')) fs fs').
  { induction fs as [|f fs IH]; cbn [open_files]; [by exists []|].
    destruct (Hall 0 f) as [f' E]; [done|]. destruct IH as (fs' & E' & Hf).
    { intros i g Hi. apply (Hall (i + 1) g). unfold rd in *. destruct (Z.leb_spec 0 i); [|done].
      destruct (Z.leb_spec 0 (i + 1)); [|lia]. by replace (Z.to_nat (i + 1)) with (S (Z.to_nat i)) by lia. }
    rewrite E. cbn [mbind option_bind]. rewrite Z.eqb_refl. cbn [negb]. rewrite E'. cbn [mbind option_bind].
    rewrite Z.eqb_refl. cbn [negb]. eexists. split; [done|]. by constructor. }
  destruct H2 as (fs' & E & Hf). exists fs'. split; [done|]. split; [symmetry; by eapply Forall2_length|].
  intros i f Hi. unfold rd in *. destruct (0 <=? i); [|done].
  destruct (Forall2_lookup_l _ _ _ _ _ Hf Hi) as (f' & ? & ?). by exists f'.
Qed.

Section order.
Context {IO : PosixFile} {IOok : PosixFileSpec} (FS num : Z) (startupOK : bool).
Context (HFS : 64 < FS < 2 ^ 31) (Hnum : 2 <= num < 2 ^ 31).

(** The numbers and free bytes of the files of a log that ends at [X]. *)
Definition ordered (X : Z) (fs : list dpsLogFile) : Prop :=
  Z.of_nat (length fs) = num /\
  forall q, last_file FS X - num < q <= last_file FS X ->
    exists f, rd fs (q mod num) = Some f /\
      if (0 <=? q) && (q * FS <? X) then id f = q /\ lf_idleSize f = (q + 1) * FS - Z.min X ((q + 1) * FS)
      else id f = DPS_INVALID_LOG_FILE_ID /\ lf_idleSize f = FS.

Context (X : Z) (fs : list dpsLogFile) (HX : 0 < X < 2 ^ 31 * FS) (Ho : ordered X fs).

Abbreviation J := (last_file FS X).
Abbreviation q0 := (first_file num J).

Lemma J_bounds : 0 <= J < 2 ^ 31 /\ J * FS < X <= (J + 1) * FS.
Proof. pose proof (last_file_bounds FS ltac:(lia) X ltac:(lia)). pose proof (last_file_nonneg FS ltac:(lia) X ltac:(lia)). nia. Qed.

Lemma file_of q : q0 <= q <= J ->
  exists f, rd fs (q mod num) = Some f /\ id f = q /\ lf_idleSize f = (q + 1) * FS - Z.min X ((q + 1) * FS).
Proof.
  intros Hq. destruct J_bounds as [HJ HJX]. unfold first_file in Hq. destruct Ho as [_ Hall].
  destruct (Hall q ltac:(lia)) as (f & E & Hf). exists f. split; [done|].
  destruct (Z.leb_spec 0 q); [|lia]. by destruct (Z.ltb_spec (q * FS) X); [|nia].
Qed.

Lemma file_behind q : J < q < q0 + num ->
  exists f, rd fs (q mod num) = Some f /\ id f = DPS_INVALID_LOG_FILE_ID /\ lf_idleSize f = FS.
Proof.
  intros Hq. destruct J_bounds as [HJ HJX]. unfold first_file in Hq. destruct Ho as [_ Hall].
  destruct (Hall (q - num) ltac:(lia)) as (f & E & Hf). exists f.
  replace ((q - num) mod num) with (q mod num) in E
    by (replace (q - num) with (q + (-1) * num) by lia; by rewrite Z.mod_add by lia).
  split; [done|]. by destruct (Z.leb_spec 0 (q - num)); [lia|].
Qed.

Lemma above_other j f : fs !! j = Some f -> Z.of_nat j <> q0 mod num -> above q0 f.
Proof.
  intros Hj Hne. pose proof (lookup_lt_Some _ _ _ Hj) as Hlt. destruct Ho as [Hl Hall].
  set (q := J - (J - Z.of_nat j) mod num). pose proof (Z.mod_pos_bound (J - Z.of_nat j) num ltac:(lia)) as Hm.
  assert (Eq : q mod num = Z.of_nat j).
  { subst q. rewrite Zminus_mod_idemp_r. replace (J - (J - Z.of_nat j)) with (Z.of_nat j) by lia. apply Z.mod_small. lia. }
  destruct (Hall q ltac:(lia)) as (f' & E & Hf). rewrite Eq in E. unfold rd in E.
  destruct (Z.leb_spec 0 (Z.of_nat j)); [|lia]. rewrite Nat2Z.id, Hj in E. injection E as <-. unfold above.
  destruct (Z.leb_spec 0 q); cbn [andb] in Hf; [|left; apply Hf].
  destruct (Z.ltb_spec (q * FS) X); [|left; apply Hf].
  right. destruct Hf as [-> _]. assert (q <> q0) by congruence. unfold first_file in *. lia.
Qed.

Lemma oldest_slot b : oldest_file fs 0 DPS_INVALID_LOG_FILE_ID b = q0 mod num.
Proof.
  destruct J_bounds as [HJ HJX]. assert (Hq0 : q0 <= J /\ 0 <= q0) by (unfold first_file; lia).
  destruct (file_of q0 ltac:(lia)) as (f & E & Hid & _). pose proof (Z.mod_pos_bound q0 num ltac:(lia)) as Hm.
  unfold rd in E. destruct (Z.leb_spec 0 (q0 mod num)); [|lia]. pose proof (lookup_lt_Some _ _ _ E) as Hlt.
  rewrite <- (take_drop_middle _ _ _ E). rewrite oldest_found.
  - rewrite length_take. lia.
  - rewrite Hid. unfold DPS_INVALID_LOG_FILE_ID. lia.
  - rewrite Hid. apply list.Forall_lookup. intros j g [Hg Hj]%lookup_take_Some. apply (above_other j); [done|lia].
  - rewrite Hid. apply list.Forall_lookup. intros j g Hg. rewrite lookup_drop in Hg. eapply above_other; [done|lia].
  - by left.
Qed.

Lemma inc_slot q : _incFileID num (q mod num) = (q + 1) mod num.
Proof.
  rewrite incFileID_mod by (done || apply Z.mod_pos_bound; lia). by rewrite Z.add_mod_idemp_l by lia.
Qed.

(** The slot behind the working file. *)
Lemma next_slot : X = (J + 1) * FS ->
  exists f, rd fs ((J + 1) mod num) = Some f /\
    (J + 1 - q0 < num -> id f = DPS_INVALID_LOG_FILE_ID /\ lf_idleSize f = FS).
Proof.
  intros E. destruct J_bounds as [HJ HJX]. assert (Hq0 : q0 <= J < q0 + num) by (unfold first_file; lia).
  destruct (Z_lt_le_dec (J + 1) (q0 + num)).
  - destruct (file_behind (J + 1) ltac:(lia)) as (f & ? & ? & ?). by exists f.
  - destruct (file_of q0 ltac:(lia)) as (f & Ef & _). exists f. split; [|lia].
    replace (J + 1) with (q0 + 1 * num) by lia. by rewrite Z.mod_add by lia.
Qed.

Lemma full_stops fuel work : X = (J + 1) * FS ->
  full_files num fuel fs work ((J + 1) mod num) (J + 1 - q0) = Some (work, (J + 1) mod num, J + 1 - q0).
Proof.
  intros E. destruct (next_slot E) as (f & Ef & Hf). destruct Ho as [Hl _].
  assert (Hstop : (lf_idleSize f =? 0) && (J + 1 - q0 <? Z.of_nat (length fs)) = false).
  { destruct (Z.ltb_spec (J + 1 - q0) (Z.of_nat (length fs))); [|apply andb_false_r].
    destruct (Hf ltac:(lia)) as [_ ->]. by destruct (Z.eqb_spec FS 0); [lia|]. }
  destruct fuel; cbn [full_files]; rewrite Ef; cbn [mbind option_bind]; by rewrite Hstop.
Qed.

(** The full files are passed; the file that is not full is next, or all are
    full. *)
Lemma full_ok k : forall q work fuel,
  q0 <= q -> q + Z.of_nat k = J -> (k < fuel)%nat ->
  exists work', full_files num fuel fs work (q mod num) (q - q0) =
    if X =? (J + 1) * FS then Some (J mod num, (J + 1) mod num, J + 1 - q0) else Some (work', J mod num, J - q0).
Proof.
  destruct J_bounds as [HJ HJX]. destruct Ho as [Hl _].
  induction k as [|k IH]; intros q work fuel Hq Hk Hf; (destruct fuel as [|fuel]; [lia|]); cbn [full_files].
  - assert (q = J) as -> by lia. destruct (file_of J ltac:(lia)) as (f & -> & _ & Hi). cbn [mbind option_bind].
    rewrite Hi, Z.min_l by lia. destruct (Z.eqb_spec X ((J + 1) * FS)) as [E|Hne].
    + exists 0. destruct (Z.eqb_spec ((J + 1) * FS - X) 0); [|lia].
      destruct (Z.ltb_spec (J - q0) (Z.of_nat (length fs))); [|unfold first_file in *; lia]. cbn [andb].
      rewrite inc_slot. replace (J - q0 + 1) with (J + 1 - q0) by lia. apply full_stops; lia.
    + exists work. by destruct (Z.eqb_spec ((J + 1) * FS - X) 0); [lia|].
  - destruct (file_of q ltac:(lia)) as (f & -> & _ & Hi). cbn [mbind option_bind].
    rewrite Hi, Z.min_r by nia. rewrite Z.sub_diag, Z.eqb_refl.
    destruct (Z.ltb_spec (q - q0) (Z.of_nat (length fs))); [|unfold first_file in *; lia]. cbn [andb].
    rewrite inc_slot. replace (q - q0 + 1) with (q + 1 - q0) by lia. apply IH; lia.
Qed.

(** Nothing behind the working file has a number. *)
Lemma drop_ok k : forall q, J < q -> q + Z.of_nat k <= q0 + num -> drop_files FS num k fs (q mod num) = Some fs.
Proof.
  induction k as [|k IH]; intros q Hq Hk; cbn [drop_files]; [done|].
  destruct (file_behind q ltac:(lia)) as (f & -> & E & _). cbn [mbind option_bind]. rewrite E, Z.eqb_refl. cbn [negb].
  cbn [mbind option_bind]. rewrite inc_slot. apply IH; lia.
Qed.

Lemma analysis_ok logical w : _analysis FS num (mkFileMgr fs w logical w false) =
  Some (mkFileMgr fs (J mod num) J (q0 mod num) (1 <=? J)).
Proof.
  destruct J_bounds as [HJ HJX]. destruct Ho as [Hl _]. unfold _analysis. cbn [_files fm_begin fm_work _logicalWork].
  rewrite oldest_slot. assert (Hq0 : q0 <= J < q0 + num /\ 0 <= q0) by (unfold first_file; lia).
  destruct (full_ok (Z.to_nat (J - q0)) q0 w (length fs)) as (work' & E); [lia|lia|lia|]. rewrite Z.sub_diag in E. rewrite E.
  assert (Hwork : exists f, rd fs (J mod num) = Some f /\ id f = J) by (destruct (file_of J) as (f & ? & ? & _); [lia|eauto]).
  destruct Hwork as (fJ & EJ & HidJ). assert (HJv : (J =? DPS_INVALID_LOG_FILE_ID) = false).
  { unfold DPS_INVALID_LOG_FILE_ID. apply Z.eqb_neq. lia. }
  assert (Hroll : negb (q0 mod num =? J mod num) = (1 <=? J)).
  { destruct (Z.eqb_spec (q0 mod num) (J mod num)) as [Em|Hne]; destruct (Z.leb_spec 1 J); try done.
    - apply (num_inj num Hnum) in Em; [|lia]. unfold first_file in Em. lia.
    - destruct Hne. f_equal. lia. }
  assert (Hrest : forall i, i = J + 1 - q0 -> (fs ← drop_files FS num (Z.to_nat (Z.of_nat (length fs) - i)) fs ((J + 1) mod num);
      f ← rd fs (J mod num);
      Some (mkFileMgr fs (J mod num) (if negb (id f =? DPS_INVALID_LOG_FILE_ID) then id f else logical) (q0 mod num)
             (negb (q0 mod num =? J mod num)))) = Some (mkFileMgr fs (J mod num) J (q0 mod num) (1 <=? J))).
  { intros i ->. rewrite drop_ok by lia. cbn [mbind option_bind]. rewrite EJ. cbn [mbind option_bind].
    by rewrite HidJ, HJv, Hroll. }
  destruct (Z.eqb_spec X ((J + 1) * FS)) as [Ef|Hnf]; cbn [mbind option_bind].
  - destruct (next_slot Ef) as (f & -> & Hf). cbn [mbind option_bind].
    assert ((J + 1 - q0 <? Z.of_nat (length fs)) && negb (id f =? DPS_INVALID_LOG_FILE_ID) = false) as ->.
    { destruct (Z.ltb_spec (J + 1 - q0) (Z.of_nat (length fs))); [|done]. destruct (Hf ltac:(lia)) as [-> _]. by rewrite Z.eqb_refl. }
    by apply Hrest.
  - rewrite EJ. cbn [mbind option_bind]. rewrite HidJ, HJv.
    destruct (Z.ltb_spec (J - q0) (Z.of_nat (length fs))); [|lia]. cbn [andb negb]. rewrite inc_slot. apply Hrest. lia.
Qed.
End order.

(** ** An empty log *)

Lemma drop_none FS num fs k : forall tmp,
  2 <= num < 2 ^ 31 -> Z.of_nat (length fs) = num -> (forall i f, rd fs i = Some f -> id f = DPS_INVALID_LOG_FILE_ID) ->
  0 <= tmp < num -> drop_files FS num k fs tmp = Some fs.
Proof.
  induction k as [|k IH]; intros tmp Hn Hl Hall Ht; cbn [drop_files]; [done|].
  destruct (rd fs tmp) as [f|] eqn:E.
  - cbn [mbind option_bind]. rewrite (Hall _ _ E), Z.eqb_refl. cbn [negb mbind option_bind]. rewrite incFileID_mod by lia.
    apply IH; try done. apply Z.mod_pos_bound. lia.
  - unfold rd in E. destruct (Z.leb_spec 0 tmp); [|lia]. apply lookup_ge_None_1 in E. lia.
Qed.

Lemma analysis_empty FS num fs :
  64 < FS -> 2 <= num < 2 ^ 31 -> Z.of_nat (length fs) = num ->
  (forall i f, rd fs i = Some f -> id f = DPS_INVALID_LOG_FILE_ID /\ lf_idleSize f = FS) ->
  _analysis FS num (mkFileMgr fs 0 0 0 false) = Some (mkFileMgr fs 0 0 0 false).
Proof.
  intros HFS Hn Hl Hall. unfold _analysis. cbn [_files fm_begin fm_work _logicalWork].
  rewrite oldest_none; cycle 1.
  { apply list.Forall_lookup. intros j f Hj. apply (Hall (Z.of_nat j) f). unfold rd.
    destruct (Z.leb_spec 0 (Z.of_nat j)); [|lia]. by rewrite Nat2Z.id. }
  destruct fs as [|f fs]; [cbn in Hl; lia|]. destruct (Hall 0 f eq_refl) as [E1 E2].
  assert (Hfull : forall fuel, full_files num fuel (f :: fs) 0 0 0 = Some (0, 0, 0)).
  { intros fuel. destruct fuel; cbn [full_files]; change (rd (f :: fs) 0) with (Some f); cbn [mbind option_bind];
      rewrite E2; by destruct (Z.eqb_spec FS 0); [lia|]. }
  rewrite Hfull. cbn [mbind option_bind]. change (rd (f :: fs) 0) with (Some f). cbn [mbind option_bind]. rewrite E1, Z.eqb_refl. cbn [negb].
  rewrite andb_false_r, drop_none by (try done; try lia; intros i g Hg; by destruct (Hall i g Hg)). cbn [mbind option_bind].
  change (rd (f :: fs) 0) with (Some f). cbn [mbind option_bind]. by rewrite E1, Z.eqb_refl.
Qed.

(** The slots are the last files. *)
Lemma slot_file num J i : 2 <= num -> 0 <= i < num -> exists q, J - num < q <= J /\ q mod num = i.
Proof.
  intros Hn Hi. exists (J - (J - i) mod num). pose proof (Z.mod_pos_bound (J - i) num ltac:(lia)). split; [lia|].
  rewrite Zminus_mod_idemp_r. replace (J - (J - i)) with i by lia. apply Z.mod_small. lia.
Qed.

Lemma rd_range_of {A} (l : list A) i a : rd l i = Some a -> 0 <= i < Z.of_nat (length l).
Proof. unfold rd. destruct (Z.leb_spec 0 i); [|done]. intros E%lookup_lt_Some. lia. Qed.

Lemma analysis_holds FS num (HFS : 64 < FS < 2 ^ 31) (Hnum : 2 <= num < 2 ^ 31) fs f :
  let X := Z.of_nat (length f) in
  X < 2 ^ 31 * FS -> Z.of_nat (length fs) = num ->
  (forall q, last_file FS X - num < q <= last_file FS X ->
     exists lf, rd fs (q mod num) = Some lf /\ file_holds FS num f q lf) ->
  exists fm', _analysis FS num (mkFileMgr fs 0 0 0 false) = Some fm' /\ mgr_at num fm' (last_file FS X) /\ _files fm' = fs.
Proof.
  intros X HX Hl Hall. destruct (Z.eq_dec X 0) as [E0|].
  - exists (mkFileMgr fs 0 0 0 false). rewrite analysis_empty; try done; try lia.
    + split; [done|]. split; [|done]. rewrite E0. change (last_file FS 0) with 0. constructor; cbn; try done.
      unfold first_file. by rewrite Z.max_l by lia.
    + intros i lf Hi. pose proof (rd_range_of _ _ _ Hi). destruct (slot_file num (last_file FS X) i) as (q & Hq & <-); [lia|lia|].
      destruct (Hall q Hq) as (lf' & E & [_ Hh]). rewrite Hi in E. injection E as <-. cbv zeta in Hh. fold X in Hh.
      rewrite E0 in Hh. assert ((0 <=? q) && (q * FS <? 0) = false) as Ef.
      { destruct (Z.leb_spec 0 q), (Z.ltb_spec (q * FS) 0); (done || nia). }
      rewrite Ef in Hh. by destruct Hh as (? & _ & ?).
  - assert (Ho : ordered FS num X fs).
    { split; [done|]. intros q Hq. destruct (Hall q Hq) as (lf & E & [_ Hh]). exists lf. split; [done|]. cbv zeta in Hh.
      fold X in Hh. destruct ((0 <=? q) && (q * FS <? X)); [by destruct Hh as (? & ? & _)|by destruct Hh as (? & _ & ?)]. }
    eexists. split; [apply (analysis_ok FS num HFS Hnum X fs); [lia|done]|]. split; [|done]. by constructor.
Qed.

(** ** Reopening *)

Lemma read_head_32 hb : Z.of_nat (length hb) = 32 -> exists h, read_head hb = Some h.
Proof.
  intros Hl. unfold read_head.
  assert (Hr : forall i n, 0 <= i -> 0 <= n -> i + n <= 32 -> exists bs, rd_range hb i n = Some bs)
    by (intros; eexists; apply rd_range_Some; split_and!; (done || lia)).
  destruct (Hr 0 8) as [? ->]; [lia|lia|lia|]. destruct (Hr 8 8) as [? ->]; [lia|lia|lia|].
  destruct (Hr 16 4) as [? ->]; [lia|lia|lia|]. destruct (Hr 20 4) as [? ->]; [lia|lia|lia|].
  destruct (Hr 24 2) as [? ->]; [lia|lia|lia|]. destruct (Hr 26 2) as [? ->]; [lia|lia|lia|].
  destruct (Hr 28 4) as [? ->]; [lia|lia|lia|]. cbn [mbind option_bind]. eauto.
Qed.

(** Zeros are the header of no record but the first. *)
Lemma read_head_zero hb h :
  (forall i, 0 <= i < 8 -> rd hb i = Some 0) -> read_head hb = Some h -> _lsn h = 0.
Proof.
  intros Hz. unfold read_head. destruct (rd_range hb 0 8) as [bs|] eqn:E; [|done]. cbn [mbind option_bind].
  apply rd_range_Some in E as (_ & _ & Hl & ->). rewrite drop_0.
  assert (Et : take (Z.to_nat 8) hb = replicate 8 0).
  { apply list_eq. intros i. destruct (decide (i < 8)%nat).
    - rewrite lookup_take_lt, lookup_replicate_2 by lia. specialize (Hz (Z.of_nat i) ltac:(lia)). unfold rd in Hz.
      destruct (Z.leb_spec 0 (Z.of_nat i)); [|lia]. by rewrite Nat2Z.id in Hz.
    - rewrite lookup_take_ge, lookup_ge_None_2; [done|rewrite length_replicate; lia|lia]. }
  rewrite Et. intros Hh. destruct (rd_range hb 8 8), (rd_range hb 16 4), (rd_range hb 20 4), (rd_range hb 24 2), (rd_range hb 26 2),
    (rd_range hb 28 4); try done. cbn in Hh. by injection Hh as <-.
Qed.

(** No record of an older round seems to go on where the log ends: this is
    all that the scan relies on when there is no room for a header of zeros
    behind the log in its last page. *)
Definition no_ghost `{PosixFile} (PS FS num : Z) (fm : dpsLogFileMgr) (X : Z) : Prop :=
  X mod PS = 0 \/ PS - sizeof_head < X mod PS ->
  forall f hb h, LOG_FILE num fm (last_file FS X) = Some f -> logFile_read FS f X sizeof_head = Some (SDB_OK, hb) ->
    read_head hb = Some h -> _lsn h <> X.

Section reopen.
Context {IO : PosixFile} {IOok : PosixFileSpec} (PS N FS num : Z) (startupOK : bool).
Context (HPS : 0 < PS) (HN : 2 <= N) (HT : N * PS < 2 ^ 31) (HFS : 64 < FS < 2 ^ 31) (HF4 : (4 | FS)).
Context (HPF : (PS | FS)) (Hnum : 2 <= num < 2 ^ 31).
Context (w : world) (gm fm : dpsLogFileMgr) (g : list Z) (cu : Z).
Abbreviation X := (pos (w_mgr w)).
Context (Hc : chain PS N FS (w_log w) X cu) (Hg : files_rep PS FS num gm g) (Hsame : same_files gm fm).
Context (Hcp : complete PS FS w g) (Hghost : no_ghost PS FS num fm X).
Context (Hread : Forall readable (w_log w)) (Hmax : Forall (fun b => size b <= DPS_RECORD_MAX_LEN) (w_log w)).

Lemma no_log_no_pages : X = 0 -> Z.of_nat (length g) = 0.
Proof.
  intros E. pose proof (cp_page _ _ _ _ Hcp) as Hp. rewrite E in Hp. destruct (fr_pages _ _ _ _ _ Hg) as [k Hk].
  assert (k < 1) by nia. nia.
Qed.

(** The header behind the log. *)
Lemma behind_log f q :
  X < (q + 1) * FS -> q = last_file FS X -> 0 < X -> rd (_files gm) (q mod num) = Some f -> file_holds FS num g q f ->
  exists hb h, logFile_read FS f X sizeof_head = Some (SDB_OK, hb) /\ read_head hb = Some h /\ _lsn h <> X.
Proof.
  intros Hlt -> HX Hf Hh. set (q := last_file FS X) in *. pose proof (last_file_bounds FS ltac:(lia) X HX) as Hb. fold q in Hb.
  pose proof (last_file_nonneg FS ltac:(lia) X ltac:(lia)) as H0. fold q in H0.
  destruct (chain_end _ _ _ _ _ _ Hc) as [(_ & _ & Hroom & _)|?]; [|pose proof (cp_len _ _ _ _ Hcp); lia].
  assert (Em : X mod FS = X - q * FS) by (symmetry; apply (Z.mod_unique_pos _ _ q); lia).
  assert (Hr : exists hb, logFile_read FS f X sizeof_head = Some (SDB_OK, hb) /\ Z.of_nat (length hb) = 32).
  { pose proof Hh as [[Hd _] Hh']. destruct (cp_len _ _ _ _ Hcp). cbv zeta in Hh'.
    destruct (Z.leb_spec 0 q); [|lia]. destruct (Z.ltb_spec (q * FS) (Z.of_nat (length g))); [|lia].
    destruct Hh' as (_ & _ & I3 & _). unfold logFile_read. rewrite I3, u64_small by nia.
    destruct (Z.ltb_spec X (q * FS)); [lia|]. destruct (Z.ltb_spec (q * FS + FS) X); [lia|]. cbn [orb].
    unfold sizeof_head in *. rewrite read_loop_ok by (rewrite ?Em in *; lia). eexists. split; [done|].
    rewrite length_take, length_drop. lia. }
  destruct Hr as (hb & Er & Hl). destruct (read_head_32 hb Hl) as (h & Eh). exists hb, h. split; [done|]. split; [done|].
  destruct (Z_le_dec (X + 32) (Z.of_nat (length g))) as [Hz|Hnz].
  - assert (Hrd : exists bs, logFile_read FS f X 32 = Some (SDB_OK, bs) /\ Z.of_nat (length bs) = 32 /\
      forall i, 0 <= i < 32 -> rd bs i = rd g (X + i)).
    { pose proof (cp_len _ _ _ _ Hcp). unfold sizeof_head in *. assert (q < 2 ^ 31) by nia.
      eapply file_read; try done; lia. }
    destruct Hrd as (hb' & Er' & _ & Hhb).
    unfold sizeof_head in Er. rewrite Er in Er'. injection Er' as <-. rewrite (read_head_zero hb h); [lia| |done].
    intros i Hi. rewrite Hhb by lia. apply (cp_zero _ _ _ _ Hcp). lia.
  - destruct Hsame as [_ Hs]. specialize (Hs (q mod num)). rewrite Hf in Hs.
    destruct (rd (_files fm) (q mod num)) as [f'|] eqn:Ef; [|done]. destruct Hs as (E1 & E2 & _).
    apply (Hghost) with (f := f') (hb := hb); [|done| |done].
    + destruct (fr_pages _ _ _ _ _ Hg) as [k Hk]. pose proof (cp_page _ _ _ _ Hcp). destruct (cp_len _ _ _ _ Hcp) as [Hl1 _].
      unfold sizeof_head. pose proof (Z.div_mod X PS ltac:(lia)). pose proof (Z.mod_pos_bound X PS HPS).
      destruct (Z.eq_dec (X mod PS) 0); [by left|right]. assert (k = X / PS + 1) by nia. nia.
    + unfold logFile_read in *. by rewrite <- E1, <- E2.
Qed.

Lemma last_log : last_file FS (Z.of_nat (length g)) = last_file FS X.
Proof. apply (cp_last _ _ _ _ Hcp). Qed.

(** Every file opens. *)
Lemma open_at q : last_file FS X - num < q <= last_file FS X ->
  exists lf f lf', rd (_files gm) (q mod num) = Some lf /\ file_holds FS num g q lf /\
    rd (_files fm) (q mod num) = Some f /\ logFile_open FS num startupOK f = Some (SDB_OK, lf') /\ opened FS X q lf lf'.
Proof.
  intros Hq. destruct (fr_file _ _ _ _ _ Hg q) as (lf & Elf & Hh); [by rewrite last_log|].
  destruct Hsame as [_ Hs]. specialize (Hs (q mod num)). rewrite Elf in Hs.
  destruct (rd (_files fm) (q mod num)) as [f|] eqn:Ef; [|done]. destruct Hs as (E1 & E2 & E3).
  assert (Eo : logFile_open FS num startupOK f = logFile_open FS num startupOK lf)
    by (unfold logFile_open; by rewrite E1, E3).
  assert (exists lf', logFile_open FS num startupOK lf = Some (SDB_OK, lf') /\ opened FS X q lf lf') as (lf' & El & Ho).
  { pose proof (cp_len _ _ _ _ Hcp) as Hlen. pose proof (chain_nonneg _ _ _ _ _ _ Hc) as HX.
    destruct (Z_lt_le_dec q 0); [by eapply open_unused; [done|by left|lia]|].
    destruct (Z_lt_le_dec (q * FS) X) as [HqX|HqX].
    - eapply open_written; try done; [apply Hcp|]. intros Hlt. apply (behind_log lf q); try done; [|lia].
      pose proof (last_file_bounds FS ltac:(lia) X ltac:(lia)). nia.
    - destruct (Z.eq_dec X 0) as [E0|].
      + eapply open_unused; [done| |lia]. right. rewrite (no_log_no_pages E0). lia.
      + pose proof (last_file_bounds FS ltac:(lia) X ltac:(lia)). nia. }
  exists lf, f, lf'. split_and!; try done. by rewrite Eo.
Qed.

Lemma opened_holds q lf lf' : file_holds FS num g q lf -> opened FS X q lf lf' ->
  q <= last_file FS X -> file_holds FS num (take (Z.to_nat X) g) q lf'.
Proof.
  intros [[Hd Hf] Hh] [O1 O2 O3] Hq. pose proof (cp_len _ _ _ _ Hcp) as Hlen. pose proof (chain_nonneg _ _ _ _ _ _ Hc) as HX.
  pose proof Hf as (F1 & F2 & F3 & F4 & F5). cbv zeta in Hh.
  assert (En : Z.of_nat (length (take (Z.to_nat X) g)) = X) by (rewrite length_take; lia).
  unfold file_holds. rewrite En, O1. destruct (Z.leb_spec 0 q) as [H0|H0]; cbn [andb] in *.
  - destruct (Z.ltb_spec (q * FS) X) as [HqX|HqX].
    + destruct (Z.ltb_spec (q * FS) (Z.of_nat (length g))); [|lia]. destruct Hh as (_ & I2 & I3 & I4 & I5).
      destruct O3 as [O3 O4]. unfold file_end in O4. unfold head_fits. rewrite O2, O3, F1.
      split_and!; try done. intros x Hx. rewrite (I5 x) by lia. unfold rd. destruct (Z.leb_spec 0 x); [|lia].
      rewrite lookup_take_lt by lia. done.
    + assert (X = 0) by (pose proof (last_file_bounds FS ltac:(lia) X); nia).
      rewrite (no_log_no_pages H) in Hh. destruct (Z.ltb_spec (q * FS) 0); [lia|]. destruct Hh as (_ & I2 & I3).
      destruct O3 as [O3 O4]. unfold head_fits. rewrite O2, O3, F1. unfold with_first. rewrite <- I2, <- I3.
      destruct (_logHeader lf). cbn in *. by split_and!.
  - destruct Hh as (_ & I2 & I3). destruct O3 as [O3 O4]. unfold head_fits. rewrite O2, O3, F1. unfold with_first.
    rewrite <- I2, <- I3. destruct (_logHeader lf). cbn in *. by split_and!.
Qed.

Lemma reopen_ok :
  exists fm', fileMgr_open FS num startupOK (_files fm) = Some (SDB_OK, fm') /\
    mgr_at num fm' (last_file FS X) /\ files_hold FS num fm' (take (Z.to_nat X) g).
Proof.
  pose proof (cp_len _ _ _ _ Hcp) as Hlen. pose proof (chain_nonneg _ _ _ _ _ _ Hc) as HX. set (J := last_file FS X).
  assert (Hl : Z.of_nat (length (_files fm)) = num)
    by (destruct Hsame as [<- _]; apply (fr_mgr _ _ _ _ _ Hg)).
  destruct (open_files_ok FS num startupOK (_files fm)) as (fs' & Eo & Hl' & Hall).
  { intros i f Hi. pose proof (rd_range_of _ _ _ Hi). destruct (slot_file num J i) as (q & Hq & <-); [lia|lia|]. destruct (open_at q Hq) as (lf & f' & lf' & _ & _ & E & Ef & _).
    rewrite Hi in E. injection E as <-. eauto. }
  assert (Hholds : forall q, J - num < q <= J -> exists lf', rd fs' (q mod num) = Some lf' /\
    file_holds FS num (take (Z.to_nat X) g) q lf').
  { intros q Hq. destruct (open_at q Hq) as (lf & f & lf' & _ & Hh & Ef & E & Hop).
    destruct (Hall _ _ Ef) as (lf2 & E2 & Erd). rewrite E in E2. injection E2 as <-. exists lf'. split; [done|].
    eapply opened_holds; (done || lia). }
  assert (En : Z.of_nat (length (take (Z.to_nat X) g)) = X) by (rewrite length_take; lia).
  unfold fileMgr_open. rewrite Eo. cbn [mbind option_bind]. rewrite Z.eqb_refl. cbn [negb].
  destruct (analysis_holds FS num HFS Hnum fs' (take (Z.to_nat X) g)) as (fm' & -> & HM & Ef); rewrite ?En; try done; [lia|lia|].
  rewrite En in HM. exists fm'. split; [done|]. split; [done|]. unfold files_hold. by rewrite En, Ef.
Qed.
End reopen.
