(* ===== verification/DpsRestoreThms.v ===== *)
(** * Starting from the log files: theorems *)

From stdpp Require Import base list option.
From Stdlib Require Import ZArith Lia.
From S2P Require Import Prelude DpsLsn Mem DpsRecord DpsRecordFacts DpsBuffer DpsRing DpsAlloc DpsRun DpsPlace.
From S2P Require Import DpsRunInv DpsRunThms DpsBufThms DpsLogFile DpsLogFileFacts DpsFilesRun DpsFilesThms.
From S2P Require Import DpsRestore DpsReopen.

Open Scope Z_scope.

(** ** Records that load *)

Lemma padding_readable b : padding b -> 32 <= size b <= DPS_RECORD_MAX_LEN -> head_ok (block_head b) -> readable b.
Proof.
  intros [Ht Hr] Hs Hh bs mem Ebs [pad ->] Hl. unfold block_bytes, merge_chunks in Ebs. rewrite Hr in Ebs.
  unfold block_head in *. rewrite Ht, Z.eqb_refl in Ebs. cbn [mbind option_bind concat] in Ebs.
  rewrite app_nil_r in Ebs. assert (bs = head_bytes (_head (_record b))) as -> by congruence. unfold load. rewrite read_head_bytes by done. cbn [mbind option_bind]. unfold sizeof_head.
  destruct (Z.ltb_spec (_length (_head (_record b))) 32); [lia|].
  destruct (Z.ltb_spec DPS_RECORD_MAX_LEN (_length (_head (_record b)))); [lia|]. cbn [orb]. rewrite Ht, Z.eqb_refl. eauto.
Qed.

Lemma writable_readable b es : _isRow b = false -> writable (_record b) es -> readable b.
Proof.
  intros Hr Hw bs mem Ebs [pad ->] Hl. unfold block_bytes in Ebs. rewrite Hr in Ebs.
  destruct (merge_chunks false (_record b)) as [cs|] eqn:Ecs; [|done]. injection Ebs as <-.
  destruct (load_stored (_record b) es (concat cs ++ pad)) as (r & es' & E & _); [done| |by exists r].
  exists cs, pad, []. rewrite app_nil_r. split; [done|]. split; [done|]. rewrite length_app in Hl. unfold block_head in Hl. lia.
Qed.

(** What loads is not longer than the limit. *)
Lemma readable_max b : bytes_fit b -> readable b -> size b <= DPS_RECORD_MAX_LEN.
Proof.
  intros (bs & Ebs & [rest Er] & Hl & Hh) Hr.
  destruct (Hr bs (bs ++ replicate (Z.to_nat (size b - Z.of_nat (length bs))) 0) Ebs) as (r & E).
  - by apply prefix_app_r.
  - rewrite length_app, length_replicate. lia.
  - unfold load in E. rewrite Er, <- app_assoc, read_head_bytes in E by done. cbn [mbind option_bind] in E.
    destruct (Z.ltb_spec DPS_RECORD_MAX_LEN (_length (block_head b))); [|done]. by rewrite orb_true_r in E.
Qed.

(** ** Reopening *)

(** C20: Opening the log files after a regular shutdown finds the log again,
    provided that every record of the log can be loaded, which excludes
    those longer than [DPS_RECORD_MAX_LEN]: the scan of every file passes
    exactly its records, the working file, its number and the oldest file
    are those the log had, the end of the working file is the end of the
    last record, and every record of the last files can still be loaded. The
    scan relies on the bytes behind the log only when its last page has no
    room for a header of zeros. *)
Theorem restart_finds_the_end {IO : PosixFile} {IOok : PosixFileSpec} PS N FS num startupOK (acts : list action)
    (s : fworld) (m' : dpsReplicaLogMgr) (fm' : dpsLogFileMgr) :
  file_setting PS N FS num acts -> runf PS FS num (initf PS FS num N) acts = Some s ->
  w_open (fw_world s) = [] -> w_pending (fw_world s) = None ->
  tearDown PS FS num (w_mgr (fw_world s)) (fw_files s) = Some (SDB_OK, m', fm') ->
  Forall readable (w_log (fw_world s)) -> no_ghost PS FS num fm' (pos (w_mgr (fw_world s))) ->
  let J := last_file FS (pos (w_mgr (fw_world s))) in
  exists fm f, fileMgr_open FS num startupOK (_files fm') = Some (SDB_OK, fm) /\ mgr_at num fm J /\
    rd (_files fm) (fm_work fm) = Some f /\ J * FS + logFile_length FS f = pos (w_mgr (fw_world s)) /\
    forall b onlyHeader, b ∈ w_log (fw_world s) -> J - num < off b / FS ->
      loaded (fileMgr_load FS num fm (off b) onlyHeader) b onlyHeader.
Proof.
  intros HS E Hop Hpd Et Hread Hgh J.
  destruct (reach_files PS N FS num acts HS) as (w & F & s' & _ & Es & H & [Ew Hrep] & Hk & HL).
  rewrite E in Es. injection Es as <-. pose proof HS as [[H1 H2 H3 H4 H5 H6 H7] H8 H9].
  destruct s as [w' fm0]. cbn [fw_world fw_files] in *. subst w'. subst J.
  change (w_log (with_file w [])) with (w_log w) in *. change (w_mgr (with_file w [])) with (w_mgr w) in *.
  assert (Ho : open_blocks w = []).
  { unfold open_blocks. change (w_open w) with (w_open (with_file w [])). rewrite Hop.
    change (w_pending w) with (w_pending (with_file w [])). by rewrite Hpd. }
  edestruct (tearDown_ok PS N FS num) as (m2 & fm2 & gm & g & Et2 & Hg & Hsame & Hcp); try exact H; try done.
  rewrite Et in Et2. injection Et2 as <- <-. pose proof (s_chain _ _ _ _ _ _ _ (iv_state _ _ _ _ _ _ H)) as Hc.
  assert (Hmax : Forall (fun b => size b <= DPS_RECORD_MAX_LEN) (w_log w)).
  { apply list.Forall_forall. intros b Hb. rewrite list.Forall_forall in Hread.
    destruct (inv_chain_in _ _ _ _ _ _ _ H Hb) as (y & cu & Hl & _). apply readable_max; [apply Hl|by apply Hread]. }
  edestruct (reopen_ok PS N FS num startupOK) as (fm & Eo & HM & Hh); try done.
  pose proof (cp_len _ _ _ _ Hcp) as Hlen. set (X := pos (w_mgr w)) in *.
  pose proof (chain_nonneg _ _ _ _ _ _ Hc) as HX. fold X in HX.
  assert (En : Z.of_nat (length (take (Z.to_nat X) g)) = X) by (rewrite length_take; lia).
  destruct (Hh (last_file FS X)) as (f & Ef & Hf); [rewrite En; lia|].
  exists fm, f. split; [done|]. split; [done|]. split; [by rewrite (ma_work _ _ _ HM)|].
  split; [rewrite <- En; eapply file_holds_length; rewrite ?En; (done || lia)|].
  intros b oh Hb Hnew. destruct (inv_chain_in _ _ _ _ _ _ _ H Hb) as (y & cu & Hlk & Hy).
  rewrite <- (lk_off _ _ _ _ _ _ Hlk) in Hy. fold X in Hy.
  eapply block_loaded; try apply Hh; try done; rewrite ?En; try lia.
  pose proof (cp_bytes _ _ _ _ Hcp) as C3. fold X in C3. rewrite list.Forall_forall in C3.
  intros bs i Ebs Hi Hlt. rewrite <- (C3 b Hb bs i Ebs Hi) by lia. unfold rd.
  destruct (Z.leb_spec 0 (off b + i)); [|done]. rewrite lookup_take_lt by lia. done.
Qed.

(** The records of the sample. *)
Lemma sample_writable b :
  same_record (mkBlock (sample 59) meta_none false) b -> head_ok (block_head b) -> readable b.
Proof.
  intros [S1 S2 S3 S4] Hh. cbn [_isRow _record] in *.
  assert (E : _record b = with_head (sample 59) (block_head b)) by (rewrite <- S2; by destruct b as [[]]).
  apply (writable_readable b [mkElem 1 59 (replicate 59 7)]); [done|]. rewrite E.
  assert (Hs : 96 <= size b <= 128) by exact S4. constructor; cbn [_head with_head]; try done.
  - apply rep_with_head. constructor; [cbn; lia|done|done|done|by repeat constructor].
  - constructor; [apply (sample_elem 59); lia|done].
  - by rewrite S3.
  - assert (Hb : Z.of_nat (length (body [mkElem 1 59 (replicate 59 7)])) = 64) by (vm_compute; reflexivity).
    assert (128 <= DPS_RECORD_MAX_LEN) by done. rewrite Hb. lia.
  - right. cbn. lia.
  - left. cbn. lia.
Qed.

Lemma rounds_prepare n i : Prepare i ∈ concat (replicate n round) -> i = sample_info 59.
Proof.
  induction n as [|n IH]; cbn [replicate concat]; intros Hi; [by apply elem_of_nil in Hi|].
  apply elem_of_app in Hi as [Hi|Hi]; [|by apply IH]. unfold round in Hi.
  repeat (apply list.elem_of_cons in Hi as [Hi|Hi]; [congruence|]). by apply elem_of_nil in Hi.
Qed.

Lemma sample_readable w : run 64 512 (init 64 4) acts_files = Some w -> Forall readable (w_log w).
Proof.
  intros E. destruct (files_sample 3 ltac:(lia)) as [[H1 H2 H3 H4 H5 H6 H7] _ _].
  destruct (reach 64 4 512 H1 H2 H3 H4 H5 acts_files H6 H7) as (w' & F & E' & H & [Ho _] & _).
  rewrite E in E'. injection E' as <-. clear E. apply list.Forall_forall. intros b Hb.
  destruct (inv_chain_in _ _ _ _ _ _ _ H Hb) as (y & cu & Hl & _). destruct (lk_bytes _ _ _ _ _ _ Hl) as (_ & _ & _ & _ & Hh).
  pose proof (lk_size _ _ _ _ _ _ Hl). rewrite list.Forall_forall in Ho. destruct (Ho b Hb) as [Hp|(i & Hi & Hs)].
  - apply padding_readable; [done|unfold DPS_RECORD_MAX_LEN, DMS_RECORD_USER_MAX_SZ, sizeof_head; lia|done].
  - apply sample_writable; [|done]. by rewrite (rounds_prepare _ _ Hi) in Hs.
Qed.

Lemma restart_finds_the_end_witness :
  exists s m' fm' fm f, runf 64 512 3 (initf 64 512 3 4) acts_files = Some s /\
    tearDown 64 512 3 (w_mgr (fw_world s)) (fw_files s) = Some (SDB_OK, m', fm') /\
    fileMgr_open 512 3 true (_files fm') = Some (SDB_OK, fm) /\ rd (_files fm) (fm_work fm) = Some f /\
    _logicalWork fm = 3 /\ 3 * 512 + logFile_length 512 f = 1824.
Proof.
  destruct (reach_files 64 4 512 3 acts_files (files_sample 3 ltac:(lia))) as (w & F & s & E & Es & _ & [Ew _] & _).
  destruct (sample_log s Es) as (Ep & _ & Eo & Epd & _).
  assert (Hread : Forall readable (w_log (fw_world s))) by (rewrite Ew; exact (sample_readable w E)).
  assert (Ht : match runf 64 512 3 (initf 64 512 3 4) acts_files with
               | Some s => match tearDown 64 512 3 (w_mgr (fw_world s)) (fw_files s) with
                           | Some (rc, _, _) => rc =? SDB_OK
                           | None => false
                           end
               | None => false
               end = true) by (vm_compute; reflexivity).
  rewrite Es in Ht. destruct (tearDown 64 512 3 _ _) as [[[rc m'] fm']|] eqn:Et; [|discriminate].
  apply Z.eqb_eq in Ht. subst rc.
  destruct (restart_finds_the_end 64 4 512 3 true acts_files s m' fm' (files_sample 3 ltac:(lia)) Es Eo Epd Et Hread)
    as (fm & f & Eop & HM & Ef & Hlen & _).
  - rewrite Ep. intros [D|D]; vm_compute in D; discriminate.
  - exists s, m', fm', fm, f. rewrite Ep in *. split; [exact Es|]. split; [exact Et|]. split; [exact Eop|]. split; [exact Ef|].
    split; [exact (ma_logical _ _ _ HM)|exact Hlen].
Defined.
