(* ===== verification/DpsTrans.v ===== *)
(** * The transaction control block

    Models [dps/dpsTransCB.cpp]: transaction ids, the table of unfinished
    transactions that a node keeps from the log it receives or reads, the
    first LSN of each transaction, and the log space that transactions may
    take.  Every operation holds the latch of the maps it changes, so
    operations are atomic steps here.  A record is read through its
    iterators; [Crash] is a read outside of it. *)

From stdpp Require Import base gmap list sorting option.
From Stdlib Require Import ZArith Lia.
From S2P Require Import Prelude DpsLsn Mem DpsRecord DpsOp2Record DpsBuffer DpsLogFile.

Open Scope Z_scope.

Definition SDB_DPS_LOG_FILE_OUT_OF_SIZE : Z := -203.

(** ** Transaction ids *)

Definition DPS_TRANSID_ROLLBACKTAG_BIT : Z := 0x0000800000000000.
Definition DPS_TRANSID_FIRSTOP_BIT : Z := 0x0000400000000000.
Definition DPS_TRANSID_SN_BIT : Z := 0x000000FFFFFFFFFF.
Definition DPS_TRANSID_VALID_BIT : Z := 0xFFFF00FFFFFFFFFF.

Definition getRollbackID (transID : Z) : Z := Z.lor transID DPS_TRANSID_ROLLBACKTAG_BIT.
Definition getTransID (rollbackID : Z) : Z := Z.land rollbackID DPS_TRANSID_VALID_BIT.
Definition isRollback (transID : Z) : bool := negb (Z.land transID DPS_TRANSID_ROLLBACKTAG_BIT =? 0).
Definition isFirstOp (transID : Z) : bool := negb (Z.land transID DPS_TRANSID_FIRSTOP_BIT =? 0).
Definition clearFirstOpTag (transID : Z) : Z := Z.land transID (u64 (Z.lnot DPS_TRANSID_FIRSTOP_BIT)).

(** ** [std::map] *)

Section maps.
Context {A : Type}.
Implicit Types m : gmap Z A.

(** The key of [begin()]. *)
Definition first_key m : option Z :=
  foldr (fun k o => match o with Some k' => Some (Z.min k k') | None => Some k end) None (map_to_list m).*1.

(** The entries from [begin()] to [end()]. *)
Definition key_le (p q : Z * A) : Prop := p.1 <= q.1.
#[global] Instance key_le_dec : RelDecision key_le := fun p q => Z_le_dec p.1 q.1.

Definition in_order m : list (Z * A) := merge_sort key_le (map_to_list m).
End maps.

(** ** State *)

(** Sessions are known by the number of their EDU. *)
Record dpsTransCB : Type := mkTransCB {
  _TransIDH16 : Z;
  _TransIDL48Cur : Z;
  _TransMap : gmap Z Z;
  _cbMap : gmap Z Z;
  _isOn : bool;
  _doRollback : bool;
  _rollbackEvent : bool;
  _beginLsnIdMap : gmap Z Z;
  _idBeginLsnMap : gmap Z Z;
  _isNeedSyncTrans : bool;
  _maxUsedSize : Z;
  _logFileTotalSize : Z;
  _accquiredSpace : Z
}.

Definition transCB_new : dpsTransCB := mkTransCB 0 1 ∅ ∅ false false false ∅ ∅ true 0 0 0.

Definition with_ids (cb : dpsTransCB) (high cur : Z) : dpsTransCB :=
  mkTransCB high cur (_TransMap cb) (_cbMap cb) (_isOn cb) (_doRollback cb) (_rollbackEvent cb) (_beginLsnIdMap cb)
            (_idBeginLsnMap cb) (_isNeedSyncTrans cb) (_maxUsedSize cb) (_logFileTotalSize cb) (_accquiredSpace cb).
Definition with_TransMap (cb : dpsTransCB) (m : gmap Z Z) : dpsTransCB :=
  mkTransCB (_TransIDH16 cb) (_TransIDL48Cur cb) m (_cbMap cb) (_isOn cb) (_doRollback cb) (_rollbackEvent cb)
            (_beginLsnIdMap cb) (_idBeginLsnMap cb) (_isNeedSyncTrans cb) (_maxUsedSize cb) (_logFileTotalSize cb)
            (_accquiredSpace cb).
Definition with_cbMap (cb : dpsTransCB) (m : gmap Z Z) : dpsTransCB :=
  mkTransCB (_TransIDH16 cb) (_TransIDL48Cur cb) (_TransMap cb) m (_isOn cb) (_doRollback cb) (_rollbackEvent cb)
            (_beginLsnIdMap cb) (_idBeginLsnMap cb) (_isNeedSyncTrans cb) (_maxUsedSize cb) (_logFileTotalSize cb)
            (_accquiredSpace cb).
Definition with_rollback (cb : dpsTransCB) (doing event need : bool) : dpsTransCB :=
  mkTransCB (_TransIDH16 cb) (_TransIDL48Cur cb) (_TransMap cb) (_cbMap cb) (_isOn cb) doing event
            (_beginLsnIdMap cb) (_idBeginLsnMap cb) need (_maxUsedSize cb) (_logFileTotalSize cb) (_accquiredSpace cb).
Definition with_begins (cb : dpsTransCB) (lsnId idLsn : gmap Z Z) : dpsTransCB :=
  mkTransCB (_TransIDH16 cb) (_TransIDL48Cur cb) (_TransMap cb) (_cbMap cb) (_isOn cb) (_doRollback cb)
            (_rollbackEvent cb) lsnId idLsn (_isNeedSyncTrans cb) (_maxUsedSize cb) (_logFileTotalSize cb)
            (_accquiredSpace cb).
Definition with_space (cb : dpsTransCB) (n : Z) : dpsTransCB :=
  mkTransCB (_TransIDH16 cb) (_TransIDL48Cur cb) (_TransMap cb) (_cbMap cb) (_isOn cb) (_doRollback cb)
            (_rollbackEvent cb) (_beginLsnIdMap cb) (_idBeginLsnMap cb) (_isNeedSyncTrans cb) (_maxUsedSize cb)
            (_logFileTotalSize cb) n.

(** ** New ids *)

(** One round takes the counter as it was before the increment. *)
Fixpoint alloc_loop (fuel : nat) (cb : dpsTransCB) (temp : Z) : option (Z * dpsTransCB) :=
  if 0 =? temp then
    match fuel with
    | O => None
    | S fuel' =>
        let cur := _TransIDL48Cur cb in
        alloc_loop fuel' (with_ids cb (_TransIDH16 cb) (u64 (cur + 1)))
          (Z.lor (Z.lor (Z.land cur DPS_TRANSID_SN_BIT) (_TransIDH16 cb)) DPS_TRANSID_FIRSTOP_BIT)
    end
  else Some (temp, cb).

Definition allocTransID (cb : dpsTransCB) : option (Z * dpsTransCB) := alloc_loop 1 cb 0.

Definition onRegistered (cb : dpsTransCB) (nodeID : Z) : dpsTransCB :=
  with_ids cb (Z.shiftl nodeID 48) (_TransIDL48Cur cb).

(** ** The rollback task

    [task] is what posting to the rollback EDU returns, [None] when there is
    no such EDU. *)

Definition stopRollbackTask (cb : dpsTransCB) : dpsTransCB := with_rollback cb false true (_isNeedSyncTrans cb).

Definition startRollbackTask (task : option Z) (cb : dpsTransCB) : Z * dpsTransCB :=
  let cb := with_rollback cb true false false in
  let rc := default SDB_SYS task in
  if negb (rc =? SDB_OK) then (rc, with_rollback cb false true false) else (rc, cb).

(** [termAllTrans]: the sessions that get [PMD_EDU_EVENT_TRANS_STOP]. *)
Definition termAllTrans (cb : dpsTransCB) : list Z * dpsTransCB :=
  ((in_order (_cbMap cb)).*2, with_cbMap cb ∅).

Inductive SDB_EVENT_OCCUR_TYPE : Set := SDB_EVT_OCCUR_BEFORE | SDB_EVT_OCCUR_AFTER.

Definition onPrimaryChange (task : option Z) (primary : bool) (occurType : SDB_EVENT_OCCUR_TYPE) (cb : dpsTransCB)
    : list Z * dpsTransCB :=
  if primary then
    match occurType with
    | SDB_EVT_OCCUR_BEFORE => ([], with_rollback cb true false (_isNeedSyncTrans cb))
    | SDB_EVT_OCCUR_AFTER => ([], (startRollbackTask task cb).2)
    end
  else
    match occurType with
    | SDB_EVT_OCCUR_BEFORE => ([], cb)
    | SDB_EVT_OCCUR_AFTER => termAllTrans (stopRollbackTask cb)
    end.

(** ** The table of transactions *)

(** [isInRestore()], [isCBValue( SDB_CB_CLS )] and [pmdIsPrimary()] *)
Record nodeState : Set := mkNode { n_inRestore : bool; n_cls : bool; n_primary : bool }.

Definition updateTransInfo (node : nodeState) (cb : dpsTransCB) (transID lsnOffset : Z) : dpsTransCB :=
  if (DPS_INVALID_TRANS_ID =? transID) || n_inRestore node then cb
  else if n_cls node && n_primary node then cb
  else
    let transID := getTransID transID in
    with_TransMap cb (if DPS_INVALID_LSN_OFFSET =? lsnOffset then delete transID (_TransMap cb)
                      else <[transID := lsnOffset]> (_TransMap cb)).

Definition addTransInfo (cb : dpsTransCB) (transID lsnOffset : Z) : dpsTransCB :=
  let transID := getTransID transID in
  match _TransMap cb !! transID with
  | None => with_TransMap cb (<[transID := lsnOffset]> (_TransMap cb))
  | Some _ => cb
  end.

Definition addTransCB (cb : dpsTransCB) (transID edu : Z) : dpsTransCB :=
  with_cbMap cb (<[getTransID transID := edu]> (_cbMap cb)).

Definition delTransCB (cb : dpsTransCB) (transID : Z) : dpsTransCB :=
  with_cbMap cb (delete (getTransID transID) (_cbMap cb)).

Definition dumpTransEDUList (cb : dpsTransCB) : list Z := (in_order (_cbMap cb)).*2.

Definition getTransCBSize (cb : dpsTransCB) : Z := Z.of_nat (size (_cbMap cb)).

Definition clearTransInfo (cb : dpsTransCB) : dpsTransCB :=
  with_begins (with_cbMap (with_TransMap cb ∅) ∅) ∅ ∅.

(** ** The first LSNs *)

Definition addBeginLsn (cb : dpsTransCB) (beginLsn transID : Z) : dpsTransCB :=
  let transID := getTransID transID in
  with_begins cb (<[beginLsn := transID]> (_beginLsnIdMap cb)) (<[transID := beginLsn]> (_idBeginLsnMap cb)).

Definition delBeginLsn (cb : dpsTransCB) (transID : Z) : dpsTransCB :=
  let transID := getTransID transID in
  match _idBeginLsnMap cb !! transID with
  | Some beginLsn => with_begins cb (delete beginLsn (_beginLsnIdMap cb)) (delete transID (_idBeginLsnMap cb))
  | None => cb
  end.

Definition getBeginLsn (cb : dpsTransCB) (transID : Z) : Z :=
  default DPS_INVALID_LSN_OFFSET (_idBeginLsnMap cb !! getTransID transID).

Definition getOldestBeginLsn (cb : dpsTransCB) : Z :=
  default DPS_INVALID_LSN_OFFSET (first_key (_beginLsnIdMap cb)).

(** ** Records of the log *)

(** [itr = record.find( tag )] and the 64-bit integer there, if valid. *)
Definition look_u64 (record : dpsLogRecord) (t : Z) : outcome (option Z) :=
  o ← look record t;
  match o with
  | Some p => v ← as_uint 8 p; Ret (Some v)
  | None => Ret None
  end.

Definition saveTransInfoFromLog (node : nodeState) (cb : dpsTransCB) (record : dpsLogRecord) : outcome dpsTransCB :=
  o ← look_u64 record DPS_LOG_PUBLIC_TRANSID;
  match o with
  | None => Ret cb
  | Some transID =>
      if transID =? DPS_INVALID_TRANS_ID then Ret cb
      else
        '(cb, lsnOffset) ←
          (if isRollback transID then
             pre ← look_u64 record DPS_LOG_PUBLIC_PRETRANS;
             Ret (cb, default DPS_INVALID_LSN_OFFSET pre)
           else if LOG_TYPE_TS_COMMIT =? _type (_head record) then Ret (cb, DPS_INVALID_LSN_OFFSET)
           else
             let lsnOffset := _lsn (_head record) in
             Ret (if isFirstOp transID then addBeginLsn cb lsnOffset transID else cb, lsnOffset));
        let cb := if DPS_INVALID_LSN_OFFSET =? lsnOffset then delBeginLsn cb transID else cb in
        Ret (updateTransInfo node cb transID lsnOffset)
  end.

Definition rollbackTransInfoFromLog (node : nodeState) (cb : dpsTransCB) (record : dpsLogRecord)
    : outcome (bool * dpsTransCB) :=
  o ← look_u64 record DPS_LOG_PUBLIC_TRANSID;
  match o with
  | None => Ret (true, cb)
  | Some transID =>
      if transID =? DPS_INVALID_TRANS_ID then Ret (true, cb)
      else
        pre ← look_u64 record DPS_LOG_PUBLIC_PRETRANS;
        let lsnOffset := default DPS_INVALID_LSN_OFFSET pre in
        if LOG_TYPE_TS_COMMIT =? _type (_head record) then
          if DPS_INVALID_LSN_OFFSET =? lsnOffset then Ret (false, cb)
          else
            first ← look_u64 record DPS_LOG_PUBLIC_FIRSTTRANS;
            match first with
            | None => Ret (false, cb)
            | Some firstLsn => Ret (true, updateTransInfo node (addBeginLsn cb firstLsn transID) transID lsnOffset)
            end
        else if negb (isRollback transID) then
          let cb := if isFirstOp transID then delBeginLsn cb transID else cb in
          Ret (true, updateTransInfo node cb transID lsnOffset)
        else
          related ← look_u64 record DPS_LOG_PUBLIC_RELATED_TRANS;
          match related with
          | None => Ret (false, cb)
          | Some relatedLsn =>
              let cb := if DPS_INVALID_LSN_OFFSET =? lsnOffset then addBeginLsn cb relatedLsn transID else cb in
              Ret (true, updateTransInfo node cb transID relatedLsn)
          end
  end.

(** ** Log space

    [expect] is the offset of the LSN that the next record gets. *)

Definition usedLogSpace (expect : Z) (cb : dpsTransCB) : Z :=
  let beginLsnOffset := getOldestBeginLsn cb in
  if (DPS_INVALID_LSN_OFFSET =? beginLsnOffset) || (DPS_INVALID_LSN_OFFSET =? expect) then 0
  else
    let total := _logFileTotalSize cb in
    u64 (expect mod total + total - beginLsnOffset mod total) mod total.

(** What both operations give back. *)
Definition give_back (cb : dpsTransCB) (length : Z) : dpsTransCB :=
  with_space cb (if length <=? _accquiredSpace cb then _accquiredSpace cb - length else 0).

(** The parts of [reservedLogSpace]: the request is added with the mutex
    taken, then compared with the limit without it. *)
Definition space_add (length : Z) (cb : dpsTransCB) : dpsTransCB :=
  with_space cb (u64 (_accquiredSpace cb + length)).
Definition space_full (usedSize : Z) (cb : dpsTransCB) : bool :=
  _maxUsedSize cb <=? u64 (usedSize + _accquiredSpace cb).

(** The whole function, with no other thread between its parts. *)
Definition reservedLogSpace (expect : Z) (inRollback : bool) (length : Z) (cb : dpsTransCB) : Z * dpsTransCB :=
  if negb (_isOn cb) || inRollback then (SDB_OK, cb)
  else
    let cb := space_add length cb in
    let usedSize := usedLogSpace expect cb in
    if space_full usedSize cb
    then (SDB_DPS_LOG_FILE_OUT_OF_SIZE, give_back cb length)
    else (SDB_OK, cb).

Definition releaseLogSpace (inRollback : bool) (length : Z) (cb : dpsTransCB) : dpsTransCB :=
  if negb (_isOn cb) || inRollback then cb else give_back cb length.

Definition remainLogSpace (expect : Z) (cb : dpsTransCB) : Z :=
  if negb (_isOn cb) then _logFileTotalSize cb
  else
    let allocatedSize := u64 (_accquiredSpace cb + usedLogSpace expect cb) in
    if allocatedSize <? _maxUsedSize cb then _maxUsedSize cb - allocatedSize else 0.

(** ** Starting *)

Definition DPS_SEARCH_MEM : Z := 0x01.
Definition DPS_SEARCH_ALL : Z := Z.lor DPS_SEARCH_MEM DPS_SEARCH_FILE.

(** [_maxUsedSize] for the size and the number of the log files; the room
    for records is a 32-bit product. *)
Definition max_used (logFileSize logFileNum : Z) : Z :=
  let total := u64 (logFileSize * logFileNum) in
  if 5 <=? logFileNum then
    let reservedSize := u64 (logFileSize * 2) in
    let size := u64 (u64 (total - reservedSize) - u32 (2 * 0x01000000 * u32 (logFileNum - 2))) / 2 in
    let temp := u64 (total - reservedSize) / 3 in
    if (temp <? size) || (0 =? size) then temp else size
  else 0.

Section start.
Context `{PosixFile} (PS FS num : Z) (node : nodeState).

(** [search] of the log with its default arguments, and [record.load]. *)
Definition search_record (m : dpsReplicaLogMgr) (fm : dpsLogFileMgr) (lsn : Z) : outcome dpsLogRecord :=
  o ← or_crash (search PS FS num m fm lsn DPS_SEARCH_ALL false);
  match o with
  | inl rc => Err rc
  | inr (bs, _) => load_record bs
  end.

(** The loop of [syncTransInfoFromLocal]; a round passes a record.  With an
    error the transactions read so far stay in the table. *)
Fixpoint syncTrans_loop (fuel : nat) (m : dpsReplicaLogMgr) (fm : dpsLogFileMgr) (cb : dpsTransCB) (curLsn : Z)
    : option (outcome unit * dpsTransCB) :=
  if negb (curLsn =? DPS_INVALID_LSN_OFFSET) && (compareOffset curLsn (lsn_offset (m_lsn m)) <? 0) then
    match fuel with
    | O => None
    | S fuel' =>
        match search_record m fm curLsn with
        | Ret record =>
            match saveTransInfoFromLog node cb record with
            | Ret cb => syncTrans_loop fuel' m fm cb (u64 (curLsn + _length (_head record)))
            | Err rc => Some (Err rc, cb)
            | Throw => Some (Throw, cb)
            | Crash => Some (Crash, cb)
            end
        | Err rc => Some (Err rc, cb)
        | Throw => Some (Throw, cb)
        | Crash => Some (Crash, cb)
        end
    end
  else Some (Ret tt, cb).

Definition syncTransInfoFromLocal (m : dpsReplicaLogMgr) (fm : dpsLogFileMgr) (cb : dpsTransCB) (beginLsn : Z)
    : option (outcome unit * dpsTransCB) :=
  if negb (_isNeedSyncTrans cb) || (DPS_INVALID_LSN_OFFSET =? beginLsn) then Some (Ret tt, cb)
  else syncTrans_loop (Z.to_nat (lsn_offset (m_lsn m))) m fm (clearTransInfo cb) beginLsn.

(** [init] of a node with a log that is not being restored from a backup;
    the log files have the size [FS] and the number [num]. *)
Definition transCB_init (transactionOn standalone : bool) (m : dpsReplicaLogMgr) (fm : dpsLogFileMgr) (cb : dpsTransCB)
    : option (outcome unit * dpsTransCB) :=
  let cb := mkTransCB (_TransIDH16 cb) (_TransIDL48Cur cb) (_TransMap cb) (_cbMap cb) transactionOn (_doRollback cb) true
              (_beginLsnIdMap cb) (_idBeginLsnMap cb) (_isNeedSyncTrans cb) (max_used FS num) (u64 (FS * num))
              (_accquiredSpace cb) in
  start ← getStartLsn FS num m fm false;
  '(o, cb) ← (if _isOn cb && negb (lsn_offset start =? DPS_INVALID_LSN_OFFSET) && negb standalone
              then syncTransInfoFromLocal m fm cb (lsn_offset start) else Some (Ret tt, cb));
  Some (o, match o with Ret _ => with_rollback cb (_doRollback cb) (_rollbackEvent cb) false | _ => cb end).
End start.
