(* ===== verification/DpsTransFacts.v ===== *)
(** * The transaction control block: facts

    The specification of the table of transactions: a history of the log
    leaves, for every transaction that is not finished, the stack of the
    LSNs of its changes that are not undone.  Saving a record keeps the
    table of a node in step with the stacks, also when the node reads the
    log only from some LSN on, and rolling it back restores the table. *)

From stdpp Require Import base gmap list option.
From Stdlib Require Import ZArith Lia.
From S2P Require Import Prelude DpsLsn Mem DpsRecord DpsOp2Record DpsTrans.

Open Scope Z_scope.

(** ** Ids *)

(** An id without tags. *)
Definition plain_id (t : Z) : Prop := 0 < t /\ getTransID t = t.

Lemma getTransID_idem x : getTransID (getTransID x) = getTransID x.
Proof. unfold getTransID. by rewrite <- Z.land_assoc, Z.land_diag. Qed.

Section ids.
Context (t : Z) (Ht : plain_id t).

Lemma plain_land m : Z.land DPS_TRANSID_VALID_BIT m = 0 -> Z.land t m = 0.
Proof. intros H. destruct Ht as [_ <-]. unfold getTransID. by rewrite <- Z.land_assoc, H, Z.land_0_r. Qed.

Lemma plain_not_first : isFirstOp t = false.
Proof. unfold isFirstOp. by rewrite plain_land. Qed.

Lemma plain_not_rollback : isRollback t = false.
Proof. unfold isRollback. by rewrite plain_land. Qed.

Lemma first_id : getTransID (Z.lor t DPS_TRANSID_FIRSTOP_BIT) = t.
Proof. unfold getTransID. rewrite Z.land_lor_distr_l. destruct Ht as [_ Hp]. unfold getTransID in Hp. rewrite Hp. apply Z.lor_0_r. Qed.

Lemma first_is_first : isFirstOp (Z.lor t DPS_TRANSID_FIRSTOP_BIT) = true.
Proof. unfold isFirstOp. by rewrite Z.land_lor_distr_l, plain_land. Qed.

Lemma first_not_rollback : isRollback (Z.lor t DPS_TRANSID_FIRSTOP_BIT) = false.
Proof. unfold isRollback. by rewrite Z.land_lor_distr_l, plain_land. Qed.

Lemma first_cleared : clearFirstOpTag (Z.lor t DPS_TRANSID_FIRSTOP_BIT) = t.
Proof.
  unfold clearFirstOpTag. rewrite Z.land_lor_distr_l.
  change (Z.land DPS_TRANSID_FIRSTOP_BIT (u64 (Z.lnot DPS_TRANSID_FIRSTOP_BIT))) with 0. rewrite Z.lor_0_r.
  destruct Ht as [_ Hp]. unfold getTransID in Hp. rewrite <- Hp at 1. rewrite <- Z.land_assoc.
  change (Z.land DPS_TRANSID_VALID_BIT _) with DPS_TRANSID_VALID_BIT. done.
Qed.

Lemma rollback_id : getTransID (getRollbackID t) = t.
Proof. unfold getTransID, getRollbackID. rewrite Z.land_lor_distr_l. destruct Ht as [_ Hp]. unfold getTransID in Hp. rewrite Hp. apply Z.lor_0_r. Qed.

Lemma rollback_is_rollback : isRollback (getRollbackID t) = true.
Proof. unfold isRollback, getRollbackID. by rewrite Z.land_lor_distr_l, plain_land. Qed.

Lemma tagged_nonzero m : 0 <= m -> Z.lor t m <> 0.
Proof. intros Hm E. destruct Ht as [H0 _]. apply Z.lor_eq_0_iff in E. lia. Qed.
End ids.

(** ** What the table reads from a record *)

Record tview : Set := mkView {
  v_lsn : Z;
  v_type : Z;
  v_trans : option Z;
  v_pre : option Z;
  v_related : option Z;
  v_first : option Z
}.

Definition record_view (r : dpsLogRecord) : outcome tview :=
  i ← look_u64 r DPS_LOG_PUBLIC_TRANSID; p ← look_u64 r DPS_LOG_PUBLIC_PRETRANS;
  l ← look_u64 r DPS_LOG_PUBLIC_RELATED_TRANS; f ← look_u64 r DPS_LOG_PUBLIC_FIRSTTRANS;
  Ret (mkView (_lsn (_head r)) (_type (_head r)) i p l f).

Section views.
Context (node : nodeState).

Definition save_view (cb : dpsTransCB) (v : tview) : dpsTransCB :=
  match v_trans v with
  | None => cb
  | Some id =>
      if id =? DPS_INVALID_TRANS_ID then cb
      else if isRollback id then
        let l := default DPS_INVALID_LSN_OFFSET (v_pre v) in
        updateTransInfo node (if DPS_INVALID_LSN_OFFSET =? l then delBeginLsn cb id else cb) id l
      else if LOG_TYPE_TS_COMMIT =? v_type v then updateTransInfo node (delBeginLsn cb id) id DPS_INVALID_LSN_OFFSET
      else
        let cb := if isFirstOp id then addBeginLsn cb (v_lsn v) id else cb in
        updateTransInfo node (if DPS_INVALID_LSN_OFFSET =? v_lsn v then delBeginLsn cb id else cb) id (v_lsn v)
  end.

Definition rollback_view (cb : dpsTransCB) (v : tview) : bool * dpsTransCB :=
  match v_trans v with
  | None => (true, cb)
  | Some id =>
      if id =? DPS_INVALID_TRANS_ID then (true, cb)
      else
        let l := default DPS_INVALID_LSN_OFFSET (v_pre v) in
        if LOG_TYPE_TS_COMMIT =? v_type v then
          if DPS_INVALID_LSN_OFFSET =? l then (false, cb)
          else match v_first v with
               | None => (false, cb)
               | Some f => (true, updateTransInfo node (addBeginLsn cb f id) id l)
               end
        else if negb (isRollback id) then
          (true, updateTransInfo node (if isFirstOp id then delBeginLsn cb id else cb) id l)
        else match v_related v with
             | None => (false, cb)
             | Some k => (true, updateTransInfo node (if DPS_INVALID_LSN_OFFSET =? l then addBeginLsn cb k id else cb) id k)
             end
  end.

Lemma record_view_inv r v : record_view r = Ret v ->
  look_u64 r DPS_LOG_PUBLIC_TRANSID = Ret (v_trans v) /\ look_u64 r DPS_LOG_PUBLIC_PRETRANS = Ret (v_pre v) /\
  look_u64 r DPS_LOG_PUBLIC_RELATED_TRANS = Ret (v_related v) /\ look_u64 r DPS_LOG_PUBLIC_FIRSTTRANS = Ret (v_first v) /\
  _lsn (_head r) = v_lsn v /\ _type (_head r) = v_type v.
Proof.
  unfold record_view. destruct (look_u64 r DPS_LOG_PUBLIC_TRANSID), (look_u64 r DPS_LOG_PUBLIC_PRETRANS),
    (look_u64 r DPS_LOG_PUBLIC_RELATED_TRANS), (look_u64 r DPS_LOG_PUBLIC_FIRSTTRANS); cbn; try done. by intros [= <-].
Qed.

Lemma save_of_view cb r v : record_view r = Ret v -> saveTransInfoFromLog node cb r = Ret (save_view cb v).
Proof.
  intros (E1 & E2 & _ & _ & E5 & E6)%record_view_inv. unfold saveTransInfoFromLog, save_view.
  rewrite E1. cbn [mbind outcome_bind]. destruct (v_trans v) as [id|]; [|done].
  destruct (id =? DPS_INVALID_TRANS_ID); [done|]. destruct (isRollback id); [by rewrite E2|].
  rewrite E5, E6. destruct (LOG_TYPE_TS_COMMIT =? v_type v); cbn [mbind outcome_bind]; done.
Qed.

Lemma rollback_of_view cb r v : record_view r = Ret v -> rollbackTransInfoFromLog node cb r = Ret (rollback_view cb v).
Proof.
  intros (E1 & E2 & E3 & E4 & E5 & E6)%record_view_inv. unfold rollbackTransInfoFromLog, rollback_view.
  rewrite E1. cbn [mbind outcome_bind]. destruct (v_trans v) as [id|]; [|done].
  destruct (id =? DPS_INVALID_TRANS_ID); [done|]. rewrite E2. cbn [mbind outcome_bind]. rewrite E6.
  destruct (LOG_TYPE_TS_COMMIT =? v_type v).
  - destruct (DPS_INVALID_LSN_OFFSET =? _); [done|]. rewrite E4. cbn [mbind outcome_bind]. by destruct (v_first v).
  - destruct (negb (isRollback id)); [done|]. rewrite E3. cbn [mbind outcome_bind]. by destruct (v_related v).
Qed.
End views.

(** ** Histories *)

(** The transactions that are not finished, with the LSNs of their changes
    that are not undone, the last one first. *)
Abbreviation opens := (gmap Z (list Z)).

Definition spec_step (o : opens) (v : tview) : opens :=
  match v_trans v with
  | None => o
  | Some id =>
      let t := getTransID id in
      if isRollback id then
        match o !! t with
        | Some (_ :: l :: st) => <[t := l :: st]> o
        | _ => delete t o
        end
      else if LOG_TYPE_TS_COMMIT =? v_type v then delete t o
      else <[t := v_lsn v :: default [] (o !! t)]> o
  end.

(** The record [v] continues the transactions [o]. *)
Definition view_ok (o : opens) (v : tview) : Prop :=
  match v_trans v with
  | None => True
  | Some id =>
      id <> DPS_INVALID_TRANS_ID /\
      let t := getTransID id in
      if isRollback id then
        exists l st, o !! t = Some (l :: st) /\ v_related v = Some l /\ v_pre v = head st /\ v_type v <> LOG_TYPE_TS_COMMIT
      else if LOG_TYPE_TS_COMMIT =? v_type v then
        exists l st, o !! t = Some (l :: st) /\ v_pre v = Some l /\ v_first v = list.last (l :: st)
      else v_pre v = (o !! t ≫= head) /\ (isFirstOp id = true <-> o !! t = None)
  end.

Inductive history : list tview -> opens -> Prop :=
  | history_nil : history [] ∅
  | history_snoc vs o v :
      history vs o -> view_ok o v -> Forall (fun u => v_lsn u < v_lsn v) vs ->
      0 <= v_lsn v < DPS_INVALID_LSN_OFFSET -> history (vs ++ [v]) (spec_step o v).

(** The cases of a step. *)
Inductive step_case (o : opens) (v : tview) : Prop :=
  | CasePlain : v_trans v = None -> spec_step o v = o -> step_case o v
  | CaseRollback id l st :
      v_trans v = Some id -> id <> DPS_INVALID_TRANS_ID -> isRollback id = true -> o !! getTransID id = Some (l :: st) ->
      v_related v = Some l -> v_pre v = head st -> v_type v <> LOG_TYPE_TS_COMMIT ->
      spec_step o v = (if st is [] then delete (getTransID id) o else <[getTransID id := st]> o) -> step_case o v
  | CaseCommit id l st :
      v_trans v = Some id -> id <> DPS_INVALID_TRANS_ID -> isRollback id = false -> v_type v = LOG_TYPE_TS_COMMIT ->
      o !! getTransID id = Some (l :: st) -> v_pre v = Some l -> v_first v = list.last (l :: st) ->
      spec_step o v = delete (getTransID id) o -> step_case o v
  | CaseChange id :
      v_trans v = Some id -> id <> DPS_INVALID_TRANS_ID -> isRollback id = false -> v_type v <> LOG_TYPE_TS_COMMIT ->
      v_pre v = (o !! getTransID id ≫= head) -> (isFirstOp id = true <-> o !! getTransID id = None) ->
      spec_step o v = <[getTransID id := v_lsn v :: default [] (o !! getTransID id)]> o -> step_case o v.

Lemma step_cases o v : view_ok o v -> step_case o v.
Proof.
  unfold view_ok. intros H. destruct (v_trans v) as [id|] eqn:Ei; [|apply CasePlain; [done|by unfold spec_step; rewrite Ei]].
  destruct H as [Hid H]. destruct (isRollback id) eqn:Er.
  - destruct H as (l & st & Ho & Hr & Hp & Hty). eapply CaseRollback; try done. unfold spec_step. rewrite Ei, Er, Ho.
    by destruct st.
  - destruct (Z.eqb_spec LOG_TYPE_TS_COMMIT (v_type v)) as [Ec|Ec].
    + destruct H as (l & st & Ho & Hp & Hf). eapply CaseCommit; try done. unfold spec_step. rewrite Ei, Er, <- Ec. done.
    + destruct H as [Hp Hf]. eapply CaseChange; try done. unfold spec_step. rewrite Ei, Er.
      destruct (Z.eqb_spec LOG_TYPE_TS_COMMIT (v_type v)); [done|]. done.
Qed.

Lemma last_tail (x : Z) l st : list.last (x :: l :: st) = list.last (l :: st).
Proof. done. Qed.

(** The changes of a stack are records of the log, each linked to the next one. *)
Definition linked (vs : list tview) (t : Z) (st : list Z) : Prop :=
  forall i l, st !! i = Some l ->
    exists v id, v ∈ vs /\ v_lsn v = l /\ v_trans v = Some id /\ getTransID id = t /\ v_pre v = st !! S i.

Lemma linked_app vs us t st : linked vs t st -> linked (vs ++ us) t st.
Proof.
  intros H i l Hi. destruct (H i l Hi) as (v & id & Hv & Hr). exists v, id.
  split; [by apply elem_of_app; left|done].
Qed.

Lemma linked_tail vs t x st : linked vs t (x :: st) -> linked vs t st.
Proof. intros H i l Hi. by apply (H (S i)). Qed.

Lemma history_linked vs o t st : history vs o -> o !! t = Some st -> st <> [] /\ linked vs t st.
Proof.
  intros H. revert t st. induction H as [|vs o v H IH Hv Hlt Hb]; intros t st Ht; [by rewrite lookup_empty in Ht|].
  assert (Hold : o !! t = Some st -> st <> [] /\ linked (vs ++ [v]) t st).
  { intros E. destruct (IH t st E). split; [done|by apply linked_app]. }
  destruct (step_cases o v Hv) as [_ E|id l s Ei Hn Hr Ho Hre Hp Hty E|id l s Ei Hn Hr Hty Ho Hp Hf E|id Ei Hn Hr Hty Hp Hf E];
    rewrite E in Ht; [by auto|..].
  - destruct (IH _ _ Ho) as [_ Hl%linked_tail]. destruct s as [|l' s].
    + apply lookup_delete_Some in Ht as [_ Ht]. auto.
    + apply lookup_insert_Some in Ht as [[<- <-]|[_ Ht]]; [|auto]. split; [done|by apply linked_app].
  - apply lookup_delete_Some in Ht as [_ Ht]. auto.
  - apply lookup_insert_Some in Ht as [[<- <-]|[_ Ht]]; [|auto]. split; [done|].
    intros [|i] l; cbn [lookup list_lookup].
    + intros [= <-]. exists v, id. rewrite Ei, Hp. split; [apply elem_of_app; right; by apply list_elem_of_singleton|].
      repeat split; try done. destruct (o !! getTransID id) as [[|]|] eqn:Eo; done.
    + intros Hi. destruct (o !! getTransID id) as [s|] eqn:Eo; cbn [default] in Hi |- *; [|done].
      destruct (IH _ _ Eo) as [_ Hl]. by apply (linked_app _ [v] _ _ Hl).
Qed.

Lemma history_lsn vs o v : history vs o -> v ∈ vs -> 0 <= v_lsn v < DPS_INVALID_LSN_OFFSET.
Proof.
  induction 1 as [|vs o u H IH Hu Hlt Hb]; intros Hv; [by apply elem_of_nil in Hv|].
  apply elem_of_app in Hv as [Hv|Hv%list_elem_of_singleton]; [auto|by subst].
Qed.

Lemma history_unique vs o u v : history vs o -> u ∈ vs -> v ∈ vs -> v_lsn u = v_lsn v -> u = v.
Proof.
  induction 1 as [|vs o w H IH Hw Hlt Hb]; intros Hu Hv E; [by apply elem_of_nil in Hu|].
  rewrite list.Forall_forall in Hlt.
  apply elem_of_app in Hu as [Hu|Hu%list_elem_of_singleton], Hv as [Hv|Hv%list_elem_of_singleton]; subst; auto.
  - specialize (Hlt _ Hu). lia.
  - specialize (Hlt _ Hv). lia.
Qed.

Lemma history_stack_lsn vs o t st l :
  history vs o -> o !! t = Some st -> l ∈ st -> exists v, v ∈ vs /\ v_lsn v = l.
Proof.
  intros H Ht [i Hi]%list_elem_of_lookup. destruct (history_linked _ _ _ _ H Ht) as [_ Hl].
  destruct (Hl i l Hi) as (v & id & Hv & E & _). eauto.
Qed.

Lemma history_snoc_inv vs v o :
  history (vs ++ [v]) o ->
  exists o', o = spec_step o' v /\ history vs o' /\ view_ok o' v /\ Forall (fun u => v_lsn u < v_lsn v) vs /\
    0 <= v_lsn v < DPS_INVALID_LSN_OFFSET.
Proof.
  intros H. inversion H as [E|vs' o' v' H1 H2 H3 H4 E]; [by destruct vs|].
  apply app_inj_tail in E as [-> ->]. eauto 10.
Qed.

Lemma history_prefix vs us o : history (vs ++ us) o -> exists o', history vs o'.
Proof.
  revert o. induction us as [|v us IH] using rev_ind; intros o Hh; [rewrite app_nil_r in Hh; eauto|].
  rewrite app_assoc in Hh. apply history_snoc_inv in Hh as (o' & _ & Hh & _). eauto.
Qed.

Lemma history_fun vs o o' : history vs o -> history vs o' -> o = o'.
Proof.
  intros H. revert o'. induction H as [|vs o v H IH Hv Hlt Hb]; intros o' H'.
  - inversion H' as [|vs' ? ? ? ? ? ? E]; [done|]. by destruct vs'.
  - apply history_snoc_inv in H' as (o1 & -> & H1 & _). by rewrite (IH _ H1).
Qed.

(** ** Tables *)

(** [updateTransInfo] changes the table of this node. *)
Definition replica (node : nodeState) : Prop := n_inRestore node = false /\ n_cls node && n_primary node = false.

Lemma update_begins node cb id l :
  _beginLsnIdMap (updateTransInfo node cb id l) = _beginLsnIdMap cb /\
  _idBeginLsnMap (updateTransInfo node cb id l) = _idBeginLsnMap cb.
Proof. unfold updateTransInfo. by repeat case_match. Qed.

Lemma update_map node cb id l :
  replica node -> id <> DPS_INVALID_TRANS_ID ->
  _TransMap (updateTransInfo node cb id l) =
    if DPS_INVALID_LSN_OFFSET =? l then delete (getTransID id) (_TransMap cb) else <[getTransID id := l]> (_TransMap cb).
Proof.
  intros [H1 H2] Hid. unfold updateTransInfo. rewrite H1, H2. destruct (Z.eqb_spec DPS_INVALID_TRANS_ID id); [congruence|done].
Qed.

Lemma update_primary node cb id l : n_cls node && n_primary node = true -> updateTransInfo node cb id l = cb.
Proof. intros H. unfold updateTransInfo. rewrite H. by destruct (_ || _). Qed.

Lemma delBegin_map cb id : _TransMap (delBeginLsn cb id) = _TransMap cb.
Proof. unfold delBeginLsn. by case_match. Qed.

(** The two maps of first LSNs are inverse. *)
Definition inverse (lsnId idLsn : gmap Z Z) : Prop := forall l t, lsnId !! l = Some t <-> idLsn !! t = Some l.

Lemma inverse_add bl il l t : inverse bl il -> bl !! l = None -> il !! t = None -> inverse (<[l := t]> bl) (<[t := l]> il).
Proof.
  intros H Hl Ht l' t'. rewrite !lookup_insert_Some. specialize (H l' t').
  split; intros [[-> ->]|[Hne E]]; auto; right.
  - split; [|by apply H]. intros <-. apply H in E. congruence.
  - split; [|by apply H]. intros <-. apply H in E. congruence.
Qed.

Lemma inverse_del bl il l t : inverse bl il -> il !! t = Some l -> inverse (delete l bl) (delete t il).
Proof.
  intros H Ht l' t'. rewrite !lookup_delete_Some. specialize (H l' t') as H'. apply (H l t) in Ht.
  split; intros [Hne E]; (split; [|by apply H']); intros <-.
  - apply H' in E. apply (H l t) in Ht. congruence.
  - apply H' in E. congruence.
Qed.

Lemma inverse_unique bl bl' il : inverse bl il -> inverse bl' il -> bl = bl'.
Proof.
  intros H H'. apply map_eq. intros l. destruct (bl !! l) as [t|] eqn:E.
  - symmetry. by apply H', H.
  - destruct (bl' !! l) as [t|] eqn:E'; [|done]. apply H', H in E'. congruence.
Qed.

(** The transaction began before [b]. *)
Definition old (b : Z) (o : opens) (t : Z) : Prop := exists l, (o !! t ≫= list.last) = Some l /\ l < b.

(** The table of a node that has read the log from [b] on: exact for the
    transactions that began there. *)
Definition tm_from (b : Z) (m : gmap Z Z) (o : opens) : Prop := forall t, m !! t = (o !! t ≫= head) \/ old b o t.

Record bg_from (b : Z) (cb : dpsTransCB) (o : opens) : Prop := {
  bg_id t : _idBeginLsnMap cb !! t = (o !! t ≫= list.last) \/ (old b o t /\ _idBeginLsnMap cb !! t = None);
  bg_inverse : inverse (_beginLsnIdMap cb) (_idBeginLsnMap cb)
}.

Lemma old_ne b o t t' x : t' <> t -> old b o t -> old b (<[t' := x]> o) t.
Proof. intros Hne (l & E & Hl). exists l. by rewrite lookup_insert_ne. Qed.

Lemma old_delete_ne b o t t' : t' <> t -> old b o t -> old b (delete t' o) t.
Proof. intros Hne (l & E & Hl). exists l. by rewrite lookup_delete_ne. Qed.

Lemma stack_last (st : list Z) x : st <> [] -> list.last (x :: st) = list.last st.
Proof. by destruct st. Qed.

(** The stack of an old transaction that goes on keeps its end. *)
Lemma old_same b o t st st' :
  o !! t = Some st -> list.last st' = list.last st -> old b o t -> old b (<[t := st']> o) t.
Proof. intros Ht El (l & E & Hl). rewrite Ht in E. exists l. rewrite lookup_insert_eq. cbn in *. by rewrite El. Qed.

Lemma bg_update b node cb id l o : bg_from b cb o -> bg_from b (updateTransInfo node cb id l) o.
Proof.
  intros [H1 H2]. destruct (update_begins node cb id l) as [E1 E2]. constructor; [intros t|]; rewrite ?E1, ?E2; auto.
Qed.

Lemma bg_del b cb id o : bg_from b cb o -> bg_from b (delBeginLsn cb id) (delete (getTransID id) o).
Proof.
  intros [H1 H2]. unfold delBeginLsn. set (t := getTransID id).
  assert (Hne : forall t', t' <> t -> _idBeginLsnMap cb !! t' = (delete t o !! t' ≫= list.last) \/
            (old b (delete t o) t' /\ _idBeginLsnMap cb !! t' = None)).
  { intros t' Hne. rewrite lookup_delete_ne by done. destruct (H1 t') as [|[Ho E]]; [by left|right].
    split; [by apply old_delete_ne|done]. }
  destruct (_idBeginLsnMap cb !! t) as [l|] eqn:E; constructor; try done.
  - intros t'. cbn. destruct (decide (t' = t)) as [->|Ht]; [left; by rewrite !lookup_delete_eq|].
    rewrite (lookup_delete_ne (_idBeginLsnMap cb)) by done. by apply Hne.
  - by apply inverse_del.
  - intros t'. destruct (decide (t' = t)) as [->|Ht]; [left; by rewrite lookup_delete_eq|by apply Hne].
Qed.

Lemma bg_keep b cb o t st st' :
  o !! t = Some st -> list.last st' = list.last st -> bg_from b cb o -> bg_from b cb (<[t := st']> o).
Proof.
  intros Ht El [H1 H2]. constructor; [|done]. intros t'. destruct (decide (t = t')) as [<-|Hne].
  - rewrite lookup_insert_eq. cbn. rewrite El. destruct (H1 t) as [E|[Ho E]]; [left; by rewrite E, Ht|].
    right. split; [by eapply old_same|done].
  - rewrite lookup_insert_ne by done. destruct (H1 t') as [E|[Ho E]]; [by left|right]. split; [by apply old_ne|done].
Qed.

Lemma bg_add b cb o id l st :
  list.last st = Some l -> bg_from b cb o -> o !! getTransID id = None -> _beginLsnIdMap cb !! l = None ->
  bg_from b (addBeginLsn cb l id) (<[getTransID id := st]> o).
Proof.
  intros El [H1 H2] Ho Hl. assert (Hi : _idBeginLsnMap cb !! getTransID id = None).
  { destruct (H1 (getTransID id)) as [->|[_ E]]; [by rewrite Ho|done]. }
  constructor; [|by apply inverse_add]. intros t. cbn. destruct (decide (getTransID id = t)) as [<-|Hne].
  - left. by rewrite !lookup_insert_eq.
  - rewrite !lookup_insert_ne by done. destruct (H1 t) as [E|[Hd E]]; [by left|right]. split; [by apply old_ne|done].
Qed.

Lemma tm_del b m o t : tm_from b m o -> tm_from b (delete t m) (delete t o).
Proof.
  intros Hm t'. destruct (decide (t = t')) as [<-|Hne]; [left; by rewrite !lookup_delete_eq|].
  rewrite !lookup_delete_ne by done. destruct (Hm t'); [by left|right; by apply old_delete_ne].
Qed.

Lemma tm_ins b m o t l st : head st = Some l -> tm_from b m o -> tm_from b (<[t := l]> m) (<[t := st]> o).
Proof.
  intros El Hm t'. destruct (decide (t = t')) as [<-|Hne]; [left; by rewrite !lookup_insert_eq|].
  rewrite !lookup_insert_ne by done. destruct (Hm t'); [by left|right; by apply old_ne].
Qed.

Section save.
Context (node : nodeState) (vs : list tview) (o : opens) (v : tview).
Context (Hh : history vs o) (Hv : view_ok o v).
Context (Hlt : Forall (fun u => v_lsn u < v_lsn v) vs) (Hb : 0 <= v_lsn v < DPS_INVALID_LSN_OFFSET).

Lemma fresh_lsn t st l : o !! t = Some st -> l ∈ st -> l < v_lsn v.
Proof.
  intros Ht Hl. destruct (history_stack_lsn _ _ _ _ _ Hh Ht Hl) as (u & Hu & <-). rewrite list.Forall_forall in Hlt. by apply Hlt.
Qed.

Lemma pre_valid t st : o !! t = Some st -> forall l, l ∈ st -> (DPS_INVALID_LSN_OFFSET =? l) = false.
Proof. intros Ht l Hl. apply Z.eqb_neq. pose proof (fresh_lsn _ _ _ Ht Hl). lia. Qed.

Lemma save_map b cb : replica node -> tm_from b (_TransMap cb) o -> tm_from b (_TransMap (save_view node cb v)) (spec_step o v).
Proof.
  intros Hn Hm. unfold save_view.
  destruct (step_cases o v Hv) as [Ei E|id l s Ei Hid Hr Ho Hre Hp Hty E|id l s Ei Hid Hr Hty Ho Hp Hf E|id Ei Hid Hr Hty Hp Hf E];
    rewrite E; clear E; rewrite Ei; [done|..]; rewrite (proj2 (Z.eqb_neq _ _) Hid), Hr.
  - rewrite update_map, Hp by done. destruct s as [|l' s]; cbn -[Z.eqb getTransID].
    + rewrite Z.eqb_refl, delBegin_map. by apply tm_del.
    + rewrite (pre_valid _ _ Ho) by (apply list_elem_of_further, list_elem_of_here). by apply tm_ins.
  - rewrite Hty, Z.eqb_refl, update_map, Z.eqb_refl, delBegin_map by done. by apply tm_del.
  - rewrite (proj2 (Z.eqb_neq _ _) (not_eq_sym Hty)), update_map by done.
    assert (E : (DPS_INVALID_LSN_OFFSET =? v_lsn v) = false) by (apply Z.eqb_neq; lia). rewrite E.
    destruct (isFirstOp id); by apply tm_ins.
Qed.

Lemma save_begins b cb : bg_from b cb o -> bg_from b (save_view node cb v) (spec_step o v).
Proof.
  intros Hbg. unfold save_view.
  destruct (step_cases o v Hv) as [Ei E|id l s Ei Hid Hr Ho Hre Hp Hty E|id l s Ei Hid Hr Hty Ho Hp Hf E|id Ei Hid Hr Hty Hp Hf E];
    rewrite E; clear E; rewrite Ei; [done|..]; rewrite (proj2 (Z.eqb_neq _ _) Hid), Hr.
  - apply bg_update. rewrite Hp. destruct s as [|l' s]; cbn [head default].
    + cbn -[Z.eqb getTransID]. rewrite Z.eqb_refl. by apply bg_del.
    + cbn -[Z.eqb getTransID]. rewrite (pre_valid _ _ Ho) by (apply list_elem_of_further, list_elem_of_here).
      by eapply bg_keep.
  - rewrite Hty, Z.eqb_refl. by apply bg_update, bg_del.
  - rewrite (proj2 (Z.eqb_neq _ _) (not_eq_sym Hty)).
    assert (E : (DPS_INVALID_LSN_OFFSET =? v_lsn v) = false) by (apply Z.eqb_neq; lia). rewrite E. apply bg_update.
    destruct (o !! getTransID id) as [st|] eqn:Eo; cbn [default].
    + destruct (isFirstOp id); [by destruct Hf as [Hf _]; specialize (Hf eq_refl)|].
      eapply bg_keep; [done| |done]. apply stack_last. by apply (history_linked _ _ _ _ Hh Eo).
    + destruct Hf as [_ ->]; [|done]. apply bg_add; [done|done|done|].
      destruct (_beginLsnIdMap cb !! v_lsn v) as [t|] eqn:Et; [|done]. exfalso.
      apply (bg_inverse _ _ _ Hbg) in Et. destruct (bg_id _ _ _ Hbg t) as [E1|[_ E1]]; [|congruence].
      rewrite Et in E1. destruct (o !! t) as [st|] eqn:Est; [|done]. cbn in E1.
      symmetry in E1. apply last_Some_elem_of in E1. pose proof (fresh_lsn _ _ _ Est E1). lia.
Qed.
End save.

(** ** The table of a node that has read the whole log *)

Record table_ok (cb : dpsTransCB) (o : opens) : Prop := {
  tb_map t : _TransMap cb !! t = (o !! t ≫= head);
  tb_id t : _idBeginLsnMap cb !! t = (o !! t ≫= list.last);
  tb_inverse : inverse (_beginLsnIdMap cb) (_idBeginLsnMap cb)
}.

(** Nothing is older than the first LSN that was read. *)
Lemma table_from b cb o :
  tm_from b (_TransMap cb) o -> bg_from b cb o -> (forall t, ~ old b o t) -> table_ok cb o.
Proof.
  intros Hm [Hi Hv] Hno. constructor; [|intros t|done].
  - intros t. destruct (Hm t) as [|H]; [done|]. by apply Hno in H.
  - destruct (Hi t) as [|[H _]]; [done|]. by apply Hno in H.
Qed.

Lemma table_tm b cb o : table_ok cb o -> tm_from b (_TransMap cb) o.
Proof. intros [H _ _] t. by left. Qed.

Lemma table_bg b cb o : table_ok cb o -> bg_from b cb o.
Proof. intros [_ H H']. constructor; [intros t; by left|done]. Qed.

Lemma table_unique cb cb' o :
  table_ok cb o -> table_ok cb' o ->
  _TransMap cb = _TransMap cb' /\ _beginLsnIdMap cb = _beginLsnIdMap cb' /\ _idBeginLsnMap cb = _idBeginLsnMap cb'.
Proof.
  intros [M I V] [M' I' V'].
  assert (E : _idBeginLsnMap cb = _idBeginLsnMap cb') by (apply map_eq; intros t; by rewrite I, I').
  split; [apply map_eq; intros t; by rewrite M, M'|]. split; [|done]. eapply inverse_unique; [done|]. by rewrite E.
Qed.

Lemma table_clear cb : table_ok (clearTransInfo cb) ∅.
Proof.
  constructor; [intros t|intros t|intros l t]; cbn; by rewrite ?lookup_empty.
Qed.

Lemma old_zero vs o t : history vs o -> ~ old 0 o t.
Proof.
  intros H (l & E & Hl). destruct (o !! t) as [st|] eqn:Et; [|done]. cbn in E. apply last_Some_elem_of in E.
  destruct (history_stack_lsn _ _ _ _ _ H Et E) as (v & Hv & <-). pose proof (history_lsn _ _ _ H Hv). lia.
Qed.

(** Reading records that continue a history from [b] on. *)
Lemma save_fold node b us vs o cb :
  replica node -> history (vs ++ us) o -> (exists o1, history vs o1 /\ tm_from b (_TransMap cb) o1 /\ bg_from b cb o1) ->
  tm_from b (_TransMap (foldl (save_view node) cb us)) o /\ bg_from b (foldl (save_view node) cb us) o.
Proof.
  intros Hn. revert o. induction us as [|v us IH] using rev_ind; intros o Hh Hs.
  - rewrite app_nil_r in Hh. destruct Hs as (o1 & H1 & Hm & Hbg). by rewrite (history_fun _ _ _ Hh H1).
  - rewrite app_assoc in Hh. apply history_snoc_inv in Hh as (o' & -> & Hh & Hv & Hlt & Hb).
    destruct (IH o' Hh Hs) as [Hm Hbg]. rewrite foldl_app. cbn [foldl].
    split; [by eapply save_map|by eapply save_begins].
Qed.

(** A node that has read nothing knows nothing of what began before. *)
Lemma empty_from b vs o cb :
  history vs o -> Forall (fun u => v_lsn u < b) vs ->
  tm_from b (_TransMap (clearTransInfo cb)) o /\ bg_from b (clearTransInfo cb) o.
Proof.
  intros Hh Hlt.
  assert (Ho : forall t, o !! t = None \/ old b o t).
  { intros t. destruct (o !! t) as [st|] eqn:Et; [right|by left]. destruct (history_linked _ _ _ _ Hh Et) as [Hne _].
    destruct (list.last st) as [l|] eqn:El; [|by apply last_None in El]. exists l. rewrite Et. split; [done|].
    apply last_Some_elem_of in El. destruct (history_stack_lsn _ _ _ _ _ Hh Et El) as (u & Hu & <-).
    rewrite list.Forall_forall in Hlt. by apply Hlt. }
  destruct (table_clear cb) as [H1 H2 H3]. split; [|constructor; [|done]]; intros t.
  - destruct (Ho t) as [E|E]; [left; by rewrite E, H1|by right].
  - destruct (Ho t) as [E|E]; [left; by rewrite E, H2|right]. split; [done|by rewrite H2].
Qed.

(** Reading the log from an LSN at or before the first LSN of every
    unfinished transaction gives the table of the whole log. *)
Lemma read_from node b vs us o cb :
  replica node -> history (vs ++ us) o -> Forall (fun u => v_lsn u < b) vs -> (forall t, ~ old b o t) ->
  table_ok (foldl (save_view node) (clearTransInfo cb) us) o.
Proof.
  intros Hn Hh Hlt Hno. destruct (save_fold node b us vs o (clearTransInfo cb) Hn Hh) as [Hm Hbg]; [|by eapply table_from].
  destruct (history_prefix _ _ _ Hh) as [o1 H1].
  exists o1. split; [done|]. by apply (empty_from b vs).
Qed.

(** ** Rolling back *)

Lemma reinsert (o : opens) t st' st : o !! t = Some st -> <[t := st]> (<[t := st']> o) = o.
Proof. intros E. by rewrite insert_insert_eq, insert_id. Qed.

Section rolling_back.
Context (node : nodeState) (vs : list tview) (o : opens) (v : tview).
Context (Hn : replica node) (Hh : history vs o) (Hv : view_ok o v).
Context (Hlt : Forall (fun u => v_lsn u < v_lsn v) vs) (Hb : 0 <= v_lsn v < DPS_INVALID_LSN_OFFSET).

Lemma stacks_disjoint t t' st st' l : o !! t = Some st -> o !! t' = Some st' -> l ∈ st -> l ∈ st' -> t = t'.
Proof.
  intros Ht Ht' [i Hi]%list_elem_of_lookup [j Hj]%list_elem_of_lookup.
  destruct (history_linked _ _ _ _ Hh Ht) as [_ H1]. destruct (history_linked _ _ _ _ Hh Ht') as [_ H2].
  destruct (H1 i l Hi) as (u & id & Hu & El & Ei & <- & _). destruct (H2 j l Hj) as (u' & id' & Hu' & El' & Ei' & <- & _).
  rewrite <- El' in El. rewrite (history_unique _ _ _ _ Hh Hu Hu' El) in Ei. congruence.
Qed.

(** No other transaction begins at a change of [t]. *)
Lemma begin_free b cb t st l : o !! t = Some st -> l ∈ st -> bg_from b cb (delete t o) -> _beginLsnIdMap cb !! l = None.
Proof.
  intros Ht Hl Hbg. destruct (_beginLsnIdMap cb !! l) as [t'|] eqn:E; [|done]. exfalso.
  apply (bg_inverse _ _ _ Hbg) in E. destruct (bg_id _ _ _ Hbg t') as [E1|[_ E1]]; [|congruence]. rewrite E in E1.
  destruct (decide (t = t')) as [<-|Hne]; [by rewrite lookup_delete_eq in E1|]. rewrite lookup_delete_ne in E1 by done.
  destruct (o !! t') as [st'|] eqn:Et'; [|done]. cbn in E1. symmetry in E1. apply last_Some_elem_of in E1.
  by apply Hne, (stacks_disjoint _ _ _ _ _ Ht Et' Hl E1).
Qed.

Lemma rollback_maps b cb : tm_from b (_TransMap cb) (spec_step o v) -> bg_from b cb (spec_step o v) ->
  exists cb', rollback_view node cb v = (true, cb') /\ tm_from b (_TransMap cb') o /\ bg_from b cb' o.
Proof.
  intros Hm Hg. unfold rollback_view. pose proof (pre_valid vs o v Hh Hlt Hb) as Hval.
  destruct (step_cases o v Hv) as [Ei E|id l s Ei Hid Hr Ho Hre Hp Hty E|id l s Ei Hid Hr Hty Ho Hp Hf E|id Ei Hid Hr Hty Hp Hf E];
    rewrite E in Hm, Hg; clear E; rewrite Ei; [by eauto|..]; rewrite (proj2 (Z.eqb_neq _ _) Hid).
  - rewrite (proj2 (Z.eqb_neq _ _) (not_eq_sym Hty)), Hr, Hre, Hp. cbn [negb]. eexists. split; [done|].
    rewrite update_map by done. rewrite (Hval _ _ Ho) by apply list_elem_of_here.
    destruct s as [|l' s]; cbn -[Z.eqb getTransID updateTransInfo addBeginLsn].
    + rewrite Z.eqb_refl, <- (insert_delete_id o _ _ Ho). split; [by apply tm_ins|]. apply bg_update, bg_add; [done|done|by rewrite lookup_delete_eq|].
      eapply begin_free; [done|apply list_elem_of_here|done].
    + rewrite (Hval _ _ Ho) by (apply list_elem_of_further, list_elem_of_here).
      rewrite <- (reinsert _ _ (l' :: s) _ Ho). split; [by apply tm_ins|]. apply bg_update.
      eapply bg_keep; [apply lookup_insert_eq| |done]. done.
  - rewrite Hty, Z.eqb_refl, Hp. cbn [default]. cbn -[Z.eqb getTransID updateTransInfo addBeginLsn list.last].
    rewrite (Hval _ _ Ho) by apply list_elem_of_here. rewrite Hf.
    destruct (list.last (l :: s)) as [f|] eqn:El; [|by apply last_None in El]. eexists. split; [done|].
    rewrite update_map by done. rewrite (Hval _ _ Ho) by apply list_elem_of_here.
    rewrite <- (insert_delete_id o _ _ Ho). split; [by apply tm_ins|].
    apply bg_update, bg_add; [done|done|by rewrite lookup_delete_eq|].
    eapply begin_free; [done|by apply last_Some_elem_of|done].
  - rewrite (proj2 (Z.eqb_neq _ _) (not_eq_sym Hty)), Hr, Hp. cbn [negb]. eexists. split; [done|]. rewrite update_map by done.
    destruct (o !! getTransID id) as [st|] eqn:Eo; cbn -[Z.eqb getTransID updateTransInfo delBeginLsn].
    + destruct (isFirstOp id); [by destruct Hf as [Hf _]; specialize (Hf eq_refl)|].
      destruct (history_linked _ _ _ _ Hh Eo) as [Hne _]. destruct st as [|l st]; [done|]. cbn -[Z.eqb getTransID updateTransInfo].
      rewrite (Hval _ _ Eo) by apply list_elem_of_here. rewrite <- (reinsert _ _ (v_lsn v :: l :: st) _ Eo).
      split; [by apply tm_ins|]. apply bg_update. eapply bg_keep; [apply lookup_insert_eq| |done]. done.
    + destruct Hf as [_ ->]; [|done]. rewrite Z.eqb_refl, delBegin_map. cbn in Hm, Hg.
      rewrite <- (delete_insert_id o _ [v_lsn v] Eo).
      split; [by apply tm_del|]. by apply bg_update, bg_del.
Qed.
End rolling_back.

Lemma rollback_table node cb vs o v :
  replica node -> history vs o -> view_ok o v -> Forall (fun u => v_lsn u < v_lsn v) vs ->
  0 <= v_lsn v < DPS_INVALID_LSN_OFFSET -> table_ok cb (spec_step o v) ->
  exists cb', rollback_view node cb v = (true, cb') /\ table_ok cb' o.
Proof.
  intros Hn Hh Hv Hlt Hb Ht.
  destruct (rollback_maps node vs o v Hn Hh Hv Hlt Hb 0 cb (table_tm _ _ _ Ht) (table_bg _ _ _ Ht)) as (cb' & E & Hm & Hg).
  exists cb'. split; [done|]. eapply table_from; [done|done|]. intros t. by eapply old_zero.
Qed.
