(* ===== verification/DpsTransView.v ===== *)
(** * What the transaction table reads from the operations of the log

    The elements that an operation puts into its record, in memory or loaded
    from the log, and the ids that [allocTransID] gives. *)

From stdpp Require Import base gmap list option.
From Stdlib Require Import ZArith Lia.
From S2P Require Import Prelude DpsLsn Mem DpsRecord DpsRecordFacts DpsOp2Record DpsOp2Thms DpsOp2Trip.
From S2P Require Import DpsTrans DpsTransFacts.

Open Scope Z_scope.

(** ** Operations *)

(** A value that is stored unless it is [d]. *)
Definition opt_u64 (d v : Z) : option Z := if d =? v then None else Some v.

Definition tran_view (ty lsn : Z) (t : tran) : tview :=
  mkView lsn ty (opt_u64 DPS_INVALID_TRANS_ID (t_id t)) (opt_u64 DPS_INVALID_LSN_OFFSET (t_pre t))
         (opt_u64 DPS_INVALID_LSN_OFFSET (t_related t)) None.

Definition op_view (op : logOp) (lsn : Z) : tview :=
  match op with
  | OpInsert _ _ t | OpUpdate _ _ _ _ _ _ _ t | OpDelete _ _ t | OpLobW _ t | OpLobU _ _ t | OpLobRm _ t =>
      tran_view (op_type op) lsn t
  | OpTransCommit i p f => mkView lsn LOG_TYPE_TS_COMMIT (Some i) (Some p) None (Some f)
  | _ => mkView lsn (op_type op) None None None None
  end.

Section reading.
Context (r : dpsLogRecord) (es : list elem) (Hr : holds r es).

Lemma look_u64_none t : first_val es t = None -> look_u64 r t = Ret None.
Proof. intros E. unfold look_u64. by rewrite (look_none r es Hr). Qed.

Lemma look_u64_some t v : first_val es t = Some (le_bytes 8 v) -> u_ok 64 v -> look_u64 r t = Ret (Some v).
Proof.
  intros E Hv. unfold look_u64. destruct (look_some r es Hr t _ E) as [m ->]. cbn [mbind outcome_bind].
  rewrite (as_uint_app 8) by done. cbn [mbind outcome_bind]. do 2 f_equal. by apply u_ok_mod.
Qed.

Lemma look_u64_opt t d v :
  first_val es t = (if d =? v then None else Some (le_bytes 8 v)) -> u_ok 64 v -> look_u64 r t = Ret (opt_u64 d v).
Proof. unfold opt_u64. destruct (d =? v); [auto using look_u64_none|auto using look_u64_some]. Qed.
End reading.

Lemma public_none es1 es2 t tag :
  first_val es1 tag = None -> first_val es2 tag = None ->
  first_val (es1 ++ tran_elems t ++ es2) tag = first_val (tran_elems t) tag.
Proof. intros H1 H2. rewrite !first_val_app, H1, H2. by destruct (first_val (tran_elems t) tag). Qed.

Lemma tran_no_first t : first_val (tran_elems t) DPS_LOG_PUBLIC_FIRSTTRANS = None.
Proof.
  apply first_val_none. unfold tran_elems. repeat (apply list.Forall_app; split); case_match; repeat constructor; done.
Qed.

Lemma holds_tran r es1 es2 t :
  holds r (es1 ++ tran_elems t ++ es2) -> tran_ok t ->
  Forall (fun e => e_tag e <= 201) es1 -> Forall (fun e => e_tag e <= 201) es2 ->
  record_view r = Ret (tran_view (_type (_head r)) (_lsn (_head r)) t).
Proof.
  intros Hr (H1 & H2 & H3) F1 F2.
  assert (Hno : forall tag es, 201 < tag -> Forall (fun e => e_tag e <= 201) es -> first_val es tag = None).
  { intros tag es Ht F. apply first_val_none. eapply list.Forall_impl; [exact F|]. cbn. intros. lia. }
  assert (Hv : forall tag, 201 < tag -> first_val (es1 ++ tran_elems t ++ es2) tag = first_val (tran_elems t) tag)
    by (intros; apply public_none; by apply Hno).
  destruct (first_val_public t) as (P1 & P2 & P3). pose proof (tran_no_first t) as P4.
  rewrite <- Hv in P1, P2, P3, P4 by done. unfold record_view.
  rewrite (look_u64_opt r _ Hr _ _ _ P1 H1), (look_u64_opt r _ Hr _ _ _ P2 H2), (look_u64_opt r _ Hr _ _ _ P3 H3).
  by rewrite (look_u64_none r _ Hr _ P4).
Qed.

Lemma holds_plain r es :
  holds r es -> Forall (fun e => e_tag e <= 201) es ->
  record_view r = Ret (mkView (_lsn (_head r)) (_type (_head r)) None None None None).
Proof.
  intros Hr F. pose proof (holds_tran r es [] (mkTran DPS_INVALID_TRANS_ID DPS_INVALID_LSN_OFFSET DPS_INVALID_LSN_OFFSET)) as H.
  change (tran_elems _) with ([] : list elem) in H. rewrite !app_nil_r in H. by apply H.
Qed.

Lemma holds_view woCompare bson_valid r op :
  holds r (elems_of woCompare op) -> op_ok bson_valid op -> _type (_head r) = op_type op ->
  record_view r = Ret (op_view op (_lsn (_head r))).
Proof.
  intros Hr Hop Hty.
  assert (Hk : forall ok nk, Forall (fun e => e_tag e <= 201) (key_elems woCompare ok nk)).
  { intros. unfold key_elems. destruct (_ || _); [constructor|]. constructor; [done|]. destruct (_ =? 0); repeat constructor; done. }
  destruct op; cbn [op_view elems_of op_ok op_type] in *; rewrite <- Hty; destruct_and? Hop;
    try (apply (holds_plain r _ Hr); try (case_match; cbn [app]); repeat constructor; done);
    try (rewrite <- (app_nil_r (tran_elems t)) in Hr; apply (holds_tran r _ [] t Hr); try done; repeat constructor; done).
  - apply (holds_tran r _ _ t Hr); try done. repeat constructor; done.
  - assert (E1 : first_val (elems_of woCompare (OpTransCommit id pre first)) DPS_LOG_PUBLIC_TRANSID = Some (le_bytes 8 id))
      by exact (f_equal Some (e_val_val _ _)).
    assert (E2 : first_val (elems_of woCompare (OpTransCommit id pre first)) DPS_LOG_PUBLIC_PRETRANS = Some (le_bytes 8 pre))
      by exact (f_equal Some (e_val_val _ _)).
    assert (E3 : first_val (elems_of woCompare (OpTransCommit id pre first)) DPS_LOG_PUBLIC_FIRSTTRANS = Some (le_bytes 8 first))
      by exact (f_equal Some (e_val_val _ _)).
    assert (E4 : first_val (elems_of woCompare (OpTransCommit id pre first)) DPS_LOG_PUBLIC_RELATED_TRANS = None) by done.
    cbn [elems_of] in *. unfold record_view.
    rewrite (look_u64_some r _ Hr _ id E1), (look_u64_some r _ Hr _ pre E2), (look_u64_none r _ Hr _ E4),
      (look_u64_some r _ Hr _ first E3) by done.
    cbn [mbind outcome_bind]. by rewrite Hty.
  - assert (Hr' : holds r ((lob_elems a ++ [ie DPS_LOG_LOB_PAGE_SIZE 4 (la_pageSize a)]) ++ tran_elems t ++ []))
      by (by rewrite app_nil_r, <- app_assoc).
    apply (holds_tran r _ [] t Hr'); try done; repeat constructor; done.
  - assert (Hr' : holds r ((lob_elems a ++ [ie DPS_LOG_LOB_OLD_LEN 4 (Z.of_nat (length old)); val_elem DPS_LOG_LOB_OLD_DATA old;
                      ie DPS_LOG_LOB_PAGE_SIZE 4 (la_pageSize a)]) ++ tran_elems t ++ []))
      by (by rewrite app_nil_r, <- app_assoc).
    apply (holds_tran r _ [] t Hr'); try done; repeat constructor; done.
  - assert (Hr' : holds r ((lob_elems a ++ [ie DPS_LOG_LOB_PAGE_SIZE 4 (la_pageSize a)]) ++ tran_elems t ++ []))
      by (by rewrite app_nil_r, <- app_assoc).
    apply (holds_tran r _ [] t Hr'); try done; repeat constructor; done.
Qed.

(** A record in memory shows its own elements. *)
Lemma rep_holds r es : rep r es -> Forall val_ok es -> holds r es.
Proof.
  intros Hr Hv. exists es. split; [done|]. clear Hr. induction Hv as [|e es (t & v & -> & Ht) Hv IH]; constructor; [|done].
  split; [done|]. split; [done|]. exists []. by rewrite app_nil_r, e_val_val.
Qed.

(** Every operation is encoded, and its record shows its place in a
    transaction whatever is put into the rest of its header. *)
Lemma encode_view woCompare bson_valid op :
  op_ok bson_valid op ->
  exists r, encode woCompare bson_valid op record_init = Some (SDB_OK, r) /\ _type (_head r) = op_type op /\
    forall h, _type h = op_type op -> record_view (with_head r h) = Ret (op_view op (_lsn h)).
Proof.
  intros Hop. destruct (encode_ok woCompare bson_valid op Hop) as (r & E & Hr & Hh). exists r. split; [done|].
  split; [by rewrite Hh|]. intros h Hty. apply (holds_view woCompare bson_valid (with_head r h) op); [|done|done].
  apply rep_holds; [by apply rep_with_head|apply elems_of_val].
Qed.

(** ** Ids *)

(** The part of an id that does not change: the counter and the node. *)
Definition new_id (nodeID cur : Z) : Z := Z.lor cur (Z.shiftl nodeID 48).

Lemma lor_bound n a b : 0 <= n -> 0 <= a < 2 ^ n -> 0 <= b < 2 ^ n -> 0 <= Z.lor a b < 2 ^ n.
Proof.
  intros Hn Ha Hb. assert (H0 : 0 <= Z.lor a b) by (apply Z.lor_nonneg; lia). split; [done|].
  destruct (decide (Z.lor a b = 0)) as [->|Hne]; [by apply Z.pow_pos_nonneg|].
  assert (Hlog : forall x, 0 <= x < 2 ^ n -> x = 0 \/ Z.log2 x < n).
  { intros x Hx. destruct (decide (x = 0)); [by left|right]. apply Z.log2_lt_pow2; lia. }
  destruct (decide (n = 0)) as [->|]; [assert (a = 0) by lia; assert (b = 0) by lia; by subst|].
  apply Z.log2_lt_pow2; [lia|]. rewrite Z.log2_lor by lia.
  destruct (Hlog a Ha) as [->|], (Hlog b Hb) as [->|]; cbn [Z.log2]; lia.
Qed.

Section new_ids.
Context (nodeID : Z) (Hn : 0 <= nodeID < 2 ^ 16).

Lemma node_bits m : Z.land (Z.shiftl (Z.ones 16) 48) m = 0 -> Z.land (Z.shiftl nodeID 48) m = 0.
Proof.
  intros H. rewrite <- (Z.mod_small nodeID (2 ^ 16)), <- Z.land_ones, Z.shiftl_land, <- Z.land_assoc, H by lia.
  apply Z.land_0_r.
Qed.

Lemma node_valid : Z.land (Z.shiftl nodeID 48) DPS_TRANSID_VALID_BIT = Z.shiftl nodeID 48.
Proof.
  rewrite <- (Z.mod_small nodeID (2 ^ 16)), <- Z.land_ones, Z.shiftl_land, <- Z.land_assoc by lia. done.
Qed.

Lemma counter_land cur m : 0 <= cur < 2 ^ 40 -> Z.land (Z.ones 40) m = Z.ones 40 -> Z.land cur m = cur.
Proof. intros Hc H. rewrite <- (Z.mod_small cur (2 ^ 40)) by lia. rewrite <- Z.land_ones, <- Z.land_assoc, H by lia. done. Qed.

Lemma new_id_plain cur : 0 < cur < 2 ^ 40 -> plain_id (new_id nodeID cur).
Proof.
  intros Hc. split.
  - assert (0 <= new_id nodeID cur) by (apply Z.lor_nonneg; split; [lia|apply Z.shiftl_nonneg; lia]).
    assert (new_id nodeID cur <> 0) by (unfold new_id; rewrite Z.lor_eq_0_iff; lia). lia.
  - unfold getTransID, new_id. rewrite Z.land_lor_distr_l, node_valid, counter_land; done || lia.
Qed.

Lemma new_id_inj cur cur' : 0 <= cur < 2 ^ 40 -> 0 <= cur' < 2 ^ 40 -> new_id nodeID cur = new_id nodeID cur' -> cur = cur'.
Proof.
  intros Hc Hc' E. apply (f_equal (fun x => Z.land x (Z.ones 40))) in E. unfold new_id in E.
  rewrite !Z.land_lor_distr_l, !node_bits, !Z.lor_0_r, !counter_land in E by (done || lia). done.
Qed.

Lemma new_id_bound cur m : 0 < cur < 2 ^ 40 -> 0 <= m < 2 ^ 64 -> 0 <= Z.lor (new_id nodeID cur) m < 2 ^ 64.
Proof.
  intros Hc Hm. assert (0 <= Z.shiftl nodeID 48 < 2 ^ 64) by (rewrite Z.shiftl_mul_pow2; lia).
  unfold new_id. apply lor_bound; [lia| |done]. apply lor_bound; lia.
Qed.
End new_ids.

(** [allocTransID] gives the next id with the tag of a first operation. *)
Lemma alloc_ok cb nodeID :
  0 <= nodeID < 2 ^ 16 -> _TransIDH16 cb = Z.shiftl nodeID 48 -> 0 < _TransIDL48Cur cb < 2 ^ 40 ->
  allocTransID cb = Some (Z.lor (new_id nodeID (_TransIDL48Cur cb)) DPS_TRANSID_FIRSTOP_BIT,
                          with_ids cb (_TransIDH16 cb) (_TransIDL48Cur cb + 1)).
Proof.
  intros Hn Hh Hc. unfold allocTransID, alloc_loop. change (0 =? 0) with true. cbv iota. rewrite Hh, (counter_land _ DPS_TRANSID_SN_BIT) by (done || lia).
  fold (new_id nodeID (_TransIDL48Cur cb)).
  destruct (Z.eqb_spec 0 (Z.lor (new_id nodeID (_TransIDL48Cur cb)) DPS_TRANSID_FIRSTOP_BIT)) as [E|].
  - symmetry in E. apply Z.lor_eq_0_iff in E as [_ E]. done.
  - unfold u64. by rewrite Z.mod_small by lia.
Qed.
