(* ===== verification/RtnTrans.v ===== *)
(** * Transactions of sessions

    Models [rtn/rtnTransaction.cpp] and the part of [dps/dpsLogWrapper.cpp]
    that a session runs when it logs a change: beginning, committing and
    rolling back a transaction, and the rollback of all unfinished
    transactions by a new primary.

    The log is the list of its records: the records of a run of the log
    buffer form one chain in the order of their LSNs, and [search] finds the
    record at an LSN.  What [preparePages] puts into a header is a [stamp].
    A replay ([_clsReplayer::rollback]) undoes a change in the storage and
    logs that as a change of its own, or fails; which of them, and what it
    logs, is an argument.  The locks of the sessions are the class
    [TransLocks].  [None] is a dangling iterator, a read outside of a record,
    or a list of answers that is too short. *)

From stdpp Require Import base gmap list option.
From Stdlib Require Import ZArith Lia.
From S2P Require Import Prelude DpsLsn Mem DpsRecord DpsOp2Record DpsOp2Thms DpsTrans.

Open Scope Z_scope.

Definition SDB_DPS_TRANS_DIABLED : Z := -253.
Definition SDB_CLS_NOT_PRIMARY : Z := -104.
Definition RTN_TRANS_ROLLBACK_RETRY_TIMES : Z := 20.

(** The locks of all sessions, and giving back those of one. *)
Class TransLocks := { locks : Type; lk_releaseAll : Z -> locks -> locks }.

(** ** State *)

(** The part of [_pmdEDUCB] that transactions use. *)
Record session : Set := mkSession {
  _curTransID : Z;
  _curTransLSN : Z;
  _relatedTransLSN : Z;
  _isDoRollback : bool
}.

Definition session_new : session :=
  mkSession DPS_INVALID_TRANS_ID DPS_INVALID_LSN_OFFSET DPS_INVALID_LSN_OFFSET false.

Definition setTransID (ses : session) (transID : Z) : session :=
  mkSession transID (_curTransLSN ses) (_relatedTransLSN ses) (_isDoRollback ses).
Definition setCurTransLsn (ses : session) (lsn : Z) : session :=
  mkSession (_curTransID ses) lsn (_relatedTransLSN ses) (_isDoRollback ses).
Definition setRelatedTransLSN (ses : session) (lsn : Z) : session :=
  mkSession (_curTransID ses) (_curTransLSN ses) lsn (_isDoRollback ses).
Definition setDoRollback (ses : session) (b : bool) : session :=
  mkSession (_curTransID ses) (_curTransLSN ses) (_relatedTransLSN ses) b.

(** A change that a transaction can make, without its place in it. *)
Inductive change : Set :=
  | Insert (name obj : list Z)
  | Update (name oldMatch oldObj newMatch newObj oldKey newKey : list Z)
  | Delete (name obj : list Z).

Definition change_op (d : change) (t : tran) : logOp :=
  match d with
  | Insert n o => OpInsert n o t
  | Update n om oo nm no ok nk => OpUpdate n om oo nm no ok nk t
  | Delete n o => OpDelete n o t
  end.

(** What [preparePages] puts into the header. *)
Record stamp : Set := mkStamp { st_lsn : Z; st_preLsn : Z; st_length : Z; st_version : Z }.

Definition stamped (r : dpsLogRecord) (st : stamp) : dpsLogRecord :=
  let h := _head r in
  with_head r (mkHead (st_lsn st) (st_preLsn st) (st_length st) (st_version st) (_type h) (_reserved1 h) (_reserved2 h)).

(** The answer of a replay: an error, or the change it logged. *)
Inductive replayed : Set :=
  | Failed (rc : Z)
  | Undone (d : change) (st : stamp).

Section transactions.
Context {Locks : TransLocks}.
Context (woCompare : list Z -> list Z -> Z) (bson_valid : list Z -> bool).

Record tnode : Type := mkTNode {
  tn_cb : dpsTransCB;
  tn_sessions : gmap Z session;
  tn_locks : locks;
  tn_log : list dpsLogRecord
}.

Definition ses (s : tnode) (edu : Z) : session := default session_new (tn_sessions s !! edu).
Definition set_ses (s : tnode) (edu : Z) (x : session) : tnode :=
  mkTNode (tn_cb s) (<[edu := x]> (tn_sessions s)) (tn_locks s) (tn_log s).
Definition set_cb (s : tnode) (cb : dpsTransCB) : tnode := mkTNode cb (tn_sessions s) (tn_locks s) (tn_log s).

Definition to_option {A} (o : outcome A) : option A := match o with Ret a => Some a | _ => None end.

(** [transLockReleaseAll] *)
Definition transLockReleaseAll (s : tnode) (edu : Z) : tnode :=
  if negb (_isOn (tn_cb s)) then s
  else mkTNode (tn_cb s) (tn_sessions s) (lk_releaseAll edu (tn_locks s)) (tn_log s).

(** ** Logging *)

(** [_dpsReplicaLogMgr::writeData], on the list of the records. *)
Definition buf_writeData (node : nodeState) (s : tnode) (r : dpsLogRecord) : option tnode :=
  let s := mkTNode (tn_cb s) (tn_sessions s) (tn_locks s) (tn_log s ++ [r]) in
  if _isOn (tn_cb s) && negb (n_inRestore node)
  then cb ← to_option (saveTransInfoFromLog node (tn_cb s) r); Some (set_cb s cb)
  else Some s.

(** [_dpsLogWrapper::writeData] *)
Definition wrapper_writeData (node : nodeState) (transEnabled : bool) (edu : Z) (s : tnode) (r : dpsLogRecord)
    : option tnode :=
  s ← buf_writeData node s r;
  let x := ses s edu in
  if transEnabled && negb (DPS_INVALID_TRANS_ID =? _curTransID x) then
    let transID := _curTransID x in
    let x := setCurTransLsn x (_lsn (_head r)) in
    Some (set_ses s edu (if isFirstOp transID then setTransID x (clearFirstOpTag transID) else x))
  else Some s.

(** The logging of a changed record, with the transaction of the session;
    [prepared] is what [prepare] returns: an error or the stamp of the
    record. *)
Definition log_change (node : nodeState) (edu : Z) (s : tnode) (d : change) (prepared : Z + stamp)
    : option (Z * tnode) :=
  let x := ses s edu in
  '(rc, r) ← encode woCompare bson_valid
               (change_op d (mkTran (_curTransID x) (_curTransLSN x) (_relatedTransLSN x))) record_init;
  if negb (rc =? SDB_OK) then Some (rc, s)
  else
    match prepared with
    | inl rc => Some (rc, s)
    | inr st => s ← wrapper_writeData node true edu s (stamped r st); Some (SDB_OK, s)
    end.

(** [search] and [record.load] *)
Definition log_search (log : list dpsLogRecord) (lsn : Z) : option dpsLogRecord :=
  snd <$> list_find (fun r => _lsn (_head r) = lsn) log.

(** ** Begin and commit *)

Definition rtnTransBegin (edu : Z) (s : tnode) : option (Z * tnode) :=
  if negb (_isOn (tn_cb s)) then Some (SDB_DPS_TRANS_DIABLED, s)
  else
    let x := ses s edu in
    if _curTransID x =? DPS_INVALID_TRANS_ID then
      '(transID, cb) ← allocTransID (tn_cb s);
      let x := setCurTransLsn (setTransID x transID) DPS_INVALID_LSN_OFFSET in
      Some (SDB_OK, set_cb (set_ses s edu x) (addTransCB cb transID edu))
    else Some (SDB_OK, s).

Definition rtnTransCommit (node : nodeState) (edu : Z) (prepared : Z + stamp) (s : tnode) : option (Z * tnode) :=
  let x := ses s edu in
  let curTransID := _curTransID x in
  let preTransLsn := _curTransLSN x in
  if (curTransID =? DPS_INVALID_TRANS_ID) || (preTransLsn =? DPS_INVALID_LSN_OFFSET) then
    let s := set_cb s (delTransCB (tn_cb s) curTransID) in
    Some (SDB_OK, transLockReleaseAll (set_ses s edu (setTransID x DPS_INVALID_TRANS_ID)) edu)
  else
    let firstTransLsn := getBeginLsn (tn_cb s) curTransID in
    '(rc, r) ← encode woCompare bson_valid (OpTransCommit curTransID preTransLsn firstTransLsn) record_init;
    if negb (rc =? SDB_OK) then Some (rc, s)
    else
      match prepared with
      | inl rc => Some (rc, s)
      | inr st =>
          s ← wrapper_writeData node false edu s (stamped r st);
          let s := set_cb s (delTransCB (tn_cb s) curTransID) in
          let x := setCurTransLsn (setTransID (ses s edu) DPS_INVALID_TRANS_ID) DPS_INVALID_LSN_OFFSET in
          Some (SDB_OK, transLockReleaseAll (set_ses s edu x) edu)
      end.

(** ** Rollback of one transaction *)

(** Where a rollback stands: [transID], [curLsnOffset] and [retryTimes]. *)
Record rollbacking : Set := mkRollback { rb_transID : Z; rb_cur : Z; rb_retry : Z }.

(** The next round after a replay that returned [rc], or the return code of
    the function and whether the node is restarted. *)
Inductive round_result : Type :=
  | Again (rc : Z) (rb : rollbacking) (s : tnode)
  | Stop (rc : Z) (restart : bool) (s : tnode).

(** From the beginning to the loop; nothing when there is nothing to undo. *)
Definition rollback_start (edu : Z) (s : tnode) : option rollbacking * tnode :=
  let x := setDoRollback (ses s edu) true in
  let s := set_ses s edu x in
  let transID := _curTransID x in
  let curLsnOffset := _curTransLSN x in
  if (DPS_INVALID_TRANS_ID =? transID) || (DPS_INVALID_LSN_OFFSET =? curLsnOffset) then (None, s)
  else (Some (mkRollback transID curLsnOffset 0), set_ses s edu (setTransID x (getRollbackID transID))).

(** The undoing of the record [record] at [lsn]: the LSN before it is
    published, the replay runs, and counts when it fails. *)
Definition undo_record (node : nodeState) (edu : Z) (a : replayed) (rb : rollbacking) (record : dpsLogRecord) (s : tnode)
    : option round_result :=
  pre ← to_option (look_u64 record DPS_LOG_PUBLIC_PRETRANS);
  let curLsnOffset := default DPS_INVALID_LSN_OFFSET pre in
  let s := set_ses s edu (setCurTransLsn (setRelatedTransLSN (ses s edu) (rb_cur rb)) curLsnOffset) in
  '(rc, s) ← match a with
             | Failed rc => Some (rc, s)
             | Undone d st => log_change node edu s d (inr st)
             end;
  if negb (rc =? SDB_OK) then
    let retryTimes := rb_retry rb + 1 in
    if RTN_TRANS_ROLLBACK_RETRY_TIMES <=? retryTimes then Some (Stop rc true s)
    else Some (Again rc (mkRollback (rb_transID rb) (_relatedTransLSN (ses s edu)) retryTimes) s)
  else Some (Again SDB_OK (mkRollback (rb_transID rb) curLsnOffset 0) s).

(** One round of the loop of [rtnTransRollback]. *)
Definition rollback_round (node : nodeState) (edu : Z) (a : replayed) (rb : rollbacking) (s : tnode)
    : option round_result :=
  match log_search (tn_log s) (rb_cur rb) with
  | None => Some (Stop SDB_DPS_LOG_NOT_IN_FILE false s)
  | Some record =>
      i ← to_option (look_u64 record DPS_LOG_PUBLIC_TRANSID);
      match i with
      | None => Some (Stop SDB_SYS false s)
      | Some id =>
          if negb (getTransID id =? rb_transID rb) then Some (Stop SDB_DPS_CORRUPTED_LOG false s)
          else if n_cls node && negb (n_primary node) then
            Some (Stop SDB_CLS_NOT_PRIMARY false (set_cb s (addTransInfo (tn_cb s) (rb_transID rb) (rb_cur rb))))
          else undo_record node edu a rb record s
      end
  end.

(** What follows [done]. *)
Definition rollback_done (edu transID : Z) (s : tnode) : tnode :=
  let s := set_cb s (delTransCB (tn_cb s) transID) in
  let x := setRelatedTransLSN (setCurTransLsn (setTransID (ses s edu) DPS_INVALID_TRANS_ID) DPS_INVALID_LSN_OFFSET)
             DPS_INVALID_LSN_OFFSET in
  let s := transLockReleaseAll (set_ses s edu x) edu in
  set_ses s edu (setDoRollback (ses s edu) false).

(** The loop, with the answers of the replays. *)
Fixpoint rollback_loop (node : nodeState) (edu : Z) (answers : list replayed) (rb : rollbacking) (s : tnode)
    : option (Z * tnode) :=
  if rb_cur rb =? DPS_INVALID_LSN_OFFSET then Some (SDB_OK, s)
  else
    match answers with
    | [] => None
    | a :: answers' =>
        x ← rollback_round node edu a rb s;
        match x with
        | Again _ rb s => rollback_loop node edu answers' rb s
        | Stop rc _ s => Some (rc, s)
        end
    end.

Definition rtnTransRollback (node : nodeState) (edu : Z) (answers : list replayed) (s : tnode) : option (Z * tnode) :=
  let transID := _curTransID (ses s edu) in
  let '(rb, s) := rollback_start edu s in
  '(rc, s) ← match rb with Some rb => rollback_loop node edu answers rb s | None => Some (SDB_OK, s) end;
  Some (rc, rollback_done edu transID s).

(** ** Rollback of all transactions *)

(** How the inner loop ends: with an error of the whole function, or with a
    return code behind its end. *)
Inductive inner_end : Type :=
  | Broken (rc : Z) (s : tnode)
  | Ended (rc retry : Z) (s : tnode) (answers : list replayed).

(** [iterMap->second = curLsnOffset] and [pTransMap->erase( iterMap )] *)
Definition iter_set (s : tnode) (transID lsn : Z) : option tnode :=
  _ ← _TransMap (tn_cb s) !! transID;
  Some (set_cb s (with_TransMap (tn_cb s) (<[transID := lsn]> (_TransMap (tn_cb s))))).

Definition iter_erase (s : tnode) (transID : Z) : option tnode :=
  _ ← _TransMap (tn_cb s) !! transID;
  Some (set_cb s (with_TransMap (tn_cb s) (delete transID (_TransMap (tn_cb s))))).

(** The inner loop; [rc] is what the last call returned. *)
Fixpoint all_inner (node : nodeState) (edu : Z) (answers : list replayed) (rb : rollbacking) (rc : Z) (s : tnode)
    : option inner_end :=
  if rb_cur rb =? DPS_INVALID_LSN_OFFSET then Some (Ended rc (rb_retry rb) s answers)
  else if negb (_doRollback (tn_cb s)) then Some (Broken SDB_INTERRUPT s)
  else
    match answers with
    | [] => None
    | a :: answers' =>
        match log_search (tn_log s) (rb_cur rb) with
        | None => Some (Ended SDB_DPS_LOG_NOT_IN_FILE (rb_retry rb) s answers)
        | Some record =>
            i ← to_option (look_u64 record DPS_LOG_PUBLIC_TRANSID);
            match i with
            | None => Some (Ended SDB_SYS (rb_retry rb) s answers)
            | Some id =>
                if negb (rb_transID rb =? getTransID id) then Some (Ended SDB_OK (rb_retry rb) s answers)
                else
                  x ← undo_record node edu a rb record s;
                  match x with
                  | Stop rc _ s => Some (Broken rc s)
                  | Again rc rb' s =>
                      s ← (if rc =? SDB_OK then iter_set s (rb_transID rb) (rb_cur rb') else Some s);
                      all_inner node edu answers' rb' rc s
                  end
            end
        end
    end.

(** The outer loop: every transaction of the table, in the order of the ids. *)
Fixpoint all_loop (fuel : nat) (node : nodeState) (edu : Z) (answers : list replayed) (retry rc : Z) (s : tnode)
    : option (Z * tnode) :=
  match first_key (_TransMap (tn_cb s)) with
  | None => Some (rc, s)
  | Some transID =>
      match fuel with
      | O => None
      | S fuel' =>
          curLsnOffset ← _TransMap (tn_cb s) !! transID;
          let s := set_ses s edu (setTransID (ses s edu) (getRollbackID transID)) in
          e ← all_inner node edu answers (mkRollback transID curLsnOffset retry) rc s;
          match e with
          | Broken rc s => Some (rc, s)
          | Ended rc retry s answers => s ← iter_erase s transID; all_loop fuel' node edu answers retry rc s
          end
      end
  end.

Definition rtnTransRollbackAll (node : nodeState) (edu : Z) (answers : list replayed) (s : tnode) : option (Z * tnode) :=
  let s := set_ses s edu (setDoRollback (ses s edu) true) in
  '(rc, s) ← all_loop (size (_TransMap (tn_cb s))) node edu answers 0 SDB_OK s;
  let s := transLockReleaseAll s edu in
  let s := set_cb s (stopRollbackTask (tn_cb s)) in
  Some (rc, set_ses s edu (setDoRollback (ses s edu) false)).
End transactions.
