(* ===== verification/RtnTransRun.v ===== *)
(** * Transactions of sessions: runs

    Sessions of a primary that begin, change, commit and roll back in any
    order, with their rollbacks interleaved round by round, as a system of
    steps; and an invariant of every run: the records of the log are a
    history, and each session stands at the top of the stack of its
    transaction. *)

From stdpp Require Import base gmap list option.
From Stdlib Require Import ZArith Lia.
From S2P Require Import Prelude DpsLsn Mem DpsRecord DpsRecordFacts DpsOp2Record DpsOp2Thms DpsOp2Trip.
From S2P Require Import DpsTrans DpsTransFacts DpsTransView RtnTrans.

Open Scope Z_scope.

(** A step; [AOther] is an operation outside of transactions, [ARound] one
    round of a rollback with the answer of the replay. *)
Inductive taction : Set :=
  | ABegin (edu : Z)
  | AChange (edu : Z) (d : change) (prepared : Z + stamp)
  | AOther (op : logOp) (st : stamp)
  | ACommit (edu : Z) (prepared : Z + stamp)
  | AStart (edu : Z)
  | ARound (edu : Z) (a : replayed)
  | AEnd (edu : Z).

(** Operations that are never part of a transaction. *)
Definition outside (op : logOp) : bool :=
  match op with
  | OpInsert _ _ _ | OpUpdate _ _ _ _ _ _ _ _ | OpDelete _ _ _ | OpTransCommit _ _ _ => false
  | OpLobW _ t | OpLobU _ _ t | OpLobRm _ t => t_id t =? DPS_INVALID_TRANS_ID
  | _ => true
  end.

Section run.
Context {Locks : TransLocks}.
Context (woCompare : list Z -> list Z -> Z) (bson_valid : list Z -> bool) (node : nodeState).

Record trun : Type := mkTRun { tr_node : tnode; tr_rbs : gmap Z rollbacking }.

(** LSNs grow. *)
Definition stamp_ok (s : trun) (st : stamp) : bool :=
  forallb (fun r => _lsn (_head r) <? st_lsn st) (tn_log (tr_node s)) &&
  (0 <=? st_lsn st) && (st_lsn st <? DPS_INVALID_LSN_OFFSET).

Definition idle (s : trun) (edu : Z) : bool := bool_decide (tr_rbs s !! edu = None).

(** The steps that can happen. *)
Definition enabled (s : trun) (a : taction) : bool :=
  match a with
  | ABegin edu | AStart edu => idle s edu
  | AOther op st => outside op && stamp_ok s st
  | AChange edu _ prepared | ACommit edu prepared => idle s edu && match prepared with inl _ => true | inr st => stamp_ok s st end
  | ARound edu a =>
      match tr_rbs s !! edu with
      | Some rb => negb (rb_cur rb =? DPS_INVALID_LSN_OFFSET)
      | None => false
      end && match a with Failed _ => true | Undone _ st => stamp_ok s st end
  | AEnd edu => match tr_rbs s !! edu with Some rb => rb_cur rb =? DPS_INVALID_LSN_OFFSET | None => false end
  end.

Definition with_node (s : trun) (n : tnode) : trun := mkTRun n (tr_rbs s).

Definition ended (s : trun) (edu : Z) (rb : rollbacking) (n : tnode) : trun :=
  mkTRun (rollback_done edu (rb_transID rb) n) (delete edu (tr_rbs s)).

Definition tstep (s : trun) (a : taction) : option trun :=
  if negb (enabled s a) then Some s
  else
    let n := tr_node s in
    match a with
    | ABegin edu => '(_, n) ← rtnTransBegin edu n; Some (with_node s n)
    | AChange edu d prepared => '(_, n) ← log_change woCompare bson_valid node edu n d prepared; Some (with_node s n)
    | AOther op st =>
        '(_, r) ← encode woCompare bson_valid op record_init;
        n ← buf_writeData node n (stamped r st); Some (with_node s n)
    | ACommit edu prepared => '(_, n) ← rtnTransCommit woCompare bson_valid node edu prepared n; Some (with_node s n)
    | AStart edu =>
        let transID := _curTransID (ses n edu) in
        let '(rb, n) := rollback_start edu n in
        match rb with
        | Some rb => Some (mkTRun n (<[edu := rb]> (tr_rbs s)))
        | None => Some (with_node s (rollback_done edu transID n))
        end
    | ARound edu a =>
        rb ← tr_rbs s !! edu;
        x ← rollback_round woCompare bson_valid node edu a rb n;
        match x with
        | Again _ rb n => Some (mkTRun n (<[edu := rb]> (tr_rbs s)))
        | Stop _ _ n => Some (ended s edu rb n)
        end
    | AEnd edu => rb ← tr_rbs s !! edu; Some (ended s edu rb n)
    end.

Fixpoint trun_all (s : trun) (acts : list taction) : option trun :=
  match acts with
  | [] => Some s
  | a :: acts' => s ← tstep s a; trun_all s acts'
  end.

(** ** What the steps need *)

Definition change_ok (d : change) : Prop := forall t, tran_ok t -> op_ok bson_valid (change_op d t).

Definition action_ok (a : taction) : Prop :=
  match a with
  | AChange _ d _ | ARound _ (Undone d _) => change_ok d
  | AOther op _ => op_ok bson_valid op
  | _ => True
  end.

(** A primary in normal operation. *)
Definition primary : Prop := n_inRestore node = false /\ n_cls node && n_primary node = true.
End run.

(** ** The log *)

Definition logged (r : dpsLogRecord) (v : tview) : Prop := record_view r = Ret v.

Record log_inv {Locks : TransLocks} (n : tnode) (vs : list tview) (o : opens) : Prop := {
  li_views : Forall2 logged (tn_log n) vs;
  li_hist : history vs o;
  li_begins : bg_from 0 (tn_cb n) o;
  li_on : _isOn (tn_cb n) = true
}.

(** What saving a record leaves as it was. *)
Record same_ids (cb cb' : dpsTransCB) : Prop := {
  si_high : _TransIDH16 cb' = _TransIDH16 cb;
  si_cur : _TransIDL48Cur cb' = _TransIDL48Cur cb;
  si_cbs : _cbMap cb' = _cbMap cb;
  si_on : _isOn cb' = _isOn cb;
  si_do : _doRollback cb' = _doRollback cb
}.

Lemma same_ids_refl cb : same_ids cb cb.
Proof. by constructor. Qed.

Lemma same_ids_trans cb1 cb2 cb3 : same_ids cb1 cb2 -> same_ids cb2 cb3 -> same_ids cb1 cb3.
Proof. intros [] []. constructor; congruence. Qed.

Lemma same_update node cb id l : same_ids cb (updateTransInfo node cb id l).
Proof. unfold updateTransInfo. repeat case_match; by constructor. Qed.

Lemma same_del cb id : same_ids cb (delBeginLsn cb id).
Proof. unfold delBeginLsn. case_match; by constructor. Qed.

Lemma same_add cb l id : same_ids cb (addBeginLsn cb l id).
Proof. by constructor. Qed.

Lemma same_save node cb v : same_ids cb (save_view node cb v).
Proof.
  unfold save_view. repeat case_match; try apply same_ids_refl; (eapply same_ids_trans; [|apply same_update]);
    try apply same_ids_refl; try apply same_del; try apply same_add. eapply same_ids_trans; [apply same_add|apply same_del].
Qed.

Lemma save_primary_map node cb v :
  n_cls node && n_primary node = true -> _TransMap (save_view node cb v) = _TransMap cb.
Proof.
  intros Hp. unfold save_view. repeat case_match; try done; rewrite ?update_primary, ?delBegin_map by done; done.
Qed.

Lemma spec_step_ne o v t : (forall id, v_trans v = Some id -> getTransID id <> t) -> spec_step o v !! t = o !! t.
Proof.
  intros H. unfold spec_step. destruct (v_trans v) as [id|]; [|done]. specialize (H id eq_refl).
  repeat case_match; by rewrite ?lookup_insert_ne, ?lookup_delete_ne by done.
Qed.

Lemma logged_lsns log vs x :
  Forall2 logged log vs -> forallb (fun r => _lsn (_head r) <? x) log = true -> Forall (fun u => v_lsn u < x) vs.
Proof.
  induction 1 as [|r v log vs Hv _ IH]; cbn [forallb]; [done|]. intros [H1 H2]%andb_true_iff. constructor; [|auto].
  apply record_view_inv in Hv as (_ & _ & _ & _ & E & _). lia.
Qed.

Section steps.
Context {Locks : TransLocks}.
Context (woCompare : list Z -> list Z -> Z) (bson_valid : list Z -> bool) (node : nodeState).
Context (Hprim : primary node).

Lemma write_ok n vs o r v :
  log_inv n vs o -> record_view r = Ret v -> view_ok o v -> Forall (fun u => v_lsn u < v_lsn v) vs ->
  0 <= v_lsn v < DPS_INVALID_LSN_OFFSET ->
  exists cb, buf_writeData node n r = Some (mkTNode cb (tn_sessions n) (tn_locks n) (tn_log n ++ [r])) /\
    log_inv (mkTNode cb (tn_sessions n) (tn_locks n) (tn_log n ++ [r])) (vs ++ [v]) (spec_step o v) /\
    same_ids (tn_cb n) cb /\ _TransMap cb = _TransMap (tn_cb n).
Proof.
  intros [H1 H2 H3 H4] Hr Hv Hlt Hb. exists (save_view node (tn_cb n) v). destruct Hprim as [P1 P2].
  unfold buf_writeData. cbn [tn_cb]. rewrite H4, P1, (save_of_view node _ _ _ Hr). cbn [negb andb to_option mbind option_bind].
  split; [done|]. split; [|split; [apply same_save|by apply save_primary_map]].
  constructor; cbn [tn_cb tn_log]; [by apply Forall2_app, Forall2_cons|by constructor|by eapply save_begins|].
  by rewrite (si_on _ _ (same_save _ _ _)).
Qed.
End steps.
