(* ===== verification/RtnTransInv.v ===== *)
(** * Transactions of sessions: the invariant of runs *)

From stdpp Require Import base gmap list option.
From Stdlib Require Import ZArith Lia.
From S2P Require Import Prelude DpsLsn Mem DpsRecord DpsRecordFacts DpsOp2Record DpsOp2Thms DpsOp2Trip.
From S2P Require Import DpsTrans DpsTransFacts DpsTransView RtnTrans RtnTransRun.

Open Scope Z_scope.

Section invariant.
Context {Locks : TransLocks}.
Context (woCompare : list Z -> list Z -> Z) (bson_valid : list Z -> bool) (node : nodeState) (Hprim : primary node).
Context (nodeID : Z) (HnodeID : 0 <= nodeID < 2 ^ 16).

Abbreviation INV := DPS_INVALID_LSN_OFFSET.
Abbreviation tid := (new_id nodeID).

(** Where a session stands: outside of a transaction, before its first
    change, behind its last change, or in a rollback. *)
Inductive ses_ok (o : opens) (cur : Z) (x : session) : option rollbacking -> Prop :=
  | SesNone : _curTransID x = DPS_INVALID_TRANS_ID -> _curTransLSN x = INV -> _relatedTransLSN x = INV -> ses_ok o cur x None
  | SesNew k : 0 < k < cur -> _curTransID x = Z.lor (tid k) DPS_TRANSID_FIRSTOP_BIT -> _curTransLSN x = INV ->
      _relatedTransLSN x = INV -> o !! tid k = None -> ses_ok o cur x None
  | SesOpen k l st : 0 < k < cur -> _curTransID x = tid k -> _curTransLSN x = l -> _relatedTransLSN x = INV ->
      o !! tid k = Some (l :: st) -> ses_ok o cur x None
  | SesBack k rb : 0 < k < cur -> _curTransID x = getRollbackID (tid k) -> rb_transID rb = tid k ->
      (o !! tid k = None /\ rb_cur rb = INV \/ exists st, o !! tid k = Some (rb_cur rb :: st)) -> ses_ok o cur x (Some rb).

Definition in_trans (x : session) : Prop := _curTransID x <> DPS_INVALID_TRANS_ID.
Definition sid (x : session) : Z := getTransID (_curTransID x).

Record tinv (s : trun) (vs : list tview) (o : opens) : Prop := {
  ti_log : log_inv (tr_node s) vs o;
  ti_high : _TransIDH16 (tn_cb (tr_node s)) = Z.shiftl nodeID 48;
  ti_cur : 0 < _TransIDL48Cur (tn_cb (tr_node s)) < 2 ^ 40;
  ti_ses edu : ses_ok o (_TransIDL48Cur (tn_cb (tr_node s))) (ses (tr_node s) edu) (tr_rbs s !! edu);
  ti_distinct e e' : e <> e' -> in_trans (ses (tr_node s) e) -> in_trans (ses (tr_node s) e') ->
    sid (ses (tr_node s) e) <> sid (ses (tr_node s) e');
  ti_open t st : o !! t = Some st -> exists k, 0 < k < _TransIDL48Cur (tn_cb (tr_node s)) /\ t = tid k
}.

Lemma tid_plain k cur : 0 < k < cur -> cur < 2 ^ 40 -> plain_id (tid k).
Proof. intros. apply new_id_plain; [done|lia]. Qed.

Lemma ses_sid o cur x rb : cur < 2 ^ 40 -> ses_ok o cur x rb -> in_trans x -> exists k, 0 < k < cur /\ sid x = tid k.
Proof.
  intros Hc H Hx. unfold sid, in_trans in *. destruct H as [E|k Hk E|k l st Hk E|k rb Hk E]; [done|..];
    exists k; (split; [done|]); rewrite E; pose proof (tid_plain k cur Hk Hc) as Hp.
  - by apply first_id.
  - by apply Hp.
  - by apply rollback_id.
Qed.

(** A session is not touched by the transactions of others. *)
Lemma ses_frame o o' cur cur' x rb :
  cur < 2 ^ 40 -> cur <= cur' -> (in_trans x -> o' !! sid x = o !! sid x) -> ses_ok o cur x rb -> ses_ok o' cur' x rb.
Proof.
  intros Hc Hle Hf H. pose proof H as H'. revert Hf. unfold sid, in_trans.
  destruct H as [E E1 E2|k Hk E E1 E2 Ho|k l st Hk E E1 E2 Ho|k rb Hk E E1 Ho]; intros Hf; [by apply SesNone|..];
    pose proof (tid_plain k cur Hk Hc) as Hp; rewrite E in Hf.
  - rewrite first_id in Hf by done. rewrite <- Hf in Ho by (by apply tagged_nonzero). apply (SesNew _ _ _ k); try done; lia.
  - rewrite (proj2 Hp) in Hf. rewrite <- Hf in Ho by (destruct Hp; unfold DPS_INVALID_TRANS_ID; lia). apply (SesOpen _ _ _ k l st); try done; lia.
  - rewrite rollback_id in Hf by done. rewrite <- Hf in Ho by (by apply tagged_nonzero). apply (SesBack _ _ _ k); try done; lia.
Qed.

(** One session goes on. *)
Lemma tinv_step s vs o s' vs' o' edu :
  tinv s vs o -> log_inv (tr_node s') vs' o' ->
  _TransIDH16 (tn_cb (tr_node s')) = _TransIDH16 (tn_cb (tr_node s)) ->
  _TransIDL48Cur (tn_cb (tr_node s)) <= _TransIDL48Cur (tn_cb (tr_node s')) < 2 ^ 40 ->
  (forall e, e <> edu -> ses (tr_node s') e = ses (tr_node s) e /\ tr_rbs s' !! e = tr_rbs s !! e) ->
  ses_ok o' (_TransIDL48Cur (tn_cb (tr_node s'))) (ses (tr_node s') edu) (tr_rbs s' !! edu) ->
  (forall t, o' !! t = o !! t \/ in_trans (ses (tr_node s) edu) /\ t = sid (ses (tr_node s) edu)) ->
  (in_trans (ses (tr_node s') edu) ->
     in_trans (ses (tr_node s) edu) /\ sid (ses (tr_node s') edu) = sid (ses (tr_node s) edu) \/
     sid (ses (tr_node s') edu) = tid (_TransIDL48Cur (tn_cb (tr_node s)))) ->
  tinv s' vs' o'.
Proof.
  intros H Hl Hh Hcur Hoth Hses Ho Hid. pose proof (ti_cur _ _ _ H) as Hc0.
  assert (Hframe : forall e, e <> edu -> in_trans (ses (tr_node s) e) -> o' !! sid (ses (tr_node s) e) = o !! sid (ses (tr_node s) e)).
  { intros e He Hx. destruct (Ho (sid (ses (tr_node s) e))) as [E|[Hi E]]; [done|].
    exfalso. by apply (ti_distinct _ _ _ H e edu He Hx Hi). }
  assert (Hnew : forall e, e <> edu -> in_trans (ses (tr_node s) e) -> in_trans (ses (tr_node s') edu) ->
            sid (ses (tr_node s) e) <> sid (ses (tr_node s') edu)).
  { intros e He Hx Hx'. destruct (Hid Hx') as [[Hi ->]| ->]; [by apply (ti_distinct _ _ _ H)|].
    destruct (ses_sid _ _ _ _ (proj2 Hc0) (ti_ses _ _ _ H e) Hx) as (k & Hk & ->). intros E.
    apply (new_id_inj nodeID HnodeID) in E; lia. }
  constructor.
  - done.
  - rewrite Hh. apply H.
  - lia.
  - intros e. destruct (decide (e = edu)) as [->|He]; [done|]. destruct (Hoth e He) as [-> ->].
    eapply ses_frame; [| | |apply H]; [lia|lia|by apply Hframe].
  - intros e e' Hne. destruct (decide (e = edu)) as [->|He], (decide (e' = edu)) as [->|He']; [done|..];
      rewrite ?(proj1 (Hoth _ He)), ?(proj1 (Hoth _ He')); intros Hx Hx'.
    + by apply not_eq_sym, Hnew.
    + by apply Hnew.
    + by apply (ti_distinct _ _ _ H).
  - intros t st Ht. destruct (Ho t) as [E|[Hi E]].
    + rewrite E in Ht. destruct (ti_open _ _ _ H t st Ht) as (k & Hk & ->). exists k. split; [lia|done].
    + destruct (ses_sid _ _ _ _ (proj2 Hc0) (ti_ses _ _ _ H edu) Hi) as (k & Hk & E'). exists k. split; [lia|congruence].
Qed.

(** Nothing but the records changes. *)
Lemma log_inv_same n n' vs o :
  log_inv n vs o -> tn_log n' = tn_log n -> _isOn (tn_cb n') = _isOn (tn_cb n) ->
  _beginLsnIdMap (tn_cb n') = _beginLsnIdMap (tn_cb n) -> _idBeginLsnMap (tn_cb n') = _idBeginLsnMap (tn_cb n) -> log_inv n' vs o.
Proof.
  intros [H1 H2 [H3 H3'] H4] E1 E2 E3 E4. constructor; rewrite ?E1, ?E2; try done. constructor; [intros t|]; rewrite ?E3, ?E4; auto.
Qed.

Lemma ses_set n edu x : ses (set_ses n edu x) edu = x.
Proof. unfold ses, set_ses. cbn. by rewrite lookup_insert_eq. Qed.

Lemma ses_set_ne n edu e x : e <> edu -> ses (set_ses n edu x) e = ses n e.
Proof. intros. unfold ses, set_ses. cbn. by rewrite lookup_insert_ne. Qed.

Lemma ses_release n edu e : ses (transLockReleaseAll n edu) e = ses n e.
Proof. unfold transLockReleaseAll. by case_match. Qed.

Lemma cb_release n edu : tn_cb (transLockReleaseAll n edu) = tn_cb n /\ tn_log (transLockReleaseAll n edu) = tn_log n.
Proof. unfold transLockReleaseAll. by case_match. Qed.

(** ** Logging a change *)

Lemma change_type d t : op_type (change_op d t) <> LOG_TYPE_TS_COMMIT.
Proof. by destruct d. Qed.

Lemma change_view d t lsn : op_view (change_op d t) lsn = tran_view (op_type (change_op d t)) lsn t.
Proof. by destruct d. Qed.

(** The session behind a change. *)
Definition written (x : session) (lsn : Z) : session :=
  if DPS_INVALID_TRANS_ID =? _curTransID x then x
  else if isFirstOp (_curTransID x) then setTransID (setCurTransLsn x lsn) (clearFirstOpTag (_curTransID x))
  else setCurTransLsn x lsn.

Definition tran_of (x : session) : tran := mkTran (_curTransID x) (_curTransLSN x) (_relatedTransLSN x).

Lemma log_change_ok n vs o edu d st :
  let x := ses n edu in
  let v := tran_view (op_type (change_op d (tran_of x))) (st_lsn st) (tran_of x) in
  log_inv n vs o -> change_ok bson_valid d -> tran_ok (tran_of x) -> view_ok o v ->
  Forall (fun u => v_lsn u < st_lsn st) vs -> 0 <= st_lsn st < INV ->
  exists n', log_change woCompare bson_valid node edu n d (inr st) = Some (SDB_OK, n') /\
    log_inv n' (vs ++ [v]) (spec_step o v) /\ same_ids (tn_cb n) (tn_cb n') /\ _TransMap (tn_cb n') = _TransMap (tn_cb n) /\
    (forall e, e <> edu -> ses n' e = ses n e) /\ ses n' edu = written x (st_lsn st) /\
    exists r, record_view r = Ret v /\ tn_log n' = tn_log n ++ [r].
Proof.
  intros x v Hl Hd Ht Hv Hlt Hb. unfold log_change. fold x. fold (tran_of x).
  destruct (encode_view woCompare bson_valid (change_op d (tran_of x)) (Hd _ Ht)) as (r & -> & Hty & Hr).
  cbn [mbind option_bind]. change (negb (SDB_OK =? SDB_OK)) with false. cbv iota. set (r' := stamped r st).
  assert (Ev : record_view r' = Ret v) by (unfold r', stamped; rewrite Hr by done; by rewrite change_view).
  destruct (write_ok node Hprim n vs o r' v Hl Ev Hv Hlt Hb) as (cb & Ew & Hl' & Hs & Hm).
  unfold wrapper_writeData. rewrite Ew. cbn [mbind option_bind]. change (ses (mkTNode cb _ _ _) edu) with x.
  unfold written. destruct (DPS_INVALID_TRANS_ID =? _curTransID x) eqn:Ez; cbn [negb andb].
  - eexists. split; [done|]. repeat (split; [done|]). eauto.
  - eexists. split; [done|]. split_and!; [by eapply log_inv_same|done|done| | |by eauto].
    + intros e He. by rewrite ses_set_ne.
    + rewrite ses_set. by destruct (isFirstOp (_curTransID x)).
Qed.

(** The tail of a stack is invalid or an LSN. *)
Lemma stack_lsn vs o t st l : history vs o -> o !! t = Some st -> l ∈ st -> 0 <= l < INV.
Proof.
  intros Hh Ht Hl. destruct (history_stack_lsn _ _ _ _ _ Hh Ht Hl) as (v & Hv & <-). by eapply history_lsn.
Qed.

Lemma opt_lsn l : 0 <= l < INV -> opt_u64 INV l = Some l.
Proof. intros. unfold opt_u64. destruct (Z.eqb_spec INV l); [lia|done]. Qed.

Lemma opt_id t : t <> DPS_INVALID_TRANS_ID -> opt_u64 DPS_INVALID_TRANS_ID t = Some t.
Proof. intros. unfold opt_u64. destruct (Z.eqb_spec DPS_INVALID_TRANS_ID t); [congruence|done]. Qed.

Lemma tid_bound k m : 0 < k < 2 ^ 40 -> 0 <= m < 2 ^ 64 -> u_ok 64 (Z.lor (tid k) m).
Proof. intros. by apply new_id_bound. Qed.

Lemma tid_small k : 0 < k < 2 ^ 40 -> u_ok 64 (tid k).
Proof. intros. rewrite <- (Z.lor_0_r (tid k)). by apply tid_bound. Qed.

(** ** The steps *)

Abbreviation cur_of s := (_TransIDL48Cur (tn_cb (tr_node s))).

(** What a step leaves: the invariant, and at most one id taken. *)
Definition goes_on (s : trun) (vs : list tview) (s' : option trun) : Prop :=
  exists s1 vs1 o1, s' = Some s1 /\ tinv s1 (vs ++ vs1) o1 /\ cur_of s1 <= cur_of s + 1.

Lemma rbs_idle s edu : idle s edu = true -> tr_rbs s !! edu = None.
Proof. apply bool_decide_eq_true. Qed.

Lemma stamp_log s vs o st :
  log_inv (tr_node s) vs o -> stamp_ok s st = true -> Forall (fun u => v_lsn u < st_lsn st) vs /\ 0 <= st_lsn st < INV.
Proof.
  intros H Hs. unfold stamp_ok in Hs. apply andb_true_iff in Hs as [[H1 H2]%andb_true_iff H3].
  split; [|lia]. eapply logged_lsns; [apply H|done].
Qed.

Lemma begin_step s vs o edu :
  tinv s vs o -> cur_of s + 1 < 2 ^ 40 -> idle s edu = true ->
  goes_on s vs ('(_, n) ← rtnTransBegin edu (tr_node s); Some (with_node s n)).
Proof.
  intros H Hc Hi%rbs_idle. pose proof (ti_cur _ _ _ H) as Hc0. unfold rtnTransBegin. rewrite (li_on _ _ _ (ti_log _ _ _ H)).
  cbn [negb]. destruct (Z.eqb_spec (_curTransID (ses (tr_node s) edu)) DPS_INVALID_TRANS_ID) as [E0|E0].
  - rewrite (alloc_ok _ nodeID) by (done || apply H). cbn [mbind option_bind]. eexists _, [], o. split; [done|].
    split; [|cbn; lia]. rewrite app_nil_r. pose proof (ti_ses _ _ _ H edu) as Hs. rewrite Hi in Hs.
    assert (Er : _relatedTransLSN (ses (tr_node s) edu) = INV) by (inversion Hs; done).
    pose proof (tid_plain (cur_of s) (cur_of s + 1) ltac:(lia) Hc) as Hp.
    eapply (tinv_step s vs o _ vs o edu H); cbn [with_node tr_node tr_rbs set_cb tn_cb].
    + eapply log_inv_same; [apply H|done..].
    + done.
    + cbn. lia.
    + intros e He. split; [|done]. by apply (ses_set_ne (tr_node s)).
    + rewrite Hi. change (ses (set_cb (set_ses (tr_node s) edu ?x) _) edu) with (ses (set_ses (tr_node s) edu x) edu).
      rewrite ses_set. apply (SesNew _ _ _ (cur_of s)); cbn; try done; [lia|].
      destruct (o !! tid (cur_of s)) as [st|] eqn:Eo; [|done]. exfalso.
      destruct (ti_open _ _ _ H _ _ Eo) as (k & Hk & E). apply new_id_inj in E; [lia|done|lia|lia].
    + by left.
    + intros _. right. change (ses (set_cb (set_ses (tr_node s) edu ?x) _) edu) with (ses (set_ses (tr_node s) edu x) edu).
      rewrite ses_set. cbn. by apply first_id.
  - exists (with_node s (tr_node s)), [], o. split; [done|]. split; [|cbn; lia]. rewrite app_nil_r. by destruct s.
Qed.

Lemma tran_ok_of i p r : u_ok 64 i -> (p = INV \/ 0 <= p < INV) -> (r = INV \/ 0 <= r < INV) -> tran_ok (mkTran i p r).
Proof.
  assert (HI : INV < 2 ^ 64) by done. intros Hi Hp Hr. unfold tran_ok, u_ok in *. cbn [t_id t_pre t_related].
  unfold DPS_INVALID_LSN_OFFSET in *. destruct Hp, Hr; lia.
Qed.

(** A change outside of a rollback continues the history, and its session
    stands behind it. *)
Lemma change_session vs o cur x d lsn :
  history vs o -> cur < 2 ^ 40 -> ses_ok o cur x None -> 0 <= lsn < INV ->
  let v := tran_view (op_type (change_op d (tran_of x))) lsn (tran_of x) in
  tran_ok (tran_of x) /\ view_ok o v /\ ses_ok (spec_step o v) cur (written x lsn) None /\
  (forall t, spec_step o v !! t = o !! t \/ in_trans x /\ t = sid x) /\
  (in_trans (written x lsn) -> in_trans x /\ sid (written x lsn) = sid x).
Proof.
  intros Hh Hc H Hb v. pose proof (change_type d (tran_of x)) as Hty. unfold written, sid, in_trans.
  assert (Hspec : forall t, (forall id, v_trans v = Some id -> getTransID id <> t) -> spec_step o v !! t = o !! t) by (apply spec_step_ne).
  inversion H as [E E1 E2|k Hk E E1 E2 Ho|k l st Hk E E1 E2 Ho|]; subst; unfold tran_of; rewrite E, ?E1, E2.
  - split; [by apply tran_ok_of; [|left|left]|]. rewrite Z.eqb_refl.
    assert (Et : v_trans v = None) by (unfold v, tran_of; by rewrite E). split; [by unfold view_ok; rewrite Et|].
    assert (Es : spec_step o v = o) by (unfold spec_step; by rewrite Et). rewrite Es.
    split; [by apply SesNone|]. split; [by left|]. by rewrite E.
  - pose proof (tid_plain k cur Hk Hc) as Hp. 
    assert (Hnz : Z.lor (tid k) DPS_TRANSID_FIRSTOP_BIT <> DPS_INVALID_TRANS_ID) by (by apply tagged_nonzero).
    assert (Et : v_trans v = Some (Z.lor (tid k) DPS_TRANSID_FIRSTOP_BIT))
      by (unfold v, tran_of; rewrite E; by apply opt_id).
    assert (Ep : v_pre v = None) by (unfold v, tran_of; by rewrite E1).
    split; [apply tran_ok_of; [apply tid_bound; [lia|done]|by left|by left]|].
    rewrite (proj2 (Z.eqb_neq _ _) (not_eq_sym Hnz)), first_is_first by done.
    assert (Hv : view_ok o v).
    { unfold view_ok. rewrite Et, first_not_rollback, first_id, first_is_first, Ep, Ho by done. split; [done|].
      destruct (Z.eqb_spec LOG_TYPE_TS_COMMIT (v_type v)); [by destruct d|]. done. }
    split; [done|]. split; [|split].
    + apply (SesOpen _ _ _ k lsn []); cbn; try done; [by rewrite first_cleared|].
      unfold spec_step. rewrite Et, first_not_rollback, first_id by done.
      destruct (Z.eqb_spec LOG_TYPE_TS_COMMIT (v_type v)); [by destruct d|]. by rewrite Ho, lookup_insert_eq.
    + intros t. destruct (decide (t = tid k)) as [->|Hne]; [right|left].
      * split; [done|]. by rewrite first_id.
      * apply Hspec. intros id. rewrite Et. intros [= <-]. by rewrite first_id.
    + intros _. split; [done|]. cbn. rewrite first_cleared, first_id by done. by apply Hp.
  - pose proof (tid_plain k cur Hk Hc) as Hp. pose proof Hp as [Hp0 Hp1].
    assert (Hnz : tid k <> DPS_INVALID_TRANS_ID) by (unfold DPS_INVALID_TRANS_ID; lia).
    assert (Hl : 0 <= _curTransLSN x < INV) by (eapply stack_lsn; [done|exact Ho|apply list_elem_of_here]).
    assert (Et : v_trans v = Some (tid k)) by (unfold v, tran_of; rewrite E; by apply opt_id).
    assert (Ep : v_pre v = Some (_curTransLSN x)) by (unfold v, tran_of; by apply opt_lsn).
    split; [apply tran_ok_of; [apply tid_small; lia|by right|by left]|].
    rewrite (proj2 (Z.eqb_neq _ _) (not_eq_sym Hnz)), plain_not_first by done.
    assert (Hv : view_ok o v).
    { unfold view_ok. rewrite Et, plain_not_rollback, plain_not_first, Hp1, Ep, Ho by done. split; [done|].
      destruct (Z.eqb_spec LOG_TYPE_TS_COMMIT (v_type v)); [by destruct d|]. done. }
    split; [done|]. split; [|split].
    + apply (SesOpen _ _ _ k lsn (_curTransLSN x :: st)); cbn; try done.
      unfold spec_step. rewrite Et, plain_not_rollback, Hp1 by done.
      destruct (Z.eqb_spec LOG_TYPE_TS_COMMIT (v_type v)); [by destruct d|]. by rewrite Ho, lookup_insert_eq.
    + intros t. destruct (decide (t = tid k)) as [->|Hne]; [right|left].
      * by rewrite Hp1.
      * apply Hspec. intros id. rewrite Et. intros [= <-]. by rewrite Hp1.
    + intros _. split; [done|]. cbn. by rewrite E.
Qed.

Lemma change_step s vs o edu d prepared :
  tinv s vs o -> idle s edu = true -> (forall st, prepared = inr st -> stamp_ok s st = true) -> change_ok bson_valid d ->
  goes_on s vs ('(_, n) ← log_change woCompare bson_valid node edu (tr_node s) d prepared; Some (with_node s n)).
Proof.
  intros H Hi%rbs_idle Hst Hd. pose proof (ti_log _ _ _ H) as Hl.
  pose proof (ti_ses _ _ _ H edu) as Hs. rewrite Hi in Hs. pose proof (ti_cur _ _ _ H) as Hc.
  destruct prepared as [rc|st].
  { destruct (change_session vs o _ _ d 0 (li_hist _ _ _ Hl) (proj2 Hc) Hs ltac:(done)) as (Ht & _).
    unfold log_change. fold (tran_of (ses (tr_node s) edu)).
    destruct (encode_view woCompare bson_valid (change_op d (tran_of (ses (tr_node s) edu))) (Hd _ Ht)) as (r & -> & _).
    cbn [mbind option_bind]. change (negb (SDB_OK =? SDB_OK)) with false. cbv iota. exists s, [], o. rewrite app_nil_r.
    split; [by destruct s|]. split; [done|lia]. }
  destruct (stamp_log _ _ _ _ Hl (Hst st eq_refl)) as [Hlt Hb].
  destruct (change_session vs o _ _ d (st_lsn st) (li_hist _ _ _ Hl) (proj2 Hc) Hs Hb) as (Ht & Hv & Hs' & Ho & Hid).
  destruct (log_change_ok (tr_node s) vs o edu d st Hl Hd Ht Hv Hlt Hb) as (n' & -> & Hl' & Hsame & _ & Hoth & Hedu & _).
  cbn [mbind option_bind]. eexists _, [_], _. split; [done|]. split; [|cbn; rewrite (si_cur _ _ Hsame); lia].
  eapply (tinv_step s vs o (with_node s n') _ _ edu H Hl'); cbn [with_node tr_node tr_rbs]; rewrite ?(si_cur _ _ Hsame), ?Hedu, ?Hi.
  - apply Hsame.
  - lia.
  - intros e He. by rewrite Hoth.
  - done.
  - done.
  - intros Hx. left. by apply Hid.
Qed.

Lemma other_step s vs o op st :
  tinv s vs o -> outside op = true -> op_ok bson_valid op -> stamp_ok s st = true ->
  goes_on s vs ('(_, r) ← encode woCompare bson_valid op record_init;
                n ← buf_writeData node (tr_node s) (stamped r st); Some (with_node s n)).
Proof.
  intros H Hout Hop Hst. pose proof (ti_log _ _ _ H) as Hl. destruct (stamp_log _ _ _ _ Hl Hst) as [Hlt Hb].
  destruct (encode_view woCompare bson_valid op Hop) as (r & -> & Hty & Hr). cbn [mbind option_bind].
  set (v := op_view op (st_lsn st)).
  assert (Ev : record_view (stamped r st) = Ret v) by (unfold stamped; by rewrite Hr).
  assert (Et : v_trans v = None).
  { unfold v. destruct op; try done; cbn in Hout; cbn; unfold opt_u64; by rewrite Z.eqb_sym, Hout. }
  assert (El : v_lsn v = st_lsn st) by (unfold v; by destruct op).
  assert (Es : spec_step o v = o) by (unfold spec_step; by rewrite Et).
  destruct (write_ok node Hprim (tr_node s) vs o _ v Hl Ev) as (cb & -> & Hl' & Hs & _);
    [by unfold view_ok; rewrite Et|by rewrite El|by rewrite El|].
  cbn [mbind option_bind]. rewrite Es in Hl'. eexists _, [v], o. split; [done|]. split; [|cbn; rewrite (si_cur _ _ Hs); lia].
  pose proof (ti_cur _ _ _ H).
  eapply (tinv_step s vs o (with_node s _) _ _ 0 H Hl'); cbn [with_node tr_node tr_rbs tn_cb]; rewrite ?(si_cur _ _ Hs).
  - apply Hs.
  - lia.
  - done.
  - apply H.
  - by left.
  - intros Hx. by left.
Qed.

(** A session that leaves its transaction. *)
Lemma tinv_end s vs o s' vs' o' edu :
  tinv s vs o -> log_inv (tr_node s') vs' o' -> same_ids (with_cbMap (tn_cb (tr_node s)) (_cbMap (tn_cb (tr_node s')))) (tn_cb (tr_node s')) ->
  (forall e, e <> edu -> ses (tr_node s') e = ses (tr_node s) e /\ tr_rbs s' !! e = tr_rbs s !! e) ->
  _curTransID (ses (tr_node s') edu) = DPS_INVALID_TRANS_ID -> _curTransLSN (ses (tr_node s') edu) = INV ->
  _relatedTransLSN (ses (tr_node s') edu) = INV -> tr_rbs s' !! edu = None ->
  (forall t, o' !! t = o !! t \/ in_trans (ses (tr_node s) edu) /\ t = sid (ses (tr_node s) edu)) -> tinv s' vs' o'.
Proof.
  intros H Hl [S1 S2 S3 S4 S5] Hoth E1 E2 E3 Er Ho. cbn in S1, S2. pose proof (ti_cur _ _ _ H).
  eapply (tinv_step s vs o s' vs' o' edu H Hl); rewrite ?S1, ?S2; [done|lia|done|by rewrite Er; apply SesNone|done|].
  intros Hx. by destruct Hx.
Qed.

Lemma set_ses_cb n edu x : tn_cb (set_ses n edu x) = tn_cb n.
Proof. done. Qed.

Lemma done_ses n edu transID e :
  ses (rollback_done edu transID n) e =
    if decide (e = edu) then mkSession DPS_INVALID_TRANS_ID INV INV false else ses n e.
Proof.
  unfold rollback_done. destruct (decide (e = edu)) as [->|He].
  - rewrite ses_set, ses_release, ses_set. done.
  - rewrite ses_set_ne, ses_release, ses_set_ne by done. done.
Qed.

Lemma done_frame n edu transID :
  tn_cb (rollback_done edu transID n) = delTransCB (tn_cb n) transID /\ tn_log (rollback_done edu transID n) = tn_log n.
Proof. unfold rollback_done. cbn -[transLockReleaseAll]. by rewrite !(proj1 (cb_release _ _)), !(proj2 (cb_release _ _)). Qed.

Lemma done_tinv s vs o n rbs edu transID :
  tinv s vs o -> log_inv n vs o -> same_ids (tn_cb (tr_node s)) (tn_cb n) ->
  (forall e, e <> edu -> ses n e = ses (tr_node s) e /\ rbs !! e = tr_rbs s !! e) -> rbs !! edu = None ->
  tinv (mkTRun (rollback_done edu transID n) rbs) vs o.
Proof.
  intros H Hl [S1 S2 S3 S4 S5] Hoth Hr. destruct (done_frame n edu transID) as [Ec El].
  eapply (tinv_end s vs o (mkTRun _ rbs) vs o edu H); cbn [tr_node tr_rbs].
  - eapply log_inv_same; [exact Hl|exact El|by rewrite Ec..].
  - constructor; idtac; cbn [tr_node]; rewrite ?Ec; cbn; congruence.
  - intros e He. rewrite done_ses. destruct (decide (e = edu)); [done|]. by apply Hoth.
  - rewrite done_ses. by destruct (decide (edu = edu)).
  - rewrite done_ses. by destruct (decide (edu = edu)).
  - rewrite done_ses. by destruct (decide (edu = edu)).
  - done.
  - by left.
Qed.

(** The session after a commit. *)
Lemma commit_tinv s vs o n vs' o' edu transID x :
  tinv s vs o -> tr_rbs s !! edu = None -> log_inv n vs' o' -> same_ids (tn_cb (tr_node s)) (tn_cb n) ->
  tn_sessions n = tn_sessions (tr_node s) ->
  (forall t, o' !! t = o !! t \/ in_trans (ses (tr_node s) edu) /\ t = sid (ses (tr_node s) edu)) ->
  _curTransID x = DPS_INVALID_TRANS_ID -> _curTransLSN x = INV -> _relatedTransLSN x = INV ->
  tinv (with_node s (transLockReleaseAll (set_ses (set_cb n (delTransCB (tn_cb n) transID)) edu x) edu)) vs' o'.
Proof.
  intros H Hr Hl [S1 S2 S3 S4 S5] Hses Ho E1 E2 E3. set (n' := set_ses _ edu x).
  destruct (cb_release n' edu) as [Ec El].
  eapply (tinv_end s vs o (with_node s _) vs' o' edu H); cbn [with_node tr_node tr_rbs]; rewrite ?ses_release; subst n'; rewrite ?ses_set;
    try done.
  - eapply log_inv_same; [exact Hl|exact El|by rewrite Ec..].
  - constructor; rewrite Ec; cbn; congruence.
  - intros e He. rewrite ses_release, ses_set_ne by done. split; [|done]. unfold ses. cbn. by rewrite Hses.
Qed.

Lemma commit_step s vs o edu prepared :
  tinv s vs o -> idle s edu = true -> (forall st, prepared = inr st -> stamp_ok s st = true) ->
  goes_on s vs ('(_, n) ← rtnTransCommit woCompare bson_valid node edu prepared (tr_node s); Some (with_node s n)).
Proof.
  intros H Hi%rbs_idle Hst. pose proof (ti_log _ _ _ H) as Hl. pose proof (ti_cur _ _ _ H) as Hc. unfold rtnTransCommit.
  pose proof (ti_ses _ _ _ H edu) as Hs. rewrite Hi in Hs. set (x := ses (tr_node s) edu) in *.
  destruct ((_curTransID x =? DPS_INVALID_TRANS_ID) || (_curTransLSN x =? INV)) eqn:E0.
  - cbn [mbind option_bind]. eexists _, [], o. split; [done|]. rewrite app_nil_r.
    assert (E2 : _curTransLSN x = INV /\ _relatedTransLSN x = INV).
    { inversion Hs as [| |k l st Hk E E1 E2 Ho|]; try done. exfalso.
      pose proof (tid_plain k _ Hk (proj2 Hc)) as [Hp _]. rewrite E in E0.
      pose proof (stack_lsn _ _ _ _ l (li_hist _ _ _ Hl) Ho (list_elem_of_here _ _)).
      apply orb_true_iff in E0 as [E0|E0]; apply Z.eqb_eq in E0; unfold DPS_INVALID_TRANS_ID in *; lia. }
    split; [|cbn -[transLockReleaseAll]; rewrite (proj1 (cb_release _ _)); cbn; lia].
    eapply (commit_tinv s vs o (tr_node s)); try done; [by left|apply E2|apply E2].
  - assert (exists k st, 0 < k < cur_of s /\ _curTransID x = tid k /\ _relatedTransLSN x = INV /\
              o !! tid k = Some (_curTransLSN x :: st)) as (k & st & Hk & Ei & Er & Ho).
    { inversion Hs as [E|k Hk E E1|k l st Hk E E1 E2 Ho|]; subst;
        [by rewrite E in E0|by rewrite E1, Z.eqb_refl, orb_true_r in E0|eauto 10]. }
    pose proof (tid_plain k _ Hk (proj2 Hc)) as Hp. pose proof Hp as [Hp0 Hp1].
    pose proof (stack_lsn _ _ _ _ (_curTransLSN x) (li_hist _ _ _ Hl) Ho (list_elem_of_here _ _)) as Hlsn.
    assert (exists f, list.last (_curTransLSN x :: st) = Some f) as [f Ef].
    { destruct (list.last (_curTransLSN x :: st)) eqn:E; [eauto|by apply last_None in E]. }
    assert (Hf : 0 <= f < INV) by (eapply stack_lsn; [apply Hl|exact Ho|by apply last_Some_elem_of]).
    assert (Eb : getBeginLsn (tn_cb (tr_node s)) (_curTransID x) = f).
    { unfold getBeginLsn. rewrite Ei, Hp1. destruct (bg_id _ _ _ (li_begins _ _ _ Hl) (tid k)) as [->|[Hold _]].
      - rewrite Ho. cbn -[list.last]. by rewrite Ef.
      - exfalso. by eapply old_zero; [apply Hl|]. }
    rewrite Eb. set (op := OpTransCommit (_curTransID x) (_curTransLSN x) f).
    assert (Hop : op_ok bson_valid op).
    { cbn. rewrite Ei. unfold DPS_INVALID_LSN_OFFSET in *. split; [apply tid_small; lia|]. split; red; lia. }
    destruct (encode_view woCompare bson_valid op Hop) as (r & -> & Hty & Hr). cbn [mbind option_bind].
    change (negb (SDB_OK =? SDB_OK)) with false. cbv iota. destruct prepared as [rc|stp].
    { cbn [mbind option_bind]. exists (with_node s (tr_node s)), [], o. rewrite app_nil_r. split; [done|]. split; [by destruct s|cbn; lia]. }
    destruct (stamp_log _ _ _ _ Hl (Hst stp eq_refl)) as [Hlt Hb]. set (v := op_view op (st_lsn stp)).
    assert (Ev : record_view (stamped r stp) = Ret v) by (unfold stamped; by rewrite Hr).
    assert (Hv : view_ok o v).
    { unfold view_ok, v. cbn -[list.last]. rewrite Ei, (plain_not_rollback _ Hp), Hp1.
      split; [unfold DPS_INVALID_TRANS_ID; lia|]. exists (_curTransLSN x), st. by rewrite Ef. }
    destruct (write_ok node Hprim (tr_node s) vs o _ v Hl Ev Hv) as (cb & Ew & Hl' & Hsame & _); [done|done|].
    unfold wrapper_writeData. rewrite Ew. cbn [mbind option_bind andb]. change (ses (mkTNode cb _ _ _) edu) with x.
    eexists _, [v], _. split; [done|].
    split; [|cbn -[transLockReleaseAll]; rewrite (proj1 (cb_release _ _)); cbn; rewrite (si_cur _ _ Hsame); lia].
    eapply (commit_tinv s vs o (mkTNode cb _ _ _)); try done.
    intros t. destruct (decide (t = tid k)) as [->|Hne]; [right|left].
    + unfold in_trans, sid. fold x. rewrite Ei, Hp1. split; [unfold DPS_INVALID_TRANS_ID; lia|done].
    + apply spec_step_ne. intros id. cbn. intros [= <-]. by rewrite Ei, Hp1.
Qed.

(** ** Rollback *)

(** The last change of an unfinished transaction is found. *)
Lemma search_top n vs o t l st :
  log_inv n vs o -> o !! t = Some (l :: st) ->
  exists r v id, log_search (tn_log n) l = Some r /\ record_view r = Ret v /\ v_trans v = Some id /\ getTransID id = t /\
    v_pre v = head st.
Proof.
  intros [Hv Hh _ _] Ho. destruct (history_linked _ _ _ _ Hh Ho) as [_ Hl].
  destruct (Hl 0%nat l eq_refl) as (v & id & Hin & El & Ei & Et & Ep).
  destruct (proj1 (list_elem_of_lookup _ _) Hin) as [i Hi].
  destruct (Forall2_lookup_r _ _ _ _ _ Hv Hi) as (r0 & Hr0 & Hl0).
  assert (Hlsn : forall r u, logged r u -> _lsn (_head r) = v_lsn u) by (intros r u Hu; by apply record_view_inv in Hu as (_ & _ & _ & _ & E & _)).
  assert (is_Some (list_find (fun r => _lsn (_head r) = l) (tn_log n))) as [[j r] Hf].
  { eapply list_find_elem_of; [by eapply list_elem_of_lookup_2|]. cbn. by rewrite (Hlsn _ _ Hl0). }
  exists r, v, id. unfold log_search. rewrite Hf. cbn. apply list_find_Some in Hf as (Hj & Er & _).
  destruct (Forall2_lookup_l _ _ _ _ _ Hv Hj) as (u & Hu & Hlu).
  assert (u = v) as -> by (eapply history_unique; [done|by eapply list_elem_of_lookup_2|done|rewrite <- (Hlsn _ _ Hlu); congruence]).
  repeat split; try done. rewrite Ep. by destruct st.
Qed.

Lemma start_step s vs o edu :
  tinv s vs o -> idle s edu = true ->
  goes_on s vs (let transID := _curTransID (ses (tr_node s) edu) in
                let '(rb, n) := rollback_start edu (tr_node s) in
                match rb with
                | Some rb => Some (mkTRun n (<[edu := rb]> (tr_rbs s)))
                | None => Some (with_node s (rollback_done edu transID n))
                end).
Proof.
  intros H Hi%rbs_idle. pose proof (ti_log _ _ _ H) as Hl. pose proof (ti_cur _ _ _ H) as Hc. unfold rollback_start.
  pose proof (ti_ses _ _ _ H edu) as Hs. rewrite Hi in Hs. set (x := ses (tr_node s) edu) in *. cbn [_curTransID _curTransLSN setDoRollback].
  destruct ((DPS_INVALID_TRANS_ID =? _curTransID x) || (INV =? _curTransLSN x)) eqn:E0; cbv beta iota zeta.
  - eexists _, [], o. split; [done|]. rewrite app_nil_r. cbn -[rollback_done]. rewrite (proj1 (done_frame _ _ _)). split; [|cbn; lia].
    eapply (done_tinv s vs o); try done.
    + by eapply log_inv_same.
    + intros e He. by rewrite ses_set_ne.
  - assert (exists k st, 0 < k < cur_of s /\ _curTransID x = tid k /\ o !! tid k = Some (_curTransLSN x :: st)) as (k & st & Hk & Ei & Ho).
    { inversion Hs as [E|k Hk E E1|k l st Hk E E1 E2 Ho|]; subst;
        [by rewrite E in E0|by rewrite E1, Z.eqb_refl, orb_true_r in E0|eauto 10]. }
    pose proof (tid_plain k _ Hk (proj2 Hc)) as Hp. eexists _, [], o. split; [done|]. rewrite app_nil_r. split; [|cbn; lia].
    eapply (tinv_step s vs o (mkTRun _ _) vs o edu H); cbn [tr_node tr_rbs].
    + by eapply log_inv_same.
    + done.
    + cbn. lia.
    + intros e He. by rewrite !ses_set_ne, lookup_insert_ne.
    + rewrite ses_set, lookup_insert_eq. cbn. apply (SesBack _ _ _ k); cbn; try done; [by rewrite Ei|]. right. eauto.
    + by left.
    + intros _. left. unfold in_trans, sid. rewrite ses_set. fold x. cbn. rewrite Ei, rollback_id by done.
      destruct Hp as [Hp0 Hp1]. rewrite Hp1. split; [unfold DPS_INVALID_TRANS_ID; lia|done].
Qed.

Lemma end_step s vs o edu rb :
  tinv s vs o -> tr_rbs s !! edu = Some rb -> goes_on s vs (Some (ended s edu rb (tr_node s))).
Proof.
  intros H Hr. eexists _, [], o. split; [done|]. rewrite app_nil_r. unfold ended. cbn -[rollback_done].
  rewrite (proj1 (done_frame _ _ _)). split; [|cbn; lia].
  eapply (done_tinv s vs o); try done; [apply H|intros e He; by rewrite lookup_delete_ne|apply lookup_delete_eq].
Qed.

(** What a replay can answer. *)
Definition answer_ok (vs : list tview) (a : replayed) : Prop :=
  match a with
  | Failed rc => rc <> SDB_OK
  | Undone d st => change_ok bson_valid d /\ Forall (fun u => v_lsn u < st_lsn st) vs /\ 0 <= st_lsn st < INV
  end.

(** The transactions after the last change of [t] is undone. *)
Definition pop (o : opens) (t : Z) (st : list Z) : opens := match st with [] => delete t o | _ => <[t := st]> o end.

(** What an undone record leaves: nothing but the session and the log differ. *)
Record undone (n n' : tnode) (edu : Z) : Prop := {
  un_ids : same_ids (tn_cb n) (tn_cb n');
  un_map : _TransMap (tn_cb n') = _TransMap (tn_cb n);
  un_oth e : e <> edu -> ses n' e = ses n e;
  un_id : _curTransID (ses n' edu) = _curTransID (ses n edu)
}.

Lemma undo_ok n vs o edu a rb st record v :
  let t := rb_transID rb in
  log_inv n vs o -> o !! t = Some (rb_cur rb :: st) -> plain_id t -> u_ok 64 (getRollbackID t) ->
  _curTransID (ses n edu) = getRollbackID t -> record_view record = Ret v -> v_pre v = head st -> answer_ok vs a ->
  exists n', undone n n' edu /\
    match a with
    | Failed rc =>
        log_inv n' vs o /\
        undo_record woCompare bson_valid node edu a rb record n =
          Some (if RTN_TRANS_ROLLBACK_RETRY_TIMES <=? rb_retry rb + 1 then Stop rc true n'
                else Again rc (mkRollback t (rb_cur rb) (rb_retry rb + 1)) n')
    | Undone d stp =>
        exists w, log_inv n' (vs ++ [w]) (pop o t st) /\ v_trans w = Some (getRollbackID t) /\ v_related w = Some (rb_cur rb) /\
          v_lsn w = st_lsn stp /\
          undo_record woCompare bson_valid node edu a rb record n =
            Some (Again SDB_OK (mkRollback t (default INV (head st)) 0) n')
    end.
Proof.
  intros t Hl Ho Hp Hu Hid Hrec Hpre Ha. apply record_view_inv in Hrec as (_ & Epre & _).
  unfold undo_record. rewrite Epre, Hpre. cbn [to_option mbind option_bind].
  set (pre := default INV (head st)). set (x := setCurTransLsn (setRelatedTransLSN (ses n edu) (rb_cur rb)) pre).
  set (n1 := set_ses n edu x). assert (Hx : ses n1 edu = x) by apply ses_set.
  assert (Hl1 : log_inv n1 vs o) by (by eapply log_inv_same).
  assert (Hun : undone n n1 edu).
  { constructor; [by constructor|done|intros e He; by apply ses_set_ne|by rewrite Hx]. }
  destruct a as [rc|d stp].
  - exists n1. split; [done|]. split; [done|]. cbn [mbind option_bind answer_ok] in *.
    rewrite (proj2 (Z.eqb_neq _ _) Ha), Hx. cbn [negb]. by destruct (_ <=? _).
  - destruct Ha as (Hd & Hlt & Hb).
    assert (Hl0 : 0 <= rb_cur rb < INV) by (eapply stack_lsn; [apply Hl|exact Ho|apply list_elem_of_here]).
    assert (Hpr : pre = INV \/ 0 <= pre < INV).
    { unfold pre. destruct st as [|l st]; [by left|right]. eapply stack_lsn; [apply Hl|exact Ho|apply list_elem_of_further, list_elem_of_here]. }
    assert (Hnz : getRollbackID t <> DPS_INVALID_TRANS_ID) by (by apply tagged_nonzero).
    set (v' := tran_view (op_type (change_op d (tran_of x))) (st_lsn stp) (tran_of x)).
    assert (Et : v_trans v' = Some (getRollbackID t)) by (unfold v'; cbn; rewrite Hid; by apply opt_id).
    assert (Hv : view_ok o v').
    { unfold view_ok. rewrite Et, rollback_is_rollback, rollback_id by done. split; [done|].
      exists (rb_cur rb), st. split; [done|]. split; [by apply opt_lsn|]. split; [|by destruct d].
      unfold v'. cbn. unfold pre. destruct st as [|l st]; [done|]. cbn. apply opt_lsn.
      eapply stack_lsn; [apply Hl|exact Ho|apply list_elem_of_further, list_elem_of_here]. }
    assert (Es : spec_step o v' = pop o t st).
    { unfold spec_step, pop. rewrite Et, rollback_is_rollback, rollback_id, Ho by done. by destruct st. }
    pose proof (log_change_ok n1 vs o edu d stp) as Hlog. cbv zeta in Hlog. rewrite Hx in Hlog.
    destruct Hlog as (n' & -> & Hl' & Hsame & Hm & Hoth & Hses & _); try done.
    { replace (tran_of x) with (mkTran (getRollbackID t) pre (rb_cur rb)) by (unfold tran_of, x; cbn; by rewrite Hid).
      apply tran_ok_of; [done|done|by right]. }
    exists n'. split.
    + constructor; [by eapply same_ids_trans; [apply Hun|]|by rewrite Hm|intros e He; by rewrite Hoth, (un_oth _ _ _ Hun)|].
      rewrite Hses. unfold written, x. cbn [_curTransID setCurTransLsn setRelatedTransLSN]. rewrite Hid, (proj2 (Z.eqb_neq _ _) (not_eq_sym Hnz)).
      assert (Ef : isFirstOp (getRollbackID t) = false).
      { unfold isFirstOp, getRollbackID. by rewrite Z.land_lor_distr_l, plain_land. }
      rewrite Ef. cbn. by rewrite Hid.
    + exists v'. fold v' in Hl'. rewrite Es in Hl'. split; [done|]. split; [done|]. split; [by apply opt_lsn|]. split; [done|]. cbn [mbind option_bind].
      change (negb (SDB_OK =? SDB_OK)) with false. done.
Qed.

Lemma pop_ne o t st t' : t' <> t -> pop o t st !! t' = o !! t'.
Proof. intros. unfold pop. destruct st; by rewrite ?lookup_delete_ne, ?lookup_insert_ne. Qed.

Lemma pop_eq o t st : pop o t st !! t = match st with [] => None | _ => Some st end.
Proof. unfold pop. destruct st; by rewrite ?lookup_delete_eq, ?lookup_insert_eq. Qed.

Lemma round_step s vs o edu rb a :
  tinv s vs o -> tr_rbs s !! edu = Some rb -> rb_cur rb <> INV -> answer_ok vs a ->
  goes_on s vs (x ← rollback_round woCompare bson_valid node edu a rb (tr_node s);
                match x with
                | Again _ rb n => Some (mkTRun n (<[edu := rb]> (tr_rbs s)))
                | Stop _ _ n => Some (ended s edu rb n)
                end).
Proof.
  intros H Hr Hcur Ha. pose proof (ti_log _ _ _ H) as Hl. pose proof (ti_cur _ _ _ H) as Hc.
  pose proof (ti_ses _ _ _ H edu) as Hs. rewrite Hr in Hs.
  inversion Hs as [| | |k rb' Hk Eid Erb Hst Heq]; subst rb'. destruct Hst as [[_ E]|[st Ho]]; [done|].
  pose proof (tid_plain k _ Hk (proj2 Hc)) as Hp.
  destruct (search_top _ _ _ _ _ _ Hl Ho) as (r & v & id & Er & Hv & Ei & Et & Ep).
  unfold rollback_round. rewrite Er. pose proof (record_view_inv _ _ Hv) as (-> & _). rewrite Ei. cbn [to_option mbind option_bind].
  rewrite Et, Erb, Z.eqb_refl. destruct Hprim as [P1 P2]. apply andb_true_iff in P2 as [-> ->]. cbn [negb andb].
  edestruct (undo_ok (tr_node s) vs o edu a rb st r v) as (n' & [U1 U2 U3 U4] & Hres); rewrite ?Erb; try done.
  { apply tid_bound; [lia|done]. }
  rewrite Erb in Hres. destruct a as [rc|d stp].
  - destruct Hres as [Hl' ->]. cbn [mbind option_bind]. destruct (_ <=? _).
    + eexists _, [], o. split; [done|]. rewrite app_nil_r. unfold ended. cbn -[rollback_done].
      rewrite (proj1 (done_frame _ _ _)). split; [|cbn; rewrite (si_cur _ _ U1); lia].
      eapply (done_tinv s vs o); try done; [|apply lookup_delete_eq]. intros e He. by rewrite lookup_delete_ne, U3.
    + eexists _, [], o. split; [done|]. rewrite app_nil_r. split; [|cbn; rewrite (si_cur _ _ U1); lia].
      eapply (tinv_step s vs o (mkTRun _ _) vs o edu H Hl'); cbn [tr_node tr_rbs]; rewrite ?(si_cur _ _ U1).
      * apply U1.
      * lia.
      * intros e He. by rewrite U3, lookup_insert_ne.
      * rewrite lookup_insert_eq. apply (SesBack _ _ _ k); cbn; try done; [by rewrite U4|]. right. eauto.
      * by left.
      * intros _. left. unfold in_trans, sid. rewrite U4, Eid. split; [by apply tagged_nonzero|done].
  - destruct Hres as (w & Hl' & Ew & _ & _ & ->). cbn [mbind option_bind]. eexists _, [w], _. split; [done|].
    split; [|cbn; rewrite (si_cur _ _ U1); lia].
    eapply (tinv_step s vs o (mkTRun _ _) _ _ edu H Hl'); cbn [tr_node tr_rbs]; rewrite ?(si_cur _ _ U1).
    + apply U1.
    + lia.
    + intros e He. by rewrite U3, lookup_insert_ne.
    + rewrite lookup_insert_eq. apply (SesBack _ _ _ k); cbn; try done; [by rewrite U4|].
      rewrite pop_eq. destruct st as [|l st]; [by left|right; cbn; eauto].
    + intros t. destruct (decide (t = tid k)) as [->|Hne]; [right|left; by apply pop_ne].
      unfold in_trans, sid. rewrite Eid, rollback_id by done. split; [by apply tagged_nonzero|done].
    + intros _. left. unfold in_trans, sid. rewrite U4, Eid. split; [by apply tagged_nonzero|done].
Qed.

(** ** Every run *)

Definition replay_ok (a : taction) : Prop :=
  action_ok bson_valid a /\ match a with ARound _ (Failed rc) => rc <> SDB_OK | _ => True end.

Lemma tstep_ok s vs o a :
  tinv s vs o -> replay_ok a -> cur_of s + 1 < 2 ^ 40 -> goes_on s vs (tstep woCompare bson_valid node s a).
Proof.
  intros H [Ha Hrep] Hc. unfold tstep. destruct (enabled s a) eqn:He; cbn [negb].
  2:{ exists s, [], o. rewrite app_nil_r. split; [done|]. split; [done|lia]. }
  pose proof (ti_log _ _ _ H) as Hl. destruct a as [edu|edu d st|op st|edu p|edu|edu a|edu]; cbn [enabled action_ok] in *.
  - by apply (begin_step s vs o).
  - apply andb_true_iff in He as [H1 H2]. apply (change_step s vs o); [done|done| |done]. by intros st' ->.
  - apply andb_true_iff in He as [H1 H2]. by apply (other_step s vs o).
  - apply andb_true_iff in He as [H1 H2]. apply (commit_step s vs o); [done|done|]. by intros st ->.
  - by apply (start_step s vs o).
  - apply andb_true_iff in He as [H1 H2]. destruct (tr_rbs s !! edu) as [rb|] eqn:Hr; [|done]. cbn [mbind option_bind].
    apply negb_true_iff, Z.eqb_neq in H1. apply (round_step s vs o); [done|done|done|]. destruct a as [rc|d st]; [done|].
    split; [done|]. by apply (stamp_log s vs o).
  - destruct (tr_rbs s !! edu) as [rb|] eqn:Hr; [|done]. cbn [mbind option_bind]. by apply (end_step s vs o).
Qed.

Lemma trun_ok acts s vs o :
  tinv s vs o -> Forall replay_ok acts -> cur_of s + Z.of_nat (length acts) < 2 ^ 40 ->
  exists s' vs' o', trun_all woCompare bson_valid node s acts = Some s' /\ tinv s' (vs ++ vs') o'.
Proof.
  revert s vs o. induction acts as [|a acts IH]; intros s vs o H Hacts Hc.
  - exists s, [], o. by rewrite app_nil_r.
  - inversion Hacts as [|? ? Ha Hr]; subst. cbn [length] in Hc.
    destruct (tstep_ok s vs o a H Ha ltac:(lia)) as (s1 & vs1 & o1 & E & H1 & Hc1).
    destruct (IH s1 _ o1 H1 Hr ltac:(lia)) as (s2 & vs2 & o2 & E2 & H2). exists s2, (vs1 ++ vs2), o2.
    cbn [trun_all]. rewrite E. cbn [mbind option_bind]. by rewrite app_assoc.
Qed.
End invariant.
