(* ===== verification/RtnTransAll.v ===== *)
(** * Transactions of sessions: a new primary

    A node that becomes primary undoes every transaction of its table, each
    from its last change to its first, and the records that it logs finish
    the transactions for every node that reads them. *)

From stdpp Require Import base gmap list option.
From Stdlib Require Import ZArith Lia.
From S2P Require Import Prelude DpsLsn Mem DpsRecord DpsRecordFacts DpsOp2Record DpsOp2Thms DpsOp2Trip.
From S2P Require Import DpsTrans DpsTransFacts DpsTransView RtnTrans RtnTransRun RtnTransInv.

Open Scope Z_scope.

(** ** The first key of a map *)

Section first_key.
Context {A : Type}.
Implicit Types m : gmap Z A.

Lemma first_key_None m : first_key m = None -> m = ∅.
Proof.
  unfold first_key. destruct (map_to_list m) as [|[k x] l] eqn:E; [by intros _; apply map_to_list_empty_iff in E|].
  cbn. by case_match.
Qed.

Lemma first_key_Some m k : first_key m = Some k -> is_Some (m !! k) /\ forall k', is_Some (m !! k') -> k <= k'.
Proof.
  unfold first_key. set (f := fun k o => match o with Some k' => Some (Z.min k k') | None => Some k end).
  assert (H : forall l j, foldr f None l = Some j -> j ∈ l /\ forall j', j' ∈ l -> j <= j').
  { induction l as [|x l IH]; cbn; [done|]. intros j. unfold f at 1. destruct (foldr f None l) as [j0|] eqn:E.
    - intros [= <-]. destruct (IH j0 eq_refl) as [Hin Hle]. split.
      + destruct (Z.min_spec x j0) as [[_ ->]|[_ ->]]; [apply list_elem_of_here|by apply list_elem_of_further].
      + intros j' [->|Hj']%list.elem_of_cons; [lia|]. specialize (Hle _ Hj'). lia.
    - intros [= <-]. destruct l as [|y l]; [|cbn in E; unfold f at 1 in E; by case_match].
      split; [apply list_elem_of_here|]. intros j' Hj'. apply list_elem_of_singleton in Hj' as ->. lia. }
  assert (Hin : forall j, j ∈ (map_to_list m).*1 <-> is_Some (m !! j)).
  { intros j. rewrite list_elem_of_fmap. split.
    - intros ([j' x] & -> & Hx%elem_of_map_to_list). by exists x.
    - intros [x Hx]. exists (j, x). split; [done|]. by apply elem_of_map_to_list. }
  intros E. destruct (H _ _ E) as [H1 H2]. split; [by apply Hin|]. intros k' Hk'. by apply H2, Hin.
Qed.
End first_key.

(** ** Answers *)

(** The answers let [k] changes be undone: never twenty failures in a row. *)
Fixpoint enough (retry : Z) (k : nat) (answers : list replayed) : bool :=
  match k, answers with
  | O, _ => true
  | S _, [] => false
  | S k', Undone _ _ :: answers' => enough 0 k' answers'
  | S _, Failed _ :: answers' => (retry + 1 <? RTN_TRANS_ROLLBACK_RETRY_TIMES) && enough (retry + 1) k answers'
  end.

(** LSNs grow from [lsn] on. *)
Fixpoint stamps_above (bson_valid : list Z -> bool) (lsn : Z) (answers : list replayed) : Prop :=
  match answers with
  | [] => True
  | Failed rc :: answers' => rc <> SDB_OK /\ stamps_above bson_valid lsn answers'
  | Undone d st :: answers' =>
      change_ok bson_valid d /\ lsn < st_lsn st < DPS_INVALID_LSN_OFFSET /\ stamps_above bson_valid (st_lsn st) answers'
  end.

Section all.
Context {Locks : TransLocks}.
Context (woCompare : list Z -> list Z -> Z) (bson_valid : list Z -> bool) (node : nodeState) (Hprim : primary node).

Abbreviation INV := DPS_INVALID_LSN_OFFSET.

(** An id that a transaction can have. *)
Definition good_id (t : Z) : Prop := plain_id t /\ t < 2 ^ 64.

Lemma good_rollback t : good_id t -> u_ok 64 (getRollbackID t).
Proof. intros [[H0 _] H1]. apply lor_bound; [lia|lia|done]. Qed.

(** The stack that is left: none when it is empty. *)
Definition stack_is (o : opens) (t : Z) (st : list Z) : Prop := o !! t = match st with [] => None | _ => Some st end.

Lemma pop_stack o t l st : o !! t = Some (l :: st) -> stack_is (pop o t st) t st.
Proof. intros _. unfold stack_is, pop. destruct st; by rewrite ?lookup_delete_eq, ?lookup_insert_eq. Qed.

Lemma pop_delete o t st : delete t (pop o t st) = delete t o.
Proof. unfold pop. destruct st; by rewrite ?delete_delete_eq, ?delete_insert_eq. Qed.

(** What the rollback of transaction [t] with the stack [st] logs. *)
Definition undoes (t : Z) (st : list Z) (ws : list tview) : Prop :=
  Forall (fun w => v_trans w = Some (getRollbackID t)) ws /\ v_related <$> ws = Some <$> st.

(** The state of a rollback of [t] with the stack [st] to go. *)
Record inner (edu t : Z) (n : tnode) (vs : list tview) (o : opens) (st : list Z) (lsn : Z) : Prop := {
  in_log : log_inv n vs o;
  in_stack : stack_is o t st;
  in_ses : _curTransID (ses n edu) = getRollbackID t;
  in_do : _doRollback (tn_cb n) = true;
  in_map : is_Some (_TransMap (tn_cb n) !! t);
  in_lsns : Forall (fun u => v_lsn u <= lsn) vs;
  in_lsn : -1 <= lsn
}.

(** What the inner loop leaves behind. *)
Definition inner_done (edu t : Z) (k : nat) (n : tnode) (vs : list tview) (o : opens) (st : list Z) (e : option inner_end) : Prop :=
  exists n' ws answers retry lsn,
    e = Some (Ended SDB_OK retry n' answers) /\ inner edu t n' (vs ++ ws) (delete t o) [] lsn /\ undoes t st ws /\
    same_ids (tn_cb n) (tn_cb n') /\ delete t (_TransMap (tn_cb n')) = delete t (_TransMap (tn_cb n)) /\
    enough retry k answers = true /\ stamps_above bson_valid lsn answers.

Lemma inner_end_ok edu t k answers retry n vs o lsn :
  inner edu t n vs o [] lsn -> enough retry k answers = true -> stamps_above bson_valid lsn answers ->
  inner_done edu t k n vs o []
    (all_inner woCompare bson_valid node edu answers (mkRollback t INV retry) SDB_OK n).
Proof.
  intros [H1 H2 H3 H4 H5 H6 H7] He Hs. exists n, [], answers, retry, lsn. rewrite app_nil_r. cbn in H2.
  split; [by destruct answers|]. by rewrite delete_id by done.
Qed.

(** One change undone. *)
Lemma inner_undone edu t n vs o l st lsn lsn' n' w :
  inner edu t n vs o (l :: st) lsn -> undone n n' edu -> log_inv n' (vs ++ [w]) (pop o t st) -> v_lsn w = lsn' -> lsn < lsn' ->
  exists n1, iter_set n' t (default INV (head st)) = Some n1 /\ inner edu t n1 (vs ++ [w]) (pop o t st) st lsn' /\
    same_ids (tn_cb n) (tn_cb n1) /\ delete t (_TransMap (tn_cb n1)) = delete t (_TransMap (tn_cb n)).
Proof.
  intros [H1 H2 H3 H4 [x H5] H6 H7] [U1 U2 U3 U4] Hl Ew Hlt. unfold iter_set. rewrite U2, H5. cbn [mbind option_bind].
  eexists. split; [done|]. cbn [set_cb tn_cb with_TransMap _TransMap]. split_and!.
  - constructor; [by eapply log_inv_same|exact (pop_stack o t l st H2)|by rewrite <- H3, <- U4| | | |lia].
    + cbn. by rewrite (si_do _ _ U1).
    + cbn. rewrite lookup_insert_eq. by eexists.
    + apply list.Forall_app. split; [|constructor; [lia|done]]. eapply list.Forall_impl; [done|]. cbn. lia.
  - constructor; cbn; apply U1.
  - by rewrite delete_insert_eq.
Qed.

Lemma inner_ok edu t k : good_id t -> forall answers retry rc n vs o l st lsn,
  inner edu t n vs o (l :: st) lsn -> enough retry (S (length st) + k) answers = true -> stamps_above bson_valid lsn answers ->
  inner_done edu t k n vs o (l :: st) (all_inner woCompare bson_valid node edu answers (mkRollback t l retry) rc n).
Proof.
  intros Hid. induction answers as [|a answers IH]; intros retry rc n vs o l st lsn H Hen Hab; [done|].
  pose proof (in_log _ _ _ _ _ _ _ H) as Hl. pose proof (in_stack _ _ _ _ _ _ _ H) as Ho. unfold stack_is in Ho.
  assert (Hb : 0 <= l < INV) by (eapply stack_lsn; [apply Hl|exact Ho|apply list_elem_of_here]).
  cbn [all_inner rb_cur rb_transID]. rewrite (proj2 (Z.eqb_neq _ _)) by lia. rewrite (in_do _ _ _ _ _ _ _ H). cbn [negb].
  destruct (search_top _ _ _ _ _ _ Hl Ho) as (r & v & id & -> & Hv & Ei & Et & Ep).
  pose proof (record_view_inv _ _ Hv) as (-> & _). rewrite Ei. cbn [to_option mbind option_bind]. rewrite Et, Z.eqb_refl. cbn [negb].
  edestruct (undo_ok woCompare bson_valid node Hprim n vs o edu a (mkRollback t l retry) st r v) as (n' & Hun & Hres);
    cbn [rb_transID rb_cur]; try done; [apply Hid|by apply good_rollback|apply H| |].
  { destruct a as [rc'|d stp]; cbn in Hab; [apply Hab|]. destruct Hab as (Hd & Hs & _). split; [done|].
    pose proof (in_lsn _ _ _ _ _ _ _ H). split; [|lia]. eapply list.Forall_impl; [apply H|]. cbn. lia. }
  cbn [rb_transID rb_cur rb_retry] in Hres. destruct a as [rc'|d stp].
  - cbn [enough plus] in Hen. apply andb_true_iff in Hen as [He1 He2]. destruct Hres as [Hl' ->]. cbn [mbind option_bind].
    destruct (Z.leb_spec RTN_TRANS_ROLLBACK_RETRY_TIMES (retry + 1)); [lia|]. cbn in Hab. destruct Hab as [Hrc Hab].
    rewrite (proj2 (Z.eqb_neq _ _) Hrc). cbn [mbind option_bind].
    destruct Hun as [U1 U2 U3 U4]. destruct (IH (retry + 1) rc' n' vs o l st lsn) as (n2 & ws & as2 & r2 & l2 & E & D1 & D2 & D3 & D4 & D5 & D6).
    + destruct H as [H1 H2 H3 H4 H5 H6 H7]. constructor; try done; [by rewrite U4|by rewrite (si_do _ _ U1)|by rewrite U2].
    + done.
    + done.
    + exists n2, ws, as2, r2, l2. split_and!; try done; [by eapply same_ids_trans|by rewrite D4, U2].
  - destruct Hres as (w & Hl' & Ew & Er & Elsn & ->). cbn [mbind option_bind]. change (SDB_OK =? SDB_OK) with true. cbv iota.
    destruct Hab as (Hd & Hs & Hab). cbn [enough plus] in Hen.
    destruct (inner_undone edu t n vs o l st lsn (st_lsn stp) n' w) as (n1 & E1 & H1 & S1 & M1); try done; [lia|].
    cbn [rb_cur]. rewrite E1. cbn [mbind option_bind].
    assert (inner_done edu t k n1 (vs ++ [w]) (pop o t st) st
              (all_inner woCompare bson_valid node edu answers (mkRollback t (default INV (head st)) 0) SDB_OK n1))
      as (n2 & ws & as2 & r2 & l2 & E & D1 & D2 & D3 & D4 & D5 & D6).
    { destruct st as [|l' st]; [by eapply inner_end_ok|]. by eapply IH. }
    exists n2, (w :: ws), as2, r2, l2. rewrite pop_delete, <- app_assoc in D1. cbn in D1.
    split_and!; try done; [|by eapply same_ids_trans|by rewrite D4]. destruct D2 as [F1 F2].
    split; [by constructor|]. cbn. by rewrite F2, Er.
Qed.

(** The number of changes to undo. *)
Definition changes (o : opens) : nat := map_fold (fun _ st k => (length st + k)%nat) 0%nat o.

Lemma changes_delete o t st : o !! t = Some st -> changes o = (length st + changes (delete t o))%nat.
Proof. intros Ht. unfold changes. rewrite (map_fold_delete_L _ _ t st o); [done| |done]. intros. lia. Qed.

(** The records [ws] undo the changes of [o]: those of each transaction from
    the last to the first, and nothing else. *)
Record undo_all (o : opens) (ws : list tview) : Prop := {
  ua_each t st : o !! t = Some st -> v_related <$> filter (fun w => v_trans w = Some (getRollbackID t)) ws = Some <$> st;
  ua_only w : w ∈ ws -> exists t, is_Some (o !! t) /\ v_trans w = Some (getRollbackID t)
}.

Lemma rollback_inj t t' : plain_id t -> plain_id t' -> getRollbackID t = getRollbackID t' -> t = t'.
Proof. intros H H' E. rewrite <- (rollback_id t H), <- (rollback_id t' H'). by rewrite E. Qed.

Lemma filter_all {A} (P : A -> Prop) `{!forall x, Decision (P x)} l : Forall P l -> filter P l = l.
Proof. induction 1 as [|x l Hx _ IH]; [done|]. rewrite filter_cons_True by done. by rewrite IH. Qed.

Lemma filter_none {A} (P : A -> Prop) `{!forall x, Decision (P x)} l : Forall (fun x => ~ P x) l -> filter P l = [].
Proof. induction 1 as [|x l Hx _ IH]; [done|]. by rewrite filter_cons_False. Qed.

Lemma undo_all_cons o t st ws ws' :
  (forall t st, o !! t = Some st -> plain_id t) -> o !! t = Some st -> undoes t st ws -> undo_all (delete t o) ws' ->
  undo_all o (ws ++ ws').
Proof.
  intros Hid Ht [F1 F2] [G1 G2].
  assert (Hno : filter (fun w => v_trans w = Some (getRollbackID t)) ws' = []).
  { apply filter_none, list.Forall_forall. intros w Hw E. destruct (G2 w Hw) as (t' & [st' Ht'] & E').
    apply lookup_delete_Some in Ht' as [Hne Ht']. apply Hne. eapply rollback_inj; [by eapply Hid..|congruence]. }
  constructor.
  - intros t1 st1 Ht1. rewrite list.filter_app, fmap_app. destruct (decide (t1 = t)) as [->|Hne].
    + rewrite Ht in Ht1. injection Ht1 as ->. rewrite Hno, filter_all, F2 by done. by rewrite app_nil_r.
    + rewrite (G1 t1 st1) by (by rewrite lookup_delete_ne).
      assert (E : filter (fun w => v_trans w = Some (getRollbackID t1)) ws = []); [|by rewrite E].
      apply filter_none, list.Forall_forall. intros w Hw E. rewrite list.Forall_forall in F1. rewrite (F1 _ Hw) in E.
      apply Hne. symmetry. eapply rollback_inj; [by eapply Hid..|congruence].
  - intros w [Hw|Hw]%elem_of_app.
    + exists t. rewrite list.Forall_forall in F1. split; [by eexists|by apply F1].
    + destruct (G2 w Hw) as (t' & [st' Ht'] & E'). apply lookup_delete_Some in Ht' as [_ Ht']. exists t'. split; [by eexists|done].
Qed.

Lemma all_ok edu fuel : forall answers retry n vs o lsn,
  log_inv n vs o -> (forall t, _TransMap (tn_cb n) !! t = (o !! t ≫= head)) -> (forall t st, o !! t = Some st -> good_id t) ->
  _doRollback (tn_cb n) = true -> Forall (fun u => v_lsn u <= lsn) vs -> -1 <= lsn -> size (_TransMap (tn_cb n)) = fuel ->
  enough retry (changes o) answers = true -> stamps_above bson_valid lsn answers ->
  exists n' ws, all_loop woCompare bson_valid fuel node edu answers retry SDB_OK n = Some (SDB_OK, n') /\
    log_inv n' (vs ++ ws) ∅ /\ _TransMap (tn_cb n') = ∅ /\ same_ids (tn_cb n) (tn_cb n') /\ undo_all o ws.
Proof.
  induction fuel as [|fuel IH]; intros answers retry n vs o lsn Hl Hm Hid Hdo Hlsn Hl0 Hsz Hen Hab.
  - apply map_size_empty_inv in Hsz. exists n, [].
    assert (Ho : o = ∅).
    { apply map_eq. intros t. specialize (Hm t). rewrite Hsz, lookup_empty in Hm. rewrite lookup_empty.
      destruct (o !! t) as [st|] eqn:Et; [|done]. destruct (history_linked _ _ _ _ (li_hist _ _ _ Hl) Et) as [Hne _].
      by destruct st. }
    cbn [all_loop]. rewrite Hsz, app_nil_r, <- Ho. split; [done|]. split_and!; try done.
    rewrite Ho. constructor; [intros t st E; by rewrite lookup_empty in E|intros w Hw; by apply elem_of_nil in Hw].
  - cbn [all_loop]. destruct (first_key (_TransMap (tn_cb n))) as [t|] eqn:Ek.
    2:{ apply first_key_None in Ek. by rewrite Ek, map_size_empty in Hsz. }
    destruct (first_key_Some _ _ Ek) as [[l Htl] _]. rewrite Htl. cbn [mbind option_bind].
    pose proof (Hm t) as Hmt. rewrite Htl in Hmt. destruct (o !! t) as [st0|] eqn:Et; [|done].
    destruct st0 as [|l' st]; [done|]. cbn in Hmt. injection Hmt as <-.
    set (n1 := set_ses n edu _). pose proof (changes_delete _ _ _ Et) as Hch. rewrite Hch in Hen.
    assert (Hin : inner edu t n1 vs o (l :: st) lsn).
    { constructor; [by eapply log_inv_same|done|by unfold n1; rewrite ses_set|done|by exists l|done|done]. }
    destruct (inner_ok edu t (changes (delete t o)) (Hid _ _ Et) answers retry SDB_OK n1 vs o l st lsn Hin Hen Hab)
      as (n2 & ws & as2 & r2 & l2 & -> & [I1 I2 I3 I4 I5 I6 I7] & D2 & D3 & D4 & D5 & D6).
    cbn [mbind option_bind]. unfold iter_erase. destruct I5 as [y Hy]. rewrite Hy. cbn [mbind option_bind].
    set (n3 := set_cb n2 _).
    assert (Em : _TransMap (tn_cb n3) = delete t (_TransMap (tn_cb n))) by (exact D4).
    destruct (IH as2 r2 n3 (vs ++ ws) (delete t o) l2) as (n4 & ws' & E & G1 & G2 & G3 & G4); try done.
    + by eapply log_inv_same.
    + intros t'. rewrite Em. destruct (decide (t = t')) as [<-|Hne]; [by rewrite !lookup_delete_eq|].
      by rewrite !lookup_delete_ne.
    + intros t' st' E'. apply lookup_delete_Some in E' as [_ E']. by eapply Hid.
    + rewrite Em, map_size_delete_Some by (by eexists). lia.
    + exists n4, (ws ++ ws'). rewrite app_assoc. split_and!; try done.
      * eapply same_ids_trans; [|exact G3]. destruct D3. by constructor.
      * eapply undo_all_cons; [|done..]. intros. by eapply Hid.
Qed.

(** The whole rollback of a new primary. *)
Lemma rollbackAll_ok edu answers n vs o lsn :
  log_inv n vs o -> (forall t, _TransMap (tn_cb n) !! t = (o !! t ≫= head)) -> (forall t st, o !! t = Some st -> good_id t) ->
  _doRollback (tn_cb n) = true -> Forall (fun u => v_lsn u <= lsn) vs -> -1 <= lsn ->
  enough 0 (changes o) answers = true -> stamps_above bson_valid lsn answers ->
  exists n' ws, rtnTransRollbackAll woCompare bson_valid node edu answers n = Some (SDB_OK, n') /\
    log_inv n' (vs ++ ws) ∅ /\ _TransMap (tn_cb n') = ∅ /\ undo_all o ws /\
    _doRollback (tn_cb n') = false /\ _rollbackEvent (tn_cb n') = true.
Proof.
  intros Hl Hm Hid Hdo Hlsn Hl0 Hen Hab. unfold rtnTransRollbackAll. set (n1 := set_ses n edu _).
  destruct (all_ok edu (size (_TransMap (tn_cb n))) answers 0 n1 vs o lsn) as (n2 & ws & E & H1 & H2 & H3 & H4); try done.
  { by eapply log_inv_same. }
  change (size (_TransMap (tn_cb n1))) with (size (_TransMap (tn_cb n))). rewrite E. cbn [mbind option_bind].
  destruct (cb_release n2 edu) as [Ec El]. eexists _, ws. split; [done|]. split_and!; try done.
  - eapply log_inv_same; [exact H1|exact El|cbn; by rewrite Ec..].
  - cbn. by rewrite Ec.
Qed.
End all.
