(* ===== verification/RtnTransThms.v ===== *)
(** * Transactions of sessions: theorems *)

From stdpp Require Import base gmap list option.
From Stdlib Require Import ZArith Lia.
From S2P Require Import Prelude DpsLsn Mem DpsRecord DpsRecordFacts DpsOp2Record DpsOp2Thms DpsOp2Trip.
From S2P Require Import DpsTrans DpsTransFacts DpsTransView RtnTrans RtnTransRun RtnTransInv RtnTransAll.

Open Scope Z_scope.

(** ** Nodes that read the log *)

(** A node that saves the records of a log, one after the other. *)
Fixpoint saveAll (node : nodeState) (cb : dpsTransCB) (log : list dpsLogRecord) : outcome dpsTransCB :=
  match log with
  | [] => Ret cb
  | r :: log' => cb ← saveTransInfoFromLog node cb r; saveAll node cb log'
  end.

(** A node that takes records back, the last one first; it gives up at the
    first one that cannot be taken back. *)
Fixpoint takeBack (node : nodeState) (cb : dpsTransCB) (records : list dpsLogRecord) : outcome (bool * dpsTransCB) :=
  match records with
  | [] => Ret (true, cb)
  | r :: records' =>
      '(ok, cb) ← rollbackTransInfoFromLog node cb r;
      if (ok : bool) then takeBack node cb records' else Ret (false, cb)
  end.

Lemma saveAll_views node log vs cb : Forall2 logged log vs -> saveAll node cb log = Ret (foldl (save_view node) cb vs).
Proof.
  intros H. revert cb. induction H as [|r v log vs Hr _ IH]; intros cb; [done|]. cbn [saveAll foldl].
  rewrite (save_of_view node cb r v Hr). cbn [mbind outcome_bind]. apply IH.
Qed.

Lemma saveAll_table node log vs o cb :
  replica node -> Forall2 logged log vs -> history vs o ->
  exists cb', saveAll node (clearTransInfo cb) log = Ret cb' /\ table_ok cb' o.
Proof.
  intros Hn Hl Hh. eexists. split; [by apply saveAll_views|].
  apply (read_from node 0 [] vs o cb Hn Hh); [constructor|]. intros t. by eapply old_zero.
Qed.

(** Taking back the end of a history leads to the table of its beginning. *)
Lemma takeBack_table node vs us log o1 o2 cb :
  replica node -> history vs o1 -> history (vs ++ us) o2 -> Forall2 logged log us -> table_ok cb o2 ->
  exists cb', takeBack node cb (rev log) = Ret (true, cb') /\ table_ok cb' o1.
Proof.
  intros Hn H1. revert log o2 cb. induction us as [|v us IH] using rev_ind; intros log o2 cb H2 Hl Ht.
  - apply Forall2_nil_inv_r in Hl as ->. rewrite app_nil_r in H2. rewrite (history_fun _ _ _ H1 H2). by exists cb.
  - apply Forall2_app_inv_r in Hl as (log' & l' & Hl & Hr & ->).
    apply Forall2_cons_inv_r in Hr as (r & l'' & Hr & Hnil & ->). apply Forall2_nil_inv_r in Hnil as ->.
    rewrite app_assoc in H2. apply history_snoc_inv in H2 as (o' & -> & H2 & Hv & Hlt & Hb).
    destruct (rollback_table node cb _ o' v Hn H2 Hv Hlt Hb Ht) as (cb1 & E & Ht1).
    destruct (IH log' o' cb1 H2 Hl Ht1) as (cb2 & E2 & Ht2). exists cb2. split; [|done].
    rewrite rev_app_distr. cbn [rev app takeBack]. rewrite (rollback_of_view node cb r v Hr), E. cbn [mbind outcome_bind]. done.
Qed.

(** ** Runs *)

(** A primary at the beginning of its term: the transactions of the log it
    has are finished. *)
Definition term_start {Locks : TransLocks} (nodeID : Z) (lk : locks) (log : list dpsLogRecord) : trun :=
  mkTRun (mkTNode (onRegistered (mkTransCB 0 1 ∅ ∅ true false true ∅ ∅ false 0 0 0) nodeID) ∅ lk log) ∅.

Lemma start_tinv {Locks : TransLocks} nodeID lk log vs :
  Forall2 logged log vs -> history vs ∅ -> tinv nodeID (term_start nodeID lk log) vs ∅.
Proof.
  intros Hl Hh. constructor; cbn.
  - constructor; try done. apply (table_bg 0 (clearTransInfo (tn_cb (tr_node (term_start nodeID lk log))))), table_clear.
  - done.
  - lia.
  - intros edu. rewrite lookup_empty. by apply SesNone.
  - intros e e' _ Hx. by destruct Hx.
  - intros t st E. by rewrite lookup_empty in E.
Qed.

(** The steps of a term. *)
Record term (bson_valid : list Z -> bool) (node : nodeState) (nodeID : Z) (log : list dpsLogRecord) (acts : list taction) : Prop := {
  tm_primary : primary node;
  tm_node : 0 <= nodeID < 2 ^ 16;
  tm_log : exists vs, Forall2 logged log vs /\ history vs ∅;
  tm_acts : Forall (replay_ok bson_valid) acts;
  tm_ids : 1 + Z.of_nat (length acts) < 2 ^ 40
}.

Lemma term_reach {Locks : TransLocks} woCompare bson_valid node nodeID lk log acts :
  term bson_valid node nodeID log acts ->
  exists s vs o, trun_all woCompare bson_valid node (term_start nodeID lk log) acts = Some s /\ tinv nodeID s vs o.
Proof.
  intros [H1 H2 (vs & H3 & H4) H5 H6].
  destruct (trun_ok woCompare bson_valid node H1 nodeID H2 acts (term_start nodeID lk log) vs ∅) as (s & us & o & E & H);
    [by apply start_tinv|done|done|]. by exists s, (vs ++ us), o.
Qed.

(** C2: Whatever sessions of a primary do - begin, change, commit, roll back
    round by round with failing replays, in any interleaving - every step
    returns, the log is a history of transactions, each session stands at
    the last change of its transaction, and every node that saves the
    records of the log has exactly the unfinished transactions in its table,
    each with the LSN of its last change that is not undone, and their first
    LSNs in two maps that are inverse to each other. *)
Theorem replicas_track_transactions {Locks : TransLocks} woCompare bson_valid node nodeID (lk : locks)
    (log : list dpsLogRecord) (acts : list taction) :
  term bson_valid node nodeID log acts ->
  exists s vs o, trun_all woCompare bson_valid node (term_start nodeID lk log) acts = Some s /\
    Forall2 logged (tn_log (tr_node s)) vs /\ history vs o /\
    (forall edu, ses_ok nodeID o (_TransIDL48Cur (tn_cb (tr_node s))) (ses (tr_node s) edu) (tr_rbs s !! edu)) /\
    forall reader cb, replica reader ->
      exists cb', saveAll reader (clearTransInfo cb) (tn_log (tr_node s)) = Ret cb' /\ table_ok cb' o.
Proof.
  intros HT. destruct (term_reach woCompare bson_valid node nodeID lk log acts HT) as (s & vs & o & E & H).
  exists s, vs, o. destruct (ti_log _ _ _ _ H) as [H1 H2 H3 H4]. split; [done|]. split; [done|]. split; [done|].
  split; [apply (ti_ses _ _ _ _ H)|]. intros reader cb Hn. by eapply saveAll_table.
Qed.

(** C22: A node whose log is ahead of the new primary takes records back:
    from the table of a log that a primary wrote, taking back its last
    records in reverse order succeeds and leaves exactly the table of the
    log without them, commits and rollbacks among them included. *)
Theorem rollback_restores_table {Locks : TransLocks} woCompare bson_valid node nodeID (lk : locks)
    (log : list dpsLogRecord) (acts : list taction) (s : trun) (kept lost : list dpsLogRecord) (reader : nodeState) (cb : dpsTransCB) :
  term bson_valid node nodeID log acts ->
  trun_all woCompare bson_valid node (term_start nodeID lk log) acts = Some s ->
  tn_log (tr_node s) = kept ++ lost -> replica reader ->
  exists cb1 cb2 cb3, saveAll reader (clearTransInfo cb) kept = Ret cb1 /\
    saveAll reader (clearTransInfo cb) (kept ++ lost) = Ret cb2 /\ takeBack reader cb2 (rev lost) = Ret (true, cb3) /\
    _TransMap cb3 = _TransMap cb1 /\ _beginLsnIdMap cb3 = _beginLsnIdMap cb1 /\ _idBeginLsnMap cb3 = _idBeginLsnMap cb1.
Proof.
  intros HT E Elog Hn. destruct (term_reach woCompare bson_valid node nodeID lk log acts HT) as (s' & vs & o & E' & H).
  rewrite E in E'. injection E' as <-. destruct (ti_log _ _ _ _ H) as [H1 H2 _ _]. rewrite Elog in H1.
  apply Forall2_app_inv_l in H1 as (vs1 & vs2 & F1 & F2 & ->). destruct (history_prefix _ _ _ H2) as [o1 H3].
  destruct (saveAll_table reader kept vs1 o1 cb Hn F1 H3) as (cb1 & E1 & T1).
  destruct (saveAll_table reader (kept ++ lost) (vs1 ++ vs2) o cb Hn (Forall2_app F1 F2) H2) as (cb2 & E2 & T2).
  destruct (takeBack_table reader vs1 vs2 lost o1 o cb2 Hn H3 H2 F2 T2) as (cb3 & E3 & T3).
  exists cb1, cb2, cb3. destruct (table_unique _ _ _ T3 T1) as (M1 & M2 & M3). done.
Qed.

(** C23: A node that becomes primary finishes what the old one left: with the
    table it has from the log, [rtnTransRollbackAll] undoes the changes of
    every unfinished transaction, each transaction from its last change to
    its first and nothing else, through failing replays as long as fewer
    than twenty fail in a row; it empties the table, ends the rollback task,
    and the records it logs leave every node that saves the log with an
    empty table. *)
Theorem new_primary_undoes_all {Locks : TransLocks} woCompare bson_valid node edu (answers : list replayed)
    (n : tnode) (vs : list tview) (o : opens) (lsn : Z) :
  primary node -> Forall2 logged (tn_log n) vs -> history vs o -> table_ok (tn_cb n) o ->
  _isOn (tn_cb n) = true -> _doRollback (tn_cb n) = true -> (forall t st, o !! t = Some st -> good_id t) ->
  Forall (fun v => v_lsn v <= lsn) vs -> -1 <= lsn ->
  enough 0 (changes o) answers = true -> stamps_above bson_valid lsn answers ->
  exists n' ws, rtnTransRollbackAll woCompare bson_valid node edu answers n = Some (SDB_OK, n') /\
    Forall2 logged (tn_log n') (vs ++ ws) /\ undo_all o ws /\ _TransMap (tn_cb n') = ∅ /\
    _doRollback (tn_cb n') = false /\ _rollbackEvent (tn_cb n') = true /\
    forall reader cb, replica reader ->
      exists cb', saveAll reader (clearTransInfo cb) (tn_log n') = Ret cb' /\ table_ok cb' ∅.
Proof.
  intros Hp Hl Hh Ht Hon Hdo Hid Hlsn Hl0 Hen Hab.
  destruct (rollbackAll_ok woCompare bson_valid node Hp edu answers n vs o lsn) as (n' & ws & E & Hl' & Hm & Hun & H1 & H2); try done.
  - constructor; try done. by apply table_bg.
  - apply Ht.
  - exists n', ws. destruct Hl' as [V1 V2 V3 V4]. split_and!; try done. intros reader cb Hn. by eapply saveAll_table.
Qed.

(** ** A sample

    Session 1 makes two changes, session 2 one between them, which it
    commits; the rollback of session 1 fails once, undoes its second change
    and stops before its first. *)

#[local] Instance no_locks : TransLocks := {| locks := unit; lk_releaseAll _ l := l |}.

Definition no_lock : @locks no_locks := tt.

Definition a_name : list Z := [97; 46; 98].
Definition an_obj : list Z := [5; 0; 0; 0; 0].
Definition at_lsn (lsn : Z) : stamp := mkStamp lsn 0 100 1.
Definition valid_all : list Z -> bool := fun _ => true.
Definition same_all : list Z -> list Z -> Z := fun _ _ => 0.
Definition the_primary : nodeState := mkNode false true true.
Definition a_replica : nodeState := mkNode false true false.

Definition sample_acts : list taction :=
  [ABegin 1; ABegin 2; AChange 1 (Insert a_name an_obj) (inr (at_lsn 100)); AChange 2 (Insert a_name an_obj) (inr (at_lsn 200));
   AChange 1 (Delete a_name an_obj) (inr (at_lsn 300)); ACommit 2 (inr (at_lsn 400)); AOther (OpCSDel a_name) (at_lsn 500);
   AStart 1; ARound 1 (Failed SDB_SYS); ARound 1 (Undone (Insert a_name an_obj) (at_lsn 600))].

Lemma a_name_ok : name_ok a_name.
Proof. split; [|done]. repeat constructor; cbn; done. Qed.

Lemma an_obj_ok : obj_ok an_obj.
Proof. split; [done|]. unfold BSONObjMaxInternalSize, an_obj. cbn [length]. lia. Qed.

Lemma insert_ok : change_ok valid_all (Insert a_name an_obj).
Proof. intros t Ht. split_and!; [apply a_name_ok|apply an_obj_ok|done]. Qed.

Lemma delete_ok : change_ok valid_all (Delete a_name an_obj).
Proof. intros t Ht. split_and!; [apply a_name_ok|apply an_obj_ok|done]. Qed.

Lemma sample_term : term valid_all the_primary 7 [] sample_acts.
Proof.
  constructor; [done|lia|exists []; split; constructor| |cbn; lia].
  pose proof insert_ok as H1. pose proof delete_ok as H2. pose proof a_name_ok as H3.
  repeat (apply list.Forall_cons; split); try apply list.Forall_nil; try (split; done).
Qed.

(** The table of a replica of the sample. *)
Lemma replicas_track_transactions_witness :
  exists s cb', trun_all same_all valid_all the_primary (term_start 7 no_lock []) sample_acts = Some s /\
    saveAll a_replica (clearTransInfo transCB_new) (tn_log (tr_node s)) = Ret cb' /\
    map_to_list (_TransMap cb') = [(new_id 7 1, 100)] /\ map_to_list (_idBeginLsnMap cb') = [(new_id 7 1, 100)].
Proof.
  destruct (replicas_track_transactions same_all valid_all the_primary 7 no_lock [] sample_acts sample_term)
    as (s & vs & o & E & _ & _ & _ & Hr).
  destruct (Hr a_replica transCB_new) as (cb' & Ec & _); [split; reflexivity|]. exists s, cb'. split; [exact E|]. split; [exact Ec|].
  assert (Hc : match trun_all same_all valid_all the_primary (term_start 7 no_lock []) sample_acts with
               | Some s => match saveAll a_replica (clearTransInfo transCB_new) (tn_log (tr_node s)) with
                           | Ret cb => (map_to_list (_TransMap cb), map_to_list (_idBeginLsnMap cb))
                           | _ => ([], [])
                           end
               | None => ([], [])
               end = ([(new_id 7 1, 100)], [(new_id 7 1, 100)])) by (vm_compute; reflexivity).
  rewrite E, Ec in Hc. injection Hc as -> ->. split; reflexivity.
Defined.

(** The last three records of the sample, a commit and an undone change among
    them, are taken back. *)
Lemma rollback_restores_table_witness :
  exists s cb2 cb3, trun_all same_all valid_all the_primary (term_start 7 no_lock []) sample_acts = Some s /\
    saveAll a_replica (clearTransInfo transCB_new) (tn_log (tr_node s)) = Ret cb2 /\
    takeBack a_replica cb2 (rev (drop 3 (tn_log (tr_node s)))) = Ret (true, cb3) /\
    map_to_list (_TransMap cb2) = [(new_id 7 1, 100)] /\
    _TransMap cb3 !! new_id 7 1 = Some 300 /\ _TransMap cb3 !! new_id 7 2 = Some 200 /\ size (_TransMap cb3) = 2%nat.
Proof.
  destruct (term_reach same_all valid_all the_primary 7 no_lock [] sample_acts sample_term) as (s & vs & o & E & _).
  destruct (rollback_restores_table same_all valid_all the_primary 7 no_lock [] sample_acts s (take 3 (tn_log (tr_node s)))
              (drop 3 (tn_log (tr_node s))) a_replica transCB_new sample_term E) as (cb1 & cb2 & cb3 & E1 & E2 & E3 & M & _);
    [symmetry; apply take_drop|split; reflexivity|].
  rewrite take_drop in E2. exists s, cb2, cb3. split; [exact E|]. split; [exact E2|]. split; [exact E3|].
  assert (Hc : match trun_all same_all valid_all the_primary (term_start 7 no_lock []) sample_acts with
               | Some s => match saveAll a_replica (clearTransInfo transCB_new) (tn_log (tr_node s)),
                                 saveAll a_replica (clearTransInfo transCB_new) (take 3 (tn_log (tr_node s))) with
                           | Ret cb2, Ret cb1 => (map_to_list (_TransMap cb2), _TransMap cb1 !! new_id 7 1, _TransMap cb1 !! new_id 7 2,
                                                  size (_TransMap cb1))
                           | _, _ => ([], None, None, 0%nat)
                           end
               | None => ([], None, None, 0%nat)
               end = ([(new_id 7 1, 100)], Some 300, Some 200, 2%nat)) by (vm_compute; reflexivity).
  rewrite E, E2, E1 in Hc. rewrite M. apply pair_eq in Hc as [[[Hc1 Hc2]%pair_eq Hc3]%pair_eq Hc4].
  split; [exact Hc1|]. split; [exact Hc2|]. split; [exact Hc3|exact Hc4].
Defined.

(** A replica of the sample after it became primary. *)
Definition sample_answers : list replayed := [Failed SDB_SYS; Undone (Delete a_name an_obj) (at_lsn 700)].

Definition views_of (log : list dpsLogRecord) : list tview :=
  omap (fun r => match record_view r with Ret v => Some v | _ => None end) log.

Lemma logged_views log vs : Forall2 logged log vs -> vs = views_of log.
Proof. induction 1 as [|r v log vs Hr _ IH]; [done|]. cbn. rewrite Hr. by f_equal. Qed.

Lemma history_opens vs o : history vs o -> o = foldl spec_step ∅ vs.
Proof. induction 1 as [|vs o v _ IH]; [done|]. by rewrite foldl_app, <- IH. Qed.

Definition sample_cb : dpsTransCB := mkTransCB 0 1 ∅ ∅ true true false ∅ ∅ false 0 0 0.

Definition sample_node (s : @trun no_locks) : @tnode no_locks :=
  mkTNode (foldl (save_view a_replica) (clearTransInfo sample_cb) (views_of (tn_log (tr_node s)))) ∅ no_lock (tn_log (tr_node s)).

Lemma new_primary_undoes_all_witness :
  exists s n' ws, trun_all same_all valid_all the_primary (term_start 7 no_lock []) sample_acts = Some s /\
    rtnTransRollbackAll same_all valid_all the_primary 9 sample_answers (sample_node s) = Some (SDB_OK, n') /\
    Forall2 logged (tn_log n') ws /\ _TransMap (tn_cb n') = ∅ /\ _doRollback (tn_cb n') = false.
Proof.
  destruct (term_reach same_all valid_all the_primary 7 no_lock [] sample_acts sample_term) as (s & vs & o & E & H).
  destruct (ti_log _ _ _ _ H) as [H1 H2 _ _]. pose proof (logged_views _ _ H1) as Ev. pose proof (history_opens _ _ H2) as Eo.
  pose proof (saveAll_views a_replica _ _ (clearTransInfo sample_cb) H1) as Es. rewrite Ev in Es.
  destruct (saveAll_table a_replica _ vs o sample_cb ltac:(split; reflexivity) H1 H2) as (cb & Ec & Ht). rewrite Ec in Es. injection Es as ->.
  assert (Hc : match trun_all same_all valid_all the_primary (term_start 7 no_lock []) sample_acts with
               | Some s => let n := sample_node s in let vs := views_of (tn_log (tr_node s)) in
                   (_isOn (tn_cb n), _doRollback (tn_cb n), forallb (fun v => v_lsn v <=? 600) vs, map_to_list (foldl spec_step ∅ vs))
               | None => (false, false, false, [])
               end = (true, true, true, [(new_id 7 1, [100])])) by (vm_compute; reflexivity).
  rewrite E in Hc. cbv zeta in Hc. rewrite <- Ev, <- Eo in Hc. apply pair_eq in Hc as [[[Eon Edo]%pair_eq Elsn]%pair_eq Em].
  assert (Eo' : o = {[new_id 7 1 := [100]]}) by (rewrite <- (list_to_map_to_list o), Em; reflexivity).
  destruct (new_primary_undoes_all same_all valid_all the_primary 9 sample_answers (sample_node s) vs o 600) as (n' & ws & E' & Hl & _ & Hm & Hd & _);
    [split; reflexivity|exact H1|exact H2|exact Ht|exact Eon|exact Edo|..].
  - intros t st. rewrite Eo'. intros [<- <-]%lookup_singleton_Some. split; [apply (new_id_plain 7); lia|vm_compute; reflexivity].
  - apply list.Forall_forall. intros v Hin. rewrite forallb_forall in Elsn. apply Z.leb_le, Elsn. apply list_elem_of_In, Hin.
  - lia.
  - rewrite Eo'. vm_compute. reflexivity.
  - split; [intros Hf; discriminate Hf|]. split; [apply delete_ok|]. split; [split; reflexivity|exact I].
  - exists s, n', (vs ++ ws). split; [exact E|]. split; [exact E'|]. split; [exact Hl|]. split; [exact Hm|exact Hd].
Defined.
