(* ===== verification/DpsTransSpace.v ===== *)
(** * The log space of transactions

    The room that [reservedLogSpace] of [dps/dpsTransCB.cpp] grants, in terms
    of the distance of LSNs in the log. *)

From stdpp Require Import base gmap list option.
From Stdlib Require Import ZArith Lia.
From S2P Require Import Prelude DpsLsn Mem DpsRecord DpsOp2Record DpsTrans DpsTransFacts RtnTrans RtnTransRun RtnTransInv RtnTransAll.

Open Scope Z_scope.

(** The first record of the oldest unfinished transaction is at [b]. *)
Record oldest_begin (cb : dpsTransCB) (b : Z) : Prop := {
  ob_in : is_Some (_beginLsnIdMap cb !! b);
  ob_least l : is_Some (_beginLsnIdMap cb !! l) -> b <= l
}.

Lemma oldest_is cb b : oldest_begin cb b -> getOldestBeginLsn cb = b.
Proof.
  intros [H1 H2]. unfold getOldestBeginLsn. destruct (first_key (_beginLsnIdMap cb)) as [k|] eqn:E; cbn.
  - apply first_key_Some in E as [H3 H4]. specialize (H2 _ H3). specialize (H4 _ H1). lia.
  - apply first_key_None in E. rewrite E in H1. by rewrite lookup_empty in H1; destruct H1.
Qed.

(** The distance on the ring of the log files is the distance of the LSNs. *)
Lemma ring_distance total b e : 0 < total -> 0 <= b <= e -> e - b < total -> (e mod total + total - b mod total) mod total = e - b.
Proof.
  intros Ht Hb He. rewrite <- (Z.mod_small (e - b) total) by lia.
  replace (e mod total + total - b mod total) with (e mod total - b mod total + 1 * total) by lia.
  rewrite Z.mod_add by lia. symmetry. apply Zminus_mod.
Qed.

Lemma used_distance expect cb b :
  oldest_begin cb b -> 0 <= b <= expect -> expect < 2 ^ 63 -> expect - b < _logFileTotalSize cb < 2 ^ 63 ->
  usedLogSpace expect cb = expect - b.
Proof.
  intros Ho Hb He Ht. unfold usedLogSpace. rewrite (oldest_is _ _ Ho). cbv zeta. unfold DPS_INVALID_LSN_OFFSET.
  rewrite (proj2 (Z.eqb_neq _ _)), (proj2 (Z.eqb_neq _ _)) by lia. cbn [orb].
  assert (H0 : 0 < _logFileTotalSize cb) by lia.
  pose proof (Z.mod_pos_bound expect _ H0). pose proof (Z.mod_pos_bound b _ H0).
  unfold u64. rewrite (Z.mod_small (expect mod _logFileTotalSize cb + _logFileTotalSize cb - b mod _logFileTotalSize cb)) by lia. apply ring_distance; lia.
Qed.

(** The limit is at most a third of the log without two of its files. *)
Lemma max_used_third FS num : 0 < FS -> 2 <= num -> FS * num < 2 ^ 63 -> 0 <= max_used FS num /\ 3 * max_used FS num <= FS * (num - 2).
Proof.
  intros HF Hn Hb. unfold max_used. cbv zeta. destruct (5 <=? num); [|nia].
  assert (E : u64 (u64 (FS * num) - u64 (FS * 2)) = FS * (num - 2)).
  { unfold u64. rewrite (Z.mod_small (FS * num)), (Z.mod_small (FS * 2)), Z.mod_small by nia. lia. }
  rewrite E. assert (Ht : 0 <= FS * (num - 2)) by nia.
  pose proof (Z.mul_div_le (FS * (num - 2)) 3). pose proof (Z.div_pos (FS * (num - 2)) 3).
  set (size := u64 _ / 2). assert (0 <= size) by (apply Z.div_pos; [apply Z.mod_pos_bound; lia|lia]).
  destruct (Z.ltb_spec (FS * (num - 2) / 3) size), (Z.eqb_spec 0 size); cbn [orb]; lia.
Qed.

(** ** Requests of many threads

    A thread adds its request, measures what the log uses, decides, and gives
    the request back when it was refused; a granted request is released later.
    The log grows and transactions begin and end at any time. *)

Inductive reqState : Set :=
| Added
| Measured (usedSize : Z)
| Refused
| Granted.

Record spaceRun : Type := mkSpace {
  sp_cb : dpsTransCB;
  sp_expect : Z;
  sp_reqs : list (Z * reqState)
}.

(** The space of all requests that are outstanding. *)
Definition reserved (reqs : list (Z * reqState)) : Z := foldr (fun r n => r.1 + n) 0 reqs.

(** What [reservedLogSpace] and [releaseLogSpace] read only. *)
Definition same_space (cb cb' : dpsTransCB) : Prop :=
  _accquiredSpace cb' = _accquiredSpace cb /\ _maxUsedSize cb' = _maxUsedSize cb /\
  _logFileTotalSize cb' = _logFileTotalSize cb /\ _isOn cb' = _isOn cb.

Inductive space_step : spaceRun -> spaceRun -> Prop :=
| sp_add cb e reqs len : 0 <= len < 2 ^ 32 -> Z.of_nat (length reqs) < 2 ^ 30 ->
    space_step (mkSpace cb e reqs) (mkSpace (space_add len cb) e ((len, Added) :: reqs))
| sp_measure cb e r1 r2 len :
    space_step (mkSpace cb e (r1 ++ (len, Added) :: r2)) (mkSpace cb e (r1 ++ (len, Measured (usedLogSpace e cb)) :: r2))
| sp_decide cb e r1 r2 len u :
    space_step (mkSpace cb e (r1 ++ (len, Measured u) :: r2))
      (mkSpace cb e (r1 ++ (len, if space_full u cb then Refused else Granted) :: r2))
| sp_back cb e r1 r2 len :
    space_step (mkSpace cb e (r1 ++ (len, Refused) :: r2)) (mkSpace (give_back cb len) e (r1 ++ r2))
| sp_release cb e r1 r2 len :
    space_step (mkSpace cb e (r1 ++ (len, Granted) :: r2)) (mkSpace (releaseLogSpace false len cb) e (r1 ++ r2))
| sp_log cb e reqs cb' e' : same_space cb cb' -> space_step (mkSpace cb e reqs) (mkSpace cb' e' reqs).

Lemma reserved_app r1 r2 : reserved (r1 ++ r2) = reserved r1 + reserved r2.
Proof. unfold reserved. induction r1 as [|r r1 IH]; simpl; lia. Qed.

Lemma used_bound expect cb : 0 < _logFileTotalSize cb -> 0 <= usedLogSpace expect cb < _logFileTotalSize cb.
Proof. intros H. unfold usedLogSpace. cbv zeta. destruct (_ || _); [lia|]. by apply Z.mod_pos_bound. Qed.

Section runs.
Context (FS num : Z) (HF : 0 < FS) (Hn : 2 <= num) (Hs : FS * num < 2 ^ 62).

Record space_inv (s : spaceRun) : Prop := {
  si_acc : _accquiredSpace (sp_cb s) = reserved (sp_reqs s);
  si_max : _maxUsedSize (sp_cb s) = max_used FS num;
  si_total : _logFileTotalSize (sp_cb s) = FS * num;
  si_on : _isOn (sp_cb s) = true;
  si_count : Z.of_nat (length (sp_reqs s)) <= 2 ^ 30;
  si_reqs : Forall (fun r => 0 <= r.1 < 2 ^ 32 /\ match r.2 with Measured u => 0 <= u < FS * num | _ => True end) (sp_reqs s)
}.

Lemma reserved_bound reqs :
  Forall (fun r : Z * reqState => 0 <= r.1 < 2 ^ 32 /\ match r.2 with Measured u => 0 <= u < FS * num | _ => True end) reqs ->
  0 <= reserved reqs <= Z.of_nat (length reqs) * 2 ^ 32.
Proof. unfold reserved. induction 1 as [|r reqs [Hr _] _ IH]; simpl in *; lia. Qed.

(** The state of one request changes. *)
Lemma restate cb e r1 r2 len x y :
  space_inv (mkSpace cb e (r1 ++ (len, x) :: r2)) -> match y with Measured u => 0 <= u < FS * num | _ => True end ->
  space_inv (mkSpace cb e (r1 ++ (len, y) :: r2)).
Proof.
  intros [H1 H2 H3 H4 H5 H6] Hy. cbn [sp_cb sp_reqs] in *.
  rewrite reserved_app in H1. rewrite length_app in H5. apply list.Forall_app in H6 as [H6 [[H7 _] H8]%list.Forall_cons].
  split; cbn [sp_cb sp_reqs]; try done; [by rewrite reserved_app|by rewrite length_app|].
  apply list.Forall_app. split; [done|]. by apply list.Forall_cons.
Qed.

(** A request is given back; the branch that stops at zero is not taken. *)
Lemma unreserve cb e r1 r2 len x :
  space_inv (mkSpace cb e (r1 ++ (len, x) :: r2)) -> space_inv (mkSpace (give_back cb len) e (r1 ++ r2)).
Proof.
  intros [H1 H2 H3 H4 H5 H6]. cbn [sp_cb sp_reqs] in *.
  rewrite reserved_app in H1. rewrite length_app in H5. simpl in H1, H5.
  apply list.Forall_app in H6 as [H6 [[H7 _] H8]%list.Forall_cons].
  pose proof (reserved_bound _ H6). pose proof (reserved_bound _ H8). fold (reserved r2) in H1. cbn [fst] in H7.
  split; unfold give_back; cbn [sp_cb sp_reqs with_space _accquiredSpace _maxUsedSize _logFileTotalSize _isOn]; try done.
  - rewrite reserved_app. destruct (Z.leb_spec len (_accquiredSpace cb)); lia.
  - rewrite length_app. lia.
  - by apply list.Forall_app.
Qed.

Lemma space_step_inv s s' : space_step s s' -> space_inv s -> space_inv s'.
Proof.
  destruct 1 as [cb e reqs len Hl Hc|cb e r1 r2 len|cb e r1 r2 len u|cb e r1 r2 len|cb e r1 r2 len|cb e reqs cb' e' (E1 & E2 & E3 & E4)];
    intros Hi.
  - destruct Hi as [H1 H2 H3 H4 H5 H6]. cbn [sp_cb sp_reqs] in *. pose proof (reserved_bound _ H6) as Hb.
    split; unfold space_add; cbn [sp_cb sp_reqs with_space _accquiredSpace _maxUsedSize _logFileTotalSize _isOn]; try done.
    + rewrite H1. unfold u64. rewrite Z.mod_small by lia. simpl. fold (reserved reqs). lia.
    + simpl. lia.
    + by apply list.Forall_cons.
  - eapply restate; [exact Hi|]. rewrite <- (si_total _ Hi). apply used_bound. rewrite (si_total _ Hi). nia.
  - eapply restate; [exact Hi|]. by destruct (space_full u cb).
  - by eapply unreserve.
  - unfold releaseLogSpace. pose proof (si_on _ Hi) as Hon. cbn [sp_cb] in Hon. rewrite Hon. by eapply unreserve.
  - destruct Hi as [H1 H2 H3 H4 H5 H6]. cbn [sp_cb sp_reqs] in *. by split; cbn [sp_cb sp_reqs]; try congruence.
Qed.

Lemma space_runs_inv s s' : rtc space_step s s' -> space_inv s -> space_inv s'.
Proof. induction 1; [done|]. intros. by eauto using space_step_inv. Qed.

(** The limit in terms of the outstanding requests. *)
Lemma full_iff s u : space_inv s -> 0 <= u < FS * num ->
  space_full u (sp_cb s) = negb (u + reserved (sp_reqs s) <? max_used FS num).
Proof.
  intros [H1 H2 H3 H4 H5 H6] Hu. pose proof (reserved_bound _ H6). unfold space_full. rewrite H1, H2. unfold u64.
  rewrite Z.mod_small by lia. by rewrite Z.leb_antisym.
Qed.

Lemma alone_decided s len : space_inv s -> 0 <= len < 2 ^ 32 -> Z.of_nat (length (sp_reqs s)) < 2 ^ 30 ->
  reservedLogSpace (sp_expect s) false len (sp_cb s) =
    if usedLogSpace (sp_expect s) (sp_cb s) + reserved (sp_reqs s) + len <? max_used FS num
    then (SDB_OK, with_space (sp_cb s) (reserved (sp_reqs s) + len)) else (SDB_DPS_LOG_FILE_OUT_OF_SIZE, sp_cb s).
Proof.
  intros Hi Hl Hc. pose proof (space_step_inv _ _ (sp_add (sp_cb s) (sp_expect s) (sp_reqs s) len Hl Hc)) as Hstep.
  destruct s as [cb e reqs]. cbn [sp_cb sp_expect sp_reqs] in *. specialize (Hstep Hi).
  pose proof (reserved_bound _ (si_reqs _ Hi)) as Hb. cbn [sp_reqs] in Hb.
  unfold reservedLogSpace. pose proof (si_on _ Hi) as Hon. cbn [sp_cb] in Hon. rewrite Hon. cbn [negb orb]. cbv zeta.
  change (usedLogSpace e (space_add len cb)) with (usedLogSpace e cb).
  assert (Hu : 0 <= usedLogSpace e cb < FS * num).
  { pose proof (si_total _ Hi) as Ht. cbn [sp_cb] in Ht. rewrite <- Ht. apply used_bound. rewrite Ht. nia. }
  pose proof (full_iff _ (usedLogSpace e cb) Hstep Hu) as Hf. cbn [sp_cb sp_reqs] in Hf. rewrite Hf. simpl. fold (reserved reqs).
  pose proof (si_acc _ Hi) as Ha. cbn [sp_cb sp_reqs] in Ha.
  assert (Ea : space_add len cb = with_space cb (reserved reqs + len)).
  { unfold space_add. rewrite Ha. f_equal. unfold u64. apply Z.mod_small. lia. }
  rewrite Ea. replace (usedLogSpace e cb + (len + reserved reqs)) with (usedLogSpace e cb + reserved reqs + len) by lia.
  match goal with |- context [negb ?c] => destruct c end; cbn [negb]; [reflexivity|]. f_equal. unfold give_back. cbn [_accquiredSpace with_space].
  rewrite (proj2 (Z.leb_le _ _)) by lia. replace (reserved reqs + len - len) with (_accquiredSpace cb) by lia. by destruct cb.
Qed.

Lemma remain_exact s b : space_inv s -> oldest_begin (sp_cb s) b -> 0 <= b <= sp_expect s -> sp_expect s < 2 ^ 63 ->
  sp_expect s - b < FS * num ->
  usedLogSpace (sp_expect s) (sp_cb s) = sp_expect s - b /\
  remainLogSpace (sp_expect s) (sp_cb s) = Z.max 0 (max_used FS num - (sp_expect s - b + reserved (sp_reqs s))).
Proof.
  intros [H1 H2 H3 H4 H5 H6] Ho Hb He Hd. pose proof (reserved_bound _ H6).
  assert (Hu : usedLogSpace (sp_expect s) (sp_cb s) = sp_expect s - b) by (apply used_distance; [done|done|done|rewrite H3; lia]).
  split; [done|]. unfold remainLogSpace. rewrite H4. cbn [negb]. cbv zeta. rewrite Hu, H1, H2. unfold u64. rewrite Z.mod_small by lia.
  destruct (Z.ltb_spec (reserved (sp_reqs s) + (sp_expect s - b)) (max_used FS num)); lia.
Qed.
End runs.

(** C24: Log space is not given away twice.  Transactions are on; threads
    request and release log space in the steps of the code - add under the
    mutex, measure, compare, give back under the mutex - interleaved in any
    way, with fewer than 2^30 requests at a time, while the log grows and
    transactions begin and end.  Then the wrapping 64-bit counter is always
    the sum of the outstanding requests, those still undecided or refused and
    not yet given back included; a thread that compares is granted its request
    exactly if what it measured and that sum stay below the limit, which is at
    most a third of the log without two of its files.  What a thread measures
    is the true distance to the first record of the oldest unfinished
    transaction when that is less than a whole log behind.  A request with no
    other thread in between is decided exactly by that distance, the
    outstanding requests and its length, and leaves no trace when refused;
    [remainLogSpace] returns what is left; and in a rollback every request is
    granted without being counted. *)
Theorem log_space_limit FS num cb0 e0 s :
  0 < FS -> 2 <= num -> FS * num < 2 ^ 62 -> _isOn cb0 = true -> _logFileTotalSize cb0 = FS * num ->
  _maxUsedSize cb0 = max_used FS num -> _accquiredSpace cb0 = 0 -> rtc space_step (mkSpace cb0 e0 []) s ->
  _accquiredSpace (sp_cb s) = reserved (sp_reqs s) /\
  (forall len u, (len, Measured u) ∈ sp_reqs s ->
     space_full u (sp_cb s) = negb (u + reserved (sp_reqs s) <? max_used FS num)) /\
  3 * max_used FS num <= FS * (num - 2) /\
  (forall b, oldest_begin (sp_cb s) b -> 0 <= b <= sp_expect s -> sp_expect s < 2 ^ 63 -> sp_expect s - b < FS * num ->
     usedLogSpace (sp_expect s) (sp_cb s) = sp_expect s - b /\
     remainLogSpace (sp_expect s) (sp_cb s) = Z.max 0 (max_used FS num - (sp_expect s - b + reserved (sp_reqs s)))) /\
  (forall len, 0 <= len < 2 ^ 32 -> Z.of_nat (length (sp_reqs s)) < 2 ^ 30 ->
     reservedLogSpace (sp_expect s) false len (sp_cb s) =
       if usedLogSpace (sp_expect s) (sp_cb s) + reserved (sp_reqs s) + len <? max_used FS num
       then (SDB_OK, with_space (sp_cb s) (reserved (sp_reqs s) + len)) else (SDB_DPS_LOG_FILE_OUT_OF_SIZE, sp_cb s)) /\
  (forall e len, reservedLogSpace e true len (sp_cb s) = (SDB_OK, sp_cb s)).
Proof.
  intros HF Hn Hs Hon Ht Hm Ha Hr.
  assert (Hi : space_inv FS num s).
  { eapply space_runs_inv; [done..|exact Hr|]. split; cbn [sp_cb sp_reqs]; try done. }
  split_and!.
  - apply Hi.
  - intros len u Hin. apply full_iff; [done|done|]. pose proof (si_reqs _ _ _ Hi) as Hq. rewrite Forall_forall in Hq. apply list_elem_of_In in Hin. by apply (Hq _ Hin).
  - apply max_used_third; [done|done|lia].
  - intros b. by apply remain_exact.
  - intros len. by apply alone_decided.
  - intros e len. unfold reservedLogSpace. by rewrite orb_true_r.
Qed.

(** Twenty files of 64 MB; two transactions, the older one 200 MB behind; two
    requests race, and the smaller one is refused because of the larger. *)
Definition sample_cb : dpsTransCB :=
  let fs := 64 * 2 ^ 20 in
  let cb := addBeginLsn (addBeginLsn transCB_new (5000 * 2 ^ 20) 7) (5100 * 2 ^ 20) 8 in
  mkTransCB 0 1 ∅ ∅ true false true (_beginLsnIdMap cb) (_idBeginLsnMap cb) false (max_used fs 20) (fs * 20) 0.

Definition sample_race : spaceRun :=
  let cb := space_add 400000000 (space_add 4096 sample_cb) in
  mkSpace cb (5200 * 2 ^ 20) [(400000000, Added); (4096, Measured (200 * 2 ^ 20))].

Lemma log_space_limit_witness :
  space_full (200 * 2 ^ 20) (sp_cb sample_race) = true /\
  reservedLogSpace (5200 * 2 ^ 20) false 4096 sample_cb = (SDB_OK, with_space sample_cb 4096) /\
  3 * max_used (64 * 2 ^ 20) 20 <= 64 * 2 ^ 20 * 18.
Proof.
  destruct (log_space_limit (64 * 2 ^ 20) 20 sample_cb (5200 * 2 ^ 20) sample_race) as (E1 & E2 & E3 & _);
    [lia|lia|lia|reflexivity|reflexivity|reflexivity|reflexivity| |].
  - eapply rtc_l; [apply (sp_add sample_cb _ [] 4096); simpl; lia|].
    eapply rtc_l; [apply (sp_measure _ _ [] [] 4096)|].
    eapply rtc_l; [eapply (sp_add _ _ [(4096, _)] 400000000); simpl; lia|].
    replace (usedLogSpace (5200 * 2 ^ 20) (space_add 4096 sample_cb)) with (200 * 2 ^ 20) by (vm_compute; reflexivity).
    apply rtc_refl.
  - split; [|split; [vm_compute; reflexivity|exact E3]].
    rewrite (E2 4096 (200 * 2 ^ 20)); [vm_compute; reflexivity|]. apply list_elem_of_further, list_elem_of_here.
Defined.
