(* ===== verification/DpsTransSync.v ===== *)
(** * Rebuilding the transaction table from the log

    [syncTransInfoFromLocal] over the log buffer and the log files: the
    composition of the transaction table with the log it reads. *)

From stdpp Require Import base gmap list option.
From Stdlib Require Import ZArith Lia.
From S2P Require Import Prelude DpsLsn Mem DpsRecord DpsRecordFacts DpsOp2Record DpsOp2Thms DpsOp2Trip.
From S2P Require Import DpsBuffer DpsRing DpsAlloc DpsRun DpsPlace DpsRunInv DpsRunThms DpsBufThms.
From S2P Require Import DpsLogFile DpsLogFileFacts DpsFilesRun DpsFilesThms DpsTrans DpsTransFacts DpsTransView.
From S2P Require Import DpsThms RtnTrans RtnTransRun RtnTransThms.

Open Scope Z_scope.

(** ** What the blocks of the log show *)

(** A block that shows [v] to whoever loads its bytes. *)
Definition shows (b : dpsMergeBlock) (v : tview) : Prop := v_lsn v = off b /\ forall bs mem,
  block_bytes b = Some bs -> bs `prefix_of` mem -> Z.of_nat (length mem) = size b ->
  exists r, load_record mem = Ret r /\ record_view r = Ret v /\ _length (_head r) = size b.

(** A block with an operation. *)
Lemma op_shows woCompare bson_valid b op :
  _isRow b = false -> writable (_record b) (elems_of woCompare op) -> op_ok bson_valid op ->
  _type (block_head b) = op_type op -> shows b (op_view op (off b)).
Proof.
  intros Hr Hw Hop Hty. split; [by destruct op|]. intros bs mem Ebs [pad ->] Hl. unfold block_bytes in Ebs. rewrite Hr in Ebs.
  destruct (merge_chunks false (_record b)) as [cs|] eqn:Ecs; [|done]. injection Ebs as <-.
  destruct (load_stored (_record b) (elems_of woCompare op) (concat cs ++ pad)) as (r & es' & E & Hrep & Hf & Hh); [done| |].
  { exists cs, pad, []. rewrite app_nil_r. split; [done|]. split; [done|]. rewrite length_app in Hl. unfold block_head in Hl. lia. }
  exists r. unfold load_record. rewrite E. cbn. split; [done|]. unfold block_head in *. rewrite Hh. split; [|done].
  rewrite <- Hh. apply (holds_view woCompare bson_valid); [by exists es'|done|]. by rewrite Hh.
Qed.

(** The padding at the end of a file. *)
Lemma padding_shows b :
  padding b -> 32 <= size b <= DPS_RECORD_MAX_LEN -> head_ok (block_head b) ->
  shows b (mkView (off b) LOG_TYPE_DUMMY None None None None).
Proof.
  intros [Ht Hr] Hs Hh. split; [done|]. intros bs mem Ebs [pad ->] Hl. unfold block_bytes, merge_chunks in Ebs. rewrite Hr in Ebs.
  unfold block_head in *. rewrite Ht, Z.eqb_refl in Ebs. cbn [mbind option_bind concat] in Ebs.
  rewrite app_nil_r in Ebs. assert (bs = head_bytes (_head (_record b))) as -> by congruence. unfold load_record, load.
  rewrite read_head_bytes by done. cbn [mbind option_bind]. unfold sizeof_head.
  destruct (Z.ltb_spec (_length (_head (_record b))) 32); [lia|].
  destruct (Z.ltb_spec DPS_RECORD_MAX_LEN (_length (_head (_record b)))); [lia|]. cbn [orb]. rewrite Ht, Z.eqb_refl.
  eexists. split; [done|]. split; [|done]. rewrite <- Ht. apply (holds_plain (with_head record_init (_head (_record b))) []); [|done].
  exists []. split; [|done]. apply rep_with_head, rep_init.
Qed.

(** ** The loop *)

(** The blocks [log] are one behind the other, from [x] to [e]. *)
Inductive contig (e : Z) : list dpsMergeBlock -> Z -> Prop :=
  | contig_nil : contig e [] e
  | contig_cons b log : 0 < size b -> contig e log (off b + size b) -> contig e (b :: log) (off b).

Lemma contig_range e log x : contig e log x -> x + Z.of_nat (length log) <= e.
Proof. induction 1; cbn [length]; lia. Qed.

Lemma contig_snoc log x b : contig (off b) log x -> 0 < size b -> contig (off b + size b) (log ++ [b]) x.
Proof. intros H Hs. induction H; cbn [app]; [by repeat constructor|by constructor]. Qed.

(** The log is a chain, and so is each end of it. *)
Lemma chain_contig PS N FS log e cu : chain PS N FS log e cu -> forall l1 l2, log = l1 ++ l2 ->
  exists x, contig e l2 x /\ 0 <= x /\ Forall (fun b => off b < x) l1.
Proof.
  induction 1 as [|log x cur b Hc IH Hl]; intros l1 l2 E.
  - symmetry in E. apply app_eq_nil in E as [-> ->]. exists 0. split_and!; [constructor|lia|constructor].
  - pose proof (lk_off _ _ _ _ _ _ Hl) as Eo. pose proof (lk_size _ _ _ _ _ _ Hl) as Hs.
    destruct l2 as [|b' l2 _] using rev_ind.
    + rewrite app_nil_r in E. subst l1. destruct (IH log [] ltac:(by rewrite app_nil_r)) as (y & Hy & H0 & Hf).
      inversion Hy; subst y. exists (x + size b). split_and!; [constructor|lia|]. apply list.Forall_app. split.
      * eapply list.Forall_impl; [exact Hf|]. cbn. intros. lia.
      * constructor; [lia|constructor].
    + rewrite app_assoc in E. apply app_inj_tail in E as [-> <-]. destruct (IH l1 l2 eq_refl) as (y & Hy & H0 & Hf).
      exists y. split; [|done]. rewrite <- Eo in *. apply contig_snoc; [done|lia].
Qed.

Section loop.
Context {IO : PosixFile} (PS FS num : Z) (node : nodeState) (m : dpsReplicaLogMgr) (fm : dpsLogFileMgr).

(** What is found at a block. *)
Definition found (b : dpsMergeBlock) : Prop :=
  exists mem bs, search PS FS num m fm (off b) DPS_SEARCH_ALL false = Some (inr (mem, size b)) /\
    block_bytes b = Some bs /\ bs `prefix_of` mem /\ Z.of_nat (length mem) = size b.

Lemma before_end a b : 0 <= a < 2 ^ 63 -> 0 <= b < 2 ^ 63 ->
  negb (a =? DPS_INVALID_LSN_OFFSET) && (compareOffset a b <? 0) = (a <? b).
Proof.
  intros Ha Hb. unfold compareOffset, DPS_INVALID_LSN_OFFSET. rewrite !(proj2 (Z.eqb_neq _ _)) by lia. cbn [negb andb].
  destruct (Z.ltb_spec a b), (Z.ltb_spec b a); done || lia.
Qed.

Lemma syncTrans_loop_ok log vs x cb fuel :
  contig (pos m) log x -> Forall found log -> Forall2 shows log vs -> 0 <= x -> pos m < 2 ^ 63 -> (length log <= fuel)%nat ->
  syncTrans_loop PS FS num node fuel m fm cb x = Some (Ret tt, foldl (save_view node) cb vs).
Proof.
  intros Hr. revert vs cb fuel. induction Hr as [|b log Hs Hr IH]; intros vs cb fuel Hf Hv H0 Hp Hfu.
  - apply Forall2_nil_inv_l in Hv as ->. cbn [foldl]. destruct fuel; cbn [syncTrans_loop]; by rewrite before_end, Z.ltb_irrefl by lia.
  - apply Forall2_cons_inv_l in Hv as (v & vs' & Hv & Hvs & ->). apply list.Forall_cons in Hf as [Hf Hfs].
    destruct fuel as [|fuel]; [cbn [length] in Hfu; lia|]. pose proof (contig_range _ _ _ Hr) as Hle. cbn [syncTrans_loop foldl].
    rewrite before_end, (proj2 (Z.ltb_lt _ _)) by lia. destruct Hf as (mem & bs & Es & Ebs & Hpre & Hl). destruct (proj2 Hv bs mem Ebs Hpre Hl) as (r & El & Er & Elen).
    unfold search_record. rewrite Es. cbn [or_crash mbind outcome_bind]. rewrite El, (save_of_view node cb r v Er), Elen.
    unfold u64. rewrite Z.mod_small by lia. apply IH; [done|done|lia|done|cbn [length] in Hfu; lia].
Qed.
End loop.

(** ** Over buffer and files *)

Section whole.
Context {IO : PosixFile} {IOok : PosixFileSpec} (PS N FS num : Z) (acts : list action).
Context (HS : file_setting PS N FS num acts).

(** Nobody writes, and the full pages are flushed. *)
Record resting (s : fworld) : Prop := {
  rs_open : w_open (fw_world s) = [];
  rs_pending : w_pending (fw_world s) = None;
  rs_queue : _queue (w_mgr (fw_world s)) = []
}.

Lemma blocks_found s b :
  runf PS FS num (initf PS FS num N) acts = Some s -> resting s -> b ∈ w_log (fw_world s) ->
  last_file FS (pos (w_mgr (fw_world s)) / PS * PS) - num < off b / FS ->
  found PS FS num (w_mgr (fw_world s)) (fw_files s) b.
Proof.
  intros E [Hop Hpd Hq] Hb Hnew.
  destruct (reach_files PS N FS num acts HS) as (w & F & s' & _ & Es & H & [Ew Hrep] & Hk & HL).
  rewrite E in Es. injection Es as <-. pose proof HS as [[H1 H2 H3 H4 H5 H6 H7] H8 H9].
  destruct s as [w' fm]. cbn [fw_world fw_files] in *. subst w'.
  change (w_log (with_file w [])) with (w_log w) in *. change (w_mgr (with_file w [])) with (w_mgr w) in *.
  pose proof (block_range PS N FS _ w F b H Hb) as Hr.
  destruct (inv_chain_in _ _ _ _ _ _ _ H Hb) as (y & cu & Hlk & Hy). pose proof (lk_size _ _ _ _ _ _ Hlk) as Hs.
  assert (Hne : w_log w <> []) by (intros E0; rewrite E0 in Hb; by apply elem_of_nil in Hb).
  destruct (Z_lt_le_dec (off b) (first_page PS N (pos (w_mgr w)) * PS)) as [Hold|Hwin].
  - pose proof (iv_pos _ _ _ _ _ _ H) as Hpk.
    assert (En : Z.of_nat (length (w_file w)) = pos (w_mgr w) / PS * PS).
    { eassert (Z.of_nat (length (w_file w)) + _ = _) by (by eapply (flushed_length PS N FS)). rewrite Hq in *. cbn [length] in *. lia. }
    assert (Hle : off b + size b <= pos (w_mgr w) / PS * PS) by (unfold first_page in Hold; nia).
    assert (Hl : loaded (fileMgr_load FS num fm (off b) false) b false).
    { eapply block_loaded; rewrite ?En; try done; [apply Hrep| |].
      - pose proof (div_bounds PS H1 (pos (w_mgr w))). nia.
      - pose proof (iv_file _ _ _ _ _ _ H) as Hf. rewrite list.Forall_forall in Hf. intros bs i Ebs Hi Hlt. apply (Hf b Hb bs i Ebs Hi).
        rewrite <- (iv_flen _ _ _ _ _ _ H). lia. }
    destruct Hl as (mem & bs & El & Ebs & Hm). exists mem, bs. split; [|done].
    rewrite (search_in_file PS N FS num acts HS (Z.of_nat (length acts)) w F); [done|done|done|done|done|lia].
  - assert (Hlock : locked w (slot PS N (off b)) = false).
    { unfold locked, open_blocks. change (w_open w) with (w_open (with_file w [])). rewrite Hop.
      change (w_pending w) with (w_pending (with_file w [])). by rewrite Hpd. }
    destruct (search_ok PS N FS H1 H2 H3 _ w F b false H HL Hb Hwin Hlock) as (mem & bs & Es & Ebs & Hm).
    exists mem, bs. split; [|done]. apply search_in_buffer; [done|done|lia].
Qed.
End whole.

Lemma file_mono FS x y : 0 < FS -> x <= y -> x / FS <= y / FS.
Proof. intros. by apply Z.div_le_mono. Qed.

Lemma contig_from e log x b : contig e log x -> b ∈ log -> x <= off b.
Proof.
  induction 1 as [|b' log Hs Hc IH]; intros Hb; [by apply elem_of_nil in Hb|].
  apply list.elem_of_cons in Hb as [->|Hb]; [lia|]. specialize (IH Hb). lia.
Qed.

(** C21: A node rebuilds its transaction table from its own log. In any
    state of log buffer and log files in which nobody writes and the full
    pages are flushed, [syncTransInfoFromLocal] from the record at [begin]
    on - found in the buffer or in the rotating files, loaded and decoded -
    returns. If the table is marked as out of step ([_isNeedSyncTrans]) it
    has then exactly the unfinished transactions of the whole log, each with
    the LSN of its last change that is not undone and its first LSN,
    whatever it held before; otherwise it is left as it was. This is for a
    node that is not primary and not in restore, for a log all of whose
    records can be loaded and decoded, and provided that none of the
    unfinished transactions began before [begin] and the file of [begin] is
    not reused. *)
Theorem table_from_log {IO : PosixFile} {IOok : PosixFileSpec} PS N FS num (acts : list action) (s : fworld)
    (log1 log2 : list dpsMergeBlock) (vs1 vs2 : list tview) (o : opens) (begin : Z) (node : nodeState) (cb : dpsTransCB) :
  file_setting PS N FS num acts -> runf PS FS num (initf PS FS num N) acts = Some s -> resting s ->
  w_log (fw_world s) = log1 ++ log2 -> (fun b => off b) <$> head log2 = Some begin ->
  last_file FS (pos (w_mgr (fw_world s)) / PS * PS) - num < begin / FS ->
  Forall2 shows log1 vs1 -> Forall2 shows log2 vs2 -> history (vs1 ++ vs2) o -> (forall t, ~ old begin o t) ->
  replica node ->
  exists cb', syncTransInfoFromLocal PS FS num node (w_mgr (fw_world s)) (fw_files s) cb begin = Some (Ret tt, cb') /\
    if _isNeedSyncTrans cb then table_ok cb' o else cb' = cb.
Proof.
  intros HS E Hrest Elog Hbeg Hnew F1 F2 Hh Hold Hn. unfold syncTransInfoFromLocal.
  destruct (_isNeedSyncTrans cb); cbn [negb orb]; [|by eexists].
  destruct (reach_files PS N FS num acts HS) as (w & F & s' & _ & Es & H & [Ew _] & Hk & HL).
  rewrite E in Es. injection Es as <-. pose proof (s_chain _ _ _ _ _ _ _ (iv_state _ _ _ _ _ _ H)) as Hc.
  assert (Em : w_mgr (fw_world s) = w_mgr w) by (by rewrite Ew). assert (El : w_log (fw_world s) = w_log w) by (by rewrite Ew).
  rewrite El in Elog. destruct (chain_contig PS N FS _ _ _ Hc log1 log2 Elog) as (x & Hx & H0 & Hlt).
  assert (x = begin) as -> by (destruct Hx; cbn in Hbeg; congruence).
  eexists. split.
  - rewrite (proj2 (Z.eqb_neq _ _)).
    + pose proof (contig_range _ _ _ Hx). apply (syncTrans_loop_ok _ _ _ _ _ _ log2); try done; rewrite ?Em; try done; [|lia].
      apply list.Forall_forall. intros b Hb. rewrite <- Em. eapply blocks_found; [done|done|done| |].
      * rewrite El, Elog. apply elem_of_app. by right.
      * pose proof (contig_from _ _ _ _ Hx Hb). pose proof (file_mono FS begin (off b)). destruct HS as [[] ]. lia.
    + pose proof (contig_range _ _ _ Hx). unfold DPS_INVALID_LSN_OFFSET. lia.
  - apply (read_from node begin vs1 vs2 o cb Hn Hh); [|done].
    clear -F1 Hlt. induction F1 as [|b v log vs Hv _ IH]; [constructor|]. apply list.Forall_cons in Hlt as [Hb Hlt].
    constructor; [|by apply IH]. destruct Hv as [Ev _]. lia.
Qed.

(** ** A sample

    Transaction 1 is committed, transaction 2 begins, transaction 3 begins
    and is committed, and transaction 2 makes a second change; the table is
    read from the beginning of transaction 2 on. *)

Definition enc (op : logOp) : dpsLogRecord :=
  match encode same_all valid_all op record_init with Some (_, r) => r | None => record_init end.

Lemma enc_shows b op :
  _isRow b = false -> _record b = with_head (enc op) (block_head b) -> head_ok (block_head b) ->
  _type (block_head b) = op_type op -> alignedLen (enc op) <= size b <= DPS_RECORD_MAX_LEN ->
  op_ok valid_all op -> fits (elems_of same_all op) -> shows b (op_view op (off b)).
Proof.
  intros Hr Hb Hh Ht Hl Hop Hf. apply (op_shows same_all valid_all); try done. rewrite Hb.
  destruct (encode_ok same_all valid_all op Hop) as (r & E & Hrep & _). unfold enc in *. rewrite E in *.
  by apply (encoded_writable same_all valid_all).
Qed.

Definition log_round (op : logOp) : list action :=
  [Prepare (mkInfo (mkBlock (enc op) meta_none false) (mkBlock record_init meta_none false) false); WriteData 0; Flush; Flush].

(** Encoded operations may be handed to the log. *)
Lemma enc_info_ok PS N FS op :
  op_ok valid_all op -> fits (elems_of same_all op) -> alignedLen (enc op) + 32 <= (N - 1) * PS -> alignedLen (enc op) <= FS ->
  info_ok PS N FS (mkInfo (mkBlock (enc op) meta_none false) (mkBlock record_init meta_none false) false).
Proof.
  intros Hop Hf Hs HF. unfold fits in Hf. pose proof max_len_bound.
  pose proof (vals_ok _ (elems_of_val same_all op) ltac:(lia)) as Hv.
  destruct (encode_ok same_all valid_all op Hop) as (r & E & Hrep & Hh).
  assert (Er : enc op = r) by (unfold enc; by rewrite E). rewrite Er in *. destruct (alignedLen_rep r _ Hrep Hv) as [Ha Ha4]; [lia|].
  constructor; cbn [_mergeBlock _dummyBlock]; unfold block_head; cbn [_record _isRow]; rewrite ?Hh; cbn [_length with_length with_type]; try done.
  - lia.
  - exists (elems_of same_all op). split; [done|]. split; [done|]. unfold block_head. cbn [_record]. rewrite Hh.
    cbn [_length _type _reserved1 _reserved2 with_length with_type head_clear]. split; [lia|].
    split; [right; by destruct op|]. split; [by destruct op|done].
Qed.

Definition first_tran (k : Z) : tran := mkTran (Z.lor k DPS_TRANSID_FIRSTOP_BIT) DPS_INVALID_LSN_OFFSET DPS_INVALID_LSN_OFFSET.

Definition sample_ops : list logOp :=
  [OpInsert a_name an_obj (first_tran 1); OpTransCommit 1 0 0;
   OpInsert a_name an_obj (first_tran 2); OpInsert a_name an_obj (first_tran 3); OpTransCommit 3 200 200;
   OpDelete a_name an_obj (mkTran 2 136 DPS_INVALID_LSN_OFFSET)].

Definition sample_log_acts : list action := concat (log_round <$> sample_ops).

Definition sample_blocks : list dpsMergeBlock :=
  Eval vm_compute in match runf 64 512 3 (initf 64 512 3 4) sample_log_acts with Some s => w_log (fw_world s) | None => [] end.

Definition sample_views : list tview := zip_with op_view sample_ops [0; 64; 136; 200; 264; 336].

Lemma sample_ops_ok : Forall (op_ok valid_all) sample_ops.
Proof.
  pose proof insert_ok as H1. pose proof delete_ok as H2. unfold change_ok, change_op in *. unfold sample_ops.
  assert (Ht : forall k, 0 <= k < 2 ^ 16 -> tran_ok (first_tran k)).
  { intros k Hk. split; [|done]. cbn [t_id first_tran]. apply lor_bound; [lia|lia|done]. }
  repeat (apply list.Forall_cons; split); [by apply H1, Ht|done|by apply H1, Ht|by apply H1, Ht|done|by apply H2|by constructor].
Qed.

Lemma sample_shows : Forall2 shows sample_blocks sample_views.
Proof.
  pose proof sample_ops_ok as H. unfold sample_ops in H. repeat (apply list.Forall_cons in H as [? H]).
  unfold sample_blocks, sample_views. cbn [zip_with sample_ops].
  repeat (apply Forall2_cons; [apply enc_shows; [reflexivity|reflexivity|by constructor; vm_compute|reflexivity|by vm_compute|assumption|by vm_compute]|]).
  constructor.
Qed.

Lemma sample_setting_ok : file_setting 64 4 512 3 sample_log_acts.
Proof.
  constructor; [|by exists 8|lia]. constructor; [lia|lia|lia|lia|by exists 128|vm_compute; reflexivity|].
  pose proof sample_ops_ok as H. unfold sample_log_acts, sample_ops in *. repeat (apply list.Forall_cons in H as [? H]).
  cbn [fmap list_fmap concat log_round app].
  repeat (apply list.Forall_cons; split; [first [exact I|apply enc_info_ok; [assumption|by vm_compute..]]|]). constructor.
Qed.

Lemma sample_history : exists o, history sample_views o /\ o = {[2 := [336; 136]]}.
Proof.
  eexists. split.
  - unfold sample_views, sample_ops. cbn [zip_with].
    match goal with |- history [?a; ?b; ?c; ?d; ?e; ?f] _ =>
      change [a; b; c; d; e; f] with (((((([] ++ [a]) ++ [b]) ++ [c]) ++ [d]) ++ [e]) ++ [f]) end.
    repeat (apply history_snoc; [| |vm_compute; by repeat constructor|by vm_compute]); [constructor|..];
      unfold view_ok; cbn [op_view tran_view v_trans];
      first [by (split; [|eexists _, _]; vm_compute) | by vm_compute].
  - vm_compute. reflexivity.
Qed.

Lemma table_from_log_witness :
  exists s cb', runf 64 512 3 (initf 64 512 3 4) sample_log_acts = Some s /\
    syncTransInfoFromLocal 64 512 3 a_replica (w_mgr (fw_world s)) (fw_files s) transCB_new 136 = Some (Ret tt, cb') /\
    _TransMap cb' = {[2 := 336]} /\ _idBeginLsnMap cb' !! 2 = Some 136.
Proof.
  destruct (reach_files 64 4 512 3 sample_log_acts sample_setting_ok) as (_ & _ & s & _ & Es & _).
  assert (Hc : match runf 64 512 3 (initf 64 512 3 4) sample_log_acts with
               | Some s => (w_log (fw_world s), w_open (fw_world s), w_pending (fw_world s), _queue (w_mgr (fw_world s)), pos (w_mgr (fw_world s)))
               | None => ([], [], None, [], 0)
               end = (sample_blocks, [], None, [], 416)) by (vm_compute; reflexivity).
  rewrite Es in Hc. apply pair_eq in Hc as [[[[El Eo]%pair_eq Ep]%pair_eq Eq]%pair_eq Epos].
  destruct sample_history as (o & Ho & ->). pose proof sample_shows as Hs.
  destruct (table_from_log 64 4 512 3 sample_log_acts s (take 2 sample_blocks) (drop 2 sample_blocks) (take 2 sample_views)
              (drop 2 sample_views) {[2 := [336; 136]]} 136 a_replica transCB_new sample_setting_ok Es) as (cb' & E & Ht).
  - by constructor.
  - rewrite El. symmetry. apply take_drop.
  - reflexivity.
  - rewrite Epos. reflexivity.
  - by apply Forall2_take.
  - by apply Forall2_drop.
  - by rewrite take_drop.
  - intros t (l & Hl & Hlt). destruct (decide (t = 2)) as [->|Hne].
    + rewrite lookup_singleton_eq in Hl. vm_compute in Hl. injection Hl as <-. lia.
    + by rewrite lookup_singleton_ne in Hl.
  - split; reflexivity.
  - exists s, cb'. split; [exact Es|]. split; [exact E|]. split.
    + apply map_eq. intros t. rewrite (tb_map _ _ Ht). destruct (decide (t = 2)) as [->|Hne].
      * by rewrite !lookup_singleton_eq.
      * by rewrite !lookup_singleton_ne.
    + by rewrite (tb_id _ _ Ht), lookup_singleton_eq.
Defined.
