(* ===== verification/LzwDict.v ===== *)
(** * The LZW dictionary

    Models [include/utilLZWDictionary.hpp] and [util/utilLZWDictionary.cpp]:
    the trie of nodes a dictionary creator grows from sample data
    ([lzwBuilder], [addStr], [findStr], [build]), its conversion into the
    compact form that is stored and shared ([lzwDict], [finalize]), and the
    lookups compression and decompression make in that form ([findStrExt],
    [getStrExt], [getVarLenInfo]).

    The 32-bit items of the compression and decompression string tables are
    packed with the masks and shifts of the macros.  The stored dictionary is
    one buffer in the code; here its tables are separate arrays of the lengths
    [attach] computes, and the string area is what is left of the buffer.
    Every array access is checked ([None] outside the array). *)

From stdpp Require Import base gmap list option.
From Stdlib Require Import ZArith Lia.
From S2P Require Import Prelude Mem.

Open Scope Z_scope.

Definition UTIL_INVALID_DICT_CODE : Z := 16777215.
Definition UTIL_MAX_DICT_INIT_CODE : Z := 255.
Definition UTIL_MAX_DICT_ITEM_NUM : Z := 250000.
Definition UTIL_MAX_DICT_BUILD_ITEM_NUM : Z := UTIL_MAX_DICT_ITEM_NUM * 4.
Definition UTIL_MAX_DICT_STR_LEN : Z := 255.
Definition UTIL_VAR_LEN_FLAG_SIZE : Z := 2.
Definition UTIL_MAX_DICT_SPLIT_NUM : Z := Z.shiftl 1 UTIL_VAR_LEN_FLAG_SIZE.

Definition DICT_BITS_UPBOUND (bits : Z) : Z := Z.shiftl 1 bits - 1.

(** ** Items of the compression string table *)

Definition CST_VALID_CODE_FLAG : Z := 2147483648.
Definition CST_INVALID_CHILD : Z := 8388607.

Definition CST_GET_CHILD (item : Z) : Z :=
  Z.shiftr (Z.land item (2 ^ 32 - 1 - CST_VALID_CODE_FLAG)) 8.
(** The mask keeps the flag bit and the character: [0x800000FF]. *)
Definition CST_SET_CHILD (item child : Z) : Z :=
  Z.lor (Z.land item 2147483903) (u32 (Z.shiftl child 8)).
Definition CST_GET_CHAR (item : Z) : Z := Z.land item 255.
(** The mask is [0xFFFFFF00]. *)
Definition CST_SET_CHAR (item ch : Z) : Z := Z.lor (Z.land item 4294967040) ch.

(** ** Items of the decompression string table *)

Definition DST_MAX_LOCAL_LEN : Z := 3.
Definition DST_REMOTE_FLAG : Z := 2147483648.
Definition DST_LINK_FLAG : Z := 1073741824.
Definition DST_LOCAL_LEN_MASK : Z := 1610612736.
Definition DST_REMOTE_LEN_MASK : Z := 255.
Definition DST_LOCAL_LEN_SHIFT_NUM : Z := 29.
Definition DST_REMOTE_POS_SHIFT_NUM : Z := 8.
(** [0x0fffff00] *)
Definition DST_REMOTE_POS_MASK : Z := 268435200.

Definition u32not (x : Z) : Z := 2 ^ 32 - 1 - x.

Definition DST_IS_REMOTE (item : Z) : bool := negb (Z.land item DST_REMOTE_FLAG =? 0).
Definition DST_SET_REMOTE_FLAG (item : Z) : Z := Z.lor item DST_REMOTE_FLAG.
Definition DST_SET_LINK_FLAG (item : Z) : Z := Z.lor item DST_LINK_FLAG.
Definition DST_SET_LOCAL_LEN (item len : Z) : Z :=
  Z.lor item (u32 (Z.shiftl len DST_LOCAL_LEN_SHIFT_NUM)).
Definition DST_GET_LOCAL_LEN (item : Z) : Z :=
  Z.shiftr (Z.land item DST_LOCAL_LEN_MASK) DST_LOCAL_LEN_SHIFT_NUM.

(** The characters of [str], the last one in the low byte. *)
Definition pack_chars (str : list Z) : Z :=
  foldl (fun value c => Z.lor (u32 (Z.shiftl value 8)) (u8 c)) 0 str.

Definition DST_SET_LOCAL_STR (item : Z) (str : list Z) (len : Z) : Z :=
  Z.lor (Z.land item (u32 (Z.shiftl 4294967295 (8 * len)))) (pack_chars (take (Z.to_nat len) str)).

(** The loop fills [buff] from its last byte down. *)
Fixpoint unpack_chars (n : nat) (value : Z) : list Z :=
  match n with
  | O => []
  | S n' => unpack_chars n' (Z.shiftr value 8) ++ [Z.land value 255]
  end.

Definition DST_GET_LOCAL_STR (item : Z) : list Z :=
  let len := DST_GET_LOCAL_LEN item in
  unpack_chars (Z.to_nat len) (Z.land item (u32not (u32 (Z.shiftl 4294967295 (8 * len))))).

Definition DST_SET_REMOTE_POS (item pos : Z) : Z :=
  Z.lor (Z.land item (u32not DST_REMOTE_POS_MASK)) (u32 (Z.shiftl pos DST_REMOTE_POS_SHIFT_NUM)).
Definition DST_SET_REMOTE_LEN (item len : Z) : Z :=
  Z.lor (Z.land item (u32not DST_REMOTE_LEN_MASK)) len.
Definition DST_GET_REMOTE_POS (item : Z) : Z :=
  Z.shiftr (Z.land item DST_REMOTE_POS_MASK) DST_REMOTE_POS_SHIFT_NUM.
Definition DST_GET_REMOTE_LEN (item : Z) : Z := Z.land item DST_REMOTE_LEN_MASK.

(** ** The stored dictionary *)

Record lzwHead : Type := mkHead {
  _maxCode : Z;
  _maxValidCode : Z;
  _codeSize : Z;
  _varLenFlagSize : Z;
  _splitInfo : list Z
}.

Record lzwDict : Type := mkDict {
  _head : lzwHead;
  _cst : list Z;
  _codeMap : list Z;
  _dst : list Z;
  _strArea : list Z
}.

Definition getMaxValidCode (d : lzwDict) : Z := _maxValidCode (_head d).
Definition getCodeSize (d : lzwDict) : Z := _codeSize (_head d).
Definition getVarLenFlagSize (d : lzwDict) : Z := _varLenFlagSize (_head d).
Definition getVarLenSize (d : lzwDict) (lenIdx : Z) : option Z := rd (_splitInfo (_head d)) lenIdx.

(** [None] when no split fits: the two output arguments keep their values. *)
Fixpoint getVarLenInfo_loop (i : Z) (split : list Z) (code : Z) : option (Z * Z) :=
  match split with
  | [] => None
  | s :: split' =>
      if code <? DICT_BITS_UPBOUND s then Some (i, s) else getVarLenInfo_loop (i + 1) split' code
  end.

Definition getVarLenInfo (d : lzwDict) (code lenIdx splitSize : Z) : Z * Z :=
  default (lenIdx, splitSize) (getVarLenInfo_loop 0 (_splitInfo (_head d)) code).

(** *** Finding the longest known prefix *)

(** At most 32 halvings of an interval of 32-bit indices. *)
Fixpoint cstBinSearch_loop (fuel : nat) (cst : list Z) (low high ch : Z) : option Z :=
  match fuel with
  | O => None
  | S fuel' =>
      if low <=? high then
        let mid := u32 (low + high) / 2 in
        item ← rd cst mid;
        let currCh := CST_GET_CHAR item in
        if currCh =? ch then Some mid
        else if currCh <? ch then cstBinSearch_loop fuel' cst (u32 (mid + 1)) high ch
        else cstBinSearch_loop fuel' cst low (u32 (mid - 1)) ch
      else Some CST_INVALID_CHILD
  end.

Definition cstBinSearch (d : lzwDict) (low high ch : Z) : option Z :=
  cstBinSearch_loop 33 (_cst d) low high ch.

(** The first child of the nearest later item that has one, searched below
    [bound]; [CST_INVALID_CHILD] when there is none. *)
Fixpoint nextGroup (fuel : nat) (cst : list Z) (bound idx high : Z) : option Z :=
  match fuel with
  | O => None
  | S fuel' =>
      if idx <? bound then
        item ← rd cst idx;
        let high' := CST_GET_CHILD item in
        if CST_INVALID_CHILD =? high' then nextGroup fuel' cst bound (idx + 1) high'
        else Some high'
      else Some high
  end.

(** The walk down the trie: index reached and length matched. *)
Fixpoint findIdx_loop (fuel : nat) (d : lzwDict) (bound : Z) (str : list Z) (length : Z)
    (currIdx curPos : Z) : option (Z * Z) :=
  match fuel with
  | O => None
  | S fuel' =>
      if (currIdx <? u32 (bound - 1)) && (curPos <? length) then
        item ← rd (_cst d) currIdx;
        let low := CST_GET_CHILD item in
        if CST_INVALID_CHILD =? low then Some (currIdx, curPos)
        else
          next ← nextGroup (S (Z.to_nat (bound - currIdx))) (_cst d) bound (currIdx + 1)
                   CST_INVALID_CHILD;
          let high := if CST_INVALID_CHILD =? next then bound else next - 1 in
          ch ← rd str curPos;
          nextIdx ← cstBinSearch d low high ch;
          if CST_INVALID_CHILD =? nextIdx then Some (currIdx, curPos)
          else findIdx_loop fuel' d bound str length nextIdx (curPos + 1)
      else Some (currIdx, curPos)
  end.

(** [matchLen] and [curPos] of the code are equal throughout. *)
Definition findIdx (d : lzwDict) (bound : Z) (str : list Z) (length : Z) : option (Z * Z) :=
  ch ← rd str 0;
  findIdx_loop (S (Z.to_nat length)) d bound str length ch 1.

(** The code and the length of the match. *)
Definition findStrExt (d : lzwDict) (str : list Z) (length : Z) : option (Z * Z) :=
  '(currIdx, matchLen) ← findIdx d (_maxValidCode (_head d)) str length;
  code ← rd (_codeMap d) currIdx;
  Some (code, matchLen).

Definition _findStrIdx (d : lzwDict) (str : list Z) (length : Z) : option (Z * Z) :=
  findIdx d (_maxCode (_head d)) str length.

(** *** The string of a code *)

(** [acc] is [tmpBuff[pos .. 256)].  Links lead to strictly shorter strings of
    at most 255 characters. *)
Fixpoint remoteLink_loop (fuel : nat) (dst strArea : list Z) (offset len : Z) (acc : list Z)
    : option (list Z) :=
  match fuel with
  | O => None
  | S fuel' =>
      t ← rd_range strArea (offset + 3) (len - 3);
      let acc := t ++ acc in
      if 256 <? Z.of_nat (length acc) then None
      else
        b0 ← rd strArea offset;
        b1 ← rd strArea (offset + 1);
        b2 ← rd strArea (offset + 2);
        let preCode := Z.lor (Z.lor (Z.shiftl b0 16) (Z.shiftl b1 8)) b2 in
        item ← rd dst preCode;
        let offset := DST_GET_REMOTE_POS item in
        let len := DST_GET_REMOTE_LEN item in
        if Z.land item DST_LINK_FLAG =? 0 then
          s ← rd_range strArea offset len;
          if 256 <? Z.of_nat (length (s ++ acc)) then None else Some (s ++ acc)
        else remoteLink_loop fuel' dst strArea offset len acc
  end.

Definition _dstGetRemoteStr (d : lzwDict) (item : Z) : option (list Z) :=
  let offset := DST_GET_REMOTE_POS item in
  let len := DST_GET_REMOTE_LEN item in
  if Z.land item DST_LINK_FLAG =? 0 then rd_range (_strArea d) offset len
  else remoteLink_loop 256 (_dst d) (_strArea d) offset len [].

(** The bytes written to [buff]; their number is the value returned. *)
Definition getStrExt (d : lzwDict) (code : Z) : option (list Z) :=
  item ← rd (_dst d) code;
  if DST_IS_REMOTE item then _dstGetRemoteStr d item
  else Some (DST_GET_LOCAL_STR item).
