(* ===== verification/LzwCreate.v ===== *)
(** * Creating an LZW dictionary

    Models the creation half of [util/utilLZWDictionary.cpp] and of
    [include/utilLZWDictionary.hpp]: [init], [addStr], [findStr] and [getStr]
    on the array of nodes, the creator's [build] over sample data, and
    [finalize], which ranks the nodes by use, gives the kept ones their codes
    and lays the compression and decompression string tables out.

    The array of [UTIL_MAX_DICT_BUILD_ITEM_NUM] nodes is a finite map in which
    an absent entry is a node as [init] leaves it.  [std::sort] leaves the
    order of equal elements open, so it is a parameter, described by the class
    [StdSort]. *)

From stdpp Require Import base gmap list option sorting.
From Stdlib Require Import ZArith Lia.
From S2P Require Import Prelude Mem LzwDict.

Open Scope Z_scope.

(** ** Nodes *)

Record lzwNode : Type := mkNode {
  _code : Z;
  _prev : Z;
  _first : Z;
  _next : Z;
  _len : Z;
  _refNum : Z;
  _ch : Z
}.

Definition set_code (c : Z) (n : lzwNode) : lzwNode :=
  mkNode c (_prev n) (_first n) (_next n) (_len n) (_refNum n) (_ch n).
Definition set_first (f : Z) (n : lzwNode) : lzwNode :=
  mkNode (_code n) (_prev n) f (_next n) (_len n) (_refNum n) (_ch n).
Definition set_next (x : Z) (n : lzwNode) : lzwNode :=
  mkNode (_code n) (_prev n) (_first n) x (_len n) (_refNum n) (_ch n).
Definition inc_refNum (n : lzwNode) : lzwNode :=
  mkNode (_code n) (_prev n) (_first n) (_next n) (_len n) (u32 (_refNum n + 1)) (_ch n).

(** A node as [init] leaves it: the first 256 stand for the single bytes. *)
Definition initNode (i : Z) : lzwNode :=
  if i <? 256
  then mkNode UTIL_INVALID_DICT_CODE UTIL_INVALID_DICT_CODE UTIL_INVALID_DICT_CODE
         UTIL_INVALID_DICT_CODE 1 1 i
  else mkNode UTIL_INVALID_DICT_CODE UTIL_INVALID_DICT_CODE UTIL_INVALID_DICT_CODE
         UTIL_INVALID_DICT_CODE 0 0 0.

Record lzwBuilder : Type := mkBuilder {
  _nodes : gmap Z lzwNode;
  _maxNodeNum : Z;
  b_maxCode : Z;
  b_codeSize : Z;
  _nodeSortVec : list Z
}.

(** [_nodes[i]] *)
Definition node (b : lzwBuilder) (i : Z) : option lzwNode :=
  if (0 <=? i) && (i <? _maxNodeNum b) then Some (default (initNode i) (_nodes b !! i)) else None.

Definition with_nodes (b : lzwBuilder) (m : gmap Z lzwNode) : lzwBuilder :=
  mkBuilder m (_maxNodeNum b) (b_maxCode b) (b_codeSize b) (_nodeSortVec b).

(** An assignment to fields of [_nodes[i]] *)
Definition upd (f : lzwNode -> lzwNode) (i : Z) (b : lzwBuilder) : option lzwBuilder :=
  n ← node b i; Some (with_nodes b (<[i := f n]> (_nodes b))).

Definition init : lzwBuilder :=
  mkBuilder ∅ UTIL_MAX_DICT_BUILD_ITEM_NUM 255 8 (seqZ 0 256).

(** ** Growing the trie

    Brothers are linked in strictly increasing order of their one-byte
    characters, so 257 steps reach the end of the chain. *)

Definition CHAIN_FUEL : nat := 257.

(** The last brother with a smaller character and the one after it. *)
Fixpoint addStr_loop (fuel : nat) (b : lzwBuilder) (ch currCode nextCode : Z)
    : option (Z * Z) :=
  match fuel with
  | O => None
  | S fuel' =>
      if UTIL_INVALID_DICT_CODE =? nextCode then Some (currCode, nextCode)
      else
        n ← node b nextCode;
        if _ch n <? ch then addStr_loop fuel' b ch nextCode (_next n)
        else Some (currCode, nextCode)
  end.

(** Links node [m] among the children of [preCode]. *)
Definition linkChild (b : lzwBuilder) (preCode m ch : Z) : option lzwBuilder :=
  p ← node b preCode;
  if UTIL_INVALID_DICT_CODE =? _first p then upd (set_first m) preCode b
  else
    '(currCode, nextCode) ← addStr_loop CHAIN_FUEL b ch UTIL_INVALID_DICT_CODE (_first p);
    b ← upd (set_next nextCode) m b;
    if UTIL_INVALID_DICT_CODE =? currCode then upd (set_first m) preCode b
    else upd (set_next m) currCode b.

Definition addStr (b : lzwBuilder) (preCode ch : Z) : option (lzwBuilder * Z) :=
  if u32 (b_maxCode b + 1) =? _maxNodeNum b then Some (b, UTIL_INVALID_DICT_CODE)
  else
    let m := u32 (b_maxCode b + 1) in
    let codeSize := if m =? Z.shiftl 1 (b_codeSize b) then u8 (b_codeSize b + 1)
                    else b_codeSize b in
    let b := mkBuilder (_nodes b) (_maxNodeNum b) m codeSize (_nodeSortVec b) in
    b ← upd (fun n => mkNode (_code n) preCode UTIL_INVALID_DICT_CODE (_next n) (_len n)
                        (_refNum n) (_ch n)) m b;
    b ← linkChild b preCode m ch;
    p ← node b preCode;
    b ← upd (fun n => mkNode (_code n) (_prev n) (_first n) (_next n) (u32 (_len p + 1)) 0 ch)
          m b;
    Some (mkBuilder (_nodes b) (_maxNodeNum b) m codeSize (_nodeSortVec b ++ [m]), m).

Fixpoint findStr_loop (fuel : nat) (b : lzwBuilder) (preCode ch nextCode : Z)
    : option (lzwBuilder * Z) :=
  match fuel with
  | O => None
  | S fuel' =>
      if nextCode =? UTIL_INVALID_DICT_CODE then Some (b, UTIL_INVALID_DICT_CODE)
      else
        n ← node b nextCode;
        if _ch n <? ch then findStr_loop fuel' b preCode ch (_next n)
        else if (preCode =? _prev n) && (ch =? _ch n) then
          b ← upd inc_refNum nextCode b; Some (b, nextCode)
        else Some (b, UTIL_INVALID_DICT_CODE)
  end.

Definition findStr (b : lzwBuilder) (preCode ch : Z) : option (lzwBuilder * Z) :=
  b ← (if preCode <=? UTIL_MAX_DICT_INIT_CODE then upd inc_refNum preCode b else Some b);
  p ← node b preCode;
  findStr_loop CHAIN_FUEL b preCode ch (_first p).

(** The string of a node, last character first found; [i] characters are still
    to be written. *)
Fixpoint getStr_loop (i : nat) (b : lzwBuilder) (code : Z) (acc : list Z) : option (list Z) :=
  match i with
  | O => Some acc
  | S i' =>
      if code =? UTIL_INVALID_DICT_CODE then Some acc
      else n ← node b code; getStr_loop i' b (_prev n) (_ch n :: acc)
  end.

Definition getStr (b : lzwBuilder) (code : Z) : option (list Z) :=
  n ← node b code; getStr_loop (Z.to_nat (_len n)) b code [].

(** ** Learning from sample data

    One iteration per step of [pos]; the flag says whether the node array
    became full. *)

Fixpoint build_loop (fuel : nat) (b : lzwBuilder) (source : list Z) (sourceLen : Z)
    (pos code strLen : Z) (restart : bool) : option (lzwBuilder * bool) :=
  match fuel with
  | O => None
  | S fuel' =>
      if pos <? sourceLen then
        c ← rd source pos;
        if restart && (pos + 1 =? sourceLen) then Some (b, false)
        else
          (* the string so far, the next character and the last position read *)
          '(code, strLen, ch, pos) ←
            (if restart then ch ← rd source (pos + 1); Some (c, 1, ch, pos + 1)
             else Some (code, strLen, c, pos));
          '(b, nextCode) ← findStr b code ch;
          if UTIL_INVALID_DICT_CODE =? nextCode then
            '(b, nextCode) ← addStr b code ch;
            if nextCode =? _maxNodeNum b - 1 then Some (b, true)
            else build_loop fuel' b source sourceLen (pos + 1) ch 1 false
          else
            build_loop fuel' b source sourceLen (pos + 1) nextCode (strLen + 1)
              (UTIL_MAX_DICT_STR_LEN <=? strLen + 1)
      else Some (b, false)
  end.

Definition build (b : lzwBuilder) (source : list Z) : option (lzwBuilder * bool) :=
  c ← rd source 0;
  build_loop (S (length source)) b source (Z.of_nat (length source)) 1 c 1 false.

(** The creator feeds records until there are no more or the array is full
    ([build] may be called again after that: nothing more is added). *)
Fixpoint buildAll (b : lzwBuilder) (sources : list (list Z)) : option lzwBuilder :=
  match sources with
  | [] => Some b
  | s :: rest => '(b, _) ← build b s; buildAll b rest
  end.

(** ** Ranking: [std::sort] with [_sortNodeByRef] *)

Definition _sortNodeByRef (l r : Z * lzwNode) : bool := _refNum (r.2) <? _refNum (l.2).

Class StdSort : Type := std_sort : forall {A}, (A -> A -> bool) -> list A -> list A.

(** [std::sort] permutes its range so that no element precedes one that is
    less than it, for a comparison that is a strict weak order. *)
Class StdSortSpec `{StdSort} : Prop := {
  std_sort_perm : forall A (lt : A -> A -> bool) (l : list A), Permutation (std_sort lt l) l;
  std_sort_sorted : forall A (lt : A -> A -> bool) (l : list A),
    (forall x, lt x x = false) ->
    (forall x y z, lt x y = true -> lt y z = true -> lt x z = true) ->
    (forall x y z, lt x y = false -> lt y z = false -> lt x z = false) ->
    StronglySorted (fun x y => lt y x = false) (std_sort lt l)
}.

Section finalize.
Context `{StdSort}.

(** The loop that hands codes out: enough are held back for the nodes of the
    single bytes.  Returns the builder and the largest code given. *)
Fixpoint assignCodes (b : lzwBuilder) (order : list Z)
    (code remainCode remainInitNode maxValid : Z) : option (lzwBuilder * Z) :=
  match order with
  | [] => Some (b, maxValid)
  | i :: order' =>
      let isInit := i <=? UTIL_MAX_DICT_INIT_CODE in
      let remainInitNode := if isInit then remainInitNode - 1 else remainInitNode in
      if negb isInit && (remainCode <=? remainInitNode)
      then assignCodes b order' code remainCode remainInitNode maxValid
      else
        b ← upd (set_code code) i b;
        if UTIL_MAX_DICT_ITEM_NUM =? code + 1 then Some (b, code)
        else assignCodes b order' (code + 1) (remainCode - 1) remainInitNode code
  end.

Definition rankNodes (b : lzwBuilder) : option (list Z) :=
  ns ← mapM (fun i => n ← node b i; Some (i, n)) (_nodeSortVec b);
  Some (std_sort _sortNodeByRef ns).*1.

(** A 32-bit code has at most 32 bits. *)
Fixpoint calcCodeSize_loop (fuel : nat) (code codeSize : Z) : Z :=
  match fuel with
  | O => codeSize
  | S fuel' =>
      let code := Z.shiftr code 1 in
      if code =? 0 then codeSize else calcCodeSize_loop fuel' code (codeSize + 1)
  end.

Definition _calcCodeSize (code : Z) : Z := calcCodeSize_loop 32 code 1.

Definition _setVarLenSplitInfo (maxCode maxValid codeSize : Z) : lzwHead :=
  mkHead maxCode maxValid codeSize UTIL_VAR_LEN_FLAG_SIZE
    [u8 (codeSize - 7); u8 (codeSize - 5); u8 (codeSize - 3); codeSize].

(** [sizeof( utilLZWDictHead )] *)
Definition DICT_HEAD_SIZE : Z := 44.

(** What [memset] and [attach] leave: zeroed tables of [maxValid + 1] items,
    the rest of the buffer being the string area. *)
Definition _initFinalEnv (bufLen : Z) (h : lzwHead) : option lzwDict :=
  let itemNum := _maxValidCode h + 1 in
  let area := bufLen - DICT_HEAD_SIZE - 12 * itemNum in
  if area <? 0 then None
  else
    let zeros := replicate (Z.to_nat itemNum) 0 in
    Some (mkDict h zeros zeros zeros (replicate (Z.to_nat area) 0)).

(** ** The compression string table *)

Record grpState : Type := mkGrp {
  g_cst : list Z;
  g_codeMap : list Z;
  g_indexMap : gmap Z Z;
  g_nextIdx : Z
}.

(** [_cst[i] = f( _cst[i] )] *)
Definition updItem (m : list Z) (i : Z) (f : Z -> Z) : option (list Z) :=
  x ← rd m i; wr m i (f x).

(** The brothers from node [index] on; the flag tells whether one was kept. *)
Fixpoint formatGrp_loop (fuel : nat) (b : lzwBuilder) (parentIdx nextPos index : Z)
    (posSet : bool) (g : grpState) : option (grpState * bool) :=
  match fuel with
  | O => None
  | S fuel' =>
      n ← node b index;
      '(g, posSet) ←
        (if UTIL_INVALID_DICT_CODE =? _code n then Some (g, posSet) : option (grpState * bool)
         else
           cst ← updItem (g_cst g) (g_nextIdx g) (fun x => CST_SET_CHAR x (_ch n));
           codeMap ← wr (g_codeMap g) (g_nextIdx g) (_code n);
           cst ← (if posSet then Some cst
                  else updItem cst parentIdx (fun x => CST_SET_CHILD x nextPos));
           Some (mkGrp cst codeMap (<[g_nextIdx g := index]> (g_indexMap g)) (g_nextIdx g + 1),
                 true));
      if UTIL_INVALID_DICT_CODE =? _next n then Some (g, posSet)
      else formatGrp_loop fuel' b parentIdx nextPos (_next n) posSet g
  end.

(** [CST_SET_CHILD( _cst[parentIdx], CST_INVALID_CHILD )] *)
Definition setNoChild (parentIdx : Z) (g : grpState) : option grpState :=
  cst ← updItem (g_cst g) parentIdx (fun x => CST_SET_CHILD x CST_INVALID_CHILD);
  Some (mkGrp cst (g_codeMap g) (g_indexMap g) (g_nextIdx g)).

Definition _formatOneGrp (b : lzwBuilder) (parentIdx : Z) (g : grpState) : option grpState :=
  p ← node b (default 0 (g_indexMap g !! parentIdx));
  if UTIL_INVALID_DICT_CODE =? _first p then setNoChild parentIdx g
  else
    '(g, posSet) ← formatGrp_loop CHAIN_FUEL b parentIdx (g_nextIdx g) (_first p) false g;
    if posSet : bool then Some g else setNoChild parentIdx g.

(** The 256 roots. *)
Fixpoint formatRoots (n : nat) (b : lzwBuilder) (code : Z) (g : grpState) : option grpState :=
  match n with
  | O => Some g
  | S n' =>
      nd ← node b code;
      cst ← updItem (g_cst g) code (fun x => CST_SET_CHAR x (_ch nd));
      codeMap ← wr (g_codeMap g) code (_code nd);
      formatRoots n' b (code + 1)
        (mkGrp cst codeMap (<[code := code]> (g_indexMap g)) (g_nextIdx g))
  end.

(** One group per item, in the order the items were made; every item is in the
    table, so the table's length bounds the iterations. *)
Fixpoint formatGrps (fuel : nat) (b : lzwBuilder) (index : Z) (g : grpState) : option grpState :=
  match fuel with
  | O => None
  | S fuel' =>
      if index <? g_nextIdx g then
        g ← _formatOneGrp b index g; formatGrps fuel' b (index + 1) g
      else Some g
  end.

(** ** The decompression string table *)

Record dstState : Type := mkDst {
  s_dst : list Z;
  s_area : list Z;
  s_offset : Z
}.

(** The characters from node [preCode] up, to the front of [acc]
    ([strBuff[pos .. 255)]), until the start of the string or a node whose
    string is stored and is longer than 4, which is linked to.  The fuel is
    [pos]: at 0 the code returns [SDB_SYS], the inner [None]. *)
Fixpoint remoteStr_loop (pos : nat) (b : lzwBuilder) (dst : list Z) (preCode : Z) (acc : list Z)
    : option (option (list Z * bool)) :=
  match pos with
  | O => Some None
  | S pos' =>
      n ← node b preCode;
      let acc := _ch n :: acc in
      if UTIL_INVALID_DICT_CODE =? _prev n then Some (Some (acc, false))
      else
        p ← node b (_prev n);
        let realCode := _code p in
        item ← rd dst realCode;
        if negb (0 =? item) && (4 <? _len p) then
          if (pos' <? 3)%nat then None
          else Some (Some (Z.shiftr (Z.land realCode 16711680) 16
                             :: Z.shiftr (Z.land realCode 65280) 8
                             :: Z.land realCode 255 :: acc, true))
        else remoteStr_loop pos' b dst (_prev n) acc
  end.

Definition setLocal (b : lzwBuilder) (i : Z) (len : Z) (item : Z) : option Z :=
  s ← getStr b i; Some (DST_SET_LOCAL_STR (DST_SET_LOCAL_LEN item len) s len).

Definition remoteItem (item : Z) (link : bool) (pos len : Z) : Z :=
  let item := DST_SET_REMOTE_FLAG item in
  let item := if link then DST_SET_LINK_FLAG item else item in
  DST_SET_REMOTE_LEN (DST_SET_REMOTE_POS item pos) len.

(** The prefixes of a string just stored share its place. *)
Fixpoint remotePrefixes (fuel : nat) (b : lzwBuilder) (link : bool) (offset totalLen i preCode : Z)
    (dst : list Z) : option (list Z) :=
  match fuel with
  | O => None
  | S fuel' =>
      if preCode =? UTIL_INVALID_DICT_CODE then Some dst
      else
        n ← node b preCode;
        item ← rd dst (_code n);
        if negb (item =? 0) then Some dst
        else
          item ← (if DST_MAX_LOCAL_LEN <? _len n
                  then Some (remoteItem item link offset (u32 (totalLen - i)))
                  else setLocal b preCode (_len n) item);
          dst ← wr dst (_code n) item;
          remotePrefixes fuel' b link offset totalLen (i + 1) (_prev n) dst
  end.

Definition _formatRemoteStr (b : lzwBuilder) (code : Z) (s : dstState) : option (Z * dstState) :=
  n ← node b code;
  r ← remoteStr_loop (Z.to_nat UTIL_MAX_DICT_STR_LEN) b (s_dst s) code [];
  match r with
  | None => Some (SDB_SYS, s)
  | Some (str, link) =>
      let totalLen := Z.of_nat (length str) in
      area ← wr_range (s_area s) (s_offset s) str;
      item ← rd (s_dst s) (_code n);
      dst ← wr (s_dst s) (_code n) (remoteItem item link (s_offset s) totalLen);
      dst ← remotePrefixes 256 b link (s_offset s) totalLen 1 (_prev n) dst;
      Some (SDB_OK, mkDst dst area (s_offset s + totalLen))
  end.

(** The prefixes of a short string. *)
Fixpoint localPrefixes (fuel : nat) (b : lzwBuilder) (preCode : Z) (dst : list Z)
    : option (list Z) :=
  match fuel with
  | O => None
  | S fuel' =>
      if UTIL_INVALID_DICT_CODE =? preCode then Some dst
      else
        n ← node b preCode;
        item ← rd dst (_code n);
        dst ← (if 0 =? item then item ← setLocal b preCode (_len n) item; wr dst (_code n) item
               else Some dst);
        localPrefixes fuel' b (_prev n) dst
  end.

Definition _formatOneCode (b : lzwBuilder) (code : Z) (s : dstState) : option (Z * dstState) :=
  n ← node b code;
  item ← rd (s_dst s) (_code n);
  if negb (0 =? item) then Some (SDB_OK, s)
  else if DST_MAX_LOCAL_LEN <? _len n then _formatRemoteStr b code s
  else
    item ← setLocal b code (_len n) item;
    dst ← wr (s_dst s) (_code n) item;
    dst ← localPrefixes 4 b (_prev n) dst;
    Some (SDB_OK, mkDst dst (s_area s) (s_offset s)).

(** [code] nodes are left; the last added node comes first. *)
Fixpoint formatDst_loop (code : nat) (b : lzwBuilder) (s : dstState) : option (Z * dstState) :=
  match code with
  | O => Some (SDB_OK, s)
  | S currCode =>
      n ← node b (Z.of_nat currCode);
      if UTIL_INVALID_DICT_CODE =? _code n then formatDst_loop currCode b s
      else
        '(rc, s) ← _formatOneCode b (Z.of_nat currCode) s;
        if rc =? SDB_OK then formatDst_loop currCode b s else Some (rc, s)
  end.

Definition _formatDst (b : lzwBuilder) (s : dstState) : option (Z * dstState) :=
  formatDst_loop (Z.to_nat (b_maxCode b + 1)) b s.

(** ** The whole conversion

    [addInfo] holds the bytes of the object that records the creation time.
    The result is the return code, the dictionary and its length. *)

Definition finalize (b : lzwBuilder) (addInfo : list Z) (bufLen : Z)
    : option (Z * lzwDict * Z) :=
  order ← rankNodes b;
  '(b, maxValid) ← assignCodes b order 0 UTIL_MAX_DICT_ITEM_NUM 256 0;
  let h := _setVarLenSplitInfo (b_maxCode b) maxValid (_calcCodeSize maxValid) in
  d ← _initFinalEnv bufLen h;
  g ← formatRoots 256 b 0 (mkGrp (_cst d) (_codeMap d) ∅ (UTIL_MAX_DICT_INIT_CODE + 1));
  g ← formatGrps (S (length (_cst d))) b 0 g;
  '(rc, s) ← _formatDst b (mkDst (_dst d) (_strArea d) 0);
  let d := mkDict h (g_cst g) (g_codeMap g) (s_dst s) (s_area s) in
  if negb (rc =? SDB_OK) then Some (rc, d, bufLen)
  else
    let writePos := DICT_HEAD_SIZE + 12 * (maxValid + 1) + s_offset s in
    let end_ := writePos + Z.of_nat (length addInfo) in
    if bufLen <? end_ then Some (SDB_INVALIDARG, d, bufLen)
    else
      area ← wr_range (s_area s) (s_offset s) addInfo;
      Some (SDB_OK, mkDict h (g_cst g) (g_codeMap g) (s_dst s) area, end_).
End finalize.
