(* ===== verification/Lzw.v ===== *)
(** * The LZW compressor

    Models [include/utilCompressorLZW.hpp] and [util/utilCompressorLZW.cpp]:
    the bit stream with its 32-bit buffer ([lzwContext]), the three levels of
    compression, the two decoders, and the entry points of the compressor.

    [source] and [dest] are memories of a given size; none of the functions
    checks that a write fits [dest], so an overrun is [None]. *)

From stdpp Require Import base gmap list option.
From Stdlib Require Import ZArith Lia.
From S2P Require Import Prelude Mem LzwDict.

Open Scope Z_scope.

Definition SDB_UTIL_COMPRESS_ABORT : Z := -304.
Definition UTIL_COMPRESSOR_DFT_MIN_RATIO : Z := 80.

Inductive UTIL_COMPRESSION_LEVEL : Set :=
  | UTIL_COMP_BEST_SPEED
  | UTIL_COMP_BALANCE
  | UTIL_COMP_BEST_COMPRESSION.

Record utilCompressStrategy : Type := mkStrategy {
  _minRatio : Z;
  _level : UTIL_COMPRESSION_LEVEL
}.

(** ** The bit stream *)

Record lzwContext : Type := mkCtx {
  _stream : list Z;
  _streamLen : Z;
  _streamPos : Z;
  _buf : Z;
  _n : Z
}.

Definition _readByte (c : lzwContext) : option (Z * lzwContext) :=
  ch ← rd (_stream c) (_streamPos c);
  Some (ch, mkCtx (_stream c) (_streamLen c) (_streamPos c + 1) (_buf c) (_n c)).

Definition _writeByte (c : lzwContext) (ch : Z) : option lzwContext :=
  s ← wr (_stream c) (_streamPos c) ch;
  Some (mkCtx s (_streamLen c) (_streamPos c + 1) (_buf c) (_n c)).

(** One more byte into the low end of the buffer. *)
Definition pullByte (c : lzwContext) : option lzwContext :=
  '(ch, c) ← _readByte c;
  Some (mkCtx (_stream c) (_streamLen c) (_streamPos c)
          (Z.lor (u32 (Z.shiftl (_buf c) 8)) ch) (_n c + 8)).

(** Pull until the buffer holds [size] bits: at most one byte per bit. *)
Fixpoint pull_loop (fuel : nat) (size : Z) (c : lzwContext) : option lzwContext :=
  match fuel with
  | O => None
  | S fuel' => if _n c <? size then c ← pullByte c; pull_loop fuel' size c else Some c
  end.

(** The next [size] bits of the stream, pulling bytes as needed. *)
Definition takeBits (size : Z) (c : lzwContext) : option (Z * lzwContext) :=
  c ← pull_loop (S (Z.to_nat size)) size c;
  let n := _n c - size in
  Some (Z.land (Z.shiftr (_buf c) n) (Z.shiftl 1 size - 1),
        mkCtx (_stream c) (_streamLen c) (_streamPos c) (_buf c) n).

Definition _readCode (d : lzwDict) (c : lzwContext) : option (Z * lzwContext) :=
  takeBits (getCodeSize d) c.

(** The flag bits are fetched by at most one byte. *)
Definition _readVarLenCode (d : lzwDict) (c : lzwContext) : option (Z * lzwContext) :=
  let flagSize := getVarLenFlagSize d in
  c ← (if _n c <? flagSize then pullByte c else Some c);
  let lenIdx := Z.land (Z.shiftr (_buf c) (_n c - flagSize)) (Z.shiftl 1 flagSize - 1) in
  codeSize ← getVarLenSize d lenIdx;
  takeBits codeSize (mkCtx (_stream c) (_streamLen c) (_streamPos c) (_buf c) (_n c - flagSize)).

(** The upper bytes of the buffer go out. *)
Fixpoint emit_loop (fuel : nat) (c : lzwContext) (bitNum : Z) : option lzwContext :=
  match fuel with
  | O => None
  | S fuel' =>
      if 8 <=? bitNum then
        let bitNum := bitNum - 8 in
        c ← _writeByte c (u8 (Z.shiftr (_buf c) bitNum));
        emit_loop fuel' c bitNum
      else Some (mkCtx (_stream c) (_streamLen c) (_streamPos c) (_buf c) bitNum)
  end.

Definition _writeBits (c : lzwContext) (bits bitNum : Z) : option lzwContext :=
  let buf := Z.lor (u32 (Z.shiftl (_buf c) bitNum)) (Z.land bits (Z.shiftl 1 bitNum - 1)) in
  let total := bitNum + _n c in
  emit_loop (S (Z.to_nat total)) (mkCtx (_stream c) (_streamLen c) (_streamPos c) buf (_n c)) total.

Definition _writeBitsExt (d : lzwDict) (c : lzwContext) (bits bitNum codeLen : Z)
    : option lzwContext :=
  let flagSize := getVarLenFlagSize d in
  let buf := Z.lor (Z.lor (u32 (Z.shiftl (_buf c) (bitNum + flagSize)))
                      (u32 (Z.shiftl codeLen bitNum)))
               (Z.land bits (Z.shiftl 1 bitNum - 1)) in
  let total := _n c + bitNum + flagSize in
  emit_loop (S (Z.to_nat total)) (mkCtx (_stream c) (_streamLen c) (_streamPos c) buf (_n c)) total.

Definition _writeCode (d : lzwDict) (c : lzwContext) (code : Z) : option lzwContext :=
  _writeBits c code (getCodeSize d).

(** Also returns the size used. *)
Definition _writeVarLenCode (d : lzwDict) (c : lzwContext) (code : Z)
    : option (lzwContext * Z) :=
  let '(lenIndex, splitSize) := getVarLenInfo d code 0 0 in
  c ← _writeBitsExt d c code splitSize lenIndex;
  Some (c, splitSize).

Definition _flushBits (c : lzwContext) : option lzwContext :=
  if negb (_n c =? 0) then _writeBits c 0 (8 - _n c) else Some c.

(** ** Compression

    Each pass of a loop consumes at least one byte of the source. *)

(** [source + currPos] *)
Definition at_ (source : list Z) (currPos : Z) : list Z := drop (Z.to_nat currPos) source.

Fixpoint levelOne_loop (fuel : nat) (d : lzwDict) (source : list Z) (maxCodeNum : Z)
    (c : lzwContext) (currPos remainLen codeNum : Z) : option (Z * lzwContext) :=
  match fuel with
  | O => None
  | S fuel' =>
      '(code, length) ← findStrExt d (at_ source currPos) remainLen;
      c ← _writeCode d c code;
      let codeNum := u32 (codeNum + 1) in
      if maxCodeNum <? codeNum then Some (SDB_UTIL_COMPRESS_ABORT, c)
      else
        let remainLen := u32 (remainLen - length) in
        if 0 <? remainLen
        then levelOne_loop fuel' d source maxCodeNum c (currPos + length) remainLen codeNum
        else c ← _flushBits c; Some (SDB_OK, c)
  end.

Definition _compressLevelOne (d : lzwDict) (c : lzwContext) (source : list Z)
    (sourceLen maxSize : Z) : option (Z * lzwContext) :=
  levelOne_loop (S (Z.to_nat sourceLen)) d source (u32 (maxSize * 8) / getCodeSize d)
    c 0 sourceLen 0.

Fixpoint levelTwo_loop (fuel : nat) (d : lzwDict) (source : list Z) (maxBitNum : Z)
    (c : lzwContext) (currPos remainLen totalBitNum : Z) : option (Z * lzwContext) :=
  match fuel with
  | O => None
  | S fuel' =>
      '(code, length) ← findStrExt d (at_ source currPos) remainLen;
      '(c, bits) ← _writeVarLenCode d c code;
      let totalBitNum := u32 (totalBitNum + bits) in
      if maxBitNum <? totalBitNum then Some (SDB_UTIL_COMPRESS_ABORT, c)
      else
        let remainLen := u32 (remainLen - length) in
        if 0 <? remainLen
        then levelTwo_loop fuel' d source maxBitNum c (currPos + length) remainLen totalBitNum
        else c ← _flushBits c; Some (SDB_OK, c)
  end.

Definition _compressLevelTwo (d : lzwDict) (c : lzwContext) (source : list Z)
    (sourceLen maxSize : Z) : option (Z * lzwContext) :=
  levelTwo_loop (S (Z.to_nat sourceLen)) d source (u32 (maxSize * 8)) c 0 sourceLen 0.

(** The first pass of level three: the codes and the size of their
    variable-length form; the split found last stays when a code has none. *)
Fixpoint collect_loop (fuel : nat) (d : lzwDict) (source : list Z)
    (currPos remainLen lenIdx splitSize total : Z) (codes : list Z) : option (list Z * Z) :=
  match fuel with
  | O => None
  | S fuel' =>
      '(code, length) ← findStrExt d (at_ source currPos) remainLen;
      let '(lenIdx, splitSize) := getVarLenInfo d code lenIdx splitSize in
      let total := u32 (total + (splitSize + UTIL_VAR_LEN_FLAG_SIZE)) in
      let remainLen := u32 (remainLen - length) in
      if 0 <? remainLen
      then collect_loop fuel' d source (currPos + length) remainLen lenIdx splitSize total
             (codes ++ [code])
      else Some (codes ++ [code], total)
  end.

Fixpoint writeCodes (d : lzwDict) (codes : list Z) (c : lzwContext) : option lzwContext :=
  match codes with
  | [] => Some c
  | code :: codes' => c ← _writeCode d c code; writeCodes d codes' c
  end.

Fixpoint writeVarLenCodes (d : lzwDict) (codes : list Z) (c : lzwContext) : option lzwContext :=
  match codes with
  | [] => Some c
  | code :: codes' => '(c, _) ← _writeVarLenCode d c code; writeVarLenCodes d codes' c
  end.

(** Also returns [varLenCode]. *)
Definition _compressLevelThree (d : lzwDict) (c : lzwContext) (source : list Z)
    (sourceLen maxSize : Z) : option (Z * lzwContext * bool) :=
  '(codes, varLenTotalBits) ← collect_loop (S (Z.to_nat sourceLen)) d source 0 sourceLen 0 0 0 [];
  let fixLenTotalBits := u32 (Z.of_nat (length codes) * getCodeSize d) in
  let useVarLenComp := u32 (varLenTotalBits * 100) / fixLenTotalBits <=? 95 in
  let bits := if useVarLenComp then varLenTotalBits else fixLenTotalBits in
  if u32 (maxSize * 8) <? bits then Some (SDB_UTIL_COMPRESS_ABORT, c, false)
  else
    c ← (if useVarLenComp then writeVarLenCodes d codes c else writeCodes d codes c);
    c ← _flushBits c;
    Some (SDB_OK, c, useVarLenComp).

(** ** The header of compressed data *)

Definition UTIL_VAR_LEN_FLAG : Z := 2147483648.
(** [0x00FFFFFF] *)
Definition UTIL_VAR_LEN_LENGTH_MASK : Z := 16777215.
(** [sizeof( _utilLZWHeader )] *)
Definition LZW_HEADER_SIZE : Z := 4.

Definition setVarLenFlag (value : Z) : Z := Z.lor value UTIL_VAR_LEN_FLAG.
Definition isVarLenCode (value : Z) : bool := negb (Z.land value UTIL_VAR_LEN_FLAG =? 0).
Definition setLength (value len : Z) : Z := Z.lor (Z.land value UTIL_VAR_LEN_FLAG) len.
Definition getLength (value : Z) : Z := Z.land value UTIL_VAR_LEN_LENGTH_MASK.

Definition readHeader (source : list Z) : option Z :=
  bs ← rd_range source 0 LZW_HEADER_SIZE; Some (le_word bs).

(** ** Decompression *)

(** A pass consumes at least one byte unless codes are shorter than a byte;
    eight codes to a byte is the most there can be. *)
Fixpoint decode_loop (fuel : nat) (d : lzwDict)
    (next : lzwContext -> option (Z * lzwContext)) (c : lzwContext) (dest : list Z) (totalOut : Z)
    : option (list Z * Z) :=
  match fuel with
  | O => None
  | S fuel' =>
      if _streamPos c <? _streamLen c then
        '(code, c) ← next c;
        s ← getStrExt d code;
        dest ← wr_range dest totalOut s;
        decode_loop fuel' d next c dest (totalOut + Z.of_nat (length s))
      else Some (dest, totalOut)
  end.

Definition _decodeFixLenCode (d : lzwDict) (c : lzwContext) (dest : list Z) : option (list Z * Z) :=
  decode_loop (S (8 * length (_stream c))) d (_readCode d) c dest 0.

Definition _decodeVarLenCode (d : lzwDict) (c : lzwContext) (dest : list Z) : option (list Z * Z) :=
  decode_loop (S (8 * length (_stream c))) d (_readVarLenCode d) c dest 0.

(** ** Entry points *)

(** [_codeSize * srcLen + 7] is computed in 32 bits, the sum in 64. *)
Definition compressBound (dictionary : option lzwDict) (srcLen : Z) : Z + Z :=
  match dictionary with
  | None => inl SDB_INVALIDARG
  | Some d =>
      let size := u32 (getCodeSize d * srcLen + 7) / 8 + 4 in
      if negb (Z.shiftr size 32 =? 0) then inl SDB_INVALIDARG else inr (u32 size)
  end.

(** The return code, the destination memory and, on success, the length. *)
Definition compress (dictHandle : option lzwDict) (strategy : option utilCompressStrategy)
    (source : list Z) (sourceLen : Z) (dest : list Z) (destLen : Z) : option (Z * list Z * Z) :=
  match dictHandle with
  | None => Some (SDB_INVALIDARG, dest, destLen)
  | Some d =>
      let minRatio := from_option _minRatio UTIL_COMPRESSOR_DFT_MIN_RATIO strategy in
      let level := from_option _level UTIL_COMP_BEST_SPEED strategy in
      let maxSize := u32 (u64 (sourceLen * minRatio) / 100) in
      let c := mkCtx dest destLen LZW_HEADER_SIZE 0 0 in
      let head := setLength 0 sourceLen in
      '(rc, c, varLenCode) ←
        match level with
        | UTIL_COMP_BEST_SPEED =>
            '(rc, c) ← _compressLevelOne d c source sourceLen maxSize; Some (rc, c, false)
        | UTIL_COMP_BALANCE =>
            '(rc, c) ← _compressLevelTwo d c source sourceLen maxSize; Some (rc, c, false)
        | UTIL_COMP_BEST_COMPRESSION => _compressLevelThree d c source sourceLen maxSize
        end;
      if negb (rc =? SDB_OK) then Some (rc, _stream c, destLen)
      else
        let head := if varLenCode : bool then setVarLenFlag head else head in
        dest ← wr_range (_stream c) 0 (le_bytes 4 head);
        Some (SDB_OK, dest, _streamPos c)
  end.

Definition getUncompressedLen (source : list Z) : option Z :=
  head ← readHeader source; Some (getLength head).

Definition decompress (dictHandle : option lzwDict) (source : list Z) (sourceLen : Z)
    (dest : list Z) (destLen : Z) : option (Z * list Z * Z) :=
  match dictHandle with
  | None => Some (SDB_INVALIDARG, dest, destLen)
  | Some d =>
      let c := mkCtx source sourceLen LZW_HEADER_SIZE 0 0 in
      head ← readHeader source;
      '(dest, totalOut) ←
        (if isVarLenCode head then _decodeVarLenCode d c dest else _decodeFixLenCode d c dest);
      Some (SDB_OK, dest, totalOut)
  end.
