(* ===== verification/LzwBits.v ===== *)
(** * The bit stream of the compressor

    A stream is read as its list of bits, most significant first.  The writer
    appends exactly the bits of each code and the reader takes them off again:
    the lemmas below state this for one code, with the up to 31 bits that sit
    in the buffer on either side. *)

From stdpp Require Import base gmap list option.
From Stdlib Require Import ZArith Lia.
From S2P Require Import Prelude Mem LzwDict Lzw.

Open Scope Z_scope.

(** ** Bits of a word *)

(** The low [n] bits of [v], the highest of them first. *)
Fixpoint bits_of (n : nat) (v : Z) : list bool :=
  match n with
  | O => []
  | S n' => Z.testbit v (Z.of_nat n') :: bits_of n' v
  end.

(** The bits of a list of bytes. *)
Definition bytes_bits (l : list Z) : list bool := mjoin (bits_of 8 <$> l).

Lemma bits_of_length n v : length (bits_of n v) = n.
Proof. induction n; simpl; auto. Qed.

Lemma bits_of_ext n v w :
  (forall i, 0 <= i < Z.of_nat n -> Z.testbit v i = Z.testbit w i) -> bits_of n v = bits_of n w.
Proof.
  induction n as [|n IH]; intros H; simpl; [done|].
  f_equal; [apply H; lia|]. apply IH. intros; apply H; lia.
Qed.

Lemma bits_of_inj n v w :
  bits_of n v = bits_of n w -> forall i, 0 <= i < Z.of_nat n -> Z.testbit v i = Z.testbit w i.
Proof.
  induction n as [|n IH]; simpl; intros H i Hi; [lia|].
  injection H as H0 H1. destruct (decide (i = Z.of_nat n)) as [->|]; [done|].
  apply IH; [done|lia].
Qed.

Lemma bits_of_app a b v : bits_of (a + b) v = bits_of a (Z.shiftr v (Z.of_nat b)) ++ bits_of b v.
Proof.
  induction a as [|a IH]; simpl; [done|]. f_equal; [|done].
  rewrite Z.shiftr_spec by lia. f_equal. lia.
Qed.

Lemma land_ones_shiftl v s : 0 <= s -> Z.land v (Z.shiftl 1 s - 1) = v mod 2 ^ s.
Proof.
  intros. rewrite Z.shiftl_1_l. replace (2 ^ s - 1) with (Z.ones s) by (rewrite Z.ones_equiv; lia).
  by rewrite Z.land_ones by lia.
Qed.

Lemma bits_of_mod n v s : Z.of_nat n <= s -> bits_of n (v mod 2 ^ s) = bits_of n v.
Proof.
  intros. apply bits_of_ext. intros i Hi. rewrite testbit_mod_pow2 by lia.
  case_Zb; [done|lia].
Qed.

(** Two words with the same low [n] bits. *)
Lemma bits_of_eq_mod n v w :
  bits_of n v = bits_of n w -> v mod 2 ^ Z.of_nat n = w mod 2 ^ Z.of_nat n.
Proof.
  intros H. apply Z.bits_inj'. intros i Hi. rewrite !testbit_mod_pow2 by lia.
  destruct (Z.ltb_spec i (Z.of_nat n)); simpl; [|done]. eapply bits_of_inj; eauto.
Qed.

(** The buffer after [s] bits of [v] were shifted in. *)
Lemma bits_of_push n s buf v :
  0 <= s -> Z.of_nat n + s <= 32 ->
  bits_of (n + Z.to_nat s) (Z.lor (u32 (Z.shiftl buf s)) (Z.land v (Z.shiftl 1 s - 1)))
  = bits_of n buf ++ bits_of (Z.to_nat s) v.
Proof.
  intros. rewrite bits_of_app, land_ones_shiftl by lia. f_equal; apply bits_of_ext; intros i Hi.
  - rewrite Z.shiftr_spec, Z.lor_spec, testbit_mod_pow2 by lia.
    unfold u32. rewrite testbit_mod_pow2, Z.shiftl_spec by lia.
    do 2 case_Zb; try lia. simpl. rewrite orb_false_r. f_equal. lia.
  - rewrite Z.lor_spec, testbit_mod_pow2 by lia.
    unfold u32. rewrite testbit_mod_pow2, Z.shiftl_spec_low by lia.
    rewrite andb_false_r. case_Zb; [done|lia].
Qed.

Lemma bits_of_push_byte n buf ch :
  (n <= 24)%nat -> 0 <= ch < 256 ->
  bits_of (n + 8) (Z.lor (u32 (Z.shiftl buf 8)) ch) = bits_of n buf ++ bits_of 8 ch.
Proof.
  intros. rewrite <- (bits_of_push n 8) by lia. f_equal. f_equal.
  rewrite land_ones_shiftl, Z.mod_small by lia. done.
Qed.

(** Bits that are read: [s] from below the top of an [n + s]-bit buffer. *)
Lemma bits_of_pop n s buf v tl bs :
  0 <= s -> 0 <= n -> bits_of (Z.to_nat (n + s)) buf ++ tl = bits_of (Z.to_nat s) v ++ bs ->
  Z.land (Z.shiftr buf n) (Z.shiftl 1 s - 1) = v mod 2 ^ s /\ bits_of (Z.to_nat n) buf ++ tl = bs.
Proof.
  intros Hs Hn H. replace (Z.to_nat (n + s)) with (Z.to_nat s + Z.to_nat n)%nat in H by lia.
  rewrite bits_of_app, <- app_assoc in H.
  apply app_inj_1 in H as [H ->]; [|by rewrite !bits_of_length].
  apply bits_of_eq_mod in H. rewrite !Z2Nat.id in H by lia. by rewrite land_ones_shiftl by lia.
Qed.

Lemma bytes_bits_app l l' : bytes_bits (l ++ l') = bytes_bits l ++ bytes_bits l'.
Proof. unfold bytes_bits. by rewrite fmap_app, join_app. Qed.

Lemma bytes_bits_single b : bytes_bits [b] = bits_of 8 b.
Proof. unfold bytes_bits. cbn [fmap list_fmap mjoin list_join]. apply app_nil_r. Qed.

Lemma bytes_bits_length l : length (bytes_bits l) = (8 * length l)%nat.
Proof.
  induction l as [|b l IH]; [done|].
  change (b :: l) with ([b] ++ l). rewrite bytes_bits_app, bytes_bits_single, length_app.
  rewrite bits_of_length, IH. simpl. lia.
Qed.

(** ** Writing *)

(** The bytes written from position [start] on. *)
Definition out (start : Z) (c : lzwContext) : list Z :=
  drop (Z.to_nat start) (take (Z.to_nat (_streamPos c)) (_stream c)).

(** [c] has written exactly the bits [bs] since [start], and owns [cap] bytes. *)
Record writer (start : Z) (cap : nat) (bs : list bool) (c : lzwContext) : Prop := {
  w_start : 0 <= start <= _streamPos c;
  w_pos : _streamPos c <= Z.of_nat cap;
  w_cap : length (_stream c) = cap;
  w_n : 0 <= _n c < 8;
  w_bits : bytes_bits (out start c) ++ bits_of (Z.to_nat (_n c)) (_buf c) = bs;
  w_bytes : Forall is_byte (out start c)
}.

Lemma writer_length start cap bs c :
  writer start cap bs c -> Z.of_nat (length bs) = 8 * (_streamPos c - start) + _n c.
Proof.
  intros [? ? ? ? <- _]. rewrite length_app, bytes_bits_length, bits_of_length.
  unfold out. rewrite length_drop, length_take. lia.
Qed.

Lemma out_writeByte start c ch c' :
  0 <= start <= _streamPos c -> _writeByte c ch = Some c' ->
  out start c' = out start c ++ [ch] /\ length (_stream c') = length (_stream c).
Proof.
  unfold _writeByte. intros Hs Hw. destruct (wr _ _ _) as [s|] eqn:E; [|done].
  simpl in Hw. injection Hw as <-. unfold out. simpl. split; [|by eapply wr_length].
  pose proof (wr_inv _ _ _ _ E) as [? _]. rewrite (wr_take _ _ _ _ E), drop_app_le; [done|].
  rewrite length_take. lia.
Qed.

(** The loop writes out the whole bytes of the [k] bits the buffer holds. *)
Lemma emit_loop_ok start : forall fuel c k,
  0 <= k -> k < 8 * Z.of_nat fuel -> 0 <= start <= _streamPos c ->
  _streamPos c + k / 8 <= Z.of_nat (length (_stream c)) -> Forall is_byte (out start c) ->
  exists c', emit_loop fuel c k = Some c' /\
    writer start (length (_stream c)) (bytes_bits (out start c) ++ bits_of (Z.to_nat k) (_buf c)) c'.
Proof.
  induction fuel as [|fuel IH]; intros c k Hk Hf Hs Hcap Hb; [lia|]. simpl.
  destruct (Z.leb_spec 8 k) as [H8|H8].
  - assert (E : k / 8 = (k - 8) / 8 + 1).
    { replace k with (k - 8 + 1 * 8) at 1 by lia. apply Z.div_add. lia. }
    pose proof (Z.div_pos (k - 8) 8).
    destruct (_writeByte c _) as [c1|] eqn:Ew; unfold _writeByte in Ew;
      rewrite wr_Some in Ew by lia; [|done].
    pose proof (out_writeByte start c (u8 (Z.shiftr (_buf c) (k - 8))) c1) as [Ho Hl];
      [done|unfold _writeByte; by rewrite wr_Some by lia|].
    injection Ew as <-. simpl in *.
    destruct (IH (mkCtx (<[Z.to_nat (_streamPos c):=u8 (_buf c ≫ (k - 8))]> (_stream c))
      (_streamLen c) (_streamPos c + 1) (_buf c) (_n c)) (k - 8)) as (c' & -> & Hc');
      simpl; rewrite ?Hl; try lia.
    { rewrite Ho. apply Forall_app. split; [done|]. apply Forall_singleton.
      unfold is_byte, u8. apply Z.mod_pos_bound. lia. }
    exists c'. split; [done|]. rewrite Ho in Hc'. simpl in Hc'.
    rewrite bytes_bits_app, bytes_bits_single, <- app_assoc in Hc'.
    replace (Z.to_nat k) with (8 + Z.to_nat (k - 8))%nat by lia.
    rewrite bits_of_app, Z2Nat.id by lia. unfold u8 in Hc'. rewrite bits_of_mod in Hc' by lia.
    by rewrite length_insert in Hc'.
  - eexists. split; [done|]. rewrite (Z.div_small k 8) in Hcap by lia.
    constructor; simpl; try done; lia.
Qed.

(** Writing [s] bits of [v] appends them. *)
Lemma writeBits_ok start cap bs c v s :
  writer start cap bs c -> 0 <= s <= 24 ->
  8 * start + Z.of_nat (length bs) + s <= 8 * Z.of_nat cap ->
  exists c', _writeBits c v s = Some c' /\ writer start cap (bs ++ bits_of (Z.to_nat s) v) c'.
Proof.
  intros Hw Hs Hcap. pose proof (writer_length _ _ _ _ Hw) as Hl. destruct Hw as [Hst Hp Hc Hn Hb Hby].
  unfold _writeBits. set (buf := Z.lor _ _).
  pose proof (Z.mul_div_le (s + _n c) 8 ltac:(lia)).
  destruct (emit_loop_ok start (S (Z.to_nat (s + _n c)))
    (mkCtx (_stream c) (_streamLen c) (_streamPos c) buf (_n c)) (s + _n c)) as (c' & -> & Hc');
    simpl; try done; try lia.
  exists c'. split; [done|]. simpl in Hc'. rewrite Hc in Hc'.
  replace (Z.to_nat (s + _n c)) with (Z.to_nat (_n c) + Z.to_nat s)%nat in Hc' by lia.
  unfold buf in Hc'. rewrite bits_of_push in Hc' by lia. rewrite app_assoc in Hc'.
  change (out start (mkCtx _ _ _ _ _)) with (out start c) in Hc'. by rewrite Hb in Hc'.
Qed.

(** The flag and the code of a variable-length code, as one number. *)
Lemma var_len_word buf v s idx :
  0 <= s -> 0 <= idx < 4 -> s <= 24 ->
  Z.lor (Z.lor (u32 (Z.shiftl buf (s + 2))) (u32 (Z.shiftl idx s))) (Z.land v (Z.shiftl 1 s - 1))
  = Z.lor (u32 (Z.shiftl buf (s + 2)))
      (Z.land (Z.lor (Z.shiftl idx s) (Z.land v (Z.shiftl 1 s - 1))) (Z.shiftl 1 (s + 2) - 1)).
Proof.
  intros. rewrite <- Z.lor_assoc. f_equal. rewrite !land_ones_shiftl by lia.
  apply Z.bits_inj'. intros i Hi. unfold u32.
  rewrite testbit_mod_pow2, !Z.lor_spec, !testbit_mod_pow2 by lia. rewrite Z.shiftl_spec by lia.
  assert (Hidx : Z.testbit idx (i - s) = (i <? s + 2) && Z.testbit idx (i - s)).
  { destruct (Z.ltb_spec i (s + 2)); [done|]. simpl.
    destruct (decide (idx = 0)) as [->|]; [apply Z.bits_0|]. apply Z.bits_above_log2; [lia|].
    assert (Z.log2 idx < 2); [|lia]. apply Z.log2_lt_pow2; lia. }
  rewrite Hidx. destruct (Z.ltb_spec i (s + 2)), (Z.ltb_spec i 32), (Z.ltb_spec i s);
    simpl; try done; try lia.
Qed.

Lemma bits_of_var_len v s idx :
  0 <= s -> 
  bits_of (Z.to_nat (s + 2)) (Z.lor (Z.shiftl idx s) (Z.land v (Z.shiftl 1 s - 1)))
  = bits_of 2 idx ++ bits_of (Z.to_nat s) v.
Proof.
  intros. replace (Z.to_nat (s + 2)) with (2 + Z.to_nat s)%nat by lia.
  rewrite bits_of_app, land_ones_shiftl by lia.
  f_equal; apply bits_of_ext; intros i Hi.
  - rewrite Z.shiftr_spec, Z.lor_spec, Z.shiftl_spec, testbit_mod_pow2 by lia.
    case_Zb; [lia|]. simpl. rewrite orb_false_r. f_equal. lia.
  - rewrite Z.lor_spec, Z.shiftl_spec_low, testbit_mod_pow2 by lia. case_Zb; [done|lia].
Qed.

Lemma writeBitsExt_ok d start cap bs c v s idx :
  getVarLenFlagSize d = 2 ->
  writer start cap bs c -> 0 <= s <= 22 -> 0 <= idx < 4 ->
  8 * start + Z.of_nat (length bs) + (s + 2) <= 8 * Z.of_nat cap ->
  exists c', _writeBitsExt d c v s idx = Some c' /\
    writer start cap (bs ++ bits_of 2 idx ++ bits_of (Z.to_nat s) v) c'.
Proof.
  intros Hf Hw Hs Hi Hcap.
  destruct (writeBits_ok start cap bs c (Z.lor (Z.shiftl idx s) (Z.land v (Z.shiftl 1 s - 1)))
    (s + 2)) as (c' & E & Hc'); [done|lia|lia|].
  exists c'. split; [|by rewrite bits_of_var_len in Hc' by lia].
  rewrite <- E. unfold _writeBitsExt, _writeBits. rewrite Hf.
  rewrite (var_len_word (_buf c) v s idx) by lia.
  replace (_n c + s + 2) with (s + 2 + _n c) by lia. done.
Qed.

(** Padding to a whole byte. *)
Lemma flushBits_ok start cap bs c :
  writer start cap bs c -> Z.of_nat (length bs) <= 8 * (Z.of_nat cap - start) ->
  exists c' pad, _flushBits c = Some c' /\ (length pad < 8)%nat /\ _n c' = 0 /\
    writer start cap (bs ++ pad) c'.
Proof.
  intros Hw Hcap. pose proof (writer_length _ _ _ _ Hw) as Hl. unfold _flushBits.
  destruct (Z.eqb_spec (_n c) 0) as [E|E]; simpl.
  - exists c, []. rewrite app_nil_r. split_and!; try done. simpl; lia.
  - pose proof (w_n _ _ _ _ Hw). pose proof (w_cap _ _ _ _ Hw).
    destruct (writeBits_ok start cap bs c 0 (8 - _n c)) as (c' & -> & Hc'); [done|lia|lia|].
    exists c', (bits_of (Z.to_nat (8 - _n c)) 0). split_and!; try done.
    + rewrite bits_of_length. lia.
    + apply writer_length in Hc' as Hl'. destruct Hc'.
      rewrite length_app, bits_of_length in Hl'. lia.
Qed.

(** A flushed writer has nothing left in its buffer. *)
Lemma writer_flushed start cap bs c :
  writer start cap bs c -> _n c = 0 -> bytes_bits (out start c) = bs.
Proof. intros [_ _ _ _ <- _] ->. simpl. by rewrite app_nil_r. Qed.

(** ** Reading *)

(** [c] reads a stream of [len] bytes of which the bits [bs] are left. *)
Record reader (len : Z) (bs : list bool) (c : lzwContext) : Prop := {
  r_pos : 0 <= _streamPos c <= len;
  r_len : _streamLen c = len;
  r_mem : len = Z.of_nat (length (_stream c));
  r_n : 0 <= _n c < 8;
  r_bits : bits_of (Z.to_nat (_n c)) (_buf c)
           ++ bytes_bits (drop (Z.to_nat (_streamPos c)) (_stream c)) = bs;
  r_bytes : Forall is_byte (_stream c)
}.

Lemma reader_length len bs c :
  reader len bs c -> Z.of_nat (length bs) = 8 * (len - _streamPos c) + _n c.
Proof.
  intros [? ? ? ? <- _]. rewrite length_app, bytes_bits_length, bits_of_length, length_drop. lia.
Qed.

(** The next byte of the stream. *)
Lemma pullByte_ok c :
  0 <= _n c <= 24 -> 0 <= _streamPos c < Z.of_nat (length (_stream c)) ->
  Forall is_byte (_stream c) ->
  exists c', pullByte c = Some c' /\ _n c' = _n c + 8 /\ _streamPos c' = _streamPos c + 1 /\
    _stream c' = _stream c /\ _streamLen c' = _streamLen c /\
    bits_of (Z.to_nat (_n c')) (_buf c')
      ++ bytes_bits (drop (Z.to_nat (_streamPos c')) (_stream c'))
    = bits_of (Z.to_nat (_n c)) (_buf c)
      ++ bytes_bits (drop (Z.to_nat (_streamPos c)) (_stream c)).
Proof.
  intros Hn Hp Hby. destruct (rd_is_Some (_stream c) (_streamPos c)) as [ch Hch]; [lia|].
  assert (Hl : _stream c !! Z.to_nat (_streamPos c) = Some ch).
  { unfold rd in Hch. case_Zb; [done|lia]. }
  assert (is_byte ch) by (rewrite Forall_lookup in Hby; eauto).
  unfold pullByte, _readByte. rewrite Hch. simpl. eexists. split_and!; try done. simpl.
  replace (Z.to_nat (_n c + 8)) with (Z.to_nat (_n c) + 8)%nat by lia.
  rewrite bits_of_push_byte by (done || lia).
  rewrite (drop_S _ ch (Z.to_nat (_streamPos c))) by done.
  change (ch :: ?l) with ([ch] ++ l). rewrite bytes_bits_app, bytes_bits_single, app_assoc.
  replace (Z.to_nat (_streamPos c + 1)) with (S (Z.to_nat (_streamPos c))) by lia. done.
Qed.

(** Pulling bytes until [size] bits are in the buffer. *)
Lemma pull_loop_ok size : forall fuel c,
  0 <= size <= 24 -> 0 <= _n c < size + 8 ->
  0 <= _streamPos c <= Z.of_nat (length (_stream c)) -> Forall is_byte (_stream c) ->
  size <= _n c + 8 * (Z.of_nat (length (_stream c)) - _streamPos c) ->
  size - _n c + 8 <= 8 * Z.of_nat fuel ->
  exists c', pull_loop fuel size c = Some c' /\ size <= _n c' /\ (_n c' < size + 8) /\
    0 <= _streamPos c' <= Z.of_nat (length (_stream c)) /\
    _stream c' = _stream c /\ _streamLen c' = _streamLen c /\
    bits_of (Z.to_nat (_n c')) (_buf c')
      ++ bytes_bits (drop (Z.to_nat (_streamPos c')) (_stream c'))
    = bits_of (Z.to_nat (_n c)) (_buf c)
      ++ bytes_bits (drop (Z.to_nat (_streamPos c)) (_stream c)).
Proof.
  induction fuel as [|fuel IH]; intros c Hs Hn Hp Hby Hsz Hf; [lia|]. simpl.
  destruct (Z.ltb_spec (_n c) size); [|exists c; split_and!; auto; lia].
  destruct (pullByte_ok c) as (c1 & -> & En & Ep & Es & El & Eb); [lia|lia|done|]. simpl.
  destruct (IH c1) as (c2 & E & Hrest); rewrite ?En, ?Ep, ?Es; try done; try lia.
  exists c2. split; [done|]. destruct Hrest as (? & ? & ? & ? & ? & ->).
  rewrite Es in *. split_and!; auto; try lia; congruence.
Qed.

(** Taking [size] bits off the stream. *)
Lemma takeBits_ok len size v bs c :
  0 <= size <= 24 -> reader len (bits_of (Z.to_nat size) v ++ bs) c ->
  exists c', takeBits size c = Some (v mod 2 ^ size, c') /\ reader len bs c' /\
    _stream c' = _stream c.
Proof.
  intros Hs Hr. pose proof (reader_length _ _ _ Hr) as Hl. destruct Hr as [Hp Hlen Hm Hn Hb Hby].
  rewrite length_app, bits_of_length in Hl. unfold takeBits.
  destruct (pull_loop_ok size (S (Z.to_nat size)) c) as (c1 & -> & H1 & H2 & H3 & H4 & H5 & H6);
    try lia; [done|].
  simpl. rewrite <- H6 in Hb. replace (_n c1) with (_n c1 - size + size) in Hb by lia.
  apply bits_of_pop in Hb as [-> Hb]; [|lia|lia].
  eexists. split; [done|]. split; [|done].
  constructor; simpl; rewrite ?H4, ?H5 in *; try done; lia.
Qed.

(** Reading a variable-length code: its flag names the size of the rest. *)
Lemma readVarLenCode_ok d len idx size v bs c :
  getVarLenFlagSize d = 2 -> 0 <= idx < 4 -> getVarLenSize d idx = Some size -> 0 <= size <= 24 ->
  reader len (bits_of 2 idx ++ bits_of (Z.to_nat size) v ++ bs) c ->
  exists c', _readVarLenCode d c = Some (v mod 2 ^ size, c') /\ reader len bs c' /\
    _stream c' = _stream c.
Proof.
  intros Hf Hi Hsz Hs Hr. unfold _readVarLenCode. rewrite Hf.
  pose proof (reader_length _ _ _ Hr) as Hl. rewrite !length_app, !bits_of_length in Hl.
  destruct Hr as [Hp Hlen Hm Hn Hb Hby].
  assert (exists c1, (if _n c <? 2 then pullByte c else Some c) = Some c1 /\ 2 <= _n c1 < 10 /\
    0 <= _streamPos c1 <= len /\ _stream c1 = _stream c /\ _streamLen c1 = _streamLen c /\
    bits_of (Z.to_nat (_n c1)) (_buf c1)
      ++ bytes_bits (drop (Z.to_nat (_streamPos c1)) (_stream c1))
    = bits_of (Z.to_nat (_n c)) (_buf c)
      ++ bytes_bits (drop (Z.to_nat (_streamPos c)) (_stream c)))
    as (c1 & -> & Hn1 & Hp1 & Es & El & Eb).
  { destruct (Z.ltb_spec (_n c) 2); [|exists c; split_and!; auto; lia].
    destruct (pullByte_ok c) as (c1 & -> & En & Ep & Es & El & Eb); [lia|lia|done|].
    exists c1. split_and!; auto; lia. }
  simpl. rewrite <- Eb in Hb. replace (_n c1) with (_n c1 - 2 + 2) in Hb by lia.
  apply (bits_of_pop (_n c1 - 2) 2 (_buf c1) idx) in Hb as [-> Hb]; [|lia|lia].
  rewrite (Z.mod_small idx) by (simpl; lia). rewrite Hsz. simpl.
  destruct (takeBits_ok len size v bs
    (mkCtx (_stream c1) (_streamLen c1) (_streamPos c1) (_buf c1) (_n c1 - 2)))
    as (c2 & -> & Hr2 & Es2); [done| |].
  { constructor; simpl; rewrite ?Es, ?El in *; try done; lia. }
  exists c2. simpl in Es2. rewrite Es in Es2. auto.
Qed.
