(* ===== verification/LzwRound.v ===== *)
(** * Decompression undoes compression

    The compressor's client view of a dictionary is the class [DictOk]: a
    lookup of a non-empty string finds a code for a non-empty prefix of it, and
    the code's string is that prefix.  For every such dictionary, what
    [compress] writes is read back by [decompress] (levels one and three), the
    output fits the size [compressBound] gives and meets the requested ratio.
    That the dictionaries the creator makes are of this class is shown in
    [LzwFinal]. *)

From stdpp Require Import base gmap list option.
From Stdlib Require Import ZArith Lia.
From S2P Require Import Prelude Mem LzwDict Lzw LzwBits.

Open Scope Z_scope.

(** ** What a dictionary promises *)

Class DictOk (d : lzwDict) : Prop := {
  dict_codeSize : 8 <= getCodeSize d <= 18;
  dict_maxValid : 0 <= getMaxValidCode d < 2 ^ getCodeSize d;
  dict_flagSize : getVarLenFlagSize d = 2;
  dict_split : _splitInfo (_head d)
    = [getCodeSize d - 7; getCodeSize d - 5; getCodeSize d - 3; getCodeSize d];
  dict_find : forall s n, Forall is_byte s -> 1 <= n <= Z.of_nat (length s) ->
    exists code len, findStrExt d s n = Some (code, len) /\ 1 <= len <= n /\
      0 <= code <= getMaxValidCode d /\ getStrExt d code = Some (take (Z.to_nat len) s)
}.

(** Every code has a variable-length form that the decoder reads back: the
    largest one is below the all-ones code, and no code with its flag is
    shorter than a byte. *)
Definition var_len_safe (d : lzwDict) : Prop :=
  13 <= getCodeSize d /\ getMaxValidCode d < 2 ^ getCodeSize d - 1.

(** [codes] are valid and their strings, in order, make up [s]. *)
Inductive spells (d : lzwDict) : list Z -> list Z -> Prop :=
  | spells_nil : spells d [] []
  | spells_cons code codes t s :
      0 <= code <= getMaxValidCode d -> getStrExt d code = Some t -> t <> [] ->
      spells d codes s -> spells d (code :: codes) (t ++ s).

Lemma spells_app d cs1 cs2 s1 s2 :
  spells d cs1 s1 -> spells d cs2 s2 -> spells d (cs1 ++ cs2) (s1 ++ s2).
Proof.
  induction 1; intros H'; simpl; [done|]. rewrite <- app_assoc. constructor; auto.
Qed.

Lemma spells_count d codes s : spells d codes s -> (length codes <= length s)%nat.
Proof.
  induction 1 as [|code codes t s _ _ Ht _ IH]; simpl; [lia|].
  rewrite length_app. destruct t; [done|]. simpl. lia.
Qed.

(** The bits of a sequence of codes under an encoding of single codes. *)
Definition enc_all (enc : Z -> list bool) (codes : list Z) : list bool := mjoin (enc <$> codes).

Lemma enc_all_cons enc code codes : enc_all enc (code :: codes) = enc code ++ enc_all enc codes.
Proof. done. Qed.

(** The encoding with fixed-length codes. *)
Definition enc_fix (d : lzwDict) (code : Z) : list bool := bits_of (Z.to_nat (getCodeSize d)) code.

(** The encoding with variable-length codes. *)
Definition enc_var (d : lzwDict) (code : Z) : list bool :=
  let '(idx, size) := getVarLenInfo d code 0 0 in bits_of 2 idx ++ bits_of (Z.to_nat size) code.

Lemma enc_fix_length d codes :
  Z.of_nat (length (enc_all (enc_fix d) codes))
  = Z.of_nat (length codes) * Z.of_nat (Z.to_nat (getCodeSize d)).
Proof.
  induction codes as [|code codes IH]; [done|].
  rewrite enc_all_cons, length_app. unfold enc_fix at 1. rewrite bits_of_length. simpl length. lia.
Qed.

(** ** Dictionary facts *)

Section dict.
Context (d : lzwDict) `{Hd : !DictOk d}.

(** The split found for a code, if any. *)
Lemma getVarLenInfo_loop_spec code :
  0 <= code ->
  match getVarLenInfo_loop 0 (_splitInfo (_head d)) code with
  | Some (i, s) => 0 <= i < 4 /\ getVarLenSize d i = Some s /\
      getCodeSize d - 7 <= s <= getCodeSize d /\ code < 2 ^ s
  | None => 2 ^ getCodeSize d - 1 <= code
  end.
Proof.
  intros. unfold getVarLenSize. rewrite dict_split. pose proof dict_codeSize as Hc. simpl.
  unfold DICT_BITS_UPBOUND. rewrite !Z.shiftl_1_l.
  repeat (case_Zb; [split_and!; try lia; done|]). lia.
Qed.

Lemma getVarLenInfo_bounds code i0 s0 :
  0 <= code -> 0 <= i0 < 4 -> 0 <= s0 <= getCodeSize d ->
  let '(i, s) := getVarLenInfo d code i0 s0 in 0 <= i < 4 /\ 0 <= s <= getCodeSize d.
Proof.
  intros Hc Hi Hs. unfold getVarLenInfo. pose proof (getVarLenInfo_loop_spec code Hc) as H.
  pose proof dict_codeSize.
  destruct (getVarLenInfo_loop _ _ _) as [[i s]|]; simpl; [|done].
  destruct H as (? & ? & ? & ?). lia.
Qed.

(** When no split fits, two bits are written where the count has more. *)
Lemma getVarLenInfo_counted code i0 s0 :
  0 <= code -> 0 <= i0 < 4 -> 0 <= s0 <= getCodeSize d ->
  Z.of_nat (length (enc_var d code)) <= (getVarLenInfo d code i0 s0).2 + 2.
Proof.
  intros Hc Hi Hs. unfold enc_var, getVarLenInfo.
  pose proof (getVarLenInfo_loop_spec code Hc) as H. pose proof dict_codeSize.
  destruct (getVarLenInfo_loop _ _ _) as [[i s]|]; simpl; [|lia].
  destruct H as (? & ? & ? & ?). rewrite bits_of_length. lia.
Qed.

Lemma readCode_enc code len bs c :
  0 <= code <= getMaxValidCode d -> reader len (enc_fix d code ++ bs) c ->
  exists c', _readCode d c = Some (code, c') /\ reader len bs c' /\ _stream c' = _stream c.
Proof.
  intros Hc Hr. pose proof dict_codeSize. pose proof dict_maxValid.
  destruct (takeBits_ok len (getCodeSize d) code bs c) as (c' & E & Hr'); [lia|done|].
  rewrite Z.mod_small in E by lia. eauto.
Qed.

Lemma readVarLenCode_enc code len bs c :
  var_len_safe d -> 0 <= code <= getMaxValidCode d -> reader len (enc_var d code ++ bs) c ->
  exists c', _readVarLenCode d c = Some (code, c') /\ reader len bs c' /\ _stream c' = _stream c.
Proof.
  intros [Hs Hm] Hc Hr. unfold enc_var, getVarLenInfo in Hr. pose proof dict_codeSize.
  pose proof (getVarLenInfo_loop_spec code) as H1.
  destruct (getVarLenInfo_loop _ _ _) as [[i s]|]; simpl in Hr; [|lia].
  destruct H1 as (? & ? & ? & ?); [lia|].
  destruct (readVarLenCode_ok d len i s code bs c) as (c' & E & Hr');
    [apply dict_flagSize|done|done|lia|exact Hr|].
  rewrite Z.mod_small in E by lia. eauto.
Qed.

Lemma enc_var_length code :
  var_len_safe d -> 0 <= code <= getMaxValidCode d -> (8 <= length (enc_var d code))%nat.
Proof.
  intros [Hs Hm] Hc. unfold enc_var, getVarLenInfo.
  pose proof (getVarLenInfo_loop_spec code) as H1.
  destruct (getVarLenInfo_loop _ _ _) as [[i s]|]; [|lia].
  destruct H1 as (? & ? & ? & ?); [lia|]. simpl. rewrite bits_of_length. lia.
Qed.

(** ** Decoding *)

(** A decoder that reads back codes of at least eight bits each recovers the
    string and stops at the end of the stream: the padding is too short to be
    taken for another code. *)
Lemma decode_loop_ok (enc : Z -> list bool) next :
  (forall code len bs c, 0 <= code <= getMaxValidCode d -> reader len (enc code ++ bs) c ->
     exists c', next c = Some (code, c') /\ reader len bs c' /\ _stream c' = _stream c) ->
  (forall code, 0 <= code <= getMaxValidCode d -> (8 <= length (enc code))%nat) ->
  forall codes s, spells d codes s -> forall fuel len pad c dest totalOut,
  reader len (enc_all enc codes ++ pad) c -> (length pad < 8)%nat ->
  (length codes < fuel)%nat -> 0 <= totalOut ->
  totalOut + Z.of_nat (length s) <= Z.of_nat (length dest) ->
  exists dest', decode_loop fuel d next c dest totalOut
      = Some (dest', totalOut + Z.of_nat (length s)) /\
    take (Z.to_nat (totalOut + Z.of_nat (length s))) dest' = take (Z.to_nat totalOut) dest ++ s /\
    length dest' = length dest.
Proof.
  intros Hnext Henc codes s Hsp.
  induction Hsp as [|code codes t s Hc Ht _ _ IH]; intros fuel len pad c dest totalOut Hr Hpad Hf H0 Hcap;
    (destruct fuel as [|fuel]; [simpl in Hf; lia|]);
    pose proof (reader_length _ _ _ Hr) as Hl; pose proof (r_n _ _ _ Hr);
    pose proof (r_pos _ _ _ Hr); pose proof (r_len _ _ _ Hr) as Hlen; simpl.
  - simpl in Hl. destruct (Z.ltb_spec (_streamPos c) (_streamLen c)); [lia|].
    exists dest. simpl. by rewrite Z.add_0_r, app_nil_r.
  - rewrite enc_all_cons in Hr, Hl. rewrite !length_app in Hl. pose proof (Henc code Hc).
    destruct (Z.ltb_spec (_streamPos c) (_streamLen c)); [|lia].
    rewrite <- app_assoc in Hr.
    destruct (Hnext code len _ c Hc Hr) as (c' & -> & Hr' & _). simpl.
    rewrite Ht. simpl. rewrite length_app in *.
    destruct (wr_range dest totalOut t) as [dest1|] eqn:Ew.
    2: { exfalso. unfold wr_range in Ew. destruct (Z.leb_spec 0 totalOut),
           (Z.leb_spec (totalOut + Z.of_nat (length t)) (Z.of_nat (length dest))); done || lia. }
    pose proof (wr_range_length _ _ _ _ Ew) as El. pose proof (wr_range_take _ _ _ _ Ew) as Et.
    simpl in Hf. simpl.
    destruct (IH fuel len pad c' dest1 (totalOut + Z.of_nat (length t)))
      as (dest' & -> & Ed & El'); try done; try lia.
    exists dest'. split_and!; [f_equal; f_equal; lia| |congruence].
    rewrite Et in Ed. rewrite <- app_assoc in Ed. rewrite <- Ed. f_equal. lia.
Qed.
End dict.

(** ** Encoding *)

Section encode.
Context (d : lzwDict) `{Hd : !DictOk d}.

(** One match: the rest of the source starts with the string of the code. *)
Lemma find_step source currPos :
  Forall is_byte source -> 0 <= currPos < Z.of_nat (length source) ->
  exists code len t, findStrExt d (at_ source currPos) (Z.of_nat (length source) - currPos)
      = Some (code, len) /\
    1 <= len <= Z.of_nat (length source) - currPos /\ 0 <= code <= getMaxValidCode d /\
    getStrExt d code = Some t /\ t <> [] /\
    at_ source currPos = t ++ at_ source (currPos + len).
Proof.
  intros Hb Hp. unfold at_.
  destruct (dict_find (drop (Z.to_nat currPos) source) (Z.of_nat (length source) - currPos))
    as (code & len & E & Hlen & Hc & Ht).
  { by apply Forall_drop. }
  { rewrite length_drop. lia. }
  eexists code, len, _. split_and!; try done; try lia.
  - intros Hnil. apply (f_equal length) in Hnil. rewrite length_take, length_drop in Hnil.
    simpl in Hnil. lia.
  - rewrite <- (take_drop (Z.to_nat len) (drop (Z.to_nat currPos) source)) at 1.
    rewrite drop_drop. do 2 f_equal. lia.
Qed.

Lemma u32_sub_len (source : list Z) currPos len :
  Z.of_nat (length source) < 2 ^ 32 -> 0 <= currPos < Z.of_nat (length source) ->
  1 <= len <= Z.of_nat (length source) - currPos ->
  u32 (Z.of_nat (length source) - currPos - len) = Z.of_nat (length source) - (currPos + len).
Proof. intros. rewrite u32_small by lia. lia. Qed.

Lemma writeCode_ok start cap bs c code :
  writer start cap bs c ->
  8 * start + Z.of_nat (length bs) + getCodeSize d <= 8 * Z.of_nat cap ->
  exists c', _writeCode d c code = Some c' /\ writer start cap (bs ++ enc_fix d code) c'.
Proof. intros. pose proof dict_codeSize. apply writeBits_ok; [done|lia|lia]. Qed.

Lemma writeVarLenCode_ok start cap bs c code :
  writer start cap bs c -> 0 <= code ->
  8 * start + Z.of_nat (length bs) + Z.of_nat (length (enc_var d code)) <= 8 * Z.of_nat cap ->
  exists c', _writeVarLenCode d c code = Some (c', (getVarLenInfo d code 0 0).2) /\
    writer start cap (bs ++ enc_var d code) c'.
Proof.
  intros Hw Hc Hcap. pose proof dict_codeSize. unfold _writeVarLenCode, enc_var in *.
  pose proof (getVarLenInfo_bounds d code 0 0 Hc) as Hb.
  destruct (getVarLenInfo d code 0 0) as [i s]. destruct Hb as [Hi Hs]; [lia|lia|].
  rewrite length_app, !bits_of_length in Hcap.
  destruct (writeBitsExt_ok d start cap bs c code s i) as (c' & -> & Hw');
    [apply dict_flagSize|done|lia|lia|lia|]. eauto.
Qed.

(** Level one either gives up or has written the codes of the whole source,
    no more of them than allowed; it never runs out of memory that has room
    for one code per byte. *)
Lemma levelOne_loop_ok source start cap maxCodeNum :
  Forall is_byte source -> Z.of_nat (length source) < 2 ^ 31 ->
  forall fuel c bs currPos codeNum,
  0 <= currPos < Z.of_nat (length source) -> 0 <= codeNum <= currPos ->
  Z.of_nat (length source) - currPos < Z.of_nat fuel -> writer start cap bs c ->
  8 * start + Z.of_nat (length bs) + getCodeSize d * (Z.of_nat (length source) - currPos)
    <= 8 * Z.of_nat cap ->
  exists rc c', levelOne_loop fuel d source maxCodeNum c currPos
      (Z.of_nat (length source) - currPos) codeNum = Some (rc, c') /\
    (rc = SDB_UTIL_COMPRESS_ABORT \/
     rc = SDB_OK /\ exists codes pad, spells d codes (at_ source currPos) /\
       codeNum + Z.of_nat (length codes) <= maxCodeNum /\ (length pad < 8)%nat /\ _n c' = 0 /\
       writer start cap (bs ++ enc_all (enc_fix d) codes ++ pad) c').
Proof.
  intros Hb Hlen. pose proof dict_codeSize as Hcs.
  induction fuel as [|fuel IH]; intros c bs currPos codeNum Hp Hcn Hf Hw Hcap; [lia|].
  cbn [levelOne_loop].
  destruct (find_step source currPos Hb Hp) as (code & len & t & -> & Hl & Hc & Ht & Hne & Hat).
  simpl mbind. cbn [option_bind].
  destruct (writeCode_ok start cap bs c code Hw) as (c1 & -> & Hw1); [nia|]. cbn [mbind option_bind].
  rewrite u32_small by lia.
  destruct (Z.ltb_spec maxCodeNum (codeNum + 1)); [eauto|].
  rewrite u32_sub_len by lia.
  assert (Hl1 : Z.of_nat (length (bs ++ enc_fix d code)) = Z.of_nat (length bs) + getCodeSize d).
  { rewrite length_app. unfold enc_fix. rewrite bits_of_length. lia. }
  destruct (Z.ltb_spec 0 (Z.of_nat (length source) - (currPos + len))) as [Hmore|Hmore].
  - destruct (IH c1 (bs ++ enc_fix d code) (currPos + len) (codeNum + 1))
      as (rc & c' & -> & Hres); [lia|lia|lia|done|nia|].
    exists rc, c'. split; [done|]. destruct Hres as [?|(-> & codes & pad & Hsp & Hn & Hpad & Hc0 & Hw')];
      [by left|right].
    split; [done|]. exists (code :: codes), pad. rewrite Hat.
    split_and!; [by constructor| |done|done|]; [simpl; lia|].
    rewrite enc_all_cons. by rewrite <- !app_assoc in Hw' |- *.
  - destruct (flushBits_ok start cap _ c1 Hw1) as (c' & pad & -> & Hpad & Hn0 & Hw'); [nia|].
    simpl. eexists _, c'. split; [done|]. right. split; [done|].
    exists [code], pad. rewrite Hat. replace (at_ source (currPos + len)) with (@nil Z).
    2: { symmetry. apply drop_ge. lia. }
    split_and!; [by apply spells_cons, spells_nil|simpl; lia|done|done|].
    unfold enc_all. simpl. rewrite (app_nil_r (enc_fix d code)). by rewrite <- app_assoc in Hw'.
Qed.

(** The first pass of level three collects the codes of the whole source and
    counts at least the bits their variable-length forms take. *)
Lemma collect_loop_ok source :
  Forall is_byte source -> Z.of_nat (length source) < 2 ^ 27 ->
  forall fuel currPos i s total codes,
  0 <= currPos < Z.of_nat (length source) -> 0 <= i < 4 -> 0 <= s <= getCodeSize d ->
  0 <= total <= 20 * currPos -> Z.of_nat (length source) - currPos < Z.of_nat fuel ->
  exists codes' total', collect_loop fuel d source currPos (Z.of_nat (length source) - currPos)
      i s total codes = Some (codes ++ codes', total') /\
    spells d codes' (at_ source currPos) /\ codes' <> [] /\ total' <= 20 * Z.of_nat (length source) /\
    total + Z.of_nat (length (enc_all (enc_var d) codes')) <= total'.
Proof.
  intros Hb Hlen. pose proof dict_codeSize as Hcs.
  induction fuel as [|fuel IH]; intros currPos i s total codes Hp Hi Hs Ht Hf; [lia|].
  cbn [collect_loop].
  destruct (find_step source currPos Hb Hp) as (code & len & t & -> & Hl & Hc & Ht' & Hne & Hat).
  cbn [mbind option_bind].
  pose proof (getVarLenInfo_counted d code i s (proj1 Hc) Hi Hs) as Hcnt.
  pose proof (getVarLenInfo_bounds d code i s (proj1 Hc) Hi Hs) as Hbd.
  destruct (getVarLenInfo d code i s) as [i' s']. destruct Hbd as [Hi' Hs']. simpl in Hcnt.
  unfold UTIL_VAR_LEN_FLAG_SIZE. rewrite (u32_small (total + _)) by lia. rewrite u32_sub_len by lia.
  destruct (Z.ltb_spec 0 (Z.of_nat (length source) - (currPos + len))) as [Hmore|Hmore].
  - destruct (IH (currPos + len) i' s' (total + (s' + 2)) (codes ++ [code]))
      as (codes' & total' & -> & Hsp & Hn & Hle & Hge); [lia|lia|lia|lia|lia|].
    exists (code :: codes'), total'. rewrite <- app_assoc, Hat, enc_all_cons, length_app.
    split_and!; try done; [|lia]. by constructor.
  - exists [code], (total + (s' + 2)). split; [done|]. rewrite Hat.
    replace (at_ source (currPos + len)) with (@nil Z).
    2: { symmetry. apply drop_ge. lia. }
    unfold enc_all. simpl. rewrite (app_nil_r (enc_var d code)).
    split_and!; [by apply spells_cons, spells_nil|done|lia|lia].
Qed.

Lemma writeCodes_ok start cap codes s :
  spells d codes s -> forall c bs, writer start cap bs c ->
  8 * start + Z.of_nat (length bs) + Z.of_nat (length (enc_all (enc_fix d) codes))
    <= 8 * Z.of_nat cap ->
  exists c', writeCodes d codes c = Some c' /\ writer start cap (bs ++ enc_all (enc_fix d) codes) c'.
Proof.
  pose proof dict_codeSize as Hcs.
  induction 1 as [|code codes t s Hc Ht Hne _ IH]; intros c bs Hw Hcap; simpl.
  - exists c. by rewrite app_nil_r.
  - rewrite enc_all_cons, length_app in Hcap.
    assert (Z.of_nat (length (enc_fix d code)) = getCodeSize d)
      by (unfold enc_fix; rewrite bits_of_length; lia).
    destruct (writeCode_ok start cap bs c code Hw) as (c1 & -> & Hw1); [lia|]. simpl.
    destruct (IH c1 _ Hw1) as (c' & -> & Hw'); [rewrite length_app; lia|].
    exists c'. split; [done|]. rewrite enc_all_cons. by rewrite <- app_assoc in Hw'.
Qed.

Lemma writeVarLenCodes_ok start cap codes s :
  spells d codes s -> forall c bs, writer start cap bs c ->
  8 * start + Z.of_nat (length bs) + Z.of_nat (length (enc_all (enc_var d) codes))
    <= 8 * Z.of_nat cap ->
  exists c', writeVarLenCodes d codes c = Some c' /\
    writer start cap (bs ++ enc_all (enc_var d) codes) c'.
Proof.
  induction 1 as [|code codes t s Hc Ht Hne _ IH]; intros c bs Hw Hcap; simpl.
  - exists c. by rewrite app_nil_r.
  - rewrite enc_all_cons, length_app in Hcap.
    destruct (writeVarLenCode_ok start cap bs c code Hw) as (c1 & -> & Hw1); [lia|lia|]. simpl.
    destruct (IH c1 _ Hw1) as (c' & -> & Hw'); [rewrite length_app; lia|].
    exists c'. split; [done|]. rewrite enc_all_cons. by rewrite <- app_assoc in Hw'.
Qed.

(** ** The levels *)

(** What a successful level leaves: the codes of the source, in one of the two
    encodings, padded to whole bytes and no longer than the ratio allows. *)
Definition encoded (source : list Z) (start maxSize : Z) (cap : nat) (var : bool) (c : lzwContext)
    : Prop :=
  exists codes pad, spells d codes source /\ (length pad < 8)%nat /\ _n c = 0 /\
    writer start cap (enc_all (if var then enc_var d else enc_fix d) codes ++ pad) c /\
    Z.of_nat (length (enc_all (if var then enc_var d else enc_fix d) codes)) <= 8 * maxSize.

Lemma writer_init dest destLen :
  4 <= Z.of_nat (length dest) -> writer 4 (length dest) [] (mkCtx dest destLen LZW_HEADER_SIZE 0 0).
Proof.
  intros. assert (E : out 4 (mkCtx dest destLen LZW_HEADER_SIZE 0 0) = []).
  { unfold out, LZW_HEADER_SIZE. cbn [_streamPos _stream]. apply drop_ge. rewrite length_take. lia. }
  constructor; unfold LZW_HEADER_SIZE in *; cbn [_streamPos _stream _n _buf] in *; try done; try lia.
  all: rewrite E; done.
Qed.

Lemma levelOne_ok source dest destLen maxSize :
  Forall is_byte source -> 1 <= Z.of_nat (length source) < 2 ^ 24 -> 0 <= maxSize < 2 ^ 26 ->
  4 + (getCodeSize d * Z.of_nat (length source) + 7) / 8 <= Z.of_nat (length dest) ->
  exists rc c, _compressLevelOne d (mkCtx dest destLen LZW_HEADER_SIZE 0 0) source
      (Z.of_nat (length source)) maxSize = Some (rc, c) /\
    (rc = SDB_UTIL_COMPRESS_ABORT \/ rc = SDB_OK /\ encoded source 4 maxSize (length dest) false c).
Proof.
  intros Hb Hn Hm Hcap. pose proof dict_codeSize as Hcs.
  pose proof (Z.div_mod (getCodeSize d * Z.of_nat (length source) + 7) 8) as Hdm.
  pose proof (Z.mod_pos_bound (getCodeSize d * Z.of_nat (length source) + 7) 8) as Hmb.
  unfold _compressLevelOne.
  destruct (levelOne_loop_ok source 4 (length dest) (u32 (maxSize * 8) / getCodeSize d) Hb
    ltac:(lia) (S (Z.to_nat (Z.of_nat (length source)))) (mkCtx dest destLen LZW_HEADER_SIZE 0 0) [] 0 0)
    as (rc & c & E & Hres); [lia|lia|lia| | |].
  { apply writer_init. nia. }
  { simpl. lia. }
  rewrite Z.sub_0_r in E. rewrite E. exists rc, c. split; [done|].
  destruct Hres as [?|(-> & codes & pad & Hsp & Hcnt & Hpad & Hn0 & Hw)]; [by left|right].
  split; [done|]. exists codes, pad. split_and!; try done.
  rewrite enc_fix_length. rewrite u32_small in Hcnt by lia.
  pose proof (Z.mul_div_le (maxSize * 8) (getCodeSize d)). nia.
Qed.

Lemma levelThree_ok source dest destLen maxSize :
  Forall is_byte source -> 1 <= Z.of_nat (length source) <= 2147483 -> 0 <= maxSize < 2 ^ 26 ->
  4 + (getCodeSize d * Z.of_nat (length source) + 7) / 8 <= Z.of_nat (length dest) ->
  exists rc c var, _compressLevelThree d (mkCtx dest destLen LZW_HEADER_SIZE 0 0) source
      (Z.of_nat (length source)) maxSize = Some (rc, c, var) /\
    (rc = SDB_UTIL_COMPRESS_ABORT \/ rc = SDB_OK /\ encoded source 4 maxSize (length dest) var c).
Proof.
  intros Hb Hn Hm Hcap. pose proof dict_codeSize as Hcs.
  pose proof (Z.div_mod (getCodeSize d * Z.of_nat (length source) + 7) 8) as Hdm.
  pose proof (Z.mod_pos_bound (getCodeSize d * Z.of_nat (length source) + 7) 8) as Hmb.
  unfold _compressLevelThree.
  destruct (collect_loop_ok source Hb ltac:(lia) (S (Z.to_nat (Z.of_nat (length source)))) 0 0 0 0 [])
    as (codes & total & E & Hsp & Hne & Htot & Hge); [lia|lia|lia|lia|lia|].
  rewrite Z.sub_0_r in E. rewrite E. cbn [mbind option_bind app].
  change (at_ source 0) with source in Hsp.
  pose proof (spells_count _ _ _ Hsp) as Hcnt. pose proof (enc_fix_length d codes) as Hfix.
  assert (0 < Z.of_nat (length codes)) by (destruct codes; [done|simpl; lia]).
  rewrite (u32_small (Z.of_nat (length codes) * _)) by nia.
  rewrite (u32_small (total * 100)), (u32_small (maxSize * 8)) by lia.
  assert (Hw : writer 4 (length dest) [] (mkCtx dest destLen LZW_HEADER_SIZE 0 0))
    by (apply writer_init; nia).
  set (fix_ := Z.of_nat (length codes) * getCodeSize d) in *.
  assert (Hvar : total * 100 / fix_ <= 95 -> total < fix_).
  { intros Hr. pose proof (Z.div_mod (total * 100) fix_). pose proof (Z.mod_pos_bound (total * 100) fix_). nia. }
  destruct (Z.leb_spec (total * 100 / fix_) 95) as [Hr|Hr].
  - destruct (Z.ltb_spec (maxSize * 8) total); [eexists _, _, _; split; [done|by left]|].
    destruct (writeVarLenCodes_ok 4 (length dest) codes source Hsp _ [] Hw) as (c1 & -> & Hw1);
      [simpl; nia|]. cbn [mbind option_bind].
    destruct (flushBits_ok _ _ _ _ Hw1) as (c & pad & -> & Hpad & Hn0 & Hw2); [simpl; nia|].
    eexists _, c, true. split; [done|]. right. split; [done|]. exists codes, pad.
    split_and!; try done. lia.
  - destruct (Z.ltb_spec (maxSize * 8) fix_); [eexists _, _, _; split; [done|by left]|].
    destruct (writeCodes_ok 4 (length dest) codes source Hsp _ [] Hw) as (c1 & -> & Hw1);
      [simpl; nia|]. cbn [mbind option_bind].
    destruct (flushBits_ok _ _ _ _ Hw1) as (c & pad & -> & Hpad & Hn0 & Hw2); [simpl; nia|].
    eexists _, c, false. split; [done|]. right. split; [done|]. exists codes, pad.
    split_and!; try done. lia.
Qed.
End encode.

(** ** The header *)

Definition header (var : bool) (n : Z) : Z :=
  if var then setVarLenFlag (setLength 0 n) else setLength 0 n.

Lemma testbit_small n k i : 0 <= n < 2 ^ k -> 0 <= k <= i -> Z.testbit n i = false.
Proof.
  intros Hn Hi. rewrite <- (Z.mod_small n (2 ^ k)) by lia. rewrite testbit_mod_pow2 by lia.
  case_Zb; [lia|done].
Qed.

Lemma header_bits var n i :
  0 <= n < 2 ^ 24 -> 0 <= i -> Z.testbit (header var n) i = Z.testbit n i || (var && (i =? 31)).
Proof.
  intros Hn Hi. unfold header, setVarLenFlag, setLength, UTIL_VAR_LEN_FLAG.
  change 2147483648 with (2 ^ 31).
  destruct var; rewrite ?Z.lor_spec, Z.land_0_l, ?Z.bits_0; simpl; [|by rewrite orb_false_r].
  rewrite Z.pow2_bits_eqb by lia. f_equal. apply Z.eqb_sym.
Qed.

Lemma header_range var n : 0 <= n < 2 ^ 24 -> 0 <= header var n < 2 ^ 32.
Proof.
  intros Hn. assert (E : header var n = header var n mod 2 ^ 32).
  { apply Z.bits_inj'. intros i Hi. rewrite testbit_mod_pow2, header_bits by lia.
    destruct (Z.ltb_spec i 32); [done|]. rewrite (testbit_small n 24) by lia.
    destruct (Z.eqb_spec i 31); [lia|]. by rewrite andb_false_r. }
  rewrite E. apply Z.mod_pos_bound. lia.
Qed.

Lemma header_flag var n : 0 <= n < 2 ^ 24 -> isVarLenCode (header var n) = var.
Proof.
  intros Hn. unfold isVarLenCode, UTIL_VAR_LEN_FLAG. change 2147483648 with (2 ^ 31).
  assert (E : Z.land (header var n) (2 ^ 31) = if var then 2 ^ 31 else 0).
  { apply Z.bits_inj'. intros i Hi. rewrite Z.land_spec, header_bits, Z.pow2_bits_eqb by lia.
    destruct (Z.eqb_spec 31 i) as [<-|].
    - rewrite (testbit_small n 24), andb_true_r by lia. by destruct var.
    - rewrite andb_false_r. destruct var; [|by rewrite Z.bits_0].
      rewrite Z.pow2_bits_eqb by lia. case_Zb; [lia|done]. }
  rewrite E. by destruct var.
Qed.

Lemma header_length var n : 0 <= n < 2 ^ 24 -> getLength (header var n) = n.
Proof.
  intros Hn. unfold getLength, UTIL_VAR_LEN_LENGTH_MASK. change 16777215 with (Z.ones 24).
  rewrite Z.land_ones by lia. apply Z.bits_inj'. intros i Hi.
  rewrite testbit_mod_pow2, header_bits by lia. destruct (Z.ltb_spec i 24); simpl.
  - destruct (Z.eqb_spec i 31); [lia|]. by rewrite andb_false_r, orb_false_r.
  - by rewrite (testbit_small n 24) by lia.
Qed.

(** The header at the start of a buffer is read back. *)
Lemma readHeader_ok var n body :
  0 <= n < 2 ^ 24 -> readHeader (le_bytes 4 (header var n) ++ body) = Some (header var n).
Proof.
  intros Hn. unfold readHeader. pose proof (le_bytes_length 4 (header var n)) as Hl.
  assert (E : rd_range (le_bytes 4 (header var n) ++ body) 0 LZW_HEADER_SIZE
              = Some (le_bytes 4 (header var n))).
  { apply rd_range_Some. rewrite length_app. unfold LZW_HEADER_SIZE.
    split_and!; [lia|lia|lia|]. rewrite drop_0. symmetry. apply take_app_length'. lia. }
  rewrite E. cbn [mbind option_bind]. f_equal. apply le_word_bytes.
  pose proof (header_range var n Hn). lia.
Qed.

(** ** Compression followed by decompression *)

Definition level_of (strategy : option utilCompressStrategy) : UTIL_COMPRESSION_LEVEL :=
  from_option _level UTIL_COMP_BEST_SPEED strategy.
Definition ratio_of (strategy : option utilCompressStrategy) : Z :=
  from_option _minRatio UTIL_COMPRESSOR_DFT_MIN_RATIO strategy.

(** The sizes for which no 32-bit count of the level overflows; the balanced
    level is left out (see [balanced_level_not_decoded]). *)
Definition level_fits (level : UTIL_COMPRESSION_LEVEL) (n : Z) : Prop :=
  match level with
  | UTIL_COMP_BEST_SPEED => 1 <= n < 2 ^ 24
  | UTIL_COMP_BALANCE => False
  | UTIL_COMP_BEST_COMPRESSION => 1 <= n <= 2147483
  end.

(** What the compressed bytes are: the header, then the codes of the source. *)
Definition compressed_form (d : lzwDict) (level : UTIL_COMPRESSION_LEVEL) (source : list Z)
    (maxSize : Z) (bytes : list Z) : Prop :=
  exists var body codes pad,
    bytes = le_bytes 4 (header var (Z.of_nat (length source))) ++ body /\
    (var = true -> level = UTIL_COMP_BEST_COMPRESSION) /\
    Forall is_byte body /\ spells d codes source /\ (length pad < 8)%nat /\
    bytes_bits body = enc_all (if var then enc_var d else enc_fix d) codes ++ pad /\
    Z.of_nat (length body) <= maxSize.

Section compress.
Context (d : lzwDict) `{Hd : !DictOk d}.

Lemma encoded_form source maxSize (dest : list Z) var c level :
  encoded d source 4 maxSize (length dest) var c -> 0 <= maxSize ->
  (var = true -> level = UTIL_COMP_BEST_COMPRESSION) ->
  exists dest', wr_range (_stream c) 0 (le_bytes 4 (header var (Z.of_nat (length source))))
      = Some dest' /\ 4 <= _streamPos c <= Z.of_nat (length dest) /\
    compressed_form d level source maxSize (take (Z.to_nat (_streamPos c)) dest').
Proof.
  intros (codes & pad & Hsp & Hpad & Hn & Hw & Hsize) Hm Hvar.
  set (h := le_bytes 4 (header var (Z.of_nat (length source)))).
  assert (Hh : length h = 4%nat) by apply le_bytes_length.
  pose proof (writer_flushed _ _ _ _ Hw Hn) as Hbits. pose proof (writer_length _ _ _ _ Hw) as Hl.
  destruct Hw as [Hs Hp Hc _ _ Hby].
  destruct (wr_range (_stream c) 0 h) as [dest'|] eqn:E.
  2: { exfalso. unfold wr_range in E. rewrite Hh, Hc in E.
       destruct (Z.leb_spec (0 + Z.of_nat 4) (Z.of_nat (length dest))); [done|lia]. }
  exists dest'. split; [done|]. split; [lia|].
  exists var, (out 4 c), codes, pad. split_and!; try done.
  - apply wr_range_Some in E as (_ & _ & ->). unfold out. rewrite Hh.
    change (Z.to_nat 0) with 0%nat. change (Z.to_nat 4) with 4%nat. rewrite take_0. cbn [app].
    rewrite take_app_ge by lia. f_equal. rewrite Hh. cbn [Nat.add]. rewrite take_drop_commute.
    do 2 f_equal. lia.
  - apply (f_equal length) in Hbits. rewrite bytes_bits_length, length_app in Hbits. lia.
Qed.

(** The bound, when the 32-bit product does not overflow. *)
Lemma compressBound_value n bound :
  1 <= n < 2 ^ 24 -> compressBound (Some d) n = inr bound ->
  bound = (getCodeSize d * n + 7) / 8 + 4.
Proof.
  intros Hn. pose proof dict_codeSize as Hcs. unfold compressBound.
  assert (Hsz : 0 <= getCodeSize d * n + 7 < 2 ^ 30) by nia.
  assert (0 <= (getCodeSize d * n + 7) / 8 < 2 ^ 30).
  { split; [apply Z.div_pos; lia|]. apply Z.div_lt_upper_bound; lia. }
  rewrite (u32_small (_ + 7)) by lia. destruct (negb _); [done|].
  intros [= <-]. apply u32_small. lia.
Qed.

Lemma level_fits_size level n : level_fits level n -> 1 <= n < 2 ^ 24.
Proof. destruct level; simpl; lia. Qed.

(** Compression into a buffer of the size [compressBound] gives never leaves
    the buffer: it gives up, or writes a compressed form of the source. *)
Lemma compress_form source strategy dest destLen bound :
  Forall is_byte source -> level_fits (level_of strategy) (Z.of_nat (length source)) ->
  0 <= ratio_of strategy < 256 ->
  compressBound (Some d) (Z.of_nat (length source)) = inr bound -> bound <= Z.of_nat (length dest) ->
  exists rc dest' len, compress (Some d) strategy source (Z.of_nat (length source)) dest destLen
      = Some (rc, dest', len) /\
    (rc = SDB_UTIL_COMPRESS_ABORT \/ rc = SDB_OK /\ 4 <= len <= Z.of_nat (length dest') /\
     compressed_form d (level_of strategy) source
       (Z.of_nat (length source) * ratio_of strategy / 100) (take (Z.to_nat len) dest')).
Proof.
  intros Hb Hfit Hr Hbd Hcap. pose proof (level_fits_size _ _ Hfit) as Hn.
  apply compressBound_value in Hbd; [|done]. unfold compress.
  change (from_option _minRatio UTIL_COMPRESSOR_DFT_MIN_RATIO strategy) with (ratio_of strategy).
  change (from_option _level UTIL_COMP_BEST_SPEED strategy) with (level_of strategy).
  set (n := Z.of_nat (length source)) in *.
  assert (0 <= n * ratio_of strategy / 100 < 2 ^ 26).
  { split; [apply Z.div_pos; nia|]. apply Z.div_lt_upper_bound; nia. }
  unfold u64. rewrite (Z.mod_small (n * _)) by nia. rewrite u32_small by lia.
  set (maxSize := n * ratio_of strategy / 100) in *.
  assert (Hpost : forall c var, encoded d source 4 maxSize (length dest) var c ->
    (var = true -> level_of strategy = UTIL_COMP_BEST_COMPRESSION) ->
    exists dest', wr_range (_stream c) 0 (le_bytes 4 (header var n)) = Some dest' /\
      4 <= _streamPos c <= Z.of_nat (length dest') /\
      compressed_form d (level_of strategy) source maxSize (take (Z.to_nat (_streamPos c)) dest')).
  { intros c var He Hv. destruct (encoded_form _ _ _ _ _ (level_of strategy) He) as (dest' & E & Hp & Hf);
      [lia|done|].
    exists dest'. rewrite (wr_range_length _ _ _ _ E).
    destruct He as (? & ? & _ & _ & _ & Hw & _). rewrite (w_cap _ _ _ _ Hw). auto. }
  destruct (level_of strategy); [| done |]; simpl in Hfit.
  - destruct (levelOne_ok d source dest destLen maxSize) as (rc & c & Ec & [->|[-> He]]);
      [done|fold n; lia|lia|fold n; lia|..]; fold n in Ec; rewrite Ec; cbn [mbind option_bind].
    + eexists _, _, _. split; [done|by left].
    + destruct (Hpost c false He) as (dest' & E & Hp & Hf); [done|].
      unfold header in E. rewrite E. simpl. eexists _, _, _. split; [done|]. by right.
  - destruct (levelThree_ok d source dest destLen maxSize) as (rc & c & var & Ec & [->|[-> He]]);
      [done|fold n; lia|lia|fold n; lia|..]; fold n in Ec; rewrite Ec; cbn [mbind option_bind].
    + eexists _, _, _. split; [done|by left].
    + destruct (Hpost c var He) as (dest' & E & Hp & Hf); [done|].
      unfold header in E. cbn -[le_bytes setVarLenFlag setLength]. rewrite E. simpl. eexists _, _, _. split; [done|]. by right.
Qed.

(** A compressed form is decompressed to the source. *)
Lemma decompress_form level source maxSize bytes dest destLen :
  compressed_form d level source maxSize bytes -> 1 <= Z.of_nat (length source) < 2 ^ 24 ->
  (level = UTIL_COMP_BEST_COMPRESSION -> var_len_safe d) ->
  Z.of_nat (length source) <= Z.of_nat (length dest) ->
  exists dest', decompress (Some d) bytes (Z.of_nat (length bytes)) dest destLen
      = Some (SDB_OK, dest', Z.of_nat (length source)) /\
    take (length source) dest' = source /\
    getUncompressedLen bytes = Some (Z.of_nat (length source)).
Proof.
  intros (var & body & codes & pad & -> & Hvar & Hby & Hsp & Hpad & Hbits & _) Hn Hsafe Hcap.
  unfold decompress, getUncompressedLen. rewrite readHeader_ok by lia. cbn [mbind option_bind].
  rewrite header_flag, header_length by lia.
  set (h := le_bytes 4 (header var (Z.of_nat (length source)))).
  assert (Hh : length h = 4%nat) by apply le_bytes_length.
  set (c := mkCtx (h ++ body) (Z.of_nat (length (h ++ body))) LZW_HEADER_SIZE 0 0).
  assert (Hr : reader (Z.of_nat (length (h ++ body)))
    (enc_all (if var then enc_var d else enc_fix d) codes ++ pad) c).
  { constructor; unfold c, LZW_HEADER_SIZE; cbn [_stream _streamLen _streamPos _n _buf];
      try done; try (rewrite ?length_app; lia).
    apply Forall_app. split; [apply le_bytes_is_byte|done]. }
  assert (Hcodes : (length codes <= 8 * length (h ++ body))%nat).
  { apply (f_equal length) in Hbits. rewrite bytes_bits_length, length_app in Hbits.
    assert (length codes <= length (enc_all (if var then enc_var d else enc_fix d) codes))%nat;
      [|rewrite length_app; lia].
    clear -Hd Hsp Hvar Hsafe. induction Hsp as [|code codes t s Hc _ _ _ IH]; [done|].
    rewrite enc_all_cons, length_app. cbn [length].
    assert (1 <= length ((if var then enc_var d else enc_fix d) code))%nat; [|lia].
    pose proof dict_codeSize. destruct var; [|unfold enc_fix; rewrite bits_of_length; lia].
    pose proof (enc_var_length d code (Hsafe (Hvar eq_refl)) Hc). lia. }
  assert (Hdec : exists dest', (if var then _decodeVarLenCode d c dest else _decodeFixLenCode d c dest)
      = Some (dest', Z.of_nat (length source)) /\ take (length source) dest' = source).
  { assert (Hfuel : (length codes < S (8 * length (_stream c)))%nat) by (unfold c; cbn [_stream]; lia).
    assert (Hfix : forall code, 0 <= code <= getMaxValidCode d -> (8 <= length (enc_fix d code))%nat)
      by (intros; pose proof dict_codeSize; unfold enc_fix; rewrite bits_of_length; lia).
    destruct var; unfold _decodeVarLenCode, _decodeFixLenCode.
    - destruct (decode_loop_ok d (enc_var d) (_readVarLenCode d)
        (fun code len bs c => readVarLenCode_enc d code len bs c (Hsafe (Hvar eq_refl)))
        (fun code => enc_var_length d code (Hsafe (Hvar eq_refl))) codes source Hsp
        _ _ _ c dest 0 Hr Hpad Hfuel) as (dest' & E & Et & _); [lia|lia|].
      exists dest'. rewrite Z.add_0_l in *. rewrite Nat2Z.id in Et. auto.
    - destruct (decode_loop_ok d (enc_fix d) (_readCode d) (readCode_enc d) Hfix codes source Hsp
        _ _ _ c dest 0 Hr Hpad Hfuel) as (dest' & E & Et & _); [lia|lia|].
      exists dest'. rewrite Z.add_0_l in *. rewrite Nat2Z.id in Et. auto. }
  destruct Hdec as (dest' & -> & Ed). exists dest'. auto.
Qed.
End compress.
