(* ===== verification/LzwTrie.v ===== *)
(** * The trie a dictionary creator grows

    The invariant of the node array ([trie]): every node's chain of children
    is exactly the set of nodes that name it as their parent, in increasing
    order of their characters, and a node is one character longer than its
    parent.  [addStr] and [findStr] keep it and never leave the array; [build]
    in addition keeps every node used more often than each of its children
    ([refs]), which is what makes the ranking of [finalize] keep the prefixes
    of every string it keeps. *)

From stdpp Require Import base gmap list option sorting.
From Stdlib Require Import ZArith Lia.
From S2P Require Import Prelude Mem LzwDict LzwCreate LzwBits.

Open Scope Z_scope.

(** The node at [i], whether it was written to or not. *)
Definition N (b : lzwBuilder) (i : Z) : lzwNode := default (initNode i) (_nodes b !! i).

Lemma node_N b i : 0 <= i < _maxNodeNum b -> node b i = Some (N b i).
Proof. intros. unfold node. do 2 case_Zb; try lia. done. Qed.

Lemma upd_N f i b :
  0 <= i < _maxNodeNum b -> upd f i b = Some (with_nodes b (<[i := f (N b i)]> (_nodes b))).
Proof. intros. unfold upd. by rewrite node_N by done. Qed.

Lemma N_with b i x j : N (with_nodes b (<[i := x]> (_nodes b))) j = if j =? i then x else N b j.
Proof.
  unfold N. simpl. destruct (Z.eqb_spec j i) as [->|]; [by rewrite lookup_insert_eq|].
  by rewrite lookup_insert_ne by lia.
Qed.

(** ** Chains of brothers *)

(** [_next] leads from [x] through the nodes [ks] to [y]. *)
Fixpoint seg (b : lzwBuilder) (x : Z) (ks : list Z) (y : Z) : Prop :=
  match ks with
  | [] => x = y
  | k :: ks' => x = k /\ 0 <= k <= b_maxCode b /\ seg b (_next (N b k)) ks' y
  end.

Definition chars (b : lzwBuilder) (ks : list Z) : list Z := (fun k => _ch (N b k)) <$> ks.

(** [ks] are the children of [i]. *)
Record kids (b : lzwBuilder) (i : Z) (ks : list Z) : Prop := {
  k_chain : seg b (_first (N b i)) ks UTIL_INVALID_DICT_CODE;
  k_elem : forall j, j ∈ ks <-> 256 <= j <= b_maxCode b /\ _prev (N b j) = i;
  k_sorted : StronglySorted Z.lt (chars b ks)
}.

Record trie (b : lzwBuilder) : Prop := {
  t_num : _maxNodeNum b = UTIL_MAX_DICT_BUILD_ITEM_NUM;
  t_max : 255 <= b_maxCode b < _maxNodeNum b;
  t_root : forall i, 0 <= i < 256 ->
    _prev (N b i) = UTIL_INVALID_DICT_CODE /\ _len (N b i) = 1 /\ _ch (N b i) = i;
  t_inner : forall i, 256 <= i <= b_maxCode b ->
    0 <= _prev (N b i) < i /\ _len (N b i) = _len (N b (_prev (N b i))) + 1 /\
    _len (N b i) <= 255 /\ 0 <= _ch (N b i) < 256;
  t_fresh : forall i, b_maxCode b < i -> N b i = initNode i;
  t_kids : forall i, 0 <= i <= b_maxCode b -> exists ks, kids b i ks;
  t_vec : _nodeSortVec b = seqZ 0 (b_maxCode b + 1)
}.

Lemma trie_in_range b i : trie b -> 0 <= i <= b_maxCode b -> node b i = Some (N b i).
Proof. intros Ht ?. pose proof (t_max b Ht). apply node_N. lia. Qed.

Lemma trie_code_valid b i : trie b -> i <= b_maxCode b -> i <> UTIL_INVALID_DICT_CODE.
Proof.
  intros Ht ? ->. pose proof (t_max b Ht). rewrite (t_num b Ht) in *.
  unfold UTIL_INVALID_DICT_CODE, UTIL_MAX_DICT_BUILD_ITEM_NUM, UTIL_MAX_DICT_ITEM_NUM in *. lia.
Qed.

Lemma trie_ch b i : trie b -> 0 <= i <= b_maxCode b -> 0 <= _ch (N b i) < 256.
Proof.
  intros Ht Hi. destruct (decide (i < 256)).
  - destruct (t_root b Ht i) as (_ & _ & ->); lia.
  - destruct (t_inner b Ht i) as (_ & _ & _ & ?); lia.
Qed.

(** Induction from the roots down. *)
Lemma trie_ind_prev b (P : Z -> Prop) :
  trie b -> (forall i, 0 <= i < 256 -> P i) ->
  (forall i, 256 <= i <= b_maxCode b -> P (_prev (N b i)) -> P i) ->
  forall i, 0 <= i <= b_maxCode b -> P i.
Proof.
  intros Ht Hroot Hin.
  assert (H : forall (k : nat) i, i < Z.of_nat k -> 0 <= i <= b_maxCode b -> P i).
  { induction k as [|k IH]; intros i Hk Hi; [lia|].
    destruct (decide (i < 256)); [apply Hroot; lia|].
    destruct (t_inner b Ht i) as (Hp & _); [lia|]. apply Hin; [lia|]. apply IH; lia. }
  intros i Hi. apply (H (Z.to_nat (i + 1))); lia.
Qed.

Lemma trie_len b i : trie b -> 0 <= i <= b_maxCode b -> 1 <= _len (N b i) <= 255.
Proof.
  intros Ht. revert i. apply (trie_ind_prev b _ Ht).
  - intros i Hi. destruct (t_root b Ht i Hi) as (_ & -> & _). lia.
  - intros i Hi IH. destruct (t_inner b Ht i Hi) as (_ & ? & ? & _). lia.
Qed.

(** ** The strings of the nodes *)

Inductive names (b : lzwBuilder) : Z -> list Z -> Prop :=
  | names_root i : 0 <= i < 256 -> names b i [i]
  | names_inner i s : 256 <= i <= b_maxCode b -> names b (_prev (N b i)) s ->
      names b i (s ++ [_ch (N b i)]).

Lemma names_exists b i : trie b -> 0 <= i <= b_maxCode b -> exists s, names b i s.
Proof.
  intros Ht. revert i. apply (trie_ind_prev b _ Ht).
  - intros i Hi. eexists. by constructor.
  - intros i Hi [s Hs]. eexists. by constructor.
Qed.

Lemma names_fun b i s s' : names b i s -> names b i s' -> s = s'.
Proof.
  intros H. revert s'. induction H as [i Hi|i s Hi _ IH]; intros s' H'.
  - inversion H' as [|? ? Hj]; subst; [done|lia].
  - inversion H' as [? Hj|? s0 ? Hs]; subst; [lia|]. by rewrite (IH s0 Hs).
Qed.

Lemma names_range b i s : trie b -> names b i s -> 0 <= i <= b_maxCode b.
Proof. intros Ht. pose proof (t_max b Ht). destruct 1; lia. Qed.

Lemma names_len b i s : trie b -> names b i s -> _len (N b i) = Z.of_nat (length s).
Proof.
  intros Ht. induction 1 as [i Hi|i s Hi Hs IH].
  - by destruct (t_root b Ht i Hi) as (_ & -> & _).
  - destruct (t_inner b Ht i Hi) as (_ & -> & _). rewrite IH, length_app. simpl. lia.
Qed.

Lemma names_byte b i s : trie b -> names b i s -> Forall is_byte s.
Proof.
  intros Ht. induction 1 as [i Hi|i s Hi Hs IH]; [by apply Forall_singleton|].
  apply Forall_app. split; [done|]. apply Forall_singleton, trie_ch; [done|lia].
Qed.

(** [getStr] writes the string of the node. *)
Lemma getStr_loop_names b i s acc :
  trie b -> names b i s -> getStr_loop (length s) b i acc = Some (s ++ acc).
Proof.
  intros Ht H. revert acc. pose proof (t_max b Ht) as Hm.
  induction H as [i Hi|i s Hi Hs IH]; intros acc.
  - simpl. destruct (Z.eqb_spec i UTIL_INVALID_DICT_CODE) as [->|];
      [unfold UTIL_INVALID_DICT_CODE in Hi; lia|].
    rewrite trie_in_range by (done || lia). simpl. by destruct (t_root b Ht i Hi) as (_ & _ & ->).
  - rewrite length_app, Nat.add_comm. simpl.
    destruct (Z.eqb_spec i UTIL_INVALID_DICT_CODE) as [->|];
      [by exfalso; eapply (trie_code_valid b _ Ht); [apply Hi|]|].
    rewrite trie_in_range by (done || lia). simpl. rewrite IH, <- app_assoc. done.
Qed.

Lemma getStr_names b i s : trie b -> names b i s -> getStr b i = Some s.
Proof.
  intros Ht Hs. unfold getStr. rewrite trie_in_range by (done || by eapply names_range).
  simpl. rewrite (names_len b i s Ht Hs), Nat2Z.id.
  rewrite (getStr_loop_names b i s [] Ht Hs), app_nil_r. done.
Qed.

(** ** Facts about chains *)

Lemma seg_frame b b' x ks y :
  b_maxCode b <= b_maxCode b' ->
  (forall k, k ∈ ks -> _next (N b' k) = _next (N b k)) -> seg b x ks y -> seg b' x ks y.
Proof.
  intros Hm. revert x. induction ks as [|k ks IH]; intros x Hf; simpl; [done|].
  intros (-> & Hk & Hc). split; [done|]. split; [lia|].
  rewrite Hf by set_solver. apply IH; [set_solver|done].
Qed.

Lemma seg_app b x ks1 ks2 y :
  seg b x (ks1 ++ ks2) y <-> exists z, seg b x ks1 z /\ seg b z ks2 y.
Proof.
  revert x. induction ks1 as [|k ks1 IH]; intros x; simpl.
  - split; [eauto|by intros (? & -> & ?)].
  - rewrite IH. naive_solver.
Qed.

Lemma seg_hd b x ks y : seg b x ks y -> x = hd y ks.
Proof. destruct ks; simpl; [done|]. by intros [-> _]. Qed.

Lemma sorted_chars_short b ks :
  StronglySorted Z.lt (chars b ks) -> (forall k, k ∈ ks -> 0 <= _ch (N b k) < 256) ->
  (length ks <= 256)%nat.
Proof.
  intros Hs Hr. unfold chars in Hs.
  assert (H : forall lo, 0 <= lo -> (forall k, k ∈ ks -> lo <= _ch (N b k)) ->
    Z.of_nat (length ks) <= Z.max 0 (256 - lo)).
  { clear -Hs Hr. induction ks as [|k ks IH]; intros lo Hlo Hge; [simpl; lia|].
    simpl in Hs. apply StronglySorted_inv in Hs as [Hs Hall].
    assert (lo <= _ch (N b k)) by (apply Hge; set_solver).
    assert (0 <= _ch (N b k) < 256) by (apply Hr; set_solver).
    specialize (IH Hs ltac:(set_solver) (_ch (N b k) + 1)). simpl length.
    assert (Z.of_nat (length ks) <= Z.max 0 (256 - (_ch (N b k) + 1))); [|lia].
    apply IH; [lia|]. intros j Hj. rewrite Forall_fmap, Forall_forall in Hall.
    specialize (Hall j Hj). simpl in Hall. lia. }
  specialize (H 0). assert (Z.of_nat (length ks) <= Z.max 0 (256 - 0)); [|lia].
  apply H; [lia|]. intros k Hk. by apply Hr.
Qed.

(** ** Changes that keep the shape of the trie *)

Record same_shape (b b' : lzwBuilder) : Prop := {
  ss_num : _maxNodeNum b' = _maxNodeNum b;
  ss_max : b_maxCode b' = b_maxCode b;
  ss_vec : _nodeSortVec b' = _nodeSortVec b;
  ss_prev : forall i, _prev (N b' i) = _prev (N b i);
  ss_first : forall i, _first (N b' i) = _first (N b i);
  ss_next : forall i, _next (N b' i) = _next (N b i);
  ss_len : forall i, _len (N b' i) = _len (N b i);
  ss_ch : forall i, _ch (N b' i) = _ch (N b i);
  ss_fresh : forall i, b_maxCode b < i -> N b' i = N b i
}.

#[global] Instance same_shape_refl : Reflexive same_shape.
Proof. intros b. by constructor. Qed.

#[global] Instance same_shape_trans : Transitive same_shape.
Proof.
  intros b1 b2 b3 H1 H2. pose proof (ss_max _ _ H1) as E.
  destruct H1 as [? ? ? A1 A2 A3 A4 A5 A6], H2 as [? ? ? B1 B2 B3 B4 B5 B6].
  constructor; [congruence|congruence|congruence|intros i..].
  - by rewrite B1, A1.
  - by rewrite B2, A2.
  - by rewrite B3, A3.
  - by rewrite B4, A4.
  - by rewrite B5, A5.
  - intros Hi. rewrite B6 by lia. by apply A6.
Qed.

Lemma kids_same_shape b b' i ks : same_shape b b' -> kids b i ks -> kids b' i ks.
Proof.
  intros Hs [Hc He Ho]. constructor.
  - rewrite (ss_first _ _ Hs). eapply seg_frame; [|intros; apply (ss_next _ _ Hs)|done].
    rewrite (ss_max _ _ Hs). done.
  - intros j. by rewrite He, (ss_max _ _ Hs), (ss_prev _ _ Hs).
  - unfold chars in *. erewrite list_fmap_ext; [exact Ho|]. intros. simpl. apply (ss_ch _ _ Hs).
Qed.

Lemma trie_same_shape b b' : same_shape b b' -> trie b -> trie b'.
Proof.
  intros Hs [Hn Hm Hr Hi Hf Hk Hv]. pose proof Hs as [E1 E2 E3 Ep Ef En El Ec Efr].
  constructor; rewrite ?E1, ?E2, ?E3; try done.
  - intros i H. rewrite Ep, El, Ec. auto.
  - intros i H. rewrite Ep, !El, Ec. auto.
  - intros i H. rewrite Efr by done. auto.
  - intros i H. destruct (Hk i H) as [ks ?]. exists ks. by eapply kids_same_shape.
Qed.

Lemma names_same_shape b b' i s : same_shape b b' -> names b i s -> names b' i s.
Proof.
  intros Hs. induction 1 as [i Hi|i s Hi _ IH]; [by constructor|].
  rewrite <- (ss_ch _ _ Hs). constructor; [by rewrite (ss_max _ _ Hs)|].
  by rewrite (ss_prev _ _ Hs).
Qed.

(** A new counter or code for a node in use. *)
Lemma same_shape_upd b i n :
  i <= b_maxCode b -> _prev n = _prev (N b i) -> _first n = _first (N b i) ->
  _next n = _next (N b i) -> _len n = _len (N b i) -> _ch n = _ch (N b i) ->
  same_shape b (with_nodes b (<[i := n]> (_nodes b))).
Proof.
  intros Hi. intros. constructor; try done; intros j; rewrite N_with;
    destruct (Z.eqb_spec j i) as [->|]; try done. lia.
Qed.

Definition visit (b : lzwBuilder) (i : Z) : lzwBuilder :=
  with_nodes b (<[i := inc_refNum (N b i)]> (_nodes b)).

Lemma same_shape_visit b i : i <= b_maxCode b -> same_shape b (visit b i).
Proof. intros. by apply same_shape_upd. Qed.

Lemma refNum_visit b i j :
  _refNum (N (visit b i) j) = if j =? i then u32 (_refNum (N b i) + 1) else _refNum (N b j).
Proof. unfold visit. rewrite N_with. by destruct (j =? i). Qed.

Lemma code_visit b i j : _code (N (visit b i) j) = _code (N b j).
Proof. unfold visit. rewrite N_with. by destruct (Z.eqb_spec j i) as [->|]. Qed.

(** ** [findStr] *)

Lemma findStr_loop_ok b preCode ch : trie b -> forall ks fuel x,
  seg b x ks UTIL_INVALID_DICT_CODE -> StronglySorted Z.lt (chars b ks) ->
  (forall k, k ∈ ks -> _prev (N b k) = preCode) -> (length ks < fuel)%nat ->
  (exists k, k ∈ ks /\ _ch (N b k) = ch /\
     findStr_loop fuel b preCode ch x = Some (visit b k, k)) \/
  ((forall k, k ∈ ks -> _ch (N b k) <> ch) /\
   findStr_loop fuel b preCode ch x = Some (b, UTIL_INVALID_DICT_CODE)).
Proof.
  intros Ht. induction ks as [|k ks IH]; intros [|fuel] x Hseg Hs Hp Hf; simpl in Hf; try lia.
  - simpl in Hseg. subst. right. simpl. split; [set_solver|done].
  - simpl in Hseg. destruct Hseg as (-> & Hk & Hseg). cbn [findStr_loop].
    destruct (Z.eqb_spec k UTIL_INVALID_DICT_CODE) as [E|_];
      [by exfalso; apply (trie_code_valid b k Ht); [lia|]|].
    rewrite trie_in_range by done. cbn [mbind option_bind].
    unfold chars in Hs. simpl in Hs. apply StronglySorted_inv in Hs as [Hs Hall].
    destruct (Z.ltb_spec (_ch (N b k)) ch) as [Hlt|Hge].
    + destruct (IH fuel (_next (N b k)) Hseg Hs) as [(j & Hj & Hc & E)|[Hno E]];
        [set_solver|lia|..].
      * left. exists j. split_and!; [set_solver|done|done].
      * right. split; [|done]. intros j [->|Hj]%elem_of_cons; [lia|auto].
    + rewrite Hp by set_solver. rewrite Z.eqb_refl. simpl.
      destruct (Z.eqb_spec ch (_ch (N b k))) as [Heq|Hne].
      * left. exists k. pose proof (t_max b Ht). rewrite upd_N by lia.
        split_and!; [set_solver|done|done].
      * right. split; [|done]. rewrite Forall_fmap, Forall_forall in Hall.
        intros j [->|Hj]%elem_of_cons; [lia|]. specialize (Hall j Hj). simpl in Hall. lia.
Qed.

Lemma kids_short b i ks : trie b -> kids b i ks -> (length ks <= 256)%nat.
Proof.
  intros Ht [_ He Hs]. apply (sorted_chars_short b ks Hs). intros k [Hk _]%He.
  apply (trie_ch b k Ht). lia.
Qed.

(** The child of [preCode] for [ch], if there is one; it counts as used, and
    so does [preCode] when it is a single byte. *)
Lemma findStr_ok b preCode ch :
  trie b -> 0 <= preCode <= b_maxCode b ->
  exists b1 b' r, b1 = (if preCode <=? UTIL_MAX_DICT_INIT_CODE then visit b preCode else b) /\
    findStr b preCode ch = Some (b', r) /\
    ((256 <= r <= b_maxCode b /\ _prev (N b r) = preCode /\ _ch (N b r) = ch /\ b' = visit b1 r) \/
     (r = UTIL_INVALID_DICT_CODE /\ b' = b1 /\
      forall k, 256 <= k <= b_maxCode b -> _prev (N b k) = preCode -> _ch (N b k) <> ch)).
Proof.
  intros Ht Hp. set (b1 := if preCode <=? UTIL_MAX_DICT_INIT_CODE then visit b preCode else b).
  assert (Hss : same_shape b b1).
  { unfold b1. destruct (_ <=? _); [apply same_shape_visit; lia|done]. }
  pose proof (trie_same_shape _ _ Hss Ht) as Ht1. pose proof (t_max b Ht) as Hm.
  destruct (t_kids b Ht preCode Hp) as [ks Hk]. apply (kids_same_shape _ _ _ _ Hss) in Hk.
  pose proof (ss_max _ _ Hss) as Em.
  assert (E : findStr b preCode ch = findStr_loop CHAIN_FUEL b1 preCode ch (_first (N b1 preCode))).
  { unfold findStr, b1. destruct (preCode <=? _).
    - rewrite upd_N by lia. cbn [mbind option_bind].
      rewrite (trie_in_range b1) by (done || lia). done.
    - cbn [mbind option_bind]. by rewrite trie_in_range by done. }
  destruct (findStr_loop_ok b1 preCode ch Ht1 ks CHAIN_FUEL (_first (N b1 preCode)))
    as [(k & Hin & Hc & El)|[Hno El]]; [apply Hk|apply Hk| | |..].
  - intros k Hin. by apply (k_elem _ _ _ Hk) in Hin as [_ ?].
  - pose proof (kids_short _ _ _ Ht1 Hk). unfold CHAIN_FUEL. lia.
  - apply (k_elem _ _ _ Hk) in Hin as [Hr Hprev]. exists b1, (visit b1 k), k.
    rewrite E, El. split_and!; try done. left.
    rewrite Em in Hr. rewrite (ss_prev _ _ Hss) in Hprev. rewrite (ss_ch _ _ Hss) in Hc. done.
  - exists b1, b1, UTIL_INVALID_DICT_CODE. rewrite E, El. split_and!; try done. right.
    split_and!; try done. intros k Hr Hprev. rewrite <- (ss_ch _ _ Hss). apply Hno.
    apply (k_elem _ _ _ Hk). by rewrite Em, (ss_prev _ _ Hss).
Qed.

(** ** [addStr] *)

Lemma addStr_loop_ok b ch :
  b_maxCode b < _maxNodeNum b -> _maxNodeNum b <= UTIL_INVALID_DICT_CODE -> forall ks fuel cur x,
  seg b x ks UTIL_INVALID_DICT_CODE -> StronglySorted Z.lt (chars b ks) -> (length ks < fuel)%nat ->
  exists ks1 ks2, ks = ks1 ++ ks2 /\ (forall k, k ∈ ks1 -> _ch (N b k) < ch) /\
    (forall k, k ∈ ks2 -> ch <= _ch (N b k)) /\
    addStr_loop fuel b ch cur x = Some (default cur (last ks1), hd UTIL_INVALID_DICT_CODE ks2).
Proof.
  intros Hm Hn. induction ks as [|k ks IH]; intros [|fuel] cur x Hseg Hs Hf; simpl in Hf; try lia.
  - simpl in Hseg. subst. exists [], []. split_and!; try done; set_solver.
  - simpl in Hseg. destruct Hseg as (-> & Hk & Hseg). cbn [addStr_loop].
    destruct (Z.eqb_spec UTIL_INVALID_DICT_CODE k); [lia|].
    rewrite node_N by lia. cbn [mbind option_bind].
    unfold chars in Hs. simpl in Hs. apply StronglySorted_inv in Hs as [Hs Hall].
    destruct (Z.ltb_spec (_ch (N b k)) ch) as [Hlt|Hge].
    + destruct (IH fuel k (_next (N b k)) Hseg Hs) as (ks1 & ks2 & -> & H1 & H2 & E); [lia|].
      exists (k :: ks1), ks2. split_and!; [done| |done|].
      * intros j [->|Hj]%elem_of_cons; auto.
      * rewrite E, last_cons. by destruct (last ks1).
    + exists [], (k :: ks). split_and!; try done; [set_solver|].
      rewrite Forall_fmap, Forall_forall in Hall.
      intros j [->|Hj]%elem_of_cons; [lia|]. specialize (Hall j Hj). simpl in Hall. lia.
Qed.

(** Where the new node [m] is hooked in: behind the last smaller brother, or
    in front. *)
Definition hooked (b : lzwBuilder) (pre m : Z) (ks1 : list Z) (j : Z) : lzwNode :=
  match last ks1 with
  | None => if j =? pre then set_first m (N b j) else N b j
  | Some k => if j =? k then set_next m (N b j) else N b j
  end.

Lemma hooked_prev b pre m ks1 j : _prev (hooked b pre m ks1 j) = _prev (N b j).
Proof. unfold hooked. destruct (last ks1); by destruct (_ =? _). Qed.
Lemma hooked_len b pre m ks1 j : _len (hooked b pre m ks1 j) = _len (N b j).
Proof. unfold hooked. destruct (last ks1); by destruct (_ =? _). Qed.
Lemma hooked_ch b pre m ks1 j : _ch (hooked b pre m ks1 j) = _ch (N b j).
Proof. unfold hooked. destruct (last ks1); by destruct (_ =? _). Qed.
Lemma hooked_code b pre m ks1 j : _code (hooked b pre m ks1 j) = _code (N b j).
Proof. unfold hooked. destruct (last ks1); by destruct (_ =? _). Qed.
Lemma hooked_refNum b pre m ks1 j : _refNum (hooked b pre m ks1 j) = _refNum (N b j).
Proof. unfold hooked. destruct (last ks1); by destruct (_ =? _). Qed.

Lemma linkChild_ok b pre m ch ks :
  b_maxCode b = m -> m < _maxNodeNum b -> _maxNodeNum b <= UTIL_INVALID_DICT_CODE ->
  0 <= pre < m -> _next (N b m) = UTIL_INVALID_DICT_CODE ->
  seg b (_first (N b pre)) ks UTIL_INVALID_DICT_CODE -> StronglySorted Z.lt (chars b ks) ->
  (forall k, k ∈ ks -> pre < k < m) -> (length ks < CHAIN_FUEL)%nat ->
  exists b' ks1 ks2, ks = ks1 ++ ks2 /\ (forall k, k ∈ ks1 -> _ch (N b k) < ch) /\
    (forall k, k ∈ ks2 -> ch <= _ch (N b k)) /\ linkChild b pre m ch = Some b' /\
    _maxNodeNum b' = _maxNodeNum b /\ b_maxCode b' = m /\ _nodeSortVec b' = _nodeSortVec b /\
    N b' m = set_next (hd UTIL_INVALID_DICT_CODE ks2) (N b m) /\
    forall j, j <> m -> N b' j = hooked b pre m ks1 j.
Proof.
  intros Hm Hmn Hinv Hpre Hnext Hseg Hs Hks Hf.
  unfold linkChild. rewrite node_N by lia. cbn [mbind option_bind].
  destruct ks as [|k0 ks].
  - simpl in Hseg. rewrite Hseg, Z.eqb_refl, upd_N by lia.
    eexists _, [], []. split_and!; try done; try set_solver.
    + rewrite N_with. destruct (Z.eqb_spec m pre); [lia|]. simpl. rewrite <- Hnext. by destruct (N b m).
    + intros j Hj. rewrite N_with. unfold hooked. simpl. by destruct (Z.eqb_spec j pre) as [->|].
  - assert (Hfirst : _first (N b pre) = k0) by apply Hseg.
    assert (pre < k0 < m) by (apply Hks; set_solver).
    rewrite Hfirst. destruct (Z.eqb_spec UTIL_INVALID_DICT_CODE k0); [lia|].
    rewrite Hfirst in Hseg.
    destruct (addStr_loop_ok b ch ltac:(lia) Hinv (k0 :: ks) CHAIN_FUEL UTIL_INVALID_DICT_CODE k0
      Hseg Hs Hf) as (ks1 & ks2 & Eks & H1 & H2 & E).
    rewrite E. cbn [mbind option_bind]. rewrite (upd_N _ m) by lia. cbn [mbind option_bind].
    set (b1 := with_nodes b _).
    assert (HN : forall j, N b1 j = if j =? m then set_next (hd UTIL_INVALID_DICT_CODE ks2) (N b m)
                                    else N b j) by apply N_with.
    destruct (last ks1) as [k|] eqn:El; cbn [from_option id].
    + assert (Hk : pre < k < m).
      { apply Hks. rewrite Eks. apply elem_of_app. left. by apply last_Some_elem_of. }
      destruct (Z.eqb_spec UTIL_INVALID_DICT_CODE k); [lia|]. rewrite upd_N by (simpl; lia).
      eexists _, ks1, ks2. split_and!; try done.
      * rewrite N_with, !HN, Z.eqb_refl. destruct (Z.eqb_spec m k); [lia|done].
      * intros j Hj. unfold hooked. rewrite El, N_with, !HN.
        destruct (Z.eqb_spec k m); [lia|]. destruct (Z.eqb_spec j k) as [->|]; [done|].
        destruct (Z.eqb_spec j m); [lia|done].
    + rewrite Z.eqb_refl, upd_N by (simpl; lia).
      eexists _, ks1, ks2. split_and!; try done.
      * rewrite N_with, !HN, Z.eqb_refl. destruct (Z.eqb_spec m pre); [lia|done].
      * intros j Hj. unfold hooked. rewrite El, N_with, !HN.
        destruct (Z.eqb_spec pre m); [lia|]. destruct (Z.eqb_spec j pre) as [->|]; [done|].
        destruct (Z.eqb_spec j m); [lia|done].
Qed.

(** What [addStr] does to the array: node [maxCode + 1] is the new leaf. *)
Lemma addStr_N b pre ch :
  trie b -> (forall i, _code (N b i) = UTIL_INVALID_DICT_CODE) ->
  0 <= pre <= b_maxCode b -> b_maxCode b + 1 < _maxNodeNum b ->
  let m := b_maxCode b + 1 in
  exists b' ks1 ks2, kids b pre (ks1 ++ ks2) /\ (forall k, k ∈ ks1 -> _ch (N b k) < ch) /\
    (forall k, k ∈ ks2 -> ch <= _ch (N b k)) /\ addStr b pre ch = Some (b', m) /\
    _maxNodeNum b' = _maxNodeNum b /\ b_maxCode b' = m /\
    _nodeSortVec b' = _nodeSortVec b ++ [m] /\
    N b' m = mkNode UTIL_INVALID_DICT_CODE pre UTIL_INVALID_DICT_CODE
               (hd UTIL_INVALID_DICT_CODE ks2) (_len (N b pre) + 1) 0 ch /\
    forall j, j <> m -> N b' j = hooked b pre m ks1 j.
Proof.
  intros Ht Hcode Hpre Hroom m. pose proof (t_max b Ht) as Hm. pose proof (t_num b Ht) as Hnum.
  assert (Hinv : _maxNodeNum b <= UTIL_INVALID_DICT_CODE).
  { rewrite Hnum. unfold UTIL_INVALID_DICT_CODE, UTIL_MAX_DICT_BUILD_ITEM_NUM, UTIL_MAX_DICT_ITEM_NUM. lia. }
  assert (Em : u32 (b_maxCode b + 1) = m).
  { apply u32_small. unfold UTIL_INVALID_DICT_CODE in Hinv. lia. }
  destruct (t_kids b Ht pre Hpre) as [ks Hk].
  pose proof (trie_len b pre Ht Hpre) as Hlen.
  assert (Hks : forall k, k ∈ ks -> pre < k < m).
  { intros k Hin. apply (k_elem _ _ _ Hk) in Hin as [Hr Hp].
    destruct (t_inner b Ht k Hr) as [? _]. lia. }
  unfold addStr. rewrite Em. destruct (Z.eqb_spec m (_maxNodeNum b)); [lia|].
  set (codeSize := if m =? _ then _ else _).
  rewrite upd_N by (simpl; lia). cbn [mbind option_bind].
  set (b0 := mkBuilder (_nodes b) (_maxNodeNum b) m codeSize (_nodeSortVec b)).
  assert (HN0 : forall j, N b0 j = N b j) by done.
  set (new := mkNode _ _ _ _ _ _ _).
  set (b1 := with_nodes b0 _).
  assert (HN1 : forall j, j <> m -> N b1 j = N b j).
  { intros j Hj. unfold b1. rewrite N_with. by destruct (Z.eqb_spec j m). }
  assert (HNm : N b1 m = new) by (unfold b1; by rewrite N_with, Z.eqb_refl).
  assert (Hfresh : N b m = initNode m) by (apply (t_fresh b Ht); lia).
  assert (Hnew : _code new = UTIL_INVALID_DICT_CODE /\ _next new = UTIL_INVALID_DICT_CODE).
  { unfold new. cbn [_code _next]. rewrite HN0, Hfresh. unfold initNode.
    by destruct (Z.ltb_spec m 256); [lia|]. }
  destruct (linkChild_ok b1 pre m ch ks) as (b2 & ks1 & ks2 & Eks & H1 & H2 & -> & E1 & E2 & E3 & E4 & E5).
  1-4: simpl; try done; lia.
  { rewrite HNm. apply Hnew. }
  { rewrite HN1 by lia. eapply seg_frame; [|intros k Hin; rewrite HN1; [done|specialize (Hks k Hin); lia]|apply Hk].
    simpl. lia. }
  { unfold chars. erewrite list_fmap_ext; [apply Hk|]. intros i k Hi. simpl. rewrite HN1; [done|].
    apply list_elem_of_lookup_2 in Hi. specialize (Hks k Hi). lia. }
  { done. }
  { pose proof (kids_short b pre ks Ht Hk). unfold CHAIN_FUEL. lia. }
  cbn [mbind option_bind]. rewrite node_N by (rewrite E1; simpl; lia). cbn [mbind option_bind].
  rewrite upd_N by (rewrite E1; simpl; lia). cbn [mbind option_bind].
  assert (Hsub : forall k, k ∈ ks1 ++ ks2 -> N b1 k = N b k).
  { intros k Hin. rewrite <- Eks in Hin. apply HN1. specialize (Hks k Hin). lia. }
  eexists _, ks1, ks2. rewrite <- Eks. split_and!; [done| | |done|done|done| | |].
  - intros k Hin. rewrite <- Hsub by set_solver. auto.
  - intros k Hin. rewrite <- Hsub by set_solver. auto.
  - simpl. by rewrite E3.
  - change (N (mkBuilder ?n _ _ _ _) m) with (default (initNode m) (n !! m)). simpl.
    rewrite lookup_insert_eq, E4, E5 by lia. simpl.
    rewrite HNm, !hooked_len, HN1 by lia. destruct Hnew as [-> _].
    rewrite u32_small by lia. done.
  - intros j Hj. change (N (mkBuilder ?n _ _ _ _) j) with (default (initNode j) (n !! j)). simpl.
    rewrite lookup_insert_ne by lia. change (default _ _) with (N b2 j). rewrite E5 by done.
    unfold hooked. by rewrite !HN1 by done.
Qed.

(** Inserting a character between the smaller and the larger ones. *)
Lemma sorted_insert (l1 l2 : list Z) c :
  StronglySorted Z.lt (l1 ++ l2) -> (forall x, x ∈ l1 -> x < c) -> (forall x, x ∈ l2 -> c < x) ->
  StronglySorted Z.lt (l1 ++ c :: l2).
Proof.
  induction l1 as [|x l1 IH]; simpl; intros Hs H1 H2.
  - constructor; [done|]. by apply Forall_forall.
  - apply StronglySorted_inv in Hs as [Hs Hall]. constructor.
    + apply IH; [done|set_solver|done].
    + apply Forall_app in Hall as [Ha Hb]. apply Forall_app. split; [done|].
      constructor; [|done]. apply H1. set_solver.
Qed.

Lemma sorted_chars_disjoint b l1 l2 k :
  StronglySorted Z.lt (chars b (l1 ++ l2)) -> k ∈ l1 -> k ∈ l2 -> False.
Proof.
  unfold chars. rewrite fmap_app. intros Hs H1 H2.
  assert (_ch (N b k) < _ch (N b k)); [|lia].
  eapply StronglySorted_app_1_elem_of; [exact Hs| |]; apply list_elem_of_fmap; eauto.
Qed.

Section add.
Context (b b' : lzwBuilder) (pre ch : Z) (ks1 ks2 : list Z).
Context (Ht : trie b) (Hpre : 0 <= pre <= b_maxCode b).
Context (Hch : 0 <= ch < 256) (Hlen : _len (N b pre) <= 254).
Context (Habs : forall k, 256 <= k <= b_maxCode b -> _prev (N b k) = pre -> _ch (N b k) <> ch).
Context (Hk : kids b pre (ks1 ++ ks2)).
Context (H1 : forall k, k ∈ ks1 -> _ch (N b k) < ch).
Context (H2 : forall k, k ∈ ks2 -> ch <= _ch (N b k)).
Let m := b_maxCode b + 1.
Context (Hroom : m < _maxNodeNum b).
Context (Enum : _maxNodeNum b' = _maxNodeNum b).
Context (Emax : b_maxCode b' = m).
Context (Evec : _nodeSortVec b' = _nodeSortVec b ++ [m]).
Context (HNm : N b' m = mkNode UTIL_INVALID_DICT_CODE pre UTIL_INVALID_DICT_CODE
                          (hd UTIL_INVALID_DICT_CODE ks2) (_len (N b pre) + 1) 0 ch).
Context (HN : forall j, j <> m -> N b' j = hooked b pre m ks1 j).

Lemma add_prev i : _prev (N b' i) = if i =? m then pre else _prev (N b i).
Proof using HNm HN. case_Zb; [subst; by rewrite HNm|]. by rewrite HN, hooked_prev. Qed.

Lemma add_len i : _len (N b' i) = if i =? m then _len (N b pre) + 1 else _len (N b i).
Proof using HNm HN. case_Zb; [subst; by rewrite HNm|]. by rewrite HN, hooked_len. Qed.

Lemma add_ch i : _ch (N b' i) = if i =? m then ch else _ch (N b i).
Proof using HNm HN. case_Zb; [subst; by rewrite HNm|]. by rewrite HN, hooked_ch. Qed.

(** Brothers of other parents keep their links. *)
Lemma add_kids_other i ks :
  i <> pre -> i <= b_maxCode b -> kids b i ks -> kids b' i ks.
Proof using Hk HNm HN Emax Ht Hpre.
  intros Hi Him Hki. pose proof (t_max b Ht) as Hm.
  assert (Hlast : forall k, last ks1 = Some k -> 256 <= k <= b_maxCode b /\ _prev (N b k) = pre).
  { intros k Hl. apply (k_elem _ _ _ Hk), elem_of_app. left. by apply last_Some_elem_of. }
  constructor.
  - rewrite HN by lia. assert (_first (hooked b pre m ks1 i) = _first (N b i)) as ->.
    { unfold hooked. destruct (last ks1); [by destruct (_ =? _)|]. by destruct (Z.eqb_spec i pre). }
    apply (seg_frame b); [rewrite Emax; lia| |apply (k_chain _ _ _ Hki)].
    intros k [Hr Hp]%(k_elem _ _ _ Hki). rewrite HN by lia. unfold hooked.
    destruct (last ks1) as [k1|]; [|by destruct (_ =? _)].
    destruct (Z.eqb_spec k k1) as [->|]; [|done].
    destruct (Hlast k1 eq_refl) as [_ ?]. lia.
  - intros j. rewrite (k_elem _ _ _ Hki), Emax, add_prev.
    destruct (Z.eqb_spec j m); [split; lia|]. split; lia.
  - unfold chars. erewrite list_fmap_ext; [apply Hki|]. intros n k Hn. simpl. rewrite add_ch.
    apply list_elem_of_lookup_2, (k_elem _ _ _ Hki) in Hn as [? _]. by case_Zb; [lia|].
Qed.

(** The new brother comes between the smaller and the larger ones. *)
Lemma add_kids_pre : kids b' pre (ks1 ++ m :: ks2).
Proof using All.
  pose proof (t_max b Ht) as Hm.
  assert (Hin : forall k, k ∈ ks1 ++ ks2 -> 256 <= k <= b_maxCode b /\ _prev (N b k) = pre /\ pre < k).
  { intros k Hkk. apply (k_elem _ _ _ Hk) in Hkk as [Hr Hp]. split_and!; [lia|lia|done|].
    destruct (t_inner b Ht k Hr) as [? _]. lia. }
  destruct Hk as [Hc He Hs].
  assert (Hmk : forall k, k ∈ ks1 ++ ks2 -> k <> m) by (intros k ?%Hin; lia).
  constructor.
  - apply seg_app in Hc as (z & Hc1 & Hc2). apply seg_app. exists m. split.
    + rewrite HN by lia. unfold hooked. destruct (last ks1) as [k|] eqn:El.
      * destruct (Z.eqb_spec pre k) as [->|_].
        { assert (k < k); [|lia]. apply Hin, elem_of_app. left. by apply last_Some_elem_of. }
        apply last_Some in El as [l El]. rewrite El in *. clear El.
        apply seg_app in Hc1 as (k' & Hl & (-> & Hkr & Hz)). apply seg_app. exists k. split.
        -- apply (seg_frame b); [rewrite Emax; lia| |done]. intros j Hj.
           rewrite HN by (apply Hmk; set_solver). unfold hooked. rewrite last_snoc.
           destruct (Z.eqb_spec j k) as [->|]; [|done].
           rewrite <- app_assoc in Hs. destruct (sorted_chars_disjoint _ _ _ k Hs Hj). set_solver.
        -- simpl. split_and!; [done|lia|rewrite Emax; lia|].
           rewrite HN by (apply Hmk; set_solver). unfold hooked. by rewrite last_snoc, Z.eqb_refl.
      * rewrite Z.eqb_refl. destruct ks1 as [|k1 l1]; [done|]. by apply last_None in El.
    + simpl. split_and!; [done|lia|rewrite Emax; lia|]. rewrite HNm. simpl.
      rewrite <- (seg_hd _ _ _ _ Hc2). apply (seg_frame b); [rewrite Emax; lia| |done].
      intros k Hkk. rewrite HN by (apply Hmk; set_solver). unfold hooked.
      destruct (last ks1) as [k1|] eqn:El; [|by destruct (_ =? _)].
      destruct (Z.eqb_spec k k1) as [->|]; [|done].
      destruct (sorted_chars_disjoint _ _ _ k1 Hs); [by apply last_Some_elem_of|done].
  - intros j. rewrite Emax, add_prev. specialize (He j). rewrite elem_of_app, elem_of_cons.
    rewrite elem_of_app in He. destruct (Z.eqb_spec j m) as [->|Hj].
    + split; [intros _; lia|auto].
    + split; [intros [?|[?|?]]; [|done|]|intros [? ?]].
      * destruct He as [He _]. destruct He; [auto|]. lia.
      * destruct He as [He _]. destruct He; [auto|]. lia.
      * destruct He as [_ [?|?]]; [lia|auto|auto].
  - unfold chars. rewrite fmap_app, fmap_cons. cbn beta. rewrite add_ch, Z.eqb_refl.
    assert (Hsame : forall l : list Z, (forall k, k ∈ l -> k ∈ ks1 ++ ks2) ->
      (fun k => _ch (N b' k)) <$> l = (fun k => _ch (N b k)) <$> l).
    { intros l Hl. apply list_fmap_ext. intros n k Hn. simpl. rewrite add_ch.
      apply list_elem_of_lookup_2, Hl, Hmk in Hn. by case_Zb. }
    rewrite !Hsame by set_solver. unfold chars in Hs. rewrite fmap_app in Hs.
    apply sorted_insert; [done| |].
    + intros x (k & -> & Hkk)%list_elem_of_fmap. auto.
    + intros x (k & -> & Hkk)%list_elem_of_fmap. specialize (H2 k Hkk).
      assert (_ch (N b k) <> ch); [|lia].
      destruct (Hin k) as (? & ? & _); [set_solver|]. by apply Habs.
Qed.

Lemma add_trie : trie b'.
Proof using All.
  pose proof (t_max b Ht) as Hm. constructor; rewrite ?Enum, ?Emax.
  - apply (t_num b Ht).
  - lia.
  - intros i Hi. rewrite add_prev, add_len, add_ch. case_Zb; [lia|]. by apply (t_root b Ht).
  - intros i Hi. rewrite !add_len, add_prev, add_ch. destruct (Z.eqb_spec i m) as [->|Hne].
    + destruct (Z.eqb_spec pre m); lia.
    + destruct (t_inner b Ht i) as (? & ? & ?); [lia|]. case_Zb; [lia|]. auto.
  - intros i Hi. rewrite HN by lia. rewrite <- (t_fresh b Ht) by lia. unfold hooked.
    destruct (last ks1) as [k|] eqn:El; case_Zb; try done; subst; [|lia].
    apply last_Some_elem_of in El. assert (256 <= k <= b_maxCode b); [|lia].
    apply (k_elem _ _ _ Hk). set_solver.
  - intros i Hi. destruct (decide (i = m)) as [->|].
    { exists []. constructor; [by rewrite HNm| |constructor].
      intros j. rewrite Emax, add_prev. split; [by intros ?%elem_of_nil|].
      intros [Hj Hp]. destruct (Z.eqb_spec j m); [lia|].
      destruct (t_inner b Ht j) as [? _]; lia. }
    destruct (decide (i = pre)) as [->|]; [eauto using add_kids_pre|].
    destruct (t_kids b Ht i) as [ks Hks]; [lia|]. exists ks. apply add_kids_other; auto. lia.
  - rewrite Evec, (t_vec b Ht), (seqZ_app 0 m 1) by lia. done.
Qed.
End add.

(** The tree one node larger. *)
Lemma addStr_trie b pre ch :
  trie b -> (forall i, _code (N b i) = UTIL_INVALID_DICT_CODE) ->
  0 <= pre <= b_maxCode b -> b_maxCode b + 1 < _maxNodeNum b -> 0 <= ch < 256 ->
  _len (N b pre) <= 254 ->
  (forall k, 256 <= k <= b_maxCode b -> _prev (N b k) = pre -> _ch (N b k) <> ch) ->
  let m := b_maxCode b + 1 in
  exists b', addStr b pre ch = Some (b', m) /\ trie b' /\ b_maxCode b' = m /\
    _maxNodeNum b' = _maxNodeNum b /\
    (forall i, _code (N b' i) = UTIL_INVALID_DICT_CODE) /\
    (forall i, _refNum (N b' i) = if i =? m then 0 else _refNum (N b i)) /\
    (forall i, _prev (N b' i) = if i =? m then pre else _prev (N b i)) /\
    (forall i, _len (N b' i) = if i =? m then _len (N b pre) + 1 else _len (N b i)).
Proof.
  intros Ht Hcode Hpre Hroom Hch Hlen Habs m.
  destruct (addStr_N b pre ch Ht Hcode Hpre Hroom)
    as (b' & ks1 & ks2 & Hk & H1 & H2 & E & Enum & Emax & Evec & HNm & HN).
  fold m in E, Emax, Evec, HNm, HN.
  exists b'. split_and!; try done.
  - by apply (add_trie b b' pre ch ks1 ks2).
  - intros i. destruct (decide (i = m)) as [->|]; [by rewrite HNm|]. by rewrite HN, hooked_code.
  - intros i. case_Zb; [subst; by rewrite HNm|]. by rewrite HN, hooked_refNum.
  - by apply (add_prev b b' pre ch ks1 ks2).
  - by apply (add_len b b' pre ch ks1 ks2).
Qed.
