(* ===== verification/LzwRank.v ===== *)
(** * Building a dictionary: the trie, ranking and codes

    [build] never leaves the node array and keeps the trie invariant, for any
    sample data; it also keeps the use counters ordered along every path
    ([refs]).  The bound on the counters says how much sample data can be read
    before a 32-bit counter could wrap. *)

From stdpp Require Import base gmap list option sorting.
From Stdlib Require Import ZArith Lia.
From S2P Require Import Prelude Mem LzwDict LzwCreate LzwBits LzwTrie.

Open Scope Z_scope.

(** Use counters: at most [R]; a node is used more often than each of its
    children, by one more while it is the node [cur] reached last. *)
Record refs (b : lzwBuilder) (cur R : Z) : Prop := {
  rf_bound : forall i, 0 <= _refNum (N b i) <= R;
  rf_step : forall c, 256 <= c <= b_maxCode b -> 256 <= _prev (N b c) ->
    _refNum (N b c) + 1 + (if _prev (N b c) =? cur then 1 else 0) <= _refNum (N b (_prev (N b c)));
  rf_cur : 256 <= cur -> 1 <= _refNum (N b cur)
}.

Record built (b : lzwBuilder) (cur R : Z) : Prop := {
  bt_trie : trie b;
  bt_code : forall i, _code (N b i) = UTIL_INVALID_DICT_CODE;
  bt_refs : refs b cur R
}.

(** Reaching a single byte needs no count. *)
Lemma refs_root b cur cur' R R' : refs b cur R -> cur' < 256 -> R <= R' -> refs b cur' R'.
Proof.
  intros [Hb Hs Hc] Hr HR. constructor.
  - intros i. specialize (Hb i). lia.
  - intros c H1 H2. specialize (Hs c H1 H2). destruct (Z.eqb_spec (_prev (N b c)) cur'); [lia|].
    destruct (_ =? _); lia.
  - lia.
Qed.

Lemma built_root b cur cur' R R' : built b cur R -> cur' < 256 -> R <= R' -> built b cur' R'.
Proof. intros [? ? ?]. constructor; [done|done|]. by eapply refs_root. Qed.

(** Counting a single byte. *)
Lemma visit_root b cur R :
  built b cur R -> 0 <= cur < 256 -> R + 1 < 2 ^ 32 ->
  trie (visit b cur) /\ (forall i, _code (N (visit b cur) i) = UTIL_INVALID_DICT_CODE) /\
  refs (visit b cur) cur (R + 1).
Proof.
  intros [Ht Hcode [Hb Hs Hc]] Hcur HR. pose proof (t_max b Ht) as Hm.
  assert (Hss : same_shape b (visit b cur)) by (apply same_shape_visit; lia).
  split_and!; [by eapply trie_same_shape|by intros; rewrite code_visit|].
  assert (Hu : u32 (_refNum (N b cur) + 1) = _refNum (N b cur) + 1)
    by (specialize (Hb cur); apply u32_small; lia).
  constructor.
  - intros i. rewrite refNum_visit, Hu. pose proof (Hb i). pose proof (Hb cur). case_Zb; lia.
  - intros c. rewrite (ss_max _ _ Hss), (ss_prev _ _ Hss), !refNum_visit. intros H1 H2.
    specialize (Hs c H1 H2). destruct (Z.eqb_spec c cur); [lia|].
    destruct (Z.eqb_spec (_prev (N b c)) cur); lia.
  - lia.
Qed.

(** Going down from the node reached last to one of its children. *)
Lemma visit_child b cur R R' r :
  trie b -> refs b cur R -> R' = R + 1 -> R' < 2 ^ 32 -> 256 <= r <= b_maxCode b ->
  _prev (N b r) = cur -> refs (visit b r) r R'.
Proof.
  intros Ht [Hb Hs Hc] -> HR Hr Hp. pose proof (t_inner b Ht r Hr) as [Hlt _].
  assert (Hss : same_shape b (visit b r)) by (apply same_shape_visit; lia).
  assert (Hu : u32 (_refNum (N b r) + 1) = _refNum (N b r) + 1)
    by (specialize (Hb r); apply u32_small; lia).
  constructor.
  - intros i. rewrite refNum_visit, Hu. pose proof (Hb i). pose proof (Hb r). case_Zb; lia.
  - intros c. rewrite (ss_max _ _ Hss), (ss_prev _ _ Hss), !refNum_visit, Hu. intros H1 H2.
    pose proof (t_inner b Ht c H1) as [Hltc _]. specialize (Hs c H1 H2).
    destruct (Z.eqb_spec c r) as [->|].
    + rewrite Hp in *. rewrite Z.eqb_refl in Hs. destruct (Z.eqb_spec cur r); lia.
    + destruct (Z.eqb_spec (_prev (N b c)) r) as [E|].
      * rewrite E in Hs. destruct (_ =? _); lia.
      * destruct (_ =? _); lia.
  - intros _. rewrite refNum_visit, Z.eqb_refl, Hu. specialize (Hb r). lia.
Qed.

(** One step down the trie, whether the child exists or not. *)
Lemma findStr_built b cur R ch :
  built b cur R -> 0 <= cur <= b_maxCode b -> R + 2 < 2 ^ 32 ->
  exists b' r, findStr b cur ch = Some (b', r) /\ same_shape b b' /\
    ((256 <= r <= b_maxCode b /\ _prev (N b r) = cur /\ built b' r (R + 2)) \/
     (r = UTIL_INVALID_DICT_CODE /\ built b' cur (R + 1) /\
      forall k, 256 <= k <= b_maxCode b -> _prev (N b k) = cur -> _ch (N b k) <> ch)).
Proof.
  intros Hbt Hcur HR. pose proof (bt_trie _ _ _ Hbt) as Ht.
  destruct (findStr_ok b cur ch Ht Hcur) as (b1 & b' & r & Eb1 & E & Hcase).
  assert (H1 : same_shape b b1 /\ built b1 cur (R + 1)).
  { rewrite Eb1. unfold UTIL_MAX_DICT_INIT_CODE. destruct (Z.leb_spec cur 255).
    - split; [apply same_shape_visit; lia|]. destruct (visit_root b cur R Hbt) as (? & ? & ?); [lia|lia|].
      by constructor.
    - split; [done|]. destruct Hbt as [? ? [Hb Hs Hc]].
      constructor; [done|done|]. constructor; [|done|done]. intros i. specialize (Hb i). lia. }
  destruct H1 as [Hss [Ht1 Hcode1 Hrefs1]]. exists b', r. split; [done|].
  destruct Hcase as [(Hr & Hp & _ & ->)|(-> & -> & Hno)].
  - assert (Hss' : same_shape b1 (visit b1 r)).
    { apply same_shape_visit. rewrite (ss_max _ _ Hss). lia. }
    split; [by etrans|]. left. split_and!; try done; try lia. constructor.
    + by eapply trie_same_shape.
    + intros i. by rewrite code_visit.
    + eapply visit_child; [done|done|lia|lia| |]; rewrite ?(ss_max _ _ Hss), ?(ss_prev _ _ Hss); done.
  - split; [done|]. right. by split_and!.
Qed.

(** A string that was not found is added, unless the array is full. *)
Lemma addStr_built b cur R ch :
  built b cur R -> 0 <= cur <= b_maxCode b -> 0 <= ch < 256 -> _len (N b cur) <= 254 ->
  (forall k, 256 <= k <= b_maxCode b -> _prev (N b k) = cur -> _ch (N b k) <> ch) ->
  exists b' r, addStr b cur ch = Some (b', r) /\ built b' ch R.
Proof.
  intros Hbt Hcur Hch Hlen Hno. pose proof Hbt as [Ht Hcode Hrefs]. pose proof (t_max b Ht) as Hm.
  pose proof (t_num b Ht) as Hnum.
  destruct (decide (b_maxCode b + 1 = _maxNodeNum b)) as [Hfull|Hroom].
  - exists b, UTIL_INVALID_DICT_CODE. split.
    + unfold addStr. rewrite u32_small, Hfull, Z.eqb_refl; [done|].
      rewrite Hfull, Hnum. unfold UTIL_MAX_DICT_BUILD_ITEM_NUM, UTIL_MAX_DICT_ITEM_NUM. lia.
    + eapply built_root; [done|lia|lia].
  - destruct (addStr_trie b cur ch Ht Hcode Hcur ltac:(lia) Hch Hlen Hno)
      as (b' & E & Ht' & Em & _ & Hcode' & Hr & Hp & _).
    eexists b', _. split; [done|]. constructor; [done|done|]. destruct Hrefs as [Hb Hs Hc].
    constructor.
    + intros i. rewrite Hr. pose proof (Hb i). case_Zb; lia.
    + intros c. rewrite Em, !Hr, Hp. intros Hc1.
      destruct (Z.eqb_spec c (b_maxCode b + 1)) as [->|].
      * intros H2. specialize (Hc H2). destruct (Z.eqb_spec cur (b_maxCode b + 1)); [lia|].
        destruct (Z.eqb_spec cur ch); lia.
      * intros H2. pose proof (t_inner b Ht c ltac:(lia)) as [Hlt _]. specialize (Hs c ltac:(lia) H2).
        destruct (Z.eqb_spec (_prev (N b c)) (b_maxCode b + 1)); [lia|].
        destruct (Z.eqb_spec (_prev (N b c)) ch); [lia|]. destruct (_ =? cur); lia.
    + lia.
Qed.

(** One step of the loop: a character is read at the end of the string
    reached so far. *)
Lemma build_step b code strLen R T ch :
  built b code R -> 0 <= code <= b_maxCode b -> strLen = _len (N b code) -> strLen <= 254 ->
  is_byte ch -> R + 2 <= T -> T < 2 ^ 32 ->
  exists b1 r, findStr b code ch = Some (b1, r) /\
    if UTIL_INVALID_DICT_CODE =? r
    then exists b2 m, addStr b1 code ch = Some (b2, m) /\ built b2 ch T
    else built b1 r T /\ 0 <= r <= b_maxCode b1 /\ strLen + 1 = _len (N b1 r).
Proof.
  intros Hbt Hcode Hsl Hle Hch HR HT. pose proof (bt_trie _ _ _ Hbt) as Ht.
  destruct (findStr_built b code R ch Hbt Hcode) as (b1 & r & E & Hss & Hcase); [lia|].
  exists b1, r. split; [done|].
  destruct Hcase as [(Hr & Hp & Hb1)|(-> & Hb1 & Hno)].
  - destruct (Z.eqb_spec UTIL_INVALID_DICT_CODE r) as [Heq|_].
    { exfalso. apply (trie_code_valid b r Ht); [lia|done]. }
    destruct Hb1 as [Ht1 Hc1 [Hb Hs Hc]]. split_and!.
    + constructor; [done|done|]. constructor; [|done|done]. intros i. specialize (Hb i). lia.
    + lia.
    + rewrite (ss_max _ _ Hss). lia.
    + rewrite (ss_len _ _ Hss). destruct (t_inner b Ht r Hr) as (_ & -> & _). rewrite Hp. lia.
  - rewrite Z.eqb_refl.
    destruct (addStr_built b1 code (R + 1) ch) as (b2 & m & E2 & Hb2); try done.
    + by rewrite (ss_max _ _ Hss).
    + rewrite (ss_len _ _ Hss). lia.
    + intros k. rewrite (ss_max _ _ Hss), (ss_prev _ _ Hss), (ss_ch _ _ Hss). apply Hno.
    + exists b2, m. split; [done|]. eapply built_root; [done| |lia]. apply Hch.
Qed.

(** The loop of [build]: it reads the source to its end, or stops when the
    array is full. *)
Lemma build_loop_ok source : Forall is_byte source -> forall fuel b pos code strLen restart R T,
  built b code R -> 0 <= code <= b_maxCode b -> strLen = _len (N b code) ->
  restart = (255 <=? strLen) -> 0 <= pos ->
  Z.max 0 (Z.of_nat (length source) - pos) < Z.of_nat fuel ->
  R + 2 * Z.max 0 (Z.of_nat (length source) - pos) <= T -> T < 2 ^ 32 ->
  exists b' full, build_loop fuel b source (Z.of_nat (length source)) pos code strLen restart
      = Some (b', full) /\ built b' 0 T.
Proof.
  intros Hby. induction fuel as [|fuel IH];
    intros b pos code strLen restart R T Hbt Hcode Hsl Hrs Hpos Hf HR HT; [lia|].
  cbn [build_loop]. destruct (Z.ltb_spec pos (Z.of_nat (length source))) as [Hlt|Hge].
  2: { eexists _, _. split; [done|]. eapply built_root; [done|lia|lia]. }
  assert (Hrd : forall i, 0 <= i < Z.of_nat (length source) -> exists c, rd source i = Some c /\ is_byte c).
  { intros i Hi. destruct (rd_is_Some source i Hi) as [c Hc]. exists c. split; [done|].
    unfold rd in Hc. case_Zb; [|lia]. rewrite Forall_lookup in Hby. eauto. }
  destruct (Hrd pos) as (c & -> & Hcb); [lia|]. cbn [mbind option_bind].
  assert (Hroot : forall c', is_byte c' -> 0 <= c' <= b_maxCode b /\ 1 = _len (N b c')).
  { intros c' Hc'. pose proof (t_max b (bt_trie _ _ _ Hbt)).
    destruct (t_root b (bt_trie _ _ _ Hbt) c' Hc') as (_ & -> & _). unfold is_byte in Hc'. lia. }
  assert (Hend : restart && (pos + 1 =? Z.of_nat (length source)) = true \/
    exists code' strLen' ch pos', 
      (if restart then ch ← rd source (pos + 1); Some (c, 1, ch, pos + 1)
       else Some (code, strLen, c, pos)) = Some (code', strLen', ch, pos') /\
      restart && (pos + 1 =? Z.of_nat (length source)) = false /\
      built b code' R /\ 0 <= code' <= b_maxCode b /\ strLen' = _len (N b code') /\ strLen' <= 254 /\
      is_byte ch /\ pos <= pos').
  { destruct restart; simpl.
    - destruct (Z.eqb_spec (pos + 1) (Z.of_nat (length source))); [by left|right].
      destruct (Hrd (pos + 1)) as (ch & -> & Hch); [lia|]. eexists c, 1, ch, (pos + 1).
      destruct (Hroot c Hcb). split_and!; try done; try lia.
      eapply built_root; [done|apply Hcb|lia].
    - right. eexists code, strLen, c, pos. symmetry in Hrs. apply Z.leb_gt in Hrs.
      split_and!; try done; lia. }
  destruct Hend as [->|(code' & strLen' & ch & pos' & -> & -> & Hb' & Hc' & Hl' & Hle & Hch & Hp')].
  { eexists _, _. split; [done|]. eapply built_root; [done|lia|lia]. }
  cbn [mbind option_bind].
  destruct (build_step b code' strLen' R (R + 2) ch) as (b1 & r & -> & Hstep); try done; try lia.
  cbn [mbind option_bind]. destruct (UTIL_INVALID_DICT_CODE =? r).
  - destruct Hstep as (b2 & m & -> & Hb2). cbn [mbind option_bind].
    destruct (m =? _).
    + eexists _, _. split; [done|]. eapply built_root; [done|lia|lia].
    + pose proof (t_max b2 (bt_trie _ _ _ Hb2)).
      destruct (t_root b2 (bt_trie _ _ _ Hb2) ch Hch) as (_ & Hlen1 & _). unfold is_byte in Hch.
      eapply IH; [exact Hb2|lia|done|done|lia|lia| |done]. lia.
  - destruct Hstep as (Hb1 & Hr & Hl1). eapply IH; [exact Hb1|lia|done|done|lia|lia| |done]. lia.
Qed.

Lemma build_ok b source R T :
  built b 0 R -> Forall is_byte source -> source <> [] ->
  R + 2 * Z.of_nat (length source) <= T -> T < 2 ^ 32 ->
  exists b' full, build b source = Some (b', full) /\ built b' 0 T.
Proof.
  intros Hbt Hby Hne HR HT. unfold build.
  assert (0 < Z.of_nat (length source)) by (destruct source; [done|simpl; lia]).
  destruct (rd_is_Some source 0) as [c Hc]; [lia|]. rewrite Hc. cbn [mbind option_bind].
  assert (Hcb : is_byte c).
  { unfold rd in Hc. simpl in Hc. rewrite Forall_lookup in Hby. eauto. }
  pose proof (t_max b (bt_trie _ _ _ Hbt)).
  destruct (t_root b (bt_trie _ _ _ Hbt) c Hcb) as (_ & Hl & _).
  eapply (build_loop_ok source Hby _ b 1 c 1 false R T); try done; try lia.
  - eapply built_root; [done|apply Hcb|lia].
  - unfold is_byte in Hcb. lia.
Qed.

(** ** The initial array *)

Lemma N_init i : N init i = initNode i.
Proof. unfold N, init. simpl. by rewrite lookup_empty. Qed.

Lemma init_built : built init 0 1.
Proof.
  assert (Hroot : forall i, i < 256 -> initNode i = mkNode UTIL_INVALID_DICT_CODE
    UTIL_INVALID_DICT_CODE UTIL_INVALID_DICT_CODE UTIL_INVALID_DICT_CODE 1 1 i).
  { intros i Hi. unfold initNode. by case_Zb; [|lia]. }
  constructor.
  - constructor; try done; change (b_maxCode init) with 255.
    + intros i Hi. rewrite N_init, Hroot by lia. done.
    + intros i Hi. lia.
    + intros i Hi. exists []. constructor; [|change (b_maxCode init) with 255|constructor].
      * simpl. by rewrite N_init, Hroot by lia.
      * intros j. split; [by intros ?%elem_of_nil|lia].
  - intros i. rewrite N_init. unfold initNode. by destruct (i <? 256).
  - constructor.
    + intros i. rewrite N_init. unfold initNode. destruct (i <? 256); simpl; lia.
    + change (b_maxCode init) with 255. lia.
    + lia.
Qed.

(** The creator, fed any number of records. *)
Lemma buildAll_ok sources : Forall (fun s => Forall is_byte s /\ s <> []) sources ->
  forall b R T, built b 0 R -> R + 2 * Z.of_nat (length (mjoin sources)) <= T -> T < 2 ^ 32 ->
  exists b', buildAll b sources = Some b' /\ built b' 0 T.
Proof.
  induction 1 as [|s sources [Hby Hne] _ IH]; intros b R T Hb HR HT; simpl.
  - exists b. split; [done|]. eapply built_root; [done|lia|]. simpl in HR. lia.
  - simpl in HR. rewrite length_app in HR.
    destruct (build_ok b s R (R + 2 * Z.of_nat (length s)) Hb Hby Hne) as (b1 & full & -> & Hb1);
      [lia|lia|]. cbn [mbind option_bind]. eapply IH; [done| |done]. lia.
Qed.

(** ** Ranking and code assignment

    [finalize] sorts the nodes by use and hands out at most
    [UTIL_MAX_DICT_ITEM_NUM] codes in that order, holding codes back for the
    single bytes.  Shown here: the nodes of the single bytes always get a code,
    and with a node its parent does ([ranked]), because a parent is used more
    often than its children. *)

(** ** The nodes that keep a code *)

(** The choice [assignCodes] makes, with [room] codes left and [rInit] single
    bytes to come. *)
Fixpoint keep (order : list Z) (room rInit : Z) : list Z :=
  match order with
  | [] => []
  | i :: order' =>
      if i <=? UTIL_MAX_DICT_INIT_CODE then
        i :: (if room - 1 =? 0 then [] else keep order' (room - 1) (rInit - 1))
      else if room <=? rInit then keep order' room rInit
      else i :: (if room - 1 =? 0 then [] else keep order' (room - 1) rInit)
  end.

Definition is_root (i : Z) : bool := i <=? UTIL_MAX_DICT_INIT_CODE.
Definition roots (l : list Z) : Z := Z.of_nat (length (filter (fun i => is_root i) l)).

Lemma roots_cons i l : roots (i :: l) = (if is_root i then 1 else 0) + roots l.
Proof. unfold roots. rewrite filter_cons. destruct (is_root i); simpl; lia. Qed.

Lemma roots_nonneg l : 0 <= roots l.
Proof. unfold roots. lia. Qed.

Lemma keep_sublist order : forall room rInit, keep order room rInit `sublist_of` order.
Proof.
  induction order as [|i order IH]; intros room rInit; simpl; [done|].
  destruct (_ <=? _); [|destruct (room <=? rInit)]; try (by apply sublist_cons);
    apply sublist_skip; destruct (_ =? 0); auto using sublist_nil_l.
Qed.

Lemma keep_length order : forall room rInit,
  1 <= room -> Z.of_nat (length (keep order room rInit)) <= room.
Proof.
  induction order as [|i order IH]; intros room rInit Hr; simpl; [lia|].
  destruct (_ <=? _); [|destruct (room <=? rInit); [by apply IH|]]; simpl;
    (destruct (Z.eqb_spec (room - 1) 0); simpl; [lia|]);
    [specialize (IH (room - 1) (rInit - 1))|specialize (IH (room - 1) rInit)]; lia.
Qed.

Lemma roots_pos i l : i ∈ l -> is_root i = true -> 1 <= roots l.
Proof.
  intros Hin Hr. unfold roots.
  destruct (filter (fun i => is_root i) l) as [|x r] eqn:E; [|simpl; lia].
  assert (Hf : i ∈ filter (fun i => is_root i) l) by (apply list_elem_of_filter; by rewrite Hr).
  rewrite E in Hf. by apply elem_of_nil in Hf.
Qed.

(** No single byte is left out. *)
Lemma keep_roots order : forall room i,
  1 <= room -> roots order <= room -> i ∈ order -> is_root i = true ->
  i ∈ keep order room (roots order).
Proof.
  induction order as [|x order IH]; intros room i Hr Hroom Hin Hi; [done|].
  rewrite roots_cons in *. pose proof (roots_nonneg order). cbn [keep]. fold (is_root x).
  apply elem_of_cons in Hin as [->|Hin].
  - rewrite Hi. set_solver.
  - pose proof (roots_pos i order Hin Hi). destruct (is_root x).
    + apply elem_of_cons. right. destruct (Z.eqb_spec (room - 1) 0); [lia|].
      replace (1 + roots order - 1) with (roots order) by lia. apply IH; auto; lia.
    + rewrite Z.add_0_l in *. destruct (Z.leb_spec room (roots order)); [by apply IH|].
      apply elem_of_cons. right. destruct (Z.eqb_spec (room - 1) 0); [lia|]. apply IH; auto; lia.
Qed.

(** Once the room is reserved for single bytes, only they are kept. *)
Lemma keep_reserved order : forall room rInit i,
  room <= rInit -> i ∈ keep order room rInit -> is_root i = true.
Proof.
  induction order as [|x order IH]; intros room rInit i Hr; simpl; [by intros ?%elem_of_nil|].
  fold (is_root x). destruct (is_root x) eqn:Ex.
  - intros [->|Hin]%elem_of_cons; [done|]. destruct (_ =? 0); [by apply elem_of_nil in Hin|].
    eapply IH; [|done]. lia.
  - destruct (Z.leb_spec room rInit); [|lia]. by apply IH.
Qed.

(** Everything ranked before a kept longer string is kept. *)
Lemma keep_before l1 : forall j l2 room rInit i,
  i ∈ l2 -> i ∉ l1 -> i <> j -> is_root i = false -> i ∈ keep (l1 ++ j :: l2) room rInit ->
  j ∈ keep (l1 ++ j :: l2) room rInit.
Proof.
  induction l1 as [|x l1 IH]; intros j l2 room rInit i Hi Hl1 Hij Hroot; simpl.
  - fold (is_root j). destruct (is_root j); [set_solver|].
    destruct (Z.leb_spec room rInit); [|set_solver].
    intros Hk. apply keep_reserved in Hk; [congruence|done].
  - fold (is_root x). assert (i <> x) by set_solver. assert (i ∉ l1) by set_solver.
    destruct (is_root x); [|destruct (room <=? rInit); [by eapply IH|]];
      (intros [?|Hk]%elem_of_cons; [done|]); apply elem_of_cons; right;
      (destruct (_ =? 0); [by apply elem_of_nil in Hk|by eapply IH]).
Qed.

(** ** [assignCodes] gives the kept nodes consecutive codes *)

Lemma assignCodes_ok order : forall b code rInit maxValid,
  NoDup order -> (forall i, i ∈ order -> 0 <= i <= b_maxCode b) ->
  b_maxCode b < _maxNodeNum b -> code < UTIL_MAX_DICT_ITEM_NUM ->
  let kept := keep order (UTIL_MAX_DICT_ITEM_NUM - code) rInit in
  exists b', assignCodes b order code (UTIL_MAX_DICT_ITEM_NUM - code) rInit maxValid
      = Some (b', if decide (kept = []) then maxValid else code + Z.of_nat (length kept) - 1) /\
    same_shape b b' /\
    (forall p i, kept !! p = Some i -> N b' i = set_code (code + Z.of_nat p) (N b i)) /\
    (forall i, i ∉ kept -> N b' i = N b i).
Proof.
  induction order as [|i order IH]; intros b code rInit maxValid Hnd Hr Hm Hcode.
  { exists b. split_and!; done. }
  apply NoDup_cons in Hnd as [Hni Hnd]. cbn [keep assignCodes]. fold (is_root i).
  assert (Hi : 0 <= i <= b_maxCode b) by (apply Hr; set_solver).
  assert (Hr' : forall b1, same_shape b b1 -> forall j, j ∈ order -> 0 <= j <= b_maxCode b1).
  { intros b1 Hss j Hj. rewrite (ss_max _ _ Hss). apply Hr. set_solver. }
  set (b1 := with_nodes b (<[i := set_code code (N b i)]> (_nodes b))).
  assert (Hss1 : same_shape b b1) by (by apply same_shape_upd; [lia|..]).
  (* the node takes [code] *)
  assert (Htake : forall rI,
    let kept := i :: (if UTIL_MAX_DICT_ITEM_NUM - code - 1 =? 0 then []
                      else keep order (UTIL_MAX_DICT_ITEM_NUM - code - 1) rI) in
    exists b', (if UTIL_MAX_DICT_ITEM_NUM =? code + 1 then Some (b1, code)
        else assignCodes b1 order (code + 1) (UTIL_MAX_DICT_ITEM_NUM - code - 1) rI code)
      = Some (b', code + Z.of_nat (length kept) - 1) /\ same_shape b b' /\
      (forall p j, kept !! p = Some j -> N b' j = set_code (code + Z.of_nat p) (N b j)) /\
      (forall j, j ∉ kept -> N b' j = N b j)).
  { intros rI. destruct (Z.eqb_spec UTIL_MAX_DICT_ITEM_NUM (code + 1)) as [E|E].
    - destruct (Z.eqb_spec (UTIL_MAX_DICT_ITEM_NUM - code - 1) 0); [|lia]. simpl.
      exists b1. split_and!; [do 2 f_equal; lia|done| |].
      + intros [|[|p]] j; simpl; [intros [= <-]|done|done].
        unfold b1. by rewrite N_with, Z.eqb_refl, Z.add_0_r.
      + intros j Hj. unfold b1. rewrite N_with. destruct (Z.eqb_spec j i); [set_solver|done].
    - destruct (Z.eqb_spec (UTIL_MAX_DICT_ITEM_NUM - code - 1) 0); [lia|].
      replace (UTIL_MAX_DICT_ITEM_NUM - code - 1) with (UTIL_MAX_DICT_ITEM_NUM - (code + 1)) by lia.
      destruct (IH b1 (code + 1) rI code Hnd (Hr' b1 Hss1)) as (b' & E' & Hss & Hin & Hout);
        [simpl; lia|lia|].
      set (kept := keep order _ rI) in *. exists b'. rewrite E'.
      assert (Hik : i ∉ kept).
      { intros Hk. apply Hni. eapply elem_of_sublist; [done|apply keep_sublist]. }
      split_and!; [|by etrans| |].
      + do 2 f_equal. simpl length. destruct (decide (kept = [])) as [->|]; simpl; lia.
      + intros [|p] j Hp; simpl in Hp.
        * injection Hp as <-. rewrite Hout by done. unfold b1. by rewrite N_with, Z.eqb_refl, Z.add_0_r.
        * rewrite (Hin _ _ Hp). unfold b1. rewrite N_with.
          destruct (Z.eqb_spec j i) as [->|]; [by apply list_elem_of_lookup_2 in Hp|].
          f_equal. lia.
      + intros j Hj. rewrite Hout by set_solver. unfold b1. rewrite N_with.
        destruct (Z.eqb_spec j i); [set_solver|done]. }
  assert (Hupd : upd (set_code code) i b = Some b1) by (apply upd_N; lia).
  destruct (is_root i) eqn:Ei; cbn [negb andb].
  - rewrite Hupd. cbn [mbind option_bind]. destruct (decide _); [done|]. apply Htake.
  - destruct (UTIL_MAX_DICT_ITEM_NUM - code <=? rInit).
    + apply IH; [done| |done|done]. intros j Hj. apply Hr. set_solver.
    + rewrite Hupd. cbn [mbind option_bind]. destruct (decide _); [done|]. apply Htake.
Qed.

(** ** The order [std::sort] gives *)

Section rank.
Context `{StdSortSpec}.

Lemma sort_weak_order :
  (forall x, _sortNodeByRef x x = false) /\
  (forall x y z, _sortNodeByRef x y = true -> _sortNodeByRef y z = true -> _sortNodeByRef x z = true) /\
  (forall x y z, _sortNodeByRef x y = false -> _sortNodeByRef y z = false -> _sortNodeByRef x z = false).
Proof.
  unfold _sortNodeByRef. split_and!; intros *; rewrite ?Z.ltb_lt, ?Z.ltb_ge; lia.
Qed.

Lemma rankNodes_ok b :
  trie b -> exists order, rankNodes b = Some order /\
    Permutation order (seqZ 0 (b_maxCode b + 1)) /\
    StronglySorted (fun i j => _refNum (N b j) <= _refNum (N b i)) order.
Proof.
  intros Ht. unfold rankNodes. rewrite (t_vec b Ht).
  assert (E : mapM (fun i => n ← node b i; Some (i, n)) (seqZ 0 (b_maxCode b + 1))
              = Some ((fun i => (i, N b i)) <$> seqZ 0 (b_maxCode b + 1))).
  { apply mapM_Some_2. apply Forall2_fmap_r, Forall_Forall2_diag, Forall_seqZ. intros i Hi.
    by rewrite trie_in_range by (done || lia). }
  rewrite E. cbn [mbind option_bind]. eexists. split; [done|].
  set (l := (fun i => (i, N b i)) <$> _).
  pose proof (std_sort_perm _ _sortNodeByRef l) as Hp.
  destruct sort_weak_order as (H1 & H2 & H3).
  pose proof (std_sort_sorted _ _sortNodeByRef l H1 H2 H3) as Hs.
  assert (Hn : forall x, x ∈ std_sort _sortNodeByRef l -> x.2 = N b x.1).
  { intros x Hx. rewrite Hp in Hx. unfold l in Hx. by apply list_elem_of_fmap in Hx as (i & -> & _). }
  split.
  - rewrite Hp. unfold l. rewrite <- list_fmap_compose. by rewrite list_fmap_id.
  - clear -Hs Hn. induction Hs as [|x xs Hs IH Hall]; [constructor|]. simpl. constructor.
    + apply IH. intros y Hy. apply Hn. set_solver.
    + apply Forall_fmap. rewrite Forall_forall in Hall |- *. intros y Hy. simpl.
      specialize (Hall y Hy). unfold _sortNodeByRef in Hall. apply Z.ltb_ge in Hall.
      by rewrite <- !Hn by set_solver.
Qed.
End rank.

(** ** A ranked trie *)

(** The nodes [kept], in the order of their codes: every single byte, and with
    each string its prefixes. *)
Record ranked (b : lzwBuilder) (kept : list Z) : Prop := {
  rk_trie : trie b;
  rk_nodup : NoDup kept;
  rk_range : forall i, i ∈ kept -> 0 <= i <= b_maxCode b;
  rk_root : forall i, 0 <= i < 256 -> i ∈ kept;
  rk_prev : forall i, i ∈ kept -> 256 <= i -> _prev (N b i) ∈ kept;
  rk_code : forall p i, kept !! p = Some i -> _code (N b i) = Z.of_nat p;
  rk_none : forall i, i ∉ kept -> _code (N b i) = UTIL_INVALID_DICT_CODE;
  rk_size : 256 <= Z.of_nat (length kept) <= UTIL_MAX_DICT_ITEM_NUM
}.

(** In a sorted order a node with a larger counter comes first. *)
Lemma sorted_before (f : Z -> Z) l i j :
  StronglySorted (fun i j => f j <= f i) l -> i ∈ l -> j ∈ l -> f i < f j ->
  exists l1 l2, l = l1 ++ j :: l2 /\ i ∈ l2.
Proof.
  intros Hs Hi Hj Hlt. apply list_elem_of_split in Hj as (l1 & l2 & ->). exists l1, l2. split; [done|].
  apply elem_of_app in Hi as [Hi|[->|Hi]%elem_of_cons]; [|lia|done].
  assert (f j <= f i); [|lia].
  apply (StronglySorted_app_1_elem_of _ _ _ i j Hs); set_solver.
Qed.

Lemma roots_seqZ n : 256 <= n -> roots (seqZ 0 n) = 256.
Proof.
  intros Hn. replace n with (256 + (n - 256)) by lia. rewrite seqZ_app by lia.
  unfold roots. rewrite filter_app, length_app.
  assert (filter (fun i => is_root i) (seqZ (0 + 256) (n - 256)) = []) as ->.
  { destruct (filter _ _) as [|i l] eqn:E; [done|]. exfalso.
    assert (Hi : i ∈ i :: l) by set_solver. rewrite <- E in Hi.
    apply list_elem_of_filter in Hi as [Hi ?%elem_of_seqZ].
    apply Is_true_true, Z.leb_le in Hi. unfold UTIL_MAX_DICT_INIT_CODE in Hi. lia. }
  done.
Qed.

Lemma roots_perm l l' : Permutation l l' -> roots l = roots l'.
Proof. intros E. unfold roots. by rewrite E. Qed.

(** The nodes that get a code from [finalize]. *)
Lemma assign_ranked `{StdSortSpec} b cur R :
  built b cur R -> exists order b' kept, rankNodes b = Some order /\
    assignCodes b order 0 UTIL_MAX_DICT_ITEM_NUM 256 0
      = Some (b', Z.of_nat (length kept) - 1) /\
    ranked b' kept /\ b_maxCode b' = b_maxCode b /\ Z.of_nat (length kept) <= b_maxCode b + 1.
Proof.
  intros [Ht Hcode [_ Hstep _]]. pose proof (t_max b Ht) as Hm.
  destruct (rankNodes_ok b Ht) as (order & E & Hp & Hs).
  assert (Hel : forall i, i ∈ order <-> 0 <= i <= b_maxCode b).
  { intros i. rewrite Hp, elem_of_seqZ. lia. }
  assert (Hnd : NoDup order) by (rewrite Hp; apply NoDup_seqZ).
  assert (Hroots : roots order = 256).
  { rewrite (roots_perm _ _ Hp). apply roots_seqZ. lia. }
  destruct (assignCodes_ok order b 0 256 0 Hnd) as (b' & E' & Hss & Hin & Hout).
  { intros i ?. by apply Hel. }
  { lia. }
  { unfold UTIL_MAX_DICT_ITEM_NUM. lia. }
  rewrite Z.sub_0_r in *. set (kept := keep order UTIL_MAX_DICT_ITEM_NUM 256) in *.
  assert (Hsub : forall i, i ∈ kept -> i ∈ order).
  { intros i Hi. eapply elem_of_sublist; [done|apply keep_sublist]. }
  assert (Hroot : forall i, 0 <= i < 256 -> i ∈ kept).
  { intros i Hi. unfold kept. rewrite <- Hroots. apply keep_roots.
    - unfold UTIL_MAX_DICT_ITEM_NUM. lia.
    - rewrite Hroots. unfold UTIL_MAX_DICT_ITEM_NUM. lia.
    - apply Hel. lia.
    - unfold is_root, UTIL_MAX_DICT_INIT_CODE. apply Z.leb_le. lia. }
  assert (Hndk : NoDup kept) by (eapply sublist_NoDup; [done|apply keep_sublist]).
  assert (Hlen : Z.of_nat (length kept) <= b_maxCode b + 1).
  { assert (length kept <= length order)%nat; [by apply submseteq_length, NoDup_submseteq|].
    rewrite Hp, length_seqZ in *. lia. }
  assert (H256 : 256 <= Z.of_nat (length kept)).
  { assert (length (seqZ 0 256) <= length kept)%nat; [|rewrite length_seqZ in *; lia].
    apply submseteq_length, NoDup_submseteq; [apply NoDup_seqZ|].
    intros i Hi%elem_of_seqZ. apply Hroot. lia. }
  assert (Hmax : Z.of_nat (length kept) <= UTIL_MAX_DICT_ITEM_NUM)
    by (apply keep_length; unfold UTIL_MAX_DICT_ITEM_NUM; lia).
  exists order, b', kept. split_and!; [done| |constructor|by apply (ss_max _ _ Hss)|done].
  - rewrite E'. destruct (decide (kept = [])) as [Ek|]; [|do 2 f_equal; lia].
    rewrite Ek in H256. simpl in H256. lia.
  - by eapply trie_same_shape.
  - done.
  - intros i Hi. rewrite (ss_max _ _ Hss). by apply Hel, Hsub.
  - done.
  - intros i Hi Hi2. rewrite (ss_prev _ _ Hss).
    assert (Hr : 256 <= i <= b_maxCode b) by (split; [done|]; apply Hel, Hsub, Hi).
    pose proof (t_inner b Ht i Hr) as [Hlt _].
    destruct (decide (_prev (N b i) < 256)); [apply Hroot; lia|].
    assert (Href : _refNum (N b i) < _refNum (N b (_prev (N b i)))).
    { specialize (Hstep i Hr). destruct (_ =? _); lia. }
    destruct (sorted_before (fun k => _refNum (N b k)) order i (_prev (N b i)) Hs)
      as (l1 & l2 & Eo & Hi'); [by apply Hsub|apply Hel; lia|done|].
    unfold kept. rewrite Eo. apply (keep_before l1 _ l2 _ _ i); [done| |lia| |].
    + intros Hl1. rewrite Eo in Hnd. apply NoDup_app in Hnd as (_ & Hdis & _).
      apply (Hdis i Hl1). set_solver.
    + unfold is_root, UTIL_MAX_DICT_INIT_CODE. apply Z.leb_gt. lia.
    + by rewrite <- Eo.
  - intros p i Hi. rewrite (Hin p i Hi). simpl. lia.
  - intros i Hi. rewrite (Hout i Hi). apply Hcode.
  - done.
Qed.
