(* ===== verification/LzwItems.v ===== *)
(** * Packed items of the string tables

    The fields of the 32-bit items of the compression and decompression string
    tables do not disturb each other: what a setter macro stores, the getter
    macros read. *)

From stdpp Require Import base gmap list option.
From Stdlib Require Import ZArith Lia.
From S2P Require Import Prelude Mem LzwDict LzwCreate LzwBits.

Open Scope Z_scope.

(** ** Bit tests of the operations in use *)

Lemma tb_shiftl v k i : 0 <= i -> 0 <= k -> Z.testbit (Z.shiftl v k) i = (k <=? i) && Z.testbit v (i - k).
Proof.
  intros. rewrite Z.shiftl_spec by done. destruct (Z.leb_spec k i); simpl; [done|].
  apply Z.testbit_neg_r. lia.
Qed.

Lemma tb_u32 v i : Z.testbit (u32 v) i = (i <? 32) && Z.testbit v i.
Proof. unfold u32. apply testbit_mod_pow2. lia. Qed.

Lemma tb_byte v i : 0 <= v < 256 -> 0 <= i -> Z.testbit v i = (i <? 8) && Z.testbit v i.
Proof.
  intros. rewrite <- testbit_mod_pow2 by lia. by rewrite Z.mod_small by (simpl; lia).
Qed.

Lemma tb_field n v i : 0 <= n -> 0 <= v < 2 ^ n -> Z.testbit v i = (i <? n) && Z.testbit v i.
Proof. intros. rewrite <- testbit_mod_pow2 by lia. by rewrite Z.mod_small by lia. Qed.

(** Reduce an equality of words to bits and decide the positions. *)
Ltac blast_spec :=
  repeat first
    [ rewrite Z.lor_spec | rewrite Z.land_spec | rewrite tb_u32
    | rewrite tb_shiftl by lia | rewrite Z.shiftr_spec by lia
    | rewrite Z.testbit_ones by lia | rewrite Z.bits_0 | rewrite Z.pow2_bits_eqb by lia ].
Ltac blast_cases :=
  rewrite ?Z.add_simpl_r, ?Z.sub_add;
  repeat match goal with
  | |- context [?a <? ?b] => destruct (Z.ltb_spec a b); try lia
  | |- context [?a <=? ?b] => destruct (Z.leb_spec a b); try lia
  | |- context [?a =? ?b] => destruct (Z.eqb_spec a b); try lia
  end;
  repeat match goal with |- context [Z.testbit ?a ?i] => destruct (Z.testbit a i) end; done.
Ltac blast := apply Z.bits_inj'; intros ? ?; blast_spec; blast_cases.

(** ** The compression string table *)

Lemma CST_mask_eq : 2147483903 = Z.lor (2 ^ 31) (Z.ones 8).
Proof. reflexivity. Qed.

Lemma CST_child_set x c : 0 <= c < 2 ^ 23 -> CST_GET_CHILD (CST_SET_CHILD x c) = c.
Proof.
  intros Hc. unfold CST_GET_CHILD, CST_SET_CHILD, CST_VALID_CODE_FLAG.
  rewrite CST_mask_eq. change (2 ^ 32 - 1 - 2147483648) with (Z.ones 31).
  apply Z.bits_inj'. intros i Hi. rewrite (tb_field 23 c i) by lia. blast_spec. blast_cases.
Qed.

Lemma CST_char_set_child x c : CST_GET_CHAR (CST_SET_CHILD x c) = CST_GET_CHAR x.
Proof.
  unfold CST_GET_CHAR, CST_SET_CHILD. rewrite CST_mask_eq. change 255 with (Z.ones 8). blast.
Qed.

Lemma CST_char_set x c : 0 <= c < 256 -> CST_GET_CHAR (CST_SET_CHAR x c) = c.
Proof.
  intros Hc. unfold CST_GET_CHAR, CST_SET_CHAR. change 255 with (Z.ones 8).
  change 4294967040 with (Z.shiftl (Z.ones 24) 8).
  apply Z.bits_inj'. intros i Hi. blast_spec. rewrite (tb_byte c i) by lia. blast_cases.
Qed.

Lemma CST_child_set_char x c : 0 <= c < 256 -> CST_GET_CHILD (CST_SET_CHAR x c) = CST_GET_CHILD x.
Proof.
  intros Hc. unfold CST_GET_CHILD, CST_SET_CHAR, CST_VALID_CODE_FLAG.
  change 4294967040 with (Z.shiftl (Z.ones 24) 8). change (2 ^ 32 - 1 - 2147483648) with (Z.ones 31).
  apply Z.bits_inj'. intros i Hi. blast_spec. rewrite (tb_byte c (i + 8)) by lia. blast_cases.
Qed.

(** ** Strings of up to three characters in an item *)

Lemma pack_chars_snoc s c :
  pack_chars (s ++ [c]) = Z.lor (u32 (Z.shiftl (pack_chars s) 8)) (u8 c).
Proof. unfold pack_chars. by rewrite foldl_app. Qed.

Lemma u8_byte c : is_byte c -> u8 c = c.
Proof. intros. apply Z.mod_small. unfold is_byte in *. simpl. lia. Qed.

Lemma pack_chars_bound s :
  Forall is_byte s -> (length s <= 3)%nat -> 0 <= pack_chars s < 2 ^ (8 * Z.of_nat (length s)).
Proof.
  induction s as [|c s IH] using rev_ind; intros Hb Hl; [split; [done|reflexivity]|].
  apply Forall_app in Hb as [Hs Hc%Forall_inv]. rewrite length_app in *. simpl in Hl.
  destruct IH as [H1 H2]; [done|lia|]. rewrite pack_chars_snoc, (u8_byte c Hc). unfold is_byte in Hc.
  assert (E : Z.lor (u32 (Z.shiftl (pack_chars s) 8)) c
    = (Z.lor (u32 (Z.shiftl (pack_chars s) 8)) c) mod 2 ^ (8 * Z.of_nat (length s + length [c]))).
  { apply Z.bits_inj'. intros i Hi. rewrite testbit_mod_pow2 by lia. blast_spec.
    rewrite (tb_byte c i) by lia.
    rewrite (tb_field (8 * Z.of_nat (length s)) (pack_chars s) (i - 8)) by lia. simpl length.
    blast_cases. }
  rewrite E. apply Z.mod_pos_bound. simpl length. lia.
Qed.

Lemma unpack_pack s v :
  Forall is_byte s -> (length s <= 3)%nat -> v = pack_chars s -> unpack_chars (length s) v = s.
Proof.
  revert v. induction s as [|c s IH] using rev_ind; intros v Hb Hl ->; [done|].
  apply Forall_app in Hb as [Hs Hc%Forall_inv]. rewrite length_app in *. simpl in Hl.
  pose proof (pack_chars_bound s Hs ltac:(lia)) as Hp.
  rewrite Nat.add_comm. cbn [length Nat.add unpack_chars]. rewrite pack_chars_snoc, (u8_byte c Hc). unfold is_byte in Hc.
  assert (Hp' : 0 <= pack_chars s < 2 ^ 24).
  { split; [lia|]. eapply Z.lt_le_trans; [apply Hp|]. apply Z.pow_le_mono_r; lia. }
  rewrite IH; [|done|lia|].
  - f_equal. f_equal. change 255 with (Z.ones 8). apply Z.bits_inj'. intros i Hi. blast_spec.
    rewrite (tb_byte c i) by lia. blast_cases.
  - apply Z.bits_inj'. intros i Hi. blast_spec.
    rewrite (tb_byte c (i + 8)) by lia. rewrite Z.add_simpl_r.
    rewrite (tb_field 24 (pack_chars s) i) by lia. blast_cases.
Qed.

(** The item of a short string. *)
Definition localItem (s : list Z) : Z :=
  Z.lor (Z.shiftl (Z.of_nat (length s)) 29) (pack_chars s).

Lemma local_cases (s : list Z) (P : nat -> Prop) :
  (1 <= length s <= 3)%nat -> P 1%nat -> P 2%nat -> P 3%nat -> P (length s).
Proof. destruct s as [|a [|b [|c [|d s]]]]; simpl; auto; lia. Qed.

Lemma setLocal_item s :
  Forall is_byte s -> (1 <= length s <= 3)%nat ->
  DST_SET_LOCAL_STR (DST_SET_LOCAL_LEN 0 (Z.of_nat (length s))) s (Z.of_nat (length s)) = localItem s.
Proof.
  intros Hb Hl. unfold DST_SET_LOCAL_STR, DST_SET_LOCAL_LEN, localItem, DST_LOCAL_LEN_SHIFT_NUM.
  rewrite Nat2Z.id, firstn_all, Z.lor_0_l. f_equal. by apply (local_cases s).
Qed.

(** The low bits of the item are the characters. *)
Lemma localItem_low s k :
  Forall is_byte s -> (1 <= length s <= 3)%nat -> k = 8 * Z.of_nat (length s) ->
  Z.land (localItem s) (Z.ones k) = pack_chars s.
Proof.
  intros Hb Hl ->. pose proof (pack_chars_bound s Hb ltac:(lia)) as Hp.
  unfold localItem. apply Z.bits_inj'. intros i Hi. blast_spec.
  rewrite (tb_field (8 * Z.of_nat (length s)) (pack_chars s) i) by lia. blast_cases.
Qed.

Lemma localItem_len s :
  Forall is_byte s -> (1 <= length s <= 3)%nat -> DST_GET_LOCAL_LEN (localItem s) = Z.of_nat (length s).
Proof.
  intros Hb Hl. pose proof (pack_chars_bound s Hb ltac:(lia)) as Hp.
  unfold DST_GET_LOCAL_LEN, localItem, DST_LOCAL_LEN_MASK, DST_LOCAL_LEN_SHIFT_NUM.
  change 1610612736 with (Z.shiftl (Z.ones 2) 29).
  assert (Hp' : 0 <= pack_chars s < 2 ^ 24).
  { split; [lia|]. eapply Z.lt_le_trans; [apply Hp|]. apply Z.pow_le_mono_r; lia. }
  apply Z.bits_inj'. intros i Hi. blast_spec. rewrite Z.add_simpl_r.
  rewrite (tb_field 24 (pack_chars s) (i + 29)) by lia.
  rewrite (tb_field 2 (Z.of_nat (length s)) i) by lia. blast_cases.
Qed.

Lemma localItem_str s :
  Forall is_byte s -> (1 <= length s <= 3)%nat -> DST_GET_LOCAL_STR (localItem s) = s.
Proof.
  intros Hb Hl. unfold DST_GET_LOCAL_STR. rewrite localItem_len, Nat2Z.id by done.
  apply unpack_pack; [done|lia|].
  rewrite <- (localItem_low s (8 * Z.of_nat (length s))) by done. f_equal.
  by apply (local_cases s).
Qed.

Lemma localItem_not_remote s :
  Forall is_byte s -> (1 <= length s <= 3)%nat ->
  DST_IS_REMOTE (localItem s) = false /\ localItem s <> 0.
Proof.
  intros Hb Hl. split.
  - unfold DST_IS_REMOTE, DST_REMOTE_FLAG, localItem. change 2147483648 with (2 ^ 31).
    pose proof (pack_chars_bound s Hb ltac:(lia)) as Hp.
    assert (Hp' : 0 <= pack_chars s < 2 ^ 24).
    { split; [lia|]. eapply Z.lt_le_trans; [apply Hp|]. apply Z.pow_le_mono_r; lia. }
    apply negb_false_iff, Z.eqb_eq. apply Z.bits_inj'. intros i Hi. blast_spec.
    rewrite (tb_field 24 (pack_chars s) i) by lia.
    rewrite (tb_field 2 (Z.of_nat (length s)) (i - 29)) by lia. blast_cases.
  - intros E. pose proof (localItem_len s Hb Hl) as H. rewrite E in H.
    change (DST_GET_LOCAL_LEN 0) with 0 in H. lia.
Qed.

(** ** Items that point into the string area *)

Lemma not_pos_mask : u32not DST_REMOTE_POS_MASK = Z.lor (Z.ones 8) (Z.shiftl (Z.ones 4) 28).
Proof. reflexivity. Qed.
Lemma not_len_mask : u32not DST_REMOTE_LEN_MASK = Z.shiftl (Z.ones 24) 8.
Proof. reflexivity. Qed.

Lemma remoteItem_bits link pos len i :
  0 <= pos < 2 ^ 20 -> 0 <= len < 2 ^ 8 -> 0 <= i ->
  Z.testbit (remoteItem 0 link pos len) i
  = Z.testbit len i || ((8 <=? i) && Z.testbit pos (i - 8)) || (link && (i =? 30)) || (i =? 31).
Proof.
  intros Hp Hl Hi. unfold remoteItem, DST_SET_REMOTE_LEN, DST_SET_REMOTE_POS, DST_SET_REMOTE_FLAG,
    DST_SET_LINK_FLAG, DST_REMOTE_FLAG, DST_LINK_FLAG, DST_REMOTE_POS_SHIFT_NUM.
  rewrite not_pos_mask, not_len_mask. change 2147483648 with (2 ^ 31). change 1073741824 with (2 ^ 30).
  rewrite (tb_field 20 pos (i - 8)) by lia. rewrite (tb_field 8 len i) by lia.
  destruct link; blast_spec; rewrite (tb_field 20 pos (i - 8)), (tb_field 8 len i) by lia; blast_cases.
Qed.

Lemma remoteItem_pos link pos len :
  0 <= pos < 2 ^ 20 -> 0 <= len < 2 ^ 8 -> DST_GET_REMOTE_POS (remoteItem 0 link pos len) = pos.
Proof.
  intros Hp Hl. unfold DST_GET_REMOTE_POS, DST_REMOTE_POS_MASK, DST_REMOTE_POS_SHIFT_NUM.
  change 268435200 with (Z.shiftl (Z.ones 20) 8).
  apply Z.bits_inj'. intros i Hi. blast_spec. rewrite remoteItem_bits by lia.
  rewrite (tb_field 8 len (i + 8)), Z.add_simpl_r, (tb_field 20 pos i) by lia. destruct link; blast_cases.
Qed.

Lemma remoteItem_len link pos len :
  0 <= pos < 2 ^ 20 -> 0 <= len < 2 ^ 8 -> DST_GET_REMOTE_LEN (remoteItem 0 link pos len) = len.
Proof.
  intros Hp Hl. unfold DST_GET_REMOTE_LEN, DST_REMOTE_LEN_MASK. change 255 with (Z.ones 8).
  apply Z.bits_inj'. intros i Hi. blast_spec. rewrite remoteItem_bits by lia.
  rewrite (tb_field 8 len i) by lia. destruct link; blast_cases.
Qed.

Lemma remoteItem_remote link pos len :
  0 <= pos < 2 ^ 20 -> 0 <= len < 2 ^ 8 ->
  DST_IS_REMOTE (remoteItem 0 link pos len) = true /\ remoteItem 0 link pos len <> 0.
Proof.
  intros Hp Hl. assert (H31 : Z.testbit (remoteItem 0 link pos len) 31 = true).
  { rewrite remoteItem_bits by lia. by rewrite orb_true_r. }
  split; [|intros E; by rewrite E in H31].
  unfold DST_IS_REMOTE, DST_REMOTE_FLAG. apply negb_true_iff, Z.eqb_neq. intros E.
  apply (f_equal (fun x => Z.testbit x 31)) in E. rewrite Z.land_spec, H31 in E. done.
Qed.

Lemma remoteItem_link link pos len :
  0 <= pos < 2 ^ 20 -> 0 <= len < 2 ^ 8 ->
  (Z.land (remoteItem 0 link pos len) DST_LINK_FLAG =? 0) = negb link.
Proof.
  intros Hp Hl. unfold DST_LINK_FLAG. change 1073741824 with (2 ^ 30).
  assert (E : Z.land (remoteItem 0 link pos len) (2 ^ 30) = if link then 2 ^ 30 else 0).
  { apply Z.bits_inj'. intros i Hi. destruct link; blast_spec; rewrite remoteItem_bits by lia;
      rewrite (tb_field 8 len i), (tb_field 20 pos (i - 8)) by lia; blast_cases. }
  rewrite E. by destruct link.
Qed.

(** The three bytes of a link hold a code below 2^24. *)
Lemma link_bytes c :
  0 <= c < 2 ^ 24 ->
  Z.lor (Z.lor (Z.shiftl (Z.shiftr (Z.land c 16711680) 16) 16)
           (Z.shiftl (Z.shiftr (Z.land c 65280) 8) 8)) (Z.land c 255) = c.
Proof.
  intros Hc. change 16711680 with (Z.shiftl (Z.ones 8) 16). change 65280 with (Z.shiftl (Z.ones 8) 8).
  change 255 with (Z.ones 8).
  apply Z.bits_inj'. intros i Hi. rewrite (tb_field 24 c i) by lia.
  rewrite !Z.lor_spec, !tb_shiftl, Z.land_spec, Z.testbit_ones by lia.
  destruct (Z.leb_spec 16 i), (Z.leb_spec 8 i); simpl;
    rewrite ?Z.shiftr_spec, ?Z.land_spec, ?tb_shiftl, ?Z.testbit_ones by lia;
    rewrite ?Z.sub_add; blast_cases.
Qed.
