(* ===== verification/LzwCst.v ===== *)
(** * The compression string table

    [finalize] numbers the kept nodes level by level: the children of an item
    are consecutive items and come in the order of their parents.  From the
    table [findStrExt] recovers, for a string, an item whose node spells a
    prefix of it. *)

From stdpp Require Import base gmap list option sorting.
From Stdlib Require Import ZArith Lia.
From S2P Require Import Prelude Mem LzwDict LzwCreate LzwBits LzwTrie LzwRank LzwItems.

Open Scope Z_scope.

(** ** Kept children *)

(** The nodes reached by [_next]. *)
Fixpoint brothers (fuel : nat) (b : lzwBuilder) (x : Z) : list Z :=
  match fuel with
  | O => []
  | S fuel' =>
      if x =? UTIL_INVALID_DICT_CODE then [] else x :: brothers fuel' b (_next (N b x))
  end.

Definition has_code (b : lzwBuilder) (k : Z) : Prop := _code (N b k) <> UTIL_INVALID_DICT_CODE.

#[global] Instance has_code_dec b k : Decision (has_code b k).
Proof. unfold has_code. apply _. Defined.

(** The children of node [i] that keep a code. *)
Definition kk (b : lzwBuilder) (i : Z) : list Z :=
  filter (has_code b) (brothers CHAIN_FUEL b (_first (N b i))).

Lemma seg_brothers b ks : forall fuel x,
  b_maxCode b < UTIL_INVALID_DICT_CODE -> seg b x ks UTIL_INVALID_DICT_CODE ->
  (length ks < fuel)%nat -> brothers fuel b x = ks.
Proof.
  induction ks as [|k ks IH]; intros [|fuel] x Hm Hs Hf; simpl in Hf; try lia; simpl in *.
  - subst. by rewrite Z.eqb_refl.
  - destruct Hs as (-> & Hk & Hs). destruct (Z.eqb_spec k UTIL_INVALID_DICT_CODE); [lia|].
    f_equal. apply IH; [done|done|lia].
Qed.

Lemma trie_max_small b : trie b -> b_maxCode b < UTIL_INVALID_DICT_CODE.
Proof.
  intros Ht. pose proof (t_max b Ht). rewrite (t_num b Ht) in *.
  unfold UTIL_INVALID_DICT_CODE, UTIL_MAX_DICT_BUILD_ITEM_NUM, UTIL_MAX_DICT_ITEM_NUM in *. lia.
Qed.

Lemma kk_kids b i ks : trie b -> kids b i ks -> kk b i = filter (has_code b) ks.
Proof.
  intros Ht Hk. unfold kk. rewrite (seg_brothers b ks); [done|by apply trie_max_small|apply Hk|].
  pose proof (kids_short b i ks Ht Hk). unfold CHAIN_FUEL. lia.
Qed.

Lemma kk_elem b i k :
  trie b -> 0 <= i <= b_maxCode b ->
  k ∈ kk b i <-> 256 <= k <= b_maxCode b /\ _prev (N b k) = i /\ has_code b k.
Proof.
  intros Ht Hi. destruct (t_kids b Ht i Hi) as [ks Hk]. rewrite (kk_kids b i ks Ht Hk).
  rewrite list_elem_of_filter, (k_elem _ _ _ Hk). tauto.
Qed.

Lemma kk_nodup b i : trie b -> 0 <= i <= b_maxCode b -> NoDup (kk b i).
Proof.
  intros Ht Hi. destruct (t_kids b Ht i Hi) as [ks Hk]. rewrite (kk_kids b i ks Ht Hk).
  apply NoDup_filter. pose proof (k_sorted _ _ _ Hk) as Hs. clear Hk.
  induction ks as [|k ks IH]; [constructor|]. unfold chars in Hs. simpl in Hs.
  apply StronglySorted_inv in Hs as [Hs Hall]. constructor; [|by apply IH].
  intros Hin. rewrite Forall_fmap, Forall_forall in Hall. specialize (Hall k Hin). simpl in Hall. lia.
Qed.

(** ** The table while it is filled *)

(** The first [length q] of [n] items are those of the nodes [q]. *)
Record table (n : nat) (b : lzwBuilder) (q : list Z) (g : grpState) : Prop := {
  tb_next : g_nextIdx g = Z.of_nat (length q);
  tb_size : (length q <= n)%nat;
  tb_cst : length (g_cst g) = n;
  tb_map : length (g_codeMap g) = n;
  tb_index : forall p i, q !! p = Some i -> g_indexMap g !! Z.of_nat p = Some i;
  tb_code : forall p i, q !! p = Some i -> g_codeMap g !! p = Some (_code (N b i));
  tb_char : forall p i, q !! p = Some i ->
    exists x, g_cst g !! p = Some x /\ CST_GET_CHAR x = _ch (N b i)
}.

(** The child field of item [p]. *)
Definition child (cst : list Z) (p : nat) : option Z := CST_GET_CHILD <$> cst !! p.

Lemma updItem_ok m (p : nat) f x :
  m !! p = Some x -> updItem m (Z.of_nat p) f = Some (<[p := f x]> m).
Proof.
  intros H. unfold updItem. rewrite rd_nat, H. cbn [mbind option_bind].
  apply lookup_lt_Some in H as Hl. rewrite wr_Some by lia. by rewrite Nat2Z.id.
Qed.

Lemma child_insert cst p q x :
  (p < length cst)%nat ->
  child (<[p := x]> cst) q = if decide (q = p) then Some (CST_GET_CHILD x) else child cst q.
Proof.
  intros Hp. unfold child. destruct (decide (q = p)) as [->|].
  - by rewrite list_lookup_insert_eq.
  - by rewrite list_lookup_insert_ne.
Qed.

(** A new item behind the last one. *)
Definition place (b : lzwBuilder) (i : Z) (q : list Z) (x : Z) (g : grpState) : grpState :=
  mkGrp (<[length q := CST_SET_CHAR x (_ch (N b i))]> (g_cst g))
        (<[length q := _code (N b i)]> (g_codeMap g))
        (<[Z.of_nat (length q) := i]> (g_indexMap g)) (g_nextIdx g + 1).

Lemma table_place n b q g i x :
  table n b q g -> (length q < n)%nat -> 0 <= _ch (N b i) < 256 -> g_cst g !! length q = Some x ->
  table n b (q ++ [i]) (place b i q x g) /\
  forall p, (p < length q)%nat -> child (g_cst (place b i q x g)) p = child (g_cst g) p.
Proof.
  intros [Hnx Hsz Hcst Hmap Hix Hcd Hch] Hlt Hc Hx. split.
  2: { intros p Hp. simpl. rewrite child_insert by lia. by destruct (decide _); [lia|]. }
  assert (Hcase : forall p j, (q ++ [i]) !! p = Some j -> (p < length q)%nat /\ q !! p = Some j \/ p = length q /\ j = i).
  { intros p j Hp. apply lookup_snoc_Some in Hp. naive_solver. }
  constructor; simpl.
  - rewrite length_app, Hnx. simpl. lia.
  - rewrite length_app. simpl. lia.
  - by rewrite length_insert.
  - by rewrite length_insert.
  - intros p j [[Hp Hq]|[-> ->]]%Hcase; [rewrite lookup_insert_ne by lia; auto|by rewrite lookup_insert_eq].
  - intros p j [[Hp Hq]|[-> ->]]%Hcase; [rewrite list_lookup_insert_ne by lia; auto|].
    by rewrite list_lookup_insert_eq by lia.
  - intros p j [[Hp Hq]|[-> ->]]%Hcase; [rewrite list_lookup_insert_ne by lia; auto|].
    rewrite list_lookup_insert_eq by lia. eexists. split; [done|]. by apply CST_char_set.
Qed.

(** Setting the child field of an item keeps the rest of the table. *)
Definition set_child (p : nat) (c x : Z) (g : grpState) : grpState :=
  mkGrp (<[p := CST_SET_CHILD x c]> (g_cst g)) (g_codeMap g) (g_indexMap g) (g_nextIdx g).

Lemma table_set_child n b q g p c x :
  table n b q g -> g_cst g !! p = Some x -> 0 <= c < 2 ^ 23 ->
  table n b q (set_child p c x g) /\
  forall p', child (g_cst (set_child p c x g)) p' = if decide (p' = p) then Some c else child (g_cst g) p'.
Proof.
  intros [Hnx Hsz Hcst Hmap Hix Hcd Hch] Hx Hc. apply lookup_lt_Some in Hx as Hl. split.
  - constructor; simpl; try done.
    + by rewrite length_insert.
    + intros p' i Hp'. destruct (Hch p' i Hp') as (y & Hy & Hyc). destruct (decide (p' = p)) as [->|].
      * rewrite list_lookup_insert_eq by lia. eexists. split; [done|].
        rewrite CST_char_set_child. congruence.
      * rewrite list_lookup_insert_ne by done. eauto.
  - intros p'. simpl. rewrite child_insert by lia. by rewrite CST_child_set.
Qed.

(** The brothers from [x] on: the kept ones become the next items, and the
    first of them the child of the parent's item unless it has one. *)
Lemma formatGrp_loop_ok n b (parent : nat) nextPos :
  trie b -> 0 <= nextPos < 2 ^ 23 -> forall ks fuel x posSet q g,
  seg b x ks UTIL_INVALID_DICT_CODE -> ks <> [] -> (length ks <= fuel)%nat ->
  table n b q g -> (length q + length (filter (has_code b) ks) <= n)%nat -> (parent < length q)%nat ->
  exists g', formatGrp_loop fuel b (Z.of_nat parent) nextPos x posSet g
      = Some (g', posSet || bool_decide (filter (has_code b) ks <> [])) /\
    table n b (q ++ filter (has_code b) ks) g' /\
    forall p, (p < length q)%nat -> child (g_cst g') p
      = if decide (p = parent /\ posSet = false /\ filter (has_code b) ks <> [])
        then Some nextPos else child (g_cst g) p.
Proof.
  intros Ht Hnp. induction ks as [|k ks IH]; intros fuel x posSet q g Hseg Hne Hf Htb Hsz Hpar; [done|].
  destruct fuel as [|fuel]; [simpl in Hf; lia|].
  simpl in Hseg. destruct Hseg as (-> & Hk & Hseg). cbn [formatGrp_loop].
  rewrite trie_in_range by done. cbn [mbind option_bind].
  (* the rest of the chain, once this node is dealt with *)
  assert (Hrest : forall q1 g1 ps, table n b q1 g1 ->
    (length q1 + length (filter (has_code b) ks) <= n)%nat -> (parent < length q1)%nat ->
    exists g', (if UTIL_INVALID_DICT_CODE =? _next (N b k) then Some (g1, ps)
       else formatGrp_loop fuel b (Z.of_nat parent) nextPos (_next (N b k)) ps g1)
      = Some (g', ps || bool_decide (filter (has_code b) ks <> [])) /\
    table n b (q1 ++ filter (has_code b) ks) g' /\
    forall p, (p < length q1)%nat -> child (g_cst g') p
      = if decide (p = parent /\ ps = false /\ filter (has_code b) ks <> [])
        then Some nextPos else child (g_cst g1) p).
  { intros q1 g1 ps Htb1 Hsz1 Hpar1. destruct ks as [|k2 ks].
    - simpl in Hseg. rewrite Hseg, Z.eqb_refl. exists g1. rewrite orb_false_r, app_nil_r.
      split_and!; try done. intros p _. destruct (decide _) as [(_ & _ & ?)|]; done.
    - destruct (Z.eqb_spec UTIL_INVALID_DICT_CODE (_next (N b k))) as [E|_].
      { destruct Hseg as (E' & Hk2 & _). pose proof (trie_max_small b Ht). lia. }
      apply IH; try done. simpl in *. lia. }
  destruct (decide (has_code b k)) as [Hc|Hc].
  - rewrite filter_cons_True in Hsz |- * by done. simpl length in Hsz.
    destruct (Z.eqb_spec UTIL_INVALID_DICT_CODE (_code (N b k))); [by unfold has_code in Hc; lia|].
    destruct (lookup_lt_is_Some_2 (g_cst g) (length q)) as [x0 Hx0].
    { rewrite (tb_cst _ _ _ _ Htb). lia. }
    destruct (table_place n b q g k x0 Htb) as [Htb1 Hch1]; [lia|by apply trie_ch|done|].
    rewrite (tb_next _ _ _ _ Htb).
    rewrite (updItem_ok _ _ _ x0) by done. cbn [mbind option_bind].
    rewrite wr_Some by (rewrite (tb_map _ _ _ _ Htb); lia). cbn [mbind option_bind].
    rewrite Nat2Z.id.
    set (g1 := place b k q x0 g) in *.
    assert (Hl1 : length (q ++ [k]) = S (length q)) by (rewrite length_app; simpl; lia).
    destruct posSet.
    + cbn [mbind option_bind].
      destruct (Hrest (q ++ [k]) g1 true Htb1) as (g' & E & Htb' & Hch'); [lia|lia|].
      unfold g1, place in E. rewrite (tb_next _ _ _ _ Htb) in E. rewrite E.
      exists g'. rewrite (bool_decide_eq_true_2 (_ :: _ <> [])) by done. split_and!; [done| |].
      * by rewrite <- app_assoc in Htb'.
      * intros p Hp. rewrite Hch', Hch1 by lia.
        destruct (decide _) as [(_ & ? & _)|], (decide _) as [(_ & ? & _)|]; done.
    + destruct (tb_char _ _ _ _ Htb1 parent (default 0 (q !! parent))) as (y & Hy & _).
      { rewrite lookup_app_l by done. destruct (lookup_lt_is_Some_2 q parent Hpar) as [z ->]. done. }
      unfold g1, place in Hy. simpl in Hy. rewrite (updItem_ok _ _ _ y) by done. cbn [mbind option_bind].
      destruct (table_set_child n b _ g1 parent nextPos y Htb1 Hy Hnp) as [Htb2 Hch2].
      destruct (Hrest (q ++ [k]) (set_child parent nextPos y g1) true Htb2) as (g' & E & Htb' & Hch');
        [lia|lia|].
      unfold set_child, g1, place in E. cbn [g_cst g_codeMap g_indexMap g_nextIdx] in E. rewrite (tb_next _ _ _ _ Htb) in E. rewrite E.
      exists g'. rewrite (bool_decide_eq_true_2 (_ :: _ <> [])) by done. split_and!; [done| |].
      * by rewrite <- app_assoc in Htb'.
      * intros p Hp. rewrite Hch', Hch2 by lia.
        destruct (decide _) as [(_ & ? & _)|]; [done|].
        destruct (decide (p = parent)) as [->|], (decide _) as [Hd|Hd]; try done; try naive_solver.
  - rewrite filter_cons_False in Hsz |- * by done.
    destruct (Z.eqb_spec UTIL_INVALID_DICT_CODE (_code (N b k))) as [_|E]; [|by destruct Hc; unfold has_code; lia].
    cbn [mbind option_bind]. by apply Hrest.
Qed.

Lemma setNoChild_ok n b q g p :
  table n b q g -> (p < length q)%nat ->
  exists g', setNoChild (Z.of_nat p) g = Some g' /\ table n b q g' /\
    forall p', child (g_cst g') p' = if decide (p' = p) then Some CST_INVALID_CHILD else child (g_cst g) p'.
Proof.
  intros Htb Hp. destruct (lookup_lt_is_Some_2 (g_cst g) p) as [x Hx].
  { rewrite (tb_cst _ _ _ _ Htb). pose proof (tb_size _ _ _ _ Htb). lia. }
  unfold setNoChild. rewrite (updItem_ok _ _ _ x) by done. cbn [mbind option_bind].
  eexists. split; [done|]. apply (table_set_child n b q g p CST_INVALID_CHILD x Htb Hx).
  unfold CST_INVALID_CHILD. lia.
Qed.

(** The whole group of an item. *)
Lemma formatOneGrp_ok n b q g (index : nat) i :
  trie b -> Z.of_nat n < 2 ^ 20 -> table n b q g -> q !! index = Some i -> 0 <= i <= b_maxCode b ->
  (length q + length (kk b i) <= n)%nat ->
  exists g', _formatOneGrp b (Z.of_nat index) g = Some g' /\ table n b (q ++ kk b i) g' /\
    forall p, (p < length q)%nat -> child (g_cst g') p
      = if decide (p = index)
        then Some (if decide (kk b i = []) then CST_INVALID_CHILD else Z.of_nat (length q))
        else child (g_cst g) p.
Proof.
  intros Ht Hn Htb Hq Hi Hsz. unfold _formatOneGrp.
  rewrite (tb_index _ _ _ _ Htb _ _ Hq). cbn [default from_option]. unfold id.
  rewrite trie_in_range by done. cbn [mbind option_bind].
  destruct (t_kids b Ht i Hi) as [ks Hk]. pose proof (kk_kids b i ks Ht Hk) as Ekk.
  pose proof (k_chain _ _ _ Hk) as Hseg. apply lookup_lt_Some in Hq as Hlt.
  pose proof (trie_max_small b Ht) as Hmax. pose proof (tb_size _ _ _ _ Htb) as Hqn.
  destruct (Z.eqb_spec UTIL_INVALID_DICT_CODE (_first (N b i))) as [E|E].
  - assert (ks = []) as ->.
    { destruct ks as [|k ks]; [done|]. destruct Hseg as (E' & ? & _). lia. }
    rewrite Ekk. rewrite app_nil_r. destruct (setNoChild_ok n b q g index Htb Hlt) as (g' & -> & Htb' & Hch).
    exists g'. split_and!; [done|done|]. intros p _. rewrite Hch. by destruct (decide (p = index)).
  - destruct (formatGrp_loop_ok n b index (g_nextIdx g) Ht) with (ks := ks) (fuel := CHAIN_FUEL)
      (x := _first (N b i)) (posSet := false) (q := q) (g := g) as (g1 & -> & Htb1 & Hch1); try done.
    { rewrite (tb_next _ _ _ _ Htb). lia. }
    { intros ->. simpl in Hseg. lia. }
    { pose proof (kids_short b i ks Ht Hk). unfold CHAIN_FUEL. lia. }
    { by rewrite <- Ekk. }
    cbn [mbind option_bind orb]. rewrite <- Ekk in *. destruct (decide (kk b i = [])) as [E0|E0].
    + rewrite bool_decide_eq_false_2 by (by intros ?). rewrite E0 in *. rewrite app_nil_r in *.
      destruct (setNoChild_ok n b q g1 index Htb1 Hlt) as (g' & -> & Htb' & Hch).
      exists g'. split_and!; [done|done|]. intros p Hp. rewrite Hch, Hch1 by done.
      destruct (decide (p = index)); [done|]. by destruct (decide _) as [(? & _)|].
    + rewrite bool_decide_eq_true_2 by done. exists g1. split_and!; [done|done|].
      intros p Hp. rewrite Hch1 by done. rewrite (tb_next _ _ _ _ Htb).
      destruct (decide (p = index)), (decide _); try done; naive_solver.
Qed.

(** ** Level by level *)

Section bfs.
Context (b : lzwBuilder) (kept : list Z) (Hr : ranked b kept).
Let n := length kept.
Let Ht : trie b := rk_trie b kept Hr.

Lemma kept_has_code i : i ∈ kept <-> has_code b i.
Proof using Hr.
  unfold has_code. split.
  - intros [p Hp]%list_elem_of_lookup. rewrite (rk_code _ _ Hr p i Hp).
    apply lookup_lt_Some in Hp. pose proof (rk_size _ _ Hr).
    unfold UTIL_INVALID_DICT_CODE, UTIL_MAX_DICT_ITEM_NUM in *. lia.
  - intros H. destruct (decide (i ∈ kept)); [done|]. by destruct H; apply (rk_none _ _ Hr).
Qed.

(** Where the children of the [p]-th item of [q] start. *)
Definition start (q : list Z) (p : nat) : nat := 256 + length (mjoin (kk b <$> take p q)).

(** The groups of the first [index] items of [q] are in place. *)
Record bfs (q : list Z) (index : nat) (g : grpState) : Prop := {
  bf_table : table n b q g;
  bf_index : (index <= length q)%nat;
  bf_queue : q = seqZ 0 256 ++ mjoin (kk b <$> take index q);
  bf_nodup : NoDup q;
  bf_kept : forall i, i ∈ q -> i ∈ kept;
  bf_child : forall p i, (p < index)%nat -> q !! p = Some i ->
    (p < start q p)%nat /\
    child (g_cst g) p = Some (if decide (kk b i = []) then CST_INVALID_CHILD else Z.of_nat (start q p))
}.

Lemma in_queue q k : 256 <= k -> k ∈ seqZ 0 256 ++ mjoin (kk b <$> q) -> exists j, j ∈ q /\ k ∈ kk b j.
Proof.
  intros Hk [Hs%elem_of_seqZ|Hj]%elem_of_app; [lia|].
  apply list_elem_of_join in Hj as (l & Hl & Hin). apply list_elem_of_fmap in Hin as (j & -> & Hj). eauto.
Qed.

Lemma bfs_next_nodup q index g i :
  bfs q index g -> q !! index = Some i -> NoDup (q ++ kk b i) /\ forall k, k ∈ q ++ kk b i -> k ∈ kept.
Proof using Hr.
  intros Hb Hi. assert (Hir : 0 <= i <= b_maxCode b).
  { apply (rk_range _ _ Hr), (bf_kept _ _ _ Hb). by eapply list_elem_of_lookup_2. }
  split.
  - apply NoDup_app. split_and!; [apply Hb| |by apply kk_nodup].
    intros k Hk Hkk. apply kk_elem in Hkk as (Hk1 & Hk2 & _); [|done|done].
    rewrite (bf_queue _ _ _ Hb) in Hk. apply in_queue in Hk as (j & Hj & Hkj); [|lia].
    assert (Hjr : 0 <= j <= b_maxCode b).
    { apply (rk_range _ _ Hr), (bf_kept _ _ _ Hb). apply elem_of_take in Hj as (p & Hp & _).
      by eapply list_elem_of_lookup_2. }
    apply kk_elem in Hkj as (_ & Hk3 & _); [|done|done]. rewrite Hk2 in Hk3. subst j.
    apply list_elem_of_lookup in Hj as [p Hp]. rewrite lookup_take_Some in Hp. destruct Hp as [Hp Hlt].
    pose proof (NoDup_lookup _ _ _ _ (bf_nodup _ _ _ Hb) Hp Hi). lia.
  - intros k [Hk|Hk]%elem_of_app; [by apply (bf_kept _ _ _ Hb)|].
    apply kept_has_code. by apply (kk_elem b i k Ht Hir).
Qed.

Lemma bfs_step q index g :
  bfs q index g -> (index < length q)%nat ->
  exists i g', q !! index = Some i /\ _formatOneGrp b (Z.of_nat index) g = Some g' /\
    bfs (q ++ kk b i) (S index) g'.
Proof using Hr.
  intros Hb Hlt. destruct (lookup_lt_is_Some_2 q index Hlt) as [i Hi]. exists i.
  destruct (bfs_next_nodup q index g i Hb Hi) as [Hnd Hkept].
  assert (Hir : 0 <= i <= b_maxCode b).
  { apply (rk_range _ _ Hr), Hkept, elem_of_app. left. by eapply list_elem_of_lookup_2. }
  assert (Hsz : (length (q ++ kk b i) <= n)%nat) by by apply submseteq_length, NoDup_submseteq.
  rewrite length_app in Hsz. destruct Hb as [Htb Hix Hq _ _ Hch].
  destruct (formatOneGrp_ok n b q g index i Ht) as (g' & E & Htb' & Hch'); try done.
  { pose proof (rk_size _ _ Hr). unfold UTIL_MAX_DICT_ITEM_NUM in *. unfold n. lia. }
  exists g'. split_and!; [done|done|].
  assert (Hstart : forall p, (p <= length q)%nat -> start (q ++ kk b i) p = start q p).
  { intros p Hp. unfold start. by rewrite take_app_le by lia. }
  constructor; try done.
  - rewrite length_app. lia.
  - rewrite take_app_le by lia. rewrite (take_S_r q index i) by done.
    rewrite fmap_app, join_app, app_assoc, <- Hq.
    cbn [fmap list_fmap mjoin list_join]. by rewrite app_nil_r.
  - intros p j Hp Hj. rewrite Hstart by lia. rewrite Hch' by lia.
    rewrite lookup_app_l in Hj by lia. destruct (decide (p = index)) as [->|].
    + assert (Hs : start q index = length q).
      { unfold start. rewrite Hq at 2. rewrite length_app, length_seqZ. done. }
      rewrite Hs. assert (j = i) as -> by congruence. split; [lia|done].
    + apply Hch; [lia|done].
Qed.

(** The loop over the items ends with every kept node in the table. *)
Lemma formatGrps_ok : forall fuel q index g,
  bfs q index g -> (n < index + fuel)%nat ->
  exists q' g', formatGrps fuel b (Z.of_nat index) g = Some g' /\ bfs q' (length q') g'.
Proof using Hr.
  induction fuel as [|fuel IH]; intros q index g Hb Hf.
  - pose proof (bf_index _ _ _ Hb). pose proof (tb_size _ _ _ _ (bf_table _ _ _ Hb)). lia.
  - cbn [formatGrps]. rewrite (tb_next _ _ _ _ (bf_table _ _ _ Hb)).
    destruct (Z.ltb_spec (Z.of_nat index) (Z.of_nat (length q))) as [Hlt|Hge].
    + destruct (bfs_step q index g Hb) as (i & g1 & _ & -> & Hb1); [lia|]. cbn [mbind option_bind].
      replace (Z.of_nat index + 1) with (Z.of_nat (S index)) by lia. apply (IH _ _ _ Hb1). lia.
    + exists q, g. split; [done|]. pose proof (bf_index _ _ _ Hb).
      replace (length q) with index by lia. done.
Qed.

Lemma bfs_complete q g : bfs q (length q) g -> forall i, i ∈ kept -> i ∈ q.
Proof using Hr.
  intros Hb i Hi. pose proof (rk_range _ _ Hr i Hi) as Hir. revert i Hir Hi.
  apply (trie_ind_prev b (fun i => i ∈ kept -> i ∈ q) Ht).
  - intros i Hi _. rewrite (bf_queue _ _ _ Hb). apply elem_of_app. left. apply elem_of_seqZ. lia.
  - intros i Hi IH Hk. specialize (IH (rk_prev _ _ Hr i Hk ltac:(lia))).
    rewrite (bf_queue _ _ _ Hb), firstn_all. apply elem_of_app. right.
    apply list_elem_of_join. exists (kk b (_prev (N b i))). split; [|apply list_elem_of_fmap; eauto].
    pose proof (t_inner b Ht i Hi) as [Hp _].
    apply kk_elem; [done|lia|]. split_and!; try done; try lia. by apply kept_has_code.
Qed.

Lemma bfs_length q g : bfs q (length q) g -> length q = n.
Proof using Hr.
  intros Hb. apply Nat.le_antisymm; [apply Hb|].
  apply submseteq_length, NoDup_submseteq; [apply Hr|]. by eapply bfs_complete.
Qed.

(** ** The roots *)

Definition with_next (g : grpState) (k : Z) : grpState :=
  mkGrp (g_cst g) (g_codeMap g) (g_indexMap g) k.

Lemma formatRoots_ok : forall (m c : nat) g,
  (c + m = 256)%nat -> table n b (seqZ 0 (Z.of_nat c)) (with_next g (Z.of_nat c)) ->
  exists g', formatRoots m b (Z.of_nat c) g = Some g' /\ g_nextIdx g' = g_nextIdx g /\
    table n b (seqZ 0 256) (with_next g' 256).
Proof using Hr.
  pose proof (rk_size _ _ Hr) as Hsz. pose proof (t_max b Ht) as Hm. fold n in Hsz.
  induction m as [|m IH]; intros c g Hc Htb.
  - exists g. replace c with 256%nat in Htb by lia. done.
  - cbn [formatRoots]. rewrite trie_in_range by (done || lia). cbn [mbind option_bind].
    assert (Hl : length (seqZ 0 (Z.of_nat c)) = c) by (rewrite length_seqZ; lia).
    destruct (lookup_lt_is_Some_2 (g_cst g) c) as [x Hx].
    { pose proof (tb_cst _ _ _ _ Htb) as H. simpl in H. rewrite H. lia. }
    rewrite (updItem_ok _ _ _ x) by done. cbn [mbind option_bind].
    pose proof (tb_map _ _ _ _ Htb) as Hmap. simpl in Hmap.
    rewrite wr_Some by lia. cbn [mbind option_bind].
    destruct (t_root b Ht (Z.of_nat c)) as (_ & _ & Hch); [lia|].
    destruct (table_place n b _ _ (Z.of_nat c) x Htb) as [Htb1 _]; [lia|rewrite Hch; lia| |].
    { rewrite Hl. done. }
    unfold place in Htb1. rewrite Hl in Htb1. rewrite Nat2Z.id.
    replace (Z.of_nat c + 1) with (Z.of_nat (S c)) by lia.
    destruct (IH (S c) (mkGrp (<[c := CST_SET_CHAR x (_ch (N b (Z.of_nat c)))]> (g_cst g))
      (<[c := _code (N b (Z.of_nat c))]> (g_codeMap g))
      (<[Z.of_nat c := Z.of_nat c]> (g_indexMap g)) (g_nextIdx g))) as (g' & E & Hn & Htb'); [lia| |].
    { rewrite seqZ_S. simpl in Htb1. unfold with_next. simpl.
      replace (Z.of_nat (S c)) with (Z.of_nat c + 1) by lia. done. }
    exists g'. done.
Qed.
End bfs.

(** ** Binary search in the table *)

Lemma cstBinSearch_ok cst ch : forall fuel low high,
  1 <= low -> high < Z.of_nat (length cst) -> Z.of_nat (length cst) < 2 ^ 30 -> low <= high + 1 ->
  high - low + 1 < 2 ^ Z.of_nat fuel ->
  exists r, cstBinSearch_loop (S fuel) cst low high ch = Some r /\
    (r = CST_INVALID_CHILD \/ low <= r <= high /\ exists x, rd cst r = Some x /\ CST_GET_CHAR x = ch).
Proof.
  induction fuel as [|fuel IH]; intros low high Hl Hh Hn Hlh Hf.
  - simpl in Hf. cbn [cstBinSearch_loop]. destruct (Z.leb_spec low high); [lia|]. eauto.
  - remember (S fuel) as f eqn:Ef. cbn [cstBinSearch_loop].
    destruct (Z.leb_spec low high) as [Hle|]; [|eauto].
    rewrite (u32_small (low + high)) by lia.
    assert (Hmid : low <= (low + high) / 2 <= high).
    { split; [apply Z.div_le_lower_bound; lia|apply Z.div_le_upper_bound; lia]. }
    assert (Hmid2 : high - low - 1 <= 2 * ((low + high) / 2 - low) <= high - low).
    { pose proof (Z.div_mod (low + high) 2). pose proof (Z.mod_pos_bound (low + high) 2). lia. }
    set (mid := (low + high) / 2) in *.
    destruct (rd_is_Some cst mid) as [x Hx]; [lia|]. rewrite Hx. cbn [mbind option_bind].
    assert (Hp : 2 ^ Z.of_nat f = 2 * 2 ^ Z.of_nat fuel).
    { rewrite Ef, Nat2Z.inj_succ, Z.pow_succ_r by lia. done. }
    destruct (Z.eqb_spec (CST_GET_CHAR x) ch) as [E|_].
    + exists mid. split; [done|]. right. split; [lia|]. eauto.
    + rewrite !u32_small by lia. destruct (CST_GET_CHAR x <? ch).
      * destruct (IH (mid + 1) high) as (r & E & Hr); try lia. exists r. split; [done|].
        destruct Hr as [?|[? ?]]; [by left|right]. split; [lia|done].
      * destruct (IH low (mid - 1)) as (r & E & Hr); try lia. exists r. split; [done|].
        destruct Hr as [?|[? ?]]; [by left|right]. split; [lia|done].
Qed.

(** Used instead of reduction where the continuation is costly to unfold. *)
Lemma bind_Some {A B} (x : A) (f : A -> option B) : (Some x ≫= f) = f x.
Proof. reflexivity. Qed.

(** ** Searching the finished table *)

Section search.
Context (b : lzwBuilder) (kept : list Z) (Hr : ranked b kept).
Context (q : list Z) (g : grpState) (Hb : bfs b kept q (length q) g).
Let n := length kept.
Let Ht : trie b := rk_trie b kept Hr.
Let st := start b q.

Lemma queue_eq : q = seqZ 0 256 ++ mjoin (kk b <$> q).
Proof using Hb. rewrite (bf_queue _ _ _ _ _ Hb) at 1. by rewrite firstn_all. Qed.

Lemma q_length : length q = n.
Proof using Hr Hb. by apply (bfs_length b kept Hr q g). Qed.

Lemma start_S p i : q !! p = Some i -> st (S p) = (st p + length (kk b i))%nat.
Proof.
  intros Hi. unfold st, start. rewrite (take_S_r q p i) by done.
  rewrite fmap_app, join_app, length_app. cbn [fmap list_fmap mjoin list_join].
  rewrite app_nil_r. lia.
Qed.

Lemma start_end : st n = n.
Proof using Hr Hb.
  unfold st, start. rewrite <- q_length, firstn_all. rewrite queue_eq at 2.
  rewrite length_app, length_seqZ. done.
Qed.

(** The items of a group are the kept children. *)
Lemma group_lookup p i r :
  q !! p = Some i -> (st p <= r < st (S p))%nat -> exists k, q !! r = Some k /\ k ∈ kk b i.
Proof using Hb.
  intros Hi Hrr. rewrite (start_S p i Hi) in Hrr. unfold st, start in Hrr.
  destruct (lookup_lt_is_Some_2 (kk b i) (r - st p)) as [k Hk]; [unfold st, start; lia|].
  exists k. split; [|by eapply list_elem_of_lookup_2].
  rewrite queue_eq. rewrite <- (take_drop_middle q p i Hi), fmap_app, join_app.
  cbn [fmap list_fmap mjoin list_join].
  rewrite lookup_app_r by (rewrite length_seqZ; lia). rewrite length_seqZ.
  change (Z.to_nat 256) with 256%nat.
  rewrite lookup_app_r by lia. unfold st, start in Hk.
  rewrite lookup_app_l by lia. rewrite <- Hk. f_equal. lia.
Qed.

(** What the table says of an item. *)
Lemma item_ok p i :
  q !! p = Some i -> exists x, rd (g_cst g) (Z.of_nat p) = Some x /\ CST_GET_CHAR x = _ch (N b i) /\
    CST_GET_CHILD x = (if decide (kk b i = []) then CST_INVALID_CHILD else Z.of_nat (st p)) /\
    (p < st p)%nat.
Proof using Hb.
  intros Hi. apply lookup_lt_Some in Hi as Hlt.
  destruct (tb_char _ _ _ _ (bf_table _ _ _ _ _ Hb) p i Hi) as (x & Hx & Hc).
  destruct (bf_child _ _ _ _ _ Hb p i Hlt Hi) as [Hs Hch]. unfold child in Hch.
  rewrite Hx in Hch. injection Hch as Hch. exists x. rewrite rd_nat. auto.
Qed.

Lemma start_le p : (st p <= n)%nat.
Proof using Hr Hb.
  rewrite <- q_length. pose proof (f_equal length queue_eq) as Hq.
  rewrite length_app, length_seqZ in Hq. unfold st, start.
  rewrite <- (take_drop p q) in Hq at 2. rewrite fmap_app, join_app, length_app in Hq. lia.
Qed.

(** Looking for the end of a group: past items without children. *)
Lemma nextGroup_ok p : forall fuel idx,
  (idx < n)%nat -> st idx = st (S p) -> (n <= idx + fuel)%nat ->
  exists r, nextGroup fuel (g_cst g) (Z.of_nat n - 1) (Z.of_nat idx) CST_INVALID_CHILD = Some r /\
    (if CST_INVALID_CHILD =? r then Z.of_nat n - 1 else r - 1) = Z.of_nat (st (S p)) - 1.
Proof using Hr Hb.
  pose proof (rk_size _ _ Hr) as Hsz. fold n in Hsz. unfold UTIL_MAX_DICT_ITEM_NUM in Hsz.
  induction fuel as [|fuel IH]; intros idx Hidx Hst Hf; [lia|]. cbn [nextGroup].
  destruct (lookup_lt_is_Some_2 q idx) as [i Hi]; [rewrite q_length; lia|].
  destruct (item_ok idx i Hi) as (x & Hx & _ & Hch & Hs).
  pose proof (start_le idx) as Hle. pose proof (start_S idx i Hi) as HS.
  destruct (Z.ltb_spec (Z.of_nat idx) (Z.of_nat n - 1)) as [Hlt|Hge].
  - rewrite Hx. cbn [mbind option_bind]. rewrite Hch. destruct (decide (kk b i = [])) as [E|E].
    + rewrite Z.eqb_refl. rewrite E in HS. cbn [length] in HS.
      replace (Z.of_nat idx + 1) with (Z.of_nat (S idx)) by lia. apply IH; lia.
    + destruct (Z.eqb_spec CST_INVALID_CHILD (Z.of_nat (st idx))) as [E'|_];
        [unfold CST_INVALID_CHILD in E'; lia|].
      eexists. split; [done|]. rewrite Hst in *.
      destruct (Z.eqb_spec CST_INVALID_CHILD (Z.of_nat (st (S p)))) as [E'|_]; [|done].
      unfold CST_INVALID_CHILD in E'. lia.
  - eexists. split; [done|]. rewrite Z.eqb_refl. lia.
Qed.

(** The search for a child among the items of its group. *)
Lemma searchChild_ok d p i ch next :
  _cst d = g_cst g -> q !! p = Some i -> kk b i <> [] ->
  (if CST_INVALID_CHILD =? next then Z.of_nat n - 1 else next - 1) = Z.of_nat (st (S p)) - 1 ->
  exists r, cstBinSearch d (Z.of_nat (st p))
      (if CST_INVALID_CHILD =? next then Z.of_nat n - 1 else next - 1) ch = Some r /\
    (r = CST_INVALID_CHILD \/
     exists r' k, r = Z.of_nat r' /\ q !! r' = Some k /\ k ∈ kk b i /\ _ch (N b k) = ch).
Proof using Hr Hb.
  intros Hcst Hi Hne ->. pose proof (rk_size _ _ Hr) as Hsz. fold n in Hsz.
  unfold UTIL_MAX_DICT_ITEM_NUM in Hsz. pose proof (start_S p i Hi) as HS.
  pose proof (start_le (S p)) as HleS. destruct (item_ok p i Hi) as (_ & _ & _ & _ & Hst).
  assert (0 < length (kk b i))%nat by (destruct (kk b i); [done|simpl; lia]).
  unfold cstBinSearch. rewrite Hcst.
  pose proof (tb_cst _ _ _ _ (bf_table _ _ _ _ _ Hb)) as Hl. fold n in Hl.
  destruct (cstBinSearch_ok (g_cst g) ch 32 (Z.of_nat (st p)) (Z.of_nat (st (S p)) - 1))
    as (r & E & Hres); [lia|lia|lia|lia|simpl; lia|].
  exists r. split; [exact E|]. destruct Hres as [->|(Hr' & y & Hy & Hyc)]; [by left|right].
  exists (Z.to_nat r). destruct (group_lookup p i (Z.to_nat r) Hi) as (k & Hk & Hkk); [lia|].
  destruct (item_ok (Z.to_nat r) k Hk) as (y' & Hy' & Hyc' & _).
  rewrite Z2Nat.id in Hy' by lia. exists k. split_and!; [lia|done|done|congruence].
Qed.

(** Walking down the table: the item reached spells what was matched. *)
Lemma findIdx_loop_ok d str (length : Z) :
  _cst d = g_cst g -> Forall is_byte str -> length <= Z.of_nat (List.length str) ->
  forall fuel (p curPos : nat) i s,
  q !! p = Some i -> names b i s -> s = take curPos str -> List.length s = curPos ->
  (1 <= curPos)%nat -> length - Z.of_nat curPos < Z.of_nat fuel ->
  Z.of_nat curPos <= length ->
  exists (p' m : nat) i', findIdx_loop fuel d (Z.of_nat n - 1) str length (Z.of_nat p) (Z.of_nat curPos)
      = Some (Z.of_nat p', Z.of_nat m) /\
    q !! p' = Some i' /\ names b i' (take m str) /\ (1 <= m)%nat /\ Z.of_nat m <= length.
Proof using Hr Hb.
  intros Hcst Hby Hlen. pose proof (rk_size _ _ Hr) as Hsz. fold n in Hsz.
  unfold UTIL_MAX_DICT_ITEM_NUM in Hsz.
  induction fuel as [|fuel IH]; intros p curPos i s Hi Hs Es Hl H1 Hf Hcl; [lia|].
  assert (Hstop : exists (p' m : nat) i', Some (Z.of_nat p, Z.of_nat curPos) = Some (Z.of_nat p', Z.of_nat m) /\
    q !! p' = Some i' /\ names b i' (take m str) /\ (1 <= m)%nat /\ Z.of_nat m <= length).
  { exists p, curPos, i. rewrite <- Es. auto. }
  cbn [findIdx_loop]. rewrite u32_small by lia.
  destruct ((_ <? _) && _) eqn:Econd; [|done].
  apply andb_true_iff in Econd as [Hp%Z.ltb_lt Hc%Z.ltb_lt].
  destruct (item_ok p i Hi) as (x & Hx & _ & Hch & Hst). rewrite Hcst, Hx, bind_Some.
  rewrite Hch. destruct (decide (kk b i = [])) as [E|E]; [by rewrite Z.eqb_refl|].
  pose proof (start_le p) as Hle.
  destruct (Z.eqb_spec CST_INVALID_CHILD (Z.of_nat (st p))) as [E'|_];
    [unfold CST_INVALID_CHILD in E'; lia|].
  replace (Z.of_nat p + 1) with (Z.of_nat (S p)) by lia.
  destruct (nextGroup_ok p (S (Z.to_nat (Z.of_nat n - 1 - Z.of_nat p))) (S p)) as (r & -> & Hhigh);
    [lia|done|lia|].
  rewrite bind_Some.
  destruct (rd_is_Some str (Z.of_nat curPos)) as [ch Hrd]; [lia|]. rewrite Hrd, bind_Some.
  destruct (searchChild_ok d p i ch r Hcst Hi E Hhigh) as (r0 & -> & Hres). rewrite bind_Some.
  destruct (Z.eqb_spec CST_INVALID_CHILD r0) as [_|Hne]; [done|].
  destruct Hres as [?|(r' & k & -> & Hk & Hkk & Hkc)]; [lia|].
  replace (Z.of_nat curPos + 1) with (Z.of_nat (S curPos)) by lia.
  rewrite rd_nat in Hrd. assert (Hnext : take (S curPos) str = s ++ [ch]).
  { rewrite (take_S_r _ _ ch) by done. by rewrite Es. }
  assert (Hir : 0 <= i <= b_maxCode b) by by eapply names_range.
  apply kk_elem in Hkk as (Hkr & Hkp & _); [|done|done].
  apply (IH r' (S curPos) k (s ++ [ch])); try done; try lia.
  - rewrite <- Hkc. constructor; [done|by rewrite Hkp].
  - rewrite length_app. simpl. lia.
Qed.
End search.
