(* ===== verification/LzwDst.v ===== *)
(** * The decompression string table

    Every kept node's item describes its string: in the item itself when it
    has up to three characters, else as a range of the string area, which may
    start with a link to the item of a longer-than-four prefix.  Shown here:
    the items [finalize] writes describe the strings of their nodes, the string
    area stays within five bytes per item, and [getStrExt] returns the string
    an item describes. *)

From stdpp Require Import base gmap list option sorting.
From Stdlib Require Import ZArith Lia.
From S2P Require Import Prelude Mem LzwDict LzwCreate LzwBits LzwTrie LzwRank LzwItems.
From S2P Require Import LzwCst.

Open Scope Z_scope.

(** ** What an item describes *)

Definition link (c : Z) : list Z :=
  [Z.shiftr (Z.land c 16711680) 16; Z.shiftr (Z.land c 65280) 8; Z.land c 255].

Inductive item_str (dst area : list Z) (off : Z) : Z -> list Z -> Prop :=
  | is_local s :
      Forall is_byte s -> (1 <= length s <= 3)%nat -> item_str dst area off (localItem s) s
  | is_plain pos s :
      0 <= pos < 2 ^ 20 -> (3 < length s < 256)%nat -> pos + Z.of_nat (length s) <= off ->
      rd_range area pos (Z.of_nat (length s)) = Some s ->
      item_str dst area off (remoteItem 0 false pos (Z.of_nat (length s))) s
  | is_link pos c x s t :
      0 <= pos < 2 ^ 20 -> 0 <= c < 2 ^ 24 -> t <> [] -> (length t < 253)%nat ->
      pos + (3 + Z.of_nat (length t)) <= off ->
      rd_range area pos (3 + Z.of_nat (length t)) = Some (link c ++ t) ->
      rd dst c = Some x -> x <> 0 -> (4 < length s)%nat -> item_str dst area off x s ->
      item_str dst area off (remoteItem 0 true pos (3 + Z.of_nat (length t))) (s ++ t).

Lemma item_str_nonzero dst area off x s : item_str dst area off x s -> x <> 0.
Proof.
  destruct 1.
  - by apply localItem_not_remote.
  - apply remoteItem_remote; lia.
  - apply remoteItem_remote; lia.
Qed.

(** Filling in more items and appending to the area keeps what is described. *)
Lemma item_str_mono dst area off dst' area' off' x s :
  (forall c y, rd dst c = Some y -> y <> 0 -> rd dst' c = Some y) ->
  (forall j n, j + n <= off -> rd_range area' j n = rd_range area j n) -> off <= off' ->
  item_str dst area off x s -> item_str dst' area' off' x s.
Proof.
  intros Hd Ha Ho. induction 1 as [s ? ?|pos s ? ? ? Hrd|pos c x s t ? ? ? ? ? Hrd Hx ? ? _ IH].
  - by constructor.
  - constructor; try done; [lia|]. by rewrite Ha.
  - econstructor; try done; [lia| |by apply Hd]. by rewrite Ha.
Qed.

(** ** Reading an item *)

Lemma rd_range_rd (area : list Z) pos a b c t :
  rd_range area pos (3 + Z.of_nat (length t)) = Some (a :: b :: c :: t) ->
  rd area pos = Some a /\ rd area (pos + 1) = Some b /\ rd area (pos + 2) = Some c /\
  rd_range area (pos + 3) (Z.of_nat (length t)) = Some t.
Proof.
  intros (H0 & H1 & H2 & E)%rd_range_Some.
  assert (Hl : forall (k : nat) v, (a :: b :: c :: t) !! k = Some v -> area !! (Z.to_nat pos + k)%nat = Some v).
  { intros k v Hv. rewrite E in Hv. apply lookup_take_Some in Hv as [Hv _]. by rewrite lookup_drop in Hv. }
  assert (Hrd : forall (k : nat) v, (a :: b :: c :: t) !! k = Some v -> rd area (pos + Z.of_nat k) = Some v).
  { intros k v Hv. unfold rd. case_Zb; [|lia]. rewrite <- (Hl k v Hv). f_equal. lia. }
  split_and!.
  - rewrite <- (Z.add_0_r pos). by apply (Hrd 0%nat).
  - by apply (Hrd 1%nat).
  - by apply (Hrd 2%nat).
  - apply rd_range_Some. split_and!; [lia|lia|lia|].
    apply (f_equal (drop 3)) in E. change (drop 3 (a :: b :: c :: t)) with t in E. rewrite E at 1.
    rewrite skipn_firstn_comm, drop_drop. f_equal; [lia|f_equal; lia].
Qed.

Lemma remoteLink_ok d off item s :
  item_str (_dst d) (_strArea d) off item s -> (Z.land item DST_LINK_FLAG =? 0) = false ->
  DST_IS_REMOTE item = true -> forall fuel acc,
  (length s < fuel)%nat -> (length s + length acc <= 256)%nat ->
  remoteLink_loop fuel (_dst d) (_strArea d) (DST_GET_REMOTE_POS item) (DST_GET_REMOTE_LEN item) acc
    = Some (s ++ acc).
Proof.
  induction 1 as [s Hb Hs|pos s Hpos Hs ? Hrd|pos c x s t Hpos Hc Ht Htl ? Hrd Hx Hx0 Hs Hi IH];
    intros Hlink Hrem fuel acc Hf Hacc.
  - apply localItem_not_remote in Hs as [E _]; [congruence|done].
  - rewrite remoteItem_link in Hlink by lia. done.
  - destruct fuel as [|fuel]; [lia|]. cbn [remoteLink_loop].
    rewrite remoteItem_pos, remoteItem_len by lia.
    apply rd_range_rd in Hrd as (H0 & H1 & H2 & H3).
    replace (3 + Z.of_nat (length t) - 3) with (Z.of_nat (length t)) by lia.
    rewrite H3, bind_Some. rewrite length_app in *.
    destruct (Z.ltb_spec 256 (Z.of_nat (length t + length acc))); [lia|].
    rewrite H0, bind_Some, H1, bind_Some, H2, bind_Some, link_bytes, Hx, bind_Some by lia.
    destruct (Z.land x DST_LINK_FLAG =? 0) eqn:El.
    + inversion Hi as [s0 ? Hs0 E|pos' s0 Hp' Hs0 ? Hr' E|pos' c' x' s0 t0 Hp' ? ? ? ? ? ? ? ? ? E]; subst.
      * lia.
      * rewrite remoteItem_pos, remoteItem_len by lia. rewrite Hr', bind_Some.
        rewrite !length_app. case_Zb; [lia|]. by rewrite app_assoc.
      * rewrite remoteItem_link in El by lia. done.
    + rewrite IH; try done.
      * by rewrite app_assoc.
      * destruct Hi; [lia|apply remoteItem_remote; lia|apply remoteItem_remote; lia].
      * destruct t; [done|]. simpl in *. lia.
      * rewrite length_app. lia.
Qed.

(** [getStrExt] returns the string an item describes. *)
Lemma getStrExt_item d off code item s :
  rd (_dst d) code = Some item -> item_str (_dst d) (_strArea d) off item s ->
  (length s <= 255)%nat -> getStrExt d code = Some s.
Proof.
  intros Hrd Hi Hl. unfold getStrExt. rewrite Hrd, bind_Some.
  destruct (DST_IS_REMOTE item) eqn:Er.
  - unfold _dstGetRemoteStr. destruct (Z.land item DST_LINK_FLAG =? 0) eqn:El.
    + inversion Hi as [s0 Hb0 Hs0 E|pos' s0 Hp' Hs0 ? Hr' E|pos' c' x' s0 t0 Hp' ? ? ? ? ? ? ? ? ? E]; subst.
      * apply localItem_not_remote in Hs0 as [E _]; [congruence|done].
      * by rewrite remoteItem_pos, remoteItem_len by lia.
      * rewrite remoteItem_link in El by lia. done.
    + rewrite (remoteLink_ok d off item s Hi El Er); [by rewrite app_nil_r|lia|simpl; lia].
  - destruct Hi as [s Hb Hs|pos s Hp Hs ? ?|pos c x s t Hp ? ? ? ? ? ? ? ? ?].
    + by rewrite localItem_str.
    + destruct (remoteItem_remote false pos (Z.of_nat (length s))); [done|lia|congruence].
    + destruct (remoteItem_remote true pos (3 + Z.of_nat (length t))); [done|lia|congruence].
Qed.

(** ** Filling the table *)

(** The number of items written. *)
Definition filled (dst : list Z) : nat := length (filter (fun x => x <> 0) dst).

Lemma filled_le dst : (filled dst <= length dst)%nat.
Proof. apply length_filter. Qed.

Lemma filled_set dst p x :
  dst !! p = Some 0 -> x <> 0 -> filled (<[p := x]> dst) = S (filled dst).
Proof.
  intros Hp Hx. unfold filled. rewrite insert_take_drop by (by eapply lookup_lt_Some).
  rewrite <- (take_drop_middle dst p 0 Hp) at 3. rewrite !filter_app, !length_app.
  rewrite filter_cons_True, filter_cons_False by (try done; by intros []). simpl. lia.
Qed.

Lemma filled_lt dst c : rd dst c = Some 0 -> (filled dst < length dst)%nat.
Proof.
  unfold rd. case_Zb; [|done]. intros Hp.
  pose proof (filled_le (<[Z.to_nat c := 1]> dst)) as Hl.
  rewrite (filled_set _ _ _ Hp), length_insert in Hl by done. lia.
Qed.

(** The area with [bs] written at [off]. *)
Definition splice (area : list Z) (off : Z) (bs : list Z) : list Z :=
  take (Z.to_nat off) area ++ bs ++ drop (Z.to_nat off + length bs) area.

Lemma splice_wr area off bs :
  0 <= off -> off + Z.of_nat (length bs) <= Z.of_nat (length area) ->
  wr_range area off bs = Some (splice area off bs).
Proof. intros. by apply wr_range_Some. Qed.

Lemma splice_length area off bs :
  0 <= off <= Z.of_nat (length area) ->
  off + Z.of_nat (length bs) <= Z.of_nat (length (splice area off bs)).
Proof. intros. unfold splice. rewrite !length_app, length_take, length_drop. lia. Qed.

Lemma splice_rd area off bs :
  0 <= off <= Z.of_nat (length area) ->
  rd_range (splice area off bs) off (Z.of_nat (length bs)) = Some bs.
Proof.
  intros H. pose proof (splice_length area off bs H). apply rd_range_Some.
  split_and!; [lia|lia|lia|]. unfold splice.
  rewrite drop_app_length' by (rewrite length_take; lia).
  by rewrite take_app_length' by lia.
Qed.

Lemma splice_below area off bs j n :
  0 <= off <= Z.of_nat (length area) -> j + n <= off ->
  rd_range (splice area off bs) j n = rd_range area j n.
Proof.
  intros H Hj. pose proof (splice_length area off bs H) as Hl. unfold rd_range.
  destruct (Z.leb_spec 0 j), (Z.leb_spec 0 n); try done. cbn [andb].
  destruct (Z.leb_spec (j + n) (Z.of_nat (length (splice area off bs)))); [|lia].
  destruct (Z.leb_spec (j + n) (Z.of_nat (length area))); [|lia].
  f_equal. unfold splice. apply list_eq. intros k.
  destruct (decide (k < Z.to_nat n)%nat); [|by rewrite !lookup_take_ge by lia].
  rewrite !lookup_take_lt, !lookup_drop by lia.
  rewrite lookup_app_l by (rewrite length_take; lia). by rewrite lookup_take_lt by lia.
Qed.

Section fill.
Context (b : lzwBuilder) (kept : list Z) (Hr : ranked b kept).
Let n := length kept.
Let Ht : trie b := rk_trie b kept Hr.

Definition cd (i : Z) : Z := _code (N b i).

Lemma cd_range i : i ∈ kept -> 0 <= cd i < Z.of_nat n.
Proof using Hr.
  intros [p Hp]%list_elem_of_lookup. unfold cd. rewrite (rk_code _ _ Hr p i Hp).
  apply lookup_lt_Some in Hp. unfold n. lia.
Qed.

Lemma cd_inj i j : i ∈ kept -> j ∈ kept -> cd i = cd j -> i = j.
Proof using Hr.
  intros [p Hp]%list_elem_of_lookup [p' Hp']%list_elem_of_lookup. unfold cd.
  rewrite (rk_code _ _ Hr p i Hp), (rk_code _ _ Hr p' j Hp'). intros E.
  assert (p = p') by lia. congruence.
Qed.

Lemma names_prev i s :
  names b i s -> 256 <= i -> exists s0, names b (_prev (N b i)) s0 /\ s = s0 ++ [_ch (N b i)].
Proof. intros H Hi. destruct H; [lia|eauto]. Qed.

Lemma names_root_inv i s : names b i s -> i < 256 -> s = [i] /\ _prev (N b i) = UTIL_INVALID_DICT_CODE.
Proof using Hr.
  intros H Hi. destruct H; [|lia]. split; [done|]. by apply (t_root b Ht).
Qed.

Lemma names_short i s : names b i s -> (1 <= length s <= 255)%nat.
Proof using Hr.
  intros H. pose proof (names_len b i s Ht H). pose proof (trie_len b i Ht (names_range b i s Ht H)). lia.
Qed.

Lemma kept_node i : i ∈ kept -> node b i = Some (N b i).
Proof using Hr. intros Hi. apply trie_in_range; [done|]. by apply (rk_range _ _ Hr). Qed.

(** The items written so far describe the strings of their nodes. *)
Record dinv (dst area : list Z) (off : Z) : Prop := {
  dv_len : length dst = n;
  dv_off : 0 <= off <= Z.of_nat (length area);
  dv_item : forall i s, i ∈ kept -> names b i s ->
    exists x, rd dst (cd i) = Some x /\ (x = 0 \/ item_str dst area off x s)
}.

(** Items already written stay. *)
Definition grows (dst dst' : list Z) : Prop :=
  forall j y, j ∈ kept -> rd dst (cd j) = Some y -> y <> 0 -> rd dst' (cd j) = Some y.

Lemma grows_refl dst : grows dst dst.
Proof. by intros j y. Qed.

Lemma grows_trans d1 d2 d3 : grows d1 d2 -> grows d2 d3 -> grows d1 d3.
Proof. intros H1 H2 j y Hj Hy Hn. apply H2; [done|by apply H1|done]. Qed.

(** One more item. *)
Lemma dinv_set dst area off i s x :
  dinv dst area off -> i ∈ kept -> names b i s -> rd dst (cd i) = Some 0 ->
  item_str dst area off x s ->
  exists dst', wr dst (cd i) x = Some dst' /\ dinv dst' area off /\ filled dst' = S (filled dst) /\
    (forall j, j ∈ kept -> j <> i -> rd dst' (cd j) = rd dst (cd j)) /\ rd dst' (cd i) = Some x /\
    grows dst dst'.
Proof using Hr.
  intros [Hl Ho Hi] Hk Hs H0 Hx. pose proof (cd_range i Hk) as Hc.
  pose proof (item_str_nonzero _ _ _ _ _ Hx) as Hne.
  assert (Hw : wr dst (cd i) x = Some (<[Z.to_nat (cd i) := x]> dst)) by (apply wr_Some; lia).
  assert (Hrd : forall j, rd (<[Z.to_nat (cd i) := x]> dst) j = if j =? cd i then Some x else rd dst j)
    by (intros j; by eapply rd_wr).
  assert (Hmono : forall y t, item_str dst area off y t -> item_str (<[Z.to_nat (cd i) := x]> dst) area off y t).
  { intros y t. apply item_str_mono; [|done|lia]. intros c z Hz Hz0. rewrite Hrd.
    destruct (Z.eqb_spec c (cd i)) as [->|]; [congruence|done]. }
  eexists. split; [done|]. split_and!.
  - constructor; [by rewrite length_insert|done|]. intros j t Hj Hjt. rewrite Hrd.
    destruct (Z.eqb_spec (cd j) (cd i)) as [E|E].
    + apply cd_inj in E; [|done|done]. subst j. rewrite (names_fun b i t s Hjt Hs). eauto.
    + destruct (Hi j t Hj Hjt) as (y & Hy & [->|Hys]); eauto.
  - apply filled_set; [|done]. unfold rd in H0. by destruct (0 <=? cd i).
  - intros j Hj Hji. rewrite Hrd. destruct (Z.eqb_spec (cd j) (cd i)) as [E|]; [|done].
    by apply cd_inj in E.
  - by rewrite Hrd, Z.eqb_refl.
  - intros j y Hj Hy Hn. rewrite Hrd. destruct (Z.eqb_spec (cd j) (cd i)) as [E|]; [congruence|done].
Qed.

(** The item of a short string. *)
Lemma setLocal_ok dst area off i s :
  names b i s -> (length s <= 3)%nat ->
  setLocal b i (_len (N b i)) 0 = Some (localItem s) /\ item_str dst area off (localItem s) s.
Proof using Hr.
  intros Hs Hl. pose proof (names_short i s Hs). pose proof (names_byte b i s Ht Hs).
  unfold setLocal. rewrite (getStr_names b i s Ht Hs), bind_Some, (names_len b i s Ht Hs).
  rewrite setLocal_item by (done || lia). split; [done|]. constructor; [done|lia].
Qed.

(** Writing the items of the prefixes of a short string. *)
Lemma localPrefixes_ok area off : forall fuel i s dst,
  i ∈ kept -> names b i s -> (length s <= 3)%nat -> (length s < fuel)%nat -> dinv dst area off ->
  exists dst', localPrefixes fuel b i dst = Some dst' /\ dinv dst' area off /\
    (filled dst <= filled dst')%nat /\ grows dst dst'.
Proof using Hr.
  induction fuel as [|fuel IH]; intros i s dst Hk Hs Hl Hf Hd; [lia|]. cbn [localPrefixes].
  pose proof (names_range b i s Ht Hs) as Hir.
  destruct (Z.eqb_spec UTIL_INVALID_DICT_CODE i) as [E|_].
  { by destruct (trie_code_valid b i Ht); [lia|]. }
  rewrite kept_node, bind_Some by done. fold (cd i).
  destruct (dv_item _ _ _ Hd i s Hk Hs) as (x & Hx & Hcase). rewrite Hx, bind_Some.
  assert (Hset : exists dst1, (if 0 =? x then item ← setLocal b i (_len (N b i)) x; wr dst (cd i) item
      else Some dst) = Some dst1 /\ dinv dst1 area off /\ (filled dst <= filled dst1)%nat /\
      grows dst dst1).
  { destruct (Z.eqb_spec 0 x) as [<-|]; [|exists dst; split_and!; auto using grows_refl].
    destruct (setLocal_ok dst area off i s Hs Hl) as [-> Hit]. rewrite bind_Some.
    destruct (dinv_set dst area off i s _ Hd Hk Hs Hx Hit) as (dst1 & -> & Hd1 & Hfl & _ & _ & Hg).
    exists dst1. split_and!; try done. lia. }
  destruct Hset as (dst1 & -> & Hd1 & Hfl & Hot). rewrite bind_Some.
  destruct (decide (i < 256)) as [Hroot|Hinner].
  - destruct (names_root_inv i s Hs Hroot) as [-> ->].
    destruct fuel as [|fuel]; [simpl in Hf; lia|]. cbn [localPrefixes]. rewrite Z.eqb_refl.
    exists dst1. split_and!; done.
  - destruct (names_prev i s Hs) as (s0 & Hs0 & ->); [lia|]. rewrite length_app in *. simpl in Hl, Hf.
    pose proof (t_inner b Ht i ltac:(lia)) as [Hp _].
    destruct (IH (_prev (N b i)) s0 dst1) as (dst' & E & Hd' & Hfl' & Hot'); try done; try lia.
    { apply (rk_prev _ _ Hr); [done|lia]. }
    exists dst'. split_and!; try done; [lia|]. by eapply grows_trans.
Qed.

(** *** Long strings *)

(** [p] is reached from [a] by the characters [t], over nodes without item. *)
Inductive desc (dst : list Z) (a : Z) : Z -> list Z -> Prop :=
  | desc_nil : desc dst a a []
  | desc_snoc p t : 256 <= p -> rd dst (cd p) = Some 0 -> desc dst a (_prev (N b p)) t ->
      desc dst a p (t ++ [_ch (N b p)]).

(** The nodes on the path to [p] longer than four have no item. *)
Inductive above (dst : list Z) : Z -> Prop :=
  | above_short p : _len (N b p) <= 4 -> above dst p
  | above_up p : 256 <= p -> rd dst (cd p) = Some 0 -> above dst (_prev (N b p)) -> above dst p.

(** The bytes to store for a string: the whole of it, or a link to a stored
    prefix and the rest. *)
Lemma remoteStr_loop_ok dst area off i s :
  dinv dst area off -> names b i s -> i ∈ kept -> forall pos acc, (length s <= pos)%nat ->
  (remoteStr_loop pos b dst i acc = Some (Some (s ++ acc, false)) /\
   (256 <= i -> above dst (_prev (N b i)))) \/
  (exists a sa t y, a ∈ kept /\ names b a sa /\ (4 < length sa)%nat /\ rd dst (cd a) = Some y /\ y <> 0 /\
     256 <= i /\ desc dst a (_prev (N b i)) t /\ s = sa ++ t ++ [_ch (N b i)] /\
     remoteStr_loop pos b dst i acc = Some (Some (link (cd a) ++ (t ++ [_ch (N b i)]) ++ acc, true))).
Proof using Hr.
  intros Hd Hs. induction Hs as [i Hi|i s Hi Hs IH]; intros Hk [|pos] acc Hpos;
    rewrite ?length_app in Hpos; simpl in Hpos; try lia; cbn [remoteStr_loop];
    rewrite kept_node, bind_Some by done.
  - destruct (t_root b Ht i Hi) as (-> & _ & ->). rewrite Z.eqb_refl. left. split; [done|lia].
  - pose proof (t_inner b Ht i Hi) as (Hp & _).
    assert (Hkp : _prev (N b i) ∈ kept) by (apply (rk_prev _ _ Hr); [done|lia]).
    destruct (Z.eqb_spec UTIL_INVALID_DICT_CODE (_prev (N b i))) as [E|_].
    { by destruct (trie_code_valid b (_prev (N b i)) Ht); [lia|]. }
    rewrite (kept_node (_prev _)), bind_Some by done. fold (cd (_prev (N b i))).
    destruct (dv_item _ _ _ Hd _ s Hkp Hs) as (x & Hx & _). rewrite Hx, bind_Some.
    rewrite (names_len b _ s Ht Hs).
    destruct (negb (0 =? x) && (4 <? Z.of_nat (length s))) eqn:Ec.
    + apply andb_true_iff in Ec as [Hx0%negb_true_iff%Z.eqb_neq Hl%Z.ltb_lt].
      destruct (Nat.ltb_spec pos 3); [lia|]. right.
      exists (_prev (N b i)), s, [], x. split_and!; try done; try lia. constructor.
    + destruct (IH Hkp pos (_ch (N b i) :: acc)) as [[E Ha]|(a & sa & t & y & ? & ? & Hl & ? & ? & Hp2 & Hdesc & -> & E)].
      { lia. }
      * left. rewrite E, <- app_assoc. split; [done|]. intros _.
        destruct (decide (_len (N b (_prev (N b i))) <= 4)); [by apply above_short|].
        rewrite (names_len b _ s Ht Hs) in *.
        assert (x = 0) as ->. { destruct (Z.eqb_spec 0 x); [done|]. simpl in Ec. apply Z.ltb_ge in Ec. lia. }
        assert (256 <= _prev (N b i)).
        { destruct (decide (_prev (N b i) < 256)); [|lia]. destruct (names_root_inv _ _ Hs) as [-> _]; [lia|].
          simpl in *. lia. }
        apply above_up; auto.
      * right. rewrite !length_app in *.
        assert (x = 0) as ->. { destruct (Z.eqb_spec 0 x); [done|]. simpl in Ec. apply Z.ltb_ge in Ec. lia. }
        exists a, sa, (t ++ [_ch (N b (_prev (N b i)))]), y. split_and!; try done; try lia.
        -- by apply desc_snoc.
        -- by rewrite <- !app_assoc.
        -- rewrite E. by rewrite <- !app_assoc.
Qed.

(** The prefixes between a string and the stored prefix [a] it links to. *)
Lemma remotePrefixes_link dst0 a sa area pos off' : 
  a ∈ kept -> names b a sa -> (4 < length sa)%nat -> 0 <= pos < 2 ^ 20 ->
  forall p t, desc dst0 a p t -> p ∈ kept -> forall fuel dst u,
  names b p (sa ++ t) -> (forall j, j ∈ kept -> j <= p -> rd dst (cd j) = rd dst0 (cd j)) ->
  (exists y, rd dst0 (cd a) = Some y /\ y <> 0) ->
  dinv dst area off' -> (length t < fuel)%nat -> u <> [] -> (length (t ++ u) < 253)%nat ->
  pos + (3 + Z.of_nat (length (t ++ u))) <= off' ->
  rd_range area pos (3 + Z.of_nat (length (t ++ u))) = Some (link (cd a) ++ t ++ u) ->
  exists dst', remotePrefixes fuel b true pos (3 + Z.of_nat (length (t ++ u)))
      (Z.of_nat (length u)) p dst = Some dst' /\
    dinv dst' area off' /\ filled dst' = (filled dst + length t)%nat /\ grows dst dst'.
Proof using Hr.
  intros Hka Hsa Hla Hpos p t Hdesc.
  induction Hdesc as [|p t Hp H0 Hdesc IH]; intros Hk fuel dst u Hs Hag Hfa Hd Hf Hu Hlen Hoff Hrd;
    (destruct fuel as [|fuel]; [simpl in Hf; lia|]); cbn [remotePrefixes];
    pose proof (rk_range _ _ Hr _ Hk) as Hkr;
    (match goal with |- context [?x =? UTIL_INVALID_DICT_CODE] =>
       destruct (Z.eqb_spec x UTIL_INVALID_DICT_CODE) as [E|_];
         [by destruct (trie_code_valid b x Ht); [lia|]|] end);
    rewrite kept_node, bind_Some by done.
  - fold (cd a). destruct Hfa as (y & Hy & Hy0). rewrite Hag, Hy, bind_Some by (done || lia).
    destruct (Z.eqb_spec y 0); [done|]. simpl. exists dst. rewrite Nat.add_0_r.
    split_and!; auto using grows_refl.
  - fold (cd p). rewrite Hag, H0, bind_Some by (done || lia). rewrite Z.eqb_refl. cbn [negb].
    rewrite (names_len b p _ Ht Hs). set (tp := t ++ [_ch (N b p)]) in *.
    assert (Htp : length tp = S (length t)) by (unfold tp; rewrite length_app; simpl; lia).
    rewrite (length_app sa tp). rewrite (length_app tp u), Htp in *.
    unfold DST_MAX_LOCAL_LEN. match goal with |- context [3 <? ?z] => destruct (Z.ltb_spec 3 z); [|lia] end.
    rewrite bind_Some, u32_small by lia.
    replace (3 + Z.of_nat (S (length t) + length u) - Z.of_nat (length u))
      with (3 + Z.of_nat (length tp)) by lia.
    destruct Hfa as (y & Hy & Hy0).
    assert (Hya : rd dst (cd a) = Some y).
    { rewrite <- Hy. apply Hag; [done|]. clear -Ht Hr Hdesc Hp Hkr.
      assert (Hle : forall p t, desc dst0 a p t -> p <= b_maxCode b -> a <= p).
      { induction 1 as [|q t' Hq _ _ IHd]; intros Hqm; [lia|].
        pose proof (t_inner b Ht q ltac:(lia)) as [? _]. specialize (IHd ltac:(lia)). lia. }
      pose proof (t_inner b Ht p ltac:(lia)) as [? _]. specialize (Hle _ _ Hdesc ltac:(lia)). lia. }
    destruct (dv_item _ _ _ Hd a sa Hka Hsa) as (y' & Hy' & Hyi).
    assert (y' = y) as -> by congruence. destruct Hyi as [|Hyi]; [done|].
    pose proof (cd_range a Hka) as Hca. pose proof (rk_size _ _ Hr) as Hsz.
    unfold UTIL_MAX_DICT_ITEM_NUM in Hsz. fold n in Hsz.
    assert (Hitem : item_str dst area off' (remoteItem 0 true pos (3 + Z.of_nat (length tp))) (sa ++ tp)).
    { apply (is_link _ _ _ pos (cd a) y sa tp); try done; try lia.
      - unfold tp. by destruct t.
      - assert (Hl3 : forall l : list Z, 3 + Z.of_nat (length l) = Z.of_nat (length (link (cd a) ++ l))).
        { intros l. rewrite length_app. simpl. lia. }
        rewrite Hl3. apply (rd_range_prefix _ _ _ u). rewrite <- app_assoc, <- Hl3, <- Hrd.
        f_equal. rewrite length_app, Htp. lia. }
    assert (Hz : rd dst (cd p) = Some 0) by (rewrite Hag; [done|done|lia]).
    destruct (dinv_set dst area off' p _ _ Hd Hk Hs Hz Hitem) as (dst1 & -> & Hd1 & Hfl & Hot & _ & Hg).
    rewrite bind_Some. pose proof (t_inner b Ht p ltac:(lia)) as [Hpp _].
    destruct (names_prev p _ Hs Hp) as (s0 & Hs0 & Es0).
    assert (s0 = sa ++ t) as ->.
    { unfold tp in Es0. rewrite app_assoc in Es0. by apply app_inj_2 in Es0 as [? _]. }
    assert (Hlu : length (t ++ _ch (N b p) :: u) = (S (length t) + length u)%nat)
      by (rewrite length_app; simpl; lia).
    destruct (IH (rk_prev _ _ Hr p Hk Hp) fuel dst1 (_ch (N b p) :: u)) as (dst' & E & Hd' & Hfl' & Hg');
      rewrite ?Hlu; try done; try lia.
    { intros j Hj Hjp. rewrite Hot by (done || lia). apply Hag; [done|lia]. }
    { eauto. }
    { unfold tp in Hrd. by rewrite <- app_assoc in Hrd. }
    exists dst'. rewrite Hlu in E. cbn [length] in E.
    replace (Z.of_nat (length u) + 1) with (Z.of_nat (S (length u))) by lia.
    split_and!; [done|done|lia|by eapply grows_trans].
Qed.

(** The prefixes of a string stored in full. *)
Lemma remotePrefixes_plain dst0 area pos off' :
  0 <= pos < 2 ^ 20 -> forall p s, names b p s -> p ∈ kept -> above dst0 p -> forall fuel dst u,
  (forall j, j ∈ kept -> j <= p -> rd dst (cd j) = rd dst0 (cd j)) ->
  dinv dst area off' -> (length s < fuel)%nat -> u <> [] -> (length (s ++ u) <= 255)%nat ->
  pos + Z.of_nat (length (s ++ u)) <= off' ->
  rd_range area pos (Z.of_nat (length (s ++ u))) = Some (s ++ u) ->
  exists dst', remotePrefixes fuel b false pos (Z.of_nat (length (s ++ u)))
      (Z.of_nat (length u)) p dst = Some dst' /\
    dinv dst' area off' /\ (filled dst + (length s - 4) <= filled dst')%nat /\ grows dst dst'.
Proof using Hr.
  intros Hpos p s Hs.
  assert (Hgen : forall p s, names b p s -> p ∈ kept -> above dst0 p -> forall fuel dst u,
    (forall j, j ∈ kept -> j <= p -> rd dst (cd j) = rd dst0 (cd j)) ->
    dinv dst area off' -> (length s < S fuel)%nat -> (length (s ++ u) <= 255)%nat ->
    pos + Z.of_nat (length (s ++ u)) <= off' ->
    rd_range area pos (Z.of_nat (length (s ++ u))) = Some (s ++ u) ->
    rd dst (cd p) = Some 0 -> exists x dst1,
      (if DST_MAX_LOCAL_LEN <? _len (N b p)
       then Some (remoteItem 0 false pos (u32 (Z.of_nat (length (s ++ u)) - Z.of_nat (length u))))
       else setLocal b p (_len (N b p)) 0) = Some x /\
      wr dst (cd p) x = Some dst1 /\ dinv dst1 area off' /\ filled dst1 = S (filled dst) /\
      (forall j, j ∈ kept -> j <> p -> rd dst1 (cd j) = rd dst (cd j)) /\ grows dst dst1).
  { clear p s Hs. intros p s Hs Hk _ fuel dst u Hag Hd Hf Hlen Hoff Hrd Hz.
    rewrite (names_len b p s Ht Hs). unfold DST_MAX_LOCAL_LEN. rewrite length_app in *.
    destruct (Z.ltb_spec 3 (Z.of_nat (length s))) as [H3|H3].
    - rewrite u32_small by lia.
      replace (Z.of_nat (length s + length u) - Z.of_nat (length u)) with (Z.of_nat (length s)) by lia.
      assert (Hitem : item_str dst area off' (remoteItem 0 false pos (Z.of_nat (length s))) s).
      { constructor; try done; try lia. apply (rd_range_prefix _ _ _ u). by rewrite length_app. }
      destruct (dinv_set dst area off' p s _ Hd Hk Hs Hz Hitem) as (dst1 & E & ? & ? & ? & _ & ?).
      eexists _, dst1. split_and!; done.
    - rewrite <- (names_len b p s Ht Hs).
      destruct (setLocal_ok dst area off' p s Hs ltac:(lia)) as [-> Hitem].
      destruct (dinv_set dst area off' p s _ Hd Hk Hs Hz Hitem) as (dst1 & E & ? & ? & ? & _ & ?).
      eexists _, dst1. split_and!; done. }
  induction Hs as [p Hp|p s Hp Hs IH]; intros Hk Hab fuel dst u Hag Hd Hf Hu Hlen Hoff Hrd;
    (destruct fuel as [|fuel]; [simpl in Hf; lia|]); cbn [remotePrefixes];
    pose proof (rk_range _ _ Hr _ Hk) as Hkr;
    (destruct (Z.eqb_spec p UTIL_INVALID_DICT_CODE) as [E|_];
         [by destruct (trie_code_valid b p Ht); [lia|]|]);
    rewrite kept_node, bind_Some by done; fold (cd p).
  - destruct (dv_item _ _ _ Hd p [p] Hk (names_root b p Hp)) as (x & Hx & _). rewrite Hx, bind_Some.
    destruct (Z.eqb_spec x 0) as [->|]; simpl negb; cbn iota.
    2: { exists dst. simpl. rewrite Nat.add_0_r. split_and!; auto using grows_refl. }
    destruct (Hgen p [p] (names_root b p Hp) Hk Hab fuel dst u) as (y & dst1 & -> & Hw & Hd1 & Hfl & _ & Hg);
      try done.
    rewrite bind_Some, Hw, bind_Some. destruct (t_root b Ht p Hp) as (-> & _).
    destruct fuel as [|fuel]; [simpl in Hf; lia|]. cbn [remotePrefixes]. rewrite Z.eqb_refl.
    exists dst1. split_and!; try done. simpl. lia.
  - pose proof (names_inner b p s Hp Hs) as Hps. pose proof (t_inner b Ht p Hp) as [Hpp _].
    destruct (dv_item _ _ _ Hd p _ Hk Hps) as (x & Hx & _). rewrite Hx, bind_Some.
    destruct (Z.eqb_spec x 0) as [->|Hx0]; simpl negb; cbn iota.
    2: { exists dst. split_and!; auto using grows_refl.
         destruct Hab as [p Hl|p _ Hz _]; [rewrite (names_len b p _ Ht Hps) in Hl; lia|].
         rewrite Hag in Hx by (done || lia). congruence. }
    destruct (Hgen p _ Hps Hk Hab fuel dst u) as (y & dst1 & -> & Hw & Hd1 & Hfl & Hot & Hg); try done.
    rewrite bind_Some, Hw, bind_Some.
    assert (Eu : (s ++ [_ch (N b p)]) ++ u = s ++ _ch (N b p) :: u) by by rewrite <- app_assoc.
    rewrite Eu in *. rewrite (length_app s [_]) in Hf |- *. simpl length in Hf.
    destruct (IH (rk_prev _ _ Hr p Hk ltac:(lia))) with (fuel := fuel) (dst := dst1) (u := _ch (N b p) :: u)
      as (dst' & E & Hd' & Hfl' & Hg'); try done; try lia.
    { destruct Hab as [p Hl|p _ _ Hab]; [|done]. apply above_short.
      destruct (t_inner b Ht p Hp) as (_ & ? & _). lia. }
    { intros j Hj Hjp. rewrite Hot by (done || lia). apply Hag; [done|lia]. }
    exists dst'. cbn [length] in E |- *.
    replace (Z.of_nat (length u) + 1) with (Z.of_nat (S (length u))) by lia.
    split_and!; [done|done|simpl; lia|by eapply grows_trans].
Qed.

(** Appending to the area keeps the items. *)
Lemma dinv_splice dst area off bs :
  dinv dst area off -> dinv dst (splice area off bs) (off + Z.of_nat (length bs)).
Proof.
  intros [Hl Ho Hi]. pose proof (splice_length area off bs Ho) as Hsl. constructor; [done|lia|].
  intros i s Hk Hs. destruct (Hi i s Hk Hs) as (x & Hx & Hcase). exists x. split; [done|].
  destruct Hcase as [->|Hit]; [by left|right].
  apply (item_str_mono dst area off); [by auto| |lia|exact Hit].
  intros j k Hjk. by apply splice_below.
Qed.

(** What formatting one more node gives. *)
Definition formatted (i : Z) (dst area : list Z) (r : option (Z * dstState)) : Prop :=
  exists s', r = Some (SDB_OK, s') /\ dinv (s_dst s') (s_area s') (s_offset s') /\
    s_offset s' <= 5 * Z.of_nat (filled (s_dst s')) /\ grows dst (s_dst s') /\
    length (s_area s') = length area /\ exists y, rd (s_dst s') (cd i) = Some y /\ y <> 0.

Context (Hn20 : 5 * Z.of_nat n <= 2 ^ 20).

(** The string of a node, stored from [off] on as [str], and its prefixes. *)
Lemma formatRemoteStr_ok i s dst area off :
  i ∈ kept -> names b i s -> (3 < length s)%nat -> rd dst (cd i) = Some 0 ->
  dinv dst area off -> off <= 5 * Z.of_nat (filled dst) ->
  5 * Z.of_nat n <= Z.of_nat (length area) ->
  formatted i dst area (_formatRemoteStr b i (mkDst dst area off)).
Proof using Hr Hn20.
  intros Hk Hs Hl Hz Hd Hoff Hcap. unfold formatted, _formatRemoteStr.
  rewrite kept_node, bind_Some by done. cbn [s_dst s_area s_offset].
  pose proof (names_short i s Hs) as Hsl. pose proof (names_range b i s Ht Hs) as Hir.
  pose proof (dv_off _ _ _ Hd) as Ho.
  assert (Hi256 : 256 <= i).
  { destruct (decide (i < 256)); [|lia]. destruct (names_root_inv i s Hs) as [-> _]; [lia|]. simpl in Hl. lia. }
  pose proof (rk_prev _ _ Hr i Hk Hi256) as Hkp. pose proof (t_inner b Ht i ltac:(lia)) as [Hpi _].
  destruct (names_prev i s Hs Hi256) as (s0 & Hs0 & Es0).
  assert (Hfl : forall dst' : list Z, length dst' = n -> (filled dst' <= n)%nat).
  { intros dst' <-. apply filled_le. }
  assert (Hpos : 0 <= off < 2 ^ 20).
  { pose proof (filled_lt _ _ Hz). rewrite (dv_len _ _ _ Hd) in *. lia. }
  destruct (remoteStr_loop_ok dst area off i s Hd Hs Hk (Z.to_nat UTIL_MAX_DICT_STR_LEN) [])
    as [[E Hab]|(a & sa & t & y & Hka & Hsa & Hla & Hy & Hy0 & _ & Hdesc & Es & E)];
    [unfold UTIL_MAX_DICT_STR_LEN; lia| |]; rewrite E, bind_Some; clear E; rewrite ?app_nil_r.
  - pose proof (dinv_splice dst area off s Hd) as Hd1.
    pose proof (splice_rd area off s Ho) as Hrd.
    assert (Hitem : item_str dst (splice area off s) (off + Z.of_nat (length s))
      (remoteItem 0 false off (Z.of_nat (length s))) s).
    { constructor; try done; lia. }
    destruct (dinv_set _ _ _ i s _ Hd1 Hk Hs Hz Hitem) as (dst1 & Hw & Hd2 & Hf1 & Hot & Hri & Hg).
    destruct (remotePrefixes_plain dst (splice area off s) off (off + Z.of_nat (length s)) Hpos
      _ s0 Hs0 Hkp (Hab Hi256) 256 dst1 [_ch (N b i)]) as (dst2 & E2 & Hd3 & Hf2 & Hg2);
      rewrite <- ?Es0; try done; try lia.
    { intros j Hj Hjp. apply Hot; [done|lia]. }
    { rewrite Es0, length_app in *. simpl in *. lia. }
    assert (Hlen0 : length s = S (length s0)) by (rewrite Es0, length_app; simpl; lia).
    pose proof (Hfl dst2 (dv_len _ _ _ Hd3)) as Hn.
    rewrite splice_wr, bind_Some by lia. fold (cd i). rewrite Hz, bind_Some, Hw, bind_Some.
    rewrite <- Es0 in E2. cbn [length] in E2. change (Z.of_nat 1) with 1 in E2. rewrite E2, bind_Some.
    eexists. split; [done|]. cbn [s_dst s_area s_offset]. split_and!; [done|lia|by eapply grows_trans| |].
    + unfold splice. rewrite !length_app, length_take, length_drop. lia.
    + eexists. split; [apply (Hg2 i); [done|done|]|]; by eapply item_str_nonzero.
  - set (tl := t ++ [_ch (N b i)]) in *. set (str := link (cd a) ++ tl).
    pose proof (dinv_splice dst area off str Hd) as Hd1.
    pose proof (splice_rd area off str Ho) as Hrd.
    assert (Hstr : Z.of_nat (length str) = 3 + Z.of_nat (length tl)).
    { unfold str. rewrite length_app. simpl. lia. }
    rewrite Hstr in *.
    assert (Htl : length tl = S (length t)) by (unfold tl; rewrite length_app; simpl; lia).
    assert (Hlens : length s = (length sa + length tl)%nat) by (rewrite Es; by rewrite length_app).
    pose proof (cd_range a Hka) as Hca. pose proof (rk_size _ _ Hr) as Hsz.
    unfold UTIL_MAX_DICT_ITEM_NUM in Hsz. fold n in Hsz.
    destruct (dv_item _ _ _ Hd1 a sa Hka Hsa) as (y' & Hy' & Hyi).
    assert (y' = y) as -> by congruence. destruct Hyi as [|Hyi]; [done|].
    assert (Hitem : item_str dst (splice area off str) (off + (3 + Z.of_nat (length tl)))
      (remoteItem 0 true off (3 + Z.of_nat (length tl))) s).
    { rewrite Es. apply (is_link _ _ _ off (cd a) y sa tl); try done; try lia.
      intros E. rewrite E in Htl. done. }
    destruct (dinv_set _ _ _ i s _ Hd1 Hk Hs Hz Hitem) as (dst1 & Hw & Hd2 & Hf1 & Hot & Hri & Hg).
    assert (s0 = sa ++ t) as ->.
    { rewrite Es in Es0. unfold tl in Es0. rewrite app_assoc in Es0. by apply app_inj_2 in Es0 as [? _]. }
    destruct (remotePrefixes_link dst a sa (splice area off str) off (off + (3 + Z.of_nat (length tl)))
      Hka Hsa Hla Hpos _ t Hdesc Hkp 256 dst1 [_ch (N b i)]) as (dst2 & E2 & Hd3 & Hf2 & Hg2);
      try done; try (fold tl; lia).
    { intros j Hj Hjp. apply Hot; [done|lia]. }
    { eauto. }
    pose proof (Hfl dst2 (dv_len _ _ _ Hd3)) as Hn.
    rewrite splice_wr, bind_Some by lia. fold (cd i). rewrite Hz, bind_Some, Hw, bind_Some.
    fold tl in E2. cbn [length] in E2. change (Z.of_nat 1) with 1 in E2. rewrite E2, bind_Some.
    eexists. split; [done|]. cbn [s_dst s_area s_offset]. split_and!; [done|lia|by eapply grows_trans| |].
    + unfold splice. rewrite !length_app, length_take, length_drop. lia.
    + eexists. split; [apply (Hg2 i); [done|done|]|]; by eapply item_str_nonzero.
Qed.

Lemma formatOneCode_ok i s dst area off :
  i ∈ kept -> names b i s -> dinv dst area off -> off <= 5 * Z.of_nat (filled dst) ->
  5 * Z.of_nat n <= Z.of_nat (length area) ->
  formatted i dst area (_formatOneCode b i (mkDst dst area off)).
Proof using Hr Hn20.
  intros Hk Hs Hd Hoff Hcap. unfold _formatOneCode. rewrite kept_node, bind_Some by done.
  cbn [s_dst s_area s_offset]. fold (cd i).
  destruct (dv_item _ _ _ Hd i s Hk Hs) as (x & Hx & _). rewrite Hx, bind_Some.
  destruct (Z.eqb_spec 0 x) as [<-|Hx0]; cbn [negb].
  2: { eexists. split; [done|]. cbn [s_dst s_area s_offset]. split_and!; eauto using grows_refl. }
  rewrite (names_len b i s Ht Hs). unfold DST_MAX_LOCAL_LEN.
  destruct (Z.ltb_spec 3 (Z.of_nat (length s))) as [H3|H3].
  { apply (formatRemoteStr_ok i s); try done. lia. }
  destruct (setLocal_ok dst area off i s Hs ltac:(lia)) as [Hset Hitem].
  rewrite (names_len b i s Ht Hs) in Hset. rewrite Hset, bind_Some.
  destruct (dinv_set dst area off i s _ Hd Hk Hs Hx Hitem) as (dst1 & -> & Hd1 & Hf1 & _ & Hri & Hg).
  rewrite bind_Some.
  assert (Hpre : exists dst', localPrefixes 4 b (_prev (N b i)) dst1 = Some dst' /\ dinv dst' area off /\
    (filled dst1 <= filled dst')%nat /\ grows dst1 dst').
  { destruct (decide (i < 256)).
    - destruct (names_root_inv i s Hs) as [_ ->]; [lia|]. exists dst1. cbn [localPrefixes].
      rewrite Z.eqb_refl. split_and!; auto using grows_refl.
    - destruct (names_prev i s Hs) as (s0 & Hs0 & Es); [lia|]. rewrite Es, length_app in H3. simpl in H3.
      apply (localPrefixes_ok area off 4 _ s0); try done; try lia. apply (rk_prev _ _ Hr); [done|lia]. }
  destruct Hpre as (dst' & -> & Hd' & Hf' & Hg'). rewrite bind_Some.
  eexists. split; [done|]. cbn [s_dst s_area s_offset].
  split_and!; [done|lia|by eapply grows_trans|done|].
  eexists. split; [apply (Hg' i); [done|done|]|]; by eapply item_str_nonzero.
Qed.

(** The loop over all nodes gives every kept node its item. *)
Lemma formatDst_loop_ok : forall k dst area off,
  dinv dst area off -> off <= 5 * Z.of_nat (filled dst) ->
  5 * Z.of_nat n <= Z.of_nat (length area) -> Z.of_nat k <= b_maxCode b + 1 ->
  (forall i, i ∈ kept -> Z.of_nat k <= i -> exists y, rd dst (cd i) = Some y /\ y <> 0) ->
  exists s', formatDst_loop k b (mkDst dst area off) = Some (SDB_OK, s') /\
    dinv (s_dst s') (s_area s') (s_offset s') /\ length (s_area s') = length area /\
    s_offset s' <= 5 * Z.of_nat n /\
    forall i, i ∈ kept -> exists y, rd (s_dst s') (cd i) = Some y /\ y <> 0.
Proof using Hr Hn20.
  induction k as [|k IH]; intros dst area off Hd Hoff Hcap Hk Hdone; cbn [formatDst_loop].
  - eexists. split; [done|]. cbn [s_dst s_area s_offset]. split_and!; try done.
    + pose proof (filled_le dst). rewrite (dv_len _ _ _ Hd) in *. lia.
    + intros i Hi. apply Hdone; [done|]. pose proof (rk_range _ _ Hr i Hi). lia.
  - rewrite trie_in_range, bind_Some by (done || lia).
    destruct (decide (Z.of_nat k ∈ kept)) as [Hin|Hout].
    + pose proof (proj1 (kept_has_code b kept Hr _) Hin) as Hc. unfold has_code in Hc.
      destruct (Z.eqb_spec UTIL_INVALID_DICT_CODE (_code (N b (Z.of_nat k)))); [congruence|].
      destruct (names_exists b (Z.of_nat k) Ht) as [s Hs]; [lia|].
      destruct (formatOneCode_ok (Z.of_nat k) s dst area off) as (s' & -> & Hd' & Ho' & Hg & Hl & Hy); try done.
      rewrite bind_Some. rewrite Z.eqb_refl. destruct s' as [dst' area' off']. cbn [s_dst s_area s_offset] in *.
      destruct (IH dst' area' off') as (s2 & E & Hd2 & Hl2 & Ho2 & Hall); try done; try lia.
      { intros i Hi Hki. destruct (decide (i = Z.of_nat k)) as [->|]; [done|].
        destruct (Hdone i Hi ltac:(lia)) as (y & Hyi & Hy0). exists y. split; [|done]. by apply Hg. }
      exists s2. split_and!; try done. lia.
    + destruct (Z.eqb_spec UTIL_INVALID_DICT_CODE (_code (N b (Z.of_nat k)))) as [_|E].
      2: { by destruct E; rewrite (rk_none _ _ Hr). }
      apply IH; try done; try lia. intros i Hi Hki.
      destruct (decide (i = Z.of_nat k)) as [->|]; [done|]. apply Hdone; [done|lia].
Qed.
End fill.
