(* ===== verification/LzwFinal.v ===== *)
(** * The dictionaries the creator makes are good

    [finalize] turns any trie [build] can make into a dictionary that keeps
    the promise of [DictOk], so compression and decompression with it are
    inverse.  The size conditions are those of the code: 20 bits for positions
    in the string area, and a buffer that holds five bytes of string area per
    item. *)

From stdpp Require Import base gmap list option sorting.
From Stdlib Require Import ZArith Lia.
From S2P Require Import Prelude Mem LzwDict LzwCreate Lzw LzwBits LzwRound LzwTrie LzwRank.
From S2P Require Import LzwItems LzwCst LzwDst.

Open Scope Z_scope.

(** ** The code size *)

Lemma calcCodeSize_loop_log2 : forall fuel code codeSize,
  1 <= code -> Z.log2 code < Z.of_nat fuel ->
  calcCodeSize_loop fuel code codeSize = codeSize + Z.log2 code.
Proof.
  induction fuel as [|fuel IH]; intros code codeSize Hc Hf.
  { pose proof (Z.log2_nonneg code). lia. }
  cbn [calcCodeSize_loop]. pose proof (Z.log2_shiftr code 1 ltac:(lia)) as Hs.
  pose proof (Z.shiftr_div_pow2 code 1 ltac:(lia)) as Hd. change (2 ^ 1) with 2 in Hd.
  destruct (Z.eqb_spec (Z.shiftr code 1) 0) as [E|E].
  - assert (code = 1) as ->; [|simpl; lia].
    pose proof (Z.div_mod code 2). pose proof (Z.mod_pos_bound code 2). lia.
  - assert (1 <= Z.shiftr code 1) by (pose proof (Z.div_pos code 2); lia).
    assert (2 <= code) by (pose proof (Z.div_mod code 2); pose proof (Z.mod_pos_bound code 2); lia).
    pose proof (Z.log2_le_mono 2 code ltac:(lia)) as H2. change (Z.log2 2) with 1 in H2.
    rewrite IH by lia. lia.
Qed.

(** The least number of bits that hold every code. *)
Lemma calcCodeSize_ok code :
  1 <= code < 2 ^ 32 -> _calcCodeSize code = 1 + Z.log2 code /\
  2 ^ (_calcCodeSize code - 1) <= code < 2 ^ _calcCodeSize code.
Proof.
  intros Hc. assert (E : _calcCodeSize code = 1 + Z.log2 code).
  { apply calcCodeSize_loop_log2; [lia|]. apply Z.log2_lt_pow2; simpl; lia. }
  split; [done|]. rewrite E. pose proof (Z.log2_spec code ltac:(lia)) as Hs.
  replace (1 + Z.log2 code - 1) with (Z.log2 code) by lia.
  by replace (1 + Z.log2 code) with (Z.succ (Z.log2 code)) by lia.
Qed.

(** ** [finalize] *)

Section final.
Context (b : lzwBuilder) (kept : list Z) (Hr : ranked b kept).
Let n := length kept.
Let Ht : trie b := rk_trie b kept Hr.

Definition zeros : list Z := replicate n 0.

Lemma table_empty k : table n b [] (mkGrp zeros zeros ∅ k) <-> k = 0.
Proof.
  split; [by intros [? _ _ _ _ _ _]|]. intros ->.
  constructor; simpl; try done; try (unfold zeros; by rewrite length_replicate). lia.
Qed.

(** The compression string table. *)
Lemma cst_made :
  exists g0 g q, formatRoots 256 b 0 (mkGrp zeros zeros ∅ (UTIL_MAX_DICT_INIT_CODE + 1)) = Some g0 /\
    formatGrps (S n) b 0 g0 = Some g /\ bfs b kept q (length q) g.
Proof using Hr.
  destruct (formatRoots_ok b kept Hr 256 0 (mkGrp zeros zeros ∅ (UTIL_MAX_DICT_INIT_CODE + 1)))
    as (g0 & E0 & Hn & Htb); [done|by apply table_empty|].
  assert (Hg : with_next g0 256 = g0).
  { destruct g0. simpl in Hn. unfold with_next. simpl. by rewrite Hn. }
  rewrite Hg in Htb.
  assert (Hb : bfs b kept (seqZ 0 256) 0 g0).
  { constructor; [exact Htb|lia|reflexivity| | |].
    - apply NoDup_seqZ.
    - intros i Hi%elem_of_seqZ. apply (rk_root _ _ Hr). lia.
    - lia. }
  destruct (formatGrps_ok b kept Hr (S n) _ 0 g0 Hb) as (q & g & E & Hbq); [fold n; lia|].
  exists g0, g, q. done.
Qed.

(** The decompression string table. *)
Lemma dst_made area :
  5 * Z.of_nat n <= 2 ^ 20 -> 5 * Z.of_nat n <= Z.of_nat (length area) ->
  exists s', _formatDst b (mkDst zeros area 0) = Some (SDB_OK, s') /\
    dinv b kept (s_dst s') (s_area s') (s_offset s') /\ length (s_area s') = length area /\
    s_offset s' <= 5 * Z.of_nat n /\
    forall i, i ∈ kept -> exists y, rd (s_dst s') (_code (N b i)) = Some y /\ y <> 0.
Proof using Hr.
  intros H20 Hcap. unfold _formatDst. pose proof (t_max b Ht) as Hm.
  apply (formatDst_loop_ok b kept Hr H20); [| |done|lia|].
  - constructor.
    + unfold zeros. by rewrite length_replicate.
    + lia.
    + intros i s Hi Hs. exists 0. split; [|by left]. pose proof (cd_range b kept Hr i Hi) as Hc.
      unfold rd, zeros. case_Zb; [|lia]. apply lookup_replicate. fold n in Hc. lia.
  - unfold filled, zeros. lia.
  - intros i Hi Hge. pose proof (rk_range _ _ Hr i Hi). lia.
Qed.
End final.

(** The search finds a kept node that spells a prefix. *)
Lemma findStrExt_made b kept q g d s len :
  ranked b kept -> bfs b kept q (length q) g -> _cst d = g_cst g -> _codeMap d = g_codeMap g ->
  _maxValidCode (_head d) = Z.of_nat (length kept) - 1 ->
  Forall is_byte s -> 1 <= len <= Z.of_nat (length s) ->
  exists i (m : nat), findStrExt d s len = Some (_code (N b i), Z.of_nat m) /\ i ∈ kept /\
    names b i (take m s) /\ (1 <= m)%nat /\ Z.of_nat m <= len.
Proof.
  intros Hr Hb Hcst Hmap Hmv Hby Hlen. unfold findStrExt, findIdx. rewrite Hmv.
  destruct (rd_is_Some s 0) as [ch Hch]; [lia|]. rewrite Hch, bind_Some.
  assert (Hs0 : s !! 0%nat = Some ch) by exact Hch.
  assert (Hcb : is_byte ch) by (rewrite Forall_lookup in Hby; eauto). unfold is_byte in Hcb.
  assert (Hq : q !! Z.to_nat ch = Some ch).
  { rewrite (bf_queue _ _ _ _ _ Hb). rewrite lookup_app_l by (rewrite length_seqZ; lia).
    rewrite lookup_seqZ_lt by lia. f_equal. lia. }
  destruct (findIdx_loop_ok b kept Hr q g Hb d s len Hcst Hby ltac:(lia) (S (Z.to_nat len))
    (Z.to_nat ch) 1 ch [ch]) as (p & m & i & E & Hp & Hn & H1 & Hm);
    [done|by constructor|by destruct s; simpl in *; simplify_eq|done|lia|lia|lia|].
  rewrite Z2Nat.id in E by lia. change (Z.of_nat 1) with 1 in E. rewrite E, bind_Some.
  rewrite rd_nat, Hmap, (tb_code _ _ _ _ (bf_table _ _ _ _ _ Hb) p i Hp), bind_Some.
  exists i, m. split_and!; try done.
  apply (bf_kept _ _ _ _ _ Hb). by eapply list_elem_of_lookup_2.
Qed.

(** The parts of the final dictionary. *)
Lemma dict_made b kept q g h dst area off d :
  ranked b kept -> bfs b kept q (length q) g -> dinv b kept dst area off ->
  (forall i, i ∈ kept -> exists y, rd dst (_code (N b i)) = Some y /\ y <> 0) ->
  h = _setVarLenSplitInfo (b_maxCode b) (Z.of_nat (length kept) - 1)
        (_calcCodeSize (Z.of_nat (length kept) - 1)) ->
  d = mkDict h (g_cst g) (g_codeMap g) dst area -> DictOk d.
Proof.
  intros Hr Hb Hd Hall -> ->. pose proof (rk_size _ _ Hr) as Hsz. unfold UTIL_MAX_DICT_ITEM_NUM in Hsz.
  destruct (calcCodeSize_ok (Z.of_nat (length kept) - 1)) as [Ecs Hcs]; [lia|].
  set (cs := _calcCodeSize _) in *.
  assert (Hcs8 : 8 <= cs <= 18).
  { rewrite Ecs. pose proof (Z.log2_le_mono 255 (Z.of_nat (length kept) - 1) ltac:(lia)) as H1.
    pose proof (Z.log2_le_mono (Z.of_nat (length kept) - 1) 250000 ltac:(lia)) as H2.
    change (Z.log2 255) with 7 in H1. change (Z.log2 250000) with 17 in H2. lia. }
  constructor; unfold getCodeSize, getMaxValidCode, getVarLenFlagSize; cbn [_head _setVarLenSplitInfo
    _codeSize _maxValidCode _varLenFlagSize _splitInfo]; try done; try lia.
  - unfold u8. by rewrite !Z.mod_small by (simpl; lia).
  - intros s len Hby Hlen.
    destruct (findStrExt_made b kept q g (mkDict (_setVarLenSplitInfo (b_maxCode b)
      (Z.of_nat (length kept) - 1) cs) (g_cst g) (g_codeMap g) dst area) s len)
      as (i & m & E & Hi & Hn & H1 & Hm); try done.
    exists (_code (N b i)), (Z.of_nat m). rewrite E. split_and!; try done; try lia.
    + apply (cd_range b kept Hr i Hi).
    + pose proof (cd_range b kept Hr i Hi) as Hc. unfold cd in Hc. lia.
    + destruct (dv_item _ _ _ _ _ Hd i _ Hi Hn) as (x & Hx & Hcase).
      destruct (Hall i Hi) as (y & Hy & Hy0). unfold cd in Hx. assert (y = x) as -> by congruence.
      destruct Hcase as [|Hitem]; [done|]. rewrite Nat2Z.id.
      eapply getStrExt_item; [exact Hx|exact Hitem|].
      pose proof (names_short b kept Hr i _ Hn). lia.
Qed.

Lemma finalize_ok `{StdSortSpec} b cur R addInfo bufLen :
  built b cur R -> b_maxCode b < 209715 ->
  DICT_HEAD_SIZE + 17 * (b_maxCode b + 1) + Z.of_nat (length addInfo) <= bufLen ->
  exists d len, finalize b addInfo bufLen = Some (SDB_OK, d, len) /\ DictOk d /\ len <= bufLen.
Proof.
  intros Hbt Hmax Hbuf. unfold finalize.
  destruct (assign_ranked b cur R Hbt) as (order & b1 & kept & -> & Ha & Hr & Em & Hlen).
  rewrite bind_Some, Ha, bind_Some. clear Ha. set (n := length kept) in *.
  set (h := _setVarLenSplitInfo _ _ _).
  unfold _initFinalEnv. change (_maxValidCode h) with (Z.of_nat n - 1).
  replace (Z.of_nat n - 1 + 1) with (Z.of_nat n) by lia. rewrite Nat2Z.id.
  unfold DICT_HEAD_SIZE in *.
  destruct (Z.ltb_spec (bufLen - 44 - 12 * Z.of_nat n) 0); [lia|]. rewrite bind_Some.
  cbn [_cst _codeMap _dst _strArea]. change (replicate n 0) with (zeros kept).
  destruct (cst_made b1 kept Hr) as (g0 & g & q & -> & E & Hb). rewrite bind_Some.
  assert (length (zeros kept) = n) as -> by apply length_replicate. fold n in E. rewrite E, bind_Some. clear E.
  set (area := replicate (Z.to_nat (bufLen - 44 - 12 * Z.of_nat n)) 0).
  assert (Harea : Z.of_nat (length area) = bufLen - 44 - 12 * Z.of_nat n)
    by (unfold area; rewrite length_replicate; lia).
  destruct (dst_made b1 kept Hr area) as (s' & -> & Hd & Hl & Hoff & Hall); [fold n; lia|fold n; lia|].
  rewrite bind_Some. fold n in Hoff. rewrite Z.eqb_refl. cbn [negb].
  pose proof (dv_off _ _ _ _ _ Hd) as Ho. rewrite Hl in Ho.
  match goal with |- context [bufLen <? ?e] => destruct (Z.ltb_spec bufLen e); [lia|] end.
  rewrite splice_wr, bind_Some by lia.
  eexists _, _. split; [done|]. split; [|lia].
  apply (dict_made b1 kept q g h (s_dst s') (splice (s_area s') (s_offset s') addInfo) (s_offset s'));
    try done.
  constructor; [apply Hd| |].
  - split; [lia|]. unfold splice. rewrite !length_app, length_take, length_drop. lia.
  - intros i s Hi Hs. destruct (dv_item _ _ _ _ _ Hd i s Hi Hs) as (x & Hx & Hcase).
    exists x. split; [done|]. destruct Hcase as [->|Hit]; [by left|right].
    apply (item_str_mono (s_dst s') (s_area s') (s_offset s')); [done| |lia|done].
    intros j k Hjk. apply splice_below; [lia|done].
Qed.
