(* ===== verification/LzwThms.v ===== *)
(** * What the compressor guarantees

    The theorems on the LZW compressor: with a dictionary trained on any
    sample data, decompression returns the compressed bytes; the output fits
    the size [compressBound] announces and the ratio asked for; and the cases
    the code does not handle, on concrete inputs. *)

From stdpp Require Import base gmap list option sorting.
From Stdlib Require Import ZArith Lia.
From S2P Require Import Prelude Mem LzwDict LzwCreate Lzw LzwBits LzwRound LzwTrie LzwRank.
From S2P Require Import LzwItems LzwCst LzwDst LzwFinal.

Open Scope Z_scope.

(** ** A sort that fulfils [StdSortSpec] *)

Section insertion.
Context {A : Type} (lt : A -> A -> bool).

Fixpoint insert_by (x : A) (l : list A) : list A :=
  match l with
  | [] => [x]
  | y :: l' => if lt y x then y :: insert_by x l' else x :: l
  end.

Definition insertion_sort (l : list A) : list A := foldr insert_by [] l.

Lemma insert_by_perm x l : Permutation (insert_by x l) (x :: l).
Proof.
  induction l as [|y l IH]; simpl; [done|]. destruct (lt y x); [|done]. rewrite IH. constructor.
Qed.

Lemma insertion_sort_perm l : Permutation (insertion_sort l) l.
Proof. induction l as [|x l IH]; simpl; [done|]. by rewrite insert_by_perm, IH. Qed.

Lemma insertion_sort_sorted l :
  (forall x, lt x x = false) ->
  (forall x y z, lt x y = true -> lt y z = true -> lt x z = true) ->
  (forall x y z, lt x y = false -> lt y z = false -> lt x z = false) ->
  StronglySorted (fun x y => lt y x = false) (insertion_sort l).
Proof.
  intros Hirr Htr Hneg. induction l as [|x l IH]; simpl; [constructor|].
  induction IH as [|y l' Hs IH' Hall]; simpl; [repeat constructor|].
  destruct (lt y x) eqn:E.
  - constructor; [done|]. rewrite insert_by_perm. constructor; [|done].
    destruct (lt x y) eqn:E'; [|done]. by rewrite <- (Hirr x), (Htr x y x).
  - constructor; [by constructor|]. constructor; [done|].
    eapply Forall_impl; [exact Hall|]. intros z Hz. simpl in Hz. eauto.
Qed.
End insertion.

Definition insertion_std_sort : StdSort := fun A => insertion_sort.

Lemma insertion_std_sort_spec : @StdSortSpec insertion_std_sort.
Proof.
  split; intros A lt l; [apply insertion_sort_perm|apply insertion_sort_sorted].
Qed.

(** A trained dictionary, ready to use; [None] where training or finalizing
    fails. *)
Definition train `{StdSort} (samples : list (list Z)) (addInfo : list Z) (bufLen : Z)
    : option lzwDict :=
  b ← buildAll init samples;
  '(rc, d, _) ← finalize b addInfo bufLen;
  if rc =? SDB_OK then Some d else None.

(** ** Training *)

(** Samples a creator can be fed without a use counter wrapping. *)
Definition good_samples (samples : list (list Z)) : Prop :=
  Forall (fun s => Forall is_byte s /\ s <> []) samples /\
  1 + 2 * Z.of_nat (length (mjoin samples)) < 2 ^ 32.

(** C8: Training succeeds on every sample data: building never leaves the node
    array, and when the trie has at most 209,715 nodes (so that five bytes of
    string area per item fit the 20-bit positions) and the buffer has room for
    17 bytes per node, [finalize] returns a dictionary within the buffer whose
    lookups are inverse: every search finds a code, and the code's string is
    the matched prefix. *)
Theorem training_makes_good_dictionary `{StdSortSpec} samples addInfo bufLen :
  good_samples samples ->
  exists b, buildAll init samples = Some b /\ trie b /\
    (b_maxCode b < 209715 ->
     DICT_HEAD_SIZE + 17 * (b_maxCode b + 1) + Z.of_nat (length addInfo) <= bufLen ->
     exists d len, finalize b addInfo bufLen = Some (SDB_OK, d, len) /\ DictOk d /\ len <= bufLen).
Proof.
  intros [Hs Hlen].
  destruct (buildAll_ok samples Hs init 1 (2 ^ 32 - 1) init_built) as (b & E & Hb); [lia|lia|].
  exists b. split_and!; [done|apply Hb|]. intros. by eapply finalize_ok.
Qed.

(** ** Compression and decompression *)

(** C9: Decompression undoes compression. With a good dictionary and a buffer
    of the size [compressBound] gives, [compress] at the default level, or at
    the best level when the dictionary's codes have safe variable-length
    forms, either gives up because of the ratio or writes data that
    [decompress] turns back into the source, whose length the header tells. *)
Theorem decompress_inverts_compress d source strategy dest destLen bound out outLen :
  DictOk d -> Forall is_byte source ->
  level_fits (level_of strategy) (Z.of_nat (length source)) -> 0 <= ratio_of strategy < 256 ->
  (level_of strategy = UTIL_COMP_BEST_COMPRESSION -> var_len_safe d) ->
  compressBound (Some d) (Z.of_nat (length source)) = inr bound -> bound <= Z.of_nat (length dest) ->
  (length source <= length out)%nat ->
  exists rc dest' len, compress (Some d) strategy source (Z.of_nat (length source)) dest destLen
      = Some (rc, dest', len) /\
    (rc = SDB_UTIL_COMPRESS_ABORT \/
     rc = SDB_OK /\ exists out',
       decompress (Some d) (take (Z.to_nat len) dest') len out outLen
         = Some (SDB_OK, out', Z.of_nat (length source)) /\
       take (length source) out' = source /\
       getUncompressedLen (take (Z.to_nat len) dest') = Some (Z.of_nat (length source))).
Proof.
  intros Hd Hb Hfit Hr Hsafe Hbd Hcap Hout.
  destruct (compress_form d source strategy dest destLen bound) as (rc & dest' & len & E & Hres); try done.
  exists rc, dest', len. split; [done|]. destruct Hres as [?|(-> & Hlen & Hf)]; [by left|right].
  split; [done|].
  destruct (decompress_form d _ source _ (take (Z.to_nat len) dest') out outLen Hf) as (out' & E' & Ht & Hu);
    [by eapply level_fits_size|done|lia|].
  rewrite length_take, Nat.min_l, Z2Nat.id in E' by lia. eauto.
Qed.

(** C12: Compression stays within its buffer and its ratio. Into a buffer of
    the size [compressBound] gives, the default and the best level never write
    out of bounds, and data they return is at most four bytes longer than the
    given percentage of the source. *)
Theorem compress_within_bound_and_ratio d source strategy dest destLen bound :
  DictOk d -> Forall is_byte source ->
  level_fits (level_of strategy) (Z.of_nat (length source)) -> 0 <= ratio_of strategy < 256 ->
  compressBound (Some d) (Z.of_nat (length source)) = inr bound -> bound <= Z.of_nat (length dest) ->
  exists rc dest' len, compress (Some d) strategy source (Z.of_nat (length source)) dest destLen
      = Some (rc, dest', len) /\
    (rc = SDB_UTIL_COMPRESS_ABORT \/
     rc = SDB_OK /\ 4 <= len <= 4 + Z.of_nat (length source) * ratio_of strategy / 100).
Proof.
  intros Hd Hb Hfit Hr Hbd Hcap.
  destruct (compress_form d source strategy dest destLen bound) as (rc & dest' & len & E & Hres); try done.
  exists rc, dest', len. split; [done|]. destruct Hres as [?|(-> & Hlen & Hf)]; [by left|right].
  split; [done|]. destruct Hf as (var & body & _ & _ & Hby & _ & _ & _ & _ & _ & Hsz).
  apply (f_equal length) in Hby. rewrite length_take, length_app, le_bytes_length in Hby. lia.
Qed.

(** End to end: a dictionary trained on any samples compresses and
    decompresses every source of the sizes handled at the default level
    without loss. *)
Theorem trained_compression_lossless `{StdSortSpec} samples addInfo bufLen source dest destLen bound
    out outLen b d len :
  good_samples samples -> buildAll init samples = Some b -> b_maxCode b < 209715 ->
  DICT_HEAD_SIZE + 17 * (b_maxCode b + 1) + Z.of_nat (length addInfo) <= bufLen ->
  finalize b addInfo bufLen = Some (SDB_OK, d, len) ->
  Forall is_byte source -> 1 <= Z.of_nat (length source) < 2 ^ 24 ->
  compressBound (Some d) (Z.of_nat (length source)) = inr bound -> bound <= Z.of_nat (length dest) ->
  (length source <= length out)%nat ->
  exists rc dest' clen, compress (Some d) None source (Z.of_nat (length source)) dest destLen
      = Some (rc, dest', clen) /\
    (rc = SDB_UTIL_COMPRESS_ABORT \/
     rc = SDB_OK /\ exists out',
       decompress (Some d) (take (Z.to_nat clen) dest') clen out outLen
         = Some (SDB_OK, out', Z.of_nat (length source)) /\
       take (length source) out' = source).
Proof.
  intros [Hs Hsl] Hbuild Hmax Hbuf Hfin Hby Hn Hbd Hcap Hout.
  destruct (buildAll_ok samples Hs init 1 (2 ^ 32 - 1) init_built) as (b' & Eb & Hb); [lia|lia|].
  assert (b' = b) as -> by congruence.
  destruct (finalize_ok b 0 (2 ^ 32 - 1) addInfo bufLen Hb Hmax Hbuf) as (d' & len' & Ed & Hd & _).
  assert (d' = d) as -> by congruence.
  destruct (compress_form d source None dest destLen bound) as (rc & dest' & clen & E & Hres);
    try done; try (unfold ratio_of; simpl; unfold UTIL_COMPRESSOR_DFT_MIN_RATIO; lia).
  exists rc, dest', clen. split; [done|]. destruct Hres as [?|(-> & Hlen & Hf)]; [by left|right].
  split; [done|].
  destruct (decompress_form d _ source _ (take (Z.to_nat clen) dest') out outLen Hf) as (out' & E' & Ht & _);
    [lia|done|lia|].
  rewrite length_take, Nat.min_l, Z2Nat.id in E' by lia. eauto.
Qed.

(** ** A trained dictionary to try the theorems on *)

Definition demo_sample : list Z :=
  [97;98;97;98;97;98;97;98;97;98;97;98;97;98;97;98;97;98;97;98;97;98;97;98].
Definition demo_samples : list (list Z) := [demo_sample; demo_sample].
Definition demo_source : list Z := [97;98;97;98;97;98;97;98;120;97;98].
Definition demo_train (samples : list (list Z)) : option lzwDict :=
  @train insertion_std_sort samples [1;2;3] 6000.
Definition demo_dict (samples : list (list Z)) : lzwDict :=
  default (mkDict (mkHead 0 0 0 0 []) [] [] [] []) (demo_train samples).

Lemma demo_good : good_samples demo_samples.
Proof.
  split; [|vm_compute; done]. repeat constructor; unfold is_byte; try lia; done.
Qed.

Lemma demo_dict_ok samples (m : Z) :
  good_samples samples -> (b_maxCode <$> buildAll init samples) = Some m ->
  m < 209715 -> DICT_HEAD_SIZE + 17 * (m + 1) + 3 <= 6000 -> DictOk (demo_dict samples).
Proof.
  intros [Hs Hl] Hm H1 H2.
  destruct (buildAll_ok samples Hs init 1 (2 ^ 32 - 1) init_built) as (b & E & Hb); [lia|lia|].
  rewrite E in Hm. injection Hm as <-.
  destruct (@finalize_ok _ insertion_std_sort_spec b 0 (2 ^ 32 - 1) [1;2;3] 6000 Hb H1 H2)
    as (d & len & Ed & Hd & _).
  unfold demo_dict, demo_train, train. by rewrite E, bind_Some, Ed, bind_Some.
Qed.

Lemma demo_source_bytes : Forall is_byte demo_source.
Proof. repeat constructor; unfold is_byte; lia. Qed.

Lemma training_makes_good_dictionary_witness :
  exists b, buildAll init demo_samples = Some b /\
  exists d len, @finalize insertion_std_sort b [1;2;3] 6000 = Some (SDB_OK, d, len) /\ DictOk d.
Proof.
  destruct (@training_makes_good_dictionary insertion_std_sort insertion_std_sort_spec demo_samples
    [1;2;3] 6000 demo_good) as (b & E & _ & H).
  assert (Hm : (b_maxCode <$> buildAll init demo_samples) = Some 267) by (vm_compute; reflexivity).
  rewrite E in Hm. injection Hm as Hm.
  exists b. split; [exact E|]. destruct H as (d & len & Ed & Hd & _).
  - rewrite Hm. lia.
  - rewrite Hm. unfold DICT_HEAD_SIZE. simpl. lia.
  - exists d, len. split; [exact Ed|exact Hd].
Defined.

Lemma decompress_inverts_compress_witness :
  exists rc dest' len, compress (Some (demo_dict demo_samples)) None demo_source 11
      (replicate 17 0) 17 = Some (rc, dest', len) /\
    (rc = SDB_UTIL_COMPRESS_ABORT \/
     rc = SDB_OK /\ exists out',
       decompress (Some (demo_dict demo_samples)) (take (Z.to_nat len) dest') len (replicate 11 0) 11
         = Some (SDB_OK, out', 11) /\ take 11 out' = demo_source).
Proof.
  destruct (decompress_inverts_compress (demo_dict demo_samples) demo_source None (replicate 17 0) 17 17
    (replicate 11 0) 11) as (rc & dest' & len & E & H).
  - apply (demo_dict_ok _ 267 demo_good); [vm_compute; reflexivity|lia|vm_compute; congruence].
  - apply demo_source_bytes.
  - simpl. lia.
  - unfold ratio_of. simpl. unfold UTIL_COMPRESSOR_DFT_MIN_RATIO. lia.
  - intros [=].
  - vm_compute. reflexivity.
  - vm_compute. congruence.
  - simpl. lia.
  - exists rc, dest', len. split; [exact E|]. destruct H as [H|(-> & out' & E' & Ht & _)]; [by left|right].
    split; [reflexivity|]. exists out'. split; [exact E'|exact Ht].
Defined.

Lemma compress_within_bound_and_ratio_witness :
  exists rc dest' len, compress (Some (demo_dict demo_samples)) None demo_source 11
      (replicate 17 0) 17 = Some (rc, dest', len) /\
    (rc = SDB_UTIL_COMPRESS_ABORT \/ rc = SDB_OK /\ 4 <= len <= 4 + 11 * 80 / 100).
Proof.
  destruct (compress_within_bound_and_ratio (demo_dict demo_samples) demo_source None (replicate 17 0)
    17 17) as (rc & dest' & len & E & H).
  - apply (demo_dict_ok _ 267 demo_good); [vm_compute; reflexivity|lia|vm_compute; congruence].
  - apply demo_source_bytes.
  - simpl. lia.
  - unfold ratio_of. simpl. unfold UTIL_COMPRESSOR_DFT_MIN_RATIO. lia.
  - vm_compute. reflexivity.
  - vm_compute. congruence.
  - exists rc, dest', len. split; [exact E|exact H].
Defined.

Lemma trained_compression_lossless_witness :
  exists b d len, buildAll init demo_samples = Some b /\
    @finalize insertion_std_sort b [1;2;3] 6000 = Some (SDB_OK, d, len) /\
    exists rc dest' clen, compress (Some d) None demo_source 11 (replicate 17 0) 17
        = Some (rc, dest', clen) /\
      (rc = SDB_UTIL_COMPRESS_ABORT \/
       rc = SDB_OK /\ exists out',
         decompress (Some d) (take (Z.to_nat clen) dest') clen (replicate 11 0) 11
           = Some (SDB_OK, out', 11) /\ take 11 out' = demo_source).
Proof.
  destruct (buildAll init demo_samples) as [b|] eqn:Eb; [|vm_compute in Eb; discriminate].
  assert (Hm : (b_maxCode <$> buildAll init demo_samples) = Some 267) by (vm_compute; reflexivity).
  rewrite Eb in Hm. injection Hm as Hm.
  assert (Hd : (fun r : Z * lzwDict * Z => (r.1.1, r.2, getCodeSize r.1.2)) <$>
    (b ← buildAll init demo_samples; @finalize insertion_std_sort b [1;2;3] 6000)
    = Some (SDB_OK, 3277, 9)) by (vm_compute; reflexivity).
  rewrite Eb in Hd. cbn [mbind option_bind] in Hd.
  destruct (finalize b [1;2;3] 6000) as [[[rc d] len]|] eqn:Ed; [|discriminate].
  injection Hd as -> -> Hcs. exists b, d, 3277. split; [reflexivity|]. split; [exact Ed|].
  apply (@trained_compression_lossless insertion_std_sort insertion_std_sort_spec demo_samples [1;2;3] 6000
    demo_source (replicate 17 0) 17 17 (replicate 11 0) 11 b d 3277 demo_good Eb).
  - rewrite Hm. lia.
  - rewrite Hm. unfold DICT_HEAD_SIZE. simpl. lia.
  - exact Ed.
  - apply demo_source_bytes.
  - simpl. lia.
  - unfold compressBound. rewrite Hcs. vm_compute. reflexivity.
  - vm_compute. congruence.
  - simpl. lia.
Defined.

(** ** What the code does not handle *)

(** The bytes [decompress] makes of what [compress] returned. *)
Definition compress_decompress (d : lzwDict) (strategy : utilCompressStrategy) (source : list Z)
    : option (Z * list Z) :=
  '(rc, dest, len) ← compress (Some d) (Some strategy) source (Z.of_nat (length source))
                       (replicate 100 0) 100;
  '(_, out, outLen) ← decompress (Some d) (take (Z.to_nat len) dest) len (replicate 100 0) 100;
  Some (rc, take (Z.to_nat outLen) out).

(** The balanced level is not decoded: it writes variable-length codes but
    the header does not say so, and decompression reads them as fixed-length
    codes. Ten zero bytes come back as four. *)
Theorem balanced_level_not_decoded :
  compress_decompress (demo_dict []) (mkStrategy 90 UTIL_COMP_BALANCE) (replicate 10 0)
  = Some (SDB_OK, replicate 4 0).
Proof. vm_compute. reflexivity. Qed.

(** With a code size below 13 the best level can lose the end of the data:
    several variable-length codes end in the last byte, and the decoder stops
    as soon as that byte is read. Of "ababababxab" the last "ab" is lost. *)
Theorem short_var_codes_lost_at_end :
  getCodeSize (demo_dict demo_samples) = 9 /\
  compress_decompress (demo_dict demo_samples) (mkStrategy 90 UTIL_COMP_BEST_COMPRESSION) demo_source
  = Some (SDB_OK, take 9 demo_source).
Proof. split; vm_compute; reflexivity. Qed.

(** The all-ones code has no variable-length form: when it is a valid code,
    the two zero bits of an empty code are all that is written for it. *)
Theorem all_ones_code_lost d start cap bs c :
  DictOk d -> getMaxValidCode d = 2 ^ getCodeSize d - 1 -> writer start cap bs c ->
  8 * start + Z.of_nat (length bs) + 2 <= 8 * Z.of_nat cap ->
  exists c', _writeVarLenCode d c (getMaxValidCode d) = Some (c', 0) /\
    writer start cap (bs ++ [false; false]) c'.
Proof.
  intros Hd Hm Hw Hcap.
  assert (E : getVarLenInfo d (getMaxValidCode d) 0 0 = (0, 0)).
  { unfold getVarLenInfo. rewrite dict_split, Hm. cbn [getVarLenInfo_loop].
    pose proof dict_codeSize as Hcs. unfold DICT_BITS_UPBOUND. rewrite !Z.shiftl_1_l.
    pose proof (Z.pow_le_mono_r 2 (getCodeSize d - 7) (getCodeSize d)).
    pose proof (Z.pow_le_mono_r 2 (getCodeSize d - 5) (getCodeSize d)).
    pose proof (Z.pow_le_mono_r 2 (getCodeSize d - 3) (getCodeSize d)).
    do 4 (case_Zb; [lia|]). done. }
  unfold _writeVarLenCode. rewrite E.
  destruct (writeBitsExt_ok d start cap bs c (getMaxValidCode d) 0 0) as (c' & -> & Hw');
    [apply dict_flagSize|done|lia|lia|lia|]. eauto.
Qed.

Lemma all_ones_code_lost_witness :
  exists c', _writeVarLenCode (demo_dict []) (mkCtx (replicate 8 0) 8 4 0 0) 255 = Some (c', 0) /\
    writer 4 8 [false; false] c'.
Proof.
  assert (Hm : getMaxValidCode (demo_dict []) = 255) by (vm_compute; reflexivity).
  rewrite <- Hm. apply (all_ones_code_lost (demo_dict []) 4 8 [] (mkCtx (replicate 8 0) 8 4 0 0)).
  - apply (demo_dict_ok [] 255); [|vm_compute; reflexivity|lia|vm_compute; congruence].
    split; [constructor|vm_compute; reflexivity].
  - vm_compute. reflexivity.
  - apply (writer_init (replicate 8 0) 8). simpl. lia.
  - simpl. lia.
Defined.

(** The overflow check of [compressBound] comes after the 32-bit product: with
    16-bit codes, 256 MB are said to need four bytes. *)
Lemma compressBound_wraps d : getCodeSize d = 16 -> compressBound (Some d) (2 ^ 28) = inr 4.
Proof. intros E. unfold compressBound. rewrite E. vm_compute. reflexivity. Qed.
