(* ===== verification/TransLockDef.v ===== *)
(** * Transaction lock data: lock modes, lock ids, per-session lock lists

    Models [dps/dpsTransLockDef.cpp], [include/dpsTransLockDef.hpp],
    [include/dpsTransLockUnit.hpp] and the lock-list part of
    [pmd/pmdEDU.cpp].  A session ([_pmdEDUCB *]) is named by its thread id
    ([getTID()]); lock units and lock infos, which the code reaches through
    pointers, live in finite maps of one shared [world], so every holder of
    the pointer sees every update.  Operations run in a state monad whose
    outcome is a value, a crash (a null or dangling pointer is dereferenced)
    or a thread that is still blocked. *)

From S2P Require Import Prelude.
From stdpp Require Import base gmap list sorting.
From Stdlib Require Import ZArith Lia.

Open Scope Z_scope.

(** ** Lock modes *)

Inductive DPS_TRANSLOCK_TYPE : Set :=
| DPS_TRANSLOCK_IS
| DPS_TRANSLOCK_IX
| DPS_TRANSLOCK_S
| DPS_TRANSLOCK_X.

#[export] Instance lockType_eq_dec : EqDecision DPS_TRANSLOCK_TYPE.
Proof. solve_decision. Defined.

(** The integer value of the enumerator. *)
Definition lockTypeCode (t : DPS_TRANSLOCK_TYPE) : Z :=
  match t with
  | DPS_TRANSLOCK_IS => 0
  | DPS_TRANSLOCK_IX => 1
  | DPS_TRANSLOCK_S => 2
  | DPS_TRANSLOCK_X => 3
  end.

(** ** Lock identifiers *)

Definition DMS_INVALID_OFFSET : Z := -1.
Definition DMS_INVALID_EXTENT : Z := -1.
Definition DMS_INVALID_MBID : Z := 65535.

Record dpsTransLockId : Set := mkLockId {
  _logicCSID : Z;       (* UINT32 *)
  _collectionID : Z;    (* UINT16 *)
  _recordExtentID : Z;  (* INT32 *)
  _recordOffset : Z     (* INT32 *)
}.

#[export] Instance lockId_eq_dec : EqDecision dpsTransLockId.
Proof. solve_decision. Defined.

#[export] Instance lockId_countable : Countable dpsTransLockId.
Proof.
  refine (inj_countable'
    (fun l => (_logicCSID l, _collectionID l, _recordExtentID l, _recordOffset l))
    (fun '(a, b, c, d) => mkLockId a b c d) _).
  by intros [].
Defined.

(** [dpsTransLockId::reset], the value the default constructor leaves. *)
Definition lockId_reset : dpsTransLockId :=
  mkLockId (2 ^ 32 - 1) DMS_INVALID_MBID DMS_INVALID_EXTENT DMS_INVALID_OFFSET.

(** The three-argument constructor; a null [recordID] is [None]. *)
Definition lockId_make (logicCSID collectionID : Z) (recordID : option (Z * Z))
  : dpsTransLockId :=
  match recordID with
  | Some (extent, offset) => mkLockId logicCSID collectionID extent offset
  | None => mkLockId logicCSID collectionID DMS_INVALID_EXTENT DMS_INVALID_OFFSET
  end.

Definition lockId_isValid (l : dpsTransLockId) : bool :=
  negb (2 ^ 32 - 1 =? _logicCSID l).

(** [operator<] *)
Definition lockId_lt (l r : dpsTransLockId) : bool :=
  if _logicCSID l <? _logicCSID r then true
  else if _logicCSID r <? _logicCSID l then false
  else if _collectionID l <? _collectionID r then true
  else if _collectionID r <? _collectionID l then false
  else if _recordExtentID l <? _recordExtentID r then true
  else if _recordExtentID r <? _recordExtentID l then false
  else if _recordOffset l <? _recordOffset r then true
  else false.

(** [operator==] *)
Definition lockId_eqb (l r : dpsTransLockId) : bool :=
  (_logicCSID l =? _logicCSID r) && (_collectionID l =? _collectionID r) &&
  (_recordExtentID l =? _recordExtentID r) && (_recordOffset l =? _recordOffset r).

(** ** Lock infos, sessions, lock units *)

Record dpsTransCBLockInfo : Set := mkLockInfo {
  _pNextWaitCB : option Z;
  _lockType : DPS_TRANSLOCK_TYPE;
  _ref : Z   (* INT64 behind [_pRef]; the number of acquisitions minus one *)
}.

(** The constructor. *)
Definition newLockInfo (t : DPS_TRANSLOCK_TYPE) : dpsTransCBLockInfo :=
  mkLockInfo None t 0.

Definition isLockMatch (i : dpsTransCBLockInfo) (t : DPS_TRANSLOCK_TYPE) : bool :=
  if decide (_lockType i = t) then true
  else if decide (DPS_TRANSLOCK_IS = t) then true
  else if decide (DPS_TRANSLOCK_X = _lockType i) then true
  else false.

(** What a session's event queue may hold: the lock wake-up, or any other
    event (identified by its type number). *)
Inductive pmdEDUEvent : Set :=
| PMD_EDU_EVENT_LOCKWAKEUP
| PMD_EDU_EVENT_OTHER (n : Z).

(** The fields of [_pmdEDUCB] that the lock manager uses. *)
Record pmdEDUCB : Type := mkEDU {
  _transLockLst : gmap dpsTransLockId dpsTransCBLockInfo;
  _queue : list pmdEDUEvent;
  _waitLock : dpsTransLockId
}.

(** [_runList] is a [std::map<UINT32, DPS_TRANSLOCK_TYPE>] that
    [checkCompatible] walks in key order with an early exit. *)
Record dpsTransLockUnit : Set := mkUnit {
  _pWaitCB : option Z;
  _runList : list (Z * DPS_TRANSLOCK_TYPE)
}.

Definition newLockUnit : dpsTransLockUnit := mkUnit None [].

(** ** The shared world and the lock monad

    [_bucketLst] maps a bucket number to its [_lockLst]; an absent bucket is
    a null pointer of the vector.  [allocs] is the allocator's schedule: each
    [SDB_OSS_NEW] consumes one entry, [false] is an allocation failure and an
    exhausted schedule never fails. *)

Record world : Type := mkWorld {
  _bucketLst : gmap Z (gmap dpsTransLockId dpsTransLockUnit);
  edus : gmap Z pmdEDUCB;
  allocs : list bool
}.

(** What the other threads do while the modelled thread waits, one function
    per wait; when the list is exhausted the thread is still waiting. *)
Abbreviation environment := (list (world -> world)).

Inductive outcome (A : Type) : Type :=
| Done (a : A) (e : environment) (w : world)
| Crash
| Blocked.
Arguments Done {A}.
Arguments Crash {A}.
Arguments Blocked {A}.

Definition lockM (A : Type) : Type := environment -> world -> outcome A.

#[export] Instance lockM_ret : MRet lockM := fun A a e w => Done a e w.
#[export] Instance lockM_bind : MBind lockM := fun A B f m e w =>
  match m e w with
  | Done a e' w' => f a e' w'
  | Crash => Crash
  | Blocked => Blocked
  end.

Definition crash {A} : lockM A := fun _ _ => Crash.
Definition get_world : lockM world := fun e w => Done w e w.
Definition put_world (w : world) : lockM unit := fun e _ => Done tt e w.

(** Run a computation with no waiting allowed and keep the world it leaves. *)
Definition exec {A} (m : lockM A) (w : world) : world :=
  match m [] w with Done _ _ w' => w' | _ => w end.

(** ** Allocation *)

Definition sdb_oss_new : lockM bool := fun e w =>
  match allocs w with
  | [] => Done true e w
  | b :: bs => Done b e (mkWorld (_bucketLst w) (edus w) bs)
  end.

(** ** Session operations ([pmd/pmdEDU.cpp]) *)

Definition set_edus (w : world) (m : gmap Z pmdEDUCB) : world :=
  mkWorld (_bucketLst w) m (allocs w).

(** Dereference of a session pointer. *)
Definition deref_edu (tid : Z) : lockM pmdEDUCB := fun e w =>
  match edus w !! tid with
  | Some cb => Done cb e w
  | None => Crash
  end.

Definition store_edu (tid : Z) (cb : pmdEDUCB) : lockM unit := fun e w =>
  Done tt e (set_edus w (<[tid := cb]> (edus w))).

Definition set_locks (cb : pmdEDUCB) l : pmdEDUCB := mkEDU l (_queue cb) (_waitLock cb).

Definition getTransLock (tid : Z) (lockId : dpsTransLockId)
  : lockM (option dpsTransCBLockInfo) :=
  cb ← deref_edu tid;
  mret (_transLockLst cb !! lockId).

Definition addLockInfo (tid : Z) (lockId : dpsTransLockId) (t : DPS_TRANSLOCK_TYPE)
  : lockM unit :=
  ok ← sdb_oss_new;
  if (ok : bool) then
    cb ← deref_edu tid;
    store_edu tid (set_locks cb (<[lockId := newLockInfo t]> (_transLockLst cb)))
  else mret tt.

Definition delLockInfo (tid : Z) (lockId : dpsTransLockId) : lockM unit :=
  cb ← deref_edu tid;
  store_edu tid (set_locks cb (delete lockId (_transLockLst cb))).

Definition clearLockList (tid : Z) : lockM unit :=
  cb ← deref_edu tid;
  store_edu tid (set_locks cb ∅).

Definition setWaitLock (tid : Z) (lockId : dpsTransLockId) : lockM unit :=
  cb ← deref_edu tid;
  store_edu tid (mkEDU (_transLockLst cb) (_queue cb) lockId).

Definition clearWaitLock (tid : Z) : lockM unit := setWaitLock tid lockId_reset.

Definition postEvent (tid : Z) (ev : pmdEDUEvent) : lockM unit :=
  cb ← deref_edu tid;
  store_edu tid (mkEDU (_transLockLst cb) (_queue cb ++ [ev]) (_waitLock cb)).

(** [waitEvent] with a timeout: when the wait ends the queue either holds an
    event, which is popped, or the time is up.  What happened to the world
    meanwhile is the next entry of the environment. *)
Definition waitEvent (tid : Z) : lockM (option pmdEDUEvent) := fun e w =>
  match e with
  | [] => Blocked
  | others :: e' =>
      let w' := others w in
      match edus w' !! tid with
      | None => Crash
      | Some cb =>
          match _queue cb with
          | [] => Done None e' w'
          | ev :: q =>
              Done (Some ev) e'
                (set_edus w' (<[tid := mkEDU (_transLockLst cb) q (_waitLock cb)]> (edus w')))
          end
      end
  end.

(** ** Lock-info operations through a [dpsTransCBLockInfo *] *)

Definition update_info (tid : Z) (lockId : dpsTransLockId)
  (f : dpsTransCBLockInfo -> dpsTransCBLockInfo) : lockM unit :=
  cb ← deref_edu tid;
  match _transLockLst cb !! lockId with
  | None => crash
  | Some i => store_edu tid (set_locks cb (<[lockId := f i]> (_transLockLst cb)))
  end.

Definition info_setType (i : dpsTransCBLockInfo) t :=
  mkLockInfo (_pNextWaitCB i) t (_ref i).
Definition info_setNext (i : dpsTransCBLockInfo) n :=
  mkLockInfo n (_lockType i) (_ref i).
Definition info_setRef (i : dpsTransCBLockInfo) r :=
  mkLockInfo (_pNextWaitCB i) (_lockType i) r.

Definition setType (tid : Z) (lockId : dpsTransLockId) (t : DPS_TRANSLOCK_TYPE)
  : lockM unit := update_info tid lockId (fun i => info_setType i t).

Definition setNextWaitCB (tid : Z) (lockId : dpsTransLockId) (n : option Z)
  : lockM unit := update_info tid lockId (fun i => info_setNext i n).

Definition incRef (tid : Z) (lockId : dpsTransLockId) : lockM unit :=
  update_info tid lockId (fun i => info_setRef i (_ref i + 1)).

(** [ossFetchAndDecrement64]: returns the value before the decrement. *)
Definition decRef (tid : Z) (lockId : dpsTransLockId) : lockM Z :=
  cb ← deref_edu tid;
  match _transLockLst cb !! lockId with
  | None => crash
  | Some i =>
      _ ← store_edu tid
            (set_locks cb (<[lockId := info_setRef i (_ref i - 1)]> (_transLockLst cb)));
      mret (_ref i)
  end.
