(* ===== verification/TransLockBucket.v ===== *)
(** * The lock bucket: run lists, wait queues, blocking and non-blocking entry

    Models [dps/dpsTransLockBucket.cpp] ([dpsLockBucket]).  A bucket is named
    by its index in the manager's vector, a lock unit by its bucket and lock
    id.  Every critical section of [_lstMutex] is one atomic definition; the
    blocking operations are a first section followed by the [waitretry] loop
    of [waitLock] and a second section. *)

From S2P Require Import Prelude TransLockDef.
From stdpp Require Import base gmap list sorting.
From Stdlib Require Import ZArith Lia.

Open Scope Z_scope.

(** ** Access to the units of a bucket *)

Definition set_buckets (w : world) bs : world := mkWorld bs (edus w) (allocs w).

(** [_lockLst.find( lockId )] on the bucket [b] points to. *)
Definition find_unit (b : Z) (lockId : dpsTransLockId) : lockM (option dpsTransLockUnit) :=
  fun e w =>
    match _bucketLst w !! b with
    | None => Crash
    | Some lst => Done (lst !! lockId) e w
    end.

(** Dereference of a [dpsTransLockUnit *]; an erased unit is a dangling pointer. *)
Definition deref_unit (b : Z) (lockId : dpsTransLockId) : lockM dpsTransLockUnit :=
  ou ← find_unit b lockId;
  match ou with
  | Some u => mret u
  | None => crash
  end.

Definition upd_lockLst (b : Z)
  (f : gmap dpsTransLockId dpsTransLockUnit -> gmap dpsTransLockId dpsTransLockUnit)
  : lockM unit := fun e w =>
  match _bucketLst w !! b with
  | None => Crash
  | Some lst => Done tt e (set_buckets w (<[b := f lst]> (_bucketLst w)))
  end.

Definition store_unit (b : Z) (lockId : dpsTransLockId) (u : dpsTransLockUnit) : lockM unit :=
  upd_lockLst b (fun lst => <[lockId := u]> lst).

Definition erase_unit (b : Z) (lockId : dpsTransLockId) : lockM unit :=
  upd_lockLst b (fun lst => delete lockId lst).

(** The find-or-create block shared by [acquire], [upgrade], [tryAcquire] and
    [tryAcquireOrAppend]; [false] is the [SDB_OOM] exit. *)
Definition find_or_new_unit (b : Z) (lockId : dpsTransLockId) : lockM bool :=
  ou ← find_unit b lockId;
  match ou with
  | Some _ => mret true
  | None =>
      ok ← sdb_oss_new;
      if (ok : bool) then _ ← store_unit b lockId newLockUnit; mret true
      else mret false
  end.

(** ** Compatibility *)

Definition isLockCompatible (first second : DPS_TRANSLOCK_TYPE) : bool :=
  if Z.lor (lockTypeCode first) (lockTypeCode second) =? lockTypeCode DPS_TRANSLOCK_X
  then false else true.

Fixpoint checkCompatible_loop (tid : Z) (lockType : DPS_TRANSLOCK_TYPE)
  (iterLst : list (Z * DPS_TRANSLOCK_TYPE)) : bool :=
  match iterLst with
  | [] => true
  | (k, held) :: rest =>
      if bool_decide (held = lockType) && bool_decide (DPS_TRANSLOCK_X <> lockType)
      then true
      else if negb (k =? tid) then
        if isLockCompatible held lockType then checkCompatible_loop tid lockType rest
        else false
      else checkCompatible_loop tid lockType rest
  end.

Definition checkCompatible (tid : Z) (lockType : DPS_TRANSLOCK_TYPE)
  (u : dpsTransLockUnit) : bool := checkCompatible_loop tid lockType (_runList u).

(** ** Run list and wait queue *)

Definition appendToRun (tid : Z) (lockType : DPS_TRANSLOCK_TYPE)
  (b : Z) (lockId : dpsTransLockId) : lockM Z :=
  u ← deref_unit b lockId;
  if negb (checkCompatible tid lockType u) then mret SDB_DPS_TRANS_LOCK_INCOMPATIBLE
  else
    _ ← store_unit b lockId (mkUnit (_pWaitCB u) (om_insert tid lockType (_runList u)));
    mret SDB_OK.

Definition wakeUp (tid : Z) : lockM unit := postEvent tid PMD_EDU_EVENT_LOCKWAKEUP.

(** The walk of [appendToWait] to the last waiter.  The queue links at most
    one entry per session, so [fuel] = number of sessions + 1 is exhausted
    only by a cyclic queue, on which the code spins forever. *)
Fixpoint appendToWait_loop (fuel : nat) (tid : Z) (lockId : dpsTransLockId) (pWaitCB : Z)
  : lockM unit :=
  match fuel with
  | O => fun _ _ => Blocked
  | S fuel' =>
      pLockInfo ← getTransLock pWaitCB lockId;
      match pLockInfo with
      | None => crash
      | Some i =>
          match _pNextWaitCB i with
          | None => setNextWaitCB pWaitCB lockId (Some tid)
          | Some next => appendToWait_loop fuel' tid lockId next
          end
      end
  end.

Definition queue_fuel : lockM nat := fun e w => Done (S (size (edus w))) e w.

Definition appendToWait (tid : Z) (lockId : dpsTransLockId) (b : Z) : lockM unit :=
  u ← deref_unit b lockId;
  match _pWaitCB u with
  | None => store_unit b lockId (mkUnit (Some tid) (_runList u))
  | Some pWaitCB =>
      fuel ← queue_fuel;
      appendToWait_loop fuel tid lockId pWaitCB
  end.

Definition appendHeadToWait (tid : Z) (lockId : dpsTransLockId) (b : Z) : lockM unit :=
  u ← deref_unit b lockId;
  _ ← store_unit b lockId (mkUnit (Some tid) (_runList u));
  match _pWaitCB u with
  | None => mret tt
  | Some pWaitCB => setNextWaitCB tid lockId (Some pWaitCB)
  end.

Definition removeFromRun (tid : Z) (b : Z) (lockId : dpsTransLockId) : lockM unit :=
  u ← deref_unit b lockId;
  _ ← store_unit b lockId (mkUnit (_pWaitCB u) (om_erase tid (_runList u)));
  match _pWaitCB u with
  | Some h => wakeUp h
  | None => mret tt
  end.

Fixpoint removeFromWait_loop (fuel : nat) (tid : Z) (lockId : dpsTransLockId) (pWaitCB : Z)
  : lockM unit :=
  match fuel with
  | O => fun _ _ => Blocked
  | S fuel' =>
      pLockInfo ← getTransLock pWaitCB lockId;
      match pLockInfo with
      | None => crash
      | Some i =>
          match _pNextWaitCB i with
          | None => mret tt
          | Some next =>
              _ ← deref_edu next;
              if next =? tid then
                pLockInfoTmp ← getTransLock next lockId;
                match pLockInfoTmp with
                | Some it => setNextWaitCB pWaitCB lockId (_pNextWaitCB it)
                | None => setNextWaitCB pWaitCB lockId None
                end
              else removeFromWait_loop fuel' tid lockId next
          end
      end
  end.

Definition removeFromWait (tid : Z) (b : Z) (lockId : dpsTransLockId) : lockM unit :=
  u ← deref_unit b lockId;
  match _pWaitCB u with
  | None => crash
  | Some pWaitCB =>
      _ ← deref_edu pWaitCB;
      if pWaitCB =? tid then
        pLockInfo ← getTransLock pWaitCB lockId;
        match pLockInfo with
        | Some (mkLockInfo (Some next) _ _) =>
            _ ← store_unit b lockId (mkUnit (Some next) (_runList u));
            wakeUp next
        | _ => store_unit b lockId (mkUnit None (_runList u))
        end
      else
        fuel ← queue_fuel;
        removeFromWait_loop fuel tid lockId pWaitCB
  end.

(** ** Waiting *)

Definition waitLock (tid : Z) : lockM Z :=
  ev ← waitEvent tid;
  match ev with
  | None => mret SDB_TIMEOUT
  | Some PMD_EDU_EVENT_LOCKWAKEUP => mret SDB_OK
  | Some ev => _ ← postEvent tid ev; mret SDB_INTERRUPT
  end.

(** The critical section after a wait that returned [rc]; [None] is the
    [goto waitretry]. *)
Definition retry_section (rc : Z) (tid : Z) (lockType : DPS_TRANSLOCK_TYPE)
  (b : Z) (lockId : dpsTransLockId) : lockM (option Z) :=
  if negb (rc =? SDB_OK) then
    _ ← removeFromWait tid b lockId; mret (Some rc)
  else
    rc' ← appendToRun tid lockType b lockId;
    if negb (rc' =? SDB_OK) then mret None
    else _ ← removeFromWait tid b lockId; mret (Some rc').

(** Each turn consumes one entry of the environment, so [fuel] = entries + 1
    is never the reason to stop. *)
Fixpoint waitretry_loop (fuel : nat) (tid : Z) (lockType : DPS_TRANSLOCK_TYPE)
  (b : Z) (lockId : dpsTransLockId) : lockM Z :=
  match fuel with
  | O => fun _ _ => Blocked
  | S fuel' =>
      rc ← waitLock tid;
      r ← retry_section rc tid lockType b lockId;
      match r with
      | Some rc' => mret rc'
      | None => waitretry_loop fuel' tid lockType b lockId
      end
  end.

Definition waitretry (tid : Z) (lockType : DPS_TRANSLOCK_TYPE)
  (b : Z) (lockId : dpsTransLockId) : lockM Z :=
  fun e w => waitretry_loop (S (length e)) tid lockType b lockId e w.

(** ** The operations of [dpsLockBucket] *)

(** First section of [acquire] and [upgrade]: [Some rc] leaves, [None] waits. *)
Definition enter_section (head : bool) (tid : Z) (lockId : dpsTransLockId)
  (lockType : DPS_TRANSLOCK_TYPE) (b : Z) : lockM (option Z) :=
  ok ← find_or_new_unit b lockId;
  if negb ok then mret (Some SDB_OOM)
  else
    rc ← appendToRun tid lockType b lockId;
    if negb (rc =? SDB_OK) then
      _ ← (if head then appendHeadToWait tid lockId b else appendToWait tid lockId b);
      mret None
    else mret (Some rc).

Definition lockBucket_acquire (tid : Z) (lockId : dpsTransLockId)
  (lockType : DPS_TRANSLOCK_TYPE) (b : Z) : lockM Z :=
  r ← enter_section false tid lockId lockType b;
  match r with
  | Some rc => mret rc
  | None => waitretry tid lockType b lockId
  end.

Definition lockBucket_upgrade (tid : Z) (lockId : dpsTransLockId)
  (lockType : DPS_TRANSLOCK_TYPE) (b : Z) : lockM Z :=
  r ← enter_section true tid lockId lockType b;
  match r with
  | Some rc => mret rc
  | None => waitretry tid lockType b lockId
  end.

Definition lockBucket_waitLockX (tid : Z) (lockId : dpsTransLockId) (b : Z) : lockM Z :=
  ou ← find_unit b lockId;
  match ou with
  | None => mret SDB_SYS
  | Some _ => waitretry tid DPS_TRANSLOCK_X b lockId
  end.

Definition lockBucket_release (tid : Z) (lockId : dpsTransLockId) (b : Z) : lockM unit :=
  ou ← find_unit b lockId;
  match ou with
  | None => mret tt
  | Some _ =>
      _ ← removeFromRun tid b lockId;
      u ← deref_unit b lockId;
      match _pWaitCB u, _runList u with
      | None, [] => erase_unit b lockId
      | _, _ => mret tt
      end
  end.

Definition lockBucket_test (tid : Z) (lockId : dpsTransLockId)
  (lockType : DPS_TRANSLOCK_TYPE) (b : Z) : lockM Z :=
  ou ← find_unit b lockId;
  match ou with
  | None => mret SDB_OK
  | Some u =>
      if negb (checkCompatible tid lockType u) then mret SDB_DPS_TRANS_LOCK_INCOMPATIBLE
      else mret SDB_OK
  end.

Definition lockBucket_tryAcquire (tid : Z) (lockId : dpsTransLockId)
  (lockType : DPS_TRANSLOCK_TYPE) (b : Z) : lockM Z :=
  ok ← find_or_new_unit b lockId;
  if negb ok then mret SDB_OOM
  else appendToRun tid lockType b lockId.

Definition lockBucket_tryAcquireOrAppend (tid : Z) (lockId : dpsTransLockId)
  (lockType : DPS_TRANSLOCK_TYPE) (appendHead : bool) (b : Z) : lockM Z :=
  ok ← find_or_new_unit b lockId;
  if negb ok then mret SDB_OOM
  else
    rc ← appendToRun tid lockType b lockId;
    if negb (rc =? SDB_OK) then
      _ ← (if appendHead then appendHeadToWait tid lockId b else appendToWait tid lockId b);
      mret SDB_DPS_TRANS_APPEND_TO_WAIT
    else mret rc.

Definition lockBucket_hasWait (lockId : dpsTransLockId) (b : Z) : lockM bool :=
  ou ← find_unit b lockId;
  match ou with
  | Some u => mret (match _pWaitCB u with Some _ => true | None => false end)
  | None => mret false
  end.
