(* ===== verification/TransLock.v ===== *)
(** * The transaction lock manager

    Models [dps/dpsTransLock.cpp] ([dpsTransLock]): the hierarchical
    acquire / try / test families over collection space, collection and
    record, release, upgrade and the append-and-wait entry used by scanners.
    The blocking ([acquire*]) and the non-blocking ([try*]) families differ
    only in the bucket operations they call, so both are instances of the
    class [BucketOps]. *)

From S2P Require Import Prelude TransLockDef TransLockBucket.
From stdpp Require Import base gmap list sorting.
From Stdlib Require Import ZArith Lia.

Open Scope Z_scope.

(** ** Buckets *)

Definition MAX_LOCKBUCKET_NUM : Z := 1000.

(** [%] truncates; the result is converted to [UINT32]. *)
Definition getBucketNo (lockId : dpsTransLockId) : Z :=
  if negb (_recordOffset lockId =? DMS_INVALID_OFFSET) then
    u32 (Z.rem (_recordOffset lockId) MAX_LOCKBUCKET_NUM)
  else if negb (_collectionID lockId =? DMS_INVALID_MBID) then
    Z.rem (_collectionID lockId) MAX_LOCKBUCKET_NUM
  else Z.rem (_logicCSID lockId) MAX_LOCKBUCKET_NUM.

(** [getBucket]: the bucket is created on first use.  An index outside the
    vector is undefined behaviour. *)
Definition getBucket (lockId : dpsTransLockId) : lockM (Z * Z) :=
  let bucketNo := getBucketNo lockId in
  if negb (bucketNo <? MAX_LOCKBUCKET_NUM) then crash
  else
    w ← get_world;
    match _bucketLst w !! bucketNo with
    | Some _ => mret (SDB_OK, bucketNo)
    | None =>
        ok ← sdb_oss_new;
        if negb ok then mret (SDB_OOM, bucketNo)
        else
          w' ← get_world;
          _ ← put_world (set_buckets w' (<[bucketNo := ∅]> (_bucketLst w')));
          mret (SDB_OK, bucketNo)
    end.

(** ** Upgrade rule *)

Definition upgradeCheck (srcType dstType : DPS_TRANSLOCK_TYPE) : Z :=
  let d := lockTypeCode dstType - lockTypeCode srcType in
  if ((d =? 1) && negb (bool_decide (srcType = DPS_TRANSLOCK_IX))) ||
     ((d =? 2) && negb (bool_decide (dstType = DPS_TRANSLOCK_X)))
  then SDB_OK else SDB_PERM.

(** ** Intention targets *)

(** The [iLockId] of [acquireX], [acquireS], [tryX], [tryS], [testX], [testS]
    and [release]: the collection of a record, the space of a collection. *)
Definition iLockIdOf (lockId : dpsTransLockId) : dpsTransLockId :=
  if negb (_recordOffset lockId =? DMS_INVALID_OFFSET) then
    mkLockId (_logicCSID lockId) (_collectionID lockId) DMS_INVALID_EXTENT DMS_INVALID_OFFSET
  else
    mkLockId (_logicCSID lockId) DMS_INVALID_MBID
             (_recordExtentID lockId) (_recordOffset lockId).

(** The [isLockId] / [sLockId] of the intention operations: a default id with
    the collection space filled in. *)
Definition sLockIdOf (lockId : dpsTransLockId) : dpsTransLockId :=
  mkLockId (_logicCSID lockId) (_collectionID lockId_reset)
           (_recordExtentID lockId_reset) (_recordOffset lockId_reset).

Definition hasCollection (lockId : dpsTransLockId) : bool :=
  negb (_collectionID lockId =? DMS_INVALID_MBID).

(** ** Release *)

(** The recursion climbs record, collection, space; [fuel] counts the levels
    and [release] starts it at three. *)
Fixpoint release_loop (fuel : nat) (tid : Z) (lockId : dpsTransLockId) : lockM unit :=
  match fuel with
  | O => fun _ _ => Blocked
  | S fuel' =>
      pLockInfo ← getTransLock tid lockId;
      match pLockInfo with
      | None => mret tt
      | Some _ =>
          lockRef ← decRef tid lockId;
          _ ← (if lockRef <=? 0 then
                 rb ← getBucket lockId;
                 _ ← (if negb (fst rb =? SDB_OK) then mret tt
                      else lockBucket_release tid lockId (snd rb));
                 delLockInfo tid lockId
               else mret tt);
          if hasCollection lockId then release_loop fuel' tid (iLockIdOf lockId)
          else mret tt
      end
  end.

Definition release (tid : Z) (lockId : dpsTransLockId) : lockM unit :=
  release_loop 3 tid lockId.

Fixpoint releaseAll_loop (tid : Z) (ids : list dpsTransLockId) : lockM unit :=
  match ids with
  | [] => mret tt
  | lockId :: rest =>
      rb ← getBucket lockId;
      _ ← (if negb (fst rb =? SDB_OK) then mret tt
           else lockBucket_release tid lockId (snd rb));
      releaseAll_loop tid rest
  end.

(** The keys of a [DpsTransCBLockList] in iteration order. *)
Definition lockList_keys (m : gmap dpsTransLockId dpsTransCBLockInfo) : list dpsTransLockId :=
  merge_sort (fun l r => Is_true (negb (lockId_lt r l))) (map_to_list m).*1.

Definition releaseAll (tid : Z) : lockM unit :=
  cb ← deref_edu tid;
  _ ← releaseAll_loop tid (lockList_keys (_transLockLst cb));
  clearLockList tid.

(** ** The acquire and try families *)

(** What a family does to enter a bucket: the entry of a lock not yet held,
    the entry of an upgrade, and whether the wait lock is published
    ([DPS_TRANS_WAIT_LOCK]) around the former. *)
Class BucketOps := {
  bo_acquire : Z -> dpsTransLockId -> DPS_TRANSLOCK_TYPE -> Z -> lockM Z;
  bo_upgrade : Z -> dpsTransLockId -> DPS_TRANSLOCK_TYPE -> Z -> lockM Z;
  bo_publish : bool
}.

Definition blockingOps : BucketOps := {|
  bo_acquire := lockBucket_acquire;
  bo_upgrade := lockBucket_upgrade;
  bo_publish := true
|}.

Definition tryOps : BucketOps := {|
  bo_acquire := lockBucket_tryAcquire;
  bo_upgrade := lockBucket_tryAcquire;
  bo_publish := false
|}.

Section families.
Context {B : BucketOps}.

(** [upgrade] and [tryUpgrade], called with the lock info of [lockId]. *)
Definition upgradeWith (tid : Z) (lockId : dpsTransLockId)
  (pLockInfo : dpsTransCBLockInfo) (lockType : DPS_TRANSLOCK_TYPE) : lockM Z :=
  let rc := upgradeCheck (_lockType pLockInfo) lockType in
  if negb (rc =? SDB_OK) then mret rc
  else
    rb ← getBucket lockId;
    if negb (fst rb =? SDB_OK) then mret (fst rb)
    else
      let lastLockType := _lockType pLockInfo in
      _ ← setType tid lockId lockType;
      rc ← bo_upgrade tid lockId lockType (snd rb);
      if negb (rc =? SDB_OK) then
        _ ← setType tid lockId lastLockType; mret rc
      else mret rc.

(** The branch for a lock the session does not hold: publish, add the lock
    info, enter the bucket, withdraw the info on failure. *)
Definition acquireNew (tid : Z) (lockId : dpsTransLockId)
  (lockType : DPS_TRANSLOCK_TYPE) : lockM Z :=
  rb ← getBucket lockId;
  if negb (fst rb =? SDB_OK) then mret (fst rb)
  else
    _ ← (if bo_publish then setWaitLock tid lockId else mret tt);
    _ ← addLockInfo tid lockId lockType;
    rc ← bo_acquire tid lockId lockType (snd rb);
    _ ← (if bo_publish then clearWaitLock tid else mret tt);
    if negb (rc =? SDB_OK) then _ ← delLockInfo tid lockId; mret rc
    else mret rc.

(** The part of the X, S and IX operations below the intention lock. *)
Definition takeOrUpgrade (tid : Z) (lockId : dpsTransLockId)
  (lockType : DPS_TRANSLOCK_TYPE) : lockM Z :=
  pLockInfo ← getTransLock tid lockId;
  match pLockInfo with
  | Some i =>
      if isLockMatch i lockType then _ ← incRef tid lockId; mret SDB_OK
      else
        rc ← upgradeWith tid lockId i lockType;
        if rc =? SDB_OK then _ ← incRef tid lockId; mret rc
        else mret rc
  | None => acquireNew tid lockId lockType
  end.

(** The part of the IS operations below the intention lock: any lock held
    covers IS. *)
Definition takeIS (tid : Z) (lockId : dpsTransLockId) : lockM Z :=
  pLockInfo ← getTransLock tid lockId;
  match pLockInfo with
  | Some _ => _ ← incRef tid lockId; mret SDB_OK
  | None => acquireNew tid lockId DPS_TRANSLOCK_IS
  end.

(** Take the intention lock on [iLockId] first when there is one, and give
    it back when the rest fails. *)
Definition withIntention (tid : Z) (lockId iLockId : dpsTransLockId)
  (intention : lockM Z) (body : lockM Z) : lockM Z :=
  if hasCollection lockId then
    rc ← intention;
    if negb (rc =? SDB_OK) then mret rc
    else
      rc ← body;
      if negb (rc =? SDB_OK) then _ ← release tid iLockId; mret rc
      else mret rc
  else body.

(** [acquireIS] / [tryIS] call themselves on the space id, which has no
    collection; the space case is their recursive instance. *)
Definition lockIS (tid : Z) (lockId : dpsTransLockId) : lockM Z :=
  withIntention tid lockId (sLockIdOf lockId)
    (takeIS tid (sLockIdOf lockId)) (takeIS tid lockId).

Definition lockIX (tid : Z) (lockId : dpsTransLockId) : lockM Z :=
  withIntention tid lockId (sLockIdOf lockId)
    (lockIS tid (sLockIdOf lockId)) (takeOrUpgrade tid lockId DPS_TRANSLOCK_IX).

Definition lockS (tid : Z) (lockId : dpsTransLockId) : lockM Z :=
  withIntention tid lockId (iLockIdOf lockId)
    (lockIS tid (iLockIdOf lockId)) (takeOrUpgrade tid lockId DPS_TRANSLOCK_S).

Definition lockX (tid : Z) (lockId : dpsTransLockId) : lockM Z :=
  withIntention tid lockId (iLockIdOf lockId)
    (lockIX tid (iLockIdOf lockId)) (takeOrUpgrade tid lockId DPS_TRANSLOCK_X).
End families.

Definition upgrade := @upgradeWith blockingOps.
Definition acquireIS := @lockIS blockingOps.
Definition acquireIX := @lockIX blockingOps.
Definition acquireS := @lockS blockingOps.
Definition acquireX := @lockX blockingOps.

Definition tryUpgrade := @upgradeWith tryOps.
Definition tryIS := @lockIS tryOps.
Definition tryIX := @lockIX tryOps.
Definition tryS := @lockS tryOps.
Definition tryX := @lockX tryOps.

(** ** The test family *)

Definition testUpgrade (tid : Z) (lockId : dpsTransLockId)
  (pLockInfo : dpsTransCBLockInfo) (lockType : DPS_TRANSLOCK_TYPE) : lockM Z :=
  let rc := upgradeCheck (_lockType pLockInfo) lockType in
  if negb (rc =? SDB_OK) then mret rc
  else
    rb ← getBucket lockId;
    if negb (fst rb =? SDB_OK) then mret (fst rb)
    else lockBucket_test tid lockId lockType (snd rb).

Definition testNew (tid : Z) (lockId : dpsTransLockId)
  (lockType : DPS_TRANSLOCK_TYPE) : lockM Z :=
  rb ← getBucket lockId;
  if negb (fst rb =? SDB_OK) then mret (fst rb)
  else lockBucket_test tid lockId lockType (snd rb).

(** [testIS] recurses once, on the space id. *)
Definition testIS_space (tid : Z) (lockId : dpsTransLockId) : lockM Z :=
  pLockInfo ← getTransLock tid lockId;
  match pLockInfo with
  | Some _ => mret SDB_OK
  | None => testNew tid lockId DPS_TRANSLOCK_IS
  end.

Definition testIS (tid : Z) (lockId : dpsTransLockId) : lockM Z :=
  pLockInfo ← getTransLock tid lockId;
  match pLockInfo with
  | Some _ => mret SDB_OK
  | None =>
      rc ← (if hasCollection lockId then testIS_space tid (sLockIdOf lockId)
            else mret SDB_OK);
      if negb (rc =? SDB_OK) then mret rc
      else testNew tid lockId DPS_TRANSLOCK_IS
  end.

(** The common shape of [testX], [testS] and [testIX]. *)
Definition testMode (tid : Z) (lockId : dpsTransLockId)
  (lockType : DPS_TRANSLOCK_TYPE) (intention : lockM Z) : lockM Z :=
  pLockInfo ← getTransLock tid lockId;
  match pLockInfo with
  | Some i =>
      if isLockMatch i lockType then mret SDB_OK
      else
        rc ← (if hasCollection lockId then intention else mret SDB_OK);
        if negb (rc =? SDB_OK) then mret rc
        else testUpgrade tid lockId i lockType
  | None =>
      rc ← (if hasCollection lockId then intention else mret SDB_OK);
      if negb (rc =? SDB_OK) then mret rc
      else testNew tid lockId lockType
  end.

Definition testIX (tid : Z) (lockId : dpsTransLockId) : lockM Z :=
  testMode tid lockId DPS_TRANSLOCK_IX (testIS tid (sLockIdOf lockId)).

Definition testS (tid : Z) (lockId : dpsTransLockId) : lockM Z :=
  testMode tid lockId DPS_TRANSLOCK_S (testIS tid (iLockIdOf lockId)).

Definition testX (tid : Z) (lockId : dpsTransLockId) : lockM Z :=
  testMode tid lockId DPS_TRANSLOCK_X (testIX tid (iLockIdOf lockId)).

(** ** Append-and-wait, used by the record scanners *)

Definition tryUpgradeOrAppendHead (tid : Z) (lockId : dpsTransLockId)
  (pLockInfo : dpsTransCBLockInfo) (lockType : DPS_TRANSLOCK_TYPE) : lockM Z :=
  let rc := upgradeCheck (_lockType pLockInfo) lockType in
  if negb (rc =? SDB_OK) then mret rc
  else
    rb ← getBucket lockId;
    if negb (fst rb =? SDB_OK) then mret (fst rb)
    else
      let lastLockType := _lockType pLockInfo in
      _ ← setType tid lockId lockType;
      rc ← lockBucket_tryAcquireOrAppend tid lockId lockType true (snd rb);
      if negb (rc =? SDB_OK) then
        if rc =? SDB_DPS_TRANS_APPEND_TO_WAIT then mret rc
        else _ ← setType tid lockId lastLockType; mret rc
      else mret rc.

(** The collection id of a record id, [iLockId] of [tryOrAppendX]. *)
Definition collectionOf (lockId : dpsTransLockId) : dpsTransLockId :=
  mkLockId (_logicCSID lockId) (_collectionID lockId) DMS_INVALID_EXTENT DMS_INVALID_OFFSET.

Definition tryOrAppendX (tid : Z) (lockId : dpsTransLockId) : lockM Z :=
  let iLockId := collectionOf lockId in
  rc ← tryIX tid iLockId;
  if negb (rc =? SDB_OK) then mret rc
  else
    pLockInfo ← getTransLock tid lockId;
    match pLockInfo with
    | Some i =>
        if isLockMatch i DPS_TRANSLOCK_X then _ ← incRef tid lockId; mret SDB_OK
        else
          rc ← tryUpgradeOrAppendHead tid lockId i DPS_TRANSLOCK_X;
          if rc =? SDB_OK then _ ← incRef tid lockId; mret rc
          else _ ← release tid iLockId; mret rc
    | None =>
        rb ← getBucket lockId;
        if negb (fst rb =? SDB_OK) then _ ← release tid iLockId; mret (fst rb)
        else
          _ ← addLockInfo tid lockId DPS_TRANSLOCK_X;
          rc ← lockBucket_tryAcquireOrAppend tid lockId DPS_TRANSLOCK_X false (snd rb);
          if negb (rc =? SDB_OK) then
            if rc =? SDB_DPS_TRANS_APPEND_TO_WAIT then mret rc
            else _ ← delLockInfo tid lockId; _ ← release tid iLockId; mret rc
          else mret rc
    end.

Definition wait (tid : Z) (lockId : dpsTransLockId) : lockM Z :=
  rb ← getBucket lockId;
  if negb (fst rb =? SDB_OK) then mret (fst rb)
  else lockBucket_waitLockX tid lockId (snd rb).

Definition hasWait (lockId : dpsTransLockId) : lockM bool :=
  rb ← getBucket lockId;
  if negb (fst rb =? SDB_OK) then mret false
  else lockBucket_hasWait lockId (snd rb).
