(* ===== verification/TransLockSafety.v ===== *)
(** * Lock compatibility is never violated

    Facts about [TransLockBucket]: the compatibility test with its early exit
    agrees with the all-holders reference, and every critical section of the
    bucket, run by any thread in any interleaving, keeps the holders of every
    lock pairwise compatible. *)

From S2P Require Import Prelude TransLockDef TransLockBucket TransLock.
From stdpp Require Import base gmap list sorting relations.
From Stdlib Require Import ZArith Lia.

Open Scope Z_scope.

(** ** Symbolic execution

    [wp C K m Q e w]: running [m] ends in a state satisfying [Q], crashes only
    if [C], blocks only if [K]. *)
Definition wp {A} (C K : Prop) (m : lockM A)
  (Q : A -> environment -> world -> Prop) (e : environment) (w : world) : Prop :=
  match m e w with
  | Done a e' w' => Q a e' w'
  | Crash => C
  | Blocked => K
  end.

Lemma wp_bind {A B} C K (m : lockM A) (f : A -> lockM B) Q e w :
  wp C K m (fun a e' w' => wp C K (f a) Q e' w') e w -> wp C K (m ≫= f) Q e w.
Proof. unfold wp, mbind, lockM_bind. by destruct (m e w). Qed.

Lemma wp_ret {A} C K (a : A) Q e w : Q a e w -> wp C K (mret a) Q e w.
Proof. done. Qed.

Lemma wp_mono {A} (C C' K K' : Prop) (m : lockM A) (Q Q' : A -> environment -> world -> Prop) e w :
  (C -> C') -> (K -> K') -> (forall a e' w', Q a e' w' -> Q' a e' w') ->
  wp C K m Q e w -> wp C' K' m Q' e w.
Proof. unfold wp. destruct (m e w); auto. Qed.

Lemma wp_consequence {A} C K (m : lockM A) (Q Q' : A -> environment -> world -> Prop) e w :
  wp C K m Q e w -> (forall a e' w', Q a e' w' -> Q' a e' w') -> wp C K m Q' e w.
Proof. intros H HQ. eapply wp_mono; [..|exact H]; auto. Qed.

(** ** Invariant preservation *)

Section keeps.
Context (I : world -> Prop).

Definition env_keeps (e : environment) : Prop :=
  Forall (fun f => forall w, I w -> I (f w)) e.

(** [m] keeps [I] when the other threads do. *)
Definition keeps {A} (m : lockM A) : Prop := forall e w,
  env_keeps e -> I w -> wp True True m (fun _ e' w' => env_keeps e' /\ I w') e w.

Lemma keeps_ret {A} (a : A) : keeps (mret a).
Proof. intros e w He Hw. by apply wp_ret. Qed.

Lemma keeps_crash {A} : keeps (@crash A).
Proof. by intros e w He Hw. Qed.

Lemma keeps_blocked {A} : keeps (fun _ _ => @Blocked A).
Proof. by intros e w He Hw. Qed.

Lemma keeps_bind {A B} (m : lockM A) (f : A -> lockM B) :
  keeps m -> (forall a, keeps (f a)) -> keeps (m ≫= f).
Proof.
  intros Hm Hf e w He Hw. apply wp_bind.
  eapply wp_consequence; [by apply Hm|]. intros a e' w' [? ?]. by apply Hf.
Qed.

Lemma keeps_if {A} (c : bool) (m1 m2 : lockM A) :
  keeps m1 -> keeps m2 -> keeps (if c then m1 else m2).
Proof. by destruct c. Qed.
End keeps.

Create HintDb locks.
#[export] Hint Resolve keeps_ret keeps_crash keeps_blocked keeps_if : locks.

(** ** Compatibility of modes *)

Lemma isLockCompatible_sym a b : isLockCompatible a b = isLockCompatible b a.
Proof. by destruct a, b. Qed.

Lemma isLockCompatible_refl a : a <> DPS_TRANSLOCK_X -> isLockCompatible a a = true.
Proof. by destruct a. Qed.

Lemma isLockCompatible_X a : isLockCompatible DPS_TRANSLOCK_X a = false.
Proof. by destruct a. Qed.

(** The holders of a unit are distinct and pairwise compatible. *)
Definition unit_ok (u : dpsTransLockUnit) : Prop :=
  om_sorted (_runList u) /\
  forall k m k' m', In (k, m) (_runList u) -> In (k', m') (_runList u) -> k <> k' ->
    isLockCompatible m m' = true.

(** The reference for [checkCompatible]: every other holder is compatible. *)
Definition othersCompatible (tid : Z) (t : DPS_TRANSLOCK_TYPE) (u : dpsTransLockUnit) : bool :=
  forallb (fun '(k, m) => (k =? tid) || isLockCompatible m t) (_runList u).

Lemma checkCompatible_loop_sound tid t l :
  (forall k m k' m', In (k, m) l -> In (k', m') l -> k <> k' -> isLockCompatible m m' = true) ->
  om_sorted l ->
  checkCompatible_loop tid t l
  = forallb (fun '(k, m) => (k =? tid) || isLockCompatible m t) l.
Proof.
  induction l as [|[k m] l IH]; intros Hc Hs; simpl; [done|].
  assert (Hs' : om_sorted l) by (by inversion Hs).
  assert (Hlt : forall k' m', In (k', m') l -> k < k').
  { intros k' m' Hin. inversion Hs as [|? ? ? Hall]; subst.
    rewrite Forall_forall in Hall. apply Hall, list_elem_of_fmap.
    exists (k', m'). split; [done|]. by apply list_elem_of_In. }
  rewrite IH by (done || (intros; eapply Hc; simpl; eauto)).
  case_bool_decide as Hm; simpl; [case_bool_decide as Hx; simpl|].
  - subst m. symmetry. apply andb_true_intro. split.
    + rewrite isLockCompatible_refl by congruence. apply orb_true_r.
    + apply forallb_forall. intros [k' m'] Hin.
      rewrite isLockCompatible_sym, (Hc k t k' m') by
        (simpl; auto; specialize (Hlt _ _ Hin); lia).
      apply orb_true_r.
  - by destruct (k =? tid), (isLockCompatible m t).
  - by destruct (k =? tid), (isLockCompatible m t).
Qed.

Lemma unit_ok_new : unit_ok newLockUnit.
Proof. split; [constructor|by intros ??? ? []]. Qed.

Lemma unit_ok_wait u h : unit_ok u -> unit_ok (mkUnit h (_runList u)).
Proof. by intros [? ?]; split. Qed.

Lemma unit_ok_erase u h tid : unit_ok u -> unit_ok (mkUnit h (om_erase tid (_runList u))).
Proof.
  intros [Hs Hc]; split; simpl; [by apply om_erase_sorted|].
  intros k m k' m' [H1 _]%om_erase_In [H2 _]%om_erase_In. by apply Hc.
Qed.

Lemma om_insert_In_inv {V} k (v : V) kv m :
  om_sorted m -> In kv (om_insert k v m) -> kv = (k, v) \/ (In kv m /\ kv.1 <> k).
Proof.
  intros Hs Hin. destruct (Z.eq_dec kv.1 k) as [Heq|]; [left|].
  - destruct kv as [k' v']; simpl in *; subst.
    apply om_In_find in Hin; [|by apply om_insert_sorted].
    rewrite om_find_insert_eq in Hin. by simplify_eq.
  - right. apply om_insert_In in Hin as [->|]; done.
Qed.

Lemma unit_ok_insert u h tid t :
  unit_ok u -> checkCompatible tid t u = true ->
  unit_ok (mkUnit h (om_insert tid t (_runList u))).
Proof.
  intros [Hs Hc] Hchk. unfold checkCompatible in Hchk.
  rewrite checkCompatible_loop_sound in Hchk by done.
  rewrite forallb_forall in Hchk.
  assert (Hnew : forall k m, In (k, m) (_runList u) -> k <> tid -> isLockCompatible m t = true).
  { intros k m Hin Hne. specialize (Hchk _ Hin). simpl in Hchk.
    destruct (Z.eqb_spec k tid); [done|]. done. }
  split; simpl; [by apply om_insert_sorted|].
  intros k m k' m' [[= -> ->]|[H1 N1]]%om_insert_In_inv [[= -> ->]|[H2 N2]]%om_insert_In_inv Hne;
    try done; simpl in *; eauto.
  rewrite isLockCompatible_sym. eauto.
Qed.

(** ** All units of a world *)

Definition unit_at (w : world) (b : Z) (lockId : dpsTransLockId) : option dpsTransLockUnit :=
  _bucketLst w !! b ≫= fun lst => lst !! lockId.

Definition world_ok (w : world) : Prop := forall b lockId u,
  unit_at w b lockId = Some u -> unit_ok u.

Lemma unit_at_upd w b lst f b' lockId :
  _bucketLst w !! b = Some lst ->
  unit_at (set_buckets w (<[b := f lst]> (_bucketLst w))) b' lockId
  = if decide (b = b') then f lst !! lockId else unit_at w b' lockId.
Proof.
  intros Hb. unfold unit_at; simpl. rewrite lookup_insert.
  by case_decide.
Qed.

Lemma world_ok_buckets w w' :
  _bucketLst w' = _bucketLst w -> world_ok w -> world_ok w'.
Proof. unfold world_ok, unit_at. by intros ->. Qed.

(** A computation that leaves the buckets and the environment alone. *)
Definition session_only {A} (m : lockM A) : Prop := forall e w,
  wp True True m (fun _ e' w' => e' = e /\ _bucketLst w' = _bucketLst w) e w.

Lemma session_only_keeps {A} (m : lockM A) : session_only m -> keeps world_ok m.
Proof.
  intros Hm e w He Hw. eapply wp_consequence; [apply Hm|].
  intros a e' w' [-> Hb]. split; [done|]. by eapply world_ok_buckets.
Qed.

Lemma session_only_bind {A B} (m : lockM A) (f : A -> lockM B) :
  session_only m -> (forall a, session_only (f a)) -> session_only (m ≫= f).
Proof.
  intros Hm Hf e w. apply wp_bind. eapply wp_consequence; [apply Hm|].
  intros a e' w' [-> Hb]. eapply wp_consequence; [apply Hf|].
  intros a' e'' w'' [-> Hb']. split; [done|]. congruence.
Qed.

Lemma session_only_ret {A} (a : A) : session_only (mret a).
Proof. by intros e w. Qed.
Lemma session_only_crash {A} : session_only (@crash A).
Proof. by intros e w. Qed.
Lemma session_only_blocked {A} : session_only (fun _ _ => @Blocked A).
Proof. by intros e w. Qed.
Lemma session_only_deref tid : session_only (deref_edu tid).
Proof. intros e w. unfold wp, deref_edu. by destruct (edus w !! tid). Qed.
Lemma session_only_store tid cb : session_only (store_edu tid cb).
Proof. by intros e w. Qed.
Lemma session_only_new : session_only sdb_oss_new.
Proof. intros e w. unfold wp, sdb_oss_new. by destruct (allocs w). Qed.
Lemma session_only_fuel : session_only queue_fuel.
Proof. by intros e w. Qed.

#[export] Hint Resolve session_only_ret session_only_crash session_only_blocked
  session_only_deref session_only_store session_only_new session_only_fuel : locks.

(** Split a monadic definition into its primitives and close them with the
    hints of [locks]. *)
Ltac session_only_steps :=
  repeat first
    [ solve [eauto with locks]
    | apply session_only_bind; intros
    | match goal with |- session_only (match ?x with _ => _ end) => destruct x end ].

Lemma session_only_getTransLock tid l : session_only (getTransLock tid l).
Proof. unfold getTransLock. session_only_steps. Qed.
Lemma session_only_update_info tid l f : session_only (update_info tid l f).
Proof. unfold update_info. session_only_steps. Qed.
Lemma session_only_postEvent tid ev : session_only (postEvent tid ev).
Proof. unfold postEvent. session_only_steps. Qed.
#[export] Hint Resolve session_only_getTransLock session_only_update_info
  session_only_postEvent : locks.

Lemma session_only_setNext tid l n : session_only (setNextWaitCB tid l n).
Proof. apply session_only_update_info. Qed.
Lemma session_only_setType tid l t : session_only (setType tid l t).
Proof. apply session_only_update_info. Qed.
Lemma session_only_incRef tid l : session_only (incRef tid l).
Proof. apply session_only_update_info. Qed.
Lemma session_only_decRef tid l : session_only (decRef tid l).
Proof. unfold decRef. session_only_steps. Qed.
Lemma session_only_addLockInfo tid l t : session_only (addLockInfo tid l t).
Proof. unfold addLockInfo. session_only_steps. Qed.
Lemma session_only_delLockInfo tid l : session_only (delLockInfo tid l).
Proof. unfold delLockInfo. session_only_steps. Qed.
Lemma session_only_setWaitLock tid l : session_only (setWaitLock tid l).
Proof. unfold setWaitLock. session_only_steps. Qed.
Lemma session_only_clearWaitLock tid : session_only (clearWaitLock tid).
Proof. apply session_only_setWaitLock. Qed.
Lemma session_only_clearLockList tid : session_only (clearLockList tid).
Proof. unfold clearLockList. session_only_steps. Qed.
Lemma session_only_wakeUp tid : session_only (wakeUp tid).
Proof. apply session_only_postEvent. Qed.
#[export] Hint Resolve session_only_setNext session_only_setType session_only_incRef
  session_only_decRef session_only_addLockInfo session_only_delLockInfo
  session_only_setWaitLock session_only_clearWaitLock session_only_clearLockList
  session_only_wakeUp : locks.

Lemma session_only_appendToWait_loop n tid l h : session_only (appendToWait_loop n tid l h).
Proof. revert h. induction n; intros h; simpl; session_only_steps. Qed.
Lemma session_only_removeFromWait_loop n tid l h :
  session_only (removeFromWait_loop n tid l h).
Proof. revert h. induction n; intros h; simpl; session_only_steps. Qed.
#[export] Hint Resolve session_only_appendToWait_loop session_only_removeFromWait_loop
  session_only_keeps : locks.

(** ** Every bucket section keeps [world_ok] *)

Lemma keeps_find_unit {A} b l (k : option dpsTransLockUnit -> lockM A) :
  (forall ou, (forall u, ou = Some u -> unit_ok u) -> keeps world_ok (k ou)) ->
  keeps world_ok (find_unit b l ≫= k).
Proof.
  intros Hk e w He Hw. apply wp_bind. unfold wp at 1, find_unit.
  destruct (_bucketLst w !! b) as [lst|] eqn:Hb; [|done].
  apply Hk; [|done|done]. intros u Hu. apply (Hw b l u).
  unfold unit_at. by rewrite Hb.
Qed.

Lemma keeps_deref_unit {A} b l (k : dpsTransLockUnit -> lockM A) :
  (forall u, unit_ok u -> keeps world_ok (k u)) ->
  keeps world_ok (deref_unit b l ≫= k).
Proof.
  intros Hk e w He Hw. apply wp_bind. unfold wp at 1, deref_unit, find_unit, mbind, lockM_bind.
  destruct (_bucketLst w !! b) as [lst|] eqn:Hb; [|done].
  destruct (lst !! l) as [u|] eqn:Hu; [|done]. apply Hk; [|done|done].
  apply (Hw b l u). unfold unit_at. by rewrite Hb.
Qed.

Lemma keeps_upd_lockLst b f :
  (forall lst, (forall l u, lst !! l = Some u -> unit_ok u) ->
     forall l u, f lst !! l = Some u -> unit_ok u) ->
  keeps world_ok (upd_lockLst b f).
Proof.
  intros Hf e w He Hw. unfold wp, upd_lockLst.
  destruct (_bucketLst w !! b) as [lst|] eqn:Hb; [|done]. split; [done|].
  intros b' l u. rewrite unit_at_upd by done. case_decide; [subst|apply Hw].
  apply Hf. intros l' u' Hu'. apply (Hw b' l' u'). unfold unit_at. by rewrite Hb.
Qed.

Lemma keeps_store_unit b l u : unit_ok u -> keeps world_ok (store_unit b l u).
Proof.
  intros Hu. apply keeps_upd_lockLst. intros lst Hlst l' u'.
  rewrite lookup_insert. case_decide; [by intros [= <-]|by apply Hlst].
Qed.

Lemma keeps_erase_unit b l : keeps world_ok (erase_unit b l).
Proof.
  apply keeps_upd_lockLst. intros lst Hlst l' u'.
  rewrite lookup_delete. case_decide; [done|by apply Hlst].
Qed.

Lemma keeps_waitEvent tid : keeps world_ok (waitEvent tid).
Proof.
  intros e w He Hw. unfold wp, waitEvent. destruct e as [|others e]; [done|].
  inversion He as [|? ? Ho He']; subst. specialize (Ho w Hw).
  destruct (edus (others w) !! tid) as [cb|]; [|done].
  destruct (_queue cb); (split; [done|]); [done|].
  by eapply world_ok_buckets; [|exact Ho].
Qed.

#[export] Hint Resolve unit_ok_new unit_ok_wait unit_ok_erase unit_ok_insert
  keeps_store_unit keeps_erase_unit keeps_waitEvent : locks.

Ltac keeps_steps :=
  repeat first
    [ solve [eauto with locks]
    | apply keeps_deref_unit; intros
    | apply keeps_find_unit; intros
    | apply keeps_bind; intros
    | match goal with
      | |- keeps _ (match ?x with _ => _ end) => destruct x eqn:?
      | |- keeps _ (let _ := _ in _) => cbv zeta
      end ].

Lemma keeps_find_or_new b l : keeps world_ok (find_or_new_unit b l).
Proof. unfold find_or_new_unit. keeps_steps. Qed.

Lemma keeps_appendToRun tid t b l : keeps world_ok (appendToRun tid t b l).
Proof.
  unfold appendToRun. apply keeps_deref_unit. intros u Hu.
  destruct (checkCompatible tid t u) eqn:Hc; simpl; keeps_steps.
Qed.

Lemma keeps_appendToWait tid l b : keeps world_ok (appendToWait tid l b).
Proof. unfold appendToWait. keeps_steps. Qed.

Lemma keeps_appendHeadToWait tid l b : keeps world_ok (appendHeadToWait tid l b).
Proof. unfold appendHeadToWait. keeps_steps. Qed.

Lemma keeps_removeFromRun tid b l : keeps world_ok (removeFromRun tid b l).
Proof. unfold removeFromRun. keeps_steps. Qed.

Lemma keeps_removeFromWait tid b l : keeps world_ok (removeFromWait tid b l).
Proof. unfold removeFromWait. keeps_steps. Qed.

Lemma keeps_waitLock tid : keeps world_ok (waitLock tid).
Proof. unfold waitLock. keeps_steps. Qed.

#[export] Hint Resolve keeps_find_or_new keeps_appendToRun keeps_appendToWait
  keeps_appendHeadToWait keeps_removeFromRun keeps_removeFromWait keeps_waitLock : locks.

Lemma keeps_retry_section rc tid t b l : keeps world_ok (retry_section rc tid t b l).
Proof. unfold retry_section. keeps_steps. Qed.

Lemma keeps_enter_section h tid l t b : keeps world_ok (enter_section h tid l t b).
Proof. unfold enter_section. keeps_steps. Qed.

#[export] Hint Resolve keeps_retry_section keeps_enter_section : locks.

Lemma keeps_waitretry tid t b l : keeps world_ok (waitretry tid t b l).
Proof.
  intros e w He Hw.
  assert (H : forall n, keeps world_ok (waitretry_loop n tid t b l)).
  { induction n; simpl; keeps_steps. }
  exact (H (S (length e)) e w He Hw).
Qed.

#[export] Hint Resolve keeps_waitretry : locks.

Lemma keeps_acquire tid l t b : keeps world_ok (lockBucket_acquire tid l t b).
Proof. unfold lockBucket_acquire. keeps_steps. Qed.
Lemma keeps_upgrade tid l t b : keeps world_ok (lockBucket_upgrade tid l t b).
Proof. unfold lockBucket_upgrade. keeps_steps. Qed.
Lemma keeps_waitLockX tid l b : keeps world_ok (lockBucket_waitLockX tid l b).
Proof. unfold lockBucket_waitLockX. keeps_steps. Qed.
Lemma keeps_bucket_release tid l b : keeps world_ok (lockBucket_release tid l b).
Proof. unfold lockBucket_release. keeps_steps. Qed.
Lemma keeps_test tid l t b : keeps world_ok (lockBucket_test tid l t b).
Proof. unfold lockBucket_test. keeps_steps. Qed.
Lemma keeps_tryAcquire tid l t b : keeps world_ok (lockBucket_tryAcquire tid l t b).
Proof. unfold lockBucket_tryAcquire. keeps_steps. Qed.
Lemma keeps_tryAcquireOrAppend tid l t h b :
  keeps world_ok (lockBucket_tryAcquireOrAppend tid l t h b).
Proof. unfold lockBucket_tryAcquireOrAppend. keeps_steps. Qed.

#[export] Hint Resolve keeps_acquire keeps_upgrade keeps_waitLockX keeps_bucket_release
  keeps_test keeps_tryAcquire keeps_tryAcquireOrAppend : locks.

(** ** Interleavings

    One step of any thread: a critical section of some bucket, the creation of
    a bucket, or anything that touches only session data and the allocator. *)
Inductive lock_step : world -> world -> Prop :=
| step_session w w' :
    _bucketLst w' = _bucketLst w -> lock_step w w'
| step_getBucket w w' l r :
    getBucket l [] w = Done r [] w' -> lock_step w w'
| step_enter w w' head tid l t b r :
    enter_section head tid l t b [] w = Done r [] w' -> lock_step w w'
| step_retry w w' rc tid l t b r :
    retry_section rc tid t b l [] w = Done r [] w' -> lock_step w w'
| step_release w w' tid l b :
    lockBucket_release tid l b [] w = Done tt [] w' -> lock_step w w'
| step_tryAcquire w w' tid l t b r :
    lockBucket_tryAcquire tid l t b [] w = Done r [] w' -> lock_step w w'
| step_tryAppend w w' tid l t h b r :
    lockBucket_tryAcquireOrAppend tid l t h b [] w = Done r [] w' -> lock_step w w'.

Definition initial_world (w : world) : Prop := _bucketLst w = ∅.

Lemma keeps_getBucket l : keeps world_ok (getBucket l).
Proof.
  unfold getBucket. destruct (negb _); [eauto with locks|].
  apply keeps_bind; [by intros e w He Hw|]. intros w0.
  destruct (_bucketLst w0 !! getBucketNo l); [eauto with locks|].
  apply keeps_bind; [eauto with locks|]. intros [|]; simpl; [|eauto with locks].
  intros e w He Hw. unfold wp; simpl. split; [done|].
  intros b' l' u. unfold unit_at; simpl. rewrite lookup_insert.
  case_decide; simpl; [by rewrite lookup_empty|]. apply Hw.
Qed.
#[export] Hint Resolve keeps_getBucket : locks.

Lemma keeps_done {A} (m : lockM A) w w' r :
  keeps world_ok m -> m [] w = Done r [] w' -> world_ok w -> world_ok w'.
Proof.
  intros Hm Heq Hw. specialize (Hm [] w (Forall_nil_2 _) Hw).
  unfold wp in Hm. rewrite Heq in Hm. by destruct Hm.
Qed.

Lemma lock_step_ok w w' : lock_step w w' -> world_ok w -> world_ok w'.
Proof.
  destruct 1 as [w w' Hb| | | | | |];
    [by apply world_ok_buckets|..]; (eapply keeps_done; [|eassumption]); eauto with locks.
Qed.

Lemma initial_world_ok w : initial_world w -> world_ok w.
Proof. unfold world_ok, unit_at. intros -> b l u. by rewrite lookup_empty. Qed.

Lemma reachable_ok w0 w : initial_world w0 -> rtc lock_step w0 w -> world_ok w.
Proof.
  intros H0 Hr. apply initial_world_ok in H0. revert H0.
  induction Hr; [done|]. intros. apply IHHr. by eapply lock_step_ok.
Qed.

(** Thread [tid] holds the lock [lockId] of bucket [b] in mode [m]. *)
Definition holds (w : world) (b : Z) (lockId : dpsTransLockId) (tid : Z)
  (m : DPS_TRANSLOCK_TYPE) : Prop :=
  exists u, unit_at w b lockId = Some u /\ om_find tid (_runList u) = Some m.

Lemma world_ok_compatible w b l t1 m1 t2 m2 :
  world_ok w -> holds w b l t1 m1 -> holds w b l t2 m2 -> t1 <> t2 ->
  isLockCompatible m1 m2 = true.
Proof.
  intros Hw (u1 & Hu1 & H1) (u2 & Hu2 & H2) Hne. simplify_eq.
  destruct (Hw _ _ _ Hu1) as [_ Hc]. eapply Hc; eauto using om_find_In.
Qed.

(** ** Properties *)

(** In every state that any interleaving of the bucket critical sections
    (blocking and non-blocking entry, retry after a wait, release) can reach
    from an empty lock manager, two distinct threads never hold the same lock
    in incompatible modes; in particular the holder of an X lock is alone. *)
Theorem no_conflicting_holders w0 w b l t1 m1 t2 m2 :
  initial_world w0 -> rtc lock_step w0 w ->
  holds w b l t1 m1 -> holds w b l t2 m2 -> t1 <> t2 ->
  isLockCompatible m1 m2 = true /\ m1 <> DPS_TRANSLOCK_X /\ m2 <> DPS_TRANSLOCK_X.
Proof.
  intros H0 Hr H1 H2 Hne.
  assert (Hc : isLockCompatible m1 m2 = true).
  { eapply world_ok_compatible; eauto using reachable_ok. }
  split; [done|]. by destruct m1, m2.
Qed.

(** A manager in which threads 1 and 2 share an S lock. *)
Definition demo_id : dpsTransLockId := mkLockId 1 7 3 40.
Definition demo_edu : pmdEDUCB := mkEDU ∅ [] lockId_reset.
Definition demo_world : world :=
  mkWorld ∅ (<[1 := demo_edu]> (<[2 := demo_edu]> (<[3 := demo_edu]> ∅))) [].
Definition demo_enter (tid : Z) (w : world) : world :=
  exec (enter_section false tid demo_id DPS_TRANSLOCK_S 40) w.
Definition demo_shared : world :=
  demo_enter 2 (demo_enter 1 (exec (getBucket demo_id) demo_world)).

Lemma no_conflicting_holders_witness :
  isLockCompatible DPS_TRANSLOCK_S DPS_TRANSLOCK_S = true /\
  DPS_TRANSLOCK_S <> DPS_TRANSLOCK_X /\ DPS_TRANSLOCK_S <> DPS_TRANSLOCK_X.
Proof.
  apply (no_conflicting_holders demo_world demo_shared 40 demo_id
           1 DPS_TRANSLOCK_S 2 DPS_TRANSLOCK_S).
  - reflexivity.
  - eapply rtc_l; [eapply step_getBucket with (l := demo_id); reflexivity|].
    eapply rtc_l; [eapply (step_enter _ _ false 1 demo_id DPS_TRANSLOCK_S 40); vm_compute; reflexivity|].
    eapply rtc_l; [eapply (step_enter _ _ false 2 demo_id DPS_TRANSLOCK_S 40); vm_compute; reflexivity|].
    vm_compute. apply rtc_refl.
  - eexists; split; vm_compute; reflexivity.
  - eexists; split; vm_compute; reflexivity.
  - discriminate.
Defined.

(** On a unit whose holders are pairwise compatible, the compatibility
    test, which stops at the first holder of the requested mode, answers
    exactly whether every other holder is compatible with the request. *)
Theorem checkCompatible_spec tid t u :
  unit_ok u -> checkCompatible tid t u = othersCompatible tid t u.
Proof. intros [Hs Hc]. by apply checkCompatible_loop_sound. Qed.

Lemma checkCompatible_spec_witness :
  checkCompatible 3 DPS_TRANSLOCK_IX (mkUnit None [(1, DPS_TRANSLOCK_IS); (2, DPS_TRANSLOCK_S)])
  = othersCompatible 3 DPS_TRANSLOCK_IX (mkUnit None [(1, DPS_TRANSLOCK_IS); (2, DPS_TRANSLOCK_S)]).
Proof.
  apply checkCompatible_spec. split.
  - repeat constructor.
  - simpl. intros k m k' m' [[= <- <-]|[[= <- <-]|[]]] [[= <- <-]|[[= <- <-]|[]]]; done.
Defined.
