(* ===== verification/TransLockState.v ===== *)
(** * Views of the lock state

    What a thread's lock list and a lock's run list say, and how each
    primitive of [TransLockDef] and [TransLockBucket] changes them. *)

From S2P Require Import Prelude TransLockDef TransLockBucket TransLock TransLockSafety.
From stdpp Require Import base gmap list sorting.
From Stdlib Require Import ZArith Lia.

Open Scope Z_scope.

(** The lock info of [lockId] in the lock list of [tid]. *)
Definition info (w : world) (tid : Z) (l : dpsTransLockId) : option dpsTransCBLockInfo :=
  edus w !! tid ≫= fun cb => _transLockLst cb !! l.

(** The mode in which [tid] is in the run list of [l]. *)
Definition run (w : world) (tid : Z) (l : dpsTransLockId) : option DPS_TRANSLOCK_TYPE :=
  unit_at w (getBucketNo l) l ≫= fun u => om_find tid (_runList u).

Definition alive (w : world) (tid : Z) : Prop := is_Some (edus w !! tid).

(** The world with one lock info replaced ([None]: removed). *)
Definition set_info (w : world) (tid : Z) (l : dpsTransLockId)
  (oi : option dpsTransCBLockInfo) : world :=
  match edus w !! tid with
  | Some cb => set_edus w (<[tid := set_locks cb (partial_alter (fun _ => oi) l (_transLockLst cb))]> (edus w))
  | None => w
  end.

Lemma info_set_info w tid l oi tid' l' :
  alive w tid ->
  info (set_info w tid l oi) tid' l'
  = if decide (tid = tid' /\ l = l') then oi else info w tid' l'.
Proof.
  intros [cb Hcb]. unfold set_info, info. rewrite Hcb. simpl.
  destruct (decide (tid = tid')) as [->|Hne].
  - rewrite lookup_insert_eq. simpl. rewrite Hcb. simpl.
    destruct (decide (l = l')) as [->|].
    + rewrite lookup_partial_alter. rewrite !decide_True by done. done.
    + rewrite lookup_partial_alter_ne by done. by rewrite decide_False by tauto.
  - rewrite lookup_insert_ne by done. by rewrite decide_False by tauto.
Qed.

Lemma unit_at_set_info w tid l oi b l' : unit_at (set_info w tid l oi) b l' = unit_at w b l'.
Proof. unfold set_info. by destruct (edus w !! tid). Qed.

Lemma run_set_info w tid l oi tid' l' : run (set_info w tid l oi) tid' l' = run w tid' l'.
Proof. unfold run. by rewrite unit_at_set_info. Qed.

Lemma allocs_set_info w tid l oi : allocs (set_info w tid l oi) = allocs w.
Proof. unfold set_info. by destruct (edus w !! tid). Qed.

Lemma buckets_set_info w tid l oi : _bucketLst (set_info w tid l oi) = _bucketLst w.
Proof. unfold set_info. by destruct (edus w !! tid). Qed.

Lemma alive_set_info w tid l oi tid' : alive (set_info w tid l oi) tid' <-> alive w tid'.
Proof.
  unfold alive, set_info. destruct (edus w !! tid) as [cb|] eqn:H; [|done].
  simpl. rewrite lookup_insert. case_decide; [subst|done]. rewrite H. by split; eauto.
Qed.

Lemma edus_size_set_info w tid l oi : size (edus (set_info w tid l oi)) = size (edus w).
Proof.
  unfold set_info. destruct (edus w !! tid) as [cb|] eqn:H; [|done].
  simpl. rewrite map_size_insert_Some by eauto. done.
Qed.

(** ** The primitives on lock lists *)

Lemma getTransLock_eq w e tid l :
  alive w tid -> getTransLock tid l e w = Done (info w tid l) e w.
Proof.
  intros [cb Hcb]. unfold getTransLock, mbind, lockM_bind, deref_edu, info. by rewrite Hcb.
Qed.

Lemma info_alive w tid l i : info w tid l = Some i -> alive w tid.
Proof. unfold info, alive. destruct (edus w !! tid); [eauto|done]. Qed.

Lemma update_info_eq w e tid l f i :
  info w tid l = Some i -> update_info tid l f e w = Done tt e (set_info w tid l (Some (f i))).
Proof.
  unfold info. intros Hi. destruct (edus w !! tid) as [cb|] eqn:Hcb; [|done]. simpl in Hi.
  unfold update_info, mbind, lockM_bind, deref_edu, set_info. rewrite Hcb, Hi. done.
Qed.

Lemma decRef_eq w e tid l i :
  info w tid l = Some i ->
  decRef tid l e w = Done (_ref i) e (set_info w tid l (Some (info_setRef i (_ref i - 1)))).
Proof.
  unfold info. intros Hi. destruct (edus w !! tid) as [cb|] eqn:Hcb; [|done]. simpl in Hi.
  unfold decRef, mbind, lockM_bind, deref_edu, set_info. rewrite Hcb, Hi. done.
Qed.

Lemma addLockInfo_eq w e tid l t :
  alive w tid -> allocs w = [] ->
  addLockInfo tid l t e w = Done tt e (set_info w tid l (Some (newLockInfo t))).
Proof.
  intros [cb Hcb] Ha.
  unfold addLockInfo, mbind, lockM_bind, sdb_oss_new, deref_edu, set_info.
  rewrite Ha, Hcb. done.
Qed.

Lemma delLockInfo_eq w e tid l :
  alive w tid -> delLockInfo tid l e w = Done tt e (set_info w tid l None).
Proof.
  intros [cb Hcb]. unfold delLockInfo, mbind, lockM_bind, deref_edu, set_info. rewrite Hcb. done.
Qed.

(** ** Wake-ups and wait locks leave lock lists and run lists alone *)

(** [w'] shows every thread the lock lists and run lists of [w]. *)
Record same_locks (w w' : world) : Prop := {
  sl_info tid l : info w' tid l = info w tid l;
  sl_alive tid : alive w tid -> alive w' tid;
  sl_buckets : _bucketLst w' = _bucketLst w;
  sl_allocs : allocs w' = allocs w;
  sl_size : size (edus w') = size (edus w)
}.

Lemma same_locks_refl w : same_locks w w.
Proof. by split. Qed.

Lemma same_locks_edu w tid cb q wl :
  edus w !! tid = Some cb ->
  same_locks w (set_edus w (<[tid := mkEDU (_transLockLst cb) q wl]> (edus w))).
Proof.
  intros Hcb. split; unfold info, alive; simpl; try done.
  - intros tid' l. rewrite lookup_insert. case_decide; [subst; by rewrite Hcb|done].
  - intros tid'. rewrite lookup_insert. case_decide; eauto.
  - rewrite map_size_insert_Some by eauto. done.
Qed.

Lemma wp_postEvent C K tid ev Q e w :
  (alive w tid \/ C) -> (forall w', same_locks w w' -> Q tt e w') -> wp C K (postEvent tid ev) Q e w.
Proof.
  intros Ha HQ. unfold wp, postEvent, mbind, lockM_bind, deref_edu.
  destruct (edus w !! tid) as [cb|] eqn:Hcb; simpl.
  - apply HQ. by apply same_locks_edu.
  - destruct Ha as [[? ?]|]; [congruence|done].
Qed.

Lemma wp_setWaitLock C K tid l Q e w :
  alive w tid -> (forall w', same_locks w w' -> Q tt e w') -> wp C K (setWaitLock tid l) Q e w.
Proof.
  intros [cb Hcb] HQ. unfold wp, setWaitLock, mbind, lockM_bind, deref_edu.
  rewrite Hcb. apply HQ. by apply same_locks_edu.
Qed.

Lemma same_locks_unit_at w w' b l : same_locks w w' -> unit_at w' b l = unit_at w b l.
Proof. intros H. unfold unit_at. by rewrite (sl_buckets _ _ H). Qed.

Lemma same_locks_run w w' tid l : same_locks w w' -> run w' tid l = run w tid l.
Proof. intros H. unfold run. by rewrite (same_locks_unit_at w w'). Qed.

(** ** The primitives on units *)

Definition set_unit (w : world) (b : Z) (l : dpsTransLockId) (ou : option dpsTransLockUnit)
  : world :=
  match _bucketLst w !! b with
  | Some lst => set_buckets w (<[b := partial_alter (fun _ => ou) l lst]> (_bucketLst w))
  | None => w
  end.

Definition has_bucket (w : world) (b : Z) : Prop := is_Some (_bucketLst w !! b).

Lemma unit_at_set_unit w b l ou b' l' :
  has_bucket w b ->
  unit_at (set_unit w b l ou) b' l'
  = if decide (b = b' /\ l = l') then ou else unit_at w b' l'.
Proof.
  intros [lst Hb]. unfold set_unit, unit_at. rewrite Hb. simpl.
  destruct (decide (b = b')) as [->|Hne].
  - rewrite lookup_insert_eq. simpl. rewrite Hb. simpl.
    destruct (decide (l = l')) as [->|].
    + rewrite lookup_partial_alter. rewrite !decide_True by done. done.
    + rewrite lookup_partial_alter_ne by done. by rewrite decide_False by tauto.
  - rewrite lookup_insert_ne by done. by rewrite decide_False by tauto.
Qed.

Lemma info_set_unit w b l ou tid l' : info (set_unit w b l ou) tid l' = info w tid l'.
Proof. unfold set_unit. by destruct (_bucketLst w !! b). Qed.

Lemma alive_set_unit w b l ou tid : alive (set_unit w b l ou) tid <-> alive w tid.
Proof. unfold set_unit. by destruct (_bucketLst w !! b). Qed.

Lemma edus_set_unit w b l ou : edus (set_unit w b l ou) = edus w.
Proof. unfold set_unit. by destruct (_bucketLst w !! b). Qed.

Lemma allocs_set_unit w b l ou : allocs (set_unit w b l ou) = allocs w.
Proof. unfold set_unit. by destruct (_bucketLst w !! b). Qed.

Lemma has_bucket_set_unit w b l ou b' : has_bucket (set_unit w b l ou) b' <-> has_bucket w b'.
Proof.
  unfold has_bucket, set_unit. destruct (_bucketLst w !! b) as [lst|] eqn:H; [|done].
  simpl. rewrite lookup_insert. case_decide; [subst|done]. rewrite H. by split; eauto.
Qed.

Lemma unit_at_has_bucket w b l u : unit_at w b l = Some u -> has_bucket w b.
Proof. unfold unit_at, has_bucket. destruct (_bucketLst w !! b); [eauto|done]. Qed.

Lemma find_unit_eq w e b l : has_bucket w b -> find_unit b l e w = Done (unit_at w b l) e w.
Proof. intros [lst Hb]. unfold find_unit, unit_at. by rewrite Hb. Qed.

Lemma deref_unit_eq w e b l u : unit_at w b l = Some u -> deref_unit b l e w = Done u e w.
Proof.
  intros Hu. unfold deref_unit, mbind, lockM_bind.
  rewrite find_unit_eq by (by eapply unit_at_has_bucket). by rewrite Hu.
Qed.

Lemma store_unit_eq w e b l u :
  has_bucket w b -> store_unit b l u e w = Done tt e (set_unit w b l (Some u)).
Proof. intros [lst Hb]. unfold store_unit, upd_lockLst, set_unit. by rewrite Hb. Qed.

Lemma erase_unit_eq w e b l :
  has_bucket w b -> erase_unit b l e w = Done tt e (set_unit w b l None).
Proof. intros [lst Hb]. unfold erase_unit, upd_lockLst, set_unit. by rewrite Hb. Qed.

(** Run the next primitive: [wp_step lem] executes it by the equation [lem]. *)
Lemma wp_eq {A} C K (m : lockM A) Q e w a e' w' :
  m e w = Done a e' w' -> Q a e' w' -> wp C K m Q e w.
Proof. unfold wp. by intros ->. Qed.

Ltac wp_step lem := first
  [ apply wp_bind; eapply wp_eq; [apply lem; eauto|]
  | eapply wp_eq; [apply lem; eauto|] ].
