(* ===== verification/TransLockQueue.v ===== *)
(** * The wait queue of a lock

    The waiters of a lock form a linked list that starts at the unit's
    [_pWaitCB] and runs through the [_pNextWaitCB] of the waiters' own lock
    infos.  The theorems say that the three pointer manipulations implement
    push-back, push-front and removal on a list of threads, and two traces
    show where a pointer left over from an earlier wait breaks the queue. *)

From S2P Require Import Prelude.
From S2P Require Import TransLockDef.
From S2P Require Import TransLockBucket.
From S2P Require Import TransLock.
From S2P Require Import TransLockSafety.
From S2P Require Import TransLockState.
From stdpp Require Import base gmap list sorting.
From Stdlib Require Import ZArith Lia.

Open Scope Z_scope.

(** [q] is the list of waiters reached from [h]. *)
Fixpoint chain_from (w : world) (l : dpsTransLockId) (h : option Z) (q : list Z) : Prop :=
  match q with
  | [] => h = None
  | t :: q' => h = Some t /\ exists i, info w t l = Some i /\ chain_from w l (_pNextWaitCB i) q'
  end.

Definition wait_queue (w : world) (b : Z) (l : dpsTransLockId) (q : list Z) : Prop :=
  exists u, unit_at w b l = Some u /\ chain_from w l (_pWaitCB u) q /\ NoDup q.

Lemma chain_from_frame w w' l h q :
  (forall t, In t q -> _pNextWaitCB <$> info w' t l = _pNextWaitCB <$> info w t l) ->
  chain_from w l h q -> chain_from w' l h q.
Proof.
  revert h. induction q as [|t q IH]; intros h Hf; simpl; [done|].
  intros [-> (i & Hi & Hc)]. split; [done|].
  assert (Ht := Hf t (or_introl eq_refl)). rewrite Hi in Ht. simpl in Ht.
  destruct (info w' t l) as [i'|]; [|done]. simpl in Ht. injection Ht as Ht.
  exists i'. split; [done|]. rewrite Ht. apply IH; [|done]. intros; apply Hf; simpl; auto.
Qed.

Lemma chain_from_alive w l h q t : chain_from w l h q -> In t q -> alive w t.
Proof.
  revert h. induction q as [|t' q IH]; intros h; simpl; [done|].
  intros [_ (i & Hi & Hc)] [->|Hin]; [by eapply info_alive|by eapply IH].
Qed.

Lemma chain_from_length w l h q :
  chain_from w l h q -> NoDup q -> (length q <= size (edus w))%nat.
Proof.
  intros Hc Hnd.
  assert (Hs : (list_to_set q : gset Z) ⊆ dom (edus w)).
  { intros t Ht. apply elem_of_dom.
    rewrite elem_of_list_to_set, list_elem_of_In in Ht. by eapply chain_from_alive. }
  apply subseteq_size in Hs. by rewrite size_list_to_set, size_dom in Hs.
Qed.

(** ** Push-back *)

Lemma chain_from_snoc w l h q tid i :
  chain_from w l h q -> ~ In tid q -> info w tid l = Some i -> _pNextWaitCB i = None ->
  q <> [] -> NoDup q ->
  exists last ilast, info w last l = Some ilast /\ In last q /\ _pNextWaitCB ilast = None /\
    chain_from (set_info w last l (Some (info_setNext ilast (Some tid)))) l h (q ++ [tid]).
Proof.
  revert h. induction q as [|t q IH]; intros h; [done|].
  intros [-> (it & Hit & Hc)] Hnin Hi Hn _ Hnd.
  apply NoDup_cons in Hnd as [Htq Hnd]. rewrite list_elem_of_In in Htq.
  destruct q as [|t2 q].
  - simpl in Hc. exists t, it. split_and!; simpl; auto. split; [done|].
    exists (info_setNext it (Some tid)). rewrite info_set_info by (eauto using info_alive).
    rewrite decide_True by done. split; [done|]. simpl. split; [done|].
    exists i. rewrite info_set_info by (eauto using info_alive).
    rewrite decide_False by (intros [-> _]; apply Hnin; simpl; auto). done.
  - destruct (IH _ Hc) as (last & il & Hl & Hin & Hnl & Hch); simpl; auto.
    { intros ?; apply Hnin; simpl; auto. }
    exists last, il. repeat (split; [by simpl; auto|]). exists it.
    rewrite info_set_info by (eauto using info_alive).
    rewrite decide_False; [done|]. intros [-> _]. by apply Htq.
Qed.

Lemma appendToWait_loop_spec n tid l t0 q w e i :
  chain_from w l (Some t0) q -> (length q <= n)%nat -> NoDup q -> ~ In tid q ->
  info w tid l = Some i -> _pNextWaitCB i = None ->
  exists last ilast, info w last l = Some ilast /\ In last q /\
    chain_from (set_info w last l (Some (info_setNext ilast (Some tid)))) l (Some t0) (q ++ [tid]) /\
    appendToWait_loop n tid l t0 e w
    = Done tt e (set_info w last l (Some (info_setNext ilast (Some tid)))).
Proof.
  revert t0 q. induction n as [|n IH]; intros t0 q Hc Hlen Hnd Hnin Hi Hn.
  { destruct q; [done|simpl in Hlen; lia]. }
  destruct q as [|t q]; [done|].
  assert (Hc0 := Hc). destruct Hc as [[= <-] (it & Hit & Hc)].
  simpl. unfold mbind at 1, lockM_bind.
  rewrite getTransLock_eq by (eauto using info_alive). rewrite Hit.
  destruct (chain_from_snoc w l (Some t0) (t0 :: q) tid i) as (last & il & Hl & Hin & Hnl & Hch);
    auto.
  apply NoDup_cons in Hnd as [Htq Hnd]. rewrite list_elem_of_In in Htq.
  destruct (_pNextWaitCB it) as [t2|] eqn:Hnext.
  - destruct q as [|t3 q]; [done|].
    destruct (IH t2 (t3 :: q) Hc) as (last' & il' & Hl' & Hin' & Hch' & Heq);
      [simpl in *; lia|done|intros ?; apply Hnin; simpl; auto|done..|].
    exists last', il'. split; [done|]. split; [by right|]. split; [|done].
    split; [done|]. exists it. rewrite info_set_info by (eauto using info_alive).
    rewrite decide_False; [by rewrite Hnext|]. intros [-> _]. by apply Htq.
  - exists t0, it. split; [done|]. split; [by left|]. split; [|by apply (update_info_eq w e t0 l (fun i => info_setNext i (Some tid)))].
    split; [done|]. exists (info_setNext it (Some tid)).
    rewrite info_set_info by (eauto using info_alive).
    rewrite decide_True by done. split; [done|].
    destruct q; [|by destruct Hc]. simpl. split; [done|]. exists i.
    rewrite info_set_info by (eauto using info_alive).
    rewrite decide_False by (intros [-> _]; apply Hnin; simpl; auto). done.
Qed.

(** When the pointers of a lock form the queue [q] and the thread is new
    to it with no leftover link, [appendToWait] returns and leaves exactly the
    queue [q ++ [tid]], without touching the holders. *)
Theorem appendToWait_pushes_back w e b l q u tid i :
  wait_queue w b l q -> unit_at w b l = Some u -> ~ In tid q ->
  info w tid l = Some i -> _pNextWaitCB i = None ->
  wp False False (appendToWait tid l b)
    (fun _ e' w' => e' = e /\ wait_queue w' b l (q ++ [tid]) /\
       exists u', unit_at w' b l = Some u' /\ _runList u' = _runList u) e w.
Proof.
  intros (u' & Hu' & Hc & Hnd) Hu Hnin Hi Hn. assert (u' = u) as -> by congruence.
  assert (Hnd' : NoDup (q ++ [tid])).
  { apply NoDup_app. split_and!; [done| |apply NoDup_singleton].
    intros x Hx Hx'. apply list_elem_of_singleton in Hx' as ->. by apply Hnin, list_elem_of_In. }
  unfold appendToWait. wp_step deref_unit_eq.
  destruct (_pWaitCB u) as [h|] eqn:Hh.
  - apply wp_bind. eapply wp_eq; [reflexivity|].
    destruct (appendToWait_loop_spec (S (size (edus w))) tid l h q w e i)
      as (last & il & Hl & Hin & Hch & Heq); auto.
    { apply chain_from_length in Hc; [lia|done]. }
    eapply wp_eq; [exact Heq|]. split; [done|].
    split; [exists u|exists u]; rewrite unit_at_set_info; split_and!; auto. by rewrite Hh.
  - destruct q as [|t q]; [|by destruct Hc].
    wp_step store_unit_eq; [by eapply unit_at_has_bucket|]. split; [done|].
    split; eexists; (rewrite unit_at_set_unit by (by eapply unit_at_has_bucket);
      rewrite decide_True by done; split; [done|]); [|done].
    simpl. split; [|apply NoDup_singleton]. split; [done|]. exists i. by rewrite info_set_unit.
Qed.

(** ** Push-front *)

(** [appendHeadToWait] leaves the queue [tid :: q] when the queue is not
    empty, or when it is empty and the thread has no leftover link. *)
Theorem appendHeadToWait_pushes_front w e b l q u tid i :
  wait_queue w b l q -> unit_at w b l = Some u -> ~ In tid q ->
  info w tid l = Some i -> q <> [] \/ _pNextWaitCB i = None ->
  wp False False (appendHeadToWait tid l b)
    (fun _ e' w' => e' = e /\ wait_queue w' b l (tid :: q) /\
       exists u', unit_at w' b l = Some u' /\ _runList u' = _runList u) e w.
Proof.
  intros (u' & Hu' & Hc & Hnd) Hu Hnin Hi Hn. assert (u' = u) as -> by congruence.
  assert (Hb : has_bucket w b) by (by eapply unit_at_has_bucket).
  assert (Hnd' : NoDup (tid :: q)) by (apply NoDup_cons; by rewrite list_elem_of_In).
  unfold appendHeadToWait. wp_step deref_unit_eq. wp_step store_unit_eq.
  destruct (_pWaitCB u) as [h|] eqn:Hh.
  - eapply wp_eq; [apply update_info_eq; by rewrite info_set_unit|]. split; [done|].
    split; eexists; (rewrite unit_at_set_info, unit_at_set_unit by done;
      rewrite decide_True by done; split; [done|]); [|done].
    simpl. split; [|done]. split; [done|]. exists (info_setNext i (Some h)).
    rewrite info_set_info by (apply alive_set_unit; by eapply info_alive).
    rewrite decide_True by done. split; [done|]. simpl.
    eapply chain_from_frame; [|exact Hc]. intros t Ht.
    rewrite info_set_info by (apply alive_set_unit; by eapply info_alive).
    rewrite decide_False by (intros [-> _]; done). by rewrite info_set_unit.
  - destruct q as [|t q]; [|by destruct Hc]. destruct Hn as [Hn|Hn]; [done|].
    apply wp_ret. split; [done|].
    split; eexists; (rewrite unit_at_set_unit by done; rewrite decide_True by done;
      split; [done|]); [|done].
    simpl. split; [|done]. split; [done|]. exists i. rewrite info_set_unit. by rewrite Hn.
Qed.

(** ** Removal *)

Lemma NoDup_remove_elem (t : Z) q : NoDup q -> NoDup (remove Z.eq_dec t q).
Proof.
  induction q as [|x q IH]; simpl; [done|]. intros [Hx Hq]%NoDup_cons.
  destruct (Z.eq_dec t x); [auto|]. apply NoDup_cons. split; [|auto].
  rewrite list_elem_of_In in *. intros H. by apply in_remove in H as [? ?].
Qed.

Lemma remove_notin (t : Z) q : ~ In t q -> remove Z.eq_dec t q = q.
Proof. apply notin_remove. Qed.

Lemma removeFromWait_loop_spec n tid l t0 q w e :
  chain_from w l (Some t0) (t0 :: q) -> (length q < n)%nat -> NoDup (t0 :: q) ->
  t0 <> tid -> In tid q ->
  exists p ip nx, info w p l = Some ip /\ In p (t0 :: q) /\
    chain_from (set_info w p l (Some (info_setNext ip nx))) l (Some t0)
      (t0 :: remove Z.eq_dec tid q) /\
    removeFromWait_loop n tid l t0 e w = Done tt e (set_info w p l (Some (info_setNext ip nx))).
Proof.
  revert t0 q. induction n as [|n IH]; intros t0 q Hc Hlen Hnd Hne Hin; [lia|].
  destruct Hc as [_ (i0 & Hi0 & Hc)]. destruct q as [|t q]; [done|].
  apply NoDup_cons in Hnd as [Ht0 Hnd]. rewrite list_elem_of_In in Ht0.
  assert (Hc1 := Hc). destruct Hc as [Hn0 (i1 & Hi1 & Hc)].
  simpl removeFromWait_loop. unfold mbind, lockM_bind.
  rewrite getTransLock_eq by (eauto using info_alive). rewrite Hi0, Hn0.
  unfold deref_edu. destruct (info_alive _ _ _ _ Hi1) as [cb Hcb]. rewrite Hcb.
  destruct (Z.eqb_spec t tid) as [->|Hne1].
  - rewrite getTransLock_eq by (eauto using info_alive). rewrite Hi1.
    exists t0, i0, (_pNextWaitCB i1). split; [done|]. split; [by left|].
    split; [|by apply (update_info_eq w e t0 l (fun i => info_setNext i (_pNextWaitCB i1)))].
    apply NoDup_cons in Hnd as [Htq Hnd]. rewrite list_elem_of_In in Htq.
    split; [done|]. exists (info_setNext i0 (_pNextWaitCB i1)).
    rewrite info_set_info by (eauto using info_alive). rewrite decide_True by done.
    split; [done|]. simpl remove. destruct (Z.eq_dec tid tid); [|done].
    rewrite remove_notin by done. simpl.
    eapply chain_from_frame; [|exact Hc]. intros t Ht.
    rewrite info_set_info by (eauto using info_alive).
    rewrite decide_False; [done|]. intros [-> _]. apply Ht0; by right.
  - destruct Hin as [->|Hin]; [done|].
    rewrite Hn0 in Hc1.
    destruct (IH t q) as (p & ip & nx & Hp & Hpin & Hch & Heq); auto.
    { simpl in Hlen; lia. }
    exists p, ip, nx. split; [done|]. split; [by right|]. split; [|done].
    split; [done|]. exists i0. rewrite info_set_info by (eauto using info_alive).
    rewrite decide_False.
    + split; [done|]. rewrite Hn0. simpl remove. by destruct (Z.eq_dec tid t); [congruence|].
    + intros [-> _]. apply Ht0. destruct Hpin; [left; done|by right].
Qed.

(** Thread [t] has a lock wake-up in its event queue. *)
Definition woken (w : world) (t : Z) : Prop :=
  exists cb, edus w !! t = Some cb /\ In PMD_EDU_EVENT_LOCKWAKEUP (_queue cb).

Lemma wp_wakeUp C K t Q e w :
  alive w t ->
  (forall w', same_locks w w' -> woken w' t -> Q tt e w') ->
  wp C K (wakeUp t) Q e w.
Proof.
  intros [cb Hcb] HQ. unfold wp, wakeUp, postEvent, mbind, lockM_bind, deref_edu.
  rewrite Hcb. apply HQ; [by apply same_locks_edu|].
  eexists. simpl. rewrite lookup_insert_eq. split; [done|]. simpl.
  apply in_or_app. right. by left.
Qed.

(** Removing a waiter from anywhere in the queue [q] returns, leaves the
    queue without that thread and in the old order, does not touch the
    holders, and when the first waiter leaves, the next one is woken. *)
Theorem removeFromWait_removes w e b l q u tid :
  wait_queue w b l q -> unit_at w b l = Some u -> In tid q ->
  wp False False (removeFromWait tid b l)
    (fun _ e' w' => e' = e /\ wait_queue w' b l (remove Z.eq_dec tid q) /\
       (exists u', unit_at w' b l = Some u' /\ _runList u' = _runList u) /\
       (forall t q', q = tid :: t :: q' -> woken w' t)) e w.
Proof.
  intros (u' & Hu' & Hc & Hnd) Hu Hin. assert (u' = u) as -> by congruence.
  assert (Hb : has_bucket w b) by (eauto using unit_at_has_bucket).
  unfold removeFromWait. wp_step deref_unit_eq.
  destruct q as [|h q]; [done|]. assert (Hc0 := Hc). destruct Hc as [Hh (ih & Hih & Hc)].
  rewrite Hh in Hc0 |- *. destruct (info_alive _ _ _ _ Hih) as [cb Hcb].
  apply wp_bind. eapply wp_eq; [unfold deref_edu; by rewrite Hcb|].
  assert (Hnd0 := Hnd). apply NoDup_cons in Hnd as [Hhq Hnd]. rewrite list_elem_of_In in Hhq.
  destruct (Z.eqb_spec h tid) as [->|Hne].
  - wp_step getTransLock_eq; [eauto using info_alive|]. rewrite Hih.
    simpl remove. destruct (Z.eq_dec tid tid); [|done]. rewrite remove_notin by done.
    destruct ih as [[nx|] ty rf]; simpl in Hc.
    + destruct q as [|t q]; [done|]. assert (Hc1 := Hc). destruct Hc as [[= ->] (i1 & Hi1 & Hc)].
      wp_step store_unit_eq. apply wp_wakeUp.
      { apply alive_set_unit. eauto using info_alive. }
      intros w' Hs Hwk. split; [done|].
      assert (Hun : unit_at w' b l = Some (mkUnit (Some t) (_runList u))).
      { rewrite (same_locks_unit_at _ _ _ _ Hs), unit_at_set_unit by done.
        by rewrite decide_True. }
      split; [|split; [eauto|by intros t' q' [= <- <-]]].
      exists (mkUnit (Some t) (_runList u)). split; [done|]. split; [|done].
      eapply chain_from_frame; [|exact Hc1]. intros t' _.
      by rewrite (sl_info _ _ Hs), info_set_unit.
    + destruct q as [|t q]; [|by destruct Hc].
      wp_step store_unit_eq. split; [done|].
      assert (Hun : unit_at (set_unit w b l (Some (mkUnit None (_runList u)))) b l
                    = Some (mkUnit None (_runList u))).
      { rewrite unit_at_set_unit by done. by rewrite decide_True. }
      split; [|split; [eauto|done]]. eexists; split; [exact Hun|]. split; [done|constructor].
  - apply wp_bind. eapply wp_eq; [reflexivity|]. destruct Hin as [->|Hin]; [done|].
    destruct (removeFromWait_loop_spec (S (size (edus w))) tid l h q w e)
      as (p & ip & nx & Hp & Hpin & Hch & Heq); auto.
    { apply chain_from_length in Hc0; [simpl in Hc0; lia|done]. }
    eapply wp_eq; [exact Heq|]. split; [done|].
    split; [|split; [exists u; by rewrite unit_at_set_info|by intros t q' [= -> ->]]].
    exists u. rewrite unit_at_set_info, Hh. simpl remove.
    destruct (Z.eq_dec tid h); [congruence|]. split; [done|]. split; [done|].
    apply NoDup_cons. split.
    + rewrite list_elem_of_In. intros H. apply in_remove in H as [? ?]. done.
    + by apply NoDup_remove_elem.
Qed.

(** ** Two traces

    The threads 0 to 3 work on one record; each line of a trace is one
    critical section of one thread. *)

Definition rec_id : dpsTransLockId := mkLockId 1 7 3 40.
Definition rec_cl : dpsTransLockId := iLockIdOf rec_id.
Definition trace_world : world :=
  mkWorld ∅ (<[0 := demo_edu]> (<[1 := demo_edu]> (<[2 := demo_edu]> (<[3 := demo_edu]> ∅)))) [].

(** The first section of [acquireX] / [acquireS] on a record not yet held. *)
Definition begin_acquire (tid : Z) (t : DPS_TRANSLOCK_TYPE) : lockM (option Z) :=
  _ ← addLockInfo tid rec_id t; enter_section false tid rec_id t (getBucketNo rec_id).

(** The first section of [upgrade] on the record. *)
Definition begin_upgrade (tid : Z) (t : DPS_TRANSLOCK_TYPE) : lockM (option Z) :=
  _ ← setType tid rec_id t; enter_section true tid rec_id t (getBucketNo rec_id).

(** One turn of [waitretry]. *)
Definition resume (tid : Z) (t : DPS_TRANSLOCK_TYPE) : lockM (option Z) :=
  rc ← waitLock tid; retry_section rc tid t (getBucketNo rec_id) rec_id.

(** Threads 1 and 2 queue behind thread 0, both get S; then thread 1 waits
    again to upgrade to X and gets it when thread 2 releases. *)
Definition stale_link_trace : lockM (list (option Z)) :=
  _ ← acquireX 0 rec_id;
  _ ← acquireIS 1 rec_cl; r1 ← begin_acquire 1 DPS_TRANSLOCK_S;
  _ ← acquireIS 2 rec_cl; r2 ← begin_acquire 2 DPS_TRANSLOCK_S;
  _ ← release 0 rec_id;
  r3 ← resume 1 DPS_TRANSLOCK_S;
  r4 ← resume 2 DPS_TRANSLOCK_S;
  _ ← acquireIX 1 rec_cl; r5 ← begin_upgrade 1 DPS_TRANSLOCK_X;
  _ ← release 2 rec_id;
  r6 ← resume 1 DPS_TRANSLOCK_X;
  _ ← incRef 1 rec_id;
  mret [r1; r2; r3; r4; r5; r6].

(** Run a trace in which nothing else happens during the waits. *)
Definition run_trace {A} (m : lockM A) (waits : nat) : option (A * world) :=
  match m (replicate waits (fun w => w)) trace_world with
  | Done a _ w => Some (a, w)
  | _ => None
  end.

(** [removeFromWait] does not clear the [_pNextWaitCB] of the thread that
    leaves, and [appendHeadToWait] does not reset it when the queue is empty.
    In the trace every section succeeds (waits are [None], grants are
    [SDB_OK]); at its end thread 1 holds X, yet the unit's [_pWaitCB] names
    thread 2, which waits for nothing and has no lock info, and the next
    thread that has to wait dereferences that null lock info. *)
Theorem stale_wait_link_crash :
  exists w, run_trace stale_link_trace 3
    = Some ([None; None; Some SDB_OK; Some SDB_OK; None; Some SDB_OK], w) /\
  run w 1 rec_id = Some DPS_TRANSLOCK_X /\
  (_pWaitCB <$> unit_at w (getBucketNo rec_id) rec_id) = Some (Some 2) /\
  info w 2 rec_id = None /\
  (_ ← acquireIS 3 rec_cl; begin_acquire 3 DPS_TRANSLOCK_S) [] w = Crash.
Proof. eexists; split; [vm_compute; reflexivity|]. vm_compute. repeat split. Qed.

(** Thread 1 finds the record locked, is appended to the queue and its wait
    times out. *)
Definition timed_out_trace : lockM (Z * Z * Z) :=
  _ ← acquireX 0 rec_id;
  r1 ← tryOrAppendX 1 rec_id;
  r2 ← wait 1 rec_id;
  r3 ← tryX 1 rec_id;
  mret (r1, r2, r3).

(** When the wait after [tryOrAppendX] times out, [wait] leaves the X lock
    info of the thread in its lock list.  A later [tryX] on the record then
    answers [SDB_OK] although the thread is in no run list and another thread
    still holds the record in X. *)
Theorem timed_out_wait_phantom_lock :
  exists w, run_trace timed_out_trace 1
    = Some ((SDB_DPS_TRANS_APPEND_TO_WAIT, SDB_TIMEOUT, SDB_OK), w) /\
  run w 0 rec_id = Some DPS_TRANSLOCK_X /\
  run w 1 rec_id = None /\
  (_lockType <$> info w 1 rec_id) = Some DPS_TRANSLOCK_X.
Proof. eexists; split; [vm_compute; reflexivity|]. vm_compute. repeat split. Qed.

(** ** A concrete queue

    Thread 0 holds the record in X, threads 1 and 2 wait, thread 3 has added
    its lock info and is about to be queued. *)
Definition queue_world : world :=
  exec (_ ← acquireX 0 rec_id;
        _ ← acquireIS 1 rec_cl; _ ← begin_acquire 1 DPS_TRANSLOCK_S;
        _ ← acquireIS 2 rec_cl; _ ← begin_acquire 2 DPS_TRANSLOCK_S;
        addLockInfo 3 rec_id DPS_TRANSLOCK_S) trace_world.

Lemma queue_world_queue : wait_queue queue_world 40 rec_id [1; 2].
Proof.
  eexists. split; [vm_compute; reflexivity|]. split.
  - simpl. split; [reflexivity|]. eexists. split; [vm_compute; reflexivity|].
    simpl. split; [reflexivity|]. eexists. split; [vm_compute; reflexivity|]. reflexivity.
  - repeat constructor; rewrite ?list_elem_of_In; simpl; intuition lia.
Qed.

Definition queue_unit : dpsTransLockUnit := mkUnit (Some 1) [(0, DPS_TRANSLOCK_X)].

Lemma appendToWait_pushes_back_witness :
  wp False False (appendToWait 3 rec_id 40)
    (fun _ e' w' => e' = [] /\ wait_queue w' 40 rec_id ([1; 2] ++ [3]) /\
       exists u', unit_at w' 40 rec_id = Some u' /\ _runList u' = _runList queue_unit)
    [] queue_world.
Proof.
  apply (appendToWait_pushes_back queue_world [] 40 rec_id [1; 2] queue_unit 3
           (newLockInfo DPS_TRANSLOCK_S)).
  - apply queue_world_queue.
  - vm_compute. reflexivity.
  - simpl. intuition lia.
  - vm_compute. reflexivity.
  - reflexivity.
Defined.

Lemma appendHeadToWait_pushes_front_witness :
  wp False False (appendHeadToWait 3 rec_id 40)
    (fun _ e' w' => e' = [] /\ wait_queue w' 40 rec_id [3; 1; 2] /\
       exists u', unit_at w' 40 rec_id = Some u' /\ _runList u' = _runList queue_unit)
    [] queue_world.
Proof.
  apply (appendHeadToWait_pushes_front queue_world [] 40 rec_id [1; 2] queue_unit 3
           (newLockInfo DPS_TRANSLOCK_S)).
  - apply queue_world_queue.
  - vm_compute. reflexivity.
  - simpl. intuition lia.
  - vm_compute. reflexivity.
  - left. discriminate.
Defined.

Lemma removeFromWait_removes_witness :
  wp False False (removeFromWait 1 40 rec_id)
    (fun _ e' w' => e' = [] /\ wait_queue w' 40 rec_id [2] /\
       (exists u', unit_at w' 40 rec_id = Some u' /\ _runList u' = _runList queue_unit) /\
       (forall t q', [1; 2] = 1 :: t :: q' -> woken w' t)) [] queue_world.
Proof.
  apply (removeFromWait_removes queue_world [] 40 rec_id [1; 2] queue_unit 1).
  - apply queue_world_queue.
  - vm_compute. reflexivity.
  - simpl. auto.
Defined.
