(* ===== verification/TransLockSession.v ===== *)
(** * What the lock manager promises to one session

    The lock list of a session with its reference counts implements a bag of
    outstanding lock requests: every acquire or try that succeeds adds its
    request, one that fails leaves the bag as it was, [release] removes one
    request and [releaseAll] empties the bag; and every request in the bag is
    backed by run-list entries in a mode that covers it, on the lock itself
    and in intention mode on its collection and space. *)

From S2P Require Import Prelude.
From S2P Require Import TransLockDef.
From S2P Require Import TransLockBucket.
From S2P Require Import TransLock.
From S2P Require Import TransLockSafety.
From S2P Require Import TransLockState.
From stdpp Require Import base gmap list sorting.
From Stdlib Require Import ZArith Lia.

Open Scope Z_scope.

(** ** Well-formed lock ids and their hierarchy *)

Record wf_id (l : dpsTransLockId) : Prop := {
  wf_cs : 0 <= _logicCSID l < 2 ^ 32;
  wf_cl : 0 <= _collectionID l <= DMS_INVALID_MBID;
  wf_off : DMS_INVALID_OFFSET <= _recordOffset l < 2 ^ 31;
  wf_ext : _recordOffset l = DMS_INVALID_OFFSET -> _recordExtentID l = DMS_INVALID_EXTENT;
  wf_rec : _collectionID l = DMS_INVALID_MBID -> _recordOffset l = DMS_INVALID_OFFSET
}.

Definition is_record (l : dpsTransLockId) : bool := negb (_recordOffset l =? DMS_INVALID_OFFSET).

(** The lock itself, its collection, its space. *)
Definition chain_ids (l : dpsTransLockId) : list dpsTransLockId :=
  if hasCollection l then
    if is_record l then [l; collectionOf l; sLockIdOf l] else [l; sLockIdOf l]
  else [l].

Lemma wf_sLockId l : wf_id l -> wf_id (sLockIdOf l).
Proof. intros [? ? ? ? ?]. split; simpl; unfold DMS_INVALID_MBID, DMS_INVALID_OFFSET; lia. Qed.

Lemma wf_collectionOf l : wf_id l -> wf_id (collectionOf l).
Proof. intros [? ? ? ? ?]. split; simpl; unfold DMS_INVALID_OFFSET in *; lia. Qed.

Lemma iLockIdOf_record l : is_record l = true -> iLockIdOf l = collectionOf l.
Proof. unfold is_record, iLockIdOf. by intros ->. Qed.

Lemma iLockIdOf_collection l : wf_id l -> is_record l = false -> iLockIdOf l = sLockIdOf l.
Proof.
  unfold is_record, iLockIdOf. intros Hwf Hr. rewrite Hr.
  apply negb_false_iff, Z.eqb_eq in Hr. pose proof (wf_ext _ Hwf Hr) as He.
  unfold sLockIdOf. simpl. by rewrite Hr, He.
Qed.

Lemma getBucketNo_bound l : wf_id l -> 0 <= getBucketNo l < MAX_LOCKBUCKET_NUM.
Proof.
  intros [? ? ? _ _]. unfold getBucketNo, MAX_LOCKBUCKET_NUM, DMS_INVALID_OFFSET in *.
  repeat case_Zb; simpl; try lia;
    (match goal with |- context [Z.rem ?a 1000] => pose proof (Z.rem_bound_pos a 1000) end);
    try rewrite u32_small; lia.
Qed.

(** ** Views of one session *)

Definition tr (oi : option dpsTransCBLockInfo) : option (DPS_TRANSLOCK_TYPE * Z) :=
  (fun i => (_lockType i, _ref i)) <$> oi.

(** Nothing changed in what the session holds. *)
Record tsame (tid : Z) (w w' : world) : Prop := {
  ts_alive : alive w tid -> alive w' tid;
  ts_alloc : allocs w = [] -> allocs w' = [];
  ts_info l : tr (info w' tid l) = tr (info w tid l);
  ts_run l : run w' tid l = run w tid l;
  ts_bucket b : has_bucket w b -> has_bucket w' b
}.

(** Only the run-list entry of the session for [l] became [v]. *)
Record tupd (tid : Z) (l : dpsTransLockId) (v : option DPS_TRANSLOCK_TYPE) (w w' : world)
  : Prop := {
  tu_alive : alive w tid -> alive w' tid;
  tu_alloc : allocs w = [] -> allocs w' = [];
  tu_info l' : tr (info w' tid l') = tr (info w tid l');
  tu_run l' : run w' tid l' = if decide (l = l') then v else run w tid l';
  tu_bucket b : has_bucket w b -> has_bucket w' b
}.

Lemma tsame_refl tid w : tsame tid w w.
Proof. by split. Qed.

Lemma tsame_trans tid w1 w2 w3 : tsame tid w1 w2 -> tsame tid w2 w3 -> tsame tid w1 w3.
Proof.
  intros [? ? Hi Hr ?] [? ? Hi' Hr' ?]. split; eauto; intros l;
    [by rewrite Hi'|by rewrite Hr'].
Qed.

Lemma tupd_same_l tid l v w1 w2 w3 : tsame tid w1 w2 -> tupd tid l v w2 w3 -> tupd tid l v w1 w3.
Proof.
  intros [? ? Hi Hr ?] [? ? Hi' Hr' ?]. split; eauto; intros l'; [by rewrite Hi'|].
  rewrite Hr'. by rewrite Hr.
Qed.

Lemma tupd_same_r tid l v w1 w2 w3 : tupd tid l v w1 w2 -> tsame tid w2 w3 -> tupd tid l v w1 w3.
Proof.
  intros [? ? Hi Hr ?] [? ? Hi' Hr' ?]. split; eauto; intros l'; [by rewrite Hi'|].
  by rewrite Hr'.
Qed.

Lemma tsame_tupd tid l w w' : tsame tid w w' -> tupd tid l (run w tid l) w w'.
Proof. intros []. split; eauto. intros l'. by case_decide; subst. Qed.

Lemma same_locks_tsame tid w w' : same_locks w w' -> tsame tid w w'.
Proof.
  intros Hs. split.
  - apply (sl_alive _ _ Hs).
  - by rewrite (sl_allocs _ _ Hs).
  - intros l. by rewrite (sl_info _ _ Hs).
  - intros l. by apply same_locks_run.
  - intros b. unfold has_bucket. by rewrite (sl_buckets _ _ Hs).
Qed.

(** Changing the wait pointer of a unit, or adding an empty unit. *)
Lemma set_unit_tsame tid w b l u :
  has_bucket w b ->
  (forall tid', om_find tid' (_runList u)
     = unit_at w b l ≫= fun u0 => om_find tid' (_runList u0)) ->
  tsame tid w (set_unit w b l (Some u)).
Proof.
  intros Hb Hr. split.
  - by rewrite alive_set_unit.
  - by rewrite allocs_set_unit.
  - intros l'. by rewrite info_set_unit.
  - intros l'. unfold run. rewrite unit_at_set_unit by done.
    case_decide as Hd; [|done]. destruct Hd as [-> ->]. simpl. apply Hr.
  - intros b'. by rewrite has_bucket_set_unit.
Qed.

Lemma set_unit_tupd tid w l ou :
  has_bucket w (getBucketNo l) ->
  tupd tid l (ou ≫= fun u => om_find tid (_runList u)) w (set_unit w (getBucketNo l) l ou).
Proof.
  intros Hb. split.
  - by rewrite alive_set_unit.
  - by rewrite allocs_set_unit.
  - intros l'. by rewrite info_set_unit.
  - intros l'. unfold run. rewrite unit_at_set_unit by done.
    destruct (decide (l = l')) as [->|]; [by rewrite decide_True|].
    by rewrite decide_False by tauto.
  - intros b'. by rewrite has_bucket_set_unit.
Qed.

(** A link update keeps mode and count. *)
Lemma set_info_tsame tid w p l i i' :
  info w p l = Some i -> _lockType i' = _lockType i -> _ref i' = _ref i ->
  tsame tid w (set_info w p l (Some i')).
Proof.
  intros Hi Ht Hr. assert (Ha : alive w p) by (eauto using info_alive). split.
  - by rewrite alive_set_info.
  - by rewrite allocs_set_info.
  - intros l'. rewrite info_set_info by done. case_decide as Hd; [|done].
    destruct Hd as [<- <-]. rewrite Hi. unfold tr. simpl. by rewrite Ht, Hr.
  - intros l'. by rewrite run_set_info.
  - intros b. unfold has_bucket. by rewrite buckets_set_info.
Qed.

(** ** The non-blocking entry *)

(** Wait pointers name existing sessions, or crashes are tolerated ([C]). *)
Definition waiters_alive (w : world) : Prop := forall b l u h,
  unit_at w b l = Some u -> _pWaitCB u = Some h -> alive w h.

Definition guard (C : Prop) (w : world) : Prop := C \/ waiters_alive w.

Lemma guard_set_unit C w b l u :
  has_bucket w b -> (forall h, _pWaitCB u = Some h -> C \/ alive w h) ->
  guard C w -> guard C (set_unit w b l (Some u)).
Proof.
  intros Hb Hu [HC|Hg]; [by left|].
  destruct (_pWaitCB u) as [h|] eqn:Hh.
  - destruct (Hu h eq_refl) as [|Hal]; [by left|]. right.
    intros b' l' u' h'. rewrite unit_at_set_unit by done. rewrite alive_set_unit.
    case_decide as Hd; [|apply Hg]. intros [= <-]. rewrite Hh. by intros [= <-].
  - right. intros b' l' u' h'. rewrite unit_at_set_unit by done. rewrite alive_set_unit.
    case_decide as Hd; [|apply Hg]. intros [= <-]. by rewrite Hh.
Qed.

Lemma guard_erase_unit C w b l : has_bucket w b -> guard C w -> guard C (set_unit w b l None).
Proof.
  intros Hb [HC|Hg]; [by left|right]. intros b' l' u' h'. rewrite unit_at_set_unit by done.
  rewrite alive_set_unit. case_decide; [done|apply Hg].
Qed.

Lemma guard_same_locks C w w' : same_locks w w' -> guard C w -> guard C w'.
Proof.
  intros Hs [HC|Hg]; [by left|right]. intros b l u h. rewrite (same_locks_unit_at w w') by done.
  intros Hu Hh. apply (sl_alive _ _ Hs). by eapply Hg.
Qed.

Lemma guard_set_info C w tid l oi : guard C w -> guard C (set_info w tid l oi).
Proof.
  intros [HC|Hg]; [by left|right]. intros b l' u h. rewrite unit_at_set_info, alive_set_info.
  apply Hg.
Qed.

Lemma wp_find_or_new C K tid b l Q e w :
  has_bucket w b -> allocs w = [] ->
  (forall w', tsame tid w w' -> (guard C w -> guard C w') -> is_Some (unit_at w' b l) ->
     run w' tid l = run w tid l -> Q true e w') ->
  wp C K (find_or_new_unit b l) Q e w.
Proof.
  intros Hb Ha HQ. unfold find_or_new_unit. wp_step find_unit_eq.
  destruct (unit_at w b l) as [u|] eqn:Hu.
  - apply wp_ret. apply HQ; [apply tsame_refl|done|by rewrite Hu|done].
  - apply wp_bind. eapply wp_eq; [unfold sdb_oss_new; by rewrite Ha|].
    wp_step store_unit_eq. apply wp_ret.
    assert (Hs : tsame tid w (set_unit w b l (Some newLockUnit))).
    { apply set_unit_tsame; [done|]. by rewrite Hu. }
    apply HQ; [done|by apply guard_set_unit| |by destruct Hs].
    rewrite unit_at_set_unit by done. rewrite decide_True by done. eauto.
Qed.

(** The contract of an entry into a bucket: on [SDB_OK] the session is in the
    run list in the requested mode, otherwise its entry is what it was. *)
Definition entry_post (C : Prop) (tid : Z) (l : dpsTransLockId) (t : DPS_TRANSLOCK_TYPE)
  (w : world) (rc : Z) (w' : world) : Prop :=
  tupd tid l (if rc =? SDB_OK then Some t else run w tid l) w w' /\ (guard C w -> guard C w').

Lemma wp_appendToRun C K tid l t e w :
  is_Some (unit_at w (getBucketNo l) l) ->
  wp C K (appendToRun tid t (getBucketNo l) l)
    (fun rc e' w' => e' = e /\ entry_post C tid l t w rc w' /\
       (rc <> SDB_OK -> w' = w) /\ is_Some (unit_at w' (getBucketNo l) l)) e w.
Proof.
  intros [u Hu]. assert (Hb : has_bucket w (getBucketNo l)) by (eauto using unit_at_has_bucket).
  unfold appendToRun. wp_step deref_unit_eq. destruct (checkCompatible tid t u); simpl.
  - wp_step store_unit_eq. apply wp_ret. split; [done|]. split; [split|split].
    + simpl. pose proof (set_unit_tupd tid w l
        (Some (mkUnit (_pWaitCB u) (om_insert tid t (_runList u)))) Hb) as H.
      simpl in H. by rewrite om_find_insert_eq in H.
    + intros Hg. apply guard_set_unit; [done| |done]. simpl. intros h Hh.
      destruct Hg as [|Hg]; [by left|right]. by eapply Hg.
    + done.
    + rewrite unit_at_set_unit by done. rewrite decide_True by done. eauto.
  - apply wp_ret. split; [done|]. split; [split|split]; eauto.
    simpl. apply tsame_tupd, tsame_refl.
Qed.

Lemma tryAcquire_entry C K tid l t e w :
  has_bucket w (getBucketNo l) -> allocs w = [] ->
  wp C K (lockBucket_tryAcquire tid l t (getBucketNo l))
    (fun rc e' w' => e' = e /\ entry_post C tid l t w rc w') e w.
Proof.
  intros Hb Ha. unfold lockBucket_tryAcquire. apply wp_bind.
  apply (wp_find_or_new C K tid); [done..|]. intros w1 Hs Hg Hu Hr. simpl.
  eapply wp_consequence; [by apply wp_appendToRun|].
  intros rc e' w' (-> & [Hup Hg'] & _ & _). split; [done|]. split; [|tauto].
  rewrite <-Hr. by eapply tupd_same_l.
Qed.

(** ** The blocking entry

    The other threads may do anything during a wait that leaves this
    session's modes, counts and run-list entries alone. *)

Definition env_rely (tid : Z) (e : environment) : Prop :=
  Forall (fun f => forall w, tsame tid w (f w)) e.

(** [m] does not touch what the session holds. *)
Definition quiet (tid : Z) {A} (m : lockM A) : Prop := forall e w,
  wp True True m (fun _ e' w' => e' = e /\ tsame tid w w') e w.

Lemma quiet_bind tid {A B} (m : lockM A) (f : A -> lockM B) :
  quiet tid m -> (forall a, quiet tid (f a)) -> quiet tid (m ≫= f).
Proof.
  intros Hm Hf e w. apply wp_bind. eapply wp_consequence; [apply Hm|].
  intros a e' w' [-> Hs]. eapply wp_consequence; [apply Hf|].
  intros a' e'' w'' [-> Hs']. split; [done|]. by eapply tsame_trans.
Qed.

Lemma quiet_ret tid {A} (a : A) : quiet tid (mret a).
Proof. intros e w. apply wp_ret. split; [done|apply tsame_refl]. Qed.
Lemma quiet_crash tid {A} : quiet tid (@crash A).
Proof. by intros e w. Qed.
Lemma quiet_blocked tid {A} : quiet tid (fun _ _ => @Blocked A).
Proof. by intros e w. Qed.
Lemma quiet_fuel tid : quiet tid queue_fuel.
Proof. intros e w. split; [done|apply tsame_refl]. Qed.
Lemma quiet_deref tid t : quiet tid (deref_edu t).
Proof.
  intros e w. unfold wp, deref_edu. destruct (edus w !! t); [|done].
  split; [done|apply tsame_refl].
Qed.
Lemma quiet_getTransLock tid t l : quiet tid (getTransLock t l).
Proof. apply quiet_bind; [apply quiet_deref|]. intros. apply quiet_ret. Qed.
Lemma quiet_setNext tid t l n : quiet tid (setNextWaitCB t l n).
Proof.
  intros e w. destruct (info w t l) as [i|] eqn:Hi.
  - eapply wp_eq; [by apply (update_info_eq w e t l (fun i => info_setNext i n))|].
    split; [done|]. by eapply set_info_tsame.
  - unfold wp, setNextWaitCB, update_info, mbind, lockM_bind, deref_edu.
    unfold info in Hi. destruct (edus w !! t) as [cb|]; [|done]. simpl in Hi. by rewrite Hi.
Qed.
Lemma quiet_postEvent tid t ev : quiet tid (postEvent t ev).
Proof.
  intros e w. apply wp_postEvent; [by right|]. intros w' Hs.
  split; [done|]. by apply same_locks_tsame.
Qed.
Lemma quiet_wakeUp tid t : quiet tid (wakeUp t).
Proof. apply quiet_postEvent. Qed.
#[local] Hint Resolve quiet_ret quiet_crash quiet_blocked quiet_fuel quiet_deref
  quiet_getTransLock quiet_setNext quiet_postEvent quiet_wakeUp : locks.

Ltac quiet_steps :=
  repeat first
    [ solve [eauto with locks]
    | apply quiet_bind; intros
    | match goal with |- quiet _ (match ?x with _ => _ end) => destruct x end ].

Lemma quiet_appendToWait_loop tid n t l h : quiet tid (appendToWait_loop n t l h).
Proof. revert h. induction n; intros h; simpl; quiet_steps. Qed.
Lemma quiet_removeFromWait_loop tid n t l h : quiet tid (removeFromWait_loop n t l h).
Proof. revert h. induction n; intros h; simpl; quiet_steps. Qed.
#[local] Hint Resolve quiet_appendToWait_loop quiet_removeFromWait_loop : locks.

(** Dereferencing a unit and continuing with a new wait pointer. *)
Lemma quiet_deref_unit tid b l {A} (k : dpsTransLockUnit -> lockM A) :
  (forall u e w, unit_at w b l = Some u ->
     wp True True (k u) (fun _ e' w' => e' = e /\ tsame tid w w') e w) ->
  quiet tid (deref_unit b l ≫= k).
Proof.
  intros Hk e w. destruct (unit_at w b l) as [u|] eqn:Hu.
  - wp_step deref_unit_eq. by apply Hk.
  - unfold wp, mbind, lockM_bind, deref_unit, find_unit, mbind, lockM_bind.
    unfold unit_at in Hu. destruct (_bucketLst w !! b) as [lst|]; [|done].
    simpl in Hu. by rewrite Hu.
Qed.

Lemma wp_set_wait tid b l u h {A} (m : lockM A) e w :
  unit_at w b l = Some u -> quiet tid m ->
  wp True True (_ ← store_unit b l (mkUnit h (_runList u)); m)
    (fun _ e' w' => e' = e /\ tsame tid w w') e w.
Proof.
  intros Hu Hm. wp_step store_unit_eq; [eauto using unit_at_has_bucket|].
  eapply wp_consequence; [apply Hm|]. intros a e' w' [-> Hs]. split; [done|].
  eapply tsame_trans; [|exact Hs].
  apply set_unit_tsame; [eauto using unit_at_has_bucket|]. by rewrite Hu.
Qed.

Lemma wp_set_wait_last tid b l u h e w :
  unit_at w b l = Some u ->
  wp True True (store_unit b l (mkUnit h (_runList u)))
    (fun _ e' w' => e' = e /\ tsame tid w w') e w.
Proof.
  intros Hu. wp_step store_unit_eq; [eauto using unit_at_has_bucket|]. split; [done|].
  apply set_unit_tsame; [eauto using unit_at_has_bucket|]. by rewrite Hu.
Qed.

Lemma quiet_appendToWait tid t l b : quiet tid (appendToWait t l b).
Proof.
  apply quiet_deref_unit. intros u e w Hu. destruct (_pWaitCB u) as [h|].
  - apply (quiet_bind tid queue_fuel); eauto with locks.
  - by apply wp_set_wait_last.
Qed.

Lemma quiet_appendHeadToWait tid t l b : quiet tid (appendHeadToWait t l b).
Proof.
  apply quiet_deref_unit. intros u e w Hu. apply wp_set_wait; [done|].
  destruct (_pWaitCB u); eauto with locks.
Qed.

Lemma quiet_removeFromWait tid t b l : quiet tid (removeFromWait t b l).
Proof.
  apply quiet_deref_unit. intros u e w Hu. destruct (_pWaitCB u) as [h|]; [|done].
  destruct (edus w !! h) as [cb|] eqn:Hcb;
    [|by unfold wp, mbind, lockM_bind, deref_edu; rewrite Hcb].
  apply wp_bind. eapply wp_eq; [unfold deref_edu; by rewrite Hcb|].
  destruct (h =? t).
  - wp_step getTransLock_eq; [by eexists|].
    destruct (info w h l) as [[[nx|] ty rf]|]; try (by apply wp_set_wait_last).
    apply wp_set_wait; eauto with locks.
  - apply (quiet_bind tid queue_fuel); eauto with locks.
Qed.

Definition tid_frame (w : world) (tid : Z) : Prop := alive w tid /\ allocs w = [].

Lemma tsame_frame tid w w' : tsame tid w w' -> tid_frame w tid -> tid_frame w' tid.
Proof. intros [] []. split; auto. Qed.

Lemma waitLock_quiet tid e w :
  env_rely tid e ->
  wp True True (waitLock tid) (fun _ e' w' => env_rely tid e' /\ tsame tid w w') e w.
Proof.
  intros He. unfold waitLock. apply wp_bind. unfold wp at 1, waitEvent.
  destruct e as [|f e]; [done|]. inversion He as [|? ? Hf He']; subst.
  specialize (Hf w). destruct (edus (f w) !! tid) as [cb|] eqn:Hcb; [|done].
  destruct (_queue cb) as [|ev q].
  - apply wp_ret. done.
  - assert (Hs : tsame tid w (set_edus (f w) (<[tid := mkEDU (_transLockLst cb) q (_waitLock cb)]> (edus (f w))))).
    { eapply tsame_trans; [exact Hf|]. by apply same_locks_tsame, same_locks_edu. }
    destruct ev; [by apply wp_ret|].
    apply wp_bind. eapply wp_consequence; [apply quiet_postEvent|].
    intros [] e' w' [-> Hs']. apply wp_ret. split; [done|]. by eapply tsame_trans.
Qed.

Lemma retry_section_entry rc tid l t e w :
  wp True True (retry_section rc tid t (getBucketNo l) l)
    (fun r e' w' => e' = e /\
       match r with
       | Some rc' => tupd tid l (if rc' =? SDB_OK then Some t else run w tid l) w w'
       | None => tsame tid w w'
       end) e w.
Proof.
  unfold retry_section. destruct (Z.eqb_spec rc SDB_OK) as [->|Hne]; simpl.
  - destruct (unit_at w (getBucketNo l) l) as [u|] eqn:Hu.
    + apply wp_bind. eapply wp_consequence; [apply (wp_appendToRun True True); by rewrite Hu|].
      intros rc' e' w' (-> & [Hup _] & Hsame & _).
      destruct (Z.eqb_spec rc' SDB_OK) as [->|Hne]; simpl in *.
      * apply wp_bind. eapply wp_consequence; [apply quiet_removeFromWait|].
        intros [] e' w'' [-> Hs]. apply wp_ret. split; [done|]. simpl.
        by eapply tupd_same_r.
      * apply wp_ret. rewrite Hsame by done. split; [done|apply tsame_refl].
    + unfold wp, mbind, lockM_bind, appendToRun, mbind, lockM_bind, deref_unit, find_unit,
        mbind, lockM_bind. unfold unit_at in Hu.
      destruct (_bucketLst w !! getBucketNo l) as [lst|]; [|done]. simpl in Hu. by rewrite Hu.
  - apply wp_bind. eapply wp_consequence; [apply quiet_removeFromWait|].
    intros [] e' w' [-> Hs]. apply wp_ret. split; [done|].
    destruct (Z.eqb_spec rc SDB_OK); [done|]. by apply tsame_tupd.
Qed.

Lemma waitretry_entry tid l t e w :
  env_rely tid e ->
  wp True True (waitretry tid t (getBucketNo l) l)
    (fun rc e' w' => env_rely tid e' /\
       tupd tid l (if rc =? SDB_OK then Some t else run w tid l) w w') e w.
Proof.
  intros He. change (wp True True (waitretry_loop (S (length e)) tid t (getBucketNo l) l)
    (fun rc e' w' => env_rely tid e' /\
       tupd tid l (if rc =? SDB_OK then Some t else run w tid l) w w') e w).
  generalize (S (length e)) as n. intros n. revert e w He.
  induction n as [|n IH]; intros e w He; simpl; [done|].
  apply wp_bind. eapply wp_consequence; [by apply waitLock_quiet|].
  intros rc e1 w1 [He1 Hs1]. apply wp_bind.
  eapply wp_consequence; [apply retry_section_entry|].
  intros [rc'|] e2 w2 [-> H2].
  - apply wp_ret. split; [done|]. rewrite <-(ts_run _ _ _ Hs1). by eapply tupd_same_l.
  - eapply wp_consequence; [by apply IH|]. intros rc' e3 w3 [He3 H3]. split; [done|].
    assert (Hs : tsame tid w w2) by (by eapply tsame_trans).
    rewrite <-(ts_run _ _ _ Hs). by eapply tupd_same_l.
Qed.

Lemma blocking_entry head tid l t e w :
  has_bucket w (getBucketNo l) -> allocs w = [] -> env_rely tid e ->
  wp True True (r ← enter_section head tid l t (getBucketNo l);
                match r with Some rc => mret rc | None => waitretry tid t (getBucketNo l) l end)
    (fun rc e' w' => env_rely tid e' /\ entry_post True tid l t w rc w') e w.
Proof.
  intros Hb Ha He. apply wp_bind. unfold enter_section. apply wp_bind.
  apply (wp_find_or_new True True tid); [done..|]. intros w1 Hs1 _ Hu1 Hr1. simpl.
  apply wp_bind. eapply wp_consequence; [by apply (wp_appendToRun True True)|].
  intros rc e1 w2 (-> & [Hup _] & Hsame & _).
  destruct (Z.eqb_spec rc SDB_OK) as [->|Hne]; simpl in *.
  - apply wp_ret. apply wp_ret. split; [done|]. split; [|by left].
    rewrite Z.eqb_refl. by eapply tupd_same_l.
  - rewrite Hsame in * by done. apply wp_bind.
    eapply (wp_consequence _ _ _ (fun _ e' w' => e' = e /\ tsame tid w1 w')).
    { destruct head; [apply quiet_appendHeadToWait|apply quiet_appendToWait]. }
    intros [] e2 w3 [-> Hs3]. apply wp_ret.
    eapply wp_consequence; [by apply waitretry_entry|].
    intros rc' e4 w4 [He4 H4]. split; [done|]. split; [|by left].
    assert (Hs : tsame tid w w3) by (by eapply tsame_trans).
    rewrite <-(ts_run _ _ _ Hs). by eapply tupd_same_l.
Qed.

(** ** The interface between bucket and manager *)

Class BucketSpec (C K : Prop) (R : Z -> environment -> Prop) (B : BucketOps) : Prop := {
  bs_acquire tid l t e w :
    has_bucket w (getBucketNo l) -> allocs w = [] -> R tid e ->
    wp C K (bo_acquire tid l t (getBucketNo l))
      (fun rc e' w' => R tid e' /\ entry_post C tid l t w rc w') e w;
  bs_upgrade tid l t e w :
    has_bucket w (getBucketNo l) -> allocs w = [] -> R tid e ->
    wp C K (bo_upgrade tid l t (getBucketNo l))
      (fun rc e' w' => R tid e' /\ entry_post C tid l t w rc w') e w
}.

(** The non-blocking entry never crashes and never blocks. *)
#[export] Instance tryOps_spec : BucketSpec False False (fun _ _ => True) tryOps.
Proof.
  split; intros; (eapply wp_consequence; [by apply tryAcquire_entry|]);
    intros rc e' w' [_ ?]; done.
Qed.

(** The blocking entry keeps the contract whenever it returns. *)
#[export] Instance blockingOps_spec : BucketSpec True True env_rely blockingOps.
Proof. split; intros; by apply blocking_entry. Qed.

(** ** The session invariant *)

Record tid_ok (C : Prop) (w : world) (tid : Z) : Prop := {
  to_alive : alive w tid;
  to_alloc : allocs w = [];
  to_guard : guard C w;
  to_run l : run w tid l = _lockType <$> info w tid l;
  to_ref l i : info w tid l = Some i -> 0 <= _ref i;
  to_wf l i : info w tid l = Some i -> wf_id l
}.

(** How often the session has acquired [l]. *)
Definition cnt (w : world) (tid : Z) (l : dpsTransLockId) : Z :=
  match info w tid l with Some i => _ref i + 1 | None => 0 end.

Definition covers (w : world) (tid : Z) (l : dpsTransLockId) (m : DPS_TRANSLOCK_TYPE) : Prop :=
  exists i, info w tid l = Some i /\ isLockMatch i m = true.

Definition ind (ids : list dpsTransLockId) (l : dpsTransLockId) : Z :=
  if decide (l ∈ ids) then 1 else 0.

Lemma ind_singleton l l' : ind [l] l' = if decide (l = l') then 1 else 0.
Proof.
  unfold ind. destruct (decide (l = l')) as [->|Hne].
  - by rewrite decide_True by (by apply list_elem_of_singleton).
  - rewrite decide_False; [done|]. intros H. apply list_elem_of_singleton in H. congruence.
Qed.

(** The session went from [w] to [w'], its counts changed by [d], and a lock
    it still has covers at least what it covered before. *)
Record adv (C : Prop) (tid : Z) (w w' : world) (d : dpsTransLockId -> Z) : Prop := {
  adv_ok : tid_ok C w' tid;
  adv_cnt l : cnt w' tid l = cnt w tid l + d l;
  adv_mono l m : covers w tid l m -> 0 < cnt w' tid l -> covers w' tid l m
}.

Lemma covers_cnt C w tid l m : tid_ok C w tid -> covers w tid l m -> 0 < cnt w tid l.
Proof.
  intros Hok (i & Hi & _). unfold cnt. rewrite Hi. pose proof (to_ref _ _ _ Hok _ _ Hi). lia.
Qed.

Lemma cnt_nonneg C w tid l : tid_ok C w tid -> 0 <= cnt w tid l.
Proof.
  intros Hok. unfold cnt. destruct (info w tid l) as [i|] eqn:Hi; [|lia].
  pose proof (to_ref _ _ _ Hok _ _ Hi). lia.
Qed.

Lemma cnt_pos_info C w tid l :
  tid_ok C w tid -> 0 < cnt w tid l -> exists i, info w tid l = Some i.
Proof. unfold cnt. intros _. destruct (info w tid l); [eauto|lia]. Qed.

Lemma adv_refl C tid w : tid_ok C w tid -> adv C tid w w (fun _ => 0).
Proof. intros Hok. split; auto. intros; lia. Qed.

Lemma adv_ext C tid w w' d d' : (forall l, d l = d' l) -> adv C tid w w' d -> adv C tid w w' d'.
Proof. intros Hd [? Hc ?]. split; auto. intros l. by rewrite Hc, Hd. Qed.

(** Composition, when no lock held at both ends is given up in between. *)
Lemma adv_trans C tid w1 w2 w3 d1 d2 :
  adv C tid w1 w2 d1 -> adv C tid w2 w3 d2 ->
  (forall l, 0 <= d1 l) \/ (forall l, d2 l <= 0) ->
  tid_ok C w1 tid ->
  adv C tid w1 w3 (fun l => d1 l + d2 l).
Proof.
  intros [H2 C12 M12] [H3 C23 M23] Hd H1. split; [done|intros; rewrite C23, C12; lia|].
  intros l m Hc Hp. apply M23; [|done]. apply M12; [done|].
  pose proof (covers_cnt _ _ _ _ _ H1 Hc). specialize (C12 l). specialize (C23 l).
  destruct Hd as [Hd|Hd]; specialize (Hd l); lia.
Qed.

Lemma isLockMatch_setRef i r m : isLockMatch (info_setRef i r) m = isLockMatch i m.
Proof. done. Qed.

(** ** Building blocks *)

Lemma wp_getBucket C K tid l Q e w :
  wf_id l -> allocs w = [] ->
  (forall w', tsame tid w w' -> (guard C w -> guard C w') ->
     has_bucket w' (getBucketNo l) -> (forall l', info w' tid l' = info w tid l') ->
     Q (SDB_OK, getBucketNo l) e w') ->
  wp C K (getBucket l) Q e w.
Proof.
  intros Hwf Ha HQ. unfold getBucket. pose proof (getBucketNo_bound l Hwf) as Hbd.
  destruct (Z.ltb_spec (getBucketNo l) MAX_LOCKBUCKET_NUM); [|lia]. simpl.
  apply wp_bind. eapply wp_eq; [reflexivity|].
  destruct (_bucketLst w !! getBucketNo l) as [lst|] eqn:Hb.
  - apply wp_ret. apply HQ; [apply tsame_refl|done|by eexists|done].
  - apply wp_bind. eapply wp_eq; [unfold sdb_oss_new; by rewrite Ha|]. simpl.
    apply wp_bind. eapply wp_eq; [reflexivity|].
    apply wp_bind. eapply wp_eq; [reflexivity|]. apply wp_ret.
    set (w' := set_buckets w (<[getBucketNo l := ∅]> (_bucketLst w))).
    assert (Hu : forall b l', unit_at w' b l' = unit_at w b l').
    { intros b l'. unfold unit_at, w'; simpl. rewrite lookup_insert.
      case_decide; [subst|done]. rewrite Hb. simpl. by rewrite lookup_empty. }
    apply HQ.
    + split; auto.
      * intros l'. unfold run. by rewrite Hu.
      * intros b [x Hx]. unfold has_bucket, w'; simpl. rewrite lookup_insert.
        case_decide; eauto.
    + intros [|Hg]; [by left|right]. intros b l' u h. rewrite Hu. apply Hg.
    + unfold has_bucket, w'; simpl. rewrite lookup_insert_eq. eauto.
    + done.
Qed.

Lemma tr_info_some w w' tid l i :
  tr (info w' tid l) = tr (info w tid l) -> info w tid l = Some i ->
  exists i', info w' tid l = Some i' /\ _lockType i' = _lockType i /\ _ref i' = _ref i.
Proof.
  intros Ht Hi. rewrite Hi in Ht. unfold tr in Ht.
  destruct (info w' tid l) as [i'|]; [|done]. simpl in Ht. injection Ht as ? ?. eauto.
Qed.

Lemma tr_cnt w w' tid l :
  tr (info w' tid l) = tr (info w tid l) -> cnt w' tid l = cnt w tid l.
Proof.
  unfold tr, cnt. destruct (info w' tid l), (info w tid l); simpl; try done.
  intros [= ? ?]. lia.
Qed.

Lemma isLockMatch_type i i' m : _lockType i' = _lockType i -> isLockMatch i' m = isLockMatch i m.
Proof. unfold isLockMatch. by intros ->. Qed.

Lemma tr_covers w w' tid l m :
  tr (info w' tid l) = tr (info w tid l) -> covers w tid l m -> covers w' tid l m.
Proof.
  intros Ht (i & Hi & Hm). destruct (tr_info_some _ _ _ _ _ Ht Hi) as (i' & Hi' & Hty & _).
  exists i'. split; [done|]. by rewrite (isLockMatch_type i).
Qed.

Lemma tsame_ok C tid w w' :
  tsame tid w w' -> (guard C w -> guard C w') -> tid_ok C w tid -> tid_ok C w' tid.
Proof.
  intros [Ha Hal Hi Hr _] Hg [? ? ? Hrun Href Hwf]. split; auto.
  - intros l. rewrite Hr, Hrun. specialize (Hi l). unfold tr in Hi.
    destruct (info w' tid l), (info w tid l); simpl in *; congruence.
  - intros l i Hl. destruct (tr_info_some w' w tid l i) as (i' & Hi' & _ & <-); [by rewrite Hi|done|].
    by eapply Href.
  - intros l i Hl. destruct (tr_info_some w' w tid l i) as (i' & Hi' & _ & _); [by rewrite Hi|done|].
    by eapply Hwf.
Qed.

Lemma tsame_adv C tid w w' :
  tsame tid w w' -> (guard C w -> guard C w') -> tid_ok C w tid -> adv C tid w w' (fun _ => 0).
Proof.
  intros Hs Hg Hok. split; [by eapply tsame_ok|..].
  - intros l. rewrite (tr_cnt w w') by (by destruct Hs). lia.
  - intros l m Hc _. eapply tr_covers; [|exact Hc]. by destruct Hs.
Qed.

Lemma info_set_info_tid w tid l oi l' :
  alive w tid ->
  info (set_info w tid l oi) tid l' = if decide (l = l') then oi else info w tid l'.
Proof.
  intros Ha. rewrite info_set_info by done. destruct (decide (l = l')).
  - by rewrite decide_True.
  - by rewrite decide_False by tauto.
Qed.

(** [incRef] on a lock the session has. *)
Lemma wp_incRef C K tid l i e w :
  tid_ok C w tid -> info w tid l = Some i ->
  wp C K (incRef tid l)
    (fun _ e' w' => e' = e /\ adv C tid w w' (ind [l]) /\
       forall m, covers w tid l m -> covers w' tid l m) e w.
Proof.
  intros Hok Hi. assert (Ha : alive w tid) by (by destruct Hok).
  eapply wp_eq; [by apply update_info_eq|]. split; [done|].
  assert (Hinfo : forall l', info (set_info w tid l (Some (info_setRef i (_ref i + 1)))) tid l'
     = if decide (l = l') then Some (info_setRef i (_ref i + 1)) else info w tid l').
  { intros l'. by apply info_set_info_tid. }
  assert (Hcov : forall l' m, covers w tid l' m ->
     covers (set_info w tid l (Some (info_setRef i (_ref i + 1)))) tid l' m).
  { intros l' m (i' & Hi' & Hm). unfold covers. rewrite Hinfo.
    case_decide; [subst|eauto]. eexists; split; [done|]. by simplify_eq. }
  pose proof (to_ref _ _ _ Hok _ _ Hi) as Hnn.
  split; [|auto]. split; [split| |auto].
  - by apply alive_set_info.
  - rewrite allocs_set_info. by destruct Hok.
  - apply guard_set_info. by destruct Hok.
  - intros l'. rewrite run_set_info, (to_run _ _ _ Hok), Hinfo.
    case_decide; [subst|done]. by rewrite Hi.
  - intros l' i'. rewrite Hinfo. case_decide; [intros [= <-]; simpl; lia|].
    apply (to_ref _ _ _ Hok).
  - intros l' i'. rewrite Hinfo. case_decide; [subst; intros _; by eapply to_wf|].
    apply (to_wf _ _ _ Hok).
  - intros l'. rewrite ind_singleton. unfold cnt. rewrite Hinfo. case_decide.
    + subst. rewrite Hi. simpl. lia.
    + lia.
Qed.

(** Mode and count of one lock become [o], the run-list entry follows. *)
Lemma tid_ok_put C tid l o w w' :
  tid_ok C w tid -> alive w' tid -> allocs w' = [] -> guard C w' ->
  (forall l', tr (info w' tid l') = if decide (l = l') then o else tr (info w tid l')) ->
  (forall l', run w' tid l' = if decide (l = l') then fst <$> o else run w tid l') ->
  (forall t r, o = Some (t, r) -> 0 <= r) -> wf_id l ->
  tid_ok C w' tid.
Proof.
  intros Hok Ha Hal Hg Hinfo Hrun Href Hwf. split; auto.
  - intros l'. rewrite Hrun. specialize (Hinfo l'). case_decide.
    + rewrite <-Hinfo. unfold tr. by destruct (info w' tid l').
    + rewrite (to_run _ _ _ Hok). unfold tr in Hinfo.
      destruct (info w' tid l'), (info w tid l'); simpl in *; congruence.
  - intros l' i Hi. specialize (Hinfo l'). rewrite Hi in Hinfo. case_decide.
    + eapply Href. rewrite <-Hinfo. done.
    + destruct (tr_info_some w' w tid l' i) as (i' & Hi' & _ & <-); [by rewrite Hi, <-Hinfo|done|].
      by eapply to_ref.
  - intros l' i Hi. specialize (Hinfo l'). rewrite Hi in Hinfo. case_decide; [by subst|].
    destruct (tr_info_some w' w tid l' i) as (i' & Hi' & _ & _); [by rewrite Hi, <-Hinfo|done|].
    by eapply to_wf.
Qed.

Lemma adv_put C tid l o w w' d :
  tid_ok C w' tid ->
  (forall l', tr (info w' tid l') = if decide (l = l') then o else tr (info w tid l')) ->
  (forall l', d l' = if decide (l = l') then
      (match o with Some (_, r) => r + 1 | None => 0 end) - cnt w tid l else 0) ->
  (forall i t r m, info w tid l = Some i -> o = Some (t, r) ->
     isLockMatch i m = true -> isLockMatch (mkLockInfo None t r) m = true) ->
  adv C tid w w' d.
Proof.
  intros Hok Hinfo Hd Hm. split; [done|..].
  - intros l'. rewrite Hd. specialize (Hinfo l'). case_decide.
    + subst l'. unfold cnt at 1. destruct (info w' tid l) as [i|]; rewrite <-Hinfo; simpl; lia.
    + rewrite (tr_cnt w w') by done. lia.
  - intros l' m Hc Hp. specialize (Hinfo l'). case_decide; [subst l'|by eapply tr_covers].
    destruct Hc as (i & Hi & Him). destruct (cnt_pos_info _ _ _ _ Hok Hp) as [i' Hi'].
    rewrite Hi' in Hinfo. exists i'. split; [done|].
    specialize (Hm i (_lockType i') (_ref i') m Hi). 
    rewrite (isLockMatch_type (mkLockInfo None (_lockType i') (_ref i'))) by done.
    apply Hm; [by rewrite <-Hinfo|done].
Qed.

(** ** Entering a lock the session does not have *)

(** The session after [addLockInfo] and an entry that returned [rc]. *)
Record fresh_entry (C : Prop) (tid : Z) (l : dpsTransLockId) (t : DPS_TRANSLOCK_TYPE)
  (w : world) (rc : Z) (w' : world) : Prop := {
  fe_alive : alive w' tid;
  fe_alloc : allocs w' = [];
  fe_guard : guard C w';
  fe_info l' : tr (info w' tid l') = if decide (l = l') then Some (t, 0) else tr (info w tid l');
  fe_run l' : run w' tid l'
    = if decide (l = l') then (if rc =? SDB_OK then Some t else None) else run w tid l'
}.

Lemma fresh_entered C tid l t w rc w1 w2 :
  tid_ok C w tid -> info w tid l = None ->
  entry_post C tid l t (set_info w tid l (Some (newLockInfo t))) rc w1 ->
  same_locks w1 w2 -> fresh_entry C tid l t w rc w2.
Proof.
  intros Hok Hn [Hup Hg] Hs. assert (Ha : alive w tid) by (by destruct Hok).
  split.
  - apply (sl_alive _ _ Hs), (tu_alive _ _ _ _ _ Hup). by apply alive_set_info.
  - rewrite (sl_allocs _ _ Hs). apply (tu_alloc _ _ _ _ _ Hup).
    rewrite allocs_set_info. by destruct Hok.
  - eapply guard_same_locks; [done|]. apply Hg, guard_set_info. by destruct Hok.
  - intros l'. rewrite (sl_info _ _ Hs), (tu_info _ _ _ _ _ Hup), info_set_info_tid by done.
    by case_decide.
  - intros l'. rewrite (same_locks_run _ _ _ _ Hs), (tu_run _ _ _ _ _ Hup).
    rewrite !run_set_info. case_decide; [|done]. case_match; [done|].
    rewrite (to_run _ _ _ Hok). by rewrite Hn.
Qed.

Lemma fresh_granted C tid l t w w' :
  tid_ok C w tid -> wf_id l -> info w tid l = None -> fresh_entry C tid l t w SDB_OK w' ->
  adv C tid w w' (ind [l]) /\ covers w' tid l t.
Proof.
  intros Hok Hwf Hn [Ha Hal Hg Hi Hr]. split.
  - eapply (adv_put C tid l (Some (t, 0))); [|done| |congruence].
    + apply (tid_ok_put C tid l (Some (t, 0)) w); try done. intros ? ? [= <- <-]. lia.
    + intros l'. rewrite ind_singleton. unfold cnt. rewrite Hn. by case_decide.
  - specialize (Hi l). rewrite decide_True in Hi by done. unfold tr in Hi.
    destruct (info w' tid l) as [i|] eqn:E; [|done]. exists i. split; [done|].
    unfold isLockMatch. injection Hi as -> _. by rewrite decide_True.
Qed.

Lemma fresh_refused C tid l t w rc w' :
  tid_ok C w tid -> wf_id l -> info w tid l = None -> rc <> SDB_OK ->
  fresh_entry C tid l t w rc w' -> adv C tid w (set_info w' tid l None) (fun _ => 0).
Proof.
  intros Hok Hwf Hn Hne [Ha Hal Hg Hi Hr].
  assert (Hi' : forall l', tr (info (set_info w' tid l None) tid l')
    = if decide (l = l') then None else tr (info w tid l')).
  { intros l'. rewrite info_set_info_tid by done. specialize (Hi l'). by case_decide. }
  eapply (adv_put C tid l None); [|done| |congruence].
  - apply (tid_ok_put C tid l None w); try done.
    + by apply alive_set_info.
    + by rewrite allocs_set_info.
    + by apply guard_set_info.
    + intros l'. rewrite run_set_info, Hr. by destruct (Z.eqb_spec rc SDB_OK).
  - intros l'. unfold cnt. rewrite Hn. by case_decide.
Qed.

Lemma wp_publish C K (p : bool) tid l Q e w :
  alive w tid -> (forall w', same_locks w w' -> Q tt e w') ->
  wp C K (if p then setWaitLock tid l else mret tt) Q e w.
Proof.
  intros Ha HQ. destruct p; [by apply wp_setWaitLock|].
  apply wp_ret, HQ, same_locks_refl.
Qed.

(** ** Taking a lock below its intention lock *)

Section manager.
Context {C K : Prop} {R : Z -> environment -> Prop} {B : BucketOps} {BS : BucketSpec C K R B}.

(** The outcome of a request for the locks and modes [req]. *)
Definition req_post (tid : Z) (req : list (dpsTransLockId * DPS_TRANSLOCK_TYPE))
  (w : world) (rc : Z) (e' : environment) (w' : world) : Prop :=
  R tid e' /\
  adv C tid w w' (if rc =? SDB_OK then ind req.*1 else fun _ => 0) /\
  (rc = SDB_OK -> forall l m, (l, m) ∈ req -> covers w' tid l m).

(** A prefix that changes nothing for the session. *)
Lemma req_post_same tid req w w1 rc e' w' :
  tid_ok C w tid -> tsame tid w w1 -> (guard C w -> guard C w1) ->
  req_post tid req w1 rc e' w' -> req_post tid req w rc e' w'.
Proof.
  intros Hok Hs Hg (HR & Ha & Hc). split; [done|]. split; [|done].
  eapply adv_ext; [|eapply adv_trans; [by apply tsame_adv|exact Ha|left; intros; lia|done]].
  intros; simpl; lia.
Qed.

Lemma acquireNew_spec tid l t e w :
  tid_ok C w tid -> wf_id l -> R tid e -> info w tid l = None ->
  wp C K (acquireNew tid l t) (req_post tid [(l, t)] w) e w.
Proof.
  intros Hok Hwf HR Hnone. unfold acquireNew. apply wp_bind.
  apply (wp_getBucket C K tid); [done|by destruct Hok|]. intros w1 Hs1 Hg1 Hb1 Hi1. simpl.
  assert (Hok1 : tid_ok C w1 tid) by (by eapply tsame_ok).
  apply wp_bind, wp_publish; [by destruct Hok1|]. intros w2 Hs2.
  assert (Hs12 : tsame tid w1 w2) by (by apply same_locks_tsame).
  assert (Hok2 : tid_ok C w2 tid) by (eapply tsame_ok; eauto using guard_same_locks).
  assert (Hn2 : info w2 tid l = None) by (by rewrite (sl_info _ _ Hs2), Hi1).
  apply wp_bind. eapply wp_eq; [apply addLockInfo_eq; by destruct Hok2|].
  apply wp_bind. eapply wp_consequence.
  { apply bs_acquire; [|rewrite allocs_set_info; by destruct Hok2|done].
    unfold has_bucket. rewrite buckets_set_info. by apply (ts_bucket _ _ _ Hs12). }
  intros rc e4 w4 [HR4 Hpost]. apply wp_bind, wp_publish.
  { destruct Hpost as [Hup _]. apply (tu_alive _ _ _ _ _ Hup), alive_set_info.
    by destruct Hok2. }
  intros w5 Hs5. pose proof (fresh_entered _ _ _ _ _ _ _ _ Hok2 Hn2 Hpost Hs5) as Hfe.
  assert (Hpre : forall rc e' w', req_post tid [(l, t)] w2 rc e' w' ->
     req_post tid [(l, t)] w rc e' w').
  { intros ???. apply req_post_same; [done|by eapply tsame_trans|].
    eauto using guard_same_locks. }
  destruct (Z.eqb_spec rc SDB_OK) as [->|Hne]; simpl.
  - apply wp_ret, Hpre. split; [done|].
    destruct (fresh_granted C tid l t w2 w5) as [Hadv Hcov]; [done..|].
    split; [done|]. intros _ l' m Hin. by apply list_elem_of_singleton in Hin as [= -> ->].
  - wp_step delLockInfo_eq; [by destruct Hfe|]. apply wp_ret, Hpre. split; [done|].
    destruct (Z.eqb_spec rc SDB_OK); [done|]. split; [|done]. by eapply fresh_refused.
Qed.

(** ** Upgrading *)

Lemma isLockMatch_upgrade i t m r :
  upgradeCheck (_lockType i) t = SDB_OK -> isLockMatch i m = true ->
  isLockMatch (mkLockInfo None t r) m = true.
Proof. destruct i as [? [] ?], t, m; done. Qed.

Lemma setType_info w tid l i t :
  alive w tid -> info w tid l = Some i ->
  forall l', tr (info (set_info w tid l (Some (info_setType i t))) tid l')
    = if decide (l = l') then Some (t, _ref i) else tr (info w tid l').
Proof. intros Ha Hi l'. rewrite info_set_info_tid by done. by case_decide. Qed.

(** The state after the bucket was entered for an upgrade to [t]: the lock
    info already has the new mode, the run list has it when it was granted. *)
Record upgrade_entry (tid : Z) (l : dpsTransLockId) (i : dpsTransCBLockInfo)
  (t : DPS_TRANSLOCK_TYPE) (w1 : world) (rc : Z) (w2 : world) : Prop := {
  ue_alive : alive w2 tid;
  ue_alloc : allocs w2 = [];
  ue_guard : guard C w2;
  ue_info l' : tr (info w2 tid l') = if decide (l = l') then Some (t, _ref i) else tr (info w1 tid l');
  ue_run l' : run w2 tid l' = if decide (l = l') then
    (if rc =? SDB_OK then Some t else run w1 tid l) else run w1 tid l';
  ue_bucket b : has_bucket w1 b -> has_bucket w2 b
}.

Lemma upgrade_entered tid l i t w1 rc w2 :
  tid_ok C w1 tid -> info w1 tid l = Some i ->
  entry_post C tid l t (set_info w1 tid l (Some (info_setType i t))) rc w2 ->
  upgrade_entry tid l i t w1 rc w2.
Proof.
  intros Hok Hi [Hup Hg]. assert (Ha : alive w1 tid) by (by destruct Hok). split.
  - apply (tu_alive _ _ _ _ _ Hup). by apply alive_set_info.
  - apply (tu_alloc _ _ _ _ _ Hup). rewrite allocs_set_info. by destruct Hok.
  - apply Hg, guard_set_info. by destruct Hok.
  - intros l'. by rewrite (tu_info _ _ _ _ _ Hup), (setType_info w1 tid l i t).
  - intros l'. by rewrite (tu_run _ _ _ _ _ Hup), !run_set_info.
  - intros b Hb. apply (tu_bucket _ _ _ _ _ Hup). unfold has_bucket. by rewrite buckets_set_info.
Qed.

Lemma upgrade_granted tid l i t w1 w2 :
  tid_ok C w1 tid -> info w1 tid l = Some i -> upgradeCheck (_lockType i) t = SDB_OK ->
  upgrade_entry tid l i t w1 SDB_OK w2 ->
  adv C tid w1 w2 (fun _ => 0) /\ covers w2 tid l t.
Proof.
  intros Hok Hi Hchk [Ha Hal Hg Hi2 Hr2 Hb]. pose proof (to_ref _ _ _ Hok _ _ Hi) as Hnn.
  assert (Hwf : wf_id l) by (by eapply to_wf).
  assert (Hok2 : tid_ok C w2 tid).
  { apply (tid_ok_put C tid l (Some (t, _ref i)) w1); try done. intros ? ? [= <- <-]. done. }
  split.
  - eapply (adv_put C tid l (Some (t, _ref i))); [done|done|..].
    + intros l'. unfold cnt. rewrite Hi. case_decide; lia.
    + intros i0 t0 r0 m E [= <- <-]. rewrite Hi in E. injection E as <-.
      by apply isLockMatch_upgrade.
  - specialize (Hi2 l). rewrite decide_True in Hi2 by done. unfold tr in Hi2.
    destruct (info w2 tid l) as [i2|] eqn:E; [|done]. exists i2. split; [done|].
    unfold isLockMatch. injection Hi2 as -> _. by rewrite decide_True.
Qed.

(** A refused upgrade puts the old mode back. *)
Lemma upgrade_refused tid l i t w1 rc w2 :
  tid_ok C w1 tid -> info w1 tid l = Some i -> rc <> SDB_OK -> upgrade_entry tid l i t w1 rc w2 ->
  exists i2, info w2 tid l = Some i2 /\
    adv C tid w1 (set_info w2 tid l (Some (info_setType i2 (_lockType i)))) (fun _ => 0).
Proof.
  intros Hok Hi Hne [Ha Hal Hg Hi2 Hr2 Hb].
  assert (exists i2, info w2 tid l = Some i2 /\ _ref i2 = _ref i) as (i2 & Hl2 & Href2).
  { specialize (Hi2 l). rewrite decide_True in Hi2 by done. unfold tr in Hi2.
    destruct (info w2 tid l) as [i2|]; [|done]. injection Hi2 as ? ?. eauto. }
  exists i2. split; [done|].
  apply tsame_adv; [|intros _; by apply guard_set_info|done]. split.
  - intros _. by apply alive_set_info.
  - intros _. by rewrite allocs_set_info.
  - intros l'. rewrite (setType_info w2 tid l i2) by done. specialize (Hi2 l').
    case_decide; [subst; rewrite Hi; unfold tr; simpl; by rewrite Href2|done].
  - intros l'. rewrite run_set_info, Hr2. destruct (Z.eqb_spec rc SDB_OK); [done|].
    case_decide; by subst.
  - intros b Hb1. unfold has_bucket. rewrite buckets_set_info. by apply Hb.
Qed.

Lemma upgradeWith_spec tid l i t e w :
  tid_ok C w tid -> R tid e -> info w tid l = Some i ->
  wp C K (upgradeWith tid l i t)
    (fun rc e' w' => R tid e' /\ adv C tid w w' (fun _ => 0) /\
       (rc = SDB_OK -> covers w' tid l t)) e w.
Proof.
  intros Hok HR Hi. unfold upgradeWith.
  destruct (Z.eqb_spec (upgradeCheck (_lockType i) t) SDB_OK) as [Hchk|Hne]; simpl.
  2: { apply wp_ret. split; [done|]. split; [by apply adv_refl|done]. }
  assert (Hwf : wf_id l) by (by eapply to_wf).
  apply wp_bind, (wp_getBucket C K tid); [done|by destruct Hok|].
  intros w1 Hs1 Hg1 Hb1 Hi1. simpl.
  assert (Hok1 : tid_ok C w1 tid) by (by eapply tsame_ok).
  assert (Ha1 : alive w1 tid) by (by destruct Hok1).
  assert (Hil : info w1 tid l = Some i) by (by rewrite Hi1).
  assert (Hfrom1 : forall w', adv C tid w1 w' (fun _ => 0) -> adv C tid w w' (fun _ => 0)).
  { intros w' Ha. eapply adv_ext; [|eapply adv_trans;
      [by apply tsame_adv|exact Ha|left; intros; lia|done]]. intros; simpl; lia. }
  apply wp_bind. eapply wp_eq; [by apply update_info_eq|].
  apply wp_bind. eapply wp_consequence.
  { apply bs_upgrade; [|rewrite allocs_set_info; by destruct Hok1|done].
    unfold has_bucket. by rewrite buckets_set_info. }
  intros rc e2 w2 [HR2 Hpost]. apply upgrade_entered in Hpost; [|done|done].
  destruct (Z.eqb_spec rc SDB_OK) as [->|Hne]; simpl.
  - apply wp_ret. destruct (upgrade_granted tid l i t w1 w2) as [Hadv Hcov]; [done..|]. auto.
  - destruct (upgrade_refused tid l i t w1 rc w2) as (i2 & Hi2 & Hadv); [done..|].
    apply wp_bind. eapply wp_eq; [by apply update_info_eq|]. apply wp_ret.
    split; [done|]. split; [by apply Hfrom1|done].
Qed.
End manager.
