(* ===== verification/TransLockBag.v ===== *)
(** * A session's lock list as a bag of requests

    The refinement theorems of the lock manager: the lock list of a session
    with its reference counts implements a bag of outstanding requests.  An
    operation of the acquire or try family that succeeds adds its request and
    one that fails leaves the bag; [release] removes one request; [releaseAll]
    empties the bag and every run list; and the requests of two sessions are
    compatible at every level of the space / collection / record hierarchy. *)

From stdpp Require Import base gmap list sorting.
From Stdlib Require Import ZArith Lia.
From S2P Require Import Prelude.
From S2P Require Import TransLockDef.
From S2P Require Import TransLockBucket.
From S2P Require Import TransLock.
From S2P Require Import TransLockSafety.
From S2P Require Import TransLockState.
From S2P Require Import TransLockSession.

Open Scope Z_scope.

(** ** What a request for [l] in mode [m] takes *)

Definition request (l : dpsTransLockId) (m : DPS_TRANSLOCK_TYPE)
  : list (dpsTransLockId * DPS_TRANSLOCK_TYPE) :=
  if hasCollection l then
    if is_record l then
      [(l, m);
       (collectionOf l, match m with DPS_TRANSLOCK_X => DPS_TRANSLOCK_IX | _ => DPS_TRANSLOCK_IS end);
       (sLockIdOf l, DPS_TRANSLOCK_IS)]
    else
      [(l, m);
       (sLockIdOf l, match m with DPS_TRANSLOCK_X => DPS_TRANSLOCK_IX | _ => DPS_TRANSLOCK_IS end)]
  else [(l, m)].

(** Intention modes are asked for on collections and spaces only. *)
Definition allowed (l : dpsTransLockId) (m : DPS_TRANSLOCK_TYPE) : Prop :=
  is_record l = true -> m = DPS_TRANSLOCK_S \/ m = DPS_TRANSLOCK_X.

(** The operation of a family for a mode. *)
Definition lockMode `{BucketOps} (m : DPS_TRANSLOCK_TYPE) : Z -> dpsTransLockId -> lockM Z :=
  match m with
  | DPS_TRANSLOCK_IS => lockIS
  | DPS_TRANSLOCK_IX => lockIX
  | DPS_TRANSLOCK_S => lockS
  | DPS_TRANSLOCK_X => lockX
  end.

Lemma request_ids l m : (request l m).*1 = chain_ids l.
Proof. unfold request, chain_ids. by destruct (hasCollection l), (is_record l). Qed.

Lemma sLockId_no_collection l : hasCollection (sLockIdOf l) = false.
Proof. done. Qed.

Lemma collectionOf_collection l : hasCollection (collectionOf l) = hasCollection l.
Proof. done. Qed.

Lemma collectionOf_not_record l : is_record (collectionOf l) = false.
Proof. done. Qed.

Lemma sLockIdOf_collectionOf l : sLockIdOf (collectionOf l) = sLockIdOf l.
Proof. done. Qed.

Lemma chain_space l : chain_ids (sLockIdOf l) = [sLockIdOf l].
Proof. done. Qed.

Lemma chain_collection l :
  hasCollection l = true -> chain_ids (collectionOf l) = [collectionOf l; sLockIdOf l].
Proof. intros H. unfold chain_ids. by rewrite collectionOf_collection, H. Qed.

Lemma not_space l : hasCollection l = true -> l <> sLockIdOf l.
Proof. intros H E. rewrite E in H. done. Qed.

Lemma not_collection l : is_record l = true -> l <> collectionOf l.
Proof. intros H E. rewrite E in H. done. Qed.

(** A level and the chain above it. *)
Definition parent (l : dpsTransLockId) : dpsTransLockId :=
  if is_record l then collectionOf l else sLockIdOf l.

Lemma iLockIdOf_parent l : wf_id l -> iLockIdOf l = parent l.
Proof.
  intros Hwf. unfold parent. destruct (is_record l) eqn:Hr.
  - by apply iLockIdOf_record.
  - by apply iLockIdOf_collection.
Qed.

Lemma wf_parent l : wf_id l -> wf_id (parent l).
Proof. unfold parent. destruct (is_record l); auto using wf_collectionOf, wf_sLockId. Qed.

Lemma chain_ids_step l :
  hasCollection l = true -> chain_ids l = l :: chain_ids (parent l).
Proof.
  intros H. unfold parent. destruct (is_record l) eqn:Hr.
  - rewrite chain_collection by done. unfold chain_ids. by rewrite H, Hr.
  - unfold chain_ids at 1. by rewrite H, Hr.
Qed.

Lemma chain_ids_space l : hasCollection l = false -> chain_ids l = [l].
Proof. intros H. unfold chain_ids. by rewrite H. Qed.

Lemma chain_ids_fresh l : hasCollection l = true -> l ∉ chain_ids (parent l).
Proof.
  intros H Hin. unfold parent in Hin. destruct (is_record l) eqn:Hr.
  - rewrite chain_collection in Hin by done.
    apply elem_of_cons in Hin as [E|E%list_elem_of_singleton].
    + by apply not_collection in E.
    + by apply not_space in E.
  - rewrite chain_space in Hin. apply list_elem_of_singleton in Hin.
    by apply not_space in Hin.
Qed.

Lemma ind_cons x ids l : x ∉ ids -> ind (x :: ids) l = ind [x] l + ind ids l.
Proof.
  intros Hx. rewrite ind_singleton. unfold ind. destruct (decide (x = l)) as [->|Hne].
  - rewrite decide_True by (by left). by rewrite decide_False.
  - destruct (decide (l ∈ ids)).
    + by rewrite decide_True by (by right).
    + rewrite decide_False; [done|]. intros [?|?]%elem_of_cons; congruence.
Qed.

Lemma ind_nonneg ids l : 0 <= ind ids l.
Proof. unfold ind. case_decide; lia. Qed.

(** ** Releasing one level *)

Lemma bucket_release_spec C K tid l e w :
  has_bucket w (getBucketNo l) -> guard C w ->
  wp C K (lockBucket_release tid l (getBucketNo l))
    (fun _ e' w' => e' = e /\ tupd tid l None w w' /\ guard C w') e w.
Proof.
  intros Hb Hg. unfold lockBucket_release. wp_step find_unit_eq.
  destruct (unit_at w (getBucketNo l) l) as [u|] eqn:Hu.
  2: { apply wp_ret. split; [done|]. split; [|done].
       pose proof (tsame_tupd tid l w w (tsame_refl _ _)) as H.
       unfold run in H. by rewrite Hu in H. }
  set (u1 := mkUnit (_pWaitCB u) (om_erase tid (_runList u))).
  set (w1 := set_unit w (getBucketNo l) l (Some u1)).
  assert (Hup1 : tupd tid l None w w1).
  { pose proof (set_unit_tupd tid w l (Some u1) Hb) as H. simpl in H.
    by rewrite om_find_erase, Z.eqb_refl in H. }
  assert (Hg1 : guard C w1).
  { apply guard_set_unit; [done| |done]. simpl. intros h Hh.
    destruct Hg as [|Hg]; [by left|right]. by eapply Hg. }
  apply wp_bind.
  eapply (wp_consequence _ _ _ (fun _ e' w' => e' = e /\ same_locks w1 w')).
  { unfold removeFromRun. wp_step deref_unit_eq. wp_step store_unit_eq.
    fold u1. fold w1. destruct (_pWaitCB u) as [h|] eqn:Hh.
    - apply wp_postEvent; [|done]. destruct Hg as [|Hg]; [by right|left].
      apply alive_set_unit. by eapply Hg.
    - apply wp_ret. split; [done|apply same_locks_refl]. }
  intros [] e1 w2 [-> Hs].
  assert (Hup2 : tupd tid l None w w2) by (eapply tupd_same_r; eauto using same_locks_tsame).
  assert (Hg2 : guard C w2) by (by eapply guard_same_locks).
  assert (Hu2 : unit_at w2 (getBucketNo l) l = Some u1).
  { rewrite (same_locks_unit_at _ _ _ _ Hs). unfold w1. rewrite unit_at_set_unit by done.
    by rewrite decide_True. }
  wp_step deref_unit_eq. assert (Hb2 : has_bucket w2 (getBucketNo l)) by (by eapply unit_at_has_bucket).
  assert (Hdone : wp C K (mret tt) (fun _ e' w' => e' = e /\ tupd tid l None w w' /\ guard C w') e w2)
    by (apply wp_ret; done).
  destruct (_pWaitCB u1); [done|]. destruct (_runList u1) eqn:Hr1; [|done].
  wp_step erase_unit_eq. split; [done|]. split; [|by apply guard_erase_unit].
  eapply tupd_same_r; [exact Hup2|].
  pose proof (set_unit_tupd tid w2 l None Hb2) as H. simpl in H.
  destruct H as [Ha Hal Hi Hr Hbk]. split; auto. intros l'. rewrite Hr.
  case_decide; [subst|done]. unfold run. rewrite Hu2.
  change (None = om_find tid (_runList u1)). by rewrite Hr1.
Qed.

(** A lock that others of the session's requests still need only loses one
    reference. *)
Lemma release_one_ref C tid l i w :
  tid_ok C w tid -> info w tid l = Some i -> 0 < _ref i ->
  adv C tid w (set_info w tid l (Some (info_setRef i (_ref i - 1)))) (fun l' => - ind [l] l').
Proof.
  intros Hok Hi Hp. assert (Ha : alive w tid) by (by destruct Hok).
  assert (Hwf : wf_id l) by (by eapply to_wf). set (w1 := set_info _ _ _ _).
  assert (Hinfo : forall l', tr (info w1 tid l')
    = if decide (l = l') then Some (_lockType i, _ref i - 1) else tr (info w tid l')).
  { intros l'. unfold w1. rewrite info_set_info_tid by done. by case_decide. }
  eapply (adv_put C tid l (Some (_lockType i, _ref i - 1))); [|done|..].
  - apply (tid_ok_put C tid l (Some (_lockType i, _ref i - 1)) w); try done.
    + by apply alive_set_info.
    + unfold w1. rewrite allocs_set_info. by destruct Hok.
    + apply guard_set_info. by destruct Hok.
    + intros l'. unfold w1. rewrite run_set_info, (to_run _ _ _ Hok).
      case_decide; [subst; by rewrite Hi|done].
    + intros ? ? [= <- <-]. lia.
  - intros l'. rewrite ind_singleton. unfold cnt. rewrite Hi. case_decide; lia.
  - intros i0 t r m E [= <- <-] Hm. rewrite Hi in E. by injection E as <-.
Qed.

(** A lock nobody needs any more leaves the lock list and the run list. *)
Lemma release_last_ref C K tid l i Q e w :
  tid_ok C w tid -> info w tid l = Some i -> _ref i <= 0 ->
  (forall w', adv C tid w w' (fun l' => - ind [l] l') -> Q tt e w') ->
  wp C K (rb ← getBucket l;
          _ ← (if negb (fst rb =? SDB_OK) then mret tt else lockBucket_release tid l (snd rb));
          delLockInfo tid l) Q e (set_info w tid l (Some (info_setRef i (_ref i - 1)))).
Proof.
  intros Hok Hi Hz HQ. assert (Ha : alive w tid) by (by destruct Hok).
  assert (Hwf : wf_id l) by (by eapply to_wf). pose proof (to_ref _ _ _ Hok _ _ Hi) as Hnn.
  set (w1 := set_info _ _ _ _).
  apply wp_bind, (wp_getBucket C K tid); [done| |].
  { unfold w1. rewrite allocs_set_info. by destruct Hok. }
  intros w2 Hs2 Hg2 Hb2 Hi2. simpl. apply wp_bind.
  eapply wp_consequence; [apply bucket_release_spec; [done|]|].
  { apply Hg2, guard_set_info. by destruct Hok. }
  intros [] e3 w3 (-> & Hup & Hg3).
  assert (Ha3 : alive w3 tid).
  { apply (tu_alive _ _ _ _ _ Hup), (ts_alive _ _ _ Hs2). by apply alive_set_info. }
  eapply wp_eq; [by apply delLockInfo_eq|]. apply HQ.
  assert (Hinfo : forall l', tr (info (set_info w3 tid l None) tid l')
    = if decide (l = l') then None else tr (info w tid l')).
  { intros l'. rewrite info_set_info_tid by done. case_decide; [done|].
    rewrite (tu_info _ _ _ _ _ Hup), Hi2. unfold w1. rewrite info_set_info_tid by done.
    by rewrite decide_False. }
  eapply (adv_put C tid l None); [|done| |congruence].
  - apply (tid_ok_put C tid l None w); try done.
    + by apply alive_set_info.
    + rewrite allocs_set_info. apply (tu_alloc _ _ _ _ _ Hup), (ts_alloc _ _ _ Hs2).
      unfold w1. rewrite allocs_set_info. by destruct Hok.
    + by apply guard_set_info.
    + intros l'. rewrite run_set_info, (tu_run _ _ _ _ _ Hup). case_decide; [done|].
      rewrite (ts_run _ _ _ Hs2). unfold w1. by rewrite run_set_info.
  - intros l'. rewrite ind_singleton. unfold cnt. rewrite Hi. case_decide; lia.
Qed.

(** [release] on one level: the count drops by one, and the lock leaves the
    lock list and the run list when it reaches zero. *)
Lemma release_level C K n tid l i Q e w :
  tid_ok C w tid -> info w tid l = Some i ->
  (forall w', adv C tid w w' (fun l' => - ind [l] l') ->
     wp C K (if hasCollection l then release_loop n tid (iLockIdOf l) else mret tt) Q e w') ->
  wp C K (release_loop (S n) tid l) Q e w.
Proof.
  intros Hok Hi HQ. assert (Ha : alive w tid) by (by destruct Hok).
  simpl. wp_step getTransLock_eq. rewrite Hi. wp_step decRef_eq.
  apply wp_bind. destruct (Z.leb_spec (_ref i) 0) as [Hz|Hp].
  - by apply release_last_ref.
  - apply wp_ret, HQ. by apply release_one_ref.
Qed.

Lemma release_level_last C K n tid l i e w :
  tid_ok C w tid -> info w tid l = Some i -> hasCollection l = false ->
  wp C K (release_loop (S n) tid l)
    (fun _ e' w' => e' = e /\ adv C tid w w' (fun l' => - ind (chain_ids l) l')) e w.
Proof.
  intros Hok Hi Hc. eapply release_level; [done|done|]. intros w' Hadv. rewrite Hc.
  apply wp_ret. split; [done|]. by rewrite chain_ids_space.
Qed.

Lemma release_level_step C K n tid l i e w :
  tid_ok C w tid -> info w tid l = Some i -> hasCollection l = true ->
  (forall w', tid_ok C w' tid -> (forall l', l' ∈ chain_ids (parent l) -> cnt w' tid l' = cnt w tid l') ->
     wp C K (release_loop n tid (parent l))
       (fun _ e' w'' => e' = e /\ adv C tid w' w'' (fun l' => - ind (chain_ids (parent l)) l')) e w') ->
  wp C K (release_loop (S n) tid l)
    (fun _ e' w' => e' = e /\ adv C tid w w' (fun l' => - ind (chain_ids l) l')) e w.
Proof.
  intros Hok Hi Hc Hup. eapply release_level; [done|done|]. intros w1 Hadv. rewrite Hc.
  rewrite iLockIdOf_parent by (by eapply to_wf).
  eapply wp_consequence; [apply Hup; [by destruct Hadv|]|].
  - intros l' Hl'. rewrite (adv_cnt _ _ _ _ _ Hadv), ind_singleton.
    rewrite decide_False; [lia|]. intros ->. by apply chain_ids_fresh in Hl'.
  - intros [] e2 w2 [-> Hadv2]. split; [done|].
    eapply adv_ext; [|eapply adv_trans; [exact Hadv|exact Hadv2| |done]].
    + intros l'. rewrite (chain_ids_step l) by done.
      rewrite (ind_cons l (chain_ids (parent l))) by (by apply chain_ids_fresh). lia.
    + right. intros l'. pose proof (ind_nonneg (chain_ids (parent l)) l'). simpl. lia.
Qed.

(** [release] gives back one acquisition on every level of the hierarchy. *)
Lemma release_spec C K tid l e w :
  tid_ok C w tid -> (forall l', l' ∈ chain_ids l -> 0 < cnt w tid l') ->
  wp C K (release tid l)
    (fun _ e' w' => e' = e /\ adv C tid w w' (fun l' => - ind (chain_ids l) l')) e w.
Proof.
  unfold release.
  assert (H1 : forall n l w, hasCollection l = false -> tid_ok C w tid ->
    (forall l', l' ∈ chain_ids l -> 0 < cnt w tid l') ->
    wp C K (release_loop (S n) tid l)
      (fun _ e' w' => e' = e /\ adv C tid w w' (fun l' => - ind (chain_ids l) l')) e w).
  { clear. intros n l w Hc Hok Hpos. destruct (cnt_pos_info C w tid l) as [i Hi]; [done|..].
    - apply Hpos. rewrite chain_ids_space by done. by left.
    - by eapply release_level_last. }
  assert (Hstep : forall n l w, hasCollection l = true -> tid_ok C w tid ->
    (forall l', l' ∈ chain_ids l -> 0 < cnt w tid l') ->
    (forall w, tid_ok C w tid -> (forall l', l' ∈ chain_ids (parent l) -> 0 < cnt w tid l') ->
       wp C K (release_loop n tid (parent l))
        (fun _ e' w' => e' = e /\ adv C tid w w' (fun l' => - ind (chain_ids (parent l)) l')) e w) ->
    wp C K (release_loop (S n) tid l)
      (fun _ e' w' => e' = e /\ adv C tid w w' (fun l' => - ind (chain_ids l) l')) e w).
  { clear. intros n l w Hc Hok Hpos Hup. rewrite chain_ids_step in Hpos by done.
    destruct (cnt_pos_info C w tid l) as [i Hi]; [done|apply Hpos; by left|].
    eapply release_level_step; [done..|]. intros w' Hok' Hcnt. apply Hup; [done|].
    intros l' Hl'. rewrite Hcnt by done. apply Hpos. by right. }
  intros Hok Hpos. destruct (hasCollection l) eqn:Hc; [|by apply H1].
  apply Hstep; [done..|]. intros w1 Hok1 Hpos1.
  destruct (hasCollection (parent l)) eqn:Hc1; [|by apply H1].
  apply Hstep; [done..|]. intros w2 Hok2 Hpos2. apply H1; [|done|done].
  unfold parent in Hc1 |- *. destruct (is_record l) eqn:Hr; [|done].
  by rewrite collectionOf_not_record.
Qed.

(** ** The families serve requests *)

Section serving.
Context (C K : Prop) (R : Z -> environment -> Prop) {B : BucketOps} {BS : BucketSpec C K R B}.

(** [m] takes exactly [req], or nothing. *)
Definition serves (tid : Z) (m : lockM Z) (req : list (dpsTransLockId * DPS_TRANSLOCK_TYPE))
  : Prop := forall e w, tid_ok C w tid -> R tid e ->
  wp C K m (req_post (C := C) (R := R) tid req w) e w.

Lemma req_post_refused tid req w rc e :
  tid_ok C w tid -> R tid e -> rc <> SDB_OK ->
  req_post (C := C) (R := R) tid req w rc e w.
Proof.
  intros Hok HR Hne. split; [done|]. destruct (Z.eqb_spec rc SDB_OK); [done|].
  split; [by apply adv_refl|done].
Qed.

(** One more acquisition of a lock that covers the mode. *)
Lemma incRef_serves tid l m i e w w0 :
  tid_ok C w0 tid -> adv C tid w0 w (fun _ => 0) -> R tid e ->
  info w tid l = Some i -> isLockMatch i m = true ->
  wp C K (_ ← incRef tid l; mret SDB_OK) (req_post (C := C) (R := R) tid [(l, m)] w0) e w.
Proof.
  intros Hok0 Hadv HR Hi Hm. apply wp_bind.
  eapply wp_consequence; [eapply wp_incRef; [by destruct Hadv|exact Hi]|].
  intros [] e1 w1 (-> & Hadv1 & Hcov). apply wp_ret. split; [done|]. split.
  - eapply adv_ext; [|eapply adv_trans; [exact Hadv|exact Hadv1|left; intros; lia|done]].
    intros l'. simpl. lia.
  - intros _ l' m' Hin. apply list_elem_of_singleton in Hin as [= -> ->].
    apply Hcov. by exists i.
Qed.

Lemma takeOrUpgrade_serves tid l t : wf_id l -> serves tid (takeOrUpgrade tid l t) [(l, t)].
Proof.
  intros Hwf e w Hok HR. unfold takeOrUpgrade.
  wp_step getTransLock_eq; [by destruct Hok|]. destruct (info w tid l) as [i|] eqn:Hi.
  - destruct (isLockMatch i t) eqn:Hm.
    + eapply incRef_serves; [done|by apply adv_refl|done..].
    + apply wp_bind. eapply wp_consequence; [by apply (upgradeWith_spec (R := R))|].
      intros rc e1 w1 (HR1 & Hadv & Hcov).
      destruct (Z.eqb_spec rc SDB_OK) as [->|Hne].
      * destruct Hcov as (i1 & Hi1 & Hm1); [done|]. by eapply incRef_serves.
      * apply wp_ret. split; [done|]. destruct (Z.eqb_spec rc SDB_OK); [done|]. done.
  - by apply acquireNew_spec.
Qed.

Lemma takeIS_serves tid l : wf_id l -> serves tid (takeIS tid l) [(l, DPS_TRANSLOCK_IS)].
Proof.
  intros Hwf e w Hok HR. unfold takeIS.
  wp_step getTransLock_eq; [by destruct Hok|]. destruct (info w tid l) as [i|] eqn:Hi.
  - eapply incRef_serves; [done|by apply adv_refl|done|done|].
    unfold isLockMatch. by destruct (decide (_lockType i = DPS_TRANSLOCK_IS)).
  - by apply acquireNew_spec.
Qed.

(** The intention lock is taken first and given back when the rest fails. *)
Lemma withIntention_serves tid l p t m1 m2 reqI :
  hasCollection l = true -> reqI.*1 = chain_ids p -> l ∉ chain_ids p ->
  serves tid m1 reqI -> serves tid m2 [(l, t)] ->
  serves tid (withIntention tid l p m1 m2) ((l, t) :: reqI).
Proof.
  intros Hc Hids Hfresh H1 H2 e w Hok HR. unfold withIntention. rewrite Hc.
  apply wp_bind. eapply wp_consequence; [by apply H1|].
  intros rc e1 w1 (HR1 & Hadv1 & Hcov1).
  destruct (Z.eqb_spec rc SDB_OK) as [->|Hne]; simpl.
  2: { apply wp_ret. split; [done|]. by destruct (Z.eqb_spec rc SDB_OK). }
  apply wp_bind. eapply wp_consequence; [apply H2; [by destruct Hadv1|done]|].
  intros rc2 e2 w2 (HR2 & Hadv2 & Hcov2). rewrite Hids in Hadv1.
  destruct (Z.eqb_spec rc2 SDB_OK) as [->|Hne2]; simpl.
  - apply wp_ret. split; [done|]. split; simpl.
    + eapply adv_ext; [|eapply adv_trans; [exact Hadv1|exact Hadv2| |done]].
      * intros l'. cbn [fmap list_fmap fst]. change (list_fmap _ _ fst reqI) with reqI.*1.
        rewrite Hids, (ind_cons l (chain_ids p)) by done. simpl. lia.
      * left. intros l'. apply ind_nonneg.
    + intros _ l' m' [E|Hin]%elem_of_cons; [apply Hcov2; [done|]; rewrite E; by left|].
      apply (adv_mono _ _ _ _ _ Hadv2); [by apply Hcov1|].
      rewrite (adv_cnt _ _ _ _ _ Hadv2). pose proof (ind_nonneg [(l, t)].*1 l').
      pose proof (covers_cnt _ _ _ _ _ (adv_ok _ _ _ _ _ Hadv1) (Hcov1 eq_refl _ _ Hin)). lia.
  - assert (Hadv12 : adv C tid w w2 (ind (chain_ids p))).
    { eapply adv_ext; [|eapply adv_trans; [exact Hadv1|exact Hadv2| |done]].
      - intros l'. simpl. lia.
      - left. intros l'. apply ind_nonneg. }
    apply wp_bind. eapply wp_consequence; [apply release_spec; [by destruct Hadv12|]|].
    + intros l' Hl'. rewrite (adv_cnt _ _ _ _ _ Hadv12). unfold ind.
      rewrite decide_True by done. pose proof (cnt_nonneg _ _ _ l' Hok). lia.
    + intros [] e3 w3 [-> Hadv3]. apply wp_ret. split; [done|].
      destruct (Z.eqb_spec rc2 SDB_OK); [done|]. split; [|done].
      eapply adv_ext; [|eapply adv_trans; [exact Hadv12|exact Hadv3| |done]].
      * intros l'. simpl. lia.
      * left. intros l'. apply ind_nonneg.
Qed.

Lemma withIntention_space tid l p m1 m2 req :
  hasCollection l = false -> serves tid m2 req -> serves tid (withIntention tid l p m1 m2) req.
Proof. intros Hc H2. unfold withIntention. by rewrite Hc. Qed.

Lemma lockIS_serves tid l :
  wf_id l -> is_record l = false -> serves tid (lockIS tid l) (request l DPS_TRANSLOCK_IS).
Proof.
  intros Hwf Hr. unfold lockIS, request. destruct (hasCollection l) eqn:Hc.
  - rewrite Hr. apply withIntention_serves; auto using takeIS_serves, wf_sLockId.
    rewrite chain_space. intros E%list_elem_of_singleton. by apply not_space in E.
  - apply withIntention_space; auto using takeIS_serves.
Qed.

Lemma lockIX_serves tid l :
  wf_id l -> is_record l = false -> serves tid (lockIX tid l) (request l DPS_TRANSLOCK_IX).
Proof.
  intros Hwf Hr. unfold lockIX, request. destruct (hasCollection l) eqn:Hc.
  - rewrite Hr. apply withIntention_serves; auto using takeOrUpgrade_serves.
    + rewrite chain_space. intros E%list_elem_of_singleton. by apply not_space in E.
    + apply (lockIS_serves tid (sLockIdOf l)); [by apply wf_sLockId|done].
  - apply withIntention_space; auto using takeOrUpgrade_serves.
Qed.

(** The S and X operations: an intention request on the parent first. *)
Lemma hierarchical_serves tid l t m1 reqI :
  wf_id l -> (hasCollection l = true -> reqI.*1 = chain_ids (parent l) /\ serves tid m1 reqI) ->
  serves tid (withIntention tid l (iLockIdOf l) m1 (takeOrUpgrade tid l t))
    (if hasCollection l then (l, t) :: reqI else [(l, t)]).
Proof.
  intros Hwf H1. rewrite iLockIdOf_parent by done. destruct (hasCollection l) eqn:Hc.
  - destruct H1 as [Hids Hs]; [done|].
    apply withIntention_serves; auto using takeOrUpgrade_serves, chain_ids_fresh.
  - apply withIntention_space; auto using takeOrUpgrade_serves.
Qed.

Lemma parent_not_record l : is_record (parent l) = false.
Proof. unfold parent. by destruct (is_record l). Qed.

Lemma lockS_serves tid l : wf_id l -> serves tid (lockS tid l) (request l DPS_TRANSLOCK_S).
Proof.
  intros Hwf. pose proof (hierarchical_serves tid l DPS_TRANSLOCK_S (lockIS tid (iLockIdOf l))
    (request (parent l) DPS_TRANSLOCK_IS) Hwf) as H.
  assert (Heq : request l DPS_TRANSLOCK_S = if hasCollection l
    then (l, DPS_TRANSLOCK_S) :: request (parent l) DPS_TRANSLOCK_IS else [(l, DPS_TRANSLOCK_S)]).
  { unfold request, parent. destruct (hasCollection l) eqn:Hc, (is_record l); try done.
    by rewrite collectionOf_collection, Hc. }
  rewrite Heq. apply H. intros Hc. split; [apply request_ids|].
  rewrite iLockIdOf_parent by done. apply lockIS_serves; [by apply wf_parent|].
  apply parent_not_record.
Qed.

Lemma lockX_serves tid l : wf_id l -> serves tid (lockX tid l) (request l DPS_TRANSLOCK_X).
Proof.
  intros Hwf. pose proof (hierarchical_serves tid l DPS_TRANSLOCK_X (lockIX tid (iLockIdOf l))
    (request (parent l) DPS_TRANSLOCK_IX) Hwf) as H.
  assert (Heq : request l DPS_TRANSLOCK_X = if hasCollection l
    then (l, DPS_TRANSLOCK_X) :: request (parent l) DPS_TRANSLOCK_IX else [(l, DPS_TRANSLOCK_X)]).
  { unfold request, parent. destruct (hasCollection l) eqn:Hc, (is_record l); try done.
    by rewrite collectionOf_collection, Hc. }
  rewrite Heq. apply H. intros Hc. split; [apply request_ids|].
  rewrite iLockIdOf_parent by done. apply lockIX_serves; [by apply wf_parent|].
  apply parent_not_record.
Qed.

Lemma lockMode_serves tid l m :
  wf_id l -> allowed l m -> serves tid (lockMode m tid l) (request l m).
Proof.
  intros Hwf Hal. unfold allowed in Hal.
  destruct m; simpl; auto using lockS_serves, lockX_serves;
    (destruct (is_record l) eqn:Hr; [by destruct Hal|]);
    auto using lockIS_serves, lockIX_serves.
Qed.
End serving.

(** ** Releasing everything *)

Lemma releaseAll_loop_spec C K tid ids e w :
  (forall l, l ∈ ids -> wf_id l) -> allocs w = [] -> guard C w ->
  wp C K (releaseAll_loop tid ids)
    (fun _ e' w' => e' = e /\ allocs w' = [] /\ guard C w' /\ (alive w tid -> alive w' tid) /\
       forall l, run w' tid l = if decide (l ∈ ids) then None else run w tid l) e w.
Proof.
  revert w. induction ids as [|l ids IH]; intros w Hwf Hal Hg; simpl.
  - apply wp_ret. by split_and!.
  - apply wp_bind, (wp_getBucket C K tid); [apply Hwf; by left|done|].
    intros w1 Hs Hg1 Hb1 _. simpl. apply wp_bind.
    eapply wp_consequence; [apply bucket_release_spec; auto|].
    intros [] e2 w2 (-> & Hup & Hg2). eapply wp_consequence.
    { apply IH; [intros; apply Hwf; by right| |done].
      apply (tu_alloc _ _ _ _ _ Hup), (ts_alloc _ _ _ Hs); done. }
    intros [] e3 w3 (-> & Hal3 & Hg3 & Ha3 & Hr3). split_and!; try done.
    + intros Ha. apply Ha3, (tu_alive _ _ _ _ _ Hup), (ts_alive _ _ _ Hs), Ha.
    + intros l'. rewrite Hr3, (tu_run _ _ _ _ _ Hup), (ts_run _ _ _ Hs).
      destruct (decide (l' ∈ ids)) as [Hin|Hin].
      * by rewrite decide_True by (by right).
      * destruct (decide (l = l')) as [->|Hne]; [by rewrite decide_True by (by left)|].
        rewrite decide_False; [done|]. intros [?|?]%elem_of_cons; congruence.
Qed.

Lemma lockList_keys_elem (m : gmap dpsTransLockId dpsTransCBLockInfo) l :
  l ∈ lockList_keys m <-> is_Some (m !! l).
Proof.
  unfold lockList_keys. rewrite (merge_sort_Permutation _). rewrite list_elem_of_fmap. split.
  - intros ([l' i] & -> & Hin). apply elem_of_map_to_list in Hin. eauto.
  - intros [i Hi]. exists (l, i). split; [done|]. by apply elem_of_map_to_list.
Qed.

Lemma wp_clearLockList C K tid Q e w :
  alive w tid ->
  (forall w', _bucketLst w' = _bucketLst w -> allocs w' = allocs w ->
     (forall t, alive w t -> alive w' t) -> (forall l, info w' tid l = None) -> Q tt e w') ->
  wp C K (clearLockList tid) Q e w.
Proof.
  intros [cb Hcb] HQ. unfold wp, clearLockList, mbind, lockM_bind, deref_edu. rewrite Hcb.
  apply HQ; try done.
  - intros t Ht. unfold alive in *. simpl. rewrite lookup_insert. case_decide; eauto.
  - intros l. unfold info. simpl. rewrite lookup_insert_eq. simpl. apply lookup_empty.
Qed.

Lemma releaseAll_spec C K tid e w :
  tid_ok C w tid ->
  wp C K (releaseAll tid)
    (fun _ e' w' => e' = e /\ tid_ok C w' tid /\ (forall l, info w' tid l = None)) e w.
Proof.
  intros Hok. destruct (to_alive _ _ _ Hok) as [cb Hcb]. unfold releaseAll.
  assert (Hkeys : forall l, l ∈ lockList_keys (_transLockLst cb) <-> is_Some (info w tid l)).
  { intros l. rewrite lockList_keys_elem. unfold info. by rewrite Hcb. }
  apply wp_bind. eapply wp_eq; [unfold deref_edu; by rewrite Hcb|].
  apply wp_bind. eapply wp_consequence.
  { apply releaseAll_loop_spec; [|by destruct Hok|by destruct Hok].
    intros l Hl. apply Hkeys in Hl as [i Hi]. by eapply to_wf. }
  intros [] e1 w1 (-> & Hal & Hg & Ha & Hr). apply wp_clearLockList; [by apply Ha; destruct Hok|].
  intros w2 Hbk Hal2 Hal2' Hi2. split; [done|]. split; [|done]. split.
  - apply Hal2', Ha. by destruct Hok.
  - congruence.
  - destruct Hg as [|Hg]; [by left|right]. intros b l u h. unfold unit_at. rewrite Hbk.
    intros Hu Hh. by eapply Hal2', Hg.
  - intros l. rewrite Hi2. transitivity (run w1 tid l); [unfold run, unit_at; by rewrite Hbk|].
    rewrite Hr. case_decide as Hd; [done|]. rewrite Hkeys in Hd.
    rewrite (to_run _ _ _ Hok). destruct (info w tid l); [|done]. destruct Hd; eauto.
  - intros l i. by rewrite Hi2.
  - intros l i. by rewrite Hi2.
Qed.

(** ** The bag *)

Abbreviation bag := (list (dpsTransLockId * DPS_TRANSLOCK_TYPE)).

(** How many requests of the bag need [l]. *)
Definition need (b : bag) (l : dpsTransLockId) : Z :=
  foldr (fun r n => ind (chain_ids r.1) l + n) 0 b.

(** The session [tid] of [w] implements the bag [b]. *)
Record represents (C : Prop) (w : world) (tid : Z) (b : bag) : Prop := {
  rp_ok : tid_ok C w tid;
  rp_cnt l : cnt w tid l = need b l;
  rp_cov r l m : r ∈ b -> (l, m) ∈ request r.1 r.2 -> covers w tid l m
}.

Lemma need_perm b b' l : b ≡ₚ b' -> need b l = need b' l.
Proof. induction 1; simpl; lia. Qed.

Lemma need_nonneg b l : 0 <= need b l.
Proof. induction b as [|r b IH]; simpl; [lia|]. pose proof (ind_nonneg (chain_ids r.1) l). lia. Qed.

Lemma need_pos b r l : r ∈ b -> l ∈ chain_ids r.1 -> 0 < need b l.
Proof.
  intros Hr Hl. induction Hr as [r b|r r' b Hr IH]; simpl.
  - pose proof (need_nonneg b l). unfold ind. rewrite decide_True by done. lia.
  - pose proof (ind_nonneg (chain_ids r'.1) l). specialize (IH Hl). lia.
Qed.

Lemma request_chain l0 m0 l m : (l, m) ∈ request l0 m0 -> l ∈ chain_ids l0.
Proof. intros H. rewrite <-(request_ids l0 m0). apply list_elem_of_fmap. by exists (l, m). Qed.

Lemma represents_grow C w w' tid b l m :
  represents C w tid b -> adv C tid w w' (ind (chain_ids l)) ->
  (forall l' m', (l', m') ∈ request l m -> covers w' tid l' m') ->
  represents C w' tid ((l, m) :: b).
Proof.
  intros [Hok Hc Hv] Hadv Hnew. split; [by destruct Hadv|..].
  - intros l'. rewrite (adv_cnt _ _ _ _ _ Hadv), Hc. simpl. lia.
  - intros r l' m' [->|Hr]%elem_of_cons Hin; [by apply Hnew|].
    apply (adv_mono _ _ _ _ _ Hadv); [by eapply Hv|].
    rewrite (adv_cnt _ _ _ _ _ Hadv), Hc. pose proof (ind_nonneg (chain_ids l) l').
    pose proof (need_pos b r l' Hr (request_chain _ _ _ _ Hin)). lia.
Qed.

Lemma represents_same C w w' tid b :
  represents C w tid b -> adv C tid w w' (fun _ => 0) -> represents C w' tid b.
Proof.
  intros [Hok Hc Hv] Hadv. split; [by destruct Hadv|..].
  - intros l'. rewrite (adv_cnt _ _ _ _ _ Hadv), Hc. lia.
  - intros r l' m' Hr Hin. apply (adv_mono _ _ _ _ _ Hadv); [by eapply Hv|].
    rewrite (adv_cnt _ _ _ _ _ Hadv), Hc.
    pose proof (need_pos b r l' Hr (request_chain _ _ _ _ Hin)). lia.
Qed.

Lemma lockMode_represents C K R `{BS : !BucketSpec C K R B} tid l m b e w :
  represents C w tid b -> wf_id l -> allowed l m -> R tid e ->
  wp C K (lockMode m tid l)
    (fun rc e' w' => R tid e' /\
       represents C w' tid (if rc =? SDB_OK then (l, m) :: b else b)) e w.
Proof.
  intros Hr Hwf Hal HR. eapply wp_consequence.
  { apply (lockMode_serves C K R); [done|done|by destruct Hr|done]. }
  intros rc e' w' (HR' & Hadv & Hcov). split; [done|].
  destruct (Z.eqb_spec rc SDB_OK) as [->|Hne].
  - rewrite request_ids in Hadv. eapply represents_grow; eauto.
  - by eapply represents_same.
Qed.

(** ** Other sessions' operations leave a session's bag alone *)

Section others.
Context (tid t : Z) (Hne : t <> tid).

Lemma other_update_info l f : quiet tid (update_info t l f).
Proof.
  intros e w. destruct (info w t l) as [i|] eqn:Hi.
  - eapply wp_eq; [by apply update_info_eq|]. split; [done|].
    assert (Ha : alive w t) by (by eapply info_alive). split.
    + by rewrite alive_set_info.
    + by rewrite allocs_set_info.
    + intros l'. rewrite info_set_info by done. by rewrite decide_False by tauto.
    + intros l'. by rewrite run_set_info.
    + intros b. unfold has_bucket. by rewrite buckets_set_info.
  - unfold wp, update_info, mbind, lockM_bind, deref_edu. unfold info in Hi.
    destruct (edus w !! t) as [cb|]; [|done]. simpl in Hi. by rewrite Hi.
Qed.

Lemma other_store_edu cb : quiet tid (store_edu t cb).
Proof.
  intros e w. split; [done|]. split; try done.
  - unfold alive. simpl. rewrite lookup_insert. case_decide; eauto.
  - intros l. unfold info. simpl. by rewrite lookup_insert_ne.
Qed.

Lemma quiet_new : quiet tid sdb_oss_new.
Proof.
  intros e w. unfold wp, sdb_oss_new. destruct (allocs w) eqn:Ha; [by split|].
  split; [done|]. split; try done. simpl. by rewrite Ha.
Qed.
#[local] Hint Resolve other_update_info other_store_edu quiet_new quiet_ret quiet_crash
  quiet_deref quiet_getTransLock quiet_blocked quiet_wakeUp : locks.

Lemma other_decRef l : quiet tid (decRef t l).
Proof. unfold decRef. quiet_steps. Qed.
Lemma other_addLockInfo l m : quiet tid (addLockInfo t l m).
Proof. unfold addLockInfo. quiet_steps. Qed.
Lemma other_delLockInfo l : quiet tid (delLockInfo t l).
Proof. unfold delLockInfo. quiet_steps. Qed.
Lemma other_clearLockList : quiet tid (clearLockList t).
Proof. unfold clearLockList. quiet_steps. Qed.
Lemma other_setType l m : quiet tid (setType t l m).
Proof. apply other_update_info. Qed.
Lemma other_incRef l : quiet tid (incRef t l).
Proof. apply other_update_info. Qed.

(** Changing a unit without changing the session's entry in it. *)
Lemma quiet_unit {A} b l (k : lockM A) ou w e :
  has_bucket w b -> quiet tid k ->
  (ou ≫= fun u => om_find tid (_runList u))
    = (unit_at w b l ≫= fun u => om_find tid (_runList u)) ->
  wp True True (_ ← upd_lockLst b (partial_alter (fun _ => ou) l); k)
    (fun _ e' w' => e' = e /\ tsame tid w w') e w.
Proof.
  intros [lst Hb] Hk Hr. apply wp_bind. unfold wp at 1, upd_lockLst. rewrite Hb.
  eapply wp_consequence; [apply Hk|]. intros a e' w' [-> Hs]. split; [done|].
  eapply tsame_trans; [|exact Hs].
  assert (Heq : set_buckets w (<[b := partial_alter (fun _ => ou) l lst]> (_bucketLst w))
    = set_unit w b l ou) by (unfold set_unit; by rewrite Hb).
  rewrite Heq. clear Hs Heq. assert (Hbk : has_bucket w b) by (by eexists). split.
  - by rewrite alive_set_unit.
  - by rewrite allocs_set_unit.
  - intros l'. by rewrite info_set_unit.
  - intros l'. unfold run. rewrite unit_at_set_unit by done.
    case_decide as Hd; [|done]. by destruct Hd as [-> ->].
  - intros b'. by rewrite has_bucket_set_unit.
Qed.

Lemma quiet_find_unit {A} b l (k : option dpsTransLockUnit -> lockM A) :
  (forall e w, has_bucket w b ->
     wp True True (k (unit_at w b l)) (fun _ e' w' => e' = e /\ tsame tid w w') e w) ->
  quiet tid (find_unit b l ≫= k).
Proof.
  intros Hk e w. destruct (_bucketLst w !! b) as [lst|] eqn:Hb.
  - assert (has_bucket w b) by (by eexists). wp_step find_unit_eq. by apply Hk.
  - unfold wp, mbind, lockM_bind, find_unit. by rewrite Hb.
Qed.

Lemma other_find_or_new b l : quiet tid (find_or_new_unit b l).
Proof.
  apply quiet_find_unit. intros e w Hb. destruct (unit_at w b l) as [u|] eqn:Hu.
  - apply wp_ret. split; [done|apply tsame_refl].
  - apply wp_bind. eapply (wp_consequence _ _ _
      (fun _ e' w' => e' = e /\ tsame tid w w' /\ _bucketLst w' = _bucketLst w)).
    { pose proof (quiet_new e w) as H. unfold wp, sdb_oss_new in *.
      destruct (allocs w); destruct H; by split_and!. }
    intros ok e1 w1 (-> & Hs & Hbk). destruct ok.
    + eapply wp_consequence.
      { apply (quiet_unit b l (mret true) (Some newLockUnit)); [|apply quiet_ret|].
        - unfold has_bucket. by rewrite Hbk.
        - unfold unit_at. rewrite Hbk. unfold unit_at in Hu. by rewrite Hu. }
      intros a e' w' [-> Hs']. split; [done|]. by eapply tsame_trans.
    + apply wp_ret. done.
Qed.

Lemma other_appendToRun m b l : quiet tid (appendToRun t m b l).
Proof.
  apply quiet_deref_unit. intros u e w Hu. destruct (checkCompatible t m u); simpl.
  - apply (quiet_unit b l (mret SDB_OK) (Some _)); [by eapply unit_at_has_bucket|apply quiet_ret|].
    rewrite Hu. simpl. by apply om_find_insert_ne.
  - apply wp_ret. split; [done|apply tsame_refl].
Qed.

Lemma other_removeFromRun b l : quiet tid (removeFromRun t b l).
Proof.
  apply quiet_deref_unit. intros u e w Hu.
  apply (quiet_unit b l _ (Some (mkUnit (_pWaitCB u) (om_erase t (_runList u)))));
    [by eapply unit_at_has_bucket| |].
  - destruct (_pWaitCB u); eauto with locks.
  - rewrite Hu. simpl. rewrite om_find_erase. by destruct (Z.eqb_spec t tid).
Qed.
#[local] Hint Resolve other_decRef other_addLockInfo other_delLockInfo other_clearLockList
  other_setType other_incRef other_find_or_new other_appendToRun other_removeFromRun : locks.

Lemma other_erase_empty b l :
  quiet tid (u ← deref_unit b l;
             match _pWaitCB u, _runList u with
             | None, [] => erase_unit b l
             | _, _ => mret tt
             end).
Proof.
  apply quiet_deref_unit. intros u e w Hu.
  assert (Hdone : wp True True (mret tt) (fun _ e' w' => e' = e /\ tsame tid w w') e w).
  { apply wp_ret. split; [done|apply tsame_refl]. }
  destruct (_pWaitCB u); [done|]. destruct (_runList u) eqn:Hr; [|done].
  pose proof (quiet_unit b l (mret tt) None w e) as H. unfold wp in H |- *.
  unfold mbind, lockM_bind, mret, lockM_ret in H.
  change (erase_unit b l) with
    (upd_lockLst b (partial_alter (fun _ : option dpsTransLockUnit => None) l)).
  destruct (upd_lockLst b _ e w) as [[]| |]; try done. apply H.
  - by eapply unit_at_has_bucket.
  - apply quiet_ret.
  - rewrite Hu. simpl. by rewrite Hr.
Qed.

Lemma other_bucket_release l b : quiet tid (lockBucket_release t l b).
Proof.
  unfold lockBucket_release. apply quiet_find_unit. intros e w Hb.
  destruct (unit_at w b l); [|apply quiet_ret].
  apply (quiet_bind tid (removeFromRun t b l)); [eauto with locks|].
  intros. apply other_erase_empty.
Qed.

Lemma other_getBucket l : quiet tid (getBucket l).
Proof.
  intros e w. unfold getBucket. destruct (negb _); [done|].
  apply wp_bind. eapply wp_eq; [reflexivity|].
  destruct (_bucketLst w !! getBucketNo l) as [lst|] eqn:Hb.
  { apply wp_ret. split; [done|apply tsame_refl]. }
  apply wp_bind. unfold wp at 1, sdb_oss_new.
  assert (Hfin : forall w1, tsame tid w w1 -> _bucketLst w1 = _bucketLst w -> forall ok : bool,
    wp True True (if negb ok then mret (SDB_OOM, getBucketNo l) else
        w' ← get_world;
        _ ← put_world (set_buckets w' (<[getBucketNo l := ∅]> (_bucketLst w')));
        mret (SDB_OK, getBucketNo l)) (fun _ e' w' => e' = e /\ tsame tid w w') e w1).
  { intros w1 Hs Hbk [|]; simpl; [|by apply wp_ret].
    unfold wp; simpl. split; [done|]. eapply tsame_trans; [exact Hs|]. split; try done.
    - intros l'. unfold run, unit_at. simpl. rewrite lookup_insert.
      case_decide as Hd; [|done]. rewrite Hbk, <-Hd, Hb. simpl. by rewrite lookup_empty.
    - intros b Hbb. unfold has_bucket. simpl. rewrite lookup_insert. case_decide; eauto. }
  destruct (allocs w) as [|ok al] eqn:Ha; [apply Hfin; [apply tsame_refl|done]|].
  apply Hfin; [|done]. split; try done. by rewrite Ha.
Qed.
#[local] Hint Resolve other_bucket_release other_getBucket : locks.

Lemma other_release_loop n l : quiet tid (release_loop n t l).
Proof. revert l. induction n; intros l; simpl; quiet_steps. Qed.

Lemma other_release l : quiet tid (release t l).
Proof. apply other_release_loop. Qed.

Lemma other_releaseAll : quiet tid (releaseAll t).
Proof.
  unfold releaseAll. apply quiet_bind; [eauto with locks|]. intros cb.
  apply quiet_bind; [|eauto with locks].
  generalize (lockList_keys (_transLockLst cb)). intros ids.
  induction ids; simpl; quiet_steps.
Qed.

Lemma other_tryAcquire l m b : quiet tid (lockBucket_tryAcquire t l m b).
Proof. unfold lockBucket_tryAcquire. quiet_steps. Qed.
#[local] Hint Resolve other_release other_tryAcquire : locks.

Lemma other_upgradeWith l i m : quiet tid (@upgradeWith tryOps t l i m).
Proof. unfold upgradeWith. simpl. quiet_steps. Qed.
Lemma other_acquireNew l m : quiet tid (@acquireNew tryOps t l m).
Proof. unfold acquireNew. simpl. quiet_steps. Qed.
#[local] Hint Resolve other_upgradeWith other_acquireNew : locks.

Lemma other_takeOrUpgrade l m : quiet tid (@takeOrUpgrade tryOps t l m).
Proof. unfold takeOrUpgrade. quiet_steps. Qed.
Lemma other_takeIS l : quiet tid (@takeIS tryOps t l).
Proof. unfold takeIS. quiet_steps. Qed.
Lemma other_withIntention l p m1 m2 :
  quiet tid m1 -> quiet tid m2 -> quiet tid (withIntention t l p m1 m2).
Proof. intros. unfold withIntention. quiet_steps. Qed.
#[local] Hint Resolve other_takeOrUpgrade other_takeIS other_withIntention : locks.

Lemma other_lockMode m l : quiet tid (@lockMode tryOps m t l).
Proof.
  destruct m; simpl; unfold lockX, lockS, lockIX, lockIS; repeat apply other_withIntention;
    eauto with locks.
Qed.
End others.

(** ** Properties *)

(** The non-blocking and the blocking operation for a mode. *)
Definition tryFamily (m : DPS_TRANSLOCK_TYPE) : Z -> dpsTransLockId -> lockM Z :=
  match m with
  | DPS_TRANSLOCK_IS => tryIS
  | DPS_TRANSLOCK_IX => tryIX
  | DPS_TRANSLOCK_S => tryS
  | DPS_TRANSLOCK_X => tryX
  end.

Definition acquireFamily (m : DPS_TRANSLOCK_TYPE) : Z -> dpsTransLockId -> lockM Z :=
  match m with
  | DPS_TRANSLOCK_IS => acquireIS
  | DPS_TRANSLOCK_IX => acquireIX
  | DPS_TRANSLOCK_S => acquireS
  | DPS_TRANSLOCK_X => acquireX
  end.

Lemma tryFamily_eq m tid l : tryFamily m tid l = @lockMode tryOps m tid l.
Proof. by destruct m. Qed.

Lemma acquireFamily_eq m tid l : acquireFamily m tid l = @lockMode blockingOps m tid l.
Proof. by destruct m. Qed.

(** A session that starts with an empty lock list has the empty bag. *)
Lemma represents_fresh C w tid cb :
  initial_world w -> allocs w = [] -> edus w !! tid = Some cb -> _transLockLst cb = ∅ ->
  represents C w tid [].
Proof.
  intros H0 Hal Hcb Hl.
  assert (Hi : forall l, info w tid l = None).
  { intros l. unfold info. rewrite Hcb. simpl. by rewrite Hl, lookup_empty. }
  assert (Hu : forall b l, unit_at w b l = None).
  { intros b l. unfold unit_at. by rewrite H0, lookup_empty. }
  split; [split|..].
  - by exists cb.
  - done.
  - right. intros b l u h. by rewrite Hu.
  - intros l. unfold run. by rewrite Hu, Hi.
  - intros l i. by rewrite Hi.
  - intros l i. by rewrite Hi.
  - intros l. unfold cnt. by rewrite Hi.
  - intros r l m []%not_elem_of_nil.
Qed.

(** Session 1 after it locked the record [demo_id] in X. *)
Definition demo_locked : world := exec (tryX 1 demo_id) demo_world.

Lemma demo_fresh C tid : tid = 1 \/ tid = 2 -> represents C demo_world tid [].
Proof. intros [->| ->]; by eapply represents_fresh. Qed.

Lemma demo_wf : wf_id demo_id.
Proof. split; simpl; unfold DMS_INVALID_MBID, DMS_INVALID_OFFSET; lia. Qed.

Lemma demo_locked_bag : represents False demo_locked 1 [(demo_id, DPS_TRANSLOCK_X)].
Proof.
  assert (H : wp False False (tryX 1 demo_id) (fun rc _ w' => True /\ represents False w' 1
    (if rc =? SDB_OK then [(demo_id, DPS_TRANSLOCK_X)] else [])) [] demo_world).
  { apply (lockMode_represents False False (fun _ _ => True) 1 demo_id DPS_TRANSLOCK_X []);
      auto using demo_wf, demo_fresh. intros _; by right. }
  assert (Hrun : tryX 1 demo_id [] demo_world = Done SDB_OK [] demo_locked) by
    (vm_compute; reflexivity).
  unfold wp in H. rewrite Hrun in H. by destruct H.
Qed.

(** C10: Let the lock list of a session implement a bag of requests, let the
    threads of the wait queues exist and no allocation fail.  Then every
    operation of the non-blocking family (tryIS, tryIX, tryS, tryX; on
    well-formed lock ids, intention modes on collections and spaces only)
    returns without crashing or
    blocking, and implements the bag: on [SDB_OK] the request has been added,
    on any other code, including a refused upgrade and a failure after the
    intention locks were taken, the session's bag is exactly what it was. *)
Theorem tryFamily_refines_bag tid l m b e w :
  represents False w tid b -> wf_id l -> allowed l m ->
  wp False False (tryFamily m tid l)
    (fun rc _ w' => represents False w' tid (if rc =? SDB_OK then (l, m) :: b else b)) e w.
Proof.
  intros Hr Hwf Hal. rewrite tryFamily_eq.
  eapply wp_consequence; [by apply (lockMode_represents False False (fun _ _ => True))|].
  by intros rc e' w' [_ ?].
Qed.

Lemma tryFamily_refines_bag_witness :
  wp False False (tryX 1 demo_id)
    (fun rc _ w' => represents False w' 1
       (if rc =? SDB_OK then [(demo_id, DPS_TRANSLOCK_X)] else [])) [] demo_world.
Proof.
  apply (tryFamily_refines_bag 1 demo_id DPS_TRANSLOCK_X []).
  - apply demo_fresh. by left.
  - apply demo_wf.
  - intros _. by right.
Defined.

(** C11: Let the lock list of a session implement a bag of requests and no
    allocation fail.  Whenever an operation of the blocking family (acquireIS,
    acquireIX, acquireS, acquireX; on well-formed lock ids, intention modes on
    collections and spaces only) returns, it has implemented the bag: the request was added on
    [SDB_OK], the bag is unchanged on a timeout, an interruption or a refused
    upgrade, whatever other sessions did during the waits to locks that are
    not this session's. *)
Theorem acquireFamily_refines_bag tid l m b e w :
  represents True w tid b -> wf_id l -> allowed l m -> env_rely tid e ->
  wp True True (acquireFamily m tid l)
    (fun rc e' w' => env_rely tid e' /\
       represents True w' tid (if rc =? SDB_OK then (l, m) :: b else b)) e w.
Proof.
  intros. rewrite acquireFamily_eq. by apply (lockMode_represents True True env_rely).
Qed.

(** Session 2 waits for the record, session 1 releases it meanwhile. *)
Definition demo_release_env : environment := [fun w => exec (release 1 demo_id) w].

Lemma quiet_exec tid {A} (m : lockM A) w : quiet tid m -> tsame tid w (exec m w).
Proof.
  intros Hm. specialize (Hm [] w). unfold wp in Hm. unfold exec.
  destruct (m [] w); [by destruct Hm|apply tsame_refl..].
Qed.

Lemma demo_release_rely : env_rely 2 demo_release_env.
Proof.
  apply Forall_singleton. intros w. apply quiet_exec, (other_release 2 1). lia.
Qed.

Lemma quiet_represents tid b {A} (m : lockM A) w :
  quiet tid m -> represents True w tid b -> represents True (exec m w) tid b.
Proof.
  intros Hm Hr. eapply represents_same; [exact Hr|].
  apply tsame_adv; [by apply quiet_exec|by left|by destruct Hr].
Qed.

Lemma acquireFamily_refines_bag_witness :
  acquireX 2 demo_id demo_release_env demo_locked
    = Done SDB_OK [] (match acquireX 2 demo_id demo_release_env demo_locked with
                      | Done _ _ w => w | _ => demo_locked end) /\
  wp True True (acquireX 2 demo_id)
    (fun rc e' w' => env_rely 2 e' /\ represents True w' 2
       (if rc =? SDB_OK then [(demo_id, DPS_TRANSLOCK_X)] else [])) demo_release_env demo_locked.
Proof.
  split; [vm_compute; reflexivity|].
  apply (acquireFamily_refines_bag 2 demo_id DPS_TRANSLOCK_X []).
  - apply (quiet_represents 2 [] (tryX 1 demo_id) demo_world).
    + apply (other_lockMode 2 1 ltac:(lia) DPS_TRANSLOCK_X).
    + apply demo_fresh. by right.
  - apply demo_wf.
  - intros _. by right.
  - apply demo_release_rely.
Defined.

Lemma release_represents tid l m b b' e w :
  represents False w tid b -> b ≡ₚ (l, m) :: b' ->
  wp False False (release tid l) (fun _ e' w' => e' = e /\ represents False w' tid b') e w.
Proof.
  intros [Hok Hc Hv] Hp.
  eapply wp_consequence; [apply release_spec; [done|]|].
  - intros l' Hl'. rewrite Hc. apply (need_pos b (l, m)); [|done]. rewrite Hp. by left.
  - intros [] e' w' [-> Hadv]. split; [done|].
    assert (Hcnt : forall l', cnt w' tid l' = need b' l').
    { intros l'. rewrite (adv_cnt _ _ _ _ _ Hadv), Hc, (need_perm _ _ _ Hp). simpl. lia. }
    split; [by destruct Hadv|done|]. intros r l' m' Hr Hin.
    apply (adv_mono _ _ _ _ _ Hadv).
    + eapply Hv; [|exact Hin]. rewrite Hp. by right.
    + rewrite Hcnt. eapply need_pos; [exact Hr|]. by eapply request_chain.
Qed.

(** C29: [release] of a lock the session has requested returns and removes
    exactly one of its requests, on the lock and on the collection and space
    above it; a lock that no other request needs leaves the lock list and the
    run list, and locks still needed keep a mode that covers every remaining
    request. *)
Theorem release_refines_bag tid l m b b' e w :
  represents False w tid b -> b ≡ₚ (l, m) :: b' ->
  wp False False (release tid l) (fun _ e' w' => e' = e /\ represents False w' tid b') e w.
Proof. apply release_represents. Qed.

Lemma release_refines_bag_witness :
  wp False False (release 1 demo_id) (fun _ e' w' => e' = [] /\ represents False w' 1 [])
    [] demo_locked.
Proof.
  apply (release_refines_bag 1 demo_id DPS_TRANSLOCK_X [(demo_id, DPS_TRANSLOCK_X)]).
  - apply demo_locked_bag.
  - reflexivity.
Defined.

(** [releaseAll], run at commit and rollback, returns and leaves the
    session with the empty bag: no lock info, and no entry in any run list. *)
Lemma releaseAll_represents tid b e w :
  represents False w tid b ->
  wp False False (releaseAll tid)
    (fun _ e' w' => e' = e /\ represents False w' tid [] /\
       forall l, info w' tid l = None /\ run w' tid l = None) e w.
Proof.
  intros [Hok _ _]. eapply wp_consequence; [by apply releaseAll_spec|].
  intros [] e' w' (-> & Hok' & Hi). split; [done|]. split.
  - split; [done|..].
    + intros l. unfold cnt. by rewrite Hi.
    + intros r l m []%not_elem_of_nil.
  - intros l. rewrite (to_run _ _ _ Hok'). by rewrite Hi.
Qed.

(** The non-blocking operations, [release] and [releaseAll] of a session
    leave the bag of every other session as it is. *)
Theorem others_keep_bag tid t b w l m :
  represents True w tid b -> t <> tid ->
  represents True (exec (tryFamily m t l) w) tid b /\
  represents True (exec (release t l) w) tid b /\
  represents True (exec (releaseAll t) w) tid b.
Proof.
  intros Hr Hne. rewrite tryFamily_eq. split_and!; (apply quiet_represents; [|done]).
  - by apply other_lockMode.
  - by apply other_release.
  - by apply other_releaseAll.
Qed.

Lemma others_keep_bag_witness :
  represents True (exec (tryX 1 demo_id) demo_world) 2 [] /\
  represents True (exec (release 1 demo_id) demo_world) 2 [] /\
  represents True (exec (releaseAll 1) demo_world) 2 [].
Proof.
  apply (others_keep_bag 2 1 [] demo_world demo_id DPS_TRANSLOCK_X).
  - apply demo_fresh. by right.
  - discriminate.
Defined.

(** ** Isolation between sessions *)

Lemma covers_compatible i j m1 m2 :
  isLockMatch i m1 = true -> isLockMatch j m2 = true ->
  isLockCompatible (_lockType i) (_lockType j) = true -> isLockCompatible m1 m2 = true.
Proof. destruct i as [? [] ?], j as [? [] ?], m1, m2; done. Qed.

Lemma covers_holds C w tid l m :
  tid_ok C w tid -> covers w tid l m ->
  exists i, isLockMatch i m = true /\ holds w (getBucketNo l) l tid (_lockType i).
Proof.
  intros Hok (i & Hi & Hm). exists i. split; [done|].
  pose proof (to_run _ _ _ Hok l) as Hr. rewrite Hi in Hr. unfold run in Hr.
  destruct (unit_at w (getBucketNo l) l) as [u|] eqn:Hu; [|done]. by exists u.
Qed.

Lemma bags_compatible C w t1 t2 b1 b2 r1 r2 l m1 m2 :
  world_ok w -> represents C w t1 b1 -> represents C w t2 b2 -> t1 <> t2 ->
  r1 ∈ b1 -> r2 ∈ b2 -> (l, m1) ∈ request r1.1 r1.2 -> (l, m2) ∈ request r2.1 r2.2 ->
  isLockCompatible m1 m2 = true.
Proof.
  intros Hw [Hok1 _ Hv1] [Hok2 _ Hv2] Hne Hr1 Hr2 H1 H2.
  destruct (covers_holds C w t1 l m1) as (i & Hi & Hh1); [done|by eapply Hv1|].
  destruct (covers_holds C w t2 l m2) as (j & Hj & Hh2); [done|by eapply Hv2|].
  eapply covers_compatible; [done|done|]. by eapply world_ok_compatible.
Qed.

(** ** Whole operations are runs of the interleaving relation *)

Definition steps {A} (m : lockM A) : Prop := forall w,
  wp True True m (fun _ e' w' => e' = [] /\ rtc lock_step w w') [] w.

Lemma steps_bind {A B} (m : lockM A) (f : A -> lockM B) :
  steps m -> (forall a, steps (f a)) -> steps (m ≫= f).
Proof.
  intros Hm Hf w. apply wp_bind. eapply wp_consequence; [apply Hm|].
  intros a e' w' [-> Hs]. eapply wp_consequence; [apply Hf|].
  intros a' e'' w'' [-> Hs']. split; [done|]. by etrans.
Qed.

Lemma steps_session {A} (m : lockM A) : session_only m -> steps m.
Proof.
  intros Hm w. eapply wp_consequence; [apply Hm|]. intros a e' w' [-> Hb].
  split; [done|]. by apply rtc_once, step_session.
Qed.

(** [m] consumes no entry of the environment. *)
Definition quiet_env {A} (m : lockM A) : Prop := forall w,
  wp True True m (fun _ e' _ => e' = []) [] w.

(** A section whose runs are steps, when it does not wait. *)
Lemma steps_section {A} (m : lockM A) :
  quiet_env m -> (forall w r w', m [] w = Done r [] w' -> lock_step w w') -> steps m.
Proof.
  intros He Hm w. specialize (He w). unfold wp in *.
  destruct (m [] w) as [r e' w'| |] eqn:E; [|done..]. subst e'.
  split; [done|]. by eapply rtc_once, Hm.
Qed.

Lemma quiet_quiet_env tid {A} (m : lockM A) : quiet tid m -> quiet_env m.
Proof. intros Hm w. eapply wp_consequence; [apply Hm|]. by intros ? ? ? [-> _]. Qed.

(** Some thread other than [t] to state quietness for. *)
Lemma steps_getBucket l : steps (getBucket l).
Proof.
  apply steps_section; [|intros; by eapply step_getBucket].
  by eapply quiet_quiet_env, (other_getBucket 0).
Qed.
Lemma steps_tryAcquire t l m b : steps (lockBucket_tryAcquire t l m b).
Proof.
  apply steps_section; [|intros; by eapply step_tryAcquire].
  eapply quiet_quiet_env, (other_tryAcquire (t + 1) t). lia.
Qed.
Lemma steps_bucket_release t l b : steps (lockBucket_release t l b).
Proof.
  apply steps_section; [|intros w [] w' H; by eapply step_release].
  eapply quiet_quiet_env, (other_bucket_release (t + 1) t). lia.
Qed.
#[local] Hint Resolve steps_session steps_getBucket steps_tryAcquire steps_bucket_release : locks.

Ltac steps_steps :=
  repeat first
    [ solve [eauto with locks]
    | apply steps_bind; intros
    | match goal with |- steps (match ?x with _ => _ end) => destruct x end ].

Lemma steps_release t l : steps (release t l).
Proof.
  unfold release. generalize 3%nat. intros n. revert l.
  induction n; intros l; simpl; steps_steps.
Qed.
#[local] Hint Resolve steps_release : locks.

Lemma steps_withIntention t l p m1 m2 :
  steps m1 -> steps m2 -> steps (withIntention t l p m1 m2).
Proof. intros. unfold withIntention. steps_steps. Qed.

Lemma steps_takeOrUpgrade t l m : steps (@takeOrUpgrade tryOps t l m).
Proof. unfold takeOrUpgrade, upgradeWith, acquireNew. simpl. steps_steps. Qed.
Lemma steps_takeIS t l : steps (@takeIS tryOps t l).
Proof. unfold takeIS, acquireNew. simpl. steps_steps. Qed.
#[local] Hint Resolve steps_takeOrUpgrade steps_takeIS : locks.

Lemma steps_tryFamily m t l : steps (tryFamily m t l).
Proof.
  destruct m; simpl; unfold tryX, tryS, tryIX, tryIS, lockX, lockS, lockIX, lockIS;
    repeat apply steps_withIntention; eauto with locks.
Qed.

Lemma steps_exec {A} (m : lockM A) w : steps m -> rtc lock_step w (exec m w).
Proof.
  intros Hm. specialize (Hm w). unfold wp in Hm. unfold exec.
  destruct (m [] w); [by destruct Hm|apply rtc_refl..].
Qed.

(** ** No two sessions conflict *)

(** A call of a session: one of the four non-blocking operations, the
    release of a request, or the release of everything. *)
Inductive lockCall : Set :=
| CallTry (m : DPS_TRANSLOCK_TYPE) (l : dpsTransLockId)
| CallRelease (l : dpsTransLockId)
| CallReleaseAll.

(** The ledger of a run: what each session was granted and has not given
    back. *)
Definition bag_of (bags : gmap Z bag) (t : Z) : bag := default [] (bags !! t).

(** A bag without its first request for [l]. *)
Fixpoint without (l : dpsTransLockId) (b : bag) : option bag :=
  match b with
  | [] => None
  | r :: b' => if decide (r.1 = l) then Some b' else cons r <$> without l b'
  end.

(** A call on the lock manager, with the ledger; a session releases only what
    it was granted. *)
Definition lock_call (w : world) (bags : gmap Z bag) (t : Z) (c : lockCall) : option (world * gmap Z bag) :=
  match c with
  | CallTry m l =>
      match tryFamily m t l [] w with
      | Done rc _ w' => Some (w', if rc =? SDB_OK then <[t := (l, m) :: bag_of bags t]> bags else bags)
      | _ => None
      end
  | CallRelease l =>
      match without l (bag_of bags t) with
      | None => Some (w, bags)
      | Some b => match release t l [] w with Done _ _ w' => Some (w', <[t := b]> bags) | _ => None end
      end
  | CallReleaseAll => match releaseAll t [] w with Done _ _ w' => Some (w', <[t := []]> bags) | _ => None end
  end.

Fixpoint lock_calls (w : world) (bags : gmap Z bag) (calls : list (Z * lockCall)) : option (world * gmap Z bag) :=
  match calls with
  | [] => Some (w, bags)
  | (t, c) :: rest => '(w, bags) ← lock_call w bags t c; lock_calls w bags rest
  end.

Definition call_ok (sessions : list Z) (tc : Z * lockCall) : Prop :=
  tc.1 ∈ sessions /\ match tc.2 with CallTry m l => wf_id l /\ allowed l m | _ => True end.

Lemma rep_weaken w t b : represents False w t b -> represents True w t b.
Proof. intros [[H1 H2 H3 H4 H5 H6] Hc Hv]. by repeat (split; try done); left. Qed.

Lemma rep_strengthen w t b : represents True w t b -> guard False w -> represents False w t b.
Proof. intros [[H1 H2 H3 H4 H5 H6] Hc Hv] Hg. by repeat (split; try done). Qed.

Lemma without_perm l b b' : without l b = Some b' -> exists m, b ≡ₚ (l, m) :: b'.
Proof.
  revert b'. induction b as [|[l0 m0] b IH]; intros b'; cbn [without fst]; [done|].
  case_decide as E; [intros [= <-]; subst; by exists m0|]. destruct (without l b) as [b1|]; [|done].
  intros [= <-]. destruct (IH b1 eq_refl) as [m Hm]. exists m. rewrite Hm. constructor.
Qed.

Lemma bags_insert bags edu b t : bag_of (<[edu := b]> bags) t = if decide (t = edu) then b else bag_of bags t.
Proof. unfold bag_of. case_decide as E; [subst; by rewrite lookup_insert_eq|by rewrite lookup_insert_ne]. Qed.

Lemma steps_releaseAll t : steps (releaseAll t).
Proof.
  unfold releaseAll. apply steps_bind; [eauto with locks|]. intros cb. apply steps_bind; [|eauto with locks].
  generalize (lockList_keys (_transLockLst cb)). intros ids. induction ids; simpl; steps_steps.
Qed.

Section calls.
Context (sessions : list Z).

(** A call of one session that does not touch the locks of others. *)
Lemma one_acts {A} (m : lockM A) (edu : Z) (w w' : world) (b : bag) (B : Z -> bag) r e :
  (forall t, t <> edu -> quiet t m) -> m [] w = Done r e w' -> represents False w' edu b ->
  (forall t, t ∈ sessions -> represents False w t (B t)) ->
  forall t, t ∈ sessions -> represents False w' t (if decide (t = edu) then b else B t).
Proof.
  intros Hq Ew He HB t Ht. case_decide as E; [by subst|]. apply rep_strengthen; [|by destruct He as [[]]].
  replace w' with (exec m w) by (unfold exec; by rewrite Ew). apply quiet_represents; [by apply Hq|]. by apply rep_weaken, HB.
Qed.

Lemma lock_call_ok w bags t c :
  world_ok w -> (forall t, t ∈ sessions -> represents False w t (bag_of bags t)) -> call_ok sessions (t, c) ->
  exists w' bags', lock_call w bags t c = Some (w', bags') /\ world_ok w' /\
    forall t, t ∈ sessions -> represents False w' t (bag_of bags' t).
Proof.
  intros Hw Hb [Ht Hc]. cbn [fst snd] in *.
  assert (Hgo : forall A (m : lockM A) r e w', steps m -> m [] w = Done r e w' -> world_ok w').
  { intros A m r e w' Hs Hm. specialize (Hs w). unfold wp in Hs. rewrite Hm in Hs. destruct Hs as [_ Hs].
    revert Hw. clear -Hs. induction Hs; [done|]. intros. by eapply IHHs, lock_step_ok. }
  destruct c as [m l|l|]; cbn [lock_call].
  - destruct Hc as [Hwf Hal].
    assert (H : wp False False (@lockMode tryOps m t l) (fun rc _ w' => True /\ represents False w' t
                  (if rc =? SDB_OK then (l, m) :: bag_of bags t else bag_of bags t)) [] w)
      by (apply (lockMode_represents False False (fun _ _ => True)); [by apply Hb|done..]).
    rewrite <- tryFamily_eq in H. unfold wp in H. destruct (tryFamily m t l [] w) as [rc e w'| |] eqn:E; [|done..].
    destruct H as [_ H]. eexists _, _. split; [done|]. split; [by eapply Hgo, E; apply steps_tryFamily|].
    rewrite tryFamily_eq in E. intros t' Ht'.
    pose proof (one_acts _ t w w' _ (bag_of bags) rc e (fun t0 Hn => other_lockMode t0 t ltac:(congruence) m l) E H Hb t' Ht') as H'.
    destruct (rc =? SDB_OK); [by rewrite bags_insert|]. by case_decide; subst.
  - destruct (without l _) as [b|] eqn:Eb; [|by exists w, bags]. apply without_perm in Eb as [m Hm].
    pose proof (release_represents t l m _ b [] w (Hb t Ht) Hm) as H. unfold wp in H.
    destruct (release t l [] w) as [[] e w'| |] eqn:E; [|done..]. destruct H as [_ H].
    eexists _, _. split; [done|]. split; [by eapply Hgo, E; apply steps_release|]. intros t' Ht'. rewrite bags_insert.
    apply (one_acts _ t w w' _ (bag_of bags) _ _ (fun t0 Hn => other_release t0 t ltac:(congruence) l) E H Hb t' Ht').
  - pose proof (releaseAll_represents t _ [] w (Hb t Ht)) as H. unfold wp in H.
    destruct (releaseAll t [] w) as [[] e w'| |] eqn:E; [|done..]. destruct H as (_ & H & _).
    eexists _, _. split; [done|]. split; [by eapply Hgo, E; apply steps_releaseAll|]. intros t' Ht'. rewrite bags_insert.
    apply (one_acts _ t w w' _ (bag_of bags) _ _ (fun t0 Hn => other_releaseAll t0 t ltac:(congruence)) E H Hb t' Ht').
Qed.

Lemma lock_calls_ok calls w bags :
  world_ok w -> (forall t, t ∈ sessions -> represents False w t (bag_of bags t)) -> Forall (call_ok sessions) calls ->
  exists w' bags', lock_calls w bags calls = Some (w', bags') /\ world_ok w' /\
    forall t, t ∈ sessions -> represents False w' t (bag_of bags' t).
Proof.
  revert w bags. induction calls as [|[t c] calls IH]; intros w bags Hw Hb Hc; [by exists w, bags|].
  apply Forall_cons in Hc as [Hc Hcs]. destruct (lock_call_ok w bags t c Hw Hb Hc) as (w1 & bags1 & E & Hw1 & Hb1).
  cbn [lock_calls]. rewrite E. by apply IH.
Qed.
End calls.

(** C1: Sessions never conflict.  Start with an empty lock manager and sessions
    that hold nothing, and let them call the non-blocking operations on
    well-formed lock ids (intention modes on collections and spaces only),
    release requests they were granted and release everything, one complete
    call after the other in any order and any number.  If no
    allocation fails, every call returns, the lock list of every session
    implements exactly what it was granted and has not given back, and the
    outstanding requests of two sessions are compatible at every level they
    share, intention modes included. *)
Theorem sessions_never_conflict sessions w0 calls :
  initial_world w0 -> allocs w0 = [] ->
  (forall t, t ∈ sessions -> exists cb, edus w0 !! t = Some cb /\ _transLockLst cb = ∅) ->
  Forall (call_ok sessions) calls ->
  exists w bags, lock_calls w0 ∅ calls = Some (w, bags) /\
    (forall t, t ∈ sessions -> represents False w t (bag_of bags t)) /\
    forall t1 t2 r1 r2 l m1 m2, t1 ∈ sessions -> t2 ∈ sessions -> t1 <> t2 ->
      r1 ∈ bag_of bags t1 -> r2 ∈ bag_of bags t2 ->
      (l, m1) ∈ request r1.1 r1.2 -> (l, m2) ∈ request r2.1 r2.2 -> isLockCompatible m1 m2 = true.
Proof.
  intros H0 Ha Hs Hc.
  destruct (lock_calls_ok sessions calls w0 ∅) as (w & bags & E & Hw & Hb); [by apply initial_world_ok| |done|].
  - intros t Ht. destruct (Hs t Ht) as (cb & Hcb & Hl). by eapply represents_fresh.
  - exists w, bags. split_and!; [done|done|]. intros t1 t2 r1 r2 l m1 m2 H1 H2 Hne Hr1 Hr2 Hl1 Hl2.
    exact (bags_compatible False w t1 t2 _ _ r1 r2 l m1 m2 Hw (Hb t1 H1) (Hb t2 H2) Hne Hr1 Hr2 Hl1 Hl2).
Qed.

(** Both read a record; session 1 cannot write it until session 2 lets go. *)
Definition demo_calls : list (Z * lockCall) :=
  [(1, CallTry DPS_TRANSLOCK_S demo_id); (2, CallTry DPS_TRANSLOCK_S demo_id); (1, CallTry DPS_TRANSLOCK_X demo_id);
   (2, CallReleaseAll); (1, CallRelease demo_id); (1, CallTry DPS_TRANSLOCK_X demo_id);
   (2, CallTry DPS_TRANSLOCK_IS (sLockIdOf demo_id)); (2, CallTry DPS_TRANSLOCK_S demo_id)].

Lemma demo_calls_ok : Forall (call_ok [1; 2]) demo_calls.
Proof.
  pose proof demo_wf as H1. pose proof (wf_sLockId _ demo_wf) as H2.
  repeat (apply Forall_cons; split); [..|apply Forall_nil; done]; (split; [cbn; set_solver|cbn [snd]]);
    try done; (split; [done|]); unfold allowed; auto; done.
Qed.

Lemma sessions_never_conflict_witness :
  exists w, lock_calls demo_world ∅ demo_calls =
      Some (w, {[1 := [(demo_id, DPS_TRANSLOCK_X)]; 2 := [(sLockIdOf demo_id, DPS_TRANSLOCK_IS)]]}) /\
    represents False w 1 [(demo_id, DPS_TRANSLOCK_X)] /\ isLockCompatible DPS_TRANSLOCK_IS DPS_TRANSLOCK_IS = true.
Proof.
  destruct (sessions_never_conflict [1; 2] demo_world demo_calls) as (w & bags & E & Hb & Hc).
  - reflexivity.
  - reflexivity.
  - intros t Ht. exists demo_edu. split; [|done].
    apply list_elem_of_In in Ht. destruct Ht as [<-|[<-|[]]]; reflexivity.
  - exact demo_calls_ok.
  - assert (Hbags : bags = {[1 := [(demo_id, DPS_TRANSLOCK_X)]; 2 := [(sLockIdOf demo_id, DPS_TRANSLOCK_IS)]]}).
    { assert (H : snd <$> lock_calls demo_world ∅ demo_calls =
        Some {[1 := [(demo_id, DPS_TRANSLOCK_X)]; 2 := [(sLockIdOf demo_id, DPS_TRANSLOCK_IS)]]}) by (vm_compute; reflexivity).
      rewrite E in H. by injection H. }
    subst bags. exists w. split; [exact E|]. split.
    + apply (Hb 1). apply list_elem_of_here.
    + apply (Hc 1 2 (demo_id, DPS_TRANSLOCK_X) (sLockIdOf demo_id, DPS_TRANSLOCK_IS) (sLockIdOf demo_id)).
      * apply list_elem_of_here.
      * apply list_elem_of_further, list_elem_of_here.
      * discriminate.
      * apply list_elem_of_here.
      * apply list_elem_of_here.
      * apply list_elem_of_further, list_elem_of_further, list_elem_of_here.
      * apply list_elem_of_here.
Defined.

(** A session that holds a collection in X excludes every request of any
    other session for that collection or for a record in it. *)
Theorem exclusive_collection_isolated C w0 w t1 t2 b1 b2 cl l m :
  initial_world w0 -> rtc lock_step w0 w ->
  represents C w t1 b1 -> represents C w t2 b2 -> t1 <> t2 ->
  (cl, DPS_TRANSLOCK_X) ∈ b1 -> cl ∈ chain_ids l -> (l, m) ∉ b2.
Proof.
  intros H0 Hr H1 H2 Hne Hin1 Hcl Hin2.
  rewrite <-(request_ids l m) in Hcl.
  apply list_elem_of_fmap in Hcl as ([cl' m'] & Heq & Hreq). simpl in Heq. subst cl'.
  assert (Hc : isLockCompatible DPS_TRANSLOCK_X m' = true).
  { eapply (bags_compatible C w t1 t2 b1 b2 (cl, DPS_TRANSLOCK_X) (l, m) cl);
      eauto using reachable_ok. unfold request. simpl.
    destruct (hasCollection cl), (is_record cl); by left. }
  by rewrite isLockCompatible_X in Hc.
Qed.

Definition demo_cl : dpsTransLockId := collectionOf demo_id.
Definition demo_cl_locked : world := exec (tryX 1 demo_cl) demo_world.

Lemma demo_cl_locked_bag : represents True demo_cl_locked 1 [(demo_cl, DPS_TRANSLOCK_X)].
Proof.
  assert (H : wp False False (tryX 1 demo_cl) (fun rc _ w' => True /\ represents False w' 1
    (if rc =? SDB_OK then [(demo_cl, DPS_TRANSLOCK_X)] else [])) [] demo_world).
  { apply (lockMode_represents False False (fun _ _ => True) 1 demo_cl DPS_TRANSLOCK_X []);
      [apply demo_fresh; by left|apply wf_collectionOf, demo_wf|intros _; by right|done]. }
  assert (Hrun : tryX 1 demo_cl [] demo_world = Done SDB_OK [] demo_cl_locked) by
    (vm_compute; reflexivity).
  unfold wp in H. rewrite Hrun in H. destruct H as [_ [Hok Hc Hv]].
  split; [|done|done]. destruct Hok. split; auto. by left.
Qed.

Lemma exclusive_collection_isolated_witness :
  (demo_id, DPS_TRANSLOCK_S) ∉ @nil (dpsTransLockId * DPS_TRANSLOCK_TYPE).
Proof.
  apply (exclusive_collection_isolated True demo_world demo_cl_locked 1 2
    [(demo_cl, DPS_TRANSLOCK_X)] [] demo_cl demo_id DPS_TRANSLOCK_S).
  - reflexivity.
  - apply (steps_exec (tryX 1 demo_cl)), (steps_tryFamily DPS_TRANSLOCK_X).
  - apply demo_cl_locked_bag.
  - apply quiet_represents; [apply (other_lockMode 2 1 ltac:(lia) DPS_TRANSLOCK_X)|].
    apply demo_fresh; by right.
  - discriminate.
  - by left.
  - by right; left.
Defined.
