(* ===== verification/TransLockNoWait.v ===== *)
(** * Blocking operations that need not wait

    The blocking operations differ from the non-blocking ones in the bucket
    entry they use and in the wait lock they publish meanwhile.  Where the
    non-blocking operation succeeds, the blocking one returns the same way and
    leaves the same state up to the published wait locks. *)

From stdpp Require Import base gmap list sorting.
From Stdlib Require Import ZArith Lia.
From S2P Require Import Prelude.
From S2P Require Import TransLockDef.
From S2P Require Import TransLockBucket.
From S2P Require Import TransLock.
From S2P Require Import TransLockSafety.
From S2P Require Import TransLockBag.

Open Scope Z_scope.

(** ** Equality up to published wait locks *)

Definition strip (cb : pmdEDUCB) : gmap dpsTransLockId dpsTransCBLockInfo * list pmdEDUEvent :=
  (_transLockLst cb, _queue cb).

Record same_but_wait (w1 w2 : world) : Prop := {
  sbw_buckets : _bucketLst w1 = _bucketLst w2;
  sbw_allocs : allocs w1 = allocs w2;
  sbw_edus : forall t, strip <$> edus w1 !! t = strip <$> edus w2 !! t
}.

Create HintDb nowait.

Section no_wait.
(** The thread that runs, which exists. *)
Context (me : Z).

Definition close (w1 w2 : world) : Prop := same_but_wait w1 w2 /\ is_Some (edus w1 !! me).

Lemma sbw_edu w1 w2 t cb2 : close w1 w2 -> edus w2 !! t = Some cb2 ->
  exists cb1, edus w1 !! t = Some cb1 /\ _transLockLst cb1 = _transLockLst cb2 /\ _queue cb1 = _queue cb2.
Proof.
  intros Hs H2. pose proof (sbw_edus _ _ (proj1 Hs) t) as E. rewrite H2 in E.
  destruct (edus w1 !! t) as [cb1|]; [|discriminate]. simpl in E. injection E as E1 E2. by exists cb1.
Qed.

Lemma sbw_store w1 w2 t cb1 cb2 : close w1 w2 -> strip cb1 = strip cb2 ->
  close (set_edus w1 (<[t := cb1]> (edus w1))) (set_edus w2 (<[t := cb2]> (edus w2))).
Proof.
  intros [[H1 H2 H3] Ha] E. split; [split; [done|done|]; intros t'|]; simpl.
  - destruct (decide (t = t')) as [->|]; [by rewrite !lookup_insert_eq; simpl; f_equal|].
    by rewrite !lookup_insert_ne.
  - destruct (decide (t = me)) as [->|]; [by rewrite lookup_insert_eq|by rewrite lookup_insert_ne].
Qed.

(** ** Matching computations *)

(** When [m2] returns a value in [P], so does [m1], from and to states that
    differ in published wait locks only. *)
Definition matches {A} (P : A -> Prop) (m1 m2 : lockM A) : Prop := forall e w1 w2 v e' w2',
  close w1 w2 -> m2 e w2 = Done v e' w2' -> P v ->
  exists w1', m1 e w1 = Done v e' w1' /\ close w1' w2'.

Abbreviation anything := (fun _ => True).
Abbreviation granted := (fun rc => rc = SDB_OK).

Lemma bind_done {A B} (m : lockM A) (k : A -> lockM B) e w v e' w' :
  (m ≫= k) e w = Done v e' w' -> exists a e1 w1, m e w = Done a e1 w1 /\ k a e1 w1 = Done v e' w'.
Proof. unfold mbind, lockM_bind. destruct (m e w) as [a e1 w1| |]; [eauto|done|done]. Qed.

Lemma done_bind {A B} (m : lockM A) (k : A -> lockM B) e w a e1 w1 :
  m e w = Done a e1 w1 -> (m ≫= k) e w = k a e1 w1.
Proof. unfold mbind, lockM_bind. by intros ->. Qed.

Lemma matches_ret {A} (P : A -> Prop) v : matches P (mret v) (mret v).
Proof. intros e w1 w2 v' e' w2' Hs [= <- <- <-] _. by exists w1. Qed.

Lemma matches_bind {A B} (P : B -> Prop) (m1 m2 : lockM A) (k1 k2 : A -> lockM B) :
  matches anything m1 m2 -> (forall a, matches P (k1 a) (k2 a)) -> matches P (m1 ≫= k1) (m2 ≫= k2).
Proof.
  intros Hm Hk e w1 w2 v e' w2' Hs (a & e1 & w3 & H2 & Hk2)%bind_done HP.
  destruct (Hm _ _ _ _ _ _ Hs H2 I) as (w4 & H1 & Hs'). rewrite (done_bind _ _ _ _ _ _ _ H1).
  by eapply Hk.
Qed.

(** After a step whose failure is the failure of the whole. *)
Lemma matches_bind_granted (m1 m2 : lockM Z) (k1 k2 : Z -> lockM Z) :
  matches granted m1 m2 -> matches granted (k1 SDB_OK) (k2 SDB_OK) ->
  (forall rc e w v e' w', rc <> SDB_OK -> k2 rc e w = Done v e' w' -> v <> SDB_OK) ->
  matches granted (m1 ≫= k1) (m2 ≫= k2).
Proof.
  intros Hm Hk Hf e w1 w2 v e' w2' Hs (rc & e1 & w3 & H2 & Hk2)%bind_done HP.
  destruct (decide (rc = SDB_OK)) as [->|Hne]; [|by destruct (Hf rc _ _ _ _ _ Hne Hk2)].
  destruct (Hm _ _ _ _ _ _ Hs H2 eq_refl) as (w4 & H1 & Hs').
  rewrite (done_bind _ _ _ _ _ _ _ H1). by eapply Hk.
Qed.

(** A computation that reads and writes the session of a thread. *)
Lemma matches_edu {A} (P : A -> Prop) tid (k : pmdEDUCB -> lockM A) :
  (forall cb1 cb2, _transLockLst cb1 = _transLockLst cb2 -> _queue cb1 = _queue cb2 ->
     matches P (k cb1) (k cb2)) ->
  matches P (cb ← deref_edu tid; k cb) (cb ← deref_edu tid; k cb).
Proof.
  intros Hk e w1 w2 v e' w2' Hs H2 HP. unfold mbind, lockM_bind, deref_edu in *.
  destruct (edus w2 !! tid) as [cb2|] eqn:E2; [|done].
  destruct (sbw_edu _ _ _ _ Hs E2) as (cb1 & -> & El & Eq). by eapply Hk.
Qed.

Lemma matches_store P tid cb1 cb2 : strip cb1 = strip cb2 ->
  matches P (store_edu tid cb1) (store_edu tid cb2).
Proof.
  intros E e w1 w2 v e' w2' Hs [= <- <- <-] _. eexists. split; [done|]. by apply sbw_store.
Qed.

Lemma matches_crash {A} (P : A -> Prop) m : matches P m crash.
Proof. intros e w1 w2 v e' w2' _ [=]. Qed.

Lemma matches_getTransLock P tid l : matches P (getTransLock tid l) (getTransLock tid l).
Proof. apply matches_edu. intros cb1 cb2 -> _. apply matches_ret. Qed.

Lemma matches_update_info P tid l f : matches P (update_info tid l f) (update_info tid l f).
Proof.
  apply matches_edu. intros cb1 cb2 E1 E2. rewrite E1.
  destruct (_transLockLst cb2 !! l); [|apply matches_crash].
  apply matches_store. unfold strip, set_locks. simpl. by rewrite E2.
Qed.

Lemma matches_new P : matches P sdb_oss_new sdb_oss_new.
Proof.
  intros e w1 w2 v e' w2' [[H1 H2 H3] Ha] Hn _. unfold sdb_oss_new in *. rewrite H2.
  destruct (allocs w2) eqn:E; injection Hn as <- <- <-; eexists; (split; [done|]); (split; [split; simpl; congruence || done|done]).
Qed.

Lemma matches_addLockInfo P tid l t : matches P (addLockInfo tid l t) (addLockInfo tid l t).
Proof.
  apply matches_bind; [apply matches_new|]. intros [|]; [|apply matches_ret].
  apply matches_edu. intros cb1 cb2 E1 E2. apply matches_store.
  unfold strip, set_locks. simpl. by rewrite E1, E2.
Qed.

Lemma matches_find_unit P b l : matches P (find_unit b l) (find_unit b l).
Proof.
  intros e w1 w2 v e' w2' Hs H2 _. unfold find_unit in *. rewrite (sbw_buckets _ _ (proj1 Hs)).
  destruct (_bucketLst w2 !! b); [|done]. injection H2 as <- <- <-. by exists w1.
Qed.

Lemma matches_upd P b f : matches P (upd_lockLst b f) (upd_lockLst b f).
Proof.
  intros e w1 w2 v e' w2' [[H1 H2 H3] Ha] Hu _. unfold upd_lockLst in *. rewrite H1.
  destruct (_bucketLst w2 !! b); [|done]. injection Hu as <- <- <-. eexists. split; [done|]. split; [|done].
  split; simpl; congruence || done.
Qed.

Lemma matches_getBucket P l : matches P (getBucket l) (getBucket l).
Proof.
  intros e w1 w2 v e' w2' Hs H2 _. unfold getBucket in *. destruct (negb _); [done|].
  unfold mbind, lockM_bind, get_world, put_world, sdb_oss_new, mret, lockM_ret in *.
  pose proof Hs as [[H1 Ha H3] Hme]. rewrite H1.
  destruct (_bucketLst w2 !! getBucketNo l); [injection H2 as <- <- <-; by exists w1|].
  cbn beta in *. rewrite Ha.
  destruct (allocs w2) as [|[|] bs] eqn:E; simpl in *; injection H2 as <- <- <-; eexists;
    (split; [done|]); (split; [split; simpl; congruence || done|done]).
Qed.

#[local] Hint Resolve matches_ret matches_crash matches_getTransLock matches_update_info
  matches_new matches_addLockInfo matches_find_unit matches_upd matches_getBucket : nowait.

Lemma matches_find_or_new P b l : matches P (find_or_new_unit b l) (find_or_new_unit b l).
Proof.
  apply matches_bind; [eauto with nowait|]. intros [u|]; [eauto with nowait|].
  apply matches_bind; [eauto with nowait|]. intros [|]; [|eauto with nowait].
  apply matches_bind; [apply matches_upd|eauto with nowait].
Qed.

Lemma matches_appendToRun P tid t b l : matches P (appendToRun tid t b l) (appendToRun tid t b l).
Proof.
  apply matches_bind.
  - apply matches_bind; [eauto with nowait|]. intros [u|]; eauto with nowait.
  - intros u. destruct (negb _); [eauto with nowait|].
    apply matches_bind; [apply matches_upd|eauto with nowait].
Qed.
#[local] Hint Resolve matches_find_or_new matches_appendToRun : nowait.

(** ** The bucket *)

Lemma matches_entry head tid l t b :
  matches granted
    (r ← enter_section head tid l t b;
     match r with Some rc => mret rc | None => waitretry tid t b l end)
    (lockBucket_tryAcquire tid l t b).
Proof.
  intros e w1 w2 v e' w2' Hs (ok & e1 & w3 & Hf & Hrun)%bind_done HP.
  destruct (matches_find_or_new anything _ _ _ _ _ _ _ _ Hs Hf I) as (w4 & Hf1 & Hs1).
  destruct ok; simpl in Hrun; [|injection Hrun as <- <- <-; discriminate].
  destruct (matches_appendToRun anything _ _ _ _ _ _ _ _ _ _ Hs1 Hrun I) as (w5 & Hr1 & Hs2).
  exists w5. split; [|done]. subst v. unfold enter_section.
  rewrite (done_bind _ _ _ _ (Some SDB_OK) e' w5); [done|].
  rewrite (done_bind _ _ _ _ _ _ _ Hf1). cbn [negb]. by rewrite (done_bind _ _ _ _ _ _ _ Hr1).
Qed.

(** ** The families *)

Lemma matches_publish l : matches anything (setWaitLock me l) (mret tt).
Proof.
  intros e w1 w2 v e' w2' [[H1 H2 H3] [cb Hcb]] [= <- <- <-] _.
  unfold setWaitLock, mbind, lockM_bind, deref_edu, store_edu. rewrite Hcb. eexists.
  split; [done|]. split; [split; [done|done|]; intros t|]; simpl.
  - rewrite <- H3. destruct (decide (me = t)) as [->|]; [|by rewrite lookup_insert_ne].
    by rewrite lookup_insert_eq, Hcb.
  - by rewrite lookup_insert_eq.
Qed.

Lemma matches_upgradeWith l i t :
  matches granted (@upgradeWith blockingOps me l i t) (@upgradeWith tryOps me l i t).
Proof.
  unfold upgradeWith. destruct (negb _); [apply matches_ret|].
  apply matches_bind; [eauto with nowait|]. intros [rc b]. simpl. destruct (negb _); [apply matches_ret|].
  apply matches_bind; [apply matches_update_info|]. intros [].
  apply matches_bind_granted; [apply matches_entry|apply matches_ret|].
  intros rc' e w v e' w' Hne. destruct (Z.eqb_spec rc' SDB_OK); [done|]. simpl.
  intros (? & ? & ? & _ & [= <- _ _])%bind_done. done.
Qed.

Lemma matches_acquireNew l t :
  matches granted (@acquireNew blockingOps me l t) (@acquireNew tryOps me l t).
Proof.
  unfold acquireNew. apply matches_bind; [eauto with nowait|]. intros [rc b]. simpl.
  destruct (negb _); [apply matches_ret|].
  apply matches_bind; [apply matches_publish|]. intros [].
  apply matches_bind; [eauto with nowait|]. intros [].
  apply matches_bind_granted; [apply matches_entry| |].
  - apply matches_bind; [apply matches_publish|]. intros []. apply matches_ret.
  - intros rc' e w v e' w' Hne (? & ? & ? & _ & Hk)%bind_done.
    destruct (Z.eqb_spec rc' SDB_OK); [done|]. simpl in Hk.
    apply bind_done in Hk as (? & ? & ? & _ & [= <- _ _]). done.
Qed.

Lemma matches_takeOrUpgrade l t :
  matches granted (@takeOrUpgrade blockingOps me l t) (@takeOrUpgrade tryOps me l t).
Proof.
  apply matches_bind; [eauto with nowait|]. intros [i|]; [|apply matches_acquireNew].
  destruct (isLockMatch i t).
  - apply matches_bind; [apply matches_update_info|intros; apply matches_ret].
  - apply matches_bind_granted; [apply matches_upgradeWith| |].
    + apply matches_bind; [apply matches_update_info|intros; apply matches_ret].
    + intros rc e w v e' w' Hne. destruct (Z.eqb_spec rc SDB_OK); [done|]. by intros [= <- _ _].
Qed.

Lemma matches_takeIS l : matches granted (@takeIS blockingOps me l) (@takeIS tryOps me l).
Proof.
  apply matches_bind; [eauto with nowait|]. intros [i|]; [|apply matches_acquireNew].
  apply matches_bind; [apply matches_update_info|intros; apply matches_ret].
Qed.

Lemma matches_withIntention l i intention intention' body body' :
  matches granted intention intention' -> matches granted body body' ->
  matches granted (withIntention me l i intention body) (withIntention me l i intention' body').
Proof.
  intros Hi Hb. unfold withIntention. destruct (hasCollection l); [|done].
  apply matches_bind_granted; [done| |].
  - apply matches_bind_granted; [done|apply matches_ret|].
    intros rc e w v e' w' Hne. destruct (Z.eqb_spec rc SDB_OK); [done|]. simpl.
    intros (? & ? & ? & _ & [= <- _ _])%bind_done. done.
  - intros rc e w v e' w' Hne. destruct (Z.eqb_spec rc SDB_OK); [done|]. by intros [= <- _ _].
Qed.

Lemma matches_lockIS l : matches granted (@lockIS blockingOps me l) (@lockIS tryOps me l).
Proof. apply matches_withIntention; apply matches_takeIS. Qed.

Lemma matches_family m l : matches granted (acquireFamily m me l) (tryFamily m me l).
Proof.
  destruct m; [apply matches_lockIS|..]; apply matches_withIntention;
    auto using matches_lockIS, matches_takeOrUpgrade.
  apply matches_withIntention; auto using matches_lockIS, matches_takeOrUpgrade.
Qed.
End no_wait.

(** C28: Where a non-blocking operation (tryIS, tryIX, tryS, tryX) succeeds, the
    blocking one (acquireIS, acquireIX, acquireS, acquireX) returns [SDB_OK]
    without waiting and leaves the same locks, lock lists and event queues;
    only the published wait lock may differ. *)
Theorem acquire_returns_where_try_succeeds tid l m e w e' w' :
  is_Some (edus w !! tid) -> tryFamily m tid l e w = Done SDB_OK e' w' ->
  exists w'', acquireFamily m tid l e w = Done SDB_OK e' w'' /\ same_but_wait w'' w'.
Proof.
  intros Ha Ht. destruct (matches_family tid m l e w w SDB_OK e' w') as (w'' & H1 & H2 & _);
    [by split|done|done|]. by exists w''.
Qed.

Lemma acquire_returns_where_try_succeeds_witness :
  exists w'', acquireX 1 demo_id [] demo_world = Done SDB_OK [] w'' /\
    same_but_wait w'' demo_locked.
Proof.
  apply (acquire_returns_where_try_succeeds 1 demo_id DPS_TRANSLOCK_X [] demo_world [] demo_locked).
  - vm_compute. eexists. reflexivity.
  - vm_compute. reflexivity.
Defined.
