(* ===== verification/DpsTransLock.v ===== *)
(** * Locks of transactions

    The functions of [dps/dpsTransCB.cpp] that take and give back the locks
    of a session, over the lock manager of [TransLock], and the lock manager
    as the locks that the transactions of [RtnTrans] use. *)

From stdpp Require Import base gmap list option.
From Stdlib Require Import ZArith Lia.
From S2P Require Import Prelude TransLockDef TransLockBucket TransLock TransLockSafety TransLockState TransLockSession TransLockBag.
From S2P Require Import DpsLsn Mem DpsRecord DpsOp2Record DpsOp2Thms DpsTrans DpsTransFacts DpsTransView RtnTrans RtnTransRun RtnTransInv RtnTransThms.

Open Scope Z_scope.

(** ** The functions *)

Section calls.
Context (cb : dpsTransCB) (eduCB logicCSID collectionID : Z).

(** Nothing is locked when transactions are off. *)
Definition when_on {A} (off : A) (m : lockM A) : lockM A := if negb (_isOn cb) then mret off else m.

Definition transLockGetX (recordID : option (Z * Z)) : lockM Z :=
  when_on SDB_OK (acquireX eduCB (lockId_make logicCSID collectionID recordID)).
Definition transLockGetS (recordID : option (Z * Z)) : lockM Z :=
  when_on SDB_OK (acquireS eduCB (lockId_make logicCSID collectionID recordID)).
Definition transLockGetIX : lockM Z := when_on SDB_OK (acquireIX eduCB (lockId_make logicCSID collectionID None)).
Definition transLockGetIS : lockM Z := when_on SDB_OK (acquireIS eduCB (lockId_make logicCSID collectionID None)).
Definition transLockRelease (recordID : option (Z * Z)) : lockM unit :=
  when_on tt (release eduCB (lockId_make logicCSID collectionID recordID)).
Definition transLockTestS (recordID : option (Z * Z)) : lockM Z :=
  when_on SDB_OK (testS eduCB (lockId_make logicCSID collectionID recordID)).
Definition transLockTestX (recordID : option (Z * Z)) : lockM Z :=
  when_on SDB_OK (testX eduCB (lockId_make logicCSID collectionID recordID)).
Definition transLockTryX (recordID : option (Z * Z)) : lockM Z :=
  when_on SDB_OK (tryX eduCB (lockId_make logicCSID collectionID recordID)).
Definition transLockTryS (recordID : option (Z * Z)) : lockM Z :=
  when_on SDB_OK (tryS eduCB (lockId_make logicCSID collectionID recordID)).
Definition transCB_tryOrAppendX (recordID : option (Z * Z)) : lockM Z :=
  when_on SDB_OK (tryOrAppendX eduCB (lockId_make logicCSID collectionID recordID)).
Definition transCB_waitLock (recordID : option (Z * Z)) : lockM Z :=
  when_on SDB_OK (wait eduCB (lockId_make logicCSID collectionID recordID)).
Definition transCB_hasWait (recordID : option (Z * Z)) : lockM bool :=
  when_on false (hasWait (lockId_make logicCSID collectionID recordID)).
End calls.

(** ** The locks of sessions *)

#[export] Instance lockManager : TransLocks := {| locks := world; lk_releaseAll edu w := exec (releaseAll edu) w |}.

(** ** What the steps of transactions do to locks *)

Section effects.
Context {Locks : TransLocks}.
Context (woCompare : list Z -> list Z -> Z) (bson_valid : list Z -> bool) (node : nodeState).

(** The session whose transaction a step may end. *)
Definition ending (a : taction) : option Z :=
  match a with
  | ACommit edu _ | AStart edu | ARound edu _ | AEnd edu => Some edu
  | _ => None
  end.

(** The session of a step. *)
Definition actor (a : taction) : option Z :=
  match a with
  | ABegin edu | AChange edu _ _ | ACommit edu _ | AStart edu | ARound edu _ | AEnd edu => Some edu
  | AOther _ _ => None
  end.

(** The id of a session goes on: it is the same, it loses the tag of the
    first operation, it gets the tag of a rollback, or it is new. *)
Inductive keeps (x x' : session) : Prop :=
  | KeepsSame : _curTransID x' = _curTransID x -> keeps x x'
  | KeepsFirst : isFirstOp (_curTransID x) = true -> _curTransID x' = clearFirstOpTag (_curTransID x) -> keeps x x'
  | KeepsBack : _curTransID x' = getRollbackID (_curTransID x) -> keeps x x'
  | KeepsNew : ~ in_trans x -> keeps x x'.

Definition kept (n n' : tnode) : Prop := tn_locks n' = tn_locks n /\ forall t, keeps (ses n t) (ses n' t).

Inductive effect (n n' : tnode) (who : option Z) : Prop :=
  | EffKeep : kept n n' -> (forall edu, who = Some edu -> in_trans (ses n edu)) -> effect n n' who
  | EffEnd edu : who = Some edu -> tn_locks n' = lk_releaseAll edu (tn_locks n) -> ~ in_trans (ses n' edu) ->
      (forall t, t <> edu -> keeps (ses n t) (ses n' t)) -> effect n n' who.

Lemma kept_refl n : kept n n.
Proof. split; [done|]. intros t. by apply KeepsSame. Qed.

Lemma ses_insert n n' edu x : tn_sessions n' = <[edu := x]> (tn_sessions n) ->
  forall t, ses n' t = if decide (t = edu) then x else ses n t.
Proof.
  intros Hs t. unfold ses. rewrite Hs. case_decide as E; [subst; by rewrite lookup_insert_eq|by rewrite lookup_insert_ne].
Qed.

Lemma keep_one n n' edu x :
  tn_locks n' = tn_locks n -> tn_sessions n' = <[edu := x]> (tn_sessions n) -> keeps (ses n edu) x -> kept n n'.
Proof.
  intros Hl Hs Hx. split; [done|]. intros t. rewrite (ses_insert n n' edu x Hs). case_decide; [by subst|by apply KeepsSame].
Qed.

(** First a change of a session that leaves its id. *)
Lemma keep_after n n1 n2 edu x :
  tn_locks n1 = tn_locks n -> tn_sessions n1 = <[edu := x]> (tn_sessions n) -> _curTransID x = _curTransID (ses n edu) ->
  kept n1 n2 -> kept n n2.
Proof.
  intros Hl Hs Hx [H1 H2]. split; [congruence|]. intros t.
  assert (E : _curTransID (ses n1 t) = _curTransID (ses n t)) by (rewrite (ses_insert n n1 edu x Hs); case_decide; by subst).
  destruct (H2 t) as [K|K1 K2|K|K].
  - apply KeepsSame. congruence.
  - apply KeepsFirst; congruence.
  - apply KeepsBack. congruence.
  - apply KeepsNew. unfold in_trans in *. by rewrite <- E.
Qed.

(** Logging touches neither the locks nor other sessions. *)
Lemma buf_frame n r n' : buf_writeData node n r = Some n' -> tn_locks n' = tn_locks n /\ tn_sessions n' = tn_sessions n.
Proof.
  unfold buf_writeData. case_match; [|by intros [= <-]]. destruct (to_option _); [|done]. by intros [= <-].
Qed.

Lemma write_kept enabled edu n r n' : wrapper_writeData node enabled edu n r = Some n' -> kept n n'.
Proof.
  unfold wrapper_writeData. destruct (buf_writeData node n r) as [n1|] eqn:E; [|done]. apply buf_frame in E as [El Es].
  assert (Ex : forall t, ses n1 t = ses n t) by (intros; unfold ses; by rewrite Es).
  cbn [mbind option_bind]. rewrite Ex. case_match; intros [= <-].
  - eapply keep_one; [done|cbn; by rewrite Es|]. case_match; [by apply KeepsFirst|by apply KeepsSame].
  - split; [done|]. intros t. apply KeepsSame. by rewrite Ex.
Qed.

Lemma change_kept edu n d st rc n' : log_change woCompare bson_valid node edu n d st = Some (rc, n') -> kept n n'.
Proof.
  unfold log_change. destruct (DpsOp2Thms.encode _ _ _ _) as [[rc1 r]|]; [|done]. cbn [mbind option_bind].
  case_match; [intros [= _ <-]; apply kept_refl|]. destruct st as [rc2|st]; [intros [= _ <-]; apply kept_refl|].
  destruct (wrapper_writeData _ _ _ _ _) as [n1|] eqn:E; [|done].
  intros [= _ <-]. by eapply write_kept.
Qed.

Definition result_node (x : round_result) : tnode := match x with Again _ _ n => n | Stop _ _ n => n end.

Lemma undo_kept edu a rb record n x :
  undo_record woCompare bson_valid node edu a rb record n = Some x ->
  kept n (result_node x).
Proof.
  unfold undo_record. destruct (to_option _) as [pre|]; [|done]. cbn [mbind option_bind].
  set (n1 := set_ses _ _ _).
  assert (H : forall n2, kept n1 n2 -> kept n n2) by (intros n2; by eapply keep_after).
  destruct a as [rc|d st]; cbn [mbind option_bind].
  - repeat case_match; intros [= <-]; apply H, kept_refl.
  - destruct (log_change _ _ _ _ _ _ _) as [[rc n2]|] eqn:E; [|done]. cbn [mbind option_bind]. apply change_kept in E.
    repeat case_match; intros [= <-]; by apply H.
Qed.

Lemma round_kept edu a rb n x :
  rollback_round woCompare bson_valid node edu a rb n = Some x -> kept n (result_node x).
Proof.
  unfold rollback_round. destruct (log_search _ _) as [r|]; [|intros [= <-]; apply kept_refl].
  destruct (to_option _) as [i|]; [|done]. cbn [mbind option_bind]. destruct i as [id|]; [|intros [= <-]; apply kept_refl].
  case_match; [intros [= <-]; apply kept_refl|]. case_match; [intros [= <-]; split; [done|intros t; by apply KeepsSame]|].
  apply undo_kept.
Qed.

(** What follows [done] gives the locks back. *)
Lemma release_locks n edu : _isOn (tn_cb n) = true -> tn_locks (transLockReleaseAll n edu) = lk_releaseAll edu (tn_locks n).
Proof. intros H. unfold transLockReleaseAll. by rewrite H. Qed.

Lemma done_effect n n1 edu transID :
  kept n n1 -> _isOn (tn_cb (rollback_done edu transID n1)) = true -> effect n (rollback_done edu transID n1) (Some edu).
Proof.
  intros [H1 H2] Hon. rewrite (proj1 (done_frame _ _ _)) in Hon. apply (EffEnd _ _ _ edu); [done|..].
  - unfold rollback_done. cbn -[transLockReleaseAll lk_releaseAll]. rewrite release_locks by done. cbn. by rewrite H1.
  - rewrite done_ses, decide_True by done. by intros [].
  - intros t Ht. by rewrite done_ses, decide_False.
Qed.

Lemma begin_kept edu n rc n' : rtnTransBegin edu n = Some (rc, n') -> kept n n'.
Proof.
  unfold rtnTransBegin. repeat case_match; try (intros [= _ <-]; apply kept_refl).
  destruct (allocTransID _) as [[id cb]|]; [|done]. intros [= _ <-]. eapply keep_one; [done|done|].
  apply KeepsNew. unfold in_trans. lia.
Qed.

Lemma commit_effect edu prepared n rc n' :
  rtnTransCommit woCompare bson_valid node edu prepared n = Some (rc, n') -> _isOn (tn_cb n') = true -> effect n n' (Some edu).
Proof.
  unfold rtnTransCommit. destruct (_ || _) eqn:Hno.
  - intros [= _ <-] Hon. rewrite (proj1 (cb_release _ _)) in Hon. apply (EffEnd _ _ _ edu); [done|by rewrite release_locks|..].
    + rewrite ses_release, ses_set. by intros [].
    + intros t Ht. rewrite ses_release, ses_set_ne by done. by apply KeepsSame.
  - assert (Hin : forall edu', Some edu = Some edu' -> in_trans (ses n edu')).
    { intros ? [= <-]. unfold in_trans. lia. }
    destruct (DpsOp2Thms.encode _ _ _ _) as [[rc1 r]|]; [|done]. cbn [mbind option_bind].
    case_match; [intros [= _ <-] _; apply EffKeep; [apply kept_refl|done]|].
    destruct prepared as [rc2|st]; [intros [= _ <-] _; apply EffKeep; [apply kept_refl|done]|].
    destruct (wrapper_writeData _ _ _ _ _) as [n1|] eqn:E; [|done]. apply write_kept in E as [E1 E2]. cbn [mbind option_bind].
    intros [= _ <-] Hon. rewrite (proj1 (cb_release _ _)) in Hon. apply (EffEnd _ _ _ edu); [done|..].
    + rewrite release_locks by done. cbn. by rewrite E1.
    + rewrite ses_release, ses_set. by intros [].
    + intros t Ht. by rewrite ses_release, ses_set_ne.
Qed.

Lemma start_effect edu n rb n1 n' :
  rollback_start edu n = (rb, n1) -> _isOn (tn_cb n') = true ->
  n' = match rb with Some _ => n1 | None => rollback_done edu (_curTransID (ses n edu)) n1 end -> effect n n' (Some edu).
Proof.
  unfold rollback_start. destruct (_ || _) eqn:Hno; intros [= <- <-] Hon ->.
  - apply done_effect; [|done]. eapply keep_one; [done|done|by apply KeepsSame].
  - apply EffKeep; [|intros ? [= <-]; unfold in_trans; cbn [_curTransID setDoRollback] in Hno; apply orb_false_iff in Hno as [Hno _]; apply Z.eqb_neq in Hno; congruence]. set (x := setDoRollback (ses n edu) true). apply (keep_after n (set_ses n edu x) _ edu x); [done|done|done|].
    eapply keep_one; [done|done|].
    rewrite ses_set. by apply KeepsBack.
Qed.

(** A step either leaves the locks, or ends the transaction of its session
    and gives back all of its locks. *)
Lemma tstep_effect s a s' :
  (forall edu, is_Some (tr_rbs s !! edu) -> in_trans (ses (tr_node s) edu)) -> enabled s a = true ->
  tstep woCompare bson_valid node s a = Some s' -> _isOn (tn_cb (tr_node s')) = true -> effect (tr_node s) (tr_node s') (ending a).
Proof.
  intros Hrb Hen. unfold tstep. rewrite Hen. cbn [negb].
  destruct a as [edu|edu d st|op st|edu prepared|edu|edu a|edu]; cbn [ending].
  - destruct (rtnTransBegin _ _) as [[rc n]|] eqn:E; [|done]. intros [= <-] _. apply EffKeep; [by eapply begin_kept|done].
  - destruct (log_change _ _ _ _ _ _ _) as [[rc n]|] eqn:E; [|done]. intros [= <-] _. apply EffKeep; [by eapply change_kept|done].
  - destruct (DpsOp2Thms.encode _ _ _ _) as [[rc1 r]|]; [|done]. cbn [mbind option_bind].
    destruct (buf_writeData _ _ _) as [n|] eqn:E; [|done]. intros [= <-] _. apply EffKeep; [|done]. apply buf_frame in E as [E1 E2].
    split; [done|]. intros t. apply KeepsSame. unfold ses. cbn. by rewrite E2.
  - destruct (rtnTransCommit _ _ _ _ _ _) as [[rc n]|] eqn:E; [|done]. intros [= <-] Hon. by eapply commit_effect.
  - destruct (rollback_start edu (tr_node s)) as [rb n] eqn:E. intros Hs Hon.
    eapply start_effect; [exact E|exact Hon|]. destruct rb; by injection Hs as <-.
  - destruct (tr_rbs s !! edu) as [rb|] eqn:Erb; [|done]. cbn [mbind option_bind].
    destruct (rollback_round _ _ _ _ _ _ _) as [x|] eqn:E; [|done]. apply round_kept in E. cbn [mbind option_bind].
    destruct x as [rc rb' n|rc b n]; intros [= <-] Hon; [|by apply done_effect].
    apply EffKeep; [done|]. intros ? [= <-]. apply Hrb. by rewrite Erb.
  - destruct (tr_rbs s !! edu) as [rb|]; [|done]. cbn [mbind option_bind]. intros [= <-] Hon.
    apply done_effect; [apply kept_refl|done].
Qed.
End effects.

(** ** Sessions that lock *)

(** A step: a lock is tried in X or S, a request is given back, or a step of
    a transaction. *)
Inductive laction : Set :=
  | LTry (exclusive : bool) (edu logicCSID collectionID : Z) (recordID : option (Z * Z))
  | LRelease (edu logicCSID collectionID : Z) (recordID : option (Z * Z))
  | LTrans (a : taction).

Definition with_locks (s : trun) (w : world) : trun :=
  let n := tr_node s in mkTRun (mkTNode (tn_cb n) (tn_sessions n) w (tn_log n)) (tr_rbs s).

Section locking.
Context (woCompare : list Z -> list Z -> Z) (bson_valid : list Z -> bool) (node : nodeState).

(** The ledger after a step of a transaction: a step that runs and leaves its
    session without a transaction has ended it. *)
Definition settle (s : trun) (a : taction) (s' : trun) (bags : gmap Z bag) : gmap Z bag :=
  match ending a with
  | Some edu =>
      if enabled s a && (_curTransID (ses (tr_node s') edu) =? DPS_INVALID_TRANS_ID)
      then <[edu := []]> bags else bags
  | None => bags
  end.

(** The bags are what the sessions, in a transaction or not, were granted and
    have not given back since they last ended a transaction. *)
Definition lstep (s : trun) (bags : gmap Z bag) (a : laction) : option (trun * gmap Z bag) :=
  let n := tr_node s in
  match a with
  | LTry exclusive edu cs cl rid =>
      let m := if exclusive then DPS_TRANSLOCK_X else DPS_TRANSLOCK_S in
      match (if exclusive then transLockTryX else transLockTryS) (tn_cb n) edu cs cl rid [] (tn_locks n) with
      | Done rc _ w =>
          Some (with_locks s w, if rc =? SDB_OK then <[edu := (lockId_make cs cl rid, m) :: bag_of bags edu]> bags else bags)
      | _ => None
      end
  | LRelease edu cs cl rid =>
      match without (lockId_make cs cl rid) (bag_of bags edu) with
      | None => Some (s, bags)
      | Some b =>
          match transLockRelease (tn_cb n) edu cs cl rid [] (tn_locks n) with
          | Done _ _ w => Some (with_locks s w, <[edu := b]> bags)
          | _ => None
          end
      end
  | LTrans a =>
      s' ← tstep woCompare bson_valid node s a;
      Some (s', settle s a s' bags)
  end.

Fixpoint lrun_all (s : trun) (bags : gmap Z bag) (acts : list laction) : option (trun * gmap Z bag) :=
  match acts with
  | [] => Some (s, bags)
  | a :: acts' => '(s, bags) ← lstep s bags a; lrun_all s bags acts'
  end.
End locking.

(** ** The invariant *)

Section invariant.
Context (sessions : list Z) (nodeID : Z) (HnodeID : 0 <= nodeID < 2 ^ 16).

(** Every session holds its bag. *)
Record linv (s : trun) (vs : list tview) (o : opens) (bags : gmap Z bag) : Prop := {
  lv_run : tinv nodeID s vs o;
  lv_bag t : t ∈ sessions -> represents False (tn_locks (tr_node s)) t (bag_of bags t)
}.

(** A transaction that goes on. *)
Lemma keeps_in o cur x x' rb : cur < 2 ^ 40 -> ses_ok nodeID o cur x rb -> keeps x x' -> in_trans x -> in_trans x'.
Proof.
  intros Hc Hs Hk Hx. unfold in_trans in *. destruct Hk as [->|Hf ->| ->|]; [done| | |done].
  - destruct Hs as [E|k Hk E|k l st Hk E|k rb Hk E]; [done|..]; rewrite E in *;
      pose proof (tid_plain nodeID HnodeID k cur Hk Hc) as Hp.
    + rewrite first_cleared by done. destruct Hp. unfold DPS_INVALID_TRANS_ID. lia.
    + by rewrite plain_not_first in Hf.
    + unfold isFirstOp, getRollbackID in Hf. by rewrite Z.land_lor_distr_l, plain_land in Hf.
  - destruct Hs as [E|k Hk E|k l st Hk E|k rb Hk E]; [done|..]; rewrite E in *;
      pose proof (tid_plain nodeID HnodeID k cur Hk Hc) as Hp; unfold getRollbackID.
    + rewrite <- Z.lor_assoc. by apply tagged_nonzero.
    + by apply tagged_nonzero.
    + unfold getRollbackID. rewrite <- Z.lor_assoc. by apply tagged_nonzero.
Qed.

Lemma locks_tinv s vs o w : tinv nodeID s vs o -> tinv nodeID (with_locks s w) vs o.
Proof. intros [[H1 H2 H3 H4] H5 H6 H7 H8 H9]. constructor; [by constructor|exact H5|exact H6|exact H7|exact H8|exact H9]. Qed.

(** One session took or gave back a lock. *)
Lemma bag_step {A} s vs o bags (m : lockM A) edu r e w b :
  linv s vs o bags -> (forall t, t <> edu -> quiet t m) ->
  m [] (tn_locks (tr_node s)) = Done r e w -> represents False w edu b -> linv (with_locks s w) vs o (<[edu := b]> bags).
Proof.
  intros [H1 H2] Hq Em Hb. constructor; [by apply locks_tinv|].
  intros t Ht. rewrite bags_insert. by eapply (one_acts sessions m edu _ w).
Qed.

Lemma bag_same {A} s vs o bags (m : lockM A) edu r e w :
  linv s vs o bags -> (forall t, t <> edu -> quiet t m) ->
  m [] (tn_locks (tr_node s)) = Done r e w -> represents False w edu (bag_of bags edu) -> linv (with_locks s w) vs o bags.
Proof.
  intros [H1 H2] Hq Em Hb. constructor; [by apply locks_tinv|].
  intros t Ht. pose proof (one_acts sessions m edu _ w (bag_of bags edu) (bag_of bags) r e Hq Em Hb H2 t Ht) as H. case_decide; by subst.
Qed.

End invariant.

(** ** Every run *)

Section runs.
Context (woCompare : list Z -> list Z -> Z) (bson_valid : list Z -> bool) (node : nodeState) (Hprim : primary node).
Context (sessions : list Z) (nodeID : Z) (HnodeID : 0 <= nodeID < 2 ^ 16).

Definition laction_ok (a : laction) : Prop :=
  match a with
  | LTry _ edu cs cl rid | LRelease edu cs cl rid => edu ∈ sessions /\ wf_id (lockId_make cs cl rid)
  | LTrans a => replay_ok bson_valid a /\ forall edu, actor a = Some edu -> edu ∈ sessions
  end.

Abbreviation linv := (linv sessions nodeID).
Abbreviation cur s := (_TransIDL48Cur (tn_cb (tr_node s))).

Lemma linv_on s vs o bags : linv s vs o bags -> _isOn (tn_cb (tr_node s)) = true.
Proof. intros H. apply (li_on _ _ _ (ti_log _ _ _ _ (lv_run _ _ _ _ _ _ H))). Qed.

Lemma try_call cb (exclusive : bool) edu cs cl rid :
  _isOn cb = true ->
  (if exclusive then transLockTryX else transLockTryS) cb edu cs cl rid =
    @lockMode tryOps (if exclusive then DPS_TRANSLOCK_X else DPS_TRANSLOCK_S) edu (lockId_make cs cl rid).
Proof. intros Hon. destruct exclusive; unfold transLockTryX, transLockTryS, when_on; by rewrite Hon. Qed.

Lemma try_step s vs o bags exclusive edu cs cl rid :
  linv s vs o bags -> edu ∈ sessions -> wf_id (lockId_make cs cl rid) ->
  exists s' bags', lstep woCompare bson_valid node s bags (LTry exclusive edu cs cl rid) = Some (s', bags') /\
    linv s' vs o bags' /\ cur s' = cur s.
Proof.
  intros H He Hwf. cbn [lstep].
  rewrite try_call by by eapply linv_on. set (m := if exclusive then DPS_TRANSLOCK_X else DPS_TRANSLOCK_S).
  assert (Hw : wp False False (@lockMode tryOps m edu (lockId_make cs cl rid)) (fun rc e' w' => True /\ represents False w' edu
            (if rc =? SDB_OK then (lockId_make cs cl rid, m) :: bag_of bags edu else bag_of bags edu)) [] (tn_locks (tr_node s))).
  { apply (lockMode_represents False False (fun _ _ => True)); [by apply H|done| |done].
    intros _. unfold m. destruct exclusive; auto. }
  unfold wp in Hw. destruct (lockMode _ _ _ _ _) as [rc e w| |] eqn:Em; [|done..]. destruct Hw as [_ Hw].
  eexists _, _. split; [done|]. split; [|done].
  assert (Hq : forall t, t <> edu -> quiet t (@lockMode tryOps m edu (lockId_make cs cl rid))) by (intros; by apply other_lockMode).
  destruct (rc =? SDB_OK); [by eapply bag_step|by eapply bag_same].
Qed.

Lemma release_step s vs o bags edu cs cl rid :
  linv s vs o bags -> edu ∈ sessions ->
  exists s' bags', lstep woCompare bson_valid node s bags (LRelease edu cs cl rid) = Some (s', bags') /\
    linv s' vs o bags' /\ cur s' = cur s.
Proof.
  intros H He. cbn [lstep]. destruct (without _ _) as [b|] eqn:Eb; [|by eauto].
  unfold transLockRelease, when_on. rewrite (linv_on _ _ _ _ H). cbn [negb]. destruct (without_perm _ _ _ Eb) as [m Hm].
  pose proof (release_represents edu _ m _ b [] _ (lv_bag _ _ _ _ _ _ H edu He) Hm) as Hw.
  unfold wp in Hw. destruct (release _ _ _ _) as [[] e w| |] eqn:Em; [|done..]. destruct Hw as [-> Hw].
  eexists _, _. split; [done|]. split; [|done]. eapply bag_step; [done| |done|done]. intros t Ht. by apply other_release.
Qed.

Lemma end_release s vs o bags edu :
  linv s vs o bags -> edu ∈ sessions -> forall t, t ∈ sessions ->
  represents False (exec (releaseAll edu) (tn_locks (tr_node s))) t (if decide (t = edu) then [] else bag_of bags t).
Proof.
  intros H He. pose proof (releaseAll_represents edu _ [] _ (lv_bag _ _ _ _ _ _ H edu He)) as Hw. unfold wp in Hw.
  destruct (releaseAll _ _ _) as [[] e w| |] eqn:Em; [|done..]. destruct Hw as (-> & Hw & _).
  unfold exec. rewrite Em. eapply one_acts; [|exact Em|exact Hw|apply H]. intros t Ht. by apply other_releaseAll.
Qed.

(** A session that rolls back is in its transaction. *)
Lemma rb_in_trans o c x rb : c < 2 ^ 40 -> ses_ok nodeID o c x (Some rb) -> in_trans x.
Proof.
  intros Hc Hs. inversion Hs as [| | |k rb' Hk E]; subst. unfold in_trans. rewrite E. unfold getRollbackID.
  pose proof (tid_plain nodeID HnodeID k c Hk Hc) as Hp. by apply tagged_nonzero.
Qed.

(** A step of a transaction. *)
Lemma trans_step s vs o bags a :
  linv s vs o bags -> laction_ok (LTrans a) -> cur s + 1 < 2 ^ 40 ->
  exists s' bags' vs' o', lstep woCompare bson_valid node s bags (LTrans a) = Some (s', bags') /\
    linv s' (vs ++ vs') o' bags' /\ cur s' <= cur s + 1.
Proof.
  intros H [Ha Hact] Hc. pose proof (lv_run _ _ _ _ _ _ H) as Ht.
  destruct (tstep_ok woCompare bson_valid node Hprim nodeID HnodeID s vs o a Ht Ha Hc) as (s' & vs' & o' & E & Ht' & Hc').
  cbn [lstep]. rewrite E. cbn [mbind option_bind]. eexists _, _, vs', o'. split; [done|]. split; [|done].
  assert (Hrb : forall edu, is_Some (tr_rbs s !! edu) -> in_trans (ses (tr_node s) edu)).
  { intros edu [rb Erb]. pose proof (ti_ses _ _ _ _ Ht edu) as Hs. rewrite Erb in Hs. eapply rb_in_trans; [|exact Hs]. pose proof (ti_cur _ _ _ _ Ht); lia. }
  unfold settle. destruct (enabled s a) eqn:Hen; cbn [andb].
  2: { unfold tstep in E. rewrite Hen in E. injection E as <-. constructor; [done|].
       destruct (ending a); apply H. }
  pose proof (tstep_effect woCompare bson_valid node s a s' Hrb Hen E (li_on _ _ _ (ti_log _ _ _ _ Ht'))) as Heff.
  constructor; [done|]. intros t Hin. destruct Heff as [[El Hkeep] Hon|edu Eact El Hend Hkeep].
  - rewrite El. destruct (ending a) as [edu|]; [|by apply H].
    destruct (Z.eqb_spec (_curTransID (ses (tr_node s') edu)) DPS_INVALID_TRANS_ID) as [Hx|]; [|by apply H].
    exfalso. revert Hx. eapply (keeps_in nodeID HnodeID o (cur s)); [pose proof (ti_cur _ _ _ _ Ht); lia|apply Ht|apply Hkeep|by apply Hon].
  - rewrite El, Eact. rewrite (proj2 (Z.eqb_eq _ _)) by (by apply dec_stable). rewrite bags_insert. cbn [lk_releaseAll lockManager].
    apply (end_release s vs o bags edu H); [|done]. apply Hact. destruct a; try discriminate Eact; exact Eact.
Qed.

Lemma lrun_ok acts s vs o bags :
  linv s vs o bags -> Forall laction_ok acts -> cur s + Z.of_nat (length acts) < 2 ^ 40 ->
  exists s' bags' vs' o', lrun_all woCompare bson_valid node s bags acts = Some (s', bags') /\ linv s' vs' o' bags'.
Proof.
  revert s vs o bags. induction acts as [|a acts IH]; intros s vs o bags H Hacts Hc; [by exists s, bags, vs, o|].
  apply list.Forall_cons in Hacts as [Ha Hacts]. cbn [length] in Hc. cbn [lrun_all].
  assert (Hs : exists s' bags' vs' o', lstep woCompare bson_valid node s bags a = Some (s', bags') /\
                 linv s' (vs ++ vs') o' bags' /\ cur s' <= cur s + 1).
  { destruct a as [x edu cs cl rid|edu cs cl rid|a].
    - destruct (try_step s vs o bags x edu cs cl rid H) as (s' & bags' & E & H' & Hc'); [apply Ha..|].
      exists s', bags', [], o. rewrite app_nil_r. split_and!; [done|done|lia].
    - destruct (release_step s vs o bags edu cs cl rid H) as (s' & bags' & E & H' & Hc'); [apply Ha|].
      exists s', bags', [], o. rewrite app_nil_r. split_and!; [done|done|lia].
    - apply (trans_step s vs o bags a); [done|done|lia]. }
  destruct Hs as (s1 & bags1 & vs1 & o1 & -> & H1 & Hc1). cbn [mbind option_bind]. apply (IH s1 _ o1 bags1 H1 Hacts). lia.
Qed.
End runs.

(** C4: Locks are held to the end of transactions.  Take a primary with
    transactions on whose log has no unfinished transaction, sessions that
    hold nothing, and no failing allocation.
    Whatever the sessions do, interleaved in any way - begin, try locks in S or
    X inside or outside of a transaction, give requests back, change, commit
    with and without errors, roll back round by round with failing replays -
    every step returns, and a session holds exactly what it was granted and has
    not given back since it last ended a transaction: the steps of others,
    failed commits and the rounds of its own rollback take nothing from it, and
    a commit or rollback that ends leaves it without any lock, those taken
    outside of the transaction included. *)
Theorem locks_held_to_the_end woCompare bson_valid node nodeID (sessions : list Z) (w : world) (log : list dpsLogRecord)
    (acts : list laction) :
  primary node -> 0 <= nodeID < 2 ^ 16 -> (exists vs, Forall2 logged log vs /\ history vs ∅) ->
  Forall (laction_ok bson_valid sessions) acts -> 1 + Z.of_nat (length acts) < 2 ^ 40 ->
  (forall t, t ∈ sessions -> represents False w t []) ->
  exists s bags, lrun_all woCompare bson_valid node (term_start nodeID w log) ∅ acts = Some (s, bags) /\
    forall t, t ∈ sessions ->
      represents False (tn_locks (tr_node s)) t (bag_of bags t) /\
      (bag_of bags t = [] ->
       forall l, info (tn_locks (tr_node s)) t l = None /\ run (tn_locks (tr_node s)) t l = None).
Proof.
  intros Hp Hn (vs & Hl & Hh) Ha Hlen Hw.
  destruct (lrun_ok woCompare bson_valid node Hp sessions nodeID Hn acts (term_start (Locks := lockManager) nodeID w log) vs ∅ ∅) as (s & bags & vs' & o' & E & H);
    [|done|done|].
  - constructor; [by apply start_tinv|done].
  - exists s, bags. split; [done|]. intros t Ht. pose proof (lv_bag _ _ _ _ _ _ H t Ht) as Hr. split; [done|]. intros Hb l.
    rewrite Hb in Hr. destruct Hr as [Hok Hc _]. assert (Hi : info (tn_locks (tr_node s)) t l = None).
    { specialize (Hc l). unfold cnt in Hc. destruct (info _ t l) as [i|] eqn:Ei; [|done].
      pose proof (to_ref _ _ _ Hok l i Ei). cbn in Hc. lia. }
    split; [done|]. by rewrite (to_run _ _ _ Hok), Hi.
Qed.

(** Session 1 locks a record and fails to commit, so session 2, which has no
    transaction, is refused; session 1 rolls its only change back, and then
    session 2 gets the lock. *)
Definition sample_locks : list laction :=
  let r := Some (5, 64) in
  [LTry false 1 7 4 None; LTrans (ABegin 1); LTry true 1 7 3 r; LTrans (AChange 1 (Insert a_name an_obj) (inr (at_lsn 100)));
   LTry false 2 7 3 r; LTrans (ACommit 1 (inl SDB_SYS)); LTry true 2 7 3 r; LTrans (AStart 1);
   LTrans (ARound 1 (Failed SDB_SYS)); LTrans (ARound 1 (Undone (Delete a_name an_obj) (at_lsn 200))); LTry true 2 7 3 r;
   LTrans (AEnd 1); LTry true 2 7 3 r; LTry false 2 7 3 r; LRelease 2 7 3 r].

Lemma sample_locks_ok : Forall (laction_ok valid_all [1; 2]) sample_locks.
Proof.
  pose proof insert_ok as H1. pose proof delete_ok as H2.
  assert (Hw : wf_id (lockId_make 7 3 (Some (5, 64)))) by (by split; cbn).
  assert (Hw2 : wf_id (lockId_make 7 4 None)) by (by split; cbn).
  assert (E1 : 1 ∈ [1; 2]) by (vm_compute; set_solver). assert (E2 : 2 ∈ [1; 2]) by (vm_compute; set_solver).
  repeat (apply list.Forall_cons; split); try apply list.Forall_nil; cbn [laction_ok];
    try (split; assumption); (split; [by split|]); cbn [actor]; intros edu [= <-]; done.
Qed.

Lemma locks_held_to_the_end_witness :
  exists s bags, lrun_all same_all valid_all the_primary (term_start 7 demo_world []) ∅ sample_locks = Some (s, bags) /\
    represents False (tn_locks (tr_node s)) 2 [(lockId_make 7 3 (Some (5, 64)), DPS_TRANSLOCK_X)] /\
    info (tn_locks (tr_node s)) 1 (lockId_make 7 4 None) = None.
Proof.
  destruct (locks_held_to_the_end same_all valid_all the_primary 7 [1; 2] demo_world [] sample_locks) as (s & bags & E & H).
  - split; reflexivity.
  - lia.
  - exists []. split; constructor.
  - exact sample_locks_ok.
  - cbn. lia.
  - intros t Ht. apply demo_fresh. apply list.elem_of_cons in Ht as [->|Ht]; [by left|]. apply list_elem_of_singleton in Ht as ->. by right.
  - assert (Hc : match lrun_all same_all valid_all the_primary (term_start 7 demo_world []) ∅ sample_locks with
                 | Some (s, bags) => (bag_of bags 2, bag_of bags 1)
                 | None => ([], [])
                 end = ([(lockId_make 7 3 (Some (5, 64)), DPS_TRANSLOCK_X)], [])) by (vm_compute; reflexivity).
    rewrite E in Hc. apply pair_eq in Hc as [Hb Hid].
    exists s, bags. split; [exact E|]. split.
    + rewrite <- Hb. apply H. apply list_elem_of_further, list_elem_of_here.
    + apply H; [apply list_elem_of_here|exact Hid].
Defined.
