(* ===== verification/Sme.v ===== *)
(** * Space management: free pages of a storage unit

    Models [dms/dmsSMEMgr.cpp] ([_dmsSegmentSpace], [_dmsSMEMgr]) with the
    bitmap of [include/dmsStorageBase.hpp] ([_dmsSpaceManagementExtent]).
    Free runs are kept, as in the code, as 32-bit words with the start in the
    upper and the size in the lower half.  A segment operation runs under the
    segment's mutex, so each is one function from the state it can see (the
    segment, the bitmap and the two counters of the manager) to the state it
    leaves. *)

From stdpp Require Import base gmap list.
From Stdlib Require Import ZArith Lia.
From S2P Require Import Prelude.

Open Scope Z_scope.

(** ** Free-run words *)

Definition DMS_MAX_PG : Z := 128 * 1024 * 1024.

(** [DMS_INVALID_EXTENT] *)
Definition INVALID_PAGE : Z := -1.

Definition DMS_SEGMENT_NODE_GETSTART (x : Z) : Z := u16 (Z.shiftr x 16).
Definition DMS_SEGMENT_NODE_GETSIZE (x : Z) : Z := u16 (Z.land 65535 x).
Definition DMS_SEGMENT_NODE_SETSIZE (x y : Z) : Z := Z.lor (u16 y) (Z.land 4294901760 x).
Definition DMS_SEGMENT_NODE_SET (y z : Z) : Z :=
  Z.lor (u32 (Z.shiftl (u32 y) 16)) (Z.land 65535 z).

(** ** The bitmap

    [_smeMask] is an array of [DMS_MAX_PG / 8] bytes that starts as zeros; it
    is kept sparsely, an absent byte being zero. *)

Definition DMS_SME_FREE : Z := 0.
Definition DMS_SME_ALLOCATED : Z := 1.

Record dmsSpaceManagementExtent : Type := mkSME { _smeMask : gmap Z Z }.

Definition sme_byte (m : dmsSpaceManagementExtent) (i : Z) : Z := default 0 (_smeMask m !! i).

Definition getBitMask (m : dmsSpaceManagementExtent) (bitNum : Z) : Z :=
  Z.land (Z.shiftr (sme_byte m (Z.shiftr bitNum 3)) (7 - Z.land bitNum 7)) 1.

Definition freeBitMask (m : dmsSpaceManagementExtent) (bitNum : Z) : dmsSpaceManagementExtent :=
  let i := Z.shiftr bitNum 3 in
  mkSME (<[i := u8 (Z.land (sme_byte m i) (Z.lnot (Z.shiftl 1 (7 - Z.land bitNum 7))))]>
           (_smeMask m)).

Definition setBitMask (m : dmsSpaceManagementExtent) (bitNum : Z) : dmsSpaceManagementExtent :=
  let i := Z.shiftr bitNum 3 in
  mkSME (<[i := u8 (Z.lor (sme_byte m i) (Z.shiftl 1 (7 - Z.land bitNum 7)))]> (_smeMask m)).

(** The loops over [bitStart .. bitEnd - 1]. *)
Fixpoint setBits (n : nat) (bitStart : Z) (m : dmsSpaceManagementExtent)
  : dmsSpaceManagementExtent :=
  match n with
  | O => m
  | S n' => setBits n' (bitStart + 1) (setBitMask m bitStart)
  end.

Fixpoint freeBits (n : nat) (bitStart : Z) (m : dmsSpaceManagementExtent)
  : dmsSpaceManagementExtent :=
  match n with
  | O => m
  | S n' => freeBits n' (bitStart + 1) (freeBitMask m bitStart)
  end.

(** ** A segment *)

Record dmsSegmentSpace : Set := mkSegment {
  _freeSpaceList : list Z;   (* list<UINT32> *)
  _maxNode : Z;              (* UINT16 *)
  _startExtent : Z;          (* INT32 *)
  _totalSize : Z;            (* UINT16 *)
  _totalFree : Z             (* UINT16 *)
}.

(** The constructor. *)
Definition newSegment (startExtent maxNode : Z) : dmsSegmentSpace :=
  mkSegment [] 0 startExtent (u16 maxNode) 0.

(** [_resetMax] *)
Fixpoint resetMax (nodes : list Z) (maxNode : Z) : Z :=
  match nodes with
  | [] => maxNode
  | node :: rest =>
      let size := DMS_SEGMENT_NODE_GETSIZE node in
      resetMax rest (if maxNode <? size then size else maxNode)
  end.

(** The counters of the manager a segment operation updates. *)
Record smeCounters : Set := mkCounters {
  mgrTotalFree : Z;   (* UINT32, atomic *)
  _freePos : Z        (* UINT32, atomic *)
}.

Definition compareAndSwap (v compVal val : Z) : Z := if v =? compVal then val else v.
Definition swapLesserThan (v val : Z) : Z := if val <? v then val else v.

(** First fit: the page found, the size of its run, and the list without the
    pages taken. *)
Fixpoint take_pages (numPages : Z) (nodes : list Z) : option (Z * Z * list Z) :=
  match nodes with
  | [] => None
  | node :: rest =>
      let oldsize := DMS_SEGMENT_NODE_GETSIZE node in
      if numPages <=? oldsize then
        let foundPage := DMS_SEGMENT_NODE_GETSTART node in
        if DMS_SEGMENT_NODE_GETSIZE node =? numPages then Some (foundPage, oldsize, rest)
        else
          let newsize := u16 (oldsize - numPages) in
          Some (foundPage, oldsize, DMS_SEGMENT_NODE_SET (foundPage + numPages) newsize :: rest)
      else
        match take_pages numPages rest with
        | Some (foundPage, size, rest') => Some (foundPage, size, node :: rest')
        | None => None
        end
  end.

(** [_dmsSegmentSpace::reservePages]; the page is [None] where the code leaves
    [foundPage] alone. *)
Definition segment_reservePages (numPages pos : Z) (seg : dmsSegmentSpace)
  (sme : dmsSpaceManagementExtent) (c : smeCounters)
  : Z * option Z * dmsSegmentSpace * dmsSpaceManagementExtent * smeCounters :=
  let c := if 0 =? _totalFree seg
           then mkCounters (mgrTotalFree c) (compareAndSwap (_freePos c) pos (pos + 1))
           else c in
  if _maxNode seg <? numPages then (SDB_DMS_NOSPC, None, seg, sme, c)
  else
    match take_pages numPages (_freeSpaceList seg) with
    | None => (SDB_SYS, None, seg, sme, c)
    | Some (rela, oldsize, list') =>
        let foundPage := rela + _startExtent seg in
        let max' := if oldsize =? _maxNode seg then resetMax list' 0 else _maxNode seg in
        (SDB_OK, Some foundPage,
         mkSegment list' max' (_startExtent seg) (_totalSize seg)
                   (u16 (_totalFree seg - numPages)),
         setBits (Z.to_nat numPages) (u32 foundPage) sme,
         mkCounters (u32 (mgrTotalFree c - numPages)) (_freePos c))
    end.

(** The loop of [releasePages]: the nodes passed (last first, so [oldit] is
    their head), the node at [it1], the nodes after it, [newSize], [_maxNode];
    [None] is the overlap exit. *)
Fixpoint release_walk (relaStart numPages maxNode : Z) (passed nodes : list Z)
  : option (list Z * Z * list Z * Z * Z) :=
  let newnode := DMS_SEGMENT_NODE_SET relaStart numPages in
  let grow size := if maxNode <? size then size else maxNode in
  match nodes with
  | [] => Some (passed, newnode, [], numPages, grow numPages)
  | node :: rest =>
      let nodeStart := DMS_SEGMENT_NODE_GETSTART node in
      let nodeSize := DMS_SEGMENT_NODE_GETSIZE node in
      if relaStart <? nodeStart then
        if nodeStart <? relaStart + numPages then None
        else if relaStart + numPages =? nodeStart then
          let newSize := u16 (nodeSize + numPages) in
          Some (passed, DMS_SEGMENT_NODE_SET relaStart newSize, rest, newSize, grow newSize)
        else Some (passed, newnode, node :: rest, numPages, grow numPages)
      else if (relaStart =? nodeStart) || (relaStart <? nodeStart + nodeSize) then None
      else release_walk relaStart numPages maxNode (node :: passed) rest
  end.

(** The step after the loop: join with the previous node. *)
Definition release_join (relaStart : Z) (passed : list Z) (it1 : Z) (after : list Z)
  (newSize maxNode : Z) : Z * list Z * Z :=
  match passed with
  | [] => (SDB_OK, it1 :: after, maxNode)
  | prevNode :: passed' =>
      let prevStart := DMS_SEGMENT_NODE_GETSTART prevNode in
      let prevSize := DMS_SEGMENT_NODE_GETSIZE prevNode in
      if relaStart <? prevStart + prevSize then (SDB_SYS, rev passed ++ it1 :: after, maxNode)
      else if prevStart + prevSize =? relaStart then
        (SDB_OK,
         rev passed' ++ DMS_SEGMENT_NODE_SETSIZE prevNode (newSize + prevSize) :: after,
         if maxNode <? newSize + prevSize then u16 (newSize + prevSize) else maxNode)
      else (SDB_OK, rev passed ++ it1 :: after, maxNode)
  end.

(** What [releasePages] does to the free list: return code, list, [_maxNode]. *)
Definition release_list (start numPages : Z) (seg : dmsSegmentSpace) : Z * list Z * Z :=
  let relaStart := u16 (start - _startExtent seg) in
  let unchanged rc := (rc, _freeSpaceList seg, _maxNode seg) in
  if (start <? _startExtent seg) ||
     (_startExtent seg + _totalSize seg <? start + numPages) then unchanged SDB_SYS
  else if 0 =? numPages then unchanged SDB_OK
  else
    match _freeSpaceList seg with
    | [] => (SDB_OK, [DMS_SEGMENT_NODE_SET relaStart numPages], numPages)
    | nodes =>
        match release_walk relaStart numPages (_maxNode seg) [] nodes with
        | None => unchanged SDB_SYS
        | Some (passed, it1, after, newSize, max') =>
            release_join relaStart passed it1 after newSize max'
        end
    end.

(** [_dmsSegmentSpace::releasePages] *)
Definition segment_releasePages (start numPages : Z) (bitSet : bool) (seg : dmsSegmentSpace)
  (sme : dmsSpaceManagementExtent) (c : smeCounters)
  : Z * dmsSegmentSpace * dmsSpaceManagementExtent * smeCounters :=
  let '(rc, list', max') := release_list start numPages seg in
  let total' := if rc =? SDB_OK then u16 (_totalFree seg + numPages) else _totalFree seg in
  let seg' := mkSegment list' max' (_startExtent seg) (_totalSize seg) total' in
  if (rc =? SDB_OK) && bitSet then
    (rc, seg', freeBits (Z.to_nat numPages) (u32 start) sme,
     mkCounters (u32 (mgrTotalFree c + numPages)) (_freePos c))
  else (rc, seg', sme, c).

(** ** The manager *)

Record dmsSMEMgr : Type := mkSMEMgr {
  _segments : list dmsSegmentSpace;
  _pSME : dmsSpaceManagementExtent;
  _counters : smeCounters
}.

Definition newSMEMgr (sme : dmsSpaceManagementExtent) : dmsSMEMgr :=
  mkSMEMgr [] sme (mkCounters 0 0).

Section storage.
(** [segmentPages()] and [segmentPagesSquareRoot()] of the storage unit. *)
Context (segmentPages segmentPagesSqure : Z).

(** The loop of [init] over the pages: segments already closed, the segment
    being filled ([newspace]), whether the last page is in use, where the
    current free run began, and the free pages counted. *)
Record initState : Set := mkInit {
  is_done : list dmsSegmentSpace;
  is_newspace : option dmsSegmentSpace;
  is_inUse : bool;
  is_releaseBegin : Z;
  is_total : Z
}.

Definition init_segments (st : initState) : list dmsSegmentSpace :=
  is_done st ++ match is_newspace st with Some s => [s] | None => [] end.

(** [newspace->releasePages( releaseBegin, i - releaseBegin, FALSE )] and
    the count; a null [newspace] is not reached because page 0 opens one. *)
Definition init_release (i : Z) (sme : dmsSpaceManagementExtent) (st : initState)
  : Z * initState :=
  match is_newspace st with
  | None => (SDB_OK, st)
  | Some seg =>
      let numPages := u16 (i - is_releaseBegin st) in
      let '(rc, seg', _, _) :=
        segment_releasePages (is_releaseBegin st) numPages false seg sme (mkCounters 0 0) in
      (rc, mkInit (is_done st) (Some seg') (is_inUse st) (is_releaseBegin st)
             (if rc =? SDB_OK then u32 (is_total st + (i - is_releaseBegin st))
              else is_total st))
  end.

(** The segment boundary of [init]; [ok] is the outcome of [SDB_OSS_NEW]. *)
Definition init_boundary (i : Z) (ok : bool) (sme : dmsSpaceManagementExtent)
  (st : initState) : Z * initState :=
  let '(rc, st) :=
    match is_newspace st with
    | Some _ => if is_inUse st then (SDB_OK, st) else init_release i sme st
    | None => (SDB_OK, st)
    end in
  if negb (rc =? SDB_OK) then (rc, st)
  else if negb ok then (SDB_OOM, mkInit (init_segments st) None (is_inUse st)
                                   (is_releaseBegin st) (is_total st))
  else (SDB_OK, mkInit (init_segments st) (Some (newSegment i segmentPages))
                  false i (is_total st)).

(** The bitmap part of the loop body. *)
Definition init_page (i : Z) (sme : dmsSpaceManagementExtent) (st : initState)
  : Z * initState :=
  if negb (DMS_SME_FREE =? getBitMask sme i) && negb (is_inUse st) then
    let '(rc, st) := init_release i sme st in
    if negb (rc =? SDB_OK) then (rc, st)
    else (SDB_OK, mkInit (is_done st) (is_newspace st) true (is_releaseBegin st) (is_total st))
  else if (DMS_SME_FREE =? getBitMask sme i) && is_inUse st then
    (SDB_OK, mkInit (is_done st) (is_newspace st) false i (is_total st))
  else (SDB_OK, st).

Definition is_boundary (i : Z) : bool :=
  0 =? Z.land i (Z.shiftl 1 segmentPagesSqure - 1).

(** [n] pages from page [i]; [allocs i] is the outcome of the allocation at
    the boundary [i]. *)
Fixpoint init_loop (n : nat) (i : Z) (allocs : Z -> bool) (sme : dmsSpaceManagementExtent)
  (st : initState) : Z * initState :=
  match n with
  | O => (SDB_OK, st)
  | S n' =>
      let '(rc, st) := if is_boundary i then init_boundary i (allocs i) sme st
                       else (SDB_OK, st) in
      if negb (rc =? SDB_OK) then (rc, st)
      else
        let '(rc, st) := init_page i sme st in
        if negb (rc =? SDB_OK) then (rc, st)
        else init_loop n' (i + 1) allocs sme st
  end.

Definition smeMgr_init (pageNum : Z) (allocs : Z -> bool) (sme : dmsSpaceManagementExtent)
  : Z * dmsSMEMgr :=
  let '(rc, st) := init_loop (Z.to_nat pageNum) 0 allocs sme (mkInit [] None false 0 0) in
  let '(rc, st) :=
    if negb (rc =? SDB_OK) then (rc, st)
    else if (0 <? pageNum) && (DMS_SME_FREE =? getBitMask sme (pageNum - 1))
    then init_release pageNum sme st
    else (rc, st) in
  (rc, mkSMEMgr (init_segments st) sme (mkCounters (is_total st) 0)).

(** The loop of [_dmsSMEMgr::reservePages] from segment [pos], with the
    segments before it. *)
Fixpoint reserve_loop (numPages pos : Z) (before after : list dmsSegmentSpace)
  (sme : dmsSpaceManagementExtent) (c : smeCounters) : Z * option Z * dmsSMEMgr :=
  match after with
  | [] => (SDB_OK, Some INVALID_PAGE, mkSMEMgr before sme c)
  | seg :: rest =>
      let '(rc, found, seg', sme', c') := segment_reservePages numPages pos seg sme c in
      let m := mkSMEMgr (before ++ seg' :: rest) sme' c' in
      if rc =? SDB_OK then (SDB_OK, found, m)
      else if negb (rc =? SDB_DMS_NOSPC) then (rc, found, m)
      else reserve_loop numPages (pos + 1) (before ++ [seg']) rest sme' c'
  end.

(** [_dmsSMEMgr::reservePages] with no other thread inside; the result is
    the return code and [foundPage], [None] where it is left alone. *)
Definition reservePages (numPages : Z) (m : dmsSMEMgr) : Z * option Z * dmsSMEMgr :=
  let pos := Z.to_nat (_freePos (_counters m)) in
  reserve_loop numPages (_freePos (_counters m))
    (take pos (_segments m)) (drop pos (_segments m)) (_pSME m) (_counters m).

(** [_dmsSMEMgr::releasePages] *)
Definition releasePages (start numPages : Z) (m : dmsSMEMgr) : Z * dmsSMEMgr :=
  let segmentID := u32 (Z.shiftr start segmentPagesSqure) in
  match _segments m !! Z.to_nat segmentID with
  | None => (SDB_SYS, m)
  | Some seg =>
      let '(rc, seg', sme', c') :=
        segment_releasePages start numPages true seg (_pSME m) (_counters m) in
      let segs' := <[Z.to_nat segmentID := seg']> (_segments m) in
      if negb (rc =? SDB_OK) then (rc, mkSMEMgr segs' sme' c')
      else (SDB_OK, mkSMEMgr segs' sme'
                      (mkCounters (mgrTotalFree c') (swapLesserThan (_freePos c') segmentID)))
  end.

(** [_dmsSMEMgr::depositASegment]; [ok] is the outcome of [SDB_OSS_NEW]. *)
Definition depositASegment (start : Z) (ok : bool) (m : dmsSMEMgr) : Z * dmsSMEMgr :=
  let segmentID := u32 (Z.shiftr start segmentPagesSqure) in
  if negb (segmentID =? Z.of_nat (length (_segments m))) then (SDB_SYS, m)
  else if negb ok then (SDB_OOM, m)
  else
    let '(rc, seg, sme', c') :=
      segment_releasePages start (u16 segmentPages) false
        (newSegment start (u16 segmentPages)) (_pSME m) (_counters m) in
    let segs := _segments m ++ [seg] in
    if negb (rc =? SDB_OK) then (rc, mkSMEMgr segs sme' c')
    else (SDB_OK, mkSMEMgr segs sme'
                    (mkCounters (u32 (mgrTotalFree c' + u16 segmentPages)) (_freePos c'))).

Definition segmentNum (m : dmsSMEMgr) : Z := Z.of_nat (length (_segments m)).
Definition totalFree (m : dmsSMEMgr) : Z := mgrTotalFree (_counters m).
End storage.
