(* ===== verification/SmeFacts.v ===== *)
(** * Space management: the free list represents the bitmap

    The theorems about [Sme]: the packed free-run words and the bitmap obey
    the laws of runs and bits; under the segment invariant the free list is
    the normal form (sorted, disjoint, not adjacent) of the set of free pages
    that the bitmap records, and every operation of the segment and of the
    manager is the corresponding operation on that set. *)

From stdpp Require Import base gmap list.
From Stdlib Require Import ZArith Lia.
From S2P Require Import Prelude Sme.

Open Scope Z_scope.

(** ** The bitmap *)

Lemma getBitMask_testbit m i :
  getBitMask m i = Z.b2z (Z.testbit (sme_byte m (Z.shiftr i 3)) (7 - Z.land i 7)).
Proof.
  unfold getBitMask. change 1 with (Z.ones 1). rewrite Z.land_ones by lia.
  change (2 ^ 1) with 2. rewrite <-Z.bit0_mod, Z.shiftr_spec by lia.
  by rewrite Z.add_0_l.
Qed.

Lemma land7 i : Z.land i 7 = i mod 8.
Proof. change 7 with (Z.ones 3). by rewrite Z.land_ones by lia. Qed.

Lemma shiftr3 i : Z.shiftr i 3 = i / 8.
Proof. by rewrite Z.shiftr_div_pow2 by lia. Qed.

Lemma testbit_u8 x k : 0 <= k < 8 -> Z.testbit (u8 x) k = Z.testbit x k.
Proof. intros. unfold u8. apply Z.mod_pow2_bits_low. lia. Qed.

Lemma testbit_one k k' : 0 <= k -> 0 <= k' -> Z.testbit (Z.shiftl 1 k) k' = (k =? k').
Proof.
  intros. rewrite Z.shiftl_1_l. destruct (Z.eqb_spec k k') as [->|].
  - by apply Z.pow2_bits_true.
  - by apply Z.pow2_bits_false.
Qed.

(** Two pages share byte and bit only when they are the same page. *)
Lemma same_bit i j : i / 8 = j / 8 -> (7 - i mod 8 =? 7 - j mod 8) = (i =? j).
Proof.
  intros H. pose proof (Z.div_mod i 8). pose proof (Z.div_mod j 8).
  destruct (Z.eqb_spec i j); [subst; apply Z.eqb_refl|]. apply Z.eqb_neq. lia.
Qed.

Lemma getBitMask_write m i j (f : Z -> Z) :
  getBitMask (mkSME (<[Z.shiftr i 3 := f (sme_byte m (Z.shiftr i 3))]> (_smeMask m))) j
  = if Z.shiftr i 3 =? Z.shiftr j 3
    then Z.b2z (Z.testbit (f (sme_byte m (Z.shiftr j 3))) (7 - Z.land j 7))
    else getBitMask m j.
Proof.
  rewrite !getBitMask_testbit. unfold sme_byte at 1. simpl.
  destruct (Z.eqb_spec (Z.shiftr i 3) (Z.shiftr j 3)) as [->|Hne].
  - by rewrite lookup_insert_eq.
  - by rewrite lookup_insert_ne.
Qed.

Lemma get_setBitMask m i j :
  getBitMask (setBitMask m i) j = if i =? j then DMS_SME_ALLOCATED else getBitMask m j.
Proof.
  unfold setBitMask.
  rewrite (getBitMask_write m i j (fun b => u8 (Z.lor b (Z.shiftl 1 (7 - Z.land i 7))))).
  rewrite !land7, !shiftr3. pose proof (Z.mod_pos_bound i 8). pose proof (Z.mod_pos_bound j 8).
  destruct (Z.eqb_spec (i / 8) (j / 8)) as [He|Hne].
  - rewrite testbit_u8, Z.lor_spec, testbit_one, same_bit by (done || lia).
    destruct (i =? j); [by rewrite orb_true_r|]. rewrite orb_false_r.
    by rewrite getBitMask_testbit, land7, shiftr3.
  - destruct (Z.eqb_spec i j); [by subst|done].
Qed.

Lemma get_freeBitMask m i j :
  getBitMask (freeBitMask m i) j = if i =? j then DMS_SME_FREE else getBitMask m j.
Proof.
  unfold freeBitMask.
  rewrite (getBitMask_write m i j (fun b => u8 (Z.land b (Z.lnot (Z.shiftl 1 (7 - Z.land i 7)))))).
  rewrite !land7, !shiftr3. pose proof (Z.mod_pos_bound i 8). pose proof (Z.mod_pos_bound j 8).
  destruct (Z.eqb_spec (i / 8) (j / 8)) as [He|Hne].
  - rewrite testbit_u8, Z.land_spec, Z.lnot_spec, testbit_one, same_bit by (done || lia).
    destruct (i =? j); simpl; [by rewrite andb_false_r|]. rewrite andb_true_r.
    by rewrite getBitMask_testbit, land7, shiftr3.
  - destruct (Z.eqb_spec i j); [by subst|done].
Qed.

Lemma getBitMask_binary m i : getBitMask m i = DMS_SME_FREE \/ getBitMask m i = DMS_SME_ALLOCATED.
Proof. rewrite getBitMask_testbit. destruct (Z.testbit _ _); auto. Qed.

Definition in_run (s n p : Z) : bool := (s <=? p) && (p <? s + n).

Lemma in_run_spec s n p : in_run s n p = true <-> s <= p < s + n.
Proof. unfold in_run. rewrite andb_true_iff, Z.leb_le, Z.ltb_lt. done. Qed.

Lemma get_setBits n s m j :
  getBitMask (setBits n s m) j
  = if in_run s (Z.of_nat n) j then DMS_SME_ALLOCATED else getBitMask m j.
Proof.
  revert s m. induction n as [|n IH]; intros s m; simpl setBits.
  - unfold in_run. destruct (Z.leb_spec s j), (Z.ltb_spec j (s + Z.of_nat 0)); simpl; try done; lia.
  - rewrite IH, get_setBitMask. unfold in_run.
    destruct (Z.leb_spec (s + 1) j), (Z.ltb_spec j (s + 1 + Z.of_nat n)), (Z.leb_spec s j),
      (Z.ltb_spec j (s + Z.of_nat (S n))), (Z.eqb_spec s j); simpl; try done; lia.
Qed.

Lemma get_freeBits n s m j :
  getBitMask (freeBits n s m) j
  = if in_run s (Z.of_nat n) j then DMS_SME_FREE else getBitMask m j.
Proof.
  revert s m. induction n as [|n IH]; intros s m; simpl freeBits.
  - unfold in_run. destruct (Z.leb_spec s j), (Z.ltb_spec j (s + Z.of_nat 0)); simpl; try done; lia.
  - rewrite IH, get_freeBitMask. unfold in_run.
    destruct (Z.leb_spec (s + 1) j), (Z.ltb_spec j (s + 1 + Z.of_nat n)), (Z.leb_spec s j),
      (Z.ltb_spec j (s + Z.of_nat (S n))), (Z.eqb_spec s j); simpl; try done; lia.
Qed.

(** ** The packed words *)

Definition unpack (x : Z) : Z * Z := (DMS_SEGMENT_NODE_GETSTART x, DMS_SEGMENT_NODE_GETSIZE x).

Lemma getsize_mod x : DMS_SEGMENT_NODE_GETSIZE x = x mod 65536.
Proof.
  unfold DMS_SEGMENT_NODE_GETSIZE, u16. rewrite Z.land_comm. change 65535 with (Z.ones 16).
  rewrite Z.land_ones by lia. change (2 ^ 16) with 65536. by rewrite Z.mod_mod by lia.
Qed.

Lemma getstart_div x : DMS_SEGMENT_NODE_GETSTART x = (x / 65536) mod 65536.
Proof. unfold DMS_SEGMENT_NODE_GETSTART, u16. by rewrite Z.shiftr_div_pow2 by lia. Qed.

Lemma node_set_sum y z : 0 <= y < 65536 -> 0 <= z < 65536 ->
  DMS_SEGMENT_NODE_SET y z = y * 65536 + z.
Proof.
  intros Hy Hz. unfold DMS_SEGMENT_NODE_SET.
  rewrite (u32_small y), Z.shiftl_mul_pow2 by lia. change (2 ^ 16) with 65536.
  rewrite u32_small by lia. rewrite (Z.land_comm 65535). change 65535 with (Z.ones 16).
  rewrite Z.land_ones by lia. change (2 ^ 16) with 65536. rewrite (Z.mod_small z) by lia.
  rewrite Z.add_nocarry_lxor, Z.lxor_lor; [done|..];
    (apply Z.bits_inj'; intros k Hk; rewrite Z.land_spec, Z.bits_0;
     change 65536 with (2 ^ 16);
     destruct (Z.ltb_spec k 16);
       [rewrite Z.mul_pow2_bits_low by lia; done|
        rewrite <-(Z.mod_small z (2 ^ 16)) by lia; rewrite Z.mod_pow2_bits_high by lia;
        by rewrite andb_false_r]).
Qed.

Lemma unpack_set y z : 0 <= y < 65536 -> 0 <= z < 65536 ->
  unpack (DMS_SEGMENT_NODE_SET y z) = (y, z).
Proof.
  intros Hy Hz. unfold unpack. rewrite getstart_div, getsize_mod, node_set_sum by lia.
  rewrite Z.div_add_l, Z.div_small, Z.add_0_r, Z.mod_small by lia.
  f_equal. rewrite Z.add_comm, Z.mod_add by lia. by apply Z.mod_small.
Qed.

Lemma setsize_set x y : 0 <= x < 2 ^ 32 -> 0 <= y < 65536 ->
  DMS_SEGMENT_NODE_SETSIZE x y = DMS_SEGMENT_NODE_SET (DMS_SEGMENT_NODE_GETSTART x) y.
Proof.
  intros Hx Hy. unfold DMS_SEGMENT_NODE_SETSIZE, DMS_SEGMENT_NODE_SET, DMS_SEGMENT_NODE_GETSTART.
  rewrite (u16_small y) by lia. rewrite (Z.land_comm 65535).
  change 65535 with (Z.ones 16). rewrite Z.land_ones by lia.
  change (2 ^ 16) with 65536. rewrite (Z.mod_small y) by lia. rewrite Z.lor_comm. f_equal.
  rewrite Z.shiftr_div_pow2 by lia. change (2 ^ 16) with 65536.
  assert (Hq : 0 <= x / 65536 < 65536)
    by (split; [apply Z.div_pos; lia|apply Z.div_lt_upper_bound; lia]).
  rewrite u16_small, (u32_small (x / 65536)) by lia. rewrite Z.shiftl_mul_pow2 by lia.
  change (2 ^ 16) with 65536. rewrite u32_small by lia.
  apply Z.bits_inj'. intros k Hk. rewrite Z.land_spec.
  change (x / 65536 * 65536) with (x / 2 ^ 16 * 2 ^ 16).
  change 4294901760 with (Z.shiftl (Z.ones 16) 16).
  rewrite Z.shiftl_spec by lia.
  destruct (Z.ltb_spec k 16).
  - rewrite Z.mul_pow2_bits_low by lia. rewrite (Z.testbit_neg_r (Z.ones 16)) by lia. done.
  - rewrite Z.mul_pow2_bits, Z.div_pow2_bits by lia. rewrite Z.sub_add.
    destruct (Z.ltb_spec (k - 16) 16).
    + by rewrite Z.ones_spec_low by lia.
    + rewrite Z.ones_spec_high by lia. simpl.
      rewrite <-(Z.mod_small x (2 ^ 32)) by lia. by rewrite Z.mod_pow2_bits_high by lia.
Qed.

(** ** Lists of runs *)

Abbreviation runs := (list (Z * Z)).

(** Sorted, non-empty, disjoint and not adjacent runs within [lo, hi). *)
Fixpoint runs_ok (lo hi : Z) (l : runs) : Prop :=
  match l with
  | [] => True
  | (s, n) :: r => lo <= s /\ 1 <= n /\ s + n <= hi /\ runs_ok (s + n + 1) hi r
  end.

Fixpoint runs_free (l : runs) (p : Z) : bool :=
  match l with
  | [] => false
  | (s, n) :: r => in_run s n p || runs_free r p
  end.

Definition runs_sum (l : runs) : Z := foldr (fun r t => r.2 + t) 0 l.
Definition runs_max (l : runs) : Z := foldr (fun r t => Z.max r.2 t) 0 l.

Lemma runs_ok_weaken lo lo' hi l : lo' <= lo -> runs_ok lo hi l -> runs_ok lo' hi l.
Proof. destruct l as [|[s n] l]; simpl; [done|]. intros ? (? & ? & ? & ?). split_and!; auto; lia. Qed.

Lemma runs_free_bounds lo hi l p : runs_ok lo hi l -> runs_free l p = true -> lo <= p < hi.
Proof.
  revert lo. induction l as [|[s n] l IH]; intros lo; simpl; [done|].
  intros (? & ? & ? & Hok) [E%in_run_spec|E]%orb_true_iff; [lia|].
  apply (IH (s + n + 1)) in E; [lia|done].
Qed.

Lemma runs_sum_bound lo hi l : runs_ok lo hi l -> lo <= hi -> 0 <= runs_sum l <= hi - lo.
Proof.
  revert lo. induction l as [|[s n] l IH]; intros lo; simpl; [lia|].
  intros (? & ? & ? & Hok) Hle. destruct l as [|[s' n'] l]; [simpl; lia|].
  destruct Hok as (? & ? & ? & Hok).
  assert (Hok' : runs_ok (s + n) hi ((s', n') :: l)) by (simpl; split_and!; auto; lia).
  destruct (IH (s + n) Hok' ltac:(lia)) as [? Hs]. simpl in *. lia.
Qed.

(** The normal form is determined by the set of free pages. *)
Lemma runs_ok_unique lo hi l1 l2 :
  runs_ok lo hi l1 -> runs_ok lo hi l2 ->
  (forall p, runs_free l1 p = runs_free l2 p) -> l1 = l2.
Proof.
  revert lo l2. induction l1 as [|[s1 n1] l1 IH]; intros lo [|[s2 n2] l2]; simpl; [done|..].
  - intros _ (? & ? & ? & _) Hf. specialize (Hf s2). symmetry in Hf.
    assert (in_run s2 n2 s2 = true) as E by (apply in_run_spec; lia). by rewrite E in Hf.
  - intros (? & ? & ? & _) _ Hf. specialize (Hf s1).
    assert (in_run s1 n1 s1 = true) as E by (apply in_run_spec; lia). by rewrite E in Hf.
  - intros (? & ? & ? & Hok1) (? & ? & ? & Hok2) Hf.
    assert (Hin : forall s n l p, 1 <= n -> runs_ok (s + n + 1) hi l ->
      in_run s n p || runs_free l p = true -> s <= p).
    { intros s n l p Hn Hok [E%in_run_spec|E]%orb_true_iff; [lia|].
      apply (runs_free_bounds _ _ _ _ Hok) in E. lia. }
    assert (Hs : forall s n, 1 <= n -> in_run s n s = true) by (intros; apply in_run_spec; lia).
    assert (s1 = s2) as ->.
    { apply Z.le_antisymm.
      - apply (Hin s1 n1 l1); [done|done|]. rewrite Hf. rewrite Hs; [done|lia].
      - apply (Hin s2 n2 l2); [done|done|]. rewrite <-Hf. rewrite Hs; [done|lia]. }
    assert (Hend : forall n l n' l', runs_ok (s2 + n + 1) hi l -> runs_ok (s2 + n' + 1) hi l' ->
      1 <= n -> 1 <= n' ->
      (forall p, in_run s2 n p || runs_free l p = in_run s2 n' p || runs_free l' p) -> n <= n').
    { intros n l n' l' Ho Ho' Hn Hn' He. destruct (Z.le_gt_cases n n'); [done|].
      specialize (He (s2 + n')). assert (in_run s2 n (s2 + n') = true) as E by (apply in_run_spec; lia).
      rewrite E in He. simpl in He. symmetry in He.
      apply orb_true_iff in He as [He%in_run_spec|He]; [lia|].
      apply (runs_free_bounds _ _ _ _ Ho') in He. lia. }
    assert (n1 = n2) as -> by (apply Z.le_antisymm; eapply Hend; eauto).
    f_equal. apply (IH (s2 + n2 + 1)); auto. intros p. specialize (Hf p).
    destruct (in_run s2 n2 p) eqn:E; [|done]. apply in_run_spec in E.
    destruct (runs_free l1 p) eqn:E1; [apply (runs_free_bounds _ _ _ _ Hok1) in E1; lia|].
    destruct (runs_free l2 p) eqn:E2; [apply (runs_free_bounds _ _ _ _ Hok2) in E2; lia|]. done.
Qed.

(** *** Taking pages *)

Fixpoint runs_take (k : Z) (l : runs) : option (Z * Z * runs) :=
  match l with
  | [] => None
  | (s, n) :: r =>
      if k <=? n then Some (s, n, if n =? k then r else (s + k, n - k) :: r)
      else match runs_take k r with
           | Some (f, o, r') => Some (f, o, (s, n) :: r')
           | None => None
           end
  end.

Lemma runs_take_some lo hi k l f o l' :
  runs_ok lo hi l -> 1 <= k -> runs_take k l = Some (f, o, l') ->
  lo <= f /\ f + k <= hi /\ k <= o /\ runs_ok lo hi l' /\
  (forall p, in_run f k p = true -> runs_free l p = true) /\
  (forall p, runs_free l' p = runs_free l p && negb (in_run f k p)) /\
  runs_sum l' = runs_sum l - k /\ o <= runs_max l /\
  (o <> runs_max l -> runs_max l' = runs_max l).
Proof.
  revert lo l'. induction l as [|[s n] l IH]; intros lo l'; simpl; [done|].
  intros (Hlo & Hn & Hhi & Hok) Hk. destruct (Z.leb_spec k n) as [Hle|Hgt].
  - intros [= <- <- <-].
    assert (Hout : forall p, in_run s k p = true -> runs_free l p = false).
    { intros p E%in_run_spec. destruct (runs_free l p) eqn:E1; [|done].
      apply (runs_free_bounds _ _ _ _ Hok) in E1. lia. }
    assert (Hmax : 0 <= runs_max l) by (clear; induction l as [|[??] ? IHl]; simpl; lia).
    split_and!; try lia.
    + destruct (Z.eqb_spec n k); simpl; [eapply runs_ok_weaken; [|done]; lia|].
      split_and!; try lia. by replace (s + k + (n - k) + 1) with (s + n + 1) by lia.
    + intros p E%in_run_spec. apply orb_true_iff. left. apply in_run_spec. lia.
    + intros p. destruct (in_run s k p) eqn:E; simpl.
      * rewrite (andb_false_r (in_run s n p || runs_free l p)).
        destruct (Z.eqb_spec n k); simpl; [by apply Hout|]. rewrite Hout by done.
        rewrite orb_false_r. apply not_true_iff_false. rewrite in_run_spec.
        apply in_run_spec in E. lia.
      * rewrite andb_true_r. destruct (Z.eqb_spec n k) as [->|]; simpl; [by rewrite E|].
        f_equal. apply not_true_iff_false in E. rewrite in_run_spec in E.
        apply eq_true_iff_eq. rewrite !in_run_spec. lia.
    + destruct (Z.eqb_spec n k); simpl; lia.
    + intros Hne. destruct (Z.eqb_spec n k); simpl; lia.
  - destruct (runs_take k l) as [[[f' o'] r']|] eqn:Ht; [|done]. intros [= <- <- <-].
    destruct (IH (s + n + 1) r' Hok Hk eq_refl) as (H1 & H2 & H3 & H4 & H5 & H6 & H7 & H8 & H9).
    split_and!; simpl; try lia.
    + split_and!; auto.
    + intros p Hp. rewrite H5 by done. apply orb_true_r.
    + intros p. rewrite H6. destruct (in_run s n p) eqn:E; simpl; [|done].
      apply in_run_spec in E. symmetry. apply negb_true_iff, not_true_iff_false.
      rewrite in_run_spec. lia.
Qed.

Lemma runs_take_none k l : runs_take k l = None <-> Forall (fun r => r.2 < k) l.
Proof.
  induction l as [|[s n] l IH]; simpl; [by split|].
  rewrite Forall_cons. simpl. destruct (Z.leb_spec k n).
  - split; [done|]. lia.
  - destruct (runs_take k l) as [[[??]?]|]; split; try done.
    + intros [_ H']. by apply IH in H'.
    + intros _. split; [lia|by apply IH].
Qed.

Lemma runs_max_Forall l k : runs_max l < k <-> Forall (fun r => r.2 < k) l /\ 0 < k.
Proof.
  induction l as [|[s n] l IH]; simpl; [split; [done|tauto]|].
  rewrite Forall_cons. simpl. rewrite Z.max_lub_lt_iff, IH. tauto.
Qed.

(** *** Giving pages back

    The reference for the walk with its deferred join: the new list and the
    size of the run that holds the pages. *)
Fixpoint runs_give (s k : Z) (l : runs) : option (runs * Z) :=
  match l with
  | [] => Some ([(s, k)], k)
  | (a, n) :: r =>
      if s <? a then
        if a <? s + k then None
        else if s + k =? a then Some ((s, n + k) :: r, n + k)
        else Some ((s, k) :: (a, n) :: r, k)
      else if s <? a + n then None
      else match runs_give s k r with
           | None => None
           | Some (r', o) =>
               if a + n =? s then Some ((a, o + n) :: tail r', o + n)
               else Some ((a, n) :: r', o)
           end
  end.

Lemma runs_give_head lo hi s k l l' o :
  runs_ok lo hi l -> s < lo -> runs_give s k l = Some (l', o) -> exists r, l' = (s, o) :: r.
Proof.
  destruct l as [|[a n] l]; simpl.
  - intros _ _ [= <- <-]. eauto.
  - intros (? & _) Hlt. destruct (Z.ltb_spec s a); [|lia].
    destruct (Z.ltb_spec a (s + k)); [done|].
    destruct (Z.eqb_spec (s + k) a); intros [= <- <-]; eauto.
Qed.

Lemma runs_give_some lo hi s k l l' o :
  runs_ok lo hi l -> 1 <= k -> lo <= s -> s + k <= hi -> runs_give s k l = Some (l', o) ->
  runs_ok lo hi l' /\ k <= o /\
  (forall p, in_run s k p = true -> runs_free l p = false) /\
  (forall p, runs_free l' p = runs_free l p || in_run s k p) /\
  runs_sum l' = runs_sum l + k /\ runs_max l' = Z.max (runs_max l) o.
Proof.
  revert lo l' o. induction l as [|[a n] l IH]; intros lo l' o Hok Hk Hlo Hhi; simpl.
  - intros [= <- <-]. simpl. split_and!; auto; try lia. intros p. by rewrite orb_false_r.
  - destruct Hok as (Ha & Hn & Hah & Hok).
    assert (Hout : forall p, runs_free l p = true -> a + n + 1 <= p)
      by (intros p E; apply (runs_free_bounds _ _ _ _ Hok) in E; lia).
    destruct (Z.ltb_spec s a) as [Hsa|Hsa].
    + destruct (Z.ltb_spec a (s + k)); [done|].
      destruct (Z.eqb_spec (s + k) a); intros [= <- <-]; simpl.
      * split_and!; auto; try lia.
        -- by replace (s + (n + k) + 1) with (a + n + 1) by lia.
        -- intros p E. apply not_true_iff_false. apply in_run_spec in E.
           rewrite orb_true_iff, in_run_spec. specialize (Hout p). intuition lia.
        -- intros p. apply eq_true_iff_eq. rewrite !orb_true_iff, !in_run_spec. intuition lia.
      * split_and!; auto; try lia.
        -- intros p E. apply not_true_iff_false. apply in_run_spec in E.
           rewrite orb_true_iff, in_run_spec. specialize (Hout p). intuition lia.
        -- intros p. rewrite orb_comm. done.
    + destruct (Z.ltb_spec s (a + n)); [done|].
      destruct (runs_give s k l) as [[r' o']|] eqn:Hg; [|done].
      destruct (Z.eqb_spec (a + n) s) as [He|He]; intros [= <- <-].
      * destruct (runs_give_head (a + n + 1) hi s k l r' o') as (r & ->); [done|lia|done|].
        destruct (IH (a + n) ((s, o') :: r) o') as (H1 & H2 & H3 & H4 & H5 & H6);
          [by eapply runs_ok_weaken; [|done]; lia|lia|lia|lia|done|].
        simpl in *. destruct H1 as (_ & _ & ? & H1). split_and!; auto; try lia.
        -- by replace (a + (o' + n) + 1) with (s + o' + 1) by lia.
        -- intros p E. rewrite H3 by done. rewrite orb_false_r. apply not_true_iff_false.
           rewrite in_run_spec. apply in_run_spec in E. lia.
        -- intros p. rewrite <-orb_assoc, <-H4, orb_assoc. f_equal.
           apply eq_true_iff_eq. rewrite orb_true_iff, !in_run_spec. intuition lia.
      * destruct (IH (a + n + 1) r' o' Hok Hk) as (H1 & H2 & H3 & H4 & H5 & H6); [lia|lia|done|].
        simpl. split_and!; auto; try lia.
        -- intros p E. rewrite H3 by done. rewrite orb_false_r. apply not_true_iff_false.
           rewrite in_run_spec. apply in_run_spec in E. lia.
        -- intros p. rewrite H4. by rewrite orb_assoc.
Qed.

Lemma runs_give_none lo hi s k l :
  runs_ok lo hi l -> 1 <= k -> runs_give s k l = None ->
  exists p, in_run s k p = true /\ runs_free l p = true.
Proof.
  revert lo. induction l as [|[a n] l IH]; intros lo; simpl; [done|].
  intros (Ha & Hn & Hah & Hok) Hk. destruct (Z.ltb_spec s a).
  - destruct (Z.ltb_spec a (s + k)); [|by destruct (s + k =? a)]. intros _. exists a.
    split; [apply in_run_spec; lia|]. apply orb_true_iff. left. apply in_run_spec. lia.
  - destruct (Z.ltb_spec s (a + n)).
    + intros _. exists s. split; [apply in_run_spec; lia|].
      apply orb_true_iff. left. apply in_run_spec. lia.
    + destruct (runs_give s k l) as [[r' o]|] eqn:Hg; [by destruct (a + n =? s)|].
      intros _. destruct (IH _ Hok Hk eq_refl) as (p & Hp & Hf).
      exists p. split; [done|]. by rewrite Hf, orb_true_r.
Qed.

(** ** From words to runs *)

Definition decode (l : list Z) : runs := List.map unpack l.

Lemma decode_cons x l : decode (x :: l) = unpack x :: decode l.
Proof. done. Qed.

Definition words_ok (l : list Z) : Prop := Forall (fun x => 0 <= x < 2 ^ 32) l.

Lemma word_set_ok y z : 0 <= y < 65536 -> 0 <= z < 65536 ->
  0 <= DMS_SEGMENT_NODE_SET y z < 2 ^ 32.
Proof. intros. rewrite node_set_sum by lia. lia. Qed.

Lemma unpack_bounds x : 0 <= (unpack x).1 < 65536 /\ 0 <= (unpack x).2 < 65536.
Proof. split; apply u16_bound. Qed.

Lemma take_pages_runs lo hi k nodes :
  words_ok nodes -> runs_ok lo hi (decode nodes) -> hi <= 65535 -> 1 <= k ->
  (option_map (fun '(f, o, l) => (f, o, decode l)) (take_pages k nodes))
    = runs_take k (decode nodes) /\
  (forall f o l, take_pages k nodes = Some (f, o, l) -> words_ok l).
Proof.
  revert lo. induction nodes as [|x nodes IH]; intros lo Hw Hok Hhi Hk; [done|].
  apply Forall_cons in Hw as [Hx Hw].
  rewrite decode_cons in *.
  pose proof (unpack_bounds x) as Hb. simpl take_pages.
  destruct (unpack x) as [a n] eqn:Hu. unfold unpack in Hu. injection Hu as Ha Hn.
  rewrite Ha, Hn. simpl in Hok, Hb |- *. destruct Hok as (? & ? & ? & Hok).
  destruct (Z.leb_spec k n).
  - destruct (Z.eqb_spec n k); simpl; [by split; [|intros ? ? ? [= <- <- <-]]|].
    rewrite u16_small by lia. split.
    + by rewrite unpack_set by lia.
    + intros ? ? ? [= <- <- <-]. apply Forall_cons. split; [|done]. apply word_set_ok; lia.
  - destruct (IH _ Hw Hok Hhi Hk) as [Heq Hwl]. rewrite <-Heq.
    destruct (take_pages k nodes) as [[[f o] l]|]; simpl; [|done]. split.
    + unfold unpack. by rewrite Ha, Hn.
    + intros ? ? ? [= <- <- <-]. apply Forall_cons. split; [done|]. by eapply Hwl.
Qed.

Definition release_finish (s k mx : Z) (passed nodes : list Z) : option (Z * list Z * Z) :=
  match release_walk s k mx passed nodes with
  | None => None
  | Some (p, it1, after, newSize, m) => Some (release_join s p it1 after newSize m)
  end.

(** The list [rev ps ++ l0] where [l0] holds the runs of the reference. *)
Definition gives (mx : Z) (res : option (Z * list Z * Z)) (ps : list Z)
  (spec : option (runs * Z)) : Prop :=
  match res, spec with
  | None, None => True
  | Some (rc, l, m), Some (l', o) =>
      rc = SDB_OK /\ m = Z.max mx o /\
      exists l0, l = rev ps ++ l0 /\ (decode l0) = l' /\ words_ok l0
  | _, _ => False
  end.

Lemma max_grow m n : (if m <? n then n else m) = Z.max m n.
Proof. destruct (Z.ltb_spec m n); lia. Qed.

Section walk.
Context (s k mx hi : Z) (Hk : 1 <= k) (Hs : 0 <= s) (Hsk : s + k <= hi) (Hhi : hi <= 65535).

(** The join with a previous run that ends at or before [s]. *)
Lemma join_gives prev ps a n it1 o after :
  unpack prev = (a, n) -> 0 <= prev < 2 ^ 32 -> 1 <= n -> a + n <= s ->
  s + o <= hi -> k <= o -> it1 = DMS_SEGMENT_NODE_SET s o -> words_ok after ->
  gives mx (Some (release_join s (prev :: ps) it1 after o (Z.max mx o))) ps
    (if a + n =? s then Some ((a, o + n) :: (decode after), o + n)
     else Some ((a, n) :: (s, o) :: (decode after), o)).
Proof.
  intros Hu Hp Hn Hle Ho Hko -> Hw. pose proof (unpack_bounds prev) as Hb. rewrite Hu in Hb.
  unfold unpack in Hu. injection Hu as Ha Hsz. simpl in Hb. unfold release_join.
  rewrite Ha, Hsz. destruct (Z.ltb_spec s (a + n)); [lia|].
  destruct (Z.eqb_spec (a + n) s).
  - split; [done|]. rewrite u16_small by lia. rewrite max_grow. split; [lia|].
    eexists. split; [done|]. rewrite setsize_set by lia. rewrite Ha. split.
    + rewrite decode_cons.
      by rewrite unpack_set by lia.
    + apply Forall_cons. split; [apply word_set_ok; lia|done].
  - split; [done|]. split; [done|]. exists (prev :: DMS_SEGMENT_NODE_SET s o :: after).
    split; [simpl; by rewrite <-app_assoc|]. split.
    + rewrite !decode_cons.
      rewrite unpack_set by lia. unfold unpack at 1. by rewrite Ha, Hsz.
    + repeat (apply Forall_cons; split); try done; apply word_set_ok; lia.
Qed.

Lemma finish_after prev ps nodes a n :
  unpack prev = (a, n) -> 0 <= prev < 2 ^ 32 -> 1 <= n -> a + n <= s ->
  words_ok nodes -> runs_ok (a + n + 1) hi (decode nodes) ->
  gives mx (release_finish s k mx (prev :: ps) nodes) ps
    (runs_give s k (decode (prev :: nodes))).
Proof.
  revert prev ps a n. induction nodes as [|x nodes IH]; intros prev ps a n Hu Hp Hn Hle Hw Hok.
  - unfold release_finish. simpl release_walk. rewrite max_grow. rewrite ?decode_cons.
    rewrite Hu. simpl runs_give. destruct (Z.ltb_spec s a); [lia|].
    destruct (Z.ltb_spec s (a + n)); [lia|].
    apply (join_gives prev ps a n _ k []); done || lia.
  - apply Forall_cons in Hw as [Hx Hw].
    rewrite !decode_cons.
    rewrite decode_cons in Hok.
    pose proof (unpack_bounds x) as Hb. rewrite Hu.
    destruct (unpack x) as [b m] eqn:Hux. simpl in Hb. assert (Hux' := Hux).
    unfold unpack in Hux'. injection Hux' as Hb1 Hm1. destruct Hok as (Hb2 & Hm & Hbm & Hok).
    unfold release_finish. simpl release_walk. rewrite Hb1, Hm1. simpl runs_give.
    destruct (Z.ltb_spec s a); [lia|]. destruct (Z.ltb_spec s (a + n)); [lia|].
    destruct (Z.ltb_spec s b) as [Hsb|Hsb].
    + destruct (Z.ltb_spec b (s + k)); [done|]. destruct (Z.eqb_spec (s + k) b).
      * rewrite u16_small by lia. rewrite max_grow.
        apply (join_gives prev ps a n _ (m + k) nodes); done || lia.
      * rewrite max_grow.
        pose proof (join_gives prev ps a n (DMS_SEGMENT_NODE_SET s k) k (x :: nodes)) as H'.
        rewrite decode_cons in H'.
        rewrite Hux in H'. apply H'; try done || lia. by apply Forall_cons.
    + destruct (Z.eqb_spec s b); simpl; [by destruct (Z.ltb_spec s (b + m)); [|lia]|].
      destruct (Z.ltb_spec s (b + m)); [done|].
      pose proof (IH x (prev :: ps) b m Hux Hx Hm ltac:(lia) Hw Hok) as H'.
      unfold release_finish in H'.
      rewrite decode_cons in H'.
      rewrite Hux in H'. simpl runs_give in H'.
      destruct (Z.ltb_spec s b); [lia|]. destruct (Z.ltb_spec s (b + m)); [lia|].
      destruct (Z.eqb_spec (a + n) s); [lia|].
      unfold gives in *.
      destruct (release_walk s k mx (x :: prev :: ps) nodes) as [[[[[p1 p2] p3] p4] p5]|];
        [destruct (release_join _ _ _ _ _ _) as [[rc l'] mx']|];
        (destruct (runs_give s k (decode nodes)) as [[r' o]|]; [destruct (b + m =? s)|]);
        try done; destruct H' as (-> & -> & l0 & -> & Hl0 & Hwl);
        (split; [done|]; split; [done|]; exists (prev :: l0); split;
         [simpl; by rewrite <-app_assoc|]; split; [|by apply Forall_cons];
         rewrite decode_cons;
         by rewrite Hu, Hl0).
Qed.

Lemma finish_start nodes :
  words_ok nodes -> runs_ok 0 hi (decode nodes) ->
  gives mx (release_finish s k mx [] nodes) [] (runs_give s k (decode nodes)).
Proof.
  intros Hw Hok. destruct nodes as [|x nodes].
  - split; [done|]. rewrite max_grow. split; [done|].
    exists [DMS_SEGMENT_NODE_SET s k]. split; [done|]. split.
    + rewrite ?decode_cons. by rewrite unpack_set by lia.
    + apply Forall_singleton. apply word_set_ok; lia.
  - apply Forall_cons in Hw as [Hx Hw]. assert (Hok0 := Hok).
    rewrite decode_cons in *.
    pose proof (unpack_bounds x) as Hb. destruct (unpack x) as [b m] eqn:Hux.
    simpl in Hb. assert (Hux' := Hux). unfold unpack in Hux'. injection Hux' as Hb1 Hm1.
    destruct Hok as (Hb2 & Hm & Hbm & Hok).
    unfold release_finish. simpl release_walk. rewrite Hb1, Hm1.
    destruct (Z.ltb_spec s b) as [Hsb|Hsb].
    + simpl runs_give. destruct (Z.ltb_spec s b); [|lia].
      destruct (Z.ltb_spec b (s + k)); [done|]. destruct (Z.eqb_spec (s + k) b).
      * rewrite u16_small, max_grow by lia. split; [done|]. split; [done|].
        eexists. split; [done|]. split.
        -- rewrite decode_cons.
           by rewrite unpack_set by lia.
        -- apply Forall_cons. split; [apply word_set_ok; lia|done].
      * rewrite max_grow. split; [done|]. split; [done|]. eexists. split; [done|]. split.
        -- rewrite !decode_cons.
           by rewrite unpack_set, Hux by lia.
        -- repeat (apply Forall_cons; split); try done; apply word_set_ok; lia.
    + destruct (Z.eqb_spec s b); simpl orb.
      { simpl runs_give. destruct (Z.ltb_spec s b); [lia|].
        by destruct (Z.ltb_spec s (b + m)); [|lia]. }
      destruct (Z.ltb_spec s (b + m)).
      { simpl runs_give. destruct (Z.ltb_spec s b); [lia|].
        by destruct (Z.ltb_spec s (b + m)); [|lia]. }
      rewrite <-Hux.
      exact (finish_after x [] nodes b m Hux Hx Hm ltac:(lia) Hw Hok).
Qed.
End walk.

(** ** The segment invariant *)

Record seg_ok (sme : dmsSpaceManagementExtent) (seg : dmsSegmentSpace) : Prop := {
  so_words : words_ok (_freeSpaceList seg);
  so_size : 1 <= _totalSize seg <= 65535;
  so_start : 0 <= _startExtent seg /\ _startExtent seg + _totalSize seg <= DMS_MAX_PG;
  so_runs : runs_ok 0 (_totalSize seg) (decode (_freeSpaceList seg));
  so_max : _maxNode seg = runs_max (decode (_freeSpaceList seg));
  so_total : _totalFree seg = runs_sum (decode (_freeSpaceList seg));
  so_bits p : 0 <= p < _totalSize seg ->
    (getBitMask sme (_startExtent seg + p) = DMS_SME_FREE
     <-> runs_free (decode (_freeSpaceList seg)) p = true)
}.

(** The pages [f, f + n) are free, are allocated. *)
Definition pages_free (sme : dmsSpaceManagementExtent) (f n : Z) : Prop :=
  forall p, f <= p < f + n -> getBitMask sme p = DMS_SME_FREE.
Definition pages_allocated (sme : dmsSpaceManagementExtent) (f n : Z) : Prop :=
  forall p, f <= p < f + n -> getBitMask sme p = DMS_SME_ALLOCATED.

(** Exactly the pages [f, f + n) changed, to [v]. *)
Definition pages_become (v : Z) (sme : dmsSpaceManagementExtent) (f n : Z)
  (sme' : dmsSpaceManagementExtent) : Prop :=
  forall p, getBitMask sme' p = if in_run f n p then v else getBitMask sme p.

(** A free stretch lies within one run, because adjacent runs are joined. *)
Lemma runs_free_stretch lo hi l f n :
  runs_ok lo hi l -> 1 <= n -> (forall p, f <= p < f + n -> runs_free l p = true) ->
  exists s m, (s, m) ∈ l /\ s <= f /\ f + n <= s + m.
Proof.
  revert lo. induction l as [|[s m] l IH]; intros lo Hok Hn Hf.
  { specialize (Hf f). simpl in Hf. assert (false = true) by (apply Hf; lia). done. }
  destruct Hok as (Hlo & Hm & Hhi & Hok).
  assert (Hf0 : runs_free ((s, m) :: l) f = true) by (apply Hf; lia). simpl in Hf0.
  apply orb_true_iff in Hf0 as [Hin%in_run_spec|Hin].
  - exists s, m. split; [by left|]. split; [lia|].
    destruct (Z.le_gt_cases (f + n) (s + m)); [done|].
    assert (Hc : runs_free ((s, m) :: l) (s + m) = true) by (apply Hf; lia). simpl in Hc.
    apply orb_true_iff in Hc as [Hc%in_run_spec|Hc]; [lia|].
    apply (runs_free_bounds _ _ _ _ Hok) in Hc. lia.
  - apply (runs_free_bounds _ _ _ _ Hok) in Hin.
    destruct (IH (s + m + 1) Hok Hn) as (s' & m' & Hsm & H1 & H2);
      [|exists s', m'; split; [by right|done]].
    intros p Hp. specialize (Hf p Hp). simpl in Hf. apply orb_true_iff in Hf as [Hc%in_run_spec|?]; [lia|done].
Qed.

Lemma resetMax_spec nodes m : resetMax nodes m = Z.max m (runs_max (decode nodes)) \/ m < 0.
Proof.
  destruct (Z.lt_ge_cases m 0); [by right|left]. revert m H.
  induction nodes as [|x nodes IH]; intros m Hm; simpl; [lia|].
  rewrite max_grow, IH by lia. unfold runs_max. lia.
Qed.

Lemma u16_sub a b : 0 <= b <= a -> a <= 65535 -> u16 (a - b) = a - b.
Proof. intros. apply u16_small. lia. Qed.

Lemma runs_max_nonneg l : 0 <= runs_max l.
Proof. induction l as [|[??] l IH]; simpl; lia. Qed.

Lemma runs_max_elem l s m : (s, m) ∈ l -> m <= runs_max l.
Proof.
  intros H. induction l as [|[s' m'] l IH]; [by apply not_elem_of_nil in H|].
  apply elem_of_cons in H as [[= <- <-]|H]; simpl; [lia|]. specialize (IH H). lia.
Qed.

Lemma runs_sum_seg sme seg : seg_ok sme seg -> 0 <= _totalFree seg <= _totalSize seg.
Proof.
  intros [_ Hsz _ Hr _ -> _]. apply runs_sum_bound in Hr; lia.
Qed.

(** The outcome of a reservation of [n] pages in a segment. *)
Inductive reserved (n : Z) (seg : dmsSegmentSpace) (sme : dmsSpaceManagementExtent)
  (seg' : dmsSegmentSpace) (sme' : dmsSpaceManagementExtent) : Z -> option Z -> Prop :=
| reserved_ok f :
    _startExtent seg <= f -> f + n <= _startExtent seg + _totalSize seg ->
    pages_free sme f n -> pages_become DMS_SME_ALLOCATED sme f n sme' ->
    _totalFree seg' = _totalFree seg - n ->
    reserved n seg sme seg' sme' SDB_OK (Some f)
| reserved_nospc :
    (forall f, _startExtent seg <= f -> f + n <= _startExtent seg + _totalSize seg ->
       ~ pages_free sme f n) ->
    seg' = seg -> sme' = sme ->
    reserved n seg sme seg' sme' SDB_DMS_NOSPC None.

Lemma seg_ok_free sme seg f n :
  seg_ok sme seg -> 0 <= f -> f + n <= _totalSize seg ->
  pages_free sme (_startExtent seg + f) n
  <-> (forall p, f <= p < f + n -> runs_free (decode (_freeSpaceList seg)) p = true).
Proof.
  intros Hok Hf Hn. split.
  - intros H p Hp. apply (so_bits _ _ Hok); [lia|]. apply H. lia.
  - intros H p Hp. replace p with (_startExtent seg + (p - _startExtent seg)) by lia.
    apply (so_bits _ _ Hok); [lia|]. apply H. lia.
Qed.

Lemma segment_reserve_spec n pos seg sme c rc found seg' sme' c' :
  seg_ok sme seg -> 1 <= n ->
  segment_reservePages n pos seg sme c = (rc, found, seg', sme', c') ->
  reserved n seg sme seg' sme' rc found /\ seg_ok sme' seg' /\
  _startExtent seg' = _startExtent seg /\ _totalSize seg' = _totalSize seg /\
  c' = mkCounters (if rc =? SDB_OK then u32 (mgrTotalFree c - n) else mgrTotalFree c)
         (if 0 =? _totalFree seg then compareAndSwap (_freePos c) pos (pos + 1)
          else _freePos c).
Proof.
  intros Hok Hn. pose proof Hok as [Hw Hsz Hst Hr Hmax Htot Hbits].
  unfold segment_reservePages. destruct (Z.ltb_spec (_maxNode seg) n) as [Hgt|Hle].
  - intros [= <- <- <- <- <-]. split_and!; try done.
    + constructor; try done. intros f Hf1 Hf2 Hfree.
      replace f with (_startExtent seg + (f - _startExtent seg)) in Hfree by lia.
      rewrite (seg_ok_free sme seg) in Hfree by (done || lia).
      destruct (runs_free_stretch _ _ _ _ _ Hr Hn Hfree) as (s & m & Hin & ? & ?).
      apply runs_max_elem in Hin. lia.
    + by destruct c, (_totalFree seg).
  - destruct (take_pages_runs 0 (_totalSize seg) n (_freeSpaceList seg)) as [Htk Hwl];
      [done|done|lia|done|].
    destruct (take_pages n (_freeSpaceList seg)) as [[[rela o] l']|]; simpl in Htk.
    2: { symmetry in Htk. apply runs_take_none in Htk.
         assert (runs_max (decode (_freeSpaceList seg)) < n) by (apply runs_max_Forall; split; [done|lia]).
         lia. }
    symmetry in Htk. specialize (Hwl _ _ _ eq_refl).
    destruct (runs_take_some _ _ _ _ _ _ _ Hr Hn Htk) as (H1 & H2 & H3 & H4 & H5 & H6 & H7 & H8 & H9).
    intros [= <- <- <- <- <-].
    assert (Hbits' : pages_become DMS_SME_ALLOCATED sme (rela + _startExtent seg) n
      (setBits (Z.to_nat n) (u32 (rela + _startExtent seg)) sme)).
    { intros p. rewrite get_setBits, Z2Nat.id by lia.
      unfold DMS_MAX_PG in *. rewrite u32_small by lia. done. }
    pose proof (runs_sum_seg _ _ Hok). 
    assert (Hs' : 0 <= runs_sum (decode l')).
    { apply runs_sum_bound in H4; lia. }
    assert (Htf : u16 (_totalFree seg - n) = _totalFree seg - n) by (apply u16_small; lia).
    split_and!; try done.
    + constructor; try done || lia.
      rewrite Z.add_comm. rewrite (seg_ok_free sme seg) by (done || lia). intros p Hp.
      apply H5, in_run_spec. lia.
    + split; simpl; try done.
      * destruct (Z.eqb_spec o (_maxNode seg)).
        -- destruct (resetMax_spec l' 0) as [->|]; [|lia].
           pose proof (runs_max_nonneg (decode l')). lia.
        -- rewrite H9 by congruence. done.
      * rewrite Htf. lia.
      * intros p Hp. rewrite Hbits', H6. rewrite andb_true_iff, negb_true_iff.
        assert (Hin : in_run (rela + _startExtent seg) n (_startExtent seg + p) = in_run rela n p).
        { apply eq_true_iff_eq. rewrite !in_run_spec. lia. }
        rewrite Hin. destruct (in_run rela n p); [|by rewrite Hbits; intuition].
        split; [done|]. by intros [_ ?].
    + by destruct c, (_totalFree seg).
Qed.

(** ** Giving pages back to a segment *)

(** The invariant without the bitmap. *)
Record seg_shape (seg : dmsSegmentSpace) : Prop := {
  sh_words : words_ok (_freeSpaceList seg);
  sh_size : 1 <= _totalSize seg <= 65535;
  sh_runs : runs_ok 0 (_totalSize seg) (decode (_freeSpaceList seg));
  sh_max : _maxNode seg = runs_max (decode (_freeSpaceList seg));
  sh_total : _totalFree seg = runs_sum (decode (_freeSpaceList seg))
}.

Lemma seg_ok_shape sme seg : seg_ok sme seg -> seg_shape seg.
Proof. by intros []. Qed.

(** The free list [l] with maximum [mx] is that of [seg] with the pages
    [s, s + n) added. *)
Record list_given (s n : Z) (seg : dmsSegmentSpace) (l : list Z) (mx : Z) : Prop := {
  lg_words : words_ok l;
  lg_runs : runs_ok 0 (_totalSize seg) (decode l);
  lg_max : mx = runs_max (decode l);
  lg_sum : runs_sum (decode l) = _totalFree seg + n;
  lg_new p : in_run s n p = true -> runs_free (decode (_freeSpaceList seg)) p = false;
  lg_free p : runs_free (decode l) p = runs_free (decode (_freeSpaceList seg)) p || in_run s n p
}.

Definition in_segment (start n : Z) (seg : dmsSegmentSpace) : Prop :=
  _startExtent seg <= start /\ start + n <= _startExtent seg + _totalSize seg.

Lemma list_given_zero s seg :
  seg_shape seg -> list_given s 0 seg (_freeSpaceList seg) (_maxNode seg).
Proof.
  assert (H0 : forall p, in_run s 0 p = false).
  { intros p. apply not_true_iff_false. rewrite in_run_spec. lia. }
  intros []. split; try done; try lia.
  - intros p. by rewrite H0.
  - intros p. by rewrite H0, orb_false_r.
Qed.

Lemma release_list_finish start n seg :
  in_segment start n seg -> 1 <= n -> _freeSpaceList seg <> [] ->
  release_list start n seg
  = match release_finish (u16 (start - _startExtent seg)) n (_maxNode seg) [] (_freeSpaceList seg) with
    | Some r => r
    | None => (SDB_SYS, _freeSpaceList seg, _maxNode seg)
    end.
Proof.
  intros [H1 H2] Hn Hne. unfold release_list, release_finish.
  destruct (Z.ltb_spec start (_startExtent seg)); [lia|].
  destruct (Z.ltb_spec (_startExtent seg + _totalSize seg) (start + n)); [lia|]. simpl orb.
  destruct (Z.eqb_spec 0 n); [lia|]. destruct (_freeSpaceList seg) as [|x l]; [done|].
  by destruct (release_walk _ _ _ _ _) as [[[[[??]?]?]?]|].
Qed.

Lemma release_list_given start n seg :
  seg_shape seg -> in_segment start n seg -> 1 <= n ->
  match release_list start n seg with
  | (rc, l, mx) =>
      (rc = SDB_OK /\ list_given (start - _startExtent seg) n seg l mx) \/
      (rc = SDB_SYS /\ l = _freeSpaceList seg /\ mx = _maxNode seg /\
       exists p, in_run (start - _startExtent seg) n p = true /\
         runs_free (decode (_freeSpaceList seg)) p = true)
  end.
Proof.
  intros [Hw Hsz Hr Hmax Htot] Hin Hn. pose proof Hin as [H1 H2].
  assert (Hu : u16 (start - _startExtent seg) = start - _startExtent seg) by (apply u16_small; lia).
  destruct (decide (_freeSpaceList seg = [])) as [He|He].
  - unfold release_list. rewrite He, Hu.
    destruct (Z.ltb_spec start (_startExtent seg)); [lia|].
    destruct (Z.ltb_spec (_startExtent seg + _totalSize seg) (start + n)); [lia|]. simpl orb.
    destruct (Z.eqb_spec 0 n); [lia|]. left. split; [done|].
    rewrite He in Htot. unfold runs_sum in Htot. simpl in Htot.
    assert (Hd : decode [DMS_SEGMENT_NODE_SET (start - _startExtent seg) n]
      = [(start - _startExtent seg, n)]) by (rewrite decode_cons, unpack_set by lia; done).
    split; rewrite ?Hd, ?He.
    + apply Forall_singleton, word_set_ok; lia.
    + simpl. lia.
    + simpl. lia.
    + unfold runs_sum. simpl. lia.
    + done.
    + intros p. simpl. by rewrite orb_false_r.
  - rewrite release_list_finish, Hu by done.
    pose proof (finish_start (start - _startExtent seg) n (_maxNode seg) (_totalSize seg)
      Hn ltac:(lia) ltac:(lia) ltac:(lia) (_freeSpaceList seg) Hw Hr) as Hg.
    destruct (runs_give (start - _startExtent seg) n (decode (_freeSpaceList seg)))
      as [[l' o]|] eqn:Hrg; unfold gives in Hg;
      destruct (release_finish _ _ _ _ _) as [[[rc l] mx]|]; try done.
    + destruct Hg as (-> & -> & l0 & -> & Hl0 & Hwl). left. split; [done|].
      destruct (runs_give_some 0 (_totalSize seg) (start - _startExtent seg) n
        (decode (_freeSpaceList seg)) l' o)
        as (G1 & G2 & G3 & G4 & G5 & G6); [done|done|lia|lia|done|].
      simpl. rewrite <-Hl0 in *. split; try done; [by rewrite Hmax|by rewrite Htot].
    + right. split_and!; try done. by eapply runs_give_none.
Qed.

(** The outcome of giving back [n] pages at [start] to a segment. *)
Inductive released (start n : Z) (seg : dmsSegmentSpace) (sme : dmsSpaceManagementExtent)
  (seg' : dmsSegmentSpace) (sme' : dmsSpaceManagementExtent) : Z -> Prop :=
| released_ok :
    in_segment start n seg -> pages_allocated sme start n ->
    pages_become DMS_SME_FREE sme start n sme' ->
    _totalFree seg' = _totalFree seg + n ->
    released start n seg sme seg' sme' SDB_OK
| released_refused :
    ~ (in_segment start n seg /\ pages_allocated sme start n) ->
    seg' = seg -> sme' = sme ->
    released start n seg sme seg' sme' SDB_SYS.

Lemma seg_eta seg : mkSegment (_freeSpaceList seg) (_maxNode seg) (_startExtent seg)
  (_totalSize seg) (_totalFree seg) = seg.
Proof. by destruct seg. Qed.

(** A given list is the list of a segment in the invariant again. *)
Lemma list_given_seg_ok start n seg sme sme' l mx :
  seg_ok sme seg -> in_segment start n seg -> 0 <= n ->
  list_given (start - _startExtent seg) n seg l mx -> pages_become DMS_SME_FREE sme start n sme' ->
  seg_ok sme' (mkSegment l mx (_startExtent seg) (_totalSize seg) (u16 (_totalFree seg + n))) /\
  u16 (_totalFree seg + n) = _totalFree seg + n.
Proof.
  intros Hok [H1 H2] Hn [Lw Lr Lm Ls Ln Lf] Hb. pose proof Hok as [_ Hsz Hst _ _ _ Hbits].
  assert (Htf : u16 (_totalFree seg + n) = _totalFree seg + n).
  { apply u16_small. pose proof (runs_sum_seg _ _ Hok).
    apply runs_sum_bound in Lr; lia. }
  split; [|done]. split; simpl; try done.
  - by rewrite Htf, Ls.
  - intros p Hp. rewrite Hb, Lf, orb_true_iff.
    assert (Hin : in_run start n (_startExtent seg + p) = in_run (start - _startExtent seg) n p).
    { apply eq_true_iff_eq. rewrite !in_run_spec. lia. }
    rewrite Hin. destruct (in_run (start - _startExtent seg) n p); [by split; auto|].
    rewrite Hbits by done. split; [by left|by intros [?|?]].
Qed.

(** What [segment_releasePages] gives back, stated once for its two exits. *)
Definition release_result (start n : Z) (seg : dmsSegmentSpace) (sme : dmsSpaceManagementExtent)
  (c : smeCounters) (r : Z * dmsSegmentSpace * dmsSpaceManagementExtent * smeCounters) : Prop :=
  let '(rc, seg', sme', c') := r in
  released start n seg sme seg' sme' rc /\ seg_ok sme' seg' /\
  _startExtent seg' = _startExtent seg /\ _totalSize seg' = _totalSize seg /\
  c' = if rc =? SDB_OK then mkCounters (u32 (mgrTotalFree c + n)) (_freePos c) else c.

Lemma release_accepted start n seg sme c l mx :
  seg_ok sme seg -> 0 <= n -> in_segment start n seg -> 0 <= start ->
  list_given (start - _startExtent seg) n seg l mx ->
  release_result start n seg sme c
    (SDB_OK, mkSegment l mx (_startExtent seg) (_totalSize seg) (u16 (_totalFree seg + n)),
     freeBits (Z.to_nat n) (u32 start) sme,
     mkCounters (u32 (mgrTotalFree c + n)) (_freePos c)).
Proof.
  intros Hok Hn Hin Hs0 Hlg. pose proof Hok as [Hw Hsz Hst Hr Hmax Htot Hbits].
  assert (Hb : pages_become DMS_SME_FREE sme start n (freeBits (Z.to_nat n) (u32 start) sme)).
  { intros p. rewrite get_freeBits, Z2Nat.id by lia.
    destruct Hin. unfold DMS_MAX_PG in *. by rewrite u32_small by lia. }
  destruct (list_given_seg_ok _ _ _ _ _ _ _ Hok Hin ltac:(lia) Hlg Hb) as [Hok' Htf].
  unfold release_result. split_and!; try done. constructor; try done. intros p Hp. destruct Hin.
  destruct (getBitMask_binary sme p) as [Hf|?]; [|done].
  replace p with (_startExtent seg + (p - _startExtent seg)) in Hf by lia.
  rewrite Hbits in Hf by lia. rewrite (lg_new _ _ _ _ _ Hlg) in Hf; [done|].
  apply in_run_spec. lia.
Qed.

Lemma release_rejected start n seg sme c :
  seg_ok sme seg -> ~ (in_segment start n seg /\ pages_allocated sme start n) ->
  release_result start n seg sme c (SDB_SYS, seg, sme, c).
Proof. intros Hok Hno. unfold release_result. split_and!; try done. by constructor. Qed.

Lemma segment_release_result start n seg sme c :
  seg_ok sme seg -> 0 <= n <= 65535 -> 0 <= start ->
  release_result start n seg sme c (segment_releasePages start n true seg sme c).
Proof.
  intros Hok Hn Hs0. pose proof Hok as [Hw Hsz Hst Hr Hmax Htot Hbits].
  pose proof (seg_ok_shape _ _ Hok) as Hsh. unfold segment_releasePages.
  destruct (decide (_startExtent seg <= start /\ start + n <= _startExtent seg + _totalSize seg))
    as [Hin|Hout].
  - destruct (Z.eq_dec n 0) as [->|Hn0].
    + unfold release_list. destruct Hin as [H1 H2].
      destruct (Z.ltb_spec start (_startExtent seg)); [lia|].
      destruct (Z.ltb_spec (_startExtent seg + _totalSize seg) (start + 0)); [lia|]. simpl.
      apply (release_accepted start 0 seg sme c (_freeSpaceList seg) (_maxNode seg));
        [done|done|done|done|by apply list_given_zero].
    + pose proof (release_list_given start n seg Hsh Hin ltac:(lia)) as Hl.
      destruct (release_list start n seg) as [[rc0 l] mx].
      destruct Hl as [[-> Hlg]|(-> & -> & -> & p & Hp & Hfp)]; simpl.
      * apply release_accepted; [done|lia|done|done|done].
      * rewrite seg_eta. apply release_rejected; [done|]. intros [_ Ha].
        apply in_run_spec in Hp. destruct Hin.
        specialize (Ha (_startExtent seg + p)). rewrite <-Hbits in Hfp by lia.
        rewrite Ha in Hfp by lia. done.
  - unfold release_list.
    destruct (Z.ltb_spec start (_startExtent seg)); simpl orb.
    { simpl. rewrite seg_eta. apply release_rejected; [done|]. unfold in_segment. tauto. }
    destruct (Z.ltb_spec (_startExtent seg + _totalSize seg) (start + n)); [|lia].
    simpl. rewrite seg_eta. apply release_rejected; [done|]. unfold in_segment. tauto.
Qed.

Lemma segment_release_spec start n seg sme c rc seg' sme' c' :
  seg_ok sme seg -> 0 <= n <= 65535 -> 0 <= start ->
  segment_releasePages start n true seg sme c = (rc, seg', sme', c') ->
  released start n seg sme seg' sme' rc /\ seg_ok sme' seg' /\
  _startExtent seg' = _startExtent seg /\ _totalSize seg' = _totalSize seg /\
  c' = if rc =? SDB_OK then mkCounters (u32 (mgrTotalFree c + n)) (_freePos c) else c.
Proof.
  intros Hok Hn Hs0 E. pose proof (segment_release_result start n seg sme c Hok Hn Hs0) as H.
  rewrite E in H. exact H.
Qed.
