(* ===== verification/SmeMgr.v ===== *)
(** * Space management: the manager over all segments

    The invariant of [_dmsSMEMgr] and what its operations promise: reserve,
    release and deposit as operations on the set of free pages, the
    construction of the free lists from the bitmap by [init], and the free
    position hint under interleaving reservations and releases. *)

From stdpp Require Import base gmap list relations.
From Stdlib Require Import ZArith Lia.
From S2P Require Import Prelude Sme SmeFacts.

Open Scope Z_scope.

(** ** Frame *)

Lemma seg_ok_frame sme sme' seg :
  seg_ok sme seg ->
  (forall p, _startExtent seg <= p < _startExtent seg + _totalSize seg ->
     getBitMask sme' p = getBitMask sme p) ->
  seg_ok sme' seg.
Proof.
  intros [? ? ? ? ? ? Hb] Hf. split; try done. intros p Hp. rewrite Hf by lia. by apply Hb.
Qed.

Definition segs_free (segs : list dmsSegmentSpace) : Z :=
  foldr (fun s t => _totalFree s + t) 0 segs.

Lemma segs_free_app l1 l2 : segs_free (l1 ++ l2) = segs_free l1 + segs_free l2.
Proof. induction l1; simpl; lia. Qed.

Lemma segs_free_insert segs i seg seg' :
  segs !! i = Some seg ->
  segs_free (<[i := seg']> segs) = segs_free segs + _totalFree seg' - _totalFree seg.
Proof.
  revert i. induction segs as [|s segs IH]; intros [|i]; simpl; try done.
  - intros [= ->]. lia.
  - intros H. rewrite (IH i) by done. lia.
Qed.

Section manager.
(** A storage unit whose segments have [2 ^ sq] pages. *)
Context (sp sq : Z) (Hsq : 0 <= sq <= 15) (Hsp : sp = 2 ^ sq).

Lemma sp_bounds : 1 <= sp <= 32768.
Proof.
  rewrite Hsp. split; [apply (Z.pow_le_mono_r 2 0 sq); lia|].
  change 32768 with (2 ^ 15). apply Z.pow_le_mono_r; lia.
Qed.

(** Segment [i] starts at page [i * sp] and satisfies the invariant. *)
Definition segs_ok (sme : dmsSpaceManagementExtent) (segs : list dmsSegmentSpace) : Prop :=
  forall i seg, segs !! i = Some seg ->
    seg_ok sme seg /\ _startExtent seg = Z.of_nat i * sp /\ _totalSize seg = sp.

Record mgr_inv (m : dmsSMEMgr) : Prop := {
  mi_segs : segs_ok (_pSME m) (_segments m);
  mi_total : mgrTotalFree (_counters m) = segs_free (_segments m);
  mi_pos : 0 <= _freePos (_counters m) <= segmentNum m
}.

(** No free page before the free position. *)
Definition hint_ok (m : dmsSMEMgr) : Prop := forall i seg,
  _segments m !! i = Some seg -> Z.of_nat i < _freePos (_counters m) -> _totalFree seg = 0.

Definition mgr_ok (m : dmsSMEMgr) : Prop := mgr_inv m /\ hint_ok m.

Lemma segs_free_bound sme segs :
  segs_ok sme segs -> 0 <= segs_free segs <= DMS_MAX_PG.
Proof.
  intros Hok. pose proof sp_bounds.
  assert (Hf : 0 <= segs_free segs <= Z.of_nat (length segs) * sp).
  { assert (H' : Forall (fun s => 0 <= _totalFree s <= sp) segs).
    { apply Forall_lookup. intros i seg Hi. destruct (Hok _ _ Hi) as (Hs & _ & <-).
      by eapply runs_sum_seg. }
    clear Hok. induction H'; simpl; lia. }
  destruct segs as [|s0 segs'] eqn:E using rev_ind; [simpl in *; unfold DMS_MAX_PG; lia|].
  destruct (Hok (length segs') s0) as (Hs & Hst & Hsz); [by rewrite lookup_app_r, Nat.sub_diag|].
  pose proof (so_start _ _ Hs). rewrite length_app in Hf. simpl in Hf. lia.
Qed.

(** Changing one segment and the bits of its pages. *)
Lemma segs_ok_insert sme sme' segs i seg seg' :
  segs_ok sme segs -> segs !! i = Some seg -> seg_ok sme' seg' ->
  _startExtent seg' = _startExtent seg -> _totalSize seg' = _totalSize seg ->
  (forall p, ~ (_startExtent seg <= p < _startExtent seg + _totalSize seg) ->
     getBitMask sme' p = getBitMask sme p) ->
  segs_ok sme' (<[i := seg']> segs).
Proof.
  intros Hok Hi Hs' Hst Hsz Hout j s Hj. destruct (Hok _ _ Hi) as (_ & Hst0 & Hsz0).
  destruct (decide (i = j)) as [<-|Hne].
  - rewrite list_lookup_insert in Hj by (by eapply lookup_lt_Some).
    rewrite decide_True in Hj by (split; [done|by eapply lookup_lt_Some]).
    injection Hj as <-. split; [done|]. lia.
  - rewrite list_lookup_insert_ne in Hj by done. destruct (Hok _ _ Hj) as (Hs & Hst1 & Hsz1).
    split; [|done]. eapply seg_ok_frame; [done|]. intros p Hp. apply Hout.
    pose proof sp_bounds. rewrite Hst0, Hsz0, Hst1, Hsz1 in *. nia.
Qed.

Lemma u32_pages x : 0 <= x <= DMS_MAX_PG -> u32 x = x.
Proof. intros. apply u32_small. unfold DMS_MAX_PG in *. lia. Qed.

(** *** One reservation attempt in segment [i] *)
Lemma reserve_at n m i seg rc found seg' sme' c' :
  mgr_inv m -> 1 <= n -> _segments m !! i = Some seg ->
  segment_reservePages n (Z.of_nat i) seg (_pSME m) (_counters m) = (rc, found, seg', sme', c') ->
  let m' := mkSMEMgr (<[i := seg']> (_segments m)) sme' c' in
  mgr_inv m' /\ reserved n seg (_pSME m) seg' sme' rc found /\
  (rc = SDB_OK -> totalFree m' = totalFree m - n) /\
  (rc <> SDB_OK -> mgrTotalFree c' = mgrTotalFree (_counters m)) /\
  _freePos c' = (if 0 =? _totalFree seg
                 then compareAndSwap (_freePos (_counters m)) (Z.of_nat i) (Z.of_nat i + 1)
                 else _freePos (_counters m)).
Proof.
  intros [Hs Ht Hp] Hn Hi Hrun. destruct (Hs _ _ Hi) as (Hseg & Hst & Hsz).
  destruct (segment_reserve_spec _ _ _ _ _ _ _ _ _ _ Hseg Hn Hrun)
    as (Hres & Hseg' & Hst' & Hsz' & ->).
  assert (Hsegs' : segs_ok sme' (<[i := seg']> (_segments m))).
  { eapply segs_ok_insert; try done. intros p Hout. inversion Hres; subst; [|done].
    match goal with H : pages_become _ _ _ _ _ |- _ => rewrite H end.
    destruct (in_run f n p) eqn:E; [|done]. apply in_run_spec in E. lia. }
  assert (Hpos : 0 <= (if 0 =? _totalFree seg
    then compareAndSwap (_freePos (_counters m)) (Z.of_nat i) (Z.of_nat i + 1)
    else _freePos (_counters m)) <= segmentNum m).
  { unfold compareAndSwap, segmentNum in *. apply lookup_lt_Some in Hi. repeat case_Zb; lia. }
  pose proof (segs_free_insert _ _ _ seg' Hi) as Hsum.
  pose proof (segs_free_bound _ _ Hsegs') as Hb.
  inversion Hres as [f ? ? ? ? Htf|]; subst; simpl in *.
  - assert (Hu : u32 (mgrTotalFree (_counters m) - n) = mgrTotalFree (_counters m) - n)
      by (apply u32_pages; lia).
    split_and!; try done. split; simpl; [done|lia|]. unfold segmentNum. simpl.
    by rewrite length_insert.
  - split_and!; try done. split; simpl; [done|lia|]. unfold segmentNum. simpl.
    by rewrite length_insert.
Qed.

(** *** The reservation loop *)

(** No [n] consecutive free pages within one segment. *)
Definition no_room (sme : dmsSpaceManagementExtent) (n : Z) (seg : dmsSegmentSpace) : Prop :=
  forall f, _startExtent seg <= f -> f + n <= _startExtent seg + _totalSize seg ->
    ~ pages_free sme f n.

Lemma full_no_room sme n seg : seg_ok sme seg -> 1 <= n -> _totalFree seg = 0 -> no_room sme n seg.
Proof.
  intros Hok Hn H0 f H1 H2 Hf.
  replace f with (_startExtent seg + (f - _startExtent seg)) in Hf by lia.
  rewrite (seg_ok_free sme seg) in Hf by (done || lia).
  destruct (runs_free_stretch _ _ _ _ _ (so_runs _ _ Hok) Hn Hf) as (s & k & Hin & ? & ?).
  rewrite (so_total _ _ Hok) in H0.
  assert (Hle : k <= runs_sum (decode (_freeSpaceList seg))); [|lia].
  pose proof (so_runs _ _ Hok) as Hr. clear -Hin Hr.
  generalize dependent 0. induction (decode (_freeSpaceList seg)) as [|[a b] l IH];
    [by apply not_elem_of_nil in Hin|].
  intros lo (? & ? & ? & Hr). simpl. apply elem_of_cons in Hin as [[= -> ->]|Hin].
  - assert (0 <= runs_sum l); [|unfold runs_sum in *; lia].
    destruct (Z.le_gt_cases (a + b + 1) (_totalSize seg)).
    + apply runs_sum_bound in Hr; lia.
    + destruct l as [|[??] l]; [done|]. destruct Hr as (? & ? & ? & _). lia.
  - specialize (IH Hin _ Hr). unfold runs_sum in *. lia.
Qed.

(** What [reservePages] of the manager promises. *)
Definition reserve_post (n : Z) (m : dmsSMEMgr) (rc : Z) (found : option Z) (m' : dmsSMEMgr)
  : Prop :=
  rc = SDB_OK /\ mgr_ok m' /\
  ((exists i seg f, _segments m !! i = Some seg /\ found = Some f /\
      _startExtent seg <= f /\ f + n <= _startExtent seg + _totalSize seg /\
      pages_free (_pSME m) f n /\
      pages_become DMS_SME_ALLOCATED (_pSME m) f n (_pSME m') /\
      totalFree m' = totalFree m - n) \/
   (found = Some INVALID_PAGE /\ _segments m' = _segments m /\ _pSME m' = _pSME m /\
    Forall (no_room (_pSME m) n) (_segments m))).

Lemma hint_advance m i seg c' :
  hint_ok m -> _segments m !! i = Some seg ->
  _freePos c' = (if 0 =? _totalFree seg
                 then compareAndSwap (_freePos (_counters m)) (Z.of_nat i) (Z.of_nat i + 1)
                 else _freePos (_counters m)) ->
  forall j s, _segments m !! j = Some s -> Z.of_nat j < _freePos c' -> _totalFree s = 0.
Proof.
  intros Hh Hi -> j s Hj. destruct (Z.eqb_spec 0 (_totalFree seg)) as [H0|]; [|by apply Hh].
  unfold compareAndSwap. destruct (Z.eqb_spec (_freePos (_counters m)) (Z.of_nat i)) as [He|];
    [|by apply Hh].
  intros Hlt. destruct (decide (j = i)) as [->|Hne]; [by simplify_eq|].
  apply (Hh j); [done|lia].
Qed.

Lemma reserve_loop_spec n before after sme c rc found m' :
  let m := mkSMEMgr (before ++ after) sme c in
  mgr_ok m -> 1 <= n -> Forall (no_room sme n) before ->
  reserve_loop n (Z.of_nat (length before)) before after sme c = (rc, found, m') ->
  reserve_post n m rc found m'.
Proof.
  revert before c. induction after as [|seg after IH]; intros before c m [Hinv Hh] Hn Hno Hrun.
  - simpl in Hrun. injection Hrun as <- <- <-. subst m. rewrite app_nil_r in *.
    split_and!; [done|done|]. right. done.
  - assert (Hi : _segments m !! length before = Some seg)
      by (simpl; by rewrite lookup_app_r, Nat.sub_diag).
    simpl in Hrun.
    destruct (segment_reservePages n (Z.of_nat (length before)) seg sme c)
      as [[[[rc1 f1] seg'] sme'] c'] eqn:Hseg.
    destruct (reserve_at n m (length before) seg rc1 f1 seg' sme' c' Hinv Hn Hi Hseg)
      as (Hinv' & Hres & Htot & Htot' & Hpos).
    assert (Hins : <[length before := seg']> (_segments m) = before ++ seg' :: after).
    { simpl. by rewrite insert_app_r_alt, Nat.sub_diag. }
    rewrite Hins in Hinv'. pose proof (hint_advance _ _ _ _ Hh Hi Hpos) as Hadv.
    destruct Hres as [f Hf1 Hf2 Hfree Hbec Htf|Hroom -> ->]; simpl in Hrun.
    + injection Hrun as <- <- <-. split; [done|]. split.
      * split; [done|]. intros j s Hj Hlt. simpl in Hj, Hlt. rewrite <-Hins in Hj.
        destruct (decide (length before = j)) as [<-|Hne].
        -- rewrite list_lookup_insert in Hj by (by eapply lookup_lt_Some).
           rewrite decide_True in Hj by (split; [done|by eapply lookup_lt_Some]).
           injection Hj as <-. pose proof (Hadv _ _ Hi Hlt) as H0.
           destruct (mi_segs _ Hinv _ _ Hi) as (Hsok & _).
           destruct (mi_segs _ Hinv' (length before) seg') as (Hsok' & _);
             [simpl; by rewrite lookup_app_r, Nat.sub_diag|].
           pose proof (runs_sum_seg _ _ Hsok'). lia.
        -- rewrite list_lookup_insert_ne in Hj by done. by eapply Hadv.
      * left. exists (length before), seg, f. simpl in *. split_and!; try done.
        rewrite Hins in Htot. by apply Htot.
    + assert (Hm2 : mgr_ok (mkSMEMgr ((before ++ [seg]) ++ after) sme c')).
      { rewrite <-app_assoc. split; [done|]. intros j s Hj Hlt. simpl in *. by eapply Hadv. }
      assert (Hlen : Z.of_nat (length before) + 1 = Z.of_nat (length (before ++ [seg])))
        by (rewrite length_app; simpl; lia).
      rewrite Hlen in Hrun. apply IH in Hrun; [|done|done|by apply Forall_app; split; [|constructor]].
      destruct Hrun as (-> & Hok' & Hcase). simpl in *. rewrite <-app_assoc in Hcase. simpl in Hcase.
      split; [done|]. split; [done|]. subst m. simpl.
      destruct Hcase as [(i & s & f & H1 & H2 & H3 & H4 & H5 & H6 & H7)|Hcase]; [|by right].
      left. exists i, s, f. split_and!; try done.
      unfold totalFree in *. simpl in *. rewrite H7. f_equal. by apply Htot'.
Qed.

Lemma reservePages_spec n m rc found m' :
  mgr_ok m -> 1 <= n -> reservePages n m = (rc, found, m') -> reserve_post n m rc found m'.
Proof.
  intros Hok Hn Hrun. destruct m as [segs sme c]. unfold reservePages in Hrun. simpl in Hrun.
  destruct Hok as [Hinv Hh]. pose proof (mi_pos _ Hinv) as Hp. simpl in Hp.
  assert (Hno : Forall (no_room sme n) (take (Z.to_nat (_freePos c)) segs)).
  { apply Forall_lookup. intros i seg Hi. apply lookup_take_Some in Hi as [Hi Hlt].
    destruct (mi_segs _ Hinv _ _ Hi) as (Hs & _). apply full_no_room; [done|done|].
    apply (Hh i); [done|]. simpl. lia. }
  unfold segmentNum in Hp. simpl in Hp.
  assert (Hlen : _freePos c = Z.of_nat (length (take (Z.to_nat (_freePos c)) segs)))
    by (rewrite length_take; lia).
  rewrite Hlen in Hrun at 1. apply reserve_loop_spec in Hrun; rewrite ?take_drop in *; done.
Qed.
(** *** Giving pages back *)

Lemma release_at start n m i seg rc seg' sme' c' :
  mgr_inv m -> 0 <= n <= 65535 -> 0 <= start -> _segments m !! i = Some seg ->
  segment_releasePages start n true seg (_pSME m) (_counters m) = (rc, seg', sme', c') ->
  let m' := mkSMEMgr (<[i := seg']> (_segments m)) sme' c' in
  mgr_inv m' /\ released start n seg (_pSME m) seg' sme' rc /\
  (rc = SDB_OK -> totalFree m' = totalFree m + n) /\
  (rc <> SDB_OK -> m' = m) /\ _freePos c' = _freePos (_counters m).
Proof.
  intros [Hs Ht Hp] Hn Hst0 Hi Hrun. destruct (Hs _ _ Hi) as (Hseg & Hst & Hsz).
  destruct (segment_release_spec _ _ _ _ _ _ _ _ _ Hseg Hn Hst0 Hrun)
    as (Hrel & Hseg' & Hst' & Hsz' & Hc).
  assert (Hsegs' : segs_ok sme' (<[i := seg']> (_segments m))).
  { eapply segs_ok_insert; try done. intros p Hout. destruct Hrel as [[H1 H2] _ Hbec _|]; [|by subst].
    rewrite Hbec. destruct (in_run start n p) eqn:E; [|done]. apply in_run_spec in E. lia. }
  pose proof (segs_free_insert _ _ _ seg' Hi) as Hsum.
  pose proof (segs_free_bound _ _ Hsegs') as Hb.
  assert (Hrel0 := Hrel). destruct Hrel as [Hin Hall Hbec Htf|Hno -> ->]; simpl in *.
  - subst c'. assert (Hu : u32 (mgrTotalFree (_counters m) + n) = mgrTotalFree (_counters m) + n)
      by (apply u32_pages; lia).
    split_and!; try done. split; simpl; [done|lia|]. unfold segmentNum. simpl.
    by rewrite length_insert.
  - subst c'. rewrite list_insert_id by done. destruct m; simpl. split_and!; done.
Qed.

(** What [releasePages] of the manager promises. *)
Definition release_post (start n : Z) (m : dmsSMEMgr) (rc : Z) (m' : dmsSMEMgr) : Prop :=
  mgr_ok m' /\
  ((rc = SDB_OK /\ (exists i seg, _segments m !! i = Some seg /\ in_segment start n seg) /\
    pages_allocated (_pSME m) start n /\
    pages_become DMS_SME_FREE (_pSME m) start n (_pSME m') /\
    totalFree m' = totalFree m + n) \/
   (rc = SDB_SYS /\ m' = m /\
    ~ exists i seg, _segments m !! i = Some seg /\ in_segment start n seg /\
        pages_allocated (_pSME m) start n)).

Lemma segment_of start i seg m :
  mgr_inv m -> 0 <= start < DMS_MAX_PG -> _segments m !! i = Some seg ->
  _startExtent seg <= start < _startExtent seg + _totalSize seg ->
  i = Z.to_nat (u32 (Z.shiftr start sq)).
Proof.
  intros [Hs _ _] H0 Hi Hin. destruct (Hs _ _ Hi) as (_ & Hst & Hsz). pose proof sp_bounds.
  rewrite Z.shiftr_div_pow2, <-Hsp by lia.
  assert (start / sp = Z.of_nat i) as ->.
  { symmetry. apply (Z.div_unique start sp (Z.of_nat i) (start - Z.of_nat i * sp)); lia. }
  rewrite u32_small by (unfold DMS_MAX_PG in *; nia). by rewrite Nat2Z.id.
Qed.

Lemma hint_swap m i seg seg' sme' c' :
  hint_ok m -> _segments m !! i = Some seg -> _freePos c' = _freePos (_counters m) ->
  hint_ok (mkSMEMgr (<[i := seg']> (_segments m)) sme'
             (mkCounters (mgrTotalFree c') (swapLesserThan (_freePos c') (Z.of_nat i)))).
Proof.
  intros Hh Hi Hc j s Hj Hlt. simpl in *. rewrite Hc in Hlt. unfold swapLesserThan in Hlt.
  assert (Hji : Z.of_nat j < _freePos (_counters m) /\ i <> j)
    by (destruct (Z.ltb_spec (Z.of_nat i) (_freePos (_counters m))); lia).
  destruct Hji as [Hj1 Hne]. rewrite list_lookup_insert_ne in Hj by done. by eapply Hh.
Qed.

Lemma releasePages_spec start n m rc m' :
  mgr_ok m -> 1 <= n <= 65535 -> 0 <= start < DMS_MAX_PG ->
  releasePages sq start n m = (rc, m') -> release_post start n m rc m'.
Proof.
  intros [Hinv Hh] Hn H0. unfold releasePages.
  set (i := Z.to_nat (u32 (Z.shiftr start sq))).
  assert (Hid : u32 (Z.shiftr start sq) = Z.of_nat i).
  { unfold i. pose proof (u32_bound (Z.shiftr start sq)). lia. }
  assert (Hnone : forall j seg, _segments m !! j = Some seg -> in_segment start n seg -> j = i).
  { intros j seg Hj [H1 H2]. eapply segment_of; try done. lia. }
  destruct (_segments m !! i) as [seg|] eqn:Hi.
  - destruct (segment_releasePages start n true seg (_pSME m) (_counters m))
      as [[[rc1 seg'] sme'] c'] eqn:Hrun.
    destruct (release_at start n m i seg rc1 seg' sme' c' Hinv ltac:(lia) ltac:(lia) Hi Hrun)
      as (Hinv' & Hrel & Htot & Hsame & Hpos).
    destruct Hrel as [Hin Hall Hbec Htf|Hno Hseg' Hsme']; simpl; intros [= <- <-].
    + rewrite Hid. split; [split|].
      * destruct Hinv' as [? ? ?]. split; simpl in *; try done.
        unfold segmentNum, swapLesserThan in *. simpl in *. case_Zb; lia.
      * by eapply hint_swap.
      * left. split_and!; try done; [by exists i, seg|by apply Htot].
    + rewrite Hsame by done. split; [done|]. right. split_and!; try done.
      intros (j & seg0 & Hj & Hin & Hall). rewrite (Hnone _ _ Hj Hin), Hi in Hj.
      injection Hj as <-. by apply Hno.
  - intros [= <- <-]. split; [done|]. right. split_and!; try done.
    intros (j & seg0 & Hj & Hin & Hall). by rewrite (Hnone _ _ Hj Hin), Hi in Hj.
Qed.

(** *** Growing the file *)

Lemma new_segment_free sme start :
  0 <= start -> start + sp <= DMS_MAX_PG -> pages_free sme start sp ->
  exists seg, seg_ok sme seg /\ _startExtent seg = start /\ _totalSize seg = sp /\
    _totalFree seg = sp /\ forall c,
    segment_releasePages start (u16 sp) false (newSegment start (u16 sp)) sme c
    = (SDB_OK, seg, sme, c).
Proof.
  intros H0 H1 Hfree. pose proof sp_bounds.
  assert (Hu : u16 sp = sp) by (apply u16_small; lia).
  exists (mkSegment [DMS_SEGMENT_NODE_SET 0 sp] sp start sp sp).
  assert (Hd : decode [DMS_SEGMENT_NODE_SET 0 sp] = [(0, sp)])
    by (rewrite decode_cons, unpack_set by lia; done).
  split_and!; try done.
  - split; cbn [_freeSpaceList _totalSize _startExtent _maxNode _totalFree]; rewrite ?Hd.
    + apply Forall_singleton, word_set_ok; lia.
    + lia.
    + lia.
    + simpl. lia.
    + simpl. lia.
    + unfold runs_sum. simpl. lia.
    + intros p Hp. split; [|intros _; apply Hfree; lia]. intros _. simpl.
      rewrite orb_false_r. apply in_run_spec. lia.
  - intros c. unfold segment_releasePages, release_list, newSegment.
    cbn [_freeSpaceList _totalSize _startExtent _maxNode _totalFree].
    rewrite !Hu, Z.sub_diag, (u16_small 0), Z.add_0_l, Hu by lia.
    destruct (Z.ltb_spec start start); [lia|].
    destruct (Z.ltb_spec (start + sp) (start + sp)); [lia|]. cbn [orb].
    destruct (Z.eqb_spec 0 sp); [lia|]. done.
Qed.

(** What [depositASegment] promises for a new segment whose bits are free,
    whether or not the free position is right. *)
Lemma depositASegment_inv start ok m rc m' :
  mgr_inv m -> 0 <= start -> start + sp <= DMS_MAX_PG -> start mod sp = 0 ->
  pages_free (_pSME m) start sp ->
  depositASegment sp sq start ok m = (rc, m') ->
  mgr_inv m' /\ _pSME m' = _pSME m /\ _freePos (_counters m') = _freePos (_counters m) /\
  (_segments m' = _segments m \/ exists seg, _segments m' = _segments m ++ [seg]) /\
  (if (start / sp =? segmentNum m) && ok then
     rc = SDB_OK /\ segmentNum m' = segmentNum m + 1 /\ totalFree m' = totalFree m + sp
   else rc = (if start / sp =? segmentNum m then SDB_OOM else SDB_SYS) /\ m' = m).
Proof.
  intros Hinv H0 H1 Hmod Hfree. pose proof sp_bounds. unfold depositASegment, segmentNum.
  assert (Hid : u32 (Z.shiftr start sq) = start / sp).
  { rewrite Z.shiftr_div_pow2, <-Hsp by lia. apply u32_small.
    split; [apply Z.div_pos; lia|]. apply Z.div_lt_upper_bound; unfold DMS_MAX_PG in *; lia. }
  rewrite Hid. destruct (Z.eqb_spec (start / sp) (Z.of_nat (length (_segments m)))) as [He|];
    simpl; [|intros [= <- <-]; split_and!; auto].
  destruct ok; simpl; [|intros [= <- <-]; split_and!; auto].
  destruct (new_segment_free (_pSME m) start H0 H1 Hfree) as (seg & Hok & Hst & Hsz & Htf & Hrun).
  rewrite Hrun. simpl. intros [= <- <-].
  assert (Hsegs : segs_ok (_pSME m) (_segments m ++ [seg])).
  { intros j s Hj. apply lookup_app_Some in Hj as [Hj|[Hge Hj]]; [by apply (mi_segs _ Hinv)|].
    apply list_lookup_singleton_Some in Hj as [Hj <-]. split_and!; try done.
    rewrite Hst. pose proof (Z.div_mod start sp). nia. }
  pose proof (segs_free_bound _ _ Hsegs) as Hb. rewrite segs_free_app in Hb. simpl in Hb.
  destruct Hinv as [Hs Ht Hp].
  assert (Hu : u16 sp = sp) by (apply u16_small; lia).
  assert (Hu2 : u32 (mgrTotalFree (_counters m) + sp) = mgrTotalFree (_counters m) + sp)
    by (apply u32_pages; lia).
  split_and!; try done.
  - split; simpl; try done.
    + rewrite Hu, Hu2, segs_free_app. simpl. lia.
    + unfold segmentNum in *. simpl. rewrite length_app. simpl. lia.
  - right. by exists seg.
  - simpl. rewrite length_app. simpl. lia.
  - unfold totalFree. simpl. by rewrite Hu, Hu2.
Qed.
(** A segment behind the free position. *)
Lemma appended_segment m m' i seg :
  mgr_inv m -> _segments m' = _segments m \/ (exists seg, _segments m' = _segments m ++ [seg]) ->
  _segments m' !! i = Some seg -> Z.of_nat i < _freePos (_counters m) -> _segments m !! i = Some seg.
Proof.
  intros [_ _ Hp] [->|[seg0 ->]] Hi Hlt; [done|]. unfold segmentNum in Hp.
  rewrite lookup_app_l in Hi; [done|lia].
Qed.

Lemma depositASegment_spec start ok m rc m' :
  mgr_ok m -> 0 <= start -> start + sp <= DMS_MAX_PG -> start mod sp = 0 ->
  pages_free (_pSME m) start sp ->
  depositASegment sp sq start ok m = (rc, m') ->
  mgr_ok m' /\ _pSME m' = _pSME m /\
  (if (start / sp =? segmentNum m) && ok then
     rc = SDB_OK /\ segmentNum m' = segmentNum m + 1 /\ totalFree m' = totalFree m + sp
   else rc = (if start / sp =? segmentNum m then SDB_OOM else SDB_SYS) /\ m' = m).
Proof.
  intros [Hinv Hh] H0 H1 Hmod Hfree Hrun.
  destruct (depositASegment_inv start ok m rc m' Hinv H0 H1 Hmod Hfree Hrun) as (H2 & H3 & H4 & H5 & H6).
  split_and!; [split; [done|]|done|done]. intros i seg Hi Hlt. rewrite H4 in Hlt.
  apply (Hh i); [|done]. by eapply appended_segment.
Qed.

(** *** Interleaving threads

    A thread reserves by attempts on single segments; a thread that gives
    pages back first updates the segment and later, outside the segment's
    mutex, lowers the free position; and the file grows by a segment.
    [sr_pend] lists the segments whose free position update is still to come,
    [sr_held] the pages that reservations handed out and no release that
    returned [SDB_OK] took back. *)
Record smeRun : Type := mkRun {
  sr_mgr : dmsSMEMgr;
  sr_pend : list nat;
  sr_held : list Z
}.

(** The pages of a run. *)
Definition pages (start n : Z) : list Z := map (fun k => start + Z.of_nat k) (seq 0 (Z.to_nat n)).

Definition handed (rc : Z) (found : option Z) (n : Z) : list Z :=
  match found with Some f => if rc =? SDB_OK then pages f n else [] | None => [] end.

Definition taken_back (start n : Z) (held : list Z) : list Z :=
  List.filter (fun p => negb (in_run start n p)) held.

Inductive sme_step : smeRun -> smeRun -> Prop :=
| ss_reserve m pend held n i seg rc found seg' sme' c' :
    1 <= n -> _segments m !! i = Some seg ->
    segment_reservePages n (Z.of_nat i) seg (_pSME m) (_counters m)
      = (rc, found, seg', sme', c') ->
    sme_step (mkRun m pend held)
      (mkRun (mkSMEMgr (<[i := seg']> (_segments m)) sme' c') pend (handed rc found n ++ held))
| ss_release m pend held start n i seg rc seg' sme' c' :
    1 <= n <= 65535 -> 0 <= start -> _segments m !! i = Some seg ->
    segment_releasePages start n true seg (_pSME m) (_counters m) = (rc, seg', sme', c') ->
    sme_step (mkRun m pend held)
      (mkRun (mkSMEMgr (<[i := seg']> (_segments m)) sme' c')
         (if rc =? SDB_OK then i :: pend else pend)
         (if rc =? SDB_OK then taken_back start n held else held))
| ss_hint m pend1 pend2 held i :
    sme_step (mkRun m (pend1 ++ i :: pend2) held)
      (mkRun (mkSMEMgr (_segments m) (_pSME m)
         (mkCounters (mgrTotalFree (_counters m))
            (swapLesserThan (_freePos (_counters m)) (Z.of_nat i)))) (pend1 ++ pend2) held)
| ss_deposit m pend held start ok rc m' :
    0 <= start -> start + sp <= DMS_MAX_PG -> start mod sp = 0 -> pages_free (_pSME m) start sp ->
    depositASegment sp sq start ok m = (rc, m') ->
    sme_step (mkRun m pend held) (mkRun m' pend held).

(** Nobody has a page twice, and who has a page has an allocated page of the
    file. *)
Definition held_ok (m : dmsSMEMgr) (held : list Z) : Prop :=
  NoDup held /\ forall p, p ∈ held -> getBitMask (_pSME m) p = DMS_SME_ALLOCATED /\ 0 <= p < segmentNum m * sp.

Definition pend_ok (m : dmsSMEMgr) (pend : list nat) : Prop :=
  mgr_inv m /\
  forall i seg, _segments m !! i = Some seg -> Z.of_nat i < _freePos (_counters m) ->
    _totalFree seg = 0 \/ exists id, id ∈ pend /\ (id <= i)%nat.

Definition inter_ok (s : smeRun) : Prop :=
  pend_ok (sr_mgr s) (sr_pend s) /\ held_ok (sr_mgr s) (sr_held s).

Lemma insert_lookup_cases (segs : list dmsSegmentSpace) i seg' j s :
  <[i := seg']> segs !! j = Some s -> (i = j /\ s = seg') \/ (i <> j /\ segs !! j = Some s).
Proof.
  destruct (decide (i = j)) as [->|Hne].
  - intros H. left. split; [done|]. assert (Hlt := lookup_lt_Some _ _ _ H).
    rewrite length_insert in Hlt. rewrite list_lookup_insert in H by done.
    rewrite decide_True in H by done. by simplify_eq.
  - rewrite list_lookup_insert_ne by done. auto.
Qed.

Lemma pend_ok_reserve m pend n i seg rc found seg' sme' c' :
  pend_ok m pend -> 1 <= n -> _segments m !! i = Some seg ->
  segment_reservePages n (Z.of_nat i) seg (_pSME m) (_counters m)
    = (rc, found, seg', sme', c') ->
  pend_ok (mkSMEMgr (<[i := seg']> (_segments m)) sme' c') pend.
Proof.
  intros [Hinv Hh] Hn Hi Hrun. simpl in *.
  destruct (reserve_at _ _ _ _ _ _ _ _ _ Hinv Hn Hi Hrun) as (Hinv' & Hres & _ & _ & Hpos).
  split; [done|]. simpl. rewrite Hpos. intros j s Hj Hlt.
  assert (Hle : _totalFree seg' <= _totalFree seg /\ 0 <= _totalFree seg').
  { destruct (mi_segs _ Hinv' i seg') as (Hs' & _).
    { simpl. rewrite list_lookup_insert by (by eapply lookup_lt_Some).
      apply decide_True. split; [done|by eapply lookup_lt_Some]. }
    pose proof (runs_sum_seg _ _ Hs'). destruct Hres as [? ? ? ? ? Htf|? -> ->]; lia. }
  assert (Hold : forall s0, _segments m !! j = Some s0 -> _totalFree s0 = 0 \/
    exists id, id ∈ pend /\ (id <= j)%nat).
  { intros s0 Hs0. destruct (Z.eqb_spec 0 (_totalFree seg)); [|by eapply Hh].
    unfold compareAndSwap in Hlt. destruct (Z.eqb_spec (_freePos (_counters m)) (Z.of_nat i));
      [|by eapply Hh].
    destruct (decide (j = i)) as [->|]; [simplify_eq; by left|]. apply Hh; [done|lia]. }
  apply insert_lookup_cases in Hj as [[<- ->]|[Hne Hj]]; [|by apply Hold].
  destruct (Hold _ Hi) as [H0|?]; [left; lia|by right].
Qed.

Lemma pend_ok_release m pend start n i seg rc seg' sme' c' :
  pend_ok m pend -> 1 <= n <= 65535 -> 0 <= start -> _segments m !! i = Some seg ->
  segment_releasePages start n true seg (_pSME m) (_counters m) = (rc, seg', sme', c') ->
  pend_ok (mkSMEMgr (<[i := seg']> (_segments m)) sme' c') (if rc =? SDB_OK then i :: pend else pend).
Proof.
  intros [Hinv Hh] Hn H0 Hi Hrun.
  destruct (release_at start n m i seg rc seg' sme' c' Hinv ltac:(lia) H0 Hi Hrun)
    as (Hinv' & Hrel & _ & Hsame & Hpos).
  split; [done|]. simpl. rewrite Hpos. intros j s Hj Hlt.
  destruct (Z.eqb_spec rc SDB_OK) as [->|Hne].
  - apply insert_lookup_cases in Hj as [[<- ->]|[Hij Hj]].
    + right. exists i. split; [by left|lia].
    + destruct (Hh _ _ Hj Hlt) as [?|(id & Hid & Hle)]; [by left|right].
      exists id. split; [by right|done].
  - specialize (Hsame Hne). apply (f_equal _segments) in Hsame. simpl in Hsame.
    rewrite Hsame in Hj. by eapply Hh.
Qed.

Lemma pend_ok_hint m pend1 pend2 i :
  pend_ok m (pend1 ++ i :: pend2) ->
  pend_ok (mkSMEMgr (_segments m) (_pSME m) (mkCounters (mgrTotalFree (_counters m))
             (swapLesserThan (_freePos (_counters m)) (Z.of_nat i)))) (pend1 ++ pend2).
Proof.
  intros [Hinv Hh]. destruct Hinv as [Hs Ht Hp].
  assert (Hsw : swapLesserThan (_freePos (_counters m)) (Z.of_nat i)
    <= _freePos (_counters m) /\ swapLesserThan (_freePos (_counters m)) (Z.of_nat i) <= Z.of_nat i
    /\ 0 <= swapLesserThan (_freePos (_counters m)) (Z.of_nat i)).
  { unfold swapLesserThan. case_Zb; lia. }
  split; [split; simpl; try done; unfold segmentNum in *; simpl; lia|].
  simpl. intros j s Hj Hlt. destruct (Hh _ _ Hj ltac:(lia)) as [?|(id & Hid & Hle)]; [by left|right].
  exists id. split; [|done]. apply elem_of_app in Hid as [?|[->|?]%elem_of_cons].
  - apply elem_of_app. by left.
  - lia.
  - apply elem_of_app. by right.
Qed.

Lemma elem_pages p start n : p ∈ pages start n <-> start <= p < start + n.
Proof.
  unfold pages. rewrite list_elem_of_In, in_map_iff. split.
  - intros (k & <- & Hk%in_seq). lia.
  - intros H. exists (Z.to_nat (p - start)). split; [lia|]. apply in_seq. lia.
Qed.

Lemma NoDup_pages start n : NoDup (pages start n).
Proof.
  unfold pages. change (NoDup ((fun k => start + Z.of_nat k) <$> seq 0 (Z.to_nat n))).
  apply NoDup_fmap_2; [|apply NoDup_seq]. intros x y Hxy. lia.
Qed.

Lemma held_ok_reserve m held n i seg rc found seg' sme' c' :
  mgr_inv m -> held_ok m held -> 1 <= n -> _segments m !! i = Some seg ->
  segment_reservePages n (Z.of_nat i) seg (_pSME m) (_counters m) = (rc, found, seg', sme', c') ->
  held_ok (mkSMEMgr (<[i := seg']> (_segments m)) sme' c') (handed rc found n ++ held).
Proof.
  intros Hinv [Hnd Hal] Hn Hi Hrun.
  destruct (reserve_at _ _ _ _ _ _ _ _ _ Hinv Hn Hi Hrun) as (_ & Hres & _).
  destruct (mi_segs _ Hinv _ _ Hi) as (_ & Hst & Hsz). apply lookup_lt_Some in Hi.
  unfold held_ok, segmentNum in *. simpl. rewrite length_insert.
  destruct Hres as [f H1 H2 Hfree Hbec _|_ _ ->]; [|done]. simpl. split.
  - apply NoDup_app. split_and!; [apply NoDup_pages| |done]. intros p Hp%elem_pages Hin.
    apply Hal in Hin as [Hin _]. rewrite Hfree in Hin by done. discriminate.
  - intros p [Hp%elem_pages|Hp]%elem_of_app; rewrite Hbec.
    + rewrite (proj2 (in_run_spec f n p)) by done. split; [done|]. pose proof sp_bounds. nia.
    + destruct (Hal p Hp) as [-> Hb]. by destruct (in_run f n p).
Qed.

Lemma held_ok_release m held start n i seg rc seg' sme' c' :
  mgr_inv m -> held_ok m held -> 1 <= n <= 65535 -> 0 <= start -> _segments m !! i = Some seg ->
  segment_releasePages start n true seg (_pSME m) (_counters m) = (rc, seg', sme', c') ->
  held_ok (mkSMEMgr (<[i := seg']> (_segments m)) sme' c') (if rc =? SDB_OK then taken_back start n held else held).
Proof.
  intros Hinv [Hnd Hal] Hn H0 Hi Hrun.
  destruct (release_at start n m i seg rc seg' sme' c' Hinv ltac:(lia) H0 Hi Hrun) as (_ & Hrel & _).
  unfold held_ok, segmentNum in *. simpl. rewrite length_insert.
  destruct Hrel as [_ _ Hbec _|_ _ ->]; simpl; [|done]. unfold taken_back. split.
  - apply NoDup_ListNoDup, List.NoDup_filter, NoDup_ListNoDup, Hnd.
  - intros p Hp. apply list_elem_of_In, filter_In in Hp as [Hp Hr]. apply list_elem_of_In in Hp.
    rewrite Hbec. destruct (in_run start n p); [done|]. by apply Hal.
Qed.

Lemma inter_ok_step s s' : sme_step s s' -> inter_ok s -> inter_ok s'.
Proof.
  intros Hst [Hp Hheld].
  destruct Hst as [m pend held n i seg rc found seg' sme' c' Hn Hi Hrun
    |m pend held start n i seg rc seg' sme' c' Hn H0 Hi Hrun|m pend1 pend2 held i
    |m pend held start ok rc m' H0 H1 Hmod Hfree Hrun]; cbn [sr_mgr sr_pend sr_held] in *.
  - split; [by eapply pend_ok_reserve|eapply held_ok_reserve; [apply Hp|done..]].
  - split; [by eapply pend_ok_release|eapply held_ok_release; [apply Hp|done..]].
  - split; [by apply pend_ok_hint|done].
  - destruct Hp as [Hinv Hh].
    destruct (depositASegment_inv start ok m rc m' Hinv H0 H1 Hmod Hfree Hrun) as (H2 & H3 & H4 & H5 & _).
    split; [split; [done|]|]; cbn [sr_mgr sr_pend sr_held].
    + intros i seg Hi Hlt. rewrite H4 in Hlt. apply Hh; [|done]. by eapply appended_segment.
    + destruct Hheld as [Hnd Hal]. split; [done|]. intros p Hp. rewrite H3. destruct (Hal p Hp) as [? Hb].
      split; [done|]. pose proof sp_bounds. unfold segmentNum in *.
      destruct H5 as [->|[seg ->]]; [done|]. rewrite length_app. simpl. nia.
Qed.

Lemma inter_ok_reachable m0 s : mgr_ok m0 -> rtc sme_step (mkRun m0 [] []) s -> inter_ok s.
Proof.
  intros [Hinv Hh] Hr.
  assert (H0 : inter_ok (mkRun m0 [] [])).
  { split; [split; [done|]; intros; left; by eapply Hh|]. split; [apply NoDup_nil_2|]. by intros p []%not_elem_of_nil. }
  remember (mkRun m0 [] []) as s0. clear Heqs0. induction Hr; [done|].
  apply IHHr. by eapply inter_ok_step.
Qed.

(** *** Building the free lists from the bitmap *)

Lemma release_list_fresh start n seg :
  seg_shape seg -> in_segment start n seg -> 0 <= n ->
  (forall p, in_run (start - _startExtent seg) n p = true ->
     runs_free (decode (_freeSpaceList seg)) p = false) ->
  exists l mx, release_list start n seg = (SDB_OK, l, mx) /\
    list_given (start - _startExtent seg) n seg l mx.
Proof.
  intros Hsh Hin Hn Hno. destruct (Z.eq_dec n 0) as [->|Hn0].
  - exists (_freeSpaceList seg), (_maxNode seg). split; [|by apply list_given_zero].
    unfold release_list. destruct Hin as [H1 H2].
    destruct (Z.ltb_spec start (_startExtent seg)); [lia|].
    by destruct (Z.ltb_spec (_startExtent seg + _totalSize seg) (start + 0)); [lia|].
  - pose proof (release_list_given start n seg Hsh Hin ltac:(lia)) as Hl.
    destruct (release_list start n seg) as [[rc l] mx].
    destruct Hl as [[-> Hlg]|(_ & _ & _ & p & Hp & Hf)]; [by eauto|].
    by rewrite Hno in Hf.
Qed.

(** The state of the loop after the pages below [i], in a segment that
    starts at [base]. *)
Record init_inv (sme : dmsSpaceManagementExtent) (i : Z) (st : initState)
  (cur : dmsSegmentSpace) : Prop := {
  ii_cur : is_newspace st = Some cur;
  ii_done : segs_ok sme (is_done st);
  ii_base : _startExtent cur = Z.of_nat (length (is_done st)) * sp;
  ii_size : _totalSize cur = sp;
  ii_range : _startExtent cur <= i <= _startExtent cur + sp;
  ii_shape : seg_shape cur;
  ii_total : is_total st = segs_free (is_done st) + _totalFree cur;
  ii_begin : is_inUse st = false -> _startExtent cur <= is_releaseBegin st <= i;
  ii_run : is_inUse st = false ->
    pages_free sme (is_releaseBegin st) (i - is_releaseBegin st);
  ii_bits p : 0 <= p < sp ->
    (runs_free (decode (_freeSpaceList cur)) p = true <->
     _startExtent cur + p < (if is_inUse st then i else is_releaseBegin st) /\
     getBitMask sme (_startExtent cur + p) = DMS_SME_FREE);
  ii_last : _startExtent cur < i ->
    is_inUse st = negb (DMS_SME_FREE =? getBitMask sme (i - 1))
}.

(** The current segment with its free run closed at [i]. *)
Record closed (sme : dmsSpaceManagementExtent) (i : Z) (done : list dmsSegmentSpace)
  (total : Z) (cur : dmsSegmentSpace) : Prop := {
  cl_base : _startExtent cur = Z.of_nat (length done) * sp;
  cl_size : _totalSize cur = sp;
  cl_shape : seg_shape cur;
  cl_total : total = segs_free done + _totalFree cur;
  cl_bits p : 0 <= p < sp ->
    (runs_free (decode (_freeSpaceList cur)) p = true <->
     _startExtent cur + p < i /\ getBitMask sme (_startExtent cur + p) = DMS_SME_FREE)
}.

Lemma init_closed_inUse sme i st cur :
  init_inv sme i st cur -> is_inUse st = true ->
  closed sme i (is_done st) (is_total st) cur.
Proof. intros [] Hu. split; try done. intros p Hp. by rewrite ii_bits0, Hu by done. Qed.

Lemma init_release_closes sme i st cur :
  init_inv sme i st cur -> is_inUse st = false -> i <= DMS_MAX_PG ->
  exists cur', init_release i sme st
    = (SDB_OK, mkInit (is_done st) (Some cur') false (is_releaseBegin st)
                 (is_total st + (i - is_releaseBegin st))) /\
    closed sme i (is_done st) (is_total st + (i - is_releaseBegin st)) cur'.
Proof.
  intros [Hcur Hdone Hbase Hsize Hrange Hshape Htot Hbeg Hrun Hbits Hlast] Hu Hi.
  specialize (Hbeg Hu). specialize (Hrun Hu). rewrite Hu in Hbits. pose proof sp_bounds.
  set (n := i - is_releaseBegin st) in *.
  assert (Hn : u16 n = n) by (apply u16_small; lia).
  destruct (release_list_fresh (is_releaseBegin st) n cur) as (l & mx & Hrl & [Lw Lr Lm Ls Ln Lf]);
    [done|split; lia|lia| |].
  { intros p Hp%in_run_spec. apply not_true_iff_false. rewrite Hbits by lia. lia. }
  exists (mkSegment l mx (_startExtent cur) (_totalSize cur) (_totalFree cur + n)).
  assert (Htf : u16 (_totalFree cur + n) = _totalFree cur + n).
  { apply u16_small. apply runs_sum_bound in Lr; lia. }
  pose proof (segs_free_bound _ _ Hdone) as Hdb.
  assert (Htt : u32 (is_total st + n) = is_total st + n).
  { apply u32_small. apply runs_sum_bound in Lr; unfold DMS_MAX_PG in *; lia. }
  split.
  - unfold init_release. rewrite Hcur. fold n. rewrite Hn. unfold segment_releasePages.
    rewrite Hrl. simpl. by rewrite Htf, Htt, Hu.
  - split; simpl; try done; [split; simpl; try done; lia|lia|].
    intros p Hp. rewrite Lf, orb_true_iff, Hbits, in_run_spec by done. split.
    + intros [[??]|?]; [split; [lia|done]|]. split; [lia|]. apply Hrun. lia.
    + intros [Hlt Hf]. destruct (Z.lt_ge_cases (_startExtent cur + p) (is_releaseBegin st));
        [by left|right; lia].
Qed.
(** A segment closed at its end satisfies the invariant. *)
Lemma closed_segs sme i done total cur :
  segs_ok sme done -> closed sme i done total cur -> i = _startExtent cur + sp ->
  i <= DMS_MAX_PG -> segs_ok sme (done ++ [cur]) /\ total = segs_free (done ++ [cur]).
Proof.
  intros Hdone [Hb Hs [Hw Hsz Hr Hm Ht] Htot Hbits] Hi Hmax. split.
  - intros j s Hj. apply lookup_app_Some in Hj as [Hj|[Hge Hj]]; [by apply Hdone|].
    apply list_lookup_singleton_Some in Hj as [Hj <-]. split; [|split; [|done]].
    + split; try done; [lia|]. intros p Hp. rewrite Hbits by lia. split; [split; [lia|done]|tauto].
    + rewrite Hb. f_equal. lia.
  - rewrite segs_free_app. simpl. lia.
Qed.

Lemma is_boundary_spec i : 0 <= i -> is_boundary sq i = (i mod sp =? 0).
Proof.
  intros Hi. unfold is_boundary. rewrite Z.shiftl_1_l.
  change (2 ^ sq - 1) with (Z.pred (2 ^ sq)).
  rewrite <-Z.ones_equiv, Z.land_ones, <-Hsp by lia. apply Z.eqb_sym.
Qed.

Definition init_start : initState := mkInit [] None false 0 0.

(** A segment is opened at page [i]. *)
Lemma init_open sme i done b rb total :
  segs_ok sme done -> i = Z.of_nat (length done) * sp -> total = segs_free done ->
  init_inv sme i (mkInit done (Some (newSegment i sp)) false i total) (newSegment i sp) /\
  mkInit (init_segments (mkInit done None b rb total)) (Some (newSegment i sp)) false i total
  = mkInit done (Some (newSegment i sp)) false i total.
Proof.
  intros Hd Hi Ht. pose proof sp_bounds.
  assert (Hu : u16 sp = sp) by (apply u16_small; lia).
  split; [|unfold init_segments; simpl; by rewrite app_nil_r].
  split; simpl; rewrite ?Hu; try done; try lia.
  - split; simpl; rewrite ?Hu; try done; try lia. apply Forall_nil_2.
  - intros _ p Hp. lia.
Qed.

Lemma init_boundary_spec sme i st cur :
  init_inv sme i st cur -> i = _startExtent cur + sp -> i <= DMS_MAX_PG ->
  exists st' cur', init_boundary sp i true sme st = (SDB_OK, st') /\
    init_inv sme i st' cur' /\ _startExtent cur' = i.
Proof.
  intros Hinv Hi Hmax. pose proof Hinv as [Hcur Hdone Hbase _ _ _ _ _ _ _ _].
  assert (Hnext : forall cur1 total, closed sme i (is_done st) total cur1 ->
    _startExtent cur1 = _startExtent cur ->
    let done' := is_done st ++ [cur1] in
    init_inv sme i (mkInit done' (Some (newSegment i sp)) false i total) (newSegment i sp)).
  { intros cur1 total Hcl Hst. destruct (closed_segs sme i (is_done st) total cur1) as [H1 H2];
      [done|done|lia|done|].
    destruct (init_open sme i (is_done st ++ [cur1]) false 0 total) as [H3 _]; try done.
    rewrite length_app. simpl. lia. }
  unfold init_boundary. rewrite Hcur. destruct (is_inUse st) eqn:Hu.
  - simpl. eexists _, (newSegment i sp). split; [done|]. split; [|done].
    unfold init_segments. rewrite Hcur. apply Hnext; [|done].
    by apply init_closed_inUse.
  - destruct (init_release_closes sme i st cur Hinv Hu Hmax) as (cur1 & -> & Hcl).
    simpl. eexists _, (newSegment i sp). split; [done|]. split; [|done].
    unfold init_segments. simpl. apply Hnext; [done|].
    rewrite (cl_base _ _ _ _ _ Hcl). by rewrite Hbase.
Qed.

Lemma init_page_spec sme i st cur :
  init_inv sme i st cur -> i < _startExtent cur + sp -> i < DMS_MAX_PG ->
  exists st' cur', init_page i sme st = (SDB_OK, st') /\ init_inv sme (i + 1) st' cur' /\
    _startExtent cur' = _startExtent cur.
Proof.
  intros Hinv Hi Hmax. pose proof Hinv as [Hcur Hdone Hbase Hsize Hrange Hshape Htot Hbeg Hrun Hbits Hlast].
  unfold init_page. destruct (Z.eqb_spec DMS_SME_FREE (getBitMask sme i)) as [Hf|Hf];
    destruct (is_inUse st) eqn:Hu; simpl.
  - eexists _, cur. split; [done|]. split; [|done]. split; simpl; try done; try lia.
    + intros _ p Hp. replace p with i by lia. done.
    + intros _. rewrite Z.add_simpl_r. by rewrite <-Hf.
  - eexists _, cur. split; [done|]. split; [|done]. specialize (Hbeg eq_refl). specialize (Hrun eq_refl).
    split; try done; rewrite ?Hu; try done; try lia.
    + intros _ p Hp. destruct (Z.eq_dec p i) as [->|]; [done|]. apply Hrun. lia.
    + intros _. rewrite Z.add_simpl_r. by rewrite <-Hf.
  - eexists _, cur. split; [done|]. split; [|done]. split; try done; rewrite ?Hu; try done; try lia.
    + intros p Hp. rewrite Hbits by done. split; [intros [??]; split; [lia|done]|].
      intros [Hlt Hfr]. split; [|done].
      destruct (Z.eq_dec (_startExtent cur + p) i) as [He|]; [|lia]. rewrite He in Hfr. congruence.
    + intros _. rewrite Z.add_simpl_r. by destruct (Z.eqb_spec DMS_SME_FREE (getBitMask sme i)).
  - destruct (init_release_closes sme i st cur Hinv Hu ltac:(lia)) as (cur1 & -> & [Cb Cs Csh Ct Cbits]).
    simpl. eexists _, cur1. split; [done|]. assert (Hst : _startExtent cur1 = _startExtent cur) by lia.
    split; [|done]. split; simpl; try done; try lia.
    + intros p Hp. rewrite Cbits by done. split; [intros [??]; split; [lia|done]|].
      intros [Hlt Hfr]. split; [|done].
      destruct (Z.eq_dec (_startExtent cur1 + p) i) as [He|]; [|lia]. rewrite He in Hfr. congruence.
    + intros _. rewrite Z.add_simpl_r.
      change (true = negb (DMS_SME_FREE =? getBitMask sme i)).
      by destruct (Z.eqb_spec DMS_SME_FREE (getBitMask sme i)).
Qed.

(** [n] more pages from page [i], in the middle of the loop. *)
Lemma init_loop_spec sme allocs n i st cur :
  (forall j, allocs j = true) -> init_inv sme i st cur -> _startExtent cur < i ->
  i + Z.of_nat n <= DMS_MAX_PG ->
  exists st' cur', init_loop sp sq n i allocs sme st = (SDB_OK, st') /\
    init_inv sme (i + Z.of_nat n) st' cur' /\ _startExtent cur' < i + Z.of_nat n.
Proof.
  intros Hal. pose proof sp_bounds. revert i st cur.
  induction n as [|n IH]; intros i st cur Hinv Hlt Hmax.
  - exists st, cur. rewrite Z.add_0_r. done.
  - simpl init_loop. pose proof (ii_range _ _ _ _ Hinv) as Hr.
    pose proof (ii_base _ _ _ _ Hinv) as Hb.
    rewrite is_boundary_spec by lia.
    assert (Hstep : exists st1 cur1,
      (if i mod sp =? 0 then init_boundary sp i (allocs i) sme st else (SDB_OK, st))
        = (SDB_OK, st1) /\ init_inv sme i st1 cur1 /\ i < _startExtent cur1 + sp /\
      _startExtent cur1 <= i).
    { destruct (Z.eqb_spec (i mod sp) 0) as [Hm|Hm].
      - assert (i = _startExtent cur + sp) as Hi.
        { rewrite Hb in *. pose proof (Z.div_mod i sp ltac:(lia)) as Hd. rewrite Hm in Hd.
          set (q := i / sp) in *. set (len := Z.of_nat (length (is_done st))) in *.
          assert (len < q) by nia. assert (q <= len + 1) by nia. nia. }
        rewrite Hal. destruct (init_boundary_spec sme i st cur Hinv Hi ltac:(lia))
          as (st1 & cur1 & H1 & H2 & H3). exists st1, cur1. split_and!; try done; lia.
      - exists st, cur. split_and!; try done; try lia.
        destruct (Z.eq_dec i (_startExtent cur + sp)) as [He|]; [|lia].
        exfalso. apply Hm. rewrite He, Hb.
        replace (Z.of_nat (length (is_done st)) * sp + sp)
          with ((Z.of_nat (length (is_done st)) + 1) * sp) by lia. apply Z.mod_mul. lia. }
    destruct Hstep as (st1 & cur1 & -> & Hinv1 & Hlt1 & Hle1). simpl negb. cbv iota.
    destruct (init_page_spec sme i st1 cur1 Hinv1 Hlt1 ltac:(lia)) as (st2 & cur2 & -> & Hinv2 & Hst2).
    simpl negb. cbv iota.
    destruct (IH (i + 1) st2 cur2 Hinv2) as (st3 & cur3 & H1 & H2 & H3); [lia|lia|].
    exists st3, cur3. replace (i + Z.of_nat (S n)) with (i + 1 + Z.of_nat n) by lia. done.
Qed.

(** The first page opens the first segment. *)
Lemma init_loop_first sme allocs n : allocs 0 = true ->
  init_loop sp sq (S n) 0 allocs sme (mkInit [] None false 0 0)
  = let '(rc, st) := init_page 0 sme (mkInit [] (Some (newSegment 0 sp)) false 0 0) in
    if negb (rc =? SDB_OK) then (rc, st) else init_loop sp sq n (0 + 1) allocs sme st.
Proof.
  intros Hal.
  change (init_loop sp sq (S n) 0 allocs sme (mkInit [] None false 0 0))
    with (let '(rc, st) := init_boundary sp 0 (allocs 0) sme (mkInit [] None false 0 0) in
      if negb (rc =? SDB_OK) then (rc, st)
      else let '(rc, st) := init_page 0 sme st in
        if negb (rc =? SDB_OK) then (rc, st)
        else init_loop sp sq n (0 + 1) allocs sme st).
  by rewrite Hal.
Qed.

(** Closing the last segment gives the manager. *)
Lemma init_finish sme k st cur cur' total b rb :
  init_inv sme (k * sp) st cur -> Z.of_nat (length (is_done st)) = k - 1 ->
  closed sme (k * sp) (is_done st) total cur' -> k * sp <= DMS_MAX_PG ->
  let segs := init_segments (mkInit (is_done st) (Some cur') b rb total) in
  mgr_ok (mkSMEMgr segs sme (mkCounters total 0)) /\ Z.of_nat (length segs) = k.
Proof.
  intros Hinv Hlen Hcl Hmax. pose proof sp_bounds. unfold init_segments. simpl.
  destruct (closed_segs sme (k * sp) (is_done st) total cur') as [H1 H2];
    [by destruct Hinv|done|rewrite (cl_base _ _ _ _ _ Hcl); lia|done|].
  split; [split; [split|]|]; simpl; try done.
  - unfold segmentNum. simpl. lia.
  - intros j s Hj Hlt. simpl in Hlt. lia.
  - rewrite length_app. simpl. lia.
Qed.

(** The whole of [init] on a unit of [k] segments. *)
Lemma init_spec sme allocs k :
  (forall j, allocs j = true) -> 0 <= k -> k * sp <= DMS_MAX_PG ->
  exists m, smeMgr_init sp sq (k * sp) allocs sme = (SDB_OK, m) /\ mgr_ok m /\
    _pSME m = sme /\ segmentNum m = k.
Proof.
  intros Hal Hk Hmax. pose proof sp_bounds. unfold smeMgr_init.
  destruct (Z.eq_dec k 0) as [->|Hk0].
  { exists (mkSMEMgr [] sme (mkCounters 0 0)). split; [done|]. split; [|done].
    split; [split|]; simpl; done. }
  assert (Hn : Z.to_nat (k * sp) = S (Z.to_nat (k * sp - 1))) by nia.
  destruct (init_open sme 0 [] false 0 0) as [Hinv0 _];
    [intros j s Hj; by destruct j|done|done|].
  rewrite Hn, init_loop_first by done.
  destruct (init_page_spec sme 0 _ _ Hinv0) as (st1 & cur1 & -> & Hinv1 & Hst1);
    [simpl; lia|unfold DMS_MAX_PG; lia|].
  simpl negb. cbv iota. simpl in Hst1.
  destruct (init_loop_spec sme allocs (Z.to_nat (k * sp - 1)) (0 + 1) st1 cur1)
    as (st2 & cur2 & -> & Hinv2 & Hlt2); [done|done|lia|nia|].
  simpl negb. cbv iota.
  replace (0 + 1 + Z.of_nat (Z.to_nat (k * sp - 1))) with (k * sp) in * by nia.
  pose proof (ii_range _ _ _ _ Hinv2) as Hr. pose proof (ii_base _ _ _ _ Hinv2) as Hb.
  assert (Hlen : Z.of_nat (length (is_done st2)) = k - 1) by nia.
  destruct (Z.ltb_spec 0 (k * sp)); [|nia]. rewrite andb_true_l.
  pose proof (ii_last _ _ _ _ Hinv2 ltac:(lia)) as Hlast.
  destruct (DMS_SME_FREE =? getBitMask sme (k * sp - 1)); simpl in Hlast.
  - destruct (init_release_closes sme (k * sp) st2 cur2 Hinv2 Hlast Hmax) as (cur' & -> & Hcl).
    destruct (init_finish sme k st2 cur2 cur' _ false (is_releaseBegin st2) Hinv2 Hlen Hcl Hmax) as [H1 H2].
    eexists. split; [reflexivity|]. split_and!; [exact H1|done|exact H2].
  - pose proof (init_closed_inUse _ _ _ _ Hinv2 Hlast) as Hcl.
    destruct (init_finish sme k st2 cur2 cur2 _ (is_inUse st2) (is_releaseBegin st2) Hinv2 Hlen Hcl
      Hmax) as [H1 H2].
    assert (Hst : mkInit (is_done st2) (Some cur2) (is_inUse st2) (is_releaseBegin st2) (is_total st2) = st2).
    { destruct Hinv2 as [Hc _ _ _ _ _ _ _ _ _ _]. destruct st2; simpl in *. by rewrite Hc. }
    rewrite Hst in H1, H2. eexists. split; [reflexivity|]. split_and!; [exact H1|done|exact H2].
Qed.
End manager.

(** ** Properties *)

Lemma word_unpack_inj x y : 0 <= x < 2 ^ 32 -> 0 <= y < 2 ^ 32 -> unpack x = unpack y -> x = y.
Proof.
  intros Hx Hy. unfold unpack. rewrite !getstart_div, !getsize_mod.
  assert (Hq : forall z, 0 <= z < 2 ^ 32 -> z / 65536 mod 65536 = z / 65536).
  { intros z Hz. apply Z.mod_small. split; [apply Z.div_pos; lia|].
    apply Z.div_lt_upper_bound; lia. }
  rewrite !Hq by done. intros [= H1 H2].
  rewrite (Z.div_mod x 65536), (Z.div_mod y 65536) by lia. lia.
Qed.

Lemma decode_inj l1 l2 : words_ok l1 -> words_ok l2 -> decode l1 = decode l2 -> l1 = l2.
Proof.
  intros H1. revert l2. induction H1 as [|x l1 Hx H1 IH]; intros [|y l2] H2; try done.
  apply Forall_cons in H2 as [Hy H2]. rewrite !decode_cons. intros [= E1 E2 E3].
  f_equal; [|by apply IH]. apply word_unpack_inj; [done|done|]. unfold unpack. congruence.
Qed.

(** Equal bits, equal segment. *)
Lemma seg_ok_unique sme1 sme2 s1 s2 :
  seg_ok sme1 s1 -> seg_ok sme2 s2 -> _startExtent s1 = _startExtent s2 ->
  _totalSize s1 = _totalSize s2 ->
  (forall p, _startExtent s1 <= p < _startExtent s1 + _totalSize s1 ->
     getBitMask sme1 p = getBitMask sme2 p) -> s1 = s2.
Proof.
  intros H1 H2 Hst Hsz Hbits.
  assert (Hd : decode (_freeSpaceList s1) = decode (_freeSpaceList s2)).
  { apply (runs_ok_unique 0 (_totalSize s1)); [by destruct H1|rewrite Hsz; by destruct H2|].
    intros p. apply eq_true_iff_eq.
    destruct (decide (0 <= p < _totalSize s1)) as [Hp|Hp].
    - rewrite <-(so_bits _ _ H1), <-(so_bits _ _ H2) by lia. rewrite Hbits, Hst by lia. done.
    - split; intros Hf; exfalso; apply Hp.
      + by eapply runs_free_bounds; [apply (so_runs _ _ H1)|].
      + rewrite Hsz. by eapply runs_free_bounds; [apply (so_runs _ _ H2)|]. }
  assert (Hl : _freeSpaceList s1 = _freeSpaceList s2).
  { apply decode_inj; [by destruct H1|by destruct H2|done]. }
  pose proof (so_max _ _ H1) as M1. pose proof (so_max _ _ H2) as M2.
  pose proof (so_total _ _ H1) as T1. pose proof (so_total _ _ H2) as T2.
  destruct s1, s2. simpl in *. subst. congruence.
Qed.

(** [init] on a storage unit of [k] segments and any bitmap succeeds when
    memory does not run out, and builds for every segment the free list that
    represents exactly the free bits of its pages, with the right maximum and
    the right totals. *)
Theorem smeMgr_init_represents_bitmap sp sq sme k :
  0 <= sq <= 15 -> sp = 2 ^ sq -> 0 <= k -> k * sp <= DMS_MAX_PG ->
  exists m, smeMgr_init sp sq (k * sp) (fun _ => true) sme = (SDB_OK, m) /\
    mgr_ok sp m /\ _pSME m = sme /\ segmentNum m = k.
Proof. intros. by apply init_spec. Qed.

Lemma smeMgr_init_represents_bitmap_witness :
  exists m, smeMgr_init 4 2 (2 * 4) (fun _ => true) (setBitMask (mkSME ∅) 5) = (SDB_OK, m) /\
    mgr_ok 4 m /\ _pSME m = setBitMask (mkSME ∅) 5 /\ segmentNum m = 2.
Proof.
  apply (smeMgr_init_represents_bitmap 4 2 (setBitMask (mkSME ∅) 5) 2).
  - lia.
  - reflexivity.
  - lia.
  - unfold DMS_MAX_PG. lia.
Defined.

(** Two segments of four pages, page 5 in use. *)
Definition demo_mgr : dmsSMEMgr :=
  (smeMgr_init 4 2 8 (fun _ => true) (setBitMask (mkSME ∅) 5)).2.

Lemma demo_mgr_ok : mgr_ok 4 demo_mgr.
Proof.
  destruct (init_spec 4 2 ltac:(lia) eq_refl (setBitMask (mkSME ∅) 5) (fun _ => true) 2)
    as (m & Hm & Hok & _); [done|lia|unfold DMS_MAX_PG; lia|].
  unfold demo_mgr. change 8 with (2 * 4). by rewrite Hm.
Qed.

(** C32: [reservePages] always returns [SDB_OK] and keeps the invariant.  It
    either hands out [n] pages of one segment that the bitmap had as free and
    marks exactly those as allocated, or answers with the invalid page and
    changes no segment and no bit, and then no segment has [n] consecutive
    free pages, whatever the free position hint was. *)
Theorem reservePages_correct sp sq n m rc found m' :
  0 <= sq <= 15 -> sp = 2 ^ sq -> mgr_ok sp m -> 1 <= n ->
  reservePages n m = (rc, found, m') -> reserve_post sp n m rc found m'.
Proof. intros Hsq Hsp. by apply (reservePages_spec sp sq). Qed.

Lemma reservePages_correct_witness :
  (reservePages 3 demo_mgr).1 = (SDB_OK, Some 0) /\
  reserve_post 4 3 demo_mgr SDB_OK (Some 0) (reservePages 3 demo_mgr).2.
Proof.
  split; [vm_compute; reflexivity|].
  apply (reservePages_correct 4 2).
  - lia.
  - reflexivity.
  - apply demo_mgr_ok.
  - lia.
  - vm_compute. reflexivity.
Defined.

(** C33: [releasePages] of 1 to 65535 pages returns [SDB_OK] exactly when all of
    them lie in one segment and are allocated, and then frees exactly them;
    otherwise, that is for a double free, a partial overlap with free pages or
    pages that cross a segment or lie behind the last, it returns [SDB_SYS] and
    changes nothing. *)
Theorem releasePages_correct sp sq start n m rc m' :
  0 <= sq <= 15 -> sp = 2 ^ sq -> mgr_ok sp m -> 1 <= n <= 65535 -> 0 <= start < DMS_MAX_PG ->
  releasePages sq start n m = (rc, m') -> release_post sp start n m rc m'.
Proof. intros Hsq Hsp. by apply (releasePages_spec sp sq). Qed.

Lemma releasePages_correct_witness :
  (releasePages 2 5 1 demo_mgr).1 = SDB_OK /\ (releasePages 2 4 2 demo_mgr).1 = SDB_SYS /\
  release_post 4 5 1 demo_mgr SDB_OK (releasePages 2 5 1 demo_mgr).2.
Proof.
  split; [vm_compute; reflexivity|]. split; [vm_compute; reflexivity|].
  apply (releasePages_correct 4 2).
  - lia.
  - reflexivity.
  - apply demo_mgr_ok.
  - lia.
  - unfold DMS_MAX_PG. lia.
  - vm_compute. reflexivity.
Defined.

Lemma reserve_release_bits sp sq n m f m1 :
  0 <= sq <= 15 -> sp = 2 ^ sq -> mgr_ok sp m -> 1 <= n -> f <> INVALID_PAGE ->
  reservePages n m = (SDB_OK, Some f, m1) ->
  mgr_ok sp m1 /\ pages_become DMS_SME_ALLOCATED (_pSME m) f n (_pSME m1) /\
  pages_free (_pSME m) f n /\ totalFree m1 = totalFree m - n /\
  exists i seg, _segments m !! i = Some seg /\ _startExtent seg <= f /\
    f + n <= _startExtent seg + _totalSize seg.
Proof.
  intros Hsq Hsp Hok Hn Hf Hrun.
  destruct (reservePages_spec sp sq Hsq Hsp _ _ _ _ _ Hok Hn Hrun) as (_ & Hok1 & Hcase).
  destruct Hcase as [(i & seg & f' & H1 & [= <-] & H2 & H3 & H4 & H5 & H6)|([= ->] & _)]; [|done].
  split_and!; eauto.
Qed.

Lemma segments_length_same {A} (f : list A) g :
  length f = length g -> (forall i x y, f !! i = Some x -> g !! i = Some y -> x = y) -> f = g.
Proof.
  intros Hl H. apply list_eq. intros i. destruct (f !! i) as [x|] eqn:E.
  - destruct (lookup_lt_is_Some_2 g i) as [y Hy]; [rewrite <-Hl; by eapply lookup_lt_Some|].
    rewrite Hy. by rewrite (H i x y).
  - symmetry. apply lookup_ge_None. rewrite <-Hl. by apply lookup_ge_None.
Qed.

Lemma reserve_loop_length n pos before after sme c rc found m' :
  reserve_loop n pos before after sme c = (rc, found, m') ->
  length (_segments m') = (length before + length after)%nat.
Proof.
  revert pos before sme c. induction after as [|seg after IH]; intros pos before sme c; simpl.
  - intros [= <- <- <-]. simpl. lia.
  - destruct (segment_reservePages n pos seg sme c) as [[[[rc1 f1] seg'] sme'] c'].
    destruct (rc1 =? SDB_OK); [|destruct (negb (rc1 =? SDB_DMS_NOSPC))].
    + intros [= <- <- <-]. simpl. rewrite length_app. done.
    + intros [= <- <- <-]. simpl. rewrite length_app. done.
    + intros H. apply IH in H. rewrite length_app in H. simpl in H. lia.
Qed.

(** Reserving pages and giving them back restores the state: the release
    succeeds, and every segment has literally the free list, maximum and total
    it had, because the free list is the normal form of the set of free
    pages. *)
Theorem reserve_release_roundtrip sp sq n m f m1 rc m2 :
  0 <= sq <= 15 -> sp = 2 ^ sq -> mgr_ok sp m -> 1 <= n -> f <> INVALID_PAGE ->
  reservePages n m = (SDB_OK, Some f, m1) -> releasePages sq f n m1 = (rc, m2) ->
  rc = SDB_OK /\ _segments m2 = _segments m /\ totalFree m2 = totalFree m /\
  forall p, getBitMask (_pSME m2) p = getBitMask (_pSME m) p.
Proof.
  intros Hsq Hsp Hok Hn Hf Hres Hrel.
  destruct (reserve_release_bits sp sq n m f m1) as (Hok1 & Hbec & Hfree & Htot & i & seg & Hi & H1 & H2);
    [done..|].
  destruct (mi_segs sp m (proj1 Hok) _ _ Hi) as (Hseg & Hst & Hsz).
  pose proof (so_start _ _ Hseg). pose proof (so_size _ _ Hseg).
  assert (Hlen1 : length (_segments m1) = length (_segments m)).
  { unfold reservePages in Hres. apply reserve_loop_length in Hres.
    by rewrite <-length_app, take_drop in Hres. }
  assert (Hi1 : exists seg1, _segments m1 !! i = Some seg1).
  { apply lookup_lt_is_Some_2. rewrite Hlen1. by eapply lookup_lt_Some. }
  destruct Hi1 as [seg1 Hi1]. destruct (mi_segs sp m1 (proj1 Hok1) _ _ Hi1) as (_ & Hst1 & Hsz1).
  destruct (releasePages_spec sp sq Hsq Hsp f n m1 rc m2 Hok1 ltac:(lia) ltac:(unfold DMS_MAX_PG in *; lia) Hrel)
    as (Hok2 & [(-> & _ & _ & Hbec2 & Htot2)|(_ & _ & Hno)]).
  2: { exfalso. apply Hno. exists i, seg1. split; [done|]. split; [split; lia|].
       intros p Hp. rewrite Hbec. destruct (in_run f n p) eqn:E; [done|].
       apply not_true_iff_false in E. rewrite in_run_spec in E. lia. }
  assert (Hbits : forall p, getBitMask (_pSME m2) p = getBitMask (_pSME m) p).
  { intros p. rewrite Hbec2, Hbec. destruct (in_run f n p) eqn:E; [|done].
    symmetry. apply Hfree. by apply in_run_spec. }
  split_and!; [done| |lia|done].
  assert (Hlen2 : length (_segments m2) = length (_segments m1)).
  { apply (f_equal snd) in Hrel. unfold releasePages in Hrel.
    destruct (_segments m1 !! _) eqn:E; [|simpl in Hrel; by rewrite <-Hrel].
    destruct (segment_releasePages _ _ _ _ _ _) as [[[rc' ?] ?] ?].
    destruct (rc' =? SDB_OK); simpl in Hrel; rewrite <-Hrel; simpl; by rewrite length_insert. }
  apply segments_length_same; [congruence|]. intros j x y Hx Hy.
  destruct (mi_segs sp m2 (proj1 Hok2) _ _ Hx) as (Hx1 & Hx2 & Hx3).
  destruct (mi_segs sp m (proj1 Hok) _ _ Hy) as (Hy1 & Hy2 & Hy3).
  eapply seg_ok_unique; [exact Hx1|exact Hy1|congruence|congruence|]. intros p _. apply Hbits.
Qed.

Lemma reserve_release_roundtrip_witness :
  SDB_OK = SDB_OK /\
  _segments (releasePages 2 0 3 (reservePages 3 demo_mgr).2).2 = _segments demo_mgr /\
  totalFree (releasePages 2 0 3 (reservePages 3 demo_mgr).2).2 = totalFree demo_mgr /\
  forall p, getBitMask (_pSME (releasePages 2 0 3 (reservePages 3 demo_mgr).2).2) p
            = getBitMask (_pSME demo_mgr) p.
Proof.
  apply (reserve_release_roundtrip 4 2 3 demo_mgr 0 (reservePages 3 demo_mgr).2).
  - lia.
  - reflexivity.
  - apply demo_mgr_ok.
  - lia.
  - discriminate.
  - vm_compute. reflexivity.
  - vm_compute. reflexivity.
Defined.

(** C31: However reservation attempts, releases, free-position updates and
    growth of the file by segments with free bits interleave in many threads (a
    release updates its segment first and lowers the position later, outside
    the segment's mutex), the pages that reservations returned and no release
    took back are all different, lie in the file and are marked as allocated:
    no page is handed out twice.  The free lists keep representing the bitmap
    and the total free count is right; and as soon as no update is
    outstanding, no segment before the free position has a free page, so that
    the reservation loop that starts there misses nothing. *)
Theorem sme_interleaving_safe sp sq m0 m pend held :
  0 <= sq <= 15 -> sp = 2 ^ sq -> mgr_ok sp m0 -> rtc (sme_step sp sq) (mkRun m0 [] []) (mkRun m pend held) ->
  NoDup held /\
  (forall p, p ∈ held -> getBitMask (_pSME m) p = DMS_SME_ALLOCATED /\ 0 <= p < segmentNum m * sp) /\
  mgr_inv sp m /\ (pend = [] -> hint_ok m).
Proof.
  intros Hsq Hsp H0 Hr. destruct (inter_ok_reachable sp sq Hsq Hsp _ _ H0 Hr) as [[Hinv Hh] [Hnd Hal]].
  split_and!; [done|done|done|]. simpl in *. intros ->. intros i seg Hi Hlt.
  destruct (Hh i seg Hi Hlt) as [?|(id & Hid & _)]; [done|]. by apply not_elem_of_nil in Hid.
Qed.

(** Segment 0 is emptied, found full, and gives two pages back; segment 1
    hands out its last two pages. *)
Definition demo_reserve (n : Z) (i : nat) (r : smeRun) : smeRun :=
  match _segments (sr_mgr r) !! i with
  | Some seg =>
      let '(rc, found, seg', sme', c') :=
        segment_reservePages n (Z.of_nat i) seg (_pSME (sr_mgr r)) (_counters (sr_mgr r)) in
      mkRun (mkSMEMgr (<[i := seg']> (_segments (sr_mgr r))) sme' c') (sr_pend r) (handed rc found n ++ sr_held r)
  | None => r
  end.
Definition demo_release (start n : Z) (i : nat) (r : smeRun) : smeRun :=
  match _segments (sr_mgr r) !! i with
  | Some seg =>
      let '(rc, seg', sme', c') :=
        segment_releasePages start n true seg (_pSME (sr_mgr r)) (_counters (sr_mgr r)) in
      mkRun (mkSMEMgr (<[i := seg']> (_segments (sr_mgr r))) sme' c')
        (if rc =? SDB_OK then i :: sr_pend r else sr_pend r)
        (if rc =? SDB_OK then taken_back start n (sr_held r) else sr_held r)
  | None => r
  end.
Definition demo_inter : smeRun :=
  demo_release 1 2 0 (demo_reserve 2 1 (demo_reserve 1 0 (demo_reserve 4 0 (mkRun demo_mgr [] [])))).

Lemma sme_interleaving_safe_witness :
  sr_pend demo_inter = [0%nat] /\ sr_held demo_inter = [6; 7; 0; 3] /\
  _freePos (_counters (sr_mgr demo_inter)) = 1 /\ NoDup [6; 7; 0; 3] /\
  getBitMask (_pSME (sr_mgr demo_inter)) 7 = DMS_SME_ALLOCATED /\ mgr_inv 4 (sr_mgr demo_inter).
Proof.
  destruct (sme_interleaving_safe 4 2 demo_mgr (sr_mgr demo_inter) (sr_pend demo_inter) (sr_held demo_inter))
    as (H1 & H2 & H3 & _).
  - lia.
  - reflexivity.
  - apply demo_mgr_ok.
  - eapply rtc_l.
    { eapply (ss_reserve 4 2 demo_mgr [] [] 4 0%nat); [lia|vm_compute; reflexivity..]. }
    eapply rtc_l.
    { eapply (ss_reserve 4 2 _ [] _ 1 0%nat); [lia|vm_compute; reflexivity..]. }
    eapply rtc_l.
    { eapply (ss_reserve 4 2 _ [] _ 2 1%nat); [lia|vm_compute; reflexivity..]. }
    eapply rtc_l.
    { eapply (ss_release 4 2 _ [] _ 1 2 0%nat); [lia|lia|vm_compute; reflexivity..]. }
    apply rtc_refl.
  - split; [vm_compute; reflexivity|]. assert (E : sr_held demo_inter = [6; 7; 0; 3]) by (vm_compute; reflexivity).
    rewrite E in H1, H2. split; [exact E|]. split; [vm_compute; reflexivity|]. split; [exact H1|].
    split; [|exact H3]. apply H2. apply list_elem_of_further, list_elem_of_here.
Defined.

(** [depositASegment] adds the next segment, when its bits are free: the
    free lists then represent the bitmap of the longer file and the total grows
    by one segment; a wrong start is refused with [SDB_SYS] and a failed
    allocation with [SDB_OOM], both without any change. *)
Theorem depositASegment_correct sp sq start ok m rc m' :
  0 <= sq <= 15 -> sp = 2 ^ sq -> mgr_ok sp m ->
  0 <= start -> start + sp <= DMS_MAX_PG -> start mod sp = 0 ->
  pages_free (_pSME m) start sp -> depositASegment sp sq start ok m = (rc, m') ->
  mgr_ok sp m' /\ _pSME m' = _pSME m /\
  (if (start / sp =? segmentNum m) && ok then
     rc = SDB_OK /\ segmentNum m' = segmentNum m + 1 /\ totalFree m' = totalFree m + sp
   else rc = (if start / sp =? segmentNum m then SDB_OOM else SDB_SYS) /\ m' = m).
Proof. intros Hsq Hsp. by apply depositASegment_spec. Qed.

Lemma depositASegment_correct_witness :
  mgr_ok 4 (depositASegment 4 2 8 true demo_mgr).2 /\
  _pSME (depositASegment 4 2 8 true demo_mgr).2 = _pSME demo_mgr /\
  (if (8 / 4 =? segmentNum demo_mgr) && true then
     SDB_OK = SDB_OK /\
     segmentNum (depositASegment 4 2 8 true demo_mgr).2 = segmentNum demo_mgr + 1 /\
     totalFree (depositASegment 4 2 8 true demo_mgr).2 = totalFree demo_mgr + 4
   else SDB_OK = (if 8 / 4 =? segmentNum demo_mgr then SDB_OOM else SDB_SYS) /\
     (depositASegment 4 2 8 true demo_mgr).2 = demo_mgr).
Proof.
  apply (depositASegment_correct 4 2 8 true demo_mgr SDB_OK).
  - lia.
  - reflexivity.
  - apply demo_mgr_ok.
  - lia.
  - unfold DMS_MAX_PG. lia.
  - reflexivity.
  - intros p Hp. assert (p = 8 \/ p = 9 \/ p = 10 \/ p = 11) as [->|[->|[->| ->]]] by lia;
      vm_compute; reflexivity.
  - vm_compute. reflexivity.
Defined.
