(* ===== verification/Vote.v ===== *)
(** * Election: the vote state machine of a replica group member

    Models [cls/clsVoteMachine.cpp], [cls/clsVoteStatus.cpp] and the five
    statuses [cls/clsVSSilence.cpp], [clsVSSecondary.cpp], [clsVSVote.cpp],
    [clsVSAnnounce.cpp], [clsVSPrimary.cpp], with the group information of
    [include/clsDef.hpp].  What a status reads of other components (start-up
    state, replay bucket, transaction state, log end, options) is the record
    [voteEnv]; what it sends or announces is a list of [output]s. *)

From stdpp Require Import base list.
From Stdlib Require Import ZArith Lia.
From S2P Require Import Prelude DpsLsn.

Open Scope Z_scope.

(** ** Group information *)

Inductive CLS_NODE_SERVICE_STATUS : Set :=
| SERVICE_NORMAL
| SERVICE_ABNORMAL
| SERVICE_UNKNOWN.

#[export] Instance serviceStatus_eq_dec : EqDecision CLS_NODE_SERVICE_STATUS.
Proof. solve_decision. Defined.

Inductive CLS_SYNC_STATUS : Set :=
| CLS_SYNC_STATUS_NONE
| CLS_SYNC_STATUS_PEER
| CLS_SYNC_STATUS_RC.

#[export] Instance syncStatus_eq_dec : EqDecision CLS_SYNC_STATUS.
Proof. solve_decision. Defined.

Definition CLS_BEATID_INVALID : Z := 0.
Definition CLS_BEATID_BEGIN : Z := 1.

(** [2 ^ 31] of the source is an exclusive or. *)
Definition CLS_BEAT_ID_OVERTURN_WINDOW : Z := Z.lxor 2 31.

Inductive CLS_GROUP_ROLE : Set :=
| CLS_GROUP_ROLE_SECONDARY
| CLS_GROUP_ROLE_PRIMARY.

#[export] Instance groupRole_eq_dec : EqDecision CLS_GROUP_ROLE.
Proof. solve_decision. Defined.

Record clsGroupBeat : Set := mkBeat {
  beat_endLsn : DPS_LSN;
  beat_identity : Z;
  beat_weight : Z;
  beat_hashCode : Z;
  beat_version : Z;
  beat_role : CLS_GROUP_ROLE;
  beat_syncStatus : CLS_SYNC_STATUS;
  beat_beatID : Z;
  beat_serviceStatus : CLS_NODE_SERVICE_STATUS
}.

Definition isValidID (b : clsGroupBeat) (id : Z) : bool :=
  if CLS_BEATID_INVALID =? beat_beatID b then true
  else if beat_beatID b <? id then true
  else if CLS_BEAT_ID_OVERTURN_WINDOW <? u32 (beat_beatID b - id) then true
  else false.

Record clsSharingStatus : Set := mkSharing {
  sh_beat : clsGroupBeat;
  sh_timeout : Z;
  sh_breakTime : Z;
  sh_deadtime : Z;
  sh_sendFailedTimes : Z
}.

(** [alives] points into [info]; it is kept as the keys in map order. *)
Record clsGroupInfo : Set := mkGroup {
  gi_info : list (Z * clsSharingStatus);
  gi_alives : list Z;
  gi_primary : Z;
  gi_local : Z;
  gi_localBeatID : Z;
  gi_version : Z;
  gi_hashCode : Z
}.

Definition MSG_INVALID_ROUTEID : Z := 0.

Definition groupSize (g : clsGroupInfo) : Z := Z.of_nat (length (gi_info g)) + 1.
Definition aliveSize (g : clsGroupInfo) : Z := Z.of_nat (length (gi_alives g)) + 1.

Definition nextBeatID (g : clsGroupInfo) : Z :=
  let n := u32 (gi_localBeatID g + 1) in
  if n <=? CLS_BEATID_BEGIN then CLS_BEATID_BEGIN + 1 else n.

Definition isAllNodeBeat (g : clsGroupInfo) : bool :=
  forallb (fun '(_, s) => negb (0 =? beat_beatID (sh_beat s))) (gi_info g).

Definition isAllNodeAbnormal (g : clsGroupInfo) (timeout : Z) : bool :=
  forallb (fun '(_, s) =>
    match beat_serviceStatus (sh_beat s) with
    | SERVICE_NORMAL => false
    | SERVICE_UNKNOWN => negb ((0 =? timeout) || (sh_breakTime s <? timeout))
    | SERVICE_ABNORMAL => true
    end) (gi_info g).

Definition getAlivesByTimeout (g : clsGroupInfo) (timeout : Z) : Z :=
  foldr (fun '(_, s) n =>
    if bool_decide (beat_serviceStatus (sh_beat s) = SERVICE_UNKNOWN) &&
       ((0 =? timeout) || (timeout <? sh_breakTime s)) then n else n + 1) 1 (gi_info g).

(** [CLS_IS_MAJORITY( now, total )] *)
Definition CLS_IS_MAJORITY (now total : Z) : bool := total / 2 <? now.

Definition CLS_ELECTION_WEIGHT_MIN : Z := 0.
Definition CLS_ELECTION_WEIGHT_USR_MIN : Z := 1.

Definition CLS_GET_WEIGHT (weight shadowWeight : Z) : Z :=
  if CLS_ELECTION_WEIGHT_MIN =? shadowWeight then shadowWeight
  else if weight <? shadowWeight then shadowWeight else weight.

(** ** Messages *)

Inductive CLS_ELECTION_ROUND : Set :=
| CLS_ELECTION_ROUND_STAGE_ONE
| CLS_ELECTION_ROUND_STAGE_TWO.

Inductive electionMsg : Set :=
| MSG_CLS_BALLOT (round : CLS_ELECTION_ROUND) (weights : DPS_LSN) (identity : Z)
| MSG_CLS_BALLOT_RES (round : CLS_ELECTION_ROUND) (res : Z) (identity : Z)
| MSG_OTHER.

Inductive output : Set :=
| SendBallot (to : Z) (round : CLS_ELECTION_ROUND) (weights : DPS_LSN)
| SendBallotRes (to : Z) (round : CLS_ELECTION_ROUND) (res : Z)
| NtyPrimaryChange (primary before : bool)
| ReelectionDone
| CallCatalog (newPrimary oldPrimary times : Z).

(** What other components tell the vote statuses. *)
Record voteEnv : Set := mkVoteEnv {
  startupIsOK : bool;          (* pmdGetStartup().isOK() *)
  replBucketIsEmpty : bool;    (* sdbGetReplCB()->getBucket()->isEmpty() *)
  isNeedSyncTrans : bool;      (* sdbGetTransCB()->isNeedSyncTrans() *)
  expectLsn : DPS_LSN;         (* dps logger *)
  optWeight : Z;               (* pmdGetOptionCB()->weight() *)
  sharingBreakTime : Z         (* pmdGetOptionCB()->sharingBreakTime() *)
}.

(** ** Launching a ballot and answering one *)

(** The nodes of [alives], through their pointers into [info]. *)
Definition aliveNodes (g : clsGroupInfo) : list clsSharingStatus :=
  omap (fun id => om_find id (gi_info g)) (gi_alives g).

Definition broadcastAlives (g : clsGroupInfo) (mk : Z -> output) : list output :=
  map (fun s => mk (beat_identity (sh_beat s))) (aliveNodes g).

(** [_launch( round )]: start a round as a candidate. *)
Definition launch_round (env : voteEnv) (g : clsGroupInfo) (round : CLS_ELECTION_ROUND)
  : Z * list output :=
  if negb (0 =? gi_primary g) then (SDB_CLS_VOTE_FAILED, [])
  else if negb (CLS_IS_MAJORITY (aliveSize g) (groupSize g)) then (SDB_CLS_VOTE_FAILED, [])
  else if negb (startupIsOK env) && negb (isAllNodeAbnormal g 0) then (SDB_CLS_VOTE_FAILED, [])
  else if negb (replBucketIsEmpty env) then (SDB_CLS_VOTE_FAILED, [])
  else if isNeedSyncTrans env && startupIsOK env then (SDB_CLS_VOTE_FAILED, [])
  else
    let lsn := expectLsn env in
    let behind s :=
      negb (bool_decide (beat_serviceStatus (sh_beat s) = SERVICE_ABNORMAL) && startupIsOK env)
      && (lsn_compare lsn (beat_endLsn (sh_beat s)) <? 0) in
    if existsb behind (aliveNodes g) then (SDB_CLS_VOTE_FAILED, [])
    else (SDB_OK, broadcastAlives g (fun id => SendBallot id round lsn)).

(** The verdict of a member on a ballot: [None] gives no answer. *)
Definition judge_ballot (env : voteEnv) (g : clsGroupInfo) (shadowWeight : Z)
  (lsn : DPS_LSN) (id : Z) : option bool :=
  match om_find id (gi_info g) with
  | None => None
  | Some peer =>
      let peerAbnormal := negb (bool_decide (beat_serviceStatus (sh_beat peer) = SERVICE_NORMAL)) in
      let localAbnormal := negb (startupIsOK env) in
      if negb (MSG_INVALID_ROUTEID =? gi_primary g) then Some false
      else if negb (CLS_IS_MAJORITY (aliveSize g) (groupSize g)) then None
      else
        let ahead s :=
          negb (negb peerAbnormal &&
                bool_decide (beat_serviceStatus (sh_beat s) = SERVICE_ABNORMAL))
          && (lsn_compare lsn (beat_endLsn (sh_beat s)) <? 0) in
        if existsb ahead (aliveNodes g) then Some false
        else if negb localAbnormal || peerAbnormal then
          let cRc := lsn_compare (expectLsn env) lsn in
          if cRc <? 0 then Some true
          else if 0 <? cRc then Some false
          else
            let weight := CLS_GET_WEIGHT (optWeight env) shadowWeight in
            let remoteWeight := beat_weight (sh_beat peer) in
            if weight <? remoteWeight then Some true
            else if remoteWeight <? weight then Some false
            else if beat_weight (sh_beat peer) <? optWeight env then Some false
            else if id <? gi_local g then Some false
            else Some true
        else Some true
  end.

(** [_launch( lsn, id, round )]: answer a ballot. *)
Definition launch_reply (env : voteEnv) (g : clsGroupInfo) (shadowWeight : Z)
  (lsn : DPS_LSN) (id : Z) (round : CLS_ELECTION_ROUND) : Z * list output :=
  match judge_ballot env g shadowWeight lsn id with
  | None => (SDB_CLS_VOTE_FAILED, [])
  | Some true => (SDB_OK, [SendBallotRes id round SDB_OK])
  | Some false => (SDB_CLS_VOTE_FAILED, [SendBallotRes id round SDB_CLS_VOTE_FAILED])
  end.

(** ** The machine *)

Inductive CLS_ELECTION_STATUS : Set :=
| CLS_ELECTION_STATUS_SILENCE
| CLS_ELECTION_STATUS_SEC
| CLS_ELECTION_STATUS_VOTE
| CLS_ELECTION_STATUS_ANNOUNCE
| CLS_ELECTION_STATUS_PRIMARY.

#[export] Instance electionStatus_eq_dec : EqDecision CLS_ELECTION_STATUS.
Proof. solve_decision. Defined.

(** [_time] and [_acceptedNum] of the five status objects; they are set by
    [active] before they are read.  [vm_shift] is the global
    [g_startShiftTime], [vm_pmdPrimary] the flag of [pmdSetPrimary]. *)
Record clsVoteMachine : Set := mkVM {
  vm_current : option CLS_ELECTION_STATUS;
  vm_time : CLS_ELECTION_STATUS -> Z;
  vm_accepted : CLS_ELECTION_STATUS -> Z;
  vm_group : clsGroupInfo;
  vm_shadowWeight : Z;
  vm_forceMillis : Z;
  vm_shift : Z;
  vm_hasPrint : bool;
  vm_pmdPrimary : bool
}.

Definition upd (f : CLS_ELECTION_STATUS -> Z) (s : CLS_ELECTION_STATUS) (v : Z)
  : CLS_ELECTION_STATUS -> Z := fun s' => if decide (s = s') then v else f s'.

Definition set_current (m : clsVoteMachine) c :=
  mkVM c (vm_time m) (vm_accepted m) (vm_group m) (vm_shadowWeight m) (vm_forceMillis m)
       (vm_shift m) (vm_hasPrint m) (vm_pmdPrimary m).
Definition set_time (m : clsVoteMachine) s v :=
  mkVM (vm_current m) (upd (vm_time m) s v) (vm_accepted m) (vm_group m) (vm_shadowWeight m)
       (vm_forceMillis m) (vm_shift m) (vm_hasPrint m) (vm_pmdPrimary m).
Definition set_accepted (m : clsVoteMachine) s v :=
  mkVM (vm_current m) (vm_time m) (upd (vm_accepted m) s v) (vm_group m) (vm_shadowWeight m)
       (vm_forceMillis m) (vm_shift m) (vm_hasPrint m) (vm_pmdPrimary m).
Definition set_group (m : clsVoteMachine) g :=
  mkVM (vm_current m) (vm_time m) (vm_accepted m) g (vm_shadowWeight m) (vm_forceMillis m)
       (vm_shift m) (vm_hasPrint m) (vm_pmdPrimary m).
Definition set_force (m : clsVoteMachine) v :=
  mkVM (vm_current m) (vm_time m) (vm_accepted m) (vm_group m) (vm_shadowWeight m) v
       (vm_shift m) (vm_hasPrint m) (vm_pmdPrimary m).
Definition set_shift (m : clsVoteMachine) v :=
  mkVM (vm_current m) (vm_time m) (vm_accepted m) (vm_group m) (vm_shadowWeight m)
       (vm_forceMillis m) v (vm_hasPrint m) (vm_pmdPrimary m).
Definition set_hasPrint (m : clsVoteMachine) v :=
  mkVM (vm_current m) (vm_time m) (vm_accepted m) (vm_group m) (vm_shadowWeight m)
       (vm_forceMillis m) (vm_shift m) v (vm_pmdPrimary m).
Definition set_pmdPrimary (m : clsVoteMachine) v :=
  mkVM (vm_current m) (vm_time m) (vm_accepted m) (vm_group m) (vm_shadowWeight m)
       (vm_forceMillis m) (vm_shift m) (vm_hasPrint m) v.
Definition setShadowWeight (m : clsVoteMachine) v :=
  mkVM (vm_current m) (vm_time m) (vm_accepted m) (vm_group m) v (vm_forceMillis m)
       (vm_shift m) (vm_hasPrint m) (vm_pmdPrimary m).

Definition with_primary (g : clsGroupInfo) (p : Z) : clsGroupInfo :=
  mkGroup (gi_info g) (gi_alives g) p (gi_local g) (gi_localBeatID g) (gi_version g)
    (gi_hashCode g).

Definition CLS_VOTE_CS_TIME : Z := 3000.
Definition maxSliceTime : Z := 30 * 1000.

(** Conversion of a [UINT32] to [INT32]. *)
Definition i32 (x : Z) : Z := if u32 x <? 2 ^ 31 then u32 x else u32 x - 2 ^ 32.

(** The result of a handler: machine, messages, [next]. *)
Definition vresult : Type := clsVoteMachine * list output * CLS_ELECTION_STATUS.

Definition addTime (m : clsVoteMachine) (s : CLS_ELECTION_STATUS) (millisec : Z) :=
  set_time m s (u32 (vm_time m s + millisec)).

(** [_isAccepted] *)
Definition isAccepted (m : clsVoteMachine) (s : CLS_ELECTION_STATUS) : bool :=
  CLS_IS_MAJORITY (vm_accepted m s + 1) (groupSize (vm_group m)).

Section handlers.
Context (env : voteEnv).

Definition reply (m : clsVoteMachine) (lsn : DPS_LSN) (id : Z) (round : CLS_ELECTION_ROUND) :=
  launch_reply env (vm_group m) (vm_shadowWeight m) lsn id round.

(** *** Silence *)

Definition silence_handleInput (msg : electionMsg) (m : clsVoteMachine) : vresult :=
  (m, [], CLS_ELECTION_STATUS_SILENCE).

Definition silence_handleTimeout (millisec : Z) (m : clsVoteMachine) : vresult :=
  let m := addTime m CLS_ELECTION_STATUS_SILENCE millisec in
  let t := vm_time m CLS_ELECTION_STATUS_SILENCE in
  if (u32 (sharingBreakTime env + 1000) <=? t) || (maxSliceTime <=? t)
  then (m, [], CLS_ELECTION_STATUS_SEC)
  else (m, [], CLS_ELECTION_STATUS_SILENCE).

Definition silence_active (m : clsVoteMachine) : vresult :=
  let m := set_time m CLS_ELECTION_STATUS_SILENCE 0 in
  if groupSize (vm_group m) =? 1 then (m, [], CLS_ELECTION_STATUS_SEC)
  else (m, [], CLS_ELECTION_STATUS_SILENCE).

(** *** Secondary *)

Definition secondary_handleInput (msg : electionMsg) (m : clsVoteMachine) : vresult :=
  match msg with
  | MSG_CLS_BALLOT_RES _ _ _ => (m, [], CLS_ELECTION_STATUS_SEC)
  | MSG_CLS_BALLOT round lsn id =>
      let m := set_shift m (-1) in
      let '(rc, out) := reply m lsn id round in
      match round with
      | CLS_ELECTION_ROUND_STAGE_ONE => (m, out, CLS_ELECTION_STATUS_SEC)
      | CLS_ELECTION_ROUND_STAGE_TWO =>
          if SDB_OK =? rc then (m, out, CLS_ELECTION_STATUS_SILENCE)
          else (m, out, CLS_ELECTION_STATUS_SEC)
      end
  | MSG_OTHER => (m, [], CLS_ELECTION_STATUS_SEC)
  end.

Definition secondary_handleTimeout (millisec : Z) (m : clsVoteMachine) : vresult :=
  let m := addTime m CLS_ELECTION_STATUS_SEC millisec in
  let t := vm_time m CLS_ELECTION_STATUS_SEC in
  let m := if (0 <? vm_shift m) && isAllNodeBeat (vm_group m) then set_shift m (-1) else m in
  if ((vm_shift m <? 0) || (vm_shift m <=? i32 t)) && (CLS_VOTE_CS_TIME <=? t)
  then (set_shift m (-1), [], CLS_ELECTION_STATUS_VOTE)
  else
    let m := if negb (vm_hasPrint m) && (CLS_VOTE_CS_TIME <=? t)
             then set_hasPrint m true else m in
    (m, [], CLS_ELECTION_STATUS_SEC).

Definition secondary_active (m : clsVoteMachine) : vresult :=
  let m := set_hasPrint (set_time m CLS_ELECTION_STATUS_SEC 0) false in
  if groupSize (vm_group m) =? 1 then (set_shift m (-1), [], CLS_ELECTION_STATUS_VOTE)
  else (m, [], CLS_ELECTION_STATUS_SEC).

(** *** Vote *)

Definition vote_handleInput (msg : electionMsg) (m : clsVoteMachine) : vresult :=
  match msg with
  | MSG_CLS_BALLOT round lsn id =>
      let '(rc, out) := reply m lsn id round in
      match round with
      | CLS_ELECTION_ROUND_STAGE_ONE =>
          if SDB_OK =? rc then (m, out, CLS_ELECTION_STATUS_SEC)
          else (m, out, CLS_ELECTION_STATUS_VOTE)
      | CLS_ELECTION_ROUND_STAGE_TWO =>
          if SDB_OK =? rc then (m, out, CLS_ELECTION_STATUS_SILENCE)
          else (m, out, CLS_ELECTION_STATUS_VOTE)
      end
  | MSG_CLS_BALLOT_RES CLS_ELECTION_ROUND_STAGE_ONE res _ =>
      if SDB_OK =? res then
        let m := set_accepted m CLS_ELECTION_STATUS_VOTE
                   (u32 (vm_accepted m CLS_ELECTION_STATUS_VOTE + 1)) in
        if groupSize (vm_group m) <=? u32 (vm_accepted m CLS_ELECTION_STATUS_VOTE + 1)
        then (m, [], CLS_ELECTION_STATUS_ANNOUNCE)
        else (m, [], CLS_ELECTION_STATUS_VOTE)
      else (m, [], CLS_ELECTION_STATUS_SEC)
  | MSG_CLS_BALLOT_RES CLS_ELECTION_ROUND_STAGE_TWO _ _ => (m, [], CLS_ELECTION_STATUS_VOTE)
  | MSG_OTHER => (m, [], CLS_ELECTION_STATUS_VOTE)
  end.

Definition vote_handleTimeout (millisec : Z) (m : clsVoteMachine) : vresult :=
  let m := addTime m CLS_ELECTION_STATUS_VOTE millisec in
  if CLS_VOTE_CS_TIME <=? vm_time m CLS_ELECTION_STATUS_VOTE then
    if negb (startupIsOK env) && isAllNodeAbnormal (vm_group m) 0
    then (m, [], CLS_ELECTION_STATUS_SEC)
    else if isAccepted m CLS_ELECTION_STATUS_VOTE then (m, [], CLS_ELECTION_STATUS_ANNOUNCE)
    else (m, [], CLS_ELECTION_STATUS_SEC)
  else (m, [], CLS_ELECTION_STATUS_VOTE).

Definition vote_active (m : clsVoteMachine) : vresult :=
  let m := set_accepted (set_time m CLS_ELECTION_STATUS_VOTE 0) CLS_ELECTION_STATUS_VOTE 0 in
  if (groupSize (vm_group m) =? 1) && startupIsOK env
  then (m, [], CLS_ELECTION_STATUS_ANNOUNCE)
  else (m, (launch_round env (vm_group m) CLS_ELECTION_ROUND_STAGE_ONE).2,
        CLS_ELECTION_STATUS_VOTE).

(** *** Announce *)

Definition announce_handleInput (msg : electionMsg) (m : clsVoteMachine) : vresult :=
  match msg with
  | MSG_CLS_BALLOT _ _ _ => (m, [], CLS_ELECTION_STATUS_ANNOUNCE)
  | MSG_CLS_BALLOT_RES CLS_ELECTION_ROUND_STAGE_ONE _ _ => (m, [], CLS_ELECTION_STATUS_ANNOUNCE)
  | MSG_CLS_BALLOT_RES CLS_ELECTION_ROUND_STAGE_TWO res _ =>
      if SDB_OK =? res then
        let m := set_accepted m CLS_ELECTION_STATUS_ANNOUNCE
                   (u32 (vm_accepted m CLS_ELECTION_STATUS_ANNOUNCE + 1)) in
        if groupSize (vm_group m) <=? u32 (vm_accepted m CLS_ELECTION_STATUS_ANNOUNCE + 1)
        then (m, [], CLS_ELECTION_STATUS_PRIMARY)
        else (m, [], CLS_ELECTION_STATUS_ANNOUNCE)
      else (m, [], CLS_ELECTION_STATUS_SILENCE)
  | MSG_OTHER => (m, [], CLS_ELECTION_STATUS_ANNOUNCE)
  end.

Definition announce_handleTimeout (millisec : Z) (m : clsVoteMachine) : vresult :=
  let m := addTime m CLS_ELECTION_STATUS_ANNOUNCE millisec in
  if CLS_VOTE_CS_TIME <=? vm_time m CLS_ELECTION_STATUS_ANNOUNCE then
    if isAccepted m CLS_ELECTION_STATUS_ANNOUNCE then (m, [], CLS_ELECTION_STATUS_PRIMARY)
    else (m, [], CLS_ELECTION_STATUS_SILENCE)
  else (m, [], CLS_ELECTION_STATUS_ANNOUNCE).

Definition announce_active (m : clsVoteMachine) : vresult :=
  let m := set_accepted (set_time m CLS_ELECTION_STATUS_ANNOUNCE 0)
             CLS_ELECTION_STATUS_ANNOUNCE 0 in
  if groupSize (vm_group m) =? 1 then (m, [], CLS_ELECTION_STATUS_PRIMARY)
  else (m, (launch_round env (vm_group m) CLS_ELECTION_ROUND_STAGE_TWO).2,
        CLS_ELECTION_STATUS_ANNOUNCE).

(** *** Primary *)

Definition CLS_PRIMARY_UP_NOTIFY_TIMES : Z := 60.

Definition primary_handleInput (msg : electionMsg) (m : clsVoteMachine) : vresult :=
  (m, [], CLS_ELECTION_STATUS_PRIMARY).

Definition primary_handleTimeout (millisec : Z) (m : clsVoteMachine) : vresult :=
  let m := addTime m CLS_ELECTION_STATUS_PRIMARY millisec in
  if CLS_VOTE_CS_TIME <=? vm_time m CLS_ELECTION_STATUS_PRIMARY then
    if CLS_IS_MAJORITY (aliveSize (vm_group m)) (groupSize (vm_group m))
    then (set_time m CLS_ELECTION_STATUS_PRIMARY 0, [], CLS_ELECTION_STATUS_PRIMARY)
    else (m, [], CLS_ELECTION_STATUS_SILENCE)
  else (m, [], CLS_ELECTION_STATUS_PRIMARY).

Definition primary_deactive (m : clsVoteMachine) : clsVoteMachine * list output :=
  let g := vm_group m in
  let g' := if gi_local g =? gi_primary g then with_primary g MSG_INVALID_ROUTEID else g in
  (set_pmdPrimary (set_group m g') false,
   [NtyPrimaryChange false true; NtyPrimaryChange false false;
    CallCatalog (gi_primary g') (gi_local g') 1]).

Definition primary_active (m : clsVoteMachine) : vresult :=
  let m := set_time m CLS_ELECTION_STATUS_PRIMARY 0 in
  let g := vm_group m in
  (set_pmdPrimary (set_group m (with_primary g (gi_local g))) true,
   [NtyPrimaryChange true true; ReelectionDone; NtyPrimaryChange true false;
    CallCatalog (gi_local g) (gi_primary g) CLS_PRIMARY_UP_NOTIFY_TIMES],
   CLS_ELECTION_STATUS_PRIMARY).

(** *** Dispatch *)

Definition status_handleInput (s : CLS_ELECTION_STATUS) :=
  match s with
  | CLS_ELECTION_STATUS_SILENCE => silence_handleInput
  | CLS_ELECTION_STATUS_SEC => secondary_handleInput
  | CLS_ELECTION_STATUS_VOTE => vote_handleInput
  | CLS_ELECTION_STATUS_ANNOUNCE => announce_handleInput
  | CLS_ELECTION_STATUS_PRIMARY => primary_handleInput
  end.

Definition status_handleTimeout (s : CLS_ELECTION_STATUS) :=
  match s with
  | CLS_ELECTION_STATUS_SILENCE => silence_handleTimeout
  | CLS_ELECTION_STATUS_SEC => secondary_handleTimeout
  | CLS_ELECTION_STATUS_VOTE => vote_handleTimeout
  | CLS_ELECTION_STATUS_ANNOUNCE => announce_handleTimeout
  | CLS_ELECTION_STATUS_PRIMARY => primary_handleTimeout
  end.

Definition status_active (s : CLS_ELECTION_STATUS) :=
  match s with
  | CLS_ELECTION_STATUS_SILENCE => silence_active
  | CLS_ELECTION_STATUS_SEC => secondary_active
  | CLS_ELECTION_STATUS_VOTE => vote_active
  | CLS_ELECTION_STATUS_ANNOUNCE => announce_active
  | CLS_ELECTION_STATUS_PRIMARY => primary_active
  end.

Definition status_deactive (s : CLS_ELECTION_STATUS) (m : clsVoteMachine)
  : clsVoteMachine * list output :=
  match s with
  | CLS_ELECTION_STATUS_PRIMARY => primary_deactive m
  | _ => (m, [])
  end.

(** ** The machine's operations *)

(** The loop of [CLS_VOTE_ACTIVE_STATUS]; [None] when [fuel] runs out. *)
Fixpoint active_loop (fuel : nat) (now prevVS : option CLS_ELECTION_STATUS)
  (nextStatus : CLS_ELECTION_STATUS) (m : clsVoteMachine) (out : list output)
  : option (clsVoteMachine * list output) :=
  match fuel with
  | O => None
  | S fuel' =>
      if decide (now = Some nextStatus) then Some (m, out)
      else
        let '(m, out1) :=
          match prevVS with Some s => status_deactive s m | None => (m, []) end in
        let cur := nextStatus in
        let '(m, out2, nextStatus) := status_active cur m in
        active_loop fuel' (Some cur) (Some cur) nextStatus
          (set_current m (Some nextStatus)) (out ++ out1 ++ out2)
  end.

(** [CLS_VOTE_ACTIVE_STATUS( next )].  A status activates itself or a later
    one, so seven turns always suffice. *)
Definition activate (next : CLS_ELECTION_STATUS) (m : clsVoteMachine)
  : option (clsVoteMachine * list output) :=
  match active_loop 7 (vm_current m) (vm_current m) next (set_current m (Some next)) [] with
  | Some (m', out) => Some (set_force m' 0, out)
  | None => None
  end.

Definition CLS_VOTE_FIRST_STATUS : CLS_ELECTION_STATUS := CLS_ELECTION_STATUS_SILENCE.

(** [init]; [ok] tells whether the five statuses could be allocated. *)
Definition voteMachine_init (ok : bool) (m : clsVoteMachine)
  : option (Z * clsVoteMachine * list output) :=
  if negb ok then Some (SDB_OOM, m, [])
  else match activate CLS_VOTE_FIRST_STATUS m with
       | Some (m', out) => Some (SDB_OK, m', out)
       | None => None
       end.

Definition voteMachine_handleInput (msg : electionMsg) (m : clsVoteMachine)
  : option (Z * clsVoteMachine * list output) :=
  match vm_current m with
  | None => Some (SDB_INVALIDARG, m, [])
  | Some s =>
      let '(m, out, next) := status_handleInput s msg m in
      match activate next m with
      | Some (m', out') => Some (SDB_OK, m', out ++ out')
      | None => None
      end
  end.

Definition voteMachine_handleTimeout (millisec : Z) (m : clsVoteMachine)
  : option (clsVoteMachine * list output) :=
  match vm_current m with
  | None => Some (m, [])
  | Some s =>
      if 0 <? vm_forceMillis m then
        if vm_forceMillis m <=? millisec then Some (set_force m 0, [])
        else Some (set_force m (vm_forceMillis m - millisec), [])
      else
        let '(m, out, next) := status_handleTimeout s millisec m in
        match activate next m with
        | Some (m', out') => Some (m', out ++ out')
        | None => None
        end
  end.

Definition voteMachine_force (id : CLS_ELECTION_STATUS) (millis : Z) (m : clsVoteMachine)
  : option (clsVoteMachine * list output) :=
  match activate id m with
  | Some (m', out) => Some (if 0 <? millis then set_force m' millis else m', out)
  | None => None
  end.

Definition primaryIsMe (m : clsVoteMachine) : bool :=
  (gi_local (vm_group m) =? gi_primary (vm_group m)) &&
  negb (gi_primary (vm_group m) =? MSG_INVALID_ROUTEID).

Definition isInStepUp (m : clsVoteMachine) : bool := 0 <? vm_forceMillis m.
End handlers.
