(* ===== verification/VoteFacts.v ===== *)
(** * Election: what the vote machine guarantees

    The theorems about [Vote]: activation terminates, the primary role and its
    flags agree, a member becomes primary only with a counted majority of
    acceptances, an acceptance silences the member for a fixed time, the
    comparison of candidates is antisymmetric. *)

From stdpp Require Import base list.
From Stdlib Require Import ZArith Lia.
From S2P Require Import Prelude DpsLsn Vote.

Open Scope Z_scope.

(** ** Activation *)

Definition rank (s : CLS_ELECTION_STATUS) : nat :=
  match s with
  | CLS_ELECTION_STATUS_SILENCE => 0
  | CLS_ELECTION_STATUS_SEC => 1
  | CLS_ELECTION_STATUS_VOTE => 2
  | CLS_ELECTION_STATUS_ANNOUNCE => 3
  | CLS_ELECTION_STATUS_PRIMARY => 4
  end.

Lemma status_active_next env s m :
  (status_active env s m).2 = s \/ (rank s < rank (status_active env s m).2)%nat.
Proof.
  destruct s; simpl; unfold silence_active, secondary_active, vote_active, announce_active;
    try (destruct (_ =? _)); simpl; auto; try (destruct (startupIsOK env)); simpl; auto; right; lia.
Qed.

(** The loop ends in the status whose activation kept it. *)
Lemma active_loop_total env fuel now prev next m out :
  (7 - rank next <= fuel)%nat -> (now = Some next -> vm_current m = Some next) ->
  vm_current m = Some next ->
  exists m' out', active_loop env fuel now prev next m out = Some (m', out') /\
    exists s, vm_current m' = Some s.
Proof.
  revert now prev next m out. induction fuel as [|fuel IH]; intros now prev next m out Hf Hn Hc.
  { destruct next; simpl in Hf; lia. }
  simpl. destruct (decide (now = Some next)); [eauto|].
  destruct (match prev with Some s => status_deactive s m | None => (m, []) end) as [m1 o1].
  pose proof (status_active_next env next m1) as Hs.
  destruct (status_active env next m1) as [[m2 o2] next']. simpl in Hs.
  destruct fuel as [|fuel]; [destruct next; simpl in Hf; lia|].
  destruct Hs as [->|Hlt].
  - simpl. rewrite decide_True by done. eexists _, _. split; [done|]. eauto.
  - apply IH; [lia|done|done].
Qed.

Lemma activate_total env next m :
  exists m' out s, activate env next m = Some (m', out) /\ vm_current m' = Some s.
Proof.
  unfold activate.
  destruct (active_loop_total env 7 (vm_current m) (vm_current m) next (set_current m (Some next)) [])
    as (m' & out & -> & s & Hs); [lia|done|done|].
  exists (set_force m' 0), out, s. done.
Qed.

(** In a group of several members every status keeps its own activation. *)
Lemma status_active_multi env s m :
  groupSize (vm_group m) <> 1 -> (status_active env s m).2 = s.
Proof.
  intros Hg. destruct s; simpl; unfold silence_active, secondary_active, vote_active, announce_active;
    try done; simpl; by destruct (Z.eqb_spec (groupSize (vm_group m)) 1).
Qed.

Lemma deactive_group s m :
  groupSize (vm_group (status_deactive s m).1) = groupSize (vm_group m).
Proof. destruct s; try done. simpl. by destruct (_ =? _). Qed.

Definition leave (m : clsVoteMachine) : clsVoteMachine * list output :=
  match vm_current m with
  | Some s => status_deactive s m
  | None => (m, [])
  end.

Lemma activate_stay env next m :
  vm_current m = Some next -> activate env next m = Some (set_force (set_current m (Some next)) 0, []).
Proof. intros Hc. unfold activate. rewrite Hc. simpl. by rewrite decide_True. Qed.

Lemma deactive_current s m c :
  status_deactive s (set_current m c)
  = (set_current (status_deactive s m).1 c, (status_deactive s m).2).
Proof. by destruct s. Qed.

Lemma active_loop_step env fuel now prev next m out :
  now <> Some next ->
  active_loop env (S fuel) now prev next m out
  = let '(m1, o1) := match prev with Some s => status_deactive s m | None => (m, []) end in
    let '(m2, o2, n2) := status_active env next m1 in
    active_loop env fuel (Some next) (Some next) n2 (set_current m2 (Some n2)) (out ++ o1 ++ o2).
Proof. intros H. simpl. by rewrite decide_False. Qed.

Lemma active_loop_stop env fuel prev next m out :
  active_loop env (S fuel) (Some next) prev next m out = Some (m, out).
Proof. simpl. by rewrite decide_True. Qed.

Lemma activate_move env next m :
  vm_current m <> Some next -> groupSize (vm_group m) <> 1 ->
  exists m1 m2 o1 o2, leave m = (m1, o1) /\
    status_active env next (set_current m1 (Some next)) = (m2, o2, next) /\
    activate env next m = Some (set_force (set_current m2 (Some next)) 0, o1 ++ o2).
Proof.
  intros Hc Hg. unfold activate. rewrite active_loop_step by done.
  assert (Hl : exists m1 o1, leave m = (m1, o1) /\ groupSize (vm_group m1) <> 1 /\
    match vm_current m with
    | Some s => status_deactive s (set_current m (Some next))
    | None => (set_current m (Some next), [])
    end = (set_current m1 (Some next), o1)).
  { unfold leave. destruct (vm_current m) as [s|]; [|eauto].
    rewrite deactive_current. pose proof (deactive_group s m) as Hgm.
    destruct (status_deactive s m) as [m1 o1]. simpl in *. exists m1, o1. by rewrite Hgm. }
  destruct Hl as (m1 & o1 & Hl & Hg1 & Hd). rewrite Hd.
  pose proof (status_active_multi env next (set_current m1 (Some next)) Hg1) as Hn.
  destruct (status_active env next (set_current m1 (Some next))) as [[m2 o2] n2] eqn:Ha.
  simpl in Hn. subst n2. rewrite active_loop_stop. exists m1, m2, o1, o2. done.
Qed.

(** ** The primary role *)

(** [prev] is the status the member is in as far as its role is concerned. *)
Definition role_in (prev : option CLS_ELECTION_STATUS) (m : clsVoteMachine) : Prop :=
  (vm_pmdPrimary m = true <-> prev = Some CLS_ELECTION_STATUS_PRIMARY) /\
  (prev = Some CLS_ELECTION_STATUS_PRIMARY -> gi_primary (vm_group m) = gi_local (vm_group m)).

(** The global flag is set exactly in the primary status, and then the group's
    primary is this member. *)
Definition role_ok (m : clsVoteMachine) : Prop := role_in (vm_current m) m.

Lemma deactive_role s m : role_in (Some s) m -> vm_pmdPrimary (status_deactive s m).1 = false.
Proof. intros [[H _] _]. destruct s; try done; simpl; destruct (vm_pmdPrimary m); auto; by specialize (H eq_refl). Qed.

Lemma active_role env s m :
  vm_pmdPrimary m = false -> role_in (Some s) (status_active env s m).1.1.
Proof.
  intros H. destruct s; simpl; unfold silence_active, secondary_active, vote_active, announce_active;
    repeat (match goal with |- context [if ?c then _ else _] => destruct c end);
    split; simpl; try rewrite H; done.
Qed.

Lemma active_loop_role env fuel prev next m out m' out' :
  role_in prev m -> vm_current m = Some next ->
  active_loop env fuel prev prev next m out = Some (m', out') -> role_ok m'.
Proof.
  revert prev next m out. induction fuel as [|fuel IH]; intros prev next m out Hr Hc; [done|].
  destruct (decide (prev = Some next)) as [->|Hne].
  - rewrite active_loop_stop. intros [= <- <-]. unfold role_ok. by rewrite Hc.
  - rewrite active_loop_step by done.
    assert (Hd : vm_pmdPrimary (match prev with Some s => status_deactive s m | None => (m, []) end).1 = false).
    { destruct prev as [s|]; [by apply deactive_role|]. destruct Hr as [[H _] _]. simpl.
      destruct (vm_pmdPrimary m); [|done]. by specialize (H eq_refl). }
    destruct (match prev with Some s => status_deactive s m | None => (m, []) end) as [m1 o1].
    pose proof (active_role env next m1 Hd) as Ha.
    destruct (status_active env next m1) as [[m2 o2] n2]. simpl in Ha. apply IH; done.
Qed.

Lemma activate_role env next m m' out :
  role_ok m -> activate env next m = Some (m', out) -> role_ok m'.
Proof.
  unfold activate. intros Hr.
  destruct (active_loop _ _ _ _ _ _ _) as [[m1 o1]|] eqn:Hl; [|done]. intros [= <- <-].
  apply active_loop_role in Hl; done.
Qed.

(** Handlers change neither status, group nor flag. *)
Definition same_role (m m' : clsVoteMachine) : Prop :=
  vm_current m' = vm_current m /\ vm_group m' = vm_group m /\ vm_pmdPrimary m' = vm_pmdPrimary m /\
  vm_forceMillis m' = vm_forceMillis m.

Lemma handleInput_role env s msg m : same_role m (status_handleInput env s msg m).1.1.
Proof.
  destruct s; simpl; unfold secondary_handleInput, vote_handleInput, announce_handleInput;
    repeat (match goal with
            | |- context [match ?x with _ => _ end] => destruct x
            | |- context [if ?c then _ else _] => destruct c
            end); by split_and!.
Qed.

Lemma handleTimeout_role env s ms m : same_role m (status_handleTimeout env s ms m).1.1.
Proof.
  destruct s; simpl; unfold silence_handleTimeout, secondary_handleTimeout, vote_handleTimeout,
    announce_handleTimeout, primary_handleTimeout; cbv zeta;
    repeat (match goal with |- context [if ?c then _ else _] => destruct c end); by split_and!.
Qed.

Lemma same_role_ok m m' : same_role m m' -> role_ok m -> role_ok m'.
Proof. intros (Hc & Hg & Hp & _). unfold role_ok, role_in. by rewrite Hc, Hg, Hp. Qed.

(** ** Events and runs *)

(** What happens to a member: a message, a timer, a forced status, or a change
    of the group information by the heartbeats. *)
Inductive event : Set :=
| EvInput (env : voteEnv) (msg : electionMsg)
| EvTimeout (env : voteEnv) (millisec : Z)
| EvForce (env : voteEnv) (id : CLS_ELECTION_STATUS) (millis : Z)
| EvGroup (g : clsGroupInfo).

Definition event_step (ev : event) (m : clsVoteMachine) : option (clsVoteMachine * list output) :=
  match ev with
  | EvInput env msg =>
      match voteMachine_handleInput env msg m with
      | Some (_, m', out) => Some (m', out)
      | None => None
      end
  | EvTimeout env ms => voteMachine_handleTimeout env ms m
  | EvForce env id ms => voteMachine_force env id ms m
  | EvGroup g => Some (set_group m g, [])
  end.

Fixpoint run_events (evs : list event) (m : clsVoteMachine)
  : option (clsVoteMachine * list output) :=
  match evs with
  | [] => Some (m, [])
  | ev :: evs' =>
      match event_step ev m with
      | None => None
      | Some (m1, o1) =>
          match run_events evs' m1 with
          | None => None
          | Some (m2, o2) => Some (m2, o1 ++ o2)
          end
      end
  end.

Lemma run_events_app evs1 evs2 m :
  run_events (evs1 ++ evs2) m
  = match run_events evs1 m with
    | None => None
    | Some (m1, o1) =>
        match run_events evs2 m1 with
        | None => None
        | Some (m2, o2) => Some (m2, o1 ++ o2)
        end
    end.
Proof.
  revert m. induction evs1 as [|ev evs1 IH]; intros m; simpl.
  - by destruct (run_events evs2 m) as [[??]|].
  - destruct (event_step ev m) as [[m1 o1]|]; [|done]. rewrite IH.
    destruct (run_events evs1 m1) as [[m2 o2]|]; [|done].
    destruct (run_events evs2 m2) as [[m3 o3]|]; [|done]. by rewrite app_assoc.
Qed.

Lemma event_step_total ev m : exists m' out, event_step ev m = Some (m', out).
Proof.
  destruct ev as [env msg|env ms|env id ms|g]; simpl.
  - unfold voteMachine_handleInput. destruct (vm_current m) as [s|]; [|eauto].
    destruct (status_handleInput env s msg m) as [[m1 o1] n1].
    destruct (activate_total env n1 m1) as (m2 & o2 & s2 & -> & _). eauto.
  - unfold voteMachine_handleTimeout. destruct (vm_current m) as [s|]; [|eauto].
    destruct (0 <? vm_forceMillis m); [destruct (_ <=? _); eauto|].
    destruct (status_handleTimeout env s ms m) as [[m1 o1] n1].
    destruct (activate_total env n1 m1) as (m2 & o2 & s2 & -> & _). eauto.
  - unfold voteMachine_force. destruct (activate_total env id m) as (m2 & o2 & s2 & -> & _). eauto.
  - eauto.
Qed.

Lemma run_events_total evs m : exists m' out, run_events evs m = Some (m', out).
Proof.
  revert m. induction evs as [|ev evs IH]; intros m; simpl; [eauto|].
  destruct (event_step_total ev m) as (m1 & o1 & ->). destruct (IH m1) as (m2 & o2 & ->). eauto.
Qed.

(** A change of group information keeps the role when it leaves a primary
    member its own primary. *)
Definition group_event_ok (ev : event) (m : clsVoteMachine) : Prop :=
  match ev with
  | EvGroup g => vm_current m = Some CLS_ELECTION_STATUS_PRIMARY -> gi_primary g = gi_local g
  | _ => True
  end.

Lemma event_step_role ev m m' out :
  role_ok m -> group_event_ok ev m -> event_step ev m = Some (m', out) -> role_ok m'.
Proof.
  intros Hr Hg. destruct ev as [env msg|env ms|env id ms|g]; simpl.
  - unfold voteMachine_handleInput. destruct (vm_current m) as [s|] eqn:Hc;
      [|by intros [= <- <-]].
    pose proof (handleInput_role env s msg m) as Hs.
    destruct (status_handleInput env s msg m) as [[m1 o1] n1]. simpl in Hs.
    destruct (activate env n1 m1) as [[m2 o2]|] eqn:Ha; [|done]. intros [= <- <-].
    eapply activate_role; [|exact Ha]. by eapply same_role_ok.
  - unfold voteMachine_handleTimeout. destruct (vm_current m) as [s|] eqn:Hc;
      [|by intros [= <- <-]].
    destruct (0 <? vm_forceMillis m).
    { destruct (_ <=? _); intros [= <- <-]; exact Hr. }
    pose proof (handleTimeout_role env s ms m) as Hs.
    destruct (status_handleTimeout env s ms m) as [[m1 o1] n1]. simpl in Hs.
    destruct (activate env n1 m1) as [[m2 o2]|] eqn:Ha; [|done]. intros [= <- <-].
    eapply activate_role; [|exact Ha]. by eapply same_role_ok.
  - unfold voteMachine_force. destruct (activate env id m) as [[m2 o2]|] eqn:Ha; [|done].
    intros [= <- <-]. apply activate_role in Ha; [|done]. by destruct (0 <? ms).
  - intros [= <- <-]. destruct Hr as [Hp Hq]. split; simpl; [exact Hp|exact Hg].
Qed.

(** ** Becoming primary takes a majority *)

Definition acceptance (ev : event) : Z :=
  match ev with
  | EvInput _ (MSG_CLS_BALLOT_RES CLS_ELECTION_ROUND_STAGE_TWO res _) =>
      if SDB_OK =? res then 1 else 0
  | _ => 0
  end.

(** Stage-two acceptances received. *)
Definition acceptances (evs : list event) : Z := foldr (fun ev n => acceptance ev + n) 0 evs.

Lemma acceptances_app e1 e2 : acceptances (e1 ++ e2) = acceptances e1 + acceptances e2.
Proof. induction e1; simpl; lia. Qed.

Definition ANN := CLS_ELECTION_STATUS_ANNOUNCE.

Lemma active_accepted env s m :
  vm_accepted (status_active env s m).1.1 ANN
  = if decide (s = ANN) then 0 else vm_accepted m ANN.
Proof.
  destruct s; simpl; unfold silence_active, secondary_active, vote_active, announce_active;
    cbv zeta; repeat (match goal with |- context [if ?c then _ else _] => destruct c end);
    done.
Qed.

Lemma active_group env s m : groupSize (vm_group (status_active env s m).1.1) = groupSize (vm_group m).
Proof.
  destruct s; simpl; unfold silence_active, secondary_active, vote_active, announce_active;
    cbv zeta; repeat (match goal with |- context [if ?c then _ else _] => destruct c end); done.
Qed.

Lemma deactive_accepted s m : vm_accepted (status_deactive s m).1 = vm_accepted m.
Proof. by destruct s. Qed.

Lemma activate_facts env next m m' out :
  groupSize (vm_group m) <> 1 -> activate env next m = Some (m', out) ->
  vm_current m' = Some next /\ groupSize (vm_group m') = groupSize (vm_group m) /\
  vm_accepted m' ANN
  = if decide (vm_current m <> Some next /\ next = ANN) then 0 else vm_accepted m ANN.
Proof.
  intros Hg. destruct (decide (vm_current m = Some next)) as [Hc|Hc].
  - rewrite activate_stay by done. intros [= <- <-]. split_and!; try done.
    by rewrite decide_False by tauto.
  - destruct (activate_move env next m Hc Hg) as (m1 & m2 & o1 & o2 & Hl & Ha & ->).
    intros [= <- <-].
    assert (Hm1 : vm_accepted m1 = vm_accepted m /\ groupSize (vm_group m1) = groupSize (vm_group m)).
    { unfold leave in Hl. destruct (vm_current m) as [s|]; [|by injection Hl as <- <-].
      pose proof (deactive_accepted s m). pose proof (deactive_group s m).
      destruct (status_deactive s m). injection Hl as <- <-. done. }
    destruct Hm1 as [Ha1 Hg1].
    pose proof (active_accepted env next (set_current m1 (Some next))) as Hacc.
    pose proof (active_group env next (set_current m1 (Some next))) as Hgr.
    rewrite Ha in Hacc, Hgr. simpl in *. split_and!; [done|congruence|].
    rewrite Hacc, Ha1. destruct (decide (next = ANN)).
    + by rewrite decide_True.
    + by rewrite decide_False by tauto.
Qed.

Lemma u32_le x : 0 <= x -> u32 x <= x.
Proof. intros. unfold u32. apply Z.mod_le; lia. Qed.

Definition unforced (ev : event) : Prop :=
  match ev with EvForce _ _ _ => False | _ => True end.

Definition group_size_is (n : Z) (ev : event) : Prop :=
  match ev with EvGroup g => groupSize g = n | _ => True end.

(** What a handler of status [s] may do to the count and to the status. *)
Definition handler_ok (n : Z) (s : CLS_ELECTION_STATUS) (m : clsVoteMachine) (gain : Z) (r : vresult)
  : Prop :=
  (s <> ANN -> vm_accepted r.1.1 ANN = vm_accepted m ANN) /\
  0 <= vm_accepted r.1.1 ANN <= vm_accepted m ANN + gain /\
  (r.2 = CLS_ELECTION_STATUS_PRIMARY -> s <> CLS_ELECTION_STATUS_PRIMARY ->
     s = ANN /\ CLS_IS_MAJORITY (vm_accepted m ANN + gain + 1) n = true).

Lemma input_handler_ok env s msg m :
  0 <= vm_accepted m ANN ->
  handler_ok (groupSize (vm_group m)) s m (acceptance (EvInput env msg))
    (status_handleInput env s msg m).
Proof.
  intros H0. pose proof (u32_bound (vm_accepted m ANN + 1)).
  pose proof (u32_le (vm_accepted m ANN + 1)).
  assert (Hg0 : 0 <= acceptance (EvInput env msg)).
  { unfold acceptance. repeat case_match; lia. }
  assert (Hother : s <> ANN -> (status_handleInput env s msg m).2 = s \/
      (status_handleInput env s msg m).2 <> CLS_ELECTION_STATUS_PRIMARY).
  { destruct s; simpl; unfold silence_handleInput, secondary_handleInput, vote_handleInput,
      primary_handleInput; intros Hs; try (by destruct Hs); auto; right; repeat case_match; done. }
  assert (Hsame : s <> ANN -> vm_accepted (status_handleInput env s msg m).1.1 ANN = vm_accepted m ANN).
  { destruct s; simpl; unfold silence_handleInput, secondary_handleInput, vote_handleInput,
      primary_handleInput; intros Hs; try (by destruct Hs); repeat case_match; done. }
  destruct (decide (s = ANN)) as [->|Hs].
  2: { split; [done|]. rewrite Hsame by done. split; [lia|]. intros Hp Hnp.
       destruct (Hother Hs); congruence. }
  unfold handler_ok. simpl status_handleInput. unfold announce_handleInput.
  destruct msg as [[] ? ?|[] res ?|]; cbv zeta; unfold acceptance in *;
    try (split_and!; done || (simpl; lia)).
  destruct (SDB_OK =? res); [|split_and!; done || (simpl; lia)].
  set (acc := u32 (vm_accepted m CLS_ELECTION_STATUS_ANNOUNCE + 1)).
  assert (Hupd : vm_accepted (set_accepted m CLS_ELECTION_STATUS_ANNOUNCE acc)
    CLS_ELECTION_STATUS_ANNOUNCE = acc) by (simpl; unfold upd; by rewrite decide_True).
  destruct (Z.leb_spec (groupSize (vm_group (set_accepted m CLS_ELECTION_STATUS_ANNOUNCE acc)))
    (u32 (vm_accepted (set_accepted m CLS_ELECTION_STATUS_ANNOUNCE acc)
       CLS_ELECTION_STATUS_ANNOUNCE + 1))) as [Hle|Hgt];
    cbn [fst snd]; unfold ANN in *; rewrite Hupd in *; unfold acc in *;
    (split; [done|]; split; [lia|]); [|done].
  intros _ _. split; [done|]. unfold CLS_IS_MAJORITY. apply Z.ltb_lt.
  pose proof (u32_le (u32 (vm_accepted m CLS_ELECTION_STATUS_ANNOUNCE + 1) + 1)).
  cbn [vm_group set_accepted] in Hle.
  assert (1 <= groupSize (vm_group m)) by (unfold groupSize; lia).
  pose proof (Z.div_lt (groupSize (vm_group m)) 2). lia.
Qed.

Lemma timeout_handler_ok env s ms m :
  0 <= vm_accepted m ANN ->
  handler_ok (groupSize (vm_group m)) s m 0 (status_handleTimeout env s ms m).
Proof.
  intros H0. unfold handler_ok. destruct s; simpl;
    unfold silence_handleTimeout, secondary_handleTimeout, vote_handleTimeout,
      announce_handleTimeout, primary_handleTimeout, isAccepted; cbv zeta;
    repeat (match goal with |- context [if ?c then _ else _] => destruct c eqn:? end);
    simpl in *; split_and!; try done; try lia.
  intros _ _. split; [done|]. by rewrite Z.add_0_r.
Qed.

(** One unforced event in a group of [n] members. *)
Lemma event_step_count n ev m m' out :
  n <> 1 -> groupSize (vm_group m) = n -> group_size_is n ev -> unforced ev ->
  0 <= vm_accepted m ANN -> event_step ev m = Some (m', out) ->
  groupSize (vm_group m') = n /\ 0 <= vm_accepted m' ANN /\
  (vm_current m' = Some ANN -> vm_current m = Some ANN ->
     vm_accepted m' ANN <= vm_accepted m ANN + acceptance ev) /\
  (vm_current m' = Some ANN -> vm_current m <> Some ANN -> vm_accepted m' ANN = 0) /\
  (vm_current m' = Some CLS_ELECTION_STATUS_PRIMARY ->
     vm_current m = Some CLS_ELECTION_STATUS_PRIMARY \/
     (vm_current m = Some ANN /\
      CLS_IS_MAJORITY (vm_accepted m ANN + acceptance ev + 1) n = true)).
Proof.
  intros Hn Hg Hge Hu H0.
  assert (Hkey : forall env s r, vm_current m = Some s -> same_role m r.1.1 ->
    handler_ok n s m (acceptance ev) r -> forall m1 o1, activate env r.2 r.1.1 = Some (m1, o1) ->
    groupSize (vm_group m1) = n /\ 0 <= vm_accepted m1 ANN /\
    (vm_current m1 = Some ANN -> vm_current m = Some ANN ->
       vm_accepted m1 ANN <= vm_accepted m ANN + acceptance ev) /\
    (vm_current m1 = Some ANN -> vm_current m <> Some ANN -> vm_accepted m1 ANN = 0) /\
    (vm_current m1 = Some CLS_ELECTION_STATUS_PRIMARY ->
       vm_current m = Some CLS_ELECTION_STATUS_PRIMARY \/
       (vm_current m = Some ANN /\
        CLS_IS_MAJORITY (vm_accepted m ANN + acceptance ev + 1) n = true))).
  { intros env s [[m2 o2] next] Hc (Hc2 & Hg2 & _ & _) (Hk1 & Hk2 & Hk3) m1 o1 Ha. simpl in *.
    destruct (activate_facts env next m2 m1 o1) as (Hcur & Hgs & Hacc); [by rewrite Hg2, Hg|done|].
    rewrite Hc2, Hc in Hacc. rewrite Hcur, Hgs, Hg2, Hacc, Hc. clear Hacc. split_and!; try done.
    - case_decide; lia.
    - intros [= ->] [= ->]. case_decide as Hd; [by destruct Hd|]. lia.
    - intros [= ->] Hs. by rewrite decide_True by (split; [congruence|done]).
    - intros [= ->]. destruct (decide (s = CLS_ELECTION_STATUS_PRIMARY)) as [->|Hs]; [by left|right].
      destruct (Hk3 eq_refl Hs) as [-> Hmaj]. done. }
  destruct ev as [env msg|env ms|env id ms|g]; simpl event_step; [..|done|].
  - unfold voteMachine_handleInput. destruct (vm_current m) as [s|] eqn:Hc.
    + pose proof (handleInput_role env s msg m) as Hs.
      pose proof (input_handler_ok env s msg m H0) as Hk. rewrite Hg in Hk.
      specialize (Hkey env s (status_handleInput env s msg m) eq_refl Hs Hk).
      destruct (status_handleInput env s msg m) as [[m1 o1] n1]. simpl in Hkey.
      destruct (activate env n1 m1) as [[m2 o2]|]; [|done]. intros [= <- <-]. by eapply Hkey.
    + intros [= <- <-]. by rewrite Hc.
  - unfold voteMachine_handleTimeout. destruct (vm_current m) as [s|] eqn:Hc.
    + destruct (0 <? vm_forceMillis m).
      { destruct (_ <=? _); intros [= <- <-]; simpl; rewrite Hc; split_and!; try done; try lia; auto. }
      pose proof (handleTimeout_role env s ms m) as Hs.
      pose proof (timeout_handler_ok env s ms m H0) as Hk. rewrite Hg in Hk.
      specialize (Hkey env s (status_handleTimeout env s ms m) eq_refl Hs Hk).
      destruct (status_handleTimeout env s ms m) as [[m1 o1] n1]. simpl in Hkey.
      destruct (activate env n1 m1) as [[m2 o2]|]; [|done]. intros [= <- <-]. by eapply Hkey.
    + intros [= <- <-]. by rewrite Hc.
  - intros [= <- <-]. simpl. split_and!; try done; [lia|auto].
Qed.

(** The events of a run from [m0] in which a majority accepted: a stretch
    [mid] that begins in the announce status holds enough acceptances. *)
Definition majority_in (n : Z) (m0 : clsVoteMachine) (evs : list event) : Prop :=
  exists pre mid post mp op, evs = pre ++ mid ++ post /\ run_events pre m0 = Some (mp, op) /\
    vm_current mp = Some ANN /\ CLS_IS_MAJORITY (acceptances mid + 1) n = true.

Definition count_inv (n : Z) (m0 : clsVoteMachine) (evs : list event) (m : clsVoteMachine) : Prop :=
  groupSize (vm_group m) = n /\ 0 <= vm_accepted m ANN /\
  (vm_current m = Some ANN -> exists pre mid mp op, evs = pre ++ mid /\
     run_events pre m0 = Some (mp, op) /\ vm_current mp = Some ANN /\
     vm_accepted m ANN <= acceptances mid) /\
  (vm_current m = Some CLS_ELECTION_STATUS_PRIMARY -> majority_in n m0 evs).

Lemma majority_mono a b n : a <= b -> CLS_IS_MAJORITY a n = true -> CLS_IS_MAJORITY b n = true.
Proof. unfold CLS_IS_MAJORITY. rewrite !Z.ltb_lt. lia. Qed.

Lemma count_inv_step n m0 evs m o ev m' out :
  n <> 1 -> group_size_is n ev -> unforced ev -> run_events evs m0 = Some (m, o) ->
  event_step ev m = Some (m', out) -> count_inv n m0 evs m -> count_inv n m0 (evs ++ [ev]) m'.
Proof.
  intros Hn Hge Hu Hrun Hst (Hg & H0 & Hann & Hpri).
  destruct (event_step_count n ev m m' out) as (Hg' & H0' & H1 & H2 & H3); [done..|].
  split_and!; try done.
  - intros Hc'. destruct (decide (vm_current m = Some ANN)) as [Hc|Hc].
    + destruct (Hann Hc) as (pre & mid & mp & op & -> & Hp & Hmp & Hle).
      exists pre, (mid ++ [ev]), mp, op. rewrite <-app_assoc. split_and!; try done.
      rewrite acceptances_app. simpl. specialize (H1 Hc' Hc). lia.
    + exists (evs ++ [ev]), [], m', (o ++ out ++ []). rewrite app_nil_r. split_and!; try done.
      * rewrite run_events_app, Hrun. simpl. by rewrite Hst.
      * rewrite H2 by done. simpl. lia.
  - intros Hc'. destruct (H3 Hc') as [Hc|[Hc Hmaj]].
    + destruct (Hpri Hc) as (pre & mid & post & mp & op & -> & ?).
      exists pre, mid, (post ++ [ev]), mp, op. by rewrite <-!app_assoc.
    + destruct (Hann Hc) as (pre & mid & mp & op & -> & Hp & Hmp & Hle).
      exists pre, (mid ++ [ev]), [], mp, op. rewrite app_nil_r, <-app_assoc. split_and!; try done.
      eapply majority_mono; [|exact Hmaj]. rewrite acceptances_app. simpl. lia.
Qed.

Lemma count_inv_run n m0 evs m out :
  n <> 1 -> Forall (group_size_is n) evs -> Forall unforced evs ->
  count_inv n m0 [] m0 -> run_events evs m0 = Some (m, out) -> count_inv n m0 evs m.
Proof.
  intros Hn. revert m out. induction evs as [|ev evs IH] using rev_ind; intros m out Hge Hu H0.
  - simpl. by intros [= <- <-].
  - apply Forall_app in Hge as [Hge Hge1]. apply Forall_app in Hu as [Hu Hu1].
    apply Forall_cons_1 in Hge1 as [Hge1 _]. apply Forall_cons_1 in Hu1 as [Hu1 _].
    rewrite run_events_app. destruct (run_events evs m0) as [[m1 o1]|] eqn:Hr; [|done].
    simpl. destruct (event_step ev m1) as [[m2 o2]|] eqn:Hst; [|done]. intros [= <- <-].
    eapply count_inv_step; try done. by eapply IH.
Qed.

(** ** Silence *)

Definition quiet_event (B : Z) (ev : event) : Prop :=
  match ev with
  | EvInput _ _ => True
  | EvTimeout env ms => 0 <= ms /\ B <= sharingBreakTime env < 2 ^ 32 - 1000
  | _ => False
  end.

Definition elapsed (evs : list event) : Z :=
  foldr (fun ev t => match ev with EvTimeout _ ms => ms + t | _ => t end) 0 evs.

Lemma elapsed_nonneg B evs : Forall (quiet_event B) evs -> 0 <= elapsed evs.
Proof.
  induction 1 as [|ev evs Hev _ IH]; simpl; [lia|]. destruct ev; simpl in Hev; lia.
Qed.

Lemma silence_run B evs m :
  vm_current m = Some CLS_ELECTION_STATUS_SILENCE -> vm_forceMillis m = 0 ->
  Forall (quiet_event B) evs -> 0 <= vm_time m CLS_ELECTION_STATUS_SILENCE ->
  vm_time m CLS_ELECTION_STATUS_SILENCE + elapsed evs < Z.min (B + 1000) maxSliceTime ->
  exists m', run_events evs m = Some (m', []) /\ vm_current m' = Some CLS_ELECTION_STATUS_SILENCE.
Proof.
  intros Hc Hf Hq. revert m Hc Hf. induction Hq as [|ev evs Hev Hq IH]; intros m Hc Hf H0 Ht;
    [by exists m|]. pose proof (elapsed_nonneg B evs Hq) as He. unfold maxSliceTime in Ht.
  simpl in Ht |- *. destruct ev as [env msg|env ms| |]; simpl in Hev; try done.
  - simpl. unfold voteMachine_handleInput. rewrite Hc. simpl.
    rewrite activate_stay by done. simpl.
    destruct (IH (set_force (set_current m (Some CLS_ELECTION_STATUS_SILENCE)) 0))
      as (m' & -> & Hc'); try done. by exists m'.
  - simpl. unfold voteMachine_handleTimeout. rewrite Hc, Hf. simpl.
    unfold silence_handleTimeout. cbv zeta.
    assert (Htm : vm_time (addTime m CLS_ELECTION_STATUS_SILENCE ms) CLS_ELECTION_STATUS_SILENCE
      = vm_time m CLS_ELECTION_STATUS_SILENCE + ms).
    { simpl. unfold upd. rewrite decide_True by done. apply u32_small. lia. }
    rewrite Htm. rewrite (u32_small (sharingBreakTime env + 1000)) by lia.
    destruct (Z.leb_spec (sharingBreakTime env + 1000) (vm_time m CLS_ELECTION_STATUS_SILENCE + ms)); [lia|].
    unfold maxSliceTime. destruct (Z.leb_spec (30 * 1000) (vm_time m CLS_ELECTION_STATUS_SILENCE + ms)); [lia|].
    simpl orb. cbv iota. rewrite activate_stay by done. simpl.
    destruct (IH (set_force (set_current (addTime m CLS_ELECTION_STATUS_SILENCE ms)
      (Some CLS_ELECTION_STATUS_SILENCE)) 0)) as (m' & -> & Hc'); try done.
    + cbn [vm_time set_force set_current]. rewrite Htm. lia.
    + cbn [vm_time set_force set_current]. rewrite Htm. unfold maxSliceTime. lia.
    + by exists m'.
Qed.

(** ** Comparing candidates *)

Ltac compare_cases :=
  repeat (match goal with
          | |- context [?x =? ?y] => destruct (Z.eqb_spec x y)
          | |- context [?x <? ?y] => destruct (Z.ltb_spec x y)
          end; cbn [andb negb]; try lia).

Lemma compareVersion_antisym a b : compareVersion a b = - compareVersion b a.
Proof. unfold compareVersion. compare_cases. Qed.

Lemma compareOffset_antisym a b : compareOffset a b = - compareOffset b a.
Proof. unfold compareOffset. compare_cases. Qed.

Lemma lsn_compare_antisym a b : lsn_compare a b = - lsn_compare b a.
Proof.
  unfold lsn_compare. rewrite (compareVersion_antisym (lsn_version b)).
  destruct (Z.eqb_spec 0 (compareVersion (lsn_version a) (lsn_version b))) as [H|H];
    destruct (Z.eqb_spec 0 (- compareVersion (lsn_version a) (lsn_version b))); simpl negb;
    cbv iota; try lia. apply compareOffset_antisym.
Qed.

(** ** Properties *)

(** C40: Whatever messages, timers, forced statuses and changes of the group
    information arrive, in any order and in any state, every handler
    returns: the loop that activates statuses one after the other always
    ends. *)
Theorem vote_events_return evs m : exists m' out, run_events evs m = Some (m', out).
Proof. apply run_events_total. Qed.

(** Every change of the group information during the run leaves a primary
    member its own primary. *)
Fixpoint groups_ok (evs : list event) (m : clsVoteMachine) : Prop :=
  match evs with
  | [] => True
  | ev :: evs' =>
      group_event_ok ev m /\
      match event_step ev m with
      | Some (m1, _) => groups_ok evs' m1
      | None => True
      end
  end.

(** In every run the member's primary flag is set exactly while the vote
    machine is in the primary status, and then the group's primary is the
    member itself; leaving the status clears both. *)
Theorem primary_role_invariant evs m m' out :
  role_ok m -> groups_ok evs m -> run_events evs m = Some (m', out) -> role_ok m'.
Proof.
  revert m out. induction evs as [|ev evs IH]; intros m out Hr Hg; simpl.
  - by intros [= <- <-].
  - simpl in Hg. destruct Hg as [Hg1 Hg2].
    destruct (event_step ev m) as [[m1 o1]|] eqn:Hs; [|done].
    destruct (run_events evs m1) as [[m2 o2]|] eqn:Hr2; [|done]. intros [= <- <-].
    eapply IH; [|exact Hg2|exact Hr2]. by eapply event_step_role.
Qed.

(** A group of [n] members around member 1, all of them alive and normal. *)
Definition demo_lsn : DPS_LSN := mkLSN 100 1.
Definition demo_env : voteEnv := mkVoteEnv true true false demo_lsn 10 7000.
Definition demo_peer (id : Z) : Z * clsSharingStatus :=
  (id, mkSharing (mkBeat demo_lsn id 10 0 1 CLS_GROUP_ROLE_SECONDARY
         CLS_SYNC_STATUS_PEER 5 SERVICE_NORMAL) 0 0 0 0).
Definition demo_group (peers : list Z) : clsGroupInfo :=
  mkGroup (map demo_peer peers) peers 0 1 1 1 0.
Definition demo_machine (peers : list Z) : clsVoteMachine :=
  mkVM None (fun _ => 0) (fun _ => 0) (demo_group peers) CLS_ELECTION_WEIGHT_USR_MIN 0 (-1)
       false false.
Definition demo_silent (peers : list Z) : clsVoteMachine :=
  match voteMachine_init demo_env true (demo_machine peers) with
  | Some (_, m, _) => m
  | None => demo_machine peers
  end.

Definition demo_timer : event := EvTimeout demo_env 8000.
Definition demo_accept (round : CLS_ELECTION_ROUND) (id : Z) : event :=
  EvInput demo_env (MSG_CLS_BALLOT_RES round SDB_OK id).

(** Silence ends, the member votes, both others accept, it announces, both
    accept. *)
Definition demo_election : list event :=
  [demo_timer; demo_timer;
   demo_accept CLS_ELECTION_ROUND_STAGE_ONE 2; demo_accept CLS_ELECTION_ROUND_STAGE_ONE 3;
   demo_accept CLS_ELECTION_ROUND_STAGE_TWO 2; demo_accept CLS_ELECTION_ROUND_STAGE_TWO 3].

Definition demo_final (evs : list event) (m : clsVoteMachine) : clsVoteMachine * list output :=
  match run_events evs m with Some r => r | None => (m, []) end.

Lemma primary_role_invariant_witness :
  vm_current (demo_final demo_election (demo_silent [2; 3])).1
    = Some CLS_ELECTION_STATUS_PRIMARY /\
  role_ok (demo_final demo_election (demo_silent [2; 3])).1.
Proof.
  split; [vm_compute; reflexivity|].
  apply (primary_role_invariant demo_election (demo_silent [2; 3])
           _ (demo_final demo_election (demo_silent [2; 3])).2).
  - split; [split; intros H; vm_compute in H; discriminate|intros H; vm_compute in H; discriminate].
  - simpl groups_ok. repeat (split; [exact I|]). exact I.
  - unfold demo_final. destruct (run_events _ _) as [[? ?]|] eqn:E; [done|].
    vm_compute in E. discriminate.
Defined.

(** C34: In a group of more than one member, a member that was neither
    announcing nor primary becomes primary without being forced only when,
    during one stay in the announce status, it received stage-two acceptances
    that together with its own vote are a majority of the group. *)
Theorem primary_needs_majority n evs m m' out :
  n <> 1 -> groupSize (vm_group m) = n -> 0 <= vm_accepted m CLS_ELECTION_STATUS_ANNOUNCE ->
  vm_current m <> Some CLS_ELECTION_STATUS_ANNOUNCE ->
  vm_current m <> Some CLS_ELECTION_STATUS_PRIMARY ->
  Forall (group_size_is n) evs -> Forall unforced evs ->
  run_events evs m = Some (m', out) -> vm_current m' = Some CLS_ELECTION_STATUS_PRIMARY ->
  majority_in n m evs.
Proof.
  intros Hn Hg H0 Hna Hnp Hge Hu Hrun Hp.
  destruct (count_inv_run n m evs m' out) as (_ & _ & _ & Hc); auto.
  split_and!; try done.
Qed.

Lemma primary_needs_majority_witness : majority_in 3 (demo_silent [2; 3]) demo_election.
Proof.
  apply (primary_needs_majority 3 demo_election (demo_silent [2; 3])
           (demo_final demo_election (demo_silent [2; 3])).1
           (demo_final demo_election (demo_silent [2; 3])).2).
  - discriminate.
  - vm_compute. reflexivity.
  - vm_compute. discriminate.
  - vm_compute. discriminate.
  - vm_compute. discriminate.
  - repeat constructor.
  - repeat constructor.
  - unfold demo_final. destruct (run_events _ _) as [[? ?]|] eqn:E; [done|].
    vm_compute in E. discriminate.
  - vm_compute. reflexivity.
Defined.

(** C35: A member that accepts a stage-two ballot sends one acceptance and
    goes silent, and from the moment it is silent it stays so and sends
    nothing, whatever ballots and answers arrive, until the sharing break
    time plus one second (but at most thirty seconds) has passed, unless its
    status is forced (by a step up or down) or its group information changes
    in that time. *)
Theorem accept_then_silent env m s lsn id B evs :
  s = CLS_ELECTION_STATUS_SEC \/ s = CLS_ELECTION_STATUS_VOTE ->
  vm_current m = Some s -> groupSize (vm_group m) <> 1 ->
  judge_ballot env (vm_group m) (vm_shadowWeight m) lsn id = Some true ->
  Forall (quiet_event B) evs -> elapsed evs < Z.min (B + 1000) maxSliceTime ->
  exists m' , run_events
      (EvInput env (MSG_CLS_BALLOT CLS_ELECTION_ROUND_STAGE_TWO lsn id) :: evs) m
    = Some (m', [SendBallotRes id CLS_ELECTION_ROUND_STAGE_TWO SDB_OK]) /\
    vm_current m' = Some CLS_ELECTION_STATUS_SILENCE.
Proof.
  intros Hs Hc Hg Hj Hq He.
  assert (Hh : exists m1, status_handleInput env s (MSG_CLS_BALLOT CLS_ELECTION_ROUND_STAGE_TWO lsn id) m
    = (m1, [SendBallotRes id CLS_ELECTION_ROUND_STAGE_TWO SDB_OK], CLS_ELECTION_STATUS_SILENCE) /\
    vm_current m1 = Some s /\ vm_group m1 = vm_group m).
  { destruct Hs as [-> | ->]; simpl; unfold secondary_handleInput, vote_handleInput, reply, launch_reply;
      cbn [vm_group vm_shadowWeight set_shift]; rewrite Hj; eexists; split; done. }
  destruct Hh as (m1 & Hh & Hc1 & Hg1). cbn [run_events event_step].
  unfold voteMachine_handleInput. rewrite Hc, Hh.
  assert (Hact : exists m2, activate env CLS_ELECTION_STATUS_SILENCE m1 = Some (m2, []) /\
    vm_current m2 = Some CLS_ELECTION_STATUS_SILENCE /\ vm_forceMillis m2 = 0 /\
    vm_time m2 CLS_ELECTION_STATUS_SILENCE = 0).
  { destruct (activate_move env CLS_ELECTION_STATUS_SILENCE m1) as (m3 & m4 & o1 & o2 & Hl & Ha & ->).
    - rewrite Hc1. destruct Hs as [-> | ->]; done.
    - by rewrite Hg1.
    - assert (o1 = []) as ->.
      { unfold leave in Hl. rewrite Hc1 in Hl. destruct Hs as [-> | ->]; simpl in Hl; by injection Hl. }
      simpl in Ha. unfold silence_active in Ha. cbv zeta in Ha.
      destruct (_ =? 1); [done|]. injection Ha as <- <-. eexists. split; [done|]. done. }
  destruct Hact as (m2 & -> & Hc2 & Hf2 & Ht2).
  destruct (silence_run B evs m2) as (m' & -> & Hc'); [done|done|done|lia|lia|].
  exists m'. done.
Qed.

Lemma accept_then_silent_witness :
  exists m', run_events
      (EvInput demo_env (MSG_CLS_BALLOT CLS_ELECTION_ROUND_STAGE_TWO (mkLSN 200 1) 2) ::
       [EvTimeout demo_env 6000;
        EvInput demo_env (MSG_CLS_BALLOT CLS_ELECTION_ROUND_STAGE_TWO (mkLSN 300 1) 3)])
      (demo_final [demo_timer] (demo_silent [2; 3])).1
    = Some (m', [SendBallotRes 2 CLS_ELECTION_ROUND_STAGE_TWO SDB_OK]) /\
    vm_current m' = Some CLS_ELECTION_STATUS_SILENCE.
Proof.
  apply (accept_then_silent demo_env (demo_final [demo_timer] (demo_silent [2; 3])).1
           CLS_ELECTION_STATUS_SEC (mkLSN 200 1) 2 7000).
  - by left.
  - vm_compute. reflexivity.
  - vm_compute. discriminate.
  - vm_compute. reflexivity.
  - repeat constructor; vm_compute; try discriminate; reflexivity.
  - vm_compute. reflexivity.
Defined.

(** Member [a] knows member [b] as a normal member with its current weight. *)
Definition knows (g : clsGroupInfo) (envb : voteEnv) (shadowb idb : Z) : Prop :=
  exists peer, om_find idb (gi_info g) = Some peer /\
    beat_serviceStatus (sh_beat peer) = SERVICE_NORMAL /\
    beat_weight (sh_beat peer) = CLS_GET_WEIGHT (optWeight envb) shadowb.

(** When a normal member accepts a normal member it knows, the candidate is
    not smaller in (log end, weight, node id). *)
Lemma judge_accept_order env g shadow envb shadowb idb :
  startupIsOK env = true -> knows g envb shadowb idb ->
  judge_ballot env g shadow (expectLsn envb) idb = Some true ->
  lsn_compare (expectLsn env) (expectLsn envb) < 0 \/
  (lsn_compare (expectLsn env) (expectLsn envb) = 0 /\
   (CLS_GET_WEIGHT (optWeight env) shadow < CLS_GET_WEIGHT (optWeight envb) shadowb \/
    (CLS_GET_WEIGHT (optWeight env) shadow = CLS_GET_WEIGHT (optWeight envb) shadowb /\
     gi_local g <= idb))).
Proof.
  intros Hst (peer & Hf & Hn & Hw). unfold judge_ballot. rewrite Hf, Hn, Hst, Hw. simpl.
  repeat case_match; try done; intros _; repeat (match goal with
    | H : (_ <? _) = true |- _ => apply Z.ltb_lt in H
    | H : (_ <? _) = false |- _ => apply Z.ltb_ge in H
    end); lia.
Qed.

(** Of two normal members that know each other's weight, at most one
    accepts the other's ballot: the comparison by log end, then weight, then
    node id never lets both yield, so two candidates cannot elect each
    other. *)
Theorem ballots_never_mutual enva envb ga gb sha shb :
  startupIsOK enva = true -> startupIsOK envb = true -> gi_local ga <> gi_local gb ->
  knows ga envb shb (gi_local gb) -> knows gb enva sha (gi_local ga) ->
  judge_ballot enva ga sha (expectLsn envb) (gi_local gb) = Some true ->
  judge_ballot envb gb shb (expectLsn enva) (gi_local ga) <> Some true.
Proof.
  intros Ha Hb Hne Hka Hkb Hja Hjb.
  apply (judge_accept_order _ _ _ _ shb) in Hja; [|done|done].
  apply (judge_accept_order _ _ _ _ sha) in Hjb; [|done|done].
  rewrite (lsn_compare_antisym (expectLsn envb)) in Hjb. lia.
Qed.

Definition demo_env_ahead : voteEnv := mkVoteEnv true true false (mkLSN 200 1) 10 7000.
Definition demo_group2 : clsGroupInfo := mkGroup [demo_peer 1] [1] 0 2 1 1 0.

Lemma ballots_never_mutual_witness :
  judge_ballot demo_env_ahead demo_group2 1 (expectLsn demo_env) 1 <> Some true.
Proof.
  apply (ballots_never_mutual demo_env demo_env_ahead (demo_group [2]) demo_group2 1 1).
  - reflexivity.
  - reflexivity.
  - vm_compute. discriminate.
  - eexists. split; [vm_compute; reflexivity|]. vm_compute. done.
  - eexists. split; [vm_compute; reflexivity|]. vm_compute. done.
  - vm_compute. reflexivity.
Defined.

(** The conditions under which a member may start a round. *)
Definition may_launch (env : voteEnv) (g : clsGroupInfo) : Prop :=
  gi_primary g = 0 /\ CLS_IS_MAJORITY (aliveSize g) (groupSize g) = true /\
  (startupIsOK env = true \/ isAllNodeAbnormal g 0 = true) /\
  replBucketIsEmpty env = true /\ (isNeedSyncTrans env = false \/ startupIsOK env = false) /\
  forall s, s ∈ aliveNodes g ->
    (beat_serviceStatus (sh_beat s) = SERVICE_ABNORMAL /\ startupIsOK env = true) \/
    0 <= lsn_compare (expectLsn env) (beat_endLsn (sh_beat s)).

Definition may_launchb (env : voteEnv) (g : clsGroupInfo) : bool :=
  (0 =? gi_primary g) && CLS_IS_MAJORITY (aliveSize g) (groupSize g) &&
  (startupIsOK env || isAllNodeAbnormal g 0) && replBucketIsEmpty env &&
  (negb (isNeedSyncTrans env) || negb (startupIsOK env)) &&
  forallb (fun s =>
    (bool_decide (beat_serviceStatus (sh_beat s) = SERVICE_ABNORMAL) && startupIsOK env) ||
    (0 <=? lsn_compare (expectLsn env) (beat_endLsn (sh_beat s)))) (aliveNodes g).

Lemma may_launchb_spec env g : may_launchb env g = true <-> may_launch env g.
Proof.
  unfold may_launchb, may_launch.
  rewrite !andb_true_iff, !orb_true_iff, !negb_true_iff, forallb_forall, Z.eqb_eq.
  assert (Hs : (forall x, In x (aliveNodes g) ->
      (bool_decide (beat_serviceStatus (sh_beat x) = SERVICE_ABNORMAL) && startupIsOK env) ||
      (0 <=? lsn_compare (expectLsn env) (beat_endLsn (sh_beat x))) = true) <->
    (forall s, s ∈ aliveNodes g ->
      (beat_serviceStatus (sh_beat s) = SERVICE_ABNORMAL /\ startupIsOK env = true) \/
      0 <= lsn_compare (expectLsn env) (beat_endLsn (sh_beat s)))).
  { split; intros H x Hx; specialize (H x);
      rewrite ?list_elem_of_In, ?orb_true_iff, ?andb_true_iff, ?bool_decide_eq_true, ?Z.leb_le in *;
      auto. }
  rewrite Hs. intuition congruence.
Qed.

Lemma launch_round_eq env g round :
  launch_round env g round
  = if may_launchb env g
    then (SDB_OK, broadcastAlives g (fun id => SendBallot id round (expectLsn env)))
    else (SDB_CLS_VOTE_FAILED, []).
Proof.
  unfold launch_round, may_launchb.
  assert (Hex : forall l, existsb (fun s =>
      negb (bool_decide (beat_serviceStatus (sh_beat s) = SERVICE_ABNORMAL) && startupIsOK env)
      && (lsn_compare (expectLsn env) (beat_endLsn (sh_beat s)) <? 0)) l
    = negb (forallb (fun s =>
      (bool_decide (beat_serviceStatus (sh_beat s) = SERVICE_ABNORMAL) && startupIsOK env) ||
      (0 <=? lsn_compare (expectLsn env) (beat_endLsn (sh_beat s)))) l)).
  { induction l as [|s l IH]; [done|]. simpl. rewrite IH, Z.leb_antisym.
    by destruct (bool_decide _ && startupIsOK env), (_ <? 0), (forallb _ l). }
  rewrite Hex. destruct (0 =? gi_primary g); [|done].
  destruct (CLS_IS_MAJORITY _ _); [|done].
  destruct (startupIsOK env), (isAllNodeAbnormal g 0), (replBucketIsEmpty env), (isNeedSyncTrans env);
    try done; simpl; by destruct (forallb _ _).
Qed.

(** A member starts a round exactly when it knows of no primary, sees a
    majority of the group alive, may vote by its own state, and its log end is
    not behind that of any alive member that counts; it then sends one ballot
    to every alive member, and otherwise it sends nothing. *)
Theorem launch_round_spec env g round :
  (may_launch env g /\
   launch_round env g round
   = (SDB_OK, map (fun s => SendBallot (beat_identity (sh_beat s)) round (expectLsn env))
                (aliveNodes g))) \/
  (~ may_launch env g /\ launch_round env g round = (SDB_CLS_VOTE_FAILED, [])).
Proof.
  rewrite launch_round_eq, <-may_launchb_spec.
  destruct (may_launchb env g); [left|right]; done.
Qed.

(** In a group of one, a status activates the next one. *)
Lemma status_active_single env s m :
  groupSize (vm_group m) = 1 -> startupIsOK env = true -> s <> CLS_ELECTION_STATUS_PRIMARY ->
  (rank s < rank (status_active env s m).2)%nat /\
  groupSize (vm_group (status_active env s m).1.1) = 1.
Proof.
  intros Hg Hs Hp. rewrite active_group. split; [|done].
  destruct s; simpl; unfold silence_active, secondary_active, vote_active, announce_active;
    cbn [vm_group set_time set_accepted set_hasPrint]; rewrite ?Hg, ?Hs; simpl; lia || done.
Qed.

Lemma active_loop_climb env fuel prev next m out :
  groupSize (vm_group m) = 1 -> startupIsOK env = true -> (7 - rank next <= fuel)%nat ->
  match prev with Some s => (rank s < rank next)%nat | None => True end ->
  exists m' out', active_loop env fuel prev prev next m out = Some (m', out') /\
    vm_current m' = Some CLS_ELECTION_STATUS_PRIMARY /\ vm_pmdPrimary m' = true /\
    gi_primary (vm_group m') = gi_local (vm_group m').
Proof.
  revert prev next m out. induction fuel as [|fuel IH]; intros prev next m out Hg Hs Hf Hp.
  { destruct next; simpl in Hf; lia. }
  rewrite active_loop_step by (destruct prev; [intros [= ->]; lia|done]).
  assert (Hd : match prev with Some s => status_deactive s m | None => (m, []) end = (m, [])).
  { destruct prev as [[]|]; try done. destruct next; simpl in Hp; lia. }
  rewrite Hd. destruct (decide (next = CLS_ELECTION_STATUS_PRIMARY)) as [->|Hn].
  - simpl status_active. unfold primary_active. cbv zeta.
    destruct fuel as [|fuel]; [simpl in Hf; lia|]. rewrite active_loop_stop.
    eexists _, _. split; [reflexivity|]. done.
  - destruct (status_active_single env next m Hg Hs Hn) as [Hr Hg'].
    destruct (status_active env next m) as [[m2 o2] n2]. simpl in Hr, Hg'.
    apply IH; [done|done|lia|done].
Qed.

(** A group of one normal member elects itself at once: [init] runs
    through all statuses and returns with the member in the primary status,
    its primary flag set and itself as the group's primary. *)
Theorem single_member_elects_itself env m :
  gi_info (vm_group m) = [] -> vm_current m = None -> startupIsOK env = true ->
  exists m' out, voteMachine_init env true m = Some (SDB_OK, m', out) /\
    vm_current m' = Some CLS_ELECTION_STATUS_PRIMARY /\ vm_pmdPrimary m' = true /\
    gi_primary (vm_group m') = gi_local (vm_group m').
Proof.
  intros Hi Hc Hs. unfold voteMachine_init, activate. rewrite Hc. cbn [negb].
  destruct (active_loop_climb env 7 None CLS_VOTE_FIRST_STATUS
    (set_current m (Some CLS_VOTE_FIRST_STATUS)) []) as (m' & out & -> & H);
    [unfold groupSize; simpl; by rewrite Hi|done|simpl; lia|done|].
  eexists _, _. split; [reflexivity|]. exact H.
Qed.

Lemma single_member_elects_itself_witness :
  exists m' out, voteMachine_init demo_env true (demo_machine []) = Some (SDB_OK, m', out) /\
    vm_current m' = Some CLS_ELECTION_STATUS_PRIMARY /\ vm_pmdPrimary m' = true /\
    gi_primary (vm_group m') = gi_local (vm_group m').
Proof. apply (single_member_elects_itself demo_env (demo_machine [])); reflexivity. Defined.

(** ** Findings *)

(** Member 1 of five: two elections, in both of which only member 2 answers;
    its answer to the first ballot, and later to the first announcement, is
    late and arrives in the second attempt. *)
Definition stale_election : list event :=
  let one := demo_accept CLS_ELECTION_ROUND_STAGE_ONE 2 in
  let two := demo_accept CLS_ELECTION_ROUND_STAGE_TWO 2 in
  [demo_timer;                       (* silence ends *)
   demo_timer; demo_timer;           (* first vote, no answer in time *)
   demo_timer; one; one; demo_timer; (* second vote: the late answer and the new one *)
   demo_timer; demo_timer;           (* announcement without answer, silence, secondary *)
   demo_timer; one; one; demo_timer; (* vote again *)
   two; two; demo_timer].            (* the late acceptance and the new one *)

(** Answers carry no round number and are counted without looking at their
    sender: a member of a group of five becomes primary although a single other
    member ever answered, because the late answers to the earlier ballots are
    counted as well. *)
Theorem stale_answers_elect_primary :
  Forall (fun ev => match ev with
                    | EvInput _ (MSG_CLS_BALLOT_RES _ _ id) => id = 2
                    | EvTimeout _ _ => True
                    | _ => False
                    end) stale_election /\
  groupSize (vm_group (demo_silent [2; 3; 4; 5])) = 5 /\
  vm_current (demo_final stale_election (demo_silent [2; 3; 4; 5])).1
    = Some CLS_ELECTION_STATUS_PRIMARY.
Proof. split; [repeat constructor|]. vm_compute. done. Qed.

(** The overturn window is written [2 ^ 31], which in C++ is 29: a beat
    whose number is merely 30 behind the last one is taken as newer. *)
Theorem overturn_window_is_29 :
  CLS_BEAT_ID_OVERTURN_WINDOW = 29 /\
  forall b id, beat_beatID b < 2 ^ 32 -> 0 < id -> id + 30 <= beat_beatID b -> isValidID b id = true.
Proof.
  split; [reflexivity|]. intros b id Hb H0 Hid. unfold isValidID, CLS_BEATID_INVALID.
  destruct (Z.eqb_spec 0 (beat_beatID b)); [lia|].
  destruct (Z.ltb_spec (beat_beatID b) id); [lia|].
  change CLS_BEAT_ID_OVERTURN_WINDOW with 29. rewrite u32_small by lia.
  destruct (Z.ltb_spec 29 (beat_beatID b - id)); [done|lia].
Qed.

Lemma overturn_window_is_29_witness :
  isValidID (mkBeat demo_lsn 2 10 0 1 CLS_GROUP_ROLE_SECONDARY CLS_SYNC_STATUS_PEER 100
    SERVICE_NORMAL) 60 = true.
Proof.
  apply (proj2 overturn_window_is_29); simpl; lia.
Defined.
