(* ===== verification/SyncHeap.v ===== *)
(** * The heap of waiting sessions

    Models [include/clsSyncMinHeap.hpp], the array heap in which the sync
    manager keeps the sessions that wait for replicas, ordered by the end LSN
    they wait for, and [_clsSyncSession] of [include/clsDef.hpp].

    The array is the list of its live cells, so [_dataSize] is the length of
    the list; the code reads no cell at or beyond [_dataSize].  Indices are
    natural numbers: a heap of 2^31 sessions is out of reach, and only the
    capacity, which doubles, is kept at its width. *)

From stdpp Require Import base list sorting.
From Stdlib Require Import ZArith Lia.
From S2P Require Import Prelude.
From S2P Require Import DpsLsn Vote.

Open Scope Z_scope.

(** ** Sessions *)

Record clsSyncSession : Set := mkSession {
  endLsn : Z;
  eduCB : Z
}.

#[export] Instance session_eq_dec : EqDecision clsSyncSession.
Proof. solve_decision. Defined.

(** The default constructor; 0 is the null pointer. *)
#[export] Instance session_inhabited : Inhabited clsSyncSession :=
  populate (mkSession DPS_INVALID_LSN_OFFSET 0).

Definition session_lt (a b : clsSyncSession) : bool := endLsn a <? endLsn b.
Definition session_le (a b : clsSyncSession) : bool := endLsn a <=? endLsn b.

(** ** The array *)

Definition father (child : nat) : nat := Nat.div (child - 1) 2.
Definition leftChild (f : nat) : nat := (f * 2 + 1)%nat.
Definition rightChild (f : nat) : nat := (f * 2 + 2)%nat.

Definition swap (sub1 sub2 : nat) (h : list clsSyncSession) : list clsSyncSession :=
  <[sub2 := h !!! sub1]> (<[sub1 := h !!! sub2]> h).

(** [_shiftUp]; every round at least halves the index, so an index of fuel is
    enough. *)
Fixpoint shiftUp (fuel up : nat) (h : list clsSyncSession) : list clsSyncSession :=
  match fuel with
  | O => h
  | S fuel' =>
      if Nat.eqb up 0 then h
      else if session_lt (h !!! up) (h !!! father up)
      then shiftUp fuel' (father up) (swap up (father up) h)
      else h
  end.

Definition smallerChild (down : nat) (h : list clsSyncSession) : nat :=
  if Nat.leb (length h) (rightChild down) then leftChild down
  else if session_le (h !!! leftChild down) (h !!! rightChild down) then leftChild down
  else rightChild down.

(** [_shiftDown]; the index grows every round and stays below the length. *)
Fixpoint shiftDown (fuel down : nat) (h : list clsSyncSession) : list clsSyncSession :=
  match fuel with
  | O => h
  | S fuel' =>
      if Nat.ltb (leftChild down) (length h) then
        let s := smallerChild down h in
        if session_lt (h !!! s) (h !!! down)
        then shiftDown fuel' s (swap down s h)
        else h
      else h
  end.

(** ** The heap *)

Record clsSyncMinHeap : Set := mkHeap {
  _heap : list clsSyncSession;
  _spcSize : Z
}.

Definition dataSize (h : clsSyncMinHeap) : nat := length (_heap h).

(** [_allocate]: [ok] is the outcome of the reallocation. *)
Definition allocate (ok : bool) (size : Z) (h : clsSyncMinHeap) : Z * clsSyncMinHeap :=
  if ok then (SDB_OK, mkHeap (_heap h) (u32 (_spcSize h + size))) else (SDB_OOM, h).

Definition CLS_DEFAULT_HEAP_SIZE : Z := 1.

Definition newHeap (ok : bool) : clsSyncMinHeap :=
  snd (allocate ok CLS_DEFAULT_HEAP_SIZE (mkHeap [] 0)).

(** [push]; [None] is a write past the end of the array, which happens when the
    capacity is zero and stays zero by doubling. *)
Definition push (ok : bool) (session : clsSyncSession) (h : clsSyncMinHeap)
  : option (Z * clsSyncMinHeap) :=
  let '(rc, h) := if Z.of_nat (dataSize h) =? _spcSize h
                  then allocate ok (_spcSize h) h else (SDB_OK, h) in
  if negb (rc =? SDB_OK) then Some (rc, h)
  else if Z.of_nat (dataSize h) <? _spcSize h then
    let cells := _heap h ++ [session] in
    Some (SDB_OK, mkHeap (shiftUp (length cells) (dataSize h) cells) (_spcSize h))
  else None.

(** Move the last cell to [sub], drop the last cell, sift down. *)
Definition fill_hole (sub : nat) (h : list clsSyncSession) : list clsSyncSession :=
  let cells := take (length h - 1) (<[sub := h !!! (length h - 1)%nat]> h) in
  shiftDown (length cells) sub cells.

Definition root (h : clsSyncMinHeap) : Z * option clsSyncSession :=
  if Nat.eqb (dataSize h) 0 then (SDB_CLS_EMPTY_HEAP, None)
  else (SDB_OK, Some (_heap h !!! 0%nat)).

Definition pop (h : clsSyncMinHeap) : Z * option clsSyncSession * clsSyncMinHeap :=
  if Nat.eqb (dataSize h) 0 then (SDB_CLS_EMPTY_HEAP, None, h)
  else (SDB_OK, Some (_heap h !!! 0%nat), mkHeap (fill_hole 0 (_heap h)) (_spcSize h)).

Definition erase (sub : nat) (h : clsSyncMinHeap) : Z * clsSyncMinHeap :=
  if Nat.eqb (dataSize h) 0 || Nat.leb (dataSize h) sub then (SDB_INVALIDARG, h)
  else (SDB_OK, mkHeap (fill_hole sub (_heap h)) (_spcSize h)).
