(* ===== verification/SyncHeapFacts.v ===== *)
(** * Facts on the heap of waiting sessions

    Heap order, the contents as a multiset, and what [push], [pop] and
    [erase] do to both. *)

From stdpp Require Import base list sorting.
From Stdlib Require Import ZArith Lia.
From S2P Require Import Prelude.
From S2P Require Import DpsLsn Vote.
From S2P Require Import SyncHeap.

Open Scope Z_scope.

(** ** Indices *)

Lemma father_lt i : (0 < i)%nat -> (father i < i)%nat.
Proof. intros. unfold father. pose proof (Nat.Div0.div_le_upper_bound (i - 1) 2 (i - 1)); lia. Qed.

Lemma father_children i : (0 < i)%nat -> i = leftChild (father i) \/ i = rightChild (father i).
Proof.
  intros. unfold father, leftChild, rightChild.
  pose proof (Nat.div_mod (i - 1) 2 ltac:(lia)).
  pose proof (Nat.mod_upper_bound (i - 1) 2 ltac:(lia)). lia.
Qed.

Lemma father_leftChild f : father (leftChild f) = f.
Proof.
  unfold father, leftChild. replace (f * 2 + 1 - 1)%nat with (f * 2)%nat by lia.
  apply Nat.div_mul; lia.
Qed.

Lemma father_rightChild f : father (rightChild f) = f.
Proof.
  unfold father, rightChild. replace (f * 2 + 2 - 1)%nat with (1 + f * 2)%nat by lia.
  rewrite Nat.div_add by lia. reflexivity.
Qed.

(** ** Swapping *)

Definition key (h : list clsSyncSession) (i : nat) : Z := endLsn (h !!! i).

Lemma length_swap i j h : length (swap i j h) = length h.
Proof. unfold swap. by rewrite !length_insert. Qed.

Lemma key_swap i j h m :
  (i < length h)%nat -> (j < length h)%nat ->
  key (swap i j h) m = if Nat.eqb m j then key h i else if Nat.eqb m i then key h j else key h m.
Proof.
  intros Hi Hj. unfold key, swap. rewrite !list_lookup_total_insert, length_insert.
  destruct (Nat.eqb_spec m j) as [->|]; [by rewrite decide_True|].
  rewrite decide_False by lia.
  destruct (Nat.eqb_spec m i) as [->|]; [by rewrite decide_True|].
  by rewrite decide_False by lia.
Qed.

Lemma swap_perm i j h : (i < length h)%nat -> (j < length h)%nat -> swap i j h ≡ₚ h.
Proof.
  intros. apply Permutation_insert_swap; by apply list_lookup_lookup_total_lt.
Qed.

(** ** Heap order *)

Definition ordered (h : list clsSyncSession) : Prop := forall i,
  (0 < i < length h)%nat -> key h (father i) <= key h i.

Lemma ordered_root_min h i : ordered h -> (i < length h)%nat -> key h 0 <= key h i.
Proof.
  intros Ho. induction i as [i IH] using (well_founded_induction lt_wf). intros Hi.
  destruct (decide (i = 0%nat)) as [->|]; [lia|].
  pose proof (father_lt i ltac:(lia)). pose proof (Ho i ltac:(lia)).
  pose proof (IH (father i) ltac:(lia) ltac:(lia)). lia.
Qed.

Lemma shiftUp_length fuel up h : length (shiftUp fuel up h) = length h.
Proof.
  revert up h. induction fuel as [|fuel IH]; intros up h; simpl; [done|].
  destruct (Nat.eqb_spec up 0); [done|]. destruct (session_lt _ _); [|done].
  by rewrite IH, length_swap.
Qed.

Lemma shiftUp_perm fuel up h : (up < length h)%nat -> shiftUp fuel up h ≡ₚ h.
Proof.
  revert up h. induction fuel as [|fuel IH]; intros up h Hu; simpl; [done|].
  destruct (Nat.eqb_spec up 0); [done|]. destruct (session_lt _ _); [|done].
  pose proof (father_lt up ltac:(lia)).
  rewrite IH by (rewrite length_swap; lia). apply swap_perm; lia.
Qed.

(** The order may fail only between [up] and its father, and the children of
    [up] are above that father. *)
Lemma shiftUp_ordered fuel up h :
  (up < length h)%nat -> (up < fuel)%nat ->
  (forall i, (0 < i < length h)%nat -> i <> up -> key h (father i) <= key h i) ->
  (forall i, (0 < i < length h)%nat -> father i = up -> (0 < up)%nat ->
     key h (father up) <= key h i) ->
  ordered (shiftUp fuel up h).
Proof.
  revert up h. induction fuel as [|fuel IH]; intros up h Hu Hf Ho Hc; [lia|]. simpl.
  destruct (Nat.eqb_spec up 0) as [->|]; [intros i ?; apply Ho; lia|].
  pose proof (father_lt up ltac:(lia)) as Hlt.
  unfold session_lt.
  destruct (Z.ltb_spec (endLsn (h !!! up)) (endLsn (h !!! father up))) as [Hl|Hl].
  2: { intros i Hi. destruct (decide (i = up)) as [->|]; [exact Hl|by apply Ho]. }
  fold (key h up) (key h (father up)) in Hl.
  apply IH; rewrite ?length_swap; [lia|lia| |].
  - intros i Hi Hne. rewrite !key_swap by lia.
    pose proof (father_lt i ltac:(lia)).
    destruct (Nat.eqb_spec i (father up)); [done|].
    destruct (Nat.eqb_spec i up) as [->|].
    { rewrite Nat.eqb_refl. lia. }
    destruct (Nat.eqb_spec (father i) (father up)) as [E|].
    { pose proof (Ho i Hi ltac:(done)). rewrite E in *. lia. }
    destruct (Nat.eqb_spec (father i) up) as [E|]; [apply Hc; [done|done|lia]|by apply Ho].
  - intros i Hi E Hpos. rewrite !key_swap by lia.
    pose proof (father_lt (father up) ltac:(lia)).
    pose proof (father_lt i ltac:(lia)).
    destruct (Nat.eqb_spec (father (father up)) (father up)); [lia|].
    destruct (Nat.eqb_spec (father (father up)) up); [lia|].
    pose proof (Ho (father up) ltac:(lia) ltac:(lia)).
    destruct (Nat.eqb_spec i (father up)); [lia|].
    destruct (Nat.eqb_spec i up) as [->|]; [lia|].
    pose proof (Ho i Hi ltac:(done)). rewrite E in *. lia.
Qed.

Lemma smallerChild_spec down h : (leftChild down < length h)%nat ->
  (smallerChild down h < length h)%nat /\ father (smallerChild down h) = down /\
  (down < smallerChild down h)%nat /\
  forall i, (0 < i < length h)%nat -> father i = down ->
    key h (smallerChild down h) <= key h i.
Proof.
  intros Hl. unfold smallerChild, session_le.
  assert (forall i, (0 < i)%nat -> father i = down -> i = leftChild down \/ i = rightChild down)
    as Hc by (intros i ? <-; by apply father_children).
  destruct (Nat.leb_spec (length h) (rightChild down)) as [Hr|Hr].
  - split_and!; [done|apply father_leftChild|unfold leftChild; lia|].
    intros i Hi E. destruct (Hc i ltac:(lia) E) as [->| ->]; [lia|lia].
  - destruct (Z.leb_spec (endLsn (h !!! leftChild down)) (endLsn (h !!! rightChild down)));
      (split_and!; [done|apply father_leftChild || apply father_rightChild
                   |unfold leftChild, rightChild; lia|]);
      intros i Hi E; unfold key; destruct (Hc i ltac:(lia) E) as [->| ->]; lia.
Qed.

Lemma shiftDown_length fuel down h : length (shiftDown fuel down h) = length h.
Proof.
  revert down h. induction fuel as [|fuel IH]; intros down h; simpl; [done|].
  destruct (Nat.ltb _ _); [|done]. destruct (session_lt _ _); [|done].
  by rewrite IH, length_swap.
Qed.

Lemma shiftDown_perm fuel down h : shiftDown fuel down h ≡ₚ h.
Proof.
  revert down h. induction fuel as [|fuel IH]; intros down h; simpl; [done|].
  destruct (Nat.ltb_spec (leftChild down) (length h)) as [Hl|]; [|done].
  destruct (session_lt _ _); [|done].
  destruct (smallerChild_spec down h Hl) as (? & _ & ? & _).
  rewrite IH. apply swap_perm; lia.
Qed.

(** The order may fail only between [down] and its children, which are above
    the father of [down]. *)
Lemma shiftDown_ordered fuel down h :
  (length h <= fuel + down)%nat ->
  (forall i, (0 < i < length h)%nat -> father i <> down -> key h (father i) <= key h i) ->
  (forall i, (0 < i < length h)%nat -> father i = down -> (0 < down)%nat ->
     key h (father down) <= key h i) ->
  ordered (shiftDown fuel down h).
Proof.
  revert down h. induction fuel as [|fuel IH]; intros down h Hf Ho Hc.
  { intros i Hi. apply Ho; [done|]. pose proof (father_lt i ltac:(lia)). simpl in *. lia. }
  simpl. destruct (Nat.ltb_spec (leftChild down) (length h)) as [Hl|Hl].
  2: { intros i Hi. apply Ho; [done|]. intros <-.
       destruct (father_children i ltac:(lia)) as [E|E]; unfold leftChild, rightChild in *; lia. }
  destruct (smallerChild_spec down h Hl) as (Hs & Hfs & Hds & Hmin).
  set (s := smallerChild down h) in *. unfold session_lt.
  destruct (Z.ltb_spec (endLsn (h !!! s)) (endLsn (h !!! down))) as [Hlt|Hge].
  2: { intros i Hi. destruct (decide (father i = down)) as [E|]; [|by apply Ho].
       rewrite E. pose proof (Hmin i Hi E). unfold key in *. lia. }
  fold (key h s) (key h down) in Hlt.
  apply IH; rewrite ?length_swap; [lia| |].
  - intros i Hi Hne. rewrite !key_swap by lia. pose proof (father_lt i ltac:(lia)).
    destruct (Nat.eqb_spec (father i) s); [done|].
    destruct (Nat.eqb_spec (father i) down) as [E|E].
    + destruct (Nat.eqb_spec i s) as [->|]; [lia|].
      destruct (Nat.eqb_spec i down); [lia|]. by apply Hmin.
    + destruct (Nat.eqb_spec i s) as [->|]; [lia|].
      destruct (Nat.eqb_spec i down) as [->|]; [|by apply Ho].
      by apply Hc; [lia| |lia].
  - intros i Hi E Hpos. rewrite !key_swap by lia. pose proof (father_lt i ltac:(lia)).
    rewrite Hfs, Nat.eqb_refl. destruct (Nat.eqb_spec down s); [lia|].
    destruct (Nat.eqb_spec i s); [lia|]. destruct (Nat.eqb_spec i down); [lia|].
    rewrite <- E. apply Ho; [done|lia].
Qed.

(** ** Removing a cell *)

Lemma fill_hole_length sub h : length (fill_hole sub h) = (length h - 1)%nat.
Proof.
  unfold fill_hole. rewrite shiftDown_length, length_take, length_insert. lia.
Qed.

Lemma fill_hole_perm sub h : (sub < length h)%nat -> h ≡ₚ (h !!! sub) :: fill_hole sub h.
Proof.
  intros Hs. unfold fill_hole. rewrite shiftDown_perm.
  rewrite <- (swap_perm sub (length h - 1) h) at 1 by lia. unfold swap.
  set (l := <[sub:=_]> h). assert (length l = length h) as Hl by apply length_insert.
  rewrite insert_take_drop by lia. rewrite (drop_ge l) by lia.
  by rewrite (Permutation_app_comm (take _ l)).
Qed.

Lemma fill_hole_cells sub h i : (i < length h - 1)%nat ->
  key (take (length h - 1) (<[sub:=h !!! (length h - 1)%nat]> h)) i
  = if Nat.eqb i sub then key h (length h - 1) else key h i.
Proof.
  intros Hi. unfold key.
  assert (take (length h - 1) (<[sub:=h !!! (length h - 1)%nat]> h) !!! i
          = <[sub:=h !!! (length h - 1)%nat]> h !!! i) as ->.
  { rewrite !list_lookup_total_alt, lookup_take_lt by lia. done. }
  rewrite list_lookup_total_insert.
  destruct (Nat.eqb_spec i sub) as [->|]; [by rewrite decide_True by lia|by rewrite decide_False by lia].
Qed.

(** Sifting down is enough when the moved cell is not below the father of the
    hole. *)
Lemma fill_hole_ordered sub h :
  ordered h -> (sub < length h)%nat ->
  ((0 < sub)%nat -> key h (father sub) <= key h (length h - 1)) ->
  ordered (fill_hole sub h).
Proof.
  intros Ho Hs Hf. unfold fill_hole.
  set (cells := take _ _). assert (length cells = length h - 1)%nat as Hl
    by (unfold cells; rewrite length_take, length_insert; lia).
  apply shiftDown_ordered; rewrite ?Hl; [lia| |].
  - intros i Hi Hne. pose proof (father_lt i ltac:(lia)). unfold cells.
    rewrite !fill_hole_cells by lia. destruct (Nat.eqb_spec (father i) sub); [done|].
    destruct (Nat.eqb_spec i sub) as [->|]; [apply Hf; lia|apply Ho; lia].
  - intros i Hi E Hpos. pose proof (father_lt i ltac:(lia)). pose proof (father_lt sub ltac:(lia)).
    unfold cells. rewrite !fill_hole_cells by lia.
    destruct (Nat.eqb_spec (father sub) sub); [lia|]. destruct (Nat.eqb_spec i sub); [lia|].
    pose proof (Ho sub ltac:(lia)). pose proof (Ho i ltac:(lia)). rewrite E in *. lia.
Qed.

(** ** The heap *)

Record heap_ok (h : clsSyncMinHeap) : Prop := {
  heap_ordered : ordered (_heap h);
  heap_space : 0 < _spcSize h;
  heap_fits : Z.of_nat (dataSize h) <= _spcSize h
}.

Lemma elem_of_key (h : list clsSyncSession) x : x ∈ h -> exists i, (i < length h)%nat /\ key h i = endLsn x.
Proof.
  intros Hx. apply list_elem_of_lookup in Hx as [i Hi].
  exists i. split; [by eapply lookup_lt_Some|]. unfold key. by rewrite (list_lookup_total_correct _ _ _ Hi).
Qed.

Lemma ordered_min h x : ordered h -> x ∈ h -> key h 0 <= endLsn x.
Proof. intros Ho (i & Hi & <-)%elem_of_key. by apply ordered_root_min. Qed.

Lemma push_spec ok s h :
  0 < _spcSize h -> Z.of_nat (dataSize h) <= _spcSize h < 2 ^ 31 ->
  exists rc h', push ok s h = Some (rc, h') /\
    0 < _spcSize h' /\ Z.of_nat (dataSize h') <= _spcSize h' /\
    (rc = SDB_OK /\ _heap h' = shiftUp (S (dataSize h)) (dataSize h) (_heap h ++ [s]) \/
     rc = SDB_OOM /\ ok = false /\ h' = h).
Proof.
  intros Hp Hb. unfold push, allocate.
  assert (forall h', _heap h' = _heap h -> Z.of_nat (dataSize h) < _spcSize h' ->
    exists h'', (if Z.of_nat (dataSize h') <? _spcSize h' then
       Some (SDB_OK, mkHeap (shiftUp (length (_heap h' ++ [s])) (dataSize h') (_heap h' ++ [s]))
               (_spcSize h')) else None) = Some (SDB_OK, h'') /\
      0 < _spcSize h'' /\ Z.of_nat (dataSize h'') <= _spcSize h'' /\
      _heap h'' = shiftUp (S (dataSize h)) (dataSize h) (_heap h ++ [s])) as Hput.
  { intros h' E Hlt. unfold dataSize in *. rewrite E. rewrite (proj2 (Z.ltb_lt _ _)) by lia.
    eexists. split; [done|]. simpl. rewrite shiftUp_length, length_app. simpl.
    rewrite Nat.add_1_r. split_and!; [lia|lia|done]. }
  destruct (Z.eqb_spec (Z.of_nat (dataSize h)) (_spcSize h)) as [E|E].
  - destruct ok; simpl.
    + destruct (Hput (mkHeap (_heap h) (u32 (_spcSize h + _spcSize h)))) as (h'' & Hh & ? & ? & ?);
        [done|simpl; rewrite u32_small; lia|]. exists SDB_OK, h''. split; [exact Hh|]. auto.
    + exists SDB_OOM, h. split_and!; [done|done|lia|]. right. done.
  - destruct (Hput h) as (h'' & Hh & ? & ? & ?); [done|lia|].
    exists SDB_OK, h''. split; [exact Hh|]. auto.
Qed.

Lemma push_ordered s h : ordered h -> ordered (shiftUp (S (length h)) (length h) (h ++ [s])).
Proof.
  intros Ho. assert (length (h ++ [s]) = S (length h)) as Hl by (rewrite length_app; simpl; lia).
  apply shiftUp_ordered; rewrite ?Hl; [lia|lia| |].
  - intros i Hi Hne. pose proof (father_lt i ltac:(lia)). unfold key.
    rewrite !lookup_total_app_l by lia. apply Ho; lia.
  - intros i Hi E Hpos. pose proof (father_lt i ltac:(lia)). lia.
Qed.

(** [push] returns; it keeps the heap in order and adds exactly the session
    to its contents, or it fails for want of memory and changes nothing. *)
Theorem push_keeps_heap ok s h :
  heap_ok h -> _spcSize h < 2 ^ 31 ->
  exists rc h', push ok s h = Some (rc, h') /\ heap_ok h' /\
    (rc = SDB_OK /\ _heap h' ≡ₚ s :: _heap h \/ rc = SDB_OOM /\ ok = false /\ h' = h).
Proof.
  intros [Ho Hp Hf] Hb.
  destruct (push_spec ok s h) as (rc & h' & Hpush & ? & ? & Hcase); [done|lia|].
  exists rc, h'. split; [done|]. destruct Hcase as [[-> E]|(-> & -> & ->)].
  - split; [|left; split; [done|]].
    + split; [|done|done]. rewrite E. by apply push_ordered.
    + rewrite E, shiftUp_perm by (unfold dataSize; rewrite length_app; simpl; lia).
      by rewrite (Permutation_app_comm (_heap h)).
  - split; [done|]. by right.
Qed.

Definition demo_heap : clsSyncMinHeap := mkHeap [mkSession 5 1; mkSession 9 2] 2.

Lemma demo_heap_ok : heap_ok demo_heap.
Proof.
  split; [|done|done]. intros i Hi. unfold demo_heap in *. simpl in Hi.
  assert (i = 1%nat) as -> by lia. vm_compute. discriminate.
Qed.

Lemma push_keeps_heap_witness :
  exists rc h', push true (mkSession 3 7) demo_heap = Some (rc, h') /\ heap_ok h' /\
    (rc = SDB_OK /\ _heap h' ≡ₚ mkSession 3 7 :: _heap demo_heap \/
     rc = SDB_OOM /\ true = false /\ h' = demo_heap).
Proof. apply (push_keeps_heap true (mkSession 3 7) demo_heap); [apply demo_heap_ok|done]. Defined.

Lemma pop_spec h : (0 < dataSize h)%nat ->
  pop h = (SDB_OK, Some (_heap h !!! 0%nat), mkHeap (fill_hole 0 (_heap h)) (_spcSize h)).
Proof. intros. unfold pop. destruct (Nat.eqb_spec (dataSize h) 0); [lia|done]. Qed.

(** [pop] on an empty heap reports it and changes nothing; otherwise it
    takes out a session that waits for the smallest end LSN, leaving the rest
    in heap order. *)
Theorem pop_takes_minimum h :
  heap_ok h ->
  match pop h with
  | (rc, None, h') => rc = SDB_CLS_EMPTY_HEAP /\ _heap h = [] /\ h' = h
  | (rc, Some s, h') => rc = SDB_OK /\ _heap h ≡ₚ s :: _heap h' /\ heap_ok h' /\
      forall x, x ∈ _heap h -> endLsn s <= endLsn x
  end.
Proof.
  intros [Ho Hp Hf]. destruct (decide (dataSize h = 0%nat)) as [E|E].
  - unfold pop. rewrite E. simpl. by apply nil_length_inv in E.
  - rewrite pop_spec by lia. unfold dataSize in *. split_and!; [done|apply fill_hole_perm; lia| |].
    + split; simpl; [apply fill_hole_ordered; [done|lia|lia]|done|].
      unfold dataSize. simpl. rewrite fill_hole_length. lia.
    + intros x Hx. by apply ordered_min.
Qed.

Lemma pop_takes_minimum_witness :
  match pop demo_heap with
  | (rc, None, h') => rc = SDB_CLS_EMPTY_HEAP /\ _heap demo_heap = [] /\ h' = demo_heap
  | (rc, Some s, h') => rc = SDB_OK /\ _heap demo_heap ≡ₚ s :: _heap h' /\ heap_ok h' /\
      forall x, x ∈ _heap demo_heap -> endLsn s <= endLsn x
  end.
Proof. apply (pop_takes_minimum demo_heap), demo_heap_ok. Defined.
