(* ===== verification/Sync.v ===== *)
(** * The sync manager: writes that wait for replicas

    Models [cls/clsSyncManager.cpp] with [_clsSyncStatus] of
    [include/clsDef.hpp], the events of [oss/ossEvent.cpp] a session waits on,
    and [_clsReplicateSet::sync] of [include/clsReplicateSet.hpp].

    The primary keeps for every replica the log offset it asked for last
    ([_notifyList]).  A write that wants [w] copies waits in the heap number
    [w - 2] until [w - 1] replicas are past its end LSN.

    Of the array [_notifyList] the first [_validSync] entries are kept, so
    [_validSync] is the length of the list; the code reads none beyond.  The
    latches guard whole sections, and a section is a function here; signals
    to sessions and messages to nodes are its outputs.  [None] is an access
    outside an array. *)

From stdpp Require Import base list gmap sorting.
From Stdlib Require Import ZArith Lia.
From S2P Require Import Prelude.
From S2P Require Import DpsLsn Vote.
From S2P Require Import SyncHeap.

Open Scope Z_scope.

Definition CLS_REPLSET_MAX_NODE_SIZE : Z := 7.
Definition CLS_REPLSE_WRITE_ONE : Z := 1.
Definition CLS_WAKE_W_TIMEOUT : Z := 2000.
Definition CLS_SAME_SYNC_LSN_MAX_TIMES : Z := 20.
Definition OSS_ONE_SEC : Z := 1000.

(** The number of heaps and of entries of the notify list. *)
Definition syncSlots : nat := Z.to_nat (CLS_REPLSET_MAX_NODE_SIZE - 1).

(** ** Data *)

Record clsSyncStatus : Set := mkStatus {
  ss_offset : Z;
  ss_id : Z;
  ss_valid : bool;
  ss_sameReqTimes : Z
}.

#[export] Instance clsSyncStatus_eq_dec : EqDecision clsSyncStatus.
Proof. solve_decision. Defined.

Definition status_isValid (s : clsSyncStatus) : bool :=
  negb ((DPS_INVALID_LSN_OFFSET =? ss_offset s) || negb (ss_valid s) ||
        (CLS_SAME_SYNC_LSN_MAX_TIMES <? ss_sameReqTimes s)).

#[export] Instance heap_inhabited : Inhabited clsSyncMinHeap := populate (mkHeap [] 0).
#[export] Instance status_inhabited : Inhabited clsSyncStatus := populate (mkStatus 0 0 true 0).

Record clsSyncManager : Set := mkSync {
  _syncList : list clsSyncMinHeap;
  _checkList : list Z;
  _notifyList : list clsSyncStatus;
  _aliveCount : Z;
  _wakeTimeout : Z;
  _enableSync : bool;
  _info : clsGroupInfo
}.

Inductive syncOut : Set :=
| Signal (edu rc : Z)
| SendVirSyncReq (to : Z) (next : DPS_LSN) (from : Z)
| SendSyncNotify (to : Z).

Definition validSync (m : clsSyncManager) : nat := length (_notifyList m).

Definition set_lists (m : clsSyncManager) (lists : list clsSyncMinHeap) : clsSyncManager :=
  mkSync lists (_checkList m) (_notifyList m) (_aliveCount m) (_wakeTimeout m) (_enableSync m)
    (_info m).
Definition set_checks (m : clsSyncManager) (checks : list Z) : clsSyncManager :=
  mkSync (_syncList m) checks (_notifyList m) (_aliveCount m) (_wakeTimeout m) (_enableSync m)
    (_info m).
Definition set_notify (m : clsSyncManager) (l : list clsSyncStatus) : clsSyncManager :=
  mkSync (_syncList m) (_checkList m) l (_aliveCount m) (_wakeTimeout m) (_enableSync m) (_info m).
Definition set_alive (m : clsSyncManager) (n : Z) : clsSyncManager :=
  mkSync (_syncList m) (_checkList m) (_notifyList m) n (_wakeTimeout m) (_enableSync m) (_info m).
Definition set_wakeTimeout (m : clsSyncManager) (t : Z) : clsSyncManager :=
  mkSync (_syncList m) (_checkList m) (_notifyList m) (_aliveCount m) t (_enableSync m) (_info m).

Definition newSyncManager (ok : bool) (g : clsGroupInfo) : clsSyncManager :=
  mkSync (replicate syncSlots (newHeap ok)) (replicate syncSlots DPS_INVALID_LSN_OFFSET) []
    0 0 true g.

Definition enableSync (enable : bool) (m : clsSyncManager) : clsSyncManager :=
  mkSync (_syncList m) (_checkList m) (_notifyList m) (_aliveCount m) (_wakeTimeout m) enable
    (_info m).

Definition isReadyToReplay (m : clsSyncManager) : bool :=
  if _enableSync m then
    if (gi_primary (_info m) =? gi_local (_info m)) &&
       negb (gi_primary (_info m) =? MSG_INVALID_ROUTEID) then false else true
  else false.

(** ** Node status *)

(** The loops that look for a node and leave at the first match. *)
Fixpoint update_first (id : Z) (f : clsSyncStatus -> clsSyncStatus) (l : list clsSyncStatus)
  : list clsSyncStatus :=
  match l with
  | [] => []
  | s :: l' => if ss_id s =? id then f s :: l' else s :: update_first id f l'
  end.

Definition updateNodeStatus (id : Z) (valid : bool) (m : clsSyncManager) : clsSyncManager :=
  if existsb (fun s => ss_id s =? id) (_notifyList m) then
    set_alive
      (set_notify m (update_first id
         (fun s => mkStatus (ss_offset s) (ss_id s) valid (ss_sameReqTimes s)) (_notifyList m)))
      (u32 (if valid then _aliveCount m + 1 else _aliveCount m - 1))
  else m.

Definition notifyFullSync (id : Z) (m : clsSyncManager) : clsSyncManager :=
  set_notify m (update_first id
    (fun s => mkStatus DPS_INVALID_LSN_OFFSET (ss_id s) (ss_valid s) (ss_sameReqTimes s))
    (_notifyList m)).

Inductive CLS_SYNC_STRATEGY : Set :=
| CLS_SYNC_NONE
| CLS_SYNC_KEEPNORMAL
| CLS_SYNC_KEEPALL.

#[export] Instance strategy_eq_dec : EqDecision CLS_SYNC_STRATEGY.
Proof. solve_decision. Defined.

Definition arbit_step (syncSty : CLS_SYNC_STRATEGY) (offset : Z) (s : clsSyncStatus) : Z :=
  if DPS_INVALID_LSN_OFFSET =? ss_offset s then offset
  else if bool_decide (syncSty = CLS_SYNC_KEEPNORMAL) && negb (status_isValid s) then offset
  else if (DPS_INVALID_LSN_OFFSET =? offset) || (ss_offset s <? offset) then ss_offset s
  else offset.

Definition getSyncCtrlArbitLSN (syncSty : CLS_SYNC_STRATEGY) (m : clsSyncManager) : Z :=
  if Nat.eqb (validSync m) 0 || bool_decide (syncSty = CLS_SYNC_NONE) then DPS_INVALID_LSN_OFFSET
  else foldl (arbit_step syncSty) DPS_INVALID_LSN_OFFSET (_notifyList m).

Definition atLeastOne (offset : Z) (m : clsSyncManager) : bool :=
  existsb (fun s => compareOffset offset (ss_offset s) <? 0) (_notifyList m).

Definition notify (offset : Z) (m : clsSyncManager) : list syncOut :=
  flat_map (fun s =>
    if 0 =? ss_id s then []
    else if offset =? ss_offset s then [SendSyncNotify (ss_id s)] else []) (_notifyList m).

(** ** Waking sessions *)

(** [multiset::insert] *)
Fixpoint ms_insert (x : Z) (l : list Z) : list Z :=
  match l with
  | [] => [x]
  | y :: l' => if x <? y then x :: l else y :: ms_insert x l'
  end.

(** A node in full sync counts as having everything. *)
Definition planOffset (s : clsSyncStatus) : Z :=
  if DPS_INVALID_LSN_OFFSET =? ss_offset s then DPS_INVALID_LSN_OFFSET - 1 else ss_offset s.

Definition createWakePlan (m : clsSyncManager) : list Z :=
  foldl (fun plan s => ms_insert (planOffset s) plan) [] (_notifyList m).

(** The inner loop of [_wake]: every round pops, so the size is fuel enough. *)
Fixpoint wake_heap (fuel : nat) (lsn : Z) (h : clsSyncMinHeap) : clsSyncMinHeap * list syncOut :=
  match fuel with
  | O => (h, [])
  | S fuel' =>
      match root h with
      | (_, None) => (h, [])
      | (_, Some session) =>
          if 0 <? compareOffset lsn (endLsn session) then
            let '(_, _, h') := pop h in
            let '(h'', out) := wake_heap fuel' lsn h' in
            (h'', Signal (eduCB session) SDB_OK :: out)
          else (h, [])
      end
  end.

(** The outer loop over the plan, largest offset first. *)
Fixpoint wake_loop (plan : list Z) (sub : nat) (lists : list clsSyncMinHeap) (checks : list Z)
  : list clsSyncMinHeap * list Z * list syncOut :=
  match plan with
  | [] => (lists, checks, [])
  | lsn :: plan' =>
      let '(h, out) := wake_heap (dataSize (lists !!! sub)) lsn (lists !!! sub) in
      let '(lists', checks', out') :=
        wake_loop plan' (S sub) (<[sub := h]> lists) (<[sub := lsn]> checks) in
      (lists', checks', out ++ out')
  end.

Definition wake (plan : list Z) (m : clsSyncManager) : clsSyncManager * list syncOut :=
  let '(lists, checks, out) := wake_loop (rev plan) 0 (_syncList m) (_checkList m) in
  (set_wakeTimeout (set_checks (set_lists m lists) checks) 0, out).

Definition complete_status (offset : Z) (s : clsSyncStatus) : clsSyncStatus :=
  let result := compareOffset offset (ss_offset s) in
  mkStatus (if 0 <? result then offset else ss_offset s) (ss_id s) (ss_valid s)
    (if 0 =? result then u32 (ss_sameReqTimes s + 1) else 0).

(** [_complete], as one step: the code holds the latch of the group shared, so
    confirmations of several replicas can overlap there. *)
Definition complete_local (id offset : Z) (m : clsSyncManager) : clsSyncManager * list syncOut :=
  let m := set_notify m (update_first id (complete_status offset) (_notifyList m)) in
  wake (createWakePlan m) m.

Definition complete (id : Z) (lsn : DPS_LSN) (m : clsSyncManager) : clsSyncManager * list syncOut :=
  if lsn_invalid lsn || (MSG_INVALID_ROUTEID =? id) then (m, [])
  else
    let primary := gi_primary (_info m) in
    if (primary =? gi_local (_info m)) && negb (MSG_INVALID_ROUTEID =? primary)
    then complete_local id (lsn_offset lsn) m
    else if negb (MSG_INVALID_ROUTEID =? primary) then (m, [SendVirSyncReq primary lsn id])
    else (m, []).

Definition sync_handleTimeout (interval : Z) (m : clsSyncManager)
  : clsSyncManager * list syncOut :=
  let m := set_wakeTimeout m (u32 (_wakeTimeout m + interval)) in
  if CLS_WAKE_W_TIMEOUT <? _wakeTimeout m then wake (createWakePlan m) m else (m, []).

(** ** Cutting waiting sessions off *)

(** [while ( SDB_OK == pop )] with a signal for every session. *)
Fixpoint drain (fuel : nat) (rc : Z) (h : clsSyncMinHeap) : clsSyncMinHeap * list syncOut :=
  match fuel with
  | O => (h, [])
  | S fuel' =>
      match pop h with
      | (_, Some session, h') =>
          let '(h'', out) := drain fuel' rc h' in
          (h'', Signal (eduCB session) rc :: out)
      | (_, None, _) => (h, [])
      end
  end.

(** The loop of [cut] from index [alives + n - 1] down to [alives]. *)
Fixpoint cut_loop (n : nat) (alives : nat) (lists : list clsSyncMinHeap)
  : list clsSyncMinHeap * list syncOut :=
  match n with
  | O => (lists, [])
  | S n' =>
      let i := (alives + n')%nat in
      let h := lists !!! i in
      let '(h', out) := drain (dataSize h) SDB_CLS_WAIT_SYNC_FAILED h in
      let '(lists', out') := cut_loop n' alives (<[i := h']> lists) in
      (lists', out ++ out')
  end.

Definition cut (alives : nat) (m : clsSyncManager) : clsSyncManager * list syncOut :=
  if Nat.ltb (validSync m) alives then (m, [])
  else
    let '(lists, out) := cut_loop (validSync m - alives) alives (_syncList m) in
    (set_lists m lists, out).

(** ** Changes of the group *)

(** The body of the pop loop of [_clearSyncList] for one session: signalled,
    failed, or moved to the heap below the removed ones.  [oks] is the outcome
    of the allocation for the session. *)
Definition clear_session (oks : Z -> bool) (okW removed endSub removedSub : nat)
  (left : list clsSyncStatus) (session : clsSyncSession) (lists : list clsSyncMinHeap)
  : option (list clsSyncMinHeap * list syncOut) :=
  let completed := length (filter (fun s => endLsn session < ss_offset s)
                     (take (length left - 1) left)) in
  if Nat.leb okW completed then Some (lists, [Signal (eduCB session) SDB_OK])
  else if Nat.ltb (endSub + removed) (removedSub + 1)
  then Some (lists, [Signal (eduCB session) SDB_CLS_WAIT_SYNC_FAILED])
  else
    match endSub with
    | O => None
    | S sub =>
        match push (oks (eduCB session)) session (lists !!! sub) with
        | Some (_, h) => Some (<[sub := h]> lists, [])
        | None => None
        end
    end.

Fixpoint clear_heap (fuel : nat) (oks : Z -> bool) (okW removed endSub removedSub : nat)
  (left : list clsSyncStatus) (lists : list clsSyncMinHeap)
  : option (list clsSyncMinHeap * list syncOut) :=
  match fuel with
  | O => Some (lists, [])
  | S fuel' =>
      match pop (lists !!! removedSub) with
      | (_, Some session, h) =>
          '(lists, out) ← clear_session oks okW removed endSub removedSub left session
                            (<[removedSub := h]> lists);
          '(lists, out') ← clear_heap fuel' oks okW removed endSub removedSub left lists;
          Some (lists, out ++ out')
      | (_, None, _) => Some (lists, [])
      end
  end.

(** [_clearSyncList] from [removedSub] down to [endSub]. *)
Fixpoint clear_loop (removedSub : nat) (oks : Z -> bool) (okW removed endSub : nat)
  (left : list clsSyncStatus) (lists : list clsSyncMinHeap)
  : option (list clsSyncMinHeap * list syncOut) :=
  if Nat.ltb removedSub endSub then Some (lists, [])
  else
    '(lists, out) ← clear_heap (dataSize (lists !!! removedSub)) oks okW removed endSub removedSub
                      left lists;
    match removedSub with
    | O => Some (lists, out)
    | S r =>
        '(lists, out') ← clear_loop r oks okW removed endSub left lists;
        Some (lists, out ++ out')
    end.

Definition clearSyncList (oks : Z -> bool) (removed removedAlives preAlives : nat)
  (left : list clsSyncStatus) (lists : list clsSyncMinHeap)
  : option (list clsSyncMinHeap * list syncOut) :=
  let preSyncNum := length left in
  clear_loop (preSyncNum - 1) oks (preSyncNum - removed) removed (preAlives - removedAlives)
    left lists.

Definition inGroup (m : clsSyncManager) (id : Z) : bool :=
  existsb (fun kv => fst kv =? id) (gi_info (_info m)).

Definition updateNotifyList (oks : Z -> bool) (newNodeValid : bool) (m : clsSyncManager)
  : option (Z * clsSyncManager * list syncOut) :=
  let old := _notifyList m in
  let gone := List.filter (fun s => negb (inGroup m (ss_id s))) old in
  let kept := List.filter (fun s => inGroup m (ss_id s)) old in
  let prevAlives := length (List.filter ss_valid old) in
  let aliveRemoved := length (List.filter ss_valid gone) in
  '(lists, out) ← (if Nat.eqb (length gone) 0 then Some (_syncList m, [])
                   else clearSyncList oks (length gone) aliveRemoved prevAlives old (_syncList m));
  let added := List.map (fun kv => mkStatus 0 (fst kv) newNodeValid 0)
    (List.filter (fun kv => negb (existsb (fun s => fst kv =? ss_id s) kept))
       (gi_info (_info m))) in
  if Nat.ltb syncSlots (length (kept ++ added)) then None
  else Some (SDB_OK,
             set_alive (set_notify (set_lists m lists) (kept ++ added))
               (Z.of_nat (length (gi_alives (_info m)))),
             out).

(** ** Waiting for replicas *)

Inductive syncEntry : Set :=
| SyncDone (rc : Z)
| SyncWait (sub : nat).

(** [sync] up to the wait. *)
Definition sync_enter (ok : bool) (session : clsSyncSession) (w : Z) (m : clsSyncManager)
  : option (syncEntry * clsSyncManager) :=
  let valid := Z.of_nat (validSync m) in
  if w <=? CLS_REPLSE_WRITE_ONE then Some (SyncDone SDB_OK, m)
  else if 0 =? valid then Some (SyncDone SDB_OK, m)
  else if (MSG_INVALID_ROUTEID =? gi_primary (_info m)) ||
          negb (gi_primary (_info m) =? gi_local (_info m))
  then Some (SyncDone SDB_CLS_WAIT_SYNC_FAILED, m)
  else if (_aliveCount m <? valid) && (u32 (_aliveCount m + 1) <? w)
  then Some (SyncDone SDB_CLS_WAIT_SYNC_FAILED, m)
  else
    let sub := Z.to_nat (if valid + 1 <? w then valid + 1 - 2 else w - 2) in
    check ← _checkList m !! sub;
    h ← _syncList m !! sub;
    if negb (DPS_INVALID_LSN_OFFSET =? check) && (endLsn session <? check)
    then Some (SyncDone SDB_OK, m)
    else
      '(rc, h') ← push ok session h;
      let m := set_lists m (<[sub := h']> (_syncList m)) in
      Some (if negb (SDB_OK =? rc) then SyncDone rc else SyncWait sub, m).

(** What a round of [_wait] sees: an interrupt, a signal, or a slice without
    one. *)
Inductive waitSlice : Set :=
| SliceInterrupted
| SliceSignalled (rc : Z)
| SliceElapsed.

Inductive waitEnd : Set :=
| WaitSignalled (rc : Z)
| WaitGivenUp (rc : Z).

Definition sliceTime (timeout : Z) : Z :=
  if 0 <=? timeout then (if OSS_ONE_SEC <? timeout then OSS_ONE_SEC else timeout)
  else OSS_ONE_SEC.

(** The loop of [_wait]; [None] while the session still waits. *)
Fixpoint wait_loop (slices : list waitSlice) (timeout : Z) : option waitEnd :=
  match slices with
  | [] => None
  | SliceInterrupted :: _ => Some (WaitGivenUp SDB_APP_INTERRUPT)
  | SliceSignalled rc :: _ => Some (WaitSignalled rc)
  | SliceElapsed :: rest =>
      if 0 <=? timeout then
        let timeout' := timeout - sliceTime timeout in
        if timeout' <=? 0 then Some (WaitGivenUp SDB_TIMEOUT) else wait_loop rest timeout'
      else wait_loop rest timeout
  end.

Fixpoint find_edu (cb : Z) (l : list clsSyncSession) : option nat :=
  match l with
  | [] => None
  | s :: l' => if cb =? eduCB s then Some 0%nat else S <$> find_edu cb l'
  end.

(** The section of [_wait] that withdraws the session. *)
Definition wait_withdraw (cb : Z) (sub : nat) (m : clsSyncManager) : clsSyncManager :=
  let h := _syncList m !!! sub in
  match find_edu cb (_heap h) with
  | Some i => set_lists m (<[sub := snd (erase i h)]> (_syncList m))
  | None => m
  end.

(** The event of a session: [_ossAutoEvent]. *)
Record ossEvent : Set := mkEvent {
  ev_signal : bool;
  ev_useData : Z
}.

Definition event_reset (ev : ossEvent) : ossEvent := mkEvent false (ev_useData ev).
Definition event_signal (data : Z) (ev : ossEvent) : ossEvent := mkEvent true data.

(** What a [wait] of one slice gives: the data of a signal, which it takes. *)
Definition event_wait (ev : ossEvent) : option Z * ossEvent :=
  if ev_signal ev then (Some (ev_useData ev), event_reset ev) else (None, ev).

(** [_clsReplicateSet::sync] up to the wait. *)
Definition replSet_sync (ok : bool) (offset : Z) (edu : Z) (w : Z) (ev : ossEvent)
  (m : clsSyncManager) : option (syncEntry * ossEvent * clsSyncManager) :=
  if (DPS_INVALID_LSN_OFFSET =? offset) || (w <=? 1) then Some (SyncDone SDB_OK, ev, m)
  else
    let w := if CLS_REPLSET_MAX_NODE_SIZE <? w then CLS_REPLSET_MAX_NODE_SIZE else w in
    '(entry, m) ← sync_enter ok (mkSession offset edu) w m;
    Some (entry, event_reset ev, m).

(** ** Sources for a replica *)

Definition beatOf (g : clsGroupInfo) (id : Z) : option clsGroupBeat :=
  sh_beat <$> om_find id (gi_info g).

Definition syncStatusIs (g : clsGroupInfo) (st : CLS_SYNC_STATUS) (id : Z) : bool :=
  match beatOf g id with
  | Some b => bool_decide (beat_syncStatus b = st)
  | None => false
  end.

(** [ids[ossRand() % validNum]]; the array has room for [syncSlots] ids. *)
Definition pick (rand : Z) (ids : list Z) : option Z :=
  if Nat.ltb syncSlots (length ids) then None
  else ids !! Z.to_nat (rand mod Z.of_nat (length ids)).

Definition getSyncSrc (rand : Z) (blacklist : gset Z) (m : clsSyncManager) : option Z :=
  let g := _info m in
  let primary := gi_primary g in
  if bool_decide (primary ∈ gi_alives g) && syncStatusIs g CLS_SYNC_STATUS_PEER primary
  then Some primary
  else
    let peers := List.filter (fun id => syncStatusIs g CLS_SYNC_STATUS_PEER id &&
                                        negb (bool_decide (id ∈ blacklist))) (gi_alives g) in
    if Nat.eqb (length peers) 0 then
      let rcs := List.filter (fun id => syncStatusIs g CLS_SYNC_STATUS_RC id &&
                                        negb (id =? primary) &&
                                        negb (bool_decide (id ∈ blacklist))) (gi_alives g) in
      if Nat.eqb (length rcs) 0 then Some primary else pick rand rcs
    else pick rand peers.

(** [columns.nodeID] of a route id on a little-endian machine. *)
Definition nodeID (id : Z) : Z := u16 (Z.shiftr id 32).

Definition getFullSrc (m : clsSyncManager) : Z :=
  if negb (nodeID (gi_primary (_info m)) =? nodeID (gi_local (_info m)))
  then gi_primary (_info m) else MSG_INVALID_ROUTEID.
