(* ===== verification/SyncFacts.v ===== *)
(** * Facts on the sync manager

    What a wake-up signals and what it leaves, the check list, and the
    interleavings of writing sessions with the manager's other work. *)

From stdpp Require Import base list gmap sorting.
From Stdlib Require Import ZArith Lia.
From S2P Require Import Prelude.
From S2P Require Import DpsLsn Vote.
From S2P Require Import SyncHeap.
From S2P Require Import SyncHeapFacts.
From S2P Require Import Sync.

Open Scope Z_scope.

(** ** Confirmations *)

(** The replicas past an LSN, those in full sync included. *)
Definition past (lsn : Z) (l : list Z) : nat := length (filter (fun v => lsn < v) l).

Definition confirmed (m : clsSyncManager) (lsn : Z) : nat :=
  past lsn (List.map planOffset (_notifyList m)).

Lemma past_perm lsn l l' : l ≡ₚ l' -> past lsn l = past lsn l'.
Proof. intros E. unfold past. by rewrite E. Qed.

Lemma past_mono lsn l l' : Forall2 Z.le l l' -> (past lsn l <= past lsn l')%nat.
Proof.
  unfold past. induction 1 as [|x y l l' Hxy HF IH]; [done|].
  rewrite !filter_cons. repeat case_decide; simpl; lia.
Qed.

Lemma past_none lsn l : Forall (fun v => v <= lsn) l -> filter (fun v => lsn < v) l = [].
Proof.
  induction 1 as [|x l Hx HF IH]; [done|]. rewrite filter_cons_False by lia. exact IH.
Qed.

Lemma past_lookup lsn l i v : StronglySorted Z.ge l -> l !! i = Some v ->
  (lsn < v -> (S i <= past lsn l)%nat) /\ (v <= lsn -> (past lsn l <= i)%nat).
Proof.
  unfold past. intros Hs. revert i. induction Hs as [|x l Hs IH HF]; intros i Hi; [done|].
  rewrite filter_cons. destruct i as [|i]; simpl in Hi.
  - injection Hi as ->. split; intros Hv; case_decide; simpl; try lia.
    rewrite (past_none lsn l); [done|]. eapply Forall_impl; [exact HF|]. simpl. intros; lia.
  - destruct (IH i Hi) as [H1 H2].
    assert (x >= v) by (rewrite Forall_forall in HF; eapply HF, list_elem_of_lookup_2, Hi).
    split; intros Hv; case_decide; simpl; lia.
Qed.

(** ** The wake plan *)

Lemma ms_insert_perm x l : ms_insert x l ≡ₚ x :: l.
Proof.
  induction l as [|y l IH]; simpl; [done|]. destruct (x <? y); [done|].
  rewrite IH. apply Permutation_swap.
Qed.

Lemma ms_insert_sorted x l : StronglySorted Z.le l -> StronglySorted Z.le (ms_insert x l).
Proof.
  induction 1 as [|y l Hs IH HF]; simpl; [repeat constructor|].
  destruct (Z.ltb_spec x y).
  - constructor; [by constructor|]. constructor; [lia|].
    eapply Forall_impl; [exact HF|]. simpl. intros; lia.
  - constructor; [done|]. rewrite ms_insert_perm. constructor; [lia|done].
Qed.

Lemma plan_fold l plan : StronglySorted Z.le plan ->
  let r := foldl (fun plan s => ms_insert (planOffset s) plan) plan l in
  StronglySorted Z.le r /\ r ≡ₚ List.map planOffset l ++ plan.
Proof.
  revert plan. induction l as [|s l IH]; intros plan Hs; simpl; [done|].
  destruct (IH (ms_insert (planOffset s) plan)) as [H1 H2]; [by apply ms_insert_sorted|].
  split; [done|]. rewrite H2, ms_insert_perm. symmetry. apply Permutation_middle.
Qed.

Lemma sorted_snoc (R : Z -> Z -> Prop) l x :
  StronglySorted R l -> Forall (fun y => R y x) l -> StronglySorted R (l ++ [x]).
Proof.
  induction 1 as [|y l Hs IH HF]; intros Hx; simpl; [repeat constructor|].
  inversion Hx; subst. constructor; [by apply IH|]. apply Forall_app. by repeat constructor.
Qed.

Lemma sorted_rev l : StronglySorted Z.le l -> StronglySorted Z.ge (rev l).
Proof.
  induction 1 as [|x l Hs IH HF]; simpl; [constructor|]. apply sorted_snoc; [done|].
  rewrite <- (Permutation_rev l). eapply Forall_impl; [exact HF|]. simpl. intros; lia.
Qed.

(** The plan from its largest offset: what [_wake] walks. *)
Definition wakeOrder (m : clsSyncManager) : list Z := rev (createWakePlan m).

Lemma wakeOrder_spec m :
  StronglySorted Z.ge (wakeOrder m) /\ wakeOrder m ≡ₚ List.map planOffset (_notifyList m).
Proof.
  destruct (plan_fold (_notifyList m) []) as [H1 H2]; [constructor|].
  rewrite app_nil_r in H2. split; [by apply sorted_rev|].
  unfold wakeOrder. rewrite <- H2. symmetry. apply Permutation_rev.
Qed.

Lemma wakeOrder_length m : length (wakeOrder m) = validSync m.
Proof. destruct (wakeOrder_spec m) as [_ E]. rewrite E. apply length_map. Qed.

Lemma wakeOrder_lookup m sub v lsn : wakeOrder m !! sub = Some v ->
  (lsn < v -> (S sub <= confirmed m lsn)%nat) /\ (v <= lsn -> (confirmed m lsn <= sub)%nat).
Proof.
  intros Hv. destruct (wakeOrder_spec m) as [Hs Hp]. unfold confirmed.
  rewrite <- (past_perm _ _ _ Hp). by apply past_lookup.
Qed.

(** ** Log offsets *)

Definition offsets_ok (m : clsSyncManager) : Prop :=
  Forall (fun s => 0 <= ss_offset s <= DPS_INVALID_LSN_OFFSET) (_notifyList m).

Lemma planOffset_bound s : 0 <= ss_offset s <= DPS_INVALID_LSN_OFFSET ->
  0 <= planOffset s < DPS_INVALID_LSN_OFFSET.
Proof.
  intros H. unfold planOffset.
  destruct (Z.eqb_spec DPS_INVALID_LSN_OFFSET (ss_offset s)); [|lia].
  unfold DPS_INVALID_LSN_OFFSET. lia.
Qed.

Lemma wakeOrder_valid m v : offsets_ok m -> v ∈ wakeOrder m -> v <> DPS_INVALID_LSN_OFFSET.
Proof.
  intros Ho Hv. destruct (wakeOrder_spec m) as [_ Hp]. rewrite Hp in Hv.
  apply list_elem_of_In, in_map_iff in Hv as (s & <- & Hs). apply list_elem_of_In in Hs.
  unfold offsets_ok in Ho. rewrite Forall_forall in Ho. pose proof (planOffset_bound s (Ho s Hs)). lia.
Qed.

Lemma compareOffset_pos a b : a <> DPS_INVALID_LSN_OFFSET ->
  (0 <? compareOffset a b) = (DPS_INVALID_LSN_OFFSET =? b) || (b <? a).
Proof.
  intros Ha. unfold compareOffset.
  destruct (Z.eqb_spec DPS_INVALID_LSN_OFFSET a); [congruence|].
  destruct (Z.eqb_spec DPS_INVALID_LSN_OFFSET b); simpl; [done|].
  destruct (Z.ltb_spec a b); [|destruct (Z.ltb_spec b a)]; simpl; try done.
  destruct (Z.ltb_spec b a); [lia|done].
Qed.

(** ** Taking sessions out of a heap *)

Definition reached (lsn : Z) (s : clsSyncSession) : bool := 0 <? compareOffset lsn (endLsn s).

Definition sig (rc : Z) (s : clsSyncSession) : syncOut := Signal (eduCB s) rc.

Lemma pop_cases h :
  match pop h with
  | (_, Some s, h') => _heap h ≡ₚ s :: _heap h' /\ s = _heap h !!! 0%nat /\
      (dataSize h' < dataSize h)%nat /\ (ordered (_heap h) -> ordered (_heap h')) /\
      _spcSize h' = _spcSize h
  | (_, None, _) => _heap h = []
  end.
Proof.
  unfold pop, dataSize. destruct (Nat.eqb_spec (length (_heap h)) 0) as [E|E].
  - by apply nil_length_inv in E.
  - simpl. split_and!; [apply fill_hole_perm; lia|done|rewrite fill_hole_length; lia| |done].
    intros Ho. apply fill_hole_ordered; [done|lia|lia].
Qed.

(** A session the wake-up leaves is behind one that [lsn] has not reached. *)
Definition stuck (lsn : Z) (h : list clsSyncSession) : Prop := forall x, x ∈ h ->
  exists r, r ∈ h /\ endLsn r <= endLsn x /\ reached lsn r = false.

Lemma wake_heap_spec fuel lsn h h' out :
  (dataSize h <= fuel)%nat -> wake_heap fuel lsn h = (h', out) ->
  exists popped, _heap h ≡ₚ popped ++ _heap h' /\ out = List.map (sig SDB_OK) popped /\
    Forall (fun s => reached lsn s = true) popped /\ _spcSize h' = _spcSize h /\
    (ordered (_heap h) -> ordered (_heap h') /\ stuck lsn (_heap h')).
Proof.
  revert h h' out. induction fuel as [|fuel IH]; intros h h' out Hf; simpl.
  { intros [= <- <-]. exists []. split_and!; try done.
    assert (_heap h = []) as -> by (apply nil_length_inv; unfold dataSize in Hf; lia).
    intros; split; [done|]. intros x Hx. by apply not_elem_of_nil in Hx. }
  unfold root. destruct (Nat.eqb_spec (dataSize h) 0) as [E|E].
  { intros [= <- <-]. exists []. split_and!; try done.
    assert (_heap h = []) as -> by (apply nil_length_inv; exact E).
    intros; split; [done|]. intros x Hx. by apply not_elem_of_nil in Hx. }
  fold (reached lsn (_heap h !!! 0%nat)).
  destruct (reached lsn (_heap h !!! 0%nat)) eqn:Hr.
  - pose proof (pop_cases h) as Hp. destruct (pop h) as [[rc [s|]] h1].
    2: { unfold dataSize in E. rewrite Hp in E. done. }
    destruct Hp as (Hp & Hs & Hd & Ho & Hsp).
    destruct (wake_heap fuel lsn h1) as [h2 out2] eqn:Hw. intros [= <- <-].
    destruct (IH h1 h2 out2) as (popped & H1 & H2 & H3 & H4 & H5); [lia|done|].
    exists (_heap h !!! 0%nat :: popped). subst s. split_and!.
    + etransitivity; [exact Hp|]. simpl. by rewrite H1.
    + by rewrite H2.
    + by constructor.
    + congruence.
    + auto.
  - intros [= <- <-]. exists []. split_and!; try done. intros Ho. split; [done|].
    intros x Hx. exists (_heap h !!! 0%nat). split_and!; [|by apply ordered_min|done].
    apply list_elem_of_lookup_total_2. unfold dataSize in E. lia.
Qed.

Lemma drain_spec fuel rc h h' out :
  (dataSize h <= fuel)%nat -> drain fuel rc h = (h', out) ->
  exists popped, _heap h ≡ₚ popped ++ _heap h' /\ out = List.map (sig rc) popped /\
    _heap h' = [] /\ _spcSize h' = _spcSize h.
Proof.
  revert h h' out. induction fuel as [|fuel IH]; intros h h' out Hf; simpl.
  { intros [= <- <-]. exists []. split_and!; try done.
    apply nil_length_inv; unfold dataSize in Hf; lia. }
  pose proof (pop_cases h) as Hp. destruct (pop h) as [[c [s|]] h1].
  2: { intros [= <- <-]. by exists []. }
  destruct Hp as (Hp & Hs & Hd & Ho & Hsp).
  destruct (drain fuel rc h1) as [h2 out2] eqn:Hw. intros [= <- <-].
  destruct (IH h1 h2 out2) as (popped & H1 & H2 & H3 & H4); [lia|done|].
  exists (s :: popped). split_and!; [by rewrite Hp, H1|by rewrite H2|done|congruence].
Qed.

(** ** Taking sessions out of the heaps *)

(** [pp i] are the sessions that left heap [i]. *)
Definition taken (lists lists' : list clsSyncMinHeap) (pp : nat -> list clsSyncSession) : Prop :=
  length lists' = length lists /\
  forall i, (i < length lists)%nat ->
    _heap (lists !!! i) ≡ₚ pp i ++ _heap (lists' !!! i) /\
    _spcSize (lists' !!! i) = _spcSize (lists !!! i).

(** The outputs are signals to exactly the sessions that left. *)
Record signals (out : list syncOut) (pp : nat -> list clsSyncSession)
  (R : nat -> clsSyncSession -> Z -> Prop) : Prop := {
  signals_only : forall edu rc, Signal edu rc ∈ out ->
    exists i s, s ∈ pp i /\ eduCB s = edu /\ R i s rc;
  signals_all : forall i s, s ∈ pp i -> exists rc, Signal (eduCB s) rc ∈ out /\ R i s rc
}.

Lemma elem_of_sigs edu rc rc' l : Signal edu rc ∈ List.map (sig rc') l ->
  rc = rc' /\ exists s, s ∈ l /\ eduCB s = edu.
Proof.
  intros (s & E & Hs)%list_elem_of_In%in_map_iff. apply list_elem_of_In in Hs.
  unfold sig in E. injection E as <- <-. eauto.
Qed.

Lemma sigs_elem_of rc l s : s ∈ l -> Signal (eduCB s) rc ∈ List.map (sig rc) l.
Proof.
  intros Hs. apply list_elem_of_In, in_map_iff. exists s. split; [done|]. by apply list_elem_of_In.
Qed.

(** One heap after the others. *)
Lemma taken_cons lists lists' pp i h popped :
  (i < length lists)%nat -> _heap (lists !!! i) ≡ₚ popped ++ _heap h ->
  _spcSize h = _spcSize (lists !!! i) ->
  pp i = [] -> taken (<[i := h]> lists) lists' pp ->
  taken lists lists' (fun j => if Nat.eqb j i then popped else pp j).
Proof.
  intros Hi Hh Hsp Hpp [Hl Ht]. rewrite length_insert in *. split; [done|]. intros j Hj.
  destruct (Ht j Hj) as [H1 H2]. destruct (Nat.eqb_spec j i) as [->|Hne].
  - rewrite list_lookup_total_insert_eq in H1, H2 by done. rewrite Hpp in H1. simpl in H1.
    split; [by rewrite Hh, H1|congruence].
  - by rewrite list_lookup_total_insert_ne in H1, H2 by done.
Qed.

Lemma signals_cons out out' pp R rc i popped :
  signals out' pp R -> pp i = [] -> out = List.map (sig rc) popped ->
  (forall s, s ∈ popped -> R i s rc) ->
  signals (out ++ out') (fun j => if Nat.eqb j i then popped else pp j) R.
Proof.
  intros [H1 H2] Hpp -> HR. split.
  - intros edu c [H|H]%elem_of_app.
    + apply elem_of_sigs in H as (-> & s & Hs & <-). exists i, s. rewrite Nat.eqb_refl. auto.
    + destruct (H1 _ _ H) as (j & s & Hs & He & HRj). exists j, s.
      destruct (Nat.eqb_spec j i) as [->|]; [|done]. rewrite Hpp in Hs. by apply not_elem_of_nil in Hs.
  - intros j s Hs. destruct (Nat.eqb_spec j i) as [->|].
    + exists rc. split; [|auto]. apply elem_of_app. left. by apply sigs_elem_of.
    + destruct (H2 _ _ Hs) as (c & Hc & HRc). exists c. split; [|done]. apply elem_of_app. by right.
Qed.

Lemma signals_mono out pp (R R' : nat -> clsSyncSession -> Z -> Prop) :
  signals out pp R -> (forall i s rc, R i s rc -> R' i s rc) -> signals out pp R'.
Proof.
  intros [H1 H2] HR. split.
  - intros edu rc Hin. destruct (H1 _ _ Hin) as (i & s & ? & ? & ?). exists i, s. auto.
  - intros i s Hs. destruct (H2 _ _ Hs) as (rc & ? & ?). exists rc. auto.
Qed.

Lemma taken_refl lists : taken lists lists (fun _ => []).
Proof. done. Qed.

Lemma signals_nil R : signals [] (fun _ => []) R.
Proof. split; intros; by match goal with H : _ ∈ [] |- _ => apply not_elem_of_nil in H end. Qed.

(** ** The loops over the heaps *)

Definition in_range (sub n i : nat) : Prop := (sub <= i < sub + n)%nat.

Record woken (plan : list Z) (sub : nat) (lists lists' : list clsSyncMinHeap)
  (checks checks' : list Z) (out : list syncOut) (pp : nat -> list clsSyncSession) : Prop := {
  woken_taken : taken lists lists' pp;
  woken_signals : signals out pp (fun i s rc => rc = SDB_OK /\
    exists v, (sub <= i)%nat /\ plan !! (i - sub)%nat = Some v /\ reached v s = true);
  woken_outside : forall i, ~ in_range sub (length plan) i ->
    pp i = [] /\ lists' !!! i = lists !!! i;
  woken_checks : length checks' = length checks /\ forall i,
    (in_range sub (length plan) i -> checks' !! i = plan !! (i - sub)%nat) /\
    (~ in_range sub (length plan) i -> checks' !! i = checks !! i);
  woken_left : forall i v, (sub <= i)%nat -> plan !! (i - sub)%nat = Some v ->
    ordered (_heap (lists !!! i)) ->
    ordered (_heap (lists' !!! i)) /\ stuck v (_heap (lists' !!! i))
}.

Lemma wake_loop_spec plan sub lists checks lists' checks' out :
  (sub + length plan <= length lists)%nat -> length checks = length lists ->
  wake_loop plan sub lists checks = (lists', checks', out) ->
  exists pp, woken plan sub lists lists' checks checks' out pp.
Proof.
  revert sub lists checks lists' checks' out.
  induction plan as [|lsn plan IH]; intros sub lists checks lists' checks' out Hl Hc; simpl.
  { intros [= <- <- <-]. exists (fun _ => []). split; auto using taken_refl, signals_nil; try done.
    split; [done|]. unfold in_range. simpl. intros i. split; [lia|done]. }
  simpl in Hl.
  destruct (wake_heap (dataSize (lists !!! sub)) lsn (lists !!! sub)) as [h o1] eqn:Hw.
  destruct (wake_loop plan (S sub) (<[sub:=h]> lists) (<[sub:=lsn]> checks))
    as [[l2 c2] o2] eqn:Hr. intros [= <- <- <-].
  destruct (wake_heap_spec _ _ _ _ _ (le_n _) Hw) as (popped & H1 & H2 & H3 & H4 & H5).
  destruct (IH (S sub) (<[sub:=h]> lists) (<[sub:=lsn]> checks) l2 c2 o2) as [pp [T Sg O C L]];
    rewrite ?length_insert; [lia|lia|done|].
  assert (~ in_range (S sub) (length plan) sub) as Hn by (unfold in_range; lia).
  destruct (O sub Hn) as [Hpp Hsub]. rewrite list_lookup_total_insert_eq in Hsub by lia.
  exists (fun j => if Nat.eqb j sub then popped else pp j). split.
  - eapply taken_cons; eauto. lia.
  - eapply signals_cons; [|done|exact H2|].
    + eapply signals_mono; [exact Sg|]. intros i s rc (-> & v & Hi & Hv & Hreach).
      split; [done|]. exists v. split_and!; [lia| |done].
      replace (i - sub)%nat with (S (i - S sub)) by lia. done.
    + intros s Hs. split; [done|]. exists lsn. rewrite Nat.sub_diag. split_and!; [lia|done|].
      rewrite Forall_forall in H3. by apply H3.
  - intros i Hi. unfold in_range in *. simpl in Hi.
    destruct (O i ltac:(lia)) as [Ho1 Ho2]. destruct (Nat.eqb_spec i sub); [lia|].
    split; [done|]. rewrite Ho2. by apply list_lookup_total_insert_ne.
  - destruct C as [C1 C2]. rewrite length_insert in C1. split; [done|]. unfold in_range in *.
    intros i. destruct (C2 i) as [Ca Cb]. simpl. split; intros Hi.
    + destruct (decide (i = sub)) as [->|].
      * rewrite Nat.sub_diag, Cb by lia. simpl. apply list_lookup_insert_eq. lia.
      * rewrite Ca by lia. by replace (i - sub)%nat with (S (i - S sub)) by lia.
    + rewrite Cb by lia. apply list_lookup_insert_ne. lia.
  - intros i v Hi Hv Ho. destruct (decide (i = sub)) as [->|].
    + rewrite Nat.sub_diag in Hv. injection Hv as <-. rewrite Hsub. auto.
    + replace (i - sub)%nat with (S (i - S sub)) in Hv by lia.
      apply (L i v); [lia|done|]. rewrite list_lookup_total_insert_ne by lia. done.
Qed.

Lemma cut_loop_spec n alives lists lists' out :
  (alives + n <= length lists)%nat -> cut_loop n alives lists = (lists', out) ->
  exists pp, taken lists lists' pp /\
    signals out pp (fun i s rc => rc = SDB_CLS_WAIT_SYNC_FAILED) /\
    (forall i, ~ in_range alives n i -> pp i = [] /\ lists' !!! i = lists !!! i) /\
    (forall i, in_range alives n i -> _heap (lists' !!! i) = []).
Proof.
  revert lists lists' out. induction n as [|n IH]; intros lists lists' out Hl; simpl.
  { intros [= <- <-]. exists (fun _ => []).
    split_and!; auto using taken_refl, signals_nil. unfold in_range; lia. }
  destruct (drain _ _ _) as [h o1] eqn:Hd.
  destruct (cut_loop n alives _) as [l2 o2] eqn:Hr. intros [= <- <-].
  destruct (drain_spec _ _ _ _ _ (le_n _) Hd) as (popped & H1 & H2 & H3 & H4).
  destruct (IH (<[(alives + n)%nat:=h]> lists) l2 o2) as (pp & T & Sg & O & E);
    rewrite ?length_insert; [lia|done|].
  assert (~ in_range alives n (alives + n)%nat) as Hn by (unfold in_range; lia).
  destruct (O _ Hn) as [Hpp Hsub]. rewrite list_lookup_total_insert_eq in Hsub by lia.
  exists (fun j => if Nat.eqb j (alives + n)%nat then popped else pp j). split_and!.
  - eapply taken_cons; eauto. lia.
  - eapply signals_cons; [exact Sg|done|exact H2|done].
  - intros i Hi. unfold in_range in *. destruct (O i ltac:(lia)) as [Ho1 Ho2].
    destruct (Nat.eqb_spec i (alives + n)%nat); [lia|].
    split; [done|]. rewrite Ho2. apply list_lookup_total_insert_ne. lia.
  - intros i Hi. unfold in_range in *. destruct (decide (i = alives + n)%nat) as [->|].
    + by rewrite Hsub.
    + apply E. lia.
Qed.

(** ** Wake-ups of the manager *)

Record sync_shape (m : clsSyncManager) : Prop := {
  shape_lists : length (_syncList m) = syncSlots;
  shape_checks : length (_checkList m) = syncSlots;
  shape_valid : (validSync m <= syncSlots)%nat;
  shape_offsets : offsets_ok m
}.

(** An entry of the check list promises confirmations for every LSN below. *)
Definition checks_ok (m : clsSyncManager) : Prop := forall sub c lsn,
  (sub < validSync m)%nat -> _checkList m !! sub = Some c ->
  c <> DPS_INVALID_LSN_OFFSET -> lsn < c -> (S sub <= confirmed m lsn)%nat.

Lemma wake_spec m m' out : sync_shape m -> wake (createWakePlan m) m = (m', out) ->
  (exists pp, woken (wakeOrder m) 0 (_syncList m) (_syncList m') (_checkList m) (_checkList m') out pp) /\
  _notifyList m' = _notifyList m /\ _info m' = _info m.
Proof.
  intros [H1 H2 H3 H4]. unfold wake. fold (wakeOrder m).
  destruct (wake_loop _ _ _ _) as [[lists checks] o] eqn:Hw. intros [= <- <-]. simpl.
  split; [|done]. eapply wake_loop_spec; [|congruence|exact Hw].
  rewrite wakeOrder_length. unfold validSync in *. lia.
Qed.

Lemma woken_shape m m' out pp : sync_shape m ->
  woken (wakeOrder m) 0 (_syncList m) (_syncList m') (_checkList m) (_checkList m') out pp ->
  _notifyList m' = _notifyList m -> sync_shape m' /\ checks_ok m'.
Proof.
  intros [H1 H2 H3 H4] [[T _] _ _ [C1 C2] _] Hn. split.
  - split; [congruence|congruence|unfold validSync in *; congruence|].
    unfold offsets_ok. by rewrite Hn.
  - intros sub c lsn Hsub Hc _ Hlt. unfold validSync in Hsub. rewrite Hn in Hsub.
    destruct (C2 sub) as [Ca _]. rewrite Ca, Nat.sub_0_r in Hc
      by (unfold in_range; rewrite wakeOrder_length; unfold validSync; lia).
    unfold confirmed. rewrite Hn. by apply (wakeOrder_lookup m sub c lsn).
Qed.

Lemma reached_lt v s : v <> DPS_INVALID_LSN_OFFSET -> endLsn s <> DPS_INVALID_LSN_OFFSET ->
  reached v s = (endLsn s <? v).
Proof.
  intros Hv Hs. unfold reached. rewrite compareOffset_pos by done.
  destruct (Z.eqb_spec DPS_INVALID_LSN_OFFSET (endLsn s)); [congruence|done].
Qed.

Lemma woken_confirmed m i v s : sync_shape m -> wakeOrder m !! i = Some v ->
  endLsn s <> DPS_INVALID_LSN_OFFSET -> reached v s = true -> (S i <= confirmed m (endLsn s))%nat.
Proof.
  intros Hsh Hv Hs Hr. rewrite reached_lt in Hr; [|by eapply wakeOrder_valid,
    list_elem_of_lookup_2; [apply Hsh|exact Hv]|done].
  apply Z.ltb_lt in Hr. by apply (wakeOrder_lookup m i v).
Qed.

Lemma update_first_Forall2 (R : clsSyncStatus -> clsSyncStatus -> Prop) id f l :
  (forall s, R s s) -> (forall s, s ∈ l -> R s (f s)) -> Forall2 R l (update_first id f l).
Proof.
  intros Hr Hf. induction l as [|s l IH]; simpl; [constructor|].
  assert (Forall2 R l l) by (clear -Hr; induction l; constructor; auto).
  destruct (ss_id s =? id); constructor; auto.
  - apply Hf, list_elem_of_here.
  - apply IH. intros x Hx. apply Hf, list_elem_of_further, Hx.
Qed.

Lemma update_first_length id f l : length (update_first id f l) = length l.
Proof.
  symmetry. eapply (Forall2_length (fun _ _ => True)), update_first_Forall2; auto.
Qed.

Lemma update_first_Forall (P : clsSyncStatus -> Prop) id f l :
  Forall P l -> (forall s, P s -> P (f s)) -> Forall P (update_first id f l).
Proof.
  intros HF Hf. induction HF as [|s l Hs HF IH]; simpl; [constructor|].
  destruct (ss_id s =? id); constructor; auto.
Qed.

Lemma shape_notify m l : sync_shape m -> length l = validSync m ->
  Forall (fun s => 0 <= ss_offset s <= DPS_INVALID_LSN_OFFSET) l -> sync_shape (set_notify m l).
Proof. intros [H1 H2 H3 H4] Hl Hf. split; simpl; try done. unfold validSync in *. simpl. lia. Qed.

Lemma complete_shape id offset m : sync_shape m -> 0 <= offset <= DPS_INVALID_LSN_OFFSET ->
  sync_shape (set_notify m (update_first id (complete_status offset) (_notifyList m))).
Proof.
  intros Hs Ho. apply shape_notify; [done|apply update_first_length|].
  apply update_first_Forall; [apply Hs|]. intros s Hb. unfold complete_status. simpl.
  destruct (0 <? _); lia.
Qed.

(** Sessions wait with the end LSN of a real write. *)
Definition waits_valid (m : clsSyncManager) : Prop := forall i s, (i < syncSlots)%nat ->
  s ∈ _heap (_syncList m !!! i) -> endLsn s <> DPS_INVALID_LSN_OFFSET.

Lemma woken_exact m m' out pp : sync_shape m -> waits_valid m ->
  woken (wakeOrder m) 0 (_syncList m) (_syncList m') (_checkList m) (_checkList m') out pp ->
  forall sub, (sub < validSync m)%nat -> exists gone,
    _heap (_syncList m !!! sub) ≡ₚ gone ++ _heap (_syncList m' !!! sub) /\
    (forall s, s ∈ gone -> (S sub <= confirmed m (endLsn s))%nat /\ Signal (eduCB s) SDB_OK ∈ out) /\
    (ordered (_heap (_syncList m !!! sub)) -> ordered (_heap (_syncList m' !!! sub)) /\
      forall s, s ∈ _heap (_syncList m' !!! sub) -> (confirmed m (endLsn s) <= sub)%nat).
Proof.
  intros Hsh Hv [[_ T] Sg _ _ L] sub Hsub.
  pose proof (shape_valid m Hsh). pose proof (shape_lists m Hsh).
  destruct (T sub ltac:(lia)) as [Hp _].
  destruct (lookup_lt_is_Some_2 (wakeOrder m) sub) as [v Hwv]; [by rewrite wakeOrder_length|].
  assert (v <> DPS_INVALID_LSN_OFFSET)
    by (eapply wakeOrder_valid, list_elem_of_lookup_2; [apply Hsh|exact Hwv]).
  exists (pp sub). split_and!; [done| |].
  - intros s Hs. destruct (signals_all _ _ _ Sg _ _ Hs) as (rc & Hin & -> & v' & _ & Hv' & Hr).
    rewrite Nat.sub_0_r in Hv'. split; [|done]. eapply woken_confirmed; eauto.
    apply (Hv sub); [lia|]. rewrite Hp, elem_of_app; auto.
  - intros Ho. destruct (L sub v) as [Ho' Hst]; [lia|by rewrite Nat.sub_0_r|done|].
    split; [done|]. intros x Hx. destruct (Hst x Hx) as (r & Hr & Hle & Hn).
    rewrite reached_lt in Hn; [|done|apply (Hv sub); [lia|]; rewrite Hp, elem_of_app; auto].
    apply Z.ltb_ge in Hn. apply (wakeOrder_lookup m sub v); [done|lia].
Qed.

Lemma woken_waits_valid m m' out pp : sync_shape m -> waits_valid m ->
  woken (wakeOrder m) 0 (_syncList m) (_syncList m') (_checkList m) (_checkList m') out pp ->
  waits_valid m'.
Proof.
  intros Hsh Hv [[_ T] _ _ _ _] i s Hi Hs. pose proof (shape_lists m Hsh).
  destruct (T i ltac:(lia)) as [Hp _]. apply (Hv i); [done|]. rewrite Hp, elem_of_app; auto.
Qed.

(** C30: A confirmation the primary receives for a replica wakes the writes it
    satisfies and no others.  Let every session wait with the LSN of a real
    write ([waits_valid]).  Of the sessions that wait for [sub + 1] replicas, the ones that leave the heap have that many replicas past their
    end LSN and are signalled [SDB_OK]: this holds for any heap.  If the heap
    was ordered - as it is until a session withdraws out of its middle - it
    stays ordered, and no session that stays has that many. *)
Theorem complete_wakes_exactly_satisfied id lsn m m' out :
  sync_shape m -> waits_valid m ->
  gi_primary (_info m) = gi_local (_info m) -> gi_primary (_info m) <> MSG_INVALID_ROUTEID ->
  id <> MSG_INVALID_ROUTEID -> lsn_invalid lsn = false ->
  0 <= lsn_offset lsn <= DPS_INVALID_LSN_OFFSET ->
  complete id lsn m = (m', out) ->
  sync_shape m' /\ waits_valid m' /\
  forall sub, (sub < validSync m')%nat -> exists gone,
    _heap (_syncList m !!! sub) ≡ₚ gone ++ _heap (_syncList m' !!! sub) /\
    (forall s, s ∈ gone -> (S sub <= confirmed m' (endLsn s))%nat /\ Signal (eduCB s) SDB_OK ∈ out) /\
    (ordered (_heap (_syncList m !!! sub)) -> ordered (_heap (_syncList m' !!! sub)) /\
      forall s, s ∈ _heap (_syncList m' !!! sub) -> (confirmed m' (endLsn s) <= sub)%nat).
Proof.
  intros Hsh Hh Hp Hp0 Hid Hl Hb. unfold complete. rewrite Hl, Hp, Z.eqb_refl.
  rewrite (proj2 (Z.eqb_neq MSG_INVALID_ROUTEID id)) by congruence.
  rewrite (proj2 (Z.eqb_neq MSG_INVALID_ROUTEID _)) by congruence. cbn [orb negb andb].
  unfold complete_local. set (m1 := set_notify _ _). intros Hw.
  assert (sync_shape m1) as Hsh1 by (by apply complete_shape).
  destruct (wake_spec m1 m' out Hsh1 Hw) as ([pp W] & Hn & _).
  assert (waits_valid m1) as Hh1 by exact Hh.
  split; [by eapply woken_shape|]. split; [by eapply woken_waits_valid|].
  intros sub Hsub. unfold validSync, confirmed in *. rewrite Hn in *.
  by apply (woken_exact m1 m' out pp).
Qed.
