(* ===== verification/SyncRun.v ===== *)
(** * Runs of the sync manager

    Writing sessions that call [_clsReplicateSet::sync], wait, return or give
    up, interleaved with the confirmations, timers, status changes and cuts
    of the manager.  The members of the group do not change in a run; their
    change is [updateNotifyList], treated on its own. *)

From stdpp Require Import base list gmap sorting relations.
From Stdlib Require Import ZArith Lia.
From S2P Require Import Prelude.
From S2P Require Import DpsLsn Vote.
From S2P Require Import SyncHeap.
From S2P Require Import SyncHeapFacts.
From S2P Require Import Sync.
From S2P Require Import SyncFacts.

Open Scope Z_scope.

(** ** Operations of the manager *)

Definition set_info (m : clsSyncManager) (g : clsGroupInfo) : clsSyncManager :=
  mkSync (_syncList m) (_checkList m) (_notifyList m) (_aliveCount m) (_wakeTimeout m)
    (_enableSync m) g.

(** Everything but a change of members.  [op_group] is any work of the other
    components on the shared group information. *)
Inductive sync_op : clsSyncManager -> clsSyncManager -> list syncOut -> Prop :=
| op_complete m id lsn :
    0 <= lsn_offset lsn <= DPS_INVALID_LSN_OFFSET ->
    sync_op m (fst (complete id lsn m)) (snd (complete id lsn m))
| op_timer m interval :
    sync_op m (fst (sync_handleTimeout interval m)) (snd (sync_handleTimeout interval m))
| op_fullSync m id : sync_op m (notifyFullSync id m) []
| op_nodeStatus m id valid : sync_op m (updateNodeStatus id valid m) []
| op_cut m alives : sync_op m (fst (cut alives m)) (snd (cut alives m))
| op_enable m enable : sync_op m (enableSync enable m) []
| op_group m g : sync_op m (set_info m g) [].

(** What every operation keeps. *)
Record op_keeps (m m' : clsSyncManager) (out : list syncOut) : Prop := {
  keeps_shape : sync_shape m';
  keeps_checks : checks_ok m';
  keeps_valid : validSync m' = validSync m;
  keeps_taken : exists pp, taken (_syncList m) (_syncList m') pp /\
    (forall i, (syncSlots <= i)%nat -> pp i = []) /\
    signals out pp (fun i s rc => rc = SDB_OK -> endLsn s <> DPS_INVALID_LSN_OFFSET ->
      (S i <= confirmed m' (endLsn s))%nat)
}.

Lemma checks_ok_mono m m' : checks_ok m -> _checkList m' = _checkList m ->
  Forall2 (fun s s' => planOffset s <= planOffset s') (_notifyList m) (_notifyList m') ->
  checks_ok m'.
Proof.
  intros Hc He HF sub c lsn Hsub Hl Hv Hlt.
  assert (validSync m' = validSync m) as Hn
    by (symmetry; unfold validSync; by eapply Forall2_length).
  rewrite He in Hl. rewrite Hn in Hsub. pose proof (Hc sub c lsn Hsub Hl Hv Hlt).
  enough (confirmed m lsn <= confirmed m' lsn)%nat by lia.
  apply past_mono. clear -HF. induction HF; constructor; auto.
Qed.

(** Operations that take no session out of a heap. *)
Lemma keeps_quiet m m' : sync_shape m -> checks_ok m -> _syncList m' = _syncList m ->
  _checkList m' = _checkList m ->
  Forall2 (fun s s' => planOffset s <= planOffset s' /\
             (0 <= ss_offset s <= DPS_INVALID_LSN_OFFSET ->
              0 <= ss_offset s' <= DPS_INVALID_LSN_OFFSET)) (_notifyList m) (_notifyList m') ->
  (forall out, out = [] -> op_keeps m m' out).
Proof.
  intros [H1 H2 H3 H4] Hc Hl Hck HF out ->.
  assert (validSync m' = validSync m) as Hn
    by (symmetry; unfold validSync; by eapply Forall2_length).
  split.
  - split; [congruence|congruence|lia|].
    unfold offsets_ok in *. clear -HF H4. induction HF as [|x y l l' [_ Hxy] HF IH]; [constructor|].
    inversion H4; subst. constructor; auto.
  - eapply checks_ok_mono; [exact Hc|done|]. eapply Forall2_impl; [exact HF|]. by intros ? ? [? _].
  - done.
  - exists (fun _ => []). rewrite Hl. split_and!; auto using taken_refl, signals_nil.
Qed.

Lemma keeps_wake m m1 m' out : sync_shape m1 -> _syncList m1 = _syncList m ->
  validSync m1 = validSync m -> wake (createWakePlan m1) m1 = (m', out) -> op_keeps m m' out.
Proof.
  intros Hsh Hl Hv Hw. destruct (wake_spec m1 m' out Hsh Hw) as ([pp W] & Hn & _).
  destruct (woken_shape m1 m' out pp Hsh W Hn) as [Hsh' Hc].
  assert (validSync m' = validSync m1) as Hv' by (unfold validSync; congruence).
  split; [done|done|congruence|]. exists pp. rewrite <- Hl. split_and!.
  - apply W.
  - intros i Hi. apply W. unfold in_range. rewrite wakeOrder_length.
    pose proof (shape_valid m1 Hsh). lia.
  - eapply signals_mono; [apply W|]. intros i s rc (_ & v & _ & Hpv & Hr) _ Hs.
    unfold confirmed. rewrite Hn, Nat.sub_0_r in *. by eapply woken_confirmed.
Qed.

Lemma Forall2_same {A} (R : A -> A -> Prop) l : (forall x, R x x) -> Forall2 R l l.
Proof. intros Hr. induction l; constructor; auto. Qed.

Lemma keeps_cut m alives : sync_shape m -> checks_ok m ->
  op_keeps m (fst (cut alives m)) (snd (cut alives m)).
Proof.
  intros Hsh Hc. unfold cut. destruct (Nat.ltb_spec (validSync m) alives) as [Hlt|Hge].
  { apply keeps_quiet; auto. apply Forall2_same; intros; lia. }
  destruct (cut_loop _ _ _) as [lists out] eqn:Hcut. simpl.
  pose proof (shape_lists m Hsh). pose proof (shape_valid m Hsh).
  apply cut_loop_spec in Hcut as (pp & T & Sg & O & _); [|lia].
  assert (length lists = syncSlots) as Hl by (destruct T; congruence).
  split; [by destruct Hsh; split|done|done|]. exists pp. split_and!; [done| |].
  - intros i Hi. apply O. unfold in_range. lia.
  - eapply signals_mono; [exact Sg|]. intros i s rc -> H'. by vm_compute in H'.
Qed.

Lemma planOffset_full s : 0 <= ss_offset s <= DPS_INVALID_LSN_OFFSET ->
  planOffset s <= DPS_INVALID_LSN_OFFSET - 1.
Proof. intros H. pose proof (planOffset_bound s H). lia. Qed.

Lemma sync_op_keeps m m' out : sync_shape m -> checks_ok m -> sync_op m m' out ->
  op_keeps m m' out.
Proof.
  intros Hsh Hc Hop. destruct Hop as [m id lsn Hb|m t|m id|m id v|m al|m e|m g].
  - unfold complete. destruct (_ || _); [apply keeps_quiet; auto; apply Forall2_same; intros; lia|].
    destruct (_ && _).
    + unfold complete_local. set (m1 := set_notify _ _).
      destruct (wake (createWakePlan m1) m1) as [m' out] eqn:Hw. simpl.
      eapply (keeps_wake m m1); [by apply complete_shape|done| |exact Hw].
      unfold m1, validSync. simpl. apply update_first_length.
    + destruct (negb _); [|apply keeps_quiet; auto; apply Forall2_same; intros; lia].
      simpl. destruct (keeps_quiet m m Hsh Hc eq_refl eq_refl ltac:(apply Forall2_same; intros; lia) [] eq_refl)
        as [K1 K2 K3 (pp & T & P & _)].
      split; auto. exists (fun _ => []). split_and!; auto using taken_refl.
      split; [|intros i s Hs; by apply not_elem_of_nil in Hs].
      intros edu rc Hin. apply list_elem_of_singleton in Hin. discriminate.
  - unfold sync_handleTimeout. set (m1 := set_wakeTimeout _ _).
    destruct (_ <? _).
    + destruct (wake (createWakePlan m1) m1) as [m' out] eqn:Hw. simpl.
      eapply (keeps_wake m m1); [by destruct Hsh; split|done|done|exact Hw].
    + apply keeps_quiet; auto. apply Forall2_same; intros; lia.
  - apply keeps_quiet; auto. unfold notifyFullSync. simpl.
    apply update_first_Forall2; [intros; lia|]. intros s Hs.
    pose proof (shape_offsets m Hsh) as Ho. unfold offsets_ok in Ho. rewrite Forall_forall in Ho.
    pose proof (planOffset_full s (Ho s Hs)). simpl. unfold planOffset at 2. simpl.
    unfold DPS_INVALID_LSN_OFFSET in *. simpl. lia.
  - apply keeps_quiet; auto; unfold updateNodeStatus; destruct (existsb _ _); simpl; auto.
    + apply update_first_Forall2; [intros; lia|]. intros s _. unfold planOffset. simpl. lia.
    + apply Forall2_same; intros; lia.
  - by apply keeps_cut.
  - apply keeps_quiet; auto. simpl. apply Forall2_same; intros; lia.
  - apply keeps_quiet; auto. simpl. apply Forall2_same; intros; lia.
Qed.

(** ** Sessions and the manager *)

(** The event of a session carries, for the statement only, the state of the
    manager when it was signalled.  [sw_calls] are the sessions inside
    [_wait], with the copies they asked for and the heap they entered. *)
Record syncWorld : Set := mkSW {
  sw_mgr : clsSyncManager;
  sw_events : gmap Z (ossEvent * clsSyncManager);
  sw_calls : gmap Z (clsSyncSession * Z * nat)
}.

Definition event_in (evs : gmap Z (ossEvent * clsSyncManager)) (edu : Z) : ossEvent :=
  match evs !! edu with Some (ev, _) => ev | None => mkEvent false 0 end.

Definition event_of (W : syncWorld) (edu : Z) : ossEvent := event_in (sw_events W) edu.

Fixpoint apply_signals (out : list syncOut) (m : clsSyncManager)
  (evs : gmap Z (ossEvent * clsSyncManager)) : gmap Z (ossEvent * clsSyncManager) :=
  match out with
  | [] => evs
  | Signal edu rc :: out' => 
      apply_signals out' m (<[edu := (event_signal rc (event_in evs edu), m)]> evs)
  | _ :: out' => apply_signals out' m evs
  end.

(** The copies a caller gets at most: all members when it asks for more. *)
Definition wanted (w : Z) (m : clsSyncManager) : nat :=
  Nat.min (Z.to_nat (Z.min w CLS_REPLSET_MAX_NODE_SIZE) - 1) (validSync m).

(** A step; its label is a return of [sync]: the session, the copies asked
    for, the return code, and the manager when the code was decided. *)
Inductive sync_step : syncWorld -> option (clsSyncSession * Z * Z * clsSyncManager) ->
  syncWorld -> Prop :=
| step_done W ok offset edu w rc ev m :
    sw_calls W !! edu = None ->
    replSet_sync ok offset edu w (event_of W edu) (sw_mgr W) = Some (SyncDone rc, ev, m) ->
    sync_step W (Some (mkSession offset edu, w, rc, m))
      (mkSW m (<[edu := (ev, m)]> (sw_events W)) (sw_calls W))
| step_wait W ok offset edu w sub ev m :
    sw_calls W !! edu = None ->
    replSet_sync ok offset edu w (event_of W edu) (sw_mgr W) = Some (SyncWait sub, ev, m) ->
    sync_step W None
      (mkSW m (<[edu := (ev, m)]> (sw_events W))
         (<[edu := (mkSession offset edu, w, sub)]> (sw_calls W)))
| step_manager W m out :
    sync_op (sw_mgr W) m out ->
    sync_step W None (mkSW m (apply_signals out m (sw_events W)) (sw_calls W))
| step_return W edu s w sub ev m rc ev' :
    sw_calls W !! edu = Some (s, w, sub) -> sw_events W !! edu = Some (ev, m) ->
    event_wait ev = (Some rc, ev') ->
    sync_step W (Some (s, w, rc, m))
      (mkSW (sw_mgr W) (<[edu := (ev', m)]> (sw_events W)) (delete edu (sw_calls W)))
| step_give_up W edu s w sub rc :
    sw_calls W !! edu = Some (s, w, sub) -> rc = SDB_TIMEOUT \/ rc = SDB_APP_INTERRUPT ->
    sync_step W (Some (s, w, rc, sw_mgr W))
      (mkSW (wait_withdraw edu sub (sw_mgr W)) (sw_events W) (delete edu (sw_calls W))).

Definition sync_initial (W : syncWorld) : Prop :=
  sync_shape (sw_mgr W) /\ sw_calls W = ∅ /\
  Forall (fun h => _heap h = []) (_syncList (sw_mgr W)) /\
  Forall (fun c => c = DPS_INVALID_LSN_OFFSET) (_checkList (sw_mgr W)).

Definition heap_of (m : clsSyncManager) (i : nat) : list clsSyncSession := _heap (_syncList m !!! i).

Record sync_inv (W : syncWorld) : Prop := {
  inv_shape : sync_shape (sw_mgr W);
  inv_checks : checks_ok (sw_mgr W);
  inv_nodup : forall i, (i < syncSlots)%nat -> NoDup (heap_of (sw_mgr W) i);
  inv_heap : forall i s, (i < syncSlots)%nat -> s ∈ heap_of (sw_mgr W) i ->
    (exists w, sw_calls W !! eduCB s = Some (s, w, i)) /\ ev_signal (event_of W (eduCB s)) = false;
  inv_calls : forall edu s w sub, sw_calls W !! edu = Some (s, w, sub) ->
    eduCB s = edu /\ S sub = wanted w (sw_mgr W) /\ endLsn s <> DPS_INVALID_LSN_OFFSET /\
    forall ev m, sw_events W !! edu = Some (ev, m) -> ev_signal ev = true ->
      ev_useData ev = SDB_OK -> (wanted w m <= confirmed m (endLsn s))%nat
}.

Lemma apply_signals_other out m evs edu : (forall rc, Signal edu rc ∉ out) ->
  apply_signals out m evs !! edu = evs !! edu.
Proof.
  revert evs. induction out as [|o out IH]; intros evs Hn; simpl; [done|].
  assert (forall rc, Signal edu rc ∉ out) as Hn'
    by (intros rc Hin; apply (Hn rc), list_elem_of_further, Hin).
  destruct o as [edu' rc| |]; [|by apply IH..]. rewrite IH by done.
  apply lookup_insert_ne. intros ->. apply (Hn rc), list_elem_of_here.
Qed.

Lemma apply_signals_cases out m evs edu :
  apply_signals out m evs !! edu = evs !! edu /\ (forall rc, Signal edu rc ∉ out) \/
  exists rc, Signal edu rc ∈ out /\ apply_signals out m evs !! edu = Some (mkEvent true rc, m).
Proof.
  revert evs. induction out as [|o out IH]; intros evs; simpl.
  { left. split; [done|]. intros rc Hin. by apply not_elem_of_nil in Hin. }
  destruct o as [edu' rc'|to next from|to].
  2, 3: destruct (IH evs) as [[E Hn]|(rc & Hin & E)];
    [left; split; [done|]; intros rc Hin; apply elem_of_cons in Hin as [?|?]; [done|by apply (Hn rc)]
    |right; exists rc; split; [by apply list_elem_of_further|done]].
  destruct (IH (<[edu':=(event_signal rc' (event_in evs edu'), m)]> evs)) as [[E Hn]|(rc & Hin & E)].
  - destruct (decide (edu' = edu)) as [->|Hne].
    + right. exists rc'. split; [apply list_elem_of_here|]. by rewrite E, lookup_insert_eq.
    + left. rewrite E, lookup_insert_ne by done. split; [done|].
      intros rc Hin. apply elem_of_cons in Hin as [?|?]; [congruence|by apply (Hn rc)].
  - right. exists rc. split; [by apply list_elem_of_further|done].
Qed.

(** ** Entering *)

Lemma push_cases ok s h rc h' : push ok s h = Some (rc, h') ->
  rc = SDB_OK /\ _heap h' ≡ₚ s :: _heap h \/ rc = SDB_OOM /\ ok = false /\ _heap h' = _heap h.
Proof.
  unfold push, allocate.
  assert (forall h1, _heap h1 = _heap h ->
    (if Z.of_nat (dataSize h1) <? _spcSize h1 then
       Some (SDB_OK, mkHeap (shiftUp (length (_heap h1 ++ [s])) (dataSize h1) (_heap h1 ++ [s]))
               (_spcSize h1)) else None) = Some (rc, h') ->
    rc = SDB_OK /\ _heap h' ≡ₚ s :: _heap h) as Hput.
  { intros h1 E. destruct (_ <? _); [|done]. intros [= <- <-]. split; [done|]. simpl.
    rewrite shiftUp_perm by (unfold dataSize; rewrite length_app; simpl; lia).
    rewrite E. by rewrite (Permutation_app_comm (_heap h)). }
  destruct (_ =? _); [destruct ok|]; simpl.
  - intros H. left. by eapply Hput; [|exact H].
  - intros [= <- <-]. by right.
  - intros H. left. by eapply Hput; [|exact H].
Qed.

Lemma heap_of_insert m sub h i : (sub < length (_syncList m))%nat ->
  heap_of (set_lists m (<[sub := h]> (_syncList m))) i = if Nat.eqb i sub then _heap h else heap_of m i.
Proof.
  intros Hs. unfold heap_of. simpl. destruct (Nat.eqb_spec i sub) as [->|].
  - by rewrite list_lookup_total_insert_eq.
  - by rewrite list_lookup_total_insert_ne.
Qed.

(** What entering leaves alone. *)
Record entered (m m' : clsSyncManager) : Prop := {
  entered_lists : length (_syncList m') = length (_syncList m);
  entered_checks : _checkList m' = _checkList m;
  entered_notify : _notifyList m' = _notifyList m
}.

Lemma entered_same m m' : entered m m' ->
  (sync_shape m -> sync_shape m') /\ (checks_ok m -> checks_ok m') /\
  (forall w, wanted w m' = wanted w m) /\ (forall lsn, confirmed m' lsn = confirmed m lsn).
Proof.
  intros [H1 H2 H3]. unfold wanted, confirmed, validSync, checks_ok, validSync.
  rewrite H2, H3. split_and!; try done.
  - intros [S1 S2 S3 S4]. unfold validSync, offsets_ok in *.
    split; unfold validSync, offsets_ok; rewrite ?H1, ?H2, ?H3; done.
  - intros Hc sub c lsn. unfold confirmed. rewrite H3. apply Hc.
Qed.

Lemma sync_enter_spec ok s w m entry m' :
  sync_shape m -> checks_ok m -> w <= CLS_REPLSET_MAX_NODE_SIZE ->
  sync_enter ok s w m = Some (entry, m') ->
  entered m m' /\
  match entry with
  | SyncDone rc => (forall i, heap_of m' i = heap_of m i) /\
      (rc = SDB_OK -> (wanted w m <= confirmed m (endLsn s))%nat)
  | SyncWait sub => S sub = wanted w m /\ heap_of m' sub ≡ₚ s :: heap_of m sub /\
      forall i, i <> sub -> heap_of m' i = heap_of m i
  end.
Proof.
  intros Hsh Hc Hw. unfold sync_enter.
  assert (entered m m) as Hr by done.
  destruct (Z.leb_spec w CLS_REPLSE_WRITE_ONE) as [H1|H1]; unfold CLS_REPLSE_WRITE_ONE in H1.
  { intros [= <- <-]. split_and!; [done|done|]. unfold wanted. lia. }
  destruct (Z.eqb_spec 0 (Z.of_nat (validSync m))) as [H2|H2].
  { intros [= <- <-]. split_and!; [done|done|]. unfold wanted. lia. }
  destruct (_ || _); [intros [= <- <-]; split_and!; done|].
  destruct (_ && _); [intros [= <- <-]; split_and!; done|].
  set (sub := Z.to_nat _). assert (S sub = wanted w m) as Hsub.
  { unfold sub, wanted. destruct (Z.ltb_spec (Z.of_nat (validSync m) + 1) w); lia. }
  assert (sub < validSync m)%nat as Hlt by (unfold wanted in Hsub; lia).
  pose proof (shape_lists m Hsh). pose proof (shape_checks m Hsh). pose proof (shape_valid m Hsh).
  destruct (lookup_lt_is_Some_2 (_checkList m) sub) as [c Hcl]; [lia|].
  destruct (lookup_lt_is_Some_2 (_syncList m) sub) as [h Hl]; [lia|].
  rewrite Hcl, Hl. cbn [mbind option_bind].
  destruct (Z.eqb_spec DPS_INVALID_LSN_OFFSET c) as [Hci|Hci]; cbn [negb andb];
    [|destruct (Z.ltb_spec (endLsn s) c) as [Hlc|Hlc]].
  2: { intros [= <- <-]. split_and!; [done|done|]. intros _. rewrite <- Hsub.
       by apply (Hc sub c); [| |congruence|]. }
  all: destruct (push ok s h) as [[rc h']|] eqn:Hp; [|done]; cbn [mbind option_bind];
    intros [= <- <-]; (split; [by split; [apply length_insert| |]|]);
    apply list_lookup_total_correct in Hl;
    destruct (push_cases _ _ _ _ _ Hp) as [[-> Hh]|(-> & _ & Hh)]; simpl.
  1, 3: split_and!; [done| |intros i Hi]; rewrite heap_of_insert by lia;
    [rewrite Nat.eqb_refl; unfold heap_of; by rewrite Hl
    |by destruct (Nat.eqb_spec i sub)].
  all: split; [|discriminate]; intros i; rewrite heap_of_insert by lia;
    destruct (Nat.eqb_spec i sub) as [->|]; [unfold heap_of; by rewrite Hl, Hh|done].
Qed.

(** ** The invariant *)

Lemma sync_initial_inv W : sync_initial W -> sync_inv W.
Proof.
  intros (Hsh & Hcalls & Hh & Hck).
  assert (forall i, (i < syncSlots)%nat -> heap_of (sw_mgr W) i = []) as He.
  { intros i Hi. unfold heap_of. rewrite Forall_forall in Hh. apply Hh.
    apply list_elem_of_lookup_total_2. by rewrite (shape_lists _ Hsh). }
  split; [done| | | |].
  - intros sub c lsn _ Hc Hne. rewrite Forall_forall in Hck. destruct Hne.
    apply Hck. by eapply list_elem_of_lookup_2.
  - intros i Hi. rewrite He by done. constructor.
  - intros i s Hi Hs. rewrite He in Hs by done. by apply not_elem_of_nil in Hs.
  - intros edu s w sub. rewrite Hcalls, lookup_empty. done.
Qed.

(** Sessions of different heaps or calls do not share a thread. *)
Lemma same_thread W i j s s' : sync_inv W -> (i < syncSlots)%nat -> (j < syncSlots)%nat ->
  s ∈ heap_of (sw_mgr W) i -> s' ∈ heap_of (sw_mgr W) j -> eduCB s' = eduCB s -> s' = s /\ j = i.
Proof.
  intros HI Hi Hj Hs Hs' He. destruct (inv_heap W HI i s Hi Hs) as [[w Hw] _].
  destruct (inv_heap W HI j s' Hj Hs') as [[w' Hw'] _]. rewrite He in Hw'. split; congruence.
Qed.

Lemma inv_manager W m out : sync_inv W -> sync_op (sw_mgr W) m out ->
  sync_inv (mkSW m (apply_signals out m (sw_events W)) (sw_calls W)).
Proof.
  intros HI Hop. pose proof HI as [Hsh Hc Hnd Hh Hcl].
  destruct (sync_op_keeps _ _ _ Hsh Hc Hop) as [K1 K2 K3 (pp & T & P & Sg)].
  assert (forall w, wanted w m = wanted w (sw_mgr W)) as Hw by (intros; unfold wanted; by rewrite K3).
  assert (forall i, (i < syncSlots)%nat -> heap_of (sw_mgr W) i ≡ₚ pp i ++ heap_of m i) as Hperm.
  { intros i Hi. apply T. by rewrite (shape_lists _ Hsh). }
  assert (forall i s, s ∈ pp i -> (i < syncSlots)%nat /\ s ∈ heap_of (sw_mgr W) i) as Hpp.
  { intros i s Hs. destruct (decide (i < syncSlots)%nat) as [Hi|Hi].
    - split; [done|]. rewrite Hperm, elem_of_app by done. auto.
    - rewrite P in Hs by lia. by apply not_elem_of_nil in Hs. }
  assert (forall i s, (i < syncSlots)%nat -> s ∈ heap_of m i -> s ∈ heap_of (sw_mgr W) i) as Hsub.
  { intros i s Hi Hs. rewrite Hperm, elem_of_app by done. auto. }
  split; simpl; [done|done| | |].
  - intros i Hi. specialize (Hnd i Hi). rewrite Hperm in Hnd by done. by apply NoDup_app in Hnd as (_ & _ & ?).
  - intros i s Hi Hs. destruct (Hh i s Hi (Hsub i s Hi Hs)) as [Hw1 Hev]. split; [done|].
    unfold event_of, event_in in *. simpl. rewrite apply_signals_other; [done|].
    intros rc Hin. destruct (signals_only _ _ _ Sg _ _ Hin) as (j & s' & Hs' & He & _).
    destruct (Hpp j s' Hs') as [Hj Hs'']. destruct (same_thread W i j s s' HI Hi Hj (Hsub i s Hi Hs) Hs'' He)
      as [-> ->].
    specialize (Hnd i Hi). rewrite Hperm in Hnd by done. apply NoDup_app in Hnd as (_ & Hdis & _).
    by apply (Hdis s).
  - intros edu s w sub Hcall. destruct (Hcl _ _ _ _ Hcall) as (He & Hs & Hv & Hok).
    rewrite Hw. split_and!; [done..|]. intros ev m1 Hev Hsg Hd.
    destruct (apply_signals_cases out m (sw_events W) edu) as [[E _]|(rc & Hin & E)]; rewrite E in Hev.
    { by eapply Hok. }
    injection Hev as <- <-. simpl in Hd. subst rc. rewrite Hw, <- Hs.
    destruct (signals_only _ _ _ Sg _ _ Hin) as (j & s' & Hs' & He' & HR).
    destruct (Hpp j s' Hs') as [Hj Hs'']. destruct (Hh j s' Hj Hs'') as [[w' Hc'] _].
    rewrite He', Hcall in Hc'. injection Hc' as <- _ <-. by apply HR.
Qed.

(** Changing the event of a thread outside a call. *)
Lemma inv_event W edu ev m : sync_inv W -> sw_calls W !! edu = None ->
  sync_inv (mkSW (sw_mgr W) (<[edu := (ev, m)]> (sw_events W)) (sw_calls W)).
Proof.
  intros [Hsh Hc Hnd Hh Hcl] Hn. split; simpl; [done|done|done| |].
  - intros i s Hi Hs. destruct (Hh i s Hi Hs) as [[w Hw] Hev]. split; [by exists w|].
    unfold event_of, event_in in *. simpl. rewrite lookup_insert_ne by congruence. done.
  - intros e s w sub Hcall. destruct (Hcl _ _ _ _ Hcall) as (He & Hs & Hv & Hok).
    split_and!; [done..|]. intros ev1 m1. rewrite lookup_insert_ne by congruence. apply Hok.
Qed.

(** A manager with the same heaps. *)
Lemma inv_same_heaps W m : sync_inv W -> entered (sw_mgr W) m ->
  (forall i, heap_of m i = heap_of (sw_mgr W) i) -> sync_inv (mkSW m (sw_events W) (sw_calls W)).
Proof.
  intros [Hsh Hc Hnd Hh Hcl] He Hheap. destruct (entered_same _ _ He) as (E1 & E2 & E3 & _).
  split; simpl; auto.
  - intros i Hi. rewrite Hheap. auto.
  - intros i s Hi. rewrite Hheap. by apply Hh.
  - intros e s w sub Hcall. rewrite E3. by apply Hcl.
Qed.

Lemma inv_wait W edu ev m1 s w sub m : sync_inv W -> sw_calls W !! edu = None ->
  ev_signal ev = false -> eduCB s = edu -> endLsn s <> DPS_INVALID_LSN_OFFSET ->
  entered (sw_mgr W) m -> S sub = wanted w (sw_mgr W) ->
  heap_of m sub ≡ₚ s :: heap_of (sw_mgr W) sub ->
  (forall i, i <> sub -> heap_of m i = heap_of (sw_mgr W) i) ->
  sync_inv (mkSW m (<[edu := (ev, m1)]> (sw_events W)) (<[edu := (s, w, sub)]> (sw_calls W))).
Proof.
  intros HI Hn Hev He Hv Hent Hsub Hhs Hho.
  pose proof (inv_event W edu ev m1 HI Hn) as [Hsh Hc Hnd Hh Hcl]. simpl in *.
  destruct (entered_same _ _ Hent) as (E1 & E2 & E3 & _).
  assert (sub < syncSlots)%nat as Hlt
    by (pose proof (shape_valid _ Hsh); unfold wanted in Hsub; lia).
  assert (forall i s', (i < syncSlots)%nat -> s' ∈ heap_of (sw_mgr W) i -> eduCB s' <> edu) as Hother.
  { intros i s' Hi Hs' E. destruct (Hh i s' Hi Hs') as [[w' Hw'] _]. congruence. }
  split; simpl; auto.
  - intros i Hi. destruct (decide (i = sub)) as [->|]; [|rewrite Hho by done; auto].
    rewrite Hhs. constructor; [|auto]. intros Hin. by apply (Hother sub s).
  - intros i s' Hi Hs'. unfold event_of, event_in. simpl.
    assert (s' = s /\ i = sub \/ s' ∈ heap_of (sw_mgr W) i) as [[-> ->]|Hin].
    { destruct (decide (i = sub)) as [->|]; [|rewrite Hho in Hs' by done; auto].
      rewrite Hhs in Hs'. apply elem_of_cons in Hs' as [->|]; auto. }
    + rewrite He, !lookup_insert_eq. split; [by exists w|done].
    + destruct (Hh i s' Hi Hin) as [[w' Hw'] Hs1]. pose proof (Hother i s' Hi Hin).
      rewrite !lookup_insert_ne by done. split; [by exists w'|].
      unfold event_of, event_in in Hs1. simpl in Hs1. by rewrite lookup_insert_ne in Hs1.
  - intros e s' w' sub' Hcall. rewrite E3. destruct (decide (edu = e)) as [->|Hne].
    + rewrite lookup_insert_eq in Hcall. injection Hcall as <- <- <-. split_and!; [done..|].
      intros ev' m' Hl Hsg. rewrite lookup_insert_eq in Hl. congruence.
    + rewrite lookup_insert_ne in Hcall by done. by apply Hcl.
Qed.

Lemma inv_leave W edu m : sync_inv W -> entered (sw_mgr W) m ->
  (forall i, (i < syncSlots)%nat -> exists gone, heap_of (sw_mgr W) i ≡ₚ gone ++ heap_of m i) ->
  (forall i s, (i < syncSlots)%nat -> s ∈ heap_of m i -> eduCB s <> edu) ->
  sync_inv (mkSW m (sw_events W) (delete edu (sw_calls W))).
Proof.
  intros [Hsh Hc Hnd Hh Hcl] He Hg Hn. destruct (entered_same _ _ He) as (E1 & E2 & E3 & _).
  split; simpl; auto.
  - intros i Hi. destruct (Hg i Hi) as [gone Hp]. specialize (Hnd i Hi). rewrite Hp in Hnd.
    by apply NoDup_app in Hnd as (_ & _ & ?).
  - intros i s Hi Hs. destruct (Hg i Hi) as [gone Hp].
    destruct (Hh i s Hi) as [[w Hw] Hev]; [rewrite Hp, elem_of_app; auto|].
    split; [|done]. exists w. rewrite lookup_delete_ne; [done|]. intros E. by apply (Hn i s).
  - intros e s w sub Hcall. rewrite E3. apply lookup_delete_Some in Hcall as [_ Hcall]. by apply Hcl.
Qed.

Lemma find_edu_spec cb l :
  match find_edu cb l with
  | Some i => exists s, l !! i = Some s /\ eduCB s = cb
  | None => forall s, s ∈ l -> eduCB s <> cb
  end.
Proof.
  induction l as [|x l IH]; simpl; [intros s Hs; by apply not_elem_of_nil in Hs|].
  destruct (Z.eqb_spec cb (eduCB x)) as [->|Hne]; [by exists x|].
  destruct (find_edu cb l) as [i|]; simpl; [done|].
  intros s [->|Hs]%elem_of_cons; [done|by apply IH].
Qed.

Lemma erase_perm i h s : _heap h !! i = Some s -> _heap h ≡ₚ s :: _heap (snd (erase i h)).
Proof.
  intros Hl. pose proof (lookup_lt_Some _ _ _ Hl). unfold erase, dataSize.
  destruct (Nat.eqb_spec (length (_heap h)) 0); [lia|].
  destruct (Nat.leb_spec (length (_heap h)) i); [lia|]. simpl.
  rewrite <- (list_lookup_total_correct _ _ _ Hl). apply fill_hole_perm. lia.
Qed.

Lemma withdraw_spec edu sub m : (sub < length (_syncList m))%nat ->
  entered m (wait_withdraw edu sub m) /\
  (forall i, i <> sub -> heap_of (wait_withdraw edu sub m) i = heap_of m i) /\
  ((exists x, eduCB x = edu /\ heap_of m sub ≡ₚ x :: heap_of (wait_withdraw edu sub m) sub) \/
   wait_withdraw edu sub m = m /\ forall s, s ∈ heap_of m sub -> eduCB s <> edu).
Proof.
  intros Hl. unfold wait_withdraw. pose proof (find_edu_spec edu (heap_of m sub)) as Hf.
  fold (heap_of m sub). destruct (find_edu edu (heap_of m sub)) as [i|]; [|by split_and!; [| |right]].
  destruct Hf as (s & Hs & He). split_and!.
  - split; [apply length_insert|done|done].
  - intros j Hj. rewrite heap_of_insert by done. by destruct (Nat.eqb_spec j sub).
  - left. exists s. split; [done|]. rewrite heap_of_insert, Nat.eqb_refl by done.
    by apply erase_perm.
Qed.

Lemma inv_give_up W edu s w sub : sync_inv W -> sw_calls W !! edu = Some (s, w, sub) ->
  sync_inv (mkSW (wait_withdraw edu sub (sw_mgr W)) (sw_events W) (delete edu (sw_calls W))).
Proof.
  intros HI Hcall. pose proof HI as [Hsh Hc Hnd Hh Hcl].
  destruct (Hcl _ _ _ _ Hcall) as (_ & Hsub & _).
  assert (sub < syncSlots)%nat as Hlt by (pose proof (shape_valid _ Hsh); unfold wanted in Hsub; lia).
  destruct (withdraw_spec edu sub (sw_mgr W)) as (Hent & Hother & Hcase);
    [by rewrite (shape_lists _ Hsh)|].
  assert (forall i s', (i < syncSlots)%nat -> s' ∈ heap_of (sw_mgr W) i -> eduCB s' = edu -> i = sub)
    as Hwhere.
  { intros i s' Hi Hs' E. destruct (Hh i s' Hi Hs') as [[w' Hw'] _]. congruence. }
  apply inv_leave; [done|done| |].
  - intros i Hi. destruct (decide (i = sub)) as [->|]; [|exists []; by rewrite Hother].
    destruct Hcase as [(x & _ & Hp)|[-> _]]; [by exists [x]|by exists []].
  - intros i s' Hi Hs' E. destruct (decide (i = sub)) as [->|Hne].
    + destruct Hcase as [(x & Hx & Hp)|[Em Hno]]; [|rewrite Em in Hs'; by apply (Hno s')].
      specialize (Hnd sub Hlt). pose proof Hnd as Hnd'. rewrite Hp in Hnd'.
      apply NoDup_cons in Hnd' as [Hnin _]. apply Hnin.
      destruct (same_thread W sub sub x s' HI Hlt Hlt) as [-> _];
        [rewrite Hp; apply list_elem_of_here|rewrite Hp; by apply list_elem_of_further|congruence|done].
    + rewrite Hother in Hs' by done. by apply Hne, (Hwhere i s').
Qed.

Lemma replSet_sync_spec ok offset edu w ev m entry ev' m' :
  sync_shape m -> checks_ok m -> offset <> DPS_INVALID_LSN_OFFSET ->
  replSet_sync ok offset edu w ev m = Some (entry, ev', m') ->
  entered m m' /\
  match entry with
  | SyncDone rc => (forall i, heap_of m' i = heap_of m i) /\
      (rc = SDB_OK -> (wanted w m <= confirmed m offset)%nat)
  | SyncWait sub => ev_signal ev' = false /\
      S sub = wanted w m /\ heap_of m' sub ≡ₚ mkSession offset edu :: heap_of m sub /\
      forall i, i <> sub -> heap_of m' i = heap_of m i
  end.
Proof.
  intros Hsh Hc Hv. unfold replSet_sync.
  destruct (Z.eqb_spec DPS_INVALID_LSN_OFFSET offset); [congruence|]. cbn [orb].
  destruct (Z.leb_spec w 1).
  { intros [= <- <- <-]. split_and!; [done|done|]. unfold wanted. lia. }
  set (w' := if CLS_REPLSET_MAX_NODE_SIZE <? w then CLS_REPLSET_MAX_NODE_SIZE else w).
  assert (w' <= CLS_REPLSET_MAX_NODE_SIZE /\ wanted w' m = wanted w m) as [Hw' Hww].
  { unfold w', wanted, CLS_REPLSET_MAX_NODE_SIZE. destruct (Z.ltb_spec 7 w); split; lia. }
  destruct (sync_enter ok (mkSession offset edu) w' m) as [[e m1]|] eqn:Hs; [|done].
  cbn [mbind option_bind]. intros [= <- <- <-].
  destruct (sync_enter_spec ok _ w' m e m1 Hsh Hc Hw' Hs) as [He H1].
  split; [done|]. rewrite Hww in H1. destruct e; [done|]. by split.
Qed.

Lemma replSet_sync_invalid ok edu w ev m entry ev' m' :
  replSet_sync ok DPS_INVALID_LSN_OFFSET edu w ev m = Some (entry, ev', m') ->
  entry = SyncDone SDB_OK /\ m' = m.
Proof. unfold replSet_sync. rewrite Z.eqb_refl. by intros [= <- <- <-]. Qed.

Lemma sync_step_inv W l W' : sync_inv W -> sync_step W l W' -> sync_inv W'.
Proof.
  intros HI Hst. destruct Hst as [W ok offset edu w rc ev m Hn Hs|W ok offset edu w sub ev m Hn Hs|
    W m out Hop|W edu s w sub ev m rc ev' Hcall Hev Hwait|W edu s w sub rc Hcall _].
  - assert (entered (sw_mgr W) m /\ forall i, heap_of m i = heap_of (sw_mgr W) i) as [He Hh].
    { destruct (decide (offset = DPS_INVALID_LSN_OFFSET)) as [->|].
      - apply replSet_sync_invalid in Hs as [_ ->]. done.
      - apply replSet_sync_spec in Hs as (? & ? & _); [done|apply HI|apply HI|done]. }
    apply (inv_event (mkSW m (sw_events W) (sw_calls W)) edu ev m); [by apply inv_same_heaps|done].
  - assert (offset <> DPS_INVALID_LSN_OFFSET) as Hv
      by (intros ->; apply replSet_sync_invalid in Hs as [? _]; done).
    apply replSet_sync_spec in Hs as (He & Hsig & Hsub & Hp & Ho); [|apply HI|apply HI|done].
    by apply inv_wait.
  - by apply inv_manager.
  - assert (ev_signal ev = true) as Hsg.
    { unfold event_wait in Hwait. destruct (ev_signal ev); [done|discriminate]. }
    assert (sync_inv (mkSW (sw_mgr W) (sw_events W) (delete edu (sw_calls W)))) as HI';
      [|exact (inv_event _ edu ev' m HI' (lookup_delete_eq _ _))].
    apply inv_leave; [done|done|intros i _; by exists []|].
    intros i s' Hi Hs' <-. destruct (inv_heap W HI i s' Hi Hs') as [_ Hno].
    unfold event_of, event_in in Hno. rewrite Hev in Hno. congruence.
  - by eapply inv_give_up.
Qed.

Lemma sync_run_inv W W' : sync_inv W -> rtc (fun a b => exists l, sync_step a l b) W W' -> sync_inv W'.
Proof. intros HI Hr. induction Hr as [|a b c [l Hl] _ IH]; [done|]. eauto using sync_step_inv. Qed.

(** C3: However writing sessions, confirmations of replicas, timers, full
    syncs, status changes and cuts interleave, a call of [sync] for [w] copies
    that returns [SDB_OK] was decided in a state where at least [w - 1]
    replicas, or all of them if there are fewer, were past the end LSN of the
    write or in full sync. *)
Theorem sync_ok_means_replicated W0 W W' s w m :
  sync_initial W0 -> rtc (fun a b => exists l, sync_step a l b) W0 W ->
  sync_step W (Some (s, w, SDB_OK, m)) W' -> endLsn s <> DPS_INVALID_LSN_OFFSET ->
  (wanted w m <= confirmed m (endLsn s))%nat.
Proof.
  intros H0 Hr Hst Hv. pose proof (sync_run_inv _ _ (sync_initial_inv _ H0) Hr) as HI.
  inversion Hst as [W1 ok offset edu w1 rc ev m1 Hn Hs|?|?|
    W1 edu s1 w1 sub ev m1 rc ev' Hcall Hev Hwait|W1 edu s1 w1 sub rc Hcall Hrc]; subst.
  - apply replSet_sync_spec in Hs as (He & _ & Hok); [|apply HI|apply HI|done].
    destruct (entered_same _ _ He) as (_ & _ & E3 & E4). rewrite E3, E4. by apply Hok.
  - destruct (inv_calls W HI _ _ _ _ Hcall) as (_ & _ & _ & Hok).
    unfold event_wait in Hwait. destruct (ev_signal ev) eqn:Hsg; [|discriminate].
    injection Hwait as Hd _. by eapply Hok.
  - destruct Hrc; discriminate.
Qed.
