(* ===== verification/SyncMembers.v ===== *)
(** * Waiting, changes of members, and runs worth knowing

    The time a session waits, what [updateNotifyList] does to the list of
    members and to the waiting sessions, and concrete runs of the manager. *)

From stdpp Require Import base list gmap sorting relations.
From Stdlib Require Import ZArith Lia.
From S2P Require Import Prelude.
From S2P Require Import DpsLsn Vote.
From S2P Require Import SyncHeap.
From S2P Require Import SyncHeapFacts.
From S2P Require Import Sync.
From S2P Require Import SyncFacts.
From S2P Require Import SyncRun.

Open Scope Z_scope.

(** ** A small group *)

Definition demo_peer (id : Z) : Z * clsSharingStatus :=
  (id, mkSharing (mkBeat (mkLSN 100 1) id 10 0 1 CLS_GROUP_ROLE_SECONDARY
         CLS_SYNC_STATUS_PEER 5 SERVICE_NORMAL) 0 0 0 0).

Definition sync_group (peers alives : list Z) : clsGroupInfo :=
  mkGroup (List.map demo_peer peers) alives 1 1 1 1 0.

(** The manager of the primary of a group, with its members listed. *)
Definition sync_start (peers alives : list Z) : clsSyncManager :=
  match updateNotifyList (fun _ => true) true (newSyncManager true (sync_group peers alives)) with
  | Some (_, m, _) => m
  | None => newSyncManager true (sync_group peers alives)
  end.

Definition two_replicas : clsSyncManager := sync_start [2; 3] [2; 3].

Definition confirm (id offset : Z) (m : clsSyncManager) : clsSyncManager :=
  fst (complete id (mkLSN offset 1) m).

Lemma two_replicas_shape : sync_shape two_replicas.
Proof.
  split; [done|done|vm_compute; lia|]. unfold offsets_ok.
  repeat constructor; vm_compute; discriminate.
Qed.

(** A manager in which thread 20 waits for one replica at end LSN 50. *)
Definition one_waits : clsSyncManager :=
  match sync_enter true (mkSession 50 20) 2 two_replicas with
  | Some (_, m) => m
  | None => two_replicas
  end.

Lemma one_waits_valid : waits_valid one_waits.
Proof.
  intros i s Hi.
  change (_syncList one_waits) with (mkHeap [mkSession 50 20] 1 :: replicate 5 (mkHeap [] 1)).
  change syncSlots with 6%nat in Hi.
  do 6 (destruct i as [|i]; [cbn; rewrite ?elem_of_nil; try done; by intros ->%list_elem_of_singleton|]). lia.
Qed.

Lemma complete_wakes_exactly_satisfied_witness :
  let m' := fst (complete 2 (mkLSN 60 1) one_waits) in
  let out := snd (complete 2 (mkLSN 60 1) one_waits) in
  out = [Signal 20 SDB_OK] /\ sync_shape m' /\ waits_valid m' /\
  forall sub, (sub < validSync m')%nat -> exists gone,
    _heap (_syncList one_waits !!! sub) ≡ₚ gone ++ _heap (_syncList m' !!! sub) /\
    (forall s, s ∈ gone -> (S sub <= confirmed m' (endLsn s))%nat /\ Signal (eduCB s) SDB_OK ∈ out) /\
    (ordered (_heap (_syncList one_waits !!! sub)) -> ordered (_heap (_syncList m' !!! sub)) /\
      forall s, s ∈ _heap (_syncList m' !!! sub) -> (confirmed m' (endLsn s) <= sub)%nat).
Proof.
  split; [reflexivity|].
  apply (complete_wakes_exactly_satisfied 2 (mkLSN 60 1) one_waits).
  - destruct two_replicas_shape. by split.
  - exact one_waits_valid.
  - reflexivity.
  - discriminate.
  - discriminate.
  - reflexivity.
  - vm_compute. split; discriminate.
  - apply surjective_pairing.
Defined.

(** ** A run of three steps: wait, confirmation, return *)

Definition run_start : syncWorld := mkSW two_replicas ∅ ∅.
Definition run_waiting : syncWorld :=
  mkSW one_waits {[ 20 := (mkEvent false 0, one_waits) ]} {[ 20 := (mkSession 50 20, 2, 0%nat) ]}.
Definition run_signalled : syncWorld :=
  let m := confirm 2 60 one_waits in
  mkSW m (apply_signals (snd (complete 2 (mkLSN 60 1) one_waits)) m (sw_events run_waiting))
    (sw_calls run_waiting).

Lemma run_start_initial : sync_initial run_start.
Proof.
  split_and!; [exact two_replicas_shape|done| |]; repeat constructor.
Qed.

Lemma run_steps : rtc (fun a b => exists l, sync_step a l b) run_start run_signalled.
Proof.
  eapply rtc_l; [exists None; apply (step_wait run_start true 50 20 2 0); [done|reflexivity]|].
  apply rtc_once. exists None. apply (step_manager run_waiting).
  apply (op_complete one_waits 2 (mkLSN 60 1)). vm_compute. split; discriminate.
Qed.

Lemma sync_ok_means_replicated_witness :
  wanted 2 (confirm 2 60 one_waits) = 1%nat /\
  (wanted 2 (confirm 2 60 one_waits) <= confirmed (confirm 2 60 one_waits) 50)%nat.
Proof.
  split; [reflexivity|].
  eapply (sync_ok_means_replicated run_start run_signalled _ (mkSession 50 20) 2).
  - exact run_start_initial.
  - exact run_steps.
  - eapply (step_return run_signalled 20 _ _ 0%nat (mkEvent true SDB_OK)); reflexivity.
  - discriminate.
Defined.

(** ** How long a session waits *)

Lemma wait_slices n t : 0 <= t ->
  wait_loop (replicate n SliceElapsed) t =
  if Nat.leb 1 n && (t <=? OSS_ONE_SEC * Z.of_nat n) then Some (WaitGivenUp SDB_TIMEOUT) else None.
Proof.
  revert t. induction n as [|n IH]; intros t Ht; [done|].
  rewrite replicate_S. cbn [wait_loop Nat.leb andb]. rewrite (proj2 (Z.leb_le 0 t)) by done.
  unfold sliceTime, OSS_ONE_SEC in *. rewrite (proj2 (Z.leb_le 0 t)) by done.
  destruct (Z.ltb_spec 1000 t) as [H|H].
  - destruct (Z.leb_spec (t - 1000) 0); [lia|]. rewrite IH by lia.
    destruct n as [|n]; cbn [Nat.leb andb].
    + destruct (Z.leb_spec t (1000 * Z.of_nat 1)); [lia|done].
    + destruct (Z.leb_spec (t - 1000) (1000 * Z.of_nat (S n)));
        destruct (Z.leb_spec t (1000 * Z.of_nat (S (S n)))); try lia; done.
  - destruct (Z.leb_spec (t - t) 0); [|lia].
    destruct (Z.leb_spec t (1000 * Z.of_nat (S n))); [done|lia].
Qed.

(** C37: A session that is neither signalled nor interrupted gives up with
    [SDB_TIMEOUT] exactly when its slices of at most a second add up to its
    timeout; and when a session gives up in any run of waits, confirmations,
    status changes, timers, cuts and withdrawals - but without changes of
    the members, which move sessions to other heaps - no heap keeps an entry
    of its thread. *)
Theorem wait_ends_in_time_and_leaves_nothing W0 W edu s w sub :
  sync_initial W0 -> rtc (fun a b => exists l, sync_step a l b) W0 W ->
  sw_calls W !! edu = Some (s, w, sub) ->
  (forall n t, 0 <= t -> wait_loop (replicate n SliceElapsed) t =
     if Nat.leb 1 n && (t <=? OSS_ONE_SEC * Z.of_nat n) then Some (WaitGivenUp SDB_TIMEOUT)
     else None) /\
  (forall i s', (i < syncSlots)%nat ->
     s' ∈ heap_of (wait_withdraw edu sub (sw_mgr W)) i -> eduCB s' <> edu).
Proof.
  intros H0 Hr Hcall. split; [intros; by apply wait_slices|]. intros i s' Hi Hs' E.
  pose proof (sync_run_inv _ _ (sync_initial_inv _ H0) Hr) as HI.
  destruct (inv_heap _ (inv_give_up W edu s w sub HI Hcall) i s' Hi Hs') as [[w' Hw'] _].
  simpl in Hw'. by rewrite E, lookup_delete_eq in Hw'.
Qed.

Lemma run_wait_step : rtc (fun a b => exists l, sync_step a l b) run_start run_waiting.
Proof.
  apply rtc_once. exists None. apply (step_wait run_start true 50 20 2 0); [done|reflexivity].
Qed.

Lemma wait_ends_in_time_and_leaves_nothing_witness :
  wait_loop (replicate 3 SliceElapsed) 2500 = Some (WaitGivenUp SDB_TIMEOUT) /\
  wait_loop (replicate 2 SliceElapsed) 2500 = None /\
  heap_of one_waits 0 <> [] /\
  forall i s', (i < syncSlots)%nat -> s' ∈ heap_of (wait_withdraw 20 0 one_waits) i -> eduCB s' <> 20.
Proof.
  destruct (wait_ends_in_time_and_leaves_nothing run_start run_waiting 20 (mkSession 50 20) 2 0)
    as [Ht Hn]; [exact run_start_initial|exact run_wait_step|reflexivity|].
  split; [rewrite Ht; [reflexivity|lia]|]. split; [rewrite Ht; [reflexivity|lia]|].
  split; [vm_compute; discriminate|exact Hn].
Defined.

(** ** Changes of members *)

Definition members (m : clsSyncManager) : list Z := List.map ss_id (_notifyList m).
Definition groupIds (m : clsSyncManager) : list Z := List.map fst (gi_info (_info m)).

Lemma inGroup_spec m id : inGroup m id = true <-> id ∈ groupIds m.
Proof.
  unfold inGroup, groupIds. rewrite existsb_exists, list_elem_of_In, in_map_iff.
  split; intros (kv & H1 & H2); exists kv; [apply Z.eqb_eq in H2|split; [done|]; apply Z.eqb_eq]; auto.
Qed.

(** The list [updateNotifyList] builds: members that stay with their state,
    then the new ones from offset zero. *)
Definition kept (m : clsSyncManager) : list clsSyncStatus :=
  List.filter (fun s => inGroup m (ss_id s)) (_notifyList m).
Definition added (v : bool) (m : clsSyncManager) : list clsSyncStatus :=
  List.map (fun kv => mkStatus 0 (fst kv) v 0)
    (List.filter (fun kv => negb (existsb (fun s => fst kv =? ss_id s) (kept m)))
       (gi_info (_info m))).

Lemma updateNotifyList_list oks v m rc m' out : updateNotifyList oks v m = Some (rc, m', out) ->
  rc = SDB_OK /\ _notifyList m' = kept m ++ added v m /\
  _aliveCount m' = Z.of_nat (length (gi_alives (_info m))) /\ _checkList m' = _checkList m.
Proof.
  unfold updateNotifyList. fold (kept m).
  destruct (if Nat.eqb _ _ then _ else _) as [[lists o]|]; [|done]. cbn [mbind option_bind].
  fold (added v m). destruct (Nat.ltb _ _); [done|]. by intros [= <- <- <-].
Qed.

Lemma kept_in m s : s ∈ kept m <-> s ∈ _notifyList m /\ ss_id s ∈ groupIds m.
Proof.
  unfold kept. rewrite !list_elem_of_In, List.filter_In, inGroup_spec. by rewrite list_elem_of_In.
Qed.

Lemma kept_ids_in m id : existsb (fun s => id =? ss_id s) (kept m) = true <-> id ∈ List.map ss_id (kept m).
Proof.
  rewrite existsb_exists, list_elem_of_In, in_map_iff.
  split; intros (s & H1 & H2); exists s; [apply Z.eqb_eq in H2|split; [done|]; apply Z.eqb_eq]; auto.
Qed.

Lemma added_in v m s : s ∈ added v m <->
  exists id, s = mkStatus 0 id v 0 /\ id ∈ groupIds m /\ id ∉ List.map ss_id (kept m).
Proof.
  unfold added, groupIds. rewrite list_elem_of_In, in_map_iff. setoid_rewrite List.filter_In.
  setoid_rewrite negb_true_iff. setoid_rewrite <- not_true_iff_false. setoid_rewrite kept_ids_in.
  split.
  - intros (kv & <- & Hin & Hn). exists (fst kv). split_and!; [done| |done].
    apply list_elem_of_In, in_map_iff. by exists kv.
  - intros (id & -> & Hin & Hn). apply list_elem_of_In, in_map_iff in Hin as (kv & <- & Hin).
    by exists kv.
Qed.

Lemma map_filter_NoDup {A} (f : A -> Z) (p : A -> bool) l :
  NoDup (List.map f l) -> NoDup (List.map f (List.filter p l)).
Proof.
  induction l as [|x l IH]; simpl; [done|]. intros [Hx Hl]%NoDup_cons.
  destruct (p x); [|auto]. simpl. apply NoDup_cons. split; [|auto].
  intros Hin. apply Hx. apply list_elem_of_In, in_map_iff in Hin as (y & Hy & Hin).
  apply list_elem_of_In, in_map_iff. exists y. split; [done|]. by apply List.filter_In in Hin as [? _].
Qed.

Lemma added_ids v m : List.map ss_id (added v m)
  = List.map fst (List.filter (fun kv => negb (existsb (fun s => fst kv =? ss_id s) (kept m)))
                    (gi_info (_info m))).
Proof. unfold added. by rewrite List.map_map. Qed.

Lemma new_members_perm v m : NoDup (members m) -> NoDup (groupIds m) ->
  List.map ss_id (kept m ++ added v m) ≡ₚ groupIds m.
Proof.
  intros Hm Hg. assert (forall id, id ∈ List.map ss_id (added v m) <->
    id ∈ groupIds m /\ id ∉ List.map ss_id (kept m)) as Ha.
  { intros id. rewrite list_elem_of_In, in_map_iff. setoid_rewrite <- list_elem_of_In.
    setoid_rewrite added_in. split.
    - by intros (s & <- & id' & -> & ?).
    - intros H. exists (mkStatus 0 id v 0). split; [done|]. by exists id. }
  assert (forall id, id ∈ List.map ss_id (kept m) -> id ∈ groupIds m) as Hk.
  { intros id (s & <- & Hs)%list_elem_of_In%in_map_iff. apply list_elem_of_In, kept_in in Hs. apply Hs. }
  rewrite List.map_app. apply NoDup_Permutation; [|done|].
  - apply NoDup_app. split_and!.
    + unfold kept. by apply map_filter_NoDup.
    + intros id H1 H2. apply Ha in H2 as [_ H2]. done.
    + rewrite added_ids. by apply map_filter_NoDup.
  - intros id. rewrite elem_of_app, Ha.
    specialize (Hk id). destruct (decide (id ∈ List.map ss_id (kept m))); tauto.
Qed.

Lemma filter_nothing {A} (p : A -> bool) l : (forall x, x ∈ l -> p x = false) -> List.filter p l = [].
Proof.
  induction l as [|x l IH]; intros H; simpl; [done|]. rewrite H by apply list_elem_of_here.
  apply IH. intros y Hy. by apply H, list_elem_of_further.
Qed.

(** [updateNotifyList] makes the notify list agree with the group: its ids
    are those of the other members, a member that stays keeps its state, a
    new one starts at offset zero, and the count of live members is taken
    anew.  It always succeeds when nobody leaves a group of at most seven. *)
Theorem updateNotifyList_matches_group oks v m :
  NoDup (members m) -> NoDup (groupIds m) ->
  ((length (groupIds m) <= syncSlots)%nat ->
     (forall s, s ∈ _notifyList m -> ss_id s ∈ groupIds m) ->
     exists m', updateNotifyList oks v m = Some (SDB_OK, m', [])) /\
  forall rc m' out, updateNotifyList oks v m = Some (rc, m', out) ->
    rc = SDB_OK /\ members m' ≡ₚ groupIds m /\
    (forall s, s ∈ _notifyList m -> ss_id s ∈ groupIds m -> s ∈ _notifyList m') /\
    (forall s, s ∈ _notifyList m' ->
       s ∈ _notifyList m \/ s = mkStatus 0 (ss_id s) v 0 /\ ss_id s ∉ members m) /\
    _aliveCount m' = Z.of_nat (length (gi_alives (_info m))).
Proof.
  intros Hm Hg. pose proof (new_members_perm v m Hm Hg) as Hp. split.
  - intros Hlen Hall. unfold updateNotifyList. fold (kept m).
    rewrite (filter_nothing (fun s => negb (inGroup m (ss_id s)))).
    2: { intros s Hs. by rewrite (proj2 (inGroup_spec m _) (Hall s Hs)). }
    cbn [length Nat.eqb mbind option_bind]. fold (added v m).
    apply Permutation_length in Hp. rewrite length_map in Hp.
    destruct (Nat.ltb_spec syncSlots (length (kept m ++ added v m))); [lia|]. by eexists.
  - intros rc m' out (-> & Hn & Ha & _)%updateNotifyList_list. unfold members at 1. rewrite Hn.
    split_and!; [done|done| | |done].
    + intros s Hs Hin. apply elem_of_app. left. by apply kept_in.
    + intros s [Hs|Hs]%elem_of_app; [left; apply kept_in in Hs; apply Hs|]. right.
      apply added_in in Hs as (id & -> & Hin & Hnk). split; [done|]. simpl. intros Hid.
      apply Hnk. apply list_elem_of_In, in_map_iff in Hid as (s & Hsid & Hs).
      apply list_elem_of_In, in_map_iff. exists s. split; [done|].
      apply list_elem_of_In, kept_in. split; [by apply list_elem_of_In|congruence].
Qed.

(** Replica 3 leaves a group and replica 4 joins. *)
Definition changed_group : clsSyncManager :=
  set_info (confirm 2 60 two_replicas) (sync_group [2; 4] [2; 4]).

Lemma updateNotifyList_matches_group_witness :
  exists m' out, updateNotifyList (fun _ => true) true changed_group = Some (SDB_OK, m', out) /\
    members m' ≡ₚ [2; 4] /\ mkStatus 60 2 true 0 ∈ _notifyList m'.
Proof.
  destruct (updateNotifyList_matches_group (fun _ => true) true changed_group) as [_ H].
  - apply (bool_decide_unpack _). vm_compute. exact I.
  - apply (bool_decide_unpack _). vm_compute. exact I.
  - destruct (updateNotifyList (fun _ => true) true changed_group) as [[[rc m'] out]|] eqn:E;
      [|vm_compute in E; discriminate].
    destruct (H rc m' out eq_refl) as (-> & Hp & Hk & _). exists m', out.
    split; [done|]. split; [exact Hp|]. apply Hk; apply (bool_decide_unpack _); vm_compute; exact I.
Defined.

(** ** Sessions across a change of members *)

Definition all_sessions (lists : list clsSyncMinHeap) : list clsSyncSession :=
  concat (List.map _heap lists).

Lemma all_sessions_insert lists i h : (i < length lists)%nat ->
  all_sessions (<[i := h]> lists) ++ _heap (lists !!! i) ≡ₚ all_sessions lists ++ _heap h.
Proof.
  unfold all_sessions. revert i. induction lists as [|x lists IH]; intros i Hi; simpl in *; [lia|].
  destruct i as [|i]; simpl.
  - rewrite (Permutation_app_comm (_heap h ++ _)), (Permutation_app_comm (_heap x ++ _)), !app_assoc.
    by rewrite (Permutation_app_comm (_heap h) (_heap x)).
  - rewrite <- !app_assoc. apply Permutation_app_head, IH. lia.
Qed.

Lemma all_sessions_shrink lists i h x : (i < length lists)%nat ->
  _heap (lists !!! i) ≡ₚ x :: _heap h -> all_sessions lists ≡ₚ x :: all_sessions (<[i := h]> lists).
Proof.
  intros Hi Hx. apply (Permutation_app_inv_r (_heap h)). rewrite <- all_sessions_insert, Hx by done.
  symmetry. apply Permutation_middle.
Qed.

Lemma all_sessions_grow lists i h x : (i < length lists)%nat ->
  _heap h ≡ₚ x :: _heap (lists !!! i) -> all_sessions (<[i := h]> lists) ≡ₚ x :: all_sessions lists.
Proof.
  intros Hi Hx. apply (Permutation_app_inv_r (_heap (lists !!! i))).
  rewrite all_sessions_insert, Hx by done. symmetry. apply Permutation_middle.
Qed.

(** Sessions with the code they were signalled. *)
Definition answers (done : list (clsSyncSession * Z)) : list syncOut :=
  List.map (fun p => Signal (eduCB (fst p)) (snd p)) done.

(** From [before] to [after] the heaps lost exactly the answered sessions. *)
Definition conserved (before : list clsSyncSession) (lists : list clsSyncMinHeap)
  (lists' : list clsSyncMinHeap) (out : list syncOut) : Prop :=
  length lists' = length lists /\
  exists done, out = answers done /\ before ≡ₚ List.map fst done ++ all_sessions lists'.

Lemma conserved_nil lists : conserved (all_sessions lists) lists lists [].
Proof. split; [done|]. by exists []. Qed.

Lemma conserved_trans b l l1 l2 o1 o2 :
  conserved b l l1 o1 -> conserved (all_sessions l1) l1 l2 o2 -> conserved b l l2 (o1 ++ o2).
Proof.
  intros (L1 & d1 & -> & P1) (L2 & d2 & -> & P2). split; [congruence|].
  exists (d1 ++ d2). unfold answers. rewrite !List.map_app. split; [done|].
  rewrite P1, P2. by rewrite app_assoc.
Qed.

Section clearing.
Context (oks : Z -> bool) (okW removed endSub : nat) (left : list clsSyncStatus).
Hypothesis memory : forall edu, oks edu = true.

Lemma clear_session_conserves removedSub s lists lists' out : (endSub <= length lists)%nat ->
  clear_session oks okW removed endSub removedSub left s lists = Some (lists', out) ->
  conserved (s :: all_sessions lists) lists lists' out.
Proof.
  intros He. unfold clear_session. destruct (Nat.leb _ _).
  { intros [= <- <-]. split; [done|]. by exists [(s, SDB_OK)]. }
  destruct (Nat.ltb _ _).
  { intros [= <- <-]. split; [done|]. by exists [(s, SDB_CLS_WAIT_SYNC_FAILED)]. }
  destruct endSub as [|sub]; [done|].
  destruct (push _ _ _) as [[rc h]|] eqn:Hp; [|done]. intros [= <- <-].
  destruct (push_cases _ _ _ _ _ Hp) as [[_ Hh]|(_ & Hf & _)]; [|by rewrite memory in Hf].
  split; [apply length_insert|]. exists []. split; [done|]. simpl. symmetry.
  apply all_sessions_grow; [lia|done].
Qed.

Lemma clear_heap_conserves fuel removedSub lists lists' out :
  (endSub <= length lists)%nat -> (removedSub < length lists)%nat ->
  clear_heap fuel oks okW removed endSub removedSub left lists = Some (lists', out) ->
  conserved (all_sessions lists) lists lists' out.
Proof.
  revert lists lists' out. induction fuel as [|fuel IH]; intros lists lists' out He Hr; simpl.
  { intros [= <- <-]. apply conserved_nil. }
  pose proof (pop_cases (lists !!! removedSub)) as Hp.
  destruct (pop (lists !!! removedSub)) as [[c [s|]] h].
  2: { intros [= <- <-]. apply conserved_nil. }
  destruct Hp as (Hp & _).
  destruct (clear_session _ _ _ _ _ _ _ _) as [[l1 o1]|] eqn:Hc; [|done]. cbn [mbind option_bind].
  destruct (clear_heap fuel _ _ _ _ _ _ l1) as [[l2 o2]|] eqn:Hl; [|done]. intros [= <- <-].
  apply clear_session_conserves in Hc; [|by rewrite length_insert].
  assert (length l1 = length lists) as Hlen by (destruct Hc as [Hc _]; by rewrite length_insert in Hc).
  apply (conserved_trans _ _ l1).
  - destruct Hc as (_ & d & -> & Pd). split; [done|]. exists d. split; [done|]. rewrite <- Pd.
    by apply all_sessions_shrink.
  - apply IH; [lia|lia|done].
Qed.

Lemma clear_loop_conserves removedSub lists lists' out :
  (endSub <= length lists)%nat -> (removedSub < length lists)%nat ->
  clear_loop removedSub oks okW removed endSub left lists = Some (lists', out) ->
  conserved (all_sessions lists) lists lists' out.
Proof.
  revert lists lists' out. induction removedSub as [|r IH]; intros lists lists' out He Hr;
    cbn [clear_loop]; (destruct (Nat.ltb _ _); [intros [= <- <-]; apply conserved_nil|]);
    destruct (clear_heap _ _ _ _ _ _ _ lists) as [[l1 o1]|] eqn:Hh; try done;
    cbn [mbind option_bind]; apply clear_heap_conserves in Hh; try lia.
  - by intros [= <- <-].
  - destruct (clear_loop r _ _ _ _ _ l1) as [[l2 o2]|] eqn:Hl; [|done]. intros [= <- <-].
    pose proof Hh as [Hlen _]. eapply conserved_trans; [exact Hh|]. apply IH; [lia|lia|done].
Qed.
End clearing.

Lemma filter_length_le {A} (p : A -> bool) l : (length (List.filter p l) <= length l)%nat.
Proof. induction l as [|x l IH]; simpl; [lia|]. destruct (p x); simpl; lia. Qed.

(** C36: While memory lasts, a change of members loses no waiting session: each
    one is answered, or it still waits in one of the heaps. *)
Theorem members_change_loses_no_session oks v m rc m' out :
  (forall edu, oks edu = true) -> sync_shape m ->
  updateNotifyList oks v m = Some (rc, m', out) ->
  exists done, out = answers done /\
    all_sessions (_syncList m) ≡ₚ List.map fst done ++ all_sessions (_syncList m').
Proof.
  intros Hok [H1 H2 H3 H4]. unfold updateNotifyList, clearSyncList.
  set (gone := List.filter (fun s => negb (inGroup m (ss_id s))) (_notifyList m)).
  pose proof (filter_length_le ss_valid (_notifyList m)).
  assert (length gone <= length (_notifyList m))%nat by apply filter_length_le.
  destruct (Nat.eqb_spec (length gone) 0) as [E|E].
  - cbn [mbind option_bind]. destruct (Nat.ltb syncSlots _); [done|]. intros [= <- <- <-]. by exists [].
  - destruct (clear_loop _ _ _ _ _ _ _) as [[lists o]|] eqn:Hl; [|done]. cbn [mbind option_bind].
    destruct (Nat.ltb syncSlots _); [done|]. intros [= <- <- <-]. unfold validSync in H3.
    apply clear_loop_conserves in Hl; [apply Hl|done|lia|lia].
Qed.

(** Three replicas, the third of them down; thread 20 waits for one replica
    and thread 21 for two. *)
Definition two_wait : clsSyncManager :=
  let m := updateNodeStatus 4 false (sync_start [2; 3; 4] [2; 3; 4]) in
  foldl (fun m '(lsn, edu, w) =>
    match sync_enter true (mkSession lsn edu) w m with Some (_, m') => m' | None => m end)
    m [(50, 20, 2); (70, 21, 3)].

Lemma members_change_loses_no_session_witness :
  let m := set_info two_wait (sync_group [2; 4] [2]) in
  exists m' out done, updateNotifyList (fun _ => true) true m = Some (SDB_OK, m', out) /\
    length (all_sessions (_syncList m)) = 2%nat /\ out = answers done /\
    all_sessions (_syncList m) ≡ₚ List.map fst done ++ all_sessions (_syncList m').
Proof.
  intros m. destruct (updateNotifyList (fun _ => true) true m) as [[[rc m'] out]|] eqn:E;
    [|vm_compute in E; discriminate].
  destruct (members_change_loses_no_session (fun _ => true) true m rc m' out) as (done & Ho & Hp).
  - reflexivity.
  - split; [reflexivity|reflexivity|vm_compute; lia|].
    repeat constructor; vm_compute; discriminate.
  - exact E.
  - exists m', out, done. split; [|split; [reflexivity|split; [exact Ho|exact Hp]]].
    vm_compute in E. injection E as <- <- <-. reflexivity.
Defined.

(** ** Runs worth knowing *)

(** Seven threads wait for one replica; thread 4 is interrupted; then replica
    2 confirms offset 50. *)
Definition seven_wait : clsSyncManager :=
  foldl (fun m '(lsn, edu) =>
    match sync_enter true (mkSession lsn edu) 2 m with Some (_, m') => m' | None => m end)
    two_replicas [(10, 1); (100, 2); (20, 3); (110, 4); (120, 5); (300, 6); (40, 7)].

(** [erase] moves the last cell into the hole and only sifts it down, so
    withdrawing a session can break the heap order: here replica 2 confirms
    offset 50 and thread 7, which waits for one replica past LSN 40, is left
    waiting behind thread 2, which waits for LSN 100. *)
Theorem erase_leaves_satisfied_session :
  let m := wait_withdraw 4 0 seven_wait in
  let '(m', out) := complete 2 (mkLSN 50 1) m in
  out = [Signal 1 SDB_OK; Signal 3 SDB_OK] /\
  confirmed m' 40 = 1%nat /\ mkSession 40 7 ∈ heap_of m' 0.
Proof. vm_compute. split_and!; [done|done|]. apply list_elem_of_further, list_elem_of_here. Qed.

(** A group whose replica 3 is down and in which thread 20 waits for one
    replica; then replica 2 is taken out of the group. *)
Definition last_alive_removed : clsSyncManager :=
  set_info
    (match sync_enter true (mkSession 50 20) 2
             (updateNodeStatus 3 false (sync_start [2; 3] [2; 3])) with
     | Some (_, m) => m
     | None => two_replicas
     end)
    (sync_group [3] []).

(** When the last live replica is taken out of a group while a session
    waits and another, dead replica stays, [_clearSyncList] puts the session
    into the heap at index -1. *)
Theorem removing_last_alive_writes_out_of_bounds :
  heap_of last_alive_removed 0 = [mkSession 50 20] /\
  updateNotifyList (fun _ => true) true last_alive_removed = None.
Proof. vm_compute. done. Qed.

(** Replica 2 goes into full sync, replica 3 confirms offset 10, and replica 2
    is taken out of the group. *)
Definition full_sync_removed : clsSyncManager :=
  match updateNotifyList (fun _ => true) true
          (set_info (confirm 3 10 (notifyFullSync 2 two_replicas)) (sync_group [3] [3])) with
  | Some (_, m, _) => m
  | None => two_replicas
  end.

(** [updateNotifyList] keeps the check list of the old members: after a
    replica in full sync leaves the group, a write for two copies returns
    [SDB_OK] at once although no replica is past its end LSN. *)
Theorem stale_check_list_confirms_write :
  sync_enter true (mkSession 5000 20) 2 full_sync_removed = Some (SyncDone SDB_OK, full_sync_removed) /\
  wanted 2 full_sync_removed = 1%nat /\ confirmed full_sync_removed 5000 = 0%nat.
Proof. vm_compute. done. Qed.
