(* ===== verification/ReplSet.v ===== *)
(** * The replicate set: group information, heartbeats and what they drive

    Models [cls/clsReplicateSet.cpp] with [cls/clsCatalogCaller.cpp],
    [clsSyncWindow] of [cls/clsUtil.cpp], the notifications of
    [_clsMgr::ntyPrimaryChange] and the route table of [net/netRoute.cpp].

    The set owns the group information, the vote machine of [Vote] and the
    sync manager of [Sync]; the latter two point to the former, so the group is
    kept once, in the vote machine, and handed to the manager before each of
    its operations.  A handler is a computation of [replM]: it reads and
    changes the set and lists what it sends; [None] is undefined behaviour of
    a component it calls.  What the set reads of others (options, log window,
    clock, outcome of a send or an allocation) is the record [replEnv]. *)

From stdpp Require Import base list strings.
From Stdlib Require Import ZArith Lia.
From S2P Require Import Prelude.
From S2P Require Import DpsLsn Vote.
From S2P Require Import SyncHeap.
From S2P Require Import Sync.
From S2P Require Import SyncRun.

Open Scope Z_scope.

Definition SDB_REPL_GROUP_NOT_ACTIVE : Z := -90.
Definition SDB_REPL_INVALID_GROUP_MEMBER : Z := -91.
Definition SDB_REPL_LOCAL_G_V_EXPIRED : Z := -94.
Definition SDB_REPL_REMOTE_G_V_EXPIRED : Z := -96.
Definition SDB_NET_UPDATE_EXISTING_NODE : Z := -101.
Definition SDB_CLS_UNKNOW_MSG : Z := -102.
Definition SDB_CLS_NOT_PRIMARY : Z := -104.
Definition SDB_CLS_INVALID_GROUP_NUM : Z := -109.
Definition SDB_CLS_NODE_BSFAULT : Z := -250.
Definition SDB_CLS_NODE_INFO_EXPIRED : Z := -251.
Definition SDB_CLS_CAN_NOT_STEP_UP : Z := -280.

Definition CLS_SHARING_BETA_INTERVAL : Z := 2000.
Definition SPARE_GROUPID : Z := 5.
Definition PMD_SYNC_CLOCK_INTERVAL : Z := 10.

(** ** Requests to the catalog *)

(** [MAKE_REPLY_TYPE] *)
Definition MAKE_REPLY_TYPE (type : Z) : Z := Z.lor type 0x80000000.
Definition MSG_CAT_GRP_REQ : Z := 3201.
Definition MSG_CAT_PAIMARY_CHANGE : Z := 3203.
Definition MSG_CAT_GRP_RES : Z := MAKE_REPLY_TYPE MSG_CAT_GRP_REQ.
Definition MSG_CAT_PAIMARY_CHANGE_RES : Z := MAKE_REPLY_TYPE MSG_CAT_PAIMARY_CHANGE.

Inductive cataMsg : Set :=
| MsgCatGroupReq (id : Z)
| MsgCatPrimaryChange (newPrimary oldPrimary : Z).

Definition opCode (msg : cataMsg) : Z :=
  match msg with
  | MsgCatGroupReq _ => MSG_CAT_GRP_REQ
  | MsgCatPrimaryChange _ _ => MSG_CAT_PAIMARY_CHANGE
  end.

(** The copy of a request; [None] before a buffer was allocated.  All
    messages with one code have one length, so a buffer is never too short. *)
Record clsCataCallerMeta : Set := mkMeta {
  cm_header : option cataMsg;
  cm_timeout : Z;
  cm_sendTimes : Z
}.

Definition newMeta : clsCataCallerMeta := mkMeta None (-1) 1.

Definition CLS_CALLER_NO_SEND : Z := -1.
Definition CLS_CALLER_INTERVAL : Z := 5000.

Definition callerMeta : Set := list (Z * clsCataCallerMeta).

(** [call]: the code, the table and what is sent; [ok] tells whether the
    buffer could be allocated. *)
Definition cata_call (ok : bool) (header : cataMsg) (times : Z) (_meta : callerMeta)
  : Z * callerMeta * list cataMsg :=
  let key := MAKE_REPLY_TYPE (opCode header) in
  let meta := default newMeta (om_find key _meta) in
  if bool_decide (cm_header meta = None) && negb ok
  then (SDB_OOM, om_insert key (mkMeta None (cm_timeout meta) (cm_sendTimes meta)) _meta, [])
  else (SDB_OK, om_insert key (mkMeta (Some header) 0 times) _meta, [header]).

Definition remove_meta (meta : clsCataCallerMeta) : clsCataCallerMeta :=
  if 1 <? cm_sendTimes meta then mkMeta (cm_header meta) (cm_timeout meta) (cm_sendTimes meta - 1)
  else mkMeta (cm_header meta) CLS_CALLER_NO_SEND 0.

(** [remove( opCode )] *)
Definition cata_remove (key : Z) (_meta : callerMeta) : callerMeta :=
  match om_find key _meta with
  | Some meta => om_insert key (remove_meta meta) _meta
  | None => _meta
  end.

(** [remove( header, result )] *)
Definition cata_remove_reply (key result : Z) (_meta : callerMeta) : callerMeta :=
  match om_find key _meta with
  | Some meta =>
      if SDB_OK =? result then om_insert key (remove_meta meta) _meta else _meta
  | None => _meta
  end.

Fixpoint cata_handleTimeout (millisec : Z) (_meta : callerMeta)
  : callerMeta * list (option cataMsg) :=
  match _meta with
  | [] => ([], [])
  | (key, meta) :: rest =>
      let '(rest', sent) := cata_handleTimeout millisec rest in
      if negb (CLS_CALLER_NO_SEND =? cm_timeout meta) then
        let t := i32 (cm_timeout meta + millisec) in
        if CLS_CALLER_INTERVAL <=? t
        then ((key, mkMeta (cm_header meta) 0 (cm_sendTimes meta)) :: rest',
              cm_header meta :: sent)
        else ((key, mkMeta (cm_header meta) t (cm_sendTimes meta)) :: rest', sent)
      else ((key, meta) :: rest', sent)
  end.

(** ** Routes *)

Definition MSG_ROUTE_SERVICE_TYPE_MAX : nat := 6.

(** [_host] and the names of the services. *)
Definition netAddr : Set := (string * list string)%type.
Definition noAddr : netAddr := ("", replicate MSG_ROUTE_SERVICE_TYPE_MAX "")%string.

Record netRouteNode : Set := mkNode {
  nd_addr : netAddr;
  nd_id : Z;
  nd_isActive : bool
}.

(** [columns.groupID], and a route id with service 0, on a little-endian
    machine. *)
Definition groupID (id : Z) : Z := u32 id.
Definition routeKey (id : Z) : Z := Z.land id (2 ^ 48 - 1).

Definition updateRoute (id : Z) (node : netRouteNode) (_route : list (Z * netAddr))
  : Z * list (Z * netAddr) :=
  let tmp := routeKey id in
  let update := default noAddr (om_find tmp _route) in
  (if bool_decide (update = nd_addr node) then SDB_NET_UPDATE_EXISTING_NODE else SDB_OK,
   om_insert tmp (nd_addr node) _route).

(** The map [group] of [msgParseCatGroupObj]: [insert] keeps the first node
    with an id. *)
Definition group_of (l : list netRouteNode) : list (Z * netRouteNode) :=
  foldl (fun group route =>
    match om_find (nd_id route) group with
    | Some _ => group
    | None => om_insert (nd_id route) route group
    end) [] l.

(** ** The set *)

Definition CLS_REELECTION_LEVEL_NONE : Z := 0.
Definition CLS_REELECTION_LEVEL_MAX : Z := 4.

(** [rs_vote] holds the group, [rs_routes] is the table of [_agent],
    [rs_level] the level of [_reelection], [rs_restart] the restart flag of
    [PMD_RESTART_DB]. *)
Record clsReplicateSet : Set := mkRS {
  rs_vote : clsVoteMachine;
  rs_sync : clsSyncManager;
  rs_cata : callerMeta;
  rs_routes : list (Z * netAddr);
  rs_level : Z;
  rs_beatTime : Z;
  rs_active : bool;
  rs_lastTimerTick : Z;
  rs_restart : bool
}.

Definition set_rs_vote (s : clsReplicateSet) v :=
  mkRS v (rs_sync s) (rs_cata s) (rs_routes s) (rs_level s) (rs_beatTime s) (rs_active s)
    (rs_lastTimerTick s) (rs_restart s).
Definition set_rs_sync (s : clsReplicateSet) m :=
  mkRS (rs_vote s) m (rs_cata s) (rs_routes s) (rs_level s) (rs_beatTime s) (rs_active s)
    (rs_lastTimerTick s) (rs_restart s).
Definition set_rs_cata (s : clsReplicateSet) c :=
  mkRS (rs_vote s) (rs_sync s) c (rs_routes s) (rs_level s) (rs_beatTime s) (rs_active s)
    (rs_lastTimerTick s) (rs_restart s).
Definition set_rs_routes (s : clsReplicateSet) r :=
  mkRS (rs_vote s) (rs_sync s) (rs_cata s) r (rs_level s) (rs_beatTime s) (rs_active s)
    (rs_lastTimerTick s) (rs_restart s).
Definition set_rs_level (s : clsReplicateSet) l :=
  mkRS (rs_vote s) (rs_sync s) (rs_cata s) (rs_routes s) l (rs_beatTime s) (rs_active s)
    (rs_lastTimerTick s) (rs_restart s).
Definition set_rs_beatTime (s : clsReplicateSet) t :=
  mkRS (rs_vote s) (rs_sync s) (rs_cata s) (rs_routes s) (rs_level s) t (rs_active s)
    (rs_lastTimerTick s) (rs_restart s).
Definition set_rs_active (s : clsReplicateSet) a :=
  mkRS (rs_vote s) (rs_sync s) (rs_cata s) (rs_routes s) (rs_level s) (rs_beatTime s) a
    (rs_lastTimerTick s) (rs_restart s).
Definition set_rs_tick (s : clsReplicateSet) t :=
  mkRS (rs_vote s) (rs_sync s) (rs_cata s) (rs_routes s) (rs_level s) (rs_beatTime s)
    (rs_active s) t (rs_restart s).
Definition set_rs_restart (s : clsReplicateSet) :=
  mkRS (rs_vote s) (rs_sync s) (rs_cata s) (rs_routes s) (rs_level s) (rs_beatTime s)
    (rs_active s) (rs_lastTimerTick s) true.

(** The one group information, and the manager that points to it. *)
Definition rs_info (s : clsReplicateSet) : clsGroupInfo := vm_group (rs_vote s).
Definition rs_mgr (s : clsReplicateSet) : clsSyncManager := set_info (rs_sync s) (rs_info s).

Inductive sendResult : Set :=
| SendOk
| SendRefused   (* CLS_CONNREFUSED *)
| SendFailed.

Record replEnv : Set := mkReplEnv {
  re_vote : voteEnv;
  re_fBegin : DPS_LSN;         (* _logger->getLsnWindow *)
  re_mBegin : DPS_LSN;
  re_dcOpen : bool;            (* data center activated and not read-only *)
  re_send : Z -> sendResult;   (* _agent->syncSend to a member *)
  re_malloc : bool;
  re_oks : Z -> bool;          (* allocations of updateNotifyList *)
  re_primaryByReply : bool     (* pShardCB->updatePrimaryByReply is SDB_OK *)
}.

Inductive replOut : Set :=
| OutVote (o : output)
| OutSync (o : syncOut)
| OutBeat (to : Z) (beat : clsGroupBeat)
| OutBeatRes (handle requestID identity : Z)
| OutCatalog (msg : option cataMsg)
| OutUpdateCatGroup
| OutStartSyncSession
| OutPostStepUp (seconds : Z)
| OutReelectionSignal.

(** ** Computations on the set *)

Definition replM (A : Type) : Type :=
  clsReplicateSet -> option (A * clsReplicateSet * list replOut).

#[export] Instance replM_ret : MRet replM := fun A a s => Some (a, s, []).
#[export] Instance replM_bind : MBind replM := fun A B f m s =>
  match m s with
  | Some (a, s1, o1) =>
      match f a s1 with
      | Some (b, s2, o2) => Some (b, s2, o1 ++ o2)
      | None => None
      end
  | None => None
  end.

Definition getRS : replM clsReplicateSet := fun s => Some (s, s, []).
Definition modRS (f : clsReplicateSet -> clsReplicateSet) : replM unit :=
  fun s => Some (tt, f s, []).
Definition emit (o : list replOut) : replM unit := fun s => Some (tt, s, o).

Definition getInfo : replM clsGroupInfo := fun s => Some (rs_info s, s, []).
Definition onVote (f : clsVoteMachine -> clsVoteMachine) : replM unit :=
  modRS (fun s => set_rs_vote s (f (rs_vote s))).
Definition onGroup (f : clsGroupInfo -> clsGroupInfo) : replM unit :=
  onVote (fun m => set_group m (f (vm_group m))).

(** A call of the sync manager. *)
Definition syncDo (f : clsSyncManager -> clsSyncManager * list syncOut) : replM unit :=
  fun s => let '(m, out) := f (rs_mgr s) in Some (tt, set_rs_sync s m, map OutSync out).

Definition cataDo (f : callerMeta -> callerMeta) : replM unit :=
  modRS (fun s => set_rs_cata s (f (rs_cata s))).

Definition cataCall (env : replEnv) (msg : cataMsg) (times : Z) : replM unit :=
  fun s =>
    let '(_, meta, sent) := cata_call (re_malloc env) msg times (rs_cata s) in
    Some (tt, set_rs_cata s meta, map (fun m => OutCatalog (Some m)) sent).

(** [_reelection.signal()] *)
Definition reelection_signal : replM unit :=
  fun s =>
    if negb (CLS_REELECTION_LEVEL_NONE =? rs_level s) && (rs_level s <? CLS_REELECTION_LEVEL_MAX)
    then Some (tt, set_rs_level s CLS_REELECTION_LEVEL_NONE, [OutReelectionSignal])
    else Some (tt, s, []).

Definition reelectionDone : replM unit :=
  _ ← onVote (fun m => setShadowWeight m CLS_ELECTION_WEIGHT_USR_MIN);
  reelection_signal.

(** [_clsMgr::ntyPrimaryChange] tells the set nothing while the node starts
    or its data center is closed to writes. *)
Definition notified (env : replEnv) : bool := startupIsOK (re_vote env) && re_dcOpen env.

(** [ntyPrimaryChange] of the set; the bucket of the replay of the log, which
    it resets before this member becomes primary, is not part of the set
    here. *)
Definition ntyPrimaryChange (primary before : bool) : replM unit :=
  if negb primary && negb before then syncDo (cut 0) else mret tt.

(** What a vote status does to the set while the vote machine runs. *)
Definition vote_effect (env : replEnv) (o : output) : replM unit :=
  match o with
  | NtyPrimaryChange primary before =>
      _ ← emit [OutVote o];
      if notified env then ntyPrimaryChange primary before else mret tt
  | ReelectionDone => reelectionDone
  | CallCatalog newPrimary oldPrimary times =>
      cataCall env (MsgCatPrimaryChange newPrimary oldPrimary) times
  | SendBallot _ _ _ | SendBallotRes _ _ _ => emit [OutVote o]
  end.

Fixpoint vote_effects (env : replEnv) (out : list output) : replM unit :=
  match out with
  | [] => mret tt
  | o :: out' => _ ← vote_effect env o; vote_effects env out'
  end.

(** A call of the vote machine. *)
Definition voteDo (env : replEnv) (f : clsVoteMachine -> option (clsVoteMachine * list output))
  : replM unit :=
  fun s =>
    match f (rs_vote s) with
    | Some (m, out) => vote_effects env out (set_rs_vote s m)
    | None => None
    end.

Definition vote_force (env : replEnv) (id : CLS_ELECTION_STATUS) (millis : Z) : replM unit :=
  voteDo env (voteMachine_force (re_vote env) id millis).

(** ** Members *)

Definition om_alter {V} (k : Z) (f : V -> V) (m : list (Z * V)) : list (Z * V) :=
  map (fun '(k', v) => if k =? k' then (k', f v) else (k', v)) m.

(** [alives.insert] on the ordered keys. *)
Fixpoint key_insert (k : Z) (l : list Z) : list Z :=
  match l with
  | [] => [k]
  | k' :: l' => if k =? k' then l else if k <? k' then k :: l else k' :: key_insert k l'
  end.

Definition key_erase (k : Z) (l : list Z) : list Z := List.filter (fun k' => negb (k =? k')) l.

Definition with_info (g : clsGroupInfo) i :=
  mkGroup i (gi_alives g) (gi_primary g) (gi_local g) (gi_localBeatID g) (gi_version g)
    (gi_hashCode g).
Definition with_alives (g : clsGroupInfo) a :=
  mkGroup (gi_info g) a (gi_primary g) (gi_local g) (gi_localBeatID g) (gi_version g)
    (gi_hashCode g).
Definition with_local (g : clsGroupInfo) l :=
  mkGroup (gi_info g) (gi_alives g) (gi_primary g) l (gi_localBeatID g) (gi_version g)
    (gi_hashCode g).
Definition with_beatID (g : clsGroupInfo) b :=
  mkGroup (gi_info g) (gi_alives g) (gi_primary g) (gi_local g) b (gi_version g) (gi_hashCode g).
Definition with_version (g : clsGroupInfo) v :=
  mkGroup (gi_info g) (gi_alives g) (gi_primary g) (gi_local g) (gi_localBeatID g) v
    (gi_hashCode g).
(** [setHashCode] *)
Definition setHashCode (g : clsGroupInfo) h :=
  mkGroup (gi_info g) (gi_alives g) (gi_primary g) (gi_local g) (gi_localBeatID g) (gi_version g)
    h.

Definition alter_node (id : Z) (f : clsSharingStatus -> clsSharingStatus) (g : clsGroupInfo) :=
  with_info g (om_alter id f (gi_info g)).

Definition reset_times (s : clsSharingStatus) : clsSharingStatus := mkSharing (sh_beat s) 0 0 0 0.
Definition set_beat (b : clsGroupBeat) (s : clsSharingStatus) : clsSharingStatus :=
  mkSharing b (sh_timeout s) (sh_breakTime s) (sh_deadtime s) (sh_sendFailedTimes s).
Definition add_timeout (ms : Z) (s : clsSharingStatus) : clsSharingStatus :=
  mkSharing (sh_beat s) (u32 (sh_timeout s + ms)) (sh_breakTime s) (sh_deadtime s)
    (sh_sendFailedTimes s).
Definition add_breakTime (ms : Z) (s : clsSharingStatus) : clsSharingStatus :=
  mkSharing (sh_beat s) (sh_timeout s) (u32 (sh_breakTime s + ms)) (sh_deadtime s)
    (sh_sendFailedTimes s).

Definition _alive (id : Z) : replM Z :=
  g ← getInfo;
  match om_find id (gi_info g) with
  | None => mret SDB_REPL_INVALID_GROUP_MEMBER
  | Some status =>
      _ ← (if bool_decide (id ∈ gi_alives g) then mret tt
           else
             _ ← onGroup (fun g => with_alives g (key_insert id (gi_alives g)));
             syncDo (fun m => (updateNodeStatus (beat_identity (sh_beat status)) true m, [])));
      _ ← onGroup (alter_node id reset_times);
      mret SDB_OK
  end.

(** [aliveNode]; [lock] is the outcome of [lock_r( 100 )]. *)
Definition aliveNode (lock : Z) (id : Z) : replM Z :=
  g ← getInfo;
  if SDB_OK =? lock then
    if bool_decide (id ∈ gi_alives g) then
      _ ← onGroup (alter_node id reset_times);
      mret SDB_OK
    else mret SDB_CLS_NODE_BSFAULT
  else mret lock.

(** ** Detecting silent members *)

Definition timeoutOf (g : clsGroupInfo) (id : Z) : Z :=
  match om_find id (gi_info g) with Some s => sh_timeout s | None => 0 end.

(** The loop over [alives] that counts the time. *)
Definition tick_alives (millisec : Z) (g : clsGroupInfo) : clsGroupInfo :=
  foldl (fun g id => alter_node id (add_timeout millisec) g) g (gi_alives g).

(** The loop over [info] for the members that are not alive. *)
Definition tick_dead (millisec : Z) (g : clsGroupInfo) : clsGroupInfo :=
  with_info g (map (fun '(id, s) =>
    if bool_decide (id ∈ gi_alives g) then (id, s) else (id, add_breakTime millisec s))
    (gi_info g)).

Definition break_beat (b : clsGroupBeat) : clsGroupBeat :=
  mkBeat (beat_endLsn b) (beat_identity b) (beat_weight b) (beat_hashCode b) (beat_version b)
    (beat_role b) (beat_syncStatus b) CLS_BEATID_INVALID SERVICE_UNKNOWN.

Definition break_node (s : clsSharingStatus) : clsSharingStatus := set_beat (break_beat (sh_beat s)) s.

Definition break_member (id : Z) (g : clsGroupInfo) : clsGroupInfo :=
  let g := if id =? gi_primary g then with_primary g MSG_INVALID_ROUTEID else g in
  alter_node id break_node g.

Definition erase_alive (id : Z) (g : clsGroupInfo) : clsGroupInfo :=
  with_alives g (key_erase id (gi_alives g)).

Fixpoint break_loop (breakTime : Z) (itr : list Z) : replM unit :=
  match itr with
  | [] => mret tt
  | id :: rest =>
      g ← getInfo;
      _ ← (if breakTime <=? timeoutOf g id then
             _ ← onGroup (break_member id);
             _ ← match om_find id (gi_info g) with
                 | Some s =>
                     syncDo (fun m => (updateNodeStatus (beat_identity (sh_beat s)) false m, []))
                 | None => mret tt
                 end;
             onGroup (erase_alive id)
           else mret tt);
      break_loop breakTime rest
  end.

Definition _checkBreak (env : replEnv) (millisec : Z) : replM unit :=
  let breakTime := sharingBreakTime (re_vote env) in
  _ ← onGroup (tick_alives millisec);
  g ← getInfo;
  let needErase := existsb (fun id => breakTime <=? timeoutOf g id) (gi_alives g) in
  _ ← onGroup (tick_dead millisec);
  if negb needErase then mret tt
  else
    _ ← break_loop breakTime (gi_alives g);
    s ← getRS;
    if primaryIsMe (rs_vote s) then syncDo (cut (length (gi_alives (rs_info s)))) else mret tt.

(** ** Sending heartbeats *)

Definition clsSyncWindow (remoteLsn fileBeginLsn memBeginLsn endLsn : DPS_LSN) : CLS_SYNC_STATUS :=
  let frc := lsn_compare fileBeginLsn remoteLsn in
  let mrc := lsn_compare memBeginLsn remoteLsn in
  let erc := lsn_compare endLsn remoteLsn in
  if 0 <? frc then CLS_SYNC_STATUS_NONE
  else if (frc <=? 0) && (0 <? mrc) then CLS_SYNC_STATUS_RC
  else if (mrc <=? 0) && (0 <? erc) then CLS_SYNC_STATUS_PEER
  else if 0 =? erc then CLS_SYNC_STATUS_PEER
  else CLS_SYNC_STATUS_NONE.

(** The beat of this member, to a member whose log ends at [remoteLsn]. *)
Definition own_beat (env : replEnv) (m : clsVoteMachine) (beatID : Z) (remoteLsn : DPS_LSN)
  : clsGroupBeat :=
  let g := vm_group m in
  let venv := re_vote env in
  mkBeat (expectLsn venv) (gi_local g) (CLS_GET_WEIGHT (optWeight venv) (vm_shadowWeight m))
    (gi_hashCode g) (gi_version g)
    (if primaryIsMe m then CLS_GROUP_ROLE_PRIMARY else CLS_GROUP_ROLE_SECONDARY)
    (clsSyncWindow remoteLsn (re_fBegin env) (re_mBegin env) (expectLsn venv))
    beatID (if startupIsOK venv then SERVICE_NORMAL else SERVICE_ABNORMAL).

Definition set_dead (dead failed : Z) (s : clsSharingStatus) : clsSharingStatus :=
  mkSharing (sh_beat s) (sh_timeout s) (sh_breakTime s) dead failed.

(** The body of the loop of [_sharingBeat] for one member. *)
Definition beat_node (env : replEnv) (beatTime : Z) (alive : bool) (mkMsg : DPS_LSN -> clsGroupBeat)
  (s : clsSharingStatus) : clsSharingStatus * list replOut :=
  let breakTime := sharingBreakTime (re_vote env) in
  if (breakTime <=? sh_deadtime s) && (beatTime <=? sh_deadtime s)
  then (set_dead (sh_deadtime s - beatTime) (sh_sendFailedTimes s) s, [])
  else
    let to := beat_identity (sh_beat s) in
    let out := [OutBeat to (mkMsg (beat_endLsn (sh_beat s)))] in
    match re_send env to with
    | SendOk => (set_dead (sh_deadtime s) 0 s, out)
    | r =>
        let refused := match r with SendRefused => true | _ => false end in
        let failed := if refused then u32 (sh_sendFailedTimes s + 1) else sh_sendFailedTimes s in
        let dead :=
          if alive then sh_deadtime s
          else u32 (u32 (breakTime - 1) + (if refused then 1800 else 120) * OSS_ONE_SEC) in
        (set_dead dead failed s, out)
    end.

Definition _sharingBeat (env : replEnv) : replM unit :=
  s ← getRS;
  match gi_info (rs_info s) with
  | [] => mret tt
  | _ =>
      let beatID := nextBeatID (rs_info s) in
      let mkMsg := own_beat env (rs_vote s) beatID in
      let beat '(id, st) :=
        beat_node env (rs_beatTime s) (bool_decide (id ∈ gi_alives (rs_info s))) mkMsg st in
      _ ← onGroup (fun g => with_info (with_beatID g beatID)
            (map (fun kv => (kv.1, (beat kv).1)) (gi_info g)));
      emit (flat_map (fun kv => (beat kv).2) (gi_info (rs_info s)))
  end.

(** ** Receiving heartbeats *)

(** The sender says it is the primary.  The member that is primary itself
    gives way to one whose log is not behind its own. *)
Definition beat_of_primary (env : replEnv) (beat : clsGroupBeat) : replM unit :=
  let id := beat_identity beat in
  _ ← onVote (fun m => set_shift m (-1));
  s ← getRS;
  _ ← (if primaryIsMe (rs_vote s) then
         if 0 <? lsn_compare (expectLsn (re_vote env)) (beat_endLsn beat) then mret tt
         else
           _ ← onGroup (fun g => with_primary g id);
           vote_force env CLS_ELECTION_STATUS_SILENCE 0
       else if negb (gi_primary (rs_info s) =? id) then
         _ ← cataDo (cata_remove MSG_CAT_PAIMARY_CHANGE_RES);
         _ ← vote_force env CLS_ELECTION_STATUS_SILENCE 0;
         onGroup (fun g => with_primary g id)
       else mret tt);
  s ← getRS;
  if negb (CLS_ELECTION_WEIGHT_USR_MIN =? vm_shadowWeight (rs_vote s))
  then reelectionDone else mret tt.

(** The sender says it is not the primary. *)
Definition beat_of_secondary (beat : clsGroupBeat) : replM unit :=
  g ← getInfo;
  if gi_primary g =? beat_identity beat then
    _ ← cataDo (cata_remove MSG_CAT_PAIMARY_CHANGE_RES);
    onGroup (fun g => with_primary g MSG_INVALID_ROUTEID)
  else mret tt.

Definition _handleSharingBeat (env : replEnv) (handle requestID : Z) (beat : clsGroupBeat)
  : replM Z :=
  g ← getInfo;
  let id := beat_identity beat in
  let member := bool_decide (is_Some (om_find id (gi_info g))) in
  if negb (beat_hashCode beat =? gi_hashCode g) ||
     (negb member && (beat_version beat <=? gi_version g))
  then mret SDB_REPL_INVALID_GROUP_MEMBER
  else
    rc ← (if gi_version g <? beat_version beat then
            _ ← cataCall env (MsgCatGroupReq (gi_local g)) 1;
            mret SDB_REPL_LOCAL_G_V_EXPIRED
          else if member then
            _ ← onGroup (alter_node id (set_beat beat));
            _ ← (if bool_decide (beat_role beat = CLS_GROUP_ROLE_PRIMARY)
                 then beat_of_primary env beat else beat_of_secondary beat);
            mret SDB_OK
          else mret SDB_OK);
    _ ← _alive id;
    _ ← emit [OutBeatRes handle requestID (gi_local g)];
    mret rc.

Definition _handleSharingBeatRes (identity : Z) : replM Z := _alive identity.

(** ** The members the catalog names *)

Definition newBeat : clsGroupBeat :=
  mkBeat (mkLSN DPS_INVALID_LSN_OFFSET DPS_INVALID_LSN_VERSION) 0 0 0 0
    CLS_GROUP_ROLE_SECONDARY CLS_SYNC_STATUS_NONE CLS_BEATID_INVALID SERVICE_UNKNOWN.
Definition newSharing : clsSharingStatus := mkSharing newBeat 0 0 0 0.

Definition name_node (id : Z) (s : clsSharingStatus) : clsSharingStatus :=
  let b := sh_beat s in
  set_beat (mkBeat (beat_endLsn b) id (beat_weight b) (beat_hashCode b) (beat_version b)
              (beat_role b) (beat_syncStatus b) 0 (beat_serviceStatus b)) s.

(** [_info.info[ key ]], then identity and beat number are set. *)
Definition add_member (key id : Z) (g : clsGroupInfo) : clsGroupInfo :=
  match om_find key (gi_info g) with
  | Some s => alter_node key (name_node id) g
  | None => with_info g (om_insert key (name_node id newSharing) (gi_info g))
  end.

(** [_agent->updateRoute] *)
Definition agent_updateRoute (id : Z) (node : netRouteNode) : replM Z :=
  fun s =>
    let '(rc, routes) := updateRoute id node (rs_routes s) in
    Some (rc, set_rs_routes s routes, []).

(** The loop over [nodes]: [hasLocal], [changeStatus] and the nodes with
    their activity as the loop leaves it. *)
Fixpoint setGroup_loop (nodes : list (Z * netRouteNode))
  : replM (bool * bool * list (Z * netRouteNode)) :=
  match nodes with
  | [] => mret (false, false, [])
  | (key, node) :: rest =>
      s ← getRS;
      if key =? gi_local (rs_info s) then
        '(_, changed, rest') ← setGroup_loop rest;
        mret (true, changed, (key, node) :: rest')
      else if negb (nd_isActive node) && (vm_shift (rs_vote s) <? 0) then
        '(hasLocal, changed, rest') ← setGroup_loop rest;
        mret (hasLocal, changed, (key, node) :: rest')
      else
        let node' := mkNode (nd_addr node) (nd_id node) true in
        rc ← agent_updateRoute (nd_id node) node';
        _ ← (if SDB_OK =? rc then
               _ ← onGroup (add_member key (nd_id node));
               _ ← _alive (nd_id node);
               mret tt
             else mret tt);
        '(hasLocal, changed, rest') ← setGroup_loop rest;
        mret (hasLocal, negb (nd_isActive node) || changed, (key, node') :: rest')
  end.

Definition erase_member (key : Z) (g : clsGroupInfo) : clsGroupInfo :=
  let g := if key =? gi_primary g then with_primary g 0 else g in
  with_info (with_alives g (key_erase key (gi_alives g))) (om_erase key (gi_info g)).

(** The loop over [info] that erases who is no member any more. *)
Definition erase_members (nodes : list (Z * netRouteNode)) (g : clsGroupInfo) : clsGroupInfo :=
  foldl (fun g '(key, _) =>
    match om_find key nodes with
    | Some node => if nd_isActive node then g else erase_member key g
    | None => erase_member key g
    end) g (gi_info g).

Definition sync_updateNotifyList (env : replEnv) : replM unit :=
  fun s =>
    match updateNotifyList (re_oks env) true (rs_mgr s) with
    | Some (_, m, out) => Some (tt, set_rs_sync s m, map OutSync out)
    | None => None
    end.

(** The code and [changeStatus]. *)
Definition _setGroupSet (env : replEnv) (version : Z) (nodes : list (Z * netRouteNode))
  : replM (Z * bool) :=
  g ← getInfo;
  if version <=? gi_version g then mret (SDB_REPL_REMOTE_G_V_EXPIRED, false)
  else if CLS_REPLSET_MAX_NODE_SIZE <? Z.of_nat (length nodes)
  then mret (SDB_CLS_INVALID_GROUP_NUM, false)
  else
    _ ← onGroup (fun g => with_version g version);
    let spare := SPARE_GROUPID =? groupID (gi_local g) in
    '(hasLocal, changed, nodes') ← setGroup_loop (if spare then [] else nodes);
    if negb (spare || hasLocal) then
      _ ← modRS set_rs_restart;
      mret (SDB_OK, changed)
    else
      _ ← onGroup (erase_members nodes');
      _ ← sync_updateNotifyList env;
      mret (SDB_OK, changed).

Definition _handleGroupRes (env : replEnv) (result : Z)
  (parsed : Z + (Z * list netRouteNode * Z)) : replM Z :=
  if negb (SDB_OK =? result) then
    _ ← (if (SDB_CLS_NOT_PRIMARY =? result) && negb (re_primaryByReply env)
         then emit [OutUpdateCatGroup] else mret tt);
    mret SDB_OK
  else
    match parsed with
    | inl rc => mret rc
    | inr (version, nodes, grpHashCode) =>
        '(rc, changeStatus) ← _setGroupSet env version (group_of nodes);
        if negb (SDB_OK =? rc) && negb (SDB_REPL_REMOTE_G_V_EXPIRED =? rc) then mret rc
        else
          _ ← onGroup (fun g => setHashCode g grpHashCode);
          _ ← (if negb changeStatus then
                 cataDo (cata_remove_reply MSG_CAT_GRP_RES result)
               else mret tt);
          s ← getRS;
          if rs_active s then mret SDB_OK
          else
            _ ← emit [OutStartSyncSession];
            _ ← modRS (fun s => set_rs_active s true);
            _ ← voteDo env (fun m =>
                  match voteMachine_init (re_vote env) (re_malloc env) m with
                  | Some (_, m', out) => Some (m', out)
                  | None => None
                  end);
            mret SDB_OK
    end.

(** ** Timer, messages and events *)

Definition pmdGetTickSpanTime (lastTick curTick : Z) : Z :=
  if lastTick <? curTick then (curTick - lastTick) * PMD_SYNC_CLOCK_INTERVAL else 0.

(** [onTimer]; [mine] tells whether the timer is the set's. *)
Definition onTimer (env : replEnv) (mine : bool) (curTick interval : Z) : replM unit :=
  if negb mine then mret tt
  else
    s ← getRS;
    if pmdGetTickSpanTime (rs_lastTimerTick s) curTick <? interval / 2 then mret tt
    else
      _ ← modRS (fun s => set_rs_tick s curTick);
      let '(meta, sent) := cata_handleTimeout interval (rs_cata s) in
      _ ← cataDo (fun _ => meta);
      _ ← emit (map OutCatalog sent);
      if negb (rs_active s) then mret tt
      else
        _ ← modRS (fun s => set_rs_beatTime s (u32 (rs_beatTime s + interval)));
        s ← getRS;
        _ ← (if CLS_SHARING_BETA_INTERVAL <=? rs_beatTime s then
               _ ← _sharingBeat env;
               modRS (fun s => set_rs_beatTime s 0)
             else mret tt);
        _ ← _checkBreak env interval;
        _ ← voteDo env (voteMachine_handleTimeout (re_vote env) interval);
        syncDo (sync_handleTimeout interval).

(** [setLocalID] and [active]; [id] is [_clsCB->getNodeID()] with the service
    of replication. *)
Definition active (env : replEnv) (id : Z) : replM Z :=
  s ← getRS;
  if rs_active s then mret SDB_OK
  else
    _ ← onGroup (fun g => with_local g id);
    _ ← cataCall env (MsgCatGroupReq id) 1;
    mret SDB_OK.

Inductive replMsg : Set :=
| MsgGroupRes (result : Z) (parsed : Z + (Z * list netRouteNode * Z))
| MsgBeat (requestID : Z) (beat : clsGroupBeat)
| MsgPrimaryChangeRes (result : Z)
| MsgBeatRes (identity : Z)
| MsgBallot (msg : electionMsg)
| MsgGInfoUpdated
| MsgNodeStatusNotify (routeID : Z) (fullSync : bool)
| MsgUnknown.

(** [CLS_REPL_ACTIVE_CHECK] *)
Definition when_active (m : replM Z) : replM Z :=
  s ← getRS;
  if rs_active s then m else mret SDB_REPL_GROUP_NOT_ACTIVE.

Definition vote_handleMsg (env : replEnv) (msg : electionMsg) : replM Z :=
  fun s =>
    match voteMachine_handleInput (re_vote env) msg (rs_vote s) with
    | Some (rc, m, out) =>
        match vote_effects env out (set_rs_vote s m) with
        | Some (_, s', o) => Some (rc, s', o)
        | None => None
        end
    | None => None
    end.

Definition handleMsg (env : replEnv) (handle : Z) (msg : replMsg) : replM Z :=
  match msg with
  | MsgGroupRes result parsed => _handleGroupRes env result parsed
  | MsgBeat requestID beat => when_active (_handleSharingBeat env handle requestID beat)
  | MsgPrimaryChangeRes result =>
      _ ← (if SDB_CLS_NOT_PRIMARY =? result then
             if re_primaryByReply env then mret tt else emit [OutUpdateCatGroup]
           else if SDB_OK =? result
           then cataDo (cata_remove_reply MSG_CAT_PAIMARY_CHANGE_RES result)
           else mret tt);
      mret SDB_OK
  | MsgBeatRes identity => when_active (_handleSharingBeatRes identity)
  | MsgBallot msg => when_active (vote_handleMsg env msg)
  | MsgGInfoUpdated =>
      g ← getInfo;
      _ ← cataCall env (MsgCatGroupReq (gi_local g)) 1;
      mret SDB_OK
  | MsgNodeStatusNotify routeID fullSync =>
      _ ← (if fullSync then syncDo (fun m => (notifyFullSync routeID m, [])) else mret tt);
      mret SDB_OK
  | MsgUnknown => mret SDB_CLS_UNKNOW_MSG
  end.

Definition _handleStepDown (env : replEnv) : replM Z :=
  _ ← onVote (fun m => setShadowWeight m CLS_ELECTION_WEIGHT_MIN);
  _ ← vote_force env CLS_ELECTION_STATUS_SEC 0;
  mret SDB_OK.

Definition _handleStepUp (env : replEnv) (seconds : Z) : replM Z :=
  _ ← vote_force env CLS_ELECTION_STATUS_PRIMARY (u32 (seconds * 1000));
  mret SDB_OK.

Inductive eduEvent : Set :=
| PMD_EDU_EVENT_STEP_DOWN
| PMD_EDU_EVENT_STEP_UP (userData : Z)
| PMD_EDU_EVENT_OTHER.

Definition handleEvent (env : replEnv) (event : eduEvent) : replM Z :=
  match event with
  | PMD_EDU_EVENT_STEP_DOWN => _handleStepDown env
  | PMD_EDU_EVENT_STEP_UP userData => _handleStepUp env userData
  | PMD_EDU_EVENT_OTHER => mret SDB_SYS
  end.

Definition stepUp (env : replEnv) (seconds post : Z) : replM Z :=
  s ← getRS;
  if negb (MSG_INVALID_ROUTEID =? gi_primary (rs_info s)) then mret SDB_CLS_CAN_NOT_STEP_UP
  else if negb (rs_active s) then mret SDB_CLS_NODE_INFO_EXPIRED
  else if atLeastOne (lsn_offset (expectLsn (re_vote env))) (rs_mgr s)
  then mret SDB_CLS_CAN_NOT_STEP_UP
  else
    _ ← emit (if SDB_OK =? post then [OutPostStepUp seconds] else []);
    mret post.

(** ** Readers *)

Definition ailves (s : clsReplicateSet) : Z := aliveSize (rs_info s).
Definition getBoth (s : clsReplicateSet) : Z * Z := (groupSize (rs_info s), aliveSize (rs_info s)).
Definition isAlive (node : Z) (s : clsReplicateSet) : bool :=
  bool_decide (node ∈ gi_alives (rs_info s)).
Definition getPrimary (s : clsReplicateSet) : Z := gi_primary (rs_info s).
Definition getPrimaryInfo (s : clsReplicateSet) : option clsSharingStatus :=
  om_find (gi_primary (rs_info s)) (gi_info (rs_info s)).
Definition getNodeSendFailedTimes (nodeID : Z) (g : clsGroupInfo) : Z :=
  match om_find nodeID (gi_info g) with Some s => sh_sendFailedTimes s | None => u32 (-1) end.
Definition isSendNormal (nodeID : Z) (s : clsReplicateSet) : bool :=
  getNodeSendFailedTimes nodeID (rs_info s) =? 0.
