(* ===== verification/ReplSetFacts.v ===== *)
(** * Facts about the replicate set's computations

    Rules for [replM], the maps of the group information, and what calls of
    the vote machine and of the sync manager leave alone. *)

From stdpp Require Import base list strings gmap.
From Stdlib Require Import ZArith Lia.
From S2P Require Import Prelude.
From S2P Require Import DpsLsn Vote VoteFacts.
From S2P Require Import SyncHeap SyncHeapFacts.
From S2P Require Import Sync SyncFacts SyncRun SyncMembers.
From S2P Require Import ReplSet.

Open Scope Z_scope.

(** ** Rules for the monad *)

Section rules.
Context {A B : Type}.
Implicit Types (s : clsReplicateSet) (f : A -> replM B).

Lemma repl_bind_Some (m : replM A) f s r :
  (m ≫= f) s = Some r ->
  exists a s1 o1 o2, m s = Some (a, s1, o1) /\ f a s1 = Some (r.1.1, r.1.2, o2) /\ r.2 = o1 ++ o2.
Proof.
  unfold mbind, replM_bind. destruct (m s) as [[[a s1] o1]|]; [|done].
  destruct (f a s1) as [[[b s2] o2]|] eqn:H; [|done]. intros [= <-].
  exists a, s1, o1, o2. simpl. by split_and!.
Qed.

Lemma bind_quiet (m : replM A) f s a s1 : m s = Some (a, s1, []) -> (m ≫= f) s = f a s1.
Proof.
  intros H. unfold mbind, replM_bind. rewrite H. by destruct (f a s1) as [[[b s2] o2]|].
Qed.
End rules.

Section quiet_rules.
Context {B : Type}.
Implicit Types (s : clsReplicateSet).

Lemma bind_mret {A} (a : A) (k : A -> replM B) s : (mret a ≫= k) s = k a s.
Proof. by apply bind_quiet. Qed.
Lemma bind_getRS (k : clsReplicateSet -> replM B) s : (getRS ≫= k) s = k s s.
Proof. by apply bind_quiet. Qed.
Lemma bind_getInfo (k : clsGroupInfo -> replM B) s : (getInfo ≫= k) s = k (rs_info s) s.
Proof. by apply bind_quiet. Qed.
Lemma bind_modRS g (k : unit -> replM B) s : (modRS g ≫= k) s = k tt (g s).
Proof. by apply bind_quiet. Qed.
Lemma bind_cataDo g (k : unit -> replM B) s :
  (cataDo g ≫= k) s = k tt (set_rs_cata s (g (rs_cata s))).
Proof. by apply bind_quiet. Qed.
Lemma bind_onVote g (k : unit -> replM B) s :
  (onVote g ≫= k) s = k tt (set_rs_vote s (g (rs_vote s))).
Proof. by apply bind_quiet. Qed.
Lemma bind_onGroup g (k : unit -> replM B) s :
  (onGroup g ≫= k) s
  = k tt (set_rs_vote s (set_group (rs_vote s) (g (rs_info s)))).
Proof. by apply bind_quiet. Qed.
End quiet_rules.

Create Rewrite HintDb repl.
#[export] Hint Rewrite @bind_mret @bind_getRS @bind_getInfo @bind_modRS @bind_cataDo @bind_onVote
  @bind_onGroup : repl.

(** Runs the quiet steps at the head of a computation in [H]. *)
Ltac repl_run H := autorewrite with repl in H; cbn beta iota zeta in H.

(** Splits a computation in [H] that does something else first. *)
Ltac repl_split H a s1 H1 :=
  let o1 := fresh "o" in let o2 := fresh "o" in
  apply repl_bind_Some in H as (a & s1 & o1 & o2 & H1 & H & _); cbn [fst snd] in H.

(** ** Maps of members *)

Section maps.
Context {V : Type}.
Implicit Types (m : list (Z * V)) (f : V -> V).

Lemma om_find_alter k k' f m :
  om_find k' (om_alter k f m) = if k =? k' then f <$> om_find k' m else om_find k' m.
Proof.
  induction m as [|[k1 v] m IH]; simpl; [by destruct (k =? k')|].
  destruct (Z.eqb_spec k k1) as [->|Hk]; simpl.
  - destruct (Z.eqb_spec k' k1) as [->|Hk']; [by rewrite Z.eqb_refl|].
    destruct (Z.eqb_spec k1 k'); [congruence|]. rewrite IH.
    destruct (Z.eqb_spec k1 k'); [congruence|done].
  - destruct (Z.eqb_spec k' k1) as [->|Hk']; [by destruct (Z.eqb_spec k k1)|done].
Qed.

Lemma om_alter_keys k f m : map fst (om_alter k f m) = map fst m.
Proof.
  induction m as [|[k1 v] m IH]; simpl; [done|]. rewrite IH. by destruct (k =? k1).
Qed.

Lemma om_find_map (f : Z * V -> V) k m :
  om_find k (map (fun kv => (kv.1, f kv)) m) = (fun v => f (k, v)) <$> om_find k m.
Proof.
  induction m as [|[k1 v] m IH]; simpl; [done|]. by destruct (Z.eqb_spec k k1) as [->|].
Qed.

Lemma om_find_keys k m : is_Some (om_find k m) <-> k ∈ map fst m.
Proof.
  induction m as [|[k1 v] m IH]; simpl.
  - split; [by intros [? ?]|by intros ?%not_elem_of_nil].
  - rewrite elem_of_cons. destruct (Z.eqb_spec k k1) as [->|Hk].
    + split; [by left|by intros _; eexists].
    + rewrite IH. split; [by right|]. by intros [->|?].
Qed.

(** Sortedness of keys only depends on the keys. *)
Lemma om_sorted_keys m m' : map fst m = map fst m' -> om_sorted m -> om_sorted m'.
Proof. unfold om_sorted. intros H. by change (m'.*1) with (map fst m'); rewrite <- H. Qed.
End maps.

Lemma key_insert_elem k l x : x ∈ key_insert k l <-> x = k \/ x ∈ l.
Proof.
  induction l as [|k' l IH]; simpl; [set_solver|].
  destruct (Z.eqb_spec k k') as [->|]; [set_solver|].
  destruct (k <? k'); set_solver.
Qed.

Lemma key_insert_perm k l : k ∉ l -> key_insert k l ≡ₚ k :: l.
Proof.
  induction l as [|k' l IH]; simpl; [done|]. intros H.
  destruct (Z.eqb_spec k k') as [->|]; [set_solver|].
  destruct (k <? k'); [done|]. rewrite IH by set_solver. apply Permutation_swap.
Qed.

Lemma key_erase_elem k l x : x ∈ key_erase k l <-> x <> k /\ x ∈ l.
Proof.
  unfold key_erase. rewrite list_elem_of_In, List.filter_In, <- list_elem_of_In.
  destruct (Z.eqb_spec k x) as [->|]; simpl; split; intros; naive_solver.
Qed.

Lemma key_erase_NoDup k l : NoDup l -> NoDup (key_erase k l).
Proof. intros H. unfold key_erase. apply NoDup_ListNoDup, List.NoDup_filter, NoDup_ListNoDup, H. Qed.

Lemma key_erase_perm k l : NoDup l -> k ∈ l -> l ≡ₚ k :: key_erase k l.
Proof.
  intros Hn Hk. apply NoDup_Permutation; [done| |].
  - constructor; [rewrite key_erase_elem; by intros [? ?]|by apply key_erase_NoDup].
  - intros x. rewrite elem_of_cons, key_erase_elem. destruct (decide (x = k)) as [->|]; naive_solver.
Qed.

(** ** What the vote machine does to the group *)

Abbreviation PRIMARY := CLS_ELECTION_STATUS_PRIMARY.

(** The group of [m'] is that of [m] up to the primary, which is as before,
    this member, or nobody. *)
Definition same_members (g g' : clsGroupInfo) : Prop :=
  g' = with_primary g (gi_primary g') /\
  (gi_primary g' = gi_primary g \/ gi_primary g' = gi_local g \/ gi_primary g' = MSG_INVALID_ROUTEID).

Lemma same_members_refl g : same_members g g.
Proof. split; [by destruct g|by left]. Qed.

Lemma same_members_trans g1 g2 g3 : same_members g1 g2 -> same_members g2 g3 -> same_members g1 g3.
Proof.
  intros [-> H1] [-> H2]. simpl in *. split; [done|].
  destruct H2 as [-> | [-> | ->]]; [exact H1|by right; left|by right; right].
Qed.

Lemma same_members_local g g' : same_members g g' -> gi_local g' = gi_local g.
Proof. intros [H _]. by rewrite H. Qed.

(** The flag follows the status [cur]; out of the primary status somebody
    else, or nobody, is the primary. *)
Definition role_weak (cur : option CLS_ELECTION_STATUS) (m : clsVoteMachine) : Prop :=
  (vm_pmdPrimary m = true <-> cur = Some PRIMARY) /\
  (cur <> Some PRIMARY -> gi_primary (vm_group m) <> gi_local (vm_group m)).

Definition role_full (cur : option CLS_ELECTION_STATUS) (m : clsVoteMachine) : Prop :=
  role_weak cur m /\ (cur = Some PRIMARY -> gi_primary (vm_group m) = gi_local (vm_group m)).

Definition roles (m : clsVoteMachine) : Prop := role_full (vm_current m) m.

Lemma deactive_members s m : same_members (vm_group m) (vm_group (status_deactive s m).1).
Proof.
  destruct s; try apply same_members_refl. simpl.
  destruct (_ =? _); [|apply same_members_refl]. split; [done|by right; right].
Qed.

Lemma active_members env s m : same_members (vm_group m) (vm_group (status_active env s m).1.1).
Proof.
  destruct s; simpl; unfold silence_active, secondary_active, vote_active, announce_active;
    repeat (match goal with |- context [if ?c then _ else _] => destruct c end);
    try apply same_members_refl.
  split; [done|by right; left].
Qed.

Definition leave_from (prev : option CLS_ELECTION_STATUS) (m : clsVoteMachine)
  : clsVoteMachine * list output :=
  match prev with Some s => status_deactive s m | None => (m, []) end.

Lemma leave_members prev m : same_members (vm_group m) (vm_group (leave_from prev m).1).
Proof. destruct prev; [apply deactive_members|apply same_members_refl]. Qed.

Lemma leave_role prev m : gi_local (vm_group m) <> MSG_INVALID_ROUTEID -> role_weak prev m ->
  vm_pmdPrimary (leave_from prev m).1 = false /\
  gi_primary (vm_group (leave_from prev m).1) <> gi_local (vm_group m).
Proof.
  intros Hl [Hp Hw].
  assert (prev <> Some PRIMARY -> vm_pmdPrimary m = false) as Hf.
  { intros Hne. destruct (vm_pmdPrimary m); [|done]. by destruct Hne; apply Hp. }
  destruct prev as [[]|]; simpl; try (split; [by apply Hf|by apply Hw]).
  split; [done|]. destruct (Z.eqb_spec (gi_local (vm_group m)) (gi_primary (vm_group m))); simpl; congruence.
Qed.

Lemma enter_role env s m : vm_pmdPrimary m = false ->
  gi_primary (vm_group m) <> gi_local (vm_group m) -> role_full (Some s) (status_active env s m).1.1.
Proof.
  intros Hf Hp. destruct s; simpl; unfold silence_active, secondary_active, vote_active, announce_active;
    repeat (match goal with |- context [if ?c then _ else _] => destruct c end);
    (split; [split|]; simpl; rewrite ?Hf; naive_solver).
Qed.

Lemma active_loop_roles env fuel prev next m out m' out' :
  gi_local (vm_group m) <> MSG_INVALID_ROUTEID -> role_weak prev m ->
  (prev = Some next -> role_full prev m) -> vm_current m = Some next ->
  active_loop env fuel prev prev next m out = Some (m', out') ->
  roles m' /\ same_members (vm_group m) (vm_group m').
Proof.
  revert prev next m out. induction fuel as [|fuel IH]; intros prev next m out Hl Hw Hf Hc; [done|].
  destruct (decide (prev = Some next)) as [->|Hne].
  - rewrite active_loop_stop. intros [= <- <-]. split; [|apply same_members_refl].
    unfold roles. rewrite Hc. by apply Hf.
  - rewrite active_loop_step by done. fold (leave_from prev m).
    pose proof (leave_members prev m) as Hm1. pose proof (leave_role prev m Hl Hw) as [Hr1 Hr2].
    destruct (leave_from prev m) as [m1 o1]. cbn [fst] in *.
    assert (gi_local (vm_group m1) = gi_local (vm_group m)) as Hl1 by by apply same_members_local.
    pose proof (enter_role env next m1 Hr1 ltac:(by rewrite Hl1)) as Ha.
    pose proof (active_members env next m1) as Hm2.
    destruct (status_active env next m1) as [[m2 o2] n2]. cbn [fst] in *.
    intros H. apply IH in H as [H1 H2]; [|simpl|exact (proj1 Ha)|intros _; exact Ha|done].
    + split; [done|]. eapply same_members_trans, same_members_trans; eauto.
    + by rewrite (same_members_local _ _ Hm2), Hl1.
Qed.

Lemma active_loop_prefix env fuel now prev next m out m' out' :
  active_loop env fuel now prev next m out = Some (m', out') -> exists o, out' = out ++ o.
Proof.
  revert now prev next m out. induction fuel as [|fuel IH]; intros now prev next m out; [done|].
  destruct (decide (now = Some next)) as [->|Hne].
  - rewrite active_loop_stop. intros [= <- <-]. exists []. by rewrite app_nil_r.
  - rewrite active_loop_step by done. destruct (match prev with Some _ => _ | None => _ end) as [m1 o1].
    destruct (status_active env next m1) as [[m2 o2] n2]. intros [o ->]%IH.
    exists ((o1 ++ o2) ++ o). by rewrite <- !app_assoc.
Qed.

(** What a change of status does; leaving the primary status is announced. *)
Record activated (m m' : clsVoteMachine) (out : list output) : Prop := {
  act_roles : roles m';
  act_members : same_members (vm_group m) (vm_group m');
  act_cut : vm_current m = Some PRIMARY -> vm_current m' <> Some PRIMARY ->
    NtyPrimaryChange false false ∈ out
}.

Lemma activate_activated env next m m' out :
  gi_local (vm_group m) <> MSG_INVALID_ROUTEID -> role_weak (vm_current m) m ->
  (vm_current m = Some next -> roles m) ->
  activate env next m = Some (m', out) -> activated m m' out.
Proof.
  intros Hl Hw Hf. unfold activate.
  destruct (active_loop _ _ _ _ _ _ _) as [[m1 o1]|] eqn:Ha; [|done]. intros [= <- <-].
  destruct (decide (vm_current m = Some next)) as [He|Hne].
  { specialize (Hf He). rewrite He, active_loop_stop in Ha. injection Ha as <- <-.
    split; [|apply same_members_refl|intros H1 H2; simpl in H2; congruence].
    destruct Hf as [Hf1 Hf2]. rewrite He in *. done. }
  pose proof Ha as Hb. apply active_loop_roles in Hb as [H1 H2]; [|done|done|done|done].
  split; [exact H1|exact H2|]. intros Hp _. rewrite Hp in *.
  rewrite active_loop_step in Ha by done. cbn [status_deactive primary_deactive] in Ha.
  destruct (status_active env next _) as [[m2 o2] n2] eqn:Hs.
  apply active_loop_prefix in Ha as [o ->]. set_solver.
Qed.

Lemma activated_same m m1 m' out o : same_role m m1 -> activated m1 m' out -> activated m m' (o ++ out).
Proof.
  intros (Hc & Hg & _) [H1 H2 H3]. rewrite Hg in H2. rewrite Hc in H3. split; [done|done|].
  intros. rewrite elem_of_app. auto.
Qed.

Lemma activated_refl m : roles m -> activated m m [].
Proof. intros H. split; [done|apply same_members_refl|done]. Qed.

Lemma roles_same m m1 : same_role m m1 -> roles m -> roles m1.
Proof.
  intros (Hc & Hg & Hp & _). unfold roles, role_full, role_weak. by rewrite Hc, Hg, Hp.
Qed.

Section vote_calls.
Context (env : voteEnv) (m : clsVoteMachine).
Context (Hlocal : gi_local (vm_group m) <> MSG_INVALID_ROUTEID).
Context (Hroles : roles m).

Lemma handled_activated m1 o1 next m' out : same_role m m1 ->
  activate env next m1 = Some (m', out) -> activated m m' (o1 ++ out).
Proof.
  intros Hs Ha. apply (activated_same m m1); [done|].
  pose proof (roles_same _ _ Hs Hroles) as Hr.
  apply (activate_activated env next); [|apply Hr|by intros _|done].
  destruct Hs as (_ & -> & _). exact Hlocal.
Qed.

Lemma input_activated msg rc m' out :
  voteMachine_handleInput env msg m = Some (rc, m', out) -> activated m m' out.
Proof.
  unfold voteMachine_handleInput. destruct (vm_current m) as [s|] eqn:Hc.
  2: { intros [= <- <- <-]. by apply activated_refl. }
  pose proof (handleInput_role env s msg m) as Hs.
  destruct (status_handleInput env s msg m) as [[m1 o1] n1]. cbn [fst] in Hs.
  destruct (activate env n1 m1) as [[m2 o2]|] eqn:Ha; [|done]. intros [= <- <- <-].
  by eapply handled_activated.
Qed.

Lemma timeout_activated ms m' out :
  voteMachine_handleTimeout env ms m = Some (m', out) -> activated m m' out.
Proof.
  unfold voteMachine_handleTimeout. destruct (vm_current m) as [s|] eqn:Hc.
  2: { intros [= <- <-]. by apply activated_refl. }
  destruct (0 <? vm_forceMillis m).
  { destruct (_ <=? _); intros [= <- <-]; (split; [exact Hroles|apply same_members_refl|done]). }
  pose proof (handleTimeout_role env s ms m) as Hs.
  destruct (status_handleTimeout env s ms m) as [[m1 o1] n1]. cbn [fst] in Hs.
  destruct (activate env n1 m1) as [[m2 o2]|] eqn:Ha; [|done]. intros [= <- <-].
  by eapply handled_activated.
Qed.

Lemma init_activated ok rc m' out :
  voteMachine_init env ok m = Some (rc, m', out) -> activated m m' out.
Proof.
  unfold voteMachine_init. destruct ok; simpl.
  - destruct (activate env _ m) as [[m1 o1]|] eqn:Ha; [|done]. intros [= <- <- <-].
    apply (handled_activated m [] _ m1 o1 ltac:(by split_and!) Ha).
  - intros [= <- <- <-]. by apply activated_refl.
Qed.
End vote_calls.

(** A forced status; the member may already know another primary. *)
Lemma force_activated env id ms m m' out :
  gi_local (vm_group m) <> MSG_INVALID_ROUTEID -> role_weak (vm_current m) m ->
  (vm_current m = Some id -> roles m) ->
  voteMachine_force env id ms m = Some (m', out) -> activated m m' out.
Proof.
  intros Hl Hw Hf. unfold voteMachine_force.
  destruct (activate env id m) as [[m1 o1]|] eqn:Ha; [|done]. intros [= <- <-].
  apply activate_activated in Ha as [H1 H2 H3]; [|done..].
  split; by destruct (0 <? ms).
Qed.

(** ** What the sync manager does to its heaps *)

Definition heap_at (lists : list clsSyncMinHeap) (i : nat) : list clsSyncSession :=
  _heap (lists !!! i).

(** No heap that was empty is filled. *)
Definition shrinks (lists lists' : list clsSyncMinHeap) : Prop :=
  forall i, heap_at lists i = [] -> heap_at lists' i = [].

Lemma heap_at_insert i h lists j :
  heap_at (<[i := h]> lists) j
  = if decide (i = j /\ (i < length lists)%nat) then _heap h else heap_at lists j.
Proof.
  unfold heap_at. destruct (decide _) as [[<- Hi]|Hn].
  - by rewrite list_lookup_total_insert_eq.
  - destruct (decide (i = j)) as [<-|Hne].
    + rewrite list_insert_ge by lia. done.
    + by rewrite list_lookup_total_insert_ne.
Qed.

Lemma shrinks_insert i h lists : (heap_at lists i = [] -> _heap h = []) ->
  shrinks lists (<[i := h]> lists).
Proof.
  intros Hh j Hj. rewrite heap_at_insert. destruct (decide _) as [[<- _]|]; auto.
Qed.

Lemma shrinks_trans l1 l2 l3 : shrinks l1 l2 -> shrinks l2 l3 -> shrinks l1 l3.
Proof. unfold shrinks. auto. Qed.

Lemma wake_heap_nil fuel lsn h : _heap h = [] -> wake_heap fuel lsn h = (h, []).
Proof. intros H. destruct fuel; simpl; [done|]. unfold root, dataSize. by rewrite H. Qed.

Lemma drain_nil fuel rc h : _heap h = [] -> drain fuel rc h = (h, []).
Proof. intros H. destruct fuel; simpl; [done|]. unfold pop, dataSize. by rewrite H. Qed.

Lemma wake_loop_shrinks plan sub lists checks :
  shrinks lists (wake_loop plan sub lists checks).1.1.
Proof.
  revert sub lists checks. induction plan as [|lsn plan IH]; intros sub lists checks; simpl; [by intros i|].
  destruct (wake_heap _ _ _) as [h out] eqn:Hw.
  specialize (IH (S sub) (<[sub := h]> lists) (<[sub := lsn]> checks)).
  destruct (wake_loop _ _ _ _) as [[l' c'] o']. cbn [fst] in *.
  eapply shrinks_trans, IH. apply shrinks_insert. intros Hh. unfold heap_at in Hh.
  rewrite wake_heap_nil in Hw by done. injection Hw as <- <-. done.
Qed.

Lemma cut_loop_heaps n alives lists i :
  heap_at (cut_loop n alives lists).1 i
  = if decide (alives <= i < alives + n)%nat then [] else heap_at lists i.
Proof.
  revert lists. induction n as [|n IH]; intros lists; cbn [cut_loop].
  { by destruct (decide _); [lia|]. }
  destruct (drain _ _ _) as [h o1] eqn:Hd.
  specialize (IH (<[(alives + n)%nat := h]> lists)).
  destruct (cut_loop n alives _) as [l2 o2]. cbn [fst] in *. rewrite IH, heap_at_insert.
  destruct (drain_spec _ _ _ _ _ (le_n _) Hd) as (popped & Hp & _ & Hh & _).
  destruct (decide (alives <= i < alives + n)%nat) as [Hi|Hi].
  { destruct (decide _); [done|lia]. }
  destruct (decide _) as [[<- Hl]|Hn]; [by destruct (decide _); [|lia]|].
  destruct (decide (alives <= i < alives + S n)%nat) as [Hi2|Hi2]; [|done].
  assert (i = (alives + n)%nat) as -> by lia.
  unfold heap_at. rewrite list_lookup_total_alt, lookup_ge_None_2; [done|].
  destruct (decide (alives + n < length lists)%nat); [naive_solver|lia].
Qed.

Lemma cut_heaps alives m i :
  heap_of (cut alives m).1 i
  = if decide (alives <= i < validSync m)%nat then [] else heap_of m i.
Proof.
  unfold cut. destruct (Nat.ltb_spec (validSync m) alives) as [H|H].
  { by destruct (decide _); [lia|]. }
  pose proof (cut_loop_heaps (validSync m - alives) alives (_syncList m) i) as Hc.
  destruct (cut_loop _ _ _) as [l o]. cbn [fst] in *. unfold heap_of. simpl.
  unfold heap_at in Hc. rewrite Hc.
  destruct (decide (alives <= i < alives + (validSync m - alives))%nat), (decide (alives <= i < validSync m)%nat);
    done || lia.
Qed.

Section clearing.
Context (oks : Z -> bool) (okW removed endSub : nat) (left : list clsSyncStatus).

Lemma clear_session_heaps removedSub s lists lists' out : 
  clear_session oks okW removed endSub removedSub left s lists = Some (lists', out) ->
  forall j, (endSub <= j)%nat -> heap_at lists' j = heap_at lists j /\
    lists' !!! j = lists !!! j.
Proof.
  unfold clear_session. destruct (Nat.leb _ _); [by intros [= <- <-]|].
  destruct (Nat.ltb _ _); [by intros [= <- <-]|]. destruct endSub as [|sub]; [done|].
  destruct (push _ _ _) as [[rc h]|]; [|done]. intros [= <- <-] j Hj.
  unfold heap_at. rewrite list_lookup_total_insert_ne by lia. done.
Qed.

Lemma clear_heap_heaps fuel removedSub lists lists' out :
  (endSub <= removedSub)%nat -> (dataSize (lists !!! removedSub) <= fuel)%nat ->
  clear_heap fuel oks okW removed endSub removedSub left lists = Some (lists', out) ->
  heap_at lists' removedSub = [] /\
  forall j, (endSub <= j)%nat -> j <> removedSub -> heap_at lists' j = heap_at lists j.
Proof.
  intros He. revert lists out. induction fuel as [|fuel IH]; intros lists out Hf; simpl.
  { intros [= <- <-]. split; [|done]. apply nil_length_inv. unfold heap_at, dataSize in *. lia. }
  pose proof (pop_cases (lists !!! removedSub)) as Hp.
  destruct (pop (lists !!! removedSub)) as [[rc [s|]] h]; [|by intros [= <- <-]].
  destruct Hp as (_ & _ & Hd & _).
  destruct (clear_session _ _ _ _ _ _ _ _) as [[l1 o1]|] eqn:Hs; [|done]. simpl.
  destruct (clear_heap fuel _ _ _ _ _ _ l1) as [[l2 o2]|] eqn:Hr; [|done]. simpl.
  intros [= <- <-].
  assert (removedSub < length lists)%nat as Hlen.
  { destruct (decide (removedSub < length lists)%nat); [done|].
    assert (lists !! removedSub = None) as Hn by (apply lookup_ge_None_2; lia).
    rewrite list_lookup_total_alt, Hn in Hd. unfold dataSize in Hd. simpl in Hd. lia. }
  pose proof (clear_session_heaps _ _ _ _ _ Hs) as Hk.
  destruct (IH l1 o2) as [IH1 IH2]; [|done|].
  - destruct (Hk removedSub He) as [_ ->]. rewrite list_lookup_total_insert_eq by done. lia.
  - split; [done|]. intros j Hj Hne. rewrite IH2 by done. destruct (Hk j Hj) as [-> _].
    rewrite heap_at_insert. destruct (decide _) as [[<- _]|]; done.
Qed.

Lemma clear_loop_heaps removedSub lists lists' out :
  clear_loop removedSub oks okW removed endSub left lists = Some (lists', out) ->
  forall j, (endSub <= j)%nat ->
    heap_at lists' j = if decide (j <= removedSub)%nat then [] else heap_at lists j.
Proof.
  revert lists out. induction removedSub as [|r IH]; intros lists out; cbn [clear_loop].
  - destruct (Nat.ltb_spec 0 endSub) as [Hlt|Hge].
    { intros [= <- <-] j Hj. by destruct (decide _); [lia|]. }
    destruct (clear_heap _ _ _ _ _ _ _ lists) as [[l1 o1]|] eqn:Hh; [|done]. simpl.
    intros [= <- <-] j Hj. apply clear_heap_heaps in Hh as [H1 H2]; [|lia|done].
    destruct (decide (j <= 0)%nat); [by replace j with 0%nat by lia|]. apply H2; lia.
  - destruct (Nat.ltb_spec (S r) endSub) as [Hlt|Hge].
    { intros [= <- <-] j Hj. by destruct (decide _); [lia|]. }
    destruct (clear_heap _ _ _ _ _ _ _ lists) as [[l1 o1]|] eqn:Hh; [|done]. simpl.
    destruct (clear_loop r _ _ _ _ _ l1) as [[l2 o2]|] eqn:Hr; [|done]. simpl.
    intros [= <- <-] j Hj. apply clear_heap_heaps in Hh as [H1 H2]; [|lia|done].
    rewrite (IH _ _ Hr j Hj). destruct (decide (j <= r)%nat), (decide (j <= S r)%nat); try lia; try done.
    + by replace j with (S r) by lia.
    + apply H2; lia.
Qed.
End clearing.

(** The members the manager takes for alive. *)
Definition validCount (m : clsSyncManager) : nat := length (List.filter ss_valid (_notifyList m)).

Lemma filter_split {A} (p q : A -> bool) l :
  (length (List.filter p l)
   = length (List.filter p (List.filter q l)) + length (List.filter p (List.filter (fun x => negb (q x)) l)))%nat.
Proof.
  induction l as [|x l IH]; simpl; [done|]. destruct (q x); simpl; destruct (p x); simpl; lia.
Qed.

Lemma validCount_le m : (validCount m <= validSync m)%nat.
Proof. apply filter_length_le. Qed.

(** After a change of members no heap is in use beyond the live ones that
    stay. *)
Lemma updateNotifyList_heaps oks v m rc m' out :
  updateNotifyList oks v m = Some (rc, m', out) ->
  (forall i, (validCount m <= i)%nat -> heap_of m i = []) ->
  forall i, (length (List.filter ss_valid (kept m)) <= i)%nat -> heap_of m' i = [].
Proof.
  intros H Hb i Hi. unfold updateNotifyList in H. fold (kept m) in H.
  set (gone := List.filter (fun s => negb (inGroup m (ss_id s))) (_notifyList m)) in *.
  pose proof (filter_split ss_valid (fun s => inGroup m (ss_id s)) (_notifyList m)) as Hsp.
  cbn beta in Hsp. fold (kept m) gone in Hsp. fold (validCount m) in Hsp, H.
  destruct (Nat.eqb_spec (length gone) 0) as [Hg|Hg].
  - assert (gone = []) as Hg0 by by apply nil_length_inv. rewrite Hg0 in Hsp. simpl in *.
    destruct (Nat.ltb _ _); [done|]. injection H as _ <- _. apply Hb. lia.
  - unfold clearSyncList in H.
    destruct (clear_loop _ _ _ _ _ _ _) as [[l o]|] eqn:Hc; [|done]. simpl in H.
    destruct (Nat.ltb _ _); [done|]. injection H as _ <- _. unfold heap_of. simpl.
    change (heap_at l i = []). rewrite (clear_loop_heaps _ _ _ _ _ _ _ _ _ Hc) by lia.
    pose proof (validCount_le m). fold (validSync m).
    destruct (decide _); [done|]. apply Hb. unfold validSync in *. lia.
Qed.
