(* ===== verification/ReplSetInv.v ===== *)
(** * The invariant of the group information

    What holds of members, live members and the known primary between the
    events of a replicate set, and that each operation on the group keeps it.
    While a heartbeat is handled its sender may be an exception. *)

From stdpp Require Import base list strings gmap.
From Stdlib Require Import ZArith Lia.
From S2P Require Import Prelude.
From S2P Require Import DpsLsn Vote VoteFacts.
From S2P Require Import SyncHeap SyncHeapFacts.
From S2P Require Import Sync SyncFacts SyncRun SyncMembers.
From S2P Require Import ReplSet ReplSetFacts.

Open Scope Z_scope.

Definition node_of (g : clsGroupInfo) (id : Z) : option clsSharingStatus := om_find id (gi_info g).

(** [x] is the member excepted, if any. *)
Record group_ok (x : option Z) (g : clsGroupInfo) : Prop := {
  g_sorted : om_sorted (gi_info g);
  g_alives : NoDup (gi_alives g);
  g_alive_member : forall id, id ∈ gi_alives g -> is_Some (node_of g id);
  g_local_out : node_of g (gi_local g) = None;
  g_identity : forall id st, node_of g id = Some st -> beat_identity (sh_beat st) = id;
  g_dead : forall id st, node_of g id = Some st -> id ∉ gi_alives g -> x <> Some id ->
    beat_serviceStatus (sh_beat st) = SERVICE_UNKNOWN /\ beat_beatID (sh_beat st) = CLS_BEATID_INVALID;
  g_alive_beats : forall id st, node_of g id = Some st -> id ∈ gi_alives g -> sh_deadtime st = 0;
  g_primary : gi_primary g <> MSG_INVALID_ROUTEID -> gi_primary g <> gi_local g ->
    x <> Some (gi_primary g) -> gi_primary g ∈ gi_alives g
}.

Lemma group_ok_weaken x g : group_ok None g -> group_ok x g.
Proof. intros [H1 H2 H3 H4 H5 H6 H7 H8]. split; eauto. Qed.

Lemma node_of_alter id f g id' :
  node_of (alter_node id f g) id' = if id =? id' then f <$> node_of g id' else node_of g id'.
Proof. apply om_find_alter. Qed.

(** Changing one member, everything else as before. *)
Lemma group_ok_alter x id f g : group_ok x g ->
  (forall st, node_of g id = Some st -> beat_identity (sh_beat (f st)) = beat_identity (sh_beat st)) ->
  (forall st, node_of g id = Some st -> id ∉ gi_alives g -> x <> Some id ->
     beat_serviceStatus (sh_beat (f st)) = SERVICE_UNKNOWN /\
     beat_beatID (sh_beat (f st)) = CLS_BEATID_INVALID) ->
  (forall st, node_of g id = Some st -> id ∈ gi_alives g -> sh_deadtime (f st) = 0) ->
  group_ok x (alter_node id f g).
Proof.
  intros [H1 H2 H3 H4 H5 H6 H7 H8] Hi Hd Ha.
  assert (Hn : forall id' st', node_of (alter_node id f g) id' = Some st' ->
    (id <> id' /\ node_of g id' = Some st') \/ (id = id' /\ exists st, node_of g id = Some st /\ st' = f st)).
  { intros id' st'. rewrite node_of_alter. destruct (Z.eqb_spec id id') as [<-|]; [|by left].
    intros (st & -> & Hs)%fmap_Some. right. eauto. }
  split; simpl; try done.
  - eapply om_sorted_keys; [symmetry; apply om_alter_keys|exact H1].
  - intros id' Hin. rewrite node_of_alter. destruct (id =? id'); [|by apply H3].
    apply fmap_is_Some. by apply H3.
  - rewrite node_of_alter, H4. by destruct (_ =? _).
  - intros id' st' [[_ Hs]|[<- (st & Hs & ->)]]%Hn; [by apply H5|].
    rewrite (Hi st Hs). by apply H5.
  - intros id' st' [[_ Hs]|[<- (st & Hs & ->)]]%Hn; [by apply H6|by apply Hd].
  - intros id' st' [[_ Hs]|[<- (st & Hs & ->)]]%Hn; [by apply H7|by apply Ha].
Qed.

Lemma group_ok_primary x g p : group_ok x g ->
  (p <> MSG_INVALID_ROUTEID -> p <> gi_local g -> x <> Some p -> p ∈ gi_alives g) ->
  group_ok x (with_primary g p).
Proof. intros [H1 H2 H3 H4 H5 H6 H7 H8] Hp. by split. Qed.

Lemma group_ok_same x g g' : same_members g g' -> group_ok x g -> group_ok x g'.
Proof.
  intros [Hg Hp] Hok. rewrite Hg. apply group_ok_primary; [done|].
  intros H0 Hl Hx. destruct Hp as [He|[He|He]]; [|congruence|congruence].
  rewrite He in *. by apply (g_primary _ _ Hok).
Qed.

(** ** A member is heard *)

Definition hear (id : Z) (g : clsGroupInfo) : clsGroupInfo :=
  alter_node id reset_times
    (if bool_decide (id ∈ gi_alives g) then g else with_alives g (key_insert id (gi_alives g))).

Lemma group_ok_hear x id g : group_ok x g -> is_Some (node_of g id) ->
  x = None \/ x = Some id -> group_ok None (hear id g).
Proof.
  intros Hok [st0 Hst] Hx.
  assert (Hal : forall id', id' ∈ gi_alives (hear id g) <-> id' = id \/ id' ∈ gi_alives g).
  { intros id'. unfold hear. case_bool_decide as Hin; simpl; [naive_solver|].
    by rewrite key_insert_elem. }
  assert (Hnode : forall id', node_of (hear id g) id'
    = if id =? id' then reset_times <$> node_of g id' else node_of g id').
  { intros id'. unfold hear. rewrite node_of_alter. by case_bool_decide. }
  assert (Hl : gi_local (hear id g) = gi_local g) by (unfold hear; by case_bool_decide).
  assert (Hp : gi_primary (hear id g) = gi_primary g) by (unfold hear; by case_bool_decide).
  assert (Hback : forall id' st', node_of (hear id g) id' = Some st' ->
    exists st, node_of g id' = Some st /\ sh_beat st' = sh_beat st /\
      sh_deadtime st' = if id =? id' then 0 else sh_deadtime st).
  { intros id' st'. rewrite Hnode. destruct (id =? id'); [|by eauto].
    intros (st & -> & ->)%fmap_Some. eauto. }
  destruct Hok as [H1 H2 H3 H4 H5 H6 H7 H8]. split.
  - unfold hear. case_bool_decide; simpl; (eapply om_sorted_keys; [symmetry; apply om_alter_keys|exact H1]).
  - unfold hear. case_bool_decide as Hin; simpl; [done|].
    rewrite key_insert_perm by done. by constructor.
  - intros id' [->|Hin]%Hal; rewrite Hnode.
    + rewrite Z.eqb_refl, Hst. by eexists.
    + destruct (id =? id'); [apply fmap_is_Some|]; by apply H3.
  - rewrite Hnode, Hl, H4. by destruct (_ =? _).
  - intros id' st' (st & Hs & -> & _)%Hback. by apply H5.
  - intros id' st' (st & Hs & -> & _)%Hback Hni _. rewrite Hal in Hni.
    apply (H6 _ _ Hs); [naive_solver|]. destruct Hx as [->| ->]; naive_solver.
  - intros id' st' (st & Hs & _ & ->)%Hback Hin. destruct (Z.eqb_spec id id') as [|Hne]; [done|].
    apply Hal in Hin as [->|Hin]; [done|]. by eapply H7.
  - rewrite Hl, Hp. intros Ha Hb _. rewrite Hal.
    destruct (decide (gi_primary g = id)) as [|Hne]; [by left|right].
    apply H8; [done|done|]. destruct Hx as [->| ->]; naive_solver.
Qed.

(** ** Time passes *)

(** Changes of times and counters only. *)
Lemma group_ok_nodes x g g' : group_ok x g ->
  map fst (gi_info g') = map fst (gi_info g) -> gi_alives g' = gi_alives g ->
  gi_local g' = gi_local g -> gi_primary g' = gi_primary g ->
  (forall id st', node_of g' id = Some st' -> exists st, node_of g id = Some st /\
     sh_beat st' = sh_beat st /\
     (id ∈ gi_alives g -> sh_deadtime st = 0 -> sh_deadtime st' = 0)) ->
  group_ok x g'.
Proof.
  intros [H1 H2 H3 H4 H5 H6 H7 H8] Hk Ha Hl Hp Hn.
  assert (Hs : forall id, is_Some (node_of g' id) <-> is_Some (node_of g id)).
  { intros id. unfold node_of. by rewrite !om_find_keys, Hk. }
  split; rewrite ?Ha, ?Hl, ?Hp; try done.
  - eapply om_sorted_keys; [symmetry; exact Hk|exact H1].
  - intros id Hin. by apply Hs, H3.
  - apply eq_None_not_Some. rewrite Hs. by rewrite <- eq_None_not_Some.
  - intros id st' (st & Hst & -> & _)%Hn. by apply H5.
  - intros id st' (st & Hst & -> & _)%Hn. by apply H6.
  - intros id st' (st & Hst & _ & Hd)%Hn Hin. apply Hd; [done|]. by eapply H7.
Qed.

Lemma fold_alter f l g : NoDup l ->
  let g' := foldl (fun g id => alter_node id f g) g l in
  map fst (gi_info g') = map fst (gi_info g) /\ gi_alives g' = gi_alives g /\
  gi_local g' = gi_local g /\ gi_primary g' = gi_primary g /\
  forall id, node_of g' id = if bool_decide (id ∈ l) then f <$> node_of g id else node_of g id.
Proof.
  revert g. induction l as [|id0 l IH]; intros g Hn; cbn [foldl]; [done|].
  apply NoDup_cons in Hn as [Hni Hn]. destruct (IH (alter_node id0 f g) Hn) as (I1 & I2 & I3 & I4 & I5).
  split_and!; [by rewrite I1; apply om_alter_keys|done|done|done|].
  intros id. rewrite I5, node_of_alter. destruct (Z.eqb_spec id0 id) as [->|Hne].
  - by rewrite (bool_decide_eq_false_2 (id ∈ l)), (bool_decide_eq_true_2 (id ∈ id :: l)) by (done || left).
  - repeat case_bool_decide; set_solver.
Qed.

Lemma node_of_tick_alives ms x g id : group_ok x g ->
  node_of (tick_alives ms g) id
  = if bool_decide (id ∈ gi_alives g) then add_timeout ms <$> node_of g id else node_of g id.
Proof. intros H. apply fold_alter, (g_alives _ _ H). Qed.

Lemma tick_alives_frame ms x g : group_ok x g ->
  map fst (gi_info (tick_alives ms g)) = map fst (gi_info g) /\
  gi_alives (tick_alives ms g) = gi_alives g /\ gi_local (tick_alives ms g) = gi_local g /\
  gi_primary (tick_alives ms g) = gi_primary g.
Proof. intros H. unfold tick_alives. edestruct fold_alter as (? & ? & ? & ? & _); [apply (g_alives _ _ H)|done]. Qed.

Lemma group_ok_tick_alives ms x g : group_ok x g -> group_ok x (tick_alives ms g).
Proof.
  intros H. destruct (tick_alives_frame ms x g H) as (F1 & F2 & F3 & F4).
  apply (group_ok_nodes x g); [done..|]. intros id st'. rewrite (node_of_tick_alives ms x) by done.
  case_bool_decide; [|by eauto]. intros (st & -> & ->)%fmap_Some. eauto.
Qed.

Lemma node_of_tick_dead ms g id :
  node_of (tick_dead ms g) id
  = if bool_decide (id ∈ gi_alives g) then node_of g id else add_breakTime ms <$> node_of g id.
Proof.
  unfold node_of, tick_dead. simpl. induction (gi_info g) as [|[k v] l IH]; simpl; [by case_bool_decide|].
  destruct (Z.eqb_spec id k) as [->|Hne].
  - destruct (bool_decide (k ∈ gi_alives g)); simpl; by rewrite Z.eqb_refl.
  - destruct (bool_decide (k ∈ gi_alives g)); simpl; destruct (Z.eqb_spec id k); done.
Qed.

Lemma tick_dead_keys ms g : map fst (gi_info (tick_dead ms g)) = map fst (gi_info g).
Proof.
  unfold tick_dead. simpl. induction (gi_info g) as [|[k v] l IH]; simpl; [done|].
  rewrite IH. by case_bool_decide.
Qed.

Lemma group_ok_tick_dead ms x g : group_ok x g -> group_ok x (tick_dead ms g).
Proof.
  intros H. apply (group_ok_nodes x g); [done|apply tick_dead_keys|done..|].
  intros id st'. rewrite node_of_tick_dead. case_bool_decide; [by eauto|].
  intros (st & -> & ->)%fmap_Some. eauto.
Qed.

(** ** Members break and leave *)

Definition break (id : Z) (g : clsGroupInfo) : clsGroupInfo := erase_alive id (break_member id g).

Lemma break_node_of id g id' : node_of (break id g) id'
  = if id =? id' then break_node <$> node_of g id' else node_of g id'.
Proof. unfold break, break_member. destruct (id =? gi_primary g); apply om_find_alter. Qed.

Lemma break_frame id g :
  map fst (gi_info (break id g)) = map fst (gi_info g) /\
  gi_alives (break id g) = key_erase id (gi_alives g) /\ gi_local (break id g) = gi_local g /\
  gi_primary (break id g) = if id =? gi_primary g then MSG_INVALID_ROUTEID else gi_primary g.
Proof.
  unfold break, break_member, erase_alive. destruct (id =? gi_primary g); simpl;
    (split_and!; [apply om_alter_keys|done..]).
Qed.

Lemma group_ok_break x id g : group_ok x g -> group_ok x (break id g).
Proof.
  intros [H1 H2 H3 H4 H5 H6 H7 H8]. destruct (break_frame id g) as (F1 & F2 & F3 & F4).
  split; rewrite ?F2, ?F3, ?F4.
  - eapply om_sorted_keys; [symmetry; exact F1|exact H1].
  - by apply key_erase_NoDup.
  - intros id' [Hne Hin]%key_erase_elem. rewrite break_node_of.
    destruct (id =? id'); rewrite ?fmap_is_Some; by apply H3.
  - rewrite break_node_of, H4. by destruct (id =? gi_local g).
  - intros id' st'. rewrite break_node_of. destruct (id =? id'); [|by apply H5].
    intros (st & Hst & ->)%fmap_Some. exact (H5 _ _ Hst).
  - intros id' st'. rewrite break_node_of, key_erase_elem. destruct (Z.eqb_spec id id') as [<-|Hne].
    + by intros (st & Hst & ->)%fmap_Some.
    + intros Hst Hni Hx. apply (H6 id' st'); naive_solver.
  - intros id' st'. rewrite break_node_of, key_erase_elem. destruct (Z.eqb_spec id id') as [<-|Hne]; [naive_solver|].
    intros Hst [_ Hin]. by eapply H7.
  - destruct (Z.eqb_spec id (gi_primary g)) as [->|Hne]; [done|].
    intros Ha Hb Hx. rewrite key_erase_elem. split; [congruence|]. by apply H8.
Qed.

Lemma erase_node_of key g id :
  node_of (erase_member key g) id = if key =? id then None else node_of g id.
Proof. unfold erase_member, node_of. destruct (key =? gi_primary g); apply om_find_erase. Qed.

Lemma erase_frame key g :
  gi_alives (erase_member key g) = key_erase key (gi_alives g) /\
  gi_local (erase_member key g) = gi_local g /\ gi_info (erase_member key g) = om_erase key (gi_info g) /\
  gi_primary (erase_member key g) = if key =? gi_primary g then 0 else gi_primary g.
Proof. unfold erase_member. by destruct (key =? gi_primary g). Qed.

Lemma group_ok_erase x key g : group_ok x g -> group_ok x (erase_member key g).
Proof.
  intros [H1 H2 H3 H4 H5 H6 H7 H8]. destruct (erase_frame key g) as (F1 & F2 & F3 & F4).
  split; rewrite ?F1, ?F2, ?F3, ?F4.
  - by apply om_erase_sorted.
  - by apply key_erase_NoDup.
  - intros id [Hne Hin]%key_erase_elem. rewrite erase_node_of.
    destruct (Z.eqb_spec key id); [congruence|]. by apply H3.
  - rewrite erase_node_of, H4. by destruct (key =? gi_local g).
  - intros id st. rewrite erase_node_of. destruct (key =? id); [done|]. apply H5.
  - intros id st. rewrite erase_node_of, key_erase_elem. destruct (Z.eqb_spec key id); [done|].
    intros Hst Hni Hx. apply (H6 id st); naive_solver.
  - intros id st. rewrite erase_node_of, key_erase_elem. destruct (Z.eqb_spec key id); [done|].
    intros Hst [_ Hin]. by eapply H7.
  - destruct (Z.eqb_spec key (gi_primary g)) as [->|Hne]; [done|].
    intros Ha Hb Hx. rewrite key_erase_elem. split; [congruence|]. by apply H8.
Qed.

Lemma erase_members_ind (P : clsGroupInfo -> Prop) nodes g :
  (forall key g, P g -> P (erase_member key g)) -> P g -> P (erase_members nodes g).
Proof.
  intros He. unfold erase_members. generalize (gi_info g) as l. intros l. revert g.
  induction l as [|[key st] l IH]; intros g Hg; simpl; [done|]. apply IH.
  destruct (om_find key nodes) as [node|]; [destruct (nd_isActive node)|]; auto.
Qed.

Lemma group_ok_erases x nodes g : group_ok x g -> group_ok x (erase_members nodes g).
Proof. apply erase_members_ind. intros. by apply group_ok_erase. Qed.

(** ** Members are added, beats are sent *)

Lemma group_ok_add id g : group_ok None g -> id <> gi_local g ->
  group_ok (Some id) (add_member id id g) /\ is_Some (node_of (add_member id id g) id).
Proof.
  intros Hok Hl. pose proof Hok as [H1 H2 H3 H4 H5 H6 H7 H8]. unfold add_member.
  fold (node_of g id). destruct (node_of g id) as [st0|] eqn:Hst.
  - split.
    + apply group_ok_alter; [by apply group_ok_weaken|..].
      * intros st Hs. simpl. symmetry. by apply H5.
      * intros st Hs _ Hx. done.
      * intros st Hs Hin. simpl. by eapply H7.
    + rewrite node_of_alter, Z.eqb_refl, Hst. by eexists.
  - assert (Hn : forall id', node_of (with_info g (om_insert id (name_node id newSharing) (gi_info g))) id'
      = if id =? id' then Some (name_node id newSharing) else node_of g id').
    { intros id'. apply om_find_insert. }
    split; [|rewrite Hn, Z.eqb_refl; by eexists].
    split; simpl; try done; try setoid_rewrite Hn.
    + by apply om_insert_sorted.
    + intros id' Hin. destruct (Z.eqb_spec id id'); [by eexists|by apply H3].
    + by destruct (Z.eqb_spec id (gi_local g)).
    + intros id' st. destruct (Z.eqb_spec id id') as [<-|]; [|by apply H5]. by intros [= <-].
    + intros id' st. destruct (Z.eqb_spec id id') as [<-|]; [done|]. intros. by eapply H6.
    + intros id' st. destruct (Z.eqb_spec id id') as [<-|]; [by intros [= <-]|]. intros. by eapply H7.
    + intros Ha Hb _. by apply H8.
Qed.

Lemma group_ok_beats x g b f : group_ok x g ->
  (forall id st, id ∈ gi_alives g -> sh_deadtime st = 0 -> sh_deadtime (f (id, st)) = 0) ->
  (forall kv, sh_beat (f kv) = sh_beat kv.2) ->
  group_ok x (with_info (with_beatID g b) (map (fun kv => (kv.1, f kv)) (gi_info g))).
Proof.
  intros H Hd Hb. apply (group_ok_nodes x g); try done.
  - simpl. rewrite map_map. done.
  - intros id st'. unfold node_of. simpl. rewrite om_find_map.
    intros (st & -> & ->)%fmap_Some. exists st. rewrite Hb. auto.
Qed.

Lemma beat_node_dead env bt mk st : 0 < bt -> sh_deadtime st = 0 ->
  sh_deadtime (beat_node env bt true mk st).1 = 0.
Proof.
  intros Hb Hd. unfold beat_node. rewrite Hd.
  destruct (Z.leb_spec bt 0); [lia|]. rewrite andb_false_r. by destruct (re_send env _).
Qed.

Lemma beat_node_beat env bt al mk st : sh_beat (beat_node env bt al mk st).1 = sh_beat st.
Proof.
  unfold beat_node. destruct (_ && _); [done|]. by destruct (re_send env _).
Qed.

Lemma group_ok_version x g v : group_ok x g -> group_ok x (with_version g v).
Proof. by intros [H1 H2 H3 H4 H5 H6 H7 H8]; split. Qed.
Lemma group_ok_hash x g v : group_ok x g -> group_ok x (setHashCode g v).
Proof. by intros [H1 H2 H3 H4 H5 H6 H7 H8]; split. Qed.

(** ** The member list of the sync manager *)

Definition flags_ok (al : list Z) (l : list clsSyncStatus) : Prop :=
  forall e, e ∈ l -> ss_valid e = bool_decide (ss_id e ∈ al).

Definition set_valid (v : bool) (s : clsSyncStatus) : clsSyncStatus :=
  mkStatus (ss_offset s) (ss_id s) v (ss_sameReqTimes s).

Lemma update_first_ids id v l :
  List.map ss_id (update_first id (set_valid v) l) = List.map ss_id l.
Proof. induction l as [|e l IH]; simpl; [done|]. destruct (_ =? _); simpl; [done|]. by rewrite IH. Qed.

Lemma update_first_valid id l : (length (List.filter ss_valid l)
  <= length (List.filter ss_valid (update_first id (set_valid true) l)))%nat.
Proof.
  induction l as [|e l IH]; simpl; [done|]. destruct (_ =? _); simpl.
  - destruct (ss_valid e); simpl; lia.
  - destruct (ss_valid e); simpl; lia.
Qed.

Lemma update_first_elem id v l e : NoDup (List.map ss_id l) -> e ∈ update_first id (set_valid v) l ->
  (ss_id e <> id /\ e ∈ l) \/ (ss_id e = id /\ ss_valid e = v).
Proof.
  induction l as [|s l IH]; simpl; [by intros _ ?%not_elem_of_nil|].
  intros [Hni Hn]%NoDup_cons. destruct (Z.eqb_spec (ss_id s) id) as [<-|Hne].
  - intros [->|Hin]%elem_of_cons; [by right|]. left. split; [|by right].
    intros He. apply Hni. rewrite <- He. apply list_elem_of_In, in_map, list_elem_of_In, Hin.
  - intros [->|Hin]%elem_of_cons; [left; split; [done|by left]|].
    destruct (IH Hn Hin) as [[? ?]|?]; [left; split; [done|by right]|by right].
Qed.

Lemma updateNodeStatus_list id v m :
  _notifyList (updateNodeStatus id v m) = update_first id (set_valid v) (_notifyList m).
Proof.
  unfold updateNodeStatus. destruct (existsb _ _) eqn:He; [done|].
  assert (Hn : forall e, e ∈ _notifyList m -> ss_id e <> id).
  { intros e Hin Hid. assert (existsb (fun s => ss_id s =? id) (_notifyList m) = true); [|congruence].
    apply existsb_exists. exists e. split; [by apply list_elem_of_In|by apply Z.eqb_eq]. }
  revert Hn. clear. induction (_notifyList m) as [|s l IH]; intros Hn; simpl; [done|].
  destruct (Z.eqb_spec (ss_id s) id) as [E|]; [by destruct (Hn s); [left|]|].
  f_equal. apply IH. intros e He. apply Hn. by right.
Qed.

Lemma flags_update id v al al' m : NoDup (members m) -> flags_ok al (_notifyList m) ->
  (forall k, k <> id -> k ∈ al' <-> k ∈ al) -> (id ∈ al' <-> v = true) ->
  flags_ok al' (_notifyList (updateNodeStatus id v m)).
Proof.
  intros Hn Hf Ha Hv e. rewrite updateNodeStatus_list.
  intros [[Hne Hin]|[<- <-]]%update_first_elem; [| |exact Hn].
  - rewrite (Hf e Hin). apply bool_decide_ext. by rewrite Ha.
  - destruct (ss_valid e); symmetry; [apply bool_decide_eq_true_2|apply bool_decide_eq_false_2]; naive_solver.
Qed.

Lemma updateNodeStatus_members id v m : members (updateNodeStatus id v m) = members m.
Proof. unfold members. rewrite updateNodeStatus_list. apply update_first_ids. Qed.

Lemma updateNodeStatus_lists id v m : _syncList (updateNodeStatus id v m) = _syncList m.
Proof. unfold updateNodeStatus. by destruct (existsb _ _). Qed.

Lemma updateNodeStatus_count id v m : id ∈ members m ->
  _aliveCount (updateNodeStatus id v m) = u32 (if v then _aliveCount m + 1 else _aliveCount m - 1).
Proof.
  intros Hin. unfold updateNodeStatus. destruct (existsb _ _) eqn:He; [done|].
  exfalso. apply list_elem_of_In, in_map_iff in Hin as (e & <- & Hin).
  assert (existsb (fun s => ss_id s =? ss_id e) (_notifyList m) = true); [|congruence].
  apply existsb_exists. exists e. by rewrite Z.eqb_refl.
Qed.
