(* ===== verification/ReplSetRun.v ===== *)
(** * Handlers of the replicate set keep its invariant

    The invariant of the group, the roles of the vote machine, and the
    agreement of the sync manager with the group, through every handler. *)

From stdpp Require Import base list strings gmap.
From Stdlib Require Import ZArith Lia.
From S2P Require Import Prelude.
From S2P Require Import DpsLsn Vote VoteFacts.
From S2P Require Import SyncHeap SyncHeapFacts.
From S2P Require Import Sync SyncFacts SyncRun SyncMembers.
From S2P Require Import ReplSet ReplSetFacts ReplSetInv.

Open Scope Z_scope.

(** ** The invariant *)

(** The manager lists the members of the group, knows who is alive, and keeps
    no session waiting for more replicas than are alive.  The last two hold
    while changes of role are notified ([n]). *)
Record synced (n : bool) (s : clsReplicateSet) : Prop := {
  sy_size : (length (gi_info (rs_info s)) <= syncSlots)%nat;
  sy_members : members (rs_sync s) ≡ₚ map fst (gi_info (rs_info s));
  sy_flags : flags_ok (gi_alives (rs_info s)) (_notifyList (rs_sync s));
  sy_count : _aliveCount (rs_sync s) = Z.of_nat (length (gi_alives (rs_info s)));
  sy_bound : n = true -> forall i, (length (gi_alives (rs_info s)) <= i)%nat ->
    heap_of (rs_sync s) i = [];
  sy_idle : n = true -> vm_current (rs_vote s) <> Some PRIMARY ->
    forall i, heap_of (rs_sync s) i = []
}.

Definition sync_part (n : bool) (s : clsReplicateSet) : Prop := rs_restart s = true \/ synced n s.

Record inv (n : bool) (x : option Z) (s : clsReplicateSet) : Prop := {
  inv_group : group_ok x (rs_info s);
  inv_local : gi_local (rs_info s) <> MSG_INVALID_ROUTEID;
  inv_roles : roles (rs_vote s);
  inv_sync : sync_part n s
}.

Lemma keys_NoDup x g : group_ok x g -> NoDup (map fst (gi_info g)).
Proof.
  intros H. pose proof (g_sorted _ _ H) as Hs. unfold om_sorted in Hs.
  change (NoDup ((gi_info g).*1)). induction Hs as [|k l Hs IH Ha]; constructor; [|done].
  intros Hin. rewrite Forall_forall in Ha. specialize (Ha k Hin). lia.
Qed.

Lemma validCount_alives x g m : group_ok x g -> members m ≡ₚ map fst (gi_info g) ->
  flags_ok (gi_alives g) (_notifyList m) -> validCount m = length (gi_alives g).
Proof.
  intros Hg Hm Hf. unfold validCount. rewrite <- (length_map ss_id). apply Permutation_length.
  assert (Hnd : NoDup (members m)) by (rewrite Hm; by eapply keys_NoDup).
  apply NoDup_Permutation; [|apply Hg|].
  - apply map_filter_NoDup, Hnd.
  - intros id. rewrite list_elem_of_In, in_map_iff. split.
    + intros (e & <- & [Hin Hv]%List.filter_In). apply list_elem_of_In in Hin.
      rewrite (Hf e Hin) in Hv. by apply bool_decide_eq_true_1 in Hv.
    + intros Hal. assert (Hk : id ∈ members m).
      { rewrite Hm, <- om_find_keys. by apply (g_alive_member _ _ Hg). }
      unfold members in Hk. apply list_elem_of_In, in_map_iff in Hk as (e & <- & Hin).
      exists e. split; [done|]. apply List.filter_In. split; [done|].
      rewrite (Hf e) by by apply list_elem_of_In. by apply bool_decide_eq_true_2.
Qed.

Lemma alives_le x g : group_ok x g -> (length (gi_alives g) <= length (gi_info g))%nat.
Proof.
  intros H. rewrite <- (length_map fst (gi_info g)). apply submseteq_length, NoDup_submseteq; [apply H|].
  intros id Hin. apply om_find_keys. by apply (g_alive_member _ _ H).
Qed.

(** ** Steps that leave group and roles alone *)

Record calm (s s' : clsReplicateSet) : Prop := {
  calm_group : rs_info s' = rs_info s;
  calm_current : vm_current (rs_vote s') = vm_current (rs_vote s);
  calm_pmd : vm_pmdPrimary (rs_vote s') = vm_pmdPrimary (rs_vote s);
  calm_notify : _notifyList (rs_sync s') = _notifyList (rs_sync s);
  calm_count : _aliveCount (rs_sync s') = _aliveCount (rs_sync s);
  calm_heaps : shrinks (_syncList (rs_sync s)) (_syncList (rs_sync s'));
  calm_restart : rs_restart s' = rs_restart s
}.

Ltac calm_trivial := split; try done; by intros ?.

Lemma calm_refl s : calm s s.
Proof. calm_trivial. Qed.

Lemma calm_trans s1 s2 s3 : calm s1 s2 -> calm s2 s3 -> calm s1 s3.
Proof.
  intros [A1 A2 A3 A4 A5 A6 A7] [B1 B2 B3 B4 B5 B6 B7].
  split; try congruence. by eapply shrinks_trans.
Qed.

Lemma synced_calm n s s' : calm s s' -> synced n s -> synced n s'.
Proof.
  intros [A1 A2 A3 A4 A5 A6 A7] [H1 H2 H3 H4 H5 H6].
  split; rewrite ?A1, ?A2, ?A4, ?A5; try done.
  - unfold members. by rewrite A4.
  - intros Hn i Hi. apply A6. by apply H5.
  - intros Hn Hp i. apply A6. by apply H6.
Qed.

Lemma inv_calm n x s s' : calm s s' -> inv n x s -> inv n x s'.
Proof.
  intros C [H1 H2 H3 H4]. pose proof C as [A1 A2 A3 A4 A5 A6 A7].
  split; rewrite ?A1; try done.
  - unfold roles, role_full, role_weak in *. fold (rs_info s) (rs_info s') in *. by rewrite A1, A2, A3.
  - destruct H4 as [H4|H4]; [left; congruence|right]. by eapply synced_calm.
Qed.

(** A computation all of whose runs are calm. *)
Definition calmly {A} (c : replM A) : Prop :=
  forall s a s' o, c s = Some (a, s', o) -> calm s s'.

Lemma calmly_bind {A B} (m : replM A) (f : A -> replM B) :
  calmly m -> (forall a, calmly (f a)) -> calmly (m ≫= f).
Proof.
  intros Hm Hf s b s' o H. repl_split H a s1 H1. eapply calm_trans; [by eapply Hm|by eapply Hf].
Qed.

Lemma calmly_ret {A} (a : A) : calmly (mret a).
Proof. intros s a' s' o [= <- <- <-]. apply calm_refl. Qed.

Lemma calmly_mod f : (forall s, calm s (f s)) -> calmly (modRS f).
Proof. intros Hf s a s' o [= <- <- <-]. apply Hf. Qed.

Lemma calmly_emit out : calmly (emit out).
Proof. intros s a s' o [= <- <- <-]. apply calm_refl. Qed.

Lemma calmly_cataDo f : calmly (cataDo f).
Proof. apply calmly_mod. intros s. calm_trivial. Qed.

Lemma calmly_cataCall env msg times : calmly (cataCall env msg times).
Proof.
  intros s a s' o. unfold cataCall. destruct (cata_call _ _ _ _) as [[rc meta] sent].
  intros [= <- <- <-]. calm_trivial.
Qed.

Lemma calmly_signal : calmly reelection_signal.
Proof.
  intros s a s' o. unfold reelection_signal. destruct (_ && _); intros [= <- <- <-]; calm_trivial.
Qed.

Lemma calmly_reelectionDone : calmly reelectionDone.
Proof.
  apply calmly_bind; [|intros _; apply calmly_signal]. apply calmly_mod. intros s. calm_trivial.
Qed.

Lemma calmly_syncDo f :
  (forall m, _notifyList (f m).1 = _notifyList m /\ _aliveCount (f m).1 = _aliveCount m /\
     shrinks (_syncList m) (_syncList (f m).1)) -> calmly (syncDo f).
Proof.
  intros Hf s a s' o. unfold syncDo. specialize (Hf (rs_mgr s)).
  destruct (f (rs_mgr s)) as [m out]. intros [= <- <- <-]. cbn [fst] in Hf.
  destruct Hf as (H1 & H2 & H3). by split.
Qed.

Lemma cut_frame alives m :
  _notifyList (cut alives m).1 = _notifyList m /\ _aliveCount (cut alives m).1 = _aliveCount m /\
  shrinks (_syncList m) (_syncList (cut alives m).1).
Proof.
  split_and!.
  - unfold cut. destruct (Nat.ltb _ _); [done|]. by destruct (cut_loop _ _ _).
  - unfold cut. destruct (Nat.ltb _ _); [done|]. by destruct (cut_loop _ _ _).
  - intros i Hi. pose proof (cut_heaps alives m i) as H. unfold heap_of in H. unfold heap_at in *.
    rewrite H. by destruct (decide _).
Qed.

Lemma timer_frame interval m :
  _notifyList (sync_handleTimeout interval m).1 = _notifyList m /\
  _aliveCount (sync_handleTimeout interval m).1 = _aliveCount m /\
  shrinks (_syncList m) (_syncList (sync_handleTimeout interval m).1).
Proof.
  unfold sync_handleTimeout. destruct (_ <? _); [|split_and!; [done|done|by intros ?]].
  unfold wake. pose proof (wake_loop_shrinks (rev (createWakePlan (set_wakeTimeout m (u32 (_wakeTimeout m + interval)))))
    0 (_syncList m) (_checkList m)) as H. simpl in *.
  destruct (wake_loop _ _ _ _) as [[l c] o]. by split_and!.
Qed.

Create HintDb calm.
#[export] Hint Resolve calmly_bind calmly_ret calmly_emit calmly_cataDo calmly_cataCall
  calmly_signal calmly_reelectionDone : calm.
#[export] Hint Extern 2 (calmly (if ?b then _ else _)) => destruct b : calm.

Lemma calmly_cut alives : calmly (syncDo (cut alives)).
Proof. apply calmly_syncDo, cut_frame. Qed.

Lemma calmly_effect env o : calmly (vote_effect env o).
Proof.
  destruct o; simpl; auto with calm. apply calmly_bind; [apply calmly_emit|intros _].
  destruct (notified env); [|apply calmly_ret]. unfold ntyPrimaryChange.
  destruct (_ && _); [apply calmly_cut|apply calmly_ret].
Qed.

Lemma calmly_effects env out : calmly (vote_effects env out).
Proof. induction out; simpl; [apply calmly_ret|]. apply calmly_bind; [apply calmly_effect|done]. Qed.

(** Leaving the primary status empties the heaps of listed members. *)
Lemma effects_cut env out s a s' o : vote_effects env out s = Some (a, s', o) ->
  notified env = true -> NtyPrimaryChange false false ∈ out ->
  forall i, (i < validSync (rs_sync s))%nat -> heap_of (rs_sync s') i = [].
Proof.
  intros H Hn. revert s o H. induction out as [|x out IH]; intros s o H Hin i Hi; simpl in H.
  { by apply not_elem_of_nil in Hin. }
  repl_split H b s1 H1. apply elem_of_cons in Hin as [<-|Hin].
  - pose proof (calmly_effects _ _ _ _ _ _ H) as C. apply (calm_heaps _ _ C). 
    cbn [vote_effect] in H1. apply repl_bind_Some in H1 as (c & s2 & o2 & o3 & H2 & H1 & _).
    injection H2 as _ <- _. rewrite Hn in H1. unfold ntyPrimaryChange, syncDo in H1. simpl in H1.
    pose proof (cut_heaps 0 (rs_mgr s) i) as Hc. destruct (cut 0 (rs_mgr s)) as [m mo].
    injection H1 as _ <- _. change (heap_of m i = []). cbn [fst] in Hc. rewrite Hc.
    destruct (decide _) as [|Hd]; [done|]. destruct Hd. split; [lia|exact Hi].
  - pose proof (calmly_effect _ _ _ _ _ _ H1) as C. eapply IH; [exact H|done|].
    unfold validSync. rewrite (calm_notify _ _ C). exact Hi.
Qed.

Lemma same_members_sync g g' : same_members g g' -> gi_info g' = gi_info g /\ gi_alives g' = gi_alives g.
Proof. intros [H _]. by rewrite H. Qed.

(** ** Calls of the vote machine *)

Section vote_calls.
Context (n : bool) (env : replEnv) (Henv : n = true -> notified env = true).

Lemma voteDo_inv x f s a s' o :
  group_ok x (rs_info s) -> gi_local (rs_info s) <> MSG_INVALID_ROUTEID -> sync_part n s ->
  (forall m' out, f (rs_vote s) = Some (m', out) -> activated (rs_vote s) m' out) ->
  voteDo env f s = Some (a, s', o) ->
  inv n x s' /\ same_members (rs_info s) (rs_info s').
Proof.
  intros Hg Hl Hs Hf. unfold voteDo. destruct (f (rs_vote s)) as [[m out]|] eqn:Ef; [|done].
  specialize (Hf m out eq_refl) as [Hr Hm Hcut]. intros He.
  pose proof (calmly_effects _ _ _ _ _ _ He) as C.
  pose proof C as [C1 C2 C3 C4 C5 C6 C7]. destruct (same_members_sync _ _ Hm) as [Hi Ha].
  change (rs_info s' = vm_group m) in C1. simpl in C2, C3, C4, C5, C6, C7.
  split; [|by rewrite C1]. split; rewrite ?C1.
  - by eapply group_ok_same.
  - by rewrite (same_members_local _ _ Hm).
  - unfold roles, role_full, role_weak in *. fold (rs_info s'). by rewrite C1, C2, C3.
  - destruct Hs as [Hs|[H1 H2 H3 H4 H5 H6]]; [left; congruence|right].
    split; rewrite ?C1, ?C2, ?C4, ?C5, ?Hi, ?Ha; try done.
    + unfold members. by rewrite C4.
    + intros Hn i Hlt. apply C6, H5; done.
    + intros Hn Hp i. destruct (decide (vm_current (rs_vote s) = Some PRIMARY)) as [Hcur|Hcur].
      2: { apply C6, H6; done. }
      destruct (decide (i < validSync (rs_sync s))%nat) as [Hv|Hv].
      * eapply (effects_cut _ _ _ _ _ _ He); [by apply Henv|by apply Hcut|done].
      * apply C6, H5; [done|].
        assert (validSync (rs_sync s) = length (gi_info (rs_info s))) as Hlen.
        { unfold validSync. rewrite <- (length_map ss_id), <- (length_map fst (gi_info (rs_info s))).
          by apply Permutation_length. }
        pose proof (alives_le _ _ Hg). lia.
Qed.

Lemma inv_calmly x {A} (c : replM A) s a s' o : calmly c -> inv n x s ->
  c s = Some (a, s', o) -> inv n x s'.
Proof. intros Hc Hi H. eapply inv_calm; [by eapply Hc|done]. Qed.

(** A call of the vote machine from the invariant. *)
Lemma vote_inv x f s a s' o : inv n x s ->
  (forall m' out, f (rs_vote s) = Some (m', out) -> activated (rs_vote s) m' out) ->
  voteDo env f s = Some (a, s', o) -> inv n x s' /\ same_members (rs_info s) (rs_info s').
Proof. intros [H1 H2 H3 H4] Hf. by apply voteDo_inv. Qed.

Lemma force_inv x id ms s a s' o : inv n x s -> vote_force env id ms s = Some (a, s', o) ->
  inv n x s' /\ same_members (rs_info s) (rs_info s').
Proof.
  intros Hi. apply vote_inv; [done|]. intros m' out.
  destruct Hi as [_ H2 H3 _]. apply force_activated; [done|apply H3|done].
Qed.
End vote_calls.

(** ** Hearing a member *)

Definition heard (id : Z) (st : clsSharingStatus) (s : clsReplicateSet) : clsReplicateSet :=
  let s1 := set_rs_vote s (set_group (rs_vote s) (hear id (rs_info s))) in
  if bool_decide (id ∈ gi_alives (rs_info s)) then s1
  else set_rs_sync s1 (updateNodeStatus (beat_identity (sh_beat st)) true
         (set_info (rs_sync s) (with_alives (rs_info s) (key_insert id (gi_alives (rs_info s)))))).

Lemma alive_eq id s : _alive id s =
  match node_of (rs_info s) id with
  | None => Some (SDB_REPL_INVALID_GROUP_MEMBER, s, [])
  | Some st => Some (SDB_OK, heard id st s, [])
  end.
Proof.
  unfold _alive. rewrite bind_getInfo. fold (node_of (rs_info s) id).
  destruct (node_of (rs_info s) id) as [st|]; [|done].
  unfold heard, hear. case_bool_decide as Hin; rewrite ?bind_mret; [by rewrite bind_onGroup|].
  unfold mbind, replM_bind, syncDo. by simpl.
Qed.

Record same_heard (id : Z) (s s' : clsReplicateSet) : Prop := {
  sh_info : rs_info s' = hear id (rs_info s);
  sh_current : vm_current (rs_vote s') = vm_current (rs_vote s);
  sh_pmd : vm_pmdPrimary (rs_vote s') = vm_pmdPrimary (rs_vote s);
  sh_lists : _syncList (rs_sync s') = _syncList (rs_sync s);
  sh_restart : rs_restart s' = rs_restart s;
  sh_members : members (rs_sync s') = members (rs_sync s);
  sh_flags : NoDup (members (rs_sync s)) -> flags_ok (gi_alives (rs_info s)) (_notifyList (rs_sync s)) ->
    flags_ok (gi_alives (hear id (rs_info s))) (_notifyList (rs_sync s'));
  sh_count : id ∈ members (rs_sync s) -> _aliveCount (rs_sync s')
    = if bool_decide (id ∈ gi_alives (rs_info s)) then _aliveCount (rs_sync s)
      else u32 (_aliveCount (rs_sync s) + 1);
  sh_valid : (validCount (rs_sync s) <= validCount (rs_sync s'))%nat
}.

Lemma hear_alives id g : gi_alives (hear id g)
  = if bool_decide (id ∈ gi_alives g) then gi_alives g else key_insert id (gi_alives g).
Proof. unfold hear. by case_bool_decide. Qed.

Lemma hear_length id g : (length (gi_alives (hear id g))
  = if bool_decide (id ∈ gi_alives g) then length (gi_alives g) else S (length (gi_alives g)))%nat.
Proof.
  rewrite hear_alives. case_bool_decide as Hin; [done|].
  by rewrite (Permutation_length (key_insert_perm _ _ Hin)).
Qed.

Lemma hear_keys id g : map fst (gi_info (hear id g)) = map fst (gi_info g).
Proof. unfold hear. case_bool_decide; apply om_alter_keys. Qed.

Lemma heard_same id st s : node_of (rs_info s) id = Some st -> beat_identity (sh_beat st) = id ->
  same_heard id s (heard id st s).
Proof.
  intros Hst Hid. unfold heard. rewrite Hid.
  split; try (case_bool_decide; done).
  - case_bool_decide; [done|]. cbn [rs_sync set_rs_sync]. by rewrite updateNodeStatus_lists.
  - case_bool_decide; [done|]. cbn [rs_sync set_rs_sync]. by rewrite updateNodeStatus_members.
  - intros Hn Hf. rewrite hear_alives. case_bool_decide as Hin; [done|]. simpl.
    eapply flags_update; [exact Hn|exact Hf| |].
    + intros k Hk. rewrite key_insert_elem. naive_solver.
    + rewrite key_insert_elem. naive_solver.
  - intros Hm. case_bool_decide as Hin; [done|]. cbn [rs_sync set_rs_sync].
    by rewrite updateNodeStatus_count.
  - case_bool_decide; [done|]. cbn [rs_sync set_rs_sync]. unfold validCount.
    rewrite updateNodeStatus_list. apply update_first_valid.
Qed.

Lemma members_length x n s : group_ok x (rs_info s) -> synced n s ->
  validSync (rs_sync s) = length (gi_info (rs_info s)).
Proof.
  intros _ H. unfold validSync. rewrite <- (length_map ss_id), <- (length_map fst (gi_info (rs_info s))).
  by apply Permutation_length, (sy_members _ _ H).
Qed.

Lemma roles_group m g : gi_primary g = gi_primary (vm_group m) -> gi_local g = gi_local (vm_group m) ->
  roles m -> roles (set_group m g).
Proof. unfold roles, role_full, role_weak. simpl. by intros -> ->. Qed.

Lemma hear_frame id g : gi_primary (hear id g) = gi_primary g /\ gi_local (hear id g) = gi_local g.
Proof. unfold hear. by case_bool_decide. Qed.

Lemma heard_inv n x id st s : inv n x s -> node_of (rs_info s) id = Some st ->
  x = None \/ x = Some id -> inv n None (heard id st s).
Proof.
  intros [Hg Hl Hr Hs] Hst Hx. pose proof (g_identity _ _ Hg _ _ Hst) as Hid.
  pose proof (heard_same id st s Hst Hid) as [A1 A2 A3 A4 A5 A6 A7 A8 _].
  destruct (hear_frame id (rs_info s)) as [Fp Fl].
  split; rewrite ?A1, ?Fl; try done.
  - by eapply group_ok_hear.
  - unfold roles, role_full, role_weak in *. fold (rs_info s) (rs_info (heard id st s)) in *.
    by rewrite A1, A2, A3, Fp, Fl.
  - destruct Hs as [Hs|Hs]; [left; congruence|right]. pose proof Hs as [H1 H2 H3 H4 H5 H6].
    assert (Hm : id ∈ members (rs_sync s)).
    { rewrite H2, <- om_find_keys. fold (node_of (rs_info s) id). rewrite Hst. by eexists. }
    assert (Hnd : NoDup (members (rs_sync s))) by (rewrite H2; by eapply keys_NoDup).
    assert (Hlen : (length (gi_info (hear id (rs_info s))) = length (gi_info (rs_info s)))%nat)
      by (rewrite <- !(length_map fst), hear_keys; done).
    split; rewrite ?A1; try done.
    + by rewrite Hlen.
    + by rewrite A6, hear_keys.
    + by apply A7.
    + rewrite A8, hear_length by done. case_bool_decide; [done|]. rewrite H4.
      pose proof (alives_le _ _ Hg). unfold syncSlots, CLS_REPLSET_MAX_NODE_SIZE in H1.
      rewrite u32_small; lia.
    + intros Hn i Hi. unfold heap_of. rewrite A4. apply H5; [done|].
      rewrite hear_length in Hi. case_bool_decide; lia.
    + intros Hn Hp i. unfold heap_of. rewrite A4. rewrite A2 in Hp. by apply H6.
Qed.

Lemma alive_inv n x id s rc s' o : inv n x s -> x = None \/ (x = Some id /\ is_Some (node_of (rs_info s) id)) ->
  _alive id s = Some (rc, s', o) -> inv n None s'.
Proof.
  intros Hi Hx. rewrite alive_eq. destruct (node_of (rs_info s) id) as [st|] eqn:Hst.
  - intros [= <- <- <-]. eapply heard_inv; [done|done|naive_solver].
  - intros [= <- <- <-]. destruct Hx as [->|[_ [? ?]]]; done.
Qed.

(** ** Changes of times and counters *)

Record same_frame (g g' : clsGroupInfo) : Prop := {
  fr_keys : map fst (gi_info g') = map fst (gi_info g);
  fr_alives : gi_alives g' = gi_alives g;
  fr_local : gi_local g' = gi_local g;
  fr_primary : gi_primary g' = gi_primary g
}.

Definition with_group (s : clsReplicateSet) (g : clsGroupInfo) : clsReplicateSet :=
  set_rs_vote s (set_group (rs_vote s) g).

Lemma frame_inv n x x' s g : inv n x s -> same_frame (rs_info s) g -> group_ok x' g ->
  inv n x' (with_group s g).
Proof.
  intros [Hg Hl Hr Hs] [F1 F2 F3 F4] Hg'. split; [done| | |].
  - change (gi_local g <> MSG_INVALID_ROUTEID). by rewrite F3.
  - by apply roles_group.
  - destruct Hs as [Hs|[H1 H2 H3 H4 H5 H6]]; [by left|right].
    split; change (rs_info (with_group s g)) with g; rewrite ?F2; try done.
    + rewrite <- (length_map fst), F1, length_map. done.
    + by rewrite F1.
Qed.

Lemma aliveNode_inv n lock id s rc s' o : inv n None s -> aliveNode lock id s = Some (rc, s', o) ->
  inv n None s'.
Proof.
  intros Hi H. unfold aliveNode in H. rewrite bind_getInfo in H.
  destruct (SDB_OK =? lock); [|by injection H as _ <- _].
  case_bool_decide as Hin; [|by injection H as _ <- _].
  rewrite bind_onGroup in H. injection H as _ <- _. pose proof (inv_group _ _ _ Hi) as Hg.
  apply (frame_inv n None None); [done| |].
  - split; try done. apply om_alter_keys.
  - apply group_ok_alter; [done|done| |done]. intros st Hst Hni. done.
Qed.

(** ** Silent members *)

Definition break_all (breakTime : Z) (l : list Z) (g : clsGroupInfo) : clsGroupInfo :=
  foldl (fun g id => if breakTime <=? timeoutOf g id then break id g else g) g l.

(** The manager while members break: the heaps are still bounded by the
    number [N] of members that were alive. *)
Record breaking (n : bool) (N : nat) (s : clsReplicateSet) : Prop := {
  bk_size : (length (gi_info (rs_info s)) <= syncSlots)%nat;
  bk_members : members (rs_sync s) ≡ₚ map fst (gi_info (rs_info s));
  bk_flags : flags_ok (gi_alives (rs_info s)) (_notifyList (rs_sync s));
  bk_count : _aliveCount (rs_sync s) = Z.of_nat (length (gi_alives (rs_info s)));
  bk_bound : n = true -> forall i, (N <= i)%nat -> heap_of (rs_sync s) i = [];
  bk_idle : n = true -> vm_current (rs_vote s) <> Some PRIMARY ->
    forall i, heap_of (rs_sync s) i = []
}.

Record breaks (n : bool) (N : nat) (s : clsReplicateSet) : Prop := {
  bs_group : group_ok None (rs_info s);
  bs_local : gi_local (rs_info s) <> MSG_INVALID_ROUTEID;
  bs_roles : roles (rs_vote s);
  bs_sync : rs_restart s = true \/ breaking n N s
}.

Lemma roles_primary m g p : gi_local g = gi_local (vm_group m) -> roles m ->
  p = gi_primary (vm_group m) \/
    (gi_primary (vm_group m) <> gi_local g /\ p <> gi_local g) ->
  gi_primary g = p -> roles (set_group m g).
Proof.
  unfold roles, role_full, role_weak. simpl. intros -> [[H1 H2] H3] [->|[Ha Hb]] ->; [done|].
  split; [split; [done|]|]; naive_solver.
Qed.

Definition broken (id : Z) (st : clsSharingStatus) (s : clsReplicateSet) : clsReplicateSet :=
  with_group
    (set_rs_sync s (updateNodeStatus (beat_identity (sh_beat st)) false
       (set_info (rs_sync s) (break_member id (rs_info s)))))
    (break id (rs_info s)).

Lemma broken_breaks n N id st s : breaks n N s -> id ∈ gi_alives (rs_info s) ->
  node_of (rs_info s) id = Some st -> breaks n N (broken id st s).
Proof.
  intros [Hg Hl Hr Hs] Hin Hst. pose proof (g_identity _ _ Hg _ _ Hst) as Hid.
  destruct (break_frame id (rs_info s)) as (F1 & F2 & F3 & F4).
  assert (Hne : id <> gi_local (rs_info s)).
  { intros ->. rewrite (g_local_out _ _ Hg) in Hst. done. }
  split; change (rs_info (broken id st s)) with (break id (rs_info s)).
  - by apply group_ok_break.
  - by rewrite F3.
  - eapply roles_primary; [exact F3|exact Hr| |reflexivity]. rewrite F3, F4.
    destruct (Z.eqb_spec id (gi_primary (rs_info s))) as [He|]; [right|by left].
    change (gi_primary (rs_info s) <> gi_local (rs_info s) /\ MSG_INVALID_ROUTEID <> gi_local (rs_info s)).
    split; [by rewrite <- He|by intros E; apply Hl].
  - destruct Hs as [Hs|[H1 H2 H3 H4 H5 H6]]; [by left|right].
    assert (Hm : id ∈ members (rs_sync s)).
    { rewrite H2, <- om_find_keys. by apply (g_alive_member _ _ Hg). }
    assert (Hnd : NoDup (members (rs_sync s))) by (rewrite H2; by eapply keys_NoDup).
    pose proof (key_erase_perm id _ (g_alives _ _ Hg) Hin) as Hperm.
    apply Permutation_length in Hperm. simpl in Hperm.
    split; change (rs_info (broken id st s)) with (break id (rs_info s)); rewrite ?F2;
      unfold broken; cbn [rs_sync set_rs_sync with_group set_rs_vote]; rewrite ?Hid.
    + rewrite <- (length_map fst), F1, length_map. done.
    + rewrite F1, updateNodeStatus_members. exact H2.
    + eapply flags_update; [exact Hnd|exact H3| |].
      * intros k Hk. rewrite key_erase_elem. naive_solver.
      * rewrite key_erase_elem. naive_solver.
    + rewrite updateNodeStatus_count by exact Hm. simpl. rewrite H4.
      pose proof (alives_le _ _ Hg). unfold syncSlots, CLS_REPLSET_MAX_NODE_SIZE in H1.
      rewrite u32_small; lia.
    + intros Hn i Hi. unfold heap_of. rewrite updateNodeStatus_lists. by apply H5.
    + intros Hn Hp i. unfold heap_of. rewrite updateNodeStatus_lists. by apply H6.
Qed.

Lemma break_loop_step bt id rest s : is_Some (node_of (rs_info s) id) ->
  exists st, node_of (rs_info s) id = Some st /\
  break_loop bt (id :: rest) s
  = break_loop bt rest (if bt <=? timeoutOf (rs_info s) id then broken id st s else s).
Proof.
  intros [st Hst]. exists st. split; [done|]. cbn [break_loop]. rewrite bind_getInfo.
  fold (node_of (rs_info s) id). rewrite Hst.
  destruct (bt <=? timeoutOf (rs_info s) id); [|by rewrite bind_mret].
  by rewrite (bind_quiet _ _ _ tt (broken id st s)).
Qed.

Lemma break_loop_breaks n N bt l s a s' o : breaks n N s -> NoDup l ->
  (forall id, id ∈ l -> id ∈ gi_alives (rs_info s)) ->
  break_loop bt l s = Some (a, s', o) ->
  breaks n N s' /\ rs_info s' = break_all bt l (rs_info s).
Proof.
  revert s. induction l as [|id l IH]; intros s Hb Hn Hin.
  { by intros [= _ <- _]. }
  apply NoDup_cons in Hn as [Hni Hn].
  assert (Hia : id ∈ gi_alives (rs_info s)) by (apply Hin; by left).
  destruct (break_loop_step bt id l s) as (st & Hst & ->);
    [apply (g_alive_member _ _ (bs_group _ _ _ Hb)), Hia|].
  intros H. unfold break_all. cbn [foldl]. apply IH in H as [H1 H2]; [|by destruct (_ <=? _); [apply broken_breaks|]|done|].
  - split; [done|]. rewrite H2. unfold break_all. by destruct (_ <=? _).
  - intros k Hk. destruct (_ <=? _); [|apply Hin; by right].
    change (k ∈ gi_alives (break id (rs_info s))). destruct (break_frame id (rs_info s)) as (_ & -> & _).
    rewrite key_erase_elem. split; [by intros ->|]. apply Hin. by right.
Qed.

Lemma break_all_keys bt l g : map fst (gi_info (break_all bt l g)) = map fst (gi_info g).
Proof.
  unfold break_all. revert g. induction l as [|id l IH]; intros g; cbn [foldl]; [done|].
  rewrite IH. destruct (_ <=? _); [apply break_frame|done].
Qed.

Lemma break_all_none bt l g : existsb (fun id => bt <=? timeoutOf g id) l = false -> break_all bt l g = g.
Proof.
  unfold break_all. revert g. induction l as [|id l IH]; intros g; cbn [foldl existsb]; [done|].
  intros [-> H]%orb_false_elim. by apply IH.
Qed.

Lemma primaryIsMe_role m : gi_local (vm_group m) <> MSG_INVALID_ROUTEID -> roles m ->
  primaryIsMe m = bool_decide (vm_current m = Some PRIMARY).
Proof.
  intros Hl [[_ Hw] Hf]. unfold primaryIsMe. case_bool_decide as Hc.
  - rewrite (Hf Hc), Z.eqb_refl. by destruct (Z.eqb_spec (gi_local (vm_group m)) MSG_INVALID_ROUTEID).
  - specialize (Hw Hc). by destruct (Z.eqb_spec (gi_local (vm_group m)) (gi_primary (vm_group m))).
Qed.

(** The cut after members broke brings the bound back. *)
Lemma breaks_cut n N s a s' o : breaks n N s -> (N <= length (gi_info (rs_info s)))%nat ->
  (if primaryIsMe (rs_vote s) then syncDo (cut (length (gi_alives (rs_info s)))) else mret tt) s
  = Some (a, s', o) ->
  inv n None s' /\ rs_info s' = rs_info s.
Proof.
  intros [Hg Hl Hr Hs] HN. rewrite primaryIsMe_role by done. case_bool_decide as Hc.
  - unfold syncDo. pose proof (cut_frame (length (gi_alives (rs_info s))) (rs_mgr s)) as (F1 & F2 & F3).
    pose proof (cut_heaps (length (gi_alives (rs_info s))) (rs_mgr s)) as Hh.
    destruct (cut _ _) as [m out]. cbn [fst] in *. intros [= _ <- _]. split; [|done].
    split; try done. destruct Hs as [Hs|[H1 H2 H3 H4 H5 H6]]; [by left|right].
    split; try done.
    + change (members m ≡ₚ map fst (gi_info (rs_info s))). unfold members. rewrite F1. exact H2.
    + change (flags_ok (gi_alives (rs_info s)) (_notifyList m)). by rewrite F1.
    + change (_aliveCount m = Z.of_nat (length (gi_alives (rs_info s)))). by rewrite F2.
    + intros Hn i Hi. change (heap_of m i = []). rewrite Hh.
      destruct (decide _) as [|Hd]; [done|]. apply H5; [done|].
      assert (validSync (rs_mgr s) = length (gi_info (rs_info s))) as Hv.
      { unfold validSync. simpl. rewrite <- (length_map ss_id), <- (length_map fst (gi_info (rs_info s))).
        by apply Permutation_length. }
      rewrite Hv in Hd. change (length (gi_alives (rs_info s)) <= i)%nat in Hi. lia.
  - intros [= _ <- _]. split; [|done]. split; try done.
    destruct Hs as [Hs|[H1 H2 H3 H4 H5 H6]]; [by left|right]. split; auto.
Qed.

Lemma timeoutOf_tick_dead ms g id : timeoutOf (tick_dead ms g) id = timeoutOf g id.
Proof.
  unfold timeoutOf. fold (node_of (tick_dead ms g) id) (node_of g id). rewrite node_of_tick_dead.
  case_bool_decide; [done|]. by destruct (node_of g id).
Qed.

Definition checked (env : replEnv) (ms : Z) (g : clsGroupInfo) : clsGroupInfo :=
  break_all (sharingBreakTime (re_vote env)) (gi_alives g) (tick_dead ms (tick_alives ms g)).

Lemma existsb_ext {A} (p q : A -> bool) l : (forall x, p x = q x) -> existsb p l = existsb q l.
Proof. intros H. induction l as [|x l IH]; simpl; [done|]. by rewrite H, IH. Qed.

Lemma checkBreak_inv n env ms s a s' o : inv n None s -> _checkBreak env ms s = Some (a, s', o) ->
  inv n None s' /\ rs_info s' = checked env ms (rs_info s).
Proof.
  intros Hi H. pose proof Hi as [Hg Hl Hr Hs]. unfold _checkBreak in H.
  rewrite bind_onGroup, bind_getInfo, bind_onGroup in H. cbv zeta in H.
  destruct (tick_alives_frame ms _ _ Hg) as (F1 & F2 & F3 & F4).
  set (s1 := with_group s (tick_dead ms (tick_alives ms (rs_info s)))).
  set (s0 := set_rs_vote s (set_group (rs_vote s) (tick_alives ms (rs_info s)))) in H.
  change (set_rs_vote s0 (set_group (rs_vote s0) (tick_dead ms (rs_info s0)))) with s1 in H.
  change (rs_info s0) with (tick_alives ms (rs_info s)) in H.
  assert (Hi1 : inv n None s1).
  { apply (frame_inv n None); [done| |by apply group_ok_tick_dead, group_ok_tick_alives].
    split; [by rewrite tick_dead_keys|done..]. }
  unfold checked. rewrite <- F2.
  rewrite (existsb_ext _ (fun id => sharingBreakTime (re_vote env) <=? timeoutOf (rs_info s1) id)) in H
    by (intros id; by rewrite <- (timeoutOf_tick_dead ms)).
  destruct (existsb _ _) eqn:He; cbn [negb] in H.
  - repl_split H u s2 H2. rewrite bind_getRS in H.
    apply (break_loop_breaks n (length (gi_alives (rs_info s1)))) in H2 as [B1 B2]; [| |apply Hi1|done].
    + apply (breaks_cut n (length (gi_alives (rs_info s1)))) in H as [A1 A2]; [by rewrite A2|exact B1|].
      rewrite B2. rewrite <- (length_map fst). pose proof (alives_le _ _ (inv_group _ _ _ Hi1)) as Hle.
      etransitivity; [exact Hle|]. rewrite <- (length_map fst). rewrite break_all_keys. done.
    + destruct Hi1 as [I1 I2 I3 I4]. split; try done.
      destruct I4 as [I4|[J1 J2 J3 J4 J5 J6]]; [by left|right]. by split.
  - injection H as _ <- _. split; [done|]. by rewrite break_all_none.
Qed.

(** ** Members whose times a step leaves alone *)

Definition untouched (id : Z) (g g' : clsGroupInfo) : Prop :=
  (id ∈ gi_alives g' <-> id ∈ gi_alives g) /\
  forall st, node_of g id = Some st -> exists st', node_of g' id = Some st' /\
    sh_timeout st' = sh_timeout st /\ sh_breakTime st' = sh_breakTime st.

Lemma untouched_refl id g : untouched id g g.
Proof. split; [done|]. eauto. Qed.

Lemma untouched_trans id g1 g2 g3 : untouched id g1 g2 -> untouched id g2 g3 -> untouched id g1 g3.
Proof.
  intros [A1 A2] [B1 B2]. split; [by rewrite B1|].
  intros st (st1 & H1 & T1 & T2)%A2. apply B2 in H1 as (st2 & H2 & U1 & U2).
  exists st2. split_and!; congruence.
Qed.

Lemma untouched_same id g g' : same_members g g' -> untouched id g g'.
Proof.
  intros [-> _]. split; [done|]. intros st Hst. by exists st.
Qed.

Lemma untouched_calm id s s' : calm s s' -> untouched id (rs_info s) (rs_info s').
Proof. intros C. rewrite (calm_group _ _ C). apply untouched_refl. Qed.

Lemma untouched_alter id k f g : k <> id -> untouched k g (alter_node id f g).
Proof.
  intros Hk. split; [done|]. intros st Hst. rewrite node_of_alter.
  destruct (Z.eqb_spec id k); [congruence|]. by exists st.
Qed.

Lemma untouched_hear id k g : k <> id -> untouched k g (hear id g).
Proof.
  intros Hk. unfold hear. case_bool_decide; [by apply untouched_alter|].
  eapply untouched_trans; [|by apply untouched_alter]. split.
  - simpl. rewrite key_insert_elem. naive_solver.
  - intros st Hst. by exists st.
Qed.

Lemma alive_untouched id k s rc s' o : k <> id -> _alive id s = Some (rc, s', o) ->
  untouched k (rs_info s) (rs_info s').
Proof.
  intros Hk. rewrite alive_eq. destruct (node_of (rs_info s) id) as [st|].
  - intros [= <- <- <-]. unfold heard. case_bool_decide; by apply (untouched_hear id k).
  - intros [= <- <- <-]. apply untouched_refl.
Qed.

Lemma sharingBeat_inv n env s a s' o : inv n None s -> 0 < rs_beatTime s ->
  _sharingBeat env s = Some (a, s', o) ->
  inv n None s' /\ forall k, untouched k (rs_info s) (rs_info s').
Proof.
  intros Hi Hbt H. unfold _sharingBeat in H. rewrite bind_getRS in H.
  destruct (gi_info (rs_info s)) as [|kv l] eqn:Hinfo.
  { injection H as _ <- _. split; [done|]. intros k. apply untouched_refl. }
  rewrite bind_onGroup in H. injection H as _ <- _.
  set (f := fun kv : Z * clsSharingStatus => (let '(id, st) := kv in
    beat_node env (rs_beatTime s) (bool_decide (id ∈ gi_alives (rs_info s)))
      (own_beat env (rs_vote s) (nextBeatID (rs_info s))) st).1).
  set (g := with_info (with_beatID (rs_info s) (nextBeatID (rs_info s)))
              (map (fun kv => (kv.1, f kv)) (gi_info (rs_info s)))).
  change (inv n None (with_group s g) /\ forall k, untouched k (rs_info s) g).
  assert (Hb : forall id st, sh_beat (f (id, st)) = sh_beat st) by (intros; apply beat_node_beat).
  split.
  - eapply frame_inv; [exact Hi| |].
    + split; try done. subst g. simpl. rewrite map_map. done.
    + apply group_ok_beats; [apply Hi| |by intros [id st]].
      intros id st Hin Hd. unfold f. rewrite bool_decide_eq_true_2 by done. by apply beat_node_dead.
  - intros k. split; [done|]. intros st Hst. exists (f (k, st)). split_and!.
    + unfold g, node_of. simpl. rewrite om_find_map. unfold node_of in Hst. by rewrite Hst.
    + unfold f, beat_node. destruct (_ && _); [done|]. by destruct (re_send env _).
    + unfold f, beat_node. destruct (_ && _); [done|]. by destruct (re_send env _).
Qed.

(** ** A heartbeat *)

Lemma sync_part_frame n s g : sync_part n s -> map fst (gi_info g) = map fst (gi_info (rs_info s)) ->
  gi_alives g = gi_alives (rs_info s) -> sync_part n (with_group s g).
Proof.
  intros [Hs|[H1 H2 H3 H4 H5 H6]] F1 F2; [by left|right].
  split; change (rs_info (with_group s g)) with g; rewrite ?F2; try done.
  - rewrite <- (length_map fst), F1, length_map. done.
  - by rewrite F1.
Qed.

Lemma force_current env id ms m m' out : groupSize (vm_group m) <> 1 ->
  voteMachine_force env id ms m = Some (m', out) -> vm_current m' = Some id.
Proof.
  intros Hg. unfold voteMachine_force. destruct (activate env id m) as [[m1 o1]|] eqn:Ha; [|done].
  intros [= <- <-]. assert (vm_current m1 = Some id) as Hc.
  { destruct (decide (vm_current m = Some id)) as [He|He].
    - rewrite activate_stay in Ha by done. by injection Ha as <- <-.
    - destruct (activate_move env id m He Hg) as (m2 & m3 & o2 & o3 & _ & _ & Hm).
      rewrite Hm in Ha. by injection Ha as <- <-. }
  by destruct (0 <? ms).
Qed.

Lemma vote_force_current env id ms s a s' o : groupSize (rs_info s) <> 1 ->
  vote_force env id ms s = Some (a, s', o) -> vm_current (rs_vote s') = Some id.
Proof.
  intros Hg. unfold vote_force, voteDo.
  destruct (voteMachine_force _ _ _ _) as [[m out]|] eqn:Hf; [|done]. intros He.
  apply calmly_effects in He. rewrite (calm_current _ _ He). by eapply force_current.
Qed.

Lemma member_groupSize g id st : node_of g id = Some st -> groupSize g <> 1.
Proof.
  unfold node_of, groupSize. destruct (gi_info g); [done|]. simpl. lia.
Qed.

Section beats.
Context (n : bool) (env : replEnv) (Henv : n = true -> notified env = true).

Lemma calmly_shift v : calmly (onVote (fun m => set_shift m v)).
Proof. apply calmly_mod. intros s. calm_trivial. Qed.

Lemma member_not_local x g id st : group_ok x g -> node_of g id = Some st -> id <> gi_local g.
Proof. intros Hg Hst ->. by rewrite (g_local_out _ _ Hg) in Hst. Qed.

(** The primary gives way. *)
Lemma give_way_inv id s a s' o : inv n (Some id) s -> is_Some (node_of (rs_info s) id) ->
  vm_current (rs_vote s) = Some PRIMARY ->
  vote_force env CLS_ELECTION_STATUS_SILENCE 0 (with_group s (with_primary (rs_info s) id))
  = Some (a, s', o) ->
  inv n (Some id) s' /\ gi_info (rs_info s') = gi_info (rs_info s) /\
  gi_alives (rs_info s') = gi_alives (rs_info s).
Proof.
  intros [Hg Hl Hr Hs] [st Hst] Hc H.
  assert (Hg1 : group_ok (Some id) (with_primary (rs_info s) id)) by (apply group_ok_primary; naive_solver).
  apply (voteDo_inv n env Henv (Some id)) in H as [H1 H2]; [|done|done|by apply sync_part_frame|].
  - split; [done|]. by destruct (same_members_sync _ _ H2) as [-> ->].
  - intros m' out. apply force_activated; [done| |].
    + destruct Hr as [[Hp _] _]. split; [exact Hp|]. intros Hne. done.
    + simpl. rewrite Hc. done.
Qed.

(** Another primary is found. *)
Lemma found_primary_inv id s a s' o : inv n (Some id) s -> is_Some (node_of (rs_info s) id) ->
  vote_force env CLS_ELECTION_STATUS_SILENCE 0 s = Some (a, s', o) ->
  inv n (Some id) (with_group s' (with_primary (rs_info s') id)) /\
  gi_info (rs_info s') = gi_info (rs_info s) /\ gi_alives (rs_info s') = gi_alives (rs_info s).
Proof.
  intros Hi [st Hst] H. pose proof (member_groupSize _ _ _ Hst) as Hsz.
  pose proof (vote_force_current _ _ _ _ _ _ _ Hsz H) as Hc.
  apply (force_inv n env Henv (Some id)) in H as [H1 H2]; [|done].
  destruct (same_members_sync _ _ H2) as [Ei Ea]. split; [|done].
  pose proof H1 as [Hg Hl Hr Hs].
  assert (Hne : id <> gi_local (rs_info s')).
  { eapply member_not_local; [exact Hg|]. unfold node_of. rewrite Ei. exact Hst. }
  split.
  - apply group_ok_primary; naive_solver.
  - exact Hl.
  - destruct Hr as [[Hp Hw] Hf]. split; [split; [exact Hp|]|]; simpl; [by intros _; exact Hne|].
    rewrite Hc. done.
  - by apply sync_part_frame.
Qed.

Definition same_lists (g g' : clsGroupInfo) : Prop :=
  gi_info g' = gi_info g /\ gi_alives g' = gi_alives g.

Lemma same_lists_untouched id g g' : same_lists g g' -> untouched id g g'.
Proof.
  intros [H1 H2]. unfold untouched, node_of. rewrite H1, H2. split; [done|]. eauto.
Qed.

Lemma same_lists_calm s s' : calm s s' -> same_lists (rs_info s) (rs_info s').
Proof. intros C. unfold same_lists. by rewrite (calm_group _ _ C). Qed.

Lemma beat_of_primary_inv beat s a s' o : let id := beat_identity beat in
  inv n (Some id) s -> is_Some (node_of (rs_info s) id) ->
  beat_of_primary env beat s = Some (a, s', o) ->
  inv n (Some id) s' /\ same_lists (rs_info s) (rs_info s').
Proof.
  intros id Hi Hst H. unfold beat_of_primary in H. rewrite bind_onVote, bind_getRS in H.
  set (s0 := set_rs_vote s (set_shift (rs_vote s) (-1))) in H.
  assert (C0 : calm s s0) by calm_trivial. assert (Hi0 : inv n (Some id) s0) by by eapply inv_calm.
  repl_split H u s1 H1. rewrite bind_getRS in H.
  enough (inv n (Some id) s1 /\ same_lists (rs_info s) (rs_info s1)) as [E1 E2].
  { assert (calm s1 s') as C1.
    { clear H1. destruct (negb _); [exact (calmly_reelectionDone _ _ _ _ H)|]. injection H as _ <- _. apply calm_refl. }
    split; [by eapply inv_calm|]. unfold same_lists. by rewrite (calm_group _ _ C1). }
  clear H. rewrite primaryIsMe_role in H1 by apply Hi0. case_bool_decide as Hc.
  - destruct (0 <? _). { injection H1 as _ <- _. done. }
    rewrite bind_onGroup in H1. by apply (give_way_inv id s0) in H1.
  - destruct (negb _); [|by injection H1 as _ <- _].
    rewrite bind_cataDo in H1. repl_split H1 v s2 H2. injection H1 as _ <- _.
    apply (found_primary_inv id) in H2 as (A1 & A2); [done| |done].
    eapply inv_calm; [|exact Hi0]. calm_trivial.
Qed.

Lemma beat_of_secondary_inv beat s a s' o : let id := beat_identity beat in
  inv n (Some id) s -> is_Some (node_of (rs_info s) id) ->
  beat_of_secondary beat s = Some (a, s', o) ->
  inv n (Some id) s' /\ same_lists (rs_info s) (rs_info s').
Proof.
  intros id Hi [st Hst] H. unfold beat_of_secondary in H. rewrite bind_getInfo in H.
  destruct (Z.eqb_spec (gi_primary (rs_info s)) (beat_identity beat)) as [Hp|Hp]; [|by injection H as _ <- _].
  rewrite bind_cataDo in H. injection H as _ <- _. split; [|done].
  pose proof Hi as [Hg Hl Hr Hs]. pose proof (member_not_local _ _ _ _ Hg Hst) as Hne.
  split.
  - by apply group_ok_primary.
  - exact Hl.
  - eapply (roles_primary (rs_vote s) (with_primary (rs_info s) MSG_INVALID_ROUTEID)); [done|done| |done].
    right. change (gi_primary (rs_info s) <> gi_local (rs_info s) /\ MSG_INVALID_ROUTEID <> gi_local (rs_info s)).
    split; [by rewrite Hp|by intros E; apply Hl].
  - change (sync_part n (with_group (set_rs_cata s (cata_remove MSG_CAT_PAIMARY_CHANGE_RES (rs_cata s)))
              (with_primary (rs_info s) MSG_INVALID_ROUTEID))).
    apply sync_part_frame; [|done|done].
    destruct Hs as [Hs|[J1 J2 J3 J4 J5 J6]]; [by left|right]. by split.
Qed.

Lemma set_beat_inv beat s : let id := beat_identity beat in inv n None s ->
  inv n (Some id) (with_group s (alter_node id (set_beat beat) (rs_info s))).
Proof.
  intros id Hi. pose proof (inv_group _ _ _ Hi) as Hg.
  eapply frame_inv; [exact Hi|split; try done; apply om_alter_keys|].
  apply group_ok_alter; [by apply group_ok_weaken|..].
  - intros st Hst. simpl. symmetry. by apply (g_identity _ _ Hg).
  - done.
  - intros st Hst Hin. simpl. by eapply (g_alive_beats _ _ Hg).
Qed.

Lemma handleSharingBeat_inv handle req beat s rc s' o : inv n None s ->
  _handleSharingBeat env handle req beat s = Some (rc, s', o) ->
  inv n None s' /\ forall k, k <> beat_identity beat -> untouched k (rs_info s) (rs_info s').
Proof.
  intros Hi H. unfold _handleSharingBeat in H. rewrite bind_getInfo in H.
  set (id := beat_identity beat) in *. fold (node_of (rs_info s) id) in H.
  destruct (_ || _). { injection H as _ <- _. split; [done|]. intros; apply untouched_refl. }
  repl_split H r s1 H1. repl_split H r2 s2 H2.
  assert (rs_info s' = rs_info s2 /\ (inv n None s2 -> inv n None s')) as [E1 E2].
  { repl_split H r3 s3 H3. injection H3 as _ <- _. by injection H as _ <- _. }
  enough (exists x, inv n x s1 /\ (x = None \/ (x = Some id /\ is_Some (node_of (rs_info s1) id))) /\
    forall k, k <> id -> untouched k (rs_info s) (rs_info s1)) as (x & I1 & I2 & I3).
  { split; [by apply E2; eapply alive_inv|]. intros k Hk. rewrite E1.
    eapply untouched_trans; [by apply I3|]. by eapply alive_untouched. }
  clear H H2 E1 E2. destruct (_ <? _).
  { exists None. repl_split H1 r3 s3 H3. injection H1 as _ <- _. apply calmly_cataCall in H3.
    split_and!; [by eapply inv_calm|by left|]. intros; by apply untouched_calm. }
  case_bool_decide as Hm.
  2: { exists None. injection H1 as _ <- _. split_and!; [done|by left|]. intros; apply untouched_refl. }
  exists (Some id). rewrite bind_onGroup in H1.
  set (s3 := set_rs_vote s (set_group (rs_vote s) (alter_node id (set_beat beat) (rs_info s)))) in H1.
  pose proof (set_beat_inv beat s Hi) as Hi3. change (inv n (Some id) s3) in Hi3.
  assert (Hm3 : is_Some (node_of (rs_info s3) id)).
  { change (is_Some (node_of (alter_node id (set_beat beat) (rs_info s)) id)).
    rewrite node_of_alter, Z.eqb_refl. by apply fmap_is_Some. }
  repl_split H1 u s4 H4. injection H1 as _ <- _.
  assert (inv n (Some id) s4 /\ same_lists (rs_info s3) (rs_info s4)) as [I4 L4].
  { destruct (bool_decide _); [by eapply beat_of_primary_inv|by eapply beat_of_secondary_inv]. }
  split_and!; [done| |].
  - right. split; [done|]. destruct L4 as [L4 _]. unfold node_of. by rewrite L4.
  - intros k Hk. eapply untouched_trans; [|by apply same_lists_untouched].
    by apply (untouched_alter id k).
Qed.
End beats.
