(* ===== verification/ReplSetGroup.v ===== *)
(** * Changes of the group keep the invariant

    [_setGroupSet] of the replicate set: members are added and heard, others
    are erased, and the sync manager takes over the result. *)

From stdpp Require Import base list strings gmap.
From Stdlib Require Import ZArith Lia.
From S2P Require Import Prelude.
From S2P Require Import DpsLsn Vote VoteFacts.
From S2P Require Import SyncHeap SyncHeapFacts.
From S2P Require Import Sync SyncFacts SyncRun SyncMembers.
From S2P Require Import ReplSet ReplSetFacts ReplSetInv ReplSetRun.

Open Scope Z_scope.

(** ** The sync manager while members are added *)

(** [keys] are the members before the change, which the manager still lists. *)
Record adding (n : bool) (keys : list Z) (s : clsReplicateSet) : Prop := {
  ad_nodup : NoDup keys;
  ad_members : members (rs_sync s) ≡ₚ keys;
  ad_new : forall id st, node_of (rs_info s) id = Some st -> id ∉ keys -> id ∈ gi_alives (rs_info s);
  ad_flags : flags_ok (gi_alives (rs_info s)) (_notifyList (rs_sync s));
  ad_bound : n = true -> forall i, (validCount (rs_sync s) <= i)%nat -> heap_of (rs_sync s) i = [];
  ad_idle : n = true -> vm_current (rs_vote s) <> Some PRIMARY ->
    forall i, heap_of (rs_sync s) i = []
}.

Record adds (n : bool) (keys : list Z) (s : clsReplicateSet) : Prop := {
  as_group : group_ok None (rs_info s);
  as_local : gi_local (rs_info s) <> MSG_INVALID_ROUTEID;
  as_roles : roles (rs_vote s);
  as_sync : rs_restart s = true \/ adding n keys s
}.

Lemma inv_adds n s : inv n None s -> adds n (map fst (gi_info (rs_info s))) s.
Proof.
  intros [Hg Hl Hr Hs]. split; try done. destruct Hs as [Hs|[H1 H2 H3 H4 H5 H6]]; [by left|right].
  split; try done.
  - by eapply keys_NoDup.
  - intros id st Hst []. apply om_find_keys. by exists st.
  - intros Hn i Hi. apply H5; [done|]. by erewrite <- validCount_alives.
Qed.

Definition named (id : Z) (s : clsReplicateSet) : clsReplicateSet :=
  with_group s (add_member id id (rs_info s)).

Lemma add_frame id g : gi_alives (add_member id id g) = gi_alives g /\
  gi_local (add_member id id g) = gi_local g /\ gi_primary (add_member id id g) = gi_primary g.
Proof. unfold add_member. by destruct (om_find id (gi_info g)). Qed.

Lemma add_node_of id g k : k <> id -> node_of (add_member id id g) k = node_of g k.
Proof.
  intros Hk. unfold add_member. fold (node_of g id). destruct (node_of g id).
  - rewrite node_of_alter. by destruct (Z.eqb_spec id k).
  - apply om_find_insert_ne. done.
Qed.

Lemma hear_node_of id g k : node_of (hear id g) k
  = if id =? k then reset_times <$> node_of g k else node_of g k.
Proof. unfold hear. rewrite node_of_alter. by case_bool_decide. Qed.

(** A node of the catalog is named, then heard. *)
Lemma add_step n keys id s rc s' o : adds n keys s -> id <> gi_local (rs_info s) ->
  _alive id (named id s) = Some (rc, s', o) -> adds n keys s'.
Proof.
  intros [Hg Hl Hr Hs] Hne. rewrite alive_eq. 
  destruct (group_ok_add id (rs_info s) Hg Hne) as [Hg1 [st Hst]].
  change (rs_info (named id s)) with (add_member id id (rs_info s)). rewrite Hst. intros [= <- <- <-].
  destruct (add_frame id (rs_info s)) as (F1 & F2 & F3).
  destruct (hear_frame id (add_member id id (rs_info s))) as [F4 F5].
  assert (Hok : group_ok None (hear id (add_member id id (rs_info s)))).
  { eapply group_ok_hear; [exact Hg1|by exists st|by right]. }
  pose proof (heard_same id st (named id s) Hst (g_identity _ _ Hg1 _ _ Hst))
    as [A1 A2 A3 A4 A5 A6 A7 _ A8].
  change (rs_info (named id s)) with (add_member id id (rs_info s)) in *.
  split; rewrite ?A1; try done.
  - by rewrite F5, F2.
  - unfold roles, role_full, role_weak in *. fold (rs_info s) (rs_info (heard id st (named id s))) in *.
    rewrite A1, A2, A3, F4, F5, F2, F3. exact Hr.
  - destruct Hs as [Hs|[H1 H2 H3 H4 H5 H6]]; [left; rewrite A5; exact Hs|right].
    split; rewrite ?A1; try done.
    + rewrite A6. exact H2.
    + intros k stk Hk Hnk. rewrite hear_alives, F1. rewrite hear_node_of in Hk.
      destruct (Z.eqb_spec id k) as [<-|Hnek].
      * case_bool_decide; [done|]. rewrite key_insert_elem. by left.
      * rewrite add_node_of in Hk by congruence. specialize (H3 k stk Hk Hnk).
        case_bool_decide; [done|]. rewrite key_insert_elem. by right.
    + apply A7; [|by rewrite F1]. change (NoDup (members (rs_sync s))). by rewrite H2.
    + intros Hn i Hi. unfold heap_of. rewrite A4. apply H5; [done|].
      change (validCount (rs_sync s) <= validCount (rs_sync (heard id st (named id s))))%nat in A8. lia.
    + intros Hn Hp i. unfold heap_of. rewrite A4. rewrite A2 in Hp. by apply H6.
Qed.

Lemma adds_routes n keys s r : adds n keys s -> adds n keys (set_rs_routes s r).
Proof.
  intros [Hg Hl Hr Hs]. split; try done. destruct Hs as [Hs|[H1 H2 H3 H4 H5 H6]]; [by left|right].
  by split.
Qed.

Lemma updateRoute_step id node s : exists rc r,
  agent_updateRoute id node s = Some (rc, set_rs_routes s r, []).
Proof. unfold agent_updateRoute. destruct (updateRoute _ _ _) as [rc r]. eauto. Qed.

Lemma setGroup_loop_adds n keys nodes s hl ch nodes' s' o : adds n keys s ->
  Forall (fun kv => nd_id kv.2 = kv.1) nodes ->
  setGroup_loop nodes s = Some (hl, ch, nodes', s', o) ->
  adds n keys s' /\ map fst nodes' = map fst nodes /\ gi_local (rs_info s') = gi_local (rs_info s) /\
  hl = bool_decide (gi_local (rs_info s) ∈ map fst nodes).
Proof.
  revert s hl ch nodes' o. induction nodes as [|[key node] nodes IH]; intros s hl ch nodes' o Ha Hf H.
  { injection H as <- _ <- <- _. done. }
  apply Forall_cons in Hf as [Hk Hf]. simpl in Hk. cbn [setGroup_loop] in H. rewrite bind_getRS in H.
  destruct (Z.eqb_spec key (gi_local (rs_info s))) as [Hkl|Hkl].
  { repl_split H r s1 H1. destruct r as [[hl1 ch1] rest]. injection H as <- _ <- <- _.
    eapply IH in H1 as (A1 & A2 & A3 & A4); [|done|done].
    split_and!; [done|simpl; by rewrite A2|done|].
    symmetry. apply bool_decide_eq_true_2. simpl. rewrite Hkl. by left. }
  assert (Hcons : forall l, bool_decide (gi_local (rs_info s) ∈ key :: l)
    = bool_decide (gi_local (rs_info s) ∈ l)).
  { intros l. apply bool_decide_ext. rewrite elem_of_cons. naive_solver. }
  destruct (_ && _).
  { repl_split H r s1 H1. destruct r as [[hl1 ch1] rest]. injection H as <- _ <- <- _.
    eapply IH in H1 as (A1 & A2 & A3 & A4); [|done|done].
    split_and!; [done|simpl; by rewrite A2|done|]. cbn [map fst]. by rewrite Hcons. }
  repl_split H rc s1 H1. destruct (updateRoute_step (nd_id node) (mkNode (nd_addr node) (nd_id node) true) s)
    as (rc1 & r1 & E). rewrite E in H1. injection H1 as -> <- _. clear E.
  repl_split H u s2 H2. repl_split H r s3 H3. destruct r as [[hl1 ch1] rest]. injection H as <- _ <- <- _.
  set (s1 := set_rs_routes s r1) in *.
  assert (adds n keys s2 /\ gi_local (rs_info s2) = gi_local (rs_info s)) as [Ha2 Hl2].
  { pose proof (adds_routes n keys s r1 Ha) as Ha1.
    destruct (SDB_OK =? rc); [|by injection H2 as _ <- _].
    rewrite bind_onGroup, Hk in H2. repl_split H2 v s4 H4. injection H2 as _ <- _.
    split.
    - eapply add_step; [exact Ha1|exact Hkl|exact H4].
    - rewrite alive_eq in H4. destruct (node_of _ key) as [st|]; [|by injection H4 as _ <- _; apply add_frame].
      injection H4 as _ <- _. unfold heard.
      case_bool_decide; (etransitivity; [apply (hear_frame key)|apply (add_frame key (rs_info s1))]). }
  eapply IH in H3 as (A1 & A2 & A3 & A4); [|done|done].
  split_and!; [done|simpl; by rewrite A2|congruence|]. cbn [map fst]. by rewrite Hcons, <- Hl2.
Qed.

(** ** Members are erased *)

Definition stays (nodes : list (Z * netRouteNode)) (id : Z) : bool :=
  match om_find id nodes with Some node => nd_isActive node | None => false end.

Lemma erase_fold nodes (l : list (Z * clsSharingStatus)) g :
  let g' := foldl (fun g '(key, _) =>
    match om_find key nodes with
    | Some node => if nd_isActive node then g else erase_member key g
    | None => erase_member key g
    end) g l in
  gi_local g' = gi_local g /\
  (forall id, node_of g' id = if bool_decide (id ∈ map fst l) && negb (stays nodes id)
                              then None else node_of g id) /\
  (forall id, id ∈ gi_alives g' <-> id ∈ gi_alives g /\ (id ∉ map fst l \/ stays nodes id = true)) /\
  (gi_primary g' = gi_primary g \/ (gi_primary g ∈ map fst l /\ gi_primary g' = 0)).
Proof.
  revert g. induction l as [|[key st] l IH]; intros g; cbn [foldl map fst].
  { split_and!; [done|done| |by left]. intros id. set_solver. }
  set (g1 := match om_find key nodes with
             | Some node => if nd_isActive node then g else erase_member key g
             | None => erase_member key g end).
  assert (Hg1 : g1 = if stays nodes key then g else erase_member key g).
  { unfold g1, stays. by destruct (om_find key nodes) as [node|]. }
  destruct (IH g1) as (I1 & I2 & I3 & I4). destruct (erase_frame key g) as (F1 & F2 & F3 & F4).
  split_and!.
  - rewrite I1, Hg1. by destruct (stays nodes key).
  - intros id. rewrite I2, Hg1. destruct (decide (id = key)) as [->|Hne].
    + rewrite (bool_decide_eq_true_2 (key ∈ key :: _)) by by left.
      destruct (stays nodes key); simpl; [by rewrite andb_false_r|].
      rewrite erase_node_of, Z.eqb_refl. by destruct (_ && _).
    + rewrite (bool_decide_ext (id ∈ key :: map fst l) (id ∈ map fst l)) by (rewrite elem_of_cons; naive_solver).
      destruct (stays nodes key); [done|]. rewrite erase_node_of.
      by destruct (Z.eqb_spec key id).
  - intros id. rewrite I3, Hg1. destruct (stays nodes key) eqn:Hk.
    + rewrite elem_of_cons. destruct (decide (id = key)) as [->|]; rewrite ?Hk; intuition congruence.
    + rewrite F1, key_erase_elem, elem_of_cons.
      destruct (decide (id = key)) as [->|]; rewrite ?Hk; intuition congruence.
  - rewrite elem_of_cons. destruct I4 as [I4|[I4 I5]]; rewrite Hg1 in I4; rewrite Hg1 in *;
      destruct (stays nodes key); [by left| |by right; auto|].
    + rewrite I4, F4. destruct (Z.eqb_spec key (gi_primary g)); [right; auto|by left].
    + rewrite F4 in I4. destruct (Z.eqb_spec key (gi_primary g)); right; auto.
Qed.

Lemma erase_members_spec nodes g :
  gi_local (erase_members nodes g) = gi_local g /\
  (forall id, node_of (erase_members nodes g) id = if stays nodes id then node_of g id else None) /\
  (forall id, is_Some (node_of g id) ->
     id ∈ gi_alives (erase_members nodes g) <-> id ∈ gi_alives g /\ stays nodes id = true).
Proof.
  destruct (erase_fold nodes (gi_info g) g) as (I1 & I2 & I3 & _). fold (erase_members nodes g) in *.
  split_and!; [done| |].
  - intros id. rewrite I2. case_bool_decide as Hin; simpl; [by destruct (stays nodes id)|].
    destruct (stays nodes id); [done|]. apply eq_None_not_Some. unfold node_of. by rewrite om_find_keys.
  - intros id Hs. rewrite I3. apply om_find_keys in Hs. tauto.
Qed.

Lemma erase_members_roles nodes g m : group_ok None g -> vm_group m = g -> roles m ->
  gi_local g <> MSG_INVALID_ROUTEID -> roles (set_group m (erase_members nodes g)).
Proof.
  intros Hg Hm Hr Hl.
  enough (gi_local (erase_members nodes g) = gi_local g /\
    (gi_primary (erase_members nodes g) = gi_primary g \/
     (gi_primary g <> gi_local g /\ gi_primary (erase_members nodes g) <> gi_local g))) as [E1 E2].
  { eapply roles_primary; [by rewrite E1, Hm|exact Hr| |reflexivity]. by rewrite Hm, E1. }
  split; [apply erase_members_spec|].
  destruct (erase_fold nodes (gi_info g) g) as (_ & _ & _ & [He|[Hin He]]); [by left|right].
  unfold erase_members. rewrite He. split; [|by intros E; apply Hl].
  apply om_find_keys in Hin as [st Hst]. by eapply member_not_local.
Qed.

(** ** The manager takes over *)

Lemma clear_loop_idle oks okW removed endSub left removedSub lists lists' out :
  (forall i, heap_at lists i = []) ->
  clear_loop removedSub oks okW removed endSub left lists = Some (lists', out) -> lists' = lists.
Proof.
  intros He. assert (Hh : forall fuel sub, clear_heap fuel oks okW removed endSub sub left lists = Some (lists, [])).
  { intros [|fuel] sub; simpl; [done|]. pose proof (He sub) as Hs. unfold heap_at in Hs.
    unfold pop, dataSize. by rewrite Hs. }
  revert out. induction removedSub as [|r IH]; intros out; cbn [clear_loop];
    destruct (Nat.ltb _ _); try (by intros [= <- <-]); rewrite Hh; simpl; [by intros [= <- <-]|].
  destruct (clear_loop r _ _ _ _ _ lists) as [[l2 o2]|] eqn:Hr; [|done]. simpl. intros [= <- <-].
  by eapply IH.
Qed.

Lemma updateNotifyList_idle oks v m rc m' out : updateNotifyList oks v m = Some (rc, m', out) ->
  (forall i, heap_of m i = []) -> forall i, heap_of m' i = [].
Proof.
  intros H He. unfold updateNotifyList in H.
  destruct (Nat.eqb _ _).
  - simpl in H. destruct (Nat.ltb _ _); [done|]. injection H as _ <- _. exact He.
  - unfold clearSyncList in H. destruct (clear_loop _ _ _ _ _ _ _) as [[l o]|] eqn:Hc; [|done].
    apply clear_loop_idle in Hc; [|exact He]. subst l. simpl in H.
    destruct (Nat.ltb _ _); [done|]. injection H as _ <- _. exact He.
Qed.

Section take_over.
Context (n : bool) (keys : list Z) (nodes : list (Z * netRouteNode)) (s : clsReplicateSet).
Context (Hgroup : group_ok None (rs_info s)) (Hadd : adding n keys s).

Let g := erase_members nodes (rs_info s).
Let m := set_info (rs_sync s) g.

Lemma erased_group : group_ok None g.
Proof. by apply group_ok_erases. Qed.

Lemma new_members_flags : flags_ok (gi_alives g) (kept m ++ added true m).
Proof.
  destruct Hadd as [H1 H2 H3 H4 H5 H6].
  destruct (erase_members_spec nodes (rs_info s)) as (_ & E1 & E2).
  assert (Hin : forall id, id ∈ groupIds m -> is_Some (node_of (rs_info s) id) /\
    (id ∈ gi_alives g <-> id ∈ gi_alives (rs_info s))).
  { intros id Hid. change (id ∈ map fst (gi_info g)) in Hid. apply om_find_keys in Hid.
    fold (node_of g id) in Hid. unfold g in Hid. rewrite E1 in Hid.
    destruct (stays nodes id) eqn:Hs; [|by destruct Hid]. split; [done|].
    unfold g. rewrite E2 by done. intuition. }
  intros e [He|He]%elem_of_app.
  - apply kept_in in He as [He Hid]. rewrite (H4 e He). apply bool_decide_ext.
    by destruct (Hin _ Hid) as [_ ->].
  - apply added_in in He as (id & -> & Hid & Hn). simpl. symmetry. apply bool_decide_eq_true_2.
    destruct (Hin _ Hid) as [[st Hst] ->]. apply (H3 id st Hst). intros Hk. apply Hn.
    rewrite <- H2 in Hk. change (id ∈ members m) in Hk.
    apply list_elem_of_In, in_map_iff in Hk as (e & <- & He).
    apply list_elem_of_In, in_map_iff. exists e. split; [done|].
    apply list_elem_of_In, kept_in. split; [by apply list_elem_of_In|done].
Qed.

Lemma take_over_synced env a s' o : (length (gi_info g) <= syncSlots)%nat ->
  sync_updateNotifyList env (with_group s g) = Some (a, s', o) ->
  rs_info s' = g /\ rs_vote s' = rs_vote (with_group s g) /\ rs_restart s' = rs_restart s /\ synced n s'.
Proof.
  intros Hsize H. unfold sync_updateNotifyList in H. change (rs_mgr (with_group s g)) with m in H.
  destruct (updateNotifyList _ _ _) as [[[rc m'] out]|] eqn:Hu; [|done]. injection H as _ <- _.
  split_and!; [done..|].
  pose proof (updateNotifyList_list _ _ _ _ _ _ Hu) as (_ & Hl & Hc & _).
  pose proof erased_group as Hg. pose proof new_members_flags as Hf.
  assert (Hnd : NoDup (members m)) by (change (members m) with (members (rs_sync s)); rewrite (ad_members _ _ _ Hadd); apply Hadd).
  assert (Hm : members m' ≡ₚ map fst (gi_info g)).
  { unfold members. rewrite Hl. apply (new_members_perm true m Hnd). by eapply keys_NoDup. }
  rewrite <- Hl in Hf.
  split; change (rs_info (set_rs_sync (with_group s g) m')) with g;
    change (rs_sync (set_rs_sync (with_group s g) m')) with m'; try done.
  - intros Hn i Hi. eapply (updateNotifyList_heaps _ _ _ _ _ _ Hu).
    + intros j Hj. by apply (ad_bound _ _ _ Hadd).
    + rewrite <- (validCount_alives _ _ _ Hg Hm Hf) in Hi. unfold validCount in Hi.
      rewrite Hl, List.filter_app, length_app in Hi. lia.
  - intros Hn Hp. eapply updateNotifyList_idle; [exact Hu|]. by apply (ad_idle _ _ _ Hadd).
Qed.
End take_over.

(** At most six others fit beside the member itself. *)
Lemma erased_size nodes s : group_ok None (rs_info s) ->
  (length nodes <= 7)%nat -> (nodes = [] \/ gi_local (rs_info s) ∈ map fst nodes) ->
  (length (gi_info (erase_members nodes (rs_info s))) <= syncSlots)%nat.
Proof.
  intros Hg Hlen Hloc. pose proof (group_ok_erases None nodes _ Hg) as Hge.
  destruct (erase_members_spec nodes (rs_info s)) as (El & E1 & _).
  set (g := erase_members nodes (rs_info s)) in *.
  assert (Hsub : forall id, id ∈ map fst (gi_info g) -> id ∈ map fst nodes).
  { intros id Hid. apply om_find_keys in Hid. fold (node_of g id) in Hid. rewrite E1 in Hid.
    apply om_find_keys. unfold stays in Hid. destruct (om_find id nodes); [by eexists|by destruct Hid]. }
  rewrite <- (length_map fst). destruct Hloc as [->|Hloc].
  { destruct (map fst (gi_info g)) as [|k l]; [simpl; lia|]. specialize (Hsub k ltac:(by left)).
    by apply not_elem_of_nil in Hsub. }
  enough (length (gi_local (rs_info s) :: map fst (gi_info g)) <= length (map fst nodes))%nat as Hle.
  { simpl in Hle. rewrite !length_map in *. unfold syncSlots, CLS_REPLSET_MAX_NODE_SIZE. lia. }
  apply submseteq_length, NoDup_submseteq.
  - constructor; [|by eapply keys_NoDup]. rewrite <- El, <- om_find_keys. 
    fold (node_of g (gi_local g)). rewrite (g_local_out _ _ Hge). by intros [? ?].
  - intros id [->|Hid]%elem_of_cons; [done|by apply Hsub].
Qed.

Lemma group_version_inv n s v : inv n None s -> inv n None (with_group s (with_version (rs_info s) v)).
Proof.
  intros Hi. eapply frame_inv; [exact Hi|by split|]. apply group_ok_version, Hi.
Qed.

Lemma setGroupSet_inv n env version nodes s r s' o : inv n None s ->
  Forall (fun kv => nd_id kv.2 = kv.1) nodes ->
  _setGroupSet env version nodes s = Some (r, s', o) -> inv n None s'.
Proof.
  intros Hi Hf H. unfold _setGroupSet in H. rewrite bind_getInfo in H.
  destruct (_ <=? _); [by injection H as _ <- _|].
  destruct (Z.ltb_spec CLS_REPLSET_MAX_NODE_SIZE (Z.of_nat (length nodes))) as [|Hlen]; [by injection H as _ <- _|].
  rewrite bind_onGroup in H. pose proof (group_version_inv n s version Hi) as Hi0.
  set (s0 := with_group s (with_version (rs_info s) version)) in *.
  change (set_rs_vote s _) with s0 in H.
  repl_split H q s1 H1. destruct q as [[hasLocal changed] nodes'].
  set (spare := SPARE_GROUPID =? groupID (gi_local (rs_info s))) in *.
  eapply setGroup_loop_adds in H1 as (A1 & A2 & A3 & A4); [|by apply inv_adds|by destruct spare].
  destruct A1 as [B1 B2 B3 B4]. destruct (spare || hasLocal) eqn:Hloc; cbn [negb] in H.
  2: { rewrite bind_modRS in H. injection H as _ <- _. split; try done. by left. }
  rewrite bind_onGroup in H. fold (with_group s1 (erase_members nodes' (rs_info s1))) in H.
  repl_split H u s2 H2. injection H as _ <- _.
  assert (Hsize : (length (gi_info (erase_members nodes' (rs_info s1))) <= syncSlots)%nat).
  { apply erased_size; [done| |].
    - rewrite <- (length_map fst), A2, length_map. unfold CLS_REPLSET_MAX_NODE_SIZE in Hlen.
      destruct spare; simpl; lia.
    - rewrite A2, A3. destruct spare; simpl in *.
      + left. by destruct nodes'.
      + right. rewrite Hloc in A4. symmetry in A4. by apply bool_decide_eq_true_1 in A4. }
  assert (Hge := group_ok_erases None nodes' _ B1).
  destruct (erase_members_spec nodes' (rs_info s1)) as (El & _ & _).
  pose proof (erase_members_roles nodes' (rs_info s1) (rs_vote s1) B1 eq_refl B3 B2) as Hr.
  destruct B4 as [B4|B4].
  - unfold sync_updateNotifyList in H2. destruct (updateNotifyList _ _ _) as [[[rc m'] out]|]; [|done].
    injection H2 as _ <- _. split; [done|by rewrite <- El in B2|done|by left].
  - eapply take_over_synced in H2 as (T1 & T2 & T3 & T4); [|done|done|done].
    split; [by rewrite T1|by rewrite T1, El|by rewrite T2|by right].
Qed.

Lemma group_of_keys l : Forall (fun kv => nd_id kv.2 = kv.1) (group_of l).
Proof.
  unfold group_of. assert (Forall (fun kv : Z * netRouteNode => nd_id kv.2 = kv.1) []) as H0 by constructor.
  revert H0. generalize (@nil (Z * netRouteNode)) as acc. induction l as [|nd l IH]; intros acc Ha; simpl; [done|].
  apply IH. destruct (om_find (nd_id nd) acc); [done|].
  apply Forall_forall. intros kv Hin. apply list_elem_of_In, om_insert_In in Hin as [->|Hin]; [done|].
  rewrite Forall_forall in Ha. by apply Ha, list_elem_of_In.
Qed.

Lemma handleGroupRes_inv n env result parsed s rc s' o : (n = true -> notified env = true) ->
  inv n None s -> _handleGroupRes env result parsed s = Some (rc, s', o) -> inv n None s'.
Proof.
  intros Henv Hi H. unfold _handleGroupRes in H. destruct (negb (SDB_OK =? result)).
  { repl_split H u s1 H1. injection H as _ <- _.
    destruct (_ && _); by injection H1 as _ <- _. }
  destruct parsed as [e|[[version nodes] hash]]; [by injection H as _ <- _|].
  repl_split H q s1 H1. destruct q as [rc1 changed].
  apply setGroupSet_inv with (n := n) in H1; [|done|apply group_of_keys].
  destruct (_ && _); [by injection H as _ <- _|]. rewrite bind_onGroup in H.
  assert (Hi2 : inv n None (with_group s1 (setHashCode (rs_info s1) hash))).
  { eapply frame_inv; [exact H1|by split|]. apply group_ok_hash, H1. }
  set (s2 := with_group s1 (setHashCode (rs_info s1) hash)) in *. change (set_rs_vote s1 _) with s2 in H.
  repl_split H u s3 H3. rewrite bind_getRS in H.
  assert (Hi3 : inv n None s3).
  { destruct (negb _); [|by injection H3 as _ <- _].
    eapply inv_calmly; [apply calmly_cataDo|exact Hi2|exact H3]. }
  destruct (rs_active s3); [by injection H as _ <- _|].
  repl_split H v s4 H4. injection H4 as _ <- _. rewrite bind_modRS in H.
  repl_split H w s5 H5. injection H as _ <- _.
  apply (vote_inv n env Henv None) in H5 as [H5 _]; [done| |].
  - eapply inv_calm; [|exact Hi3]. calm_trivial.
  - intros m' out. destruct Hi3 as [_ I2 I3 _].
    destruct (voteMachine_init _ _ _) as [[[rc0 m0] o0']|] eqn:Hini; [|done]. intros [= <- <-].
    by eapply init_activated.
Qed.
