(* ===== verification/ReplSetThms.v ===== *)
(** * Failure detection, roles and waiting writes of a replicate set

    Runs of a replicate set: messages, timers and events of the cluster
    thread, interleaved with the calls of writing sessions and of replication
    sessions.  In every run the group information keeps its invariant, members
    are taken for alive exactly as long as they were heard recently enough,
    and no write waits for more replicas than are alive. *)

From stdpp Require Import base list strings gmap.
From Stdlib Require Import ZArith Lia.
From S2P Require Import Prelude.
From S2P Require Import DpsLsn Vote VoteFacts.
From S2P Require Import SyncHeap SyncHeapFacts.
From S2P Require Import Sync SyncFacts SyncRun SyncMembers.
From S2P Require Import ReplSet ReplSetFacts ReplSetInv ReplSetRun ReplSetGroup.

Open Scope Z_scope.

(** ** Runs *)

Inductive replEvent : Set :=
| RMessage (env : replEnv) (handle : Z) (msg : replMsg)
| RTimer (env : replEnv) (mine : bool) (curTick interval : Z)
| REvent (env : replEnv) (event : eduEvent)
| RStepUp (env : replEnv) (seconds post : Z)
| RAliveNode (lock id : Z)                    (* a replication session *)
| RWrite (ok : bool) (offset edu w : Z)       (* a write starts to wait *)
| RWithdraw (edu : Z) (sub : nat)             (* and gives up *)
| RComplete (id : Z) (lsn : DPS_LSN)          (* a replica confirms *)
| REnableSync (enable : bool).

Definition onMgr (f : clsSyncManager -> option clsSyncManager) : replM unit :=
  fun s =>
    match f (rs_mgr s) with
    | Some m => Some (tt, set_rs_sync s m, [])
    | None => None
    end.

Definition repl_step (ev : replEvent) : replM unit :=
  match ev with
  | RMessage env handle msg => _ ← handleMsg env handle msg; mret tt
  | RTimer env mine curTick interval => onTimer env mine curTick interval
  | REvent env event => _ ← handleEvent env event; mret tt
  | RStepUp env seconds post => _ ← stepUp env seconds post; mret tt
  | RAliveNode lock id => _ ← aliveNode lock id; mret tt
  | RWrite ok offset edu w =>
      onMgr (fun m =>
        match replSet_sync ok offset edu w (mkEvent false 0) m with
        | Some (_, _, m') => Some m'
        | None => None
        end)
  | RWithdraw edu sub => syncDo (fun m => (wait_withdraw edu sub m, []))
  | RComplete id lsn => syncDo (complete id lsn)
  | REnableSync enable => syncDo (fun m => (enableSync enable m, []))
  end.

Fixpoint repl_run (evs : list replEvent) : replM unit :=
  match evs with
  | [] => mret tt
  | ev :: evs' => _ ← repl_step ev; repl_run evs'
  end.

(** The set as constructed; the vote machine's options are those of
    [initialize]. *)
Definition newReplSet (startShiftTime : Z) : clsReplicateSet :=
  let g := mkGroup [] [] 0 0 CLS_BEATID_BEGIN 0 0 in
  mkRS (mkVM None (fun _ => 0) (fun _ => 0) g CLS_ELECTION_WEIGHT_USR_MIN 0 startShiftTime false false)
    (newSyncManager true g) [] [] CLS_REELECTION_LEVEL_NONE 0 false 0 false.

(** A set that was activated as member [local] and then ran [evs]. *)
Definition ran (local : Z) (evs : list replEvent) (s : clsReplicateSet) : Prop :=
  exists shift env s0 rc o0 o, local <> MSG_INVALID_ROUTEID /\
    active env local (newReplSet shift) = Some (rc, s0, o0) /\ repl_run evs s0 = Some (tt, s, o).

(** ** Operations of sessions *)

Definition id_flag (e : clsSyncStatus) : Z * bool := (ss_id e, ss_valid e).

Lemma manager_inv n x s m : inv n x s ->
  map id_flag (_notifyList m) = map id_flag (_notifyList (rs_sync s)) ->
  _aliveCount m = _aliveCount (rs_sync s) ->
  (n = true -> vm_current (rs_vote s) <> Some PRIMARY -> shrinks (_syncList (rs_sync s)) (_syncList m)) ->
  (n = true -> forall i, (length (gi_alives (rs_info s)) <= i)%nat ->
     heap_of (rs_sync s) i = [] -> heap_of m i = []) ->
  inv n x (set_rs_sync s m).
Proof.
  intros [Hg Hl Hr Hs] Hm Hc Hsh Hb. split; try done.
  destruct Hs as [Hs|[H1 H2 H3 H4 H5 H6]]; [by left|right].
  assert (He : forall e, e ∈ _notifyList m -> exists e0, e0 ∈ _notifyList (rs_sync s) /\ id_flag e0 = id_flag e).
  { intros e Hin. apply list_elem_of_In, (in_map id_flag) in Hin. rewrite Hm in Hin.
    apply in_map_iff in Hin as (e0 & <- & Hin). exists e0. split; [by apply list_elem_of_In|done]. }
  split; change (rs_info (set_rs_sync s m)) with (rs_info s); cbn [rs_sync set_rs_sync rs_vote]; try done.
  - unfold members in *. replace (List.map ss_id (_notifyList m)) with (List.map ss_id (_notifyList (rs_sync s))); [done|].
    assert (forall l, List.map ss_id l = map fst (map id_flag l)) as Hmap by (intros; by rewrite map_map).
    by rewrite !Hmap, Hm.
  - intros e (e0 & Hin & [= E1 E2])%He. rewrite <- E1, <- E2. by apply H3.
  - congruence.
  - intros Hn i Hi. apply Hb; [done|done|by apply H5].
  - intros Hn Hp i. apply Hsh; [done|done|by apply H6].
Qed.

Lemma shrinking_inv n x s m : inv n x s ->
  map id_flag (_notifyList m) = map id_flag (_notifyList (rs_sync s)) ->
  _aliveCount m = _aliveCount (rs_sync s) -> shrinks (_syncList (rs_sync s)) (_syncList m) ->
  inv n x (set_rs_sync s m).
Proof. intros Hi Hm Hc Hs. apply manager_inv; try done. intros _ i _. apply Hs. Qed.

Lemma update_first_flags id f l : (forall e, id_flag (f e) = id_flag e) ->
  map id_flag (update_first id f l) = map id_flag l.
Proof.
  intros Hf. induction l as [|e l IH]; simpl; [done|]. destruct (_ =? _); simpl; [by rewrite Hf|by rewrite IH].
Qed.

Lemma complete_frame id lsn m :
  map id_flag (_notifyList (complete id lsn m).1) = map id_flag (_notifyList m) /\
  _aliveCount (complete id lsn m).1 = _aliveCount m /\
  shrinks (_syncList m) (_syncList (complete id lsn m).1).
Proof.
  unfold complete. destruct (_ || _); [split_and!; [done|done|by intros ?]|].
  destruct (_ && _); [|destruct (negb _); split_and!; try done; by intros ?].
  unfold complete_local, wake. set (m1 := set_notify m _).
  pose proof (wake_loop_shrinks (rev (createWakePlan m1)) 0 (_syncList m) (_checkList m)) as H.
  simpl in *. destruct (wake_loop _ _ _ _) as [[l c] o]. cbn [fst] in *.
  split_and!; [|done|done]. by apply update_first_flags.
Qed.

Lemma withdraw_shrinks edu sub m : shrinks (_syncList m) (_syncList (wait_withdraw edu sub m)).
Proof.
  unfold wait_withdraw. destruct (find_edu edu _) as [i|] eqn:Hf; [|by intros ?].
  apply shrinks_insert. unfold heap_at. intros He. by rewrite He in Hf.
Qed.

Lemma withdraw_frame edu sub m : _notifyList (wait_withdraw edu sub m) = _notifyList m /\
  _aliveCount (wait_withdraw edu sub m) = _aliveCount m.
Proof. unfold wait_withdraw. by destruct (find_edu _ _). Qed.

(** A write that starts to wait asks for at most the live replicas. *)
Lemma sync_enter_room ok ses w m entry m' :
  sync_enter ok ses w m = Some (entry, m') ->
  _aliveCount m <= Z.of_nat (validSync m) < 2 ^ 31 -> 0 <= _aliveCount m ->
  _notifyList m' = _notifyList m /\ _aliveCount m' = _aliveCount m /\
  (_syncList m' = _syncList m \/
   (gi_primary (_info m) = gi_local (_info m) /\ gi_primary (_info m) <> MSG_INVALID_ROUTEID /\
    exists sub h, _syncList m' = <[sub := h]> (_syncList m) /\ (Z.of_nat sub < _aliveCount m))).
Proof.
  intros H Hv H0. unfold sync_enter in H. unfold CLS_REPLSE_WRITE_ONE in H. cbv zeta in H.
  destruct (Z.leb_spec w 1) as [|Hw]; [injection H as _ <-; auto|].
  destruct (Z.eqb_spec 0 (Z.of_nat (validSync m))) as [|Hne]; [injection H as _ <-; auto|].
  destruct (Z.eqb_spec MSG_INVALID_ROUTEID (gi_primary (_info m))) as [|Hp]; [injection H as _ <-; auto|].
  destruct (Z.eqb_spec (gi_primary (_info m)) (gi_local (_info m))) as [Hl|]; [|injection H as _ <-; auto].
  cbn [orb negb] in H.
  destruct (_ && _) eqn:Hroom; [injection H as _ <-; auto|].
  set (sub := Z.to_nat _) in H. destruct (_checkList m !! sub) as [check|]; [|done].
  destruct (_syncList m !! sub) as [h|]; [|done]. cbn [mbind option_bind] in H.
  destruct (negb (DPS_INVALID_LSN_OFFSET =? check) && (endLsn ses <? check)); [injection H as _ <-; auto|].
  destruct (push ok ses h) as [[rc h']|]; [|done]. simpl in H. injection H as _ <-. simpl.
  split_and!; [done|done|right]. split_and!; [done|congruence|]. exists sub, h'. split; [done|].
  rewrite andb_false_iff, !Z.ltb_ge in Hroom. rewrite u32_small in Hroom by lia.
  unfold sub. destruct (Z.ltb_spec (Z.of_nat (validSync m) + 1) w); lia.
Qed.

Lemma write_inv n s ok offset edu w entry ev m : inv n None s ->
  replSet_sync ok offset edu w (mkEvent false 0) (rs_mgr s) = Some (entry, ev, m) ->
  inv n None (set_rs_sync s m).
Proof.
  intros Hi H. pose proof Hi as [Hg Hl Hr Hs]. unfold replSet_sync in H.
  destruct (_ || _). { injection H as _ _ <-. apply shrinking_inv; try done. by intros ?. }
  destruct (sync_enter _ _ _ _) as [[e m1]|] eqn:He; [|done]. simpl in H. injection H as _ _ <-.
  destruct Hs as [Hs|Hs]. { split; try done. by left. }
  pose proof Hs as [H1 H2 H3 H4 H5 H6].
  pose proof (members_length _ _ _ Hg Hs) as Hv. pose proof (alives_le _ _ Hg) as Hle.
  apply sync_enter_room in He as (A1 & A2 & A3).
  - cbn [rs_mgr set_info _notifyList _aliveCount _syncList _info] in A1, A2, A3.
    apply manager_inv; [done|by rewrite A1|done|..].
    + intros _ Hp. destruct A3 as [->|(Ep & Ep0 & _)]; [by intros ?|].
      destruct Hr as [[_ Hw] _]. by destruct (Hw Hp).
    + intros Hn i Hi' Hh. unfold heap_of in *. destruct A3 as [->|(_ & _ & sub & h & -> & Hsub)]; [done|].
      fold (heap_at (<[sub:=h]> (_syncList (rs_sync s))) i). rewrite heap_at_insert.
      rewrite H4 in Hsub. destruct (decide _) as [[<- _]|]; [lia|done].
  - change (_aliveCount (rs_mgr s)) with (_aliveCount (rs_sync s)).
    change (validSync (rs_mgr s)) with (validSync (rs_sync s)). rewrite Hv, H4.
    unfold syncSlots, CLS_REPLSET_MAX_NODE_SIZE in H1. lia.
  - change (_aliveCount (rs_mgr s)) with (_aliveCount (rs_sync s)). lia.
Qed.

(** ** Every event keeps the invariant *)

(** Whether a timer event counts for the set. *)
Definition effective (mine : bool) (curTick interval : Z) (s : clsReplicateSet) : bool :=
  mine && negb (pmdGetTickSpanTime (rs_lastTimerTick s) curTick <? interval / 2) && rs_active s.

Lemma timer_inv n env mine curTick interval s a s' o : (n = true -> notified env = true) ->
  inv n None s -> onTimer env mine curTick interval s = Some (a, s', o) ->
  inv n None s' /\
  forall k, if effective mine curTick interval s
    then exists g, group_ok None g /\ untouched k (rs_info s) g /\
           untouched k (checked env interval g) (rs_info s')
    else untouched k (rs_info s) (rs_info s').
Proof.
  intros Henv Hi H. unfold onTimer in H. unfold effective.
  destruct mine; cbn [negb andb] in *;
    [|injection H as _ <- _; split; [done|intros; apply untouched_refl]].
  rewrite bind_getRS in H. destruct (_ <? _); cbn [negb andb] in *.
  { injection H as _ <- _; split; [done|intros; apply untouched_refl]. }
  rewrite bind_modRS in H. destruct (cata_handleTimeout _ _) as [meta sent].
  rewrite bind_cataDo in H. repl_split H u s1 H1. injection H1 as _ <- _.
  set (s1 := set_rs_cata (set_rs_tick s curTick) meta) in *.
  assert (C1 : calm s s1) by calm_trivial.
  destruct (rs_active s) eqn:Hact; cbn [negb] in H.
  2: { injection H as _ <- _. split; [by eapply inv_calm|]. intros. by apply untouched_calm. }
  rewrite bind_modRS, bind_getRS in H.
  set (s2 := set_rs_beatTime s1 _) in *. assert (C2 : calm s s2) by calm_trivial.
  pose proof (inv_calm _ _ _ _ C2 Hi) as Hi2.
  repl_split H v s3 H3.
  assert (inv n None s3 /\ forall k, untouched k (rs_info s) (rs_info s3)) as [Hi3 Hu3].
  { destruct (Z.leb_spec CLS_SHARING_BETA_INTERVAL (rs_beatTime s2)) as [Hbt|].
    - repl_split H3 w s4 H4. injection H3 as _ <- _.
      apply (sharingBeat_inv n) in H4 as [I4 U4]; [|done|unfold CLS_SHARING_BETA_INTERVAL in *; lia].
      split; [eapply inv_calm; [|exact I4]; calm_trivial|]. intros k.
      eapply untouched_trans; [by apply untouched_calm|apply U4].
    - injection H3 as _ <- _. split; [done|]. intros k. by apply untouched_calm. }
  repl_split H w s4 H4. apply (checkBreak_inv n) in H4 as [Hi4 E4]; [|done].
  repl_split H y s5 H5. apply (vote_inv n env Henv None) in H5 as [Hi5 M5]; [|done|].
  2: { intros m' out. destruct Hi4 as [_ I2 I3 _]. by apply timeout_activated. }
  pose proof (calmly_syncDo _ (timer_frame interval) _ _ _ _ H) as C6.
  split; [by eapply inv_calm|]. intros k. exists (rs_info s3). split_and!; [apply Hi3|apply Hu3|].
  rewrite <- E4. eapply untouched_trans; [by apply untouched_same|by apply untouched_calm].
Qed.

(** Roles are notified: no node starts up and no data center is closed. *)
Definition event_notified (ev : replEvent) : Prop :=
  match ev with
  | RMessage env _ _ | RTimer env _ _ _ | REvent env _ | RStepUp env _ _ => notified env = true
  | _ => True
  end.

(** An event that neither brings word of [id] nor changes the group. *)
Definition quiet (id : Z) (ev : replEvent) : Prop :=
  match ev with
  | RMessage _ _ (MsgBeat _ beat) => beat_identity beat <> id
  | RMessage _ _ (MsgBeatRes identity) => identity <> id
  | RMessage _ _ (MsgGroupRes _ _) => False
  | RAliveNode _ id' => id' <> id
  | _ => True
  end.

Definition is_timer (ev : replEvent) : bool :=
  match ev with RTimer _ _ _ _ => true | _ => false end.

(** What an event that is no timer does, to the invariant and to the times of
    members it brings no word of. *)
Definition keeps (n : bool) (ev : replEvent) {A} (c : replM A) : Prop :=
  forall s a s' o, inv n None s -> c s = Some (a, s', o) ->
    inv n None s' /\ forall k, quiet k ev -> untouched k (rs_info s) (rs_info s').

Lemma keeps_calmly n ev {A} (c : replM A) : calmly c -> keeps n ev c.
Proof.
  intros Hc s a s' o Hi H. apply Hc in H. split; [by eapply inv_calm|]. intros. by apply untouched_calm.
Qed.

Lemma event_keeps_ret n ev {A} (c : replM A) {B} (b : B) : keeps n ev c -> keeps n ev (_ ← c; mret b).
Proof. intros Hc s a s' o Hi H. repl_split H r s1 H1. injection H as _ <- _. by eapply Hc. Qed.

Lemma keeps_when_active n ev c : keeps n ev c -> keeps n ev (when_active c).
Proof.
  intros Hc s a s' o Hi H. unfold when_active in H. rewrite bind_getRS in H.
  destruct (rs_active s); [by eapply Hc|]. injection H as _ <- _. split; [done|]. intros; apply untouched_refl.
Qed.

Lemma keeps_vote n ev env f : (n = true -> notified env = true) ->
  (forall m m' out, gi_local (vm_group m) <> MSG_INVALID_ROUTEID -> roles m ->
     f m = Some (m', out) -> activated m m' out) ->
  keeps n ev (voteDo env f).
Proof.
  intros Henv Hf s a s' o Hi H. apply (vote_inv n env Henv None) in H as [H1 H2]; [|done|].
  - split; [done|]. intros. by apply untouched_same.
  - intros m' out. destruct Hi as [_ I2 I3 _]. by apply Hf.
Qed.

Lemma keeps_force n ev env id ms : (n = true -> notified env = true) -> keeps n ev (vote_force env id ms).
Proof.
  intros Henv. apply keeps_vote; [done|]. intros m m' out Hl Hr. apply force_activated; [done|apply Hr|done].
Qed.

Lemma keeps_manager n ev f :
  (forall m, map id_flag (_notifyList (f m).1) = map id_flag (_notifyList m) /\
     _aliveCount (f m).1 = _aliveCount m /\ shrinks (_syncList m) (_syncList (f m).1)) ->
  keeps n ev (syncDo f).
Proof.
  intros Hf s a s' o Hi H. unfold syncDo in H. specialize (Hf (rs_mgr s)).
  destruct (f (rs_mgr s)) as [m out]. injection H as _ <- _. destruct Hf as (F1 & F2 & F3).
  split; [by apply shrinking_inv|]. intros; apply untouched_refl.
Qed.

Lemma keeps_ballot n ev env msg : (n = true -> notified env = true) -> keeps n ev (vote_handleMsg env msg).
Proof.
  intros Henv s a s' o Hi H. unfold vote_handleMsg in H.
  destruct (voteMachine_handleInput _ _ _) as [[[rc m] out]|] eqn:Hh; [|done].
  destruct (vote_effects env out _) as [[[u s1] o1]|] eqn:He; [|done]. injection H as _ <- _.
  change (voteDo env (fun _ => Some (m, out)) s = Some (u, s1, o1)) in He.
  apply (vote_inv n env Henv None) in He as [H1 H2]; [|done|].
  - split; [done|]. intros. by apply untouched_same.
  - intros m' out' [= <- <-]. destruct Hi as [_ I2 I3 _]. by eapply input_activated.
Qed.

Lemma keeps_aliveNode n lock id : keeps n (RAliveNode lock id) (aliveNode lock id).
Proof.
  intros s a s' o Hi H. split; [by eapply aliveNode_inv|]. intros k Hk. simpl in Hk.
  unfold aliveNode in H. rewrite bind_getInfo in H. destruct (SDB_OK =? lock).
  - case_bool_decide; [rewrite bind_onGroup in H; injection H as _ <- _; by apply (untouched_alter id k)|].
    injection H as _ <- _. apply untouched_refl.
  - injection H as _ <- _. apply untouched_refl.
Qed.

Lemma keeps_message n env handle msg : (n = true -> notified env = true) ->
  keeps n (RMessage env handle msg) (handleMsg env handle msg).
Proof.
  intros Henv. destruct msg as [result parsed|req beat|result|identity|em| |routeID full|];
    cbn [handleMsg].
  - intros s a s' o Hi H. split; [by eapply handleGroupRes_inv|]. by intros k Hk.
  - apply keeps_when_active. intros s a s' o Hi H.
    apply (handleSharingBeat_inv n env Henv) in H as [H1 H2]; [|done]. split; [done|].
    intros k Hk. apply H2. simpl in Hk. congruence.
  - apply keeps_calmly. apply calmly_bind; [|intros; apply calmly_ret].
    destruct (_ =? _); [destruct (re_primaryByReply env); auto with calm|].
    destruct (_ =? _); auto with calm.
  - apply keeps_when_active. intros s a s' o Hi H. split; [eapply alive_inv; [exact Hi|by left|exact H]|].
    intros k Hk. eapply alive_untouched; [|exact H]. simpl in Hk. congruence.
  - by apply keeps_when_active, keeps_ballot.
  - apply keeps_calmly. intros s a s' o H. rewrite bind_getInfo in H. repl_split H r s1 H1.
    injection H as _ <- _. by eapply calmly_cataCall.
  - apply event_keeps_ret. destruct full; [|apply keeps_calmly, calmly_ret]. apply keeps_manager.
    intros m. split_and!; [by apply update_first_flags|done|by intros ?].
  - apply keeps_calmly, calmly_ret.
Qed.

Lemma keeps_write n ev ok offset edu w : keeps n ev (repl_step (RWrite ok offset edu w)).
Proof.
  intros s a s' o Hi H. simpl in H. unfold onMgr in H.
  destruct (replSet_sync _ _ _ _ _ _) as [[[entry ev'] m]|] eqn:Hw; [|done]. injection H as _ <- _.
  split; [by eapply write_inv|]. intros; apply untouched_refl.
Qed.

(** What an event does that is no timer. *)
Lemma step_keeps n ev : (n = true -> event_notified ev) -> is_timer ev = false ->
  keeps n ev (repl_step ev).
Proof.
  intros Hn Ht. destruct ev as [env handle msg|env mine tick interval|env event|env seconds post|
    lock id|ok offset edu w|edu sub|id lsn|enable]; cbn [repl_step event_notified is_timer] in *; [|done|..].
  - by apply event_keeps_ret, keeps_message.
  - apply event_keeps_ret. destruct event; cbn [handleEvent].
    + unfold _handleStepDown. intros s a s' o Hi H. rewrite bind_onVote in H.
      apply (event_keeps_ret n (REvent env PMD_EDU_EVENT_STEP_DOWN) _ SDB_OK
               (keeps_force n _ env CLS_ELECTION_STATUS_SEC 0 Hn)) in H; [done|].
      eapply inv_calm; [|exact Hi]. calm_trivial.
    + by apply event_keeps_ret, keeps_force.
    + apply keeps_calmly, calmly_ret.
  - apply event_keeps_ret, keeps_calmly. intros s a s' o H. unfold stepUp in H. rewrite bind_getRS in H.
    destruct (negb _); [injection H as _ <- _; apply calm_refl|].
    destruct (negb _); [injection H as _ <- _; apply calm_refl|].
    destruct (atLeastOne _ _); [injection H as _ <- _; apply calm_refl|].
    repl_split H r s1 H1. injection H as _ <- _. by injection H1 as _ <- _; apply calm_refl.
  - apply event_keeps_ret, keeps_aliveNode.
  - apply (keeps_write n _ ok offset edu w).
  - apply keeps_manager. intros m. destruct (withdraw_frame edu sub m) as [F1 F2].
    cbn [fst]. split_and!; [by rewrite F1|done|apply withdraw_shrinks].
  - apply keeps_manager, complete_frame.
  - apply keeps_manager. intros m. split_and!; [done|done|by intros ?].
Qed.

Lemma step_inv n ev s a s' o : (n = true -> event_notified ev) -> inv n None s ->
  repl_step ev s = Some (a, s', o) -> inv n None s'.
Proof.
  intros Hn Hi H. destruct (is_timer ev) eqn:Ht.
  - destruct ev; try done. by apply (timer_inv n) in H as [? _].
  - by apply (step_keeps n ev Hn Ht) in H as [? _].
Qed.

Lemma repl_run_inv n evs s a s' o : (n = true -> Forall event_notified evs) -> inv n None s ->
  repl_run evs s = Some (a, s', o) -> inv n None s'.
Proof.
  revert s o. induction evs as [|ev evs IH]; intros s o Hn Hi H; simpl in H.
  { by injection H as _ <- _. }
  repl_split H u s1 H1. eapply IH; [| |exact H].
  - intros E. specialize (Hn E). by apply Forall_cons in Hn as [_ ?].
  - eapply step_inv; [|exact Hi|exact H1]. intros E. specialize (Hn E). by apply Forall_cons in Hn as [? _].
Qed.

Lemma new_heaps g i : heap_of (newSyncManager true g) i = [].
Proof. do 6 (destruct i as [|i]; [reflexivity|]). by destruct i. Qed.

Lemma active_inv n shift env local rc s o : local <> MSG_INVALID_ROUTEID ->
  active env local (newReplSet shift) = Some (rc, s, o) -> inv n None s.
Proof.
  intros Hl H. unfold active in H. rewrite bind_getRS in H. cbn [newReplSet rs_active] in H.
  rewrite bind_onGroup in H. repl_split H u s1 H1. injection H as _ <- _.
  apply calmly_cataCall in H1. eapply inv_calm; [exact H1|].
  split; [| |split; [split|]|right; split]; simpl; try done.
  - split; simpl; try done; try (by intros ? ?%not_elem_of_nil).
    + constructor.
    + constructor.
  - vm_compute. lia.
  - by intros e ?%not_elem_of_nil.
  - intros _ i _. apply new_heaps.
  - intros _ _ i. apply new_heaps.
Qed.

Lemma ran_inv n local evs s : (n = true -> Forall event_notified evs) -> ran local evs s -> inv n None s.
Proof.
  intros Hn (shift & env & s0 & rc & o0 & o & Hl & Ha & Hr).
  eapply repl_run_inv; [exact Hn| |exact Hr]. by eapply active_inv.
Qed.

(** ** Time and silence *)

Lemma timeoutOf_break id g k : timeoutOf (break id g) k = timeoutOf g k.
Proof.
  unfold timeoutOf. fold (node_of (break id g) k) (node_of g k). rewrite break_node_of.
  destruct (id =? k); [|done]. by destruct (node_of g k).
Qed.

Lemma break_all_spec bt l g id : NoDup l ->
  (id ∈ gi_alives (break_all bt l g) <->
   id ∈ gi_alives g /\ ~ (id ∈ l /\ bt <= timeoutOf g id)) /\
  node_of (break_all bt l g) id
  = if bool_decide (id ∈ l /\ bt <= timeoutOf g id) then break_node <$> node_of g id else node_of g id.
Proof.
  revert g. induction l as [|k l IH]; intros g Hn.
  { change (break_all bt [] g) with g.
    assert (~ (id ∈ [] /\ bt <= timeoutOf g id)) as Hno by (intros [?%not_elem_of_nil _]; done).
    rewrite (bool_decide_eq_false_2 _ Hno). split; [tauto|done]. }
  apply NoDup_cons in Hn as [Hk Hn]. unfold break_all. cbn [foldl].
  set (g1 := if bt <=? timeoutOf g k then break k g else g).
  assert (Ht : forall x, timeoutOf g1 x = timeoutOf g x).
  { intros x. unfold g1. destruct (_ <=? _); [apply timeoutOf_break|done]. }
  destruct (IH g1 Hn) as [I1 I2]. unfold break_all in I1, I2. rewrite Ht in I1, I2.
  destruct (decide (id = k)) as [->|Hne].
  - assert (Hnl : ~ (k ∈ l /\ bt <= timeoutOf g k)) by tauto.
    rewrite (bool_decide_eq_false_2 (k ∈ l /\ _)) in I2 by done.
    assert (Hin : k ∈ k :: l) by by left.
    rewrite I1, I2. unfold g1. destruct (Z.leb_spec bt (timeoutOf g k)) as [Hle|Hlt].
    + destruct (break_frame k g) as (_ & -> & _). rewrite break_node_of, Z.eqb_refl, key_erase_elem.
      rewrite bool_decide_eq_true_2 by done. split; [tauto|done].
    + rewrite bool_decide_eq_false_2 by (intros [_ ?]; lia). split; [|done].
      split; [intros [? _]; split; [done|intros [_ ?]; lia]|tauto].
  - assert (Hiff : (id ∈ k :: l /\ bt <= timeoutOf g id) <-> (id ∈ l /\ bt <= timeoutOf g id)).
    { rewrite elem_of_cons. tauto. }
    rewrite (bool_decide_ext _ _ Hiff), I1, I2. unfold g1.
    destruct (bt <=? timeoutOf g k); [|split; [tauto|done]].
    destruct (break_frame k g) as (_ & -> & _). rewrite break_node_of, key_erase_elem.
    destruct (Z.eqb_spec k id); [congruence|]. split; [tauto|done].
Qed.

Definition ev_ms (ev : replEvent) (s : clsReplicateSet) : Z :=
  match ev with
  | RTimer _ mine curTick interval => if effective mine curTick interval s then interval else 0
  | _ => 0
  end.

(** The time the set's timer measures during a run. *)
Fixpoint elapsed_ms (evs : list replEvent) (s : clsReplicateSet) : Z :=
  match evs with
  | [] => 0
  | ev :: evs' =>
      ev_ms ev s + match repl_step ev s with Some (_, s', _) => elapsed_ms evs' s' | None => 0 end
  end.

(** Timers of a run with the break time [B]. *)
Definition timer_ok (B : Z) (ev : replEvent) : Prop :=
  match ev with
  | RTimer env _ _ interval =>
      sharingBreakTime (re_vote env) = B /\ 0 <= interval /\ B + interval < 2 ^ 32
  | _ => True
  end.

(** Member [id] was last heard [T] milliseconds ago. *)
Definition silent_for (B id T : Z) (g : clsGroupInfo) : Prop :=
  0 <= T /\ exists st, node_of g id = Some st /\
    (id ∈ gi_alives g -> T < B /\ sh_timeout st = T /\ sh_breakTime st = 0) /\
    (id ∉ gi_alives g -> B <= sh_timeout st <= T /\ sh_breakTime st = u32 (T - sh_timeout st)).

Lemma silent_untouched B id T g g' : untouched id g g' -> silent_for B id T g -> silent_for B id T g'.
Proof.
  intros [Ha Hn] (H0 & st & Hst & H1 & H2). split; [done|].
  destruct (Hn st Hst) as (st' & Hst' & E1 & E2). exists st'. rewrite Ha, E1, E2. done.
Qed.

Lemma silent_checked env id T ms g : let B := sharingBreakTime (re_vote env) in
  group_ok None g -> 0 <= ms -> B + ms < 2 ^ 32 ->
  silent_for B id T g -> silent_for B id (T + ms) (checked env ms g).
Proof.
  intros B Hg Hms Hb (H0 & st & Hst & H1 & H2). split; [lia|].
  destruct (tick_alives_frame ms None g Hg) as (_ & F2 & _).
  unfold checked. fold B. set (g2 := tick_dead ms (tick_alives ms g)).
  assert (Ha2 : gi_alives g2 = gi_alives g) by exact F2.
  assert (Hn2 : node_of g2 id = if bool_decide (id ∈ gi_alives g) then Some (add_timeout ms st)
                                else Some (add_breakTime ms st)).
  { unfold g2. rewrite node_of_tick_dead, (node_of_tick_alives ms None), F2, Hst by done.
    by destruct (bool_decide (id ∈ gi_alives g)). }
  destruct (break_all_spec B (gi_alives g) g2 id (g_alives _ _ Hg)) as [B1 B2]. rewrite Ha2 in B1.
  assert (Ht2 : timeoutOf g2 id = sh_timeout (if bool_decide (id ∈ gi_alives g) then add_timeout ms st
                                              else add_breakTime ms st)).
  { unfold timeoutOf. fold (node_of g2 id). rewrite Hn2. by destruct (bool_decide _). }
  destruct (decide (id ∈ gi_alives g)) as [Hin|Hin].
  - rewrite (bool_decide_eq_true_2 _ Hin) in Hn2, Ht2. destruct (H1 Hin) as (HT & E1 & E2).
    simpl in Ht2. rewrite E1, u32_small in Ht2 by lia.
    rewrite Hn2, Ht2 in B2. destruct (decide (id ∈ gi_alives g /\ B <= T + ms)) as [Hbr|Hbr];
      [rewrite (bool_decide_eq_true_2 _ Hbr) in B2|rewrite (bool_decide_eq_false_2 _ Hbr) in B2].
    + exists (break_node (add_timeout ms st)). split; [by rewrite B2|]. rewrite B1, Ht2. simpl.
      rewrite E1, u32_small, E2 by lia. split; [tauto|]. intros _. split; [lia|]. by replace (T + ms - (T + ms)) with 0 by lia.
    + exists (add_timeout ms st). split; [by rewrite B2|]. rewrite B1, Ht2. simpl.
      rewrite E1, u32_small, E2 by lia. split; [|tauto]. intros _. split_and!; [|done|done]. destruct (Z.lt_ge_cases (T + ms) B); [done|tauto].
  - rewrite (bool_decide_eq_false_2 _ Hin) in Hn2, Ht2. destruct (H2 Hin) as [HT E].
    rewrite B2, Hn2, bool_decide_eq_false_2 by tauto. exists (add_breakTime ms st). split; [done|].
    rewrite B1. simpl. split; [tauto|]. intros _. split; [lia|]. rewrite E. unfold u32.
    rewrite Zplus_mod_idemp_l. f_equal. lia.
Qed.

Lemma silent_step B id T ev s a s' o : inv false None s -> quiet id ev -> timer_ok B ev ->
  repl_step ev s = Some (a, s', o) -> silent_for B id T (rs_info s) ->
  silent_for B id (T + ev_ms ev s) (rs_info s').
Proof.
  intros Hi Hq Ht H Hs. destruct (is_timer ev) eqn:Htim.
  - destruct ev as [|env mine tick interval| | | | | | |]; try done. cbn [ev_ms timer_ok] in *.
    destruct Ht as (HB & H0 & Hb). apply (timer_inv false) in H as [_ Hk]; [|done|done].
    specialize (Hk id). destruct (effective mine tick interval s); [|by rewrite Z.add_0_r; eapply silent_untouched].
    destruct Hk as (g & Hg & U1 & U2). eapply silent_untouched; [exact U2|]. rewrite <- HB in *.
    apply silent_checked; [done|done|done|]. by eapply silent_untouched.
  - apply (step_keeps false ev) in H as [_ Hu]; [|done|done|done].
    assert (ev_ms ev s = 0) as -> by by destruct ev. rewrite Z.add_0_r.
    eapply silent_untouched; [by apply Hu|done].
Qed.

Lemma silent_run B id T evs s a s' o : inv false None s -> Forall (quiet id) evs ->
  Forall (timer_ok B) evs -> repl_run evs s = Some (a, s', o) -> silent_for B id T (rs_info s) ->
  silent_for B id (T + elapsed_ms evs s) (rs_info s').
Proof.
  revert T s o. induction evs as [|ev evs IH]; intros T s o Hi Hq Ht H Hs; simpl in H.
  { injection H as _ <- _. simpl. by rewrite Z.add_0_r. }
  apply Forall_cons in Hq as [Hq1 Hq]. apply Forall_cons in Ht as [Ht1 Ht].
  repl_split H u s1 H1. cbn [elapsed_ms]. rewrite H1, Z.add_assoc.
  eapply IH; [by eapply step_inv|done|done|exact H|]. by eapply silent_step.
Qed.

(** ** The theorems *)

(** C6: The failure detector is exact.  Take any state a replicate set reaches,
    and hear a member there.  After any further events that bring no word of
    the member and do not change the group, it counts as alive exactly when
    the time measured since is less than the break time; a member taken for
    dead has unknown service and no beat number, is not the known primary, and
    its break time is the rest of the silence. *)
Theorem failure_detector_exact local evs0 s0 id s1 o1 evs s2 o2 B :
  ran local evs0 s0 -> _alive id s0 = Some (SDB_OK, s1, o1) ->
  repl_run evs s1 = Some (tt, s2, o2) -> Forall (quiet id) evs -> Forall (timer_ok B) evs -> 0 < B ->
  let T := elapsed_ms evs s1 in
  isAlive id s2 = (T <? B) /\
  exists st, om_find id (gi_info (rs_info s2)) = Some st /\
    (T < B -> sh_timeout st = T /\ sh_breakTime st = 0) /\
    (B <= T -> beat_serviceStatus (sh_beat st) = SERVICE_UNKNOWN /\
       beat_beatID (sh_beat st) = CLS_BEATID_INVALID /\
       (getPrimary s2 = id -> id = MSG_INVALID_ROUTEID) /\
       B <= sh_timeout st <= T /\ sh_breakTime st = u32 (T - sh_timeout st)).
Proof.
  intros Hr Ha Hrun Hq Ht HB T. pose proof (ran_inv false local evs0 s0 ltac:(done) Hr) as Hi0.
  pose proof (alive_inv false None id _ _ _ _ Hi0 ltac:(by left) Ha) as Hi1.
  assert (Hs1 : silent_for B id 0 (rs_info s1)).
  { rewrite alive_eq in Ha. destruct (node_of (rs_info s0) id) as [st|] eqn:Hst; [|done].
    injection Ha as <- _. pose proof (heard_same id st s0 Hst (g_identity _ _ (inv_group _ _ _ Hi0) _ _ Hst)) as [A1 _ _ _ _ _ _ _ _].
    rewrite A1. split; [done|]. exists (reset_times st). rewrite hear_node_of, Z.eqb_refl, Hst.
    split_and!; [done|done|]. intros []. rewrite hear_alives.
    case_bool_decide; [done|]. rewrite key_insert_elem. by left. }
  pose proof (silent_run _ _ _ _ _ _ _ _ Hi1 Hq Ht Hrun Hs1) as (H0 & st & Hst & S1 & S2).
  rewrite Z.add_0_l in *. fold T in H0, S1, S2.
  pose proof (repl_run_inv false evs _ _ _ _ ltac:(done) Hi1 Hrun) as [Hg Hl _ _].
  unfold isAlive. destruct (decide (id ∈ gi_alives (rs_info s2))) as [Hin|Hin].
  - destruct (S1 Hin) as (HT & E1 & E2). rewrite bool_decide_eq_true_2 by done.
    split; [symmetry; by apply Z.ltb_lt|]. exists st. split_and!; [done|done|lia].
  - destruct (S2 Hin) as (HT & E). rewrite bool_decide_eq_false_2 by done.
    split; [symmetry; apply Z.ltb_ge; lia|]. exists st. split_and!; [done|lia|]. intros _.
    destruct (g_dead _ _ Hg id st Hst Hin ltac:(done)) as [D1 D2]. split_and!; try done; try lia.
    intros Hp. destruct (decide (id = MSG_INVALID_ROUTEID)) as [|Hne]; [done|]. exfalso. apply Hin.
    unfold getPrimary in Hp. rewrite <- Hp. apply (g_primary _ _ Hg); [by rewrite Hp|rewrite Hp|done].
    by eapply member_not_local.
Qed.

(** C5: No write waits in vain.  In every run in which changes of role are
    notified, and unless the node restarts, the sync manager lists exactly the
    members of the group with who is alive, and a session waits only at the
    primary and for at most as many replicas as are alive. *)
Theorem no_write_waits_in_vain local evs s :
  ran local evs s -> Forall event_notified evs -> rs_restart s = false ->
  members (rs_sync s) ≡ₚ map fst (gi_info (rs_info s)) /\
  (forall e, e ∈ _notifyList (rs_sync s) -> ss_valid e = isAlive (ss_id e) s) /\
  _aliveCount (rs_sync s) + 1 = ailves s /\
  forall i session, session ∈ heap_of (rs_sync s) i ->
    Z.of_nat i + 2 <= ailves s /\ primaryIsMe (rs_vote s) = true.
Proof.
  intros Hr Hn Hrs. pose proof (ran_inv true local evs s ltac:(done) Hr) as [Hg Hl Hroles [Hs|Hs]]; [congruence|].
  destruct Hs as [H1 H2 H3 H4 H5 H6]. unfold ailves, aliveSize. split_and!; [done|exact H3|lia|].
  intros i session Hin.
  assert (Hne : heap_of (rs_sync s) i <> []) by (intros E; rewrite E in Hin; by apply not_elem_of_nil in Hin).
  split.
  - destruct (decide (length (gi_alives (rs_info s)) <= i)%nat) as [Hle|]; [|lia].
    by destruct Hne; apply H5.
  - rewrite primaryIsMe_role by done. apply bool_decide_eq_true_2.
    destruct (decide (vm_current (rs_vote s) = Some PRIMARY)) as [|Hp]; [done|]. by destruct Hne; apply H6.
Qed.

(** ** Events return *)

Definition returns {A} (c : replM A) : Prop := forall s, is_Some (c s).

Lemma returns_bind {A B} (m : replM A) (f : A -> replM B) :
  returns m -> (forall a, returns (f a)) -> returns (m ≫= f).
Proof.
  intros Hm Hf s. unfold mbind, replM_bind. destruct (Hm s) as [[[a s1] o1] ->].
  destruct (Hf a s1) as [[[b s2] o2] ->]. by eexists.
Qed.

Lemma returns_ret {A} (a : A) : returns (mret a).
Proof. by intros s; eexists. Qed.
Lemma returns_getRS : returns getRS.
Proof. by intros s; eexists. Qed.
Lemma returns_getInfo : returns getInfo.
Proof. by intros s; eexists. Qed.
Lemma returns_mod f : returns (modRS f).
Proof. by intros s; eexists. Qed.
Lemma returns_emit out : returns (emit out).
Proof. by intros s; eexists. Qed.
Lemma returns_sync f : returns (syncDo f).
Proof. intros s. unfold syncDo. destruct (f (rs_mgr s)). by eexists. Qed.
Lemma returns_cataCall env msg times : returns (cataCall env msg times).
Proof. intros s. unfold cataCall. destruct (cata_call _ _ _ _) as [[? ?] ?]. by eexists. Qed.
Lemma returns_signal : returns reelection_signal.
Proof. intros s. unfold reelection_signal. destruct (_ && _); by eexists. Qed.

Create HintDb returns.
#[export] Hint Resolve returns_ret returns_getRS returns_getInfo returns_mod returns_emit returns_sync
  returns_cataCall returns_signal : returns.
#[export] Hint Extern 1 (returns (_ ≫= _)) => apply returns_bind; [|intros ?] : returns.
#[export] Hint Extern 1 (returns (if ?b then _ else _)) => destruct b : returns.
#[export] Hint Extern 1 (returns (onGroup _)) => apply returns_mod : returns.
#[export] Hint Extern 1 (returns (onVote _)) => apply returns_mod : returns.
#[export] Hint Extern 1 (returns (cataDo _)) => apply returns_mod : returns.

Lemma returns_reelectionDone : returns reelectionDone.
Proof. unfold reelectionDone. auto with returns. Qed.
#[export] Hint Resolve returns_reelectionDone : returns.

Lemma returns_effects env out : returns (vote_effects env out).
Proof.
  induction out as [|o out IH]; cbn [vote_effects]; [auto with returns|].
  apply returns_bind; [|done]. destruct o; cbn [vote_effect]; auto with returns.
  apply returns_bind; [auto with returns|intros _]. unfold ntyPrimaryChange. auto with returns.
Qed.

Lemma returns_vote env f : (forall m, exists m' out, f m = Some (m', out)) -> returns (voteDo env f).
Proof.
  intros Hf s. unfold voteDo. destruct (Hf (rs_vote s)) as (m' & out & ->). apply returns_effects.
Qed.

Lemma returns_force env id ms : returns (vote_force env id ms).
Proof. apply returns_vote. intros m. apply (event_step_total (EvForce (re_vote env) id ms) m). Qed.
#[export] Hint Resolve returns_force : returns.

Lemma returns_alive id : returns (_alive id).
Proof. intros s. rewrite alive_eq. destruct (node_of _ _); by eexists. Qed.
#[export] Hint Resolve returns_alive : returns.

Lemma returns_beat env handle req beat : returns (_handleSharingBeat env handle req beat).
Proof.
  unfold _handleSharingBeat, beat_of_primary, beat_of_secondary. cbv zeta. auto 20 with returns.
Qed.

Lemma returns_break_loop bt l : returns (break_loop bt l).
Proof.
  induction l as [|id l IH]; cbn [break_loop]; [auto with returns|].
  apply returns_bind; [auto with returns|intros g]. apply returns_bind; [|done].
  destruct (_ <=? _); [|auto with returns]. destruct (om_find id (gi_info g)); auto with returns.
Qed.
#[export] Hint Resolve returns_break_loop : returns.

Lemma returns_timer env mine tick interval : returns (onTimer env mine tick interval).
Proof.
  unfold onTimer. destruct mine; cbn [negb]; [|auto with returns].
  apply returns_bind; [auto with returns|intros s]. destruct (_ <? _); [auto with returns|].
  apply returns_bind; [auto with returns|intros _]. destruct (cata_handleTimeout _ _) as [meta sent].
  unfold _checkBreak. cbv zeta.
  assert (returns (_sharingBeat env)).
  { unfold _sharingBeat. apply returns_bind; [auto with returns|intros s1].
    destruct (gi_info (rs_info s1)); auto with returns. }
  assert (returns (voteDo env (voteMachine_handleTimeout (re_vote env) interval))).
  { apply returns_vote. intros m. apply (event_step_total (EvTimeout (re_vote env) interval) m). }
  auto 20 with returns.
Qed.

(** Events whose handlers never meet undefined behaviour of the sync
    manager: all but a change of members and a write that starts to wait. *)
Definition plain (ev : replEvent) : Prop :=
  match ev with
  | RMessage _ _ (MsgGroupRes _ _) | RWrite _ _ _ _ => False
  | _ => True
  end.

Lemma plain_returns ev : plain ev -> returns (repl_step ev).
Proof.
  destruct ev as [env handle msg|env mine tick interval|env event|env seconds post|
    lock id|ok offset edu w|edu sub|id lsn|enable]; cbn [repl_step plain]; intros Hp; try done;
    try apply returns_sync; try (apply returns_bind; [|intros; apply returns_ret]).
  - destruct msg as [result parsed|req beat|result|identity|em| |routeID full|]; cbn [handleMsg];
      unfold when_active; auto with returns; try done.
    + apply returns_bind; [auto with returns|intros s]. destruct (rs_active s); [apply returns_beat|auto with returns].
    + apply returns_bind; [auto with returns|intros s]. destruct (rs_active s); [|auto with returns].
      intros s1. unfold vote_handleMsg.
      destruct (event_step_total (EvInput (re_vote env) em) (rs_vote s1)) as (m & out & Hm). simpl in Hm.
      destruct (voteMachine_handleInput _ _ _) as [[[rc m1] out1]|]; [|done].
      destruct (returns_effects env out1 (set_rs_vote s1 m1)) as [[[u s2] o2] ->]. by eexists.
  - apply returns_timer.
  - destruct event; cbn [handleEvent]; unfold _handleStepDown, _handleStepUp; auto with returns.
  - unfold stepUp. auto 20 with returns.
  - unfold aliveNode. auto with returns.
Qed.

Lemma plain_runs_return evs s : Forall plain evs -> exists s' o, repl_run evs s = Some (tt, s', o).
Proof.
  intros Hp. revert s. induction Hp as [|ev evs Hev Hp IH]; intros s; [by exists s, []|].
  destruct (plain_returns ev Hev s) as [[[[] s1] o1] H1]. destruct (IH s1) as (s2 & o2 & H2).
  exists s2, (o1 ++ o2). simpl. unfold mbind, replM_bind. by rewrite H1, H2.
Qed.

(** ** Two primaries *)





(** ** Concrete runs *)

Definition open_env : replEnv :=
  mkReplEnv demo_env (mkLSN 0 1) (mkLSN 0 1) true (fun _ => SendOk) true (fun _ => true) true.
Definition closed_env : replEnv :=
  mkReplEnv demo_env (mkLSN 0 1) (mkLSN 0 1) false (fun _ => SendOk) true (fun _ => true) true.

Definition demo_node (id : Z) (host : string) (up : bool) : netRouteNode :=
  mkNode (host, replicate MSG_ROUTE_SERVICE_TYPE_MAX "11820"%string) id up.

(** The catalog names three members, the third with activity [up]. *)
Definition demo_groupRes (version : Z) (up : bool) : replEvent :=
  RMessage open_env 0 (MsgGroupRes SDB_OK (inr (version,
    [demo_node 1 "a" true; demo_node 2 "b" true; demo_node 3 "c" up], 77))).

Definition demo_activated (local : Z) : clsReplicateSet :=
  match active open_env local (newReplSet (-1)) with Some (_, s, _) => s | None => newReplSet (-1) end.
Definition demo_after (local : Z) (evs : list replEvent) : clsReplicateSet :=
  match repl_run evs (demo_activated local) with Some (_, s, _) => s | None => demo_activated local end.

Lemma demo_ran local evs : local <> MSG_INVALID_ROUTEID ->
  match repl_run evs (demo_activated local) with Some _ => true | None => false end = true -> ran local evs (demo_after local evs).
Proof.
  intros Hl Hs. destruct (repl_run evs (demo_activated local)) as [[[[] s] o]|] eqn:Hr; [|done].
  exists (-1), open_env. unfold demo_after. rewrite Hr. 
  unfold demo_activated in *. destruct (active open_env local (newReplSet (-1))) as [[[rc s0] o0]|] eqn:Ha.
  - exists s0, rc, o0, o. done.
  - exfalso. unfold active in Ha. rewrite bind_getRS in Ha. simpl in Ha. done.
Qed.

Definition second : Z -> replEvent := fun k => RTimer open_env true (100 * k) 1000.
Definition beat_from (id : Z) : replEvent := RMessage open_env 0 (MsgBeatRes id).

(** Eight seconds in which member 3 is heard and member 2 is not. *)
Definition silent_seconds : list replEvent :=
  [second 1; beat_from 3; second 2; second 3; second 4; beat_from 3; second 5; second 6; second 7; second 8].

Definition heard_two : clsReplicateSet :=
  match _alive 2 (demo_after 1 [demo_groupRes 1 true]) with
  | Some (_, s, _) => s | None => newReplSet 0 end.
Definition silent_end : clsReplicateSet :=
  match repl_run silent_seconds heard_two with Some (_, s, _) => s | None => newReplSet 0 end.

Lemma failure_detector_exact_witness :
  elapsed_ms silent_seconds heard_two = 8000 /\ isAlive 3 silent_end = true /\
  isAlive 2 silent_end = (elapsed_ms silent_seconds heard_two <? 7000) /\
  exists st, om_find 2 (gi_info (rs_info silent_end)) = Some st /\
    (elapsed_ms silent_seconds heard_two < 7000 ->
       sh_timeout st = elapsed_ms silent_seconds heard_two /\ sh_breakTime st = 0) /\
    (7000 <= elapsed_ms silent_seconds heard_two ->
       beat_serviceStatus (sh_beat st) = SERVICE_UNKNOWN /\
       beat_beatID (sh_beat st) = CLS_BEATID_INVALID /\
       (getPrimary silent_end = 2 -> 2 = MSG_INVALID_ROUTEID) /\
       7000 <= sh_timeout st <= elapsed_ms silent_seconds heard_two /\
       sh_breakTime st = u32 (elapsed_ms silent_seconds heard_two - sh_timeout st)).
Proof.
  split; [vm_compute; reflexivity|]. split; [vm_compute; reflexivity|].
  assert (Hr : exists o2, repl_run silent_seconds heard_two = Some (tt, silent_end, o2)).
  { unfold silent_end. destruct (repl_run silent_seconds heard_two) as [[[[] s] o]|] eqn:E; [by exists o|].
    vm_compute in E. discriminate E. }
  assert (Ha : exists o1, _alive 2 (demo_after 1 [demo_groupRes 1 true]) = Some (SDB_OK, heard_two, o1)).
  { unfold heard_two. rewrite alive_eq. destruct (node_of _ 2) as [st|] eqn:E; [by exists []|].
    vm_compute in E. discriminate E. }
  destruct Hr as [o2 Hr]. destruct Ha as [o1 Ha].
  apply (failure_detector_exact 1 [demo_groupRes 1 true] (demo_after 1 [demo_groupRes 1 true]) 2
           heard_two o1 silent_seconds silent_end o2 7000).
  - apply demo_ran; [discriminate|vm_compute; reflexivity].
  - exact Ha.
  - exact Hr.
  - repeat constructor; discriminate.
  - repeat constructor; discriminate.
  - lia.
Defined.

(** A write waits for one copy at the primary, then for two. *)
Definition waiting_writes : list replEvent :=
  [demo_groupRes 1 true; REvent open_env (PMD_EDU_EVENT_STEP_UP 60);
   RWrite true 50 20 2; RWrite true 60 21 3; second 1].

Lemma no_write_waits_in_vain_witness :
  let s := demo_after 1 waiting_writes in
  heap_of (rs_sync s) 1 = [mkSession 60 21] /\
  members (rs_sync s) ≡ₚ map fst (gi_info (rs_info s)) /\
  (forall e, e ∈ _notifyList (rs_sync s) -> ss_valid e = isAlive (ss_id e) s) /\
  _aliveCount (rs_sync s) + 1 = ailves s /\
  forall i session, session ∈ heap_of (rs_sync s) i ->
    Z.of_nat i + 2 <= ailves s /\ primaryIsMe (rs_vote s) = true.
Proof.
  intros s. split; [vm_compute; reflexivity|].
  apply (no_write_waits_in_vain 1 waiting_writes s).
  - apply demo_ran; [discriminate|vm_compute; reflexivity].
  - repeat constructor.
  - vm_compute. reflexivity.
Defined.



(** A member that is reported inactive and then active again stays out of the
    group: its route is still known, and only a new route adds a member. *)
Theorem returning_member_stays_out :
  let s := demo_after 1 [demo_groupRes 1 true; demo_groupRes 2 false; demo_groupRes 3 true] in
  om_find 3 (gi_info (rs_info (demo_after 1 [demo_groupRes 1 true]))) <> None /\
  om_find 3 (gi_info (rs_info s)) = None /\ gi_version (rs_info s) = 3.
Proof. split; [vm_compute; discriminate|]. split; vm_compute; reflexivity. Qed.

(** A primary that steps down while its data center is closed is not told so
    as a replicate set: the write goes on waiting at a secondary. *)
Theorem closed_center_leaves_write_waiting :
  let s := demo_after 1 (waiting_writes ++ [REvent closed_env PMD_EDU_EVENT_STEP_DOWN]) in
  vm_current (rs_vote s) = Some CLS_ELECTION_STATUS_SEC /\ primaryIsMe (rs_vote s) = false /\
  heap_of (rs_sync s) 0 = [mkSession 50 20].
Proof. split; [vm_compute; reflexivity|]. split; vm_compute; reflexivity. Qed.
