(* ===== verification/ReplFlow.v ===== *)
(** * Flow control of the log and the reelection of a primary

    [canAssignLogPage] of [cls/clsReplicateSet.cpp], which slows writers of a
    primary down when the replicas fall behind, and [cls/clsReelection.cpp],
    which lets a primary step down.  Both wait in rounds; what a round sees
    (positions, interrupts, other threads) is an element of a list, and [None]
    is a wait that goes on when the list ends. *)

From stdpp Require Import base list.
From Stdlib Require Import ZArith Lia.
From S2P Require Import Prelude.
From S2P Require Import DpsLsn Vote.
From S2P Require Import SyncHeap Sync.
From S2P Require Import ReplSet.

Open Scope Z_scope.

(** ** Flow control *)

Definition CLS_SYNCCTRL_BASE_TIME : Z := 10.
Definition CLS_SYNCCTRL_THRESHOLD_SIZE : nat := 10.

(** The tables [initialize] fills for a log of [totalLogSize] bytes. *)
Definition sizethreshold (totalLogSize : Z) : list Z :=
  map (fun idx => let rate := Z.shiftl 2 (Z.of_nat idx) in u64 (totalLogSize * (rate - 1)) / rate)
    (seq 0 CLS_SYNCCTRL_THRESHOLD_SIZE).
Definition timeThreshold : list Z :=
  map (fun idx => Z.shiftl CLS_SYNCCTRL_BASE_TIME (Z.of_nat idx)) (seq 0 CLS_SYNCCTRL_THRESHOLD_SIZE).

(** The loop of [_getThresholdTime]: the first entry above [diffSize]. *)
Fixpoint threshold_index (diffSize : Z) (sizes : list Z) : nat :=
  match sizes with
  | [] => 0
  | size :: rest => if diffSize <? size then 0 else S (threshold_index diffSize rest)
  end.

Definition _getThresholdTime (totalLogSize : Z) (inSyncCtrl : bool) (diffSize : Z) : Z :=
  let i := threshold_index diffSize (sizethreshold totalLogSize) in
  if Nat.ltb 1 i || (Nat.eqb 1 i && inSyncCtrl) then timeThreshold !!! (i - 1)%nat else 0.

Definition calcFileID (fileSz fileNum offset : Z) : Z := (offset / fileSz) mod fileNum.

(** What a round of [canAssignLogPage] sees. *)
Record flowRound : Set := mkFlow {
  fl_available : bool;      (* PMD_IS_DB_AVAILABLE() *)
  fl_arbit : Z;             (* _sync.getSyncCtrlArbitLSN() *)
  fl_expect : Z;            (* _logger->expectLsn().offset *)
  fl_interrupted : bool;    (* after the sleep *)
  fl_primary : bool
}.

(** Whether the request would go round the ring into the file the slowest
    replica still reads. *)
Definition flow_collides (fileSz fileNum reqLen : Z) (r : flowRound) : bool :=
  let expect := u64 (fl_expect r + reqLen) in
  (u64 (fl_arbit r + fileSz) <? expect) &&
  (calcFileID fileSz fileNum expect =? calcFileID fileSz fileNum (fl_arbit r)).

(** The end of the function; the last flow control ended when nobody waited. *)
Definition flow_done (rc waitTime : Z) (inSyncCtrl : bool) : Z * bool :=
  (rc, if (0 =? waitTime) && inSyncCtrl then false else inSyncCtrl).

(** [canAssignLogPage]: the code and [_inSyncCtrl]. *)
Fixpoint assign_loop (total fileSz fileNum reqLen : Z) (rounds : list flowRound) (waitTime : Z)
  (inSyncCtrl : bool) : option (Z * bool) :=
  match rounds with
  | [] => None
  | r :: rest =>
      if negb (fl_available r) then Some (flow_done SDB_OK waitTime inSyncCtrl)
      else if DPS_INVALID_LSN_OFFSET =? fl_arbit r then Some (flow_done SDB_OK waitTime inSyncCtrl)
      else if fl_expect r <=? fl_arbit r then Some (flow_done SDB_OK waitTime inSyncCtrl)
      else
        let threshTime := _getThresholdTime total inSyncCtrl (fl_expect r - fl_arbit r) in
        if 0 =? threshTime then Some (flow_done SDB_OK waitTime inSyncCtrl)
        else if flow_collides fileSz fileNum reqLen r || (waitTime <? threshTime) then
          let waitTime := u32 (waitTime + CLS_SYNCCTRL_BASE_TIME) in
          if fl_interrupted r then Some (flow_done SDB_APP_INTERRUPT waitTime true)
          else if negb (fl_primary r) then Some (flow_done SDB_CLS_NOT_PRIMARY waitTime true)
          else assign_loop total fileSz fileNum reqLen rest waitTime true
        else Some (flow_done SDB_OK waitTime inSyncCtrl)
  end.

Definition canAssignLogPage (total fileSz fileNum reqLen : Z) (rounds : list flowRound)
  (inSyncCtrl : bool) : option (Z * bool) :=
  assign_loop total fileSz fileNum reqLen rounds 0 inSyncCtrl.

Lemma threshold_time_max total ctrl diff : _getThresholdTime total ctrl diff <= 5120.
Proof.
  unfold _getThresholdTime. set (i := threshold_index _ _).
  assert (Hi : (i <= 10)%nat).
  { assert (forall l, (threshold_index diff l <= length l)%nat) as Hl.
    { induction l as [|x l IH]; simpl; [done|]. destruct (_ <? _); simpl; lia. }
    specialize (Hl (sizethreshold total)). subst i. unfold sizethreshold in *.
    rewrite length_map, length_seq in Hl. exact Hl. }
  destruct (_ || _); [|lia]. clearbody i. do 11 (destruct i as [|i]; [vm_compute; discriminate|]). lia.
Qed.

Lemma assign_rounds total fileSz fileNum reqLen rounds k ctrl :
  (k <= 512)%nat -> (512 - k < length rounds)%nat ->
  Forall (fun r => flow_collides fileSz fileNum reqLen r = false) rounds ->
  is_Some (assign_loop total fileSz fileNum reqLen rounds (10 * Z.of_nat k) ctrl).
Proof.
  intros Hk. remember (512 - k)%nat as d eqn:Hd. revert k rounds ctrl Hk Hd.
  induction d as [|d IH]; intros k rounds ctrl Hk Hd Hl Hf; destruct rounds as [|r rest]; simpl in Hl; try lia;
    apply Forall_cons in Hf as [Hr Hf]; cbn [assign_loop];
    destruct (negb (fl_available r)); [by eexists| |by eexists|];
    (destruct (_ =? fl_arbit r); [by eexists|]); (destruct (fl_expect r <=? fl_arbit r); [by eexists|]);
    pose proof (threshold_time_max total ctrl (fl_expect r - fl_arbit r)) as Ht;
    (destruct (0 =? _); [by eexists|]); rewrite Hr; cbn [orb].
  - destruct (Z.ltb_spec (10 * Z.of_nat k) (_getThresholdTime total ctrl (fl_expect r - fl_arbit r))); [lia|by eexists].
  - destruct (_ <? _); [|by eexists]. destruct (fl_interrupted r); [by eexists|].
    destruct (negb (fl_primary r)); [by eexists|]. unfold CLS_SYNCCTRL_BASE_TIME. rewrite u32_small by lia.
    replace (10 * Z.of_nat k + 10) with (10 * Z.of_nat (S k)) by lia. apply IH; [lia|lia|lia|done].
Qed.

(** Flow control holds a writer for at most 512 sleeps of ten milliseconds,
    however far the replicas are behind, as long as its request does not
    reach the file the slowest replica still reads. *)
Theorem flow_control_bounded total fileSz fileNum reqLen rounds ctrl :
  (512 < length rounds)%nat ->
  Forall (fun r => flow_collides fileSz fileNum reqLen r = false) rounds ->
  is_Some (canAssignLogPage total fileSz fileNum reqLen rounds ctrl).
Proof. intros Hl Hf. apply (assign_rounds _ _ _ _ _ 0); [lia|lia|done]. Qed.

(** ** Reelection *)

Definition CLS_REELECTION_LEVEL_1 : Z := 1.
Definition CLS_REELECTION_LEVEL_3 : Z := 3.

(** [rl_event] tells whether [_event], which stays signalled until it is
    reset, is signalled. *)
Record clsReelection : Set := mkReelection {
  rl_level : Z;
  rl_event : bool
}.

Definition newReelection : clsReelection := mkReelection CLS_REELECTION_LEVEL_NONE true.

(** [signal]; its default argument is [CLS_REELECTION_LEVEL_MAX]. *)
Definition reelection_signalAt (lvl : Z) (r : clsReelection) : clsReelection :=
  if negb (CLS_REELECTION_LEVEL_NONE =? rl_level r) && (rl_level r <? lvl)
  then mkReelection CLS_REELECTION_LEVEL_NONE true else r.

(** The guards of [run], and the lines that start a reelection after them. *)
Definition run_enter (lvl seconds : Z) (primaryIsMe : bool) (r : clsReelection) : Z * clsReelection :=
  if negb (CLS_REELECTION_LEVEL_1 =? lvl) && negb (CLS_REELECTION_LEVEL_3 =? lvl) then (SDB_INVALIDARG, r)
  else if seconds <? 10 then (SDB_INVALIDARG, r)
  else if negb (CLS_REELECTION_LEVEL_NONE =? rl_level r) then (SDB_SYS, r)
  else if negb primaryIsMe then (SDB_CLS_NOT_PRIMARY, r)
  else (SDB_OK, mkReelection lvl false).

(** A call of another thread: a [signal], or a [run] that its guards refuse,
    with the [signal] of its exit, or that starts. *)
Inductive reelectCall : Set :=
| CallSignal (lvl : Z)
| CallRun (lvl seconds : Z) (primaryIsMe : bool).

Definition other_call (r : clsReelection) (c : reelectCall) : clsReelection :=
  match c with
  | CallSignal lvl => reelection_signalAt lvl r
  | CallRun lvl seconds primaryIsMe =>
      let '(rc, r') := run_enter lvl seconds primaryIsMe r in
      if rc =? SDB_OK then r' else reelection_signalAt CLS_REELECTION_LEVEL_MAX r'
  end.

(** A second of a wait: what the poll at its start sees and the calls other
    threads make until the next poll. *)
Record waitSecond : Set := mkSecond {
  ws_interrupted : bool;     (* cb->isInterrupted() *)
  ws_writing : Z;            (* eduMgr->getWritingEDUCount() *)
  ws_atLeastOne : bool;      (* _syncMgr->atLeastOne( lsn.offset ) *)
  ws_others : list reelectCall
}.

(** Where a wait leaves off: the code, [timePassed], the shared state and the
    seconds to come. *)
Definition waited : Type := (Z * Z * clsReelection * list waitSecond)%type.

(** [_wait4AllWriteDone] *)
Fixpoint _wait4AllWriteDone (secs : list waitSecond) (timePassed timeout writingCount : Z)
  (r : clsReelection) : option waited :=
  if timePassed <? timeout then
    match secs with
    | [] => None
    | s :: rest =>
        if ws_interrupted s then Some (SDB_APP_INTERRUPT, timePassed, r, secs)
        else if 0 =? ws_writing s then Some (SDB_OK, timePassed, r, secs)
        else _wait4AllWriteDone rest (u32 (timePassed + 1)) timeout (ws_writing s)
               (foldl other_call r (ws_others s))
    end
  else if 0 <? writingCount then Some (SDB_TIMEOUT, timePassed, r, secs)
  else Some (SDB_OK, timePassed, r, secs).

(** [_wait4Replica]; after the [break] the time has not passed. *)
Fixpoint _wait4Replica (secs : list waitSecond) (timePassed timeout : Z) (r : clsReelection) : option waited :=
  if timePassed <? timeout then
    match secs with
    | [] => None
    | s :: rest =>
        if ws_interrupted s then Some (SDB_APP_INTERRUPT, timePassed, r, secs)
        else if ws_atLeastOne s then Some (SDB_OK, timePassed, r, secs)
        else _wait4Replica rest (u32 (timePassed + 1)) timeout (foldl other_call r (ws_others s))
    end
  else Some (SDB_TIMEOUT, timePassed, r, secs).

(** [_event.wait( OSS_ONE_SEC )] of [oss/ossEvent.cpp]: the wait ends as soon
    as the event is signalled, and the calls that are left stay for later. *)
Fixpoint reelection_event_wait (calls : list reelectCall) (r : clsReelection) : bool * clsReelection * list reelectCall :=
  if rl_event r then (true, r, calls)
  else match calls with
       | [] => (false, r, [])
       | c :: rest => reelection_event_wait rest (other_call r c)
       end.

(** [_wait]; after the [break] [timePassed] is at most [timeout]. *)
Fixpoint reelection_wait (secs : list waitSecond) (timePassed timeout : Z) (r : clsReelection) : option waited :=
  if timePassed <=? timeout then
    match secs with
    | [] => None
    | s :: rest =>
        if ws_interrupted s then Some (SDB_APP_INTERRUPT, timePassed, r, secs)
        else
          let '(signalled, r', later) := reelection_event_wait (ws_others s) r in
          if signalled
          then Some (SDB_OK, timePassed, r', mkSecond (ws_interrupted s) (ws_writing s) (ws_atLeastOne s) later :: rest)
          else reelection_wait rest (u32 (timePassed + 1)) timeout r'
    end
  else Some (SDB_TIMEOUT, timePassed, r, secs).

(** [wait], which writers call before they write. *)
Definition reelection_writer_wait (secs : list waitSecond) (r : clsReelection) : option waited :=
  if negb (CLS_REELECTION_LEVEL_NONE =? rl_level r) then reelection_wait secs 0 600 r
  else Some (SDB_OK, 0, r, secs).

(** [_stepDown]; [postRC] is the result of [postEDUPost]. *)
Definition reelection_stepDown (postRC : Z) (secs : list waitSecond) (timePassed timeout : Z) (r : clsReelection) :
  option waited :=
  if negb (postRC =? SDB_OK) then Some (postRC, timePassed, r, secs)
  else reelection_wait secs timePassed timeout r.

(** The waits of [run]: a failure of the first two is [SDB_TIMEOUT]. *)
Definition run_waits (lvl seconds postRC : Z) (secs : list waitSecond) (r : clsReelection) : option waited :=
  w ← _wait4AllWriteDone secs 0 seconds 0 r;
  let '(rc, timePassed, r, secs) := w in
  if negb (rc =? SDB_OK) then Some (SDB_TIMEOUT, timePassed, r, secs)
  else
    w ← (if CLS_REELECTION_LEVEL_1 <? lvl then _wait4Replica secs timePassed seconds r
         else Some (SDB_OK, timePassed, r, secs));
    let '(rc, timePassed, r, secs) := w in
    if negb (rc =? SDB_OK) then Some (SDB_TIMEOUT, timePassed, r, secs)
    else reelection_stepDown postRC secs timePassed seconds r.

(** [run]: the code and the shared state after the [signal] of its exit. *)
Definition reelection_run (lvl seconds postRC : Z) (primaryIsMe : bool) (secs : list waitSecond)
  (r : clsReelection) : option (Z * clsReelection) :=
  let '(rc, r) := run_enter lvl seconds primaryIsMe r in
  if negb (rc =? SDB_OK) then Some (rc, reelection_signalAt CLS_REELECTION_LEVEL_MAX r)
  else
    w ← run_waits lvl seconds postRC secs r;
    let '(rc, _, r, _) := w in Some (rc, reelection_signalAt CLS_REELECTION_LEVEL_MAX r).

(** [reelect] of [cls/clsReplicateSet.cpp]. *)
Definition reelect (groupSize lvl seconds postRC : Z) (primaryIsMe : bool) (secs : list waitSecond)
  (r : clsReelection) : option (Z * clsReelection) :=
  if 1 =? groupSize then Some (SDB_OK, r)
  else reelection_run lvl seconds postRC primaryIsMe secs r.

(** [primaryCheck] of a writer. *)
Definition primaryCheck (primaryIsMe : bool) (secs : list waitSecond) (r : clsReelection) : option Z :=
  w ← reelection_writer_wait secs r;
  let '(rc, _, _, _) := w in
  if negb (rc =? SDB_OK) then Some rc
  else if negb primaryIsMe then Some SDB_CLS_NOT_PRIMARY
  else Some SDB_OK.

(** ** The waits end *)

(** Where a wait that started with [n] seconds to come leaves off: it used no
    more seconds than the time it counted. *)
Definition wait_spent (n : nat) (timePassed timeout : Z) (w : option waited) : Prop :=
  exists rc tp r secs, w = Some (rc, tp, r, secs) /\ timePassed <= tp <= timeout /\
    Z.of_nat n <= Z.of_nat (length secs) + (tp - timePassed).

Lemma wait_spent_step n tp timeout w :
  wait_spent n (tp + 1) timeout w -> wait_spent (S n) tp timeout w.
Proof. intros (rc & tp' & r & secs & -> & ? & ?). exists rc, tp', r, secs. split_and!; [done|lia..]. Qed.

Lemma wait_spent_here rc tp timeout r secs :
  tp <= timeout -> wait_spent (length secs) tp timeout (Some (rc, tp, r, secs)).
Proof. intros ?. exists rc, tp, r, secs. split_and!; [done|lia..]. Qed.

Lemma write_wait_spent secs tp timeout n r :
  0 <= tp <= timeout -> timeout < 2 ^ 32 -> timeout - tp < Z.of_nat (length secs) ->
  wait_spent (length secs) tp timeout (_wait4AllWriteDone secs tp timeout n r).
Proof.
  revert tp n r. induction secs as [|s rest IH]; intros tp n r Ht H32 Hl; simpl in Hl; [lia|].
  cbn [_wait4AllWriteDone]. destruct (Z.ltb_spec tp timeout).
  - destruct (ws_interrupted s); [apply (wait_spent_here _ _ _ _ (_ :: _)); lia|]. destruct (_ =? _); [apply (wait_spent_here _ _ _ _ (_ :: _)); lia|].
    rewrite u32_small by lia. apply wait_spent_step, IH; lia.
  - destruct (_ <? _); apply (wait_spent_here _ _ _ _ (s :: rest)); lia.
Qed.

Lemma replica_wait_spent secs tp timeout r :
  0 <= tp <= timeout -> timeout < 2 ^ 32 -> timeout - tp < Z.of_nat (length secs) ->
  wait_spent (length secs) tp timeout (_wait4Replica secs tp timeout r).
Proof.
  revert tp r. induction secs as [|s rest IH]; intros tp r Ht H32 Hl; simpl in Hl; [lia|].
  cbn [_wait4Replica]. destruct (Z.ltb_spec tp timeout).
  - destruct (ws_interrupted s); [apply (wait_spent_here _ _ _ _ (s :: rest)); lia|]. destruct (ws_atLeastOne s); [apply (wait_spent_here _ _ _ _ (s :: rest)); lia|].
    rewrite u32_small by lia. apply wait_spent_step, IH; lia.
  - apply (wait_spent_here _ _ _ _ (s :: rest)); lia.
Qed.

Lemma event_wait_ends secs tp timeout r :
  0 <= tp <= timeout + 1 -> timeout < 2 ^ 32 - 1 -> timeout - tp < Z.of_nat (length secs) ->
  is_Some (reelection_wait secs tp timeout r).
Proof.
  revert tp r. induction secs as [|s rest IH]; intros tp r Ht H32 Hl; simpl in Hl; cbn [reelection_wait];
    (destruct (Z.leb_spec tp timeout); [|by eexists]); [lia|].
  destruct (ws_interrupted s); [by eexists|]. destruct (reelection_event_wait _ _) as [[sig r'] later].
  destruct sig; [by eexists|]. rewrite u32_small by lia. apply IH; lia.
Qed.

(** A reelection returns: the time its caller gives bounds all its waits
    together, whatever other threads do. *)
Theorem reelection_returns lvl seconds postRC primaryIsMe secs r :
  seconds < 2 ^ 32 - 1 -> seconds < Z.of_nat (length secs) ->
  is_Some (reelection_run lvl seconds postRC primaryIsMe secs r).
Proof.
  intros H32 Hl. unfold reelection_run, run_enter. repeat case_match; simplify_eq; try (by eexists).
  destruct (Z.ltb_spec seconds 10); [done|].
  enough (is_Some (run_waits lvl seconds postRC secs (mkReelection lvl false))) as [[[[rc tp] r'] secs'] ->]
    by by eexists.
  unfold run_waits.
  destruct (write_wait_spent secs 0 seconds 0 (mkReelection lvl false)) as (rc & tp & r1 & s1 & -> & ? & ?); [lia..|].
  cbn [mbind option_bind]. destruct (negb (rc =? SDB_OK)); [by eexists|].
  match goal with |- is_Some (?w ≫= _) =>
    assert (wait_spent (length s1) tp seconds w) as (rc2 & tp2 & r2 & s2 & -> & ? & ?) end.
  { destruct (_ <? lvl); [apply replica_wait_spent; lia|apply wait_spent_here; lia]. }
  cbn [mbind option_bind]. destruct (negb (rc2 =? SDB_OK)); [by eexists|].
  unfold reelection_stepDown. destruct (negb (postRC =? SDB_OK)); [by eexists|]. apply event_wait_ends; lia.
Qed.

(** ** A refused request ends the reelection that runs *)

(** While a reelection runs every further request is refused, but the
    [signal] of its exit clears the level and wakes the first. *)
Lemma refused_run_clears lvl seconds primaryIsMe r :
  rl_level r <> CLS_REELECTION_LEVEL_NONE -> rl_level r < CLS_REELECTION_LEVEL_MAX ->
  other_call r (CallRun lvl seconds primaryIsMe) = mkReelection CLS_REELECTION_LEVEL_NONE true.
Proof.
  intros Hn Hm.
  assert (Hs : reelection_signalAt CLS_REELECTION_LEVEL_MAX r = mkReelection CLS_REELECTION_LEVEL_NONE true).
  { unfold reelection_signalAt. destruct (Z.eqb_spec CLS_REELECTION_LEVEL_NONE (rl_level r)); [congruence|].
    by rewrite (proj2 (Z.ltb_lt _ _)). }
  unfold other_call, run_enter. destruct (Z.eqb_spec CLS_REELECTION_LEVEL_NONE (rl_level r)); [congruence|].
  destruct (negb (_ =? lvl) && _); [done|]. by destruct (_ <? 10).
Qed.

(** A primary whose reelection waits for its step-down returns [SDB_OK], and
    the writers it held back go on, when another request is refused: nobody
    has stepped down. *)
Theorem refused_request_ends_reelection lvl seconds primaryIsMe s rest calls tp timeout r :
  rl_level r <> CLS_REELECTION_LEVEL_NONE -> rl_level r < CLS_REELECTION_LEVEL_MAX -> rl_event r = false ->
  ws_interrupted s = false -> ws_others s = CallRun lvl seconds primaryIsMe :: calls -> tp <= timeout ->
  exists secs, reelection_wait (s :: rest) tp timeout r =
    Some (SDB_OK, tp, mkReelection CLS_REELECTION_LEVEL_NONE true, secs).
Proof.
  intros Hn Hm He Hi Ho Ht. cbn [reelection_wait]. rewrite (proj2 (Z.leb_le _ _) Ht), Hi, Ho. cbn [reelection_event_wait].
  rewrite He, refused_run_clears by done. destruct calls; by eexists.
Qed.
