(* ===== verification/CatLock.v ===== *)
(** * Level locks of the catalog

    Models [cat/catLevelLock.cpp] and [include/catLevelLock.hpp].  The catalog
    locks collection spaces, groups and domains (level one) and the
    collections and nodes below them (level two) in a tree of nodes that
    exist only while something is locked.  Nodes and latches are objects in
    finite maps from addresses; addresses are never used twice, so a dangling
    pointer is an address with no object, and every dereference is checked:
    the outcome [None] is a crash.  All operations run in the main thread of
    the catalog.  The latch of a node is [boost::shared_mutex], a parameter. *)

From stdpp Require Import base gmap list strings.
From S2P Require Import Prelude.
From Stdlib Require Import ZArith Lia Ascii.

Open Scope Z_scope.

(** ** The shared mutex

    [try_lock_for(0)] and [try_lock_shared_for(0)] return whether the lock was
    taken, with the mutex afterwards. *)
Class SharedMutex : Type := {
  mutex : Type;
  mutex_init : mutex;
  try_lock : mutex -> bool * mutex;
  try_lock_shared : mutex -> bool * mutex;
  unlock : mutex -> mutex;
  unlock_shared : mutex -> mutex
}.

(** Who holds a shared mutex: a number of readers, or one writer. *)
Inductive holders : Set :=
  | Readers (n : nat)
  | Writer.

#[export] Instance holders_eq_dec : EqDecision holders.
Proof. solve_decision. Defined.

(** The documented behaviour. *)
Class SharedMutexSpec `{SharedMutex} : Type := {
  held : mutex -> holders;
  held_init : held mutex_init = Readers 0;
  try_lock_spec m :
    (try_lock m).1 = bool_decide (held m = Readers 0) /\
    held (try_lock m).2 = if (try_lock m).1 then Writer else held m;
  try_lock_shared_spec m :
    match held m with
    | Writer => (try_lock_shared m).1 = false /\ held (try_lock_shared m).2 = Writer
    | Readers n => (try_lock_shared m).1 = true /\ held (try_lock_shared m).2 = Readers (S n)
    end;
  unlock_spec m : held m = Writer -> held (unlock m) = Readers 0;
  unlock_shared_spec m n : held m = Readers (S n) -> held (unlock_shared m) = Readers n
}.

Inductive OSS_LATCH_MODE : Set :=
  | SHARED
  | EXCLUSIVE.

#[export] Instance latchMode_eq_dec : EqDecision OSS_LATCH_MODE.
Proof. solve_decision. Defined.

(** The enumerator's value. *)
Definition modeCode (m : OSS_LATCH_MODE) : Z :=
  match m with SHARED => 0 | EXCLUSIVE => 1 end.

Definition CAT_LOCK_DATA : Z := 1.
Definition CAT_LOCK_NODE : Z := 2.
Definition CAT_LOCK_DOMAIN : Z := 3.
Definition CAT_LOCK_MAX : Z := 4.
Definition CAT_MAX_LATCH_SIZE : nat := 16.
Definition DMS_COLLECTION_SPACE_NAME_SZ : Z := 127.

(** A node.  There is one manager, so [_mgr] only tells whether it is set. *)
Record catNode : Type := mkNode {
  _mapSubs : gmap string Z;
  _latch : option Z;
  _mgr : bool;
  _parent : option Z;
  _type : Z;
  _lockType : Z;
  _name : string;
  _lockCount : Z
}.

(** The constructor. *)
Definition newNode : catNode := mkNode ∅ None false None CAT_LOCK_MAX (-1) EmptyString 0.

Definition isEmpty (n : catNode) : bool :=
  if (0 <? size (_mapSubs n))%nat then false
  else if negb (_lockType n =? -1) then false
  else if negb (_lockCount n =? 0) then false
  else true.

Definition _isZeroLevel (n : catNode) : bool := negb (CAT_LOCK_MAX =? _type n).

Definition setSubs (m : gmap string Z) (n : catNode) : catNode :=
  mkNode m (_latch n) (_mgr n) (_parent n) (_type n) (_lockType n) (_name n) (_lockCount n).
Definition _setLatch (l : option Z) (n : catNode) : catNode :=
  mkNode (_mapSubs n) l (_mgr n) (_parent n) (_type n) (_lockType n) (_name n) (_lockCount n).
Definition _setMgr (n : catNode) : catNode :=
  mkNode (_mapSubs n) (_latch n) true (_parent n) (_type n) (_lockType n) (_name n) (_lockCount n).
Definition _setType (t : Z) (n : catNode) : catNode :=
  mkNode (_mapSubs n) (_latch n) (_mgr n) (_parent n) t (_lockType n) (_name n) (_lockCount n).
Definition _setName (s : string) (n : catNode) : catNode :=
  mkNode (_mapSubs n) (_latch n) (_mgr n) (_parent n) (_type n) (_lockType n) s (_lockCount n).
Definition _setParent (p : Z) (n : catNode) : catNode :=
  mkNode (_mapSubs n) (_latch n) (_mgr n) (Some p) (_type n) (_lockType n) (_name n) (_lockCount n).
Definition setLock (lockType lockCount : Z) (n : catNode) : catNode :=
  mkNode (_mapSubs n) (_latch n) (_mgr n) (_parent n) (_type n) lockType (_name n) lockCount.

Section catLock.
Context `{SharedMutex}.

(** ** The state and its monad

    [_vecLatch] and [_mapType2Lock] are the manager's members.  [allocs] is
    the allocator's schedule: each [SDB_OSS_NEW] takes one entry, [false] is a
    failure and an exhausted schedule never fails. *)
Record catState : Type := mkCat {
  nodes : gmap Z catNode;
  nextNode : Z;
  latches : gmap Z mutex;
  nextLatch : Z;
  _vecLatch : list Z;
  _mapType2Lock : gmap Z Z;
  allocs : list bool
}.

Definition cat_init : catState := mkCat ∅ 0 ∅ 0 [] ∅ [].

Definition set_nodes (m : gmap Z catNode) (s : catState) : catState :=
  mkCat m (nextNode s) (latches s) (nextLatch s) (_vecLatch s) (_mapType2Lock s) (allocs s).
Definition set_latches (m : gmap Z mutex) (s : catState) : catState :=
  mkCat (nodes s) (nextNode s) m (nextLatch s) (_vecLatch s) (_mapType2Lock s) (allocs s).
Definition set_pool (v : list Z) (s : catState) : catState :=
  mkCat (nodes s) (nextNode s) (latches s) (nextLatch s) v (_mapType2Lock s) (allocs s).
Definition set_types (m : gmap Z Z) (s : catState) : catState :=
  mkCat (nodes s) (nextNode s) (latches s) (nextLatch s) (_vecLatch s) m (allocs s).
Definition set_allocs (b : list bool) (s : catState) : catState :=
  mkCat (nodes s) (nextNode s) (latches s) (nextLatch s) (_vecLatch s) (_mapType2Lock s) b.

Definition catM (A : Type) : Type := catState -> option (A * catState).

#[global] Instance catM_ret : MRet catM := fun A a s => Some (a, s).
#[global] Instance catM_bind : MBind catM := fun A B f m s =>
  match m s with Some (a, s') => f a s' | None => None end.

Definition cat_crash {A} : catM A := fun _ => None.
Definition get_cat : catM catState := fun s => Some (s, s).
Definition mod_cat (f : catState -> catState) : catM unit := fun s => Some (tt, f s).

Definition getNode (a : Z) : catM catNode := fun s =>
  match nodes s !! a with Some n => Some (n, s) | None => None end.
Definition updNode (a : Z) (f : catNode -> catNode) : catM unit :=
  n ← getNode a;
  mod_cat (fun s => set_nodes (<[a := f n]> (nodes s)) s).

(** A default-constructed node in a map that had none. *)
Definition allocNode : catM Z := fun s =>
  Some (nextNode s,
        mkCat (<[nextNode s := newNode]> (nodes s)) (nextNode s + 1) (latches s) (nextLatch s)
          (_vecLatch s) (_mapType2Lock s) (allocs s)).
Definition freeNode (a : Z) : catM unit :=
  mod_cat (fun s => set_nodes (delete a (nodes s)) s).

(** A method of the latch at an address. *)
Definition onLatch {A} (l : Z) (f : mutex -> A * mutex) : catM A := fun s =>
  match latches s !! l with
  | Some m => Some ((f m).1, set_latches (<[l := (f m).2]> (latches s)) s)
  | None => None
  end.

Definition cat_oss_new : catM bool := fun s =>
  match allocs s with
  | [] => Some (true, s)
  | b :: bs => Some (b, set_allocs bs s)
  end.

(** ** The manager of the tree *)

Definition newLatch : catM Z := fun s =>
  Some (nextLatch s,
        mkCat (nodes s) (nextNode s) (<[nextLatch s := mutex_init]> (latches s)) (nextLatch s + 1)
          (_vecLatch s) (_mapType2Lock s) (allocs s)).

Definition getLatch : catM (option Z) :=
  s ← get_cat;
  match _vecLatch s with
  | latch :: rest => _ ← mod_cat (set_pool rest); mret (Some latch)
  | [] =>
      ok ← cat_oss_new;
      if (ok : bool) then latch ← newLatch; mret (Some latch) else mret None
  end.

Definition releaseLatch (latch : option Z) : catM unit :=
  match latch with
  | None => mret tt
  | Some l =>
      s ← get_cat;
      if (length (_vecLatch s) <? CAT_MAX_LATCH_SIZE)%nat
      then mod_cat (fun s => set_pool (_vecLatch s ++ [l]) s)
      else mod_cat (fun s => set_latches (delete l (latches s)) s)
  end.

Definition getLockTreeNode (type : Z) : catM Z :=
  s ← get_cat;
  lockTree ← match _mapType2Lock s !! type with
             | Some a => mret a
             | None =>
                 a ← allocNode;
                 _ ← mod_cat (fun s => set_types (<[type := a]> (_mapType2Lock s)) s);
                 mret a
             end;
  n ← getNode lockTree;
  _ ← (if _mgr n then mret tt else updNode lockTree (fun n => _setMgr (_setType type n)));
  mret lockTree.

(** Erasing an entry of a map destroys the node in it; only empty nodes are
    erased. *)
Definition eraseType (type : Z) : catM unit :=
  s ← get_cat;
  match _mapType2Lock s !! type with
  | None => mret tt
  | Some a =>
      _ ← mod_cat (fun s => set_types (delete type (_mapType2Lock s)) s);
      freeNode a
  end.

Definition releaseLockTreeNode (lockTreeNode : Z) : catM unit :=
  n ← getNode lockTreeNode;
  if isEmpty n then
    _ ← (match _latch n with
         | Some l => _ ← releaseLatch (Some l); updNode lockTreeNode (_setLatch None)
         | None => mret tt
         end);
    eraseType (_type n)
  else mret tt.

(** ** Tree nodes *)

Definition getSubTreeNode (this : Z) (name : string) : catM Z :=
  n ← getNode this;
  subTree ← match _mapSubs n !! name with
            | Some a => mret a
            | None =>
                a ← allocNode;
                _ ← updNode this (fun n => setSubs (<[name := a]> (_mapSubs n)) n);
                mret a
            end;
  sub ← getNode subTree;
  _ ← (match _latch sub with
       | Some _ => mret tt
       | None =>
           if _mgr n then latch ← getLatch; updNode subTree (_setLatch latch)
           else cat_crash
       end);
  sub ← getNode subTree;
  _ ← (match _parent sub with
       | Some _ => mret tt
       | None =>
           updNode subTree (fun sub =>
             let sub := _setName name (_setParent this sub) in
             if _mgr n then _setMgr sub else sub)
       end);
  mret subTree.

Definition eraseSub (this : Z) (name : string) : catM unit :=
  n ← getNode this;
  match _mapSubs n !! name with
  | None => mret tt
  | Some a =>
      _ ← updNode this (fun n => setSubs (delete name (_mapSubs n)) n);
      freeNode a
  end.

Definition releaseSubTreeNode (this subTreeNode : Z) : catM unit :=
  sub ← getNode subTreeNode;
  if isEmpty sub then
    n ← getNode this;
    _ ← (match _latch sub with
         | Some l =>
             if _mgr n then _ ← releaseLatch (Some l); updNode subTreeNode (_setLatch None)
             else cat_crash
         | None => mret tt
         end);
    eraseSub this (_name sub)
  else mret tt.

Definition node_tryLock (this : Z) (mode : OSS_LATCH_MODE) : catM bool :=
  n ← getNode this;
  lock ← (if _isZeroLevel n then mret true
          else match _latch n with
               | Some l =>
                   onLatch l (match mode with EXCLUSIVE => try_lock | SHARED => try_lock_shared end)
               | None => mret false
               end);
  if (lock : bool) then
    _ ← updNode this (fun n => setLock (modeCode mode) (_lockCount n + 1) n);
    mret true
  else mret false.

Definition node_unLock (this : Z) : catM unit :=
  n ← getNode this;
  if (-1 =? _lockType n) || (0 =? _lockCount n) then mret tt
  else
    _ ← (if negb (_isZeroLevel n) then
           match _latch n with
           | Some l =>
               if modeCode EXCLUSIVE =? _lockType n
               then onLatch l (fun m => (tt, unlock m))
               else onLatch l (fun m => (tt, unlock_shared m))
           | None => cat_crash
           end
         else mret tt);
    let lockCount := _lockCount n - 1 in
    updNode this (setLock (if 0 =? lockCount then -1 else _lockType n) lockCount).

(** ** Lock objects

    [_catZeroLevelLock], [_catOneLevelLock] and [_catTwoLevelLock] are one
    record with its class; the classes derived from them only fix the type. *)

Inductive levelClass : Set :=
  | ZeroLevel
  | OneLevel
  | TwoLevel.

Record catLock : Type := mkLock {
  l_class : levelClass;
  l_type : Z;
  _level1Name : string;
  _level2Name : string;
  _zeroLevelNode : option Z;
  _oneLevelNode : option Z;
  _twoLevelNode : option Z
}.

Definition catCSLock (csName : string) : catLock :=
  mkLock OneLevel CAT_LOCK_DATA csName EmptyString None None None.
Definition catCLLock (csName clName : string) : catLock :=
  mkLock TwoLevel CAT_LOCK_DATA csName clName None None None.
Definition catGroupLock (groupName : string) : catLock :=
  mkLock OneLevel CAT_LOCK_NODE groupName EmptyString None None None.
Definition catNodeLock (groupName nodeName : string) : catLock :=
  mkLock TwoLevel CAT_LOCK_NODE groupName nodeName None None None.
Definition catDomainLock (domainName : string) : catLock :=
  mkLock OneLevel CAT_LOCK_DOMAIN domainName EmptyString None None None.

Definition set_zero (a : option Z) (o : catLock) : catLock :=
  mkLock (l_class o) (l_type o) (_level1Name o) (_level2Name o) a (_oneLevelNode o) (_twoLevelNode o).
Definition set_one (a : option Z) (o : catLock) : catLock :=
  mkLock (l_class o) (l_type o) (_level1Name o) (_level2Name o) (_zeroLevelNode o) a (_twoLevelNode o).
Definition set_two (a : option Z) (o : catLock) : catLock :=
  mkLock (l_class o) (l_type o) (_level1Name o) (_level2Name o) (_zeroLevelNode o) (_oneLevelNode o) a.

(** Dereference of a member that may be null. *)
Definition notNull (p : option Z) : catM Z :=
  match p with Some a => mret a | None => cat_crash end.

Definition zero_unLock (o : catLock) : catM catLock :=
  match _zeroLevelNode o with
  | None => mret o
  | Some a =>
      _ ← node_unLock a;
      _ ← releaseLockTreeNode a;
      mret (set_zero None o)
  end.

Definition one_unLock (o : catLock) : catM catLock :=
  o ← (match _oneLevelNode o with
       | None => mret o
       | Some a =>
           _ ← node_unLock a;
           zero ← notNull (_zeroLevelNode o);
           _ ← releaseSubTreeNode zero a;
           mret (set_one None o)
       end);
  zero_unLock o.

Definition two_unLock (o : catLock) : catM catLock :=
  o ← (match _twoLevelNode o with
       | None => mret o
       | Some a =>
           _ ← node_unLock a;
           one ← notNull (_oneLevelNode o);
           _ ← releaseSubTreeNode one a;
           mret (set_two None o)
       end);
  one_unLock o.

(** The virtual method. *)
Definition unLock (o : catLock) : catM catLock :=
  match l_class o with
  | ZeroLevel => zero_unLock o
  | OneLevel => one_unLock o
  | TwoLevel => two_unLock o
  end.

Definition zero_tryLock (o : catLock) (mode : OSS_LATCH_MODE) : catM (bool * catLock) :=
  a ← (match _zeroLevelNode o with
       | Some a => mret a
       | None => getLockTreeNode (l_type o)
       end);
  let o := set_zero (Some a) o in
  locked ← node_tryLock a mode;
  if (locked : bool) then mret (true, o)
  else o ← unLock (set_zero None o); mret (false, o).

Definition one_tryLock (o : catLock) (mode : OSS_LATCH_MODE) : catM (bool * catLock) :=
  '(locked, o) ← zero_tryLock o SHARED;
  if (locked : bool) then
    a ← (match _oneLevelNode o with
         | Some a => mret a
         | None => zero ← notNull (_zeroLevelNode o); getSubTreeNode zero (_level1Name o)
         end);
    let o := set_one (Some a) o in
    locked ← node_tryLock a mode;
    if (locked : bool) then mret (true, o)
    else o ← unLock (set_one None o); mret (false, o)
  else mret (false, o).

Definition two_tryLock (o : catLock) (mode : OSS_LATCH_MODE) : catM (bool * catLock) :=
  '(locked, o) ← one_tryLock o SHARED;
  if (locked : bool) then
    a ← (match _twoLevelNode o with
         | Some a => mret a
         | None => one ← notNull (_oneLevelNode o); getSubTreeNode one (_level2Name o)
         end);
    let o := set_two (Some a) o in
    locked ← node_tryLock a mode;
    if (locked : bool) then mret (true, o)
    else o ← unLock (set_two None o); mret (false, o)
  else mret (false, o).

Definition tryLock (o : catLock) (mode : OSS_LATCH_MODE) : catM (bool * catLock) :=
  match l_class o with
  | ZeroLevel => zero_tryLock o mode
  | OneLevel => one_tryLock o mode
  | TwoLevel => two_tryLock o mode
  end.

(** [SDB_OSS_DEL]: the destructors of the class and of its bases unlock. *)
Definition deleteLock (o : catLock) : catM unit :=
  o ← match l_class o with TwoLevel => two_unLock o | _ => mret o end;
  o ← match l_class o with ZeroLevel => mret o | _ => one_unLock o end;
  _ ← zero_unLock o;
  mret tt.

(** ** The locks of a context

    [_lockList] is passed and returned. *)

Definition tryLockNew (lockList : list catLock) (pLock : option catLock) (mode : OSS_LATCH_MODE)
    : catM (bool * list catLock) :=
  match pLock with
  | None => mret (false, lockList)
  | Some pLock =>
      '(locked, pLock) ← tryLock pLock mode;
      if (locked : bool) then mret (true, lockList ++ [pLock])
      else _ ← deleteLock pLock; mret (false, lockList)
  end.

(** [SDB_OSS_NEW] of a lock object. *)
Definition newLock (o : catLock) : catM (option catLock) :=
  ok ← cat_oss_new;
  mret (if (ok : bool) then Some o else None).

Definition tryLockObject1 (lockList : list catLock) (type : Z) (name : string)
    (mode : OSS_LATCH_MODE) : catM (bool * list catLock) :=
  pLock ← (if type =? CAT_LOCK_DATA then newLock (catCSLock name)
           else if type =? CAT_LOCK_NODE then newLock (catGroupLock name)
           else if type =? CAT_LOCK_DOMAIN then newLock (catDomainLock name)
           else mret None);
  tryLockNew lockList pLock mode.

Definition tryLockObject2 (lockList : list catLock) (type : Z) (parentName name : string)
    (mode : OSS_LATCH_MODE) : catM (bool * list catLock) :=
  pLock ← (if type =? CAT_LOCK_DATA then newLock (catCLLock parentName name)
           else if type =? CAT_LOCK_NODE then newLock (catNodeLock parentName name)
           else mret None);
  tryLockNew lockList pLock mode.

Definition tryLockCollectionSpace (lockList : list catLock) (csName : string)
    (mode : OSS_LATCH_MODE) : catM (bool * list catLock) :=
  tryLockObject1 lockList CAT_LOCK_DATA csName mode.

Definition tryLockCollectionOf (lockList : list catLock) (csName clFullName : string)
    (mode : OSS_LATCH_MODE) : catM (bool * list catLock) :=
  tryLockObject2 lockList CAT_LOCK_DATA csName clFullName mode.

(** [rtnResolveCollectionSpaceName]: the name before the first dot, if it has
    at most [spaceNameSize] characters and a dot comes before the end. *)
Fixpoint resolveSpace_loop (rest : list ascii) (i spaceNameSize : Z) : option (list ascii) :=
  match rest with
  | [] => None
  | c :: rest' =>
      if decide (c = "."%char) then Some []
      else if spaceNameSize <=? i then None
      else r ← resolveSpace_loop rest' (i + 1) spaceNameSize; Some (c :: r)
  end.

(** The characters of a buffer before its first null. *)
Fixpoint c_chars (l : list ascii) : list ascii :=
  match l with
  | [] => []
  | c :: l' => if decide (c = Ascii.zero) then [] else c :: c_chars l'
  end.

Definition rtnResolveCollectionSpaceName (input : string) (spaceNameSize : Z) : option string :=
  r ← resolveSpace_loop (String.list_ascii_of_string input) 0 spaceNameSize;
  Some (String.string_of_list_ascii (c_chars r)).

Definition tryLockCollection (lockList : list catLock) (clFullName : string)
    (mode : OSS_LATCH_MODE) : catM (bool * list catLock) :=
  match rtnResolveCollectionSpaceName clFullName DMS_COLLECTION_SPACE_NAME_SZ with
  | None => mret (false, lockList)
  | Some csName => tryLockObject2 lockList CAT_LOCK_DATA csName clFullName mode
  end.

Definition tryLockDomain (lockList : list catLock) (domainName : string)
    (mode : OSS_LATCH_MODE) : catM (bool * list catLock) :=
  tryLockObject1 lockList CAT_LOCK_DOMAIN domainName mode.

Definition tryLockGroup (lockList : list catLock) (groupName : string)
    (mode : OSS_LATCH_MODE) : catM (bool * list catLock) :=
  tryLockObject1 lockList CAT_LOCK_NODE groupName mode.

Definition tryLockNode (lockList : list catLock) (groupName nodeName : string)
    (mode : OSS_LATCH_MODE) : catM (bool * list catLock) :=
  tryLockObject2 lockList CAT_LOCK_NODE groupName nodeName mode.

Fixpoint unlockObjects (lockList : list catLock) : catM (list catLock) :=
  match lockList with
  | [] => mret []
  | pLock :: rest =>
      pLock ← unLock pLock;
      _ ← deleteLock pLock;
      unlockObjects rest
  end.
End catLock.
