(* ===== verification/CatLockInv.v ===== *)
(** * Catalog level locks: the invariant of the lock tree

    A lock on a path of names holds the nodes of all its prefixes in shared
    mode and the last one in its own mode.  [demand] gives for every path the
    modes in which it is held; the invariant says that nodes, latches and the
    pool of latches are what the demand asks for. *)

From stdpp Require Import base gmap list strings functions.
From S2P Require Import Prelude.
From S2P Require Import CatLock.
From Stdlib Require Import ZArith Lia.

Open Scope Z_scope.

Abbreviation path := (Z * list string)%type.
Abbreviation demand := (path -> list OSS_LATCH_MODE).

Definition sub_path (p : path) (x : string) : path := (p.1, p.2 ++ [x]).

#[global] Instance sub_path_inj : Inj2 (=) (=) (=) sub_path.
Proof.
  intros [t ns] x [t' ns'] x' [= -> [-> [= ->]]%app_inj_tail]. done.
Qed.

Lemma sub_path_not_root p x : (sub_path p x).2 <> [].
Proof. unfold sub_path; simpl. by destruct p.2. Qed.

Lemma sub_path_neq p x : sub_path p x <> p.
Proof.
  destruct p as [t ns]; unfold sub_path; simpl. intros [= E].
  apply (f_equal length) in E. rewrite length_app in E. simpl in E. lia.
Qed.

Definition hold_of (ms : list OSS_LATCH_MODE) : holders :=
  if decide (EXCLUSIVE ∈ ms) then Writer else Readers (length ms).

Definition type_of (ms : list OSS_LATCH_MODE) : Z :=
  match ms with
  | [] => -1
  | _ => if decide (EXCLUSIVE ∈ ms) then modeCode EXCLUSIVE else modeCode SHARED
  end.

(** Whether a further lock in a mode can be had. *)
Definition fits (mode : OSS_LATCH_MODE) (ms : list OSS_LATCH_MODE) : Prop :=
  match mode with EXCLUSIVE => ms = [] | SHARED => EXCLUSIVE ∉ ms end.

#[global] Instance fits_dec mode ms : Decision (fits mode ms).
Proof. destruct mode; simpl; apply _. Defined.

#[global] Instance hold_of_proper : Proper ((≡ₚ) ==> (=)) hold_of.
Proof.
  intros l l' E. unfold hold_of. rewrite (Permutation_length E).
  by repeat case_decide; try (rewrite E in *; done).
Qed.

#[global] Instance type_of_proper : Proper ((≡ₚ) ==> (=)) type_of.
Proof.
  intros l l' E. destruct l as [|x l]; [by apply Permutation_nil in E as ->|].
  destruct l' as [|x' l']; [by apply Permutation_sym, Permutation_nil in E|].
  unfold type_of. by repeat case_decide; try (rewrite E in *; done).
Qed.

#[global] Instance fits_proper mode : Proper ((≡ₚ) ==> iff) (fits mode).
Proof.
  intros l l' E. destruct mode; simpl; [by rewrite E|].
  split; intros ->; [by apply Permutation_nil in E|by apply Permutation_sym, Permutation_nil in E].
Qed.

Lemma hold_of_nil : hold_of [] = Readers 0.
Proof. done. Qed.

Lemma hold_of_writer ms : EXCLUSIVE ∈ ms -> hold_of ms = Writer.
Proof. intros. unfold hold_of. by rewrite decide_True. Qed.

Lemma hold_of_readers ms : EXCLUSIVE ∉ ms -> hold_of ms = Readers (length ms).
Proof. intros. unfold hold_of. by rewrite decide_False. Qed.

Lemma type_of_nil ms : type_of ms = -1 <-> ms = [].
Proof. destruct ms; simpl; [done|]. case_decide; done. Qed.

(** ** Nodes *)

Section inv.
Context `{SharedMutexSpec}.
Implicit Types (tbl L : gmap path Z) (M : demand) (p q : path) (n : catNode) (s : catState).

Record node_ok tbl (latch : option Z) (ms : list OSS_LATCH_MODE) p n : Prop := {
  nk_count : _lockCount n = Z.of_nat (length ms);
  nk_subs x : _mapSubs n !! x = tbl !! sub_path p x;
  nk_mgr : _mgr n = true;
  nk_latch : _latch n = latch;
  nk_root : p.2 = [] ->
    _type n = p.1 /\ p.1 <> CAT_LOCK_MAX /\ latch = None /\ (_lockType n = -1 <-> ms = []);
  nk_below : p.2 <> [] ->
    _type n = CAT_LOCK_MAX /\ is_Some (_parent n) /\ (exists q, p = sub_path q (_name n)) /\
    _lockType n = type_of ms /\ (latch = None -> ms = [])
}.

Record nodes_ok (ns : gmap Z catNode) (next : Z) (types : gmap Z Z) tbl L M : Prop := {
  no_node p a : tbl !! p = Some a -> exists n, ns !! a = Some n /\ node_ok tbl (L !! p) (M p) p n;
  no_inj p q a : tbl !! p = Some a -> tbl !! q = Some a -> p = q;
  no_all a n : ns !! a = Some n -> a < next /\ exists p, tbl !! p = Some a;
  no_types t : types !! t = tbl !! (t, []);
  no_latched p : is_Some (L !! p) -> is_Some (tbl !! p);
  no_closed p x : is_Some (tbl !! sub_path p x) -> is_Some (tbl !! p)
}.

(** ** Latches *)

Record latch_ok (lat : gmap Z mutex) (next : Z) (pool : list Z) L M : Prop := {
  lk_held p l : L !! p = Some l -> exists m, lat !! l = Some m /\ held m = hold_of (M p);
  lk_inj p q l : L !! p = Some l -> L !! q = Some l -> p = q;
  lk_nodup : NoDup pool;
  lk_size : (length pool <= CAT_MAX_LATCH_SIZE)%nat;
  lk_pool l : l ∈ pool ->
    (forall p, L !! p <> Some l) /\ exists m, lat !! l = Some m /\ held m = Readers 0;
  lk_all l m : lat !! l = Some m -> l < next /\ (l ∈ pool \/ exists p, L !! p = Some l)
}.

(** [oom]: allocations may fail, and then nodes may be left unused; [ex]: the
    node that an operation under way has not used yet or not given back. *)
Record inv (oom : bool) (ex : option path) s M tbl L : Prop := {
  inv_nodes : nodes_ok (nodes s) (nextNode s) (_mapType2Lock s) tbl L M;
  inv_latch : latch_ok (latches s) (nextLatch s) (_vecLatch s) L M;
  inv_used p : M p <> [] -> is_Some (tbl !! p);
  inv_tidy p : is_Some (tbl !! p) -> M p <> [] \/ oom = true \/ ex = Some p;
  inv_excl p : p.2 <> [] -> EXCLUSIVE ∈ M p -> M p = [EXCLUSIVE];
  inv_alloc : oom = false -> allocs s = []
}.

Lemma inv_init : inv false None cat_init (fun _ => []) ∅ ∅.
Proof.
  split; [split|split|..]; simpl; intros; try done; try lia; try constructor; simplify_map_eq.
  all: try (by match goal with H : is_Some _ |- _ => destruct H; simplify_map_eq end).
  all: set_solver.
Qed.

Lemma node_ok_perm tbl latch ms ms' p n :
  ms ≡ₚ ms' -> node_ok tbl latch ms p n -> node_ok tbl latch ms' p n.
Proof.
  intros E [????? B]. assert (ms = [] <-> ms' = []) as En.
  { split; intros ->; [by apply Permutation_nil in E|by apply Permutation_sym, Permutation_nil in E]. }
  split; try done; [by rewrite <- E|by rewrite <- En|].
  intros Hp. rewrite <- En, <- E. auto.
Qed.

(** The order in which locks were taken does not matter. *)
Lemma inv_perm oom ex s M M' tbl L :
  (forall p, M p ≡ₚ M' p) -> inv oom ex s M tbl L -> inv oom ex s M' tbl L.
Proof.
  intros E [[N1 ?????] [L1 ?????] U T X A].
  assert (forall p, M p = [] <-> M' p = []) as En.
  { intros p. split; intros E'; specialize (E p); rewrite E' in E;
      [by apply Permutation_nil|by apply Permutation_sym, Permutation_nil in E]. }
  split; [split|split|..]; try done.
  - intros p a Ha. destruct (N1 p a Ha) as (n & ? & ?).
    eauto using node_ok_perm.
  - intros p l Hl. destruct (L1 p l Hl) as (m & ? & Hm). exists m. by rewrite <- E.
  - intros p. rewrite <- En. auto.
  - intros p Hp. rewrite <- En. auto.
  - intros p Hp Hx. specialize (E p). rewrite <- E in Hx. rewrite (X p Hp Hx) in E.
    by apply Permutation_length_1_inv in E.
Qed.

(** ** How the latches change *)

Lemma latch_set lat nx pool L M p l m' ms' :
  latch_ok lat nx pool L M -> L !! p = Some l -> held m' = hold_of ms' ->
  latch_ok (<[l := m']> lat) nx pool L (<[p := ms']> M).
Proof.
  intros [H1 H2 H3 H4 H5 H6] Hl Hm. split; try done.
  - intros q k Hk. destruct (decide (q = p)) as [->|Hne].
    + rewrite fn_lookup_insert. simplify_eq. rewrite lookup_insert_eq. eauto.
    + rewrite fn_lookup_insert_ne by done. destruct (decide (k = l)) as [->|].
      * by destruct Hne; eauto.
      * rewrite lookup_insert_ne by done. auto.
  - intros k Hk. destruct (H5 k Hk) as [Hno Hm']. split; [done|].
    rewrite lookup_insert_ne; [done|]. intros ->. by destruct (Hno p).
  - intros k m. destruct (decide (k = l)) as [->|].
    + destruct (H1 p l Hl) as (m0 & Hm0 & _). intros _. eauto.
    + rewrite lookup_insert_ne by done. apply H6.
Qed.

Lemma latch_own lat nx pool L M p l m :
  latch_ok lat nx pool L M -> lat !! l = Some m -> held m = Readers 0 ->
  (forall q, L !! q <> Some l) -> L !! p = None -> M p = [] -> l ∈ pool ->
  forall pool', NoDup pool' -> (length pool' <= length pool)%nat ->
    (forall k, k ∈ pool' <-> k ∈ pool /\ k <> l) ->
  latch_ok lat nx pool' (<[p := l]> L) M.
Proof.
  intros [H1 H2 H3 H4 H5 H6] Hl Hm Hno HL HM Hin pool' Hnd Hlen Hp'. split; try done.
  - intros q k. destruct (decide (q = p)) as [->|].
    + rewrite lookup_insert_eq, HM. intros [= <-]. eauto.
    + rewrite lookup_insert_ne by done. apply H1.
  - intros q1 q2 k. destruct (decide (q1 = p)) as [->|], (decide (q2 = p)) as [->|];
      rewrite ?lookup_insert_eq, ?lookup_insert_ne by done; try done.
    + intros [= <-] ?. by destruct (Hno q2).
    + intros ? [= <-]. by destruct (Hno q1).
    + apply H2.
  - lia.
  - intros k [Hk Hne]%Hp'. destruct (H5 k Hk) as [Hk1 Hk2]. split; [|done].
    intros q. destruct (decide (q = p)) as [->|].
    + rewrite lookup_insert_eq. congruence.
    + rewrite lookup_insert_ne by done. apply Hk1.
  - intros k m0 Hk. destruct (H6 k m0 Hk) as [? [Hin'|[q Hq]]]; (split; [done|]).
    + destruct (decide (k = l)) as [->|]; [right; exists p; apply lookup_insert_eq|left].
      by apply Hp'.
    + right. exists q. rewrite lookup_insert_ne; [done|]. congruence.
Qed.

Lemma latch_fresh lat nx L M :
  latch_ok lat nx [] L M -> latch_ok (<[nx := mutex_init]> lat) (nx + 1) [nx] L M.
Proof.
  intros [H1 H2 H3 H4 H5 H6].
  assert (lat !! nx = None) as Hnew.
  { destruct (lat !! nx) eqn:E; [|done]. apply H6 in E as [? _]. lia. }
  split; try done.
  - intros p l Hl. destruct (H1 p l Hl) as (m & Hm & ?). exists m.
    rewrite lookup_insert_ne by congruence. done.
  - apply NoDup_singleton.
  - simpl. unfold CAT_MAX_LATCH_SIZE. lia.
  - intros l ->%list_elem_of_singleton. rewrite lookup_insert_eq. split.
    + intros p Hp. destruct (H1 p nx Hp) as (? & ? & _). congruence.
    + eauto using held_init.
  - intros l m. destruct (decide (l = nx)) as [->|].
    + intros _. split; [lia|left; set_solver].
    + rewrite lookup_insert_ne by done. intros Hl. destruct (H6 l m Hl) as [? [Hi|?]].
      * by apply not_elem_of_nil in Hi.
      * split; [lia|auto].
Qed.

Lemma latch_back lat nx pool L M p l :
  latch_ok lat nx pool L M -> L !! p = Some l -> M p = [] ->
  (length pool < CAT_MAX_LATCH_SIZE)%nat ->
  latch_ok lat nx (pool ++ [l]) (delete p L) M.
Proof.
  intros [H1 H2 H3 H4 H5 H6] Hl HM Hlen. split.
  - intros q k [_ Hk]%lookup_delete_Some. auto.
  - intros q1 q2 k [_ ?]%lookup_delete_Some [_ ?]%lookup_delete_Some. eauto.
  - apply list.NoDup_app. split; [done|]. split; [|apply NoDup_singleton].
    intros x Hx ->%list_elem_of_singleton. destruct (H5 l Hx) as [Hno _]. by destruct (Hno p).
  - rewrite length_app. simpl. lia.
  - intros k [Hk| ->%list_elem_of_singleton]%elem_of_app.
    + destruct (H5 k Hk) as [Hno ?]. split; [|done].
      intros q [_ ?]%lookup_delete_Some. by destruct (Hno q).
    + destruct (H1 p l Hl) as (m & ? & Hm). rewrite HM in Hm. split; [|eauto].
      intros q [Hne Hq]%lookup_delete_Some. destruct Hne. eauto.
  - intros k m Hk. destruct (H6 k m Hk) as [? [?|[q Hq]]]; (split; [done|]).
    + left. apply elem_of_app. auto.
    + destruct (decide (q = p)) as [->|]; [left; apply elem_of_app; right; set_solver|].
      right. exists q. by rewrite lookup_delete_ne.
Qed.

Lemma latch_drop lat nx pool L M p l :
  latch_ok lat nx pool L M -> L !! p = Some l ->
  latch_ok (delete l lat) nx pool (delete p L) M.
Proof.
  intros [H1 H2 H3 H4 H5 H6] Hl. split; try done.
  - intros q k [Hne Hk]%lookup_delete_Some. rewrite lookup_delete_ne; [auto|].
    intros ->. by destruct Hne; eauto.
  - intros q1 q2 k [_ ?]%lookup_delete_Some [_ ?]%lookup_delete_Some. eauto.
  - intros k Hk. destruct (H5 k Hk) as [Hno ?]. split.
    + intros q [_ ?]%lookup_delete_Some. by destruct (Hno q).
    + rewrite lookup_delete_ne; [done|]. intros ->. by destruct (Hno p).
  - intros k m [Hne Hk]%lookup_delete_Some. destruct (H6 k m Hk) as [? [?|[q Hq]]]; (split; [done|]).
    + auto.
    + right. exists q. rewrite lookup_delete_ne; [done|]. congruence.
Qed.

(** ** How the nodes change *)

(** The node of [p] is replaced; nothing else changes. *)
Lemma node_set ns nx ty tbl L L' M M' p a n' :
  nodes_ok ns nx ty tbl L M -> tbl !! p = Some a ->
  (forall q, q <> p -> L' !! q = L !! q) -> (forall q, q <> p -> M' q = M q) ->
  node_ok tbl (L' !! p) (M' p) p n' ->
  nodes_ok (<[a := n']> ns) nx ty tbl L' M'.
Proof.
  intros [N1 N2 N3 N4 N5 N6] Ha HL HM Hn. split; try done.
  - intros q c Hc. destruct (decide (q = p)) as [->|Hne].
    + simplify_eq. rewrite lookup_insert_eq. eauto.
    + rewrite HL, HM by done. rewrite lookup_insert_ne; [auto|].
      intros ->. by destruct Hne; eauto.
  - intros c n. destruct (decide (c = a)) as [->|].
    + intros _. destruct (N1 p a Ha) as (n0 & Hn0 & _). eauto.
    + rewrite lookup_insert_ne by done. apply N3.
  - intros q Hq. destruct (decide (q = p)) as [->|]; [by rewrite Ha|].
    rewrite HL in Hq by done. auto.
Qed.

(** Other entries of the table of nodes do not concern a node. *)
Lemma node_ok_tbl tbl tbl' latch ms p n :
  (forall x, tbl' !! sub_path p x = tbl !! sub_path p x) ->
  node_ok tbl latch ms p n -> node_ok tbl' latch ms p n.
Proof. intros E [????? B]. split; try done. intros x. by rewrite E. Qed.

Lemma fresh_none ns nx ty tbl L M : nodes_ok ns nx ty tbl L M -> ns !! nx = None.
Proof.
  intros N. destruct (ns !! nx) eqn:E; [|done].
  apply (no_all _ _ _ _ _ _ N) in E as [? _]. lia.
Qed.

Lemma unlisted ns nx ty tbl L M p :
  nodes_ok ns nx ty tbl L M -> tbl !! p <> Some nx.
Proof.
  intros N E. destruct (no_node _ _ _ _ _ _ N p nx E) as (n & Hn & _).
  by rewrite (fresh_none _ _ _ _ _ _ N) in Hn.
Qed.

Lemma no_children ns nx ty tbl L M p x :
  nodes_ok ns nx ty tbl L M -> tbl !! p = None -> tbl !! sub_path p x = None.
Proof.
  intros N E. apply eq_None_not_Some. intros Hs.
  apply (no_closed _ _ _ _ _ _ N) in Hs. rewrite E in Hs. by destruct Hs.
Qed.

Lemma root_not_sub (t : Z) p x : sub_path p x <> (t, []).
Proof. intros E. apply (sub_path_not_root p x). by rewrite E. Qed.

Lemma node_add_root ns nx ty tbl L M t :
  nodes_ok ns nx ty tbl L M -> tbl !! (t, []) = None -> M (t, []) = [] -> t <> CAT_LOCK_MAX ->
  nodes_ok (<[nx := _setMgr (_setType t newNode)]> ns) (nx + 1) (<[t := nx]> ty)
    (<[(t, []) := nx]> tbl) L M.
Proof.
  intros N E HM Ht. pose proof N as [N1 N2 N3 N4 N5 N6].
  assert (L !! (t, []) = None) as HL.
  { apply eq_None_not_Some. intros Hs%N5. rewrite E in Hs. by destruct Hs. }
  split.
  - intros p a. destruct (decide (p = (t, []))) as [->|Hne].
    + rewrite lookup_insert_eq. intros [= <-]. rewrite lookup_insert_eq. eexists. split; [done|].
      rewrite HL, HM. split; try done.
      intros x. rewrite lookup_insert_ne by (intros Hq; by eapply root_not_sub).
      simpl. by rewrite (no_children _ _ _ _ _ _ _ _ N E), lookup_empty.
    + rewrite lookup_insert_ne by done. intros Ha. destruct (N1 p a Ha) as (n & Hn & Hok).
      exists n. split.
      * rewrite lookup_insert_ne; [done|]. intros ->. by eapply unlisted.
      * eapply node_ok_tbl; [|done]. intros x. apply lookup_insert_ne.
        intros Hq. by eapply root_not_sub.
  - intros p q a. destruct (decide (p = (t, []))) as [->|], (decide (q = (t, []))) as [->|];
      rewrite ?lookup_insert_eq, ?lookup_insert_ne by done; try done.
    + intros [= <-] ?. by destruct (unlisted _ _ _ _ _ _ q N).
    + intros ? [= <-]. by destruct (unlisted _ _ _ _ _ _ p N).
    + apply N2.
  - intros a n. destruct (decide (a = nx)) as [->|].
    + intros _. split; [lia|]. exists (t, []). apply lookup_insert_eq.
    + rewrite lookup_insert_ne by done. intros Ha. destruct (N3 a n Ha) as [? [p Hp]].
      split; [lia|]. exists p. rewrite lookup_insert_ne; congruence.
  - intros t'. destruct (decide (t' = t)) as [->|]; [by rewrite !lookup_insert_eq|].
    rewrite !lookup_insert_ne by congruence. apply N4.
  - intros p Hp%N5. destruct (decide (p = (t, []))) as [->|]; [by rewrite lookup_insert_eq|].
    by rewrite lookup_insert_ne.
  - intros p x. rewrite lookup_insert_ne by (intros Hq; by eapply root_not_sub).
    intros Hs%N6. destruct (decide (p = (t, []))) as [->|]; [by rewrite lookup_insert_eq|].
    by rewrite lookup_insert_ne.
Qed.

Definition childNode (parent : Z) (name : string) (latch : option Z) : catNode :=
  _setMgr (_setName name (_setParent parent (_setLatch latch newNode))).

Lemma node_add_sub ns nx ty tbl L L' M p a x n :
  nodes_ok ns nx ty tbl L M -> tbl !! p = Some a -> ns !! a = Some n ->
  tbl !! sub_path p x = None -> M (sub_path p x) = [] ->
  (forall q, q <> sub_path p x -> L' !! q = L !! q) ->
  nodes_ok (<[nx := childNode a x (L' !! sub_path p x)]>
              (<[a := setSubs (<[x := nx]> (_mapSubs n)) n]> ns))
    (nx + 1) ty (<[sub_path p x := nx]> tbl) L' M.
Proof.
  intros N Ha Hn E HM HL. pose proof N as [N1 N2 N3 N4 N5 N6].
  assert (a <> nx) as Hax by (intros ->; by eapply unlisted).
  split.
  - intros q c. destruct (decide (q = sub_path p x)) as [->|Hq].
    + rewrite lookup_insert_eq. intros [= <-]. rewrite lookup_insert_eq. eexists. split; [done|].
      rewrite HM. split; try done.
      * intros y. rewrite lookup_insert_ne by (intros Hq; by eapply sub_path_neq).
        simpl. by rewrite (no_children _ _ _ _ _ _ _ _ N E), lookup_empty.
      * by intros ?%sub_path_not_root.
      * intros _. simpl. repeat split; eauto.
    + rewrite lookup_insert_ne by done. rewrite (HL q) by done. intros Hc.
      rewrite lookup_insert_ne by (intros ->; by eapply unlisted).
      destruct (N1 q c Hc) as (n0 & Hn0 & Hok).
      destruct (decide (q = p)) as [->|Hqp].
      * simplify_eq. rewrite lookup_insert_eq. eexists. split; [done|].
        destruct Hok as [? Hs ????]. split; try done. intros y. simpl.
        destruct (decide (y = x)) as [->|Hy]; [by rewrite !lookup_insert_eq|].
        rewrite !lookup_insert_ne; [apply Hs| |done]. intros [_ ?]%sub_path_inj. congruence.
      * rewrite lookup_insert_ne by (intros ->; by destruct Hqp; eauto).
        exists n0. split; [done|]. eapply node_ok_tbl; [|done]. intros y. apply lookup_insert_ne.
        intros [? _]%sub_path_inj. congruence.
  - intros q1 q2 c.
    destruct (decide (q1 = sub_path p x)) as [->|], (decide (q2 = sub_path p x)) as [->|];
      rewrite ?lookup_insert_eq, ?lookup_insert_ne by done; try done.
    + intros [= <-] ?. by destruct (unlisted _ _ _ _ _ _ q2 N).
    + intros ? [= <-]. by destruct (unlisted _ _ _ _ _ _ q1 N).
    + apply N2.
  - intros c n0. destruct (decide (c = nx)) as [->|Hcx].
    + intros _. split; [lia|]. eexists. apply lookup_insert_eq.
    + rewrite lookup_insert_ne by done. intros Hc.
      assert (exists n1, ns !! c = Some n1) as [n1 Hc1].
      { destruct (decide (c = a)) as [->|]; [eauto|]. rewrite lookup_insert_ne in Hc; eauto. }
      destruct (N3 c n1 Hc1) as [? [q Hq]].
      split; [lia|]. exists q. rewrite lookup_insert_ne; congruence.
  - intros t. rewrite lookup_insert_ne by apply root_not_sub. apply N4.
  - intros q Hq. destruct (decide (q = sub_path p x)) as [->|]; [by rewrite lookup_insert_eq|].
    rewrite lookup_insert_ne by done. rewrite HL in Hq by done. auto.
  - intros q y Hs. destruct (decide (q = sub_path p x)) as [->|]; [by rewrite lookup_insert_eq|].
    rewrite lookup_insert_ne by done. destruct (decide (sub_path q y = sub_path p x)) as [Eq|].
    + apply sub_path_inj in Eq as [-> _]. by rewrite Ha.
    + rewrite lookup_insert_ne in Hs by done. eauto.
Qed.

(** An unused leaf goes away: its parent, if any, has forgotten it. *)
Lemma node_del_root ns nx ty tbl L M t a :
  nodes_ok ns nx ty tbl L M -> tbl !! (t, []) = Some a -> L !! (t, []) = None ->
  (forall x, tbl !! sub_path (t, []) x = None) ->
  nodes_ok (delete a ns) nx (delete t ty) (delete (t, []) tbl) L M.
Proof.
  intros N Ha HL Hsub. pose proof N as [N1 N2 N3 N4 N5 N6]. split.
  - intros p c [Hne Hc]%lookup_delete_Some. destruct (N1 p c Hc) as (n & Hn & Hok).
    exists n. split; [rewrite lookup_delete_ne; [done|]; intros ->; by destruct Hne; eauto|].
    eapply node_ok_tbl; [|done]. intros x. apply lookup_delete_ne.
    intros Hq. by eapply root_not_sub.
  - intros p q c [_ ?]%lookup_delete_Some [_ ?]%lookup_delete_Some. eauto.
  - intros c n [Hne Hc]%lookup_delete_Some. destruct (N3 c n Hc) as [? [p Hp]].
    split; [done|]. exists p. rewrite lookup_delete_ne; [done|]. congruence.
  - intros t'. destruct (decide (t' = t)) as [->|]; [by rewrite !lookup_delete_eq|].
    rewrite !lookup_delete_ne by congruence. apply N4.
  - intros p Hp. destruct (decide (p = (t, []))) as [->|]; [rewrite HL in Hp; by destruct Hp|].
    rewrite lookup_delete_ne by done. auto.
  - intros p x [? [_ Hs]%lookup_delete_Some].
    destruct (decide (p = (t, []))) as [->|]; [by rewrite Hsub in Hs|].
    rewrite lookup_delete_ne by done. eauto.
Qed.

Lemma node_del_sub ns nx ty tbl L M p a x n c :
  nodes_ok ns nx ty tbl L M -> tbl !! p = Some a -> ns !! a = Some n ->
  tbl !! sub_path p x = Some c -> L !! sub_path p x = None ->
  (forall y, tbl !! sub_path (sub_path p x) y = None) ->
  nodes_ok (delete c (<[a := setSubs (delete x (_mapSubs n)) n]> ns)) nx ty
    (delete (sub_path p x) tbl) L M.
Proof.
  intros N Ha Hn Hc HL Hsub. pose proof N as [N1 N2 N3 N4 N5 N6].
  assert (a <> c) as Hac.
  { intros ->. apply (sub_path_neq p x). eauto. }
  split.
  - intros q b [Hne Hb]%lookup_delete_Some. destruct (N1 q b Hb) as (n0 & Hn0 & Hok).
    rewrite lookup_delete_ne by (intros ->; by destruct Hne; eauto).
    destruct (decide (q = p)) as [->|Hqp].
    + simplify_eq. rewrite lookup_insert_eq. eexists. split; [done|].
      destruct Hok as [? Hs ????]. split; try done. intros y. simpl.
      destruct (decide (y = x)) as [->|Hy]; [by rewrite !lookup_delete_eq|].
      rewrite !lookup_delete_ne; [apply Hs| |done]. intros [_ ?]%sub_path_inj. congruence.
    + rewrite lookup_insert_ne by (intros ->; by destruct Hqp; eauto).
      exists n0. split; [done|]. eapply node_ok_tbl; [|done]. intros y. apply lookup_delete_ne.
      intros [? _]%sub_path_inj. congruence.
  - intros q1 q2 b [_ ?]%lookup_delete_Some [_ ?]%lookup_delete_Some. eauto.
  - intros b n0 [Hne Hb]%lookup_delete_Some.
    assert (exists n1, ns !! b = Some n1) as [n1 Hb1].
    { destruct (decide (b = a)) as [->|]; [eauto|]. rewrite lookup_insert_ne in Hb; eauto. }
    destruct (N3 b n1 Hb1) as [? [q Hq]]. split; [done|]. exists q.
    rewrite lookup_delete_ne; [done|]. congruence.
  - intros t. rewrite lookup_delete_ne by apply root_not_sub. apply N4.
  - intros q Hq. destruct (decide (q = sub_path p x)) as [->|]; [rewrite HL in Hq; by destruct Hq|].
    rewrite lookup_delete_ne by done. auto.
  - intros q y [? [_ Hs]%lookup_delete_Some].
    destruct (decide (q = sub_path p x)) as [->|]; [by rewrite Hsub in Hs|].
    rewrite lookup_delete_ne by done. eauto.
Qed.
End inv.
