(* ===== verification/CatLockOps.v ===== *)
(** * Catalog level locks: the tree operations keep the invariant

    Every operation on tree nodes returns, and changes the demand of one path
    as its name says. *)

From stdpp Require Import base gmap list strings functions.
From S2P Require Import Prelude.
From S2P Require Import CatLock CatLockInv.
From Stdlib Require Import ZArith Lia.

Open Scope Z_scope.

Section ops.
Context `{SharedMutexSpec}.
Implicit Types (tbl L : gmap path Z) (M : demand) (p q : path) (n : catNode) (s : catState).

Lemma cat_bind {A B} (m : catM A) (f : A -> catM B) s a s' :
  m s = Some (a, s') -> (m ≫= f) s = f a s'.
Proof. intros E. unfold mbind, catM_bind. by rewrite E. Qed.

Lemma getNode_at a s n : nodes s !! a = Some n -> getNode a s = Some (n, s).
Proof. intros E. unfold getNode. by rewrite E. Qed.

Lemma updNode_at a f s n :
  nodes s !! a = Some n -> updNode a f s = Some (tt, set_nodes (<[a := f n]> (nodes s)) s).
Proof. intros E. unfold updNode. by rewrite (cat_bind _ _ _ _ _ (getNode_at _ _ _ E)). Qed.

Lemma inv_at oom ex s M tbl L p a :
  inv oom ex s M tbl L -> tbl !! p = Some a ->
  exists n, nodes s !! a = Some n /\ node_ok tbl (L !! p) (M p) p n.
Proof. intros I. apply (no_node _ _ _ _ _ _ (inv_nodes _ _ _ _ _ _ I)). Qed.

(** A used node needs no exemption, and an unused one can have it. *)
Lemma inv_ex oom ex ex' s M tbl L :
  (forall p, ex = Some p -> M p <> [] \/ oom = true \/ ex' = Some p) ->
  inv oom ex s M tbl L -> inv oom ex' s M tbl L.
Proof.
  intros E [? ? ? T ? ?]. split; try done.
  intros p Hp. destruct (T p Hp) as [?|[?|?]]; auto.
Qed.

Lemma isZero_root tbl latch ms p n :
  node_ok tbl latch ms p n -> _isZeroLevel n = bool_decide (p.2 = []).
Proof.
  intros [?? ? ? R B]. unfold _isZeroLevel. destruct (decide (p.2 = [])) as [E|E].
  - destruct (R E) as (-> & ? & _). rewrite bool_decide_eq_true_2 by done.
    by rewrite (proj2 (Z.eqb_neq _ _)).
  - destruct (B E) as (-> & _). by rewrite bool_decide_eq_false_2.
Qed.

(** ** Locking and unlocking a node *)

Lemma inv_relock oom ex s M tbl L p a n ms lat' :
  inv oom ex s M tbl L -> tbl !! p = Some a -> nodes s !! a = Some n ->
  latch_ok lat' (nextLatch s) (_vecLatch s) L (<[p := ms]> M) ->
  forall n', node_ok tbl (L !! p) ms p n' ->
  (p.2 <> [] -> EXCLUSIVE ∈ ms -> ms = [EXCLUSIVE]) ->
  forall ex', (forall q, q <> p -> ex <> Some q) -> ms <> [] \/ ex' = Some p ->
  inv oom ex' (set_nodes (<[a := n']> (nodes s)) (set_latches lat' s)) (<[p := ms]> M) tbl L.
Proof.
  intros I Ha Hn Hlat n' Hn' Hex ex' Hex1 Hex2. pose proof I as [N ? U T X A].
  split; simpl; try done.
  - eapply node_set; [done..| |by rewrite fn_lookup_insert].
    intros q Hq. by rewrite fn_lookup_insert_ne.
  - intros q. destruct (decide (q = p)) as [->|].
    + intros _. by rewrite Ha.
    + rewrite fn_lookup_insert_ne by done. auto.
  - intros q Hq. destruct (decide (q = p)) as [->|Hne].
    + rewrite fn_lookup_insert. destruct Hex2; auto.
    + rewrite fn_lookup_insert_ne by done. destruct (T q Hq) as [?|[?|?]]; auto.
      by destruct (Hex1 q).
  - intros q Hq. destruct (decide (q = p)) as [->|].
    + rewrite fn_lookup_insert. auto.
    + rewrite fn_lookup_insert_ne by done. auto.
Qed.

Lemma set_latches_same s : set_latches (latches s) s = s.
Proof. by destruct s. Qed.

(** The new state of the node's counters. *)
Lemma node_ok_lock tbl latch ms p n mode :
  node_ok tbl latch ms p n -> p.2 = [] \/ (fits mode ms /\ is_Some latch) ->
  node_ok tbl latch (mode :: ms) p (setLock (modeCode mode) (_lockCount n + 1) n).
Proof.
  intros [C S G Lt R B] Hf. split; simpl; try done.
  - rewrite C. lia.
  - intros E. destruct (R E) as (-> & ? & -> & _). repeat split; try done.
    by destruct mode.
  - intros E. destruct (B E) as (-> & ? & ? & ? & ?).
    destruct Hf as [|[Hf [l ->]]]; [done|]. repeat split; try done.
    destruct mode; unfold fits in Hf; unfold type_of; case_decide; set_solver.
Qed.

Lemma node_ok_unlock tbl latch ms p n m rest :
  node_ok tbl latch ms p n -> ms ≡ₚ m :: rest ->
  (p.2 <> [] -> EXCLUSIVE ∈ ms -> ms = [EXCLUSIVE]) ->
  node_ok tbl latch rest p
    (setLock (if 0 =? _lockCount n - 1 then -1 else _lockType n) (_lockCount n - 1) n).
Proof.
  intros [C S G Lt R B] E Hx.
  assert (_lockCount n - 1 = Z.of_nat (length rest)) as C'.
  { rewrite C, (Permutation_length E). simpl. lia. }
  assert ((0 =? _lockCount n - 1) = bool_decide (rest = [])) as Hz.
  { rewrite C'. by destruct rest. }
  rewrite Hz.
  assert (ms <> []) as Hms. { intros ->. by apply Permutation_nil in E. }
  split; simpl; try done.
  - intros Hp. destruct (R Hp) as (-> & ? & -> & Ht). repeat split; try done.
    + intros Hl. case_bool_decide; [done|]. by apply Ht in Hl.
    + intros ->. by rewrite bool_decide_eq_true_2.
  - intros Hp. destruct (B Hp) as (-> & ? & ? & Ht & Hl). repeat split; try done.
    + case_bool_decide as Hr; [by subst|]. rewrite Ht.
      destruct (decide (EXCLUSIVE ∈ ms)) as [Hin|Hin].
      * rewrite (Hx Hp Hin) in E. apply Permutation_length_1_inv in E. by simplify_eq.
      * destruct ms as [|m0 ms]; [done|]. destruct rest as [|m1 rest]; [done|].
        unfold type_of. rewrite decide_False by done. rewrite decide_False; [done|].
        rewrite E in Hin. set_solver.
    + intros ->. by specialize (Hl eq_refl).
Qed.

Lemma onLatch_at {A} (f : mutex -> A * mutex) s l m :
  latches s !! l = Some m ->
  onLatch l f s = Some ((f m).1, set_latches (<[l := (f m).2]> (latches s)) s).
Proof. intros E. unfold onLatch. by rewrite E. Qed.

Lemma fits_excl mode ms :
  fits mode ms -> EXCLUSIVE ∈ mode :: ms -> mode :: ms = [EXCLUSIVE].
Proof. destruct mode; simpl; [set_solver|by intros ->]. Qed.

Lemma latch_ok_ext lat nx pool L M M' :
  (forall p, is_Some (L !! p) -> M' p = M p) -> latch_ok lat nx pool L M -> latch_ok lat nx pool L M'.
Proof. intros E [K1 ?????]. split; try done. intros p l Hl. rewrite E by done. auto. Qed.

(** The latch agrees with [fits]. *)
Lemma latch_try lat nx pool L M p l m mode :
  latch_ok lat nx pool L M -> L !! p = Some l -> lat !! l = Some m ->
  let r := (match mode with EXCLUSIVE => try_lock | SHARED => try_lock_shared end) m in
  r.1 = bool_decide (fits mode (M p)) /\
  latch_ok (<[l := r.2]> lat) nx pool L (if r.1 then <[p := mode :: M p]> M else M).
Proof.
  intros K Hl Hm r.
  destruct (lk_held _ _ _ _ _ K p l Hl) as (m' & Hm' & Hh). simplify_eq.
  assert (forall ms', held r.2 = hold_of ms' ->
    latch_ok (<[l := r.2]> lat) nx pool L (<[p := ms']> M)) as Hset
    by (intros; by eapply latch_set).
  assert (r.1 = bool_decide (fits mode (M p)) /\
    held r.2 = hold_of (if r.1 then mode :: M p else M p)) as [E Hh'].
  { subst r. destruct (decide (EXCLUSIVE ∈ M p)) as [Hx|Hx];
      [rewrite (hold_of_writer _ Hx) in Hh|rewrite (hold_of_readers _ Hx) in Hh]; destruct mode.
    - pose proof (try_lock_shared_spec m) as T. rewrite Hh in T. destruct T as [-> ->].
      rewrite bool_decide_eq_false_2 by auto. by rewrite hold_of_writer.
    - destruct (try_lock_spec m) as [T1 T2]. rewrite T2, T1, Hh. simpl.
      rewrite bool_decide_eq_false_2; [by rewrite hold_of_writer|]. intros E. rewrite E in Hx. set_solver.
    - pose proof (try_lock_shared_spec m) as T. rewrite Hh in T. destruct T as [-> ->].
      rewrite bool_decide_eq_true_2 by auto. by rewrite hold_of_readers by set_solver.
    - destruct (try_lock_spec m) as [T1 T2]. rewrite T2, T1, Hh. simpl.
      destruct (M p) as [|x ms] eqn:Ep; simpl; [by rewrite hold_of_writer by set_solver|].
      by rewrite hold_of_readers. }
  split; [done|]. destruct (r.1); [by apply Hset|].
  eapply latch_ok_ext; [|by apply Hset]. intros q _. destruct (decide (q = p)) as [->|].
  - by rewrite fn_lookup_insert.
  - by rewrite fn_lookup_insert_ne.
Qed.

(** Trying to lock a node: a root is always locked, a node below when its
    latch exists and the mode fits the locks it has. *)
Lemma node_tryLock_ok oom ex s M tbl L p a mode :
  inv oom ex s M tbl L -> tbl !! p = Some a -> (forall q, q <> p -> ex <> Some q) ->
  exists b s', node_tryLock a mode s = Some (b, s') /\
    if b then (p.2 = [] \/ fits mode (M p)) /\ inv oom None s' (<[p := mode :: M p]> M) tbl L
    else p.2 <> [] /\ (L !! p = None \/ ~ fits mode (M p)) /\ inv oom ex s' M tbl L.
Proof.
  intros I Ha Hex. destruct (inv_at _ _ _ _ _ _ _ _ I Ha) as (n & Hn & Hok).
  pose proof I as [N K U T X A].
  unfold node_tryLock. rewrite (cat_bind _ _ _ _ _ (getNode_at _ _ _ Hn)).
  rewrite (isZero_root _ _ _ _ _ Hok). case_bool_decide as Hp.
  - exists true. eexists. split.
    { erewrite cat_bind by done. simpl. erewrite cat_bind by (by apply updNode_at). done. }
    split; [auto|]. rewrite <- (set_latches_same s) at 2.
    eapply (inv_relock _ ex); try done; [|by apply node_ok_lock; auto|by left].
    eapply latch_ok_ext; [|exact K]. intros q [l Hl]. apply fn_lookup_insert_ne.
    intros <-. destruct (nk_root _ _ _ _ _ Hok Hp) as (_ & _ & HL & _). congruence.
  - rewrite (nk_latch _ _ _ _ _ Hok). destruct (L !! p) as [l|] eqn:Hl.
    + destruct (lk_held _ _ _ _ _ K p l Hl) as (m & Hm & _).
      destruct (latch_try _ _ _ _ _ _ _ _ mode K Hl Hm) as [E K'].
      erewrite cat_bind by (apply onLatch_at; done). cbv zeta in *.
      rewrite E in *. case_bool_decide as Hf.
      * exists true. eexists. split.
        { erewrite cat_bind by (by apply updNode_at). done. }
        split; [auto|].
        eapply (inv_relock _ ex s); try done; [|by intros _; apply fits_excl|by left].
        rewrite Hl. apply node_ok_lock; eauto.
      * exists false. eexists. split; [done|]. split; [done|]. split; [auto|].
        by split.
    + exists false, s. split; [done|]. auto.
Qed.

(** Giving a latch back. *)
Lemma latch_unlock lat nx pool L M p l m mode rest :
  latch_ok lat nx pool L M -> L !! p = Some l -> lat !! l = Some m -> M p ≡ₚ mode :: rest ->
  (EXCLUSIVE ∈ M p -> M p = [EXCLUSIVE]) ->
  latch_ok (<[l := if decide (EXCLUSIVE ∈ M p) then unlock m else unlock_shared m]> lat) nx pool L
    (<[p := rest]> M).
Proof.
  intros K Hl Hm E X. eapply latch_set; [done..|].
  destruct (lk_held _ _ _ _ _ K p l Hl) as (m' & Hm' & Hh). simplify_eq.
  case_decide as Hx.
  - rewrite (hold_of_writer _ Hx) in Hh. rewrite (unlock_spec m Hh).
    rewrite (X Hx) in E. apply Permutation_length_1_inv in E. by simplify_eq.
  - rewrite (hold_of_readers _ Hx), (Permutation_length E) in Hh.
    rewrite (unlock_shared_spec m _ Hh), hold_of_readers; [done|].
    rewrite E in Hx. set_solver.
Qed.

Lemma locked_counters tbl latch ms p n :
  node_ok tbl latch ms p n -> ms <> [] ->
  (-1 =? _lockType n) || (0 =? _lockCount n) = false /\
  (p.2 <> [] -> (modeCode EXCLUSIVE =? _lockType n) = bool_decide (EXCLUSIVE ∈ ms) /\ is_Some latch).
Proof.
  intros [C S G Lt R B] Hms. split.
  - apply orb_false_iff. rewrite !Z.eqb_neq. split.
    + intros Ht. destruct (decide (p.2 = [])) as [E|E].
      * destruct (R E) as (_ & _ & _ & [Hi _]). by apply Hms, Hi.
      * destruct (B E) as (_ & _ & _ & Ht' & _). apply Hms, type_of_nil. congruence.
    + rewrite C. destruct ms; [done|]. simpl. lia.
  - intros E. destruct (B E) as (_ & _ & _ & -> & Hl). split.
    + destruct ms; [done|]. unfold type_of. case_decide.
      * by rewrite bool_decide_eq_true_2.
      * by rewrite bool_decide_eq_false_2.
    + destruct latch; [eauto|]. by destruct Hms; apply Hl.
Qed.

(** Unlocking takes one lock away, and which one does not matter. *)
Lemma node_unLock_ok oom s M tbl L p a m rest :
  inv oom None s M tbl L -> tbl !! p = Some a -> M p ≡ₚ m :: rest ->
  exists s', node_unLock a s = Some (tt, s') /\ inv oom (Some p) s' (<[p := rest]> M) tbl L.
Proof.
  intros I Ha E. destruct (inv_at _ _ _ _ _ _ _ _ I Ha) as (n & Hn & Hok).
  pose proof I as [N K U T X A].
  assert (M p <> []) as Hms. { intros E'. rewrite E' in E. by apply Permutation_nil in E. }
  pose proof (node_ok_unlock _ _ _ _ _ _ _ Hok E (X p)) as Hok'.
  destruct (locked_counters _ _ _ _ _ Hok Hms) as [Hg Hm].
  unfold node_unLock. rewrite (cat_bind _ _ _ _ _ (getNode_at _ _ _ Hn)), Hg.
  rewrite (isZero_root _ _ _ _ _ Hok). destruct (decide (p.2 = [])) as [Hp|Hp].
  - rewrite bool_decide_eq_true_2 by done.
    eexists. split; [rewrite (cat_bind _ _ s tt s) by done; by apply updNode_at|].
    rewrite <- (set_latches_same s) at 2.
    eapply (inv_relock _ None); try done; [|by right].
    eapply latch_ok_ext; [|exact K]. intros q [l Hl]. apply fn_lookup_insert_ne.
    intros <-. destruct (nk_root _ _ _ _ _ Hok Hp) as (_ & _ & HL & _). congruence.
  - rewrite bool_decide_eq_false_2 by done. destruct (Hm Hp) as [Hmode [l Hl]]. rewrite (nk_latch _ _ _ _ _ Hok), Hl.
    destruct (lk_held _ _ _ _ _ K p l Hl) as (mu & Hmu & _).
    rewrite Hmode. cbn [negb].
    pose proof (latch_unlock _ _ _ _ _ _ _ _ _ _ K Hl Hmu E (X p Hp)) as K'.
    set (mu' := if decide _ then _ else _) in K'.
    eexists. split.
    + rewrite (cat_bind _ _ s tt (set_latches (<[l := mu']> (latches s)) s)); [by apply updNode_at|].
      subst mu'. case_bool_decide; case_decide; try done; by rewrite (onLatch_at _ _ _ _ Hmu).
    + eapply (inv_relock _ None s); try done; [|by right].
      intros _ Hx. rewrite (X p Hp) in E.
      * apply Permutation_length_1_inv in E. simplify_eq. by apply not_elem_of_nil in Hx.
      * rewrite E. set_solver.
Qed.

(** ** Latches from and to the pool *)

Definition same_tree s s' : Prop :=
  nodes s' = nodes s /\ nextNode s' = nextNode s /\ _mapType2Lock s' = _mapType2Lock s.

Lemma cat_oss_new_ok s :
  exists b bs, cat_oss_new s = Some (b, set_allocs bs s) /\ (allocs s = [] -> b = true /\ bs = []).
Proof.
  unfold cat_oss_new. destruct (allocs s) as [|b bs] eqn:E.
  - exists true, []. split; [|done]. rewrite <- E. by destruct s.
  - by exists b, bs.
Qed.

Lemma latch_take lat nx pool L M p l :
  latch_ok lat nx (l :: pool) L M -> L !! p = None -> M p = [] ->
  latch_ok lat nx pool (<[p := l]> L) M.
Proof.
  intros K HL HM. pose proof (lk_nodup _ _ _ _ _ K) as [Hl Hnd]%list.NoDup_cons.
  destruct (lk_pool _ _ _ _ _ K l) as (Hno & m & Hm & Hh); [set_solver|].
  eapply latch_own; try done; [set_solver|simpl; lia|].
  intros k. split; [|set_solver]. intros Hk. split; [set_solver|]. by intros ->.
Qed.

Lemma getLatch_ok oom s L M p :
  latch_ok (latches s) (nextLatch s) (_vecLatch s) L M -> L !! p = None -> M p = [] ->
  (oom = false -> allocs s = []) ->
  exists lo s' L', getLatch s = Some (lo, s') /\ same_tree s s' /\
    (oom = false -> allocs s' = [] /\ is_Some lo) /\
    latch_ok (latches s') (nextLatch s') (_vecLatch s') L' M /\
    L' !! p = lo /\ (forall q, q <> p -> L' !! q = L !! q).
Proof.
  intros K HL HM Ha. unfold getLatch. rewrite (cat_bind get_cat _ s s s) by done.
  destruct (_vecLatch s) as [|l pool] eqn:Ep.
  - destruct (cat_oss_new_ok s) as (b & bs & E & Hb). rewrite (cat_bind _ _ _ _ _ E).
    destruct b.
    + eexists _, _, (<[p := nextLatch s]> L). split; [done|].
      split; [done|]. split; [intros ?; simpl; destruct Hb; auto|].
      split; [|split; [apply lookup_insert_eq|intros; by apply lookup_insert_ne]].
      simpl. rewrite Ep. apply latch_take; [by apply latch_fresh|done..].
    + eexists None, _, L. split; [done|]. split; [done|].
      split; [intros ?; by destruct Hb; auto|]. simpl. rewrite Ep. auto.
  - eexists _, _, (<[p := l]> L). split; [done|].
    split; [done|]. split; [eauto|].
    split; [|split; [apply lookup_insert_eq|intros; by apply lookup_insert_ne]].
    by apply latch_take.
Qed.

Lemma releaseLatch_ok s L M p l :
  latch_ok (latches s) (nextLatch s) (_vecLatch s) L M -> L !! p = Some l -> M p = [] ->
  exists s', releaseLatch (Some l) s = Some (tt, s') /\ same_tree s s' /\ allocs s' = allocs s /\
    latch_ok (latches s') (nextLatch s') (_vecLatch s') (delete p L) M.
Proof.
  intros K HL HM. unfold releaseLatch. rewrite (cat_bind get_cat _ s s s) by done.
  destruct (Nat.ltb_spec (length (_vecLatch s)) CAT_MAX_LATCH_SIZE).
  - eexists. split; [done|]. do 2 (split; [done|]). by apply latch_back.
  - eexists. split; [done|]. do 2 (split; [done|]). by apply latch_drop.
Qed.

(** ** Getting and giving back nodes *)

Lemma node_ok_relatch tbl latch latch' p n :
  p.2 <> [] -> node_ok tbl latch [] p n -> node_ok tbl latch' [] p (_setLatch latch' n).
Proof.
  intros Hp [C S G Lt R B]. split; simpl; try done.
  intros _. destruct (B Hp) as (? & ? & ? & ? & _). auto 10.
Qed.

(** An existing child without a latch gets one. *)
Lemma give_latch_ok oom s M tbl L q c n :
  inv oom None s M tbl L -> tbl !! q = Some c -> nodes s !! c = Some n -> q.2 <> [] ->
  L !! q = None ->
  exists s' lo L', (latch ← getLatch; updNode c (_setLatch latch)) s = Some (tt, s') /\
    inv oom (Some q) s' M tbl L' /\ nodes s' !! c = Some (_setLatch lo n) /\
    (oom = false -> is_Some (L' !! q)).
Proof.
  intros I Hc Hn Hq HL. pose proof I as [N K U T X A].
  destruct (inv_at _ _ _ _ _ _ _ _ I Hc) as (n' & Hn' & Hok). simplify_eq.
  assert (M q = []) as HM by (by apply (nk_below _ _ _ _ _ Hok Hq)).
  destruct (getLatch_ok oom s L M q K HL HM A)
    as (lo & s1 & L' & E1 & (En & Enx & Ety) & Ea & K' & HL' & Hne).
  rewrite (cat_bind _ _ _ _ _ E1).
  assert (nodes s1 !! c = Some n) as Hn1 by (by rewrite En).
  rewrite (updNode_at _ _ _ _ Hn1). eexists _, lo, L'. split; [done|]. split; [|split].
  - split; simpl; try done.
    + rewrite Enx, Ety. eapply node_set; [by rewrite En|done..|].
      rewrite HL', HM. eapply node_ok_relatch; [done|]. by rewrite <- HM.
    + intros p Hp. destruct (T p Hp) as [?|[?|?]]; auto; done.
    + intros ?. by destruct Ea.
  - simpl. apply lookup_insert_eq.
  - intros ?. rewrite HL'. by destruct Ea.
Qed.

(** A child created on demand. *)
Lemma new_sub_ok oom s M tbl L p a n x :
  inv oom None s M tbl L -> tbl !! p = Some a -> nodes s !! a = Some n ->
  tbl !! sub_path p x = None ->
  exists lo s' L',
    getLatch (mkCat (<[a := setSubs (<[x := nextNode s]> (_mapSubs n)) n]>
                       (<[nextNode s := newNode]> (nodes s)))
                (nextNode s + 1) (latches s) (nextLatch s) (_vecLatch s) (_mapType2Lock s) (allocs s))
      = Some (lo, s') /\
    nodes s' = <[a := setSubs (<[x := nextNode s]> (_mapSubs n)) n]>
                 (<[nextNode s := newNode]> (nodes s)) /\
    inv oom (Some (sub_path p x)) (set_nodes (<[nextNode s := childNode a x lo]> (nodes s')) s') M
      (<[sub_path p x := nextNode s]> tbl) L' /\
    (oom = false -> is_Some (L' !! sub_path p x)).
Proof.
  intros I Ha Hn Hq. pose proof I as [N K U T X A].
  assert (a <> nextNode s) as Hax by (intros ->; by eapply unlisted).
  assert (M (sub_path p x) = []) as HM.
  { destruct (M (sub_path p x)) eqn:E; [done|]. destruct (U (sub_path p x)); [by rewrite E|congruence]. }
  assert (L !! sub_path p x = None) as HL.
  { apply eq_None_not_Some. intros Hs%(no_latched _ _ _ _ _ _ N). rewrite Hq in Hs. by destruct Hs. }
  set (s2 := mkCat _ _ _ _ _ _ _).
  destruct (getLatch_ok oom s2 L M (sub_path p x) K HL HM A)
    as (lo & s3 & L' & E3 & (En & Enx & Ety) & Ea & K' & HL' & Hne).
  exists lo, s3, L'. split; [done|]. split; [done|]. split.
  - split; simpl; try done.
    + rewrite En, Enx, Ety. simpl. rewrite insert_insert_ne by done. rewrite insert_insert_eq.
      rewrite <- HL', insert_insert_ne by done. by eapply node_add_sub.
    + intros q Hqm. destruct (decide (q = sub_path p x)) as [->|]; [by rewrite lookup_insert_eq|].
      rewrite lookup_insert_ne by done. auto.
    + intros q. destruct (decide (q = sub_path p x)) as [->|]; [auto|].
      rewrite lookup_insert_ne by done. intros Hs. destruct (T q Hs) as [?|[?|?]]; auto; done.
    + intros ?. by destruct Ea.
  - intros ?. rewrite HL'. by destruct Ea.
Qed.

Lemma getSub_ok oom s M tbl L p a x :
  inv oom None s M tbl L -> tbl !! p = Some a ->
  exists c s' tbl' L', getSubTreeNode a x s = Some (c, s') /\
    inv oom (Some (sub_path p x)) s' M tbl' L' /\ tbl' !! sub_path p x = Some c /\ tbl ⊆ tbl' /\
    (oom = false -> is_Some (L' !! sub_path p x)).
Proof.
  intros I Ha. destruct (inv_at _ _ _ _ _ _ _ _ I Ha) as (n & Hn & Hok).
  unfold getSubTreeNode. rewrite (cat_bind _ _ _ _ _ (getNode_at _ _ _ Hn)).
  rewrite (nk_subs _ _ _ _ _ Hok), (nk_mgr _ _ _ _ _ Hok).
  destruct (tbl !! sub_path p x) as [c|] eqn:Hc.
  - rewrite (cat_bind _ _ s c s) by done.
    destruct (inv_at _ _ _ _ _ _ _ _ I Hc) as (nc & Hnc & Hokc).
    destruct (nk_below _ _ _ _ _ Hokc (sub_path_not_root p x)) as (_ & [par Hpar] & _).
    rewrite (cat_bind _ _ _ _ _ (getNode_at _ _ _ Hnc)), (nk_latch _ _ _ _ _ Hokc).
    destruct (L !! sub_path p x) as [l|] eqn:HL.
    + rewrite (cat_bind _ _ s tt s) by done.
      rewrite (cat_bind _ _ _ _ _ (getNode_at _ _ _ Hnc)), Hpar.
      rewrite (cat_bind _ _ s tt s) by done.
      exists c, s, tbl, L. split; [done|]. rewrite HL. split; [|by eauto].
      by eapply inv_ex; [|exact I].
    + destruct (give_latch_ok _ _ _ _ _ _ _ _ I Hc Hnc (sub_path_not_root p x) HL)
        as (s1 & lo & L' & E1 & I1 & Hn1 & Hl1).
      rewrite (cat_bind _ _ _ _ _ E1).
      rewrite (cat_bind _ _ _ _ _ (getNode_at _ _ _ Hn1)). simpl. rewrite Hpar.
      rewrite (cat_bind _ _ s1 tt s1) by done. by exists c, s1, tbl, L'.
  - destruct (new_sub_ok _ _ _ _ _ _ _ _ _ I Ha Hn Hc) as (lo & s3 & L' & E3 & En & I3 & Hl3).
    assert (a <> nextNode s) as Hax by (intros ->; exact (unlisted _ _ _ _ _ _ p (inv_nodes _ _ _ _ _ _ I) Ha)).
    exists (nextNode s). eexists _, _, L'. split.
    { erewrite (cat_bind _ _ s).
      2: { erewrite (cat_bind allocNode) by reflexivity.
           erewrite cat_bind by (apply updNode_at; simpl; by rewrite lookup_insert_ne). done. }
      erewrite cat_bind
        by (apply getNode_at; simpl; rewrite lookup_insert_ne by done; apply lookup_insert_eq).
      simpl.
      rewrite (cat_bind _ _ _ tt (set_nodes (<[nextNode s := _setLatch lo newNode]> (nodes s3)) s3)).
      2: { erewrite cat_bind by exact E3. apply updNode_at. rewrite En.
           rewrite lookup_insert_ne by done. apply lookup_insert_eq. }
      erewrite cat_bind by (apply getNode_at; simpl; apply lookup_insert_eq). simpl.
      erewrite cat_bind by (apply updNode_at; simpl; apply lookup_insert_eq). simpl.
      rewrite insert_insert_eq. done. }
    split; [exact I3|]. split; [apply lookup_insert_eq|]. split; [|done].
    by apply insert_subseteq.
Qed.

Lemma getRoot_ok oom s M tbl L t :
  inv oom None s M tbl L -> t <> CAT_LOCK_MAX ->
  exists a s' tbl', getLockTreeNode t s = Some (a, s') /\
    inv oom (Some (t, [])) s' M tbl' L /\ tbl' !! (t, []) = Some a /\ tbl ⊆ tbl'.
Proof.
  intros I Ht. pose proof I as [N K U T X A].
  unfold getLockTreeNode. rewrite (cat_bind get_cat _ s s s) by done.
  rewrite (no_types _ _ _ _ _ _ N). destruct (tbl !! (t, [])) as [a|] eqn:Ha.
  - rewrite (cat_bind _ _ s a s) by done.
    destruct (inv_at _ _ _ _ _ _ _ _ I Ha) as (n & Hn & Hok).
    rewrite (cat_bind _ _ _ _ _ (getNode_at _ _ _ Hn)), (nk_mgr _ _ _ _ _ Hok).
    exists a, s, tbl. split; [done|]. split; [|done]. by eapply inv_ex; [|exact I].
  - assert (M (t, []) = []) as HM.
    { destruct (M (t, [])) eqn:E; [done|]. destruct (U (t, [])); [by rewrite E|congruence]. }
    eexists (nextNode s), _, _. split.
    { erewrite (cat_bind _ _ s).
      2: { erewrite (cat_bind allocNode) by reflexivity. reflexivity. }
      erewrite cat_bind by (apply getNode_at; simpl; apply lookup_insert_eq). simpl.
      erewrite cat_bind by (apply updNode_at; simpl; apply lookup_insert_eq). simpl.
      rewrite insert_insert_eq. reflexivity. }
    split; [|split; [apply lookup_insert_eq|by apply insert_subseteq]].
    split; simpl; try done.
    + by apply node_add_root.
    + intros q Hq. destruct (decide (q = (t, []))) as [->|]; [by rewrite lookup_insert_eq|].
      rewrite lookup_insert_ne by done. auto.
    + intros q. destruct (decide (q = (t, []))) as [->|]; [auto|].
      rewrite lookup_insert_ne by done. intros Hs. destruct (T q Hs) as [?|[?|?]]; auto; done.
Qed.

(** What the test for an unused leaf finds out. *)
Lemma isEmpty_spec tbl latch ms p n :
  node_ok tbl latch ms p n ->
  isEmpty n = true <-> ms = [] /\ forall x, tbl !! sub_path p x = None.
Proof.
  intros Hok. pose proof Hok as [C S G Lt R B]. unfold isEmpty.
  assert (ms = [] -> _lockType n = -1) as Hty.
  { intros ->. destruct (decide (p.2 = [])) as [E|E].
    - destruct (R E) as (_ & _ & _ & ?). tauto.
    - destruct (B E) as (_ & _ & _ & -> & _). done. }
  destruct (Nat.ltb_spec 0 (size (_mapSubs n))) as [Hs|Hs].
  - split; [done|]. intros [_ Hx].
    assert (_mapSubs n = ∅) as E by (apply map_empty; intros x; by rewrite S).
    rewrite E, map_size_empty in Hs. lia.
  - assert (_mapSubs n = ∅) as E by (apply map_size_empty_inv; lia).
    assert (forall x, tbl !! sub_path p x = None) as Hx by (intros x; by rewrite <- S, E).
    destruct (Z.eqb_spec (_lockType n) (-1)); simpl.
    + destruct (Z.eqb_spec (_lockCount n) 0); simpl.
      * split; [|done]. intros _. split; [|done]. destruct ms; [done|]. simpl in *. lia.
      * split; [done|]. intros [-> _]. done.
    + split; [done|]. intros [? _]. auto.
Qed.

(** A lock on a path comes with locks on the paths above it. *)
Definition closed M : Prop := forall q x, M (sub_path q x) <> [] -> M q <> [].

(** A node that stays does so for a reason. *)
Lemma kept_ok oom s M tbl L p a n :
  inv oom (Some p) s M tbl L -> closed M -> tbl !! p = Some a -> nodes s !! a = Some n ->
  isEmpty n = false -> inv oom None s M tbl L.
Proof.
  intros I HC Ha Hn He. destruct (inv_at _ _ _ _ _ _ _ _ I Ha) as (n' & Hn' & Hok). simplify_eq.
  eapply inv_ex; [|exact I]. intros ? [= <-].
  destruct oom; [auto|]. left. intros HM. rewrite <- not_true_iff_false in He. apply He.
  apply (isEmpty_spec _ _ _ _ _ Hok). split; [done|]. intros x.
  apply eq_None_not_Some. intros Hs.
  destruct (inv_tidy _ _ _ _ _ _ I _ Hs) as [Hx|[|[= Hx]]]; [|done|].
  - by apply (HC p x).
  - by eapply (sub_path_neq p x).
Qed.

Lemma releaseRoot_ok oom s M tbl L t a :
  inv oom (Some (t, [])) s M tbl L -> closed M -> tbl !! (t, []) = Some a ->
  exists s' tbl', releaseLockTreeNode a s = Some (tt, s') /\ inv oom None s' M tbl' L /\
    (forall q, M q <> [] -> tbl' !! q = tbl !! q).
Proof.
  intros I HC Ha. destruct (inv_at _ _ _ _ _ _ _ _ I Ha) as (n & Hn & Hok).
  pose proof I as [N K U T X A]. destruct (nk_root _ _ _ _ _ Hok eq_refl) as (Ety & _ & HL & _).
  unfold releaseLockTreeNode. rewrite (cat_bind _ _ _ _ _ (getNode_at _ _ _ Hn)).
  destruct (isEmpty n) eqn:He.
  - apply (isEmpty_spec _ _ _ _ _ Hok) in He as [HM Hsub].
    rewrite (nk_latch _ _ _ _ _ Hok), HL, Ety. rewrite (cat_bind _ _ s tt s) by done.
    unfold eraseType. rewrite (cat_bind get_cat _ s s s) by done. simpl.
    rewrite (no_types _ _ _ _ _ _ N), Ha.
    eexists _, (delete (t, []) tbl). split; [done|]. split.
    + split; simpl; try done.
      * by apply node_del_root.
      * intros q Hq. rewrite lookup_delete_ne; [auto|]. by intros <-.
      * intros q [c [Hne Hq]%lookup_delete_Some]. destruct (T q) as [?|[?|[= ?]]]; [eauto|auto..].
    + intros q Hq. apply lookup_delete_ne. by intros <-.
  - exists s, tbl. split; [done|]. split; [|done]. by eapply kept_ok.
Qed.

(** The entry of a leaf's parent goes, and the leaf with it. *)
Lemma eraseSub_ok oom s M tbl L p a x c :
  inv oom (Some (sub_path p x)) s M tbl L -> tbl !! p = Some a -> tbl !! sub_path p x = Some c ->
  L !! sub_path p x = None -> M (sub_path p x) = [] ->
  (forall y, tbl !! sub_path (sub_path p x) y = None) ->
  exists s', eraseSub a x s = Some (tt, s') /\ inv oom None s' M (delete (sub_path p x) tbl) L.
Proof.
  intros I Ha Hc HL HM Hsub. destruct (inv_at _ _ _ _ _ _ _ _ I Ha) as (n & Hn & Hok).
  pose proof I as [N K U T X A].
  unfold eraseSub. rewrite (cat_bind _ _ _ _ _ (getNode_at _ _ _ Hn)).
  rewrite (nk_subs _ _ _ _ _ Hok), Hc. rewrite (cat_bind _ _ _ _ _ (updNode_at _ _ _ _ Hn)).
  eexists. split; [done|]. split; simpl; try done.
  - by apply node_del_sub.
  - intros q Hq. rewrite lookup_delete_ne; [auto|]. by intros <-.
  - intros q [b [Hne Hq]%lookup_delete_Some]. destruct (T q) as [?|[?|[= ?]]]; [eauto|auto..].
Qed.

Lemma releaseSub_ok oom s M tbl L p a x c :
  inv oom (Some (sub_path p x)) s M tbl L -> closed M -> tbl !! p = Some a ->
  tbl !! sub_path p x = Some c ->
  exists s' tbl' L', releaseSubTreeNode a c s = Some (tt, s') /\ inv oom None s' M tbl' L' /\
    (forall q, M q <> [] -> tbl' !! q = tbl !! q).
Proof.
  intros I HC Ha Hc. destruct (inv_at _ _ _ _ _ _ _ _ I Ha) as (n & Hn & Hok).
  destruct (inv_at _ _ _ _ _ _ _ _ I Hc) as (nc & Hnc & Hokc).
  pose proof I as [N K U T X A].
  destruct (nk_below _ _ _ _ _ Hokc (sub_path_not_root p x)) as (_ & _ & [q Hq] & _).
  apply sub_path_inj in Hq as [<- Ename].
  unfold releaseSubTreeNode. rewrite (cat_bind _ _ _ _ _ (getNode_at _ _ _ Hnc)).
  destruct (isEmpty nc) eqn:He; [|exists s, tbl, L; split; [done|]; split; [by eapply kept_ok|done]].
  apply (isEmpty_spec _ _ _ _ _ Hokc) in He as [HM Hsub].
  rewrite (cat_bind _ _ _ _ _ (getNode_at _ _ _ Hn)), (nk_mgr _ _ _ _ _ Hok).
  rewrite (nk_latch _ _ _ _ _ Hokc), <- Ename.
  assert (forall q, M q <> [] -> delete (sub_path p x) tbl !! q = tbl !! q) as Hkeep.
  { intros q Hq. apply lookup_delete_ne. by intros <-. }
  destruct (L !! sub_path p x) as [l|] eqn:HL.
  - destruct (releaseLatch_ok _ _ _ _ _ K HL HM) as (s1 & E1 & (En & Enx & Ety) & Ea & K1).
    assert (nodes s1 !! c = Some nc) as Hnc1 by (by rewrite En).
    erewrite cat_bind by (erewrite cat_bind by exact E1; by apply updNode_at).
    assert (inv oom (Some (sub_path p x))
      (set_nodes (<[c := _setLatch None nc]> (nodes s1)) s1) M tbl (delete (sub_path p x) L)) as I1.
    { split; simpl; try done.
      - rewrite Enx, Ety. eapply node_set; [by rewrite En|done|..].
        + intros q Hq. by apply lookup_delete_ne.
        + done.
        + rewrite lookup_delete_eq, HM. eapply node_ok_relatch; [apply sub_path_not_root|].
          by rewrite <- HM.
      - by rewrite Ea. }
    destruct (eraseSub_ok _ _ _ _ _ _ _ _ _ I1 Ha Hc (lookup_delete_eq _ _) HM Hsub)
      as (s' & E & I'). eauto 10.
  - rewrite (cat_bind _ _ s tt s) by done.
    destruct (eraseSub_ok _ _ _ _ _ _ _ _ _ I Ha Hc HL HM Hsub) as (s' & E & I'). eauto 10.
Qed.
End ops.
