(* ===== verification/CatLockObj.v ===== *)
(** * Catalog level locks: requests and lock objects

    A request is a path of names with a mode.  A lock object that is granted
    holds its request, and a bag of requests determines the demand of every
    path of the tree.  Locking and unlocking an object adds and removes its
    request; a request is granted when no request of the bag conflicts. *)

From stdpp Require Import base gmap list strings functions.
From S2P Require Import Prelude.
From S2P Require Import CatLock CatLockInv CatLockOps.
From Stdlib Require Import ZArith Lia.

Open Scope Z_scope.

(** ** Requests *)

Record request : Set := mkReq {
  r_type : Z;
  r_names : list string;
  r_mode : OSS_LATCH_MODE
}.

#[export] Instance request_eq_dec : EqDecision request.
Proof. solve_decision. Defined.

(** [r] is exclusive on an object that is [r'] 's or above it. *)
Definition covers (r r' : request) : Prop :=
  r_type r = r_type r' /\ r_names r <> [] /\ r_names r `prefix_of` r_names r' /\
  r_mode r = EXCLUSIVE.

Definition conflicts (r r' : request) : Prop := covers r r' \/ covers r' r.

#[export] Instance covers_dec r r' : Decision (covers r r').
Proof. unfold covers. apply _. Defined.

#[export] Instance conflicts_dec r r' : Decision (conflicts r r').
Proof. unfold conflicts. apply _. Defined.

Definition grantable (r : request) (B : list request) : Prop := Forall (fun r' => ~ conflicts r r') B.

#[export] Instance grantable_dec r B : Decision (grantable r B).
Proof. unfold grantable. apply _. Defined.

(** The mode in which a request holds a path. *)
Definition on_path (r : request) (p : path) : option OSS_LATCH_MODE :=
  if decide (r_type r = p.1 /\ p.2 `prefix_of` r_names r)
  then Some (if decide (p.2 = r_names r) then r_mode r else SHARED) else None.

Definition modes (B : list request) : demand := fun p => omap (fun r => on_path r p) B.

Lemma modes_cons r B p :
  modes (r :: B) p = match on_path r p with Some m => m :: modes B p | None => modes B p end.
Proof. unfold modes. simpl. by destruct (on_path r p). Qed.

Lemma modes_perm B B' p : B ≡ₚ B' -> modes B p ≡ₚ modes B' p.
Proof. intros E. unfold modes. by rewrite E. Qed.

Lemma elem_of_modes m B p : m ∈ modes B p <-> exists r, r ∈ B /\ on_path r p = Some m.
Proof. unfold modes. apply list_elem_of_omap. Qed.

Lemma on_path_above r q x : is_Some (on_path r (sub_path q x)) -> is_Some (on_path r q).
Proof.
  unfold on_path. simpl. case_decide as E; [|by intros [??]]. intros _.
  rewrite decide_True; [done|]. destruct E as [? E]. split; [done|].
  etrans; [|exact E]. by eexists.
Qed.

Lemma modes_nonempty B p : modes B p <> [] <-> exists r, r ∈ B /\ is_Some (on_path r p).
Proof.
  split.
  - destruct (modes B p) as [|m ms] eqn:E; [done|]. intros _.
    assert (m ∈ modes B p) as (r & ? & Hr)%elem_of_modes by (rewrite E; set_solver).
    exists r. rewrite Hr. eauto.
  - intros (r & Hr & [m Hm]) E.
    assert (m ∈ modes B p) as Hin by (apply elem_of_modes; eauto).
    rewrite E in Hin. by apply not_elem_of_nil in Hin.
Qed.

Lemma modes_closed B : closed (modes B).
Proof.
  intros q x (r & ? & ?)%modes_nonempty. apply modes_nonempty. eauto using on_path_above.
Qed.

Lemma prefix_snoc (ns ms : list string) x :
  ns `prefix_of` ms ++ [x] <-> ns = ms ++ [x] \/ ns `prefix_of` ms.
Proof.
  split.
  - intros [k E]. destruct (decide (k = [])) as [->|Hk]; [rewrite app_nil_r in E; auto|].
    apply exists_last in Hk as (k' & y & ->). rewrite app_assoc in E.
    apply app_inj_tail in E as [-> _]. right. by eexists.
  - intros [->|[k ->]]; [done|]. exists (k ++ [x]). by rewrite app_assoc.
Qed.

(** Going one level down changes the demand of one path. *)
Lemma modes_extend t ns x mode B q :
  modes (mkReq t (ns ++ [x]) mode :: B) q =
  (<[sub_path (t, ns) x := mode :: modes B (sub_path (t, ns) x)]> (modes (mkReq t ns SHARED :: B)) : demand) q.
Proof.
  rewrite modes_cons. unfold on_path. simpl. destruct (decide (q = sub_path (t, ns) x)) as [->|Hq].
  - rewrite fn_lookup_insert. simpl. rewrite decide_True by (split; done). by rewrite decide_True.
  - rewrite fn_lookup_insert_ne by done. rewrite modes_cons. unfold on_path. simpl.
    assert (~ (t = q.1 /\ q.2 = ns ++ [x])) as Hne.
    { destruct q; simpl. intros [-> ->]. by apply Hq. }
    destruct (decide (t = q.1 /\ q.2 `prefix_of` ns)) as [[Ht Hp]|Hn].
    + rewrite decide_True by (split; [done|]; apply prefix_snoc; auto).
      rewrite decide_False by tauto. by case_decide.
    + rewrite decide_False; [done|]. intros [? [?|?]%prefix_snoc]; tauto.
Qed.

Lemma modes_sub_other t ns x B :
  modes (mkReq t ns SHARED :: B) (sub_path (t, ns) x) = modes B (sub_path (t, ns) x).
Proof.
  rewrite modes_cons. unfold on_path. simpl. rewrite decide_False; [done|].
  intros [_ Hp%prefix_length]. rewrite length_app in Hp. simpl in Hp. lia.
Qed.

Lemma fits_modes mode B p :
  fits mode (modes B p) <->
  forall r, r ∈ B -> r_type r = p.1 ->
    ~ (mode = EXCLUSIVE /\ p.2 `prefix_of` r_names r) /\ ~ (p.2 = r_names r /\ r_mode r = EXCLUSIVE).
Proof.
  assert (EXCLUSIVE ∉ modes B p <->
    forall r, r ∈ B -> r_type r = p.1 -> ~ (p.2 = r_names r /\ r_mode r = EXCLUSIVE)) as Hx.
  { rewrite elem_of_modes. split.
    - intros Hno r Hr Ht [E Hm]. apply Hno. exists r. split; [done|]. unfold on_path.
      rewrite decide_True by (split; [done|]; by rewrite E). by rewrite decide_True, Hm.
    - intros Hno (r & Hr & E). unfold on_path in E. case_decide as Hc; [destruct Hc as [Ht Hp]|done].
      case_decide; [|done]. simplify_eq. eapply Hno; eauto. }
  destruct mode; unfold fits.
  - rewrite Hx. firstorder congruence.
  - split.
    + intros E r Hr Ht. split.
      * intros [_ Hp]. assert (modes B p <> []) as Hn; [|done]. apply modes_nonempty.
        exists r. split; [done|]. unfold on_path. by rewrite decide_True.
      * eapply Hx; [|done..]. rewrite E. set_solver.
    + intros Hr. destruct (modes B p) as [|m ms] eqn:E; [done|].
      assert (modes B p <> []) as (r & Hin & [m' Hm])%modes_nonempty by (by rewrite E).
      unfold on_path in Hm. case_decide as Hp; [|done]. destruct Hp as [Ht Hp].
      destruct (Hr r Hin Ht) as [[] _]. done.
Qed.

Lemma grantable_spec r B :
  grantable r B <-> forall r', r' ∈ B -> r_type r' = r_type r ->
    ~ (r_names r <> [] /\ r_names r `prefix_of` r_names r' /\ r_mode r = EXCLUSIVE) /\
    ~ (r_names r' <> [] /\ r_names r' `prefix_of` r_names r /\ r_mode r' = EXCLUSIVE).
Proof.
  unfold grantable, conflicts, covers. rewrite list.Forall_forall.
  split; intros Hr r' Hin; specialize (Hr r' Hin); naive_solver.
Qed.

Lemma grantable_zero t mode B : grantable (mkReq t [] mode) B.
Proof.
  apply grantable_spec. simpl. intros r' _ _. split; [naive_solver|].
  intros (Hn & Hp & _). by apply prefix_nil_inv in Hp.
Qed.

Lemma prefix_one (l : list string) x : l <> [] -> l `prefix_of` [x] <-> l = [x].
Proof.
  intros Hl. split; [|by intros ->]. destruct l as [|y l]; [done|].
  intros [k [= -> E]]. symmetry in E. apply app_nil in E as [-> _]. done.
Qed.

Lemma prefix_two (l : list string) x y :
  l <> [] -> l `prefix_of` [x; y] <-> l = [x] \/ l = [x; y].
Proof.
  intros Hl. change [x; y] with ([x] ++ [y]). rewrite prefix_snoc, prefix_one by done. tauto.
Qed.

Lemma grantable_one t x mode B :
  grantable (mkReq t [x] mode) B <-> fits mode (modes B (t, [x])).
Proof.
  rewrite grantable_spec, fits_modes. simpl.
  split; intros Hr r Hin Ht; destruct (Hr r Hin Ht) as [H1 H2]; (split; [naive_solver|]).
  - intros [E Hm]. apply H2. rewrite <- E. done.
  - intros (Hn & Hp & Hm). apply H2. by apply prefix_one in Hp.
Qed.

Lemma grantable_two t x y mode B :
  grantable (mkReq t [x; y] mode) B <->
  fits SHARED (modes B (t, [x])) /\ fits mode (modes B (t, [x; y])).
Proof.
  rewrite grantable_spec, !fits_modes. simpl. split.
  - intros Hr. split; intros r Hin Ht; destruct (Hr r Hin Ht) as [H1 H2]; (split; [naive_solver|]);
      intros [E Hm]; apply H2; rewrite <- E; (split; [done|]); (split; [|done]); apply prefix_two; auto.
  - intros [Hr1 Hr2] r Hin Ht. destruct (Hr1 r Hin Ht) as [_ H1], (Hr2 r Hin Ht) as [H2 H3].
    split; [naive_solver|]. intros (Hn & Hp & Hm).
    apply (prefix_two _ x y Hn) in Hp as [Hp|Hp]; naive_solver.
Qed.

(** ** One level of a lock *)

Definition keep (B : list request) (tbl tbl' : gmap path Z) : Prop :=
  forall q, modes B q <> [] -> tbl' !! q = tbl !! q.

Lemma keep_trans B t1 t2 t3 : keep B t1 t2 -> keep B t2 t3 -> keep B t1 t3.
Proof. intros E1 E2 q Hq. by rewrite E2, E1. Qed.

Lemma keep_cons r B t1 t2 : keep (r :: B) t1 t2 -> keep B t1 t2.
Proof.
  intros E q Hq. apply E. rewrite modes_cons. by destruct (on_path r q).
Qed.

Section levels.
Context `{SharedMutexSpec}.
Implicit Types (tbl L : gmap path Z) (B : list request) (o : catLock) (s : catState).

Lemma inv_ext oom ex s (M M' : demand) tbl L :
  (forall q, M' q = M q) -> inv oom ex s M tbl L -> inv oom ex s M' tbl L.
Proof. intros E. apply inv_perm. intros p. by rewrite E. Qed.

Lemma keep_subseteq oom ex s B tbl L tbl' :
  inv oom ex s (modes B) tbl L -> tbl ⊆ tbl' -> keep B tbl tbl'.
Proof.
  intros I Hs q Hq. destruct (inv_used _ _ _ _ _ _ I q Hq) as [a Ha].
  rewrite Ha. by eapply lookup_weaken.
Qed.

Lemma modes_root t mode B q :
  modes (mkReq t [] mode :: B) q = (<[(t, []) := mode :: modes B (t, [])]> (modes B) : demand) q.
Proof.
  rewrite modes_cons. unfold on_path. simpl. destruct (decide (q = (t, []))) as [->|Hq].
  - rewrite fn_lookup_insert. simpl. by rewrite !decide_True.
  - rewrite fn_lookup_insert_ne by done. rewrite decide_False; [done|].
    intros [-> E%prefix_nil_inv]. destruct q; simpl in *; subst. done.
Qed.

Lemma zero_lock_ok oom s B tbl L o mode :
  inv oom None s (modes B) tbl L -> _zeroLevelNode o = None -> l_type o <> CAT_LOCK_MAX ->
  exists a s' tbl', zero_tryLock o mode s = Some ((true, set_zero (Some a) o), s') /\
    inv oom None s' (modes (mkReq (l_type o) [] mode :: B)) tbl' L /\
    tbl' !! (l_type o, []) = Some a /\ keep B tbl tbl'.
Proof.
  intros I Ho Ht. unfold zero_tryLock. rewrite Ho.
  destruct (getRoot_ok _ _ _ _ _ _ I Ht) as (a & s1 & tbl' & E1 & I1 & Ha & Hs).
  rewrite (cat_bind _ _ _ _ _ E1).
  destruct (node_tryLock_ok _ _ _ _ _ _ _ _ mode I1 Ha) as (b & s2 & E2 & Hb); [congruence|].
  rewrite (cat_bind _ _ _ _ _ E2). destruct b; [|by destruct Hb].
  destruct Hb as [_ I2]. exists a, s2, tbl'. split; [done|]. split; [|split].
  - eapply inv_ext; [|exact I2]. apply modes_root.
  - done.
  - by eapply keep_subseteq.
Qed.

Lemma zero_unlock_ok oom s B tbl L o mode :
  inv oom None s (modes (mkReq (l_type o) [] mode :: B)) tbl L ->
  _zeroLevelNode o = tbl !! (l_type o, []) ->
  exists s' tbl', zero_unLock o s = Some (set_zero None o, s') /\
    inv oom None s' (modes B) tbl' L /\ keep B tbl tbl'.
Proof.
  intros I Ho. unfold zero_unLock. rewrite Ho.
  assert (modes (mkReq (l_type o) [] mode :: B) (l_type o, []) = mode :: modes B (l_type o, [])) as E.
  { rewrite modes_root. by rewrite fn_lookup_insert. }
  destruct (tbl !! (l_type o, [])) as [a|] eqn:Ha.
  2: { destruct (inv_used _ _ _ _ _ _ I (l_type o, [])) as [? ?]; [by rewrite E|congruence]. }
  destruct (node_unLock_ok _ _ _ _ _ _ _ mode (modes B (l_type o, [])) I Ha)
    as (s1 & E1 & I1); [by rewrite E|].
  rewrite (cat_bind _ _ _ _ _ E1).
  assert (inv oom (Some (l_type o, [])) s1 (modes B) tbl L) as I1'.
  { eapply inv_ext; [|exact I1]. intros q. destruct (decide (q = (l_type o, []))) as [->|Hq].
    - by rewrite fn_lookup_insert.
    - by rewrite fn_lookup_insert_ne, modes_root, fn_lookup_insert_ne. }
  destruct (releaseRoot_ok _ _ _ _ _ _ _ I1' (modes_closed B) Ha) as (s2 & tbl' & E2 & I2 & Hk).
  rewrite (cat_bind _ _ _ _ _ E2). by exists s2, tbl'.
Qed.

(** Locking the child [x] of a node that is held in shared mode. *)
Lemma sub_lock_ok oom s t ns B tbl L a x mode :
  inv oom None s (modes (mkReq t ns SHARED :: B)) tbl L -> tbl !! (t, ns) = Some a ->
  exists c s1 b s' tbl' L', getSubTreeNode a x s = Some (c, s1) /\
    node_tryLock c mode s1 = Some (b, s') /\
    tbl' !! (t, ns ++ [x]) = Some c /\ keep (mkReq t ns SHARED :: B) tbl tbl' /\
    if b then fits mode (modes B (t, ns ++ [x])) /\
      inv oom None s' (modes (mkReq t (ns ++ [x]) mode :: B)) tbl' L'
    else (oom = false -> ~ fits mode (modes B (t, ns ++ [x]))) /\
      inv oom None s' (modes (mkReq t ns SHARED :: B)) tbl' L'.
Proof.
  intros I Ha. change (t, ns ++ [x]) with (sub_path (t, ns) x).
  destruct (getSub_ok _ _ _ _ _ _ _ x I Ha) as (c & s1 & tbl' & L' & E1 & I1 & Hc & Hs & Hl).
  destruct (node_tryLock_ok _ _ _ _ _ _ _ _ mode I1 Hc) as (b & s2 & E2 & Hb); [congruence|].
  exists c, s1, b, s2, tbl', L'. do 3 (split; [done|]). split; [by eapply keep_subseteq|].
  rewrite modes_sub_other in Hb. destruct b.
  - destruct Hb as [[Hp|Hf] I2]; [by apply sub_path_not_root in Hp|]. split; [done|].
    eapply inv_ext; [|exact I2]. apply modes_extend.
  - destruct Hb as (_ & Hno & I2). split.
    + intros Ho. destruct Hno as [E|?]; [|done]. destruct (Hl Ho) as [? ?]. congruence.
    + eapply inv_ex; [|exact I2]. intros ? [= <-]. rewrite modes_sub_other.
      destruct oom; [auto|]. left. intros E. destruct Hno as [E'|Hno].
      * destruct (Hl eq_refl). congruence.
      * apply Hno. rewrite E. destruct mode; simpl; [set_solver|done].
Qed.

Lemma sub_unlock_ok oom s t ns B tbl L a x c mode :
  inv oom None s (modes (mkReq t (ns ++ [x]) mode :: B)) tbl L -> tbl !! (t, ns) = Some a ->
  tbl !! (t, ns ++ [x]) = Some c ->
  exists s1 s' tbl' L', node_unLock c s = Some (tt, s1) /\
    releaseSubTreeNode a c s1 = Some (tt, s') /\
    inv oom None s' (modes (mkReq t ns SHARED :: B)) tbl' L' /\ keep (mkReq t ns SHARED :: B) tbl tbl'.
Proof.
  intros I Ha Hc. change (t, ns ++ [x]) with (sub_path (t, ns) x) in Hc.
  pose proof (modes_extend t ns x mode B) as E.
  assert (modes (mkReq t (ns ++ [x]) mode :: B) (sub_path (t, ns) x)
          = mode :: modes B (sub_path (t, ns) x)) as Ec by (by rewrite E, fn_lookup_insert).
  destruct (node_unLock_ok _ _ _ _ _ _ _ mode (modes B (sub_path (t, ns) x)) I Hc)
    as (s1 & E1 & I1); [by rewrite Ec|].
  assert (inv oom (Some (sub_path (t, ns) x)) s1 (modes (mkReq t ns SHARED :: B)) tbl L) as I1'.
  { eapply inv_ext; [|exact I1]. intros q. destruct (decide (q = sub_path (t, ns) x)) as [->|Hq].
    - by rewrite fn_lookup_insert, modes_sub_other.
    - by rewrite fn_lookup_insert_ne, E, fn_lookup_insert_ne. }
  destruct (releaseSub_ok _ _ _ _ _ _ _ _ _ I1' (modes_closed _) Ha Hc)
    as (s2 & tbl' & L' & E2 & I2 & Hk).
  by exists s1, s2, tbl', L'.
Qed.

(** ** Lock objects *)

Definition obj_names o : list string :=
  match l_class o with
  | ZeroLevel => []
  | OneLevel => [_level1Name o]
  | TwoLevel => [_level1Name o; _level2Name o]
  end.

Definition fresh o : Prop :=
  _zeroLevelNode o = None /\ _oneLevelNode o = None /\ _twoLevelNode o = None /\
  l_type o <> CAT_LOCK_MAX.

Definition cleared o : catLock := set_two None (set_one None (set_zero None o)).

(** The object holds the request: its pointers are the nodes of its path. *)
Definition locked tbl o (r : request) : Prop :=
  r_type r = l_type o /\ r_names r = obj_names o /\
  _zeroLevelNode o = tbl !! (l_type o, []) /\
  _oneLevelNode o = match l_class o with ZeroLevel => None | _ => tbl !! (l_type o, [_level1Name o]) end /\
  _twoLevelNode o = match l_class o with
                    | TwoLevel => tbl !! (l_type o, [_level1Name o; _level2Name o])
                    | _ => None
                    end.

Lemma used_prefix oom ex s r B tbl L ns :
  inv oom ex s (modes (r :: B)) tbl L -> ns `prefix_of` r_names r ->
  modes (r :: B) (r_type r, ns) <> [] /\ is_Some (tbl !! (r_type r, ns)).
Proof.
  intros I Hp. assert (modes (r :: B) (r_type r, ns) <> []) as Hn.
  { apply modes_nonempty. exists r. split; [set_solver|]. unfold on_path. by rewrite decide_True. }
  split; [done|]. by apply (inv_used _ _ _ _ _ _ I).
Qed.

Lemma one_unlock_ok oom s B tbl L o mode :
  inv oom None s (modes (mkReq (l_type o) [_level1Name o] mode :: B)) tbl L ->
  _zeroLevelNode o = tbl !! (l_type o, []) -> _oneLevelNode o = tbl !! (l_type o, [_level1Name o]) ->
  exists s' tbl' L', one_unLock o s = Some (set_zero None (set_one None o), s') /\
    inv oom None s' (modes B) tbl' L' /\ keep B tbl tbl'.
Proof.
  intros I Hz Ho. unfold one_unLock.
  destruct (used_prefix _ _ _ _ _ _ _ [_level1Name o] I) as [_ [c Hc]]; [done|].
  destruct (used_prefix _ _ _ _ _ _ _ [] I) as [_ [a Ha]]; [apply prefix_nil|]. simpl in *.
  rewrite Ho, Hc.
  destruct (sub_unlock_ok _ _ (l_type o) [] B _ _ a (_level1Name o) c mode I Ha Hc)
    as (s1 & s2 & tbl1 & L1 & E1 & E2 & I2 & Hk).
  destruct (zero_unlock_ok _ _ _ _ _ (set_one None o) _ I2) as (s3 & tbl2 & E3 & I3 & Hk3).
  { simpl. rewrite Hz. symmetry. apply Hk. by apply (used_prefix _ _ _ _ _ _ _ [] I2), prefix_nil. }
  exists s3, tbl2, L1. split; [|split; [done|]].
  - erewrite cat_bind; [exact E3|].
    rewrite (cat_bind _ _ _ _ _ E1), Hz, Ha. simpl.
    rewrite (cat_bind (mret a) _ s1 a s1) by done. by rewrite (cat_bind _ _ _ _ _ E2).
  - eapply keep_trans; [by eapply keep_cons|done].
Qed.

Lemma two_unlock_ok oom s B tbl L o mode :
  inv oom None s (modes (mkReq (l_type o) [_level1Name o; _level2Name o] mode :: B)) tbl L ->
  _zeroLevelNode o = tbl !! (l_type o, []) -> _oneLevelNode o = tbl !! (l_type o, [_level1Name o]) ->
  _twoLevelNode o = tbl !! (l_type o, [_level1Name o; _level2Name o]) ->
  exists s' tbl' L', two_unLock o s = Some (cleared o, s') /\
    inv oom None s' (modes B) tbl' L' /\ keep B tbl tbl'.
Proof.
  intros I Hz Ho Ht. unfold two_unLock.
  destruct (used_prefix _ _ _ _ _ _ _ [_level1Name o; _level2Name o] I) as [_ [c Hc]]; [done|].
  destruct (used_prefix _ _ _ _ _ _ _ [_level1Name o] I) as [_ [a Ha]]; [by eexists|]. simpl in *.
  rewrite Ht, Hc.
  destruct (sub_unlock_ok _ _ (l_type o) [_level1Name o] B _ _ a (_level2Name o) c mode I Ha Hc)
    as (s1 & s2 & tbl1 & L1 & E1 & E2 & I2 & Hk).
  destruct (one_unlock_ok _ _ _ _ _ (set_two None o) _ I2) as (s3 & tbl2 & L2 & E3 & I3 & Hk3).
  { simpl. rewrite Hz. symmetry. apply Hk. by apply (used_prefix _ _ _ _ _ _ _ [] I2), prefix_nil. }
  { simpl. rewrite Ho. symmetry. apply Hk. by apply (used_prefix _ _ _ _ _ _ _ [_level1Name o] I2). }
  exists s3, tbl2, L2. split; [|split; [done|]].
  - erewrite cat_bind; [exact E3|].
    rewrite (cat_bind _ _ _ _ _ E1), Ho, Ha. simpl.
    rewrite (cat_bind (mret a) _ s1 a s1) by done. by rewrite (cat_bind _ _ _ _ _ E2).
  - eapply keep_trans; [by eapply keep_cons|done].
Qed.

(** Unlocking a lock object gives back exactly its request. *)
Lemma unLock_ok oom s r B tbl L o :
  inv oom None s (modes (r :: B)) tbl L -> locked tbl o r ->
  exists s' tbl' L', unLock o s = Some (cleared o, s') /\
    inv oom None s' (modes B) tbl' L' /\ keep B tbl tbl'.
Proof.
  intros I (Et & En & Hz & Ho & Ht). destruct r as [t ns mode]; simpl in *; subst.
  unfold unLock, obj_names in *. destruct (l_class o) eqn:Ec.
  - destruct (zero_unlock_ok _ _ _ _ _ _ _ I Hz) as (s' & tbl' & E & I' & Hk).
    exists s', tbl', L. split; [|done]. rewrite E. do 2 f_equal.
    destruct o; simpl in *. by subst.
  - destruct (one_unlock_ok _ _ _ _ _ _ _ I Hz Ho) as (s' & tbl' & L' & E & I' & Hk).
    exists s', tbl', L'. split; [|done]. rewrite E. do 2 f_equal.
    destruct o; simpl in *. by subst.
  - by eapply two_unlock_ok.
Qed.

Lemma unLock_zero_only o s :
  _oneLevelNode o = None -> _twoLevelNode o = None -> unLock o s = zero_unLock o s.
Proof.
  intros H1 H2. unfold unLock, two_unLock, one_unLock. rewrite H1, H2.
  destruct (l_class o); [done|..].
  - by rewrite (cat_bind (mret o) _ s o s).
  - rewrite (cat_bind (mret o) _ s o s) by done. rewrite H1. by rewrite (cat_bind (mret o) _ s o s).
Qed.

Lemma unLock_one_only o s :
  l_class o = TwoLevel -> _twoLevelNode o = None -> unLock o s = one_unLock o s.
Proof.
  intros Hc H2. unfold unLock, two_unLock. rewrite Hc, H2. by rewrite (cat_bind (mret o) _ s o s).
Qed.

Lemma one_tryLock_ok oom s B tbl L o mode :
  inv oom None s (modes B) tbl L -> fresh o ->
  exists b o' s' tbl' L', one_tryLock o mode s = Some ((b, o'), s') /\ keep B tbl tbl' /\
    if b then fits mode (modes B (l_type o, [_level1Name o])) /\
      inv oom None s' (modes (mkReq (l_type o) [_level1Name o] mode :: B)) tbl' L' /\
      o' = set_one (tbl' !! (l_type o, [_level1Name o])) (set_zero (tbl' !! (l_type o, [])) o)
    else (oom = false -> ~ fits mode (modes B (l_type o, [_level1Name o]))) /\
      inv oom None s' (modes B) tbl' L' /\ o' = o.
Proof.
  intros I (Hz & Ho & Ht & Hty). unfold one_tryLock.
  destruct (zero_lock_ok _ _ _ _ _ _ SHARED I Hz Hty) as (a & s1 & tbl1 & E1 & I1 & Ha & Hk1).
  rewrite (cat_bind _ _ _ _ _ E1).
  replace (_oneLevelNode (set_zero (Some a) o)) with (@None Z) by done.
  destruct (sub_lock_ok _ _ (l_type o) [] B _ _ a (_level1Name o) mode I1 Ha)
    as (c & s2 & b & s3 & tbl2 & L2 & E2 & E3 & Hc & Hk2 & Hb).
  rewrite (cat_bind _ _ s1 c s2) by (by rewrite (cat_bind (notNull (Some a)) _ s1 a s1)).
  rewrite (cat_bind _ _ _ _ _ E3). simpl in Hc.
  assert (keep B tbl tbl2) as Hk by (eapply keep_trans; [done|by eapply keep_cons]).
  assert (tbl2 !! (l_type o, []) = Some a) as Ha2.
  { rewrite <- Ha. apply Hk2. by apply (used_prefix _ _ _ _ _ _ _ [] I1), prefix_nil. }
  destruct b.
  - destruct Hb as [Hf I3]. eexists true, _, s3, tbl2, L2. split; [done|]. split; [done|].
    split; [done|]. split; [done|]. by rewrite Hc, Ha2.
  - destruct Hb as [Hf I3].
    set (o1 := set_one None (set_one (Some c) (set_zero (Some a) o))).
    destruct (zero_unlock_ok _ _ _ _ _ o1 _ I3) as (s4 & tbl3 & E4 & I4 & Hk4); [by symmetry|].
    eexists false, _, s4, tbl3, L2. split.
    { rewrite (cat_bind _ _ s3 _ s4 (eq_trans (unLock_zero_only o1 _ eq_refl Ht) E4)). done. }
    split; [by eapply keep_trans|]. split; [done|]. split; [done|].
    destruct o; simpl in *; by subst.
Qed.

Lemma two_tryLock_ok oom s B tbl L o mode :
  inv oom None s (modes B) tbl L -> fresh o -> l_class o = TwoLevel ->
  let r := mkReq (l_type o) [_level1Name o; _level2Name o] mode in
  exists b o' s' tbl' L', two_tryLock o mode s = Some ((b, o'), s') /\ keep B tbl tbl' /\
    if b then grantable r B /\ inv oom None s' (modes (r :: B)) tbl' L' /\ locked tbl' o' r
    else (oom = false -> ~ grantable r B) /\ inv oom None s' (modes B) tbl' L' /\ o' = o.
Proof.
  intros I Hf Ec r. pose proof Hf as (Hz & Ho & Ht & Hty).
  pose proof (grantable_two (l_type o) (_level1Name o) (_level2Name o) mode B) as G. fold r in G.
  destruct (one_tryLock_ok _ _ _ _ _ _ SHARED I Hf) as (b & o1 & s1 & tbl1 & L1 & E & Hk & Hb).
  unfold two_tryLock. rewrite (cat_bind _ _ _ _ _ E).
  destruct b; [|exists false, o1, s1, tbl1, L1; naive_solver].
  destruct Hb as (Hf1 & I1 & ->). cbv beta iota.
  destruct (used_prefix _ _ _ _ _ _ _ [_level1Name o] I1) as [_ [a Ha]]; [done|].
  destruct (used_prefix _ _ _ _ _ _ _ [] I1) as [_ [z Hz1]]; [apply prefix_nil|]. simpl in Ha, Hz1.
  rewrite Ha, Hz1. simpl. rewrite Ht.
  destruct (sub_lock_ok _ _ (l_type o) [_level1Name o] B _ _ a (_level2Name o) mode I1 Ha)
    as (c & s2 & b & s3 & tbl2 & L2 & E2 & E3 & Hc & Hk2 & Hb).
  rewrite (cat_bind _ _ s1 c s2) by (by rewrite (cat_bind (mret a) _ s1 a s1)).
  rewrite (cat_bind _ _ _ _ _ E3). simpl in Hc, Hb.
  assert (keep B tbl tbl2) as Hk' by (eapply keep_trans; [done|by eapply keep_cons]).
  assert (tbl2 !! (l_type o, []) = Some z) as Hz2.
  { rewrite <- Hz1. apply Hk2. by apply (used_prefix _ _ _ _ _ _ _ [] I1), prefix_nil. }
  assert (tbl2 !! (l_type o, [_level1Name o]) = Some a) as Ha2.
  { rewrite <- Ha. apply Hk2. by apply (used_prefix _ _ _ _ _ _ _ [_level1Name o] I1). }
  destruct b.
  - destruct Hb as [Hf2 I2]. eexists true, _, s3, tbl2, L2. do 2 (split; [done|]).
    split; [by apply G|]. split; [done|]. unfold locked, obj_names. simpl.
    by rewrite Ec, Hz2, Ha2, Hc.
  - destruct Hb as [Hf2 I2]. set (o2 := set_two None _).
    destruct (one_unlock_ok _ _ _ _ _ o2 _ I2) as (s4 & tbl3 & L3 & E4 & I4 & Hk4); [by simpl..|].
    eexists false, _, s4, tbl3, L3. split.
    { rewrite (cat_bind _ _ s3 _ s4 (eq_trans (unLock_one_only o2 _ Ec eq_refl) E4)). done. }
    split; [by eapply keep_trans|]. split; [naive_solver|]. split; [done|].
    destruct o; simpl in *; by subst.
Qed.

(** Trying to lock: granted exactly when nothing conflicts and memory
    lasts; refused without a trace. *)
Lemma tryLock_ok oom s B tbl L o mode :
  inv oom None s (modes B) tbl L -> fresh o ->
  let r := mkReq (l_type o) (obj_names o) mode in
  exists b o' s' tbl' L', tryLock o mode s = Some ((b, o'), s') /\ keep B tbl tbl' /\
    if b then grantable r B /\ inv oom None s' (modes (r :: B)) tbl' L' /\ locked tbl' o' r
    else (oom = false -> ~ grantable r B) /\ inv oom None s' (modes B) tbl' L' /\ o' = o.
Proof.
  intros I Hf. pose proof Hf as (Hz & Ho & Ht & Hty). simpl. unfold tryLock, obj_names.
  destruct (l_class o) eqn:Ec.
  - destruct (zero_lock_ok _ _ _ _ _ _ mode I Hz Hty) as (a & s1 & tbl1 & E1 & I1 & Ha & Hk1).
    exists true, (set_zero (Some a) o), s1, tbl1, L. do 2 (split; [done|]).
    split; [apply grantable_zero|]. split; [done|]. unfold locked, obj_names. simpl. by rewrite Ec, Ha.
  - destruct (one_tryLock_ok _ _ _ _ _ _ mode I Hf) as (b & o' & s' & tbl' & L' & E & Hk & Hb).
    exists b, o', s', tbl', L'. do 2 (split; [done|]).
    destruct b; rewrite grantable_one; [|done]. destruct Hb as (? & ? & ->).
    do 2 (split; [done|]). unfold locked, obj_names. simpl. by rewrite Ec.
  - by eapply two_tryLock_ok.
Qed.
End levels.
