(* ===== verification/CatLockThms.v ===== *)
(** * Catalog level locks: what they promise

    Contexts lock and unlock in any order.  The specification is the bag of
    granted requests, each tagged with its context; the lock tree implements
    it. *)

From stdpp Require Import base gmap list strings functions.
From S2P Require Import Prelude.
From S2P Require Import CatLock CatLockInv CatLockOps CatLockObj.
From Stdlib Require Import ZArith Lia.

Open Scope Z_scope.

(** ** Operations of contexts *)

Inductive catOp : Set :=
  | LockCollectionSpace (csName : string) (mode : OSS_LATCH_MODE)
  | LockCollectionOf (csName clFullName : string) (mode : OSS_LATCH_MODE)
  | LockCollection (clFullName : string) (mode : OSS_LATCH_MODE)
  | LockDomain (domainName : string) (mode : OSS_LATCH_MODE)
  | LockGroup (groupName : string) (mode : OSS_LATCH_MODE)
  | LockNode (groupName nodeName : string) (mode : OSS_LATCH_MODE)
  | UnlockObjects.

#[export] Instance catOp_eq_dec : EqDecision catOp.
Proof. solve_decision. Defined.

(** What an operation asks for; nothing when the name is not one of a
    collection. *)
Definition request_of (op : catOp) : option request :=
  match op with
  | LockCollectionSpace cs m => Some (mkReq CAT_LOCK_DATA [cs] m)
  | LockCollectionOf cs cl m => Some (mkReq CAT_LOCK_DATA [cs; cl] m)
  | LockCollection cl m =>
      cs ← rtnResolveCollectionSpaceName cl DMS_COLLECTION_SPACE_NAME_SZ;
      Some (mkReq CAT_LOCK_DATA [cs; cl] m)
  | LockDomain d m => Some (mkReq CAT_LOCK_DOMAIN [d] m)
  | LockGroup g m => Some (mkReq CAT_LOCK_NODE [g] m)
  | LockNode g n m => Some (mkReq CAT_LOCK_NODE [g; n] m)
  | UnlockObjects => None
  end.

(** The entries of a context in a tagged list, and those of the others. *)
Definition of_ctx {A} (c : Z) (l : list (Z * A)) : list A := (filter (fun x => x.1 = c) l).*2.
Definition others {A} (c : Z) (l : list (Z * A)) : list (Z * A) := filter (fun x => x.1 <> c) l.

Definition tag {A} (c : Z) (l : list A) : list (Z * A) := (fun a => (c, a)) <$> l.

(** ** The specification *)

Definition spec_step (c : Z) (op : catOp) (bag : list (Z * request)) : bool * list (Z * request) :=
  match op with
  | UnlockObjects => (true, others c bag)
  | _ =>
      match request_of op with
      | Some r => if decide (grantable r bag.*2) then (true, bag ++ [(c, r)]) else (false, bag)
      | None => (false, bag)
      end
  end.

Fixpoint spec_run (ops : list (Z * catOp)) (bag : list (Z * request))
    : list bool * list (Z * request) :=
  match ops with
  | [] => ([], bag)
  | (c, op) :: ops' =>
      let '(b, bag) := spec_step c op bag in
      let '(bs, bag) := spec_run ops' bag in (b :: bs, bag)
  end.

(** The bag that the answers of a run stand for. *)
Fixpoint replay (ops : list (Z * catOp)) (answers : list bool) (bag : list (Z * request))
    : list (Z * request) :=
  match ops, answers with
  | (c, op) :: ops', b :: answers' =>
      let bag := match op, request_of op with
                 | UnlockObjects, _ => others c bag
                 | _, Some r => if (b : bool) then bag ++ [(c, r)] else bag
                 | _, None => bag
                 end in
      replay ops' answers' bag
  | _, _ => bag
  end.

Definition no_conflicts (bag : list (Z * request)) : Prop :=
  ForallOrdPairs (fun x y => ~ conflicts x.2 y.2) bag.

Lemma no_conflicts_filter (P : Z * request -> Prop) `{!forall x, Decision (P x)} bag :
  no_conflicts bag -> no_conflicts (filter P bag).
Proof.
  induction 1 as [|x bag Hx Hp IH]; [constructor|]. rewrite filter_cons. case_decide; [|done].
  constructor; [|done].
  rewrite list.Forall_forall in Hx |- *. intros y [_ Hy]%list_elem_of_filter. auto.
Qed.

Lemma no_conflicts_snoc bag c r :
  no_conflicts bag -> grantable r bag.*2 -> no_conflicts (bag ++ [(c, r)]).
Proof.
  unfold grantable, no_conflicts. induction 1 as [|x bag Hx Hp IH]; simpl; intros Hg.
  - repeat constructor.
  - apply list.Forall_cons in Hg as [Hg1 Hg2]. constructor; [|by apply IH].
    apply list.Forall_app. split; [done|]. repeat constructor. simpl. unfold conflicts in *. tauto.
Qed.

(** ** Runs of the code *)

Section run.
Context `{SharedMutex}.

Definition op_run (op : catOp) (lockList : list catLock) : catM (bool * list catLock) :=
  match op with
  | LockCollectionSpace cs m => tryLockCollectionSpace lockList cs m
  | LockCollectionOf cs cl m => tryLockCollectionOf lockList cs cl m
  | LockCollection cl m => tryLockCollection lockList cl m
  | LockDomain d m => tryLockDomain lockList d m
  | LockGroup g m => tryLockGroup lockList g m
  | LockNode g n m => tryLockNode lockList g n m
  | UnlockObjects => l ← unlockObjects lockList; mret (true, l)
  end.

(** The catalog's tree with the lock objects of all contexts. *)
Record sys : Type := mkSys {
  s_cat : catState;
  s_held : list (Z * catLock)
}.

Definition sys_init (schedule : list bool) : sys := mkSys (set_allocs schedule cat_init) [].

Definition sys_step (c : Z) (op : catOp) (st : sys) : option (bool * sys) :=
  match op_run op (of_ctx c (s_held st)) (s_cat st) with
  | Some ((b, l), cat) => Some (b, mkSys cat (others c (s_held st) ++ tag c l))
  | None => None
  end.

Fixpoint sys_run (ops : list (Z * catOp)) (st : sys) : option (list bool * sys) :=
  match ops with
  | [] => Some ([], st)
  | (c, op) :: ops' =>
      '(b, st) ← sys_step c op st;
      '(bs, st) ← sys_run ops' st;
      Some (b :: bs, st)
  end.
End run.

Section refinement.
Context `{SharedMutexSpec}.
Implicit Types (tbl L : gmap path Z) (B : list request) (o : catLock) (s : catState).

Lemma op_try op r :
  request_of op = Some r ->
  exists o, fresh o /\ mkReq (l_type o) (obj_names o) (r_mode r) = r /\
    forall l, op_run op l = (p ← newLock o; tryLockNew l p (r_mode r)).
Proof.
  destruct op as [cs m|cs cl m|cl m|d m|g m|g n m|]; simpl; intros E; simplify_eq; simpl.
  - by exists (catCSLock cs).
  - by exists (catCLLock cs cl).
  - apply bind_Some in E as (cs & Ecs & [= <-]). exists (catCLLock cs cl). do 2 (split; [done|]).
    intros l. unfold tryLockCollection. by rewrite Ecs.
  - by exists (catDomainLock d).
  - by exists (catGroupLock g).
  - by exists (catNodeLock g n).
Qed.

Lemma deleteLock_fresh o s :
  _zeroLevelNode o = None -> _oneLevelNode o = None -> _twoLevelNode o = None ->
  deleteLock o s = Some (tt, s).
Proof.
  destruct o as [[] ??? z on tw]; simpl; intros -> -> ->; reflexivity.
Qed.

Lemma locked_keep tbl tbl' o r B :
  locked tbl o r -> r ∈ B -> keep B tbl tbl' -> locked tbl' o r.
Proof.
  intros (Et & En & Hz & Ho & Ht) Hr Hk.
  assert (forall ns, ns `prefix_of` obj_names o -> tbl' !! (l_type o, ns) = tbl !! (l_type o, ns)) as Hp.
  { intros ns Hns. apply Hk, modes_nonempty. exists r. split; [done|]. unfold on_path. simpl.
    rewrite decide_True; [done|]. by rewrite En. }
  unfold locked. rewrite Hp by apply prefix_nil. do 3 (split; [done|]).
  unfold obj_names in Hp. destruct (l_class o); rewrite ?Hp; auto; by eexists.
Qed.

Lemma Forall2_impl_r {X Y} (P Q : X -> Y -> Prop) l k :
  Forall2 P l k -> (forall x y, y ∈ k -> P x y -> Q x y) -> Forall2 Q l k.
Proof.
  induction 1 as [|x y l k HP F IH]; intros HQ; constructor.
  - apply HQ; [left|done].
  - apply IH. intros x' y' Hy. apply HQ. by right.
Qed.

Definition held_ok tbl (x : Z * catLock) (y : Z * request) : Prop :=
  x.1 = y.1 /\ locked tbl x.2 y.2.

(** The state of a run and the bag it stands for. *)
Definition sim (oom : bool) (st : sys) (bag : list (Z * request)) : Prop :=
  exists tbl L bag', bag' ≡ₚ bag /\ inv oom None (s_cat st) (modes bag'.*2) tbl L /\
    Forall2 (held_ok tbl) (s_held st) bag'.

Lemma sim_keep tbl tbl' held bag B :
  Forall2 (held_ok tbl) held bag ->
  keep B tbl tbl' -> (forall y, y ∈ bag -> y.2 ∈ B) ->
  Forall2 (held_ok tbl') held bag.
Proof.
  intros F Hk Hin. eapply Forall2_impl_r; [exact F|].
  intros x y Hy [? ?]. split; eauto using locked_keep.
Qed.

Lemma tag_others {A} c (l : list (Z * A)) :
  others c l ++ tag c (of_ctx c l) ≡ₚ l.
Proof.
  unfold others, of_ctx, tag. induction l as [|[c' a] l IH]; [done|]. rewrite !filter_cons. simpl.
  destruct (decide (c' = c)) as [->|Hne]; simpl.
  - rewrite decide_False by auto. by rewrite <- Permutation_middle, IH.
  - rewrite decide_True by auto. simpl. by rewrite IH.
Qed.

Lemma fmap_snd_tag {A} c (l : list A) : (tag c l).*2 = l.
Proof. unfold tag. rewrite <- list_fmap_compose. apply list_fmap_id. Qed.

Lemma bag_split {A} c (l : list (Z * A)) : of_ctx c l ++ (others c l).*2 ≡ₚ l.*2.
Proof.
  rewrite Permutation_app_comm. rewrite <- (fmap_snd_tag c (of_ctx c l)), <- fmap_app.
  apply fmap_Permutation, tag_others.
Qed.

#[local] Instance others_proper {A} c : Proper ((≡ₚ) ==> (≡ₚ)) (@others A c).
Proof. intros l l' E. unfold others. by rewrite E. Qed.

Lemma Forall2_ctx tbl c held bag :
  Forall2 (held_ok tbl) held bag ->
  Forall2 (held_ok tbl) (others c held) (others c bag) /\
  Forall2 (locked tbl) (of_ctx c held) (of_ctx c bag).
Proof.
  unfold others, of_ctx. induction 1 as [|[c1 o] [c2 r] held bag [Ec Hl] F [IH1 IH2]]; [done|].
  simpl in *. subst. rewrite !filter_cons. simpl.
  destruct (decide (c2 = c)) as [->|Hne]; simpl.
  - rewrite !decide_False by auto. split; [done|]. by constructor.
  - rewrite !decide_True by auto. split; [|done]. by constructor.
Qed.

Lemma Forall2_tag tbl c l rs :
  Forall2 (locked tbl) l rs ->
  Forall2 (held_ok tbl)
    (tag c l) (tag c rs).
Proof. intros F. apply Forall2_fmap. eapply Forall2_impl_r; [exact F|]. done. Qed.

(** ** A step of one context *)

Lemma unlockObjects_ok oom s tbl L l rs B :
  inv oom None s (modes (rs ++ B)) tbl L -> Forall2 (locked tbl) l rs ->
  exists s' tbl' L', unlockObjects l s = Some ([], s') /\
    inv oom None s' (modes B) tbl' L' /\ keep B tbl tbl'.
Proof.
  intros I F. revert s tbl L I F. induction l as [|o l IH] in rs |- *; intros s tbl L I F.
  - apply Forall2_nil_inv_l in F as ->. by exists s, tbl, L.
  - apply Forall2_cons_inv_l in F as (r & rs' & Hl & F & ->). simpl in *.
    destruct (unLock_ok _ _ _ _ _ _ _ I Hl) as (s1 & tbl1 & L1 & E1 & I1 & Hk1).
    rewrite (cat_bind _ _ _ _ _ E1). rewrite (cat_bind _ _ s1 tt s1) by (by apply deleteLock_fresh).
    destruct (IH rs' s1 tbl1 L1 I1) as (s2 & tbl2 & L2 & E2 & I2 & Hk2).
    { eapply Forall2_impl_r; [exact F|]. intros x y Hy ?.
      eapply locked_keep; [done| |exact Hk1]. apply elem_of_app. auto. }
    exists s2, tbl2, L2. do 2 (split; [done|]).
    intros q Hq. rewrite Hk2 by done. apply Hk1. apply modes_nonempty in Hq as (r' & ? & ?).
    apply modes_nonempty. exists r'. split; [apply elem_of_app; auto|done].
Qed.

Lemma tryNew_ok oom s B tbl L o mode l :
  inv oom None s (modes B) tbl L -> fresh o ->
  let r := mkReq (l_type o) (obj_names o) mode in
  exists b l' s' tbl' L', (p ← newLock o; tryLockNew l p mode) s = Some ((b, l'), s') /\ keep B tbl tbl' /\
    if b then grantable r B /\ inv oom None s' (modes (r :: B)) tbl' L' /\
      exists o', l' = l ++ [o'] /\ locked tbl' o' r
    else (oom = false -> ~ grantable r B) /\ inv oom None s' (modes B) tbl' L' /\ l' = l.
Proof.
  intros I Hf r. unfold newLock. destruct (cat_oss_new_ok s) as (ok & bs & E & Hok).
  assert (inv oom None (set_allocs bs s) (modes B) tbl L) as I0.
  { destruct I as [N K U T X A]. split; try done. intros Ho. by apply Hok, A. }
  erewrite cat_bind by (by rewrite (cat_bind _ _ _ _ _ E)).
  destruct ok; simpl.
  - destruct (tryLock_ok _ _ _ _ _ _ mode I0 Hf) as (b & o' & s1 & tbl1 & L1 & E1 & Hk1 & Hb).
    rewrite (cat_bind _ _ _ _ _ E1). destruct b.
    + eexists true, _, s1, tbl1, L1. split; [done|]. naive_solver.
    + destruct Hb as (Hno & I1 & ->). destruct Hf as (? & ? & ? & _).
      rewrite (cat_bind _ _ s1 tt s1) by (by apply deleteLock_fresh).
      by eexists false, _, s1, tbl1, L1.
  - eexists false, _, _, tbl, L. split; [done|]. split; [done|]. split; [|done].
    intros Ho. destruct I as [_ _ _ _ _ A]. by destruct (Hok (A Ho)).
Qed.

Lemma unresolved op l s :
  op <> UnlockObjects -> request_of op = None -> op_run op l s = Some ((false, l), s).
Proof.
  destruct op as [cs m|cs cl m|cl m|d m|g m|g n m|]; try done. intros _ E. simpl in *.
  unfold tryLockCollection.
  by destruct (rtnResolveCollectionSpaceName cl DMS_COLLECTION_SPACE_NAME_SZ).
Qed.

(** The lists after a step of context [c] that left its locks as [l]. *)
Lemma sim_rebuild oom s held bag bag' tbl tbl' L' c l rs extra :
  Forall2 (held_ok tbl) held bag' -> keep bag'.*2 tbl tbl' ->
  bag' ≡ₚ bag -> l = of_ctx c held ++ extra -> Forall2 (locked tbl') extra rs ->
  inv oom None s (modes (rs ++ bag'.*2)) tbl' L' ->
  sim oom (mkSys s (others c held ++ tag c l)) (bag ++ tag c rs).
Proof.
  intros F Hk Hp -> Fx I. exists tbl', L', ((others c bag' ++ tag c (of_ctx c bag')) ++ tag c rs).
  split; [by rewrite tag_others, Hp|]. split.
  - eapply inv_perm; [|exact I]. intros p. apply modes_perm.
    rewrite !fmap_app, !fmap_snd_tag, (Permutation_app_comm rs). f_equiv.
    by rewrite (Permutation_app_comm (_.*2)), bag_split.
  - simpl. unfold tag. rewrite fmap_app, app_assoc.
    destruct (Forall2_ctx tbl c held bag' F) as [F1 F2].
    apply Forall2_app; [apply Forall2_app|by apply Forall2_tag].
    + eapply sim_keep; [done..|]. intros y Hy. apply list_elem_of_fmap_2.
      unfold others in Hy. by apply list_elem_of_filter in Hy as [_ ?].
    + apply Forall2_tag. eapply Forall2_impl_r; [exact F2|]. intros x y Hy Hl.
      eapply locked_keep; [done| |done]. rewrite <- (bag_split c bag'). apply elem_of_app. auto.
Qed.

Lemma spec_try c op bag :
  op <> UnlockObjects ->
  spec_step c op bag =
    match request_of op with
    | Some r => if decide (grantable r bag.*2) then (true, bag ++ [(c, r)]) else (false, bag)
    | None => (false, bag)
    end.
Proof. by destruct op. Qed.

Lemma replay_try c op b bag :
  op <> UnlockObjects ->
  replay [(c, op)] [b] bag =
    match request_of op with
    | Some r => if (b : bool) then bag ++ [(c, r)] else bag
    | None => bag
    end.
Proof. by destruct op. Qed.

(** A refused request. *)
Lemma sim_refused oom s held bag bag' tbl tbl' L' c :
  Forall2 (held_ok tbl) held bag' -> keep bag'.*2 tbl tbl' -> bag' ≡ₚ bag ->
  inv oom None s (modes bag'.*2) tbl' L' ->
  sim oom (mkSys s (others c held ++ tag c (of_ctx c held))) bag.
Proof.
  intros F Hk Hp I. rewrite <- (app_nil_r bag). change (@nil (Z * request)) with (tag c (@nil request)).
  eapply sim_rebuild; [done..| |constructor|done]. by rewrite app_nil_r.
Qed.

(** One operation: the code answers, and the answer is the specification's
    unless an allocation failed. *)
Lemma sim_step oom st bag c op :
  sim oom st bag ->
  exists b st', sys_step c op st = Some (b, st') /\
    (oom = false -> b = (spec_step c op bag).1) /\
    sim oom st' (replay [(c, op)] [b] bag) /\
    (b = true -> forall r, request_of op = Some r -> grantable r bag.*2).
Proof.
  intros (tbl & L & bag' & Hp & I & F). unfold sys_step.
  destruct (decide (op = UnlockObjects)) as [->|Hop].
  - destruct (Forall2_ctx _ c _ _ F) as [F1 F2]. simpl.
    destruct (unlockObjects_ok oom (s_cat st) tbl L (of_ctx c (s_held st)) (of_ctx c bag')
                (others c bag').*2) as (s' & tbl' & L' & E & I' & Hk); [|done|].
    { eapply inv_perm; [|exact I]. intros p. apply modes_perm. by rewrite bag_split. }
    rewrite (cat_bind _ _ _ _ _ E). eexists _, _. split; [done|]. split; [done|]. split; [|done].
    exists tbl', L', (others c bag'). split; [by rewrite Hp|]. split; [done|].
    simpl. rewrite app_nil_r. eapply sim_keep; [done..|]. intros y. apply list_elem_of_fmap_2.
  - rewrite spec_try by done. destruct (request_of op) as [r|] eqn:Er.
    + destruct (op_try op r Er) as (o & Hfr & Hr & Eop). rewrite Eop.
      destruct (tryNew_ok _ _ _ _ _ _ (r_mode r) (of_ctx c (s_held st)) I Hfr)
        as (b & l' & s' & tbl' & L' & E & Hk & Hb). rewrite Hr in Hb. rewrite E.
      assert (grantable r bag'.*2 <-> grantable r bag.*2) as Hg.
      { unfold grantable. by rewrite Hp. }
      exists b. eexists. split; [done|]. rewrite replay_try, Er by done.
      destruct b; destruct Hb as (Hb1 & Ib & Hl); (split; [|split]).
      * intros _. by rewrite decide_True by tauto.
      * destruct Hl as (o' & -> & Hl).
        apply (sim_rebuild _ _ _ _ bag' tbl tbl' L' c _ [r] [o']); eauto.
      * intros _ r' [= <-]. tauto.
      * intros Ho. rewrite decide_False by tauto. done.
      * subst l'. by eapply sim_refused.
      * done.
    + rewrite (unresolved op _ _ Hop Er). exists false. eexists. split; [done|].
      rewrite replay_try, Er by done. split; [done|]. split; [|done]. by eapply sim_refused.
Qed.

Lemma spec_replay c op bag : (spec_step c op bag).2 = replay [(c, op)] [(spec_step c op bag).1] bag.
Proof.
  destruct (decide (op = UnlockObjects)) as [->|Hop]; [done|].
  rewrite replay_try, spec_try by done. destruct (request_of op); [|done]. by case_decide.
Qed.

Lemma replay_cons c op ops b bs bag :
  replay ((c, op) :: ops) (b :: bs) bag = replay ops bs (replay [(c, op)] [b] bag).
Proof. done. Qed.

Lemma replay_no_conflicts c op b bag :
  no_conflicts bag -> (b = true -> forall r, request_of op = Some r -> grantable r bag.*2) ->
  no_conflicts (replay [(c, op)] [b] bag).
Proof.
  intros Hn Hg. destruct (decide (op = UnlockObjects)) as [->|Hop].
  - by apply no_conflicts_filter.
  - rewrite replay_try by done. destruct (request_of op) as [r|]; [|done]. destruct b; [|done].
    apply no_conflicts_snoc; auto.
Qed.

(** Whole runs. *)
Lemma sim_run oom ops st bag :
  sim oom st bag -> no_conflicts bag ->
  exists answers st', sys_run ops st = Some (answers, st') /\
    sim oom st' (replay ops answers bag) /\ no_conflicts (replay ops answers bag) /\
    (oom = false -> spec_run ops bag = (answers, replay ops answers bag)).
Proof.
  induction ops as [|[c op] ops IH] in st, bag |- *; intros S Hn; [by exists [], st|].
  destruct (sim_step _ _ _ c op S) as (b & st1 & E1 & Hspec & S1 & Hg).
  destruct (IH _ _ S1 (replay_no_conflicts c op b bag Hn Hg)) as (bs & st2 & E2 & S2 & Hn2 & Hs2).
  exists (b :: bs), st2. rewrite replay_cons. split; [|split; [done|split; [done|]]].
  - cbn [sys_run]. rewrite E1. simpl. by rewrite E2.
  - intros Ho. cbn [spec_run]. rewrite (surjective_pairing (spec_step c op bag)), spec_replay.
    rewrite <- (Hspec Ho), (Hs2 Ho). done.
Qed.

Lemma sim_init schedule : sim (bool_decide (schedule <> [])) (sys_init schedule) [].
Proof.
  exists ∅, ∅, []. split; [done|]. split; [|constructor].
  destruct inv_init as [N K U T X A]. split; try done.
  - intros p [a Ha]. by rewrite lookup_empty in Ha.
  - intros Ho%bool_decide_eq_false. simpl. destruct schedule; [done|]. by destruct Ho.
Qed.

(** C27: The lock tree implements the bag of granted requests: while
    allocations succeed, every sequence of operations of any contexts runs to
    its end without a null or dangling pointer, and each attempt is granted
    exactly when no granted request conflicts with it, that is, none of the two
    is exclusive on the object of the other or on one above it. *)
Theorem catLocks_refine_bag ops :
  exists st, sys_run ops (sys_init []) = Some ((spec_run ops []).1, st) /\
    sim false st (spec_run ops []).2.
Proof.
  destruct (sim_run _ ops _ _ (sim_init [])) as (answers & st & E & S & _ & Hs); [constructor|].
  exists st. by rewrite (Hs eq_refl).
Qed.

(** C38: Whatever allocations fail, the catalog lock operations of any
    contexts in any order return, and the requests they were granted and
    have not given back never conflict. *)
Theorem catLocks_never_conflict schedule ops :
  exists answers st, sys_run ops (sys_init schedule) = Some (answers, st) /\
    no_conflicts (replay ops answers []).
Proof.
  destruct (sim_run _ ops _ _ (sim_init schedule)) as (answers & st & E & S & Hn & _); [constructor|].
  eauto.
Qed.

(** Nothing is left over: when every granted lock has been given back and
    allocations succeed, the tree is empty, no lock object is left, and the
    latches that exist are the at most 16 of the pool, all of them free. *)
Theorem catLocks_leave_nothing ops answers :
  spec_run ops [] = (answers, []) ->
  exists st, sys_run ops (sys_init []) = Some (answers, st) /\
    s_held st = [] /\ nodes (s_cat st) = ∅ /\ _mapType2Lock (s_cat st) = ∅ /\
    (length (_vecLatch (s_cat st)) <= CAT_MAX_LATCH_SIZE)%nat /\
    forall l m, latches (s_cat st) !! l = Some m -> l ∈ _vecLatch (s_cat st) /\ held m = Readers 0.
Proof.
  intros Hspec. destruct (sim_run _ ops _ _ (sim_init [])) as (answers' & st & E & S & _ & Hs);
    [constructor|].
  rewrite Hspec in Hs. specialize (Hs eq_refl). injection Hs as -> Hb. rewrite <- Hb in S.
  exists st. split; [done|].
  destruct S as (tbl & L & bag' & Hp%Permutation_sym%Permutation_nil & [N K U T X A] & F). subst bag'.
  apply Forall2_nil_inv_r in F. split; [done|].
  assert (forall p, tbl !! p = None) as Htbl.
  { intros p. apply eq_None_not_Some. intros Hs. by destruct (T p Hs) as [?|[?|?]]. }
  split; [|split; [|split; [by eapply lk_size|]]].
  - apply map_empty. intros a. destruct (nodes (s_cat st) !! a) eqn:Ea; [|done].
    apply (no_all _ _ _ _ _ _ N) in Ea as [_ [p Hp]]. by rewrite Htbl in Hp.
  - apply map_empty. intros a. by rewrite (no_types _ _ _ _ _ _ N), Htbl.
  - intros l m Hl. destruct (lk_all _ _ _ _ _ K l m Hl) as [_ [Hin|[p Hp]]].
    + split; [done|]. destruct (lk_pool _ _ _ _ _ K l Hin) as (_ & m' & Hm' & ?). by simplify_eq.
    + destruct (no_latched _ _ _ _ _ _ N p) as [? Hs]; [by rewrite Hp|]. by rewrite Htbl in Hs.
Qed.
End refinement.

(** ** A mutex, and examples *)

#[export] Instance plain_mutex : SharedMutex := {|
  mutex := holders;
  mutex_init := Readers 0;
  try_lock m := if decide (m = Readers 0) then (true, Writer) else (false, m);
  try_lock_shared m := match m with Readers n => (true, Readers (S n)) | Writer => (false, m) end;
  unlock _ := Readers 0;
  unlock_shared m := match m with Readers (S n) => Readers n | _ => m end
|}.

#[export] Instance plain_mutex_spec : SharedMutexSpec.
Proof.
  unshelve econstructor; [exact (fun m => m)|..]; simpl; try done.
  - intros m. destruct (decide (m = Readers 0)) as [->|Hne]; [done|].
    by rewrite bool_decide_eq_false_2.
  - by intros [n|].
  - by intros m n ->.
Defined.

(** Two contexts: a collection is locked below a space, the space cannot be
    had exclusively until both are given back. *)
Definition demo_ops : list (Z * catOp) :=
  [(1, LockCollection "foo.bar" EXCLUSIVE); (2, LockCollectionSpace "foo" SHARED);
   (2, LockCollectionSpace "foo" EXCLUSIVE); (1, LockCollection "foo.bar" SHARED);
   (1, LockCollection "nodot" SHARED); (1, UnlockObjects); (2, UnlockObjects);
   (2, LockCollectionSpace "foo" EXCLUSIVE); (2, UnlockObjects)].

Lemma catLocks_refine_bag_witness :
  (spec_run demo_ops []).1 = [true; true; false; false; false; true; true; true; true] /\
  exists st : sys, sys_run demo_ops (sys_init []) = Some ((spec_run demo_ops []).1, st) /\
    sim false st (spec_run demo_ops []).2.
Proof. split; [vm_compute; reflexivity|]. apply (catLocks_refine_bag demo_ops). Defined.

Lemma catLocks_never_conflict_witness :
  exists answers (st : sys), sys_run demo_ops (sys_init [true; false]) = Some (answers, st) /\
    no_conflicts (replay demo_ops answers []).
Proof. apply (catLocks_never_conflict [true; false] demo_ops). Defined.

Lemma catLocks_leave_nothing_witness :
  exists st : sys, sys_run demo_ops (sys_init [])
      = Some ([true; true; false; false; false; true; true; true; true], st) /\
    s_held st = [] /\ nodes (s_cat st) = ∅ /\ _mapType2Lock (s_cat st) = ∅ /\
    (length (_vecLatch (s_cat st)) <= CAT_MAX_LATCH_SIZE)%nat /\
    forall l m, latches (s_cat st) !! l = Some m -> l ∈ _vecLatch (s_cat st) /\ held m = Readers 0.
Proof. apply (catLocks_leave_nothing demo_ops). vm_compute. reflexivity. Defined.

(** A latch that cannot be allocated leaves its node, and the root above
    it, in the tree although nothing is locked: [getSubTreeNode] has created
    the node, and the failed attempt forgets it without releasing it. *)
Theorem failed_latch_leaves_node :
  exists st : sys, sys_run [(1, LockCollectionSpace "foo" SHARED)] (sys_init [true; false])
      = Some ([false], st) /\
    s_held st = [] /\ size (nodes (s_cat st)) = 2%nat /\ size (_mapType2Lock (s_cat st)) = 1%nat.
Proof. eexists. split; [vm_compute; reflexivity|]. by vm_compute. Qed.
